(* ===== verification/_CoqProject ===== *)
-Q . S2P
Prelude.v
OrdMap.v
Utf8.v
External.v
Float64.v
Wire.v
Out.v
JsonWrite.v
JsonRead.v
JsonText.v
TermJson.v
Labels.v
Loki.v
IngestLimits.v
Cursor.v
MetricValue.v
Exemplar.v
NativeHistogram.v
RemoteWrite.v
OtlpTraces.v
OtlpMerge.v
OtlpInteger.v
StableHash.v
MetricPostings.v
PostingsBuild.v
Patterns.v
QueryFilter.v
LogTiers.v
Structural.v
TraceFields.v
TempoExpression.v
JsonSim.v
TraceSortKey.v
JsonSlice.v
JsonRegion.v
TraceMetadata.v
TraceReparse.v
TraceEnvelope.v
TraceSearch.v
LogLabels.v
LogRollup.v
LogMetric.v
RollupLines.v
LogScan.v
MetricSegment.v
MetricTiers.v
TierSeries.v
TierGroups.v
TierRows.v
TierSummary.v
TierOrder.v
TierRollups.v
TierFinalize.v
TierHour.v
TierRead.v
TraceMetrics.v
TraceMetricsScan.v
TraceMetricsRecord.v
TraceMetricsRank.v
TraceMetricsOut.v
TempoSpelling.v
TempoDiscovery.v
TempoTags.v
