(* ===== verification/Prelude.v ===== *)
(** * A model of the Pulso codec

    Pulso is an observability store: an Elixir application keeps logs, metrics
    and traces, and three Rust libraries do the byte-level work for it.
    src/native/pulso_codec decodes what clients push (Loki, Prometheus remote
    write, OTLP), converts between JSON and Erlang terms and reads and writes
    stored segments; src/native/pulso_grpc and src/native/pulso_object_store
    are asynchronous front ends to a gRPC server and to object storage.  This
    library models the codec as executable definitions: the ingest half, with
    what makes it safe to run on untrusted bytes, and the parts of the query
    half that decide answers, with what makes those answers exact.

    ** Parts of the program and their files

    The file names below src/native/pulso_codec/src are those of the source;
    a definition carries the name of the function or type it translates.

    - wire.rs, the protobuf reader every decoder is built on, and the field
      loop of the decoders: [Wire].  Its writer is that of exemplar.rs and
      native_histogram.rs.
    - labels.rs, the parser of Loki's label strings with Go escapes: [Labels].
    - loki.rs, the push decoder (streams, entries, metadata, deduplication):
      [Loki].
    - ingest_limits.rs, the preflights that bound a request before it is
      decoded: [IngestLimits].  They call the reader and the label parser, and
      they are what makes the decoders' allocations bounded.
    - exemplar.rs and native_histogram.rs, two messages of remote write with
      their stored form and their Erlang structs: [Exemplar],
      [NativeHistogram], over the cursor of [Cursor]; metric_value.rs, the
      terms of IEEE values: [MetricValue].
    - remote_write.rs, both versions of the protocol, with the hand-written
      sample reader: [RemoteWrite].
    - otlp_traces.rs, the schema tables, the strict reader and the preflight of
      OTLP requests: [OtlpTraces]; otlp_merge.rs, the decoder that follows it,
      which merges fields into plans and turns the plans into terms:
      [OtlpMerge]; otlp_json_integer.rs, the protocol integers of OTLP JSON:
      [OtlpInteger].
    - stable_hash.rs, the identity of a series: [StableHash].
    - json_read.rs, the JSON parser over any builder: [JsonRead], with the
      text it accepts in [JsonText]; json_write.rs, out.rs and bounded_json.rs,
      the writers and their sinks: [JsonWrite], [Out]; term_json.rs, the term
      encoder and the term builder: [TermJson].
    - metric_postings.rs, the footer index of metric segments: [MetricPostings],
      and what it says of the rows it was built from: [PostingsBuild].
    - query_filter.rs, label matchers and line filters over stored rows:
      [QueryFilter]; patterns.rs, the log pattern miner: [Patterns];
      log_tiers.rs, regrouping of stored segments: [LogTiers].
    - metric_segment_parquet.rs, the labels and rows a metric segment stores:
      [MetricSegment]; metric_tiers.rs, the finalization of an hour and its
      rollups: [MetricTiers].  Its theory is in [TierSeries] (interned labels and
      their ranks), [TierGroups] (cutting rows into outputs), [TierRows]
      (additions), [TierSummary] and [TierRollups] (the samples of a series and
      their aggregates), [TierOrder] and [TierFinalize] (the order and the plan
      of the outputs); the theorems are in [TierHour] and [TierRead].
    - log_rollup.rs, counts of log lines per minute and stream: [LogRollup];
      log_metric.rs, LogQL range aggregations: the labels of a line and its
      pipeline in [LogLabels], the scan state in [LogMetric], its theorems in
      [LogScan] (lines) and [RollupLines] (rollups against lines).
    - tempo_expression.rs, TraceQL programs over one stored span:
      [TempoExpression], over the row readers of trace_search.rs and
      tempo_search.rs in [TraceFields]; structural joins: [Structural].
    - trace_sort_key.rs, the order of stored spans: [TraceSortKey];
      trace_metadata.rs, the validator of the typed envelope: [TraceMetadata],
      the oracle of its differential test and their equality: [TraceReparse],
      its agreement with the query's own readers: [TraceEnvelope];
      trace_search.rs: [TraceSearch].
    - trace_metrics.rs, TraceQL metrics: the query, its intervals, measuring
      and recording in [TraceMetrics], the finished series and the response in
      [TraceMetricsOut]; the theorems are in [TraceMetricsScan] (batches and
      threads), [TraceMetricsRecord] (the series of the observations),
      [TraceMetricsRank] (the second stage) and [TraceMetricsOut].
    - tempo_discovery.rs, tag names and values, with the predicates and the row
      validation of tempo_search.rs: [TempoDiscovery], its theorem in
      [TempoTags]; tempo_duration.rs and tempo_float.rs, the spellings of Go:
      [TempoSpelling].
    - [JsonSim], [JsonSlice] and [JsonRegion] are the theory of the JSON parser
      those files share: two builders in lockstep, parsing a slice again, and
      where the values of a document lie.
    - [OrdMap] is the standard library's ordered map.
    - [Utf8] and [Float64] are the parts of the standard library the code
      relies on (UTF-8 validation, IEEE doubles and their decimal reading).
      [External] states, as type classes, what the code expects of crates that
      are not in the repository (simdutf8, memchr, itoa, ryu, xxhash, the
      Erlang binary allocator), with a concrete instance of each in its module
      [Concrete], so that every theorem that assumes one can be instantiated.

    ** How the code is translated

    Bytes, offsets and machine integers are integers of [Z]; [byte_list] says
    that bytes are bytes, and every operation that can wrap, saturate or fail
    at its width is written that way ([wrap_u64], [sat_u64], [checked_u64],
    [as_i64]).  A function that can fail returns [option], or [res] where it
    contains a loop; [let*] and [let?] are the question mark operator.
    Mutable state is passed explicitly: readers and parsers return the advanced
    reader, builders and sinks are type classes whose methods return the new
    value.  Loops are structural where they can be and otherwise take fuel; the
    outcome [Fuel] is neither success nor failure of the program, and each loop
    has a theorem that the fuel it is given is enough (one unit per input byte
    and one for the end, or twice that for the JSON parser).  The exception is
    the sample reader of remote write, where running out of fuel is the
    program's own behaviour: see [RemoteWrite].

    ** What the theorems show

    - Decoders answer every input and store only valid data: Loki records and
      remote-write series, points and metadata are well formed whatever the
      bytes, stored and rejected entries add up to what was sent, and a request
      fails as a whole exactly on wire corruption ([Loki], [RemoteWrite]).
    - Preflights bound the decoders: a request that passes is decoded within
      its record, attribute, node and depth budgets ([IngestLimits],
      [RemoteWrite], [OtlpTraces]).
    - Encodings are inverted by their readers: protobuf fields, label strings,
      exemplars, histograms and their terms, base64 and hex, and the whole way
      from terms to JSON text and back ([Wire], [Labels], [Exemplar],
      [NativeHistogram], [OtlpTraces], [TermJson]).
    - Optimised routines agree with plain ones: chunked string writing, the
      counting and the bounded sinks against a byte vector, the budgeted label
      parser against the plain one, the streaming hash against the one-shot
      one, the hand-written sample reader against the shared reader on
      well-formed messages ([JsonWrite], [Out], [Labels], [StableHash],
      [RemoteWrite]).
    - OTLP messages given in parts merge as protobuf says, and the merged plans
      agree with their schema and keep the attribute budgets of every owner
      however the input splits, repeats or replaces values ([OtlpMerge]).
    - OTLP integers written in any decimal notation are read exactly
      ([OtlpInteger]).
    - Termination of parsers and preflights, and the depth and stack discipline
      of the JSON parser ([JsonRead], [IngestLimits], [OtlpTraces]).
    - Indexes and filters lose nothing: the footer index keeps exactly the row
      groups with a matching row, row filters decide by the map and the string
      the encoder wrote, and mined patterns match the lines they are spelled
      like ([PostingsBuild], [QueryFilter], [Patterns]).
    - An hour of metrics is finalized exactly: additions gather the rows of the
      partition or fail, partitions cover all rows, the outputs hold every row
      once in the order of metric, series and time with the metrics that fit kept
      whole, summaries are exact over the samples of their series, and rollups
      are read back as they were stored ([TierHour], [TierRead]).
    - State over many segments is exact: regrouping conserves rows, the miner
      keeps the templates used last and counts the lines sent to them, rollups hold exact sums and
      compose, a scan through rollups ends as one through lines, log metric and
      trace answers list exactly what was selected, within their budgets
      ([LogTiers], [Patterns], [LogRollup], [RollupLines], [LogScan],
      [TraceSearch]).
    - A TraceQL metrics query is one pass over the rows: its series are exactly
      those of the rows' observations and its budgets are charged for exactly
      them, whatever the batches and threads; extremes, the ranking and the
      two-pass response are exact ([TraceMetricsRecord], [TraceMetricsRank],
      [TraceMetricsOut]).
    - The tags of stored spans are the union of the tags of their rows, whatever
      the files and batches, within the limits on rows, work, pairs and bytes
      ([TempoTags]); durations and floats are spelled without loss
      ([TempoSpelling]).
    - Queries mean what they say: TraceQL programs compile to the trees they
      spell and evaluate to their truth, structural joins return what their
      relations describe, span keys identify values, the one-pass validator
      agrees with reading level by level, and evaluating with its result agrees
      with evaluating without ([TempoExpression], [Structural], [TraceSortKey],
      [TraceReparse], [TraceEnvelope]).
    - Places where the code and its comments part: a remote-write v1 sample on
      which the decoder never returns, a malformed v1 series that does not fail
      its request, native histograms a comment calls rejected, a nesting depth
      the encoder writes and the parser refuses ([RemoteWrite], [TermJson]); the
      order and the matching of mined patterns ([Patterns]); what line filters
      see, absent labels and escaped surrogates ([QueryFilter]); a mark that
      reading rollups never makes ([MetricTiers]).

    ** What the parameters are

    A segment file is opened by the parquet and arrow crates: the models that
    read one ([LogRollup], [LogMetric], [TraceSearch], [LogTiers],
    [MetricPostings], [MetricTiers], [TraceMetrics], [TempoDiscovery]) take as parameter the rows, the columns or
    the footer that comes out, with, for [LogRollup] and [TierRead], the law that
    a written file reads back.  Compiled
    regular expressions and substring searchers are functions on bytes; the
    logarithm, the power and the least and greatest of two floats are those of
    the platform ([TraceMetrics]).  A
    mutex with an optional state is that option; locks that are poisoned by a
    panic are not modelled, and a panic is an error value where one is possible.

    ** What is not modelled

    The column conversions of segment_parquet.rs, metric_segment_parquet.rs and
    trace_segment_parquet.rs beyond the row decisions above, the regular
    expression policy with its generated Unicode tables, the state of the
    TraceQL search, log and metric discovery and trace export.  The decoding of
    query arguments from Erlang terms, the entry points of lib.rs and the two
    asynchronous libraries convert arguments and do input and output.

    ** This file

    Shared vocabulary: bytes and slices, machine integers, the result type of
    fallible code, automation, and the generic lemmas of the other files. *)

From stdpp Require Export base list numbers option.
From Stdlib Require Export ZArith Lia.
From Stdlib Require String Ascii.
Export String.StringSyntax.
#[global] Open Scope Z_scope.
#[export] Set Default Goal Selector "!".
#[export] Set Warnings "-register-all".

(** * Results of fallible code *)

(** [Ok] and [Err] are Rust's; [Fuel] is the outcome of a loop of the model
    whose fuel ran out before the loop of the source ended.  No theorem treats
    it as an answer of the program. *)
Inductive res (E A : Type) : Type :=
| Ok (a : A)
| Err (e : E)
| Fuel.
Arguments Ok {E A} a.
Arguments Err {E A} e.
Arguments Fuel {E A}.

Declare Scope res_scope.
Delimit Scope res_scope with res.
#[global] Open Scope res_scope.

(** The [?] operator of Rust on [Result]. *)
Notation "'let?' p := e 'in' k" :=
  (match e with Ok p => k | Err err => Err err | Fuel => Fuel end)
  (at level 10, p pattern, e at level 100, k at level 200)
  : res_scope.

(** The [?] operator on [Option], inside a function that returns an option. *)
Notation "'let*' p := e 'in' k" :=
  (match e with Some p => k | None => None end)
  (at level 10, p pattern, e at level 100, k at level 200)
  : res_scope.

(** [o.ok_or(e)]. *)
Definition ok_or {E A} (o : option A) (e : E) : res E A :=
  match o with Some a => Ok a | None => Err e end.

(** A function that returns [Option] and contains a loop: [None] is [Err tt]. *)
Abbreviation opt A := (res unit A).
Abbreviation Nothing := (Err tt).

Definition is_fuel {E A} (r : res E A) : Prop :=
  match r with Fuel => True | _ => False end.

(** [for x in l { acc = f(acc, x)?; }]. *)
Fixpoint foldM {E A B} (f : A -> B -> res E A) (acc : A) (l : list B) : res E A :=
  match l with
  | [] => Ok acc
  | x :: l => let? acc := f acc x in foldM f acc l
  end.

(** [iter.map(f).collect::<Option<Vec<_>>>()]. *)
Fixpoint mapO {A B} (f : A -> option B) (l : list A) : option (list B) :=
  match l with
  | [] => Some []
  | x :: l => let* y := f x in let* ys := mapO f l in Some (y :: ys)
  end.

(** * Slices *)

Abbreviation bytes := (list Z).

Definition len {A} (l : list A) : Z := Z.of_nat (length l).

(** [l.get(i)]; the range test comes first, so that a huge index is not turned
    into a unary number. *)
Definition get {A} (l : list A) (i : Z) : option A :=
  if (0 <=? i) && (i <? len l) then l !! Z.to_nat i else None.

(** [l[a..b]] where the caller has established [0 <= a <= b <= len l]. *)
Definition slice {A} (l : list A) (a b : Z) : list A :=
  take (Z.to_nat (b - a)) (drop (Z.to_nat a) l).

(** [l.get(a..b)]. *)
Definition get_range {A} (l : list A) (a b : Z) : option (list A) :=
  if (0 <=? a) && (a <=? b) && (b <=? len l) then Some (slice l a b) else None.

(** [l[start..].starts_with(word)]. *)
Definition starts_at (l word : bytes) (start : Z) : bool :=
  bool_decide (slice l start (start + len word) = word).

Definition is_byte (b : Z) : bool := (0 <=? b) && (b <? 256).
Definition byte_list (l : bytes) : Prop := Forall (fun b => 0 <= b < 256) l.

(** [Cow<[u8]>]: whether a string borrows from the input is observable by
    builders that intern keys. *)
Inductive Cow : Type :=
| Borrowed (b : bytes)
| Owned (b : bytes).
Definition cow_bytes (c : Cow) : bytes := match c with Borrowed b | Owned b => b end.

(** [while f(buf.get(pos)) { pos += 1 }]: the length of the longest prefix. *)
Fixpoint prefix_len (f : Z -> bool) (l : bytes) : Z :=
  match l with
  | x :: l => if f x then 1 + prefix_len f l else 0
  | [] => 0
  end.

(** The bytes of an ASCII literal, [b"..."]. *)
Definition str (s : String.string) : bytes :=
  map (fun c => Z.of_N (Ascii.N_of_ascii c)) (String.list_ascii_of_string s).
Arguments str s%_string_scope.

(** Lexicographic order of byte slices, [Ord for [u8]]. *)
Fixpoint bytes_compare (a b : bytes) : comparison :=
  match a, b with
  | [], [] => Eq
  | [], _ :: _ => Lt
  | _ :: _, [] => Gt
  | x :: a, y :: b => match x ?= y with Eq => bytes_compare a b | c => c end
  end.
Definition bytes_ltb (a b : bytes) : bool :=
  match bytes_compare a b with Lt => true | _ => false end.
Definition bytes_leb (a b : bytes) : bool :=
  match bytes_compare a b with Gt => false | _ => true end.
Definition bytes_eqb (a b : bytes) : bool := bool_decide (a = b).

(** [for w in l.windows(2)]: adjacent pairs. *)
Fixpoint windows2 {A} (l : list A) : list (A * A) :=
  match l with
  | x :: ((y :: _) as l') => (x, y) :: windows2 l'
  | _ => []
  end.

(** [sort_by(|a, b| key(a).cmp(key(b)))]: Rust's stable sort, as insertion. *)
Section Sorting.
Context {A : Type} (leb : A -> A -> bool).
Fixpoint sort_insert (x : A) (l : list A) : list A :=
  match l with
  | [] => [x]
  | y :: l' => if leb x y then x :: l else y :: sort_insert x l'
  end.
Fixpoint sort_by (l : list A) : list A :=
  match l with
  | [] => []
  | x :: l => sort_insert x (sort_by l)
  end.
End Sorting.

(** * Machine integers *)

Definition U64 : Z := 18446744073709551616.
Definition U64_MAX : Z := 18446744073709551615.
Definition I64_MAX : Z := 9223372036854775807.
Definition I64_MIN : Z := -9223372036854775808.

Definition wrap_u64 (z : Z) : Z := z mod U64.
(** [v as i64]. *)
Definition as_i64 (v : Z) : Z :=
  let m := wrap_u64 v in if m <=? I64_MAX then m else m - U64.
Definition checked_u64 (z : Z) : option Z :=
  if (0 <=? z) && (z <=? U64_MAX) then Some z else None.
Definition checked_i64 (z : Z) : option Z :=
  if (I64_MIN <=? z) && (z <=? I64_MAX) then Some z else None.
Definition sat_u64 (z : Z) : Z := Z.max 0 (Z.min z U64_MAX).
Definition sat_i64 (z : Z) : Z := Z.max I64_MIN (Z.min z I64_MAX).
Definition checked_u8 (z : Z) : option Z :=
  if (0 <=? z) && (z <=? 255) then Some z else None.
Definition checked_u32 (z : Z) : option Z :=
  if (0 <=? z) && (z <=? 4294967295) then Some z else None.
Definition checked_i32 (z : Z) : option Z :=
  if (-2147483648 <=? z) && (z <=? 2147483647) then Some z else None.

(** * Automation *)

Create HintDb pulso.
Create Rewrite HintDb len.

(** Turn the boolean tests of the code into arithmetic facts. *)
Ltac bools :=
  repeat match goal with
  | H : (_ && _)%bool = true |- _ => apply andb_true_iff in H; destruct H
  | H : (_ || _)%bool = false |- _ => apply orb_false_iff in H; destruct H
  | H : negb _ = true |- _ => apply negb_true_iff in H
  | H : negb _ = false |- _ => apply negb_false_iff in H
  | H : (_ <=? _) = true |- _ => apply Z.leb_le in H
  | H : (_ <=? _) = false |- _ => apply Z.leb_gt in H
  | H : (_ <? _) = true |- _ => apply Z.ltb_lt in H
  | H : (_ <? _) = false |- _ => apply Z.ltb_ge in H
  | H : (_ =? _) = true |- _ => apply Z.eqb_eq in H
  | H : (_ =? _) = false |- _ => apply Z.eqb_neq in H
  end.

(** Case analysis on a test or a match that blocks the hypothesis [H]. *)
Ltac case_in H :=
  repeat match type of H with
  | context [match ?x with _ => _ end] =>
      let E := fresh "E" in destruct x eqn:E; try discriminate H
  end.

(** Case analysis on what blocks the goal. *)
Ltac case_goal :=
  repeat match goal with
  | |- context [match ?x with _ => _ end] =>
      let E := fresh "E" in destruct x eqn:E; try discriminate
  end.

(** [lia] with quotients and remainders. *)
Ltac dlia := Z.div_mod_to_equations; lia.

(** * Generic lemmas *)

Lemma len_nonneg {A} (l : list A) : 0 <= len l.
Proof. unfold len. lia. Qed.
#[export] Hint Resolve len_nonneg : pulso.

Lemma len_app {A} (l k : list A) : len (l ++ k) = len l + len k.
Proof. unfold len. rewrite length_app. lia. Qed.
Lemma len_cons {A} (x : A) l : len (x :: l) = 1 + len l.
Proof. unfold len. rewrite length_cons. lia. Qed.
Lemma len_nil {A} : len ([] : list A) = 0.
Proof. done. Qed.
Lemma len_map {A B} (f : A -> B) l : len (map f l) = len l.
Proof. unfold len. by rewrite length_map. Qed.
#[export] Hint Rewrite @len_app @len_cons @len_nil @len_map : len.

(** Decide linear goals over lengths of concatenations. *)
Ltac len_lia :=
  autorewrite with len in *;
  repeat match goal with
  | |- context [len ?l] => lazymatch goal with
      | _ : 0 <= len l |- _ => fail
      | _ => pose proof (len_nonneg l) end
  | _ : context [len ?l] |- _ => lazymatch goal with
      | _ : 0 <= len l |- _ => fail
      | _ => pose proof (len_nonneg l) end
  end; lia.

(** Split a conjunction and close its parts by computation or arithmetic. *)
Ltac conj := split_and!; first [done | len_lia].

Lemma prefix_len_bound f l : 0 <= prefix_len f l <= len l.
Proof. induction l as [|x l IH]; simpl; [done|]. destruct (f x); len_lia. Qed.

Lemma prefix_len_app f a suf : Forall (fun c => f c = true) a ->
  match head suf with Some c => f c = false | None => True end -> prefix_len f (a ++ suf) = len a.
Proof.
  intros Ha Hs. induction Ha as [|c a Hc Ha IH]; simpl.
  - destruct suf as [|c suf]; [done|]. simpl in *. by rewrite Hs.
  - rewrite Hc, IH. len_lia.
Qed.

Lemma get_Some_bound {A} (l : list A) i x : get l i = Some x -> 0 <= i < len l.
Proof. unfold get. intros H. case_in H. bools. lia. Qed.

Lemma get_None_bound {A} (l : list A) i : 0 <= i -> get l i = None -> len l <= i.
Proof.
  unfold get. intros Hi H. case_in H; bools; [|].
  - apply lookup_ge_None in H. unfold len in *. lia.
  - apply andb_false_iff in E as [E|E]; bools; lia.
Qed.

Lemma get_is_Some {A} (l : list A) i : 0 <= i < len l -> is_Some (get l i).
Proof.
  intros Hi. unfold get.
  replace ((0 <=? i) && (i <? len l)) with true by (symmetry; apply andb_true_iff; lia).
  apply lookup_lt_is_Some. unfold len in Hi. lia.
Qed.

Lemma get_app_mid {A} (pre : list A) x suf : get (pre ++ x :: suf) (len pre) = Some x.
Proof.
  unfold get.
  replace ((0 <=? len pre) && (len pre <? len (pre ++ x :: suf))) with true
    by (symmetry; apply andb_true_iff; len_lia).
  unfold len. rewrite Nat2Z.id. by apply list_lookup_middle.
Qed.

Lemma get_Some_elem {A} (l : list A) i x : get l i = Some x -> x ∈ l.
Proof. unfold get. intros H. case_in H. by eapply list_elem_of_lookup_2. Qed.

Lemma slice_app_mid {A} (pre mid suf : list A) :
  slice (pre ++ mid ++ suf) (len pre) (len pre + len mid) = mid.
Proof.
  unfold slice. replace (len pre + len mid - len pre) with (len mid) by lia.
  unfold len. rewrite !Nat2Z.id, drop_app_length. by rewrite take_app_length.
Qed.

Lemma len_slice {A} (l : list A) a b :
  0 <= a <= b -> b <= len l -> len (slice l a b) = b - a.
Proof.
  intros Ha Hb. unfold slice, len in *. rewrite length_take, length_drop. lia.
Qed.

Lemma slice_sublist_elem {A} (l : list A) a b x : x ∈ slice l a b -> x ∈ l.
Proof.
  unfold slice. intros H. eapply elem_of_submseteq; [exact H|].
  etrans; [apply submseteq_take|apply submseteq_drop].
Qed.

Lemma byte_list_slice l a b : byte_list l -> byte_list (slice l a b).
Proof. unfold byte_list, slice. intros H. by apply Forall_take, Forall_drop. Qed.
#[export] Hint Resolve byte_list_slice : pulso.

Lemma byte_list_app a b : byte_list (a ++ b) <-> byte_list a /\ byte_list b.
Proof. apply Forall_app. Qed.

Lemma get_range_Some {A} (l : list A) a b s :
  get_range l a b = Some s <-> s = slice l a b /\ 0 <= a <= b /\ b <= len l.
Proof.
  unfold get_range. split.
  - intros H. case_in H. injection H as <-. bools. split; [done|lia].
  - intros (-> & Ha & Hb).
    by replace ((0 <=? a) && (a <=? b) && (b <=? len l)) with true
      by (symmetry; rewrite !andb_true_iff; lia).
Qed.

Lemma get_range_app_mid {A} (pre mid suf : list A) :
  get_range (pre ++ mid ++ suf) (len pre) (len pre + len mid) = Some mid.
Proof. apply get_range_Some. rewrite slice_app_mid. split; [done|len_lia]. Qed.

Lemma bytes_compare_eq a b : bytes_compare a b = Eq <-> a = b.
Proof.
  revert b. induction a as [|x a IH]; intros [|y b]; simpl; try (split; congruence).
  destruct (Z.compare_spec x y) as [->|H|H].
  - rewrite IH. split; congruence.
  - split; [done|]. intros [= -> ->]. lia.
  - split; [done|]. intros [= -> ->]. lia.
Qed.

Lemma bytes_compare_antisym a b : bytes_compare b a = CompOpp (bytes_compare a b).
Proof.
  revert b. induction a as [|x a IH]; intros [|y b]; simpl; try done.
  rewrite (Z.compare_antisym x y). by destruct (x ?= y); simpl.
Qed.

Lemma bytes_compare_lt_trans a b c :
  bytes_compare a b = Lt -> bytes_compare b c = Lt -> bytes_compare a c = Lt.
Proof.
  revert b c. induction a as [|x a IH]; intros [|y b] [|z c]; simpl; try done.
  destruct (Z.compare_spec x y), (Z.compare_spec y z), (Z.compare_spec x z);
    subst; try done; try lia; eauto.
Qed.

Lemma bytes_eqb_eq a b : bytes_eqb a b = true <-> a = b.
Proof. unfold bytes_eqb. apply bool_decide_eq_true. Qed.

Lemma foldM_app {E A B} (f : A -> B -> res E A) acc l k :
  foldM f acc (l ++ k) = let? acc := foldM f acc l in foldM f acc k.
Proof. revert acc. induction l as [|x l IH]; intros acc; simpl; [done|]. by destruct (f acc x). Qed.

Lemma foldM_not_fuel {E A B} (f : A -> B -> res E A) acc l :
  (forall a x, x ∈ l -> f a x <> Fuel) -> foldM f acc l <> Fuel.
Proof.
  revert acc. induction l as [|x l IH]; intros acc Hf; simpl; [done|].
  destruct (f acc x) eqn:Ef; [|done|].
  - apply IH. intros b y Hy. apply Hf. by right.
  - exfalso. eapply Hf; [left|exact Ef].
Qed.

(** An invariant of the accumulator of a fallible loop. *)
Lemma foldM_inv {E A B} (P : A -> Prop) (f : A -> B -> res E A) acc l r :
  P acc -> (forall a x b, x ∈ l -> P a -> f a x = Ok b -> P b) ->
  foldM f acc l = Ok r -> P r.
Proof.
  revert acc. induction l as [|x l IH]; intros acc H0 Hstep H; simpl in H.
  - by injection H as <-.
  - destruct (f acc x) eqn:Ef; try discriminate.
    eapply IH; [|intros; eapply Hstep; [by right|..]; eauto|exact H].
    eapply Hstep; eauto. by left.
Qed.

(** * Bit operations as arithmetic *)

Lemma land_127 z : Z.land z 127 = z mod 128.
Proof. exact (Z.land_ones z 7 ltac:(lia)). Qed.
Lemma land_7 z : Z.land z 7 = z mod 8.
Proof. exact (Z.land_ones z 3 ltac:(lia)). Qed.

(** A test over all bytes, decided by evaluation. *)
Lemma byte_forall (P : Z -> bool) :
  forallb P (map Z.of_nat (seq 0 256)) = true -> forall b, 0 <= b < 256 -> P b = true.
Proof.
  intros H b Hb. rewrite forallb_forall in H. apply H.
  apply in_map_iff. exists (Z.to_nat b). split; [lia|]. apply in_seq. lia.
Qed.

Lemma land_128_zero z : 0 <= z < 256 -> (Z.land z 128 =? 0) = (z <? 128).
Proof.
  intros Hz. apply eqb_prop. revert z Hz.
  apply (byte_forall (fun z => eqb (Z.land z 128 =? 0) (z <? 128))). vm_compute. done.
Qed.

Lemma lor_shiftl_add a c s :
  0 <= s -> 0 <= a < 2 ^ s -> 0 <= c -> Z.lor a (Z.shiftl c s) = a + c * 2 ^ s.
Proof.
  intros Hs Ha Hc. rewrite <- Z.shiftl_mul_pow2 by lia.
  assert (Hland : Z.land a (Z.shiftl c s) = 0).
  { apply Z.bits_inj'. intros i Hi. rewrite Z.land_spec, Z.bits_0.
    destruct (Z_lt_dec i s).
    - rewrite (Z.shiftl_spec_low c s i) by lia. apply andb_false_r.
    - rewrite <- (Z.mod_small a (2 ^ s)) by lia.
      by rewrite Z.mod_pow2_bits_high by lia. }
  symmetry. rewrite <- Z.lxor_lor by done. by apply Z.add_nocarry_lxor.
Qed.

(** * Sorting *)

Section SortingFacts.
Context {A : Type} (leb : A -> A -> bool).

Lemma sort_insert_perm x l : sort_insert leb x l ≡ₚ x :: l.
Proof.
  induction l as [|y l IH]; simpl; [done|]. destruct (leb x y); [done|].
  rewrite IH. apply Permutation_swap.
Qed.

Lemma sort_by_perm l : sort_by leb l ≡ₚ l.
Proof. induction l as [|x l IH]; simpl; [done|]. by rewrite sort_insert_perm, IH. Qed.

Hypothesis total : forall a b, leb a b = false -> leb b a = true.

Definition sorted (l : list A) : Prop := Forall (fun '(a, b) => leb a b = true) (windows2 l).

Lemma sort_insert_sorted x l : sorted l -> sorted (sort_insert leb x l).
Proof.
  unfold sorted. induction l as [|y l IH]; intros Hl; [constructor|]. simpl.
  destruct (leb x y) eqn:E; [by constructor|].
  assert (Ht : Forall (fun '(a, b) => leb a b = true) (windows2 l))
    by (destruct l; [constructor|by apply Forall_cons_1 in Hl as [_ ?]]).
  specialize (IH Ht). destruct l as [|z l]; simpl in *.
  - constructor; [by apply total|constructor].
  - destruct (leb x z) eqn:Ez.
    + constructor; [by apply total|done].
    + apply Forall_cons_1 in Hl as [Hyz _]. constructor; [done|exact IH].
Qed.

Lemma sort_by_sorted l : sorted (sort_by leb l).
Proof. induction l as [|x l IH]; simpl; [constructor|]. by apply sort_insert_sorted. Qed.

(** Sorting leaves a sorted list alone. *)
Lemma sort_by_id l : sorted l -> sort_by leb l = l.
Proof.
  unfold sorted. induction l as [|x l IH]; intros Hl; [done|]. simpl.
  rewrite IH by (destruct l; [constructor|by apply Forall_cons_1 in Hl as [_ ?]]).
  destruct l as [|y l]; [done|]. simpl in *. apply Forall_cons_1 in Hl as [-> _]. done.
Qed.
End SortingFacts.

Lemma bytes_leb_total a b : bytes_leb a b = false -> bytes_leb b a = true.
Proof. unfold bytes_leb. rewrite (bytes_compare_antisym a b). by destruct (bytes_compare a b). Qed.

Lemma bytes_ltb_leb a b : bytes_ltb a b = negb (bytes_leb b a).
Proof. unfold bytes_ltb, bytes_leb. rewrite (bytes_compare_antisym a b). by destruct (bytes_compare a b). Qed.

(** A strictly increasing chain of keys has no duplicates. *)
Lemma windows_distinct {A B} (f : A -> B) (l : list A) : NoDup (map f l) -> Forall (fun '(a, b) => f a <> f b) (windows2 l).
Proof.
  induction l as [|x [|y l] IH]; intros Hn; [constructor..|]. cbn [map] in Hn. inversion Hn as [|? ? Hx Hn']; subst. change (windows2 (x :: y :: l)) with ((x, y) :: windows2 (y :: l)). constructor; [|by apply IH]. intros E. apply Hx. rewrite E. by constructor.
Qed.

Lemma chain_nodup {A} (key : A -> bytes) l :
  Forall (fun '(a, b) => bytes_ltb (key a) (key b) = true) (windows2 l) -> NoDup (map key l).
Proof.
  enough (G : Forall (fun '(a, b) => bytes_ltb (key a) (key b) = true) (windows2 l) ->
    NoDup (map key l) /\ forall x l', l = x :: l' -> Forall (fun k => bytes_ltb (key x) k = true) (map key l'))
    by (intros H; apply (proj1 (G H))).
  assert (Hlt : forall a b, bytes_ltb a b = true -> bytes_compare a b = Lt)
    by (intros a b; unfold bytes_ltb; by destruct (bytes_compare a b)).
  induction l as [|x l IH]; intros Hw; [split; [constructor|done]|].
  destruct l as [|y l].
  { split; [apply NoDup_singleton|]. intros z l' [= <- <-]. constructor. }
  simpl in Hw. apply Forall_cons_1 in Hw as [Hxy Hw]. destruct (IH Hw) as [Hn Hf].
  assert (Hx : Forall (fun k => bytes_ltb (key x) k = true) (map key (y :: l))).
  { constructor; [done|]. eapply Forall_impl; [|exact (Hf y l eq_refl)]. intros k Hk. unfold bytes_ltb.
    by rewrite (bytes_compare_lt_trans _ (key y) k) by by apply Hlt. }
  split; [|by intros z l' [= <- <-]]. apply list.NoDup_cons. split; [|done].
  intros Hin. rewrite list.Forall_forall in Hx. specialize (Hx _ Hin). apply Hlt in Hx.
  assert (bytes_compare (key x) (key x) = Eq) by by apply bytes_compare_eq. congruence.
Qed.

Lemma bytes_leb_antisym a b : bytes_leb a b = true -> bytes_leb b a = true -> a = b.
Proof.
  unfold bytes_leb. rewrite (bytes_compare_antisym a b). destruct (bytes_compare a b) eqn:E; [|done..].
  intros _ _. by apply bytes_compare_eq.
Qed.

(** A chain of a transitive relation relates its head to the rest, so dropping
    elements keeps it a chain. *)
Lemma chain_filter {A} (R : A -> A -> Prop) (f : A -> bool) l :
  (forall a b c, R a b -> R b c -> R a c) ->
  Forall (fun '(a, b) => R a b) (windows2 l) -> Forall (fun '(a, b) => R a b) (windows2 (List.filter f l)).
Proof.
  intros Ht. assert (G : forall l, Forall (fun '(a, b) => R a b) (windows2 l) ->
    Forall (fun '(a, b) => R a b) (windows2 (List.filter f l)) /\
    forall x, (forall y, head l = Some y -> R x y) -> forall y, head (List.filter f l) = Some y -> R x y).
  { clear l. induction l as [|y l IH]; intros Hl; [done|].
    assert (Hl' : Forall (fun '(a, b) => R a b) (windows2 l))
      by (destruct l; [constructor|by apply Forall_cons_1 in Hl as [_ ?]]).
    assert (Hy : forall z, head l = Some z -> R y z)
      by (destruct l; [done|]; apply Forall_cons_1 in Hl as [? _]; by intros z [= <-]).
    destruct (IH Hl') as [IH1 IH2]. specialize (IH2 y Hy). simpl. destruct (f y); split.
    - destruct (List.filter f l) as [|z l'] eqn:E; [constructor|]. constructor; [by apply IH2|done].
    - intros x Hx z [= <-]. by apply Hx.
    - done.
    - intros x Hx z Hz. eapply Ht; [by apply Hx|by apply IH2]. }
  intros Hl. by apply G.
Qed.

Lemma bytes_ltb_trans a b c : bytes_ltb a b = true -> bytes_ltb b c = true -> bytes_ltb a c = true.
Proof.
  assert (Hlt : forall a b, bytes_ltb a b = true -> bytes_compare a b = Lt)
    by (intros x y; unfold bytes_ltb; by destruct (bytes_compare x y)).
  intros H1 H2. unfold bytes_ltb. by rewrite (bytes_compare_lt_trans a b c) by by apply Hlt.
Qed.

(** Sorting by key and finding no equal neighbours gives strictly increasing
    keys. *)
Lemma sort_distinct_chain {B} (l : list (bytes * B)) :
  let l' := sort_by (fun a b => bytes_leb (fst a) (fst b)) l in
  Forall (fun '(a, b) => bytes_eqb (fst a) (fst b) = false) (windows2 l') ->
  Forall (fun '(a, b) => bytes_ltb (fst a) (fst b) = true) (windows2 l').
Proof.
  set (leb := fun a b : bytes * B => bytes_leb (fst a) (fst b)). intros l' Eu.
  pose proof (sort_by_sorted leb (fun a b => bytes_leb_total (fst a) (fst b)) l) as Hs. unfold sorted in Hs.
  rewrite Forall_forall in *. intros [a b] Hin. specialize (Eu (a, b) Hin). specialize (Hs (a, b) Hin). simpl in *.
  rewrite bytes_ltb_leb. destruct (bytes_leb (fst b) (fst a)) eqn:Eb; [|done]. exfalso.
  rewrite (bytes_leb_antisym _ _ Hs Eb), (proj2 (bytes_eqb_eq _ _)) in Eu; done.
Qed.

(** ** Positions *)

Lemma get_snoc {A} (l : list A) x i : get (l ++ [x]) i = if i =? len l then Some x else get l i.
Proof.
  unfold get. rewrite len_app. change (len [x]) with 1. destruct (Z.eqb_spec i (len l)) as [->|Hn].
  - pose proof (len_nonneg l). rewrite (proj2 (Z.leb_le _ _)), (proj2 (Z.ltb_lt _ _)) by lia. cbn. unfold len. rewrite Nat2Z.id, lookup_app_r, Nat.sub_diag by lia. done.
  - destruct ((0 <=? i) && (i <? len l)) eqn:E.
    + replace ((0 <=? i) && (i <? len l + 1)) with true by (symmetry; bools; lia). bools. apply lookup_app_l. unfold len in *. lia.
    + replace ((0 <=? i) && (i <? len l + 1)) with false; [done|]. symmetry. apply andb_false_iff in E as [E|E]; [by rewrite E|]. apply andb_false_iff. right. bools. lia.
Qed.

Lemma get_elem {A} (l : list A) x : x ∈ l -> exists i, get l i = Some x.
Proof.
  intros Hx. apply list_elem_of_lookup_1 in Hx as [i Hi]. exists (Z.of_nat i). unfold get. apply lookup_lt_Some in Hi as Hl. replace ((0 <=? Z.of_nat i) && (Z.of_nat i <? len l)) with true by (symmetry; unfold len; bools; lia). by rewrite Nat2Z.id.
Qed.

Lemma get_lookup {A} (l : list A) (n : nat) : get l (Z.of_nat n) = l !! n.
Proof.
  unfold get. destruct (l !! n) as [x|] eqn:E.
  - apply lookup_lt_Some in E as Hl. replace ((0 <=? Z.of_nat n) && (Z.of_nat n <? len l)) with true by (symmetry; unfold len; bools; lia). by rewrite Nat2Z.id.
  - destruct (_ && _); [by rewrite Nat2Z.id|done].
Qed.
