(* ===== verification/OrdMap.v ===== *)
(** Ordered maps: the standard library's [BTreeMap] as the list of its entries
    in increasing order of their keys, the order in which the code iterates.

    The order of the keys is a type class, with instances for integers, byte
    strings, options, pairs and lists. *)

From stdpp Require Import sorting.
From S2P Require Import Prelude.

(** [Ord]: a total order by comparison. *)
Class Ordered (K : Type) : Type := {
  cmp : K -> K -> comparison;
  cmp_eq : forall a b, cmp a b = Eq <-> a = b;
  cmp_antisym : forall a b, cmp b a = CompOpp (cmp a b);
  cmp_lt_trans : forall a b c, cmp a b = Lt -> cmp b c = Lt -> cmp a c = Lt
}.

#[export] Instance Ordered_Z : Ordered Z.
Proof.
  refine {| cmp := Z.compare |}; [exact Z.compare_eq_iff|intros a b; by rewrite Z.compare_antisym|].
  intros a b c. rewrite !Z.compare_lt_iff. lia.
Defined.

#[export] Instance Ordered_bytes : Ordered bytes :=
  {| cmp := bytes_compare; cmp_eq := bytes_compare_eq; cmp_antisym := bytes_compare_antisym;
     cmp_lt_trans := bytes_compare_lt_trans |}.

(** [None] is less than every [Some]. *)
#[export] Instance Ordered_option {K} `{Ordered K} : Ordered (option K).
Proof.
  refine {| cmp a b := match a, b with
                       | None, None => Eq | None, Some _ => Lt | Some _, None => Gt
                       | Some x, Some y => cmp x y end |}.
  - intros [x|] [y|]; rewrite ?cmp_eq; split; congruence.
  - intros [x|] [y|]; try done. apply cmp_antisym.
  - intros [x|] [y|] [z|]; try done. apply cmp_lt_trans.
Defined.

(** Pairs compare their first components first. *)
#[export] Instance Ordered_pair {K L} `{Ordered K} `{Ordered L} : Ordered (K * L).
Proof.
  refine {| cmp a b := match cmp (fst a) (fst b) with Eq => cmp (snd a) (snd b) | c => c end |}.
  - intros [a b] [c d]; cbn. pose proof (cmp_eq a c) as H1. destruct (cmp a c); [|split; try done; intros [= -> ->]..].
    + rewrite cmp_eq. split; [intros ->|intros [= ->]]; [|done]. by rewrite (proj1 H1).
    + by rewrite (proj2 H1).
    + by rewrite (proj2 H1).
  - intros [a b] [c d]; cbn. rewrite (cmp_antisym a c). destruct (cmp a c); cbn; [apply cmp_antisym|done..].
  - intros [a b] [c d] [e f]; cbn. destruct (cmp a c) eqn:E1, (cmp c e) eqn:E2; try done.
    + apply cmp_eq in E1 as ->. apply cmp_eq in E2 as ->. rewrite (proj2 (cmp_eq e e) eq_refl). apply cmp_lt_trans.
    + apply cmp_eq in E1 as ->. by rewrite E2.
    + apply cmp_eq in E2 as ->. by rewrite E1.
    + by rewrite (cmp_lt_trans _ _ _ E1 E2).
Defined.

(** Lists compare lexicographically, a proper prefix is less. *)
Fixpoint list_cmp {K} `{Ordered K} (l k : list K) : comparison :=
  match l, k with
  | [], [] => Eq
  | [], _ => Lt
  | _, [] => Gt
  | x :: l, y :: k => match cmp x y with Eq => list_cmp l k | c => c end
  end.

#[export] Instance Ordered_list {K} `{Ordered K} : Ordered (list K) | 20.
Proof.
  refine {| cmp := list_cmp |}.
  - induction a as [|x a IH]; intros [|y b]; cbn; try (split; congruence).
    pose proof (cmp_eq x y) as Hx. destruct (cmp x y); [|split; [done|intros [= -> ->]; by destruct (proj2 Hx eq_refl)]..].
    rewrite IH. rewrite (proj1 Hx eq_refl). split; [by intros ->|by intros [= ->]].
  - induction a as [|x a IH]; intros [|y b]; cbn; try done. rewrite (cmp_antisym x y). destruct (cmp x y); [apply IH|done..].
  - induction a as [|x a IH]; intros [|y b] [|z c]; cbn; try done. destruct (cmp x y) eqn:E1, (cmp y z) eqn:E2; try done.
    + apply cmp_eq in E1 as ->. apply cmp_eq in E2 as ->. rewrite (proj2 (cmp_eq z z) eq_refl). apply IH.
    + apply cmp_eq in E1 as ->. by rewrite E2.
    + apply cmp_eq in E2 as ->. by rewrite E1.
    + by rewrite (cmp_lt_trans _ _ _ E1 E2).
Defined.

Section Map.
Context {K : Type} `{Ordered K} {V : Type}.

Definition omap : Type := list (K * V).

Fixpoint find (k : K) (m : omap) : option V :=
  match m with
  | [] => None
  | (j, v) :: m => match cmp j k with Eq => Some v | _ => find k m end
  end.

(** [insert]: replace, or place before the first greater key. *)
Fixpoint put (k : K) (v : V) (m : omap) : omap :=
  match m with
  | [] => [(k, v)]
  | (j, w) :: m => match cmp j k with Eq => (k, v) :: m | Gt => (k, v) :: (j, w) :: m | Lt => (j, w) :: put k v m end
  end.

Fixpoint remove (k : K) (m : omap) : omap :=
  match m with
  | [] => []
  | (j, w) :: m => match cmp j k with Eq => m | _ => (j, w) :: remove k m end
  end.

(** [entry(k).or_default()] followed by an update. *)
Definition update (k : K) (d : V) (f : V -> V) (m : omap) : omap := put k (f (default d (find k m))) m.

Definition keys (m : omap) : list K := map fst m.

Definition less (a b : K * V) : Prop := cmp (fst a) (fst b) = Lt.
(** The entries are in strictly increasing order. *)
Definition ordered (m : omap) : Prop := Forall (fun '(a, b) => less a b) (windows2 m).

Lemma cmp_refl k : cmp k k = Eq.
Proof. by apply cmp_eq. Qed.

Lemma cmp_gt_lt j k : cmp j k = Gt -> cmp k j = Lt.
Proof. intros E. by rewrite cmp_antisym, E. Qed.

Lemma find_put k v m j : find j (put k v m) = match cmp k j with Eq => Some v | _ => find j m end.
Proof.
  induction m as [|[i w] m IH]; cbn [put find]; [done|]. destruct (cmp i k) eqn:E; cbn [find].
  - apply cmp_eq in E as ->. by destruct (cmp k j).
  - destruct (cmp i j) eqn:Ej; [|done..]. apply cmp_eq in Ej as ->. by rewrite cmp_antisym, E.
  - by destruct (cmp k j).
Qed.

Lemma find_put_same k v m : find k (put k v m) = Some v.
Proof. by rewrite find_put, cmp_refl. Qed.

Lemma find_put_other k v m j : k <> j -> find j (put k v m) = find j m.
Proof. intros Hn. rewrite find_put. destruct (cmp k j) eqn:E; [|done..]. by apply cmp_eq in E. Qed.

Lemma find_in k v m : find k m = Some v -> (k, v) ∈ m.
Proof.
  induction m as [|[j w] m IH]; cbn; [done|]. destruct (cmp j k) eqn:E; [apply cmp_eq in E as ->; intros [= ->]; apply list_elem_of_here|..];
    intros Hf; by apply list_elem_of_further, IH.
Qed.

Lemma put_in k v m e : e ∈ put k v m -> e = (k, v) \/ e ∈ m.
Proof.
  induction m as [|[j u] m IH]; cbn [put]; [rewrite list_elem_of_singleton; by left|].
  destruct (cmp j k); rewrite !elem_of_cons; [tauto| |tauto]. intros [E|E]; [tauto|]. apply IH in E. tauto.
Qed.

Lemma remove_in k m e : e ∈ remove k m -> e ∈ m.
Proof.
  induction m as [|[j u] m IH]; cbn [remove]; [done|]. destruct (cmp j k); rewrite !elem_of_cons; tauto.
Qed.

Lemma ordered_cons e m : ordered (e :: m) <-> ordered m /\ forall f, head m = Some f -> less e f.
Proof.
  unfold ordered. destruct m as [|f m]; cbn.
  - split; [intros _; split; [constructor|done]|intros _; constructor].
  - split; [intros Hc; apply Forall_cons_1 in Hc as [H1 H2]; split; [done|by intros g [= <-]]|].
    intros [H1 H2]. constructor; [by apply H2|done].
Qed.

(** The head is less than every later entry. *)
Lemma ordered_head e m f : ordered (e :: m) -> f ∈ m -> less e f.
Proof.
  revert e. induction m as [|g m IH]; intros e Ho Hin; [by apply not_elem_of_nil in Hin|].
  apply ordered_cons in Ho as [Hm Hh]. specialize (Hh g eq_refl). apply elem_of_cons in Hin as [->|Hin]; [done|].
  eapply cmp_lt_trans; [exact Hh|by apply IH].
Qed.

Lemma ordered_cons_all e m : ordered m -> (forall f, f ∈ m -> less e f) -> ordered (e :: m).
Proof.
  intros Hm Hf. apply ordered_cons. split; [done|]. intros f Hh. apply Hf. destruct m; [done|]. injection Hh as ->. apply list_elem_of_here.
Qed.

Lemma ordered_tail e m : ordered (e :: m) -> ordered m.
Proof. by intros [? _]%ordered_cons. Qed.

Lemma put_ordered k v m : ordered m -> ordered (put k v m).
Proof.
  induction m as [|[j u] m IH]; intros Ho; cbn [put]; [constructor|]. pose proof (ordered_tail _ _ Ho) as Hm.
  destruct (cmp j k) eqn:E.
  - apply cmp_eq in E as ->. apply ordered_cons_all; [done|]. intros f Hf. by apply (ordered_head (k, u) m).
  - apply ordered_cons_all; [by apply IH|]. intros f Hf. apply put_in in Hf as [->|Hf]; [done|by apply (ordered_head _ m)].
  - apply cmp_gt_lt in E. apply ordered_cons_all; [done|]. intros f [->|Hf]%elem_of_cons; [done|].
    eapply cmp_lt_trans; [exact E|by apply (ordered_head (j, u) m)].
Qed.

Lemma filter_ordered (g : K * V -> bool) m : ordered m -> ordered (List.filter g m).
Proof. intros Ho. apply (chain_filter less); [|exact Ho]. intros a b c. apply cmp_lt_trans. Qed.

Lemma remove_ordered k m : ordered m -> ordered (remove k m).
Proof.
  induction m as [|[j u] m IH]; intros Ho; cbn [remove]; [done|]. pose proof (ordered_tail _ _ Ho) as Hm.
  destruct (cmp j k); [done|..]; (apply ordered_cons_all; [by apply IH|]); intros f Hf;
    apply (ordered_head (j, u) m); [done|by eapply remove_in|done|by eapply remove_in].
Qed.

Lemma ordered_nodup m : ordered m -> NoDup (keys m).
Proof.
  induction m as [|e m IH]; intros Ho; [constructor|]. cbn. apply list.NoDup_cons. split; [|apply IH; by eapply ordered_tail].
  intros Hin. apply list_elem_of_In, in_map_iff in Hin as (f & E & Hin). apply list_elem_of_In in Hin.
  pose proof (ordered_head e m f Ho Hin) as Hl. unfold less in Hl. rewrite E, cmp_refl in Hl. done.
Qed.

(** A key is found exactly where it is an entry. *)
Lemma find_iff k v m : ordered m -> find k m = Some v <-> (k, v) ∈ m.
Proof.
  intros Ho. split; [apply find_in|]. induction m as [|[j w] m IH]; intros Hin; [by apply not_elem_of_nil in Hin|].
  cbn [find]. apply elem_of_cons in Hin as [[= <- <-]|Hin]; [by rewrite cmp_refl|].
  pose proof (ordered_head _ _ _ Ho Hin) as Hl. unfold less in Hl. cbn in Hl. rewrite Hl. apply IH; [by eapply ordered_tail|done].
Qed.

(** No later entry has a key at or below the head's. *)
Lemma find_below j w m k : ordered ((j, w) :: m) -> cmp k j <> Gt -> find k m = None.
Proof.
  intros Ho Hk. destruct (find k m) as [v|] eqn:E; [|done]. exfalso. apply find_in in E.
  pose proof (ordered_head _ _ _ Ho E) as Hl. unfold less in Hl. cbn in Hl. rewrite (cmp_antisym j k), Hl in Hk. done.
Qed.

Lemma find_remove k m j : ordered m -> find j (remove k m) = match cmp k j with Eq => None | _ => find j m end.
Proof.
  induction m as [|[i w] m IH]; intros Ho; cbn [remove find]; [by destruct (cmp k j)|].
  specialize (IH (ordered_tail _ _ Ho)). destruct (cmp i k) eqn:E; cbn [find].
  - apply cmp_eq in E as ->. destruct (cmp k j) eqn:Ej; [|done..]. apply cmp_eq in Ej as ->.
    apply (find_below j w m); [done|]. by rewrite cmp_refl.
  - rewrite IH. destruct (cmp k j) eqn:Ej; [|done..]. apply cmp_eq in Ej as ->. by rewrite E.
  - rewrite IH. destruct (cmp k j) eqn:Ej; [|done..]. apply cmp_eq in Ej as ->. by rewrite E.
Qed.

(** Ordered maps are equal when they agree on every key. *)
Lemma find_ext m n : ordered m -> ordered n -> (forall k, find k m = find k n) -> m = n.
Proof.
  revert n. induction m as [|[j v] m IH]; intros [|[k w] n] Hm Hn Hf; [done|..].
  - specialize (Hf k). cbn in Hf. by rewrite cmp_refl in Hf.
  - specialize (Hf j). cbn in Hf. by rewrite cmp_refl in Hf.
  - assert (j = k) as <-.
    { destruct (cmp j k) eqn:E; [by apply cmp_eq|..].
      - pose proof (Hf j) as Hj. cbn in Hj. rewrite cmp_refl, cmp_antisym, E in Hj. cbn in Hj. symmetry in Hj.
        rewrite (find_below k w n j Hn) in Hj; [done|by rewrite E].
      - pose proof (Hf k) as Hj. cbn in Hj. rewrite cmp_refl, E in Hj.
        rewrite (find_below j v m k Hm) in Hj; [done|]. by rewrite cmp_antisym, E. }
    pose proof (Hf j) as Hj. cbn in Hj. rewrite cmp_refl in Hj. injection Hj as ->. f_equal.
    apply IH; [by eapply ordered_tail..|]. intros i. specialize (Hf i). cbn in Hf. destruct (cmp j i) eqn:E; [|done..].
    apply cmp_eq in E as ->. rewrite (find_below i w m i Hm), (find_below i w n i Hn); by rewrite ?cmp_refl.
Qed.

Lemma put_new_perm k v m : find k m = None -> put k v m ≡ₚ (k, v) :: m.
Proof.
  induction m as [|[j w] m IH]; cbn [find put]; [done|]. destruct (cmp j k); [done| |done]. intros Hf.
  rewrite IH by done. apply Permutation_swap.
Qed.

Lemma put_len_new k v m : find k m = None -> len (put k v m) = len m + 1.
Proof. intros E. pose proof (Permutation_length (put_new_perm k v m E)) as Hp. unfold len. rewrite Hp. cbn [length]. lia. Qed.

Lemma put_len_old k v m w : ordered m -> find k m = Some w -> len (put k v m) = len m.
Proof.
  induction m as [|[j x] m IH]; [done|]. intros Ho. cbn [find put]. destruct (cmp j k) eqn:E; [done| |]; intros Hf.
  - rewrite !len_cons, IH; [done|by apply ordered_tail in Ho|done].
  - rewrite (find_below j x m k Ho) in Hf; [done|]. by rewrite cmp_antisym, E.
Qed.

Lemma put_length k v m : len m <= len (put k v m) <= len m + 1.
Proof.
  induction m as [|[j w] m IH]; cbn [put]; [len_lia|]. destruct (cmp j k); rewrite ?len_cons in *; lia.
Qed.

(** ** Sums over the entries *)

Definition msum (w : K -> V -> Z) (m : omap) : Z := fold_right (fun e n => w (fst e) (snd e) + n) 0 m.

Lemma msum_cons w e m : msum w (e :: m) = w (fst e) (snd e) + msum w m.
Proof. done. Qed.

Lemma msum_put w k v m : ordered m -> msum w (put k v m) = msum w m - from_option (w k) 0 (find k m) + w k v.
Proof.
  induction m as [|[j u] m IH]; intros Ho; cbn [put find]; [cbn; lia|].
  pose proof (find_below _ _ _ k Ho) as Hb. destruct (cmp j k) eqn:E.
  - apply cmp_eq in E as ->. cbn. lia.
  - specialize (IH (ordered_tail _ _ Ho)). rewrite !msum_cons, IH. cbn. lia.
  - apply cmp_gt_lt in E. rewrite Hb by by rewrite E. cbn. lia.
Qed.

Lemma msum_remove w k m : ordered m -> msum w (remove k m) = msum w m - from_option (w k) 0 (find k m).
Proof.
  induction m as [|[j u] m IH]; intros Ho; cbn [remove find]; [cbn; lia|].
  specialize (IH (ordered_tail _ _ Ho)). destruct (cmp j k) eqn:E.
  - apply cmp_eq in E as ->. rewrite msum_cons. cbn. lia.
  - rewrite !msum_cons, IH. lia.
  - rewrite !msum_cons, IH. lia.
Qed.

Lemma msum_filter w g m : (forall k v, 0 <= w k v) -> msum w (List.filter g m) <= msum w m.
Proof.
  intros Hw. unfold msum. induction m as [|e m IH]; cbn [List.filter fold_right]; [done|].
  specialize (Hw (fst e) (snd e)). destruct (g e); cbn [fold_right]; lia.
Qed.
End Map.
Arguments omap K V : clear implicits.

(** * Sorting by a key *)

Section ByKey.
Context {A K : Type} `{Ordered K} (key : A -> K).

Definition key_le (a b : A) : bool := match cmp (key a) (key b) with Gt => false | _ => true end.
Definition key_leP (a b : A) : Prop := key_le a b = true.

Lemma key_le_total a b : key_le a b = false -> key_le b a = true.
Proof. unfold key_le. rewrite (cmp_antisym (key a) (key b)). by destruct (cmp (key a) (key b)). Qed.

Lemma key_le_cases a b : key_leP a b <-> cmp (key a) (key b) = Lt \/ key a = key b.
Proof.
  unfold key_leP, key_le. rewrite <- (cmp_eq (key a) (key b)). destruct (cmp (key a) (key b)); split; try tauto; try done; intros [?|?]; done.
Qed.

Lemma key_le_trans a b c : key_leP a b -> key_leP b c -> key_leP a c.
Proof.
  rewrite !key_le_cases. intros [H1|H1] [H2|H2]; [left; by eapply cmp_lt_trans|left; congruence|left; congruence|right; congruence].
Qed.

Lemma key_le_antisym a b : key_leP a b -> key_leP b a -> key a = key b.
Proof.
  rewrite !key_le_cases. intros [H1|H1] [H2|H2]; try done. rewrite cmp_antisym, H1 in H2. done.
Qed.

Lemma sorted_strongly l : sorted key_le l -> StronglySorted key_leP l.
Proof.
  unfold sorted. induction l as [|x l IH]; [constructor|]. intros Hs. destruct l as [|y l]; [by repeat constructor|]. cbn [windows2] in Hs.
  inversion_clear Hs as [|? ? H1 H2]. specialize (IH H2). constructor; [done|]. inversion_clear IH as [|? ? H3 H4]. constructor; [exact H1|].
  eapply Forall_impl; [|exact H4]. intros z Hz. eapply key_le_trans; [exact H1|exact Hz].
Qed.

Lemma sort_strongly l : StronglySorted key_leP (sort_by key_le l).
Proof. apply sorted_strongly, sort_by_sorted, key_le_total. Qed.
End ByKey.
