(* ===== verification/Utf8.v ===== *)
(** UTF-8 as the standard library of Rust has it ([str::from_utf8],
    [char::from_u32], [char::encode_utf8], [str::chars]). *)

From S2P Require Import Prelude.

Definition is_cont (b : Z) : bool := (128 <=? b) && (b <=? 191).
Definition between (lo x hi : Z) : bool := (lo <=? x) && (x <=? hi).

(** [char::from_u32]: the Unicode scalar values. *)
Definition is_scalar (c : Z) : bool := between 0 c 0xD7FF || between 0xE000 c 0x10FFFF.
Definition char_from_u32 (c : Z) : option Z := if is_scalar c then Some c else None.

(** [char::encode_utf8]. *)
Definition encode_utf8 (c : Z) : bytes :=
  if c <? 0x80 then [c]
  else if c <? 0x800 then [0xC0 + c / 64; 0x80 + c mod 64]
  else if c <? 0x10000 then [0xE0 + c / 4096; 0x80 + c / 64 mod 64; 0x80 + c mod 64]
  else [0xF0 + c / 262144; 0x80 + c / 4096 mod 64; 0x80 + c / 64 mod 64; 0x80 + c mod 64].

(** The second byte allowed after a lead byte of a three- or four-byte
    sequence: no overlong forms, no surrogates, nothing past U+10FFFF. *)
Definition second3 (b0 b1 : Z) : bool :=
  if b0 =? 0xE0 then between 0xA0 b1 0xBF
  else if b0 =? 0xED then between 0x80 b1 0x9F
  else is_cont b1.
Definition second4 (b0 b1 : Z) : bool :=
  if b0 =? 0xF0 then between 0x90 b1 0xBF
  else if b0 =? 0xF4 then between 0x80 b1 0x8F
  else is_cont b1.

(** [from_utf8]: the characters of a well-formed input. *)
Fixpoint utf8_decode (l : bytes) : option (list Z) :=
  match l with
  | [] => Some []
  | b0 :: l1 =>
      if between 0 b0 0x7F then let* cs := utf8_decode l1 in Some (b0 :: cs)
      else if between 0xC2 b0 0xDF then
        match l1 with
        | b1 :: l2 =>
            if is_cont b1 then
              let* cs := utf8_decode l2 in Some ((b0 - 0xC0) * 64 + (b1 - 0x80) :: cs)
            else None
        | _ => None
        end
      else if between 0xE0 b0 0xEF then
        match l1 with
        | b1 :: b2 :: l3 =>
            if second3 b0 b1 && is_cont b2 then
              let* cs := utf8_decode l3 in
              Some ((b0 - 0xE0) * 4096 + (b1 - 0x80) * 64 + (b2 - 0x80) :: cs)
            else None
        | _ => None
        end
      else if between 0xF0 b0 0xF4 then
        match l1 with
        | b1 :: b2 :: b3 :: l4 =>
            if second4 b0 b1 && is_cont b2 && is_cont b3 then
              let* cs := utf8_decode l4 in
              Some ((b0 - 0xF0) * 262144 + (b1 - 0x80) * 4096 + (b2 - 0x80) * 64 + (b3 - 0x80) :: cs)
            else None
        | _ => None
        end
      else None
  end.

Definition from_utf8_ok (l : bytes) : bool :=
  match utf8_decode l with Some _ => true | None => false end.

(** [s.chars().count()]. *)
Definition chars_count (l : bytes) : Z :=
  match utf8_decode l with Some cs => len cs | None => 0 end.

(** * Lemmas *)

(** Evaluate the range tests that lead to a branch of [utf8_decode]. *)
Ltac ranges :=
  unfold second3, second4, is_cont, between in *;
  repeat match goal with
  | |- context [if ?a <=? ?b then ?x else false] =>
      change (if a <=? b then x else false) with ((a <=? b) && x)
  | |- context [if (?a <=? ?b) && (?c <=? ?d) then _ else _] =>
      first [ replace ((a <=? b) && (c <=? d)) with true
                by (symmetry; apply andb_true_iff; rewrite !Z.leb_le; dlia)
            | replace ((a <=? b) && (c <=? d)) with false
                by (symmetry; apply andb_false_iff; rewrite !Z.leb_gt; dlia) ]; cbn [andb]
  | |- context [?a =? ?b] => destruct (Z.eqb_spec a b)
  | |- context [?a <=? ?b] =>
      replace (a <=? b) with true by (symmetry; apply Z.leb_le; dlia); cbn [andb]
  end.

Lemma is_scalar_spec c : is_scalar c = true <-> 0 <= c <= 0xD7FF \/ 0xE000 <= c <= 0x10FFFF.
Proof. unfold is_scalar, between. rewrite orb_true_iff, !andb_true_iff, !Z.leb_le. lia. Qed.

Lemma utf8_decode_encode c l :
  is_scalar c = true -> utf8_decode (encode_utf8 c ++ l) = let* cs := utf8_decode l in Some (c :: cs).
Proof.
  intros Hc. apply is_scalar_spec in Hc. unfold encode_utf8.
  destruct (Z.ltb_spec c 0x80); [|destruct (Z.ltb_spec c 0x800); [|destruct (Z.ltb_spec c 0x10000)]];
    cbn [app utf8_decode].
  - ranges. done.
  - ranges. destruct (utf8_decode l); [|done]. do 2 f_equal. dlia.
  - ranges; try dlia; (destruct (utf8_decode l); [|done]); do 2 f_equal; dlia.
  - ranges; try dlia; (destruct (utf8_decode l); [|done]); do 2 f_equal; dlia.
Qed.

(** Decoding is compositional on well-formed prefixes. *)
Lemma utf8_decode_app a b cs :
  utf8_decode a = Some cs -> utf8_decode (a ++ b) = let* ds := utf8_decode b in Some (cs ++ ds).
Proof.
  remember (length a) as n eqn:Hn. assert (Hle : (length a <= n)%nat) by lia. clear Hn.
  revert a cs Hle. induction n as [|n IH]; intros a cs Hle H.
  { destruct a; [|simpl in Hle; lia]. simpl in *. injection H as <-. by destruct (utf8_decode b). }
  destruct a as [|b0 a]; [simpl in *; injection H as <-; by destruct (utf8_decode b)|].
  simpl in Hle. cbn [app utf8_decode] in *.
  repeat match type of H with
    | context [if ?c then _ else _] => lazymatch type of c with bool => destruct c end
    | context [match ?l with [] => _ | _ :: _ => _ end] => destruct l; try done; cbn [app] in *
  end; try done;
  match type of H with context [utf8_decode ?l] => destruct (utf8_decode l) as [ds|] eqn:E; [|done] end;
  injection H as <-; rewrite (IH _ ds) by (done || (simpl in *; lia)); by destruct (utf8_decode b).
Qed.

Lemma from_utf8_ok_app a b : from_utf8_ok a = true -> from_utf8_ok (a ++ b) = from_utf8_ok b.
Proof.
  unfold from_utf8_ok. destruct (utf8_decode a) as [cs|] eqn:E; [|done]. intros _.
  rewrite (utf8_decode_app a b cs E). by destruct (utf8_decode b).
Qed.

Lemma from_utf8_ok_encode c : is_scalar c = true -> from_utf8_ok (encode_utf8 c) = true.
Proof.
  intros H. unfold from_utf8_ok. pose proof (utf8_decode_encode c [] H) as E.
  rewrite app_nil_r in E. by rewrite E.
Qed.

Lemma from_utf8_ok_ascii l : Forall (fun b => 0 <= b < 128) l -> from_utf8_ok l = true.
Proof.
  unfold from_utf8_ok. intros H.
  assert (utf8_decode l = Some l) as ->; [|done].
  induction H as [|b l Hb H IH]; [done|]. cbn [utf8_decode]. ranges. by rewrite IH.
Qed.

(** No byte of a well-formed string reaches 0xF5; in particular 0xFF never
    occurs, which makes it usable as a separator. *)
Lemma utf8_bytes_bound l : from_utf8_ok l = true -> Forall (fun b => 0 <= b <= 0xF4) l.
Proof.
  unfold from_utf8_ok. remember (length l) as n eqn:Hn.
  assert (Hle : (length l <= n)%nat) by lia. clear Hn.
  revert l Hle. induction n as [|n IH]; intros l Hle H;
    (destruct l as [|b0 l]; [constructor|]); simpl in Hle; [lia|].
  cbn [utf8_decode] in H.
  assert (Hrec : forall k, (length k <= n)%nat ->
    match (match utf8_decode k with Some _ => true | None => false end) with
    | true => Forall (fun b => 0 <= b <= 0xF4) k | false => True end).
  { intros k Hk. destruct (utf8_decode k) eqn:E; [|done]. apply IH; [done|by rewrite E]. }
  repeat match type of H with
    | context [if ?c then _ else _] =>
        lazymatch type of c with bool => let E := fresh "E" in destruct c eqn:E end
    | context [match ?l with [] => _ | _ :: _ => _ end] => destruct l; try done
  end; try done;
  match type of H with context [utf8_decode ?k] =>
    specialize (Hrec k ltac:(simpl in *; lia)); destruct (utf8_decode k); [|done] end;
  unfold second3, second4, is_cont, between in *; bools;
  repeat match goal with
    | H : context [if ?c then _ else _] |- _ => let E := fresh "E" in destruct c eqn:E
  end; bools; repeat (apply Forall_cons; [lia|]); done.
Qed.

(** Characters survive the encoder and the decoder. *)
Lemma utf8_roundtrip (cs : list Z) :
  Forall (fun c => is_scalar c = true) cs ->
  utf8_decode (concat (map encode_utf8 cs)) = Some cs.
Proof.
  induction 1 as [|c cs Hc H IH]; [done|]. simpl. by rewrite utf8_decode_encode, IH.
Qed.

(** Cutting a well-formed string before an ASCII byte leaves it well formed. *)
Lemma from_utf8_ok_prefix a c suf : 0 <= c < 128 -> from_utf8_ok (a ++ c :: suf) = true -> from_utf8_ok a = true.
Proof.
  intros Hc. unfold from_utf8_ok. remember (length a) as n eqn:Hn.
  assert (Hle : (length a <= n)%nat) by lia. clear Hn.
  assert (Hcont : is_cont c = false) by (unfold is_cont; apply andb_false_iff; left; apply Z.leb_gt; lia).
  assert (H3 : forall b, second3 b c = false).
  { intros b. unfold second3. case_match; [|case_match; [|done]]; apply andb_false_iff; left; apply Z.leb_gt; lia. }
  assert (H4 : forall b, second4 b c = false).
  { intros b. unfold second4. case_match; [|case_match; [|done]]; apply andb_false_iff; left; apply Z.leb_gt; lia. }
  revert a Hle. induction n as [|n IH]; intros a Hle H; (destruct a as [|b0 a]; [done|]); simpl in Hle; [lia|].
  assert (Hrec : forall k, (length k <= n)%nat ->
    match utf8_decode (k ++ c :: suf) with Some _ => true | None => false end = true ->
    exists cs, utf8_decode k = Some cs).
  { intros k Hk E. apply IH in E; [|done]. destruct (utf8_decode k); [by eexists|done]. }
  cbn [app utf8_decode] in *.
  destruct (between 0 b0 0x7F); [|destruct (between 0xC2 b0 0xDF); [|destruct (between 0xE0 b0 0xEF); [|
    destruct (between 0xF0 b0 0xF4); [|done]]]];
    repeat (match type of H with context [match ?l ++ _ with _ => _ end] => destruct l; cbn [app] in H end);
    repeat (match type of H with context [match ?l with [] => _ | _ :: _ => _ end] => destruct l; try discriminate H end);
    rewrite ?H3, ?H4, ?Hcont, ?andb_false_r in H; cbn [andb] in H; try done;
    repeat match type of H with context [if ?b then _ else _] =>
      lazymatch type of b with bool => destruct b end end; try done;
    match type of H with context [utf8_decode (?k ++ _)] => destruct (Hrec k) as [cs ->] end;
    try (simpl in *; lia); try done; by destruct (utf8_decode _).
Qed.
