(* ===== verification/External.v ===== *)
(** Interfaces of the third-party crates the codec calls.  Each is a type class
    whose operation is a parameter of the model and whose laws state the
    documented behaviour of the crate; the modules at the end give concrete
    functions that satisfy them, so that theorems over the interface are not
    vacuous. *)

From S2P Require Import Prelude Utf8.

(** [simdutf8::basic::from_utf8]: accepts what [core::str::from_utf8] accepts. *)
Class SimdUtf8 : Type := {
  simd_from_utf8 : bytes -> bool;
  simd_from_utf8_std : forall b, simd_from_utf8 b = from_utf8_ok b
}.

(** [memchr::memchr2(a, b, haystack)]: the first position of either byte. *)
Class Memchr2 : Type := {
  memchr2 : Z -> Z -> bytes -> option Z;
  memchr2_first : forall a b pre x suf,
    Forall (fun y => y <> a /\ y <> b) pre -> x = a \/ x = b ->
    memchr2 a b (pre ++ x :: suf) = Some (len pre);
  memchr2_none : forall a b l,
    Forall (fun y => y <> a /\ y <> b) l -> memchr2 a b l = None
}.

(** [itoa::Buffer::format]: the decimal spelling of an integer. *)
Fixpoint decimal_digits (fuel : nat) (n : Z) : bytes :=
  match fuel with
  | O => []
  | S fuel => if n <? 10 then [48 + n] else decimal_digits fuel (n / 10) ++ [48 + n mod 10]
  end.
(** The decimal spelling; a number of [k] bits has at most [k] decimal digits. *)
Definition decimal (n : Z) : bytes := decimal_digits (S (Z.to_nat (Z.log2 n))) n.
Definition decimal_Z (n : Z) : bytes := if n <? 0 then 45 :: decimal (- n) else decimal n.

Class Itoa : Type := {
  itoa_format : Z -> bytes;
  itoa_format_decimal : forall n, I64_MIN <= n <= U64_MAX -> itoa_format n = decimal_Z n
}.

(** [ryu::Buffer::format_finite], on the bits of the float. *)
Class Ryu : Type := { ryu_format_finite : Z -> bytes }.

(** [xxhash_rust::xxh64]: the one-shot digest and the streaming hasher. *)
Class Xxh64 : Type := {
  xxh64 : bytes -> Z -> Z;
  Hasher : Type;
  hasher_new : Z -> Hasher;
  hasher_update : Hasher -> bytes -> Hasher;
  hasher_digest : Hasher -> Z;
  hasher_stream : forall seed chunks,
    hasher_digest (fold_left hasher_update chunks (hasher_new seed)) = xxh64 (concat chunks) seed;
  xxh64_range : forall b seed, 0 <= seed < U64 -> 0 <= xxh64 b seed < U64
}.

(** [rustler::OwnedBinary]: an Erlang binary whose fresh bytes are unspecified.
    [realloc] answers [None] where the crate answers [false]. *)
Class OwnedBinary : Type := {
  owned_new : Z -> bytes;
  owned_realloc : bytes -> Z -> option bytes;
  owned_realloc_or_copy : bytes -> Z -> bytes;
  owned_new_len : forall n, 0 <= n -> len (owned_new n) = n;
  owned_realloc_len : forall b n b', 0 <= n -> owned_realloc b n = Some b' -> len b' = n;
  owned_realloc_prefix : forall b n b' k, 0 <= n -> owned_realloc b n = Some b' ->
    (k <= Z.to_nat n)%nat -> (k <= length b)%nat -> take k b' = take k b;
  owned_copy_len : forall b n, 0 <= n -> len (owned_realloc_or_copy b n) = n;
  owned_copy_prefix : forall b n k, 0 <= n ->
    (k <= Z.to_nat n)%nat -> (k <= length b)%nat ->
    take k (owned_realloc_or_copy b n) = take k b
}.

(** * Decimal spellings *)

Lemma decimal_digits_range fuel n : 0 <= n ->
  Forall (fun b => 48 <= b <= 57) (decimal_digits fuel n).
Proof.
  revert n. induction fuel as [|fuel IH]; intros n Hn; simpl; [constructor|].
  destruct (Z.ltb_spec n 10).
  - constructor; [lia|constructor].
  - apply Forall_app. split; [apply IH; dlia|]. constructor; [dlia|constructor].
Qed.

(** The value of a digit string, as every decoder of the codec computes it. *)
Definition digits_value (l : bytes) : Z := fold_left (fun n d => n * 10 + (d - 48)) l 0.

Lemma digits_value_snoc l d : digits_value (l ++ [d]) = digits_value l * 10 + (d - 48).
Proof. unfold digits_value. by rewrite fold_left_app. Qed.

Lemma digits_value_app a b : digits_value (a ++ b) = digits_value a * 10 ^ len b + digits_value b.
Proof.
  revert a. induction b as [|d b IH] using rev_ind; intros a.
  { rewrite app_nil_r. change (10 ^ len (@nil Z)) with 1. change (digits_value []) with 0. lia. }
  rewrite app_assoc, !digits_value_snoc, IH, len_app, Z.pow_add_r by len_lia. change (10 ^ len [d]) with 10. lia.
Qed.

Lemma digits_value_zeros n : digits_value (replicate n 48) = 0.
Proof.
  induction n as [|n IH]; [done|]. replace (S n) with (n + 1)%nat by lia. rewrite replicate_add. cbn [replicate]. by rewrite digits_value_snoc, IH.
Qed.

Lemma decimal_digits_value fuel n :
  0 <= n < 2 ^ Z.of_nat fuel -> digits_value (decimal_digits fuel n) = n.
Proof.
  revert n. induction fuel as [|fuel IH]; intros n Hn; [unfold digits_value; simpl in *; lia|].
  cbn [decimal_digits]. destruct (Z.ltb_spec n 10).
  - unfold digits_value. simpl. lia.
  - rewrite digits_value_snoc, IH; [dlia|].
    rewrite Nat2Z.inj_succ, Z.pow_succ_r in Hn by lia. dlia.
Qed.

Lemma decimal_fuel n : 0 <= n -> 0 <= n < 2 ^ Z.of_nat (S (Z.to_nat (Z.log2 n))).
Proof.
  intros Hn. split; [done|]. rewrite Nat2Z.inj_succ, Z2Nat.id by apply Z.log2_nonneg.
  destruct (Z.eq_dec n 0) as [->|]; [done|]. apply Z.log2_spec. lia.
Qed.

Lemma decimal_value n : 0 <= n -> digits_value (decimal n) = n.
Proof. intros Hn. by apply decimal_digits_value, decimal_fuel. Qed.

Lemma decimal_range n : 0 <= n -> Forall (fun b => 48 <= b <= 57) (decimal n).
Proof. apply decimal_digits_range. Qed.

(** No leading zero, except for zero itself. *)
Lemma decimal_digits_head fuel n :
  0 < n < 2 ^ Z.of_nat fuel -> exists d l, decimal_digits fuel n = d :: l /\ 49 <= d <= 57.
Proof.
  revert n. induction fuel as [|fuel IH]; intros n Hn; [simpl in *; lia|].
  cbn [decimal_digits]. destruct (Z.ltb_spec n 10).
  - exists (48 + n), []. split; [done|lia].
  - destruct (IH (n / 10)) as (d & l & -> & Hd).
    + rewrite Nat2Z.inj_succ, Z.pow_succ_r in Hn by lia. dlia.
    + by exists d, (l ++ [48 + n mod 10]).
Qed.

Lemma decimal_head n : 0 < n -> exists d l, decimal n = d :: l /\ 49 <= d <= 57.
Proof. intros Hn. apply decimal_digits_head. pose proof (decimal_fuel n). lia. Qed.

(** * Concrete instances *)

Module Concrete.

#[global] Program Instance simd_utf8 : SimdUtf8 := {| simd_from_utf8 := from_utf8_ok |}.
Next Obligation. done. Qed.

Fixpoint memchr2_ref (a b : Z) (l : bytes) : option Z :=
  match l with
  | [] => None
  | x :: l => if (x =? a) || (x =? b) then Some 0
              else let* i := memchr2_ref a b l in Some (i + 1)
  end.

Lemma memchr2_ref_first a b pre x suf :
  Forall (fun y => y <> a /\ y <> b) pre -> x = a \/ x = b ->
  memchr2_ref a b (pre ++ x :: suf) = Some (len pre).
Proof.
  intros Hp Hx. induction Hp as [|y pre [Hy1 Hy2] Hp IH]; simpl.
  - replace ((x =? a) || (x =? b)) with true; [done|].
    symmetry. apply orb_true_iff. rewrite !Z.eqb_eq. lia.
  - replace ((y =? a) || (y =? b)) with false
      by (symmetry; apply orb_false_iff; rewrite !Z.eqb_neq; lia).
    rewrite IH. f_equal. len_lia.
Qed.

Lemma memchr2_ref_none a b l :
  Forall (fun y => y <> a /\ y <> b) l -> memchr2_ref a b l = None.
Proof.
  induction 1 as [|y l [Hy1 Hy2] Hl IH]; simpl; [done|].
  replace ((y =? a) || (y =? b)) with false
    by (symmetry; apply orb_false_iff; rewrite !Z.eqb_neq; lia).
  by rewrite IH.
Qed.

#[global] Instance memchr : Memchr2 :=
  {| memchr2 := memchr2_ref; memchr2_first := memchr2_ref_first; memchr2_none := memchr2_ref_none |}.

#[global] Program Instance itoa : Itoa := {| itoa_format := decimal_Z |}.
Next Obligation. done. Qed.

(** Only the spelling of 1.5 is needed by the examples. *)
#[global] Instance ryu : Ryu := {| ryu_format_finite := fun _ => [49; 46; 53] |}.

(** A hash that is not xxh64 but streams like it. *)
Definition poly (l : bytes) (seed : Z) : Z := fold_left (fun h b => wrap_u64 (h * 31 + b)) l seed.

Lemma poly_stream seed chunks :
  fold_left (fun h c => poly c h) chunks seed = poly (concat chunks) seed.
Proof.
  revert seed. induction chunks as [|c chunks IH]; intros seed; simpl; [done|].
  rewrite IH. unfold poly. by rewrite fold_left_app.
Qed.

Lemma poly_range l seed : 0 <= seed < U64 -> 0 <= poly l seed < U64.
Proof.
  unfold poly. revert seed. induction l as [|b l IH]; intros seed Hs; cbn [fold_left]; [done|]. apply IH.
  by apply Z.mod_pos_bound.
Qed.

#[global] Instance xxh : Xxh64 :=
  {| xxh64 := poly; hasher_new := fun s => s; hasher_update := fun h c => poly c h;
     hasher_digest := fun h => h; hasher_stream := poly_stream; xxh64_range := poly_range |}.

(** Grow in place up to 64 bytes, copy beyond; fresh bytes are zero. *)
Definition resize_to (b : bytes) (n : Z) : bytes :=
  take (Z.to_nat n) b ++ replicate (Z.to_nat n - length b) 0.

Lemma resize_len b n : 0 <= n -> len (resize_to b n) = n.
Proof.
  intros Hn. unfold resize_to. rewrite len_app. unfold len.
  rewrite length_take, length_replicate. lia.
Qed.

Lemma resize_prefix b n k :
  (k <= Z.to_nat n)%nat -> (k <= length b)%nat -> take k (resize_to b n) = take k b.
Proof.
  intros Hk Hb. unfold resize_to.
  rewrite take_app_le by (rewrite length_take; lia). rewrite take_take. f_equal. lia.
Qed.

#[global] Program Instance owned : OwnedBinary :=
  {| owned_new := fun n => replicate (Z.to_nat n) 0;
     owned_realloc := fun b n => if n <=? 64 then Some (resize_to b n) else None;
     owned_realloc_or_copy := resize_to |}.
Next Obligation. intros n Hn. unfold len. rewrite length_replicate. lia. Qed.
Next Obligation. intros b n b' Hn H. simpl in H. destruct (n <=? 64); [injection H as <-|done]. by apply resize_len. Qed.
Next Obligation. intros b n b' k Hn H. simpl in H. destruct (n <=? 64); [injection H as <-|done]. by apply resize_prefix. Qed.
Next Obligation. intros b n. apply resize_len. Qed.
Next Obligation. intros b n k _. apply resize_prefix. Qed.

End Concrete.
