(* ===== verification/Float64.v ===== *)
(** IEEE 754 doubles as Rust's [f64]: a value is its 64 bits, arithmetic and
    comparison go through the specification floats of the standard library.
    A NaN keeps its payload until an operation produces a new one. *)

From Stdlib Require Import SpecFloat.
From S2P Require Import Prelude External.

Definition F64_INFINITY : Z := 0x7FF0000000000000.
Definition F64_NEG_INFINITY : Z := 0xFFF0000000000000.
(** [f64::NAN]: the quiet NaN. *)
Definition F64_NAN : Z := 0x7FF8000000000000.

Definition spec_of_bits (b : Z) : spec_float :=
  let s := 0x8000000000000000 <=? b in
  let e := b / 2 ^ 52 mod 2048 in
  let m := b mod 2 ^ 52 in
  if e =? 2047 then (if m =? 0 then S754_infinity s else S754_nan)
  else if e =? 0 then
    match m with Zpos p => S754_finite s p (-1074) | _ => S754_zero s end
  else match m + 2 ^ 52 with Zpos p => S754_finite s p (e - 1075) | _ => S754_zero s end.

(** [to_bits]: a 64-bit word. *)
Definition bits_of_spec (f : spec_float) : Z :=
  let sign (s : bool) := if s then 0x8000000000000000 else 0 in
  wrap_u64 match f with
  | S754_zero s => sign s
  | S754_infinity s => sign s + F64_INFINITY
  | S754_nan => F64_NAN
  | S754_finite s m e =>
      if Zpos m <? 2 ^ 52 then sign s + Zpos m
      else sign s + (e + 1075) * 2 ^ 52 + (Zpos m - 2 ^ 52)
  end.

Definition f64_is_nan (b : Z) : bool :=
  match spec_of_bits b with S754_nan => true | _ => false end.
Definition f64_is_finite (b : Z) : bool :=
  match spec_of_bits b with S754_nan | S754_infinity _ => false | _ => true end.
(** [f == 0.0], true of both zeros. *)
Definition f64_is_zero (b : Z) : bool :=
  match spec_of_bits b with S754_zero _ => true | _ => false end.

Definition f64_lt (a b : Z) : bool := SFltb (spec_of_bits a) (spec_of_bits b).
Definition f64_le (a b : Z) : bool := SFleb (spec_of_bits a) (spec_of_bits b).
Definition f64_eq (a b : Z) : bool := SFeqb (spec_of_bits a) (spec_of_bits b).
Definition f64_add (a b : Z) : Z :=
  bits_of_spec (SFadd 53 1024 (spec_of_bits a) (spec_of_bits b)).
(** [n as f64] for an integer. *)
Definition f64_of_Z (n : Z) : Z := bits_of_spec (binary_normalize 53 1024 n 0 false).

(** [text.parse::<f64>()] on a JSON number: sign, digits, optional fraction,
    optional exponent; the exact decimal value rounded to nearest, ties to even. *)
Definition f64_of_decimal (neg : bool) (m e : Z) : Z :=
  bits_of_spec
    match m with
    | Zpos p =>
        if 0 <=? e then
          let f := binary_normalize 53 1024 (Z.pos p * 10 ^ e) 0 false in
          if neg then SFopp f else f
        else SFdiv 53 1024 (S754_finite neg p 0) (S754_finite false (Z.to_pos (10 ^ (- e))) 0)
    | _ => S754_zero neg
    end.

Definition is_digit (b : Z) : bool := (48 <=? b) && (b <=? 57).

Fixpoint span (f : Z -> bool) (l : bytes) : bytes * bytes :=
  match l with
  | x :: l' => if f x then let (a, b) := span f l' in (x :: a, b) else ([], l)
  | [] => ([], [])
  end.

Definition parse_f64 (text : bytes) : Z :=
  let neg := bool_decide (head text = Some 45) in
  let t := if neg then tail text else text in
  let (ints, t) := span is_digit t in
  let '(fracs, t) :=
    match t with 46 :: t => span is_digit t | _ => ([], t) end in
  let exp :=
    match t with
    | e :: t =>
        if (e =? 101) || (e =? 69) then
          match t with
          | 43 :: t => digits_value (fst (span is_digit t))
          | 45 :: t => - digits_value (fst (span is_digit t))
          | _ => digits_value (fst (span is_digit t))
          end
        else 0
    | [] => 0
    end in
  f64_of_decimal neg (digits_value (ints ++ fracs)) (exp - len fracs).

(** Little-endian bytes, [to_le_bytes] and [from_le_bytes] at any width. *)
Fixpoint to_le_bytes (n : nat) (v : Z) : bytes :=
  match n with O => [] | S n => v mod 256 :: to_le_bytes n (v / 256) end.
Fixpoint from_le_bytes (l : bytes) : Z :=
  match l with [] => 0 | b :: l => b + 256 * from_le_bytes l end.

Lemma span_spec f l a r : span f l = (a, r) -> l = a ++ r /\ Forall (fun c => f c = true) a /\ match r with c :: _ => f c = false | [] => True end.
Proof.
  revert a r. induction l as [|c l IH]; intros a r; cbn; [by intros [= <- <-]|]. destruct (f c) eqn:E; [|by intros [= <- <-]]. destruct (span f l) as [a' r'] eqn:Es. intros [= <- <-]. destruct (IH _ _ eq_refl) as (-> & Ha & Hr). split; [done|]. split; [by constructor|done].
Qed.

Lemma span_app f a r : Forall (fun c => f c = true) a -> match r with c :: _ => f c = false | [] => True end -> span f (a ++ r) = (a, r).
Proof. induction 1 as [|c a Hc Ha IH]; intros Hr; cbn; [destruct r as [|x r]; [done|]; cbn; by rewrite Hr|]. by rewrite Hc, IH. Qed.

Lemma bits_of_spec_range f : 0 <= bits_of_spec f < U64.
Proof. unfold bits_of_spec. by apply Z.mod_pos_bound. Qed.
Lemma f64_of_Z_range n : 0 <= f64_of_Z n < U64.
Proof. apply bits_of_spec_range. Qed.

Lemma to_le_bytes_len n v : len (to_le_bytes n v) = Z.of_nat n.
Proof. revert v. induction n as [|n IH]; intros v; simpl; [done|]. rewrite len_cons, IH. lia. Qed.

Lemma from_to_le_bytes n v : 0 <= v < 256 ^ Z.of_nat n -> from_le_bytes (to_le_bytes n v) = v.
Proof.
  revert v. induction n as [|n IH]; intros v Hv; cbn [to_le_bytes from_le_bytes].
  - simpl in Hv. lia.
  - rewrite Nat2Z.inj_succ, Z.pow_succ_r in Hv by lia. rewrite IH; dlia.
Qed.

Lemma to_le_bytes_range n v : byte_list (to_le_bytes n v).
Proof. revert v. induction n as [|n IH]; intros v; simpl; constructor; [dlia|apply IH]. Qed.

Lemma from_le_bytes_bound l : byte_list l -> 0 <= from_le_bytes l < 256 ^ len l.
Proof.
  induction 1 as [|b l Hb Hl IH]; cbn [from_le_bytes]; [done|].
  rewrite len_cons, Z.pow_add_r by len_lia. lia.
Qed.

(** Spot checks of the decimal reader against known bit patterns. *)
Example parse_1_5 : parse_f64 [49; 46; 53] = 0x3FF8000000000000. Proof. vm_compute. reflexivity. Qed.
Example parse_minus_1e_5 : parse_f64 [45; 49; 101; 45; 53] = 0xBEE4F8B588E368F1.
Proof. vm_compute. reflexivity. Qed.
Example parse_0_1 : parse_f64 [48; 46; 49] = 0x3FB999999999999A. Proof. vm_compute. reflexivity. Qed.
Example parse_1e400 : parse_f64 [49; 101; 52; 48; 48] = F64_INFINITY. Proof. vm_compute. reflexivity. Qed.
Example parse_5e_324 : parse_f64 [53; 101; 45; 51; 50; 52] = 1. Proof. vm_compute. reflexivity. Qed.
Example parse_1e23 : parse_f64 [49; 101; 50; 51] = 0x44B52D02C7E14AF6. Proof. vm_compute. reflexivity. Qed.
