(* ===== verification/Wire.v ===== *)
(** The protobuf wire-format reader of native/pulso_codec/src/wire.rs, its
    field loop (the [while let Some(..) = r.next_field()?] of every decoder),
    and the wire format it inverts. *)

From S2P Require Import Prelude.

(** * The reader *)

Inductive Value : Type :=
| Varint (v : Z)
| Bytes (b : bytes)
| Fixed64 (b : bytes)
| Fixed32.

Record Reader : Type := mkReader { buf : bytes; pos : Z }.

Definition Reader_new (b : bytes) : Reader := mkReader b 0.

Definition set_pos (r : Reader) (p : Z) : Reader := mkReader r.(buf) p.

(** [(0..64).step_by(7)]. *)
Definition shifts : list Z := [0; 7; 14; 21; 28; 35; 42; 49; 56; 63].

Fixpoint varint_loop (shs : list Z) (out : Z) (r : Reader) : option (Z * Reader) :=
  match shs with
  | [] => None
  | shift :: shs =>
      let* byte := get r.(buf) r.(pos) in
      let r := set_pos r (r.(pos) + 1) in
      let out := Z.lor out (wrap_u64 (Z.shiftl (Z.land byte 127) shift)) in
      if Z.land byte 128 =? 0 then Some (out, r) else varint_loop shs out r
  end.

Definition varint (r : Reader) : option (Z * Reader) := varint_loop shifts 0 r.

Definition is_empty (r : Reader) : bool := len r.(buf) <=? r.(pos).

Definition read_varint (r : Reader) : option (Z * Reader) := varint r.

(** [pos.checked_add(n).filter(|p| *p <= buf.len())]. *)
Definition skip (r : Reader) (n : Z) : option Reader :=
  let* p := checked_u64 (r.(pos) + n) in
  if p <=? len r.(buf) then Some (set_pos r p) else None.

(** [Some (None, r)] is the end of the input, [None] a malformed input. *)
Definition next_field (r : Reader) : option (option (Z * Value) * Reader) :=
  if len r.(buf) <=? r.(pos) then Some (None, r)
  else
    let* (key, r) := varint r in
    let wire := Z.land key 7 in
    let* (value, r) :=
      if wire =? 0 then
        let* (v, r) := varint r in Some (Varint v, r)
      else if wire =? 1 then
        let start := r.(pos) in
        let* r := skip r 8 in Some (Fixed64 (slice r.(buf) start r.(pos)), r)
      else if wire =? 2 then
        let* (n, r) := varint r in
        let start := r.(pos) in
        let* r := skip r n in Some (Bytes (slice r.(buf) start r.(pos)), r)
      else if wire =? 5 then
        let* r := skip r 4 in Some (Fixed32, r)
      else None
    in
    Some (Some (Z.shiftr key 3, value), r).

(** * The field loop *)

(** [while let Some((field, value)) = r.next_field()? { visit(field, value)? }],
    with the state the body threads as [acc] and [bad] the error of a malformed
    input.  Every field consumes at least one byte, so one unit of fuel per
    byte and one for the end of the input is enough ([fields_not_fuel]). *)
Fixpoint while_fields {E A} (fuel : nat) (bad : E) (visit : A -> Z -> Value -> res E A)
    (r : Reader) (acc : A) : res E A :=
  match fuel with
  | O => Fuel
  | S fuel =>
      match next_field r with
      | None => Err bad
      | Some (None, _) => Ok acc
      | Some (Some (field, value), r) =>
          let? acc := visit acc field value in while_fields fuel bad visit r acc
      end
  end.

Definition fields {E A} (bad : E) (visit : A -> Z -> Value -> res E A) (acc : A)
    (input : bytes) : res E A :=
  while_fields (S (length input)) bad visit (Reader_new input) acc.

(** The same loop where the error of a malformed input depends on what has been
    read. *)
Fixpoint while_fields_or {E A} (fuel : nat) (bad : A -> E) (visit : A -> Z -> Value -> res E A)
    (r : Reader) (acc : A) : res E A :=
  match fuel with
  | O => Fuel
  | S fuel =>
      match next_field r with
      | None => Err (bad acc)
      | Some (None, _) => Ok acc
      | Some (Some (field, value), r) =>
          let? acc := visit acc field value in while_fields_or fuel bad visit r acc
      end
  end.

Definition fields_or {E A} (bad : A -> E) (visit : A -> Z -> Value -> res E A) (acc : A)
    (input : bytes) : res E A :=
  while_fields_or (S (length input)) bad visit (Reader_new input) acc.

(** * The wire format *)

(** [while v >= 0x80 { push(v as u8 | 0x80); v >>= 7; } push(v as u8)].  A
    64-bit value takes at most ten bytes; [put_varint_eq] shows that the fuel
    never shows. *)
Fixpoint put_varint_loop (fuel : nat) (v : Z) : bytes :=
  match fuel with
  | O => []
  | S fuel =>
      if 128 <=? v then Z.lor (v mod 256) 128 :: put_varint_loop fuel (Z.shiftr v 7)
      else [v mod 256]
  end.
Definition put_varint (v : Z) : bytes := put_varint_loop 10 v.

(** The encoding of one field, and of a message. *)
Definition encode_field (f : Z * Value) : bytes :=
  match f with
  | (n, Varint v) => put_varint (Z.shiftl n 3) ++ put_varint v
  | (n, Bytes b) => put_varint (Z.lor (Z.shiftl n 3) 2) ++ put_varint (len b) ++ b
  | (n, Fixed64 b) => put_varint (Z.lor (Z.shiftl n 3) 1) ++ b
  | (n, Fixed32) => put_varint (Z.lor (Z.shiftl n 3) 5) ++ [0; 0; 0; 0]
  end.
Definition encode_message (fs : list (Z * Value)) : bytes := concat (map encode_field fs).

(** What fits the wire: 61-bit field numbers, 64-bit varints, addressable
    payloads. *)
Definition field_ok (f : Z * Value) : Prop :=
  0 <= fst f < 2 ^ 61 /\
  match snd f with
  | Varint v => 0 <= v < U64
  | Bytes b => len b <= I64_MAX
  | Fixed64 b => len b = 8
  | Fixed32 => True
  end.

(** * Bounds *)

(** A reader stays inside its buffer. *)
Definition reader_ok (r : Reader) : Prop := 0 <= r.(pos) <= len r.(buf).

Lemma varint_loop_pos shs out r v r' :
  varint_loop shs out r = Some (v, r') ->
  r'.(buf) = r.(buf) /\ r.(pos) < r'.(pos) <= r.(pos) + len shs /\
  0 <= r.(pos) /\ r'.(pos) <= len r.(buf).
Proof.
  revert out r. induction shs as [|s shs IH]; intros out r H; simpl in H; [done|].
  destruct (get (buf r) (pos r)) as [b|] eqn:Eg; [|done].
  apply get_Some_bound in Eg. destruct (Z.land b 128 =? 0).
  - injection H as <- <-. simpl. conj.
  - apply IH in H. simpl in H. destruct H as (-> & ?). conj.
Qed.

Lemma varint_pos r v r' :
  varint r = Some (v, r') ->
  r'.(buf) = r.(buf) /\ r.(pos) < r'.(pos) <= r.(pos) + 10 /\
  0 <= r.(pos) /\ r'.(pos) <= len r.(buf).
Proof. intros H. by apply varint_loop_pos in H. Qed.

Lemma skip_pos r n r' :
  skip r n = Some r' ->
  r'.(buf) = r.(buf) /\ r'.(pos) = r.(pos) + n /\ r'.(pos) <= len r.(buf).
Proof.
  unfold skip, checked_u64. intros H. destruct (_ && _) eqn:E1; [|done].
  destruct (_ <=? _) eqn:E2 in H; [|done]. injection H as <-. bools. simpl. conj.
Qed.

(** The low bits of a varint are combined by [|], so it never exceeds 64 bits. *)
Lemma lor_u64 a b : 0 <= a < U64 -> 0 <= b < U64 -> 0 <= Z.lor a b < U64.
Proof.
  intros Ha Hb. split; [apply Z.lor_nonneg; lia|].
  destruct (Z.eq_dec (Z.lor a b) 0) as [->|Hne]; [done|].
  change U64 with (2 ^ 64) in *. apply Z.log2_lt_pow2.
  - pose proof (Z.lor_nonneg a b). lia.
  - rewrite Z.log2_lor by lia.
    assert (forall x, 0 <= x < 2 ^ 64 -> Z.log2 x < 64) as Hlog.
    { intros x Hx. destruct (Z.eq_dec x 0) as [->|]; [simpl; lia|].
      apply Z.log2_lt_pow2; lia. }
    pose proof (Hlog a Ha). pose proof (Hlog b Hb). lia.
Qed.

Lemma varint_loop_range shs out r v r' :
  0 <= out < U64 -> varint_loop shs out r = Some (v, r') -> 0 <= v < U64.
Proof.
  revert out r. induction shs as [|s shs IH]; intros out r Ho H; simpl in H; [done|].
  destruct (get (buf r) (pos r)) as [b|]; [|done].
  assert (0 <= Z.lor out (wrap_u64 (Z.shiftl (Z.land b 127) s)) < U64).
  { apply lor_u64; [done|]. apply Z.mod_pos_bound. done. }
  destruct (Z.land b 128 =? 0); [by injection H as <- <-|eauto].
Qed.

Lemma varint_range r v r' : varint r = Some (v, r') -> 0 <= v < U64.
Proof. apply varint_loop_range. done. Qed.

(** What [next_field] returns on success: the reader stays over the same buffer,
    strictly advances on a field, and payloads are slices of the buffer. *)
Definition value_ok (b : bytes) (v : Value) : Prop :=
  match v with
  | Varint n => 0 <= n < U64
  | Bytes s => exists i j, 0 <= i <= j /\ j <= len b /\ s = slice b i j
  | Fixed64 s => exists i, 0 <= i /\ i + 8 <= len b /\ s = slice b i (i + 8)
  | Fixed32 => True
  end.

Lemma next_field_ok r f v r' :
  next_field r = Some (Some (f, v), r') ->
  r'.(buf) = r.(buf) /\ r.(pos) < r'.(pos) <= len r.(buf) /\
  0 <= f < 2 ^ 61 /\ value_ok r.(buf) v.
Proof.
  unfold next_field. destruct (len (buf r) <=? pos r); [done|]. intros H.
  destruct (varint r) as [[key r1]|] eqn:Ek; [|done].
  pose proof (varint_range _ _ _ Ek) as Hk. apply varint_pos in Ek as (Hb1 & Hp1 & H0 & Hl1).
  assert (0 <= Z.shiftr key 3 < 2 ^ 61).
  { rewrite Z.shiftr_div_pow2 by lia. unfold U64 in Hk. split; [apply Z.div_pos; lia|].
    apply Z.div_lt_upper_bound; lia. }
  repeat (match type of H with
    | context [if ?c then _ else _] => destruct c end; [|]); try done.
  - destruct (varint r1) as [[n r2]|] eqn:En; [|done].
    pose proof (varint_range _ _ _ En). apply varint_pos in En as (Hb2 & Hp2 & ? & Hl2).
    injection H as <- <- <-. rewrite Hb1 in *. simpl. split; [done|]. split; [lia|done].
  - destruct (skip r1 8) as [r2|] eqn:Es; [|done].
    apply skip_pos in Es as (Hb2 & Hp2 & Hl2). injection H as <- <- <-. rewrite Hb1 in *.
    split; [done|]. split; [lia|]. split; [done|]. exists (pos r1). rewrite Hb2, Hp2.
    split; [lia|]. split; [lia|done].
  - destruct (varint r1) as [[n r2]|] eqn:En; [|done].
    pose proof (varint_range _ _ _ En). apply varint_pos in En as (Hb2 & Hp2 & ? & Hl2).
    destruct (skip r2 n) as [r3|] eqn:Es; [|done].
    apply skip_pos in Es as (Hb3 & Hp3 & Hl3). injection H as <- <- <-. rewrite Hb1 in *.
    rewrite Hb2 in *. split; [done|]. split; [lia|]. split; [done|].
    exists (pos r2), (pos r3). rewrite Hb3. split; [lia|]. split; [lia|done].
  - destruct (skip r1 4) as [r2|] eqn:Es; [|done].
    apply skip_pos in Es as (Hb2 & Hp2 & Hl2). injection H as <- <- <-. rewrite Hb1 in *.
    split; [done|]. split; [lia|done].
Qed.

(** * The field loop terminates, and is a fold over the fields *)

(** The fields of an input up to its end ([true]) or to its first malformed
    field ([false]). *)
Fixpoint field_list_loop (fuel : nat) (r : Reader) : list (Z * Value) * bool :=
  match fuel with
  | O => ([], false)
  | S fuel =>
      match next_field r with
      | None => ([], false)
      | Some (None, _) => ([], true)
      | Some (Some f, r) => let (fs, ok) := field_list_loop fuel r in (f :: fs, ok)
      end
  end.
Definition field_list (input : bytes) : list (Z * Value) * bool :=
  field_list_loop (S (length input)) (Reader_new input).

Lemma while_fields_fold {E A} (bad : E) (visit : A -> Z -> Value -> res E A) fuel r acc :
  len r.(buf) - r.(pos) < Z.of_nat fuel -> reader_ok r ->
  while_fields fuel bad visit r acc =
  let (fs, ok) := field_list_loop fuel r in
  let? a := foldM (fun a f => visit a (fst f) (snd f)) acc fs in
  if ok then Ok a else Err bad.
Proof.
  revert r acc. induction fuel as [|fuel IH]; intros r acc Hf Hr; simpl.
  - unfold reader_ok in Hr. lia.
  - destruct (next_field r) as [[[[f v]|] r']|] eqn:En; [|done..].
    pose proof (next_field_ok _ _ _ _ En) as (Hb & Hp & _). unfold reader_ok in *.
    assert (Hf' : len (buf r') - pos r' < Z.of_nat fuel) by (rewrite Hb; lia).
    destruct (field_list_loop fuel r') as [fs ok] eqn:El. simpl.
    destruct (visit acc f v) as [a| |]; [|done..].
    rewrite IH, El; [done|done|rewrite Hb; lia].
Qed.

Lemma reader_new_ok b : reader_ok (Reader_new b).
Proof. unfold reader_ok. simpl. len_lia. Qed.
#[export] Hint Resolve reader_new_ok : pulso.

Lemma fields_fold {E A} (bad : E) (visit : A -> Z -> Value -> res E A) acc input :
  fields bad visit acc input =
  let (fs, ok) := field_list input in
  let? a := foldM (fun a f => visit a (fst f) (snd f)) acc fs in
  if ok then Ok a else Err bad.
Proof. apply while_fields_fold; [simpl; unfold len; lia|apply reader_new_ok]. Qed.

Lemma while_fields_or_fold {E A} (bad : A -> E) (visit : A -> Z -> Value -> res E A) fuel r acc :
  len r.(buf) - r.(pos) < Z.of_nat fuel -> reader_ok r ->
  while_fields_or fuel bad visit r acc =
  let (fs, ok) := field_list_loop fuel r in
  let? a := foldM (fun a f => visit a (fst f) (snd f)) acc fs in
  if ok then Ok a else Err (bad a).
Proof.
  revert r acc. induction fuel as [|fuel IH]; intros r acc Hf Hr; simpl.
  - unfold reader_ok in Hr. lia.
  - destruct (next_field r) as [[[[f v]|] r']|] eqn:En; [|done..].
    pose proof (next_field_ok _ _ _ _ En) as (Hb & Hp & _). unfold reader_ok in *.
    assert (Hf' : len (buf r') - pos r' < Z.of_nat fuel) by (rewrite Hb; lia).
    destruct (field_list_loop fuel r') as [fs ok] eqn:El. simpl.
    destruct (visit acc f v) as [a| |]; [|done..].
    rewrite IH, El; [done|done|rewrite Hb; lia].
Qed.

Lemma fields_or_fold {E A} (bad : A -> E) (visit : A -> Z -> Value -> res E A) acc input :
  fields_or bad visit acc input =
  let (fs, ok) := field_list input in
  let? a := foldM (fun a f => visit a (fst f) (snd f)) acc fs in
  if ok then Ok a else Err (bad a).
Proof. apply while_fields_or_fold; [simpl; unfold len; lia|apply reader_new_ok]. Qed.

Lemma field_list_loop_ok fuel r f v :
  reader_ok r -> (f, v) ∈ fst (field_list_loop fuel r) ->
  0 <= f < 2 ^ 61 /\ value_ok r.(buf) v.
Proof.
  revert r. induction fuel as [|fuel IH]; intros r Hr Hin; simpl in Hin.
  { by apply not_elem_of_nil in Hin. }
  destruct (next_field r) as [[[[f' v']|] r']|] eqn:En; simpl in Hin;
    try by apply not_elem_of_nil in Hin.
  apply next_field_ok in En as (Hb & Hp & Hf & Hv).
  destruct (field_list_loop fuel r') as [fs ok] eqn:El. simpl in Hin.
  apply elem_of_cons in Hin as [[= -> ->]|Hin]; [done|].
  rewrite <- Hb. apply IH; [|by rewrite El].
  unfold reader_ok in *. rewrite Hb. lia.
Qed.

Lemma field_list_ok input f v :
  (f, v) ∈ fst (field_list input) -> 0 <= f < 2 ^ 61 /\ value_ok input v.
Proof. apply (field_list_loop_ok _ (Reader_new input)), reader_new_ok. Qed.

Lemma field_list_loop_length fuel r : reader_ok r ->
  len (fst (field_list_loop fuel r)) <= len r.(buf) - r.(pos).
Proof.
  revert r. induction fuel as [|fuel IH]; intros r Hr; simpl.
  { unfold reader_ok in Hr. len_lia. }
  destruct (next_field r) as [[[[f v]|] r']|] eqn:En; simpl;
    try (unfold reader_ok in Hr; len_lia).
  apply next_field_ok in En as (Hb & Hp & _). unfold reader_ok in *.
  destruct (field_list_loop fuel r') as [fs ok] eqn:El.
  pose proof (IH r' ltac:(rewrite Hb; lia)) as H. rewrite El, Hb in H. simpl in *. len_lia.
Qed.

Lemma field_list_length input : len (fst (field_list input)) <= len input.
Proof.
  pose proof (field_list_loop_length (S (length input)) (Reader_new input) (reader_new_ok input)) as Hl.
  cbn [buf pos Reader_new] in Hl. unfold field_list. lia.
Qed.

(** Payloads are disjoint parts of the input. *)
Definition value_size (v : Value) : Z := match v with Bytes b => len b | _ => 0 end.

Lemma next_field_size r f v r' : next_field r = Some (Some (f, v), r') -> value_size v < r'.(pos) - r.(pos).
Proof.
  intros E. pose proof (next_field_ok _ _ _ _ E) as (_ & Hp & _ & _). destruct v as [n|b|b|]; try (simpl; lia).
  unfold next_field in E. destruct (_ <=? _); [done|]. destruct (varint r) as [[key r0]|] eqn:Ek; [|done].
  apply varint_pos in Ek as (Hb0 & Hp0 & H0 & _).
  match type of E with context [let* _ := ?x in _] => destruct x as [[w r2]|] eqn:Ev; [|done] end.
  injection E as _ -> ->. case_in Ev. injection Ev as <- <-. simpl.
  match goal with H : varint _ = Some _ |- _ => apply varint_pos in H as (Hb1 & Hp1 & _ & Hl1) end.
  match goal with H : skip ?r1 _ = Some _ |- _ => apply skip_pos in H as (Hb2 & Hp2 & Hl2); rename r1 into q end.
  unfold slice, len. rewrite length_take. lia.
Qed.

Definition sizes (fs : list (Z * Value)) : Z := fold_right (fun f n => 1 + value_size (snd f) + n) 0 fs.

Lemma value_size_nonneg v : 0 <= value_size v.
Proof. destruct v; simpl; try done. apply len_nonneg. Qed.
Lemma sizes_cons f fs : sizes (f :: fs) = 1 + value_size (snd f) + sizes fs.
Proof. done. Qed.
Lemma sizes_nonneg fs : 0 <= sizes fs.
Proof. induction fs as [|f fs IH]; [done|]. rewrite sizes_cons. pose proof (value_size_nonneg (snd f)). lia. Qed.

Lemma field_list_loop_sizes fuel r : reader_ok r -> sizes (fst (field_list_loop fuel r)) <= len r.(buf) - r.(pos).
Proof.
  revert r. induction fuel as [|fuel IH]; intros r Hr; simpl; [unfold reader_ok in Hr; lia|].
  destruct (next_field r) as [[[[f v]|] r']|] eqn:E; [|unfold reader_ok in Hr; simpl; lia..].
  pose proof (next_field_size _ _ _ _ E). apply next_field_ok in E as (Hb & Hp & _ & _).
  specialize (IH r'). unfold reader_ok in IH. rewrite Hb in IH. specialize (IH ltac:(unfold reader_ok in Hr; lia)).
  destruct (field_list_loop fuel r') as [fs ok]. simpl in *. lia.
Qed.

Lemma field_list_sizes input : sizes (fst (field_list input)) <= len input.
Proof.
  pose proof (field_list_loop_sizes (S (length input)) (Reader_new input) (reader_new_ok input)) as Hl.
  cbn [buf pos Reader_new] in Hl. unfold field_list. lia.
Qed.

Lemma fields_not_fuel {E A} (bad : E) (visit : A -> Z -> Value -> res E A) acc input :
  (forall a f v, value_ok input v -> visit a f v <> Fuel) ->
  fields bad visit acc input <> Fuel.
Proof.
  intros Hv. rewrite fields_fold. destruct (field_list input) as [fs ok] eqn:El.
  pose proof (foldM_not_fuel (fun a f => visit a (fst f) (snd f)) acc fs) as H.
  destruct (foldM _ acc fs); [by destruct ok|done|].
  intros _. apply H; [|done]. intros a [f v] Hin. apply Hv.
  by apply (field_list_ok input f v); rewrite El.
Qed.

(** * Selecting the submessages of one field *)

Definition select (n : Z) (f : Z * Value) : option bytes :=
  match f with
  | (k, Bytes b) => if k =? n then Some b else None
  | _ => None
  end.

(** The length-delimited payloads of field [n], and whether the input is
    well-formed to its end. *)
Definition payloads (n : Z) (input : bytes) : list bytes := omap (select n) (fst (field_list input)).
Definition intact (input : bytes) : bool := snd (field_list input).

(** A loop that only looks at the payloads of one field is a loop over them. *)
Lemma foldM_omap {E A B C} (sel : B -> option C) (step : A -> C -> res E A) visit acc l :
  (forall a x, visit a x = match sel x with Some c => step a c | None => Ok a end) ->
  foldM visit acc l = foldM step acc (omap sel l).
Proof.
  intros Hv. revert acc. induction l as [|x l IH]; intros acc; simpl; [done|]. rewrite Hv.
  destruct (sel x) as [c|]; simpl; [destruct (step acc c)|]; done || apply IH.
Qed.

Lemma fields_payloads {E A} (bad : E) n (step : A -> bytes -> res E A) visit acc input :
  (forall a f v, visit a f v = match select n (f, v) with Some b => step a b | None => Ok a end) ->
  fields bad visit acc input =
  let? a := foldM step acc (payloads n input) in if intact input then Ok a else Err bad.
Proof.
  intros Hv. rewrite fields_fold. unfold payloads, intact. destruct (field_list input) as [fs ok].
  simpl. rewrite (foldM_omap (select n) step); [done|]. intros a [f v]. apply Hv.
Qed.

(** A loop that cannot fail is a plain fold. *)
Lemma foldM_pure {E A B} (f : A -> B -> A) acc (l : list B) :
  foldM (fun a x => Ok (f a x)) acc l = Ok (fold_left f l acc) :> res E A.
Proof. revert acc. induction l as [|x l IH]; intros acc; simpl; [done|apply IH]. Qed.

Lemma foldM_ext {E A B} (f g : A -> B -> res E A) acc l :
  (forall a x, f a x = g a x) -> foldM f acc l = foldM g acc l.
Proof. intros H. revert acc. induction l as [|x l IH]; intros acc; simpl; [done|]. rewrite H. by destruct (g acc x). Qed.

(** Loops that fail exactly where a test of the item fails. *)
Definition answers {A B} (P : B -> bool) (f : A -> B -> opt A) : Prop :=
  forall a x, if P x then exists a', f a x = Ok a' else f a x = Nothing.

Lemma foldM_answers {A B} (P : B -> bool) (f : A -> B -> opt A) acc l : answers P f ->
  if forallb P l then exists a, foldM f acc l = Ok a else foldM f acc l = Nothing.
Proof.
  intros Hf. revert acc. induction l as [|x l IH]; intros acc; simpl; [by eexists|].
  specialize (Hf acc x). destruct (P x); [|by rewrite Hf]. destruct Hf as [a' ->]. apply IH.
Qed.

Lemma fields_answers {A} (P : Z * Value -> bool) (visit : A -> Z -> Value -> opt A) acc input :
  answers P (fun a f => visit a (fst f) (snd f)) ->
  if intact input && forallb P (fst (field_list input))
  then exists a, fields tt visit acc input = Ok a else fields tt visit acc input = Nothing.
Proof.
  intros Hf. rewrite fields_fold. unfold intact. destruct (field_list input) as [fs ok]. cbn [fst snd].
  pose proof (foldM_answers P _ acc fs Hf) as H. destruct (forallb P fs).
  - destruct H as [a ->]. destruct ok; simpl; [by eexists|done].
  - rewrite H. by rewrite andb_false_r.
Qed.

(** Two decoders of the same input, related field by field. *)
Lemma fields_sim {E F A B} (R : A -> B -> Prop) (e1 : E) (e2 : F) v1 v2 a b a' b' input :
  (forall x y f v x' y', R x y -> v1 x f v = Ok x' -> v2 y f v = Ok y' -> R x' y') -> R a b ->
  fields e1 v1 a input = Ok a' -> fields e2 v2 b input = Ok b' -> R a' b'.
Proof.
  intros Hs. rewrite !fields_fold. destruct (field_list input) as [fs ok].
  revert a b. induction fs as [|[f v] fs IH]; intros a b Hr; cbn [foldM fst snd].
  - destruct ok; [|done]. by intros [= <-] [= <-].
  - destruct (v1 a f v) as [x| |] eqn:E1; [|done..]. destruct (v2 b f v) as [y| |] eqn:E2; [|done..].
    apply IH. by eapply Hs.
Qed.

Lemma payloads_slice n input b : b ∈ payloads n input ->
  exists i j, 0 <= i <= j /\ j <= len input /\ b = slice input i j.
Proof.
  unfold payloads. intros Hin. apply list_elem_of_omap in Hin as ([f v] & Hin & Hs).
  apply field_list_ok in Hin as [_ Hv]. destruct v; try done. simpl in Hs.
  destruct (f =? n); [|done]. injection Hs as ->. exact Hv.
Qed.

(** * Reading back what the encoder wrote *)

Lemma put_varint_loop_S k v :
  put_varint_loop (S k) v =
  if 128 <=? v then Z.lor (v mod 256) 128 :: put_varint_loop k (Z.shiftr v 7) else [v mod 256].
Proof. done. Qed.
#[global] Opaque put_varint_loop.

(** The bytes a varint is made of. *)
Lemma cont_byte v :
  let b := Z.lor (v mod 256) 128 in
  0 <= b < 256 /\ Z.land b 127 = v mod 128 /\ (Z.land b 128 =? 0) = false.
Proof.
  assert (H : forall x, 0 <= x < 256 ->
    ((0 <=? Z.lor x 128) && (Z.lor x 128 <? 256) && (Z.land (Z.lor x 128) 127 =? x mod 128)
     && negb (Z.land (Z.lor x 128) 128 =? 0)) = true).
  { apply (byte_forall (fun x => (0 <=? Z.lor x 128) && (Z.lor x 128 <? 256) &&
      (Z.land (Z.lor x 128) 127 =? x mod 128) && negb (Z.land (Z.lor x 128) 128 =? 0))).
    vm_compute. done. }
  pose proof (Z.mod_pos_bound v 256 ltac:(lia)) as Hm. specialize (H _ Hm). bools.
  simpl. split_and!; [done|done| |by apply Z.eqb_neq].
  assert ((v mod 256) mod 128 = v mod 128) by dlia. congruence.
Qed.

Lemma last_byte v : 0 <= v < 128 -> Z.land (v mod 256) 127 = v /\ (Z.land (v mod 256) 128 =? 0) = true.
Proof.
  intros Hv. rewrite Z.mod_small by lia. rewrite land_127, land_128_zero by lia.
  rewrite Z.mod_small by lia. split; [done|]. apply Z.ltb_lt. lia.
Qed.

Fixpoint shift_from (k : nat) (s : Z) : list Z :=
  match k with O => [] | S k => s :: shift_from k (s + 7) end.

Lemma varint_loop_put k s out v pre suf :
  0 <= s -> 0 <= out < 2 ^ s -> 0 <= v < 2 ^ (7 * Z.of_nat (S k)) -> v * 2 ^ s < U64 ->
  let enc := put_varint_loop (S k) v in
  varint_loop (shift_from (S k) s) out (mkReader (pre ++ enc ++ suf) (len pre)) =
  Some (out + v * 2 ^ s, mkReader (pre ++ enc ++ suf) (len pre + len enc)).
Proof.
  revert s out v pre. induction k as [|k IH]; intros s out v pre Hs Ho Hv Hb.
  all: assert (0 < 2 ^ s) by (apply Z.pow_pos_nonneg; lia).
  all: assert (Hpart : forall c, 0 <= c <= v ->
      Z.lor out (wrap_u64 (Z.shiftl c s)) = out + c * 2 ^ s) by
    (intros c Hc; assert (c * 2 ^ s <= v * 2 ^ s) by (apply Z.mul_le_mono_nonneg_r; lia);
     unfold wrap_u64; rewrite Z.mod_small by (rewrite Z.shiftl_mul_pow2; lia);
     apply lor_shiftl_add; lia).
  - cbn [shift_from varint_loop pos buf]. rewrite put_varint_loop_S.
    assert (v < 128) by (change (2 ^ (7 * Z.of_nat 1)) with 128 in Hv; lia).
    replace (128 <=? v) with false by (symmetry; apply Z.leb_gt; lia).
    cbn [app]. rewrite get_app_mid. destruct (last_byte v ltac:(lia)) as [-> ->].
    rewrite Hpart by lia. done.
  - set (enc := put_varint_loop (S (S k)) v).
    assert (Henc : enc = if 128 <=? v
      then Z.lor (v mod 256) 128 :: put_varint_loop (S k) (Z.shiftr v 7) else [v mod 256])
      by apply put_varint_loop_S.
    change (shift_from (S (S k)) s) with (s :: shift_from (S k) (s + 7)).
    cbn [varint_loop pos buf]. rewrite Henc.
    destruct (Z.leb_spec 128 v) as [Hge|Hlt].
    + cbn [app]. rewrite get_app_mid. destruct (cont_byte v) as (_ & -> & ->).
      rewrite Hpart by (pose proof (Z.mod_pos_bound v 128); lia).
      unfold set_pos. cbn [pos buf].
      specialize (IH (s + 7) (out + v mod 128 * 2 ^ s) (Z.shiftr v 7)
        (pre ++ [Z.lor (v mod 256) 128])).
      cbv zeta in IH. rewrite <- !app_assoc, len_app in IH. rewrite Z.shiftr_div_pow2 in * by lia.
      change (2 ^ 7) with 128 in *. rewrite Z.pow_add_r in * by lia.
      change (2 ^ 7) with 128 in *.
      assert (v = 128 * (v / 128) + v mod 128) by (apply Z.div_mod; lia).
      pose proof (Z.mod_pos_bound v 128).
      change (len [_]) with 1 in IH. cbn [app] in IH. rewrite IH.
      * f_equal. f_equal; [nia|]. f_equal. len_lia.
      * lia.
      * nia.
      * split; [apply Z.div_pos; lia|]. apply Z.div_lt_upper_bound; [lia|].
        replace (7 * Z.of_nat (S (S k))) with (7 + 7 * Z.of_nat (S k)) in Hv by lia.
        rewrite Z.pow_add_r in Hv by lia. lia.
      * nia.
    + cbn [app]. rewrite get_app_mid. destruct (last_byte v ltac:(lia)) as [-> ->].
      rewrite Hpart by lia. done.
Qed.

Lemma varint_put v pre suf : 0 <= v < U64 ->
  varint (mkReader (pre ++ put_varint v ++ suf) (len pre)) =
  Some (v, mkReader (pre ++ put_varint v ++ suf) (len pre + len (put_varint v))).
Proof.
  intros Hv. unfold varint, put_varint.
  assert (H : 0 <= v < 2 ^ (7 * Z.of_nat 10)) by (unfold U64 in Hv; lia).
  pose proof (varint_loop_put 9 0 0 v pre suf ltac:(lia) ltac:(lia) H ltac:(unfold U64 in *; lia)) as E.
  change (shift_from 10 0) with shifts in E. rewrite E. f_equal. f_equal. lia.
Qed.

Lemma put_varint_nonempty v : 0 < len (put_varint v).
Proof. unfold put_varint. rewrite put_varint_loop_S. destruct (128 <=? v); len_lia. Qed.

Lemma put_varint_len v : len (put_varint v) <= 10.
Proof.
  unfold put_varint. enough (G : forall k w, len (put_varint_loop k w) <= Z.of_nat k) by apply (G 10%nat).
  induction k as [|k IH]; intros w; [done|]. rewrite put_varint_loop_S. specialize (IH (Z.shiftr w 7)).
  destruct (128 <=? w); len_lia.
Qed.

(** The tag of a field: number and wire type. *)
Lemma key_parts n w : 0 <= n < 2 ^ 61 -> 0 <= w < 8 ->
  let key := Z.lor (Z.shiftl n 3) w in
  0 <= key < U64 /\ Z.land key 7 = w /\ Z.shiftr key 3 = n.
Proof.
  intros Hn Hw key. assert (key = w + n * 8) as ->.
  { unfold key. rewrite Z.lor_comm. rewrite lor_shiftl_add; simpl; lia. }
  rewrite land_7, Z.shiftr_div_pow2 by lia. change (2 ^ 3) with 8. unfold U64.
  split_and!; [lia|lia| |].
  - rewrite Z.mod_add by lia. by apply Z.mod_small.
  - rewrite Z.div_add, Z.div_small by lia. lia.
Qed.

Lemma skip_mid b pre mid suf :
  b = pre ++ mid ++ suf -> len b <= I64_MAX ->
  skip (mkReader b (len pre)) (len mid) = Some (mkReader b (len pre + len mid)).
Proof.
  intros -> Hb. unfold skip, checked_u64. cbn [pos buf].
  replace ((0 <=? _) && (_ <=? U64_MAX)) with true
    by (symmetry; apply andb_true_iff; unfold I64_MAX, U64_MAX in *; len_lia).
  replace (_ <=? len (pre ++ mid ++ suf)) with true by (symmetry; apply Z.leb_le; len_lia).
  done.
Qed.

(** Read a tag written by the encoder, then the rest of the field. *)
Lemma next_field_tag n w pre rest :
  0 <= n < 2 ^ 61 -> 0 <= w < 8 ->
  let tag := put_varint (Z.lor (Z.shiftl n 3) w) in
  let b := pre ++ tag ++ rest in
  next_field (mkReader b (len pre)) =
    let r := mkReader b (len (pre ++ tag)) in
    let* (value, r) :=
      if w =? 0 then let* (v, r) := varint r in Some (Varint v, r)
      else if w =? 1 then
        let* r' := skip r 8 in Some (Fixed64 (slice r'.(buf) r.(pos) r'.(pos)), r')
      else if w =? 2 then
        let* (n, r) := varint r in
        let* r' := skip r n in Some (Bytes (slice r'.(buf) r.(pos) r'.(pos)), r')
      else if w =? 5 then let* r := skip r 4 in Some (Fixed32, r)
      else None
    in Some (Some (n, value), r).
Proof.
  intros Hn Hw tag b. destruct (key_parts n w Hn Hw) as (Hk & Hl & Hs).
  unfold next_field. cbn [pos buf].
  replace (len b <=? len pre) with false
    by (symmetry; apply Z.leb_gt; unfold b, tag;
        pose proof (put_varint_nonempty (Z.lor (Z.shiftl n 3) w)); len_lia).
  unfold b, tag. rewrite varint_put by done. rewrite Hl, Hs, len_app. done.
Qed.

Lemma next_field_encode f pre suf :
  field_ok f -> len (pre ++ encode_field f ++ suf) <= I64_MAX ->
  next_field (mkReader (pre ++ encode_field f ++ suf) (len pre)) =
  Some (Some f, mkReader (pre ++ encode_field f ++ suf) (len pre + len (encode_field f))).
Proof.
  destruct f as [n v]. intros [Hn Hv] Hlen. cbn [fst snd] in *.
  destruct v as [v|p|p|]; cbn [encode_field] in *; rewrite <- ?app_assoc in *.
  - rewrite <- (Z.lor_0_r (Z.shiftl n 3)), next_field_tag by lia. cbv zeta. simpl.
    rewrite app_assoc. rewrite varint_put by done. rewrite <- !app_assoc, !len_app.
    do 3 f_equal. lia.
  - rewrite next_field_tag by lia. cbv zeta. simpl.
    set (tag := put_varint _) in *. rewrite app_assoc.
    rewrite varint_put by (unfold I64_MAX, U64 in *; len_lia).
    rewrite <- len_app.
    erewrite (skip_mid _ _ p suf); [|by rewrite <- !app_assoc|by rewrite <- !app_assoc].
    cbn [pos buf]. rewrite (app_assoc (pre ++ tag)), slice_app_mid.
    rewrite <- !app_assoc, !len_app. do 3 f_equal. lia.
  - rewrite next_field_tag by lia. cbv zeta. simpl.
    set (tag := put_varint _) in *. rewrite app_assoc. rewrite <- Hv.
    erewrite (skip_mid _ _ p suf); [|done|by rewrite <- !app_assoc].
    cbn [pos buf]. rewrite slice_app_mid, <- !app_assoc, !len_app. do 3 f_equal. lia.
  - rewrite next_field_tag by lia. cbv zeta. simpl.
    set (tag := put_varint _) in *. rewrite app_assoc.
    change 4 with (len [0; 0; 0; 0]).
    change (0 :: 0 :: 0 :: 0 :: suf) with ([0; 0; 0; 0] ++ suf) in *.
    erewrite (skip_mid _ _ [0; 0; 0; 0] suf); [|done|by rewrite <- !app_assoc].
    rewrite <- !app_assoc, !len_app. do 3 f_equal. lia.
Qed.

Lemma field_list_encode_loop fs pre fuel :
  Forall field_ok fs -> len (pre ++ encode_message fs) <= I64_MAX ->
  (length fs < fuel)%nat ->
  field_list_loop fuel (mkReader (pre ++ encode_message fs) (len pre)) = (fs, true).
Proof.
  revert pre fuel. induction fs as [|f fs IH]; intros pre fuel Hok Hlen Hf;
    (destruct fuel as [|fuel]; [simpl in Hf; lia|]); unfold encode_message in *; simpl.
  - unfold next_field. cbn [pos buf].
    by replace (len (pre ++ []) <=? len pre) with true by (symmetry; apply Z.leb_le; len_lia).
  - apply Forall_cons_1 in Hok as [Hf0 Hok]. simpl in Hlen.
    rewrite next_field_encode by done.
    specialize (IH (pre ++ encode_field f) fuel Hok).
    rewrite <- app_assoc, (len_app pre (encode_field f)) in IH.
    rewrite IH; [done|done|simpl in Hf; lia].
Qed.

Lemma encode_field_nonempty f : (0 < length (encode_field f))%nat.
Proof.
  destruct f as [n v]. pose proof put_varint_nonempty as H. unfold len in H.
  destruct v; simpl; rewrite !length_app;
    match goal with |- context [length (put_varint ?k)] => specialize (H k) end; lia.
Qed.

Lemma encode_message_length fs : (length fs <= length (encode_message fs))%nat.
Proof.
  unfold encode_message. induction fs as [|f fs IH]; simpl; [lia|].
  rewrite length_app. pose proof (encode_field_nonempty f). lia.
Qed.

Lemma field_list_encode fs :
  Forall field_ok fs -> len (encode_message fs) <= I64_MAX ->
  field_list (encode_message fs) = (fs, true).
Proof.
  intros Hok Hlen. unfold field_list, Reader_new.
  apply (field_list_encode_loop fs []); [done|done|].
  pose proof (encode_message_length fs). lia.
Qed.

(** * Properties *)

(** Decoding inverts encoding: the field loop over an encoded message
    visits exactly the fields that were written, in order, and then ends, for
    any loop body, error type and message that fits the wire. *)
Theorem fields_roundtrip {E A} (bad : E) (visit : A -> Z -> Value -> res E A) (acc : A)
    (fs : list (Z * Value)) :
  Forall field_ok fs -> len (encode_message fs) <= I64_MAX ->
  fields bad visit acc (encode_message fs) =
  foldM (fun a f => visit a (fst f) (snd f)) acc fs.
Proof.
  intros Hok Hlen. rewrite fields_fold, field_list_encode by done.
  by destruct (foldM _ acc fs).
Qed.

Lemma fields_roundtrip_witness :
  fields tt (fun a f v => Ok ((f, v) :: a)) []
    (encode_message [(1, Varint 300); (2, Bytes [104; 105]); (3, Fixed32)]) =
  Ok [(3, Fixed32); (2, Bytes [104; 105]); (1, Varint 300)].
Proof.
  rewrite fields_roundtrip; [done| |vm_compute; discriminate].
  repeat constructor; vm_compute; try done; discriminate.
Defined.

(** On any input whatsoever the loop over the fields ends, the reader never
    leaves the buffer, every field consumes at least one byte, field numbers
    and varints stay within 61 and 64 bits, and every payload is a slice of the
    input. *)
Theorem next_field_sound (r : Reader) (f : Z) (v : Value) (r' : Reader) :
  next_field r = Some (Some (f, v), r') ->
  r'.(buf) = r.(buf) /\ r.(pos) < r'.(pos) <= len r.(buf) /\
  0 <= f < 2 ^ 61 /\ value_ok r.(buf) v.
Proof. apply next_field_ok. Qed.

Lemma next_field_sound_witness :
  0 < 4 <= 4 /\ value_ok [18; 2; 104; 105] (Bytes [104; 105]).
Proof.
  destruct (next_field_sound (mkReader [18; 2; 104; 105] 0) 2 (Bytes [104; 105])
    (mkReader [18; 2; 104; 105] 4) ltac:(vm_compute; reflexivity)) as (_ & H & _ & H').
  split; [exact H|exact H'].
Defined.
