(* ===== verification/Out.v ===== *)
(** Output buffers: out.rs ([Sink] and its implementations for [Vec<u8>],
    [Counter] and [BinSink]) and bounded_json.rs ([Buffer]).

    [Sink] is a type class; the encoders are written against it.  The abstract
    meaning of a sink is the byte string a [Vec<u8>] would hold, and every other
    implementation refines it: [Counter] counts it, [Buffer] truncates it,
    [BinSink] stores it in an Erlang binary that grows geometrically. *)

From S2P Require Import Prelude Utf8 External.

(** [repeat] copies an earlier range of the output; [None] is the panic of an
    out-of-range copy. *)
Class Sink (S : Type) : Type := {
  extend : S -> bytes -> S;
  push : S -> Z -> S;
  sink_len : S -> Z;
  sink_repeat : S -> Z -> Z -> option S
}.

(** * Vec<u8> *)

#[export] Instance Sink_Vec : Sink bytes := {|
  extend out b := out ++ b;
  push out b := out ++ [b];
  sink_len := len;
  sink_repeat out s e := let* chunk := get_range out s e in Some (out ++ chunk)
|}.

(** * Counter *)

Record Counter : Type := mkCounter { counter_len : Z; counter_limit : Z }.

Definition Counter_new (limit : Z) : Counter := mkCounter 0 limit.

Definition counter_add (c : Counter) (n : Z) : Counter :=
  mkCounter (Z.min (sat_u64 (c.(counter_len) + n)) (sat_u64 (c.(counter_limit) + 1)))
    c.(counter_limit).

(** [end - start] is an unsigned subtraction: a range with [end < start] would
    panic in a build with overflow checks. *)
#[export] Instance Sink_Counter : Sink Counter := {|
  extend c b := counter_add c (len b);
  push c _ := counter_add c 1;
  sink_len := counter_len;
  sink_repeat c s e := if s <=? e then Some (counter_add c (e - s)) else None
|}.

(** * Buffer *)

Record Buffer : Type :=
  mkBuffer { buffer_bytes : bytes; buffer_limit : Z; buffer_overflowed : bool }.

Definition Buffer_new (limit : Z) : Buffer := mkBuffer [] limit false.
Definition Buffer_finish (b : Buffer) : bytes := b.(buffer_bytes).

Definition buffer_extend (o : Buffer) (b : bytes) : Buffer :=
  let take_n := Z.min (len b) (o.(buffer_limit) - len o.(buffer_bytes)) in
  mkBuffer (o.(buffer_bytes) ++ take (Z.to_nat take_n) b) o.(buffer_limit)
    (o.(buffer_overflowed) || (take_n <? len b)).

#[export] Instance Sink_Buffer : Sink Buffer := {|
  extend := buffer_extend;
  push o b := buffer_extend o [b];
  sink_len o := if o.(buffer_overflowed) then o.(buffer_limit) + 1 else len o.(buffer_bytes);
  sink_repeat o s e :=
    if s <=? e then
      let take_n := Z.min (e - s) (o.(buffer_limit) - len o.(buffer_bytes)) in
      let overflowed := o.(buffer_overflowed) || (take_n <? e - s) in
      let* chunk := get_range o.(buffer_bytes) s (s + take_n) in
      Some (mkBuffer (o.(buffer_bytes) ++ chunk) o.(buffer_limit) overflowed)
    else None
|}.

(** * BinSink *)

Section BinSink.
Context `{OwnedBinary}.

Record BinSink : Type := mkBinSink { bin : bytes; bin_len : Z }.

Definition BinSink_with_capacity (capacity : Z) : BinSink :=
  mkBinSink (owned_new (Z.max capacity 64)) 0.

Definition reserve (o : BinSink) (additional : Z) : BinSink :=
  let needed := o.(bin_len) + additional in
  let capacity := len o.(bin) in
  if capacity <? needed then
    let grown := Z.max needed (capacity * 2) in
    match owned_realloc o.(bin) grown with
    | Some b => mkBinSink b o.(bin_len)
    | None => mkBinSink (owned_realloc_or_copy o.(bin) grown) o.(bin_len)
    end
  else o.

(** [bin[at..at + src.len()].copy_from_slice(src)]. *)
Definition write_at (b : bytes) (at_ : Z) (src : bytes) : bytes :=
  take (Z.to_nat at_) b ++ src ++ drop (Z.to_nat (at_ + len src)) b.

Definition bin_extend (o : BinSink) (b : bytes) : BinSink :=
  let o := reserve o (len b) in
  mkBinSink (write_at o.(bin) o.(bin_len) b) (o.(bin_len) + len b).

(** [finish]: shrink to the written length and release. *)
Definition BinSink_finish (o : BinSink) : bytes :=
  if o.(bin_len) =? len o.(bin) then o.(bin) else owned_realloc_or_copy o.(bin) o.(bin_len).

#[export] Instance Sink_Bin : Sink BinSink := {|
  extend := bin_extend;
  push o b := bin_extend o [b];
  sink_len := bin_len;
  sink_repeat o s e :=
    if s <=? e then
      let o := reserve o (e - s) in
      let* chunk := get_range o.(bin) s e in
      Some (mkBinSink (write_at o.(bin) o.(bin_len) chunk) (o.(bin_len) + (e - s)))
    else None
|}.

(** [impl Write for BinaryWriter]. *)
Definition BinaryWriter_write (o : BinSink) (b : bytes) : BinSink * Z := (bin_extend o b, len b).
End BinSink.

(** * Refinement *)

(** The calls an encoder makes on its sink. *)
Inductive op : Type :=
| Extend (b : bytes)
| Push (b : Z)
| Repeat (s e : Z).

Definition run_op {S} `{Sink S} (o : S) (c : op) : option S :=
  match c with
  | Extend b => Some (extend o b)
  | Push b => Some (push o b)
  | Repeat s e => sink_repeat o s e
  end.
Fixpoint run_ops {S} `{Sink S} (o : S) (cs : list op) : option S :=
  match cs with
  | [] => Some o
  | c :: cs => let* o := run_op o c in run_ops o cs
  end.

(** One simulation argument for all sinks: a relation to the abstract byte
    string that every call preserves. *)
Section Simulation.
Context {S : Type} `{Sink S} (R : S -> bytes -> Prop) (ok : op -> Prop).
Hypothesis step : forall o v c v', R o v -> ok c -> run_op v c = Some v' ->
  exists o', run_op o c = Some o' /\ R o' v'.

Lemma simulation o v cs v' : R o v -> Forall ok cs -> run_ops v cs = Some v' ->
  exists o', run_ops o cs = Some o' /\ R o' v'.
Proof.
  revert o v. induction cs as [|c cs IH]; intros o v HR Hok Hrun; simpl in *.
  - injection Hrun as <-. eauto.
  - apply Forall_cons_1 in Hok as [Hc Hok].
    destruct (run_op v c) as [v1|] eqn:E; [|done].
    destruct (step _ _ _ _ HR Hc E) as (o1 & -> & HR1). eauto.
Qed.
End Simulation.

Lemma vec_repeat v s e v' : run_op v (Repeat s e) = Some v' ->
  0 <= s <= e /\ e <= len v /\ v' = v ++ slice v s e.
Proof.
  simpl. destruct (get_range v s e) as [k|] eqn:E; [|done]. intros [= <-].
  apply get_range_Some in E as (-> & ? & ?). done.
Qed.

(** The counter holds the length, saturated at one past the limit. *)
Definition counter_rel (limit : Z) (c : Counter) (v : bytes) : Prop :=
  c.(counter_limit) = limit /\ c.(counter_len) = Z.min (len v) (limit + 1).

Lemma counter_add_rel limit c v n v' :
  0 <= limit < U64_MAX -> len v' = len v + n -> 0 <= n ->
  counter_rel limit c v -> counter_rel limit (counter_add c n) v'.
Proof.
  intros Hl Hv Hn [H1 H2]. split; [done|]. unfold counter_add. cbn [counter_len counter_limit].
  rewrite H1, H2, Hv. unfold sat_u64. pose proof (len_nonneg v). unfold U64_MAX in *. lia.
Qed.

Lemma counter_step limit o v c v' : 0 <= limit < U64_MAX ->
  counter_rel limit o v -> run_op v c = Some v' ->
  exists o', run_op o c = Some o' /\ counter_rel limit o' v'.
Proof.
  intros Hl HR Hrun. destruct c as [b|b|s e].
  - injection Hrun as <-. eexists. split; [done|]. eapply counter_add_rel; eauto; len_lia.
  - injection Hrun as <-. eexists. split; [done|]. eapply counter_add_rel; eauto; len_lia.
  - apply vec_repeat in Hrun as (Hs & He & ->). simpl.
    replace (s <=? e) with true by (symmetry; apply Z.leb_le; lia).
    eexists. split; [done|]. eapply counter_add_rel; eauto; [|lia].
    rewrite len_app, len_slice; lia.
Qed.

(** [Counter] is an exact preflight: after any sequence of writes that a
    [Vec] accepts, its length is the length of the output, saturated at one
    past the limit, so the test [len > limit] of the encoders has the same
    answer on both. *)
Theorem counter_refines_vec (limit : Z) (cs : list op) (v : bytes) :
  0 <= limit < U64_MAX -> run_ops ([] : bytes) cs = Some v ->
  exists c, run_ops (Counter_new limit) cs = Some c /\
    sink_len c = Z.min (len v) (limit + 1) /\ (limit <? sink_len c) = (limit <? len v).
Proof.
  intros Hl Hrun.
  destruct (simulation (counter_rel limit) (fun _ => True)
    (fun o v c v' HR _ H => counter_step limit o v c v' Hl HR H)
    (Counter_new limit) [] cs v) as (c & Hc & H1 & H2).
  - split; [done|]. change (0 = Z.min 0 (limit + 1)). lia.
  - by apply Forall_true.
  - done.
  - exists c. split; [done|]. simpl. rewrite H2. split; [done|]. apply eq_true_iff_eq. lia.
Qed.

Lemma counter_refines_vec_witness :
  exists c, run_ops (Counter_new 3) [Extend [1; 2]; Push 3; Repeat 0 2] = Some c /\
    sink_len c = 4 /\ (3 <? sink_len c) = true.
Proof. apply (counter_refines_vec 3 _ [1; 2; 3; 1; 2]); [done|vm_compute; done]. Defined.

(** The bounded buffer holds the output truncated at its limit, and remembers
    whether anything was cut. *)
Definition buffer_rel (limit : Z) (o : Buffer) (v : bytes) : Prop :=
  o.(buffer_limit) = limit /\ o.(buffer_bytes) = take (Z.to_nat limit) v /\
  o.(buffer_overflowed) = (limit <? len v).

Lemma buffer_append_rel limit o v b : 0 <= limit ->
  buffer_rel limit o v -> buffer_rel limit (buffer_extend o b) (v ++ b).
Proof.
  intros Hl (H1 & H2 & H3). unfold buffer_extend.
  assert (Hlen : len (buffer_bytes o) = Z.min limit (len v)).
  { rewrite H2. unfold len. rewrite length_take. lia. }
  split_and!; cbn [buffer_limit buffer_bytes buffer_overflowed].
  - done.
  - rewrite H1, Hlen, H2. rewrite take_app. f_equal.
    destruct (Z.le_gt_cases limit (len v)).
    + replace (Z.to_nat limit - length v)%nat with 0%nat by (unfold len in *; lia).
      replace (Z.to_nat (Z.min (len b) _)) with 0%nat by len_lia. done.
    + destruct (Z.le_gt_cases (len b) (limit - len v)).
      * rewrite !take_ge by (unfold len in *; lia). done.
      * f_equal. unfold len in *. lia.
  - rewrite H1, H3, Hlen. apply eq_true_iff_eq. rewrite orb_true_iff, !Z.ltb_lt. len_lia.
Qed.

Lemma buffer_step limit o v c v' : 0 <= limit ->
  buffer_rel limit o v -> (match c with Repeat s _ => s <= limit | _ => True end) ->
  run_op v c = Some v' -> exists o', run_op o c = Some o' /\ buffer_rel limit o' v'.
Proof.
  intros Hl HR Hc Hrun. destruct c as [b|b|s e].
  - injection Hrun as <-. eexists. split; [done|]. by apply buffer_append_rel.
  - injection Hrun as <-. eexists. split; [done|]. by apply buffer_append_rel.
  - apply vec_repeat in Hrun as (Hs & He & ->).
    pose proof (buffer_append_rel limit o v (slice v s e) Hl HR) as Hext.
    unfold buffer_extend in Hext. rewrite len_slice in Hext by lia.
    destruct HR as (H1 & H2 & H3).
    assert (Hlen : len (buffer_bytes o) = Z.min limit (len v)).
    { rewrite H2. unfold len. rewrite length_take. lia. }
    simpl. replace (s <=? e) with true by (symmetry; apply Z.leb_le; lia).
    set (n := Z.min (e - s) _) in *.
    assert (Hn : s + n <= len (buffer_bytes o)) by (unfold n; lia).
    rewrite (proj2 (get_range_Some _ _ _ (slice (buffer_bytes o) s (s + n)))).
    2: { split; [done|]. unfold n. lia. }
    eexists. split; [done|].
    replace (slice (buffer_bytes o) s (s + n)) with (take (Z.to_nat n) (slice v s e)); [exact Hext|].
    unfold slice. rewrite H2, take_take, skipn_firstn_comm, take_take. f_equal.
    rewrite H2 in Hn. unfold len in *. rewrite length_take in Hn. lia.
Qed.

(** [Buffer] never grows past its budget: after any sequence of writes that
    a [Vec] accepts, and whose copied ranges start within the budget, it holds
    the output cut at the limit, and reports a length past the limit exactly
    when the output is longer. *)
Theorem buffer_refines_vec (limit : Z) (cs : list op) (v : bytes) :
  0 <= limit -> Forall (fun c => match c with Repeat s _ => s <= limit | _ => True end) cs ->
  run_ops ([] : bytes) cs = Some v ->
  exists o, run_ops (Buffer_new limit) cs = Some o /\
    Buffer_finish o = take (Z.to_nat limit) v /\ sink_len o = Z.min (len v) (limit + 1).
Proof.
  intros Hl Hok Hrun.
  destruct (simulation (buffer_rel limit) _
    (fun o v c v' HR Hc H => buffer_step limit o v c v' Hl HR Hc H)
    (Buffer_new limit) [] cs v) as (o & Ho & H1 & H2 & H3); [|done..|].
  - split_and!; [done|by rewrite take_nil|]. symmetry. apply Z.ltb_ge. done.
  - exists o. split_and!; [done..|]. simpl. rewrite H1, H2, H3.
    destruct (Z.ltb_spec limit (len v)); [lia|]. unfold len in *. rewrite length_take. lia.
Qed.

Lemma buffer_refines_vec_witness :
  exists o, run_ops (Buffer_new 3) [Extend [1; 2]; Repeat 0 2; Push 7] = Some o /\
    Buffer_finish o = [1; 2; 1] /\ sink_len o = 4.
Proof.
  apply (buffer_refines_vec 3 _ [1; 2; 1; 2; 7]); [done| |vm_compute; done].
  repeat constructor; done.
Defined.

(** The Erlang binary holds the output in its first [bin_len] bytes. *)
Section BinRefinement.
Context `{OwnedBinary}.

Definition bin_rel (o : BinSink) (v : bytes) : Prop :=
  o.(bin_len) = len v /\ len v <= len o.(bin) /\ take (length v) o.(bin) = v.

Lemma reserve_rel o v n : 0 <= n -> bin_rel o v ->
  bin_rel (reserve o n) v /\ len v + n <= len (reserve o n).(bin).
Proof.
  intros Hn (H1 & H2 & H3). unfold reserve. destruct (Z.ltb_spec (len (bin o)) (bin_len o + n)).
  2: { split; [done|lia]. }
  set (g := Z.max _ _). assert (Hg : len v + n <= g) by lia.
  pose proof (len_nonneg v). unfold bin_rel.
  destruct (owned_realloc (bin o) g) as [b|] eqn:E; cbn [bin bin_len].
  - rewrite (owned_realloc_len (bin o) g b) by (done || lia). split_and!; try lia.
    rewrite (owned_realloc_prefix (bin o) g b); [done|done || (unfold len in *; lia)..].
  - rewrite owned_copy_len by lia. split_and!; try lia.
    rewrite owned_copy_prefix; [done|unfold len in *; lia..].
Qed.

Lemma write_at_rel b v src : len v + len src <= len b -> take (length v) b = v ->
  let b' := write_at b (len v) src in
  len b' = len b /\ take (length (v ++ src)) b' = v ++ src.
Proof.
  intros Hlen Hpre. unfold write_at. cbv zeta.
  replace (Z.to_nat (len v)) with (length v) by (unfold len; lia). rewrite Hpre. split.
  - unfold len in *. rewrite !length_app, length_drop. lia.
  - rewrite app_assoc. apply take_app_length.
Qed.

Lemma bin_append_rel o v src : bin_rel o v ->
  let o' := reserve o (len src) in
  bin_rel (mkBinSink (write_at o'.(bin) o'.(bin_len) src) (o'.(bin_len) + len src)) (v ++ src).
Proof.
  intros HR o'. destruct (reserve_rel o v (len src) (len_nonneg _) HR) as [(H1 & H2 & H3) H4].
  subst o'. rewrite H1. destruct (write_at_rel _ v src H4 H3) as [H5 H6].
  split_and!; cbn [bin bin_len]; [by rewrite len_app| |done]. rewrite H5, len_app. lia.
Qed.

Lemma bin_step o v c v' : bin_rel o v -> run_op v c = Some v' ->
  exists o', run_op o c = Some o' /\ bin_rel o' v'.
Proof.
  intros HR Hrun. destruct c as [b|b|s e].
  - injection Hrun as <-. eexists. split; [done|]. by apply bin_append_rel.
  - injection Hrun as <-. eexists. split; [done|]. by apply bin_append_rel.
  - apply vec_repeat in Hrun as (Hs & He & ->). simpl.
    replace (s <=? e) with true by (symmetry; apply Z.leb_le; lia).
    pose proof (bin_append_rel o v (slice v s e) HR) as Happ.
    rewrite len_slice in Happ by lia.
    destruct (reserve_rel o v (e - s) ltac:(lia) HR) as [(H1 & H2 & H3) H4].
    rewrite (proj2 (get_range_Some _ _ _ (slice v s e))); [by eexists|].
    split; [|lia]. rewrite <- H3 at 1. unfold slice.
    rewrite skipn_firstn_comm, take_take. f_equal. unfold len in *. lia.
Qed.

Lemma bin_new_rel capacity : bin_rel (BinSink_with_capacity capacity) [].
Proof.
  unfold BinSink_with_capacity. split_and!; cbn [bin bin_len]; [done| |by rewrite take_0].
  rewrite owned_new_len by lia. change (len ([] : bytes)) with 0. lia.
Qed.

Lemma bin_finish_rel o v : bin_rel o v -> BinSink_finish o = v.
Proof.
  intros (H1 & H2 & H3). unfold BinSink_finish. destruct (Z.eqb_spec (bin_len o) (len (bin o))) as [E|E].
  - rewrite <- H3, take_ge; [done|]. unfold len in *. lia.
  - set (b := owned_realloc_or_copy (bin o) (bin_len o)).
    assert (Hb : len b = len v) by (unfold b; rewrite owned_copy_len by len_lia; lia).
    rewrite <- (take_ge b (length v)) by (clearbody b; unfold len in *; lia).
    unfold b. rewrite owned_copy_prefix; [done|unfold len in *; lia..].
Qed.

(** [BinSink] implements the byte string: whatever the allocator does on
    [realloc], the binary handed to the VM is exactly what a [Vec] would hold
    after the same writes, for any initial capacity. *)
Theorem binsink_refines_vec (capacity : Z) (cs : list op) (v : bytes) :
  run_ops ([] : bytes) cs = Some v ->
  exists o, run_ops (BinSink_with_capacity capacity) cs = Some o /\
    sink_len o = len v /\ BinSink_finish o = v.
Proof.
  intros Hrun.
  destruct (simulation bin_rel (fun _ => True) (fun o v c v' HR _ H' => bin_step o v c v' HR H')
    (BinSink_with_capacity capacity) [] cs v) as (o & Ho & HR).
  - apply bin_new_rel.
  - by apply Forall_true.
  - done.
  - exists o. split_and!; [done|apply HR|by apply bin_finish_rel].
Qed.
End BinRefinement.

Lemma binsink_refines_vec_witness :
  exists o, run_ops (BinSink_with_capacity 0) [Extend (replicate 60 7); Repeat 0 10; Push 9] = Some o /\
    sink_len o = 71 /\ BinSink_finish o = replicate 70 7 ++ [9].
Proof. apply (binsink_refines_vec 0 _ (replicate 70 7 ++ [9])). vm_compute. done. Defined.
