(* ===== verification/JsonWrite.v ===== *)
(** JSON scalar writers, json_write.rs: strings with the escapes of Elixir's
    encoder, and numbers. *)

From S2P Require Import Prelude Utf8 External Out.

Definition HEX : bytes :=
  [48; 49; 50; 51; 52; 53; 54; 55; 56; 57; 65; 66; 67; 68; 69; 70].

Definition QUOTE : Z := 34.
Definition BACKSLASH : Z := 92.

Definition escape (c : Z) : option bytes :=
  if c =? 34 then Some [92; 34]
  else if c =? 92 then Some [92; 92]
  else if c =? 10 then Some [92; 110]
  else if c =? 13 then Some [92; 114]
  else if c =? 9 then Some [92; 116]
  else if c =? 8 then Some [92; 98]
  else if c =? 12 then Some [92; 102]
  else None.

(** [HEX[i]]; the index is a nibble. *)
Definition hex_digit (i : Z) : Z := default 0 (get HEX i).

Section Writers.
Context {S : Type} `{Sink S}.

(** The loop over [s.iter().enumerate()], with [i] the index of the head of
    [rest] and [start] the end of the last chunk written. *)
Fixpoint write_str_loop (s rest : bytes) (i start : Z) (out : S) : S * Z :=
  match rest with
  | [] => (out, start)
  | c :: rest =>
      if (32 <=? c) && negb (c =? QUOTE) && negb (c =? BACKSLASH)
      then write_str_loop s rest (i + 1) start out
      else
        let out := extend out (slice s start i) in
        let out :=
          match escape c with
          | Some e => extend out e
          | None => extend out
              [92; 117; 48; 48; hex_digit (Z.shiftr c 4); hex_digit (Z.land c 15)]
          end in
        write_str_loop s rest (i + 1) (i + 1) out
  end.

Definition write_str (out : S) (s : bytes) : S :=
  let out := push out QUOTE in
  let '(out, start) := write_str_loop s s 0 0 out in
  let out := extend out (slice s start (len s)) in
  push out QUOTE.

Definition write_i64 `{Itoa} (out : S) (v : Z) : S := extend out (itoa_format v).
Definition write_u64 `{Itoa} (out : S) (v : Z) : S := extend out (itoa_format v).
Definition write_f64 `{Ryu} (out : S) (bits : Z) : S := extend out (ryu_format_finite bits).
End Writers.

(** * The bytewise specification *)

(** The spelling of one byte inside a string. *)
Definition escape_byte (c : Z) : bytes :=
  if (32 <=? c) && negb (c =? QUOTE) && negb (c =? BACKSLASH) then [c]
  else match escape c with
       | Some e => e
       | None => [92; 117; 48; 48; hex_digit (Z.shiftr c 4); hex_digit (Z.land c 15)]
       end.
Definition json_string (s : bytes) : bytes := [QUOTE] ++ concat (map escape_byte s) ++ [QUOTE].

(** The calls [write_str] makes, whatever the sink. *)
Fixpoint write_str_calls (s rest : bytes) (i start : Z) : list op * Z :=
  match rest with
  | [] => ([], start)
  | c :: rest =>
      if (32 <=? c) && negb (c =? QUOTE) && negb (c =? BACKSLASH)
      then write_str_calls s rest (i + 1) start
      else
        let '(ops, start') := write_str_calls s rest (i + 1) (i + 1) in
        (Extend (slice s start i) :: Extend (escape_byte c) :: ops, start')
  end.
Definition write_str_ops (s : bytes) : list op :=
  let '(ops, start) := write_str_calls s s 0 0 in
  Push QUOTE :: ops ++ [Extend (slice s start (len s)); Push QUOTE].

Lemma run_ops_app {S} `{Sink S} (o : S) a b :
  run_ops o (a ++ b) = let* o := run_ops o a in run_ops o b.
Proof.
  revert o. induction a as [|c a IH]; intros o; simpl; [done|]. by destruct (run_op o c).
Qed.

Lemma write_str_loop_calls {S} `{Sink S} s rest i start (out : S) :
  let '(ops, start') := write_str_calls s rest i start in
  exists out', run_ops out ops = Some out' /\ write_str_loop s rest i start out = (out', start').
Proof.
  revert i start out. induction rest as [|c rest IH]; intros i start out; simpl; [by eexists|].
  unfold escape_byte. destruct ((32 <=? c) && _ && _) eqn:Ec; [apply IH|].
  specialize (IH (i + 1) (i + 1)).
  destruct (write_str_calls s rest (i + 1) (i + 1)) as [ops start'].
  simpl. destruct (escape c); apply IH.
Qed.

Lemma write_str_run {S} `{Sink S} (out : S) s :
  run_ops out (write_str_ops s) = Some (write_str out s).
Proof.
  unfold write_str_ops, write_str.
  pose proof (write_str_loop_calls s s 0 0 (push out QUOTE)) as E.
  destruct (write_str_calls s s 0 0) as [ops start]. destruct E as (out' & Hrun & ->).
  simpl. rewrite run_ops_app, Hrun. done.
Qed.

(** The loop invariant: what was written covers the input up to [start], and
    the bytes from [start] to [i] need no escape. *)
Lemma write_str_loop_spec s rest i start (out : bytes) :
  0 <= start <= i -> drop (Z.to_nat i) s = rest -> i <= len s ->
  concat (map escape_byte (slice s start i)) = slice s start i ->
  let '(out', start') := write_str_loop s rest i start out in
  out' ++ slice s start' (len s) = out ++ slice s start i ++ concat (map escape_byte rest).
Proof.
  revert i start out. induction rest as [|c rest IH]; intros i start out Hi Hdrop Hlen Hplain; simpl.
  - assert (len s <= i).
    { apply (f_equal length) in Hdrop. rewrite length_drop in Hdrop. simpl in Hdrop. unfold len. lia. }
    rewrite app_nil_r. f_equal. f_equal. lia.
  - assert (Hlt : i < len s).
    { apply (f_equal length) in Hdrop. rewrite length_drop in Hdrop. simpl in Hdrop. unfold len. lia. }
    assert (Hnext : drop (Z.to_nat (i + 1)) s = rest).
    { replace (Z.to_nat (i + 1)) with (Z.to_nat i + 1)%nat by lia.
      by rewrite <- drop_drop, Hdrop. }
    destruct ((32 <=? c) && _ && _) eqn:Ec.
    + assert (Hsnoc : slice s start (i + 1) = slice s start i ++ [c]).
      { unfold slice. replace (Z.to_nat (i + 1 - start)) with (S (Z.to_nat (i - start))) by lia.
        apply take_S_r. rewrite lookup_drop.
        replace (Z.to_nat start + Z.to_nat (i - start))%nat with (Z.to_nat i + 0)%nat by lia.
        by rewrite <- lookup_drop, Hdrop. }
      assert (Eb : escape_byte c = [c]) by (unfold escape_byte; by rewrite Ec).
      specialize (IH (i + 1) start out ltac:(lia) Hnext ltac:(lia)).
      destruct (write_str_loop s rest (i + 1) start out) as [out' start'].
      rewrite IH, Hsnoc, Eb by (rewrite Hsnoc, map_app, concat_app, Hplain; simpl; by rewrite Eb).
      by rewrite <- app_assoc.
    + set (out1 := match escape c with Some e => _ | None => _ end).
      assert (Hout1 : out1 = (out ++ slice s start i) ++ escape_byte c).
      { unfold out1, escape_byte. rewrite Ec. by destruct (escape c). }
      specialize (IH (i + 1) (i + 1) out1 ltac:(lia) Hnext ltac:(lia)).
      destruct (write_str_loop s rest (i + 1) (i + 1) out1) as [out' start'].
      assert (Hnil : slice s (i + 1) (i + 1) = []) by (unfold slice; by rewrite Z.sub_diag).
      rewrite IH, Hnil, Hout1 by (by rewrite Hnil). by rewrite <- !app_assoc.
Qed.

Lemma write_str_vec (out s : bytes) : write_str out s = out ++ json_string s.
Proof.
  unfold write_str, json_string.
  pose proof (write_str_loop_spec s s 0 0 (push out QUOTE) ltac:(lia) eq_refl (len_nonneg s) eq_refl) as E.
  destruct (write_str_loop s s 0 0 (push out QUOTE)) as [out' start'].
  simpl in *. rewrite E. by rewrite <- !app_assoc.
Qed.

(** The chunked string writer is the bytewise one: it appends the quoted
    string in which every byte is spelled by [escape_byte], for every input,
    valid UTF-8 or not. *)
Theorem write_str_bytewise (out s : bytes) :
  write_str out s = out ++ [34] ++ concat (map escape_byte s) ++ [34].
Proof. rewrite write_str_vec. done. Qed.

(** Counting a string before writing it is exact: on the counting sink the
    writer ends at the length of the string it writes on a [Vec], saturated at
    one past the limit. *)
Theorem write_str_counted (limit : Z) (s : bytes) :
  0 <= limit < U64_MAX ->
  sink_len (write_str (Counter_new limit) s) = Z.min (len (write_str ([] : bytes) s)) (limit + 1).
Proof.
  intros Hl.
  destruct (simulation (counter_rel limit) (fun _ => True)
    (fun o v c v' HR _ E => counter_step limit o v c v' Hl HR E)
    (Counter_new limit) [] (write_str_ops s) (write_str [] s)) as (c & Hc & _ & H2).
  - split; [done|]. change (0 = Z.min 0 (limit + 1)). lia.
  - by apply Forall_true.
  - apply write_str_run.
  - rewrite write_str_run in Hc. injection Hc as ->. exact H2.
Qed.

Lemma write_str_counted_witness :
  sink_len (write_str (Counter_new 100) [10; 0]) = 10.
Proof. rewrite (write_str_counted 100 [10; 0]); [vm_compute; done|done]. Defined.
