(* ===== verification/JsonRead.v ===== *)
(** The strict JSON parser of json_read.rs: lexical scanners, the recursive
    value parser over an arbitrary [Builder] and [Context], and the raw
    (unparsed) object and array readers.  Every failure is [Fallback].

    The second half proves the parser safe: it stays inside its input, restores
    the nesting depth and the scratch stacks, and always terminates. *)

From S2P Require Import Prelude Utf8 External Out JsonWrite Float64.

Definition MAX_DEPTH : Z := 256.

Inductive Number : Type :=
| Int (i : Z)
| UInt (u : Z)
| Float (bits : Z).

(** [Result<T, Fallback>]. *)
Abbreviation Res A := (res unit A).
Abbreviation Fallback := (Err tt).

(** The schema context of an object key. *)
Class Context (C : Type) : Type := {
  ctx_key : C -> bytes -> C;
  ctx_field_bit : C -> bytes -> Z;
  ctx_integer : C -> bool
}.
Inductive Ordinary : Type := ordinary.
#[export] Instance Context_Ordinary : Context Ordinary :=
  {| ctx_key c _ := c; ctx_field_bit _ _ := 0; ctx_integer _ := false |}.

(** A builder [B] makes values [V]; its methods take [&mut self]. *)
Class Builder (B V : Type) : Type := {
  b_null : B -> Res (V * B);
  b_boolean : B -> bool -> Res (V * B);
  b_number : B -> Number -> Res (V * B);
  b_integer_literal : B -> bytes -> Res (V * B);
  b_string : B -> Cow -> Res (V * B);
  b_key : B -> Cow -> Res (V * B);
  b_array : B -> list V -> Res (V * B);
  b_object : B -> list V -> list V -> Res (V * B)
}.

Record Stacks (V : Type) : Type := mkStacks { st_keys : list V; st_values : list V }.
Arguments mkStacks {V} _ _.
Arguments st_keys {V} _.
Arguments st_values {V} _.
Definition Stacks_new {V} : Stacks V := mkStacks [] [].

Record Parser : Type := mkParser { jbuf : bytes; jpos : Z; jdepth : Z; jutf8 : bool }.

Definition Parser_new (b : bytes) : Parser := mkParser b 0 0 false.
Definition Parser_new_utf8 (b : bytes) : Parser := mkParser b 0 0 true.

Definition seek (p : Parser) (i : Z) : Parser := mkParser p.(jbuf) i p.(jdepth) p.(jutf8).
Definition set_depth (p : Parser) (d : Z) : Parser := mkParser p.(jbuf) p.(jpos) d p.(jutf8).
Definition adv (p : Parser) (n : Z) : Parser := seek p (p.(jpos) + n).

(** The unread input. *)
Definition rest_of (p : Parser) : bytes := drop (Z.to_nat p.(jpos)) p.(jbuf).

Definition skip_while (f : Z -> bool) (p : Parser) : Parser := adv p (prefix_len f (rest_of p)).

Definition is_ws (b : Z) : bool := (b =? 32) || (b =? 9) || (b =? 10) || (b =? 13).

Definition ws (p : Parser) : Parser := skip_while is_ws p.

Definition jend (p : Parser) : Res unit :=
  if p.(jpos) =? len p.(jbuf) then Ok tt else Fallback.

Definition peek (p : Parser) : Res Z := ok_or (get p.(jbuf) p.(jpos)) tt.

Definition expect (p : Parser) (c : Z) : Res Parser :=
  let? b := peek p in if b =? c then Ok (adv p 1) else Fallback.

Definition literal (p : Parser) (word : bytes) : Res Parser :=
  if starts_at p.(jbuf) word p.(jpos) then Ok (adv p (len word)) else Fallback.

Definition enter (p : Parser) : Res Parser :=
  let p := set_depth p (p.(jdepth) + 1) in
  if MAX_DEPTH <? p.(jdepth) then Fallback else Ok p.

Definition object_open (p : Parser) : Res (bool * Parser) :=
  let p := ws p in
  let? b := peek p in
  if b =? 125 then Ok (false, adv p 1)
  else if b =? 34 then Ok (true, p)
  else Fallback.

Definition colon (p : Parser) : Res Parser :=
  let p := ws p in
  let? p := expect p 58 in
  Ok (ws p).

Definition object_next (p : Parser) : Res (bool * Parser) :=
  let p := ws p in
  let? b := peek p in
  if b =? 44 then
    let p := ws (adv p 1) in
    let? c := peek p in
    if c =? 34 then Ok (true, p) else Fallback
  else if b =? 125 then Ok (false, adv p 1)
  else Fallback.

Definition array_rest (p : Parser) : Res (bool * Parser) :=
  let p := ws p in
  let? b := peek p in
  if b =? 93 then Ok (false, adv p 1) else Ok (true, p).

Definition array_next (p : Parser) : Res (bool * Parser) :=
  let p := ws p in
  let? b := peek p in
  if b =? 44 then Ok (true, ws (adv p 1))
  else if b =? 93 then Ok (false, adv p 1)
  else Fallback.

(** * Strings *)

(** [(d as char).to_digit(16)]. *)
Definition to_digit16 (d : Z) : option Z :=
  if (48 <=? d) && (d <=? 57) then Some (d - 48)
  else if (97 <=? d) && (d <=? 102) then Some (d - 87)
  else if (65 <=? d) && (d <=? 70) then Some (d - 55)
  else None.

Definition hex4 (p : Parser) : Res (Z * Parser) :=
  let? digits := ok_or (get_range p.(jbuf) p.(jpos) (p.(jpos) + 4)) tt in
  let? v := foldM (fun v d => let? x := ok_or (to_digit16 d) tt in Ok (v * 16 + x)) 0 digits in
  Ok (v, adv p 4).

Definition unicode_escape (p : Parser) : Res (Z * Parser) :=
  let? (hi, p) := hex4 p in
  if (0xDC00 <=? hi) && (hi <=? 0xDFFF) then Fallback
  else if negb ((0xD800 <=? hi) && (hi <=? 0xDBFF)) then
    let? c := ok_or (char_from_u32 hi) tt in Ok (c, p)
  else if negb (starts_at p.(jbuf) [92; 117] p.(jpos)) then Fallback
  else
    let? (lo, p) := hex4 (adv p 2) in
    if negb ((0xDC00 <=? lo) && (lo <=? 0xDFFF)) then Fallback
    else
      let? c := ok_or (char_from_u32 (0x10000 + Z.shiftl (hi - 0xD800) 10 + (lo - 0xDC00))) tt in
      Ok (c, p).

Section Parsing.
Context `{SimdUtf8} `{Memchr2}.

Definition check_chunk (chunk : bytes) (utf8 : bool) : Res unit :=
  if existsb (fun c => c <? 32) chunk || (negb utf8 && negb (simd_from_utf8 chunk))
  then Fallback else Ok tt.

(** The escape after a backslash; leaves the position on its last byte. *)
Definition string_escape (owned : bytes) (p : Parser) : Res (bytes * Parser) :=
  let? c := peek p in
  if c =? 34 then Ok (owned ++ [34], p)
  else if c =? 92 then Ok (owned ++ [92], p)
  else if c =? 47 then Ok (owned ++ [47], p)
  else if c =? 98 then Ok (owned ++ [8], p)
  else if c =? 102 then Ok (owned ++ [12], p)
  else if c =? 110 then Ok (owned ++ [10], p)
  else if c =? 114 then Ok (owned ++ [13], p)
  else if c =? 116 then Ok (owned ++ [9], p)
  else if c =? 117 then
    let? (ch, p) := unicode_escape (adv p 1) in
    Ok (owned ++ encode_utf8 ch, adv p (-1))
  else Fallback.

(** The chunk up to the next quote or backslash, checked. *)
Definition string_chunk (p : Parser) : Res (bytes * Z) :=
  let rest := rest_of p in
  let? end_ := ok_or (memchr2 34 92 rest) tt in
  let chunk := take (Z.to_nat end_) rest in
  let? _ := check_chunk chunk p.(jutf8) in
  Ok (chunk, end_).

(** The loop at a backslash. Each turn consumes at least two bytes. *)
Fixpoint string_loop (fuel : nat) (owned : bytes) (p : Parser) : Res (Cow * Parser) :=
  match fuel with
  | O => Fuel
  | S fuel =>
      let? (owned, p) := string_escape owned (adv p 1) in
      let p := adv p 1 in
      let? (chunk, end_) := string_chunk p in
      let owned := owned ++ chunk in
      let p := adv p end_ in
      if bool_decide (get p.(jbuf) p.(jpos) = Some 34)
      then Ok (Owned owned, adv p 1)
      else string_loop fuel owned p
  end.

Definition string (p : Parser) : Res (Cow * Parser) :=
  let? p := expect p 34 in
  let? (chunk, end_) := string_chunk p in
  let p := adv p end_ in
  if bool_decide (get p.(jbuf) p.(jpos) = Some 34)
  then Ok (Borrowed chunk, adv p 1)
  else string_loop (S (length p.(jbuf))) chunk p.

(** * Numbers *)

(** Returns the number of digits read. *)
Definition digits (p : Parser) : Z * Parser :=
  let n := prefix_len is_digit (rest_of p) in (n, adv p n).

(** The integer part: a lone zero, or a run of digits that does not start with
    one. *)
Definition int_part (p : Parser) : Res Parser :=
  let? b := peek p in
  if b =? 48 then Ok (adv p 1)
  else if (49 <=? b) && (b <=? 57) then Ok (snd (digits p))
  else Fallback.

(** The optional fraction; answers whether there was one. *)
Definition frac_part (p : Parser) : Res (bool * Parser) :=
  if bool_decide (get p.(jbuf) p.(jpos) = Some 46) then
    let (n, p) := digits (adv p 1) in
    if n =? 0 then Fallback else Ok (true, p)
  else Ok (false, p).

(** The optional exponent. *)
Definition exp_part (p : Parser) : Res (bool * Parser) :=
  match get p.(jbuf) p.(jpos) with
  | Some b =>
      if (b =? 101) || (b =? 69) then
        let p := adv p 1 in
        let p := match get p.(jbuf) p.(jpos) with
                 | Some c => if (c =? 43) || (c =? 45) then adv p 1 else p
                 | None => p
                 end in
        let (n, p) := digits p in
        if n =? 0 then Fallback else Ok (true, p)
      else Ok (false, p)
  | None => Ok (false, p)
  end.

Definition number_literal (p : Parser) : Res (bytes * Parser) :=
  let start := p.(jpos) in
  let? b := peek p in
  let p := if b =? 45 then adv p 1 else p in
  let? p := int_part p in
  let? (_, p) := frac_part p in
  let? (_, p) := exp_part p in
  Ok (slice p.(jbuf) start p.(jpos), p).

(** [text.split(['e', 'E']).next()] contains a digit from 1 to 9. *)
Definition has_nonzero_digit (text : bytes) : bool :=
  existsb (fun c => (49 <=? c) && (c <=? 57))
    (take (Z.to_nat (prefix_len (fun b => negb ((b =? 101) || (b =? 69))) text)) text).

Definition magnitude (ds : bytes) : Res Z :=
  foldM (fun m d =>
    let? m := ok_or (checked_u64 (m * 10)) tt in
    ok_or (checked_u64 (m + (d - 48))) tt) 0 ds.

Definition number (p : Parser) : Res (Number * Parser) :=
  let start := p.(jpos) in
  let negative := bool_decide (get p.(jbuf) p.(jpos) = Some 45) in
  let p := if negative then adv p 1 else p in
  let? p := int_part p in
  let int_end := p.(jpos) in
  let? (f1, p) := frac_part p in
  let? (f2, p) := exp_part p in
  if f1 || f2 then
    let text := slice p.(jbuf) start p.(jpos) in
    let f := parse_f64 text in
    if negb (f64_is_finite f) || (f64_is_zero f && has_nonzero_digit text) then Fallback
    else Ok (Float f, p)
  else
    let ds := slice p.(jbuf) (if negative then start + 1 else start) int_end in
    let? m := magnitude ds in
    if negative then
      if m <=? I64_MAX then Ok (Int (- m), p)
      else if m =? I64_MAX + 1 then Ok (Int I64_MIN, p)
      else Fallback
    else if m <=? I64_MAX then Ok (Int m, p)
    else Ok (UInt m, p).

(** * Values *)

Section Values.
Context {B V C : Type} `{Builder B V} `{Context C}.

(** [value_in] with the loops over the members of an object and the items of
    an array.  A value consumes a byte before it opens a loop, and a turn of a
    loop consumes one after its value, so two units of fuel per byte are enough
    ([value_in_fuel]). *)
Fixpoint value_in (fuel : nat) (p : Parser) (b : B) (st : Stacks V) (ctx : C) {struct fuel}
    : Res (V * Parser * B * Stacks V) :=
  match fuel with
  | O => Fuel
  | S fuel =>
      let? c := peek p in
      if c =? 123 then
        let? p := enter p in
        let p := adv p 1 in
        let k0 := length st.(st_keys) in
        let v0 := length st.(st_values) in
        let? (more, p) := object_open p in
        let? (p, b, st) :=
          if more then object_loop fuel p b st ctx 0 else Ok (p, b, st) in
        let p := set_depth p (p.(jdepth) - 1) in
        let? (v, b) := b_object b (drop k0 st.(st_keys)) (drop v0 st.(st_values)) in
        Ok (v, p, b, mkStacks (take k0 st.(st_keys)) (take v0 st.(st_values)))
      else if c =? 91 then
        let? p := enter p in
        let p := adv p 1 in
        let v0 := length st.(st_values) in
        let p := ws p in
        let? c := peek p in
        let? (p, b, st) :=
          if c =? 93 then Ok (adv p 1, b, st) else array_loop fuel p b st ctx in
        let p := set_depth p (p.(jdepth) - 1) in
        let? (v, b) := b_array b (drop v0 st.(st_values)) in
        Ok (v, p, b, mkStacks st.(st_keys) (take v0 st.(st_values)))
      else if c =? 34 then
        let? (s, p) := string p in
        let? (v, b) := b_string b s in Ok (v, p, b, st)
      else if c =? 116 then
        let? p := literal p [116; 114; 117; 101] in
        let? (v, b) := b_boolean b true in Ok (v, p, b, st)
      else if c =? 102 then
        let? p := literal p [102; 97; 108; 115; 101] in
        let? (v, b) := b_boolean b false in Ok (v, p, b, st)
      else if c =? 110 then
        let? p := literal p [110; 117; 108; 108] in
        let? (v, b) := b_null b in Ok (v, p, b, st)
      else if (c =? 45) || is_digit c then
        if ctx_integer ctx then
          let? (raw, p) := number_literal p in
          let? (v, b) := b_integer_literal b raw in Ok (v, p, b, st)
        else
          let? (n, p) := number p in
          let? (v, b) := b_number b n in Ok (v, p, b, st)
      else Fallback
  end
with object_loop (fuel : nat) (p : Parser) (b : B) (st : Stacks V) (ctx : C) (seen : Z)
    {struct fuel} : Res (Parser * B * Stacks V) :=
  match fuel with
  | O => Fuel
  | S fuel =>
      let? (key, p) := string p in
      let bit := ctx_field_bit ctx (cow_bytes key) in
      if negb (Z.land seen bit =? 0) then Fallback
      else
        let child := ctx_key ctx (cow_bytes key) in
        let? (k, b) := b_key b key in
        let st := mkStacks (st.(st_keys) ++ [k]) st.(st_values) in
        let? p := colon p in
        let? (v, p, b, st) := value_in fuel p b st child in
        let st := mkStacks st.(st_keys) (st.(st_values) ++ [v]) in
        let? (more, p) := object_next p in
        if more then object_loop fuel p b st ctx (Z.lor seen bit) else Ok (p, b, st)
  end
with array_loop (fuel : nat) (p : Parser) (b : B) (st : Stacks V) (ctx : C) {struct fuel}
    : Res (Parser * B * Stacks V) :=
  match fuel with
  | O => Fuel
  | S fuel =>
      let p := ws p in
      let? (v, p, b, st) := value_in fuel p b st ctx in
      let st := mkStacks st.(st_keys) (st.(st_values) ++ [v]) in
      let p := ws p in
      let? c := peek p in
      if c =? 44 then array_loop fuel (adv p 1) b st ctx
      else if c =? 93 then Ok (adv p 1, b, st)
      else Fallback
  end.

Definition value_fuel (p : Parser) : nat := (2 * length p.(jbuf) + 2)%nat.

Definition value_top (p : Parser) (b : B) (st : Stacks V) (ctx : C) :
    Res (V * Parser * B * Stacks V) := value_in (value_fuel p) p b st ctx.

Definition document_in (p : Parser) (b : B) (st : Stacks V) (ctx : C) :
    Res (V * Parser * B * Stacks V) :=
  let p := ws p in
  let? (v, p, b, st) := value_top p b st ctx in
  let p := ws p in
  let? _ := jend p in
  Ok (v, p, b, st).
End Values.

Definition value {B V} `{Builder B V} (p : Parser) (b : B) (st : Stacks V) :=
  value_top p b st ordinary.

Definition document_with {B V} `{Builder B V} (p : Parser) (b : B) (st : Stacks V) :=
  document_in p b st ordinary.

Definition document {B V} `{Builder B V} (p : Parser) (b : B) : Res (V * Parser * B) :=
  let? (v, p, b, _) := document_with p b Stacks_new in Ok (v, p, b).

(** * Raw readers *)

(** The builder that validates and keeps nothing. *)
Inductive Skip : Type := skip_builder.
#[export] Instance Builder_Skip : Builder Skip unit := {|
  b_null b := Ok (tt, b); b_boolean b _ := Ok (tt, b); b_number b _ := Ok (tt, b);
  b_integer_literal b _ := Fallback; b_string b _ := Ok (tt, b); b_key b _ := Ok (tt, b);
  b_array b _ := Ok (tt, b); b_object b _ _ := Ok (tt, b)
|}.

Definition skip_value (p : Parser) : Res (bytes * Parser) :=
  let start := p.(jpos) in
  let? (_, p, _, _) := value p skip_builder Stacks_new in
  Ok (slice p.(jbuf) start p.(jpos), p).

Fixpoint raw_object_loop (fuel : nat) (p : Parser) (fields : list (Cow * bytes))
    : Res (list (Cow * bytes) * Parser) :=
  match fuel with
  | O => Fuel
  | S fuel =>
      let? (key, p) := string p in
      let? p := colon p in
      let? (raw, p) := skip_value p in
      let fields := fields ++ [(key, raw)] in
      let? (more, p) := object_next p in
      if more then raw_object_loop fuel p fields else Ok (fields, p)
  end.

Definition raw_object (p : Parser) : Res (list (Cow * bytes) * Parser) :=
  let p := ws p in
  let? p := expect p 123 in
  let? (more, p) := object_open p in
  if more then raw_object_loop (S (length p.(jbuf))) p [] else Ok ([], p).

Fixpoint raw_array_loop (fuel : nat) (p : Parser) (values : list bytes)
    : Res (list bytes * Parser) :=
  match fuel with
  | O => Fuel
  | S fuel =>
      let? (raw, p) := skip_value p in
      let values := values ++ [raw] in
      let p := ws p in
      let? c := peek p in
      if c =? 93 then Ok (values, adv p 1)
      else if c =? 44 then raw_array_loop fuel (ws (adv p 1)) values
      else Fallback
  end.

Definition raw_array (p : Parser) : Res (list bytes * Parser) :=
  let p := ws p in
  let? p := expect p 91 in
  let p := ws p in
  let? c := peek p in
  if c =? 93 then Ok ([], adv p 1)
  else raw_array_loop (S (length p.(jbuf))) p [].
End Parsing.

(** * Movement *)

Definition in_bounds (p : Parser) : Prop := 0 <= p.(jpos) <= len p.(jbuf).

(** [q] is [p] moved forward by at least [n] bytes, inside the same input and
    at the same depth. *)
Definition moved (n : Z) (p q : Parser) : Prop :=
  q.(jbuf) = p.(jbuf) /\ q.(jdepth) = p.(jdepth) /\ q.(jutf8) = p.(jutf8) /\
  p.(jpos) + n <= q.(jpos) <= len p.(jbuf).

Lemma moved_trans n m p q r : moved n p q -> moved m q r -> moved (n + m) p r.
Proof.
  intros (B1 & D1 & U1 & P1) (B2 & D2 & U2 & P2). rewrite B1 in *.
  split_and!; [congruence..|lia|lia].
Qed.

Lemma moved_weaken n m p q : m <= n -> moved n p q -> moved m p q.
Proof. intros Hm (B & D & U & P). split_and!; [done..|lia|lia]. Qed.

Lemma moved_in_bounds n p q : 0 <= n -> in_bounds p -> moved n p q -> in_bounds q.
Proof. intros Hn Hp (B & _ & _ & P). unfold in_bounds in *. rewrite B. lia. Qed.

Lemma moved_refl p : in_bounds p -> moved 0 p p.
Proof. unfold in_bounds. intros H. split_and!; [done..|lia|lia]. Qed.

Lemma moved_remaining n p q : moved n p q ->
  len q.(jbuf) - q.(jpos) <= len p.(jbuf) - p.(jpos) - n.
Proof. intros (-> & _ & _ & P). lia. Qed.

Lemma rest_of_len p : in_bounds p -> len (rest_of p) = len p.(jbuf) - p.(jpos).
Proof. unfold in_bounds, rest_of, len. rewrite length_drop. lia. Qed.

Lemma adv_moved p n : in_bounds p -> 0 <= n <= len (rest_of p) -> moved n p (adv p n).
Proof.
  intros Hp Hn. rewrite rest_of_len in Hn by done. split_and!; simpl; [done..|lia|lia].
Qed.

Lemma skip_while_moved f p : in_bounds p -> moved 0 p (skip_while f p).
Proof.
  intros Hp. pose proof (prefix_len_bound f (rest_of p)) as Hb.
  eapply moved_weaken, adv_moved; [|done|exact Hb]. lia.
Qed.

Lemma ws_moved p : in_bounds p -> moved 0 p (ws p).
Proof. apply skip_while_moved. Qed.

Lemma peek_bound p c : peek p = Ok c -> p.(jpos) < len p.(jbuf).
Proof.
  unfold peek, ok_or. destruct (get _ _) eqn:E; [|done]. intros _.
  apply get_Some_bound in E. lia.
Qed.

Lemma peek_not_fuel p : peek p <> Fuel.
Proof. unfold peek, ok_or. by destruct (get _ _). Qed.

Lemma peek_moved p c : in_bounds p -> peek p = Ok c -> moved 1 p (adv p 1).
Proof.
  intros Hp H. apply peek_bound in H. apply adv_moved; [done|].
  rewrite rest_of_len by done. lia.
Qed.

Lemma expect_moved p c q : in_bounds p -> expect p c = Ok q -> moved 1 p q.
Proof.
  unfold expect. intros Hp H. destruct (peek p) eqn:E; try done.
  destruct (_ =? c); [|done]. injection H as <-. eapply peek_moved; eauto.
Qed.

Lemma enter_spec p q : enter p = Ok q -> q = set_depth p (p.(jdepth) + 1) /\ p.(jdepth) < MAX_DEPTH.
Proof.
  unfold enter. simpl. destruct (Z.ltb_spec MAX_DEPTH (jdepth p + 1)); [done|].
  intros [= <-]. split; [done|lia].
Qed.

(** Chain the movement facts of a sequence of scanners: [mv L] adds the fact of
    the scanner lemma [L] and the bounds of the position it reaches. *)
Ltac into_bounds :=
  repeat match goal with
  | Hm : moved ?n ?p ?q, Hp : in_bounds ?p |- _ =>
      lazymatch goal with
      | _ : in_bounds q |- _ => fail
      | _ => assert (in_bounds q) by (apply (moved_in_bounds n p q); [lia|exact Hp|exact Hm])
      end
  end.
Ltac chain :=
  match goal with
  | Hm : moved ?n ?p ?q |- moved _ ?p ?q => apply (moved_weaken n); [lia|exact Hm]
  | Hm : moved ?n ?p ?q |- moved ?k ?p _ =>
      apply (moved_weaken (n + (k - n))); [lia|]; apply (moved_trans _ _ _ q); [exact Hm|chain]
  end.

Lemma object_open_moved p b q : in_bounds p -> object_open p = Ok (b, q) -> moved 0 p q.
Proof.
  unfold object_open. intros Hp H. pose proof (ws_moved p Hp). into_bounds.
  destruct (peek (ws p)) as [c| |] eqn:E; try done.
  destruct (c =? 125); [|destruct (c =? 34); [|done]]; injection H as <- <-.
  - pose proof (peek_moved _ _ ltac:(done) E). eapply moved_weaken; [|eapply moved_trans; eauto]. lia.
  - done.
Qed.

Lemma colon_moved p q : in_bounds p -> colon p = Ok q -> moved 1 p q.
Proof.
  unfold colon. intros Hp H. pose proof (ws_moved p Hp). into_bounds.
  destruct (expect (ws p) 58) as [r| |] eqn:E; try done. injection H as <-.
  apply expect_moved in E; [|done]. into_bounds. pose proof (ws_moved r ltac:(done)).
  apply (moved_trans 0 1 _ (ws p)); [done|]. apply (moved_trans 1 0 _ r); done.
Qed.

Lemma object_next_moved p b q : in_bounds p -> object_next p = Ok (b, q) -> moved 1 p q.
Proof.
  unfold object_next. intros Hp H. pose proof (ws_moved p Hp). into_bounds.
  destruct (peek (ws p)) as [c| |] eqn:E; try done.
  pose proof (peek_moved _ _ ltac:(done) E) as Hm. into_bounds.
  pose proof (moved_trans 0 1 p _ _ ltac:(done) Hm) as Hm'.
  destruct (c =? 44).
  - pose proof (ws_moved (adv (ws p) 1) ltac:(done)).
    destruct (peek (ws (adv (ws p) 1))) as [d| |]; try done.
    destruct (d =? 34); [|done]. injection H as <- <-. by apply (moved_trans 1 0 _ (adv (ws p) 1)).
  - destruct (c =? 125); [|done]. by injection H as <- <-.
Qed.

Lemma array_rest_moved p b q : in_bounds p -> array_rest p = Ok (b, q) -> moved 0 p q.
Proof.
  unfold array_rest. intros Hp H. pose proof (ws_moved p Hp). into_bounds.
  destruct (peek (ws p)) as [c| |] eqn:E; try done.
  destruct (c =? 93); injection H as <- <-; [|done].
  pose proof (peek_moved _ _ ltac:(done) E) as Hm.
  eapply moved_weaken; [|by apply (moved_trans 0 1 p (ws p))]. lia.
Qed.

Lemma array_next_moved p b q : in_bounds p -> array_next p = Ok (b, q) -> moved 1 p q.
Proof.
  unfold array_next. intros Hp H. pose proof (ws_moved p Hp). into_bounds.
  destruct (peek (ws p)) as [c| |] eqn:E; try done.
  pose proof (peek_moved _ _ ltac:(done) E) as Hm. into_bounds.
  pose proof (moved_trans 0 1 p _ _ ltac:(done) Hm) as Hm'.
  destruct (c =? 44).
  - injection H as <- <-. apply (moved_trans 1 0 _ (adv (ws p) 1)); [done|]. by apply ws_moved.
  - destruct (c =? 93); [|done]. by injection H as <- <-.
Qed.

Lemma literal_moved p w q : in_bounds p -> literal p w = Ok q -> moved (len w) p q.
Proof.
  unfold literal. intros Hp H. destruct (starts_at _ _ _) eqn:E; [|done]. injection H as <-.
  unfold starts_at in E. apply bool_decide_eq_true in E. apply adv_moved; [done|].
  split; [apply len_nonneg|]. apply (f_equal len) in E. unfold slice in E.
  replace (jpos p + len w - jpos p) with (len w) in E by lia.
  unfold rest_of, len in *. rewrite length_take in E. lia.
Qed.

Lemma hex4_moved p v q : in_bounds p -> hex4 p = Ok (v, q) -> moved 4 p q.
Proof.
  unfold hex4, ok_or. intros Hp H. destruct (get_range _ _ _) as [ds|] eqn:E; [|done].
  destruct (foldM _ 0 ds); try done. injection H as <- <-.
  apply get_range_Some in E as (_ & H1 & H2). apply adv_moved; [done|].
  rewrite rest_of_len by done. lia.
Qed.

Lemma unicode_escape_moved p v q : in_bounds p -> unicode_escape p = Ok (v, q) -> moved 4 p q.
Proof.
  unfold unicode_escape, ok_or. intros Hp H. destruct (hex4 p) as [[hi r]| |] eqn:E; try done.
  apply hex4_moved in E; [|done]. into_bounds.
  destruct (_ && _); [done|]. destruct (negb (_ && _)).
  { destruct (char_from_u32 hi); [|done]. by injection H as <- <-. }
  destruct (starts_at (jbuf r) [92; 117] (jpos r)) eqn:Es; [|done]. cbn [negb] in H.
  assert (Hl : moved 2 r (adv r 2)).
  { apply (literal_moved r [92; 117]); [done|]. unfold literal. by rewrite Es. }
  into_bounds. destruct (hex4 (adv r 2)) as [[lo s]| |] eqn:E2; try done.
  apply hex4_moved in E2; [|done]. destruct (negb (_ && _)); [done|].
  destruct (char_from_u32 _); [|done]. injection H as <- <-.
  apply (moved_weaken (4 + (2 + 4))); [lia|].
  eapply moved_trans; [exact E|]. by apply (moved_trans 2 4 r (adv r 2)).
Qed.

(** * No scanner runs out of fuel *)

Lemma expect_not_fuel p c : expect p c <> Fuel.
Proof. unfold expect. pose proof (peek_not_fuel p). destruct (peek p); try done. by destruct (_ =? c). Qed.

Lemma hex4_not_fuel p : hex4 p <> Fuel.
Proof.
  unfold hex4, ok_or at 1. destruct (get_range _ _ _) as [ds|]; [|done].
  pose proof (foldM_not_fuel
    (fun v d => let? x := ok_or (to_digit16 d) tt in Ok (v * 16 + x)) 0 ds) as Hf.
  destruct (foldM _ 0 ds); try done. intros _. apply Hf; [|done].
  intros v d _. unfold ok_or. by destruct (to_digit16 d).
Qed.

Lemma unicode_escape_not_fuel p : unicode_escape p <> Fuel.
Proof.
  unfold unicode_escape, ok_or. pose proof (hex4_not_fuel p).
  destruct (hex4 p) as [[hi q]| |]; try done.
  destruct (_ && _); [done|]. destruct (negb (_ && _)); [by destruct (char_from_u32 hi)|].
  destruct (negb (starts_at _ _ _)); [done|]. pose proof (hex4_not_fuel (adv q 2)).
  destruct (hex4 (adv q 2)) as [[lo r]| |]; try done.
  destruct (negb (_ && _)); [done|]. by destruct (char_from_u32 _).
Qed.

Lemma object_open_not_fuel p : object_open p <> Fuel.
Proof.
  unfold object_open. pose proof (peek_not_fuel (ws p)). destruct (peek (ws p)) as [c| |]; try done.
  destruct (c =? 125); [done|]. by destruct (c =? 34).
Qed.

Lemma colon_not_fuel p : colon p <> Fuel.
Proof. unfold colon. pose proof (expect_not_fuel (ws p) 58). by destruct (expect (ws p) 58). Qed.

Lemma object_next_not_fuel p : object_next p <> Fuel.
Proof.
  unfold object_next. pose proof (peek_not_fuel (ws p)). destruct (peek (ws p)) as [c| |]; try done.
  pose proof (peek_not_fuel (ws (adv (ws p) 1))).
  destruct (c =? 44); [|by destruct (c =? 125)].
  destruct (peek (ws (adv (ws p) 1))) as [d| |]; try done. by destruct (d =? 34).
Qed.

Section Facts.
Context `{SimdUtf8} `{Memchr2}.

Lemma string_escape_moved o p o' q : in_bounds p -> string_escape o p = Ok (o', q) ->
  moved 1 p (adv q 1) /\ in_bounds q /\ q.(jpos) < len q.(jbuf) /\ p.(jpos) <= q.(jpos).
Proof.
  unfold string_escape. intros Hp H'. destruct (peek p) as [c| |] eqn:E; try done.
  pose proof (peek_moved _ _ Hp E) as Hm. apply peek_bound in E.
  repeat match type of H' with
    | (if ?c then _ else _) = _ => destruct c; [injection H' as <- <-; by split_and!|]
    end.
  destruct (c =? 117); [|done]. into_bounds.
  destruct (unicode_escape (adv p 1)) as [[ch r]| |] eqn:Eu; try done.
  apply unicode_escape_moved in Eu; [|done]. injection H' as <- <-.
  destruct Eu as (B & D & U & P). simpl in *. unfold in_bounds, moved. simpl. rewrite B.
  unfold in_bounds in Hp. split_and!; try done; lia.
Qed.

Lemma memchr2_bound a b l i : memchr2 a b l = Some i -> 0 <= i < len l.
Proof.
  intros E. destruct (decide (Exists (fun y => y = a \/ y = b) l)) as [He|He].
  - clear -E He. revert i E.
    assert (Hs : exists pre x suf, l = pre ++ x :: suf /\
      Forall (fun y => y <> a /\ y <> b) pre /\ (x = a \/ x = b)).
    { induction l as [|y l IH]; [by apply Exists_nil in He|].
      destruct (decide (y = a \/ y = b)) as [Hy|Hy].
      - exists [], y, l. split; [done|]. split; [constructor|done].
      - apply Exists_cons in He as [?|He]; [done|].
        destruct (IH He) as (pre & x & suf & -> & Hp & Hx).
        exists (y :: pre), x, suf. split; [done|]. split; [|done]. constructor; [|done].
        split; intros ->; apply Hy; auto. }
    destruct Hs as (pre & x & suf & -> & Hp & Hx). intros i E.
    rewrite memchr2_first in E by done. injection E as <-. len_lia.
  - rewrite memchr2_none in E; [done|]. apply Forall_Exists_neg in He.
    eapply Forall_impl; [|exact He]. simpl. intros y Hy. split; intros ->; apply Hy; auto.
Qed.

Lemma string_chunk_moved p c e : in_bounds p -> string_chunk p = Ok (c, e) ->
  moved 0 p (adv p e) /\ (adv p e).(jpos) < len p.(jbuf) /\ 0 <= e.
Proof.
  unfold string_chunk, ok_or. intros Hp H'. destruct (memchr2 34 92 (rest_of p)) as [i|] eqn:E; [|done].
  destruct (check_chunk _ _); try done. injection H' as <- <-.
  apply memchr2_bound in E. rewrite rest_of_len in E by done. split_and!.
  - eapply moved_weaken, adv_moved; [|done|]; [|rewrite rest_of_len by done]; lia.
  - simpl. lia.
  - lia.
Qed.

Lemma adv1_moved p : in_bounds p -> p.(jpos) < len p.(jbuf) -> moved 1 p (adv p 1).
Proof. intros Hp Hl. apply adv_moved; [done|]. rewrite rest_of_len by done. lia. Qed.

(** One turn of the string loop. *)
Lemma string_turn_moved o p o' q c e :
  in_bounds p -> p.(jpos) < len p.(jbuf) ->
  string_escape o (adv p 1) = Ok (o', q) -> string_chunk (adv q 1) = Ok (c, e) ->
  moved 2 p (adv (adv q 1) e) /\ (adv (adv q 1) e).(jpos) < len p.(jbuf) /\
  in_bounds (adv (adv q 1) e).
Proof.
  intros Hp Hl E1 E2. pose proof (adv1_moved p Hp Hl) as Hm. into_bounds.
  apply string_escape_moved in E1 as (Hm1 & _); [|done]. into_bounds.
  apply string_chunk_moved in E2 as (Hm2 & Hl2 & _); [|done]. into_bounds.
  split_and!; [|destruct Hm1 as (B & _); simpl in B; rewrite <- B; done|done].
  apply (moved_weaken (1 + (1 + 0))); [lia|]. eapply moved_trans; [exact Hm|].
  eapply moved_trans; [exact Hm1|exact Hm2].
Qed.

Lemma string_loop_moved fuel o p c q :
  in_bounds p -> p.(jpos) < len p.(jbuf) -> string_loop fuel o p = Ok (c, q) -> moved 1 p q.
Proof.
  revert o p. induction fuel as [|fuel IH]; intros o p Hp Hl E; simpl in E; [done|].
  destruct (string_escape o (adv p 1)) as [[o1 p1]| |] eqn:E1; try done.
  destruct (string_chunk (adv p1 1)) as [[ch e]| |] eqn:E2; try done.
  destruct (string_turn_moved _ _ _ _ _ _ Hp Hl E1 E2) as (Hm & Hl2 & Hb2).
  set (p2 := adv (adv p1 1) e) in *.
  assert (Hl3 : jpos p2 < len (jbuf p2)) by (destruct Hm as (-> & _); done).
  case_bool_decide.
  - injection E as <- <-. eapply moved_weaken; [|eapply moved_trans; [exact Hm|by apply adv1_moved]]. lia.
  - eapply moved_weaken; [|eapply moved_trans; [exact Hm|eapply IH; eauto]]. lia.
Qed.

Lemma string_moved p c q : in_bounds p -> string p = Ok (c, q) -> moved 2 p q.
Proof.
  unfold string. intros Hp E. destruct (expect p 34) as [p1| |] eqn:E1; try done.
  apply expect_moved in E1; [|done]. into_bounds.
  destruct (string_chunk p1) as [[ch e]| |] eqn:E2; try done.
  apply string_chunk_moved in E2 as (Hm2 & Hl2 & _); [|done]. into_bounds.
  pose proof (moved_trans _ _ _ _ _ E1 Hm2) as Hm.
  case_bool_decide.
  - injection E as <- <-. apply (moved_trans 1 1 p (adv p1 e)); [done|]. by apply adv1_moved.
  - apply string_loop_moved in E; [|done|done]. by apply (moved_trans 1 1 p (adv p1 e)).
Qed.

Lemma string_chunk_not_fuel p : string_chunk p <> Fuel.
Proof.
  unfold string_chunk, ok_or, check_chunk. destruct (memchr2 _ _ _); [|done]. by destruct (_ || _).
Qed.

Lemma string_escape_not_fuel o p : string_escape o p <> Fuel.
Proof.
  unfold string_escape. pose proof (peek_not_fuel p). destruct (peek p) as [c| |]; try done.
  repeat match goal with |- (if ?c then _ else _) <> _ => destruct c; [done|] end.
  destruct (c =? 117); [|done]. pose proof (unicode_escape_not_fuel (adv p 1)).
  by destruct (unicode_escape (adv p 1)) as [[]| |].
Qed.

Lemma string_loop_fuel fuel o p :
  in_bounds p -> p.(jpos) < len p.(jbuf) -> len p.(jbuf) - p.(jpos) < 2 * Z.of_nat fuel ->
  string_loop fuel o p <> Fuel.
Proof.
  revert o p. induction fuel as [|fuel IH]; intros o p Hp Hl Hf; simpl; [lia|].
  pose proof (string_escape_not_fuel o (adv p 1)).
  destruct (string_escape o (adv p 1)) as [[o1 p1]| |] eqn:E1; try done.
  pose proof (string_chunk_not_fuel (adv p1 1)).
  destruct (string_chunk (adv p1 1)) as [[ch e]| |] eqn:E2; try done.
  destruct (string_turn_moved _ _ _ _ _ _ Hp Hl E1 E2) as (Hm & Hl2 & Hb2).
  case_bool_decide; [done|]. apply IH; [done|destruct Hm as (-> & _); done|].
  apply moved_remaining in Hm. lia.
Qed.

Lemma string_not_fuel p : in_bounds p -> string p <> Fuel.
Proof.
  intros Hp. unfold string. pose proof (expect_not_fuel p 34).
  destruct (expect p 34) as [p1| |] eqn:E1; try done.
  apply expect_moved in E1; [|done]. into_bounds. pose proof (string_chunk_not_fuel p1).
  destruct (string_chunk p1) as [[ch e]| |] eqn:E2; try done.
  apply string_chunk_moved in E2 as (Hm2 & Hl2 & _); [|done]. into_bounds.
  case_bool_decide; [done|]. apply string_loop_fuel; [done..|].
  unfold in_bounds in *. unfold len in *. lia.
Qed.

(** * Numbers *)

Lemma digits_moved p n q : in_bounds p -> digits p = (n, q) -> moved n p q /\ 0 <= n.
Proof.
  unfold digits. intros Hp [= <- <-]. pose proof (prefix_len_bound is_digit (rest_of p)).
  split; [by apply adv_moved|lia].
Qed.

(** At a digit, at least one digit is read. *)
Lemma digits_pos p c n q : in_bounds p -> peek p = Ok c -> is_digit c = true ->
  digits p = (n, q) -> 1 <= n.
Proof.
  unfold peek, digits, rest_of, get, ok_or, in_bounds. intros Hp Hc Hd [= <- _].
  destruct (_ && _); [|done]. destruct (jbuf p !! _) eqn:E; [|done]. injection Hc as ->.
  erewrite drop_S by exact E. simpl. rewrite Hd.
  pose proof (prefix_len_bound is_digit (drop (S (Z.to_nat (jpos p))) (jbuf p))). lia.
Qed.

Lemma int_part_moved p q : in_bounds p -> int_part p = Ok q -> moved 1 p q.
Proof.
  unfold int_part. intros Hp E. destruct (peek p) as [c| |] eqn:Ec; try done.
  destruct (c =? 48); [injection E as <-; by eapply peek_moved|].
  destruct ((49 <=? c) && (c <=? 57)) eqn:Ed; [|done].
  destruct (digits p) as [n r] eqn:Edg. cbn [snd] in E. injection E as <-.
  assert (1 <= n).
  { eapply digits_pos; [done..| |done]. unfold is_digit. bools. apply andb_true_iff. lia. }
  apply digits_moved in Edg as [Hm _]; [|done]. apply (moved_weaken n); [lia|done].
Qed.

Lemma get_moved p c : in_bounds p -> get p.(jbuf) p.(jpos) = Some c -> moved 1 p (adv p 1).
Proof. intros Hp E. apply (peek_moved p c Hp). unfold peek. by rewrite E. Qed.

Lemma frac_part_moved p b q : in_bounds p -> frac_part p = Ok (b, q) -> moved 0 p q.
Proof.
  unfold frac_part. intros Hp E. case_bool_decide as Hd.
  - pose proof (get_moved p 46 Hp Hd). into_bounds. destruct (digits (adv p 1)) as [n r] eqn:Edg.
    destruct (n =? 0); [done|]. injection E as <- <-.
    apply digits_moved in Edg as [Hm Hn]; [|done].
    apply (moved_weaken (1 + n)); [lia|]. by eapply moved_trans.
  - injection E as <- <-. by apply moved_refl.
Qed.

Lemma exp_part_moved p b q : in_bounds p -> exp_part p = Ok (b, q) -> moved 0 p q.
Proof.
  unfold exp_part. intros Hp E. destruct (get (jbuf p) (jpos p)) as [c|] eqn:Ec.
  2: { injection E as <- <-. by apply moved_refl. }
  pose proof (get_moved p c Hp Ec). into_bounds.
  destruct ((c =? 101) || (c =? 69)); [|injection E as <- <-; by apply moved_refl].
  set (p2 := match get _ _ with Some _ => _ | None => _ end) in E.
  assert (Hm2 : moved 0 (adv p 1) p2).
  { subst p2. destruct (get (jbuf (adv p 1)) (jpos (adv p 1))) as [d|] eqn:Eg; [|by apply moved_refl].
    destruct (_ || _); [|by apply moved_refl]. apply (moved_weaken 1); [lia|].
    by eapply get_moved. }
  into_bounds. destruct (digits p2) as [n r] eqn:Edg. destruct (n =? 0); [done|].
  injection E as <- <-. apply digits_moved in Edg as [Hm Hn]; [|done].
  apply (moved_weaken (1 + (0 + n))); [lia|]. eapply moved_trans; [done|]. by eapply moved_trans.
Qed.

Lemma sign_moved p (b : bool) : in_bounds p ->
  (b = true -> get p.(jbuf) p.(jpos) = Some 45) -> moved 0 p (if b then adv p 1 else p).
Proof.
  intros Hp Hb. destruct b; [|by apply moved_refl].
  apply (moved_weaken 1); [lia|]. eapply get_moved; [done|]. by apply Hb.
Qed.

(** The three parts of a number, in sequence. *)
Lemma parts_moved p p0 p1 b1 p2 b2 p3 : in_bounds p -> moved 0 p p0 ->
  int_part p0 = Ok p1 -> frac_part p1 = Ok (b1, p2) -> exp_part p2 = Ok (b2, p3) -> moved 1 p p3.
Proof.
  intros Hp Hm0 E1 E2 E3. into_bounds. apply int_part_moved in E1; [|done]. into_bounds.
  apply frac_part_moved in E2; [|done]. into_bounds. apply exp_part_moved in E3; [|done].
  apply (moved_weaken (0 + (1 + (0 + 0)))); [lia|].
  eapply moved_trans; [done|]. eapply moved_trans; [done|]. by eapply moved_trans.
Qed.

Lemma number_literal_moved p s q : in_bounds p -> number_literal p = Ok (s, q) -> moved 1 p q.
Proof.
  unfold number_literal. intros Hp E. destruct (peek p) as [c| |] eqn:Ec; try done.
  assert (moved 0 p (if c =? 45 then adv p 1 else p)).
  { apply sign_moved; [done|]. unfold peek, ok_or in Ec. intros Hc. bools.
    destruct (get _ _); [|done]. congruence. }
  destruct (int_part _) as [p1| |] eqn:E1; try done.
  destruct (frac_part p1) as [[b1 p2]| |] eqn:E2; try done.
  destruct (exp_part p2) as [[b2 p3]| |] eqn:E3; try done.
  injection E as <- <-. by eapply parts_moved.
Qed.

Lemma number_moved p v q : in_bounds p -> number p = Ok (v, q) -> moved 1 p q.
Proof.
  unfold number. intros Hp E. set (neg := bool_decide _) in *.
  assert (moved 0 p (if neg then adv p 1 else p)).
  { apply sign_moved; [done|]. subst neg. by case_bool_decide. }
  destruct (int_part _) as [p1| |] eqn:E1; try done.
  destruct (frac_part p1) as [[b1 p2]| |] eqn:E2; try done.
  destruct (exp_part p2) as [[b2 p3]| |] eqn:E3; try done.
  assert (Hm : moved 1 p p3) by by eapply parts_moved.
  destruct (b1 || b2); [destruct (_ || _) in E; [done|]; by injection E as <- <-|].
  destruct (magnitude _) as [m| |]; try done.
  repeat match type of E with (if ?c then _ else _) = _ => destruct c end; try done;
    by injection E as <- <-.
Qed.

Lemma int_part_not_fuel p : int_part p <> Fuel.
Proof.
  unfold int_part. pose proof (peek_not_fuel p). destruct (peek p); try done.
  destruct (_ =? 48); [done|]. by destruct (_ && _).
Qed.
Lemma frac_part_not_fuel p : frac_part p <> Fuel.
Proof. unfold frac_part. case_bool_decide; [|done]. destruct (digits _). by destruct (_ =? 0). Qed.
Lemma exp_part_not_fuel p : exp_part p <> Fuel.
Proof.
  unfold exp_part. destruct (get _ _); [|done]. destruct (_ || _); [|done].
  destruct (digits _). by destruct (_ =? 0).
Qed.
Lemma magnitude_not_fuel ds : magnitude ds <> Fuel.
Proof.
  apply foldM_not_fuel. intros m d _. unfold ok_or.
  destruct (checked_u64 (m * 10)); [|done]. by destruct (checked_u64 _).
Qed.

Lemma number_literal_not_fuel p : number_literal p <> Fuel.
Proof.
  unfold number_literal. pose proof (peek_not_fuel p). destruct (peek p) as [c| |]; try done.
  set (p0 := if _ : bool then _ else _). pose proof (int_part_not_fuel p0).
  destruct (int_part p0) as [p1| |]; try done. pose proof (frac_part_not_fuel p1).
  destruct (frac_part p1) as [[b1 p2]| |]; try done. pose proof (exp_part_not_fuel p2).
  by destruct (exp_part p2) as [[b2 p3]| |].
Qed.

Lemma number_not_fuel p : number p <> Fuel.
Proof.
  unfold number. set (p0 := if _ : bool then _ else _). pose proof (int_part_not_fuel p0).
  destruct (int_part p0) as [p1| |]; try done. pose proof (frac_part_not_fuel p1).
  destruct (frac_part p1) as [[b1 p2]| |]; try done. pose proof (exp_part_not_fuel p2).
  destruct (exp_part p2) as [[b2 p3]| |]; try done.
  destruct (b1 || b2); [by destruct (_ || _)|].
  set (ds := slice _ _ _). pose proof (magnitude_not_fuel ds).
  destruct (magnitude ds); try done. case_goal; done.
Qed.
End Facts.

(** * Values *)

(** A builder whose methods answer [Ok] or [Fallback]. *)
Class BuilderTotal (B V : Type) `{Builder B V} : Prop := {
  t_null b : b_null b <> Fuel;
  t_boolean b v : b_boolean b v <> Fuel;
  t_number b n : b_number b n <> Fuel;
  t_integer_literal b s : b_integer_literal b s <> Fuel;
  t_string b s : b_string b s <> Fuel;
  t_key b s : b_key b s <> Fuel;
  t_array b l : b_array b l <> Fuel;
  t_object b k v : b_object b k v <> Fuel
}.

#[export] Instance Skip_total : BuilderTotal Skip unit.
Proof. by constructor. Qed.

Section ValueFacts.
Context `{SimdUtf8} `{Memchr2}.
Context {B V C : Type} `{Builder B V} `{Context C}.

Lemma set_depth_moved n p q :
  moved n (set_depth p (p.(jdepth) + 1)) q -> moved n p (set_depth q (q.(jdepth) - 1)).
Proof.
  intros (HB & HD & HU & HP). simpl in *. split_and!; simpl; [done|lia|done|lia|lia].
Qed.

(** What a successful call leaves behind, for the three mutual functions. *)
Definition value_post (fuel : nat) : Prop := forall p (b : B) (st : Stacks V) (ctx : C) v q b' st',
  in_bounds p -> value_in fuel p b st ctx = Ok (v, q, b', st') -> moved 1 p q /\ st' = st.
Definition object_post (fuel : nat) : Prop := forall p (b : B) (st : Stacks V) (ctx : C) seen q b' st',
  in_bounds p -> object_loop fuel p b st ctx seen = Ok (q, b', st') ->
  moved 1 p q /\ exists ks vs, st' = mkStacks (st.(st_keys) ++ ks) (st.(st_values) ++ vs)
    /\ length ks = length vs.
Definition array_post (fuel : nat) : Prop := forall p (b : B) (st : Stacks V) (ctx : C) q b' st',
  in_bounds p -> array_loop fuel p b st ctx = Ok (q, b', st') ->
  moved 1 p q /\ exists vs, st' = mkStacks st.(st_keys) (st.(st_values) ++ vs).

Lemma object_post_S fuel : value_post fuel -> object_post fuel -> object_post (S fuel).
Proof.
  intros HV HO p b st ctx seen q b' st' Hp E. simpl in E.
  destruct (string p) as [[key p1]| |] eqn:E1; try done.
  apply string_moved in E1; [|done]. into_bounds.
  destruct (negb _); [done|]. destruct (b_key b key) as [[k b1]| |]; try done.
  destruct (colon p1) as [p2| |] eqn:E2; try done. apply colon_moved in E2; [|done]. into_bounds.
  destruct (value_in fuel p2 b1 _ _) as [[[[v p3] b2] st1]| |] eqn:E3; try done.
  apply HV in E3 as [Hm3 ->]; [|done]. into_bounds. cbn [st_keys st_values] in E.
  destruct (object_next p3) as [[more p4]| |] eqn:E4; try done.
  apply object_next_moved in E4; [|done]. into_bounds.
  assert (Hm : moved 1 p p4).
  { apply (moved_weaken (2 + (1 + (1 + 1)))); [lia|]. eapply moved_trans; [done|].
    eapply moved_trans; [done|]. by eapply moved_trans. }
  destruct more.
  - apply HO in E as (Hm5 & ks & vs & -> & Hlen); [|done]. cbn [st_keys st_values]. split.
    + eapply moved_weaken; [|by eapply moved_trans]. lia.
    + exists (k :: ks), (v :: vs). rewrite <- !app_assoc. simpl. split; [done|lia].
  - injection E as <- <- <-. split; [done|]. by exists [k], [v].
Qed.

Lemma array_post_S fuel : value_post fuel -> array_post fuel -> array_post (S fuel).
Proof.
  intros HV HA p b st ctx q b' st' Hp E. simpl in E. pose proof (ws_moved p Hp). into_bounds.
  destruct (value_in fuel (ws p) b st ctx) as [[[[v p1] b1] st1]| |] eqn:E1; try done.
  apply HV in E1 as [Hm1 ->]; [|done]. into_bounds. cbn [st_keys st_values] in E.
  pose proof (ws_moved p1 ltac:(done)). into_bounds.
  destruct (peek (ws p1)) as [c| |] eqn:Ec; try done. apply peek_moved in Ec; [|done]. into_bounds.
  assert (Hm : moved 1 p (adv (ws p1) 1)).
  { apply (moved_weaken (0 + (1 + (0 + 1)))); [lia|]. eapply moved_trans; [done|].
    eapply moved_trans; [done|]. by eapply moved_trans. }
  destruct (c =? 44).
  - apply HA in E as (Hm5 & vs & ->); [|done]. cbn [st_keys st_values]. split.
    + eapply moved_weaken; [|by eapply moved_trans]. lia.
    + exists (v :: vs). by rewrite <- app_assoc.
  - destruct (c =? 93); [|done]. injection E as <- <- <-. split; [done|]. by exists [v].
Qed.

Lemma enter_in_bounds p q : in_bounds p -> enter p = Ok q -> in_bounds q.
Proof. intros Hp E. by apply enter_spec in E as [-> _]. Qed.

Lemma opened_moved p p1 q : p1 = set_depth p (p.(jdepth) + 1) -> in_bounds p1 ->
  p1.(jpos) < len p1.(jbuf) -> moved 0 (adv p1 1) q ->
  moved 1 p (set_depth q (q.(jdepth) - 1)).
Proof.
  intros -> Hp Hl Hm. apply set_depth_moved.
  apply (moved_trans 1 0 _ (adv (set_depth p (jdepth p + 1)) 1)); [|done]. by apply adv1_moved.
Qed.

Lemma value_post_S fuel : object_post fuel -> array_post fuel -> value_post (S fuel).
Proof.
  intros HO HA p b st ctx v q b' st' Hp E. simpl in E.
  destruct (peek p) as [c| |] eqn:Ec; try done. pose proof (peek_bound _ _ Ec) as Hl.
  destruct (c =? 123); [|destruct (c =? 91); [|destruct (c =? 34)]].
  - destruct (enter p) as [p1| |] eqn:E1; try done. pose proof (enter_in_bounds _ _ Hp E1).
    apply enter_spec in E1 as [E1 _]. assert (Hl1 : jpos p1 < len (jbuf p1)) by (by rewrite E1).
    pose proof (adv1_moved p1 ltac:(done) Hl1). into_bounds.
    destruct (object_open (adv p1 1)) as [[more p2]| |] eqn:E2; try done.
    apply object_open_moved in E2; [|done]. into_bounds.
    destruct (if more then _ else _) as [[[p3 b1] st1]| |] eqn:E3; try done.
    assert (moved 0 p2 p3 /\ exists ks vs,
      st1 = mkStacks (st.(st_keys) ++ ks) (st.(st_values) ++ vs)) as (Hm3 & ks & vs & ->).
    { destruct more.
      - apply HO in E3 as (Hm3 & ks & vs & -> & _); [|done]. split; [|by exists ks, vs].
        apply (moved_weaken 1); [lia|done].
      - injection E3 as <- <- <-. split; [by apply moved_refl|]. exists [], [].
        rewrite !app_nil_r. by destruct st. }
    destruct (b_object b1 _ _) as [[v1 b2]| |]; try done. injection E as <- <- <- <-.
    cbn [st_keys st_values]. rewrite !take_app_length. split; [|by destruct st].
    eapply opened_moved; eauto. by apply (moved_trans 0 0 _ p2).
  - destruct (enter p) as [p1| |] eqn:E1; try done. pose proof (enter_in_bounds _ _ Hp E1).
    apply enter_spec in E1 as [E1 _]. assert (Hl1 : jpos p1 < len (jbuf p1)) by (by rewrite E1).
    pose proof (adv1_moved p1 ltac:(done) Hl1). into_bounds.
    pose proof (ws_moved (adv p1 1) ltac:(done)). into_bounds.
    destruct (peek (ws (adv p1 1))) as [d| |] eqn:Ed; try done.
    destruct (if d =? 93 then _ else _) as [[[p3 b1] st1]| |] eqn:E3; try done.
    assert (moved 0 (ws (adv p1 1)) p3 /\ exists vs,
      st1 = mkStacks st.(st_keys) (st.(st_values) ++ vs)) as (Hm3 & vs & ->).
    { destruct (d =? 93).
      - injection E3 as <- <- <-. split.
        + apply (moved_weaken 1); [lia|]. by eapply peek_moved.
        + exists []. rewrite app_nil_r. by destruct st.
      - apply HA in E3 as (Hm3 & vs & ->); [|done]. split; [|by exists vs].
        apply (moved_weaken 1); [lia|done]. }
    destruct (b_array b1 _) as [[v1 b2]| |]; try done. injection E as <- <- <- <-.
    cbn [st_keys st_values]. rewrite !take_app_length. split; [|by destruct st].
    eapply opened_moved; eauto. by apply (moved_trans 0 0 _ (ws (adv p1 1))).
  - destruct (string p) as [[s p1]| |] eqn:E1; try done. apply string_moved in E1; [|done].
    destruct (b_string b s) as [[v1 b1]| |]; try done. injection E as <- <- <- <-.
    split; [|done]. apply (moved_weaken 2); [lia|done].
  - assert (Hscalar : forall n (r : Res (V * B)) p1, moved n p p1 -> 1 <= n ->
      (let? (v, b) := r in Ok (v, p1, b, st)) = Ok (v, q, b', st') -> moved 1 p q /\ st' = st).
    { intros n r p1 Hm Hn E'. destruct r as [[v1 b1]| |]; try done. injection E' as <- <- <- <-.
      split; [|done]. apply (moved_weaken n); [lia|done]. }
    repeat match type of E with
      | (if ?c then _ else _) = _ => destruct c
      | match literal p ?w with _ => _ end = _ =>
          let E1 := fresh "E1" in destruct (literal p w) eqn:E1; try done;
          apply literal_moved in E1; [|done]; eapply Hscalar; [exact E1| |exact E]; unfold len; simpl; lia
      | match number_literal p with _ => _ end = _ =>
          let E1 := fresh "E1" in destruct (number_literal p) as [[? ?]| |] eqn:E1; try done;
          apply number_literal_moved in E1; [|done]; eapply Hscalar; [exact E1| |exact E]; lia
      | match number p with _ => _ end = _ =>
          let E1 := fresh "E1" in destruct (number p) as [[? ?]| |] eqn:E1; try done;
          apply number_moved in E1; [|done]; eapply Hscalar; [exact E1| |exact E]; lia
      end; done.
Qed.

Lemma parser_post fuel : value_post fuel /\ object_post fuel /\ array_post fuel.
Proof.
  induction fuel as [|fuel (HV & HO & HA)].
  - split_and!; intros p; intros; done.
  - split_and!; [by apply value_post_S|by apply object_post_S|by apply array_post_S].
Qed.

Lemma value_in_post fuel p (b : B) (st : Stacks V) (ctx : C) v q b' st' :
  in_bounds p -> value_in fuel p b st ctx = Ok (v, q, b', st') -> moved 1 p q /\ st' = st.
Proof. apply (parser_post fuel). Qed.

(** ** Termination *)

Context `{!BuilderTotal B V}.

Definition remaining (p : Parser) : Z := len p.(jbuf) - p.(jpos).

Definition value_ends (fuel : nat) : Prop := forall p (b : B) (st : Stacks V) (ctx : C),
  in_bounds p -> 2 * remaining p + 1 <= Z.of_nat fuel -> value_in fuel p b st ctx <> Fuel.
Definition object_ends (fuel : nat) : Prop := forall p (b : B) (st : Stacks V) (ctx : C) seen,
  in_bounds p -> 2 * remaining p + 2 <= Z.of_nat fuel -> object_loop fuel p b st ctx seen <> Fuel.
Definition array_ends (fuel : nat) : Prop := forall p (b : B) (st : Stacks V) (ctx : C),
  in_bounds p -> 2 * remaining p + 2 <= Z.of_nat fuel -> array_loop fuel p b st ctx <> Fuel.

Lemma object_ends_S fuel : value_ends fuel -> object_ends fuel -> object_ends (S fuel).
Proof.
  intros HV HO p b st ctx seen Hp Hf. simpl. pose proof (string_not_fuel p Hp).
  destruct (string p) as [[key p1]| |] eqn:E1; try done.
  apply string_moved in E1; [|done]. into_bounds.
  destruct (negb _); [done|]. pose proof (t_key b key).
  destruct (b_key b key) as [[k b1]| |]; try done. pose proof (colon_not_fuel p1).
  destruct (colon p1) as [p2| |] eqn:E2; try done. apply colon_moved in E2; [|done]. into_bounds.
  apply moved_remaining in E1, E2. unfold remaining in *. set (st1 := mkStacks _ _).
  pose proof (HV p2 b1 st1 (ctx_key ctx (cow_bytes key)) ltac:(done) ltac:(unfold remaining; lia)).
  destruct (value_in fuel p2 b1 st1 _) as [[[[v p3] b2] st2]| |] eqn:E3; try done.
  apply value_in_post in E3 as [Hm3 _]; [|done]. into_bounds. pose proof (object_next_not_fuel p3).
  destruct (object_next p3) as [[more p4]| |] eqn:E4; try done.
  apply object_next_moved in E4; [|done]. into_bounds.
  destruct more; [|done]. apply HO; [done|]. apply moved_remaining in Hm3, E4.
  unfold remaining. lia.
Qed.

Lemma array_ends_S fuel : value_ends fuel -> array_ends fuel -> array_ends (S fuel).
Proof.
  intros HV HA p b st ctx Hp Hf. simpl. pose proof (ws_moved p Hp) as Hw. into_bounds.
  apply moved_remaining in Hw. unfold remaining in *.
  pose proof (HV (ws p) b st ctx ltac:(done) ltac:(unfold remaining; lia)).
  destruct (value_in fuel (ws p) b st ctx) as [[[[v p1] b1] st1]| |] eqn:E1; try done.
  apply value_in_post in E1 as [Hm1 _]; [|done]. into_bounds.
  pose proof (ws_moved p1 ltac:(done)) as Hw1. into_bounds. pose proof (peek_not_fuel (ws p1)).
  destruct (peek (ws p1)) as [c| |] eqn:Ec; try done. apply peek_moved in Ec; [|done]. into_bounds.
  destruct (c =? 44); [|by destruct (c =? 93)]. apply HA; [done|].
  apply moved_remaining in Hm1, Hw1, Ec. unfold remaining. lia.
Qed.

Lemma literal_not_fuel p w : literal p w <> Fuel.
Proof. unfold literal. by destruct (starts_at _ _ _). Qed.
Lemma enter_not_fuel p : enter p <> Fuel.
Proof. unfold enter. by destruct (_ <? _). Qed.

Lemma value_ends_S fuel : object_ends fuel -> array_ends fuel -> value_ends (S fuel).
Proof.
  intros HO HA p b st ctx Hp Hf. simpl. pose proof (peek_not_fuel p).
  destruct (peek p) as [c| |] eqn:Ec; try done. pose proof (peek_bound _ _ Ec) as Hl.
  assert (Hscalar : forall (r : Res (V * B)) (p1 : Parser), r <> Fuel ->
    (let? (v, b) := r in Ok (v, p1, b, st)) <> Fuel) by (intros [[v1 b1]| |] p1 Hr; congruence).
  assert (Hopen : forall p1, enter p = Ok p1 -> in_bounds p1 /\ moved 1 p1 (adv p1 1) /\
    remaining p1 = remaining p).
  { intros p1 E1. pose proof (enter_in_bounds _ _ Hp E1) as Hb. apply enter_spec in E1 as [-> _].
    split_and!; [done| |done]. by apply adv1_moved. }
  pose proof (enter_not_fuel p). destruct (c =? 123); [|destruct (c =? 91)].
  - destruct (enter p) as [p1| |] eqn:E1; try done. destruct (Hopen p1 eq_refl) as (Hb & Hm & Hr).
    into_bounds. pose proof (object_open_not_fuel (adv p1 1)).
    destruct (object_open (adv p1 1)) as [[more p2]| |] eqn:E2; try done.
    apply object_open_moved in E2; [|done]. into_bounds.
    assert (Hin : (if more then object_loop fuel p2 b st ctx 0 else Ok (p2, b, st)) <> Fuel).
    { destruct more; [|done]. apply HO; [done|]. apply moved_remaining in E2, Hm.
      unfold remaining in *. lia. }
    destruct (if more then _ else _) as [[[p3 b1] st1]| |]; try done.
    match goal with |- context [b_object b1 ?k ?v] => pose proof (t_object b1 k v);
      destruct (b_object b1 k v) as [[v1 b2]| |]; done end.
  - destruct (enter p) as [p1| |] eqn:E1; try done. destruct (Hopen p1 eq_refl) as (Hb & Hm & Hr).
    into_bounds. pose proof (ws_moved (adv p1 1) ltac:(done)) as Hw. into_bounds.
    pose proof (peek_not_fuel (ws (adv p1 1))).
    destruct (peek (ws (adv p1 1))) as [d| |]; try done.
    assert (Hin : (if d =? 93 then Ok (adv (ws (adv p1 1)) 1, b, st)
      else array_loop fuel (ws (adv p1 1)) b st ctx) <> Fuel).
    { destruct (d =? 93); [done|]. apply HA; [done|]. apply moved_remaining in Hw, Hm.
      unfold remaining in *. lia. }
    destruct (if d =? 93 then _ else _) as [[[p3 b1] st1]| |]; try done.
    match goal with |- context [b_array b1 ?v] => pose proof (t_array b1 v);
      destruct (b_array b1 v) as [[v1 b2]| |]; done end.
  - pose proof (string_not_fuel p Hp). pose proof (literal_not_fuel p).
    pose proof (number_literal_not_fuel p). pose proof (number_not_fuel p).
    repeat match goal with
      | |- (if ?c then _ else _) <> _ => destruct c
      | |- match string p with _ => _ end <> _ => destruct (string p) as [[? ?]| |]; try done
      | H' : forall w, literal p w <> Fuel |- match literal p ?w with _ => _ end <> _ =>
          specialize (H' w); destruct (literal p w); try done
      | |- match number_literal p with _ => _ end <> _ =>
          destruct (number_literal p) as [[? ?]| |]; try done
      | |- match number p with _ => _ end <> _ => destruct (number p) as [[? ?]| |]; try done
      end; try done; apply Hscalar.
    + apply t_string.
    + apply t_boolean.
    + apply t_boolean.
    + apply t_null.
    + apply t_integer_literal.
    + apply t_number.
Qed.

Lemma parser_ends fuel : value_ends fuel /\ object_ends fuel /\ array_ends fuel.
Proof.
  induction fuel as [|fuel (HV & HO & HA)].
  - split_and!; intros p; intros; unfold in_bounds, remaining in *; lia.
  - split_and!; [by apply value_ends_S|by apply object_ends_S|by apply array_ends_S].
Qed.

Lemma value_top_not_fuel p (b : B) (st : Stacks V) (ctx : C) :
  in_bounds p -> value_top p b st ctx <> Fuel.
Proof.
  intros Hp. apply parser_ends; [done|]. unfold value_fuel, in_bounds, remaining, len in *. lia.
Qed.

Lemma document_in_not_fuel p (b : B) (st : Stacks V) (ctx : C) :
  in_bounds p -> document_in p b st ctx <> Fuel.
Proof.
  intros Hp. unfold document_in. pose proof (ws_moved p Hp) as Hw. into_bounds.
  pose proof (value_top_not_fuel (ws p) b st ctx ltac:(done)).
  destruct (value_top (ws p) b st ctx) as [[[[v q] b'] st']| |]; try done.
  unfold jend. by destruct (_ =? _).
Qed.

(** Parsing any byte string with any schema context and any builder that
    itself answers [Ok] or [Fallback] terminates with [Ok] or [Fallback]: the
    recursion and the loops never need more than two steps per input byte. *)
Theorem json_document_terminates (input : bytes) (b : B) (st : Stacks V) (ctx : C) :
  document_in (Parser_new input) b st ctx <> Fuel.
Proof.
  apply document_in_not_fuel. unfold in_bounds. simpl. len_lia.
Qed.

(** What a parsed value leaves behind: the cursor has advanced, still
    inside the input; the nesting depth is what it was, at most [MAX_DEPTH]
    levels were open; and the scratch stacks shared by all containers are
    exactly as the caller left them. *)
Theorem json_value_restores (fuel : nat) (p q : Parser) (b b' : B) (st st' : Stacks V) (ctx : C) (v : V) :
  in_bounds p -> value_in fuel p b st ctx = Ok (v, q, b', st') ->
  q.(jbuf) = p.(jbuf) /\ p.(jpos) < q.(jpos) <= len p.(jbuf) /\ q.(jdepth) = p.(jdepth) /\ st' = st.
Proof.
  intros Hp E. apply value_in_post in E as [(HB & HD & _ & HP) ->]; [|done].
  split_and!; [done|lia|lia|done|done].
Qed.
End ValueFacts.

Section Witnesses.
Import Concrete.

Lemma json_document_terminates_witness :
  document_in (Parser_new [91; 49; 44; 123; 125; 93]) skip_builder Stacks_new ordinary <> Fuel.
Proof. apply (json_document_terminates [91; 49; 44; 123; 125; 93] skip_builder Stacks_new ordinary). Defined.

(** [[1,{}]] read in the middle of a document, with two values already on the
    stack. *)
Lemma json_value_restores_witness :
  let p := mkParser [32; 91; 49; 44; 123; 125; 93] 1 5 false in
  let st := mkStacks [tt] [tt; tt] in
  1 < 7 <= 7 /\ jdepth (mkParser (jbuf p) 7 5 false) = 5 /\ st = st.
Proof.
  intros p st.
  destruct (json_value_restores 20 p (mkParser (jbuf p) 7 5 false) skip_builder skip_builder
    st st ordinary tt) as (_ & H1 & H2 & H3).
  - unfold in_bounds. split; vm_compute; discriminate.
  - vm_compute. reflexivity.
  - split; [exact H1|split; [exact H2|exact H3]].
Defined.
End Witnesses.
