(* ===== verification/JsonText.v ===== *)
(** Reading back text the writers produced: the parser's scanners on strings
    written by [write_str] and on decimal and float spellings. *)

From S2P Require Import Prelude Utf8 External Out JsonWrite Float64 JsonRead.

(** * The unread input *)

(** [p] stands inside its input, at [x] followed by [suf]. *)
Definition reads (p : Parser) (x suf : bytes) : Prop := in_bounds p /\ rest_of p = x ++ suf.

Lemma adv_0 p : adv p 0 = p.
Proof. unfold adv, seek. rewrite Z.add_0_r. by destruct p. Qed.
Lemma adv_adv p a b : adv (adv p a) b = adv p (a + b).
Proof. unfold adv, seek. simpl. by rewrite Z.add_assoc. Qed.
Lemma jutf8_adv p n : jutf8 (adv p n) = jutf8 p.
Proof. done. Qed.

Lemma get_rest p : in_bounds p -> get p.(jbuf) p.(jpos) = head (rest_of p).
Proof.
  unfold in_bounds, get, rest_of. intros Hp.
  destruct (Z.ltb_spec (jpos p) (len (jbuf p))) as [Hl|Hl].
  - replace (0 <=? jpos p) with true by (symmetry; apply Z.leb_le; lia). simpl.
    rewrite <- (Nat.add_0_r (Z.to_nat (jpos p))) at 1. rewrite <- lookup_drop.
    by destruct (drop _ _).
  - rewrite andb_false_r, drop_ge by (unfold len in *; lia). done.
Qed.

Lemma reads_adv p x suf : reads p x suf -> reads (adv p (len x)) suf [].
Proof.
  intros [Hp E]. assert (Hl : len (rest_of p) = len x + len suf) by (rewrite E; len_lia).
  rewrite rest_of_len in Hl by done. unfold in_bounds in Hp. split.
  - unfold in_bounds. simpl. pose proof (len_nonneg x). pose proof (len_nonneg suf). lia.
  - rewrite app_nil_r. unfold rest_of in *. simpl.
    replace (Z.to_nat (jpos p + len x)) with (Z.to_nat (jpos p) + length x)%nat
      by (unfold len; lia).
    by rewrite <- drop_drop, E, drop_app_length.
Qed.

Lemma reads_split p x y suf : reads p (x ++ y) suf <-> reads p x (y ++ suf).
Proof. unfold reads. by rewrite app_assoc. Qed.

(** Move over what has been read. *)
Lemma reads_next p x y suf : reads p (x ++ y) suf -> reads (adv p (len x)) y suf.
Proof.
  intros H. apply reads_split, reads_adv in H as [Hp E]. rewrite app_nil_r in E. by split.
Qed.

Lemma reads_cons p c x suf : reads p (c :: x) suf -> reads (adv p 1) x suf.
Proof. apply (reads_next p [c]). Qed.

Lemma peek_reads p c x suf : reads p (c :: x) suf -> peek p = Ok c.
Proof. intros [Hp E]. unfold peek. by rewrite get_rest, E. Qed.

Lemma get_reads p x suf : reads p x suf -> get p.(jbuf) p.(jpos) = head (x ++ suf).
Proof. intros [Hp E]. by rewrite get_rest, E. Qed.

Lemma expect_reads p c x suf : reads p (c :: x) suf -> expect p c = Ok (adv p 1).
Proof. intros E. unfold expect. by rewrite (peek_reads _ _ _ _ E), Z.eqb_refl. Qed.

(** No whitespace to skip. *)
Lemma ws_reads p c x suf : reads p (c :: x) suf -> is_ws c = false -> ws p = p.
Proof.
  intros [_ E] Hc. unfold ws, skip_while. rewrite E. simpl. rewrite Hc. apply adv_0.
Qed.
Lemma ws_end p : reads p [] [] -> ws p = p.
Proof. intros [_ E]. unfold ws, skip_while. rewrite E. apply adv_0. Qed.

Lemma slice_reads p x suf : reads p x suf -> slice p.(jbuf) p.(jpos) (p.(jpos) + len x) = x.
Proof.
  intros [_ E]. unfold slice. replace (jpos p + len x - jpos p) with (len x) by lia.
  unfold rest_of in E. rewrite E. unfold len. rewrite Nat2Z.id. apply take_app_length.
Qed.

Lemma starts_reads p x suf : reads p x suf -> starts_at p.(jbuf) x p.(jpos) = true.
Proof. intros H. unfold starts_at. apply bool_decide_eq_true. by eapply slice_reads. Qed.

Lemma literal_reads p w suf : reads p w suf -> literal p w = Ok (adv p (len w)).
Proof. intros H. unfold literal. by rewrite (starts_reads _ _ _ H). Qed.

Lemma get_range_reads p x suf : reads p x suf ->
  get_range p.(jbuf) p.(jpos) (p.(jpos) + len x) = Some x.
Proof.
  intros H. apply get_range_Some. split; [symmetry; by eapply slice_reads|].
  destruct (reads_adv _ _ _ H) as [Hb _]. destruct H as [Hp _]. unfold in_bounds in *. simpl in Hb.
  pose proof (len_nonneg x). lia.
Qed.

(** * Strings *)

Definition plain (c : Z) : bool := (32 <=? c) && negb (c =? QUOTE) && negb (c =? BACKSLASH).

Lemma escape_byte_plain c : plain c = true -> escape_byte c = [c].
Proof. intros H. unfold escape_byte. fold (plain c). by rewrite H. Qed.

Lemma concat_plain l : Forall (fun c => plain c = true) l -> concat (map escape_byte l) = l.
Proof. induction 1 as [|c l Hc H IH]; [done|]. simpl. by rewrite (escape_byte_plain c Hc), IH. Qed.

(** The bytes that need an escape, all of them ASCII. *)
Definition special : list Z := 34 :: 92 :: map Z.of_nat (seq 0 32).
Lemma special_spec c : 0 <= c -> plain c = false -> c ∈ special.
Proof.
  unfold plain, QUOTE, BACKSLASH. intros H0 H.
  destruct (Z.eqb_spec c 34) as [->|]; [left|]. destruct (Z.eqb_spec c 92) as [->|]; [right; left|].
  rewrite !andb_true_r in H. bools. do 2 right. apply list_elem_of_In, in_map_iff.
  exists (Z.to_nat c). split; [lia|]. apply in_seq. lia.
Qed.

Lemma hex4_reads p a b c d suf v :
  reads p [a; b; c; d] suf ->
  foldM (fun v d => let? x := ok_or (to_digit16 d) tt in Ok (v * 16 + x)) 0 [a; b; c; d]
    = Ok v :> Res Z ->
  hex4 p = Ok (v, adv p 4).
Proof.
  intros H E. unfold hex4. change (jpos p + 4) with (jpos p + len [a; b; c; d]).
  rewrite (get_range_reads _ _ _ H). unfold ok_or at 1. by rewrite E.
Qed.

Section Strings.
Context `{SimdUtf8} `{Memchr2}.

(** Reading one escape written for a special byte. *)
Lemma string_escape_reads o p c e suf : c ∈ special -> escape_byte c = 92 :: e ->
  reads p e suf -> string_escape o p = Ok (o ++ [c], adv p (len e - 1)).
Proof.
  intros Hc Ee Hr.
  assert (Hu : forall a b, e = [117; 48; 48; a; b] ->
    foldM (fun v d => let? x := ok_or (to_digit16 d) tt in Ok (v * 16 + x)) 0 [48; 48; a; b]
      = Ok c :> Res Z -> 0 <= c < 32 -> string_escape o p = Ok (o ++ [c], adv p (len e - 1))).
  { intros a b -> Ef Hc2. unfold string_escape. rewrite (peek_reads _ _ _ _ Hr). cbn [Z.eqb Pos.eqb].
    apply reads_cons in Hr. unfold unicode_escape. rewrite (hex4_reads _ _ _ _ _ _ _ Hr Ef).
    replace ((0xDC00 <=? c) && _) with false by (symmetry; apply andb_false_iff; left; apply Z.leb_gt; lia).
    replace ((0xD800 <=? c) && _) with false by (symmetry; apply andb_false_iff; left; apply Z.leb_gt; lia).
    cbn [negb]. unfold char_from_u32, is_scalar, between.
    replace (0 <=? c) with true by (symmetry; apply Z.leb_le; lia).
    replace (c <=? 0xD7FF) with true by (symmetry; apply Z.leb_le; lia).
    cbn [andb orb ok_or]. unfold encode_utf8.
    replace (c <? 0x80) with true by (symmetry; apply Z.ltb_lt; lia).
    rewrite !adv_adv. done. }
  unfold special in Hc. cbn [seq map] in Hc.
  repeat (apply elem_of_cons in Hc as [->|Hc]); try by apply not_elem_of_nil in Hc.
  all: vm_compute in Ee; injection Ee as <-.
  all: first [ eapply Hu; [reflexivity|vm_compute; reflexivity|lia]
             | unfold string_escape; rewrite (peek_reads _ _ _ _ Hr); cbn [Z.eqb Pos.eqb];
               by rewrite adv_0 ].
Qed.

(** A special byte is below 128, so it ends a character. *)
Lemma utf8_split_ascii a c s : 0 <= c < 128 ->
  from_utf8_ok (a ++ c :: s) = true -> from_utf8_ok a = true /\ from_utf8_ok s = true.
Proof.
  intros Hc. unfold from_utf8_ok. remember (length a) as n eqn:Hn.
  assert (Hle : (length a <= n)%nat) by lia. clear Hn. revert a Hle.
  induction n as [|n IH]; intros a Hle Hok.
  { destruct a; [|simpl in Hle; lia]. simpl in Hok.
    replace (between 0 c 127) with true in Hok
      by (symmetry; unfold between; apply andb_true_iff; rewrite !Z.leb_le; lia).
    split; [done|]. by destruct (utf8_decode s). }
  destruct a as [|b0 a].
  { apply (IH []); [simpl; lia|done]. }
  simpl in Hle. cbn [app utf8_decode] in *.
  assert (Hnc : is_cont c = false)
    by (unfold is_cont; apply andb_false_iff; left; apply Z.leb_gt; lia).
  assert (H3 : forall b, second3 b c = false).
  { intros b. unfold second3, between. destruct (b =? 0xE0); [apply andb_false_iff; left; apply Z.leb_gt; lia|].
    destruct (b =? 0xED); [apply andb_false_iff; left; apply Z.leb_gt; lia|done]. }
  assert (H4 : forall b, second4 b c = false).
  { intros b. unfold second4, between. destruct (b =? 0xF0); [apply andb_false_iff; left; apply Z.leb_gt; lia|].
    destruct (b =? 0xF4); [apply andb_false_iff; left; apply Z.leb_gt; lia|done]. }
  assert (Hrec : forall k (v : Z), (length k <= n)%nat ->
    match (let* cs := utf8_decode (k ++ c :: s) in Some (v :: cs)) with
      Some _ => true | None => false end = true ->
    match (let* cs := utf8_decode k in Some (v :: cs)) with Some _ => true | None => false end = true /\ match utf8_decode s with Some _ => true | None => false end = true).
  { intros k v Hk E. destruct (IH k Hk) as [H5 H6]; [by destruct (utf8_decode (k ++ c :: s))|].
    split; [by destruct (utf8_decode k)|done]. }
  destruct (between 0 b0 127); [by apply Hrec; [lia|]|].
  destruct (between 0xC2 b0 0xDF).
  { destruct a as [|b1 a]; cbn [app] in Hok; [by rewrite Hnc in Hok|].
    destruct (is_cont b1); [|done]. apply Hrec; [simpl in Hle; lia|done]. }
  destruct (between 0xE0 b0 0xEF).
  { destruct a as [|b1 [|b2 a]]; cbn [app] in Hok.
    - destruct s; [done|]. by rewrite H3 in Hok.
    - by rewrite Hnc, andb_false_r in Hok.
    - destruct (second3 b0 b1 && is_cont b2); [|done]. apply Hrec; [simpl in Hle; lia|done]. }
  destruct (between 0xF0 b0 0xF4); [|done].
  destruct a as [|b1 [|b2 [|b3 a]]]; cbn [app] in Hok.
  - destruct s as [|? [|? s]]; try done. by rewrite H4 in Hok.
  - destruct s as [|? s]; [done|]. by rewrite Hnc, andb_false_r in Hok.
  - by rewrite Hnc, andb_false_r in Hok.
  - destruct (second4 b0 b1 && is_cont b2 && is_cont b3); [|done].
    apply Hrec; [simpl in Hle; lia|done].
Qed.

Lemma split_special s : Forall (fun c => 0 <= c) s ->
  Forall (fun c => plain c = true) s \/
  exists a c s', s = a ++ c :: s' /\ Forall (fun c => plain c = true) a /\ c ∈ special.
Proof.
  induction 1 as [|c s Hc H' IH]; [by left|]. destruct (plain c) eqn:E.
  - destruct IH as [IH|(a & d & s' & -> & Ha & Hd)]; [left; by constructor|].
    right. exists (c :: a), d, s'. split_and!; [done|by constructor|done].
  - right. exists [], c, s. split_and!; [done|constructor|by apply special_spec].
Qed.

Lemma special_ascii c : c ∈ special -> 0 <= c < 128 /\ exists e, escape_byte c = 92 :: e.
Proof.
  unfold special. cbn [seq map]. intros Hc.
  repeat (apply elem_of_cons in Hc as [->|Hc]); try by apply not_elem_of_nil in Hc.
  all: split; [lia|]; eexists; vm_compute; reflexivity.
Qed.

Lemma special_not_plain c : c ∈ special -> plain c = false.
Proof.
  unfold special. cbn [seq map]. intros Hc.
  repeat (apply elem_of_cons in Hc as [->|Hc]); try by apply not_elem_of_nil in Hc.
  all: vm_compute; reflexivity.
Qed.

(** A chunk of plain bytes up to a quote or backslash. *)
Lemma string_chunk_reads p a x suf :
  Forall (fun c => plain c = true) a -> from_utf8_ok a = true -> x = 34 \/ x = 92 ->
  reads p (a ++ [x]) suf -> string_chunk p = Ok (a, len a).
Proof.
  intros Ha Hu Hx [Hp E]. unfold string_chunk. rewrite E, <- app_assoc. simpl.
  rewrite memchr2_first; [|eapply Forall_impl; [|exact Ha]|done].
  2: { simpl. unfold plain, QUOTE, BACKSLASH. intros y Hy. bools. done. }
  cbn [ok_or]. unfold len at 1 2. rewrite Nat2Z.id, take_app_length. unfold check_chunk.
  replace (existsb _ a) with false; [by rewrite simd_from_utf8_std, Hu, andb_false_r|].
  symmetry. apply not_true_iff_false. intros He. apply existsb_exists in He as (y & Hy & Hl).
  rewrite Forall_forall in Ha. specialize (Ha y Hy). unfold plain in Ha. bools. lia.
Qed.

(** What follows a chunk: the position of its end and the byte there. *)
Lemma chunk_end p a x y suf : reads p (a ++ x :: y) suf ->
  bool_decide (get (adv p (len a)).(jbuf) (adv p (len a)).(jpos) = Some 34) = (x =? 34).
Proof.
  intros Hr. apply (reads_next p a (x :: y)) in Hr. rewrite (get_reads _ _ _ Hr). simpl.
  destruct (Z.eqb_spec x 34) as [->|]; [done|]. apply bool_decide_eq_false. congruence.
Qed.

Definition body (s : bytes) : bytes := concat (map escape_byte s) ++ [34].

Lemma body_plain a : Forall (fun c => plain c = true) a -> body a = a ++ [34].
Proof. intros Ha. unfold body. by rewrite concat_plain. Qed.
Lemma body_special a c s e : Forall (fun c => plain c = true) a -> escape_byte c = 92 :: e ->
  body (a ++ c :: s) = a ++ 92 :: e ++ body s.
Proof.
  intros Ha He. unfold body. rewrite map_app, concat_app, concat_plain by done. simpl.
  by rewrite He, <- !app_assoc.
Qed.

Lemma string_loop_reads fuel o p c s e suf :
  (length s < fuel)%nat -> c ∈ special -> escape_byte c = 92 :: e ->
  Forall (fun c => 0 <= c) s -> from_utf8_ok s = true ->
  reads p (92 :: e ++ body s) suf ->
  string_loop fuel o p = Ok (Owned (o ++ c :: s), adv p (1 + len e + len (body s))).
Proof.
  revert o p c s e. induction fuel as [|fuel IH]; intros o p c s e Hf Hc He Hs Hu Hr; [lia|].
  cbn [string_loop]. assert (Hr1 := reads_cons _ _ _ _ Hr). apply reads_split in Hr1.
  rewrite (string_escape_reads o (adv p 1) c e (body s ++ suf)) by done.
  rewrite !adv_adv. replace (1 + (len e - 1 + 1)) with (1 + len e) by lia.
  apply reads_split, reads_next in Hr1. rewrite adv_adv in Hr1.
  destruct (split_special s Hs) as [Hpl|(a & d & s' & -> & Ha & Hd)].
  - rewrite body_plain in Hr1 |- * by done.
    rewrite (string_chunk_reads _ s 34 suf); [|done..|by left|done].
    rewrite (chunk_end _ s 34 [] suf), Z.eqb_refl by done.
    rewrite !adv_adv, <- app_assoc. do 3 f_equal. len_lia.
  - destruct (special_ascii d Hd) as [Hd2 (e2 & He2)].
    destruct (utf8_split_ascii a d s' Hd2 Hu) as [Hua Hus].
    rewrite (body_special a d s' e2) in Hr1 |- * by done.
    rewrite (string_chunk_reads _ a 92 ((e2 ++ body s') ++ suf)); [|done..|by right|].
    2: { destruct Hr1 as [Hb1 E1]. split; [done|]. rewrite E1, <- !app_assoc. simpl. by rewrite <- ?app_assoc. }
    rewrite (chunk_end _ a 92 (e2 ++ body s') suf) by done. cbn [Z.eqb Pos.eqb].
    apply Forall_app in Hs as [_ Hs]. apply Forall_cons_1 in Hs as [_ Hs].
    rewrite (IH _ _ d s' e2); [|rewrite length_app in Hf; simpl in Hf; lia|done..|].
    + rewrite !adv_adv, <- !app_assoc. do 3 f_equal. len_lia.
    + by apply reads_next in Hr1.
Qed.

Definition cow_of (s : bytes) : Cow := if forallb plain s then Borrowed s else Owned s.

Lemma cow_of_bytes s : cow_bytes (cow_of s) = s.
Proof. unfold cow_of. by destruct (forallb plain s). Qed.

Lemma concat_escape_len s : len s <= len (concat (map escape_byte s)).
Proof.
  induction s as [|x s IH]; simpl; [done|]. rewrite len_cons, len_app.
  assert (1 <= len (escape_byte x)); [|lia]. unfold escape_byte, escape.
  repeat match goal with |- context [if ?c then _ else _] => destruct c end; unfold len; simpl; lia.
Qed.

Lemma string_reads p s suf :
  Forall (fun c => 0 <= c) s -> from_utf8_ok s = true -> reads p (json_string s) suf ->
  string p = Ok (cow_of s, adv p (len (json_string s))).
Proof.
  intros Hs Hu Hr. unfold string, cow_of. change (json_string s) with (34 :: body s) in *.
  rewrite (expect_reads _ _ _ _ Hr). apply reads_cons in Hr.
  destruct (split_special s Hs) as [Hpl|(a & d & s' & -> & Ha & Hd)].
  - rewrite body_plain in Hr |- * by done.
    rewrite (string_chunk_reads _ s 34 suf); [|done..|by left|done].
    rewrite (chunk_end _ s 34 [] suf), Z.eqb_refl by done. rewrite !adv_adv.
    replace (forallb plain s) with true; [do 3 f_equal; len_lia|].
    symmetry. apply forallb_forall. intros x Hx. rewrite Forall_forall in Hpl. by apply Hpl.
  - destruct (special_ascii d Hd) as [Hd2 (e & He)].
    destruct (utf8_split_ascii a d s' Hd2 Hu) as [Hua Hus].
    rewrite (body_special a d s' e) in Hr |- * by done.
    rewrite (string_chunk_reads _ a 92 ((e ++ body s') ++ suf)); [|done..|by right|].
    2: { destruct Hr as [Hb1 E1]. split; [done|]. rewrite E1, <- !app_assoc. simpl. by rewrite <- ?app_assoc. }
    rewrite (chunk_end _ a 92 (e ++ body s') suf) by done. cbn [Z.eqb Pos.eqb].
    apply Forall_app in Hs as [_ Hs]. apply Forall_cons_1 in Hs as [_ Hs].
    assert (Hr2 := reads_next _ _ _ _ Hr).
    rewrite (string_loop_reads _ _ _ d s' e suf); [| |done..].
    + rewrite !adv_adv. replace (forallb plain (a ++ d :: s')) with false.
      * do 3 f_equal. len_lia.
      * symmetry. rewrite forallb_app. simpl. by rewrite (special_not_plain d), andb_false_r.
    + destruct Hr2 as [Hb2 E2]. assert (Hl : len (rest_of (adv (adv p 1) (len a))) <= len (jbuf p)).
      { rewrite rest_of_len by done. unfold in_bounds in Hb2. simpl in *. lia. }
      rewrite E2 in Hl. simpl. unfold body in Hl.
      pose proof (concat_escape_len s').
      enough (len s' <= len (jbuf p)) by (unfold len in *; lia). len_lia.
Qed.
End Strings.

(** * Numbers *)

(** The text after a number does not continue it. *)
Definition ends_number (suf : bytes) : Prop :=
  match head suf with
  | Some c => is_digit c = false /\ c <> 46 /\ c <> 101 /\ c <> 69
  | None => True
  end.
Definition no_digit (suf : bytes) : Prop :=
  match head suf with Some c => is_digit c = false | None => True end.

Lemma digits_reads p ds suf : Forall (fun c => is_digit c = true) ds -> no_digit suf ->
  reads p ds suf -> digits p = (len ds, adv p (len ds)).
Proof. intros Hd Hs [_ E]. unfold digits. rewrite E. by rewrite (prefix_len_app _ ds suf). Qed.

(** The integer part of a JSON number. *)
Definition int_text (ip : bytes) : Prop :=
  ip = [48] \/ exists d ds, ip = d :: ds /\ 49 <= d <= 57 /\ Forall (fun c => is_digit c = true) ds.
Definition frac_text (fp : bytes) : Prop :=
  fp = [] \/ exists ds, fp = 46 :: ds /\ ds <> [] /\ Forall (fun c => is_digit c = true) ds.
Definition exp_text (ep : bytes) : Prop :=
  ep = [] \/ exists e sg ds, ep = e :: sg ++ ds /\ (e = 101 \/ e = 69) /\
    (sg = [] \/ sg = [43] \/ sg = [45]) /\ ds <> [] /\ Forall (fun c => is_digit c = true) ds.

Lemma digit_head ds c : Forall (fun c => is_digit c = true) ds -> head ds = Some c -> 48 <= c <= 57.
Proof. intros Hd E. destruct Hd as [|d ds Hd _]; [done|]. injection E as ->. unfold is_digit in Hd. bools. lia. Qed.

Lemma int_part_reads p ip suf : int_text ip -> no_digit suf -> reads p ip suf ->
  int_part p = Ok (adv p (len ip)).
Proof.
  intros [->|(d & ds & -> & Hd & Hds)] Hs Hr; unfold int_part; rewrite (peek_reads _ _ _ _ Hr).
  - done.
  - replace (d =? 48) with false by (symmetry; apply Z.eqb_neq; lia).
    replace ((49 <=? d) && (d <=? 57)) with true by (symmetry; apply andb_true_iff; lia).
    rewrite (digits_reads p (d :: ds) suf); [done| |done|done].
    constructor; [|done]. unfold is_digit. apply andb_true_iff. lia.
Qed.

Lemma frac_part_reads p fp suf : frac_text fp -> no_digit suf -> head suf <> Some 46 ->
  reads p fp suf -> frac_part p = Ok (bool_decide (fp <> []), adv p (len fp)).
Proof.
  intros [->|(ds & -> & Hne & Hds)] Hs H46 Hr; unfold frac_part; rewrite (get_reads _ _ _ Hr).
  - rewrite bool_decide_false by auto. cbn [app]. change (len []) with 0. rewrite adv_0.
    destruct (head suf) as [c|]; [|done].
    by destruct (Z.eqb_spec c 46) as [->|].
  - rewrite bool_decide_true by done. cbn [app head]. apply reads_cons in Hr.
    rewrite (digits_reads _ ds suf) by done.
    replace (len ds =? 0) with false by (symmetry; apply Z.eqb_neq; destruct ds; [done|len_lia]).
    rewrite adv_adv, len_cons. done.
Qed.

Lemma exp_part_reads p ep suf : exp_text ep -> ends_number suf -> reads p ep suf ->
  exp_part p = Ok (bool_decide (ep <> []), adv p (len ep)).
Proof.
  intros [->|(e & sg & ds & -> & He & Hsg & Hne & Hds)] Hs Hr; unfold exp_part;
    rewrite (get_reads _ _ _ Hr).
  - unfold ends_number in Hs. simpl. rewrite adv_0. destruct (head suf) as [c|]; [|done].
    by replace ((c =? 101) || (c =? 69)) with false
      by (symmetry; apply orb_false_iff; rewrite !Z.eqb_neq; lia).
  - cbn [app head]. replace ((e =? 101) || (e =? 69)) with true
      by (symmetry; apply orb_true_iff; rewrite !Z.eqb_eq; lia).
    apply reads_cons in Hr.
    assert (Hn : no_digit suf) by (unfold no_digit, ends_number in *; by destruct (head suf); [destruct Hs|]).
    assert (Hl : (len ds =? 0) = false) by (apply Z.eqb_neq; destruct ds; [done|len_lia]).
    destruct Hsg as [->|Hsg].
    + cbn [app] in Hr. rewrite (get_reads _ _ _ Hr).
      destruct ds as [|d ds]; [done|]. cbn [app head]. apply (digit_head _ d) in Hds as Hd; [|done].
      replace ((d =? 43) || (d =? 45)) with false
        by (symmetry; apply orb_false_iff; rewrite !Z.eqb_neq; lia).
      rewrite (digits_reads _ (d :: ds) suf), Hl by done. rewrite adv_adv. do 3 f_equal. len_lia.
    + assert (Hs1 : exists c, sg = [c] /\ (c = 43 \/ c = 45))
        by (destruct Hsg as [->| ->]; eauto). destruct Hs1 as (c & -> & Hc).
      rewrite (get_reads _ _ _ Hr). cbn [app head].
      replace ((c =? 43) || (c =? 45)) with true
        by (symmetry; apply orb_true_iff; rewrite !Z.eqb_eq; lia).
      apply reads_cons in Hr. rewrite (digits_reads _ ds suf), Hl by done.
      rewrite !adv_adv. do 3 f_equal. len_lia.
Qed.

Definition sign_text (neg : bool) : bytes := if neg then [45] else [].

(** Where the three parts of a number end. *)
Lemma parts_reads p ip fp ep suf :
  int_text ip -> frac_text fp -> exp_text ep -> ends_number suf -> reads p (ip ++ fp ++ ep) suf ->
  int_part p = Ok (adv p (len ip)) /\
  frac_part (adv p (len ip)) = Ok (bool_decide (fp <> []), adv p (len ip + len fp)) /\
  exp_part (adv p (len ip + len fp)) =
    Ok (bool_decide (ep <> []), adv p (len ip + len fp + len ep)).
Proof.
  intros Hi Hf He Hs Hr.
  assert (Hn : no_digit suf) by (unfold no_digit, ends_number in *; by destruct (head suf); [destruct Hs|]).
  assert (Hep : no_digit (ep ++ suf) /\ head (ep ++ suf) <> Some 46).
  { destruct He as [->|(e & sg & ds & -> & He & _)].
    - simpl. split; [done|]. unfold ends_number in Hs. destruct (head suf); [|done]. intros [=]. lia.
    - simpl. unfold no_digit. simpl. split; [destruct He as [->| ->]; done|intros [=]; lia]. }
  assert (Hfp : no_digit ((fp ++ ep) ++ suf)).
  { rewrite <- app_assoc. destruct Hf as [->|(ds & -> & _)]; [apply Hep|done]. }
  split_and!.
  - apply (int_part_reads _ _ ((fp ++ ep) ++ suf)); [done|done|]. by apply reads_split.
  - apply reads_next in Hr. rewrite (frac_part_reads _ fp (ep ++ suf)); [by rewrite adv_adv|done|apply Hep..|].
    by apply reads_split.
  - apply reads_next, reads_next in Hr. rewrite adv_adv in Hr.
    rewrite (exp_part_reads _ ep suf) by done. by rewrite adv_adv.
Qed.

(** ** Integers *)

Lemma digits_fold_mono ds m : Forall (fun c => is_digit c = true) ds -> 0 <= m ->
  m <= fold_left (fun n d => n * 10 + (d - 48)) ds m.
Proof.
  intros Hd. revert m. induction Hd as [|d ds Hd _ IH]; intros m Hm; simpl; [lia|].
  unfold is_digit in Hd. bools. specialize (IH (m * 10 + (d - 48)) ltac:(lia)). lia.
Qed.

Lemma magnitude_value ds : Forall (fun c => is_digit c = true) ds -> digits_value ds <= U64_MAX ->
  magnitude ds = Ok (digits_value ds).
Proof.
  unfold magnitude, digits_value. intros Hd.
  enough (G : forall m, 0 <= m -> fold_left (fun n d => n * 10 + (d - 48)) ds m <= U64_MAX ->
    foldM (fun m d => let? m := ok_or (checked_u64 (m * 10)) tt in
                      ok_or (checked_u64 (m + (d - 48))) tt) m ds =
    @Ok unit Z (fold_left (fun n d => n * 10 + (d - 48)) ds m)) by (intros; by apply G).
  induction Hd as [|d ds Hd Hds IH]; intros m Hm Hb; [done|].
  simpl in *. pose proof Hd as Hd'. unfold is_digit in Hd'. bools.
  pose proof (digits_fold_mono ds (m * 10 + (d - 48)) Hds ltac:(lia)).
  unfold checked_u64.
  replace ((0 <=? m * 10) && (m * 10 <=? U64_MAX)) with true by (symmetry; apply andb_true_iff; lia).
  cbn [ok_or]. replace ((0 <=? m * 10 + (d - 48)) && (m * 10 + (d - 48) <=? U64_MAX)) with true
    by (symmetry; apply andb_true_iff; lia).
  cbn [ok_or]. apply IH; lia.
Qed.

(** How the parser classifies an integer. *)
Definition number_of (n : Z) : Number := if n <=? I64_MAX then Int n else UInt n.

Lemma decimal_int_text n : 0 <= n -> int_text (decimal n) /\ Forall (fun c => is_digit c = true) (decimal n).
Proof.
  intros Hn. assert (Hd : Forall (fun c => is_digit c = true) (decimal n)).
  { eapply Forall_impl; [|by apply decimal_range]. simpl. intros c Hc. unfold is_digit.
    apply andb_true_iff. lia. }
  split; [|done]. destruct (Z.eq_dec n 0) as [->|]; [by left|]. right.
  destruct (decimal_head n ltac:(lia)) as (d & l & E & Hh). rewrite E in *.
  exists d, l. split_and!; try done; try lia. by apply Forall_cons_1 in Hd as [_ ?].
Qed.

Lemma number_reads_decimal p n suf : I64_MIN <= n <= U64_MAX -> ends_number suf ->
  reads p (decimal_Z n) suf -> number p = Ok (number_of n, adv p (len (decimal_Z n))).
Proof.
  intros Hn Hs Hr. unfold number.
  set (neg := n <? 0). assert (Habs : decimal_Z n = sign_text neg ++ decimal (Z.abs n)).
  { unfold decimal_Z, neg. destruct (Z.ltb_spec n 0); simpl; repeat f_equal; lia. }
  destruct (decimal_int_text (Z.abs n) ltac:(lia)) as [Hi Hd].
  assert (Hsign : bool_decide (get (jbuf p) (jpos p) = Some 45) = neg).
  { rewrite (get_reads _ _ _ Hr), Habs. destruct neg; [done|]. simpl.
    apply bool_decide_eq_false. intros E. destruct Hi as [Hi|(d & ds & Hi & Hd2 & _)].
    - by rewrite Hi in E.
    - rewrite Hi in E. injection E as ->. lia. }
  rewrite Hsign, Habs in *. clear Hsign.
  set (p0 := if neg then adv p 1 else p).
  assert (Hp0 : p0 = adv p (len (sign_text neg)))
    by (unfold p0, sign_text; destruct neg; [done|by rewrite adv_0]).
  apply reads_next in Hr. rewrite <- Hp0 in Hr.
  destruct (parts_reads p0 (decimal (Z.abs n)) [] [] suf) as (-> & E2 & E3);
    [done|by left|by left|done|by rewrite !app_nil_r|].
  rewrite E2, E3. change (len []) with 0. rewrite !Z.add_0_r.
  rewrite !bool_decide_false by auto. cbn [orb].
  replace (slice _ _ _) with (decimal (Z.abs n)).
  2: { symmetry. etrans; [|apply (slice_reads _ _ _ Hr)]. unfold p0. by destruct neg. }
  rewrite magnitude_value by (rewrite ?decimal_value; done || (unfold I64_MIN, U64_MAX in *; lia)).
  rewrite decimal_value by lia. rewrite Hp0, adv_adv, len_app. unfold number_of, neg, I64_MIN, I64_MAX, U64_MAX in *.
  destruct (Z.ltb_spec n 0).
  - destruct (Z.leb_spec (Z.abs n) 9223372036854775807).
    + replace (n <=? 9223372036854775807) with true by (symmetry; apply Z.leb_le; lia).
      do 3 f_equal. lia.
    + replace (Z.abs n =? _) with true by (symmetry; apply Z.eqb_eq; lia).
      replace (n <=? 9223372036854775807) with true by (symmetry; apply Z.leb_le; lia).
      do 3 f_equal. lia.
  - rewrite Z.abs_eq by lia. by destruct (n <=? 9223372036854775807).
Qed.

(** ** Floats *)

(** A spelling of the float [bits] as JSON writes one: with a fraction or an
    exponent, rounding to [bits], and not underflowing to zero. *)
Definition float_text (text : bytes) (bits : Z) : Prop :=
  exists neg ip fp ep, text = sign_text neg ++ ip ++ fp ++ ep /\
    int_text ip /\ frac_text fp /\ exp_text ep /\ (fp <> [] \/ ep <> []) /\
    parse_f64 text = bits /\ f64_is_finite bits = true /\
    (f64_is_zero bits && has_nonzero_digit text) = false.

Lemma number_reads_float p text bits suf : float_text text bits -> ends_number suf ->
  reads p text suf -> number p = Ok (Float bits, adv p (len text)).
Proof.
  intros (neg & ip & fp & ep & -> & Hi & Hf & He & Hne & Hb & Hfin & Hz) Hs Hr. unfold number.
  assert (Hsign : bool_decide (get (jbuf p) (jpos p) = Some 45) = neg).
  { rewrite (get_reads _ _ _ Hr). destruct neg; [done|]. simpl.
    apply bool_decide_eq_false. destruct Hi as [->|(d & ds & -> & Hd & _)]; simpl; [done|].
    intros [=]. lia. }
  rewrite Hsign. clear Hsign. set (p0 := if neg then adv p 1 else p).
  assert (Hp0 : p0 = adv p (len (sign_text neg)))
    by (unfold p0, sign_text; destruct neg; [done|by rewrite adv_0]).
  assert (Hr0 := reads_next _ _ _ _ Hr). rewrite <- Hp0 in Hr0.
  destruct (parts_reads p0 ip fp ep suf) as (-> & E2 & E3); [done..|].
  rewrite E2, E3. replace (bool_decide (fp <> []) || bool_decide (ep <> [])) with true
    by (symmetry; apply orb_true_iff; rewrite !bool_decide_eq_true; done).
  replace (slice _ _ _) with (sign_text neg ++ ip ++ fp ++ ep).
  2: { symmetry. etrans; [|apply (slice_reads _ _ _ Hr)]. rewrite Hp0, adv_adv. simpl. f_equal. len_lia. }
  rewrite Hb, Hfin, Hz. cbn [negb orb]. do 2 f_equal. rewrite Hp0, adv_adv. f_equal. len_lia.
Qed.

(** * The equations of the value parser *)

Section Equations.
Context `{SimdUtf8} `{Memchr2} {B V C : Type} `{Builder B V} `{Context C}.

Lemma value_in_S fuel p (b : B) (st : Stacks V) (ctx : C) :
  value_in (S fuel) p b st ctx = (
      let? c := peek p in
      if c =? 123 then
        let? p := enter p in
        let p := adv p 1 in
        let k0 := length st.(st_keys) in
        let v0 := length st.(st_values) in
        let? (more, p) := object_open p in
        let? (p, b, st) :=
          if more then object_loop fuel p b st ctx 0 else Ok (p, b, st) in
        let p := set_depth p (p.(jdepth) - 1) in
        let? (v, b) := b_object b (drop k0 st.(st_keys)) (drop v0 st.(st_values)) in
        Ok (v, p, b, mkStacks (take k0 st.(st_keys)) (take v0 st.(st_values)))
      else if c =? 91 then
        let? p := enter p in
        let p := adv p 1 in
        let v0 := length st.(st_values) in
        let p := ws p in
        let? c := peek p in
        let? (p, b, st) :=
          if c =? 93 then Ok (adv p 1, b, st) else array_loop fuel p b st ctx in
        let p := set_depth p (p.(jdepth) - 1) in
        let? (v, b) := b_array b (drop v0 st.(st_values)) in
        Ok (v, p, b, mkStacks st.(st_keys) (take v0 st.(st_values)))
      else if c =? 34 then
        let? (s, p) := string p in
        let? (v, b) := b_string b s in Ok (v, p, b, st)
      else if c =? 116 then
        let? p := literal p [116; 114; 117; 101] in
        let? (v, b) := b_boolean b true in Ok (v, p, b, st)
      else if c =? 102 then
        let? p := literal p [102; 97; 108; 115; 101] in
        let? (v, b) := b_boolean b false in Ok (v, p, b, st)
      else if c =? 110 then
        let? p := literal p [110; 117; 108; 108] in
        let? (v, b) := b_null b in Ok (v, p, b, st)
      else if (c =? 45) || is_digit c then
        if ctx_integer ctx then
          let? (raw, p) := number_literal p in
          let? (v, b) := b_integer_literal b raw in Ok (v, p, b, st)
        else
          let? (n, p) := number p in
          let? (v, b) := b_number b n in Ok (v, p, b, st)
      else Fallback).
Proof. reflexivity. Qed.

Lemma object_loop_S fuel p (b : B) (st : Stacks V) (ctx : C) seen :
  object_loop (S fuel) p b st ctx seen = (
      let? (key, p) := string p in
      let bit := ctx_field_bit ctx (cow_bytes key) in
      if negb (Z.land seen bit =? 0) then Fallback
      else
        let child := ctx_key ctx (cow_bytes key) in
        let? (k, b) := b_key b key in
        let st := mkStacks (st.(st_keys) ++ [k]) st.(st_values) in
        let? p := colon p in
        let? (v, p, b, st) := value_in fuel p b st child in
        let st := mkStacks st.(st_keys) (st.(st_values) ++ [v]) in
        let? (more, p) := object_next p in
        if more then object_loop fuel p b st ctx (Z.lor seen bit) else Ok (p, b, st)).
Proof. reflexivity. Qed.

Lemma array_loop_S fuel p (b : B) (st : Stacks V) (ctx : C) :
  array_loop (S fuel) p b st ctx = (
      let p := ws p in
      let? (v, p, b, st) := value_in fuel p b st ctx in
      let st := mkStacks st.(st_keys) (st.(st_values) ++ [v]) in
      let p := ws p in
      let? c := peek p in
      if c =? 44 then array_loop fuel (adv p 1) b st ctx
      else if c =? 93 then Ok (adv p 1, b, st)
      else Fallback).
Proof. reflexivity. Qed.
End Equations.
