(* ===== verification/TermJson.v ===== *)
(** Erlang terms to JSON and back: the encoder and the term builder of
    term_json.rs.

    An Erlang map is the list of its entries in iteration order; a map built
    from arrays keeps the order of the arrays.  Whether a binary is a copy or a
    sub-binary of the input is not observable in its value. *)

From S2P Require Import Prelude Utf8 External Out JsonWrite Float64 JsonRead JsonText.

(** * Terms *)

(** What [Term::get_type] distinguishes; [Improper] is a list whose
    [list_length] fails, [Other] every type the codec does not look into. *)
Inductive Term : Type :=
| Binary (b : bytes)
| Integer (n : Z)
| FloatT (bits : Z)
| Atom (name : bytes)
| List (items : list Term)
| Improper
| Map (entries : list (Term * Term))
| Tuple (items : list Term)
| Other.

Section TermInduction.
Variable P : Term -> Prop.
Hypothesis HBinary : forall b, P (Binary b).
Hypothesis HInteger : forall n, P (Integer n).
Hypothesis HFloat : forall f, P (FloatT f).
Hypothesis HAtom : forall a, P (Atom a).
Hypothesis HList : forall l, Forall P l -> P (List l).
Hypothesis HImproper : P Improper.
Hypothesis HMap : forall l, Forall (fun e => P (fst e) /\ P (snd e)) l -> P (Map l).
Hypothesis HTuple : forall l, Forall P l -> P (Tuple l).
Hypothesis HOther : P Other.

Fixpoint Term_nested_ind (t : Term) : P t :=
  match t with
  | Binary b => HBinary b
  | Integer n => HInteger n
  | FloatT f => HFloat f
  | Atom a => HAtom a
  | List l => HList l ((fix go l : Forall P l :=
      match l with
      | [] => Forall_nil_2 _
      | x :: l => Forall_cons_2 _ x l (Term_nested_ind x) (go l)
      end) l)
  | Improper => HImproper
  | Map l => HMap l ((fix go l : Forall (fun e => P (fst e) /\ P (snd e)) l :=
      match l with
      | [] => Forall_nil_2 _
      | e :: l => Forall_cons_2 _ e l (conj (Term_nested_ind (fst e)) (Term_nested_ind (snd e))) (go l)
      end) l)
  | Tuple l => HTuple l ((fix go l : Forall P l :=
      match l with
      | [] => Forall_nil_2 _
      | x :: l => Forall_cons_2 _ x l (Term_nested_ind x) (go l)
      end) l)
  | Other => HOther
  end.
End TermInduction.

#[export] Instance Term_eq_dec : EqDecision Term.
Proof.
  unfold EqDecision, Decision. fix go 1. intros x y.
  destruct x as [b|n|f|a|l| |l|l|], y as [b'|n'|f'|a'|l'| |l'|l'|]; try (right; congruence).
  - destruct (decide (b = b')); [left; congruence|right; congruence].
  - destruct (decide (n = n')); [left; congruence|right; congruence].
  - destruct (decide (f = f')); [left; congruence|right; congruence].
  - destruct (decide (a = a')); [left; congruence|right; congruence].
  - enough (D : {l = l'} + {l <> l'}) by (destruct D; [left; congruence|right; congruence]).
    revert l'. induction l as [|x l IH]; intros [|y l'];
      [by left|by right|by right|].
    destruct (go x y) as [->|]; [|right; congruence].
    destruct (IH l') as [->|]; [by left|right; congruence].
  - by left.
  - enough (D : {l = l'} + {l <> l'}) by (destruct D; [left; congruence|right; congruence]).
    revert l'. induction l as [|[k v] l IH]; intros [|[k' v'] l'];
      [by left|by right|by right|].
    destruct (go k k') as [->|]; [|right; congruence].
    destruct (go v v') as [->|]; [|right; congruence].
    destruct (IH l') as [->|]; [by left|right; congruence].
  - enough (D : {l = l'} + {l <> l'}) by (destruct D; [left; congruence|right; congruence]).
    revert l'. induction l as [|x l IH]; intros [|y l'];
      [by left|by right|by right|].
    destruct (go x y) as [->|]; [|right; congruence].
    destruct (IH l') as [->|]; [by left|right; congruence].
  - by left.
Defined.

(** [Term::atom_to_string]: a [String], hence well-formed UTF-8. *)
Class AtomNames : Type := {
  atom_to_string : bytes -> option bytes;
  atom_to_string_utf8 : forall a s, atom_to_string a = Some s -> from_utf8_ok s = true
}.

Definition NIL : bytes := [110; 105; 108].
Definition TRUE : bytes := [116; 114; 117; 101].
Definition FALSE : bytes := [102; 97; 108; 115; 101].
Definition STRUCT_KEY : bytes := [95; 95; 115; 116; 114; 117; 99; 116; 95; 95].

(** * The encoder *)

Inductive EncodeError : Type := EFallback | ETooBig.
Abbreviation Enc A := (res EncodeError A).

(** [impl From<Fallback> for EncodeError]. *)
Definition from_fallback {A} (r : Res A) : Enc A :=
  match r with Ok a => Ok a | Err _ => Err EFallback | Fuel => Fuel end.

Definition is_nil_or_false (t : Term) : bool :=
  bool_decide (t = Atom NIL) || bool_decide (t = Atom FALSE).

Definition is_binary (t : Term) : bool := match t with Binary _ => true | _ => false end.

Module JsonEncoder.
Section Encoder.
Context `{SimdUtf8} `{Itoa} `{Ryu} `{AtomNames}.

Definition write_int {S} `{Sink S} (out : S) (n : Z) : Res S :=
  if (I64_MIN <=? n) && (n <=? I64_MAX) then Ok (write_i64 out n)
  else if (0 <=? n) && (n <=? U64_MAX) then Ok (write_u64 out n)
  else Fallback.

Definition key_bytes (k : Term) : Res bytes :=
  match k with
  | Binary b => if simd_from_utf8 b then Ok b else Fallback
  | Atom a => ok_or (atom_to_string a) tt
  | Integer n => write_int ([] : bytes) n
  | _ => Fallback
  end.

(** The collision check: [keys.contains(&key)] before [keys.push(key)]. *)
Fixpoint check_keys (entries : list (Term * Term)) (keys : list bytes) : Enc unit :=
  match entries with
  | [] => Ok tt
  | (k, _) :: entries =>
      let? key := from_fallback (key_bytes k) in
      if bool_decide (key ∈ keys) then Err EFallback
      else check_keys entries (keys ++ [key])
  end.

Section Loops.
Context {S : Type} `{Sink S}.
Variable value : S -> Term -> Z -> Enc S.

Fixpoint items_loop (i : nat) (items : list Term) (out : S) (depth : Z) : Enc S :=
  match items with
  | [] => Ok out
  | item :: items =>
      let out := if (0 <? i)%nat then push out 44 else out in
      let? out := value out item (depth + 1) in
      items_loop (i + 1) items out depth
  end.

Fixpoint entries_loop (i : nat) (entries : list (Term * Term)) (out : S) (depth : Z) : Enc S :=
  match entries with
  | [] => Ok out
  | (k, v) :: entries =>
      let out := if (0 <? i)%nat then push out 44 else out in
      let? key := from_fallback (key_bytes k) in
      let out := push (write_str out key) 58 in
      let? out := value out v (depth + 1) in
      entries_loop (i + 1) entries out depth
  end.

Definition map_with (out : S) (entries : list (Term * Term)) (depth : Z) : Enc S :=
  if existsb (fun '(k, _) => bool_decide (k = Atom STRUCT_KEY)) entries then Err EFallback
  else
    let? _ := if forallb (fun '(k, _) => is_binary k) entries then Ok tt
              else check_keys entries [] in
    let out := push out 123 in
    let? out := entries_loop 0 entries out depth in
    Ok (push out 125).
End Loops.

Fixpoint value {S} `{Sink S} (budget : Z) (out : S) (t : Term) (depth : Z) {struct t} : Enc S :=
  if MAX_DEPTH <? depth then Err EFallback
  else
    let? out :=
      match t with
      | Binary b => if simd_from_utf8 b then Ok (write_str out b) else Err EFallback
      | Integer n => from_fallback (write_int out n)
      | FloatT f => Ok (write_f64 out f)
      | Atom a =>
          if bool_decide (a = NIL) then Ok (extend out [110; 117; 108; 108])
          else if bool_decide (a = TRUE) then Ok (extend out [116; 114; 117; 101])
          else if bool_decide (a = FALSE) then Ok (extend out [102; 97; 108; 115; 101])
          else
            let? name := from_fallback (ok_or (atom_to_string a) tt) in
            Ok (write_str out name)
      | List items =>
          let? out := items_loop (value budget) 0 items (push out 91) depth in
          Ok (push out 93)
      | Map entries => map_with (value budget) out entries depth
      | Improper | Tuple _ | Other => Err EFallback
      end in
    if budget <? sink_len out then Err ETooBig else Ok out.

Definition map {S} `{Sink S} (budget : Z) (out : S) (t : Term) (depth : Z) : Enc S :=
  match t with
  | Map entries => map_with (value budget) out entries depth
  | _ => Err EFallback
  end.
End Encoder.
End JsonEncoder.

(** * The term builder *)

Definition INTERN_MAX_KEY : Z := 32.
Definition INTERN_MAX_KEYS : Z := 128.

Record TermBuilder : Type := mkTermBuilder { tb_keys : list (bytes * Term) }.

Definition TermBuilder_new : TermBuilder := mkTermBuilder [].
Definition with_keys (keys : list (bytes * Term)) : TermBuilder := mkTermBuilder keys.
Definition into_keys (b : TermBuilder) : list (bytes * Term) := b.(tb_keys).

Definition term_bytes (s : bytes) : Term := Binary s.

Definition term_key (b : TermBuilder) (s : Cow) : Res (Term * TermBuilder) :=
  match s with
  | Owned s => Ok (term_bytes s, b)
  | Borrowed s =>
      if INTERN_MAX_KEY <? len s then Ok (term_bytes s, b)
      else match find (fun '(k, _) => bytes_eqb k s) b.(tb_keys) with
           | Some (_, term) => Ok (term, b)
           | None =>
               let term := term_bytes s in
               if len b.(tb_keys) <? INTERN_MAX_KEYS
               then Ok (term, mkTermBuilder (b.(tb_keys) ++ [(s, term)]))
               else Ok (term, b)
           end
  end.

(** [Term::map_from_arrays] fails on duplicate keys. *)
Definition map_from_arrays (keys values : list Term) : Res Term :=
  if bool_decide (NoDup keys) then Ok (Map (zip keys values)) else Fallback.

#[export] Instance Builder_Term : Builder TermBuilder Term := {|
  b_null b := Ok (Atom NIL, b);
  b_boolean b v := Ok (Atom (if v then TRUE else FALSE), b);
  b_number b n := Ok (match n with Int i => Integer i | UInt u => Integer u | Float f => FloatT f end, b);
  b_integer_literal b raw := Fallback;
  b_string b s := Ok (term_bytes (cow_bytes s), b);
  b_key := term_key;
  b_array b items := Ok (List items, b);
  b_object b keys values := let? t := map_from_arrays keys values in Ok (t, b)
|}.

#[export] Instance Term_total : BuilderTotal TermBuilder Term.
Proof.
  constructor; try done.
  - intros b s. cbn. unfold term_key. by case_goal.
  - intros b ks vs. cbn. unfold map_from_arrays. by destruct (bool_decide _).
Qed.

(** * What the encoder writes *)

Section Text.
Context `{SimdUtf8} `{Itoa} `{Ryu} `{AtomNames}.

Definition key_ok (k : Term) : bool := match JsonEncoder.key_bytes k with Ok _ => true | _ => false end.
Definition key_text (k : Term) : bytes := match JsonEncoder.key_bytes k with Ok b => b | _ => [] end.

(** Members of a list separated by commas, the first one counted from [i]. *)
Fixpoint joined (i : nat) (l : list bytes) : bytes :=
  match l with
  | [] => []
  | x :: l => (if (0 <? i)%nat then [44] else []) ++ x ++ joined (i + 1) l
  end.

Definition member (kv : bytes * bytes) : bytes := json_string (fst kv) ++ [58] ++ snd kv.

Fixpoint json_text (t : Term) : bytes :=
  match t with
  | Binary b => json_string b
  | Integer n => decimal_Z n
  | FloatT f => ryu_format_finite f
  | Atom a =>
      if bool_decide (a = NIL) then [110; 117; 108; 108]
      else if bool_decide (a = TRUE) then [116; 114; 117; 101]
      else if bool_decide (a = FALSE) then [102; 97; 108; 115; 101]
      else json_string (default [] (atom_to_string a))
  | List l => [91] ++ joined 0 (map json_text l) ++ [93]
  | Map l => [123] ++ joined 0 (map (fun e => member (key_text (fst e), json_text (snd e))) l) ++ [125]
  | Improper | Tuple _ | Other => []
  end.

Definition keys_ok (entries : list (Term * Term)) : bool :=
  negb (existsb (fun '(k, _) => bool_decide (k = Atom STRUCT_KEY)) entries)
  && forallb (fun e => key_ok (fst e)) entries
  && (forallb (fun '(k, _) => is_binary k) entries
      || bool_decide (NoDup (map (fun e => key_text (fst e)) entries))).

(** The terms the encoder accepts at a depth, as the header of term_json.rs
    lists them. *)
Fixpoint encodable (d : Z) (t : Term) : bool :=
  (d <=? MAX_DEPTH) &&
  match t with
  | Binary b => from_utf8_ok b
  | Integer n => (I64_MIN <=? n) && (n <=? U64_MAX)
  | FloatT _ => true
  | Atom a => bool_decide (a = NIL) || bool_decide (a = TRUE) || bool_decide (a = FALSE)
              || bool_decide (is_Some (atom_to_string a))
  | List l => forallb (encodable (d + 1)) l
  | Map l => keys_ok l && forallb (fun e => encodable (d + 1) (snd e)) l
  | Improper | Tuple _ | Other => false
  end.

Lemma write_int_vec (out : bytes) n :
  JsonEncoder.write_int out n =
    if (I64_MIN <=? n) && (n <=? U64_MAX) then Ok (out ++ decimal_Z n) else Fallback.
Proof.
  unfold JsonEncoder.write_int, write_i64, write_u64. simpl.
  destruct (Z.leb_spec I64_MIN n), (Z.leb_spec n I64_MAX), (Z.leb_spec 0 n), (Z.leb_spec n U64_MAX);
    simpl; rewrite ?itoa_format_decimal by lia; try done; unfold I64_MIN, I64_MAX, U64_MAX in *; lia.
Qed.

Lemma key_bytes_not_fuel k : JsonEncoder.key_bytes k <> Fuel.
Proof.
  destruct k; simpl; try done; [by destruct (simd_from_utf8 b)| |by destruct (atom_to_string name)].
  rewrite write_int_vec. by destruct (_ && _).
Qed.

Lemma key_ok_text k : key_ok k = true -> JsonEncoder.key_bytes k = Ok (key_text k).
Proof. unfold key_ok, key_text. by destruct (JsonEncoder.key_bytes k). Qed.

Lemma check_keys_spec entries keys :
  (exists e, JsonEncoder.check_keys entries keys = Err e) /\
    ~ (forallb (fun e => key_ok (fst e)) entries = true /\
       NoDup (map (fun e => key_text (fst e)) entries) /\
       Forall (fun e => key_text (fst e) ∉ keys) entries) \/
  JsonEncoder.check_keys entries keys = Ok tt /\
    forallb (fun e => key_ok (fst e)) entries = true /\
    NoDup (map (fun e => key_text (fst e)) entries) /\
    Forall (fun e => key_text (fst e) ∉ keys) entries.
Proof.
  revert keys. induction entries as [|[k v] entries IH]; intros keys; simpl.
  { right. split_and!; try done; constructor. }
  destruct (JsonEncoder.key_bytes k) as [key| |] eqn:Ek; [| |by apply key_bytes_not_fuel in Ek]; simpl.
  2: { left. split; [by eexists|]. unfold key_ok. rewrite Ek. simpl. by intros [? _]. }
  assert (Hok : key_ok k = true) by (unfold key_ok; by rewrite Ek).
  assert (Htx : key_text k = key) by (unfold key_text; by rewrite Ek).
  rewrite Hok, Htx. cbn [andb]. destruct (bool_decide_reflect (key ∈ keys)) as [Hin|Hin].
  { left. split; [by eexists|]. intros (_ & _ & Hf). apply Forall_cons_1 in Hf as [Hf _].
    simpl in Hf. by rewrite Htx in Hf. }
  destruct (IH (keys ++ [key])) as [[He Hn]|(He & H3 & H4 & H5)].
  - left. split; [done|]. intros (H3 & H4 & H5). apply Hn. apply list.NoDup_cons in H4 as [H4 H6].
    apply Forall_cons_1 in H5 as [_ H5]. split_and!; try done.
    apply list.Forall_forall. intros [k2 v2] Hk2. rewrite elem_of_app, list_elem_of_singleton. simpl.
    rewrite list.Forall_forall in H5. intros [Ha|Ha]; [by apply (H5 _ Hk2)|].
    apply H4. rewrite <- Ha. apply list_elem_of_In.
    apply (in_map (fun e => key_text (fst e)) _ (k2, v2)). by apply list_elem_of_In.
  - right. rewrite He. split_and!; try done.
    + apply list.NoDup_cons. split; [|done]. rewrite list_elem_of_In, in_map_iff.
      intros ([k2 v2] & Ha & Hk2). rewrite list.Forall_forall in H5.
      apply (H5 (k2, v2)); [by apply list_elem_of_In|]. rewrite Ha, elem_of_app, list_elem_of_singleton. by right.
    + constructor; [simpl; by rewrite Htx|]. eapply Forall_impl; [|exact H5].
      simpl. intros e He2. rewrite elem_of_app in He2. tauto.
Qed.

(** The collision check is a test of the keys alone. *)
Lemma keys_check entries (out : bytes) d (value : bytes -> Term -> Z -> Enc bytes) :
  (exists e, JsonEncoder.map_with value out entries d = Err e) /\ keys_ok entries = false \/
  JsonEncoder.map_with value out entries d =
    (let? out := JsonEncoder.entries_loop value 0 entries (out ++ [123]) d in Ok (out ++ [125])) /\
  (keys_ok entries = false -> forallb (fun e => key_ok (fst e)) entries = false).
Proof.
  unfold JsonEncoder.map_with, keys_ok.
  destruct (existsb _ entries); [left; split; [by eexists|done]|]. cbn [negb andb].
  destruct (forallb (fun '(k, _) => is_binary k) entries).
  - right. split; [done|]. by rewrite andb_true_r.
  - destruct (check_keys_spec entries []) as [[[e He] Hn]|(He & H3 & H4 & _)].
    + left. rewrite He. split; [by eexists|]. cbn [orb].
      apply not_true_iff_false. intros Hb. apply andb_true_iff in Hb as [H3 H4].
      apply bool_decide_eq_true in H4. apply Hn. split_and!; try done.
      apply list.Forall_forall. intros e' _. apply not_elem_of_nil.
    + right. rewrite He, H3. split; [done|]. by rewrite bool_decide_true.
Qed.

Lemma write_member (out key text : bytes) :
  push (write_str out key) 58 ++ text = out ++ member (key, text).
Proof. rewrite write_str_vec. unfold member. cbn [push Sink_Vec fst snd]. by rewrite <- !app_assoc. Qed.

(** ** Soundness: what is written when the encoder answers *)

Definition value_sound (budget : Z) (t : Term) : Prop := forall (out out' : bytes) d,
  JsonEncoder.value budget out t d = Ok out' ->
  encodable d t = true /\ out' = out ++ json_text t /\ len out' <= budget.

Lemma items_loop_sound budget l i (out out' : bytes) d : Forall (value_sound budget) l ->
  JsonEncoder.items_loop (JsonEncoder.value budget) i l out d = Ok out' ->
  forallb (encodable (d + 1)) l = true /\ out' = out ++ joined i (map json_text l).
Proof.
  intros Hl. revert i out. induction Hl as [|x l Hx Hl IH]; intros i out Ho; simpl in *.
  { injection Ho as <-. by rewrite app_nil_r. }
  destruct (JsonEncoder.value _ _ x _) as [o1| |] eqn:E; [|done..].
  apply Hx in E as (-> & -> & _). apply IH in Ho as (-> & ->). split; [done|].
  destruct (0 <? i)%nat; by rewrite <- ?app_assoc.
Qed.

Lemma entries_loop_sound budget l i (out out' : bytes) d :
  Forall (fun e => value_sound budget (snd e)) l ->
  JsonEncoder.entries_loop (JsonEncoder.value budget) i l out d = Ok out' ->
  forallb (fun e => key_ok (fst e)) l = true /\
  forallb (fun e => encodable (d + 1) (snd e)) l = true /\
  out' = out ++ joined i (map (fun e => member (key_text (fst e), json_text (snd e))) l).
Proof.
  intros Hl. revert i out. induction Hl as [|[k v] l Hx Hl IH]; intros i out Ho;
    cbn [forallb JsonEncoder.entries_loop map joined fst snd] in *.
  { injection Ho as <-. by rewrite app_nil_r. }
  unfold key_ok at 1, key_text at 1. destruct (JsonEncoder.key_bytes k) as [key| |]; [|done..].
  cbn [from_fallback andb] in *. destruct (JsonEncoder.value _ _ v _) as [o1| |] eqn:E; [|done..].
  apply Hx in E as (-> & -> & _). apply IH in Ho as (-> & -> & ->). split_and!; [done..|].
  rewrite write_member. destruct (0 <? i)%nat; cbn [push Sink_Vec]; by rewrite <- ?app_assoc.
Qed.

Lemma encode_sound budget t : value_sound budget t.
Proof.
  induction t as [b|n|f|a|l IH| |l IH|l IH|] using Term_nested_ind; intros out out' d Ho;
    cbn [JsonEncoder.value encodable json_text] in *;
    (destruct (Z.ltb_spec MAX_DEPTH d) as [|Hd]; [done|]);
    replace (d <=? MAX_DEPTH) with true by (symmetry; by apply Z.leb_le); cbn [andb].
  all: try discriminate Ho.
  all: try match type of Ho with (match ?m with Ok _ => _ | Err _ => _ | Fuel => _ end) = _ =>
    destruct m as [o1| |] eqn:E; [|done..] end.
  all: match type of Ho with (if ?c then _ else _) = _ =>
    destruct c eqn:Hb; [done|]; apply Z.ltb_ge in Hb; injection Ho as <- end.
  all: cbn [sink_len Sink_Vec] in Hb.
  - rewrite <- simd_from_utf8_std. destruct (simd_from_utf8 b); [|done].
    injection E as <-. by rewrite write_str_vec in *.
  - rewrite write_int_vec in E. destruct (_ && _); [|done]. by injection E as <-.
  - done.
  - do 3 (destruct (bool_decide _); [by injection E as <-|]). cbn [orb].
    destruct (atom_to_string a); [|done]. injection E as <-. by rewrite write_str_vec in *.
  - destruct (JsonEncoder.items_loop _ _ _ _ _) as [o2| |] eqn:E2; [|done..]. injection E as <-.
    apply items_loop_sound in E2 as [-> ->]; [|done].
    cbn [push Sink_Vec] in *. rewrite <- !app_assoc in Hb |- *. done.
  - destruct (keys_check l out d (JsonEncoder.value budget)) as [[[e He] _]|[He Hk]];
      rewrite He in E; [done|].
    destruct (JsonEncoder.entries_loop _ _ _ _ _) as [o2| |] eqn:E2; [|done..]. injection E as <-.
    apply entries_loop_sound in E2 as (H3 & -> & ->); [|by eapply Forall_impl; [|exact IH]; simpl; tauto].
    destruct (keys_ok l); [|specialize (Hk eq_refl); congruence].
    rewrite <- !app_assoc in Hb |- *. done.
Qed.

(** ** Completeness: an encodable term within the budget is written *)

Definition value_complete (budget : Z) (t : Term) : Prop := forall (out : bytes) d,
  encodable d t = true -> len (out ++ json_text t) <= budget ->
  JsonEncoder.value budget out t d = Ok (out ++ json_text t).

Lemma items_loop_complete budget l i (out : bytes) d : Forall (value_complete budget) l ->
  forallb (encodable (d + 1)) l = true -> len (out ++ joined i (map json_text l)) <= budget ->
  JsonEncoder.items_loop (JsonEncoder.value budget) i l out d = Ok (out ++ joined i (map json_text l)).
Proof.
  intros Hl. revert i out. induction Hl as [|x l Hx Hl IH]; intros i out He Hb; simpl in *.
  { by rewrite app_nil_r. }
  bools. rewrite Hx by (done || (destruct (0 <? i)%nat; len_lia)).
  rewrite IH by (done || (destruct (0 <? i)%nat; len_lia)).
  destruct (0 <? i)%nat; by rewrite <- ?app_assoc.
Qed.

Lemma entries_loop_complete budget l i (out : bytes) d :
  Forall (fun e => value_complete budget (snd e)) l ->
  forallb (fun e => key_ok (fst e)) l = true ->
  forallb (fun e => encodable (d + 1) (snd e)) l = true ->
  let text := joined i (map (fun e => member (key_text (fst e), json_text (snd e))) l) in
  len (out ++ text) <= budget ->
  JsonEncoder.entries_loop (JsonEncoder.value budget) i l out d = Ok (out ++ text).
Proof.
  intros Hl. revert i out. induction Hl as [|[k v] l Hx Hl IH]; intros i out Hk He text Hb; subst text;
    cbn [forallb JsonEncoder.entries_loop map joined fst snd] in *.
  { by rewrite app_nil_r. }
  bools. rewrite (key_ok_text k) by done. cbn [from_fallback].
  assert (Hm : forall o, push (write_str o (key_text k)) 58 ++ json_text v
    = o ++ member (key_text k, json_text v)) by (intros; apply write_member).
  rewrite Hx, Hm; [|done|rewrite Hm; destruct (0 <? i)%nat; cbn [push Sink_Vec]; len_lia].
  rewrite IH; [|done..|destruct (0 <? i)%nat; cbn [push Sink_Vec]; len_lia].
  destruct (0 <? i)%nat; cbn [push Sink_Vec]; by rewrite <- ?app_assoc.
Qed.

Lemma encode_complete budget t : value_complete budget t.
Proof.
  induction t as [b|n|f|a|l IH| |l IH|l IH|] using Term_nested_ind; intros out d He Hb;
    cbn [JsonEncoder.value encodable json_text] in *; apply andb_true_iff in He as [Hd He];
    apply Z.leb_le in Hd;
    (replace (MAX_DEPTH <? d) with false by (symmetry; apply Z.ltb_ge; lia)); try discriminate He.
  - rewrite <- simd_from_utf8_std in He. rewrite He, write_str_vec. cbn [sink_len Sink_Vec].
    by rewrite (proj2 (Z.ltb_ge _ _)).
  - rewrite write_int_vec, He. cbn [from_fallback sink_len Sink_Vec]. by rewrite (proj2 (Z.ltb_ge _ _)).
  - cbn [write_f64 extend sink_len Sink_Vec]. by rewrite (proj2 (Z.ltb_ge _ _)).
  - do 3 (destruct (bool_decide _); [cbn [extend sink_len Sink_Vec]; by rewrite (proj2 (Z.ltb_ge _ _))|]).
    cbn [orb] in He. apply bool_decide_eq_true in He as [s Es]. rewrite Es in *.
    cbn [ok_or from_fallback default]. rewrite write_str_vec. cbn [sink_len Sink_Vec].
    by rewrite (proj2 (Z.ltb_ge _ _)).
  - cbn [push Sink_Vec]. rewrite items_loop_complete by (done || len_lia).
    cbn [sink_len Sink_Vec]. rewrite <- !app_assoc. by rewrite (proj2 (Z.ltb_ge _ _)).
  - apply andb_true_iff in He as [Hk He].
    destruct (keys_check l out d (JsonEncoder.value budget)) as [[_ Hk2]|[-> _]]; [congruence|].
    rewrite entries_loop_complete; [|by eapply Forall_impl; [|exact IH]; simpl; tauto|..].
    + cbn [sink_len Sink_Vec]. rewrite <- !app_assoc. by rewrite (proj2 (Z.ltb_ge _ _)).
    + unfold keys_ok in *. bools. done.
    + done.
    + len_lia.
Qed.

(** ** Reading the text back *)

(** The term the text stands for: atoms and keys have become binaries. *)
Fixpoint normalize (t : Term) : Term :=
  match t with
  | Atom a =>
      if bool_decide (a = NIL) || bool_decide (a = TRUE) || bool_decide (a = FALSE) then Atom a
      else Binary (default [] (atom_to_string a))
  | List l => List (map normalize l)
  | Map l => Map (map (fun e => (Binary (key_text (fst e)), normalize (snd e))) l)
  | t => t
  end.

(** A map of the virtual machine has distinct keys. *)
Fixpoint distinct_keys (t : Term) : bool :=
  match t with
  | List l => forallb distinct_keys l
  | Map l => bool_decide (NoDup (map fst l)) && forallb (fun e => distinct_keys (snd e)) l
  | _ => true
  end.

Fixpoint floats (t : Term) : list Z :=
  match t with
  | FloatT f => [f]
  | List l => concat (map floats l)
  | Map l => concat (map (fun e => floats (snd e)) l)
  | _ => []
  end.

(** What ryu documents: the shortest spelling that reads back as the float. *)
Definition ryu_spells (t : Term) : Prop := Forall (fun f => float_text (ryu_format_finite f) f) (floats t).

Lemma ryu_spells_List x l : ryu_spells (List (x :: l)) -> ryu_spells x /\ ryu_spells (List l).
Proof. unfold ryu_spells. simpl. apply Forall_app. Qed.
Lemma ryu_spells_Map k v l : ryu_spells (Map ((k, v) :: l)) -> ryu_spells v /\ ryu_spells (Map l).
Proof. unfold ryu_spells. simpl. apply Forall_app. Qed.

(** The cache of keys holds binaries of those keys, and not too many. *)
Definition interned (b : TermBuilder) : Prop :=
  Forall (fun '(k, t) => t = Binary k) b.(tb_keys) /\ len b.(tb_keys) <= INTERN_MAX_KEYS.

Lemma term_key_spec b s : interned b ->
  exists b', term_key b s = Ok (Binary (cow_bytes s), b') /\ interned b'.
Proof.
  intros [Hi Hl]. destruct s as [s|s]; simpl; [|by eexists].
  destruct (INTERN_MAX_KEY <? len s); [by eexists|].
  destruct (find _ (tb_keys b)) as [[k t]|] eqn:Ef.
  - apply find_some in Ef as [Hin Hk]. apply bytes_eqb_eq in Hk as ->.
    assert (t = Binary s) as -> by (rewrite Forall_forall in Hi; exact (Hi _ Hin)). by eexists.
  - destruct (Z.ltb_spec (len (tb_keys b)) INTERN_MAX_KEYS); [|by eexists].
    eexists. split; [done|]. split; simpl; [|len_lia].
    apply Forall_app. by split; [|constructor].
Qed.

Lemma joined_S i l : joined (S i) l = joined 1 l.
Proof.
  revert i. induction l as [|x l IH]; intros i; simpl; [done|].
  pose proof (IH (i + 1)%nat) as E1. pose proof (IH 1%nat) as E2. simpl in E1, E2. by rewrite E1, E2.
Qed.
Lemma joined_1_cons x l : joined 1 (x :: l) = [44] ++ x ++ joined 1 l.
Proof. simpl. by rewrite (joined_S 1). Qed.
Lemma joined_0_cons x l : joined 0 (x :: l) = x ++ joined 1 l.
Proof. done. Qed.

Lemma ends_joined l c suf : c = 93 \/ c = 125 -> ends_number (joined 1 l ++ c :: suf).
Proof. destruct l; simpl; unfold ends_number; simpl; intros [->| ->]; done. Qed.

(** The first byte of an encoded value. *)
Definition value_head (x : bytes) : Prop :=
  exists c y, x = c :: y /\ is_ws c = false /\ c <> 93.
Definition number_head (x : bytes) : Prop :=
  exists c y, x = c :: y /\ (c = 45 \/ 48 <= c <= 57).

Lemma number_value_head x : number_head x -> value_head x.
Proof.
  intros (c & y & -> & Hc). exists c, y. split_and!; [done| |lia].
  unfold is_ws. rewrite !orb_false_iff, !Z.eqb_neq. lia.
Qed.

Lemma int_text_head ip y : int_text ip -> exists c z, ip ++ y = c :: z /\ 48 <= c <= 57.
Proof. intros [->|(d & ds & -> & Hd & _)]; simpl; do 2 eexists; split; try done; lia. Qed.

Lemma decimal_Z_head n : number_head (decimal_Z n).
Proof.
  unfold decimal_Z. destruct (Z.ltb_spec n 0); [do 2 eexists; split; [done|by left]|].
  destruct (decimal_int_text n ltac:(lia)) as [Hi _].
  destruct (int_text_head _ [] Hi) as (c & z & E & Hc). rewrite app_nil_r in E.
  exists c, z. split; [done|by right].
Qed.

Lemma float_text_head text bits : float_text text bits -> number_head text.
Proof.
  intros (neg & ip & fp & ep & -> & Hi & _). destruct neg; [do 2 eexists; split; [done|by left]|].
  destruct (int_text_head ip (fp ++ ep) Hi) as (c & z & E & Hc). cbn [sign_text app]. rewrite E.
  do 2 eexists. split; [done|by right].
Qed.

Lemma json_text_head d t : encodable d t = true -> ryu_spells t -> value_head (json_text t).
Proof.
  intros He Hr. destruct t as [b|n|f|a|l| |l|l|]; cbn [encodable json_text] in *;
    apply andb_true_iff in He as [_ He]; try discriminate He.
  - by do 2 eexists.
  - apply number_value_head, decimal_Z_head.
  - apply Forall_cons_1 in Hr as [Hr _]. by eapply number_value_head, float_text_head.
  - do 3 (destruct (bool_decide _); [by do 2 eexists|]). by do 2 eexists.
  - by do 2 eexists.
  - by do 2 eexists.
Qed.

Context `{Memchr2}.

Lemma value_number fuel p b st suf x n q : number_head x -> reads p x suf -> number p = Ok (n, q) ->
  value_in (S fuel) p b st ordinary = let? (v, b) := b_number b n in Ok (v, q, b, st) :> Res (Term * Parser * TermBuilder * Stacks Term).
Proof.
  intros (c & y & -> & Hc) Hr Hn. rewrite value_in_S. cbv zeta. rewrite (peek_reads _ _ _ _ Hr).
  assert (Hne : forall k, k <> 45 -> ~ 48 <= k <= 57 -> (c =? k) = false)
    by (intros k H5 H6; apply Z.eqb_neq; lia).
  rewrite !Hne by lia.
  replace ((c =? 45) || is_digit c) with true; [cbn [ctx_integer Context_Ordinary]; by rewrite Hn|].
  symmetry. unfold is_digit. rewrite orb_true_iff, Z.eqb_eq, andb_true_iff, !Z.leb_le. lia.
Qed.

(** What reading one encoded value does, wherever it stands. *)
Definition read_back (t : Term) : Prop := forall fuel p b st suf d,
  encodable d t = true -> distinct_keys t = true -> ryu_spells t -> jdepth p < d ->
  ends_number suf -> reads p (json_text t) suf -> (2 * length (json_text t) <= fuel)%nat ->
  interned b ->
  exists b', value_in fuel p b st ordinary = Ok (normalize t, adv p (len (json_text t)), b', st) /\
    interned b'.

Lemma value_head_reads p x y suf : value_head x -> reads p (x ++ y) suf ->
  ws p = p /\ exists c, peek p = Ok c /\ c <> 93.
Proof.
  intros (c & z & -> & Hw & Hc) Hr. split; [by eapply ws_reads|].
  exists c. split; [by eapply peek_reads|done].
Qed.

Lemma array_back l x fuel p b st suf d :
  Forall read_back (x :: l) -> forallb (encodable d) (x :: l) = true ->
  forallb distinct_keys (x :: l) = true -> ryu_spells (List (x :: l)) -> jdepth p < d ->
  reads p (joined 0 (map json_text (x :: l)) ++ [93]) suf ->
  (2 * length (joined 0 (map json_text (x :: l))) + 1 <= fuel)%nat -> interned b ->
  exists b', array_loop fuel p b st ordinary =
    Ok (adv p (len (joined 0 (map json_text (x :: l))) + 1), b',
        mkStacks (st_keys st) (st_values st ++ map normalize (x :: l))) /\ interned b'.
Proof.
  revert x fuel p b st. induction l as [|y l IH]; intros x fuel p b st Hf He Hd Hry Hdep Hr Hfu Hi.
  all: apply Forall_cons_1 in Hf as [Hx Hf].
  all: cbn [forallb] in He, Hd; apply andb_true_iff in He as [He Hes]; apply andb_true_iff in Hd as [Hd Hds].
  all: apply ryu_spells_List in Hry as [Hrx Hry].
  all: assert (Hh := json_text_head _ _ He Hrx).
  all: cbn [map] in Hr, Hfu |- *; rewrite joined_0_cons in Hr, Hfu |- *; rewrite <- app_assoc in Hr.
  all: destruct fuel as [|fuel]; [lia|]; rewrite array_loop_S; cbv zeta.
  all: destruct (value_head_reads _ _ _ _ Hh Hr) as [-> _].
  all: rewrite length_app in Hfu.
  - destruct (Hx fuel p b st ([93] ++ suf) d) as (b1 & -> & Hi1); try done; [by apply reads_split|lia|].
    apply reads_next in Hr. cbn [joined app] in Hr.
    rewrite (ws_reads _ _ _ _ Hr), (peek_reads _ _ _ _ Hr) by done. cbn [Z.eqb Pos.eqb].
    exists b1. split; [|done]. cbn [joined map]. rewrite app_nil_r, adv_adv. done.
  - destruct (Hx fuel p b st ((joined 1 (map json_text (y :: l)) ++ [93]) ++ suf) d)
      as (b1 & -> & Hi1); try done.
    { by apply reads_split. } { lia. }
    apply reads_next in Hr. cbn [map] in *. rewrite joined_1_cons in *. cbn [app] in Hr.
    rewrite (ws_reads _ _ _ _ Hr), (peek_reads _ _ _ _ Hr) by done. cbn [Z.eqb Pos.eqb].
    apply reads_cons in Hr. rewrite adv_adv in *. rewrite !length_app in Hfu. cbn [length] in Hfu.
    destruct (IH y fuel (adv p (len (json_text x) + 1)) b1
      (mkStacks (st_keys st) (st_values st ++ [normalize x]))) as (b2 & E & Hi2); try done.
    { rewrite joined_0_cons, length_app. lia. }
    exists b2. split; [|done]. cbn [st_keys st_values] in *. rewrite E. rewrite adv_adv, <- !app_assoc.
    cbn [map]. rewrite joined_0_cons. do 4 f_equal. len_lia.
Qed.

Lemma key_text_utf8 k : key_ok k = true -> from_utf8_ok (key_text k) = true.
Proof.
  unfold key_ok, key_text. destruct k as [b|n|f|a|l| |l|l|]; simpl; try done.
  - rewrite simd_from_utf8_std. by destruct (from_utf8_ok b) eqn:E.
  - rewrite write_int_vec. destruct (_ && _); [|done]. intros _. apply from_utf8_ok_ascii. simpl.
    unfold decimal_Z. destruct (Z.ltb_spec n 0); [constructor; [lia|]|];
      (eapply Forall_impl; [|apply decimal_range; lia]); simpl; lia.
  - destruct (atom_to_string a) as [s|] eqn:E; [|done]. intros _. by apply atom_to_string_utf8 in E.
Qed.

Lemma utf8_nonneg s : from_utf8_ok s = true -> Forall (fun c => 0 <= c) s.
Proof. intros Hs. eapply Forall_impl; [|by apply utf8_bytes_bound]. simpl. lia. Qed.

(** One member of an object, up to the byte after its value. *)
Lemma member_back k v fuel p b st suf d :
  read_back v -> key_ok k = true -> encodable d v = true -> distinct_keys v = true -> ryu_spells v ->
  jdepth p < d -> ends_number suf -> reads p (member (key_text k, json_text v)) suf ->
  (2 * length (json_text v) <= fuel)%nat -> interned b ->
  exists b', interned b' /\
  object_loop (S fuel) p b st ordinary 0 =
    let? (more, q) := object_next (adv p (len (member (key_text k, json_text v)))) in
    let st := mkStacks (st_keys st ++ [Binary (key_text k)]) (st_values st ++ [normalize v]) in
    if more then object_loop fuel q b' st ordinary 0 else Ok (q, b', st).
Proof.
  intros Hv Hk He Hd Hry Hdep Hs Hr Hfu Hi. rewrite object_loop_S. cbv zeta. unfold member in Hr |- *. cbn [fst snd] in *.
  assert (Hu := key_text_utf8 k Hk).
  rewrite (string_reads p (key_text k) (([58] ++ json_text v) ++ suf));
    [|by apply utf8_nonneg|done|exact (proj1 (reads_split _ _ _ _) Hr)].
  cbn [ctx_field_bit ctx_key Context_Ordinary]. cbn [Z.land Z.eqb negb].
  destruct (term_key_spec b (cow_of (key_text k)) Hi) as (b1 & E1 & Hi1).
  cbn [b_key Builder_Term]. rewrite E1, cow_of_bytes.
  apply reads_next in Hr. cbn [app] in Hr. unfold colon.
  rewrite (ws_reads _ _ _ _ Hr), (expect_reads _ _ _ _ Hr) by done. apply reads_cons in Hr.
  destruct (json_text_head _ _ He Hry) as (c & z & Ec & Hw & _).
  assert (Hws : ws (adv (adv p (len (json_string (key_text k)))) 1)
    = adv (adv p (len (json_string (key_text k)))) 1).
  { rewrite Ec in Hr. by eapply ws_reads. }
  rewrite Hws.
  destruct (Hv fuel (adv (adv p (len (json_string (key_text k)))) 1) b1
    (mkStacks (st_keys st ++ [Binary (key_text k)]) (st_values st)) suf d) as (b2 & E2 & Hi2); try done.
  rewrite E2. exists b2. split; [done|]. rewrite !adv_adv. cbn [st_keys st_values].
  by replace (len (json_string (key_text k)) + (1 + len (json_text v)))
    with (len (json_string (key_text k) ++ [58] ++ json_text v)) by len_lia.
Qed.

Definition entry_text (e : Term * Term) : bytes := member (key_text (fst e), json_text (snd e)).

Lemma entry_text_head e : exists y, entry_text e = 34 :: y.
Proof. by eexists. Qed.

Lemma object_back l e fuel p b st suf d :
  Forall (fun e => read_back (snd e)) (e :: l) -> forallb (fun e => key_ok (fst e)) (e :: l) = true ->
  forallb (fun e => encodable d (snd e)) (e :: l) = true ->
  forallb (fun e => distinct_keys (snd e)) (e :: l) = true -> ryu_spells (Map (e :: l)) ->
  jdepth p < d -> reads p (joined 0 (map entry_text (e :: l)) ++ [125]) suf ->
  (2 * length (joined 0 (map entry_text (e :: l))) + 1 <= fuel)%nat -> interned b ->
  exists b', object_loop fuel p b st ordinary 0 =
    Ok (adv p (len (joined 0 (map entry_text (e :: l))) + 1), b',
        mkStacks (st_keys st ++ map (fun e => Binary (key_text (fst e))) (e :: l))
                 (st_values st ++ map (fun e => normalize (snd e)) (e :: l))) /\ interned b'.
Proof.
  revert e fuel p b st. induction l as [|e2 l IH]; intros [k v] fuel p b st Hf Hk He Hd Hry Hdep Hr Hfu Hi.
  all: apply Forall_cons_1 in Hf as [Hx Hf].
  all: cbn [forallb fst snd] in Hk, He, Hd, Hx; apply andb_true_iff in Hk as [Hk Hks];
    apply andb_true_iff in He as [He Hes]; apply andb_true_iff in Hd as [Hd Hds].
  all: apply ryu_spells_Map in Hry as [Hrx Hry].
  all: cbn [map fst snd] in Hr, Hfu |- *; rewrite joined_0_cons in Hr, Hfu |- *; rewrite <- app_assoc in Hr.
  all: destruct fuel as [|fuel]; [lia|]; rewrite length_app in Hfu.
  all: assert (Hl : (length (json_text v) <= length (entry_text (k, v)))%nat)
    by (unfold entry_text, member; cbn [fst snd]; rewrite !length_app; lia).
  all: pose proof (proj1 (reads_split _ _ _ _) Hr) as Hr1; apply reads_next in Hr.
  - destruct (member_back k v fuel p b st ([125] ++ suf) d) as (b1 & Hi1 & ->); try done; [lia|].
    change (member (key_text k, json_text v)) with (entry_text (k, v)). cbn [joined app] in Hr. unfold object_next.
    rewrite (ws_reads _ _ _ _ Hr), (peek_reads _ _ _ _ Hr) by done. cbn [Z.eqb Pos.eqb].
    exists b1. split; [|done]. cbn [joined map]. rewrite app_nil_r, adv_adv. done.
  - destruct (member_back k v fuel p b st ((joined 1 (map entry_text (e2 :: l)) ++ [125]) ++ suf) d)
      as (b1 & Hi1 & ->); try done; [lia|].
    change (member (key_text k, json_text v)) with (entry_text (k, v)). cbn [map] in *. rewrite joined_1_cons in *. cbn [app] in Hr. unfold object_next.
    rewrite (ws_reads _ _ _ _ Hr), (peek_reads _ _ _ _ Hr) by done. cbn [Z.eqb Pos.eqb].
    apply reads_cons in Hr. rewrite adv_adv in *. rewrite !length_app in Hfu. cbn [length] in Hfu.
    assert (Hq : ws (adv p (len (entry_text (k, v)) + 1)) = adv p (len (entry_text (k, v)) + 1) /\
      peek (adv p (len (entry_text (k, v)) + 1)) = Ok 34).
    { destruct (entry_text_head e2) as [y Ey]. rewrite Ey in Hr.
      split; [exact (ws_reads _ _ _ _ Hr eq_refl)|exact (peek_reads _ _ _ _ Hr)]. }
    destruct Hq as [-> ->]. cbn [Z.eqb Pos.eqb].
    destruct (IH e2 fuel (adv p (len (entry_text (k, v)) + 1)) b1
      (mkStacks (st_keys st ++ [Binary (key_text k)]) (st_values st ++ [normalize v])))
      as (b2 & E & Hi2); try done.
    { cbn [map]. rewrite joined_0_cons, length_app. lia. }
    exists b2. split; [|done]. cbn [st_keys st_values] in *. rewrite E. rewrite adv_adv, <- !app_assoc.
    cbn [map]. rewrite joined_0_cons. do 4 f_equal. len_lia.
Qed.

(** Distinct keys stay distinct once they are spelled. *)
Lemma keys_spelled_distinct l : keys_ok l = true -> NoDup (map fst l) ->
  NoDup (map (fun e => Binary (key_text (fst e))) l).
Proof.
  unfold keys_ok. intros Hk Hd. apply andb_true_iff in Hk as [Hk Hc]. apply andb_true_iff in Hk as [_ Hk].
  destruct (forallb (fun '(k, _) => is_binary k) l) eqn:Hb.
  - replace (map (fun e => Binary (key_text (fst e))) l) with (map fst l); [done|].
    apply map_ext_in. intros [k v] Hin. rewrite forallb_forall in Hb, Hk.
    specialize (Hb _ Hin). specialize (Hk _ Hin). simpl in *. destruct k; try done.
    unfold key_ok, key_text in *. simpl in *. by destruct (simd_from_utf8 b).
  - apply bool_decide_eq_true in Hc. rewrite <- (map_map (fun e => key_text (fst e)) Binary).
    assert (Inj eq eq Binary) by (intros ? ? [=]; done). by apply (NoDup_fmap_2 Binary).
Qed.

Lemma enter_below p d : jdepth p < d -> d <= MAX_DEPTH ->
  enter p = Ok (set_depth p (jdepth p + 1)).
Proof. intros Hd Hm. unfold enter. cbn [jdepth set_depth]. by rewrite (proj2 (Z.ltb_ge _ _)) by lia. Qed.

(** Leaving a container restores the depth. *)
Lemma leave_back p n m : 
  set_depth (adv (adv (set_depth p (jdepth p + 1)) n) m)
    (jdepth (adv (adv (set_depth p (jdepth p + 1)) n) m) - 1) = adv p (n + m).
Proof. unfold set_depth, adv, seek. cbn [jbuf jpos jdepth jutf8]. f_equal; lia. Qed.

Lemma reads_set_depth p d x suf : reads p x suf -> reads (set_depth p d) x suf.
Proof. done. Qed.

Lemma take_drop_mid {A} (l k : list A) : drop (length l) (l ++ k) = k /\ take (length l) (l ++ k) = l.
Proof. by rewrite drop_app_length, take_app_length. Qed.

Lemma zip_map_both {A B C} (f : A -> B) (g : A -> C) l :
  zip (map f l) (map g l) = map (fun x => (f x, g x)) l.
Proof. induction l as [|x l IH]; simpl; [done|]. by rewrite IH. Qed.

Lemma read_back_list l : Forall read_back l -> read_back (List l).
Proof.
  intros IH fuel p b st suf d He Hd Hry Hdep Hs Hr Hfu Hi.
  cbn [encodable json_text distinct_keys normalize] in *. apply andb_true_iff in He as [Hm He].
  apply Z.leb_le in Hm. rewrite length_app in Hfu. cbn [length] in Hfu. rewrite length_app in Hfu.
  cbn [length] in Hfu. destruct fuel as [|fuel]; [lia|]. rewrite value_in_S. cbv zeta.
  rewrite (peek_reads _ _ _ _ Hr). cbn [Z.eqb Pos.eqb]. rewrite (enter_below p d) by done.
  apply reads_cons in Hr. apply (reads_set_depth _ (jdepth p + 1)) in Hr.
  change (set_depth (adv p 1) (jdepth p + 1)) with (adv (set_depth p (jdepth p + 1)) 1) in Hr.
  cbn [b_array Builder_Term].
  destruct l as [|x l].
  - cbn [map joined app] in Hr. rewrite (ws_reads _ _ _ _ Hr), (peek_reads _ _ _ _ Hr) by done.
    cbn [Z.eqb Pos.eqb]. exists b. split; [|done]. rewrite drop_all, firstn_all, leave_back. by destruct st.
  - pose proof He as He0. cbn [forallb] in He0. apply andb_true_iff in He0 as [Hx _].
    pose proof Hry as Hry0. apply ryu_spells_List in Hry0 as [Hrx _].
    destruct (value_head_reads (adv (set_depth p (jdepth p + 1)) 1) (json_text x)
      (joined 1 (map json_text l) ++ [93]) suf) as [-> (c & -> & Hc)];
      [by eapply json_text_head|by cbn [map] in Hr; rewrite joined_0_cons, <- app_assoc in Hr|].
    rewrite (proj2 (Z.eqb_neq _ _)) by done.
    destruct (array_back l x fuel (adv (set_depth p (jdepth p + 1)) 1) b st suf (d + 1))
      as (b1 & -> & Hi1); try done; [cbn [adv seek set_depth jdepth]; lia|lia|].
    exists b1. split; [|done]. cbn [st_keys st_values]. destruct (take_drop_mid (st_values st) (map normalize (x :: l))) as [-> ->].
    rewrite leave_back, !len_app. by destruct st.
Qed.

Lemma read_back_map l : Forall (fun e => read_back (snd e)) l -> read_back (Map l).
Proof.
  intros IH fuel p b st suf d He Hd Hry Hdep Hs Hr Hfu Hi.
  cbn [encodable json_text distinct_keys normalize] in *. apply andb_true_iff in He as [Hm He].
  apply andb_true_iff in He as [Hk He]. apply andb_true_iff in Hd as [Hnd Hd].
  apply bool_decide_eq_true in Hnd. change (fun e => member _) with entry_text in *.
  apply Z.leb_le in Hm. rewrite length_app in Hfu. cbn [length] in Hfu. rewrite length_app in Hfu.
  cbn [length] in Hfu. destruct fuel as [|fuel]; [lia|]. rewrite value_in_S. cbv zeta.
  rewrite (peek_reads _ _ _ _ Hr). cbn [Z.eqb Pos.eqb]. rewrite (enter_below p d) by done.
  apply reads_cons in Hr. apply (reads_set_depth _ (jdepth p + 1)) in Hr.
  change (set_depth (adv p 1) (jdepth p + 1)) with (adv (set_depth p (jdepth p + 1)) 1) in Hr.
  cbn [b_object Builder_Term]. unfold object_open, map_from_arrays.
  destruct l as [|e l].
  - cbn [map joined app] in Hr. rewrite (ws_reads _ _ _ _ Hr), (peek_reads _ _ _ _ Hr) by done.
    cbn [Z.eqb Pos.eqb]. exists b. split; [|done].
    rewrite !drop_all, !firstn_all, leave_back, bool_decide_true by constructor. by destruct st.
  - assert (Hr1 := Hr). cbn [map] in Hr1. rewrite joined_0_cons in Hr1.
    destruct (entry_text_head e) as [y Ey]. rewrite Ey in Hr1. cbn [app] in Hr1.
    rewrite (ws_reads _ _ _ _ Hr1), (peek_reads _ _ _ _ Hr1) by done. cbn [Z.eqb Pos.eqb].
    assert (Hkey : forallb (fun e => key_ok (fst e)) (e :: l) = true)
      by (unfold keys_ok in Hk; bools; done).
    destruct (object_back l e fuel (adv (set_depth p (jdepth p + 1)) 1) b st suf (d + 1))
      as (b1 & -> & Hi1); try done; [cbn [adv seek set_depth jdepth]; lia|lia|].
    exists b1. split; [|done]. cbn [st_keys st_values].
    destruct (take_drop_mid (st_values st) (map (fun e => normalize (snd e)) (e :: l))) as [-> ->].
    destruct (take_drop_mid (st_keys st) (map (fun e => Binary (key_text (fst e))) (e :: l))) as [-> ->].
    rewrite bool_decide_true by by apply keys_spelled_distinct.
    rewrite leave_back, !len_app, zip_map_both. by destruct st.
Qed.

Lemma literal_value fuel p b st suf w c rest v : w = c :: rest -> reads p w suf ->
  (c, w, v) ∈ [(116, TRUE, Atom TRUE); (102, FALSE, Atom FALSE); (110, [110; 117; 108; 108], Atom NIL)] ->
  value_in (S fuel) p b st ordinary = Ok (v, adv p (len w), b, st).
Proof.
  intros -> Hr Hin. rewrite value_in_S. cbv zeta. rewrite (peek_reads _ _ _ _ Hr).
  rewrite !elem_of_cons in Hin. destruct Hin as [E|[E|[E|E]]]; [..|by apply not_elem_of_nil in E].
  all: inversion E; subst; cbn [Z.eqb Pos.eqb]; by rewrite (literal_reads _ _ _ Hr).
Qed.

Lemma string_value fuel p b st suf s : from_utf8_ok s = true -> reads p (json_string s) suf ->
  value_in (S fuel) p b st ordinary = Ok (Binary s, adv p (len (json_string s)), b, st).
Proof.
  intros Hu Hr. rewrite value_in_S. cbv zeta. rewrite (peek_reads _ _ _ _ Hr). cbn [Z.eqb Pos.eqb].
  rewrite (string_reads _ s suf) by (done || by apply utf8_nonneg). cbn [b_string Builder_Term].
  by rewrite cow_of_bytes.
Qed.

Lemma read_back_term t : read_back t.
Proof.
  induction t as [s|n|f|a|l IH| |l IH|l IH|] using Term_nested_ind.
  5: by apply read_back_list.
  6: { apply read_back_map. eapply Forall_impl; [|exact IH]. simpl. tauto. }
  all: intros fuel p b st suf d He Hd Hry Hdep Hs Hr Hfu Hi; pose proof (json_text_head _ _ He Hry) as Hh.
  all: destruct fuel as [|fuel]; [destruct Hh as (c & y & Eh & _); rewrite Eh in Hfu; simpl in Hfu; lia|].
  all: exists b; split; [|done]; cbn [encodable json_text normalize] in *;
    apply andb_true_iff in He as [_ He]; try discriminate He.
  - by apply (string_value _ _ _ _ suf).
  - rewrite (value_number _ _ _ _ suf (decimal_Z n) (number_of n) (adv p (len (decimal_Z n))));
      [|apply decimal_Z_head|done|apply (number_reads_decimal _ _ suf); [bools; lia|done|done]].
    cbn [b_number Builder_Term]. unfold number_of. by destruct (n <=? I64_MAX).
  - apply Forall_cons_1 in Hry as [Hry _].
    rewrite (value_number _ _ _ _ suf (ryu_format_finite f) (Float f) (adv p (len (ryu_format_finite f))));
      [done|by eapply float_text_head|done|by apply (number_reads_float _ _ _ suf)].
  - destruct (bool_decide_reflect (a = NIL)) as [->|]; [|destruct (bool_decide_reflect (a = TRUE)) as [->|];
      [|destruct (bool_decide_reflect (a = FALSE)) as [->|]]]; cbn [orb] in *.
    + eapply literal_value; [done|done|]. rewrite !elem_of_cons. tauto.
    + eapply literal_value; [done|done|]. rewrite !elem_of_cons. tauto.
    + eapply literal_value; [done|done|]. rewrite !elem_of_cons. tauto.
    + apply bool_decide_eq_true in He as [s Es]. rewrite Es in *. cbn [default] in *.
      by apply (string_value _ _ _ _ suf); [apply atom_to_string_utf8 in Es|].
Qed.

Lemma value_not_fuel budget t : forall (out : bytes) d, JsonEncoder.value budget out t d <> Fuel.
Proof.
  induction t as [s|n|f|a|l IH| |l IH|l IH|] using Term_nested_ind; intros out d;
    cbn [JsonEncoder.value]; (destruct (MAX_DEPTH <? d); [done|]).
  - destruct (simd_from_utf8 s); [by destruct (_ <? _)|done].
  - rewrite write_int_vec. destruct (_ && _); [simpl; by destruct (_ <? _)|done].
  - by destruct (_ <? _).
  - do 3 (destruct (bool_decide _); [by destruct (_ <? _)|]).
    destruct (atom_to_string a); [simpl; by destruct (_ <? _)|done].
  - enough (Hl : forall i (o : bytes), JsonEncoder.items_loop (JsonEncoder.value budget) i l o d <> Fuel).
    { destruct (JsonEncoder.items_loop _ _ _ _ _) eqn:E; [by destruct (_ <? _)|done|by apply Hl in E]. }
    induction IH as [|x l Hx Hl IHl]; intros i o; simpl; [done|].
    destruct (JsonEncoder.value _ _ x _) eqn:E; [apply IHl|done|by apply Hx in E].
  - done.
  - enough (Hl : forall i (o : bytes), JsonEncoder.entries_loop (JsonEncoder.value budget) i l o d <> Fuel).
    { destruct (keys_check l out d (JsonEncoder.value budget)) as [[[e ->] _]|[-> _]]; [done|].
      destruct (JsonEncoder.entries_loop _ _ _ _ _) eqn:E; [by destruct (_ <? _)|done|by apply Hl in E]. }
    induction IH as [|[k v] l [_ Hx] Hl IHl]; intros i o; simpl; [done|].
    destruct (JsonEncoder.key_bytes k) eqn:Ek; [|done|by apply key_bytes_not_fuel in Ek]. simpl.
    destruct (JsonEncoder.value _ _ v _) eqn:E; [apply IHl|done|by apply Hx in E].
  - done.
  - done.
Qed.

(** C2. The encoder writes exactly the JSON text of a term, and it answers
    exactly on the terms it documents: valid UTF-8, 64-bit integers, maps whose
    spelled keys do not collide and that are not structs, nesting within the
    limit, and a result within the budget.  Everything else is an error. *)
Theorem encode_exact (budget : Z) (out : bytes) (t : Term) (d : Z) :
  if encodable d t && (len (out ++ json_text t) <=? budget)
  then JsonEncoder.value budget out t d = Ok (out ++ json_text t)
  else exists e, JsonEncoder.value budget out t d = Err e.
Proof.
  destruct (encodable d t && _) eqn:E.
  - apply andb_true_iff in E as [He Hb]. apply Z.leb_le in Hb. by apply encode_complete.
  - destruct (JsonEncoder.value budget out t d) as [o|e|] eqn:Ev; [|by eexists|by apply value_not_fuel in Ev].
    apply encode_sound in Ev as (He & -> & Hb). rewrite He, (proj2 (Z.leb_le _ _) Hb) in E. done.
Qed.

(** C1. What the encoder writes below the outermost depth, the parser reads
    back: the text of a map with distinct keys parses to the same term, with
    atoms and keys turned into binaries, and the key cache stays sound and
    bounded. *)
Theorem term_roundtrip (budget : Z) (t : Term) (d : Z) (text : bytes) (b : TermBuilder) :
  JsonEncoder.value budget [] t d = Ok text -> 1 <= d ->
  distinct_keys t = true -> ryu_spells t -> interned b ->
  exists p b', document (Parser_new text) b = Ok (normalize t, p, b') /\ interned b'.
Proof.
  intros Hv Hd Hk Hry Hi. apply encode_sound in Hv as (He & -> & _). cbn [app].
  destruct (json_text_head _ _ He Hry) as (c & z & Ec & Hw & _).
  assert (Hr : reads (Parser_new (json_text t)) (json_text t) []).
  { split; [|by rewrite app_nil_r]. unfold in_bounds. simpl. pose proof (len_nonneg (json_text t)). lia. }
  unfold document, document_with, document_in, value_top. cbv zeta.
  rewrite (ws_reads _ c z []) by (done || by rewrite <- Ec).
  destruct (read_back_term t (value_fuel (Parser_new (json_text t))) (Parser_new (json_text t)) b Stacks_new
    [] d) as (b' & -> & Hi'); try done.
  { cbn [jdepth Parser_new]. lia. } { unfold value_fuel. cbn [jbuf Parser_new]. lia. }
  rewrite ws_end by by apply reads_adv in Hr. unfold jend. cbn [adv seek jpos jbuf Parser_new].
  rewrite Z.add_0_l, Z.eqb_refl. by do 2 eexists.
Qed.
End Text.

Section Nesting.
Context `{SimdUtf8} `{Itoa} `{Ryu} `{AtomNames} `{Memchr2}.

Definition nested_lists (n : nat) : Term := Nat.iter n (fun t => List [t]) (List []).

(** Encoding from depth zero is one level too generous: 257 nested empty
    lists are written, and the parser does not read them back. *)
Theorem encoder_deeper_than_parser :
  exists text, JsonEncoder.value 1000 [] (nested_lists 256) 0 = Ok text /\
    document (Parser_new text) TermBuilder_new = Fallback.
Proof. eexists. split; [vm_compute; reflexivity|vm_compute; reflexivity]. Qed.
End Nesting.

Section Witnesses.
Import Concrete.

#[local] Program Instance atom_names : AtomNames :=
  {| atom_to_string := fun a => if from_utf8_ok a then Some a else None |}.
Next Obligation. simpl. intros a s. destruct (from_utf8_ok a) eqn:E; [|done]. by intros [= <-]. Qed.

(** [%{"a" => [:ok, -5, 1.5], b: nil}], written at depth 1. *)
Lemma term_roundtrip_witness :
  let t := Map [(Binary [97], List [Atom [111; 107]; Integer (-5); FloatT 4609434218613702656]);
                (Atom [98], Atom NIL)] in
  let t' := Map [(Binary [97], List [Binary [111; 107]; Integer (-5); FloatT 4609434218613702656]);
                 (Binary [98], Atom NIL)] in
  exists p b', document (Parser_new (json_text t)) TermBuilder_new = Ok (t', p, b') /\ interned b'.
Proof.
  intros t t'. assert (E : t' = normalize t) by (vm_compute; reflexivity). rewrite E. apply (term_roundtrip 1000 t 1 (json_text t) TermBuilder_new).
  - vm_compute. reflexivity.
  - lia.
  - vm_compute. reflexivity.
  - constructor; [|constructor]. exists false, [49], [46; 53], [].
    split_and!; [done|right; exists 49, []; split_and!; [done|lia|lia|constructor]|..].
    + right. exists [53]. split_and!; [done|done|constructor; [done|constructor]].
    + by left.
    + by left.
    + vm_compute. reflexivity.
    + vm_compute. reflexivity.
    + vm_compute. reflexivity.
  - split; [constructor|done].
Defined.
End Witnesses.
