(* ===== verification/Labels.v ===== *)
(** The parser of Prometheus label strings of labels.rs: [{name="value",...}]
    with Go-quoted values. *)

From S2P Require Import Prelude Utf8.

Module LabelParser.

(** The cursor: [s] is the input, [i] the next byte. *)
Record Parser : Type := mkParser { s : bytes; i : Z }.
Definition adv (p : Parser) (n : Z) : Parser := mkParser p.(s) (p.(i) + n).

(** A name and its value. *)
Abbreviation Pairs := (list (bytes * Cow)).

(** [None] of the source, and [None] with [*too_many] set. *)
Inductive Failure : Type := Malformed | TooMany.

Definition peek (p : Parser) : option Z := get p.(s) p.(i).

Definition at_end (p : Parser) : bool := p.(i) =? len p.(s).

Definition expect (p : Parser) (c : Z) : option Parser :=
  let* b := peek p in if b =? c then Some (adv p 1) else None.

(** The unread input. *)
Definition rest (p : Parser) : bytes := drop (Z.to_nat p.(i)) p.(s).

Definition is_blank (c : Z) : bool := (c =? 32) || (c =? 9).
Definition ws (p : Parser) : Parser := adv p (prefix_len is_blank (rest p)).

Definition name_start (c : Z) : bool :=
  ((97 <=? c) && (c <=? 122)) || ((65 <=? c) && (c <=? 90)) || (c =? 95).
Definition name_char (c : Z) : bool := name_start c || ((48 <=? c) && (c <=? 57)).

Definition name (p : Parser) : option (bytes * Parser) :=
  let start := p.(i) in
  let* c := peek p in
  if negb (name_start c) then None
  else
    let p := adv p (prefix_len name_char (rest p)) in
    let out := slice p.(s) start p.(i) in
    if from_utf8_ok out then Some (out, p) else None.

Definition take (p : Parser) (n : Z) : option (bytes * Parser) :=
  let* end_ := checked_u64 (p.(i) + n) in
  let* out := get_range p.(s) p.(i) end_ in
  Some (out, adv p n).

(** [u8::is_ascii_hexdigit] and the value of such a digit. *)
Definition hex_digit (d : Z) : option Z :=
  if (48 <=? d) && (d <=? 57) then Some (d - 48)
  else if (97 <=? d) && (d <=? 102) then Some (d - 87)
  else if (65 <=? d) && (d <=? 70) then Some (d - 55)
  else None.
(** [u32::from_str_radix(_, 16)] answers an error on an overflow. *)
Definition hex (b : bytes) : option Z :=
  let* ds := mapO hex_digit b in
  checked_u32 (fold_left (fun acc d => acc * 16 + d) ds 0).

Definition octal (d : Z) : bool := (48 <=? d) && (d <=? 55).

(** The escape whose letter [e] has been read; answers the bytes it stands
    for. *)
Definition escape (p : Parser) (e : Z) : option (bytes * Parser) :=
  if e =? 97 then Some ([7], p)
  else if e =? 98 then Some ([8], p)
  else if e =? 102 then Some ([12], p)
  else if e =? 110 then Some ([10], p)
  else if e =? 114 then Some ([13], p)
  else if e =? 116 then Some ([9], p)
  else if e =? 118 then Some ([11], p)
  else if (e =? 92) || (e =? 34) || (e =? 39) then Some ([e], p)
  else if e =? 120 then
    let* digits := get_range p.(s) p.(i) (p.(i) + 2) in
    let* v := hex digits in
    Some ([v mod 256], adv p 2)
  else if (e =? 117) || (e =? 85) then
    let n := if e =? 117 then 4 else 8 in
    let* digits := get_range p.(s) p.(i) (p.(i) + n) in
    let* cp := hex digits in
    let* ch := char_from_u32 cp in
    Some (encode_utf8 ch, adv p n)
  else if octal e then
    let* (more, p) := take p 2 in
    let digits := e :: more in
    if negb (forallb octal digits) then None
    else
      let v := fold_left (fun acc d => acc * 8 + (d - 48)) digits 0 in
      let* b := checked_u8 v in
      Some ([b], p)
  else None.

(** The loop of [quoted]; every turn consumes at least one byte. *)
Fixpoint quoted_loop (fuel : nat) (start : Z) (owned : option bytes) (p : Parser)
    : res Failure (Cow * Parser) :=
  match fuel with
  | O => Fuel
  | S fuel =>
      let? c := ok_or (peek p) Malformed in
      if c =? 34 then
        let value := match owned with
                     | Some o => Owned o
                     | None => Borrowed (slice p.(s) start p.(i))
                     end in
        Ok (value, adv p 1)
      else if negb (c =? 92) then
        quoted_loop fuel start (option_map (fun o => o ++ [c]) owned) (adv p 1)
      else
        let o := default (slice p.(s) start p.(i)) owned in
        let p := adv p 1 in
        let? e := ok_or (peek p) Malformed in
        let p := adv p 1 in
        let? (b, p) := ok_or (escape p e) Malformed in
        quoted_loop fuel start (Some (o ++ b)) p
  end.

Definition quoted (p : Parser) : res Failure (Cow * Parser) :=
  let? p := ok_or (expect p 34) Malformed in
  quoted_loop (S (length p.(s))) p.(i) None p.

Definition finish (p : Parser) (out : Pairs) : res Failure Pairs :=
  if at_end p then Ok out else Err Malformed.

(** One [name="value"]. *)
Definition pair (p : Parser) : res Failure ((bytes * Cow) * Parser) :=
  let? (n, p) := ok_or (name p) Malformed in
  let p := ws p in
  let? p := ok_or (expect p 61) Malformed in
  let p := ws p in
  let? (v, p) := quoted p in
  Ok ((n, v), p).

(** A turn of the loop after its budget check: the pair, where the parser
    stands, and whether another pair follows. *)
Definition turn (p : Parser) : res Failure ((bytes * Cow) * Parser * bool) :=
  let? (nv, p) := pair p in
  let p := ws p in
  let? c := ok_or (peek p) Malformed in
  if c =? 44 then
    let p := ws (adv p 1) in
    (* PromQL's grammar allows a trailing comma. *)
    if bool_decide (peek p = Some 125) then Ok (nv, adv p 1, false) else Ok (nv, p, true)
  else if c =? 125 then Ok (nv, adv p 1, false)
  else Err Malformed.

Fixpoint pairs_loop (fuel : nat) (max_pairs : Z) (out : Pairs) (p : Parser) : res Failure Pairs :=
  match fuel with
  | O => Fuel
  | S fuel =>
      if max_pairs <=? len out then Err TooMany
      else
        let? (nv, p, more) := turn p in
        let out := out ++ [nv] in
        if more then pairs_loop fuel max_pairs out p else finish p out
  end.

Definition parse_inner (input : bytes) (max_pairs : Z) : res Failure Pairs :=
  let p := mkParser input 0 in
  let? p := ok_or (expect p 123) Malformed in
  let p := ws p in
  if bool_decide (peek p = Some 125) then finish (adv p 1) []
  else pairs_loop (S (length input)) max_pairs [] p.

Definition parse (input : bytes) : opt Pairs :=
  match parse_inner input U64_MAX with
  | Ok l => Ok l
  | Err _ => Nothing
  | Fuel => Fuel
  end.

(** [Err(())] is the pair budget, [Ok(None)] malformed syntax. *)
Definition parse_limited (input : bytes) (max_pairs : Z) : res unit (option Pairs) :=
  match parse_inner input max_pairs with
  | Ok l => Ok (Some l)
  | Err TooMany => Err tt
  | Err Malformed => Ok None
  | Fuel => Fuel
  end.

(** * The cursor moves forward, inside the input *)

Definition inside (p : Parser) : Prop := 0 <= p.(i) <= len p.(s).

(** [q] is at least [n] bytes after [p]. *)
Definition after (n : Z) (p q : Parser) : Prop :=
  q.(s) = p.(s) /\ p.(i) + n <= q.(i) /\ inside q.

Lemma after_trans n m k p q r : after n p q -> after m q r -> k <= n + m -> after k p r.
Proof. unfold after, inside. intros (E & H1 & H2) (E2 & H3 & H4) Hk. split_and!; congruence || lia. Qed.

Lemma len_rest p : inside p -> len (rest p) = len p.(s) - p.(i).
Proof. unfold inside, rest, len. rewrite length_drop. lia. Qed.

Lemma adv_after p n : inside p -> 0 <= n <= len (rest p) -> after n p (adv p n).
Proof. intros Hp Hn. rewrite len_rest in Hn by done. unfold after, inside in *. simpl. split_and!; lia || done. Qed.

Lemma ws_after p : inside p -> after 0 p (ws p).
Proof.
  intros Hp. unfold ws. pose proof (prefix_len_bound is_blank (rest p)).
  destruct (adv_after p (prefix_len is_blank (rest p)) Hp) as (E & H1 & H2); [lia|].
  split_and!; [done|simpl; lia|apply H2..].
Qed.

Lemma peek_lt p c : peek p = Some c -> inside p /\ after 1 p (adv p 1).
Proof. unfold peek. intros H. apply get_Some_bound in H. unfold after, inside. simpl. split_and!; done || lia. Qed.

Lemma expect_after p c q : expect p c = Some q -> q = adv p 1 /\ after 1 p q.
Proof.
  unfold expect. intros H. destruct (peek p) as [b|] eqn:E; [|done]. apply peek_lt in E as [_ E].
  destruct (b =? c); [by injection H as <-|done].
Qed.

Lemma peek_rest p : inside p -> peek p = head (rest p).
Proof.
  unfold inside, peek, get, rest. intros Hp. destruct (Z.ltb_spec (i p) (len (s p))).
  - replace (0 <=? i p) with true by (symmetry; apply Z.leb_le; lia). simpl.
    rewrite <- (Nat.add_0_r (Z.to_nat (i p))) at 1. rewrite <- lookup_drop. by destruct (drop _ _).
  - rewrite andb_false_r, drop_ge by (unfold len in *; lia). done.
Qed.

Lemma name_after p n q : inside p -> name p = Some (n, q) -> after (len n) p q /\ 1 <= len n.
Proof.
  unfold name. intros Hp H. destruct (peek p) as [c|] eqn:Ec; [|done].
  destruct (name_start c) eqn:Es; [|done]. simpl in H. destruct (from_utf8_ok _); [|done].
  injection H as <- <-. pose proof (prefix_len_bound name_char (rest p)) as Hr.
  pose proof (adv_after p _ Hp Hr) as Ha. unfold after, inside in Ha. simpl in Ha.
  rewrite len_slice by (unfold inside in Hp; lia). split.
  - unfold after, inside. simpl. split_and!; done || lia.
  - rewrite peek_rest in Ec by done. destruct (rest p) as [|x l]; [done|]. injection Ec as ->.
    simpl in *. unfold name_char at 1. rewrite Es. cbn [orb].
    pose proof (prefix_len_bound name_char l). lia.
Qed.

Lemma get_range_after p n r : 0 <= n -> get_range p.(s) p.(i) (p.(i) + n) = Some r ->
  len r = n /\ after n p (adv p n).
Proof.
  intros Hn H. apply get_range_Some in H as (-> & H1 & H2). rewrite len_slice by lia.
  unfold after, inside. simpl. split_and!; done || lia.
Qed.

Lemma len_encode_utf8 c : 1 <= len (encode_utf8 c) <= 4.
Proof. unfold encode_utf8. case_goal; unfold len; simpl; lia. Qed.

Lemma escape_after p e b q : inside p -> escape p e = Some (b, q) ->
  after 0 p q /\ len b <= q.(i) - p.(i) + 1.
Proof.
  intros Hp. unfold escape.
  assert (H1 : forall x, Some ([x], p) = Some (b, q) -> after 0 p q /\ len b <= q.(i) - p.(i) + 1).
  { intros x [= <- <-]. unfold after, inside in *. conj. }
  do 7 (destruct (e =? _); [apply H1|]). destruct (_ || _ || _); [apply H1|].
  destruct (e =? 120); [|destruct (_ || _); [|destruct (octal e); [|done]]].
  - destruct (get_range _ _ _) as [ds|] eqn:E; [|done]. apply get_range_after in E as [_ Ha]; [|lia].
    destruct (hex ds); [|done]. intros [= <- <-]. unfold after, inside in *. simpl in *.
    conj.
  - set (n := if e =? 117 then 4 else 8). assert (Hn : 4 <= n) by (unfold n; destruct (e =? 117); lia).
    destruct (get_range _ _ _) as [ds|] eqn:E; [|done]. apply get_range_after in E as [_ Ha]; [|lia].
    destruct (hex ds) as [v|]; [|done]. destruct (char_from_u32 v) as [ch|]; [|done].
    intros [= <- <-]. pose proof (len_encode_utf8 ch). unfold after, inside in *. simpl in *.
    split_and!; done || lia.
  - unfold take. destruct (checked_u64 _) as [en|] eqn:Ec; [|done].
    assert (en = i p + 2) as ->. { unfold checked_u64 in Ec. by case_in Ec; injection Ec as <-. }
    destruct (get_range _ _ _) as [ds|] eqn:E; [|done]. apply get_range_after in E as [_ Ha]; [|lia].
    destruct (negb _); [done|]. destruct (checked_u8 _); [|done]. intros [= <- <-].
    unfold after, inside in *. simpl in *. conj.
Qed.

(** The bytes collected so far never outnumber the bytes read. *)
Definition owned_fits (owned : option bytes) (start : Z) (p : Parser) : Prop :=
  match owned with Some o => len o <= p.(i) - start | None => True end.

Lemma quoted_loop_after fuel start owned p v q :
  inside p -> 0 <= start <= p.(i) -> owned_fits owned start p ->
  quoted_loop fuel start owned p = Ok (v, q) ->
  after 1 p q /\ len (cow_bytes v) + 1 <= q.(i) - start.
Proof.
  revert owned p. induction fuel as [|fuel IH]; intros owned p Hp Hs Ho H; [done|]. simpl in H.
  destruct (peek p) as [c|] eqn:Ec; [|done]. simpl in H. apply peek_lt in Ec as [_ Ha].
  assert (Hp1 : inside (adv p 1)) by apply Ha.
  destruct (c =? 34).
  { injection H as <- <-. split; [done|]. destruct owned as [o|]; simpl in *; [lia|].
    rewrite len_slice; unfold inside in *; simpl in *; lia. }
  destruct (negb (c =? 92)).
  { apply IH in H as [Ha2 Hl]; [|done|simpl; lia|destruct owned; simpl in *; [len_lia|done]].
    split; [by eapply (after_trans 1 1)|done]. }
  destruct (peek (adv p 1)) as [e|] eqn:Ee; [|done]. simpl in H. apply peek_lt in Ee as [_ Ha1].
  destruct (escape _ e) as [[b p2]|] eqn:Eb; [|done]. simpl in H.
  apply escape_after in Eb as [Ha2 Hb]; [|apply Ha1].
  assert (Hchain : after 2 p p2) by (eapply (after_trans 1 1); [done|by eapply (after_trans 1 0)|lia]).
  apply IH in H as [Ha3 Hl].
  - split; [by eapply (after_trans 2 1)|done].
  - apply Ha2.
  - destruct Hchain as (_ & ? & _). lia.
  - simpl in *. rewrite len_app. destruct owned as [o|]; simpl in *; [lia|].
    rewrite len_slice by (unfold inside in *; lia). lia.
Qed.

(** Compose movements. *)
Ltac chain :=
  unfold after, inside in *; cbn [s i adv] in *;
  repeat match goal with H : _ /\ _ |- _ => destruct H end;
  split_and!; first [congruence | lia].

Lemma quoted_after p v q : quoted p = Ok (v, q) -> after (len (cow_bytes v) + 2) p q.
Proof.
  unfold quoted. intros H. destruct (expect p 34) as [p1|] eqn:E; [|done]. cbn [ok_or] in H.
  apply expect_after in E as [-> Ha]. apply quoted_loop_after in H as [H3 Hl];
    [chain|apply Ha|chain|done].
Qed.

Lemma pair_after p n v q : inside p -> pair p = Ok ((n, v), q) ->
  after (len n + len (cow_bytes v) + 3) p q.
Proof.
  unfold pair. intros Hp H. destruct (name p) as [[n1 p1]|] eqn:E1; [|done]. cbn [ok_or] in H.
  apply name_after in E1 as [H1 _]; [|done]. pose proof (ws_after p1 ltac:(apply H1)) as H2.
  destruct (expect (ws p1) 61) as [p2|] eqn:E2; [|done]. cbn [ok_or] in H.
  apply expect_after in E2 as [_ H3]. pose proof (ws_after p2 ltac:(apply H3)) as H4.
  destruct (quoted (ws p2)) as [[v1 p3]| |] eqn:E3; [|done..]. injection H as <- <- <-.
  apply quoted_after in E3. chain.
Qed.

(** ** Termination *)

Definition left (p : Parser) : Z := len p.(s) - p.(i).

Lemma quoted_loop_ends fuel start owned p : inside p -> left p < Z.of_nat fuel ->
  quoted_loop fuel start owned p <> Fuel.
Proof.
  revert owned p. induction fuel as [|fuel IH]; intros owned p Hp Hf; [unfold left, inside in *; lia|].
  simpl. destruct (peek p) as [c|] eqn:Ec; [|done]. simpl. apply peek_lt in Ec as [_ Ha].
  destruct (c =? 34); [done|]. destruct (negb (c =? 92)).
  { apply IH; [apply Ha|]. unfold left in *. simpl. lia. }
  destruct (peek (adv p 1)) as [e|] eqn:Ee; [|done]. simpl. apply peek_lt in Ee as [_ Ha1].
  destruct (escape _ e) as [[b p2]|] eqn:Eb; [|done]. simpl.
  apply escape_after in Eb as [Ha2 _]; [|apply Ha1]. apply IH; [apply Ha2|].
  destruct Ha2 as (E2 & ? & _). unfold left in *. rewrite E2. simpl in *. lia.
Qed.

Lemma label_pair_not_fuel p : inside p -> pair p <> Fuel.
Proof.
  intros Hp. unfold pair, quoted. destruct (name p) as [[n p1]|]; [|done]. cbn [ok_or].
  destruct (expect (ws p1) 61) as [p2|]; [|done]. cbn [ok_or].
  destruct (expect (ws p2) 34) as [p3|] eqn:E; [|done]. cbn [ok_or]. apply expect_after in E as [_ Ha].
  destruct (quoted_loop _ _ _ _) as [[v p4]| |] eqn:E2; [done|done|].
  apply quoted_loop_ends in E2; [done|apply Ha|]. destruct Ha as (_ & ? & Hi).
  unfold left, inside, len in *. lia.
Qed.

Lemma turn_after p n v q more : inside p -> turn p = Ok ((n, v), q, more) ->
  after (len n + len (cow_bytes v) + 4) p q.
Proof.
  unfold turn. intros Hp H. destruct (pair p) as [[[n1 v1] p1]| |] eqn:E1; [|done..].
  apply pair_after in E1 as H1; [|done]. pose proof (ws_after p1 ltac:(apply H1)) as H2.
  destruct (peek (ws p1)) as [c|] eqn:Ec; [|done]. apply peek_lt in Ec as [_ H3]. cbn [ok_or] in H.
  destruct (c =? 44).
  - pose proof (ws_after (adv (ws p1) 1) ltac:(apply H3)) as H4.
    destruct (bool_decide_reflect (peek (ws (adv (ws p1) 1)) = Some 125)) as [E5|]; injection H as <- <- <- <-.
    + apply peek_lt in E5 as [_ H5]. clear E1. chain.
    + clear E1. chain.
  - destruct (c =? 125); [|done]. injection H as <- <- <- <-. clear E1. chain.
Qed.

Lemma turn_not_fuel p : inside p -> turn p <> Fuel.
Proof.
  intros Hp. unfold turn. destruct (pair p) as [[nv p1]| |] eqn:E; [|done|by apply label_pair_not_fuel in E].
  destruct (peek (ws p1)); [cbn [ok_or]|done]. by repeat case_match.
Qed.

Lemma quoted_loop_malformed fuel start owned p e : quoted_loop fuel start owned p = Err e -> e = Malformed.
Proof.
  revert owned p. induction fuel as [|fuel IH]; intros owned p H; [done|]. simpl in H.
  destruct (peek p) as [c|]; [|by injection H as <-]. simpl in H. destruct (c =? 34); [done|].
  destruct (negb (c =? 92)); [eauto|]. destruct (peek (adv p 1)); [|by injection H as <-]. simpl in H.
  destruct (escape _ _) as [[b p2]|]; [|by injection H as <-]. simpl in H. eauto.
Qed.

Lemma turn_malformed p e : turn p = Err e -> e = Malformed.
Proof.
  unfold turn, pair, quoted. intros H.
  destruct (name p) as [[n p1]|]; [|by injection H as <-]. cbn [ok_or] in H.
  destruct (expect (ws p1) 61) as [p2|]; [|by injection H as <-]. cbn [ok_or] in H.
  destruct (expect (ws p2) 34) as [p3|]; [|by injection H as <-]. cbn [ok_or] in H.
  destruct (quoted_loop _ _ _ _) as [[v p4]|e2|] eqn:E; [|injection H as <-; by eapply quoted_loop_malformed|done].
  destruct (peek _); [|by injection H as <-]. cbn [ok_or] in H. repeat case_match; congruence.
Qed.

Lemma pairs_loop_ends fuel max out p : inside p -> left p < Z.of_nat fuel ->
  pairs_loop fuel max out p <> Fuel.
Proof.
  revert out p. induction fuel as [|fuel IH]; intros out p Hp Hf; [unfold left, inside in *; lia|]. simpl.
  destruct (max <=? len out); [done|].
  destruct (turn p) as [[[[n v] q] more]| |] eqn:E; [|done|by apply turn_not_fuel in E].
  apply turn_after in E as Ha; [|done]. destruct more; [|unfold finish; by destruct (at_end q)].
  apply IH; [apply Ha|]. destruct Ha as (Es & ? & _). unfold left in *. rewrite Es.
  pose proof (len_nonneg n). pose proof (len_nonneg (cow_bytes v)). lia.
Qed.

(** The wire bytes a list of labels stands for. *)
Definition label_bytes (l : Pairs) : Z :=
  fold_right (fun nv acc => len (fst nv) + len (cow_bytes (snd nv)) + acc) 0 l.

Lemma label_bytes_app l k : label_bytes (l ++ k) = label_bytes l + label_bytes k.
Proof. induction l as [|nv l IH]; simpl; lia. Qed.

Lemma pairs_loop_size fuel max out p l : inside p -> pairs_loop fuel max out p = Ok l ->
  label_bytes l + 4 * len l <= label_bytes out + 4 * len out + left p /\ len out < len l.
Proof.
  revert out p. induction fuel as [|fuel IH]; intros out p Hp H; [done|]. simpl in H.
  destruct (max <=? len out); [done|].
  destruct (turn p) as [[[[n v] q] more]| |] eqn:E; [|done..]. apply turn_after in E as Ha; [|done].
  assert (Hs : label_bytes (out ++ [(n, v)]) = label_bytes out + len n + len (cow_bytes v))
    by (rewrite label_bytes_app; simpl; lia).
  destruct Ha as (Es & ? & Hq). unfold left in *. destruct more.
  - apply IH in H; [|done]. rewrite Es in H. len_lia.
  - unfold finish in H. destruct (at_end q); [|done]. injection H as <-.
    unfold inside in Hq. rewrite Es in Hq. len_lia.
Qed.

(** A smaller budget changes nothing but the refusal. *)
Lemma pairs_loop_budget fuel max m out p l : m <= max -> len out <= m -> inside p ->
  pairs_loop fuel max out p = Ok l ->
  pairs_loop fuel m out p = if len l <=? m then Ok l else Err TooMany.
Proof.
  intros Hm. revert out p. induction fuel as [|fuel IH]; intros out p Ho Hp H; [done|].
  pose proof (pairs_loop_size _ _ _ _ _ Hp H) as [_ Hl]. simpl in *.
  destruct (Z.leb_spec max (len out)); [done|]. destruct (Z.leb_spec m (len out)).
  { by replace (len l <=? m) with false by (symmetry; apply Z.leb_gt; lia). }
  destruct (turn p) as [[[[n v] q] more]| |] eqn:E; [|done..]. apply turn_after in E; [|done].
  destruct more.
  - apply IH; [len_lia|apply E|done].
  - unfold finish in *. destruct (at_end q); [|done]. injection H as <-.
    by replace (len _ <=? m) with true by (symmetry; apply Z.leb_le; len_lia).
Qed.

Lemma pairs_loop_more fuel m max out p l : m <= max ->
  pairs_loop fuel m out p = Ok l -> pairs_loop fuel max out p = Ok l.
Proof.
  intros Hm. revert out p. induction fuel as [|fuel IH]; intros out p H; [done|]. simpl in *.
  destruct (Z.leb_spec m (len out)); [done|]. destruct (Z.leb_spec max (len out)); [lia|].
  destruct (turn p) as [[[nv q] []]| |]; [by apply IH|done..].
Qed.

Lemma open_after input p : expect (mkParser input 0) 123 = Some p -> inside p /\ inside (ws p) /\
  left (ws p) + 1 <= len input.
Proof.
  intros E. apply expect_after in E as [-> Ha].
  pose proof (ws_after _ (proj2 (proj2 Ha))) as H2. split; [apply Ha|split; [apply H2|]].
  destruct H2 as (Es & ? & _). unfold left. rewrite Es. simpl in *. lia.
Qed.

Lemma parse_inner_ends input max : parse_inner input max <> Fuel.
Proof.
  unfold parse_inner. destruct (expect _ 123) as [p|] eqn:E; [|done]. cbn [ok_or].
  apply open_after in E as (_ & H2 & H3). destruct (bool_decide _).
  - unfold finish. by destruct (at_end _).
  - apply pairs_loop_ends; [done|]. unfold len in *. lia.
Qed.

(** * Go quoting, and its inverse *)

(** One byte inside a string quoted by Go's [strconv.Quote]. *)
Definition hex_char (d : Z) : Z := if d <? 10 then 48 + d else 87 + d.
Definition go_byte (c : Z) : bytes :=
  if c =? 7 then [92; 97] else if c =? 8 then [92; 98] else if c =? 12 then [92; 102]
  else if c =? 10 then [92; 110] else if c =? 13 then [92; 114] else if c =? 9 then [92; 116]
  else if c =? 11 then [92; 118] else if c =? 34 then [92; 34] else if c =? 92 then [92; 92]
  else if (c <? 32) || (c =? 127) then [92; 120; hex_char (c / 16); hex_char (c mod 16)]
  else [c].
Definition go_body (v : bytes) : bytes := concat (map go_byte v) ++ [34].
Definition go_pair (nv : bytes * bytes) : bytes := fst nv ++ [61; 34] ++ go_body (snd nv).

(** [{name="value", ...}]. *)
Fixpoint go_pairs (l : list (bytes * bytes)) : bytes :=
  match l with
  | [] => []
  | [nv] => go_pair nv
  | nv :: l => go_pair nv ++ [44; 32] ++ go_pairs l
  end.
Definition go_labels (l : list (bytes * bytes)) : bytes := [123] ++ go_pairs l ++ [125].

Definition label_name (n : bytes) : Prop :=
  match n with
  | c :: n => name_start c = true /\ Forall (fun c => name_char c = true) n
  | [] => False
  end.

(** [p] stands at [x] followed by [suf]. *)
Definition reads (p : Parser) (x suf : bytes) : Prop := inside p /\ rest p = x ++ suf.

Lemma label_reads_next p x y suf : reads p (x ++ y) suf -> reads (adv p (len x)) y suf.
Proof.
  intros [Hp E]. assert (Hl : len (rest p) = len x + len y + len suf) by (rewrite E; len_lia).
  rewrite len_rest in Hl by done. unfold inside in Hp. split.
  - unfold inside. simpl. len_lia.
  - unfold rest in *. simpl. replace (Z.to_nat (i p + len x)) with (Z.to_nat (i p) + length x)%nat
      by (unfold len; lia). by rewrite <- drop_drop, E, <- app_assoc, drop_app_length.
Qed.
Lemma label_reads_cons p c x suf : reads p (c :: x) suf -> reads (adv p 1) x suf.
Proof. apply (label_reads_next p [c]). Qed.
Lemma label_reads_split p x y suf : reads p (x ++ y) suf -> reads p x (y ++ suf).
Proof. unfold reads. by rewrite app_assoc. Qed.
Lemma label_peek_reads p c x suf : reads p (c :: x) suf -> peek p = Some c.
Proof. intros [Hp E]. by rewrite peek_rest, E. Qed.
Lemma label_expect_reads p c x suf : reads p (c :: x) suf -> expect p c = Some (adv p 1).
Proof. intros E. unfold expect. by rewrite (label_peek_reads _ _ _ _ E), Z.eqb_refl. Qed.
Lemma label_adv_adv p a b : adv (adv p a) b = adv p (a + b).
Proof. unfold adv. simpl. by rewrite Z.add_assoc. Qed.
Lemma label_adv_0 p : adv p 0 = p.
Proof. unfold adv. rewrite Z.add_0_r. by destruct p. Qed.
Lemma label_ws_reads p c x suf : reads p (c :: x) suf -> is_blank c = false -> ws p = p.
Proof. intros [_ E] Hc. unfold ws. rewrite E. simpl. rewrite Hc. apply label_adv_0. Qed.
Lemma label_ws_reads_space p c x suf : reads p (32 :: c :: x) suf -> is_blank c = false -> ws p = adv p 1.
Proof. intros [_ E] Hc. unfold ws. rewrite E. simpl. by rewrite Hc. Qed.

Lemma label_slice_reads p x suf : reads p x suf -> slice p.(s) p.(i) (p.(i) + len x) = x.
Proof.
  intros [_ E]. unfold slice, rest in *. replace (i p + len x - i p) with (len x) by lia.
  rewrite E. unfold len. rewrite Nat2Z.id. apply take_app_length.
Qed.
Lemma label_get_range_reads p x suf : reads p x suf -> get_range p.(s) p.(i) (p.(i) + len x) = Some x.
Proof.
  intros H. pose proof (label_slice_reads _ _ _ H) as E. destruct H as [Hp Er].
  apply get_range_Some. split; [done|]. apply (f_equal len) in Er. rewrite len_rest in Er by done.
  unfold inside in Hp. len_lia.
Qed.

Lemma name_char_ascii c : name_char c = true -> 0 <= c < 128.
Proof.
  unfold name_char, name_start. rewrite !orb_true_iff, !andb_true_iff, !Z.leb_le, Z.eqb_eq. lia.
Qed.

Lemma name_reads p n suf : label_name n -> reads p n (61 :: suf) -> name p = Some (n, adv p (len n)).
Proof.
  intros Hn Hr. unfold name. destruct n as [|c n]; [done|]. destruct Hn as [Hc Hn].
  assert (Ha : Forall (fun c => name_char c = true) (c :: n))
    by (constructor; [unfold name_char; by rewrite Hc|done]).
  rewrite (label_peek_reads _ _ _ _ Hr), Hc. cbn [negb].
  pose proof (label_slice_reads _ _ _ Hr) as Es. destruct Hr as [Hp E]. rewrite E.
  rewrite (prefix_len_app _ (c :: n)) by done. cbn [s i adv]. rewrite Es.
  rewrite from_utf8_ok_ascii; [done|]. eapply Forall_impl; [|exact Ha]. simpl. apply name_char_ascii.
Qed.

(** The bytes Go escapes. *)
Definition escaped : list Z := 34 :: 92 :: 127 :: map Z.of_nat (seq 0 32).

Lemma escaped_spec c : 0 <= c -> go_byte c = [c] /\ c <> 34 /\ c <> 92 \/ c ∈ escaped.
Proof.
  intros H0. destruct (decide (c ∈ escaped)) as [|Hn]; [by right|left].
  unfold escaped in Hn. rewrite !not_elem_of_cons in Hn. destruct Hn as (H1 & H2 & H3 & H4).
  assert (H5 : 32 <= c).
  { apply Z.nlt_ge. intros Hlt. apply H4. apply list_elem_of_In, in_map_iff. exists (Z.to_nat c).
    split; [lia|]. apply in_seq. lia. }
  split; [|lia]. unfold go_byte. rewrite !(proj2 (Z.eqb_neq c _)) by lia.
  by rewrite (proj2 (Z.ltb_ge _ _)) by lia.
Qed.

Lemma escape_reads p c x suf : c ∈ escaped -> reads p (go_byte c ++ x) suf ->
  exists e y, peek p = Some 92 /\ go_byte c = 92 :: e :: y /\ peek (adv p 1) = Some e /\
    escape (adv (adv p 1) 1) e = Some ([c], adv p (len (go_byte c))).
Proof.
  intros Hc Hr. unfold escaped in Hc. cbn [seq map] in Hc.
  repeat (apply elem_of_cons in Hc as [->|Hc]); try by apply not_elem_of_nil in Hc.
  all: match type of Hr with context [go_byte ?c] =>
      let v := eval vm_compute in (go_byte c) in change (go_byte c) with v in * end; cbn [app] in Hr.
  all: assert (Hr2 := label_reads_cons _ _ _ _ Hr); do 2 eexists;
    split; [by apply (label_peek_reads _ _ _ _ Hr)|]; split; [reflexivity|];
    split; [by apply (label_peek_reads _ _ _ _ Hr2)|]; apply label_reads_cons in Hr2;
    unfold escape; cbn [Z.eqb Pos.eqb orb].
  all: first [ rewrite label_adv_adv; reflexivity
    | match type of Hr2 with reads ?q (?a :: ?b :: ?z) ?sf =>
        pose proof (label_get_range_reads q [a; b] _ (label_reads_split q [a; b] z sf Hr2)) as Eg end;
      change (len [_; _]) with 2 in Eg; rewrite Eg; vm_compute (hex _); rewrite !label_adv_adv; reflexivity ].
Qed.

(** What [quoted] has collected: the owned copy, or the input since [start]. *)
Definition collected (owned : option bytes) (start : Z) (p : Parser) : bytes :=
  default (slice p.(s) start p.(i)) owned.

Lemma slice_snoc p start c x suf : 0 <= start <= p.(i) -> reads p (c :: x) suf ->
  slice p.(s) start (p.(i) + 1) = slice p.(s) start p.(i) ++ [c].
Proof.
  intros Hs [Hp E]. unfold slice. replace (Z.to_nat (i p + 1 - start)) with (S (Z.to_nat (i p - start))) by lia.
  apply take_S_r. rewrite lookup_drop.
  replace (Z.to_nat start + Z.to_nat (i p - start))%nat with (Z.to_nat (i p) + 0)%nat by lia.
  unfold rest in E. by rewrite <- lookup_drop, E.
Qed.

Lemma quoted_loop_reads v fuel start owned p suf :
  Forall (fun c => 0 <= c) v -> (length v < fuel)%nat -> 0 <= start <= p.(i) -> reads p (go_body v) suf ->
  exists c, quoted_loop fuel start owned p = Ok (c, adv p (len (go_body v))) /\
    cow_bytes c = collected owned start p ++ v.
Proof.
  intros Hv. revert fuel owned p.
  induction Hv as [|c v Hc Hv IH]; intros [|fuel] owned p Hf Hs Hr; try (simpl in Hf; lia).
  - cbn [quoted_loop]. rewrite (label_peek_reads _ _ _ _ Hr). cbn [ok_or Z.eqb Pos.eqb].
    eexists. split; [done|]. rewrite app_nil_r. by destruct owned.
  - assert (Eb : go_body (c :: v) = go_byte c ++ go_body v)
      by (unfold go_body; cbn [map concat]; by rewrite <- app_assoc).
    rewrite Eb in *. cbn [quoted_loop]. simpl in Hf.
    destruct (escaped_spec c Hc) as [(Eg & H1 & H2)|Hin].
    + rewrite Eg in *. rewrite (label_peek_reads _ _ _ _ Hr). cbn [ok_or].
      rewrite !(proj2 (Z.eqb_neq _ _)) by done. cbn [negb].
      destruct (IH fuel (option_map (fun o => o ++ [c]) owned) (adv p 1)) as (r & -> & Er);
        [lia|simpl; lia|by apply label_reads_cons in Hr|].
      exists r. split; [rewrite label_adv_adv; do 3 f_equal; len_lia|]. rewrite Er. unfold collected.
      destruct owned as [o|]; simpl; [by rewrite <- app_assoc|].
      rewrite (slice_snoc _ _ _ _ _ Hs Hr), <- app_assoc. done.
    + destruct (escape_reads _ _ _ _ Hin Hr) as (e & y & -> & _ & E1 & E2). cbn [ok_or Z.eqb Pos.eqb negb].
      rewrite E1. cbn [ok_or]. rewrite E2. cbn [ok_or]. apply label_reads_next in Hr.
      destruct (IH fuel (Some (default (slice (s p) start (i p)) owned ++ [c])) (adv p (len (go_byte c))))
        as (r & -> & Er); [lia|pose proof (len_nonneg (go_byte c)); simpl; lia|done|].
      exists r. split; [rewrite label_adv_adv; do 3 f_equal; len_lia|]. rewrite Er. unfold collected. simpl.
      by rewrite <- app_assoc.
Qed.

Lemma pair_reads p n v suf : label_name n -> Forall (fun c => 0 <= c) v -> reads p (go_pair (n, v)) suf ->
  exists c, pair p = Ok ((n, c), adv p (len (go_pair (n, v)))) /\ cow_bytes c = v.
Proof.
  intros Hn Hv Hr. unfold pair, go_pair in *. cbn [fst snd] in *.
  rewrite (name_reads p n ((34 :: go_body v) ++ suf)); [|done|].
  2: { destruct Hr as [Hp E]. split; [done|]. by rewrite E, <- app_assoc. }
  cbn [ok_or]. apply label_reads_next in Hr. cbn [app] in Hr.
  rewrite (label_ws_reads _ _ _ _ Hr), (label_expect_reads _ _ _ _ Hr) by done. cbn [ok_or]. apply label_reads_cons in Hr.
  rewrite (label_ws_reads _ _ _ _ Hr) by done. unfold quoted. rewrite (label_expect_reads _ _ _ _ Hr). cbn [ok_or].
  apply label_reads_cons in Hr.
  destruct (quoted_loop_reads v (S (length (s (adv (adv (adv p (len n)) 1) 1))))
    (i (adv (adv (adv p (len n)) 1) 1)) None (adv (adv (adv p (len n)) 1) 1) suf) as (c & -> & Ec); [done| |..|done|].
  - destruct Hr as [Hp E]. pose proof (len_rest _ Hp) as Hl. rewrite E in Hl. unfold inside in Hp.
    assert (Hg : len v <= len (concat (map go_byte v))).
    { clear. induction v as [|c v IH]; [done|]. cbn [map concat]. rewrite len_app, len_cons.
      assert (1 <= len (go_byte c)); [|lia]. unfold go_byte.
      repeat match goal with |- context [if ?c then _ else _] => destruct c end; unfold len; simpl; lia. }
    unfold go_body in Hl. enough (len v <= len (s (adv (adv (adv p (len n)) 1) 1))) by (unfold len in *; lia).
    len_lia.
  - destruct Hr as [Hp _]. unfold inside in Hp. lia.
  - exists c. split; [|rewrite Ec; unfold collected; simpl; unfold slice; by rewrite Z.sub_diag].
    rewrite !label_adv_adv. do 3 f_equal. len_lia.
Qed.

Definition same_labels (l : list (bytes * bytes)) (r : Pairs) : Prop :=
  map (fun nc => (fst nc, cow_bytes (snd nc))) r = l.

Definition labels_ok (l : list (bytes * bytes)) : Prop :=
  Forall (fun nv => label_name (fst nv) /\ Forall (fun c => 0 <= c) (snd nv)) l.

Lemma go_pair_head n v : label_name n -> exists c y, go_pair (n, v) = c :: y /\ name_start c = true.
Proof. destruct n as [|c n]; [done|]. intros [Hc _]. by do 2 eexists. Qed.

Lemma name_start_plain c : name_start c = true -> is_blank c = false /\ c <> 125.
Proof.
  unfold name_start, is_blank. rewrite !orb_true_iff, !andb_true_iff, !Z.leb_le, !Z.eqb_eq.
  rewrite orb_false_iff, !Z.eqb_neq. lia.
Qed.

Lemma go_pairs_cons2 a b l : go_pairs (a :: b :: l) = go_pair a ++ [44; 32] ++ go_pairs (b :: l).
Proof. done. Qed.

Lemma pairs_loop_reads l nv fuel max out p :
  labels_ok (nv :: l) -> len out + len (nv :: l) <= max -> (length (nv :: l) <= fuel)%nat ->
  reads p (go_pairs (nv :: l) ++ [125]) [] ->
  exists r, pairs_loop fuel max out p = Ok (out ++ r) /\ same_labels (nv :: l) r.
Proof.
  revert nv fuel out p. induction l as [|nv2 l IH]; intros [n v] fuel out p Hl Hm Hf Hr.
  all: apply Forall_cons_1 in Hl as [[Hn Hv] Hl]; cbn [fst snd] in *.
  all: destruct fuel as [|fuel]; [simpl in Hf; lia|]; cbn [pairs_loop].
  all: replace (max <=? len out) with false by (symmetry; apply Z.leb_gt; len_lia).
  all: unfold turn.
  - cbn [go_pairs] in Hr.
    destruct (pair_reads p n v [125]) as (c & -> & Ec); [done|done|by apply label_reads_split in Hr|].
    apply label_reads_next in Hr. rewrite (label_ws_reads _ _ _ _ Hr), (label_peek_reads _ _ _ _ Hr) by done.
    cbn [ok_or Z.eqb Pos.eqb]. unfold finish, at_end. apply label_reads_cons in Hr as [Hp E].
    apply (f_equal len) in E. rewrite len_rest in E by done.
    replace (_ =? _) with true by (symmetry; apply Z.eqb_eq; change (len ([] ++ [])) with 0 in E; lia).
    exists [(n, c)]. split; [done|]. unfold same_labels. simpl. by rewrite Ec.
  - rewrite go_pairs_cons2, <- app_assoc in Hr.
    destruct (pair_reads p n v ((([44; 32] ++ go_pairs (nv2 :: l)) ++ [125]) ++ []))
      as (c & -> & Ec); [done|done|by apply label_reads_split in Hr|].
    apply label_reads_next in Hr. rewrite <- app_assoc in Hr. cbn [app] in Hr.
    rewrite (label_ws_reads _ _ _ _ Hr), (label_peek_reads _ _ _ _ Hr) by done. cbn [ok_or Z.eqb Pos.eqb].
    apply label_reads_cons in Hr. destruct nv2 as [n2 v2].
    assert (Hn2 : label_name n2) by (apply Forall_cons_1 in Hl as [[? _] _]; done).
    assert (Hh : exists c2 y, go_pairs ((n2, v2) :: l) ++ [125] = c2 :: y /\ name_start c2 = true).
    { destruct (go_pair_head n2 v2 Hn2) as (c2 & y & Ey & Hc2). destruct l; cbn [go_pairs]; rewrite Ey;
        simpl; by do 2 eexists. }
    destruct Hh as (c2 & y & Ey & Hc2). destruct (name_start_plain _ Hc2) as [Hb H125].
    assert (Hws : ws (adv (adv p (len (go_pair (n, v)))) 1) = adv (adv (adv p (len (go_pair (n, v)))) 1) 1).
    { rewrite Ey in Hr. by apply (label_ws_reads_space _ _ _ _ Hr). }
    rewrite Hws. apply label_reads_cons in Hr. rewrite bool_decide_false.
    2: { rewrite Ey in Hr. rewrite (label_peek_reads _ _ _ _ Hr). congruence. }
    destruct (IH (n2, v2) fuel (out ++ [(n, c)]) (adv (adv (adv p (len (go_pair (n, v)))) 1) 1)) as (r & -> & Er);
      [done|len_lia|simpl in *; lia|done|].
    exists ((n, c) :: r). split; [by rewrite <- app_assoc|]. unfold same_labels in *. simpl.
    by rewrite Ec, Er.
Qed.

Lemma go_pairs_count l : labels_ok l -> (length l <= length (go_pairs l))%nat.
Proof.
  induction 1 as [|nv l [Hn _] Hl IH]; [done|].
  assert (1 <= length (go_pair nv))%nat by (unfold go_pair; rewrite length_app; simpl; lia).
  destruct l; [done|]. cbn [go_pairs] in *. rewrite !length_app. simpl in *. lia.
Qed.

Lemma parse_inner_reads l max : labels_ok l -> len l <= max ->
  exists r, parse_inner (go_labels l) max = Ok r /\ same_labels l r.
Proof.
  intros Hl Hm. unfold parse_inner.
  assert (Hr : reads (mkParser (go_labels l) 0) (go_labels l) [])
    by (split; [unfold inside; simpl; len_lia|by rewrite app_nil_r]).
  rewrite (label_expect_reads _ _ _ _ Hr). cbn [ok_or]. apply label_reads_cons in Hr.
  destruct l as [|nv l].
  - by exists [].
  - destruct (go_pair_head (fst nv) (snd nv)) as (c & y & Ey & Hc);
      [by apply Forall_cons_1 in Hl as [[? _] _]|]. destruct (name_start_plain _ Hc) as [Hb H125].
    assert (Hh : exists z, go_pairs (nv :: l) ++ [125] = c :: z).
    { destruct nv as [n v]. cbn [fst snd] in Ey. destruct l; cbn [go_pairs]; rewrite Ey; simpl; by eexists. }
    destruct Hh as [z Ez].
    assert (Hq : ws (adv (mkParser (go_labels (nv :: l)) 0) 1) = adv (mkParser (go_labels (nv :: l)) 0) 1 /\
      peek (adv (mkParser (go_labels (nv :: l)) 0) 1) = Some c).
    { rewrite Ez in Hr. split; [exact (label_ws_reads _ _ _ _ Hr Hb)|exact (label_peek_reads _ _ _ _ Hr)]. }
    destruct Hq as [-> ->]. rewrite bool_decide_false by congruence.
    apply (pairs_loop_reads l nv _ max [] _ Hl); [len_lia| |done].
    pose proof (go_pairs_count _ Hl). unfold go_labels. rewrite !length_app. simpl in *. lia.
Qed.
Lemma parse_limited_eq (input : bytes) (max_pairs : Z) :
  0 <= max_pairs <= U64_MAX ->
  match parse input with
  | Ok l => parse_limited input max_pairs =
      if (len l <=? max_pairs) || bool_decide (l = []) then Ok (Some l) else Err tt
  | Err _ => parse_limited input max_pairs = Ok None \/ parse_limited input max_pairs = Err tt
  | Fuel => False
  end.
Proof.
  intros Hm. unfold parse, parse_limited.
  pose proof (parse_inner_ends input max_pairs) as Hend.
  destruct (parse_inner input U64_MAX) as [l|e|] eqn:E; [| |by apply parse_inner_ends in E].
  - unfold parse_inner in *. destruct (expect _ 123) as [p|] eqn:Ep; [|done]. cbn [ok_or] in *.
    apply open_after in Ep as (_ & Hp & _). destruct (bool_decide (peek (ws p) = Some 125)).
    + rewrite E. unfold finish in E. destruct (at_end _); [|done]. injection E as <-.
      by rewrite bool_decide_true, orb_true_r by done.
    + pose proof (pairs_loop_size _ _ _ _ _ Hp E) as [_ Hl].
      rewrite (pairs_loop_budget _ U64_MAX max_pairs [] _ l), bool_decide_false, orb_false_r;
        [by destruct (len l <=? max_pairs)|by intros ->|lia|len_lia|done|done].
  - destruct (parse_inner input max_pairs) as [l|[]|] eqn:E2; [|by left|by right|done].
    exfalso. unfold parse_inner in *. destruct (expect _ 123) as [p|] eqn:Ep; [|done]. cbn [ok_or] in *.
    destruct (bool_decide (peek (ws p) = Some 125)); [congruence|].
    apply (pairs_loop_more _ _ U64_MAX) in E2; [congruence|lia].
Qed.
End LabelParser.

Import LabelParser.

(** Every label set written with Go quoting parses back to itself: names
    and values, in order, whatever bytes the values hold. *)
Theorem labels_roundtrip (l : list (bytes * bytes)) :
  labels_ok l -> len l <= U64_MAX ->
  exists r, parse (go_labels l) = Ok r /\ map (fun nc => (fst nc, cow_bytes (snd nc))) r = l.
Proof.
  intros Hl Hm. unfold parse. destruct (parse_inner_reads l U64_MAX Hl Hm) as (r & -> & Hr). by exists r.
Qed.

(** A plain value, and one with a newline, a control byte, a quote and UTF-8. *)
Lemma labels_roundtrip_witness :
  exists r, parse (go_labels [([97], [49]); ([98; 95; 99], [120; 10; 1; 34; 195; 169])]) = Ok r /\
    map (fun nc => (fst nc, cow_bytes (snd nc))) r = [([97], [49]); ([98; 95; 99], [120; 10; 1; 34; 195; 169])].
Proof.
  apply (labels_roundtrip [([97], [49]); ([98; 95; 99], [120; 10; 1; 34; 195; 169])]).
  - repeat constructor; simpl; try lia; try done.
  - vm_compute. discriminate.
Defined.

(** The pair budget only refuses: on every input the limited parser
    terminates, answers what the unlimited parser answers when the labels fit
    the budget, refuses them when they do not, and on malformed text answers
    "malformed" or "too many". *)
Theorem parse_limited_refines (input : bytes) (max_pairs : Z) :
  0 <= max_pairs <= U64_MAX ->
  match parse input with
  | Ok l => parse_limited input max_pairs =
      if (len l <=? max_pairs) || bool_decide (l = []) then Ok (Some l) else Err tt
  | Err _ => parse_limited input max_pairs = Ok None \/ parse_limited input max_pairs = Err tt
  | Fuel => False
  end.
Proof. apply parse_limited_eq. Qed.

Lemma parse_limited_refines_witness :
  parse_limited (go_labels [([97], [49]); ([98], [50])]) 1 = Err tt /\
  parse_limited (go_labels [([97], [49])]) 1 = Ok (Some [([97], Borrowed [49])]).
Proof.
  split.
  - pose proof (parse_limited_refines (go_labels [([97], [49]); ([98], [50])]) 1 ltac:(done)) as H.
    vm_compute in H. exact H.
  - pose proof (parse_limited_refines (go_labels [([97], [49])]) 1 ltac:(done)) as H.
    vm_compute in H. exact H.
Defined.

(** Decoded labels are never larger than their wire form: each pair costs
    its name, its value and four more bytes of the input, which bounds both the
    number of pairs and the memory a request can claim. *)
Theorem parse_size (input : bytes) (l : Pairs) :
  parse input = Ok l -> label_bytes l + 4 * len l + 1 <= len input \/ l = [].
Proof.
  unfold parse. destruct (parse_inner input U64_MAX) as [r| |] eqn:E; [|done..]. intros [= <-].
  unfold parse_inner in E. destruct (expect _ 123) as [p|] eqn:Ep; [|done]. cbn [ok_or] in E.
  apply open_after in Ep as (_ & Hp & Hl). destruct (bool_decide _).
  - right. unfold finish in E. destruct (at_end _); [|done]. by injection E as <-.
  - left. apply pairs_loop_size in E as [E _]; [|done]. simpl in E. len_lia.
Qed.

Lemma parse_size_witness : 2 + 4 * 1 + 1 <= len (go_labels [([97], [49])]) \/ [([97], Borrowed [49])] = [].
Proof. apply (parse_size (go_labels [([97], [49])]) [([97], Borrowed [49])]). vm_compute. reflexivity. Defined.
