(* ===== verification/Loki.v ===== *)
(** Decoding of Loki's push protobuf, loki.rs: requests to streams to entries,
    with per-record and per-stream rejection counted. *)

From S2P Require Import Prelude Utf8 External Wire Labels.

Record Record_ : Type := mkRecord {
  timestamp_ns : Z;
  line : bytes;
  trace_id : option bytes;
  span_id : option bytes;
  attributes : list (bytes * bytes)
}.

Record Stream : Type := mkStream { labels : LabelParser.Pairs; records : list Record_ }.

Record Decoded : Type := mkDecoded { streams : list Stream; rejected : Z }.

(** [position(|x| f(x))]. *)
Fixpoint position {A} (f : A -> bool) (l : list A) : option nat :=
  match l with
  | [] => None
  | x :: l => if f x then Some 0%nat else option_map S (position f l)
  end.

Definition label (st : Stream) (name : bytes) : option nat :=
  position (fun '(k, _) => bytes_eqb k name) st.(labels).

Definition SERVICE_NAME : bytes := [115; 101; 114; 118; 105; 99; 101; 95; 110; 97; 109; 101].
Definition SERVICE : bytes := [115; 101; 114; 118; 105; 99; 101].
Definition LEVEL : bytes := [108; 101; 118; 101; 108].
Definition DETECTED_LEVEL : bytes := [100; 101; 116; 101; 99; 116; 101; 100; 95] ++ LEVEL.
Definition TRACE_ID : bytes := [116; 114; 97; 99; 101; 95; 105; 100].
Definition SPAN_ID : bytes := [115; 112; 97; 110; 95; 105; 100].

Definition or_else {A} (a b : option A) : option A := match a with Some x => Some x | None => b end.

Definition service (st : Stream) : option nat := or_else (label st SERVICE_NAME) (label st SERVICE).
Definition level (st : Stream) : option nat := or_else (label st LEVEL) (label st DETECTED_LEVEL).

(** Keep the first position of each key and the last value. *)
Definition last_wins_step {T} (key : T -> bytes) (out : list T) (item : T) : list T :=
  match position (fun seen => bytes_eqb (key seen) (key item)) out with
  | Some i => <[i := item]> out
  | None => out ++ [item]
  end.
Definition last_wins {T} (items : list T) (key : T -> bytes) : list T :=
  fold_left (last_wins_step key) items [].

Definition decode_pair (buf : bytes) : opt (bytes * bytes) :=
  fields tt (fun '(name, value) field v =>
    match field, v with
    | 1, Bytes b => Ok (b, value)
    | 2, Bytes b => Ok (name, b)
    | _, _ => Ok (name, value)
    end) ([], []) buf.

(** [Ok None] is an out-of-range instant. *)
Definition decode_timestamp (buf : bytes) : opt (option Z) :=
  let? (seconds, nanos) := fields tt (fun '(seconds, nanos) field v =>
    match field, v with
    | 1, Varint v => Ok (v, nanos)
    | 2, Varint v => Ok (seconds, v)
    | _, _ => Ok (seconds, nanos)
    end) (0, 0) buf in
  if 1000000000 <=? nanos then Ok None
  else Ok (let* s := checked_u64 (seconds * 1000000000) in checked_u64 (s + nanos)).

Definition non_empty (v : bytes) : option bytes := match v with [] => None | _ => Some v end.

(** The loop that lifts the identifiers out of the metadata. *)
Definition lift_ids (metadata : list (bytes * bytes)) :
    option bytes * option bytes * list (bytes * bytes) :=
  fold_left (fun '(trace, span, attrs) '(k, v) =>
    if bytes_eqb k TRACE_ID then (non_empty v, span, attrs)
    else if bytes_eqb k SPAN_ID then (trace, non_empty v, attrs)
    else (trace, span, attrs ++ [(k, v)])) metadata (None, None, []).

Section Decoding.
Context `{SimdUtf8}.

Definition entry_utf8 (line : bytes) (metadata : list (bytes * bytes)) : bool :=
  simd_from_utf8 line && forallb (fun '(k, v) => simd_from_utf8 k && simd_from_utf8 v) metadata.

(** [Ok None] is a well-formed entry that is rejected on its own. *)
Definition decode_entry (buf : bytes) : opt (option Record_) :=
  let? (timestamp, line, metadata) := fields tt (fun '(timestamp, line, metadata) field v =>
    match field, v with
    | 1, Bytes t => let? ts := decode_timestamp t in Ok (ts, line, metadata)
    | 2, Bytes l => Ok (timestamp, l, metadata)
    | 3, Bytes p => let? kv := decode_pair p in Ok (timestamp, line, metadata ++ [kv])
    | _, _ => Ok (timestamp, line, metadata)
    end) (None, [], []) buf in
  match timestamp, entry_utf8 line metadata with
  | Some ts, true =>
      let '(trace, span, attrs) := lift_ids (last_wins metadata fst) in
      Ok (Some (mkRecord ts line trace span attrs))
  | _, _ => Ok None
  end.

Definition parse_labels (raw : bytes) : opt LabelParser.Pairs :=
  let? parsed := LabelParser.parse raw in
  if negb (forallb (fun '(_, v) => simd_from_utf8 (cow_bytes v)) parsed) then Nothing
  else Ok (last_wins parsed fst).

(** The fields of a stream: the last labels and the entries in order. *)
Definition stream_fields (buf : bytes) : opt (bytes * list bytes) :=
  fields tt (fun '(labels_raw, entries) field v =>
    match field, v with
    | 1, Bytes l => Ok (l, entries)
    | 2, Bytes e => Ok (labels_raw, entries ++ [e])
    | _, _ => Ok (labels_raw, entries)
    end) ([], []) buf.

Definition decode_stream (buf : bytes) (out : Decoded) : opt Decoded :=
  let? (labels_raw, entries) := stream_fields buf in
  let? (recs, rej) := foldM (fun '(recs, rej) e =>
    let? r := decode_entry e in
    match r with
    | Some record => Ok (recs ++ [record], rej)
    | None => Ok (recs, rej + 1)
    end) ([], 0) entries in
  match parse_labels labels_raw with
  | Ok ls => Ok (mkDecoded (out.(streams) ++ [mkStream ls recs]) (out.(rejected) + rej))
  | Err _ => Ok (mkDecoded out.(streams) (out.(rejected) + len entries))
  | Fuel => Fuel
  end.

Definition decode (buf : bytes) : opt Decoded :=
  fields tt (fun out field v =>
    match field, v with
    | 1, Bytes stream => decode_stream stream out
    | _, _ => Ok out
    end) (mkDecoded [] 0) buf.
End Decoding.

(** * What the decoder answers *)

(** Case analysis on a small field number. *)
Ltac by_field f v := destruct f as [|[[?|?|]|[?|?|]|]|?], v; reflexivity.

(** ** Deduplication *)

Section LastWins.
Context {T : Type} (key : T -> bytes).

(** The value of a key, and the keys in order. *)
Definition find_key (k : bytes) (l : list T) : option T := find (fun x => bytes_eqb (key x) k) l.
Definition put (acc : option T) (k : bytes) (x : T) : option T := if bytes_eqb (key x) k then Some x else acc.
(** The keys in order of first appearance. *)
Fixpoint first_keys (seen ks : list bytes) : list bytes :=
  match ks with
  | [] => seen
  | k :: ks => first_keys (if bool_decide (k ∈ seen) then seen else seen ++ [k]) ks
  end.

Lemma step_cons y out item : last_wins_step key (y :: out) item =
  if bytes_eqb (key y) (key item) then item :: out else y :: last_wins_step key out item.
Proof.
  unfold last_wins_step. cbn [position]. destruct (bytes_eqb (key y) (key item)); [done|].
  by destruct (position _ out).
Qed.

Lemma step_find k out item : find_key k (last_wins_step key out item) = put (find_key k out) k item.
Proof.
  induction out as [|y out IH]; [done|]. rewrite step_cons. unfold find_key, put in *.
  destruct (bytes_eqb (key y) (key item)) eqn:E; simpl.
  - apply bytes_eqb_eq in E. rewrite E. by destruct (bytes_eqb (key item) k).
  - destruct (bytes_eqb (key y) k) eqn:Ek; [|done]. destruct (bytes_eqb (key item) k) eqn:Ei; [|done].
    apply bytes_eqb_eq in Ek as Ek', Ei as Ei'. exfalso. rewrite Ek', Ei' in E.
    by rewrite (proj2 (bytes_eqb_eq k k) eq_refl) in E.
Qed.

Lemma step_keys out item : map key (last_wins_step key out item) =
  if bool_decide (key item ∈ map key out) then map key out else map key out ++ [key item].
Proof.
  induction out as [|y out IH]; [done|]. rewrite step_cons.
  destruct (bytes_eqb (key y) (key item)) eqn:E; cbn [map].
  - apply bytes_eqb_eq in E. rewrite bool_decide_true by (rewrite E; left). by rewrite E.
  - assert (Hne : key item <> key y) by (intros Hk; rewrite Hk, (proj2 (bytes_eqb_eq (key y) (key y)) eq_refl) in E; done).
    rewrite IH. destruct (bool_decide_reflect (key item ∈ map key out)) as [Hin|Hin].
    + by rewrite bool_decide_true by by right.
    + rewrite bool_decide_false; [done|]. by apply not_elem_of_cons.
Qed.

Lemma last_wins_fold items out :
  (forall k, find_key k (fold_left (last_wins_step key) items out) =
    fold_left (fun acc x => put acc k x) items (find_key k out)) /\
  map key (fold_left (last_wins_step key) items out) = first_keys (map key out) (map key items).
Proof.
  revert out. induction items as [|x items IH]; intros out; simpl; [done|].
  destruct (IH (last_wins_step key out x)) as [H1 H2]. split.
  - intros k. by rewrite H1, step_find.
  - by rewrite H2, step_keys.
Qed.

Lemma first_keys_nodup ks seen : NoDup seen -> NoDup (first_keys seen ks).
Proof.
  revert seen. induction ks as [|k ks IH]; intros seen Hs; simpl; [done|]. apply IH.
  destruct (bool_decide_reflect (k ∈ seen)) as [|Hn]; [done|]. apply list.NoDup_app.
  split_and!; [done| |apply NoDup_singleton]. intros x Hx Hk. apply list_elem_of_singleton in Hk as ->. done.
Qed.

Lemma last_wins_nodup items : NoDup (map key (last_wins items key)).
Proof.
  unfold last_wins. destruct (last_wins_fold items []) as [_ ->]. apply first_keys_nodup. constructor.
Qed.

Lemma last_wins_incl items x : x ∈ last_wins items key -> x ∈ items.
Proof.
  unfold last_wins. enough (G : forall out, x ∈ fold_left (last_wins_step key) items out -> x ∈ items \/ x ∈ out).
  { intros Hx. apply G in Hx as [|Hx]; [done|]. by apply not_elem_of_nil in Hx. }
  induction items as [|y items IH]; intros out Hx; simpl in *; [by right|].
  apply IH in Hx as [Hx|Hx]; [left; by right|]. unfold last_wins_step in Hx.
  destruct (position _ out) as [j|].
  - apply list_elem_of_lookup in Hx as [n Hn]. apply list_lookup_insert_Some in Hn as [(_ & -> & _)|[_ Hn]].
    + left. left.
    + right. by eapply list_elem_of_lookup_2.
  - apply elem_of_app in Hx as [Hx|Hx]; [by right|]. apply list_elem_of_singleton in Hx as ->. left. left.
Qed.

Lemma last_wins_length items : len (last_wins items key) <= len items.
Proof.
  unfold last_wins. enough (G : forall out, len (fold_left (last_wins_step key) items out) <= len items + len out)
    by (specialize (G []); len_lia).
  induction items as [|y items IH]; intros out; simpl; [len_lia|]. specialize (IH (last_wins_step key out y)).
  assert (len (last_wins_step key out y) <= len out + 1); [|len_lia].
  unfold last_wins_step. destruct (position _ out); [unfold len; rewrite length_insert; lia|len_lia].
Qed.

(** Deduplication is a map: each key keeps the place of its first
    occurrence, once, and the value of its last. *)
Theorem last_wins_map (items : list T) :
  NoDup (map key (last_wins items key)) /\
  map key (last_wins items key) = first_keys [] (map key items) /\
  forall k, find_key k (last_wins items key) = fold_left (fun acc x => put acc k x) items None.
Proof.
  split; [apply last_wins_nodup|]. unfold last_wins. destruct (last_wins_fold items []) as [H1 H2]. by split.
Qed.
End LastWins.

(** ** Only wire corruption fails a request *)

Lemma decode_pair_answers buf :
  if intact buf then exists kv, decode_pair buf = Ok kv else decode_pair buf = Nothing.
Proof.
  pose proof (fields_answers (fun _ => true) (fun '(name, value) field v =>
    match field, v with
    | 1, Bytes b => Ok (b, value) | 2, Bytes b => Ok (name, b) | _, _ => Ok (name, value) end)
    ([], []) buf) as H. replace (forallb _ _) with true in H.
  - rewrite andb_true_r in H. apply H. intros [n w] [f v]. destruct f as [|[[?|?|]|[?|?|]|]|?], v; by eexists.
  - symmetry. by apply forallb_forall.
Qed.

Lemma decode_timestamp_answers buf :
  if intact buf then exists ts, decode_timestamp buf = Ok ts else decode_timestamp buf = Nothing.
Proof.
  unfold decode_timestamp.
  pose proof (fields_answers (fun _ => true) (fun '(seconds, nanos) field v =>
    match field, v with
    | 1, Varint v => Ok (v, nanos) | 2, Varint v => Ok (seconds, v) | _, _ => Ok (seconds, nanos) end)
    (0, 0) buf) as H. replace (forallb _ _) with true in H.
  - rewrite andb_true_r in H. destruct (intact buf).
    + destruct H as [[sec ns] ->]; [|destruct (_ <=? ns); by eexists].
      intros [n w] [f v]. destruct f as [|[[?|?|]|[?|?|]|]|?], v; by eexists.
    + rewrite H; [done|]. intros [n w] [f v]. destruct f as [|[[?|?|]|[?|?|]|]|?], v; by eexists.
  - symmetry. by apply forallb_forall.
Qed.

(** Well-formed wire data, level by level. *)
Definition entry_field_ok (f : Z * Value) : bool :=
  match select 1 f with Some t => intact t | None =>
    match select 3 f with Some p => intact p | None => true end end.
Definition entry_wf (e : bytes) : bool := intact e && forallb entry_field_ok (fst (field_list e)).
Definition stream_wf (b : bytes) : bool := intact b && forallb entry_wf (payloads 2 b).
Definition request_wf (b : bytes) : bool := intact b && forallb stream_wf (payloads 1 b).

Section Answers.
Context `{SimdUtf8}.

Definition entry_visit '(timestamp, line, metadata) (field : Z) (v : Value)
    : opt (option Z * bytes * list (bytes * bytes)) :=
  match field, v with
  | 1, Bytes t => let? ts := decode_timestamp t in Ok (ts, line, metadata)
  | 2, Bytes l => Ok (timestamp, l, metadata)
  | 3, Bytes p => let? kv := decode_pair p in Ok (timestamp, line, metadata ++ [kv])
  | _, _ => Ok (timestamp, line, metadata)
  end.

Lemma entry_visit_answers : answers entry_field_ok (fun a f => entry_visit a (fst f) (snd f)).
Proof.
  intros [[ts l] md] [f v]. unfold entry_field_ok.
  destruct f as [|[[p|p|]|[p|p|]|]|p], v as [n|b|b|]; simpl; try by eexists.
  - pose proof (decode_pair_answers b) as Hp. destruct (intact b); [destruct Hp as [kv ->]; by eexists|by rewrite Hp].
  - pose proof (decode_timestamp_answers b) as Hp. destruct (intact b); [destruct Hp as [t ->]; by eexists|by rewrite Hp].
Qed.

Lemma decode_entry_answers e :
  if entry_wf e then exists r, decode_entry e = Ok r else decode_entry e = Nothing.
Proof.
  pose proof (fields_answers _ entry_visit (None, [], []) e entry_visit_answers) as He.
  unfold entry_wf, decode_entry. fold entry_visit. destruct (_ && _).
  - destruct He as [[[ts l] md] ->]. destruct ts; [|by eexists]. destruct (entry_utf8 l md); [|by eexists].
    destruct (lift_ids _) as [[? ?] ?]. by eexists.
  - by rewrite He.
Qed.

(** The loop over the entries of a stream. *)
Definition entries_step '(recs, rej) (e : bytes) : opt (list Record_ * Z) :=
  let? r := decode_entry e in
  match r with
  | Some record => Ok (recs ++ [record], rej)
  | None => Ok (recs, rej + 1)
  end.

Lemma entries_step_answers : answers entry_wf entries_step.
Proof.
  intros [recs rej] e. unfold entries_step. pose proof (decode_entry_answers e) as He.
  destruct (entry_wf e); [|by rewrite He]. destruct He as [[r|] ->]; by eexists.
Qed.

Lemma stream_fields_eq buf : exists raw,
  stream_fields buf = if intact buf then Ok (raw, payloads 2 buf) else Nothing.
Proof.
  unfold stream_fields. rewrite fields_fold. unfold payloads, intact. destruct (field_list buf) as [fs ok].
  cbn [fst snd].
  enough (G : forall raw es, exists raw', foldM (fun a f => (fun '(labels_raw, entries) field v =>
      match field, v with
      | 1, Bytes l => Ok (l, entries) | 2, Bytes e => Ok (labels_raw, entries ++ [e])
      | _, _ => Ok (labels_raw, entries) end) a (fst f) (snd f)) (raw, es) fs
      = Ok (raw', es ++ omap (select 2) fs) :> opt (bytes * list bytes)).
  { destruct (G [] []) as [raw ->]. exists raw. by destruct ok. }
  induction fs as [|[f v] fs IH]; intros raw es; [exists raw; by rewrite app_nil_r|].
  cbn [foldM fst snd]. destruct f as [|[[p|p|]|[p|p|]|]|p], v as [n|b|b|]; try apply IH.
  destruct (IH raw (es ++ [b])) as [raw' E]. exists raw'. by rewrite <- app_assoc in E.
Qed.

Lemma parse_labels_not_fuel raw : parse_labels raw <> Fuel.
Proof.
  unfold parse_labels, LabelParser.parse. pose proof (LabelParser.parse_inner_ends raw U64_MAX) as He.
  destruct (LabelParser.parse_inner raw U64_MAX); [by destruct (negb _)|done|done].
Qed.

Lemma decode_stream_answers : answers stream_wf (fun out b => decode_stream b out).
Proof.
  intros out b. unfold stream_wf, decode_stream. destruct (stream_fields_eq b) as [raw ->].
  destruct (intact b); [|done]. cbn [andb]. fold entries_step.
  pose proof (foldM_answers entry_wf entries_step ([], 0) (payloads 2 b) entries_step_answers) as Hf.
  destruct (forallb entry_wf (payloads 2 b)); [|by rewrite Hf]. destruct Hf as [[recs rej] ->].
  pose proof (parse_labels_not_fuel raw). destruct (parse_labels raw); [by eexists..|done].
Qed.

Lemma decode_foldM buf : decode buf =
  let? a := foldM (fun out b => decode_stream b out) (mkDecoded [] 0) (payloads 1 buf) in
  if intact buf then Ok a else Nothing.
Proof.
  apply fields_payloads. intros a f v. destruct f as [|[[p|p|]|[p|p|]|]|p], v; reflexivity.
Qed.

Lemma decode_answers buf :
  if request_wf buf then exists d, decode buf = Ok d else decode buf = Nothing.
Proof.
  unfold request_wf. rewrite decode_foldM.
  pose proof (foldM_answers stream_wf _ (mkDecoded [] 0) (payloads 1 buf) decode_stream_answers) as Hf.
  destruct (forallb stream_wf _).
  - destruct Hf as [d ->]. destruct (intact buf); simpl; [by eexists|done].
  - rewrite Hf, andb_false_r. done.
Qed.

(** ** Every entry is stored or counted *)

Definition stored (d : Decoded) : Z := fold_right (fun st n => len st.(records) + n) 0 d.(streams).
(** The entries on the wire. *)
Definition raw_entries (buf : bytes) : Z :=
  fold_right (fun b n => len (payloads 2 b) + n) 0 (payloads 1 buf).

Lemma stored_app ss st r : stored (mkDecoded (ss ++ [st]) r) = stored (mkDecoded ss r) + len st.(records).
Proof. unfold stored. simpl. rewrite fold_right_app. simpl. induction ss; simpl; lia. Qed.

Lemma entries_count es recs rej recs' rej' : foldM entries_step (recs, rej) es = Ok (recs', rej') ->
  len recs' + rej' = len recs + rej + len es /\ rej <= rej'.
Proof.
  revert recs rej. induction es as [|e es IH]; intros recs rej H'; simpl in H'; [injection H' as <- <-; len_lia|].
  destruct (decode_entry e) as [[r|]| |]; [| |done..]; apply IH in H'; len_lia.
Qed.

Lemma decode_stream_count b out out' : decode_stream b out = Ok out' ->
  stored out' + rejected out' = stored out + rejected out + len (payloads 2 b).
Proof.
  unfold decode_stream. destruct (stream_fields_eq b) as [raw ->]. destruct (intact b); [|done].
  fold entries_step. destruct (foldM entries_step _ _) as [[recs rej]| |] eqn:Ef; [|done..].
  apply entries_count in Ef as [Ec _]. destruct out as [ss r0].
  destruct (parse_labels raw); [| |done]; intros [= <-]; cbn [streams rejected].
  - rewrite stored_app. cbn [records]. unfold stored. cbn [streams]. len_lia.
  - unfold stored. cbn [streams]. lia.
Qed.

Lemma decode_count l out out' : foldM (fun out b => decode_stream b out) out l = Ok out' ->
  stored out' + rejected out' =
  stored out + rejected out + fold_right (fun b n => len (payloads 2 b) + n) 0 l.
Proof.
  revert out. induction l as [|b l IH]; intros out H'; simpl in *; [injection H' as <-; lia|].
  destruct (decode_stream b out) as [o1| |] eqn:E; [|done..].
  apply decode_stream_count in E. apply IH in H'. lia.
Qed.

(** A push request fails exactly when its protobuf is corrupt at some
    level, labels and rejected streams notwithstanding; every other request is
    answered. *)
Theorem loki_decode_total (buf : bytes) :
  if request_wf buf then exists d, decode buf = Ok d else decode buf = Nothing.
Proof. apply decode_answers. Qed.

(** ** What a stored record satisfies *)

Definition utf8_pair (kv : bytes * bytes) : Prop :=
  from_utf8_ok (fst kv) = true /\ from_utf8_ok (snd kv) = true.

Definition id_ok (o : option bytes) : Prop :=
  match o with Some v => v <> [] /\ from_utf8_ok v = true | None => True end.

Definition record_ok (r : Record_) : Prop :=
  0 <= r.(timestamp_ns) <= U64_MAX /\ from_utf8_ok r.(line) = true /\
  id_ok r.(trace_id) /\ id_ok r.(span_id) /\
  NoDup (map fst r.(attributes)) /\ Forall utf8_pair r.(attributes) /\
  Forall (fun kv => fst kv <> TRACE_ID /\ fst kv <> SPAN_ID) r.(attributes).

Definition stream_ok (st : Stream) : Prop :=
  Forall record_ok st.(records) /\ NoDup (map fst st.(labels)) /\
  Forall (fun nv => from_utf8_ok (cow_bytes (snd nv)) = true) st.(labels).

Lemma decode_timestamp_range t ts : decode_timestamp t = Ok (Some ts) -> 0 <= ts <= U64_MAX.
Proof.
  unfold decode_timestamp. destruct (fields _ _ _ _) as [[sec ns]| |]; [|done..].
  destruct (_ <=? ns); [done|]. intros [= E]. destruct (checked_u64 (sec * _)) as [x|]; [|done].
  unfold checked_u64 in E. destruct (_ && _) eqn:Eb; [|done]. injection E as <-. bools. lia.
Qed.

Definition ts_ok (a : option Z * bytes * list (bytes * bytes)) : Prop :=
  match a with (Some ts, _, _) => 0 <= ts <= U64_MAX | _ => True end.

Lemma entry_visit_ts a f v a' : ts_ok a -> entry_visit a f v = Ok a' -> ts_ok a'.
Proof.
  destruct a as [[ts l] md]. intros Ha. destruct f as [|[[p|p|]|[p|p|]|]|p], v as [n|b|b|]; simpl;
    try (intros [= <-]; exact Ha).
  - destruct (decode_pair b); [|done..]. intros [= <-]. exact Ha.
  - destruct (decode_timestamp b) as [[t|]| |] eqn:E; [| |done..]; intros [= <-]; [|done].
    by apply decode_timestamp_range in E.
Qed.

Lemma fields_inv {A} (P : A -> Prop) (visit : A -> Z -> Value -> opt A) acc input r :
  P acc -> (forall a f v b, P a -> visit a f v = Ok b -> P b) ->
  fields tt visit acc input = Ok r -> P r.
Proof.
  intros H0 Hs. rewrite fields_fold. destruct (field_list input) as [fs ok].
  destruct (foldM _ acc fs) as [a| |] eqn:E; [|done..]. destruct ok; [|done]. intros [= <-].
  eapply (foldM_inv P); [exact H0| |exact E]. intros x y z _ Hx Hy. exact (Hs _ _ _ _ Hx Hy).
Qed.

(** The identifiers leave the metadata, the rest keeps its order. *)
Definition plain_key (kv : bytes * bytes) : bool :=
  negb (bytes_eqb (fst kv) TRACE_ID) && negb (bytes_eqb (fst kv) SPAN_ID).

Lemma non_empty_ok v : from_utf8_ok v = true -> id_ok (non_empty v).
Proof. by destruct v. Qed.

Lemma lift_ids_spec md : Forall utf8_pair md ->
  let '(trace, span, attrs) := lift_ids md in
  id_ok trace /\ id_ok span /\ attrs = List.filter plain_key md.
Proof.
  intros Hmd. unfold lift_ids.
  enough (G : forall t sp at0, id_ok t -> id_ok sp ->
    let '(trace, span, attrs) := fold_left (fun '(trace, span, attrs) '(k, v) =>
      if bytes_eqb k TRACE_ID then (non_empty v, span, attrs)
      else if bytes_eqb k SPAN_ID then (trace, non_empty v, attrs)
      else (trace, span, attrs ++ [(k, v)])) md (t, sp, at0) in
    id_ok trace /\ id_ok span /\ attrs = at0 ++ List.filter plain_key md)
    by (apply (G None None []); done).
  induction Hmd as [|[k v] md [_ Hv] Hmd IH]; intros t sp at0 Ht Hsp; simpl.
  { by rewrite app_nil_r. }
  change (plain_key (k, v)) with (negb (bytes_eqb k TRACE_ID) && negb (bytes_eqb k SPAN_ID)). cbn [fst snd] in *. destruct (bytes_eqb k TRACE_ID); cbn [negb andb].
  { by apply IH; [apply non_empty_ok|]. }
  destruct (bytes_eqb k SPAN_ID); cbn [negb]; [by apply IH; [|apply non_empty_ok]|].
  specialize (IH t sp (at0 ++ [(k, v)]) Ht Hsp). destruct (fold_left _ md _) as [[tr s2] at1].
  destruct IH as (? & ? & ->). by rewrite <- app_assoc.
Qed.

Lemma NoDup_filter_keys (md : list (bytes * bytes)) f : NoDup (map fst md) -> NoDup (map fst (List.filter f md)).
Proof.
  induction md as [|kv md IH]; simpl; intros Hd; [done|]. apply list.NoDup_cons in Hd as [Hn Hd].
  destruct (f kv); [|by apply IH]. simpl. apply list.NoDup_cons. split; [|by apply IH].
  intros Hin. apply Hn. apply list_elem_of_In, in_map_iff in Hin as (x & Ex & Hx).
  apply list_elem_of_In, in_map_iff. exists x. split; [done|]. by apply filter_In in Hx as [? _].
Qed.

Lemma decode_entry_ok e r : decode_entry e = Ok (Some r) -> record_ok r.
Proof.
  unfold decode_entry. fold entry_visit. destruct (fields tt entry_visit _ e) as [[[ts l] md]| |] eqn:Ef; [|done..].
  apply (fields_inv ts_ok) in Ef; [|done|intros; by eapply entry_visit_ts].
  destruct ts as [ts|]; [|done]. destruct (entry_utf8 l md) eqn:Eu; [|done].
  unfold entry_utf8 in Eu. apply andb_true_iff in Eu as [El Em]. rewrite simd_from_utf8_std in El.
  assert (Hmd : Forall utf8_pair (last_wins md fst)).
  { apply list.Forall_forall. intros [k v] Hin. apply last_wins_incl in Hin.
    rewrite forallb_forall in Em. specialize (Em (k, v) (proj1 (list_elem_of_In _ _) Hin)). simpl in Em.
    rewrite !simd_from_utf8_std in Em. by apply andb_true_iff in Em. }
  pose proof (lift_ids_spec _ Hmd) as Hl. destruct (lift_ids _) as [[tr sp] at0].
  destruct Hl as (Ht & Hs & ->). intros [= <-]. unfold record_ok. cbn [timestamp_ns line trace_id span_id attributes].
  split_and!; [apply Ef..|done|done|done|apply NoDup_filter_keys, last_wins_nodup| |].
  - apply list.Forall_forall. intros kv Hin. apply list_elem_of_In, filter_In in Hin as [Hin _].
    rewrite list.Forall_forall in Hmd. by apply Hmd, list_elem_of_In.
  - apply list.Forall_forall. intros kv Hin. apply list_elem_of_In, filter_In in Hin as [_ Hp].
    unfold plain_key in Hp. apply andb_true_iff in Hp as [H1 H2].
    split; intros E; rewrite E in *; done.
Qed.

(** The attributes of a record are the deduplicated metadata without the
    identifiers. *)
Lemma lift_ids_attrs md : snd (lift_ids md) = List.filter plain_key md.
Proof.
  unfold lift_ids. enough (G : forall t sp at0,
    snd (fold_left (fun '(trace, span, attrs) '(k, v) =>
      if bytes_eqb k TRACE_ID then (non_empty v, span, attrs)
      else if bytes_eqb k SPAN_ID then (trace, non_empty v, attrs)
      else (trace, span, attrs ++ [(k, v)])) md (t, sp, at0)) = at0 ++ List.filter plain_key md) by apply G.
  induction md as [|[k v] md IH]; intros t sp at0; simpl; [by rewrite app_nil_r|].
  change (plain_key (k, v)) with (negb (bytes_eqb k TRACE_ID) && negb (bytes_eqb k SPAN_ID)).
  destruct (bytes_eqb k TRACE_ID); [apply IH|]. destruct (bytes_eqb k SPAN_ID); [apply IH|].
  cbn [negb andb]. rewrite IH. by rewrite <- app_assoc.
Qed.

Lemma decode_entry_attrs e r : decode_entry e = Ok (Some r) ->
  exists ts l md, fields tt entry_visit (None, [], []) e = Ok (ts, l, md) /\
    attributes r = List.filter plain_key (last_wins md fst).
Proof.
  unfold decode_entry. fold entry_visit. destruct (fields tt entry_visit _ e) as [[[ts l] md]| |]; [|done..].
  intros Hd. exists ts, l, md. split; [done|]. destruct ts; [|done]. destruct (entry_utf8 l md); [|done].
  pose proof (lift_ids_attrs (last_wins md fst)) as Hl. destruct (lift_ids _) as [[tr sp] at0].
  injection Hd as <-. exact Hl.
Qed.

Lemma entries_records es recs rej recs' rej' : Forall record_ok recs ->
  foldM entries_step (recs, rej) es = Ok (recs', rej') -> Forall record_ok recs'.
Proof.
  revert recs rej. induction es as [|e es IH]; intros recs rej Hr H'; simpl in H'; [by injection H' as <- <-|].
  destruct (decode_entry e) as [[r|]| |] eqn:E; [| |done..]; eapply IH; try exact H'; [|done].
  apply Forall_app. split; [done|]. constructor; [by eapply decode_entry_ok|constructor].
Qed.

Lemma parse_labels_ok raw ls : parse_labels raw = Ok ls ->
  NoDup (map fst ls) /\ Forall (fun nv => from_utf8_ok (cow_bytes (snd nv)) = true) ls.
Proof.
  unfold parse_labels. destruct (LabelParser.parse raw) as [l| |]; [|done..].
  destruct (negb _) eqn:E; [done|]. intros [= <-]. split; [apply last_wins_nodup|].
  apply negb_false_iff in E. apply list.Forall_forall. intros [n v] Hin. apply last_wins_incl in Hin.
  rewrite forallb_forall in E. specialize (E (n, v) (proj1 (list_elem_of_In _ _) Hin)). simpl in *.
  by rewrite simd_from_utf8_std in E.
Qed.

Lemma decode_stream_ok b out out' : Forall stream_ok (streams out) -> decode_stream b out = Ok out' ->
  Forall stream_ok (streams out').
Proof.
  intros Ho. unfold decode_stream. destruct (stream_fields_eq b) as [raw ->]. destruct (intact b); [|done].
  fold entries_step. destruct (foldM entries_step _ _) as [[recs rej]| |] eqn:Ef; [|done..].
  apply entries_records in Ef; [|constructor].
  destruct (parse_labels raw) as [ls| |] eqn:El; [| |done]; intros [= <-]; simpl; [|done].
  apply parse_labels_ok in El as [H1 H2]. apply Forall_app. split; [done|].
  constructor; [|constructor]. by split_and!.
Qed.

(** C4. No entry is lost or counted twice: the records stored and the entries
    counted as rejected add up to the entries on the wire. *)
Theorem loki_accounting (buf : bytes) (d : Decoded) :
  decode buf = Ok d -> stored d + rejected d = raw_entries buf.
Proof.
  rewrite decode_foldM. destruct (foldM _ _ _) as [a| |] eqn:E; [|done..]. destruct (intact buf); [|done].
  intros [= <-]. apply decode_count in E. rewrite E. done.
Qed.

(** Every stored record is valid: its timestamp fits 64 bits, its line,
    identifiers, labels and attributes are well-formed UTF-8, names are unique,
    and the trace and span identifiers are non-empty and lifted out of the
    attributes. *)
Theorem loki_records_valid (buf : bytes) (d : Decoded) :
  decode buf = Ok d -> Forall stream_ok (streams d).
Proof.
  rewrite decode_foldM. destruct (foldM _ _ _) as [a| |] eqn:E; [|done..]. destruct (intact buf); [|done].
  intros [= <-]. eapply (foldM_inv (fun o => Forall stream_ok (streams o))); [| |exact E].
  - constructor.
  - intros x b y _ Hx Hy. exact (decode_stream_ok _ _ _ Hx Hy).
Qed.
End Answers.

Section Witnesses.
Import Concrete.

(** A stream with two entries: one stored, one without a timestamp. *)
Definition sample_request : bytes :=
  encode_message [(1, Bytes (encode_message [
    (1, Bytes [123; 97; 61; 34; 49; 34; 125]);
    (2, Bytes (encode_message [(1, Bytes (encode_message [(1, Varint 7); (2, Varint 5)])); (2, Bytes [104; 105]);
                               (3, Bytes (encode_message [(1, Bytes TRACE_ID); (2, Bytes [102])]))]));
    (2, Bytes (encode_message [(2, Bytes [104; 105])]))]))].
Definition sample_decoded : Decoded :=
  mkDecoded [mkStream [([97], Borrowed [49])] [mkRecord 7000000005 [104; 105] (Some [102]) None []]] 1.

Lemma loki_accounting_witness : stored sample_decoded + rejected sample_decoded = raw_entries sample_request.
Proof. apply (loki_accounting sample_request sample_decoded). vm_compute. reflexivity. Defined.

Lemma loki_records_valid_witness : Forall stream_ok (streams sample_decoded).
Proof. apply (loki_records_valid sample_request sample_decoded). vm_compute. reflexivity. Defined.
End Witnesses.
