(* ===== verification/IngestLimits.v ===== *)
(** The allocation-light preflight of ingest protobufs, ingest_limits.rs: it
    counts raw records, groups and attributes against budgets before the real
    decoders run. *)

From S2P Require Import Prelude Utf8 External Wire Labels Loki.

Inductive Error : Type := InvalidProtobuf | TooManyRecords | AttributesTooLarge.

Record Limits : Type := mkLimits {
  max_records : Z;
  max_attributes : Z;
  key_bytes : Z;
  value_bytes : Z;
  attribute_bytes : Z
}.

(** [impl From<Options> for Limits]. *)
Definition Limits_from (v : Z * Z * Z * Z * Z) : Limits :=
  let '(a, b, c, d, e) := v in mkLimits a b c d e.

Definition increment (count max : Z) : res Error Z :=
  if max <=? count then Err TooManyRecords else Ok (count + 1).

Section Preflight.
Variable self : Limits.

(** The counters of one attribute list: pairs and bytes. *)
Abbreviation Tally := (Z * Z)%type.

Definition pair_ (key value : bytes) (t : Tally) : res Error Tally :=
  let '(count, bytes_) := t in
  if (self.(max_attributes) <=? count) || (self.(key_bytes) <? len key)
     || (self.(value_bytes) <? len value)
  then Err AttributesTooLarge
  else
    let count := count + 1 in
    let bytes_ := sat_u64 (sat_u64 (bytes_ + len key) + len value) in
    if self.(attribute_bytes) <? bytes_ then Err AttributesTooLarge
    else Ok (count, bytes_).

Definition wire_pair (input : bytes) (t : Tally) : res Error Tally :=
  let? (key, value) := fields InvalidProtobuf (fun '(key, value) field v =>
    match field, v with
    | 1, Bytes b => if self.(key_bytes) <? len b then Err AttributesTooLarge else Ok (b, value)
    | 2, Bytes b => if self.(value_bytes) <? len b then Err AttributesTooLarge else Ok (key, b)
    | _, _ => Ok (key, value)
    end) ([], []) input in
  pair_ key value t.

(** The fields of one series: labels are tallied, points and exemplars counted. *)
Definition v1_series_field (s : Z * Tally) (field : Z) (value : Value) : res Error (Z * Tally) :=
  let '(records, t) := s in
  match field, value with
  | 1, Bytes kv => let? t := wire_pair kv t in Ok (records, t)
  | 2, Bytes _ | 3, Bytes _ | 4, Bytes _ =>
      let? records := increment records self.(max_records) in Ok (records, t)
  | _, _ => Ok (records, t)
  end.

Definition remote_write (input : bytes) : res Error unit :=
  let? _ := fields InvalidProtobuf (fun '(records, groups) field value =>
    match field, value with
    | 1, Bytes series =>
        let? groups := increment groups self.(max_records) in
        let? (records, _) := fields InvalidProtobuf v1_series_field (records, (0, 0)) series in
        Ok (records, groups)
    | _, _ => Ok (records, groups)
    end) (0, 0) input in
  Ok tt.

(** [refs.push(r)] and the check after it. *)
Definition push_ref (refs : list Z) (r : Z) : res Error (list Z) :=
  let refs := refs ++ [r] in
  if sat_u64 (self.(max_attributes) * 2) <? len refs then Err AttributesTooLarge else Ok refs.

(** [while !reader.is_empty() { refs.push(reader.read_varint()?) .. }]. *)
Fixpoint packed_refs (fuel : nat) (r : Reader) (refs : list Z) : res Error (list Z) :=
  match fuel with
  | O => Fuel
  | S fuel =>
      if is_empty r then Ok refs
      else
        let? (v, r) := ok_or (read_varint r) InvalidProtobuf in
        let? refs := push_ref refs v in
        packed_refs fuel r refs
  end.

(** [refs.as_chunks::<2>().0]. *)
Fixpoint chunks2 (refs : list Z) : list (Z * Z) :=
  match refs with
  | a :: b :: refs => (a, b) :: chunks2 refs
  | _ => []
  end.

(** The start timestamp of a point must be a varint. *)
Definition check_start (field : Z) (point : bytes) : res Error unit :=
  let start_field := if field =? 2 then 3 else 17 in
  fields InvalidProtobuf (fun _ n value =>
    match value with
    | Varint _ => Ok tt
    | _ => if n =? start_field then Err InvalidProtobuf else Ok tt
    end) tt point.

Definition v2_series_field (s : Z * list Z) (field : Z) (value : Value) : res Error (Z * list Z) :=
  let '(records, refs) := s in
  match field, value with
  | 1, Bytes packed =>
      let? refs := packed_refs (S (length packed)) (Reader_new packed) refs in Ok (records, refs)
  | 1, Varint r => let? refs := push_ref refs r in Ok (records, refs)
  | 2, Bytes point | 3, Bytes point =>
      let? records := increment records self.(max_records) in
      let? _ := check_start field point in Ok (records, refs)
  | 4, Bytes _ => let? records := increment records self.(max_records) in Ok (records, refs)
  | 6, Varint _ => Ok (records, refs)
  | 6, _ => Err InvalidProtobuf
  | _, _ => Ok (records, refs)
  end.

Definition remote_write_v2 (input : bytes) : res Error unit :=
  let? symbols := fields InvalidProtobuf (fun symbols field value =>
    match field, value with
    | 4, Bytes symbol => Ok (symbols ++ [symbol])
    | _, _ => Ok symbols
    end) [] input in
  let? _ := fields InvalidProtobuf (fun '(records, groups) field value =>
    match field, value with
    | 5, Bytes series =>
        let? groups := increment groups self.(max_records) in
        let? (records, refs) := fields InvalidProtobuf v2_series_field (records, []) series in
        let? _ := foldM (fun t '(k, v) =>
          match get symbols k, get symbols v with
          | Some key, Some value => pair_ key value t
          | _, _ => Ok t
          end) (0, 0) (chunks2 refs) in
        Ok (records, groups)
    | _, _ => Ok (records, groups)
    end) (0, 0) input in
  Ok tt.

Definition loki_labels (raw : bytes) : res Error unit :=
  let raw_cap := sat_u64 (sat_u64 (self.(attribute_bytes) * 8) + sat_u64 (self.(max_attributes) * 8)) in
  if raw_cap <? len raw then Err AttributesTooLarge
  else
    match LabelParser.parse_limited raw self.(max_attributes) with
    | Err _ => Err AttributesTooLarge
    | Fuel => Fuel
    | Ok None => Ok tt
    | Ok (Some labels) =>
        let? _ := foldM (fun t '(key, value) => pair_ key (cow_bytes value) t) (0, 0) labels in Ok tt
    end.

Definition loki_entry (entry : bytes) : res Error unit :=
  let? _ := fields InvalidProtobuf (fun t field value =>
    match field, value with
    | 3, Bytes kv => wire_pair kv t
    | _, _ => Ok t
    end) (0, 0) entry in
  Ok tt.

Definition loki (input : bytes) : res Error unit :=
  let? _ := fields InvalidProtobuf (fun '(records, groups) field value =>
    match field, value with
    | 1, Bytes stream =>
        let? groups := increment groups self.(max_records) in
        let? records := fields InvalidProtobuf (fun records field value =>
          match field, value with
          | 1, Bytes raw => let? _ := loki_labels raw in Ok records
          | 2, Bytes entry =>
              let? records := increment records self.(max_records) in
              let? _ := loki_entry entry in Ok records
          | _, _ => Ok records
          end) records stream in
        Ok (records, groups)
    | _, _ => Ok (records, groups)
    end) (0, 0) input in
  Ok tt.
End Preflight.

(** * What passing the preflight means *)

Section Budgets.
Variable self : Limits.
Hypothesis records_pos : 0 <= self.(max_records).
Hypothesis attributes_pos : 0 <= self.(max_attributes).
(** A byte budget below the largest word, so that saturation cannot hide an
    overrun. *)
Hypothesis bytes_small : 0 <= self.(attribute_bytes) < U64_MAX.

Definition size_of (kv : bytes * bytes) : Z := len (fst kv) + len (snd kv).
Definition total (kvs : list (bytes * bytes)) : Z := fold_right (fun kv n => size_of kv + n) 0 kvs.

(** An attribute list within the budgets. *)
Definition within (kvs : list (bytes * bytes)) : Prop :=
  len kvs <= self.(max_attributes) /\ total kvs <= self.(attribute_bytes) /\
  Forall (fun kv => len (fst kv) <= self.(key_bytes) /\ len (snd kv) <= self.(value_bytes)) kvs.

(** The counters of a list. *)
Definition tallied (t : Z * Z) (kvs : list (bytes * bytes)) : Prop := t = (len kvs, total kvs) /\ within kvs.

Lemma total_app a b : total (a ++ b) = total a + total b.
Proof. induction a as [|kv a IH]; simpl; [done|]. lia. Qed.
Lemma size_of_nonneg kv : 0 <= size_of kv.
Proof. unfold size_of. pose proof (len_nonneg (fst kv)). pose proof (len_nonneg (snd kv)). lia. Qed.
Lemma total_nonneg l : 0 <= total l.
Proof. induction l as [|kv l IH]; simpl; [done|]. pose proof (size_of_nonneg kv). lia. Qed.

Lemma tallied_nil : tallied (0, 0) [].
Proof. split; [done|]. split_and!; [done|simpl; lia|constructor]. Qed.

Lemma pair_tallied k v t t' kvs : tallied t kvs -> pair_ self k v t = Ok t' -> tallied t' (kvs ++ [(k, v)]).
Proof.
  intros [-> (Hc & Ht & Hf)]. unfold pair_. destruct (_ || _ || _) eqn:E1; [done|].
  rewrite !orb_false_iff in E1. destruct E1 as [[E1 E2] E3]. bools.
  pose proof (total_nonneg kvs). pose proof (len_nonneg k). pose proof (len_nonneg v).
  unfold sat_u64. destruct (_ <? _) eqn:E4; [done|]. bools. intros [= <-].
  assert (Hs : total (kvs ++ [(k, v)]) = total kvs + len k + len v)
    by (rewrite total_app; simpl; unfold size_of; simpl; lia).
  unfold U64_MAX in *. split; [|split_and!].
  - f_equal; [len_lia|]. lia.
  - len_lia.
  - lia.
  - apply Forall_app. split; [done|]. by constructor.
Qed.

Lemma wire_pair_tallied input t t' kv kvs : tallied t kvs -> wire_pair self input t = Ok t' ->
  decode_pair input = Ok kv -> tallied t' (kvs ++ [kv]).
Proof.
  intros Ht. unfold wire_pair, decode_pair.
  destruct (fields InvalidProtobuf _ _ input) as [[k v]| |] eqn:E; [|done..]. intros Hp Hd.
  assert (Hkv : (k, v) = kv).
  { refine (fields_sim eq _ _ _ _ _ _ _ _ input _ eq_refl E Hd).
    intros [x1 x2] y f w x' y' <-. destruct f as [|[[?|?|]|[?|?|]|]|?], w; simpl; try congruence;
      destruct (_ <? _); congruence. }
  rewrite <- Hkv. by eapply pair_tallied.
Qed.

(** ** Budgets survive deduplication *)

Lemma last_wins_total_step out item :
  total (last_wins_step fst out item) <= total out + size_of item.
Proof.
  induction out as [|y out IH]; [simpl; lia|]. rewrite step_cons.
  pose proof (size_of_nonneg y). destruct (bytes_eqb _ _); simpl; lia.
Qed.

Lemma last_wins_total items : total (last_wins items fst) <= total items.
Proof.
  unfold last_wins. enough (G : forall out, total (fold_left (last_wins_step fst) items out) <= total items + total out)
    by (specialize (G []); simpl in G; lia).
  induction items as [|x items IH]; intros out; simpl; [lia|].
  specialize (IH (last_wins_step fst out x)). pose proof (last_wins_total_step out x). lia.
Qed.

Lemma within_last_wins kvs : within kvs -> within (last_wins kvs fst).
Proof.
  intros (Hc & Ht & Hf). split_and!.
  - pose proof (last_wins_length fst kvs). lia.
  - pose proof (last_wins_total kvs). lia.
  - apply list.Forall_forall. intros kv Hin. apply last_wins_incl in Hin. rewrite list.Forall_forall in Hf. by apply Hf.
Qed.

Lemma within_filter f kvs : within kvs -> within (List.filter f kvs).
Proof.
  intros (Hc & Ht & Hf).
  assert (G : len (List.filter f kvs) <= len kvs /\ total (List.filter f kvs) <= total kvs).
  { clear. induction kvs as [|kv kvs IH]; [done|]. simpl. pose proof (size_of_nonneg kv).
    destruct (f kv); simpl; len_lia. }
  split_and!; [lia|lia|]. apply list.Forall_forall. intros kv Hin. apply list_elem_of_In, filter_In in Hin as [Hin _].
  rewrite list.Forall_forall in Hf. by apply Hf, list_elem_of_In.
Qed.

(** ** The Loki preflight bounds the decoder *)

Context `{SimdUtf8}.

Lemma loki_entry_within e r : loki_entry self e = Ok tt -> decode_entry e = Ok (Some r) -> within (attributes r).
Proof.
  unfold loki_entry. destruct (fields InvalidProtobuf _ _ e) as [t| |] eqn:E; [|done..]. intros _ Hd.
  apply decode_entry_attrs in Hd as (ts & l & md & Hf & ->).
  apply within_filter, within_last_wins.
  enough (G : tallied t (snd (ts, l, md))) by apply G.
  refine (fields_sim (fun t a => tallied t (snd a)) _ _ _ _ _ (None, [], []) _ _ e _ tallied_nil E Hf).
  intros x [[ts1 l1] md1] f w x' y' Hx. cbn [snd] in Hx.
  destruct f as [|[[p|p|]|[p|p|]|]|p], w as [n|b|b|]; simpl; try (by intros [= <-] [= <-]).
  - intros Hw. destruct (decode_pair b) as [kv| |] eqn:Ek; [|done..]. intros [= <-]. by eapply wire_pair_tallied.
  - intros [= <-]. destruct (decode_timestamp b); [|done..]. by intros [= <-].
Qed.

Definition label_pairs (l : LabelParser.Pairs) : list (bytes * bytes) :=
  map (fun nv => (fst nv, cow_bytes (snd nv))) l.

Lemma labels_tallied l t t' kvs : tallied t kvs ->
  foldM (fun t '(key, value) => pair_ self key (cow_bytes value) t) t l = Ok t' ->
  tallied t' (kvs ++ label_pairs l).
Proof.
  revert t kvs. induction l as [|[n v] l IH]; intros t kvs Ht Hf; simpl in *.
  { injection Hf as <-. by rewrite app_nil_r. }
  destruct (pair_ self n (cow_bytes v) t) as [t1| |] eqn:E; [|done..].
  apply (pair_tallied _ _ _ _ _ Ht) in E. apply (IH _ _ E) in Hf. by rewrite <- app_assoc in Hf.
Qed.

Lemma label_pairs_last_wins l : label_pairs (last_wins l fst) = last_wins (label_pairs l) fst.
Proof.
  unfold last_wins, label_pairs.
  enough (G : forall out, map (fun nv => (fst nv, cow_bytes (snd nv))) (fold_left (last_wins_step fst) l out) =
    fold_left (last_wins_step fst) (map (fun nv => (fst nv, cow_bytes (snd nv))) l)
      (map (fun nv => (fst nv, cow_bytes (snd nv))) out)) by apply (G []).
  induction l as [|x l IH]; intros out; simpl; [done|]. rewrite IH. f_equal.
  induction out as [|y out IHo]; [done|]. simpl. rewrite !step_cons. cbn [fst].
  destruct (bytes_eqb (fst y) (fst x)); simpl; [done|]. by rewrite IHo.
Qed.

Lemma loki_labels_within raw ls : self.(max_attributes) <= U64_MAX ->
  loki_labels self raw = Ok tt -> parse_labels raw = Ok ls -> within (label_pairs ls).
Proof.
  intros Hmax. unfold loki_labels, parse_labels. destruct (_ <? len raw); [done|].
  pose proof (LabelParser.parse_limited_eq raw self.(max_attributes) ltac:(lia)) as Hp.
  destruct (LabelParser.parse raw) as [l| |]; [|done..]. rewrite Hp. intros Hl.
  destruct (negb _); [done|]. intros [= <-]. rewrite label_pairs_last_wins. apply within_last_wins.
  destruct (_ || _); [|done]. destruct (foldM _ _ l) as [t| |] eqn:Ef; [|done..].
  by apply (labels_tallied _ _ _ [] tallied_nil) in Ef as [_ Hw].
Qed.

Definition stream_within (st : Stream) : Prop :=
  within (label_pairs (labels st)) /\ Forall (fun r => within (attributes r)) (records st).

(** The preflight loop over the fields of a stream, against the decoder's. *)
Definition stream_checked (r0 : Z) (r : Z) (s : bytes * list bytes) : Prop :=
  r = r0 + len (snd s) /\ r <= self.(max_records) /\
  (fst s = [] \/ loki_labels self (fst s) = Ok tt) /\ Forall (fun e => loki_entry self e = Ok tt) (snd s).

Lemma entries_within es recs rej recs' rej' : Forall (fun r => within (attributes r)) recs ->
  Forall (fun e => loki_entry self e = Ok tt) es -> foldM entries_step (recs, rej) es = Ok (recs', rej') ->
  Forall (fun r => within (attributes r)) recs'.
Proof.
  intros Hr He. revert recs rej Hr. induction He as [|e es He Hes IH]; intros recs rej Hr Hf; simpl in Hf.
  { by injection Hf as <- <-. }
  destruct (decode_entry e) as [[r|]| |] eqn:E; [| |done..]; eapply IH; try exact Hf; [|done].
  apply Forall_app. split; [done|]. constructor; [by eapply loki_entry_within|constructor].
Qed.

Lemma stream_step r0 r b out out' : self.(max_attributes) <= U64_MAX -> r0 <= self.(max_records) ->
  fields InvalidProtobuf (fun records field value =>
    match field, value with
    | 1, Bytes raw => let? _ := loki_labels self raw in Ok records
    | 2, Bytes entry =>
        let? records := increment records self.(max_records) in
        let? _ := loki_entry self entry in Ok records
    | _, _ => Ok records
    end) r0 b = Ok r ->
  Forall stream_within (streams out) -> decode_stream b out = Ok out' ->
  r = r0 + len (payloads 2 b) /\ r <= self.(max_records) /\ Forall stream_within (streams out') /\
  len (streams out') <= len (streams out) + 1.
Proof.
  intros Hmax Hr0 Hpre Hout. unfold decode_stream. destruct (stream_fields_eq b) as [raw0 Es0].
  destruct (stream_fields b) as [[raw es]| |] eqn:Es; [|done..].
  assert (Ees : es = payloads 2 b) by (destruct (intact b); [by injection Es0 as -> ->|done]).
  unfold stream_fields in Es.
  assert (Hc : stream_checked r0 r (raw, es)).
  { refine (fields_sim (stream_checked r0) _ _ _ _ _ _ _ _ b _ _ Hpre Es).
    2: { split_and!; [simpl; len_lia|done|by left|constructor]. }
    intros x [raw1 es1] f w x' y' (H1 & H2 & H3 & H4). cbn [fst snd] in *.
    destruct f as [|[[p|p|]|[p|p|]|]|p], w as [n|c|c|]; try (intros [= <-] [= <-]; by split_and!).
    - unfold increment. destruct (Z.leb_spec (max_records self) x); [done|].
      destruct (loki_entry self c) as [[]| |] eqn:Ee; [|done..]. intros [= <-] [= <-].
      split_and!; cbn [fst snd]; [len_lia|lia|done|]. apply Forall_app. split; [done|by constructor].
    - destruct (loki_labels self c) as [[]| |] eqn:El; [|done..]. intros [= <-] [= <-].
      split_and!; cbn [fst snd]; [done|done|by right|done]. }
  destruct Hc as (H1 & H2 & H3 & H4). cbn [fst snd] in *. fold entries_step.
  destruct (foldM entries_step _ _) as [[recs rej]| |] eqn:Ef; [|done..].
  apply (entries_within _ _ _ _ _ (List.Forall_nil _) H4) in Ef.
  destruct (parse_labels raw) as [ls| |] eqn:El; [| |done]; intros [= <-]; cbn [streams].
  - destruct H3 as [->|H3]; [by vm_compute in El|].
    split_and!; [by rewrite <- Ees|done| |len_lia]. apply Forall_app. split; [done|].
    constructor; [|constructor]. split; [by eapply loki_labels_within|done].
  - split_and!; [by rewrite <- Ees|done|done|lia].
Qed.

Definition request_checked (c : Z * Z) (d : Decoded) : Prop :=
  fst c = stored d + rejected d /\ fst c <= self.(max_records) /\
  len (streams d) <= snd c /\ snd c <= self.(max_records) /\ Forall stream_within (streams d).

Lemma loki_request c d input : self.(max_attributes) <= U64_MAX ->
  fields InvalidProtobuf (fun '(records, groups) field value =>
    match field, value with
    | 1, Bytes stream =>
        let? groups := increment groups self.(max_records) in
        let? records := fields InvalidProtobuf (fun records field value =>
          match field, value with
          | 1, Bytes raw => let? _ := loki_labels self raw in Ok records
          | 2, Bytes entry =>
              let? records := increment records self.(max_records) in
              let? _ := loki_entry self entry in Ok records
          | _, _ => Ok records
          end) records stream in
        Ok (records, groups)
    | _, _ => Ok (records, groups)
    end) (0, 0) input = Ok c ->
  decode input = Ok d -> request_checked c d.
Proof.
  intros Hmax Hpre Hd.
  refine (fields_sim request_checked _ _ _ _ _ _ _ _ input _ _ Hpre Hd).
  2: { unfold request_checked. cbn. split_and!; [done|lia|done|lia|constructor]. }
  intros [x1 x2] y f w x' y' (H1 & H2 & H3 & H4 & H5). cbn [fst snd] in *.
  destruct f as [|[[p|p|]|[p|p|]|]|p], w as [n|b|b|]; try (intros [= <-] [= <-]; by split_and!).
  unfold increment at 1. destruct (Z.leb_spec (max_records self) x2); [done|].
  destruct (fields InvalidProtobuf _ x1 b) as [r| |] eqn:Ef; [|done..]. intros [= <-] Hs.
  pose proof (decode_stream_count _ _ _ Hs) as Hcnt.
  apply (stream_step _ _ _ _ _ Hmax H2 Ef H5) in Hs as (G1 & G2 & G3 & G4).
  unfold request_checked. cbn [fst snd]. split_and!; [lia|lia|lia|lia|done].
Qed.

(** C3. A push request that passes the preflight cannot make the decoder
    exceed its budgets: streams and entries (stored or rejected) stay within
    the record limit, and the labels of every stream and the attributes of
    every record stay within the limits on their number, on the length of each
    name and value, and on their total bytes. *)
Theorem loki_preflight_bounds (input : bytes) (d : Decoded) :
  self.(max_attributes) <= U64_MAX -> loki self input = Ok tt -> decode input = Ok d ->
  len (streams d) <= self.(max_records) /\ stored d + rejected d <= self.(max_records) /\
  Forall (fun st => within (label_pairs (labels st)) /\ Forall (fun r => within (attributes r)) (records st))
    (streams d).
Proof.
  unfold loki. intros Hmax Hp Hd. destruct (fields _ _ _ input) as [c| |] eqn:E; [|done..].
  destruct (loki_request c d input Hmax E Hd) as (H1 & H2 & H3 & H4 & H5).
  split_and!; [lia|lia|done].
Qed.

(** ** Termination *)

Lemma pair_not_fuel k v t : pair_ self k v t <> Fuel.
Proof. unfold pair_. destruct t as [c b]. destruct (_ || _ || _); [done|]. by destruct (_ <? _). Qed.

Lemma wire_pair_not_fuel i t : wire_pair self i t <> Fuel.
Proof.
  unfold wire_pair. destruct (fields InvalidProtobuf _ _ i) as [[k v]| |] eqn:E; [apply pair_not_fuel|done|].
  apply fields_not_fuel in E; [done|]. intros [k v] f w _. by repeat case_match.
Qed.

Lemma increment_not_fuel c m : increment c m <> Fuel.
Proof. unfold increment. by destruct (_ <=? _). Qed.

Lemma loki_labels_not_fuel raw : self.(max_attributes) <= U64_MAX -> loki_labels self raw <> Fuel.
Proof.
  intros Hmax. unfold loki_labels. destruct (_ <? len raw); [done|].
  pose proof (LabelParser.parse_inner_ends raw (max_attributes self)) as He. unfold LabelParser.parse_limited.
  destruct (LabelParser.parse_inner raw _) as [l|[]|]; [|done..].
  destruct (foldM _ _ l) eqn:E; [done|done|]. apply foldM_not_fuel in E; [done|].
  intros t [n v] _. apply pair_not_fuel.
Qed.

Lemma loki_entry_not_fuel e : loki_entry self e <> Fuel.
Proof.
  unfold loki_entry. destruct (fields _ _ _ e) eqn:E; [done|done|]. apply fields_not_fuel in E; [done|].
  intros t f v _. repeat case_match; try done. apply wire_pair_not_fuel.
Qed.

Lemma push_ref_not_fuel refs r : push_ref self refs r <> Fuel.
Proof. unfold push_ref. by destruct (_ <? _). Qed.

Lemma packed_refs_ends fuel r refs : reader_ok r -> len r.(buf) - r.(pos) < Z.of_nat fuel ->
  packed_refs self fuel r refs <> Fuel.
Proof.
  revert r refs. induction fuel as [|fuel IH]; intros r refs Hr Hf; [unfold reader_ok in Hr; lia|]. simpl.
  destruct (is_empty r); [done|]. unfold read_varint. destruct (varint r) as [[v r1]|] eqn:Ev; [|done].
  cbn [ok_or]. apply varint_pos in Ev as (Hb & Hp & _ & Hl). unfold push_ref.
  destruct (_ <? _); [done|]. apply IH; unfold reader_ok in *; rewrite Hb; lia.
Qed.

Lemma v2_series_field_not_fuel s f v : v2_series_field self s f v <> Fuel.
Proof.
  destruct s as [records refs]. unfold v2_series_field.
  assert (Hp : forall b, packed_refs self (S (length b)) (Reader_new b) refs <> Fuel).
  { intros b. apply packed_refs_ends; [apply reader_new_ok|]. simpl. unfold len. lia. }
  assert (Hc : forall n b, check_start n b <> Fuel).
  { intros n b. apply fields_not_fuel. intros _ k w _. by repeat case_match. }
  repeat case_match; try done;
    match goal with E : ?r = Fuel |- _ => exfalso; revert E end;
    first [apply Hp|apply Hc|apply push_ref_not_fuel|apply increment_not_fuel].
Qed.

(** The three preflights terminate on every input. *)
Theorem preflight_terminates (input : bytes) :
  self.(max_attributes) <= U64_MAX ->
  loki self input <> Fuel /\ remote_write self input <> Fuel /\ remote_write_v2 self input <> Fuel.
Proof.
  intros Hmax.
  assert (Hs : forall r s, fields InvalidProtobuf (v2_series_field self) (r, []) s <> Fuel)
    by (intros; apply fields_not_fuel; intros; apply v2_series_field_not_fuel).
  split_and!; [unfold loki|unfold remote_write|unfold remote_write_v2].
  - destruct (fields _ _ _ input) eqn:E; [done|done|]. apply fields_not_fuel in E; [done|].
    intros [r g] f v _. repeat case_match; try done;
      try match goal with E : increment _ _ = Fuel |- _ => by apply increment_not_fuel in E end.
    exfalso. eapply fields_not_fuel; [|eassumption]. intros x k w _. clear - Hmax attributes_pos. cbv beta. repeat case_match; try done.
    all: match goal with E : ?r = Fuel |- _ => exfalso; revert E end;
      first [by apply loki_labels_not_fuel|apply loki_entry_not_fuel|apply increment_not_fuel].
  - destruct (fields _ _ _ input) eqn:E; [done|done|]. apply fields_not_fuel in E; [done|].
    intros [r g] f v _. repeat case_match; try done;
      try match goal with E : increment _ _ = Fuel |- _ => by apply increment_not_fuel in E end.
    exfalso. eapply fields_not_fuel; [|eassumption]. intros [x t] k w _. clear. unfold v1_series_field. repeat case_match; try done.
    all: match goal with E : ?r = Fuel |- _ => exfalso; revert E end;
      first [apply wire_pair_not_fuel|apply increment_not_fuel].
  - destruct (fields _ _ [] input) as [symbols| |] eqn:E0; [|done|].
    2: { exfalso. eapply fields_not_fuel; [|exact E0]. intros x k w _. clear. cbv beta. by repeat case_match. }
    destruct (fields _ _ (0, 0) input) eqn:E; [done|done|]. apply fields_not_fuel in E; [done|].
    intros [r g] f v _. repeat case_match; try done;
      try match goal with E : increment _ _ = Fuel |- _ => by apply increment_not_fuel in E end.
    + exfalso. eapply foldM_not_fuel; [|eassumption]. intros t [k w] _. clear. repeat case_match; try done.
      apply pair_not_fuel.
    + exfalso. by eapply Hs.
Qed.
End Budgets.

Section Witnesses.
Import Concrete.

Definition sample_limits : Limits := Limits_from (10, 10, 100, 100, 1000).

Lemma loki_preflight_bounds_witness :
  len (streams sample_decoded) <= 10 /\ stored sample_decoded + rejected sample_decoded <= 10.
Proof.
  destruct (loki_preflight_bounds sample_limits ltac:(done) ltac:(done) ltac:(done) sample_request sample_decoded)
    as (H1 & H2 & _); [done|vm_compute; reflexivity|vm_compute; reflexivity|]. split; [exact H1|exact H2].
Defined.

Lemma preflight_terminates_witness :
  loki sample_limits [10; 2; 8] <> Fuel /\ remote_write sample_limits [10; 2; 8] <> Fuel /\
  remote_write_v2 sample_limits [10; 2; 8] <> Fuel.
Proof. apply (preflight_terminates sample_limits); vm_compute; discriminate. Defined.
End Witnesses.
