(* ===== verification/Cursor.v ===== *)
(** The cursor over stored bytes shared by exemplar.rs and native_histogram.rs:
    varints, fixed-width words, counted lists, and how each is written and read
    back. *)

From S2P Require Import Prelude Float64 Wire.

(** [varint(buf, &mut pos)] is the reader's varint on a buffer and a position. *)
Definition varint (r : Reader) : option (Z * Reader) := Wire.varint r.

(** [bytes.get(pos..pos + n)?] followed by [pos += n]. *)
Definition get_word (n : Z) (r : Reader) : option (bytes * Reader) :=
  let* b := get_range r.(buf) r.(pos) (r.(pos) + n) in
  Some (b, set_pos r (r.(pos) + n)).

(** [for _ in 0..n { .. read(&mut pos)? .. }]; a turn reads at least one byte,
    so the fuel is the number of bytes. *)
Fixpoint read_n {A} (fuel : nat) (n : Z) (read : Reader -> opt (A * Reader)) (r : Reader)
    (acc : list A) : opt (list A * Reader) :=
  if n <=? 0 then Ok (acc, r)
  else match fuel with
       | O => Fuel
       | S fuel => let? (x, r) := read r in read_n fuel (n - 1) read r (acc ++ [x])
       end.

(** * Termination *)

(** A reader that consumes at least one byte of the same buffer. *)
Definition consumes {A} (read : Reader -> opt (A * Reader)) : Prop := forall r, reader_ok r ->
  read r <> Fuel /\ forall x r', read r = Ok (x, r') ->
    r'.(buf) = r.(buf) /\ r.(pos) < r'.(pos) <= len r.(buf).

Lemma read_n_consumes {A} fuel n (read : Reader -> opt (A * Reader)) r acc :
  consumes read -> reader_ok r -> len r.(buf) - r.(pos) < Z.of_nat fuel ->
  read_n fuel n read r acc <> Fuel /\ forall l r', read_n fuel n read r acc = Ok (l, r') ->
    r'.(buf) = r.(buf) /\ r.(pos) <= r'.(pos) <= len r.(buf).
Proof.
  intros Hc. revert n r acc. induction fuel as [|fuel IH]; intros n r acc Hr Hf;
    [unfold reader_ok in Hr; lia|].
  simpl. destruct (n <=? 0).
  { split; [done|]. intros l r' [= <- <-]. unfold reader_ok in Hr. split; [done|lia]. }
  destruct (Hc r Hr) as [H1 H2]. destruct (read r) as [[x r1]| |]; [|done..].
  destruct (H2 x r1 eq_refl) as [Hb Hp]. unfold reader_ok in Hr.
  destruct (IH (n - 1) r1 (acc ++ [x])) as [H3 H4]; [unfold reader_ok; rewrite Hb; lia|rewrite Hb; lia|].
  split; [done|]. intros l r' E. destruct (H4 l r' E) as [Hb2 Hp2]. rewrite Hb2, Hb. split; [done|]. rewrite Hb in Hp2. lia.
Qed.

Lemma varint_consumes r v r' : varint r = Some (v, r') -> r'.(buf) = r.(buf) /\ r.(pos) < r'.(pos) <= len r.(buf).
Proof. intros E. apply varint_pos in E as (Hb & Hp & _ & Hl). split; [done|lia]. Qed.

Lemma get_word_consumes n r b r' : 0 < n -> get_word n r = Some (b, r') ->
  r'.(buf) = r.(buf) /\ r.(pos) < r'.(pos) <= len r.(buf) /\ len b = n.
Proof.
  unfold get_word. intros Hn E. destruct (get_range _ _ _) as [x|] eqn:Eg; [|done]. injection E as <- <-.
  apply get_range_Some in Eg as (-> & H1 & H2). rewrite len_slice by lia. simpl. split; [done|lia].
Qed.

(** * Reading back *)

(** The cursor stands before [x], followed by [suf]; a slice has at most
    [isize::MAX] bytes. *)
Definition stands (r : Reader) (x suf : bytes) : Prop :=
  len r.(buf) <= I64_MAX /\ exists pre, r.(buf) = pre ++ x ++ suf /\ r.(pos) = len pre.

Definition past (r : Reader) (x : bytes) : Reader := set_pos r (r.(pos) + len x).

Lemma past_app r x y : past (past r x) y = past r (x ++ y).
Proof. unfold past, set_pos. simpl. f_equal. len_lia. Qed.
Lemma past_nil r : past r [] = r.
Proof. unfold past, set_pos. rewrite len_nil, Z.add_0_r. by destruct r. Qed.

Lemma stands_past r x y suf : stands r (x ++ y) suf -> stands (past r x) y suf.
Proof.
  intros (Hl & pre & Hb & Hp). split; [done|]. exists (pre ++ x). simpl. rewrite Hb, Hp, <- !app_assoc.
  split; [done|len_lia].
Qed.

Lemma stands_new x : len x <= I64_MAX -> stands (Reader_new x) x [].
Proof. intros Hl. split; [done|]. exists []. simpl. by rewrite app_nil_r. Qed.

Lemma stands_len r x y suf : stands r (x ++ y) suf -> len x <= I64_MAX /\ len x <= len r.(buf).
Proof. intros (Hl & pre & Hb & _). rewrite Hb in *. len_lia. Qed.

Lemma varint_stands r v y suf : 0 <= v < U64 -> stands r (put_varint v ++ y) suf ->
  varint r = Some (v, past r (put_varint v)).
Proof.
  intros Hv (_ & pre & Hb & Hp). unfold varint, past, set_pos. destruct r as [b p]. simpl in *.
  rewrite Hb, <- app_assoc, Hp. by rewrite varint_put by done.
Qed.

Lemma get_word_stands r x y suf : stands r (x ++ y) suf -> get_word (len x) r = Some (x, past r x).
Proof.
  intros (_ & pre & Hb & Hp). unfold get_word. rewrite Hb, Hp, <- app_assoc, get_range_app_mid.
  unfold past. by rewrite Hp.
Qed.

(** [read] inverts [write] on the values [P]. *)
Definition inverts {A} (P : A -> Prop) (write : A -> bytes) (read : Reader -> opt (A * Reader)) : Prop :=
  forall x r y suf, P x -> stands r (write x ++ y) suf -> read r = Ok (x, past r (write x)).

Lemma read_n_inverts {A} (P : A -> Prop) write (read : Reader -> opt (A * Reader)) l fuel r acc y suf :
  inverts P write read -> Forall P l -> (length l <= fuel)%nat ->
  stands r (concat (map write l) ++ y) suf ->
  read_n fuel (len l) read r acc = Ok (acc ++ l, past r (concat (map write l))).
Proof.
  intros Hi Hl. revert fuel r acc. induction Hl as [|x l Hx Hl IH]; intros fuel r acc Hf Hs.
  { rewrite past_nil, app_nil_r. by destruct fuel. }
  destruct fuel as [|fuel]; simpl in Hf; [lia|]. cbn [read_n].
  replace (len (x :: l) <=? 0) with false by (symmetry; apply Z.leb_gt; len_lia).
  cbn [map concat] in *. rewrite <- app_assoc in Hs. rewrite (Hi x r _ _ Hx Hs). apply stands_past in Hs.
  replace (len (x :: l) - 1) with (len l) by len_lia. rewrite IH by (done || lia).
  by rewrite past_app, <- app_assoc.
Qed.

(** A length-prefixed payload. *)
Definition put_bytes (b : bytes) : bytes := put_varint (len b) ++ b.

(** [let end = pos.checked_add(len).filter(|end| *end <= bytes.len())?]. *)
Definition get_slice (r : Reader) : opt (bytes * Reader) :=
  let? (n, r) := ok_or (varint r) tt in
  let? end_ := ok_or (checked_u64 (r.(pos) + n)) tt in
  if end_ <=? len r.(buf) then Ok (slice r.(buf) r.(pos) end_, set_pos r end_) else Nothing.

Lemma put_varint_len_ok {A} (l : list A) : len l <= I64_MAX -> 0 <= len l < U64.
Proof. pose proof (len_nonneg l). unfold I64_MAX, U64. lia. Qed.

Lemma get_slice_inverts : inverts (fun _ => True) put_bytes get_slice.
Proof.
  intros b r y suf _ Hs. unfold get_slice, put_bytes in *. rewrite <- app_assoc in Hs.
  pose proof (stands_past _ _ _ _ Hs) as Hs2. destruct (stands_len _ _ _ _ Hs2) as [Hb Hl].
  rewrite (varint_stands _ _ _ _ (put_varint_len_ok _ Hb) Hs). cbn [ok_or].
  rewrite <- past_app. set (r1 := past r (put_varint (len b))) in *. destruct Hs2 as (Hmax & pre & Hbuf & Hpos).
  unfold checked_u64, I64_MAX, U64_MAX in *. rewrite Hbuf in *. rewrite Hpos.
  replace ((0 <=? len pre + len b) && (len pre + len b <=? 18446744073709551615)) with true
    by (symmetry; apply andb_true_iff; rewrite !Z.leb_le; len_lia).
  cbn [ok_or]. replace (len pre + len b <=? _) with true by (symmetry; apply Z.leb_le; len_lia).
  rewrite <- app_assoc, slice_app_mid. unfold past. by rewrite Hpos.
Qed.

Lemma get_slice_consumes : consumes get_slice.
Proof.
  intros r Hr. unfold get_slice. destruct (varint r) as [[n r1]|] eqn:E; [|done]. cbn [ok_or].
  pose proof (varint_range _ _ _ E) as Hn. apply varint_consumes in E as [Hb Hp].
  destruct (checked_u64 _) as [en|] eqn:Ec; [|done]. cbn [ok_or]. unfold checked_u64 in Ec.
  destruct (_ && _); [|done]. injection Ec as <-.
  destruct (Z.leb_spec (pos r1 + n) (len (buf r1))); [|done]. split; [done|].
  intros x r' [= _ <-]. simpl. rewrite Hb in *. split; [done|lia].
Qed.

Lemma consumes_in_bounds {A} (read : Reader -> opt (A * Reader)) r x r' :
  consumes read -> reader_ok r -> read r = Ok (x, r') ->
  reader_ok r' /\ r'.(buf) = r.(buf) /\ r.(pos) < r'.(pos) <= len r.(buf).
Proof.
  intros Hc Hr E. destruct (Hc r Hr) as [_ H]. destruct (H x r' E) as [Hb Hp].
  unfold reader_ok in *. rewrite Hb. split_and!; done || lia.
Qed.
