(* ===== verification/MetricValue.v ===== *)
(** Metric values as Erlang terms, metric_value.rs: the BEAM has no infinities
    and no NaNs, so those are atoms. *)

From S2P Require Import Prelude Float64 JsonRead TermJson.

Definition STALE_BITS : Z := 0x7ff0000000000002.
Definition EXEMPLAR_ONLY_BITS : Z := 0x7ff0000000000003.

Definition STALE : bytes := str "stale".
Definition NAN : bytes := str "nan".
Definition INFINITY : bytes := str "infinity".
Definition NEGATIVE_INFINITY : bytes := str "negative_infinity".

Definition encode (value : Z) : Term :=
  if value =? STALE_BITS then Atom STALE
  else if f64_is_nan value then Atom NAN
  else if f64_eq value F64_INFINITY then Atom INFINITY
  else if f64_eq value F64_NEG_INFINITY then Atom NEGATIVE_INFINITY
  else FloatT value.

Definition decode (term : Term) : option Z :=
  if bool_decide (term = Atom STALE) then Some STALE_BITS
  else if bool_decide (term = Atom NAN) then Some F64_NAN
  else if bool_decide (term = Atom INFINITY) then Some F64_INFINITY
  else if bool_decide (term = Atom NEGATIVE_INFINITY) then Some F64_NEG_INFINITY
  else match term with
       | FloatT f => Some f
       | Integer i => if (I64_MIN <=? i) && (i <=? I64_MAX) then Some (f64_of_Z i) else None
       | _ => None
       end.

(** The NaNs the terms tell apart: the staleness marker and the others. *)
Definition canonical_value (v : Z) : Z :=
  if v =? STALE_BITS then v else if f64_is_nan v then F64_NAN else v.

Lemma spec_infinity v sg : 0 <= v < U64 -> SpecFloat.SFeqb (spec_of_bits v) (SpecFloat.S754_infinity sg) = true ->
  v = (if sg then F64_NEG_INFINITY else F64_INFINITY).
Proof.
  intros Hv. unfold spec_of_bits. set (s := 0x8000000000000000 <=? v).
  destruct (Z.eqb_spec (v / 2 ^ 52 mod 2048) 2047) as [He|].
  - destruct (Z.eqb_spec (v mod 2 ^ 52) 0) as [Hm|]; [|done]. intros Hs.
    assert (s = sg) as Hsg by (by destruct s, sg). rewrite <- Hsg. unfold s, U64, F64_NEG_INFINITY, F64_INFINITY in *.
    destruct (Z.leb_spec 0x8000000000000000 v); dlia.
  - intros Hs. exfalso. destruct (_ =? 0).
    + destruct (v mod 2 ^ 52), s, sg; done.
    + destruct (v mod 2 ^ 52 + 2 ^ 52), s, sg; done.
Qed.

Lemma encode_decode v : 0 <= v < U64 -> decode (encode v) = Some (canonical_value v).
Proof.
  intros Hv. unfold encode, canonical_value. destruct (Z.eqb_spec v STALE_BITS) as [->|]; [vm_compute; done|].
  destruct (f64_is_nan v); [vm_compute; done|].
  destruct (f64_eq v F64_INFINITY) eqn:E1.
  { apply (spec_infinity v false Hv) in E1 as ->. vm_compute. done. }
  destruct (f64_eq v F64_NEG_INFINITY) eqn:E2.
  { apply (spec_infinity v true Hv) in E2 as ->. vm_compute. done. }
  unfold decode. by rewrite !bool_decide_false by done.
Qed.

(** A metric value survives its term: every number, both infinities and the
    staleness marker come back bit for bit, and any other NaN comes back as the
    NaN. *)
Theorem metric_value_roundtrip (v : Z) : 0 <= v < U64 ->
  decode (encode v) = Some (if (v =? STALE_BITS) || negb (f64_is_nan v) then v else F64_NAN).
Proof.
  intros Hv. rewrite encode_decode by done. unfold canonical_value.
  by destruct (v =? STALE_BITS), (f64_is_nan v).
Qed.

Lemma metric_value_roundtrip_witness : decode (encode 0xFFF0000000000000) = Some 0xFFF0000000000000.
Proof. rewrite (metric_value_roundtrip 0xFFF0000000000000); [vm_compute; reflexivity|done]. Defined.
