(* ===== verification/Exemplar.v ===== *)
(** Prometheus exemplars, exemplar.rs: the two wire forms, the stored bytes and
    the Erlang struct. *)

From S2P Require Import Prelude Utf8 Float64 Wire Cursor JsonRead TermJson MetricValue IngestLimits.

Definition MAX_LABEL_SET_LENGTH : Z := 128.

Record Exemplar : Type := mkExemplar {
  ex_labels : list (bytes * bytes);
  ex_value : Z;
  timestamp_ms : Z
}.

(** The loop of [valid]; [None] is its early [return false]. *)
Fixpoint count_chars (labels : list (bytes * bytes)) (chars : Z) : option Z :=
  match labels with
  | [] => Some chars
  | (name, value) :: labels =>
      if negb (from_utf8_ok name && from_utf8_ok value) then None
      else if bool_decide (name = []) then None
      else count_chars labels (chars + (chars_count name + chars_count value))
  end.
Definition valid (labels : list (bytes * bytes)) : bool :=
  match count_chars labels 0 with Some chars => chars <=? MAX_LABEL_SET_LENGTH | None => false end.

Definition finish (labels : list (bytes * bytes)) (value ts : Z) : option Exemplar :=
  let labels := sort_by (fun a b => bytes_leb (fst a) (fst b)) labels in
  let unique := forallb (fun '(a, b) => negb (bytes_eqb (fst a) (fst b))) (windows2 labels) in
  if unique && valid labels then Some (mkExemplar labels value ts) else None.

Definition label_pair (pair : bytes) : opt (bytes * bytes) :=
  fields tt (fun '(name, value) field v =>
    match field, v with
    | 1, Bytes b => Ok (b, value)
    | 2, Bytes b => Ok (name, b)
    | _, _ => Ok (name, value)
    end) ([], []) pair.

Definition decode_v1 (input : bytes) : opt Exemplar :=
  let? (labels, value, ts) := fields tt (fun '(labels, value, ts) field v =>
    match field, v with
    | 2, Fixed64 b => Ok (labels, from_le_bytes b, ts)
    | 1, Bytes p => let? nv := label_pair p in Ok (labels ++ [nv], value, ts)
    | 3, Varint t => Ok (labels, value, as_i64 t)
    | _, _ => Ok (labels, value, ts)
    end) ([], 0, 0) input in
  ok_or (finish labels value ts) tt.

(** [while !inner.is_empty() { refs.push(inner.read_varint()?) }]. *)
Fixpoint packed_varints (fuel : nat) (r : Reader) (refs : list Z) : opt (list Z) :=
  match fuel with
  | O => Fuel
  | S fuel =>
      if is_empty r then Ok refs
      else
        let? (v, r) := ok_or (read_varint r) tt in
        packed_varints fuel r (refs ++ [v])
  end.

Definition decode_v2 (input : bytes) (symbols : list bytes) : opt Exemplar :=
  let? (refs, value, ts) := fields tt (fun '(refs, value, ts) field v =>
    match field, v with
    | 2, Fixed64 b => Ok (refs, from_le_bytes b, ts)
    | 1, Bytes packed =>
        let? refs := packed_varints (S (length packed)) (Reader_new packed) refs in Ok (refs, value, ts)
    | 1, Varint r => Ok (refs ++ [r], value, ts)
    | 3, Varint t => Ok (refs, value, as_i64 t)
    | _, _ => Ok (refs, value, ts)
    end) ([], 0, 0) input in
  if negb (len refs mod 2 =? 0) then Nothing
  else
    let? labels := ok_or (mapO (fun '(a, b) =>
      let* k := get symbols a in let* v := get symbols b in Some (k, v)) (chunks2 refs)) tt in
    ok_or (finish labels value ts) tt.

(** * Stored bytes *)

Definition VERSION : Z := 1.

(** Label pairs, value and nanosecond timestamp. *)
Abbreviation Stored := (list (bytes * bytes) * Z * Z)%type.

Definition put_label (nv : bytes * bytes) : bytes := put_bytes (fst nv) ++ put_bytes (snd nv).
Definition put_exemplar (e : Stored) : bytes :=
  let '(labels, value, ts) := e in
  to_le_bytes 8 (wrap_u64 ts) ++ to_le_bytes 8 value ++
  put_varint (len labels) ++ concat (map put_label labels).

Definition to_bytes (exemplars : list Stored) : bytes :=
  [VERSION] ++ put_varint (len exemplars) ++ concat (map put_exemplar exemplars).

Definition get_label (r : Reader) : opt ((bytes * bytes) * Reader) :=
  let? (name, r) := get_slice r in
  let? (value, r) := get_slice r in
  Ok ((name, value), r).

(** Adjacent names strictly increase. *)
Definition increasing (labels : list (bytes * bytes)) : bool :=
  negb (existsb (fun '(a, b) => bytes_leb (fst b) (fst a)) (windows2 labels)).

Definition get_exemplar (r : Reader) : opt (Stored * Reader) :=
  let? (ts, r) := ok_or (get_word 8 r) tt in
  let? (value, r) := ok_or (get_word 8 r) tt in
  let? (pairs, r) := ok_or (varint r) tt in
  let? (labels, r) := read_n (S (length r.(buf))) pairs get_label r [] in
  if negb (valid labels) || negb (increasing labels) then Nothing
  else Ok ((labels, from_le_bytes value, as_i64 (from_le_bytes ts)), r).

Definition from_bytes (input : bytes) : opt (list Stored) :=
  let? v := ok_or (head input) tt in
  if negb (v =? VERSION) then Nothing
  else
    let? (n, r) := ok_or (varint (mkReader input 1)) tt in
    let? (out, r) := read_n (S (length input)) n get_exemplar r [] in
    if r.(pos) =? len input then Ok out else Nothing.

(** * Terms *)

Definition EXEMPLAR : bytes := str "Elixir.Pulso.Record.Exemplar".
Definition LABELS : bytes := str "labels".
Definition VALUE : bytes := str "value".
Definition TIMESTAMP_NS : bytes := str "timestamp_ns".

(** [Term::map_from_arrays(..).expect(..)]: the names are distinct, or it panics. *)
Definition to_term (labels : list (bytes * bytes)) (value ts : Z) : option Term :=
  match map_from_arrays (map (fun nv => Binary (fst nv)) labels) (map (fun nv => Binary (snd nv)) labels) with
  | Ok ls =>
      Some (Map [(Atom STRUCT_KEY, Atom EXEMPLAR); (Atom LABELS, ls);
                 (Atom VALUE, MetricValue.encode (if f64_is_nan value then F64_NAN else value));
                 (Atom TIMESTAMP_NS, Integer ts)])
  | _ => None
  end.

(** [Term::map_get]. *)
Definition map_get (t : Term) (k : Term) : option Term :=
  match t with
  | Map entries => option_map snd (find (fun e => bool_decide (fst e = k)) entries)
  | _ => None
  end.

Definition term_bytes_of (t : Term) : option bytes := match t with Binary b => Some b | _ => None end.
Definition pair_leb (a b : bytes * bytes) : bool :=
  match bytes_compare (fst a) (fst b) with Lt => true | Gt => false | Eq => bytes_leb (snd a) (snd b) end.

Definition from_term (term : Term) : option Stored :=
  let* sk := map_get term (Atom STRUCT_KEY) in
  if negb (bool_decide (sk = Atom EXEMPLAR)) then None
  else
    let* labels_term := map_get term (Atom LABELS) in
    let* entries := match labels_term with Map es => Some es | _ => None end in
    let* labels := mapO (fun '(k, v) =>
      let* name := term_bytes_of k in let* value := term_bytes_of v in Some (name, value)) entries in
    let labels := sort_by pair_leb labels in
    if negb (valid labels) then None
    else
      let* v := map_get term (Atom VALUE) in
      let* value := MetricValue.decode v in
      let* t := map_get term (Atom TIMESTAMP_NS) in
      let* ts := match t with Integer n => checked_i64 n | _ => None end in
      Some (labels, value, ts).

(** * Stored exemplars read back *)

(** What the store accepts. *)
Definition stored_ok (e : Stored) : Prop :=
  let '(labels, value, ts) := e in
  valid labels = true /\ increasing labels = true /\ 0 <= value < U64 /\ I64_MIN <= ts <= I64_MAX.

Lemma get_label_inverts : inverts (fun _ => True) put_label get_label.
Proof.
  intros [n v] r y suf _ Hs. unfold get_label, put_label in *. cbn [fst snd] in *. rewrite <- app_assoc in Hs.
  rewrite (get_slice_inverts _ _ _ _ I Hs). apply stands_past in Hs.
  rewrite (get_slice_inverts _ _ _ _ I Hs). by rewrite past_app.
Qed.

Lemma get_label_consumes : consumes get_label.
Proof.
  intros r Hr. unfold get_label. destruct (get_slice_consumes r Hr) as [H1 _].
  destruct (get_slice r) as [[n r1]| |] eqn:E1; [|done..].
  apply (consumes_in_bounds _ _ _ _ get_slice_consumes Hr) in E1 as (Hr1 & Hb1 & Hp1).
  destruct (get_slice_consumes r1 Hr1) as [H2 _]. destruct (get_slice r1) as [[v r2]| |] eqn:E2; [|done..].
  apply (consumes_in_bounds _ _ _ _ get_slice_consumes Hr1) in E2 as (Hr2 & Hb2 & Hp2).
  split; [done|]. intros x r' [= _ <-]. rewrite Hb2, Hb1 in *. split; [done|lia].
Qed.

Lemma concat_count {A} (f : A -> bytes) l : (forall x, (1 <= length (f x))%nat) ->
  (length l <= length (concat (map f l)))%nat.
Proof. intros Hf. induction l as [|x l IH]; simpl; [done|]. rewrite length_app. specialize (Hf x). lia. Qed.

Lemma put_varint_pos v : (1 <= length (put_varint v))%nat.
Proof. pose proof (put_varint_nonempty v). unfold len in *. lia. Qed.

Lemma as_i64_wrap ts : I64_MIN <= ts <= I64_MAX -> as_i64 (wrap_u64 ts) = ts.
Proof.
  unfold as_i64, wrap_u64, I64_MIN, I64_MAX, U64. intros Hts.
  destruct (Z.leb_spec ((ts mod 18446744073709551616) mod 18446744073709551616) 9223372036854775807); dlia.
Qed.

Lemma get_exemplar_inverts : inverts stored_ok put_exemplar get_exemplar.
Proof.
  intros [[ls v] ts] r y suf (Hv & Hi & Hval & Hts) Hs. unfold get_exemplar, put_exemplar in *.
  rewrite <- !app_assoc in Hs.
  pose proof (get_word_stands _ _ _ _ Hs) as E1. rewrite to_le_bytes_len in E1. change (Z.of_nat 8) with 8 in E1. rewrite E1. cbn [ok_or].
  apply stands_past in Hs. pose proof (get_word_stands _ _ _ _ Hs) as E2. rewrite to_le_bytes_len in E2. change (Z.of_nat 8) with 8 in E2.
  rewrite E2. cbn [ok_or]. apply stands_past in Hs.
  assert (Hls : (length ls <= length (concat (map put_label ls)))%nat).
  { apply concat_count. intros [a b]. unfold put_label, put_bytes. rewrite !length_app.
    pose proof (put_varint_pos (len (fst (a, b)))). lia. }
  pose proof (stands_past _ _ _ _ Hs) as Hs2. destruct (stands_len _ _ _ _ Hs2) as [Hl Hl2].
  rewrite (fun G => varint_stands _ (len ls) _ _ G Hs) by (unfold len, I64_MAX, U64 in *; lia). cbn [ok_or].
  rewrite (fun G1 G2 => read_n_inverts _ _ _ _ _ _ _ _ _ get_label_inverts G1 G2 Hs2); [|by apply Forall_true|].
  2: { cbn [past set_pos buf] in *. unfold len in *. lia. }
  cbn [app]. rewrite Hv, Hi. cbn [negb orb].
  rewrite (from_to_le_bytes 8 v), (from_to_le_bytes 8 (wrap_u64 ts)); change (256 ^ Z.of_nat 8) with U64;
    [|by apply Z.mod_pos_bound|done].
  rewrite as_i64_wrap by done. by rewrite !past_app, <- ?app_assoc.
Qed.

Lemma get_exemplar_consumes : consumes get_exemplar.
Proof.
  intros r Hr. unfold get_exemplar.
  destruct (get_word 8 r) as [[w1 r1]|] eqn:E1; [|done]. apply get_word_consumes in E1 as (B1 & P1 & _); [|lia].
  cbn [ok_or]. destruct (get_word 8 r1) as [[w2 r2]|] eqn:E2; [|done].
  apply get_word_consumes in E2 as (B2 & P2 & _); [|lia]. cbn [ok_or].
  destruct (varint r2) as [[n r3]|] eqn:E3; [|done]. apply varint_consumes in E3 as (B3 & P3). cbn [ok_or].
  assert (B : buf r3 = buf r) by congruence. rewrite B1 in P2, B2. rewrite B2 in P3. unfold reader_ok in Hr.
  rewrite B. destruct (read_n_consumes (S (length (buf r))) n get_label r3 [] get_label_consumes) as [H1 H2];
    [unfold reader_ok; rewrite B; lia|rewrite B; unfold len in *; lia|].
  destruct (read_n _ n get_label r3 []) as [[ls r4]| |]; [|done..].
  destruct (H2 ls r4 eq_refl) as [B4 P4]. rewrite B in P4, B4. destruct (_ || _); [done|].
  split; [done|]. intros x r' [= _ <-]. split; [done|lia].
Qed.

(** Stored exemplars survive their bytes: what [to_bytes] writes for valid,
    name-sorted label sets, [from_bytes] reads back, value bits and timestamps
    included. *)
Theorem exemplar_roundtrip (l : list Stored) :
  Forall stored_ok l -> len (to_bytes l) <= I64_MAX -> from_bytes (to_bytes l) = Ok l.
Proof.
  intros Hl Hmax. unfold from_bytes.
  change (head (to_bytes l)) with (Some VERSION). cbn [ok_or]. change (negb (VERSION =? VERSION)) with false. cbv iota. pose proof (stands_new _ Hmax) as Hs. apply (stands_past _ [VERSION]) in Hs.
  change (past (Reader_new (to_bytes l)) [VERSION]) with (mkReader (to_bytes l) 1) in Hs.
  assert (Hn : (length l <= length (concat (map put_exemplar l)))%nat)
    by (apply concat_count; intros [[? ?] ?]; simpl; lia).
  pose proof (stands_past _ _ _ _ Hs) as Hs2. rewrite <- (app_nil_r (concat _)) in Hs2.
  destruct (stands_len _ _ _ _ Hs2) as [Hb Hb2].
  rewrite (fun G => varint_stands _ (len l) _ _ G Hs) by (unfold len, I64_MAX, U64 in *; lia). cbn [ok_or].
  rewrite (fun G => read_n_inverts _ _ _ _ _ _ _ _ _ get_exemplar_inverts Hl G Hs2).
  2: { change (buf (past (mkReader (to_bytes l) 1) (put_varint (len l)))) with (to_bytes l) in Hb2.
       unfold len in Hb2. lia. }
  cbn [app]. replace (_ =? _) with true; [done|]. symmetry. apply Z.eqb_eq.
  unfold past. cbn [set_pos pos]. unfold to_bytes. len_lia.
Qed.

Lemma exemplar_roundtrip_witness :
  from_bytes (to_bytes [([([97], [49]); ([98], [195; 169])], 0x3FF8000000000000, -5)]) =
  Ok [([([97], [49]); ([98], [195; 169])], 0x3FF8000000000000, -5)].
Proof.
  apply (exemplar_roundtrip [([([97], [49]); ([98], [195; 169])], 0x3FF8000000000000, -5)]).
  - constructor; [|constructor]. split_and!; vm_compute; done.
  - vm_compute. discriminate.
Defined.

(** * The decoders return *)

Lemma packed_varints_ends fuel r refs : reader_ok r -> len r.(buf) - r.(pos) < Z.of_nat fuel ->
  packed_varints fuel r refs <> Fuel.
Proof.
  revert r refs. induction fuel as [|fuel IH]; intros r refs Hr Hf; [unfold reader_ok in Hr; lia|]. simpl.
  destruct (is_empty r); [done|]. unfold Wire.read_varint. destruct (Wire.varint r) as [[v r1]|] eqn:Ev; [|done].
  apply varint_pos in Ev as (Eb & Hp & _ & Hl). cbn [ok_or]. apply IH; unfold reader_ok in *; rewrite Eb; lia.
Qed.

Lemma packed_varints_not_fuel b refs : packed_varints (S (length b)) (Reader_new b) refs <> Fuel.
Proof. apply packed_varints_ends; [apply reader_new_ok|]. simpl. unfold len. lia. Qed.

Lemma ok_or_not_fuel {E A} (o : option A) (e : E) : ok_or o e <> Fuel.
Proof. by destruct o. Qed.

Lemma decode_v1_not_fuel input : decode_v1 input <> Fuel.
Proof.
  unfold decode_v1. destruct (fields _ _ _ input) as [[[ls v] ts]| |] eqn:Ef; [apply ok_or_not_fuel|done|].
  apply fields_not_fuel in Ef; [done|]. intros [[l0 v0] t0] f w _.
  repeat case_match; try done. subst. unfold label_pair in *.
  match goal with H : fields _ _ _ _ = Fuel |- _ => apply fields_not_fuel in H; [done|] end.
  intros [a c] f' w' _. by repeat case_match.
Qed.

Lemma decode_v2_not_fuel input symbols : decode_v2 input symbols <> Fuel.
Proof.
  unfold decode_v2. destruct (fields _ _ _ input) as [[[ls v] ts]| |] eqn:Ef; [|done|].
  - destruct (negb _); [done|]. destruct (mapO _ _); [|done]. apply ok_or_not_fuel.
  - apply fields_not_fuel in Ef; [done|]. intros [[l0 v0] t0] f w _.
    repeat case_match; try done. exfalso. by eapply packed_varints_not_fuel.
Qed.

(** * What the decoders produce is storable *)

Lemma existsb_forallb_negb {A} (f : A -> bool) l : negb (existsb f l) = forallb (fun x => negb (f x)) l.
Proof. induction l as [|x l IH]; simpl; [done|]. rewrite negb_orb, IH. done. Qed.

Lemma increasing_chain labels : increasing labels = true <->
  Forall (fun '(a, b) => bytes_ltb (fst a) (fst b) = true) (windows2 labels).
Proof.
  unfold increasing. rewrite existsb_forallb_negb, forallb_forall, Forall_forall.
  split; intros H [a b] Hin; specialize (H (a, b) Hin); simpl in *; by rewrite bytes_ltb_leb in *.
Qed.

Lemma finish_ok labels value ts e : finish labels value ts = Some e ->
  valid (ex_labels e) = true /\ increasing (ex_labels e) = true /\ ex_value e = value /\ timestamp_ms e = ts /\
  ex_labels e ≡ₚ labels.
Proof.
  unfold finish. set (leb := fun a b : bytes * bytes => bytes_leb (fst a) (fst b)).
  destruct (_ && _) eqn:E; [|done]. intros [= <-]. apply andb_true_iff in E as [Eu Ev]. cbn.
  split_and!; [done| |done|done|apply sort_by_perm].
  apply increasing_chain, sort_distinct_chain. rewrite forallb_forall in Eu. apply Forall_forall.
  intros [a b] Hin. specialize (Eu (a, b) Hin). by apply negb_true_iff in Eu.
Qed.

Lemma as_i64_range v : I64_MIN <= as_i64 v <= I64_MAX.
Proof.
  unfold as_i64, wrap_u64, I64_MIN, I64_MAX, U64.
  destruct (Z.leb_spec (v mod 18446744073709551616) 9223372036854775807); dlia.
Qed.

(** The value and the timestamp a decoder has read so far. *)
Definition scalars_ok (value ts : Z) : Prop := 0 <= value < U64 /\ I64_MIN <= ts <= I64_MAX.

Lemma fixed64_range input b : byte_list input -> value_ok input (Fixed64 b) -> 0 <= from_le_bytes b < U64.
Proof.
  intros Hb (i & H1 & H2 & ->). pose proof (from_le_bytes_bound _ (byte_list_slice input i (i + 8) Hb)) as H.
  rewrite len_slice in H by lia. replace (i + 8 - i) with 8 in H by lia. exact H.
Qed.

(** An invariant of a field loop over the values the input can hold. *)
Lemma fields_value_inv {E A} (P : A -> Prop) (bad : E) (visit : A -> Z -> Value -> res E A) acc input r :
  P acc -> (forall a f v b, value_ok input v -> P a -> visit a f v = Ok b -> P b) ->
  fields bad visit acc input = Ok r -> P r.
Proof.
  intros H0 Hs. rewrite fields_fold. destruct (field_list input) as [fs ok] eqn:El.
  destruct (foldM _ acc fs) as [a| |] eqn:Ef; [|done..]. destruct ok; [|done]. intros [= <-].
  eapply (foldM_inv P); [exact H0| |exact Ef]. intros x [f v] z Hin Hx Hy.
  eapply (Hs x f v z); [|done|exact Hy]. apply (field_list_ok input f v). by rewrite El.
Qed.

Lemma decode_v1_ok input e : byte_list input -> decode_v1 input = Ok e ->
  stored_ok (ex_labels e, ex_value e, timestamp_ms e).
Proof.
  intros Hb. unfold decode_v1. destruct (fields _ _ _ input) as [[[ls v] ts]| |] eqn:Ef; [|done..].
  apply (fields_value_inv (fun '(_, v, ts) => scalars_ok v ts)) in Ef as [Hv Ht].
  - destruct (finish ls v ts) as [x|] eqn:Ex; [|done]. intros [= <-].
    apply finish_ok in Ex as (H1 & H2 & -> & -> & _). exact (conj H1 (conj H2 (conj Hv Ht))).
  - split; vm_compute; split; done || discriminate.
  - intros [[l0 v0] t0] f w [[l1 v1] t1] Hw [Hv Ht].
    destruct f as [|[[p|p|]|[p|p|]|]|p], w as [n|b|b|]; simpl; try (by intros [= <- <- <-]).
    + intros [= <- <- <-]. split; [done|apply as_i64_range].
    + intros [= <- <- <-]. split; [exact (fixed64_range _ _ Hb Hw)|done].
    + destruct (label_pair b); [|done..]. by intros [= <- <- <-].
Qed.

Lemma decode_v2_ok input symbols e : byte_list input -> decode_v2 input symbols = Ok e ->
  stored_ok (ex_labels e, ex_value e, timestamp_ms e).
Proof.
  intros Hb. unfold decode_v2. destruct (fields _ _ _ input) as [[[ls v] ts]| |] eqn:Ef; [|done..].
  apply (fields_value_inv (fun '(_, v, ts) => scalars_ok v ts)) in Ef as [Hv Ht].
  - destruct (negb _); [done|]. destruct (mapO _ _) as [labels|]; [|done]. cbn [ok_or].
    destruct (finish labels v ts) as [x|] eqn:Ex; [|done]. intros [= <-].
    apply finish_ok in Ex as (H1 & H2 & -> & -> & _). exact (conj H1 (conj H2 (conj Hv Ht))).
  - split; vm_compute; split; done || discriminate.
  - intros [[l0 v0] t0] f w [[l1 v1] t1] Hw [Hv Ht].
    destruct f as [|[[p|p|]|[p|p|]|]|p], w as [n|b|b|]; cbn beta iota; try (by intros [= <- <- <-]).
    + intros [= <- <- <-]. split; [done|apply as_i64_range].
    + intros [= <- <- <-]. split; [exact (fixed64_range _ _ Hb Hw)|done].
    + destruct (packed_varints _ _ _); [|done..]. by intros [= <- <- <-].
Qed.

(** Whatever a remote-write exemplar holds, decoding it yields a storable
    one: label names sorted and unique, non-empty and well-formed UTF-8, at
    most 128 characters in all, and scalars of their widths. *)
Theorem exemplar_decode_storable (input : bytes) (symbols : list bytes) (e : Exemplar) :
  byte_list input -> decode_v1 input = Ok e \/ decode_v2 input symbols = Ok e ->
  stored_ok (ex_labels e, ex_value e, timestamp_ms e).
Proof. intros Hb [E|E]; [by eapply decode_v1_ok|by eapply decode_v2_ok]. Qed.

(** A v1 message: the label a = 1, a value and a negative timestamp. *)
Definition sample_v1 : bytes :=
  encode_message [(1, Bytes (encode_message [(1, Bytes [97]); (2, Bytes [49])]));
                  (2, Fixed64 [0; 0; 0; 0; 0; 0; 248; 63]); (3, Varint (U64 - 5))].

Lemma exemplar_decode_storable_witness :
  stored_ok ([([97], [49])], 0x3FF8000000000000, -5).
Proof.
  apply (exemplar_decode_storable sample_v1 [] (mkExemplar [([97], [49])] 0x3FF8000000000000 (-5))).
  - repeat (constructor; [vm_compute; split; done || discriminate|]). constructor.
  - left. vm_compute. reflexivity.
Defined.

(** What [from_bytes] answers is storable, and it always answers. *)
Lemma read_n_Forall {A} (P : A -> Prop) fuel n (read : Reader -> opt (A * Reader)) r acc l r' :
  consumes read -> (forall r x r', byte_list r.(buf) -> read r = Ok (x, r') -> P x) ->
  reader_ok r -> byte_list r.(buf) -> Forall P acc -> read_n fuel n read r acc = Ok (l, r') -> Forall P l.
Proof.
  intros Hc Hp. revert n r acc. induction fuel as [|fuel IH]; intros n r acc Hr Hb Ha E; simpl in E;
    (destruct (n <=? 0); [by injection E as <- <-|]); [done|].
  destruct (read r) as [[x r1]| |] eqn:Er; [|done..].
  pose proof (consumes_in_bounds _ _ _ _ Hc Hr Er) as (Hr1 & Hb1 & _). apply Hp in Er as Hx; [|done].
  eapply IH; [| | |exact E]; [done|by rewrite Hb1|]. apply Forall_app. split; [done|by constructor].
Qed.

Lemma get_word_buf n r b r' : get_word n r = Some (b, r') ->
  buf r' = buf r /\ exists i, b = slice r.(buf) i (i + n) /\ 0 <= i /\ i <= i + n <= len r.(buf).
Proof.
  unfold get_word. destruct (get_range _ _ _) as [x|] eqn:E; [|done]. intros [= <- <-]. split; [done|].
  apply get_range_Some in E as (-> & H1 & H2). exists (pos r). split; [done|lia].
Qed.

Lemma get_exemplar_ok r e r' : byte_list r.(buf) -> get_exemplar r = Ok (e, r') -> stored_ok e.
Proof.
  intros Hb E. unfold get_exemplar in E. destruct (get_word 8 r) as [[w1 r1]|] eqn:E1; [|done]. cbn [ok_or] in E.
  apply get_word_buf in E1 as [B1 _].
  destruct (get_word 8 r1) as [[w2 r2]|] eqn:E2; [|done]. cbn [ok_or] in E.
  apply get_word_buf in E2 as (_ & j & Ew & Hj). destruct (varint r2) as [[n r3]|]; [|done]. cbn [ok_or] in E.
  destruct (read_n _ _ _ _ _) as [[ls r4]| |]; [|done..]. destruct (valid ls) eqn:Ev; [|done].
  destruct (increasing ls) eqn:Ei; [|done]. injection E as <- <-.
  split; [done|]. split; [done|]. split; [|apply as_i64_range].
  rewrite B1 in *. rewrite Ew. apply (fixed64_range (buf r)); [done|]. exists j. split_and!; [lia|lia|done].
Qed.

(** Reading stored bytes always answers, and what it answers is storable:
    corrupt bytes cannot bring back an unsorted, duplicated, oversized or
    ill-formed label set. *)
Theorem exemplar_from_bytes_sound (input : bytes) : byte_list input ->
  match from_bytes input with
  | Ok l => Forall stored_ok l
  | Err _ => True
  | Fuel => False
  end.
Proof.
  intros Hb. unfold from_bytes. destruct (head input) as [v|] eqn:Eh; [|done]. cbn [ok_or].
  destruct (negb _); [done|]. destruct (varint (mkReader input 1)) as [[n r]|] eqn:Ev; [|done]. cbn [ok_or].
  apply varint_consumes in Ev as [Hbuf Hp]. cbn [buf pos] in *.
  assert (Hr : reader_ok r) by (unfold reader_ok; rewrite Hbuf; lia).
  destruct (read_n_consumes (S (length input)) n get_exemplar r [] get_exemplar_consumes Hr) as [Hf _];
    [rewrite Hbuf; unfold len in *; lia|].
  destruct (read_n _ n _ r []) as [[l r']| |] eqn:Er; [|done|done]. destruct (_ =? _); [|done].
  apply (read_n_Forall stored_ok) in Er; [done|apply get_exemplar_consumes| |done|by rewrite Hbuf|constructor].
  intros. by eapply get_exemplar_ok.
Qed.

Lemma exemplar_from_bytes_sound_witness :
  Forall stored_ok [([([97], [49])], 0x3FF8000000000000, -5)].
Proof.
  pose proof (exemplar_from_bytes_sound (to_bytes [([([97], [49])], 0x3FF8000000000000, -5)])) as H.
  assert (E : from_bytes (to_bytes [([([97], [49])], 0x3FF8000000000000, -5)]) =
    Ok [([([97], [49])], 0x3FF8000000000000, -5)]) by (vm_compute; reflexivity).
  rewrite E in H. apply H. repeat (constructor; [vm_compute; split; done || discriminate|]). constructor.
Defined.

(** * Terms read back *)

Lemma pair_leb_increasing labels : increasing labels = true -> sorted pair_leb labels.
Proof.
  intros Hi. apply increasing_chain in Hi. unfold sorted. eapply Forall_impl; [|exact Hi].
  intros [a b] Hab. unfold pair_leb. unfold bytes_ltb in Hab. by destruct (bytes_compare (fst a) (fst b)).
Qed.

Lemma mapO_binaries labels :
  mapO (fun '(k, v) => let* name := term_bytes_of k in let* value := term_bytes_of v in Some (name, value))
    (zip (map (fun nv => Binary (fst nv)) labels) (map (fun nv => Binary (snd nv)) labels)) = Some labels.
Proof. induction labels as [|[n v] labels IH]; simpl; [done|]. by rewrite IH. Qed.

(** A stored exemplar survives its Erlang struct: building the term never
    panics, and reading it back gives the exemplar, with any NaN value made the
    canonical one. *)
Theorem exemplar_term_roundtrip (labels : list (bytes * bytes)) (value ts : Z) :
  stored_ok (labels, value, ts) ->
  exists t, to_term labels value ts = Some t /\
    from_term t = Some (labels, if f64_is_nan value then F64_NAN else value, ts).
Proof.
  intros (Hv & Hi & Hval & Hts). unfold to_term, map_from_arrays.
  assert (Hnd : NoDup (map (fun nv : bytes * bytes => Binary (fst nv)) labels)).
  { rewrite <- (map_map fst Binary). assert (Inj eq eq Binary) by (intros ? ? [=]; done).
    apply (NoDup_fmap_2 Binary), chain_nodup. by apply increasing_chain. }
  rewrite bool_decide_true by done. eexists. split; [done|]. unfold from_term.
  set (v := if f64_is_nan value then F64_NAN else value).
  assert (Ev : MetricValue.decode (MetricValue.encode v) = Some v).
  { unfold v. destruct (f64_is_nan value) eqn:En; [vm_compute; reflexivity|].
    rewrite encode_decode by done. unfold canonical_value. rewrite En. by destruct (_ =? _). }
  generalize dependent (MetricValue.encode v). intros tv Ev.
  match goal with |- context [(Atom LABELS, ?l)] => remember l as tl eqn:El end.
  match goal with |- context [map_get ?t _] => set (T := t);
    assert (map_get T (Atom STRUCT_KEY) = Some (Atom EXEMPLAR) /\ map_get T (Atom LABELS) = Some tl /\
      map_get T (Atom VALUE) = Some tv /\ map_get T (Atom TIMESTAMP_NS) = Some (Integer ts))
      as (-> & -> & -> & ->) by (split_and!; reflexivity) end.
  rewrite bool_decide_true by done. cbn [negb]. rewrite El, mapO_binaries.
  rewrite (sort_by_id pair_leb labels (pair_leb_increasing _ Hi)), Hv. cbn [negb].
  rewrite Ev. unfold checked_i64. by replace ((I64_MIN <=? ts) && (ts <=? I64_MAX)) with true
    by (symmetry; apply andb_true_iff; rewrite !Z.leb_le; done).
Qed.

Lemma exemplar_term_roundtrip_witness :
  exists t, to_term [([97], [49])] 0x7ff0000000000002 (-5) = Some t /\
    from_term t = Some ([([97], [49])], F64_NAN, -5).
Proof.
  apply (exemplar_term_roundtrip [([97], [49])] 0x7ff0000000000002 (-5)).
  split; [done|]. split; [done|]. split; vm_compute; split; done || discriminate.
Defined.
