(* ===== verification/NativeHistogram.v ===== *)
(** Prometheus native histograms, native_histogram.rs: the wire message, its
    validation, the stored bytes and the Erlang struct. *)

From S2P Require Import Prelude Float64 Wire Cursor JsonRead TermJson MetricValue Exemplar.

Definition CUSTOM_BUCKETS_SCHEMA : Z := -53.

Abbreviation Spans := (list (Z * Z)).

Record Histogram : Type := mkHistogram {
  schema : Z;
  zero_threshold : Z;
  zero_count : Z;
  count : Z;
  sum : Z;
  positive_spans : Spans;
  positive : list Z;
  negative_spans : Spans;
  negative : list Z;
  reset_hint : Z;
  custom_values : list Z
}.

(** * Wire *)

(** [((v >> 1) as i64) ^ -((v & 1) as i64)]. *)
Definition zigzag (v : Z) : Z := Z.lxor (Z.shiftr v 1) (- Z.land v 1).

Definition double (v : Value) : option Z :=
  match v with Fixed64 b => Some (from_le_bytes b) | _ => None end.

Definition varint_field (v : Value) : option Z :=
  match v with Varint n => Some n | _ => None end.

(** [bytes.as_chunks::<8>().0]. *)
Fixpoint chunks8 (b : bytes) : list bytes :=
  match b with
  | b0 :: b1 :: b2 :: b3 :: b4 :: b5 :: b6 :: b7 :: b => [b0; b1; b2; b3; b4; b5; b6; b7] :: chunks8 b
  | _ => []
  end.

Definition doubles (v : Value) (out : list Z) : option (list Z) :=
  match v with
  | Bytes b => if len b mod 8 =? 0 then Some (out ++ map from_le_bytes (chunks8 b)) else None
  | Fixed64 b => Some (out ++ [from_le_bytes b])
  | _ => None
  end.

Definition sint64s (v : Value) (out : list Z) : opt (list Z) :=
  match v with
  | Bytes b => let? vs := packed_varints (S (length b)) (Reader_new b) [] in Ok (out ++ map zigzag vs)
  | Varint n => Ok (out ++ [zigzag n])
  | _ => Nothing
  end.

Definition span (input : bytes) : opt (Z * Z) :=
  fields tt (fun '(offset, length_) field v =>
    match field, v with
    | 1, Varint n => let? o := ok_or (checked_i32 (zigzag n)) tt in Ok (o, length_)
    | 2, Varint n => let? l := ok_or (checked_u32 n) tt in Ok (offset, l)
    | _, _ => Ok (offset, length_)
    end) (0, 0) input.

(** Integer bucket counts arrive as deltas from the previous bucket. *)
Fixpoint absolute_from (current : Z) (deltas : list Z) : option (list Z) :=
  match deltas with
  | [] => Some []
  | delta :: deltas =>
      let* current := checked_i64 (current + delta) in
      let* rest := absolute_from current deltas in
      Some (f64_of_Z current :: rest)
  end.
Definition absolute (deltas : list Z) : option (list Z) := absolute_from 0 deltas.

Definition covered (spans : Spans) : Z := fold_right (fun s n => snd s + n) 0 spans.

Definition is_nil {A} (l : list A) : bool := match l with [] => true | _ => false end.

Definition validate (h : Histogram) : bool :=
  let custom := h.(schema) =? CUSTOM_BUCKETS_SCHEMA in
  let schema_ok := custom || ((-4 <=? h.(schema)) && (h.(schema) <=? 8)) in
  let custom_ok :=
    if custom then
      is_nil h.(negative) && is_nil h.(negative_spans)
      && forallb f64_is_finite h.(custom_values)
      && forallb (fun '(a, b) => f64_lt a b) (windows2 h.(custom_values))
      && match h.(positive_spans) with [] => true | (offset, _) :: _ => 0 <=? offset end
    else is_nil h.(custom_values) in
  schema_ok && custom_ok
  && (covered h.(positive_spans) =? len h.(positive))
  && (covered h.(negative_spans) =? len h.(negative))
  && forallb (fun '(offset, _) => 0 <=? offset) (drop 1 h.(positive_spans))
  && forallb (fun '(offset, _) => 0 <=? offset) (drop 1 h.(negative_spans))
  && f64_le 0 h.(zero_threshold).

(** The local variables of [decode_wire]. *)
Record State : Type := mkState {
  hist : Histogram;
  timestamp : Z;
  integer : option bool;
  positive_deltas : list Z;
  negative_deltas : list Z
}.

Definition empty_histogram : Histogram := mkHistogram 0 0 0 0 0 [] [] [] [] 0 [].

Definition with_hist (s : State) (h : Histogram) : State :=
  mkState h s.(timestamp) s.(integer) s.(positive_deltas) s.(negative_deltas).

Definition set_count (s : State) (c : Z) (int : bool) : State :=
  let h := s.(hist) in
  mkState (mkHistogram h.(schema) h.(zero_threshold) h.(zero_count) c h.(sum) h.(positive_spans) h.(positive)
             h.(negative_spans) h.(negative) h.(reset_hint) h.(custom_values))
          s.(timestamp) (Some int) s.(positive_deltas) s.(negative_deltas).

(** The body of the field loop. *)
Definition wire_field (s : State) (number : Z) (v : Value) : opt State :=
  let h := s.(hist) in
  let '(mkHistogram sc zt zc c su ps p ns n rh cv) := h in
  match number with
  | 1 => let? x := ok_or (varint_field v) tt in Ok (set_count s (f64_of_Z x) true)
  | 2 => let? x := ok_or (double v) tt in Ok (set_count s x false)
  | 3 => let? x := ok_or (double v) tt in Ok (with_hist s (mkHistogram sc zt zc c x ps p ns n rh cv))
  | 4 =>
      let? x := ok_or (varint_field v) tt in
      let? x := ok_or (checked_i32 (zigzag x)) tt in
      Ok (with_hist s (mkHistogram x zt zc c su ps p ns n rh cv))
  | 5 => let? x := ok_or (double v) tt in Ok (with_hist s (mkHistogram sc x zc c su ps p ns n rh cv))
  | 6 =>
      let? x := ok_or (varint_field v) tt in
      Ok (with_hist s (mkHistogram sc zt (f64_of_Z x) c su ps p ns n rh cv))
  | 7 => let? x := ok_or (double v) tt in Ok (with_hist s (mkHistogram sc zt x c su ps p ns n rh cv))
  | 8 =>
      match v with
      | Bytes b => let? x := span b in Ok (with_hist s (mkHistogram sc zt zc c su ps p (ns ++ [x]) n rh cv))
      | _ => Nothing
      end
  | 11 =>
      match v with
      | Bytes b => let? x := span b in Ok (with_hist s (mkHistogram sc zt zc c su (ps ++ [x]) p ns n rh cv))
      | _ => Nothing
      end
  | 9 =>
      let? x := sint64s v s.(negative_deltas) in
      Ok (mkState h s.(timestamp) s.(integer) s.(positive_deltas) x)
  | 12 =>
      let? x := sint64s v s.(positive_deltas) in
      Ok (mkState h s.(timestamp) s.(integer) x s.(negative_deltas))
  | 10 => let? x := ok_or (doubles v n) tt in Ok (with_hist s (mkHistogram sc zt zc c su ps p ns x rh cv))
  | 13 => let? x := ok_or (doubles v p) tt in Ok (with_hist s (mkHistogram sc zt zc c su ps x ns n rh cv))
  | 14 =>
      let? x := ok_or (varint_field v) tt in
      let? x := ok_or (checked_u8 x) tt in
      if x <=? 3 then Ok (with_hist s (mkHistogram sc zt zc c su ps p ns n x cv)) else Nothing
  | 15 =>
      let? x := ok_or (varint_field v) tt in
      Ok (mkState h (as_i64 x) s.(integer) s.(positive_deltas) s.(negative_deltas))
  | 16 => let? x := ok_or (doubles v cv) tt in Ok (with_hist s (mkHistogram sc zt zc c su ps p ns n rh x))
  | _ => Ok s
  end.

(** [iter().sum::<f64>()] starts from the negative zero. *)
Definition f64_sum (l : list Z) : Z := fold_left f64_add l 0x8000000000000000.

(** Buckets of an integer histogram. *)
Definition integer_buckets (s : State) : option Histogram :=
  let '(mkHistogram sc zt zc c su ps p ns n rh cv) := s.(hist) in
  if negb (is_nil p) || negb (is_nil n) then None
  else
    let* p := absolute s.(positive_deltas) in
    let* n := absolute s.(negative_deltas) in
    let held := f64_add (f64_add zc (f64_sum p)) (f64_sum n) in
    if existsb (fun c => f64_lt c 0) (p ++ n) || f64_lt c held then None
    else Some (mkHistogram sc zt zc c su ps p ns n rh cv).

Definition decode_wire (input : bytes) : opt (Histogram * Z) :=
  let? s := fields tt wire_field (mkState empty_histogram 0 None [] []) input in
  let is_int := default (is_nil s.(hist).(positive) && is_nil s.(hist).(negative)) s.(integer) in
  let? h :=
    if is_int then ok_or (integer_buckets s) tt
    else if negb (is_nil s.(positive_deltas)) || negb (is_nil s.(negative_deltas)) then Nothing
    else Ok s.(hist) in
  if validate h then Ok (h, s.(timestamp)) else Nothing.

(** * Stored bytes *)

Definition VERSION : Z := 1.

(** [((v << 1) ^ (v >> 63)) as u64]. *)
Definition put_zigzag (v : Z) : bytes :=
  put_varint (wrap_u64 (Z.lxor (as_i64 (Z.shiftl v 1)) (Z.shiftr v 63))).

Definition put_float (v : Z) : bytes := to_le_bytes 8 v.
Definition put_floats (values : list Z) : bytes := put_varint (len values) ++ concat (map put_float values).

Definition put_span (s : Z * Z) : bytes := put_zigzag (fst s) ++ put_varint (snd s).
Definition put_spans (spans : Spans) : bytes := put_varint (len spans) ++ concat (map put_span spans).

Definition to_bytes (h : Histogram) : bytes :=
  [VERSION] ++ put_zigzag h.(schema) ++
  put_float h.(zero_threshold) ++ put_float h.(zero_count) ++ put_float h.(count) ++ put_float h.(sum) ++
  [h.(reset_hint)] ++ put_spans h.(positive_spans) ++ put_floats h.(positive) ++
  put_spans h.(negative_spans) ++ put_floats h.(negative) ++ put_floats h.(custom_values).

Definition get_float (r : Reader) : opt (Z * Reader) :=
  let? (w, r) := ok_or (get_word 8 r) tt in Ok (from_le_bytes w, r).

(** A count that exceeds the input is refused before the loop. *)
Definition get_list {A} (read : Reader -> opt (A * Reader)) (r : Reader) : opt (list A * Reader) :=
  let? (n, r) := ok_or (varint r) tt in
  if len r.(buf) <? n then Nothing else read_n (S (length r.(buf))) n read r [].

Definition get_zigzag (r : Reader) : opt (Z * Reader) :=
  let? (v, r) := ok_or (varint r) tt in
  let? v := ok_or (checked_i32 (zigzag v)) tt in
  Ok (v, r).

Definition get_span (r : Reader) : opt ((Z * Z) * Reader) :=
  let? (offset, r) := get_zigzag r in
  let? (l, r) := ok_or (varint r) tt in
  let? l := ok_or (checked_u32 l) tt in
  Ok ((offset, l), r).

Definition get_byte (r : Reader) : opt (Z * Reader) :=
  let? b := ok_or (get r.(buf) r.(pos)) tt in Ok (b, set_pos r (r.(pos) + 1)).

Definition from_bytes (input : bytes) : opt Histogram :=
  let? v := ok_or (head input) tt in
  if negb (v =? VERSION) then Nothing
  else
    let? (sc, r) := get_zigzag (mkReader input 1) in
    let? (zt, r) := get_float r in
    let? (zc, r) := get_float r in
    let? (c, r) := get_float r in
    let? (su, r) := get_float r in
    let? (rh, r) := get_byte r in
    let? (ps, r) := get_list get_span r in
    let? (p, r) := get_list get_float r in
    let? (ns, r) := get_list get_span r in
    let? (n, r) := get_list get_float r in
    let? (cv, r) := get_list get_float r in
    let h := mkHistogram sc zt zc c su ps p ns n rh cv in
    if (r.(pos) =? len input) && (rh <=? 3) && validate h then Ok h else Nothing.

(** * Terms *)

Definition NATIVE_HISTOGRAM : Term := Atom (str "Elixir.Pulso.Record.NativeHistogram").
Definition K_SCHEMA : Term := Atom (str "schema").
Definition K_ZERO_THRESHOLD : Term := Atom (str "zero_threshold").
Definition K_ZERO_COUNT : Term := Atom (str "zero_count").
Definition K_COUNT : Term := Atom (str "count").
Definition K_SUM : Term := Atom (str "sum").
Definition K_POSITIVE_SPANS : Term := Atom (str "positive_spans").
Definition K_POSITIVE : Term := Atom (str "positive_buckets").
Definition K_NEGATIVE_SPANS : Term := Atom (str "negative_spans").
Definition K_NEGATIVE : Term := Atom (str "negative_buckets").
Definition K_HINT : Term := Atom (str "counter_reset_hint").
Definition K_CUSTOM : Term := Atom (str "custom_values").

(** Unknown, yes, no, gauge. *)
Definition HINTS : list Term := [Atom (str "unknown"); Atom (str "yes"); Atom (str "no"); Atom (str "gauge")].

(** Only the sum may carry the staleness marker. *)
Definition canonical (v : Z) : Z := if f64_is_nan v then F64_NAN else v.

Definition number_term (v : Z) : Term := MetricValue.encode (canonical v).
Definition floats_term (l : list Z) : Term := List (map number_term l).
Definition spans_term (l : Spans) : Term := List (map (fun s => Tuple [Integer (fst s); Integer (snd s)]) l).

Definition hint_term (h : Z) : Term :=
  if h =? 1 then Atom (str "yes") else if h =? 2 then Atom (str "no")
  else if h =? 3 then Atom (str "gauge") else Atom (str "unknown").

Definition to_term (h : Histogram) : Term :=
  Map [(Atom STRUCT_KEY, NATIVE_HISTOGRAM); (K_SCHEMA, Integer h.(schema));
       (K_ZERO_THRESHOLD, number_term h.(zero_threshold)); (K_ZERO_COUNT, number_term h.(zero_count));
       (K_COUNT, number_term h.(count)); (K_SUM, MetricValue.encode h.(sum));
       (K_POSITIVE_SPANS, spans_term h.(positive_spans)); (K_POSITIVE, floats_term h.(positive));
       (K_NEGATIVE_SPANS, spans_term h.(negative_spans)); (K_NEGATIVE, floats_term h.(negative));
       (K_HINT, hint_term h.(reset_hint)); (K_CUSTOM, floats_term h.(custom_values))].

Definition decode_i32 (t : Term) : option Z := match t with Integer n => checked_i32 n | _ => None end.
Definition decode_u32 (t : Term) : option Z := match t with Integer n => checked_u32 n | _ => None end.
Definition decode_number (t : Term) : option Z := option_map canonical (MetricValue.decode t).
Definition decode_floats (t : Term) : option (list Z) :=
  match t with List l => mapO decode_number l | _ => None end.
Definition decode_spans (t : Term) : option Spans :=
  match t with
  | List l => mapO (fun t => match t with
      | Tuple [a; b] => let* o := decode_i32 a in let* n := decode_u32 b in Some (o, n)
      | _ => None end) l
  | _ => None
  end.

Fixpoint hint_index (t : Term) (i : Z) (hints : list Term) : option Z :=
  match hints with
  | [] => None
  | a :: hints => if bool_decide (t = a) then Some i else hint_index t (i + 1) hints
  end.

Definition from_term (term : Term) : option Histogram :=
  let* sk := map_get term (Atom STRUCT_KEY) in
  if negb (bool_decide (sk = NATIVE_HISTOGRAM)) then None
  else
    let* hint := map_get term K_HINT in
    let* rh := hint_index hint 0 HINTS in
    let* t := map_get term K_SCHEMA in let* sc := decode_i32 t in
    let* t := map_get term K_ZERO_THRESHOLD in let* zt := decode_number t in
    let* t := map_get term K_ZERO_COUNT in let* zc := decode_number t in
    let* t := map_get term K_COUNT in let* c := decode_number t in
    let* t := map_get term K_SUM in let* su := MetricValue.decode t in
    let* t := map_get term K_POSITIVE_SPANS in let* ps := decode_spans t in
    let* t := map_get term K_POSITIVE in let* p := decode_floats t in
    let* t := map_get term K_NEGATIVE_SPANS in let* ns := decode_spans t in
    let* t := map_get term K_NEGATIVE in let* n := decode_floats t in
    let* t := map_get term K_CUSTOM in let* cv := decode_floats t in
    let h := mkHistogram sc zt zc c su ps p ns n rh cv in
    if validate h then Some h else None.

(** * Zigzag *)

Definition is_i32 (v : Z) : Prop := -2147483648 <= v <= 2147483647.
Definition is_u32 (v : Z) : Prop := 0 <= v <= 4294967295.
Definition is_f64 (v : Z) : Prop := 0 <= v < U64.

(** The unsigned word that stands for [v]. *)
Definition zag (v : Z) : Z := wrap_u64 (Z.lxor (as_i64 (Z.shiftl v 1)) (Z.shiftr v 63)).

Lemma zag_value v : I64_MIN <= v <= I64_MAX -> zag v = if v <? 0 then -2 * v - 1 else 2 * v.
Proof.
  intros Hv. unfold zag. rewrite Z.shiftl_mul_pow2, Z.shiftr_div_pow2 by lia.
  unfold as_i64, wrap_u64, I64_MIN, I64_MAX, U64 in *. destruct (Z.ltb_spec v 0).
  - replace (v / 2 ^ 63) with (-1) by dlia. rewrite Z.lxor_m1_r. unfold Z.lnot.
    destruct (Z.leb_spec ((v * 2 ^ 1) mod 18446744073709551616) 9223372036854775807); dlia.
  - replace (v / 2 ^ 63) with 0 by dlia. rewrite Z.lxor_0_r.
    destruct (Z.leb_spec ((v * 2 ^ 1) mod 18446744073709551616) 9223372036854775807); dlia.
Qed.

Lemma land_1 v : Z.land v 1 = v mod 2.
Proof. change 1 with (Z.ones 1). by rewrite Z.land_ones. Qed.

Lemma zigzag_zag v : I64_MIN <= v <= I64_MAX -> zigzag (zag v) = v.
Proof.
  intros Hv. rewrite zag_value by done. unfold zigzag. rewrite Z.shiftr_div_pow2, land_1 by lia.
  destruct (Z.ltb_spec v 0).
  - replace ((-2 * v - 1) mod 2) with 1 by dlia. rewrite Z.lxor_m1_r. unfold Z.lnot. dlia.
  - replace ((2 * v) mod 2) with 0 by dlia. rewrite Z.lxor_0_r. dlia.
Qed.

(** Zigzag loses nothing: every 64-bit integer comes back from the word
    that stores it, and small magnitudes give small words. *)
Theorem zigzag_roundtrip (v : Z) : I64_MIN <= v <= I64_MAX ->
  zigzag (zag v) = v /\ put_zigzag v = put_varint (zag v) /\ zag v <= 2 * Z.abs v.
Proof.
  intros Hv. split; [by apply zigzag_zag|]. split; [done|]. rewrite zag_value by done.
  destruct (Z.ltb_spec v 0); lia.
Qed.

Lemma zigzag_roundtrip_witness : zigzag (zag I64_MIN) = I64_MIN.
Proof. apply (zigzag_roundtrip I64_MIN). vm_compute. split; discriminate. Defined.

(** * Stored bytes read back *)

Lemma zag_range v : is_i32 v -> 0 <= zag v < U64.
Proof. intros _. by apply Z.mod_pos_bound. Qed.

Lemma get_zigzag_inverts : inverts is_i32 put_zigzag get_zigzag.
Proof.
  intros v r y suf Hv Hs. unfold get_zigzag. change (put_zigzag v) with (put_varint (zag v)) in *.
  rewrite (varint_stands _ _ _ _ (zag_range v Hv) Hs). cbn [ok_or].
  unfold is_i32 in Hv. rewrite zigzag_zag by (unfold I64_MIN, I64_MAX; lia). unfold checked_i32.
  by replace ((-2147483648 <=? v) && (v <=? 2147483647)) with true
    by (symmetry; apply andb_true_iff; rewrite !Z.leb_le; lia).
Qed.

Lemma get_float_inverts : inverts is_f64 put_float get_float.
Proof.
  intros v r y suf Hv Hs. unfold get_float, put_float in *. pose proof (get_word_stands _ _ _ _ Hs) as E.
  rewrite to_le_bytes_len in E. change (Z.of_nat 8) with 8 in E. rewrite E. cbn [ok_or].
  by rewrite from_to_le_bytes.
Qed.

Lemma get_span_inverts : inverts (fun s => is_i32 (fst s) /\ is_u32 (snd s)) put_span get_span.
Proof.
  intros [o l] r y suf [Ho Hl] Hs. unfold get_span, put_span in *. cbn [fst snd] in *. rewrite <- app_assoc in Hs.
  rewrite (get_zigzag_inverts _ _ _ _ Ho Hs). apply stands_past in Hs. unfold is_u32 in Hl.
  rewrite (fun G => varint_stands _ _ _ _ G Hs) by (unfold U64; lia). cbn [ok_or]. unfold checked_u32.
  replace ((0 <=? l) && (l <=? 4294967295)) with true by (symmetry; apply andb_true_iff; rewrite !Z.leb_le; lia).
  cbn [ok_or]. by rewrite past_app.
Qed.

Lemma get_byte_stands r b y suf : stands r ([b] ++ y) suf -> get_byte r = Ok (b, past r [b]).
Proof.
  intros (_ & pre & Hb & Hp). unfold get_byte. rewrite Hb, Hp. cbn [app]. rewrite get_app_mid. cbn [ok_or].
  unfold past. rewrite Hp. done.
Qed.

Definition put_list {A} (put : A -> bytes) (l : list A) : bytes := put_varint (len l) ++ concat (map put l).

Lemma get_list_inverts {A} (P : A -> Prop) put (read : Reader -> opt (A * Reader)) :
  inverts P put read -> (forall x, (1 <= length (put x))%nat) ->
  inverts (Forall P) (put_list put) (get_list read).
Proof.
  intros Hi Hn l r y suf Hl Hs. unfold get_list, put_list in *. rewrite <- app_assoc in Hs.
  pose proof (stands_past _ _ _ _ Hs) as Hs2. destruct (stands_len _ _ _ _ Hs2) as [Hb Hb2].
  pose proof (concat_count put l Hn) as Hc.
  rewrite (fun G => varint_stands _ _ _ _ G Hs) by (unfold len, I64_MAX, U64 in *; lia). cbn [ok_or].
  rewrite (proj2 (Z.ltb_ge _ _)) by (unfold len in *; lia).
  rewrite (fun G => read_n_inverts P put read l _ _ _ _ _ Hi Hl G Hs2) by (cbn [past set_pos buf] in *; unfold len in *; lia).
  cbn [app]. by rewrite past_app.
Qed.

Definition spans_ok (s : Spans) : Prop := Forall (fun s => is_i32 (fst s) /\ is_u32 (snd s)) s.
Definition floats_ok (l : list Z) : Prop := Forall is_f64 l.

(** A histogram of the right widths that passes validation. *)
Definition hist_ok (h : Histogram) : Prop :=
  validate h = true /\ is_i32 h.(schema) /\
  (is_f64 h.(zero_threshold) /\ is_f64 h.(zero_count) /\ is_f64 h.(count) /\ is_f64 h.(sum)) /\
  0 <= h.(reset_hint) <= 3 /\ (spans_ok h.(positive_spans) /\ spans_ok h.(negative_spans)) /\
  (floats_ok h.(positive) /\ floats_ok h.(negative) /\ floats_ok h.(custom_values)).

Lemma put_span_pos s : (1 <= length (put_span s))%nat.
Proof. unfold put_span. rewrite length_app. pose proof (put_varint_pos (zag (fst s))). unfold put_zigzag, zag in *. lia. Qed.
Lemma put_float_pos v : (1 <= length (put_float v))%nat.
Proof. unfold put_float. simpl. lia. Qed.

Lemma get_spans_inverts : inverts spans_ok put_spans (get_list get_span).
Proof. apply get_list_inverts; [apply get_span_inverts|apply put_span_pos]. Qed.
Lemma get_floats_inverts : inverts floats_ok put_floats (get_list get_float).
Proof. apply get_list_inverts; [apply get_float_inverts|apply put_float_pos]. Qed.

(** Read one part and move past it. *)
Ltac read_part lem Hs :=
  rewrite (fun G => lem _ _ _ _ G Hs) by assumption; apply stands_past in Hs.

Lemma hist_bytes_back (h : Histogram) :
  hist_ok h -> len (to_bytes h) <= I64_MAX -> from_bytes (to_bytes h) = Ok h.
Proof.
  intros (Hval & Hsc & (Hzt & Hzc & Hc & Hsu) & Hrh & (Hps & Hns) & (Hp & Hn & Hcv)) Hmax. unfold from_bytes.
  change (head (to_bytes h)) with (Some VERSION). cbn [ok_or]. change (negb (VERSION =? VERSION)) with false. cbv iota.
  pose proof (stands_new _ Hmax) as Hs. unfold to_bytes in Hs at 2. apply (stands_past _ [VERSION]) in Hs.
  change (past (Reader_new (to_bytes h)) [VERSION]) with (mkReader (to_bytes h) 1) in Hs.
  rewrite <- (app_nil_r (put_floats (custom_values h))) in Hs.
  read_part get_zigzag_inverts Hs. do 4 read_part get_float_inverts Hs.
  rewrite (get_byte_stands _ _ _ _ Hs). apply stands_past in Hs.
  read_part get_spans_inverts Hs. read_part get_floats_inverts Hs.
  read_part get_spans_inverts Hs. do 2 read_part get_floats_inverts Hs.
  rewrite !past_app. replace (_ =? _) with true; [|symmetry; apply Z.eqb_eq].
  - match goal with |- context [validate ?x] => replace x with h by (by destruct h) end.
    rewrite (proj2 (Z.leb_le _ _)) by lia. by rewrite Hval.
  - unfold past, to_bytes. cbn [set_pos pos]. len_lia.
Qed.

(** Stored histograms survive their bytes: [from_bytes] inverts [to_bytes]
    on every validated histogram, float bits included. *)
Theorem histogram_roundtrip (h : Histogram) :
  hist_ok h -> len (to_bytes h) <= I64_MAX -> from_bytes (to_bytes h) = Ok h.
Proof. apply hist_bytes_back. Qed.

(** * Decoded histograms are storable *)

(** The widths of a histogram's parts. *)
Definition parts_ok (h : Histogram) : Prop :=
  is_i32 h.(schema) /\
  (is_f64 h.(zero_threshold) /\ is_f64 h.(zero_count) /\ is_f64 h.(count) /\ is_f64 h.(sum)) /\
  0 <= h.(reset_hint) <= 3 /\ (spans_ok h.(positive_spans) /\ spans_ok h.(negative_spans)) /\
  (floats_ok h.(positive) /\ floats_ok h.(negative) /\ floats_ok h.(custom_values)).

Lemma double_range input v x : byte_list input -> value_ok input v -> double v = Some x -> is_f64 x.
Proof. intros Hb Hv. destruct v; try done. simpl. intros [= <-]. by eapply fixed64_range. Qed.

Lemma of_Z_range n : is_f64 (f64_of_Z n).
Proof. apply f64_of_Z_range. Qed.

Lemma checked_i32_range v x : checked_i32 v = Some x -> is_i32 x.
Proof. unfold checked_i32, is_i32. destruct (_ && _) eqn:E; [|done]. intros [= <-]. bools. lia. Qed.
Lemma checked_u32_range v x : checked_u32 v = Some x -> is_u32 x.
Proof. unfold checked_u32, is_u32. destruct (_ && _) eqn:E; [|done]. intros [= <-]. bools. lia. Qed.

Lemma span_range b s : span b = Ok s -> is_i32 (fst s) /\ is_u32 (snd s).
Proof.
  unfold span. apply (fields_value_inv (fun s => is_i32 (fst s) /\ is_u32 (snd s))).
  - unfold is_i32, is_u32. simpl. lia.
  - intros [o l] f v [o' l'] _ [Ho Hl]. destruct f as [|[[p|p|]|[p|p|]|]|p], v as [n|c|c|]; simpl in *;
      try (by intros [= <- <-]).
    + destruct (checked_u32 n) eqn:E; [|done]. intros [= <- <-]. split; [done|by eapply checked_u32_range].
    + destruct (checked_i32 (zigzag n)) eqn:E; [|done]. intros [= <- <-]. split; [by eapply checked_i32_range|done].
Qed.

Lemma chunks8_range b : byte_list b -> floats_ok (map from_le_bytes (chunks8 b)).
Proof.
  remember (length b) as n eqn:Hn. assert (Hle : (length b <= n)%nat) by lia. clear Hn. revert b Hle.
  induction n as [|n IH]; intros b Hle Hb; [destruct b; [constructor|simpl in Hle; lia]|].
  do 8 (destruct b as [|? b]; [constructor|]). cbn [chunks8 map]. constructor.
  - assert (H8 : byte_list [z; z0; z1; z2; z3; z4; z5; z6]).
    { rewrite <- (firstn_skipn 8 (z :: z0 :: z1 :: z2 :: z3 :: z4 :: z5 :: z6 :: b)) in Hb.
      by apply Forall_app in Hb as [Hb _]. }
    apply (from_le_bytes_bound _ H8).
  - apply IH; [simpl in Hle; lia|].
    rewrite <- (firstn_skipn 8 (z :: z0 :: z1 :: z2 :: z3 :: z4 :: z5 :: z6 :: b)) in Hb.
    by apply Forall_app in Hb as [_ Hb].
Qed.

Lemma doubles_range input v out out' : byte_list input -> value_ok input v -> floats_ok out ->
  doubles v out = Some out' -> floats_ok out'.
Proof.
  intros Hb Hv Ho. destruct v as [n|b|b|]; simpl; try done.
  - destruct (_ =? 0); [|done]. intros [= <-]. apply Forall_app. split; [done|]. apply chunks8_range.
    destruct Hv as (i & j & _ & _ & ->). by apply byte_list_slice.
  - intros [= <-]. apply Forall_app. split; [done|]. constructor; [by eapply fixed64_range|constructor].
Qed.

Lemma absolute_range d c l : absolute_from c d = Some l -> floats_ok l.
Proof.
  revert c l. induction d as [|x d IH]; intros c l; simpl; [by intros [= <-]; constructor|].
  destruct (checked_i64 _) as [y|]; [|done]. destruct (absolute_from y d) as [r|] eqn:E; [|done].
  intros [= <-]. constructor; [apply of_Z_range|by eapply IH].
Qed.

#[local] Hint Resolve of_Z_range double_range checked_i32_range doubles_range span_range absolute_range : pulso.

Lemma wire_field_ok input s f v s' : byte_list input -> value_ok input v -> parts_ok s.(hist) ->
  wire_field s f v = Ok s' -> parts_ok s'.(hist).
Proof.
  intros Hb Hv Hs E. destruct s as [h ts int pd nd]. unfold wire_field in E. cbn [hist] in *.
  destruct h. unfold parts_ok in Hs. cbn [schema zero_threshold zero_count count sum reset_hint
    positive_spans negative_spans positive negative custom_values] in Hs.
  destruct Hs as (H1 & (H2 & H3 & H4 & H5) & H6 & (H7 & H8) & H9 & H10 & H11).
  repeat (case_match; try discriminate E); unfold ok_or in *; simplify_eq/=; try (by split_and!);
    try (case_match; simplify_eq/=).
  all: unfold parts_ok; cbn [hist with_hist set_count schema zero_threshold zero_count count sum reset_hint
    positive_spans negative_spans positive negative custom_values].
  all: repeat match goal with |- _ /\ _ => split end;
    first [assumption | lia | solve [eauto with pulso]
          | apply Forall_app; split; [assumption|constructor; [eauto with pulso|constructor]] | idtac].
  all: unfold checked_u8 in *; repeat case_match; simplify_eq; bools; lia.
Qed.

Lemma integer_buckets_ok s h : parts_ok s.(hist) -> integer_buckets s = Some h -> parts_ok h.
Proof.
  intros Hs. unfold integer_buckets. destruct (hist s). destruct (_ || _); [done|].
  destruct (absolute (positive_deltas s)) as [p|] eqn:Ep; [|done].
  destruct (absolute (negative_deltas s)) as [n|] eqn:En; [|done]. destruct (_ || _); [done|]. intros [= <-].
  destruct Hs as (H1 & H2 & H3 & H4 & _ & _ & H5). cbn in *.
  split; [exact H1|split; [exact H2|split; [exact H3|split; [exact H4|]]]].
  cbn. split_and!; [by eapply absolute_range|by eapply absolute_range|exact H5].
Qed.

Lemma decode_wire_ok input h ts : byte_list input -> decode_wire input = Ok (h, ts) -> hist_ok h.
Proof.
  intros Hb. unfold decode_wire. destruct (fields tt wire_field _ input) as [s| |] eqn:Ef; [|done..].
  apply (fields_value_inv (fun s => parts_ok s.(hist))) in Ef.
  - set (is_int := default _ (integer s)).
    match goal with |- (match ?m with _ => _ end) = _ -> _ => destruct m as [h'| |] eqn:Eh; [|done..] end.
    destruct (validate h') eqn:Ev; [|done]. intros [= <- <-]. split; [done|]. destruct is_int.
    + destruct (integer_buckets s) as [x|] eqn:Ei; [|done]. injection Eh as <-. by eapply integer_buckets_ok.
    + destruct (_ || _); [done|]. by injection Eh as <-.
  - unfold parts_ok, empty_histogram, is_i32, is_f64, spans_ok, floats_ok. cbn.
    repeat match goal with |- _ /\ _ => split end; try constructor; vm_compute; done || discriminate.
  - intros a f v b Hv Ha E. by eapply wire_field_ok.
Qed.

(** The decoder always returns. *)
Lemma span_not_fuel b : span b <> Fuel.
Proof.
  unfold span. intros E. apply fields_not_fuel in E; [done|]. intros [o l] f w _. unfold ok_or. by repeat case_match.
Qed.

Lemma sint64s_not_fuel v out : sint64s v out <> Fuel.
Proof.
  unfold sint64s. destruct v as [n|b|b|]; try done. destruct (packed_varints _ _ _) eqn:E; [done|done|].
  by apply packed_varints_not_fuel in E.
Qed.

Lemma wire_field_not_fuel s f v : wire_field s f v <> Fuel.
Proof.
  unfold wire_field. destruct s as [h ts int pd nd]. cbn [hist]. destruct h. unfold ok_or.
  repeat (case_match; try done);
    try (match goal with H : span _ = Fuel |- _ => by apply span_not_fuel in H
                       | H : sint64s _ _ = Fuel |- _ => by apply sint64s_not_fuel in H end).
Qed.

Lemma decode_wire_not_fuel input : decode_wire input <> Fuel.
Proof.
  unfold decode_wire. destruct (fields tt wire_field _ input) as [s| |] eqn:Ef; [|done|].
  - set (is_int := default _ (integer s)). destruct is_int.
    + destruct (integer_buckets s) as [h|]; [|done]. simpl. by destruct (validate h).
    + destruct (_ || _); [done|]. by destruct (validate (hist s)).
  - apply fields_not_fuel in Ef; [done|]. intros a f v _. apply wire_field_not_fuel.
Qed.

(** A histogram accepted from the wire is storable: it passes validation,
    every part has its width, and writing it to the store and reading it back
    gives the same histogram. *)
Theorem histogram_wire_storable (input : bytes) (h : Histogram) (ts : Z) :
  byte_list input -> decode_wire input = Ok (h, ts) ->
  hist_ok h /\ (len (to_bytes h) <= I64_MAX -> from_bytes (to_bytes h) = Ok h).
Proof. intros Hb E. apply decode_wire_ok in E; [|done]. split; [done|]. by apply hist_bytes_back. Qed.

(** * Terms read back *)

Definition canon (h : Histogram) : Histogram :=
  mkHistogram h.(schema) (canonical h.(zero_threshold)) (canonical h.(zero_count)) (canonical h.(count))
    (canonical_value h.(sum)) h.(positive_spans) (map canonical h.(positive)) h.(negative_spans)
    (map canonical h.(negative)) h.(reset_hint) (map canonical h.(custom_values)).

Lemma canonical_idem v : canonical (canonical v) = canonical v.
Proof. unfold canonical. destruct (f64_is_nan v) eqn:E; [by vm_compute|by rewrite E]. Qed.

Lemma number_back v : is_f64 v -> decode_number (number_term v) = Some (canonical v).
Proof.
  intros Hv. unfold decode_number, number_term. rewrite encode_decode.
  - cbn [option_map]. f_equal. unfold canonical, canonical_value.
    destruct (f64_is_nan v) eqn:E; [by vm_compute|]. rewrite E. destruct (v =? STALE_BITS); by rewrite E.
  - unfold canonical. destruct (f64_is_nan v); [vm_compute; split; done || discriminate|done].
Qed.

Lemma floats_back l : floats_ok l -> decode_floats (floats_term l) = Some (map canonical l).
Proof.
  unfold decode_floats, floats_term. induction 1 as [|v l Hv Hl IH]; [done|]. cbn [map mapO].
  by rewrite number_back, IH.
Qed.

Lemma i32_back n : is_i32 n -> decode_i32 (Integer n) = Some n.
Proof.
  unfold is_i32, decode_i32, checked_i32. intros Hn.
  by rewrite (proj2 (andb_true_iff _ _)) by (rewrite !Z.leb_le; lia).
Qed.

Lemma spans_back l : spans_ok l -> decode_spans (spans_term l) = Some l.
Proof.
  unfold decode_spans, spans_term. induction 1 as [|[o n] l [Ho Hn] Hl IH]; [done|]. cbn [map mapO fst snd].
  rewrite i32_back by done. unfold decode_u32, checked_u32, is_u32 in *. cbn [fst snd] in *.
  rewrite (proj2 (andb_true_iff _ _)) by (rewrite !Z.leb_le; lia). by rewrite IH.
Qed.

Lemma hint_back h : 0 <= h <= 3 -> hint_index (hint_term h) 0 HINTS = Some h.
Proof.
  intros Hh. assert (h = 0 \/ h = 1 \/ h = 2 \/ h = 3) as [->|[->|[->| ->]]] by lia; vm_compute; done.
Qed.

Lemma is_nil_map {A B} (f : A -> B) l : is_nil (map f l) = is_nil l.
Proof. by destruct l. Qed.

Lemma finite_canonical l : forallb f64_is_finite l = true -> map canonical l = l.
Proof.
  induction l as [|v l IH]; simpl; [done|]. intros H. apply andb_true_iff in H as [Hv Hl]. rewrite IH by done.
  f_equal. unfold canonical, f64_is_nan, f64_is_finite in *. by destruct (spec_of_bits v).
Qed.

Lemma validate_canon h : validate h = true -> validate (canon h) = true.
Proof.
  unfold validate, canon. cbn [schema zero_threshold zero_count count sum reset_hint
    positive_spans negative_spans positive negative custom_values].
  intros H. repeat (apply andb_true_iff in H as [H ?]).
  assert (Hz : canonical (zero_threshold h) = zero_threshold h).
  { unfold canonical, f64_is_nan, f64_le in *. by destruct (spec_of_bits (zero_threshold h)). }
  assert (Hc : map canonical (custom_values h) = custom_values h).
  { destruct (schema h =? _); bools; [by apply finite_canonical|by destruct (custom_values h)]. }
  rewrite Hz, Hc, !is_nil_map, !len_map. rewrite !andb_true_iff. split_and!; done.
Qed.

(** A histogram survives its Erlang struct: reading back the term gives the
    same histogram, in which NaNs have become the canonical one, except that
    the sum keeps the staleness marker. *)
Theorem histogram_term_roundtrip (h : Histogram) : hist_ok h -> from_term (to_term h) = Some (canon h).
Proof.
  intros (Hval & Hsc & (Hzt & Hzc & Hc & Hsu) & Hrh & (Hps & Hns) & (Hp & Hn & Hcv)). unfold from_term, to_term.
  pose proof (number_back _ Hzt) as E1. pose proof (number_back _ Hzc) as E2. pose proof (number_back _ Hc) as E3.
  pose proof (encode_decode _ Hsu) as E4. pose proof (floats_back _ Hp) as E5. pose proof (floats_back _ Hn) as E6.
  pose proof (floats_back _ Hcv) as E7. pose proof (spans_back _ Hps) as E8. pose proof (spans_back _ Hns) as E9.
  pose proof (hint_back _ Hrh) as E10. pose proof (i32_back _ Hsc) as E11.
  revert E1 E2 E3 E4 E5 E6 E7 E8 E9 E10 E11.
  generalize (number_term (zero_threshold h)) (number_term (zero_count h)) (number_term (count h))
    (MetricValue.encode (sum h)) (floats_term (positive h)) (floats_term (negative h))
    (floats_term (custom_values h)) (spans_term (positive_spans h)) (spans_term (negative_spans h))
    (hint_term (reset_hint h)) (Integer (schema h)).
  intros t1 t2 t3 t4 t5 t6 t7 t8 t9 t10 t11 E1 E2 E3 E4 E5 E6 E7 E8 E9 E10 E11.
  set (T := Map _).
  assert (map_get T (Atom STRUCT_KEY) = Some NATIVE_HISTOGRAM /\ map_get T K_HINT = Some t10 /\
    map_get T K_SCHEMA = Some t11 /\ map_get T K_ZERO_THRESHOLD = Some t1 /\ map_get T K_ZERO_COUNT = Some t2 /\
    map_get T K_COUNT = Some t3 /\ map_get T K_SUM = Some t4) as (-> & -> & -> & -> & -> & -> & ->)
    by (split_and!; vm_compute; reflexivity).
  assert (map_get T K_POSITIVE_SPANS = Some t8 /\ map_get T K_POSITIVE = Some t5 /\
    map_get T K_NEGATIVE_SPANS = Some t9 /\ map_get T K_NEGATIVE = Some t6 /\ map_get T K_CUSTOM = Some t7)
    as (-> & -> & -> & -> & ->) by (split_and!; vm_compute; reflexivity).
  rewrite bool_decide_true by done. cbn [negb].
  rewrite E10, E11, E1, E2, E3, E4, E8, E5, E9, E6, E7. fold (canon h). by rewrite validate_canon.
Qed.

(** An integer histogram with schema 1, five observations and two buckets. *)
Definition sample_histogram : bytes :=
  encode_message [(1, Varint 5); (4, Varint 2); (3, Fixed64 [0; 0; 0; 0; 0; 0; 248; 63]);
                  (11, Bytes (encode_message [(1, Varint 1); (2, Varint 2)]));
                  (12, Bytes (put_varint 4 ++ put_varint 1)); (15, Varint 7)].
Definition sample_decoded : Histogram :=
  mkHistogram 1 0 0 (f64_of_Z 5) 0x3FF8000000000000 [(-1, 2)] [f64_of_Z 2; f64_of_Z 1] [] [] 0 [].

Lemma histogram_roundtrip_witness : from_bytes (to_bytes sample_decoded) = Ok sample_decoded.
Proof.
  apply (histogram_roundtrip sample_decoded); [|vm_compute; discriminate].
  split; [vm_compute; reflexivity|]. unfold sample_decoded, is_i32, is_f64, spans_ok, floats_ok. cbn.
  repeat match goal with |- _ /\ _ => split | |- Forall _ _ => constructor end; vm_compute; done || discriminate.
Defined.

Lemma histogram_wire_storable_witness : hist_ok sample_decoded.
Proof.
  apply (histogram_wire_storable sample_histogram sample_decoded 7); [|vm_compute; reflexivity].
  repeat (constructor; [vm_compute; split; done || discriminate|]). constructor.
Defined.

Lemma histogram_term_roundtrip_witness : from_term (to_term sample_decoded) = Some (canon sample_decoded).
Proof.
  apply (histogram_term_roundtrip sample_decoded).
  split; [vm_compute; reflexivity|]. unfold sample_decoded, is_i32, is_f64, spans_ok, floats_ok. cbn.
  repeat match goal with |- _ /\ _ => split | |- Forall _ _ => constructor end; vm_compute; done || discriminate.
Defined.
