(* ===== verification/RemoteWrite.v ===== *)
(** Prometheus remote write, remote_write.rs: the v1 and v2 request decoders,
    series validation and the hand-written sample reader.

    Offsets are [usize]; additions that the release build lets wrap are written
    with their wrap-around. *)

From S2P Require Import Prelude Utf8 External Float64 Wire IngestLimits Cursor Exemplar NativeHistogram.

Record Sample : Type := mkSample {
  sm_value : Z;
  sm_timestamp_ms : Z;
  start_timestamp_ms : option Z
}.

Abbreviation HistPoint := (Histogram * Z * option Z)%type.

Record Series : Type := mkSeries {
  sr_labels : list (bytes * bytes);
  sr_samples : list Sample;
  sr_histograms : list HistPoint;
  sr_exemplars : list Exemplar
}.

Record Metadata : Type := mkMetadata { md_name : bytes; md_kind : bytes; md_help : bytes; md_unit : bytes }.

#[export] Instance Metadata_eq_dec : EqDecision Metadata.
Proof. solve_decision. Defined.

Record Decoded : Type := mkDecoded {
  dc_series : list Series;
  dc_rejected : Z;
  dc_metadata : list Metadata
}.

Definition METRIC_TYPES : list bytes :=
  [str "unknown"; str "counter"; str "gauge"; str "histogram"; str "gaugehistogram"; str "summary";
   str "info"; str "stateset"].
Definition UNKNOWN : bytes := str "unknown".

(** * Samples *)

(** [read_varint(buf, pos)] answers the value and the bytes it took. *)
Definition read_varint (buf : bytes) (pos : Z) : option (Z * Z) :=
  let* (v, r) := Wire.varint (mkReader buf pos) in Some (v, r.(Wire.pos) - pos).

Definition read_tag (buf : bytes) (pos : Z) : option (Z * Z * Z) :=
  let* (v, consumed) := read_varint buf pos in
  Some (Z.shiftr v 3 mod 4294967296, Z.land v 7, consumed).

(** The loop of [decode_sample]; [i + len] is computed in 64 bits. *)
Fixpoint sample_loop (fuel : nat) (input : bytes) (i value_bits ts : Z) : opt Sample :=
  match fuel with
  | O => Fuel
  | S fuel =>
      if len input <=? i then Ok (mkSample value_bits ts None)
      else
        let? (field, wire, consumed) := ok_or (read_tag input i) tt in
        let i := i + consumed in
        if (field =? 1) && (wire =? 1) then
          if len input <? wrap_u64 (i + 8) then Nothing
          else sample_loop fuel input (i + 8) (from_le_bytes (slice input i (i + 8))) ts
        else if (field =? 2) && (wire =? 0) then
          let? (v, consumed) := ok_or (read_varint input i) tt in
          sample_loop fuel input (i + consumed) value_bits (as_i64 v)
        else if wire =? 0 then
          let? (_, consumed) := ok_or (read_varint input i) tt in
          sample_loop fuel input (i + consumed) value_bits ts
        else if wire =? 1 then
          if len input <? wrap_u64 (i + 8) then Nothing else sample_loop fuel input (i + 8) value_bits ts
        else if wire =? 2 then
          let? (len_, consumed) := ok_or (read_varint input i) tt in
          let i := i + consumed in
          if len input <? wrap_u64 (i + len_) then Nothing
          else sample_loop fuel input (wrap_u64 (i + len_)) value_bits ts
        else if wire =? 5 then
          if len input <? wrap_u64 (i + 4) then Nothing else sample_loop fuel input (i + 4) value_bits ts
        else Nothing
  end.

(** A walk that visits more positions than there are bytes visits one twice,
    so one unit of fuel per byte tells an answer from a loop. *)
Definition decode_sample (input : bytes) : opt Sample := sample_loop (S (length input)) input 0 0 0.

Definition start_timestamp (input : bytes) (number : Z) : opt (option Z) :=
  fields tt (fun start field value =>
    if field =? number then
      match value with Varint v => Ok (Some (as_i64 v)) | _ => Nothing end
    else Ok start) None input.

Definition decode_label (input : bytes) : opt (bytes * bytes) :=
  fields tt (fun '(name, value) field v =>
    match field, v with
    | 1, Bytes b => Ok (b, value)
    | 2, Bytes b => Ok (name, b)
    | _, _ => Ok (name, value)
    end) ([], []) input.

(** * Parts of a series *)

Record Parts : Type := mkParts {
  samples : list Sample;
  histograms : list HistPoint;
  exemplars : list Exemplar;
  total : Z;
  rejected : Z
}.
Definition Parts_default : Parts := mkParts [] [] [] 0 0.

(** [Err] carries the number of rejected points. *)
Definition parts_sample (p : Parts) (input : bytes) (start : option Z) : res Z Parts :=
  let total := sat_u64 (p.(total) + 1) in
  match decode_sample input with
  | Ok s => Ok (mkParts (p.(samples) ++ [mkSample s.(sm_value) s.(sm_timestamp_ms) start]) p.(histograms)
                  p.(exemplars) total p.(rejected))
  | Err _ => Err total
  | Fuel => Fuel
  end.

Definition parts_histogram (p : Parts) (input : bytes) (start : option Z) : res Z Parts :=
  let total := sat_u64 (p.(total) + 1) in
  match decode_wire input with
  | Ok (h, ts) => Ok (mkParts p.(samples) (p.(histograms) ++ [(h, ts, start)]) p.(exemplars) total p.(rejected))
  | Err _ => Ok (mkParts p.(samples) p.(histograms) p.(exemplars) total (sat_u64 (p.(rejected) + 1)))
  | Fuel => Fuel
  end.

Definition parts_exemplar (p : Parts) (e : opt Exemplar) : res Z Parts :=
  match e with
  | Ok e => Ok (mkParts p.(samples) p.(histograms) (p.(exemplars) ++ [e]) p.(total) p.(rejected))
  | Err _ => Ok p
  | Fuel => Fuel
  end.

Definition fail_count (p : Parts) : Z := Z.max p.(total) 1.

Section Decoding.
Context `{SimdUtf8}.

Definition finish_series (labels : list (bytes * bytes)) (p : Parts) : res Z Series :=
  let fail := fail_count p in
  let empty := is_nil p.(samples) && is_nil p.(histograms) && is_nil p.(exemplars) in
  if is_nil labels || empty then Err fail
  else if existsb (fun '(name, value) =>
    is_nil name || negb (simd_from_utf8 name) || negb (simd_from_utf8 value)) labels then Err fail
  else
    let labels := sort_by (fun a b => bytes_leb (fst a) (fst b)) labels in
    if existsb (fun '(a, b) => bytes_eqb (fst a) (fst b)) (windows2 labels) then Err fail
    else
      let labels := List.filter (fun '(_, value) => negb (is_nil value)) labels in
      if is_nil labels then Err fail
      else Ok (mkSeries labels p.(samples) p.(histograms) p.(exemplars)).

(** * Version 1 *)

Definition series_field (s : list (bytes * bytes) * Parts) (field : Z) (value : Value)
    : res Z (list (bytes * bytes) * Parts) :=
  let '(labels, parts) := s in
  match field, value with
  | 1, Bytes b =>
      match decode_label b with
      | Ok label => Ok (labels ++ [label], parts)
      | Err _ => Err (fail_count parts)
      | Fuel => Fuel
      end
  | 2, Bytes b => let? parts := parts_sample parts b None in Ok (labels, parts)
  | 3, Bytes b => let? parts := parts_exemplar parts (decode_v1 b) in Ok (labels, parts)
  | 4, Bytes b => let? parts := parts_histogram parts b None in Ok (labels, parts)
  | _, _ => Ok (labels, parts)
  end.

Definition decode_series (input : bytes) : res Z (Series * Z) :=
  let? (labels, parts) := fields_or (fun s => fail_count (snd s)) series_field ([], Parts_default) input in
  let? series := finish_series labels parts in
  Ok (series, parts.(rejected)).

Definition decode_metadata (input : bytes) : opt Metadata :=
  let? m := fields tt (fun m field value =>
    match field, value with
    | 1, Varint t =>
        let? kind := ok_or (get METRIC_TYPES t) tt in
        Ok (mkMetadata m.(md_name) kind m.(md_help) m.(md_unit))
    | 2, Bytes b => Ok (mkMetadata b m.(md_kind) m.(md_help) m.(md_unit))
    | 4, Bytes b => Ok (mkMetadata m.(md_name) m.(md_kind) b m.(md_unit))
    | 5, Bytes b => Ok (mkMetadata m.(md_name) m.(md_kind) m.(md_help) b)
    | _, _ => Ok m
    end) (mkMetadata [] UNKNOWN [] []) input in
  if negb (is_nil m.(md_name)) && simd_from_utf8 m.(md_name) && simd_from_utf8 m.(md_help)
     && simd_from_utf8 m.(md_unit)
  then Ok m else Nothing.

Definition request_field (d : Decoded) (field : Z) (value : Value) : opt Decoded :=
  match field, value with
  | 1, Bytes b =>
      match decode_series b with
      | Ok (s, rej) => Ok (mkDecoded (d.(dc_series) ++ [s]) (sat_u64 (d.(dc_rejected) + rej)) d.(dc_metadata))
      | Err rej => Ok (mkDecoded d.(dc_series) (sat_u64 (d.(dc_rejected) + rej)) d.(dc_metadata))
      | Fuel => Fuel
      end
  | 3, Bytes b =>
      match decode_metadata b with
      | Ok m => Ok (mkDecoded d.(dc_series) d.(dc_rejected) (d.(dc_metadata) ++ [m]))
      | Err _ => Ok d
      | Fuel => Fuel
      end
  | _, _ => Ok d
  end.

Definition decode (input : bytes) : opt Decoded := fields tt request_field (mkDecoded [] 0 []) input.

(** * Version 2 *)

(** [return Ok(None)] is wire corruption, [Err] counts semantic rejects. *)
Inductive Stop : Type := Corrupt | Reject (n : Z).

Definition reject {A} (r : res Z A) : res Stop A :=
  match r with Ok a => Ok a | Err n => Err (Reject n) | Fuel => Fuel end.
Definition or_corrupt {A} (r : opt A) : res Stop A :=
  match r with Ok a => Ok a | Err _ => Err Corrupt | Fuel => Fuel end.

Record V2 : Type := mkV2 { refs : list Z; metadata : bytes; parts : Parts; created : option Z }.

Definition with_parts (s : V2) (p : Parts) : V2 := mkV2 s.(refs) s.(metadata) p s.(created).

Definition v2_field (symbols : list bytes) (s : V2) (field : Z) (value : Value) : res Stop V2 :=
  match field, value with
  | 1, Bytes packed =>
      match packed_varints (S (length packed)) (Reader_new packed) s.(refs) with
      | Ok rs => Ok (mkV2 rs s.(metadata) s.(parts) s.(created))
      | Err _ => Err (Reject (fail_count s.(parts)))
      | Fuel => Fuel
      end
  | 1, Varint r => Ok (mkV2 (s.(refs) ++ [r]) s.(metadata) s.(parts) s.(created))
  | 2, Bytes b =>
      let? start := or_corrupt (start_timestamp b 3) in
      let? p := reject (parts_sample s.(parts) b start) in Ok (with_parts s p)
  | 3, Bytes b =>
      let? start := or_corrupt (start_timestamp b 17) in
      let? p := reject (parts_histogram s.(parts) b start) in Ok (with_parts s p)
  | 4, Bytes b => let? p := reject (parts_exemplar s.(parts) (Exemplar.decode_v2 b symbols)) in Ok (with_parts s p)
  | 5, Bytes b => Ok (mkV2 s.(refs) b s.(parts) s.(created))
  | 6, Varint v => Ok (mkV2 s.(refs) s.(metadata) s.(parts) (Some (as_i64 v)))
  | 6, _ => Err Corrupt
  | _, _ => Ok s
  end.

(** [start.or(created).filter(|v| *v != 0)]. *)
Definition resolve_start (start created : option Z) : option Z :=
  match (match start with Some v => Some v | None => created end) with
  | Some v => if v =? 0 then None else Some v
  | None => None
  end.

Definition resolve_starts (p : Parts) (created : option Z) : Parts :=
  mkParts
    (map (fun s => mkSample s.(sm_value) s.(sm_timestamp_ms) (resolve_start s.(start_timestamp_ms) created)) p.(samples))
    (map (fun '(h, ts, start) => (h, ts, resolve_start start created)) p.(histograms))
    p.(exemplars) p.(total) p.(rejected).

Definition symbol (symbols : list bytes) (r : Z) : option bytes :=
  if r <=? 4294967295 then get symbols r else None.

Definition v2_labels (symbols : list bytes) (refs : list Z) : option (list (bytes * bytes)) :=
  mapO (fun '(a, b) =>
    let* name := symbol symbols a in
    if is_nil name then None else let* value := symbol symbols b in Some (name, value)) (chunks2 refs).

(** [strip_suffix]. *)
Definition strip_suffix (s suffix : bytes) : option bytes :=
  let n := (length s - length suffix)%nat in
  if bool_decide (s = take n s ++ suffix) then Some (take n s) else None.

Definition family_name (name kind : bytes) : bytes :=
  let suffixes :=
    if bytes_eqb kind (str "summary") then [str "_count"; str "_sum"]
    else if bytes_eqb kind (str "histogram") then [str "_bucket"; str "_count"; str "_sum"]
    else if bytes_eqb kind (str "gaugehistogram") then [str "_bucket"; str "_gcount"; str "_gsum"]
    else [] in
  fold_right (fun suffix acc => match strip_suffix name suffix with Some s => s | None => acc end) name suffixes.

Definition NAME : bytes := str "__name__".

(** The metadata entry a series reports. *)
Definition series_metadata (labels : list (bytes * bytes)) (kind : Z) (help unit_ : bytes) : option Metadata :=
  let family := option_map snd (find (fun '(n, _) => bytes_eqb n NAME) labels) in
  let kind := default UNKNOWN (get METRIC_TYPES kind) in
  let* name := option_map (fun n => family_name n kind) family in
  if is_nil name then None
  else if bytes_eqb kind UNKNOWN && is_nil help && is_nil unit_ then None
  else if simd_from_utf8 help && simd_from_utf8 unit_ then Some (mkMetadata name kind help unit_)
  else None.

Definition decode_series_v2 (input : bytes) (symbols : list bytes)
    : res Stop (Series * Z * option Metadata) :=
  let? s := fields_or (fun _ => Corrupt) (v2_field symbols) (mkV2 [] [] Parts_default None) input in
  let p := resolve_starts s.(parts) s.(created) in
  let fail := fail_count p in
  if negb (len s.(refs) mod 2 =? 0) then Err (Reject fail)
  else
    let? labels := ok_or (v2_labels symbols s.(refs)) (Reject fail) in
    let? (kind, help_ref, unit_ref) := reject (fields fail (fun '(kind, help, unit_) field v =>
      match field, v with
      | 1, Varint v => Ok (v, help, unit_)
      | 3, Varint v => Ok (kind, v, unit_)
      | 4, Varint v => Ok (kind, help, v)
      | _, _ => Ok (kind, help, unit_)
      end) (0, 0, 0) s.(metadata)) in
    let optional r := if (r =? 0) && is_nil symbols then Some [] else symbol symbols r in
    let? help := ok_or (optional help_ref) (Reject fail) in
    let? unit_ := ok_or (optional unit_ref) (Reject fail) in
    let? series := reject (finish_series labels p) in
    Ok (series, p.(rejected), series_metadata series.(sr_labels) kind help unit_).

Definition request_field_v2 (symbols : list bytes) (s : Decoded * list Metadata) (field : Z) (value : Value)
    : opt (Decoded * list Metadata) :=
  let '(d, seen) := s in
  match field, value with
  | 5, Bytes b =>
      match decode_series_v2 b symbols with
      | Ok (series, rej, md) =>
          let d := mkDecoded (d.(dc_series) ++ [series]) (sat_u64 (d.(dc_rejected) + rej)) d.(dc_metadata) in
          match md with
          | Some m =>
              if bool_decide (m ∈ seen) then Ok (d, seen)
              else Ok (mkDecoded d.(dc_series) d.(dc_rejected) (d.(dc_metadata) ++ [m]), m :: seen)
          | None => Ok (d, seen)
          end
      | Err Corrupt => Nothing
      | Err (Reject rej) =>
          Ok (mkDecoded d.(dc_series) (sat_u64 (d.(dc_rejected) + rej)) d.(dc_metadata), seen)
      | Fuel => Fuel
      end
  | _, _ => Ok (d, seen)
  end.

Definition decode_v2 (input : bytes) : opt Decoded :=
  let? symbols := fields tt (fun symbols field value =>
    match field, value with
    | 4, Bytes symbol => Ok (symbols ++ [symbol])
    | _, _ => Ok symbols
    end) [] input in
  if match symbols with s :: _ => negb (is_nil s) | [] => false end then Nothing
  else
    let? (d, _) := fields tt (request_field_v2 symbols) (mkDecoded [] 0 [], []) input in
    Ok d.
End Decoding.

(** * The sample reader *)

(** What a field does to a sample: numbers are cut to 32 bits. *)
Definition sample_upd (s : Z * Z) (f : Z * Value) : Z * Z :=
  let field := fst f mod 4294967296 in
  match snd f with
  | Fixed64 b => if field =? 1 then (from_le_bytes b, snd s) else s
  | Varint v => if field =? 2 then (fst s, as_i64 v) else s
  | _ => s
  end.

Definition sample_of (input : bytes) : Sample :=
  let '(value, ts) := fold_left sample_upd (fst (field_list input)) (0, 0) in mkSample value ts None.

Lemma varint_at buf i v r : Wire.varint (mkReader buf i) = Some (v, r) ->
  exists j, r = mkReader buf j /\ read_varint buf i = Some (v, j - i) /\ i < j <= len buf /\ 0 <= v < U64.
Proof.
  intros E. pose proof (varint_range _ _ _ E) as Hv. unfold read_varint. rewrite E.
  apply varint_pos in E as (Hb & Hp & _ & Hl). simpl in *. destruct r as [b p]. simpl in *. subst b.
  exists p. split; [done|]. split; [done|]. split; [lia|done].
Qed.

Lemma skip_at buf i n r : 0 <= i <= len buf -> 0 <= n -> len buf <= I64_MAX -> skip (mkReader buf i) n = Some r ->
  r = mkReader buf (i + n) /\ i + n <= len buf /\ wrap_u64 (i + n) = i + n.
Proof.
  intros Hi Hn Hl E. pose proof (skip_pos _ _ _ E) as (Hb & Hp & Hle). simpl in *. destruct r as [b p]. simpl in *.
  subst. split; [done|]. split; [done|]. apply Z.mod_small. unfold I64_MAX, U64 in *. lia.
Qed.

(** One field of the sample, read by both loops. *)
Lemma sample_loop_field fuel input i vb ts f v r : 0 <= i < len input -> len input <= I64_MAX ->
  next_field (mkReader input i) = Some (Some (f, v), r) ->
  exists j, r = mkReader input j /\ i < j <= len input /\
    sample_loop (S fuel) input i vb ts =
    (let '(vb, ts) := sample_upd (vb, ts) (f, v) in sample_loop fuel input j vb ts).
Proof.
  intros Hi Hl. unfold next_field. cbn [buf pos]. rewrite (proj2 (Z.leb_gt _ _)) by lia.
  destruct (Wire.varint _) as [[key r1]|] eqn:Ek; [|done].
  apply varint_at in Ek as (k & -> & Ek & Hk & _). cbn [buf pos].
  cbn [sample_loop]. rewrite (proj2 (Z.leb_gt _ _)) by lia. unfold read_tag. rewrite Ek. cbn [ok_or].
  replace (i + (k - i)) with k by lia.
  destruct (Z.land key 7 =? 0) eqn:W0; [|destruct (Z.land key 7 =? 1) eqn:W1; [|
    destruct (Z.land key 7 =? 2) eqn:W2; [|destruct (Z.land key 7 =? 5) eqn:W5; [|done]]]].
  - destruct (Wire.varint _) as [[n r2]|] eqn:En; [|done]. apply varint_at in En as (m & -> & En & Hn & _).
    intros [= <- <- <-]. exists (m). split; [done|]. split; [lia|]. rewrite En. cbn [ok_or].
    replace (k + (m - k)) with (m) by lia. unfold sample_upd. cbn [fst snd].
    bools. rewrite W0. change (0 =? 1) with false. rewrite andb_false_r, andb_true_r. by case_match.
  - destruct (skip _ 8) as [r2|] eqn:Es; [|done]. apply skip_at in Es as (-> & Hs & Hw); [|lia..].
    intros [= <- <- <-]. exists (k + 8). split; [done|]. split; [lia|]. rewrite Hw, ?andb_false_r.
    rewrite (proj2 (Z.ltb_ge _ _)) by lia. unfold sample_upd. cbn [fst snd pos buf].
    destruct (_ mod _ =? 1); cbn [andb]; done.
  - destruct (Wire.varint _) as [[n r2]|] eqn:En; [|done]. apply varint_at in En as (m & -> & En & Hn & Hv).
    destruct (skip _ n) as [r3|] eqn:Es; [|done]. apply skip_at in Es as (-> & Hs & Hw); [|lia..].
    intros [= <- <- <-]. exists (m + n). split; [done|]. split; [lia|]. rewrite En. cbn [ok_or].
    replace (k + (m - k)) with (m) by lia. rewrite Hw, ?andb_false_r. rewrite (proj2 (Z.ltb_ge _ _)) by lia.
    unfold sample_upd. cbn [fst snd].
    repeat case_match; done.
  - destruct (skip _ 4) as [r2|] eqn:Es; [|done]. apply skip_at in Es as (-> & Hs & Hw); [|lia..].
    intros [= <- <- <-]. exists (k + 4). split; [done|]. split; [lia|]. rewrite Hw, ?andb_false_r.
    rewrite (proj2 (Z.ltb_ge _ _)) by lia. unfold sample_upd. cbn [fst snd].
    repeat case_match; done.
Qed.

Lemma sample_loop_intact fuel input i vb ts : 0 <= i <= len input -> len input <= I64_MAX ->
  snd (field_list_loop fuel (mkReader input i)) = true ->
  sample_loop fuel input i vb ts =
  Ok (let '(value, t) := fold_left sample_upd (fst (field_list_loop fuel (mkReader input i))) (vb, ts) in
      mkSample value t None).
Proof.
  intros Hi Hl. revert i vb ts Hi. induction fuel as [|fuel IH]; intros i vb ts Hi; [done|].
  cbn [field_list_loop]. destruct (next_field (mkReader input i)) as [[[[f v]|] r]|] eqn:En; [| |done].
  - assert (Hlt : i < len input).
    { unfold next_field in En. cbn [buf pos] in En. destruct (len input <=? i) eqn:E; [done|]. bools. lia. }
    destruct (sample_loop_field fuel input i vb ts f v r ltac:(lia) Hl En) as (j & -> & Hj & ->).
    destruct (field_list_loop fuel (mkReader input j)) as [fs ok] eqn:Ef. cbn [fst snd]. intros ->.
    cbn [fold_left]. destruct (sample_upd (vb, ts) (f, v)) as [vb' ts'].
    rewrite IH by (lia || by rewrite Ef). by rewrite Ef.
  - intros _. unfold next_field in En. cbn [buf pos] in En. cbn [sample_loop].
    destruct (len input <=? i); [done|]. repeat case_match; done.
Qed.

Lemma decode_sample_intact input : len input <= I64_MAX -> intact input = true ->
  decode_sample input = Ok (sample_of input).
Proof.
  intros Hl Hi. unfold decode_sample, sample_of.
  rewrite (sample_loop_intact _ input 0 0 0); [done|pose proof (len_nonneg input); lia|done|exact Hi].
Qed.

(** The start-timestamp scan refuses what the reader cannot walk. *)
Lemma start_timestamp_intact b n s : start_timestamp b n = Ok s -> intact b = true.
Proof.
  unfold start_timestamp, intact. rewrite fields_fold. destruct (field_list b) as [fs ok].
  destruct (foldM _ _ fs); [|done..]. by destruct ok.
Qed.

(** * Counting points *)

(** The samples and histograms among a list of fields, and in a series. *)
Definition points_in (fs : list (Z * Value)) : Z := len (omap (select 2) fs) + len (omap (select 4) fs).
Definition points (series : bytes) : Z := points_in (fst (field_list series)).
Definition kept (s : Series) : Z := len s.(sr_samples) + len s.(sr_histograms).

(** The counters of a series being read: every point so far is kept or
    rejected. *)
Definition counted (p : Parts) : Prop :=
  p.(total) = len p.(samples) + len p.(histograms) + p.(rejected) /\ 0 <= p.(rejected).

Lemma points_in_nonneg fs : 0 <= points_in fs.
Proof. unfold points_in. len_lia. Qed.

Lemma points_in_le fs : points_in fs <= len fs.
Proof.
  unfold points_in. induction fs as [|[f v] fs IH]; [done|]. cbn [omap list_omap].
  destruct v as [n|b|b|]; cbn [select]; try len_lia.
  destruct (Z.eqb_spec f 2), (Z.eqb_spec f 4); len_lia.
Qed.

Lemma points_le b : points b <= len b.
Proof.
  unfold points. pose proof (points_in_le (fst (field_list b))). pose proof (field_list_length b). lia.
Qed.

Section Accounting.
Context `{SimdUtf8}.

Lemma sat_small z : 0 <= z <= U64_MAX -> sat_u64 z = z.
Proof. unfold sat_u64. lia. Qed.

(** One more field: the counters move by the points it holds, and a failure
    counts what has been seen. *)
Lemma series_field_counts ls p f v : counted p -> p.(total) + 1 <= U64_MAX ->
  match series_field (ls, p) f v with
  | Ok (_, p') => counted p' /\ p'.(total) = p.(total) + points_in [(f, v)]
  | Err n => 1 <= n <= Z.max 1 (p.(total) + points_in [(f, v)])
  | Fuel => True
  end.
Proof.
  intros [Ht Hr] Hmax. unfold counted, points_in.
  assert (H0 : 0 <= total p) by len_lia.
  destruct f as [|[[q|q|]|[q|[q|q|]|]|]|q], v as [n|b|b|]; cbn - [Z.max decode_label Exemplar.decode_v1 parts_sample parts_histogram];
    try (split; [done|len_lia]).
  - destruct (Exemplar.decode_v1 b); cbn - [len]; [split; [done|len_lia]|split; [done|len_lia]|done].
  - unfold parts_histogram. rewrite (sat_small (total p + 1)) by lia.
    destruct (decode_wire b) as [[h ts]| |]; cbn - [len];
      [split; [split; len_lia|len_lia]|rewrite sat_small by len_lia; split; [split; len_lia|len_lia]|done].
  - unfold parts_sample. rewrite (sat_small (total p + 1)) by lia.
    destruct (decode_sample b) as [s| |]; cbn - [len Z.max]; [split; [split; len_lia|len_lia]|len_lia|done].
  - destruct (decode_label b); cbn - [len Z.max]; [split; [done|len_lia]|unfold fail_count; len_lia|done].
Qed.

Lemma points_in_cons f fs : points_in (f :: fs) = points_in [f] + points_in fs.
Proof.
  unfold points_in. cbn [omap list_omap].
  destruct (select 2 f), (select 4 f); len_lia.
Qed.

Lemma series_fold_counts fs ls p : counted p -> p.(total) + len fs <= U64_MAX ->
  match foldM (fun a f => series_field a (fst f) (snd f)) (ls, p) fs with
  | Ok (_, p') => counted p' /\ p'.(total) = p.(total) + points_in fs
  | Err n => 1 <= n <= Z.max 1 (p.(total) + points_in fs)
  | Fuel => True
  end.
Proof.
  revert ls p. induction fs as [|[f v] fs IH]; intros ls p Hp Hl; [cbn; split; [done|unfold points_in; cbn - [len]; len_lia]|].
  rewrite points_in_cons. cbn [foldM fst snd]. pose proof (points_in_nonneg fs) as H0.
  pose proof (series_field_counts ls p f v Hp ltac:(len_lia)) as Hs.
  pose proof (points_in_le [(f, v)]) as H1.
  destruct (series_field (ls, p) f v) as [[ls' p']|n|]; [|lia|done]. destruct Hs as [Hp' Ht].
  specialize (IH ls' p' Hp' ltac:(len_lia)). destruct (foldM _ (ls', p') fs) as [[ls2 p2]|n|]; [|lia|done].
  destruct IH as [Hc Hi]. split; [done|lia].
Qed.

Lemma finish_series_inv ls p s : finish_series ls p = Ok s ->
  s.(sr_samples) = p.(samples) /\ s.(sr_histograms) = p.(histograms) /\ s.(sr_exemplars) = p.(exemplars).
Proof. unfold finish_series. intros E. case_in E. by injection E as <-. Qed.

Lemma finish_series_err ls p n : finish_series ls p = Err n -> n = fail_count p.
Proof. unfold finish_series. intros E. case_in E; by injection E as <-. Qed.

(** A series whose fields, labels and samples can all be read. *)
Definition readable (series : bytes) : Prop :=
  intact series = true /\ Forall (fun b => exists l, decode_label b = Ok l) (payloads 1 series) /\
  Forall (fun b => exists s, decode_sample b = Ok s) (payloads 2 series).

Lemma readable_fold fs ls p n :
  Forall (fun b => exists l, decode_label b = Ok l) (omap (select 1) fs) ->
  Forall (fun b => exists s, decode_sample b = Ok s) (omap (select 2) fs) ->
  foldM (fun a f => series_field a (fst f) (snd f)) (ls, p) fs <> Err n.
Proof.
  revert ls p. induction fs as [|[f v] fs IH]; intros ls p H1 H2; [done|]. cbn [foldM fst snd].
  assert (Ht : Forall (fun b => exists l, decode_label b = Ok l) (omap (select 1) fs) /\
    Forall (fun b => exists s, decode_sample b = Ok s) (omap (select 2) fs)).
  { cbn [omap list_omap] in *. destruct (select 1 (f, v)), (select 2 (f, v));
      repeat match goal with H : Forall _ (_ :: _) |- _ => apply Forall_cons_1 in H as [_ H] end; done. }
  destruct Ht as [Ht1 Ht2].
  destruct (series_field (ls, p) f v) as [[ls' p']|m|] eqn:E; [by apply IH|exfalso|done].
  revert E H1 H2. cbn [omap list_omap].
  destruct f as [|[[q|q|]|[q|[q|q|]|]|]|q], v as [k|b|b|]; cbn - [decode_label decode_sample Exemplar.decode_v1 parts_sample parts_histogram];
    try done; intros E H1 H2.
  - by destruct (Exemplar.decode_v1 b).
  - unfold parts_histogram in E. by destruct (decode_wire b) as [[? ?]| |].
  - apply Forall_cons_1 in H2 as [[s Hs] _]. unfold parts_sample in E. by rewrite Hs in E.
  - apply Forall_cons_1 in H1 as [[l Hl] _]. by rewrite Hl in E.
Qed.

(** A series accounts for its points. *)
Lemma series_accounts b : len b <= I64_MAX ->
  match decode_series b with
  | Ok (s, rej) => kept s + rej = points b /\ 0 <= rej
  | Err n => 1 <= n <= Z.max 1 (points b) /\ (readable b -> n = Z.max 1 (points b))
  | Fuel => True
  end.
Proof.
  intros Hb. unfold decode_series, readable, points, payloads, intact. rewrite fields_or_fold.
  pose proof (field_list_length b) as Hl.
  destruct (field_list b) as [fs ok]. cbn [fst snd] in *.
  pose proof (series_fold_counts fs [] Parts_default ltac:(split; [done|cbn; lia]) ltac:(cbn [total Parts_default]; unfold I64_MAX, U64_MAX in *; lia)) as Hc.
  pose proof (readable_fold fs [] Parts_default) as Hr. cbn [total Parts_default] in Hc.
  destruct (foldM _ _ fs) as [[ls p]|n|]; [|split; [lia|intros (_ & H1 & H2); by destruct (Hr n H1 H2)]|done].
  destruct Hc as [[Hc0 Hc1] Hc2]. pose proof (points_in_nonneg fs). destruct ok.
  - destruct (finish_series ls p) as [s|n|] eqn:E; [|apply finish_series_err in E; unfold fail_count in *; lia|done].
    apply finish_series_inv in E as (E1 & E2 & _). unfold kept. rewrite E1, E2. lia.
  - unfold fail_count. cbn [snd]. split; [lia|]. intros [Hx _]. done.
Qed.

(** ** The request *)

Definition stored (l : list Series) : Z := fold_right (fun s n => kept s + n) 0 l.
Definition sum_points (bs : list bytes) : Z := fold_right (fun b n => points b + n) 0 bs.
(** A rejected series counts once even without points. *)
Definition charge (b : bytes) : Z := Z.max 1 (points b).
Definition sum_charged (bs : list bytes) : Z := fold_right (fun b n => charge b + n) 0 bs.

Lemma stored_concat a b : stored (a ++ b) = stored a + stored b.
Proof. induction a as [|s a IH]; simpl; lia. Qed.

Lemma sum_charged_cons b bs : sum_charged (b :: bs) = charge b + sum_charged bs.
Proof. done. Qed.
Lemma sum_charged_nonneg bs : 0 <= sum_charged bs.
Proof. induction bs as [|b bs IH]; [done|]. rewrite sum_charged_cons. unfold charge. lia. Qed.

Lemma sum_charged_sizes n fs : sum_charged (omap (select n) fs) <= sizes fs.
Proof.
  induction fs as [|[f v] fs IH]; [done|]. cbn [omap list_omap]. rewrite sizes_cons. cbn [snd].
  pose proof (value_size_nonneg v). destruct v as [x|b|b|]; cbn [select]; try lia.
  destruct (f =? n); [|lia]. rewrite sum_charged_cons. pose proof (points_le b). unfold charge. simpl in *. lia.
Qed.

(** One field of the request: what is stored and rejected grows by at most
    what the series is charged, and for a readable series by its points. *)
Definition moves (d d' : Decoded) (b : bytes) : Prop :=
  let before := stored d.(dc_series) + d.(dc_rejected) in
  let after := stored d'.(dc_series) + d'.(dc_rejected) in
  0 <= d'.(dc_rejected) <= d.(dc_rejected) + charge b /\
  after <= before + charge b /\ (readable b -> before + points b <= after).

Lemma request_series d b d' : len b <= I64_MAX -> 0 <= d.(dc_rejected) -> d.(dc_rejected) + charge b <= U64_MAX ->
  request_field d 1 (Bytes b) = Ok d' -> moves d d' b.
Proof.
  intros Hb Hr Hc. pose proof (series_accounts b Hb) as Ha. unfold moves, charge in *. cbn [request_field].
  destruct (decode_series b) as [[s rej]|n|]; [| |done]; intros [= <-]; cbn [dc_rejected dc_series];
    rewrite ?stored_concat; cbn [stored fold_right].
  - destruct Ha as [Ha Hrej]. assert (0 <= kept s) by (unfold kept; len_lia). rewrite sat_small by lia. lia.
  - destruct Ha as [Ha Hrd]. rewrite sat_small by lia. split; [lia|]. split; [lia|].
    intros Hx. specialize (Hrd Hx). lia.
Qed.

Lemma request_other d f v d' : select 1 (f, v) = None -> request_field d f v = Ok d' ->
  d'.(dc_rejected) = d.(dc_rejected) /\ d'.(dc_series) = d.(dc_series).
Proof.
  destruct f as [|[[q|q|]|q|]|q], v as [x|b|b|]; cbn [request_field]; intros Hs E; simplify_eq; try done.
  by destruct (decode_metadata b); simplify_eq.
Qed.

Lemma select_Some n f v b : select n (f, v) = Some b -> f = n /\ v = Bytes b.
Proof. destruct v as [x|c|c|]; try done. simpl. destruct (Z.eqb_spec f n) as [->|]; [|done]. by intros [= ->]. Qed.

Lemma request_fold fs d d' : sizes fs <= I64_MAX -> 0 <= d.(dc_rejected) ->
  d.(dc_rejected) + sum_charged (omap (select 1) fs) <= U64_MAX ->
  foldM (fun a f => request_field a (fst f) (snd f)) d fs = Ok d' ->
  let before := stored d.(dc_series) + d.(dc_rejected) in
  let after := stored d'.(dc_series) + d'.(dc_rejected) in
  let bs := omap (select 1) fs in
  after <= before + sum_charged bs /\ (Forall readable bs -> before + sum_points bs <= after).
Proof.
  cbv zeta. revert d. induction fs as [|[f v] fs IH]; intros d Hs Hr Hc E.
  { injection E as <-. cbn. lia. }
  cbn [foldM fst snd] in E. destruct (request_field d f v) as [d1| |] eqn:E1; [|done..].
  rewrite sizes_cons in Hs. cbn [snd] in Hs. pose proof (value_size_nonneg v). pose proof (sizes_nonneg fs).
  cbn [omap list_omap] in *. destruct (select 1 (f, v)) as [b|] eqn:Eb.
  - apply select_Some in Eb as [-> ->]. rewrite sum_charged_cons in *. cbn [value_size] in *.
    pose proof (sum_charged_nonneg (omap (select 1) fs)).
    destruct (request_series d b d1 ltac:(lia) Hr ltac:(lia) E1) as (M1 & M2 & M3).
    destruct (IH d1 ltac:(lia) ltac:(lia) ltac:(lia) E) as [Hu Hl]. split; [lia|].
    intros Hx. apply Forall_cons_1 in Hx as [Hx1 Hx2]. specialize (Hl Hx2). specialize (M3 Hx1).
    cbn [sum_points fold_right]. change (fold_right _ 0 (omap (select 1) fs)) with (sum_points (omap (select 1) fs)). lia.
  - destruct (request_other _ _ _ _ Eb E1) as [M1 M2]. rewrite <- M1, <- M2. apply IH; [lia|lia|rewrite M1; done|done].
Qed.

Lemma decode_fold input d : decode input = Ok d ->
  foldM (fun a f => request_field a (fst f) (snd f)) (mkDecoded [] 0 []) (fst (field_list input)) = Ok d.
Proof.
  unfold decode. rewrite fields_fold. destruct (field_list input) as [fs ok]. cbn [fst].
  destruct (foldM _ _ fs); [|done..]. by destruct ok.
Qed.

(** C6. Remote-write accounting.  The samples and histograms a request is
    answered for, stored or counted as rejected, never exceed what its series
    hold, with an unusable series counting at least once; and when every
    series can be read down to its labels and samples, no point goes
    unreported. *)
Theorem remote_write_accounting (input : bytes) (d : Decoded) :
  len input <= I64_MAX -> decode input = Ok d ->
  stored d.(dc_series) + d.(dc_rejected) <= sum_charged (payloads 1 input) /\
  (Forall readable (payloads 1 input) ->
   sum_points (payloads 1 input) <= stored d.(dc_series) + d.(dc_rejected)).
Proof.
  intros Hl E. apply decode_fold in E. pose proof (field_list_sizes input) as Hs.
  pose proof (sum_charged_sizes 1 (fst (field_list input))) as Hc.
  apply request_fold in E; [exact E|lia|done|]. cbn [dc_rejected]. unfold I64_MAX, U64_MAX in *. lia.
Qed.
End Accounting.

(** * What is accepted is valid *)

Definition label_ok (nv : bytes * bytes) : Prop :=
  fst nv <> [] /\ snd nv <> [] /\ from_utf8_ok (fst nv) = true /\ from_utf8_ok (snd nv) = true.

(** Label names in strictly increasing order. *)
Definition labels_ok (ls : list (bytes * bytes)) : Prop :=
  ls <> [] /\ Forall label_ok ls /\ Forall (fun '(a, b) => bytes_ltb (fst a) (fst b) = true) (windows2 ls).

Definition is_i64 (v : Z) : Prop := I64_MIN <= v <= I64_MAX.
(** A start timestamp is a 64-bit instant; zero means unset and is dropped. *)
Definition start_ok (s : option Z) : Prop := match s with Some v => is_i64 v /\ v <> 0 | None => True end.
Definition sample_ok (s : Sample) : Prop := is_f64 s.(sm_value) /\ is_i64 s.(sm_timestamp_ms).
Definition point_ok (p : HistPoint) : Prop := let '(h, ts, _) := p in hist_ok h.
Definition exemplar_ok (e : Exemplar) : Prop := stored_ok (ex_labels e, ex_value e, timestamp_ms e).

Definition series_ok (s : Series) : Prop :=
  labels_ok s.(sr_labels) /\ (s.(sr_samples) <> [] \/ s.(sr_histograms) <> [] \/ s.(sr_exemplars) <> []) /\
  Forall (fun x => sample_ok x /\ start_ok x.(start_timestamp_ms)) s.(sr_samples) /\
  Forall (fun x => point_ok x /\ start_ok (snd x)) s.(sr_histograms) /\ Forall exemplar_ok s.(sr_exemplars).

Definition metadata_ok (m : Metadata) : Prop :=
  m.(md_name) <> [] /\ m.(md_kind) ∈ METRIC_TYPES /\ from_utf8_ok m.(md_name) = true /\
  from_utf8_ok m.(md_help) = true /\ from_utf8_ok m.(md_unit) = true.

(** The starts of a series being read are still unresolved. *)
Definition start_range (s : option Z) : Prop := match s with Some v => is_i64 v | None => True end.
Definition collected (start : option Z -> Prop) (p : Parts) : Prop :=
  Forall (fun x => sample_ok x /\ start x.(start_timestamp_ms)) p.(samples) /\
  Forall (fun x => point_ok x /\ start (snd x)) p.(histograms) /\ Forall exemplar_ok p.(exemplars).

Lemma word_range input i : byte_list input -> 0 <= from_le_bytes (slice input i (i + 8)) < U64.
Proof.
  intros Hb. pose proof (from_le_bytes_bound _ (byte_list_slice input i (i + 8) Hb)) as H.
  split; [apply H|]. eapply Z.lt_le_trans; [apply H|]. change U64 with (256 ^ 8).
  apply Z.pow_le_mono_r; [lia|]. unfold slice, len. rewrite length_take. lia.
Qed.

Lemma sample_loop_ok fuel input i vb ts s : byte_list input -> is_f64 vb -> is_i64 ts ->
  sample_loop fuel input i vb ts = Ok s -> sample_ok s.
Proof.
  intros Hb. revert i vb ts. induction fuel as [|fuel IH]; intros i vb ts Hv Ht E; [done|]. cbn [sample_loop] in E.
  destruct (len input <=? i); [by injection E as <-|]. destruct (read_tag input i) as [[[f w] c]|]; [|done]. cbn [ok_or] in E.
  unfold ok_or in E. case_in E;
    (eapply IH; [| |exact E]); first [done | by apply word_range | apply as_i64_range].
Qed.

Lemma decode_sample_ok b s : byte_list b -> decode_sample b = Ok s -> sample_ok s.
Proof. intros Hb. apply sample_loop_ok; [done|..]; vm_compute; split; done || discriminate. Qed.

Section Validity.
Context `{SimdUtf8}.

Lemma existsb_none {A} (f : A -> bool) l x : existsb f l = false -> In x l -> f x = false.
Proof.
  intros E Hin. destruct (f x) eqn:Ef; [|done].
  assert (Ht : existsb f l = true) by (apply existsb_exists; by exists x). congruence.
Qed.

Lemma is_nil_false {A} (l : list A) : is_nil l = false -> l <> [].
Proof. by destruct l. Qed.

Lemma finish_series_ok ls p s : collected start_ok p -> finish_series ls p = Ok s -> series_ok s.
Proof.
  intros (H1 & H2 & H3). unfold finish_series. destruct (_ || _) eqn:E0; [done|].
  apply orb_false_iff in E0 as [_ E0]. destruct (existsb _ ls) eqn:E1; [done|].
  set (ls1 := sort_by _ ls). destruct (existsb _ (windows2 ls1)) eqn:E2; [done|].
  destruct (is_nil (List.filter _ ls1)) eqn:E3; [done|]. intros [= <-].
  split; [split; [by apply is_nil_false|split]|split_and!; try done].
  - apply list.Forall_forall. intros [n v] Hin. apply list_elem_of_In, filter_In in Hin as [Hin Hv].
    apply negb_true_iff, is_nil_false in Hv.
    assert (Hin' : In (n, v) ls) by (refine (Permutation_in (n, v) _ Hin); apply sort_by_perm).
    pose proof (existsb_none _ _ _ E1 Hin') as E. cbn beta iota in E.
    apply orb_false_iff in E as [E Ev]. apply orb_false_iff in E as [En Eu]. apply negb_false_iff in Eu, Ev.
    rewrite simd_from_utf8_std in Eu, Ev. split_and!; [by apply is_nil_false|done|done|done].
  - apply (chain_filter (fun a b => bytes_ltb (fst a) (fst b) = true)); [intros a b c; apply bytes_ltb_trans|].
    apply sort_distinct_chain. apply Forall_forall. intros [a b] Hin. fold ls1 in Hin.
    exact (existsb_none _ _ _ E2 Hin).
  - cbn [sr_samples sr_histograms sr_exemplars]. destruct (samples p); [|by left]. destruct (histograms p); [|right; by left].
    destruct (exemplars p); [done|]. right. by right.
Qed.

Lemma collected_default start : collected start Parts_default.
Proof. repeat constructor. Qed.

Lemma parts_sample_collected (start : option Z -> Prop) p b o p' : byte_list b -> start o -> collected start p ->
  parts_sample p b o = Ok p' -> collected start p'.
Proof.
  intros Hb Ho (H1 & H2 & H3). unfold parts_sample. destruct (decode_sample b) as [s| |] eqn:E; [|done..].
  intros [= <-]. apply decode_sample_ok in E; [|done]. split_and!; [|done..]. apply Forall_app. split; [done|].
  constructor; [|constructor]. by split.
Qed.

Lemma parts_histogram_collected (start : option Z -> Prop) p b o p' : byte_list b -> start o -> collected start p ->
  parts_histogram p b o = Ok p' -> collected start p'.
Proof.
  intros Hb Ho (H1 & H2 & H3). unfold parts_histogram. destruct (decode_wire b) as [[h ts]| |] eqn:E; [|by intros [= <-]|done].
  intros [= <-]. apply decode_wire_ok in E; [|done]. split_and!; [done| |done]. apply Forall_app. split; [done|].
  constructor; [|constructor]. by split.
Qed.

Lemma parts_exemplar_collected (start : option Z -> Prop) p e p' : (forall x, e = Ok x -> exemplar_ok x) ->
  collected start p -> parts_exemplar p e = Ok p' -> collected start p'.
Proof.
  intros He (H1 & H2 & H3). destruct e as [x| |]; cbn; [|by intros [= <-]|done]. intros [= <-].
  split_and!; [done|done|]. apply Forall_app. split; [done|]. constructor; [by apply He|constructor].
Qed.

(** Values of a field loop that starts from a byte list. *)
Lemma fields_or_value_inv {E A} (P : A -> Prop) (bad : A -> E) (visit : A -> Z -> Value -> res E A) acc input r :
  P acc -> (forall a f v b, value_ok input v -> P a -> visit a f v = Ok b -> P b) ->
  fields_or bad visit acc input = Ok r -> P r.
Proof.
  intros H0 Hs. rewrite fields_or_fold. destruct (field_list input) as [fs ok] eqn:El.
  destruct (foldM _ acc fs) as [a| |] eqn:Ef; [|done..]. destruct ok; [|done]. intros [= <-].
  eapply (foldM_inv P); [exact H0| |exact Ef]. intros x [f v] z Hin Hx Hy.
  eapply (Hs x f v z); [|done|exact Hy]. apply (field_list_ok input f v). by rewrite El.
Qed.

Lemma value_bytes input b : byte_list input -> value_ok input (Bytes b) -> byte_list b.
Proof. intros Hb (i & j & _ & _ & ->). by apply byte_list_slice. Qed.

Lemma decode_series_ok b s rej : byte_list b -> decode_series b = Ok (s, rej) -> series_ok s.
Proof.
  intros Hb. unfold decode_series. destruct (fields_or _ _ _ b) as [[ls p]| |] eqn:E; [|done..].
  destruct (finish_series ls p) as [x| |] eqn:Ef; [|done..]. intros [= <- _].
  eapply finish_series_ok; [|exact Ef].
  apply (fields_or_value_inv (fun a => collected start_ok (snd a))) in E; [exact E|apply collected_default|].
  intros [l0 p0] f v [l1 p1] Hv Hp. cbn [snd] in *.
  destruct f as [|[[q|q|]|[q|[q|q|]|]|]|q], v as [k|c|c|]; cbn [series_field]; try (by intros [= <- <-]).
  - pose proof (value_bytes _ _ Hb Hv). destruct (parts_exemplar p0 _) as [p2| |] eqn:E2; [|done..]. intros [= <- <-].
    eapply parts_exemplar_collected; [|exact Hp|exact E2]. intros x' Ex. by eapply decode_v1_ok.
  - pose proof (value_bytes _ _ Hb Hv). destruct (parts_histogram p0 c None) as [p2| |] eqn:E2; [|done..].
    intros [= <- <-]. eapply (parts_histogram_collected start_ok); [..|exact E2]; done.
  - pose proof (value_bytes _ _ Hb Hv). destruct (parts_sample p0 c None) as [p2| |] eqn:E2; [|done..].
    intros [= <- <-]. eapply (parts_sample_collected start_ok); [..|exact E2]; done.
  - destruct (decode_label c); [|done..]. by intros [= <- <-].
Qed.

Lemma decode_metadata_ok b m : decode_metadata b = Ok m -> metadata_ok m.
Proof.
  unfold decode_metadata. destruct (fields _ _ _ b) as [m'| |] eqn:E; [|done..].
  destruct (_ && _) eqn:Eu; [|done]. intros [= <-]. bools.
  rewrite simd_from_utf8_std in *.
  apply (fields_value_inv (fun m => m.(md_kind) ∈ METRIC_TYPES)) in E.
  - split_and!; [by apply is_nil_false|done..].
  - by apply list_elem_of_here.
  - intros [n k h u] f v m1 _ Hk. cbn [md_kind md_name md_help md_unit] in *.
    destruct f as [|[[q|[q|q|]|]|[q|[q|q|]|]|]|q], v as [t|c|c|]; cbn; try (by intros [= <-]).
    destruct (get METRIC_TYPES t) as [kind|] eqn:Eg; [|done]. intros [= <-]. by apply get_Some_elem in Eg.
Qed.

(** ** Version 2 *)

Lemma strip_suffix_utf8 s c suf r : 0 <= c < 128 -> strip_suffix s (c :: suf) = Some r ->
  from_utf8_ok s = true -> from_utf8_ok r = true.
Proof.
  intros Hc. unfold strip_suffix. case_bool_decide as E; [|done]. intros [= <-] Hs. rewrite E in Hs.
  by apply from_utf8_ok_prefix in Hs.
Qed.

Lemma family_name_utf8 name kind : from_utf8_ok name = true -> from_utf8_ok (family_name name kind) = true.
Proof.
  intros Hn. assert (G : forall l, Forall (fun x => exists suf, x = 95 :: suf) l ->
    from_utf8_ok (fold_right (fun suffix acc => match strip_suffix name suffix with Some s => s | None => acc end) name l) = true).
  { induction 1 as [|x l [suf ->] Hl IH]; [done|]. cbn [fold_right].
    destruct (strip_suffix name (95 :: suf)) as [r|] eqn:E; [|done]. by apply strip_suffix_utf8 in E. }
  unfold family_name. cbv zeta. apply G. repeat case_match; repeat (constructor; [by eexists|]); constructor.
Qed.

Lemma series_metadata_ok labels kind help unit_ m : Forall label_ok labels ->
  series_metadata labels kind help unit_ = Some m -> metadata_ok m.
Proof.
  intros Hl. unfold series_metadata. destruct (find _ labels) as [[n v]|] eqn:Ef; [|done]. cbn [option_map snd].
  apply find_some in Ef as [Hin _]. rewrite Forall_forall in Hl. destruct (Hl _ Hin) as (_ & _ & _ & Hv).
  set (k := default UNKNOWN _). destruct (is_nil (family_name v k)) eqn:En; [done|]. destruct (_ && _ && _); [done|].
  destruct (simd_from_utf8 help && simd_from_utf8 unit_) eqn:Eu; [|done]. intros [= <-].
  apply andb_true_iff in Eu as [E1 E2]. rewrite simd_from_utf8_std in E1, E2.
  split_and!; [by apply is_nil_false| |by apply family_name_utf8|done|done]. cbn. unfold k.
  destruct (get METRIC_TYPES kind) as [x|] eqn:Eg; cbn; [by apply get_Some_elem in Eg|apply list_elem_of_here].
Qed.

Lemma resolve_start_ok a b : start_range a -> start_range b -> start_ok (resolve_start a b).
Proof.
  intros Ha Hb. unfold resolve_start. destruct a as [v|]; [|destruct b as [v|]; [|done]];
    destruct (Z.eqb_spec v 0); by cbn.
Qed.

Lemma resolve_starts_ok p c : start_range c -> collected start_range p -> collected start_ok (resolve_starts p c).
Proof.
  intros Hc (H1 & H2 & H3). unfold collected, resolve_starts. cbn. split_and!; [| |done]; apply Forall_map;
    [eapply Forall_impl; [|exact H1]|eapply Forall_impl; [|exact H2]].
  - intros s [Hs Ht]. split; [exact Hs|]. by apply resolve_start_ok.
  - intros [[h ts] s] [Hs Ht]. split; [exact Hs|]. by apply resolve_start_ok.
Qed.

Lemma start_timestamp_range b n o : start_timestamp b n = Ok o -> start_range o.
Proof.
  unfold start_timestamp. apply (fields_value_inv start_range); [done|]. intros a f v o' _ Ha.
  destruct (f =? n); [|by intros [= <-]]. destruct v; try done. intros [= <-]. apply as_i64_range.
Qed.

Lemma v2_field_ok input symbols s f v s' : byte_list input -> value_ok input v ->
  collected start_range s.(parts) -> start_range s.(created) -> v2_field symbols s f v = Ok s' ->
  collected start_range s'.(parts) /\ start_range s'.(created).
Proof.
  intros Hb Hv Hp Hc. destruct f as [|[[[q|q|]|[q|q|]|]|[[q|q|]|[q|q|]|]|]|q], v as [k|c|c|]; cbn [v2_field]; try done;
    try (by intros [= <-]); try (pose proof (value_bytes _ _ Hb Hv) as Hcb).
  - destruct (start_timestamp c 17) as [o| |] eqn:Eo; [|done..]. apply start_timestamp_range in Eo. cbn [or_corrupt].
    destruct (parts_histogram (parts s) c o) as [p| |] eqn:Ep; [|done..]. intros [= <-]. split; [|done].
    eapply (parts_histogram_collected start_range); [..|exact Ep]; done.
  - intros [= <-]. split; [done|apply as_i64_range].
  - destruct (parts_exemplar (parts s) _) as [p| |] eqn:Ep; [|done..]. intros [= <-]. split; [|done].
    eapply parts_exemplar_collected; [|exact Hp|exact Ep]. intros x Ex. by eapply decode_v2_ok.
  - destruct (start_timestamp c 3) as [o| |] eqn:Eo; [|done..]. apply start_timestamp_range in Eo. cbn [or_corrupt].
    destruct (parts_sample (parts s) c o) as [p| |] eqn:Ep; [|done..]. intros [= <-]. split; [|done].
    eapply (parts_sample_collected start_range); [..|exact Ep]; done.
  - destruct (packed_varints _ _ _); [|done..]. by intros [= <-].
Qed.

Lemma decode_series_v2_ok b symbols s rej md : byte_list b -> decode_series_v2 b symbols = Ok (s, rej, md) ->
  series_ok s /\ forall m, md = Some m -> metadata_ok m.
Proof.
  intros Hb. unfold decode_series_v2. destruct (fields_or _ _ _ b) as [st| |] eqn:E; [|done..].
  apply (fields_or_value_inv (fun s => collected start_range s.(parts) /\ start_range s.(created))) in E as [Hp Hc].
  - destruct (negb _); [done|]. destruct (v2_labels _ _) as [ls|]; [|done]. cbn [ok_or].
    destruct (fields _ _ _ (metadata st)) as [[[k h] u]| |]; [|done..]. cbn [reject].
    match goal with |- context [ok_or ?o _] => destruct o as [help|]; [|done] end. cbn [ok_or].
    match goal with |- context [ok_or ?o _] => destruct o as [un|]; [|done] end. cbn [ok_or].
    destruct (finish_series _ _) as [x| |] eqn:Ef; [|done..]. cbn [reject]. intros [= <- _ <-].
    apply finish_series_ok in Ef; [|by apply resolve_starts_ok]. split; [done|]. intros m Hm.
    eapply series_metadata_ok; [|exact Hm]. apply Ef.
  - split; [apply collected_default|done].
  - intros a f v a' Hv [Hp Hc]. by apply v2_field_ok with (input := b).
Qed.

(** ** Requests *)

Lemma decode_valid input d : byte_list input -> decode input = Ok d ->
  Forall series_ok d.(dc_series) /\ Forall metadata_ok d.(dc_metadata).
Proof.
  intros Hb. unfold decode. apply (fields_value_inv (fun d => Forall series_ok d.(dc_series) /\ Forall metadata_ok d.(dc_metadata))).
  { split; constructor. }
  intros a f v a' Hv [Hs Hm]. destruct f as [|[[q|q|]|q|]|q], v as [k|c|c|]; cbn [request_field]; try (by intros [= <-]).
  - destruct (decode_metadata c) as [m| |] eqn:Em; [|by intros [= <-]|done]. intros [= <-]. split; [done|].
    apply Forall_app. split; [done|]. constructor; [by apply decode_metadata_ok in Em|constructor].
  - pose proof (value_bytes _ _ Hb Hv). destruct (decode_series c) as [[s rej]| |] eqn:Es; [|by intros [= <-]|done].
    intros [= <-]. split; [|done]. apply Forall_app. split; [done|].
    constructor; [by apply decode_series_ok in Es|constructor].
Qed.

Definition v2_state_ok (s : Decoded * list Metadata) : Prop :=
  Forall series_ok (fst s).(dc_series) /\ Forall metadata_ok (fst s).(dc_metadata) /\
  NoDup (fst s).(dc_metadata) /\ forall m, m ∈ snd s <-> m ∈ (fst s).(dc_metadata).

Lemma request_field_v2_ok input symbols s f v s' : byte_list input -> value_ok input v -> v2_state_ok s ->
  request_field_v2 symbols s f v = Ok s' -> v2_state_ok s'.
Proof.
  intros Hb Hv Hs. destruct s as [d seen]. destruct (decide (f = 5)) as [->|Hf].
  2:{ intros E. replace (request_field_v2 symbols (d, seen) f v) with (Ok (d, seen) : opt _) in E; [by injection E as <-|].
      by destruct f as [|[[q|[q|q|]|]|q|]|q], v. }
  destruct v as [k|c|c|]; cbn [request_field_v2]; try (by intros [= <-]).
  pose proof (value_bytes _ _ Hb Hv). destruct Hs as (H1 & H2 & H3 & H4). cbn [fst snd] in *.
  destruct (decode_series_v2 c symbols) as [[[s rej] md]|[|n]|] eqn:Es; [|done|by intros [= <-]|done].
  apply decode_series_v2_ok in Es as [Hs Hm]; [|done].
  assert (Hss : Forall series_ok (dc_series d ++ [s])) by (apply Forall_app; split; [done|constructor; [done|constructor]]).
  destruct md as [m|]; [|intros [= <-]; by split_and!]. case_bool_decide as Em; intros [= <-]; [by split_and!|].
  split_and!; cbn; [done| | |].
  - apply Forall_app. split; [done|]. constructor; [by apply Hm|constructor].
  - apply list.NoDup_app. split_and!; [done| |apply NoDup_singleton]. intros x Hx ->%list_elem_of_singleton. apply Em, H4, Hx.
  - intros x. rewrite elem_of_cons, elem_of_app, list_elem_of_singleton, H4. tauto.
Qed.

Lemma decode_v2_valid input d : byte_list input -> decode_v2 input = Ok d ->
  Forall series_ok d.(dc_series) /\ Forall metadata_ok d.(dc_metadata) /\ NoDup d.(dc_metadata).
Proof.
  intros Hb. unfold decode_v2. destruct (fields _ _ _ input) as [symbols| |]; [|done..].
  match goal with |- context [if ?c then _ else _] => destruct c; [done|] end.
  destruct (fields tt (request_field_v2 symbols) _ input) as [[d' seen]| |] eqn:E; [|done..]. intros [= <-].
  apply (fields_value_inv v2_state_ok) in E as (H1 & H2 & H3 & _); [by split_and!| |].
  - split; [constructor|split; [constructor|split; [constructor|done]]].
  - intros a f v a' Hv Ha. by apply request_field_v2_ok with (input := input).
Qed.

(** C5. Everything a remote-write request stores is well formed, whatever its
    bytes, in both protocol versions: label sets are non-empty, with names in
    strictly increasing order and non-empty UTF-8 names and values; a series
    has some point; samples and histograms have their widths and validated
    buckets, exemplars are storable, start timestamps are resolved; metadata
    has a UTF-8 family name and a known type, and version 2 reports each entry
    once. *)
Theorem remote_write_valid (input : bytes) (d : Decoded) :
  byte_list input -> decode input = Ok d \/ decode_v2 input = Ok d ->
  Forall series_ok d.(dc_series) /\ Forall metadata_ok d.(dc_metadata) /\
  (decode_v2 input = Ok d -> NoDup d.(dc_metadata)).
Proof.
  intros Hb [E|E].
  - apply decode_valid in E as Hv; [|done]. split_and!; [apply Hv..|]. intros E2. apply decode_v2_valid in E2; [apply E2|done].
  - apply decode_v2_valid in E as Hv; [|done]. split_and!; [apply Hv..|]. intros _. apply Hv.
Qed.
End Validity.

(** * Every decoder returns, but for version 1's sample reader *)

Section Totality.
Context `{SimdUtf8}.

Lemma pair_fields_not_fuel b : decode_label b <> Fuel.
Proof. unfold decode_label. apply fields_not_fuel. intros [n v] f w _. by repeat case_match. Qed.

Lemma parts_sample_returns p b o : len b <= I64_MAX -> intact b = true -> parts_sample p b o <> Fuel.
Proof. intros Hl Hi. unfold parts_sample. by rewrite decode_sample_intact. Qed.

Lemma parts_histogram_returns p b o : parts_histogram p b o <> Fuel.
Proof.
  unfold parts_histogram. destruct (decode_wire b) as [[h ts]| |] eqn:E; [done|done|].
  by apply decode_wire_not_fuel in E.
Qed.

Lemma parts_exemplar_returns p e : e <> Fuel -> parts_exemplar p e <> Fuel.
Proof. by destruct e. Qed.

Lemma finish_series_returns ls p : finish_series ls p <> Fuel.
Proof. unfold finish_series. by repeat case_match. Qed.

Lemma let_not_fuel {E A B} (r : res E A) (k : A -> res E B) : r <> Fuel -> (forall a, k a <> Fuel) ->
  (let? a := r in k a) <> Fuel.
Proof. intros Hr Hk. destruct r; [apply Hk|done|done]. Qed.

Lemma payload_in n input b : (n, Bytes b) ∈ fst (field_list input) -> b ∈ payloads n input.
Proof.
  intros Hin. unfold payloads. apply list_elem_of_omap. exists (n, Bytes b). split; [done|]. simpl. by rewrite Z.eqb_refl.
Qed.

Lemma fields_or_not_fuel {E A} (bad : A -> E) (visit : A -> Z -> Value -> res E A) acc input :
  (forall a f v, (f, v) ∈ fst (field_list input) -> visit a f v <> Fuel) -> fields_or bad visit acc input <> Fuel.
Proof.
  intros Hv. rewrite fields_or_fold. destruct (field_list input) as [fs ok].
  apply let_not_fuel; [|by destruct ok]. apply foldM_not_fuel. intros a [f v]. apply Hv.
Qed.

Lemma payload_len input f b : len input <= I64_MAX -> (f, Bytes b) ∈ fst (field_list input) -> len b <= I64_MAX.
Proof.
  intros Hl Hin. apply field_list_ok in Hin as [_ (i & j & Hi & Hj & ->)]. rewrite len_slice by lia. lia.
Qed.

Lemma decode_series_returns b : len b <= I64_MAX -> Forall (fun s => intact s = true) (payloads 2 b) ->
  decode_series b <> Fuel.
Proof.
  intros Hl Hs. unfold decode_series. apply let_not_fuel.
  2:{ intros [ls p]. apply let_not_fuel; [apply finish_series_returns|done]. }
  apply fields_or_not_fuel. intros [ls p] f v Hin.
  destruct f as [|[[q|q|]|[q|[q|q|]|]|]|q], v as [k|c|c|]; cbn [series_field]; try done.
  - apply let_not_fuel; [|done]. apply parts_exemplar_returns, decode_v1_not_fuel.
  - apply let_not_fuel; [|done]. apply parts_histogram_returns.
  - apply let_not_fuel; [|done]. apply parts_sample_returns; [by eapply payload_len|].
    rewrite list.Forall_forall in Hs. by apply Hs, payload_in.
  - pose proof (pair_fields_not_fuel c). by destruct (decode_label c).
Qed.

Lemma start_timestamp_returns b n : start_timestamp b n <> Fuel.
Proof. unfold start_timestamp. apply fields_not_fuel. intros a f v _. by repeat case_match. Qed.

Lemma or_corrupt_returns {A} (r : opt A) : r <> Fuel -> or_corrupt r <> Fuel.
Proof. by destruct r. Qed.
Lemma reject_returns {A} (r : res Z A) : r <> Fuel -> reject r <> Fuel.
Proof. by destruct r. Qed.

Lemma v2_field_returns input symbols s f v : len input <= I64_MAX -> (f, v) ∈ fst (field_list input) ->
  v2_field symbols s f v <> Fuel.
Proof.
  intros Hl Hin. destruct f as [|[[[q|q|]|[q|q|]|]|[[q|q|]|[q|q|]|]|]|q], v as [k|c|c|]; cbn [v2_field]; try done.
  - apply let_not_fuel; [apply or_corrupt_returns, start_timestamp_returns|]. intros o.
    apply let_not_fuel; [apply reject_returns, parts_histogram_returns|done].
  - apply let_not_fuel; [apply reject_returns, parts_exemplar_returns, decode_v2_not_fuel|done].
  - pose proof (start_timestamp_returns c 3) as Hr. destruct (start_timestamp c 3) as [o| |] eqn:Eo; [|done|done].
    cbn [or_corrupt]. apply start_timestamp_intact in Eo.
    apply let_not_fuel; [|done]. apply reject_returns, parts_sample_returns; [by eapply payload_len|done].
  - pose proof (packed_varints_not_fuel c (refs s)). by destruct (packed_varints _ _ _).
Qed.

Lemma decode_series_v2_returns b symbols : len b <= I64_MAX -> decode_series_v2 b symbols <> Fuel.
Proof.
  intros Hl. unfold decode_series_v2. apply let_not_fuel.
  { apply fields_or_not_fuel. intros a f v Hin. by apply v2_field_returns with (input := b). }
  intros s. cbv zeta. destruct (negb _); [done|]. apply let_not_fuel; [apply ok_or_not_fuel|]. intros ls.
  apply let_not_fuel.
  { apply reject_returns, fields_not_fuel. intros [[k h] u] f v _. by repeat case_match. }
  intros [[k h] u]. apply let_not_fuel; [apply ok_or_not_fuel|]. intros help.
  apply let_not_fuel; [apply ok_or_not_fuel|]. intros un. apply let_not_fuel; [apply reject_returns, finish_series_returns|done].
Qed.

(** C38. The decoders return.  Version 2 answers every request.  Version 1
    answers every request whose samples are well-formed messages; the
    hypothesis is needed, see the sample that never ends. *)
Theorem remote_write_total (input : bytes) : len input <= I64_MAX ->
  decode_v2 input <> Fuel /\
  (Forall (fun b => Forall (fun s => intact s = true) (payloads 2 b)) (payloads 1 input) -> decode input <> Fuel).
Proof.
  intros Hl. split.
  - unfold decode_v2. apply let_not_fuel; [apply fields_not_fuel; intros; by repeat case_match|]. intros symbols.
    case_match; [done|]. apply let_not_fuel; [|by intros [d m]]. rewrite fields_fold.
    destruct (field_list input) as [fs ok] eqn:El. apply let_not_fuel; [|by destruct ok].
    apply foldM_not_fuel. intros [d m] [f v] Hin. cbn [fst snd].
    destruct f as [|[[q|[q|q|]|]|q|]|q], v as [k|c|c|]; cbn [request_field_v2]; try done.
    assert (Hc : len c <= I64_MAX) by (eapply (payload_len input); [done|]; by rewrite El).
    pose proof (decode_series_v2_returns c symbols Hc).
    destruct (decode_series_v2 c symbols) as [[[s r] [e|]]|[]|]; try done. by case_bool_decide.
  - intros Hs. unfold decode. rewrite fields_fold. destruct (field_list input) as [fs ok] eqn:El.
    apply let_not_fuel; [|by destruct ok]. apply foldM_not_fuel. intros d [f v] Hin. cbn [fst snd].
    destruct f as [|[[q|q|]|q|]|q], v as [k|c|c|]; cbn [request_field]; try done.
    + assert (Hm : decode_metadata c <> Fuel).
      { unfold decode_metadata. apply let_not_fuel; [|intros m; by case_match].
        apply fields_not_fuel. intros m f v _. repeat case_match; try done.
        match goal with E : ok_or _ _ = Fuel |- _ => by apply ok_or_not_fuel in E end. }
      by destruct (decode_metadata c).
    + assert (Hin' : (1, Bytes c) ∈ fst (field_list input)) by by rewrite El.
      pose proof (decode_series_returns c) as Hr.
      rewrite list.Forall_forall in Hs. specialize (Hr (payload_len _ _ _ Hl Hin') (Hs c (payload_in _ _ _ Hin'))).
      by destruct (decode_series c) as [[s r]| |].
Qed.

(** ** The sample that never ends *)

(** An unknown length-delimited field whose length is 2^64 - 11. *)
Definition endless : bytes := 122 :: put_varint 18446744073709551605.
Definition endless_request : bytes :=
  encode_message [(1, Bytes (encode_message [(1, Bytes (encode_message [(1, Bytes NAME); (2, Bytes (str "up"))]));
    (2, Bytes endless)]))].

Lemma endless_step fuel : sample_loop (S fuel) endless 0 0 0 = sample_loop fuel endless 0 0 0.
Proof.
  assert (E1 : read_tag endless 0 = Some (15, 2, 1)) by (vm_compute; reflexivity).
  assert (E2 : read_varint endless (0 + 1) = Some (18446744073709551605, 10)) by (vm_compute; reflexivity).
  cbn [sample_loop]. rewrite E1. cbn [ok_or]. rewrite E2. reflexivity.
Qed.

(** C39. A version 1 request that passes the admission preflight and is never
    answered: the offset of its sample wraps around to the start of the
    message, so the loop repeats for ever. *)
Theorem endless_sample (fuel : nat) :
  sample_loop fuel endless 0 0 0 = Fuel /\ remote_write (mkLimits 10 10 64 64 256) endless_request = Ok tt /\
  decode endless_request = Fuel.
Proof.
  split; [|split; vm_compute; reflexivity]. induction fuel as [|fuel IH]; [done|]. by rewrite endless_step.
Qed.
End Totality.

(** * The preflight bounds the decoder *)

Section Budget.
Variable self : Limits.
Hypothesis records_pos : 0 <= self.(max_records).
Hypothesis attributes_pos : 0 <= self.(max_attributes).
Hypothesis bytes_small : 0 <= self.(attribute_bytes) < U64_MAX.
Context `{SimdUtf8}.

Definition held (s : Series) : Z := kept s + len s.(sr_exemplars).
Definition all_held (l : list Series) : Z := fold_right (fun s n => held s + n) 0 l.

Lemma all_held_app a b : all_held (a ++ b) = all_held a + all_held b.
Proof. induction a as [|s a IH]; simpl; lia. Qed.

Lemma total_perm a b : a ≡ₚ b -> IngestLimits.total a = IngestLimits.total b.
Proof. induction 1; simpl; lia. Qed.

Lemma within_perm a b : a ≡ₚ b -> within self a -> within self b.
Proof.
  intros Hp (H1 & H2 & H3). split_and!.
  - unfold len in *. by rewrite <- Hp.
  - by rewrite <- (total_perm _ _ Hp).
  - by rewrite <- Hp.
Qed.

Lemma finish_series_within ls p s : within self ls -> finish_series ls p = Ok s -> within self s.(sr_labels).
Proof.
  intros Hw. unfold finish_series. intros E. case_in E. injection E as <-. cbn [sr_labels].
  apply within_filter; [done..|]. eapply within_perm; [|exact Hw]. symmetry. apply sort_by_perm.
Qed.

Lemma increment_inv c m c' : increment c m = Ok c' -> c' = c + 1 /\ c' <= m.
Proof. unfold increment. destruct (_ <=? _) eqn:E; [done|]. bools. intros [= <-]. lia. Qed.

Lemma fields_or_fields {E A} (bad : A -> E) (e : E) (visit : A -> Z -> Value -> res E A) acc input r :
  fields_or bad visit acc input = Ok r -> fields e visit acc input = Ok r.
Proof.
  rewrite fields_or_fold, fields_fold. destruct (field_list input) as [fs ok]. destruct (foldM _ _ fs); [|done..].
  by destruct ok.
Qed.

(** The preflight of one series against its decoder. *)
Definition budgeted (r0 : Z) (a : Z * (Z * Z)) (s : list (bytes * bytes) * Parts) : Prop :=
  let '(records, t) := a in let '(ls, p) := s in
  r0 + len p.(samples) + len p.(histograms) + len p.(exemplars) <= records <= self.(max_records) /\ tallied self t ls.

Lemma part_budgeted r0 records t ls p p' c : budgeted r0 (records, t) (ls, p) ->
  increment records self.(max_records) = Ok c ->
  len p'.(samples) + len p'.(histograms) + len p'.(exemplars) <=
    1 + len p.(samples) + len p.(histograms) + len p.(exemplars) ->
  budgeted r0 (c, t) (ls, p').
Proof. intros [Hr Ht] [-> Hc]%increment_inv Hp. split; [lia|done]. Qed.

Lemma series_budgeted r0 b r t ls p : r0 <= self.(max_records) ->
  fields InvalidProtobuf (v1_series_field self) (r0, (0, 0)) b = Ok (r, t) ->
  fields 0 series_field ([], Parts_default) b = Ok (ls, p) -> budgeted r0 (r, t) (ls, p).
Proof.
  intros Hr. apply (fields_sim (budgeted r0)).
  2:{ split; [cbn [samples histograms exemplars Parts_default]; len_lia|by apply tallied_nil]. }
  intros [records t0] [l0 p0] f v [r1 t1] [l1 p1] HR.
  destruct f as [|[[q|q|]|[q|[q|q|]|]|]|q], v as [k|c|c|]; cbn [series_field v1_series_field]; try (by intros [= <- <-] [= <- <-]).
  - destruct (increment _ _) as [n| |] eqn:Ei; [|done..]. intros [= <- <-].
    destruct (Exemplar.decode_v1 c); cbn [parts_exemplar]; [| |done]; intros [= <- <-];
      (eapply part_budgeted; [exact HR|exact Ei|cbn [samples histograms exemplars]; len_lia]).
  - destruct (increment _ _) as [n| |] eqn:Ei; [|done..]. intros [= <- <-]. unfold parts_histogram.
    destruct (decode_wire c) as [[h ts]| |]; [| |done]; intros [= <- <-];
      (eapply part_budgeted; [exact HR|exact Ei|cbn [samples histograms exemplars]; len_lia]).
  - destruct (increment _ _) as [n| |] eqn:Ei; [|done..]. intros [= <- <-]. unfold parts_sample.
    destruct (decode_sample c); [|done..]. intros [= <- <-]. eapply part_budgeted; [exact HR|exact Ei|cbn [samples histograms exemplars]; len_lia].
  - destruct (wire_pair self c t0) as [t2| |] eqn:Ew; [|done..]. intros [= <- <-].
    destruct (decode_label c) as [kv| |] eqn:Ek; [|done..]. intros [= <- <-]. destruct HR as [HR Ht].
    split; [done|]. by eapply wire_pair_tallied.
Qed.

Lemma decode_series_budgeted r0 b r t s rej : r0 <= self.(max_records) ->
  fields InvalidProtobuf (v1_series_field self) (r0, (0, 0)) b = Ok (r, t) ->
  decode_series b = Ok (s, rej) -> r0 + held s <= r <= self.(max_records) /\ within self s.(sr_labels).
Proof.
  intros Hr Ef. unfold decode_series. destruct (fields_or _ _ _ b) as [[ls p]| |] eqn:E; [|done..].
  apply (fields_or_fields _ 0) in E. destruct (series_budgeted _ _ _ _ _ _ Hr Ef E) as [Hb [_ Hw]].
  destruct (finish_series ls p) as [x| |] eqn:Es; [|done..]. intros [= <- _].
  pose proof (finish_series_within _ _ _ Hw Es). apply finish_series_inv in Es as (E1 & E2 & E3).
  unfold held, kept. rewrite E1, E2, E3. split; [lia|done].
Qed.

(** The request loops side by side. *)
Definition admitted (c : Z * Z) (d : Decoded) : Prop :=
  let '(records, groups) := c in
  len d.(dc_series) <= groups <= self.(max_records) /\ all_held d.(dc_series) <= records <= self.(max_records) /\
  Forall (fun s => within self s.(sr_labels)) d.(dc_series).

Lemma request_admitted b records groups d r g d' : admitted (records, groups) d ->
  increment groups self.(max_records) = Ok g ->
  fields InvalidProtobuf (v1_series_field self) (records, (0, 0)) b = Ok r ->
  request_field d 1 (Bytes b) = Ok d' -> admitted (fst r, g) d'.
Proof.
  intros (Hg & Hr & Hw) [-> Hi]%increment_inv Ef. cbn [request_field]. destruct r as [r t].
  assert (Hmono : records <= r <= self.(max_records)).
  { refine (fields_value_inv (fun a => records <= fst a <= self.(max_records)) _ _ _ _ (r, t) _ _ Ef); [cbn; lia|].
    intros [r1 t1] f v [r2 t2] _ Hx. cbn [fst] in *.
    destruct f as [|[[q|q|]|[q|[q|q|]|]|]|q], v as [k|c|c|]; cbn [v1_series_field]; try (by intros [= <- <-]);
      try (destruct (increment _ _) as [n| |] eqn:Ei; [|done..]; apply increment_inv in Ei as [-> ?]; intros [= <- <-]; lia).
    destruct (wire_pair _ _ _); [|done..]. by intros [= <- <-]. }
  destruct (decode_series b) as [[s rej]|n|] eqn:Es; [| |done]; intros [= <-]; cbn [fst dc_series].
  - destruct (decode_series_budgeted records b r t s rej ltac:(lia) Ef Es) as [Hh Hl]. unfold admitted. cbn [dc_series].
    rewrite all_held_app. change (all_held [s]) with (held s + 0). split; [len_lia|]. split; [lia|].
    apply Forall_app. split; [done|]. constructor; [done|constructor].
  - unfold admitted. cbn [dc_series]. split; [lia|]. split; [lia|done].
Qed.

(** C7. A version 1 request that passes the preflight decodes within its
    budgets: at most [max_records] series, at most [max_records] samples,
    histograms and exemplars in all, and every label set within the attribute
    limits. *)
Theorem remote_write_preflight_bounds (input : bytes) (d : Decoded) :
  remote_write self input = Ok tt -> decode input = Ok d ->
  len d.(dc_series) <= self.(max_records) /\ all_held d.(dc_series) <= self.(max_records) /\
  Forall (fun s => within self s.(sr_labels)) d.(dc_series).
Proof.
  unfold remote_write, decode. destruct (fields InvalidProtobuf _ _ input) as [c| |] eqn:Ec; [|done..]. intros _ Ed.
  assert (Ha : admitted c d).
  { refine (fields_sim admitted _ _ _ _ _ _ _ _ input _ _ Ec Ed); [|split; [cbn [dc_series]; len_lia|split; [cbn; lia|constructor]]].
    intros [r0 g0] d0 f v [r1 g1] d1 HR.
    destruct f as [|[[q|q|]|q|]|q], v as [k|b|b|]; try (by intros [= <- <-] [= <-]).
    - intros [= <- <-]. cbn [request_field]. by destruct (decode_metadata b); [intros [= <-]..|].
    - destruct (increment _ _) as [g| |] eqn:Ei; [|done..].
      destruct (fields _ _ _ b) as [[r t]| |] eqn:Ef; [|done..]. intros [= <- <-] Er.
      exact (request_admitted _ _ _ _ _ _ _ HR Ei Ef Er). }
  destruct c as [records groups]. destruct Ha as (H1 & H2 & H3). split; [lia|]. split; [lia|done].
Qed.
End Budget.

(** * Readers compared *)

(** The hand-written sample reader agrees with the shared protobuf reader
    on every well-formed message: it returns, and the value and the timestamp
    are those of the last fields 1 and 2, field numbers being cut to 32 bits. *)
Theorem sample_reader_agrees (input : bytes) :
  len input <= I64_MAX -> intact input = true -> decode_sample input = Ok (sample_of input).
Proof. apply decode_sample_intact. Qed.

Section Corruption.
Context `{SimdUtf8}.

(** C40. A truncated or malformed series does not fail a version 1 request: the
    request succeeds and reports at least one rejected point. *)
Theorem corrupt_series_rejected (b : bytes) :
  len b <= 1000000 -> intact b = false -> Forall (fun s => intact s = true) (payloads 2 b) ->
  exists n, 1 <= n /\ decode (encode_message [(1, Bytes b)]) = Ok (mkDecoded [] n []).
Proof.
  intros Hl Hi Hs. assert (Hb : len b <= I64_MAX) by (unfold I64_MAX; lia).
  assert (Hm : len (encode_message [(1, Bytes b)]) <= I64_MAX).
  { unfold encode_message. cbn [map concat encode_field]. rewrite app_nil_r, !len_app.
    assert (Hp : forall v, len (put_varint v) <= 10) by (intros v; apply put_varint_len).
    pose proof (Hp (Z.lor (Z.shiftl 1 3) 2)). pose proof (Hp (len b)). unfold I64_MAX. lia. }
  unfold decode. rewrite fields_fold, field_list_encode;
    [|constructor; [|constructor]; split; [cbn; lia|exact Hb]|done].
  pose proof (decode_series_returns b Hb Hs) as Hr. pose proof (series_accounts b Hb) as Ha.
  assert (He : forall x, decode_series b <> Ok x).
  { intros x. unfold decode_series. rewrite fields_or_fold. unfold intact in Hi. destruct (field_list b) as [fs ok].
    simpl in Hi. subst ok. by destruct (foldM _ _ fs). }
  cbn [foldM fst snd request_field]. destruct (decode_series b) as [x|n|]; [by destruct (He x)| |done].
  exists n. split; [lia|]. cbn [dc_series dc_rejected dc_metadata].
  pose proof (points_le b). rewrite sat_small by (unfold U64_MAX; lia). by replace (0 + n) with n by lia.
Qed.
End Corruption.

(** * Instances of the theorems *)

Section Witnesses.
Import Concrete.

Definition one_sample : bytes := encode_message [(1, Fixed64 (to_le_bytes 8 0x3FF8000000000000)); (2, Varint 7)].
Definition one_series : bytes :=
  encode_message [(1, Bytes (encode_message [(1, Bytes NAME); (2, Bytes (str "up"))])); (2, Bytes one_sample)].
(** A good series and one with an empty label name. *)
Definition two_series : bytes := encode_message [(1, Bytes one_series);
  (1, Bytes (encode_message [(1, Bytes []); (2, Bytes one_sample); (2, Bytes one_sample)]))].
Definition two_decoded : Decoded :=
  mkDecoded [mkSeries [(NAME, str "up")] [mkSample 0x3FF8000000000000 7 None] [] []] 2 [].

Lemma two_series_decoded : decode two_series = Ok two_decoded.
Proof. vm_compute. reflexivity. Qed.

Ltac all_read :=
  match goal with |- Forall _ (payloads ?n ?b) =>
    let l := eval vm_compute in (payloads n b) in replace (payloads n b) with l by (vm_compute; reflexivity) end;
  repeat first [apply Forall_nil | apply Forall_cons; [eexists; vm_compute; reflexivity|]].

Lemma remote_write_accounting_witness :
  stored two_decoded.(dc_series) + two_decoded.(dc_rejected) <= 3 /\ 3 <= stored two_decoded.(dc_series) + two_decoded.(dc_rejected).
Proof.
  destruct (remote_write_accounting two_series two_decoded) as [H1 H2];
    [vm_compute; discriminate|exact two_series_decoded|]. split; [exact H1|apply H2].
  assert (E : payloads 1 two_series = [one_series; encode_message [(1, Bytes []); (2, Bytes one_sample); (2, Bytes one_sample)]])
    by (vm_compute; reflexivity).
  rewrite E. apply Forall_cons; [|apply Forall_cons; [|constructor]];
    (split; [vm_compute; reflexivity|split]); all_read.
Defined.

Lemma byte_list_dec l : forallb is_byte l = true -> byte_list l.
Proof.
  intros Hf. rewrite forallb_forall in Hf. apply Forall_forall. intros b Hb. specialize (Hf b Hb).
  unfold is_byte in Hf. bools. lia.
Qed.

Lemma remote_write_valid_witness : Forall series_ok two_decoded.(dc_series).
Proof.
  apply (remote_write_valid two_series two_decoded).
  - apply byte_list_dec. vm_compute. reflexivity.
  - left. exact two_series_decoded.
Defined.

Lemma remote_write_total_witness : decode_v2 two_series <> Fuel.
Proof. apply (remote_write_total two_series). vm_compute. discriminate. Defined.

Lemma remote_write_preflight_bounds_witness :
  len two_decoded.(dc_series) <= 10 /\ all_held two_decoded.(dc_series) <= 10.
Proof.
  destruct (remote_write_preflight_bounds sample_limits ltac:(done) ltac:(done) ltac:(done) two_series two_decoded)
    as (H1 & H2 & _); [vm_compute; reflexivity|exact two_series_decoded|]. split; [exact H1|exact H2].
Defined.

Lemma sample_reader_agrees_witness : decode_sample one_sample = Ok (mkSample 0x3FF8000000000000 7 None).
Proof. apply (sample_reader_agrees one_sample); vm_compute; [discriminate|reflexivity]. Defined.

Lemma corrupt_series_rejected_witness : exists n, 1 <= n /\ decode (encode_message [(1, Bytes [8])]) = Ok (mkDecoded [] n []).
Proof. apply (corrupt_series_rejected [8]); [vm_compute; discriminate|vm_compute; reflexivity|apply Forall_nil]. Defined.
End Witnesses.
