(* ===== verification/OtlpTraces.v ===== *)
(** OTLP protobuf admission, otlp_traces.rs: the schema tables, the strict wire
    reader and the budgeted preflight that walks the whole message tree before
    any term is built, with the byte encodings of the decoded terms.

    Sizes are [usize]; a byte count saturates where the source saturates and
    the one product of options that may wrap is written with its wrap-around. *)

From S2P Require Import Prelude Utf8 Float64.

Inductive Schema : Type :=
| Export | ExportLogs | ExportMetrics | ResourceMetrics | ScopeMetrics | Metric | Gauge | Sum | Histogram
| ExponentialHistogram | Summary | NumberPoint | HistogramPoint | ExponentialPoint | Buckets | SummaryPoint
| QuantileValue | Exemplar | ResourceLogs | ScopeLogs | LogRecord | ResourceSpans | Resource | ScopeSpans
| Scope | Span | Status | Event | Link | Pair | Any | Array | KvList.

#[export] Instance Schema_eq_dec : EqDecision Schema.
Proof. solve_decision. Defined.

Inductive Kind : Type :=
| Message (s : Schema) | String | Hex | Bytes | Uint | Int | Bool | Double | Fixed64 | Fixed32 | Signed64
| Sint32 | PackedFixed64 | PackedUint64 | PackedDouble.

(** Name, kind and whether the field is repeated. *)
Definition field (s : Schema) (n : Z) : option (bytes * Kind * bool) :=
  match s, n with
  | ExportMetrics, 1 => Some (str "resourceMetrics", Message ResourceMetrics, true)
  | ResourceMetrics, 1 => Some (str "resource", Message Resource, false)
  | ResourceMetrics, 2 => Some (str "scopeMetrics", Message ScopeMetrics, true)
  | ResourceMetrics, 3 | ScopeMetrics, 3 => Some (str "schemaUrl", String, false)
  | ScopeMetrics, 1 => Some (str "scope", Message Scope, false)
  | ScopeMetrics, 2 => Some (str "metrics", Message Metric, true)
  | Metric, 1 => Some (str "name", String, false)
  | Metric, 2 => Some (str "description", String, false)
  | Metric, 3 => Some (str "unit", String, false)
  | Metric, 5 => Some (str "gauge", Message Gauge, false)
  | Metric, 7 => Some (str "sum", Message Sum, false)
  | Metric, 9 => Some (str "histogram", Message Histogram, false)
  | Metric, 10 => Some (str "exponentialHistogram", Message ExponentialHistogram, false)
  | Metric, 11 => Some (str "summary", Message Summary, false)
  | Metric, 12 => Some (str "metadata", Message Pair, true)
  | Gauge, 1 | Sum, 1 => Some (str "dataPoints", Message NumberPoint, true)
  | Histogram, 1 => Some (str "dataPoints", Message HistogramPoint, true)
  | ExponentialHistogram, 1 => Some (str "dataPoints", Message ExponentialPoint, true)
  | Summary, 1 => Some (str "dataPoints", Message SummaryPoint, true)
  | HistogramPoint, 9 | ExponentialPoint, 1 | SummaryPoint, 7 => Some (str "attributes", Message Pair, true)
  | HistogramPoint, 8 | ExponentialPoint, 11 => Some (str "exemplars", Message Exemplar, true)
  | Sum, 2 | Histogram, 2 | ExponentialHistogram, 2 => Some (str "aggregationTemporality", Uint, false)
  | Sum, 3 => Some (str "isMonotonic", Bool, false)
  | HistogramPoint, 2 | SummaryPoint, 2 => Some (str "startTimeUnixNano", Fixed64, false)
  | HistogramPoint, 3 | SummaryPoint, 3 => Some (str "timeUnixNano", Fixed64, false)
  | HistogramPoint, 4 | SummaryPoint, 4 => Some (str "count", Fixed64, false)
  | HistogramPoint, 5 | SummaryPoint, 5 => Some (str "sum", Double, false)
  | HistogramPoint, 6 => Some (str "bucketCounts", PackedFixed64, true)
  | HistogramPoint, 7 => Some (str "explicitBounds", PackedDouble, true)
  | HistogramPoint, 10 | SummaryPoint, 8 | ExponentialPoint, 10 => Some (str "flags", Uint, false)
  | ExponentialPoint, 2 => Some (str "startTimeUnixNano", Fixed64, false)
  | ExponentialPoint, 3 => Some (str "timeUnixNano", Fixed64, false)
  | ExponentialPoint, 4 => Some (str "count", Fixed64, false)
  | ExponentialPoint, 5 => Some (str "sum", Double, false)
  | ExponentialPoint, 6 => Some (str "scale", Sint32, false)
  | ExponentialPoint, 7 => Some (str "zeroCount", Fixed64, false)
  | ExponentialPoint, 8 => Some (str "positive", Message Buckets, false)
  | ExponentialPoint, 9 => Some (str "negative", Message Buckets, false)
  | ExponentialPoint, 12 => Some (str "min", Double, false)
  | ExponentialPoint, 13 => Some (str "max", Double, false)
  | ExponentialPoint, 14 => Some (str "zeroThreshold", Double, false)
  | Buckets, 1 => Some (str "offset", Sint32, false)
  | Buckets, 2 => Some (str "bucketCounts", PackedUint64, true)
  | HistogramPoint, 11 => Some (str "min", Double, false)
  | HistogramPoint, 12 => Some (str "max", Double, false)
  | SummaryPoint, 6 => Some (str "quantileValues", Message QuantileValue, true)
  | QuantileValue, 1 => Some (str "quantile", Double, false)
  | QuantileValue, 2 => Some (str "value", Double, false)
  | NumberPoint, 2 => Some (str "startTimeUnixNano", Fixed64, false)
  | NumberPoint, 3 | Exemplar, 2 => Some (str "timeUnixNano", Fixed64, false)
  | NumberPoint, 4 | Exemplar, 3 => Some (str "asDouble", Double, false)
  | NumberPoint, 6 | Exemplar, 6 => Some (str "asInt", Signed64, false)
  | NumberPoint, 7 => Some (str "attributes", Message Pair, true)
  | NumberPoint, 5 => Some (str "exemplars", Message Exemplar, true)
  | NumberPoint, 8 => Some (str "flags", Uint, false)
  | Exemplar, 7 => Some (str "filteredAttributes", Message Pair, true)
  | Exemplar, 4 => Some (str "spanId", Hex, false)
  | Exemplar, 5 => Some (str "traceId", Hex, false)
  | ExportLogs, 1 => Some (str "resourceLogs", Message ResourceLogs, true)
  | ResourceLogs, 1 => Some (str "resource", Message Resource, false)
  | ResourceLogs, 2 => Some (str "scopeLogs", Message ScopeLogs, true)
  | ResourceLogs, 3 | ScopeLogs, 3 => Some (str "schemaUrl", String, false)
  | ScopeLogs, 1 => Some (str "scope", Message Scope, false)
  | ScopeLogs, 2 => Some (str "logRecords", Message LogRecord, true)
  | LogRecord, 1 => Some (str "timeUnixNano", Fixed64, false)
  | LogRecord, 2 => Some (str "severityNumber", Uint, false)
  | LogRecord, 3 => Some (str "severityText", String, false)
  | LogRecord, 5 => Some (str "body", Message Any, false)
  | LogRecord, 6 => Some (str "attributes", Message Pair, true)
  | LogRecord, 7 => Some (str "droppedAttributesCount", Uint, false)
  | LogRecord, 8 => Some (str "flags", Fixed32, false)
  | LogRecord, 9 => Some (str "traceId", Hex, false)
  | LogRecord, 10 => Some (str "spanId", Hex, false)
  | LogRecord, 11 => Some (str "observedTimeUnixNano", Fixed64, false)
  | LogRecord, 12 => Some (str "eventName", String, false)
  | Export, 1 => Some (str "resourceSpans", Message ResourceSpans, true)
  | ResourceSpans, 1 => Some (str "resource", Message Resource, false)
  | ResourceSpans, 2 => Some (str "scopeSpans", Message ScopeSpans, true)
  | ResourceSpans, 3 | ScopeSpans, 3 => Some (str "schemaUrl", String, false)
  | Resource, 1 | Scope, 3 | Span, 9 | Event, 3 | Link, 4 => Some (str "attributes", Message Pair, true)
  | Resource, 2 | Scope, 4 | Span, 10 | Event, 4 | Link, 5 => Some (str "droppedAttributesCount", Uint, false)
  | ScopeSpans, 1 => Some (str "scope", Message Scope, false)
  | ScopeSpans, 2 => Some (str "spans", Message Span, true)
  | Scope, 1 | Span, 5 | Event, 2 => Some (str "name", String, false)
  | Scope, 2 => Some (str "version", String, false)
  | Span, 1 | Link, 1 => Some (str "traceId", Hex, false)
  | Span, 2 | Link, 2 => Some (str "spanId", Hex, false)
  | Span, 3 | Link, 3 => Some (str "traceState", String, false)
  | Span, 4 => Some (str "parentSpanId", Hex, false)
  | Span, 6 => Some (str "kind", Uint, false)
  | Span, 7 => Some (str "startTimeUnixNano", Fixed64, false)
  | Span, 8 => Some (str "endTimeUnixNano", Fixed64, false)
  | Span, 11 => Some (str "events", Message Event, true)
  | Span, 12 => Some (str "droppedEventsCount", Uint, false)
  | Span, 13 => Some (str "links", Message Link, true)
  | Span, 14 => Some (str "droppedLinksCount", Uint, false)
  | Span, 15 => Some (str "status", Message Status, false)
  | Span, 16 | Link, 6 => Some (str "flags", Fixed32, false)
  | Status, 2 => Some (str "message", String, false)
  | Status, 3 => Some (str "code", Uint, false)
  | Event, 1 => Some (str "timeUnixNano", Fixed64, false)
  | Pair, 1 => Some (str "key", String, false)
  | Pair, 2 => Some (str "value", Message Any, false)
  | Any, 1 => Some (str "stringValue", String, false)
  | Any, 2 => Some (str "boolValue", Bool, false)
  | Any, 3 => Some (str "intValue", Int, false)
  | Any, 4 => Some (str "doubleValue", Double, false)
  | Any, 5 => Some (str "arrayValue", Message Array, false)
  | Any, 6 => Some (str "kvlistValue", Message KvList, false)
  | Any, 7 => Some (str "bytesValue", Bytes, false)
  | Array, 1 => Some (str "values", Message Any, true)
  | KvList, 1 => Some (str "values", Message Pair, true)
  | _, _ => None
  end.

Inductive Error : Type := InvalidProtobuf | TooManyRecords | AttributesTooLarge | TooManyNodes.

(** The tuple of limits, by position. *)
Record Options : Type := mkOptions {
  opt0 : Z; (** records *)
  opt1 : Z; (** pairs of an attribute list *)
  opt2 : Z; (** bytes of a key *)
  opt3 : Z; (** bytes of a value *)
  opt4 : Z; (** bytes of an attribute set *)
  opt5 : Z; (** attribute depth *)
  opt6 : Z; (** nodes of an attribute set *)
  opt7 : Z  (** nodes *)
}.

(** * The wire reader *)

Record Reader : Type := mkReader { rbytes : bytes; rpos : Z }.
Inductive Value : Type := Number (n : Z) | Data (b : bytes).

Definition take (r : Reader) (n : Z) : res Error (bytes * Reader) :=
  let? end_ := ok_or (checked_u64 (r.(rpos) + n)) InvalidProtobuf in
  let? b := ok_or (get_range r.(rbytes) r.(rpos) end_) InvalidProtobuf in
  Ok (b, mkReader r.(rbytes) end_).

(** [(0..64).step_by(7)]. *)
Definition shifts : list Z := [0; 7; 14; 21; 28; 35; 42; 49; 56; 63].

Fixpoint varint_loop (shs : list Z) (v : Z) (r : Reader) : res Error (Z * Reader) :=
  match shs with
  | [] => Err InvalidProtobuf
  | shift :: shs =>
      let? (t, r) := take r 1 in
      let b := default 0 (head t) in
      if (shift =? 63) && (1 <? b) then Err InvalidProtobuf
      else
        let v := Z.lor v (wrap_u64 (Z.shiftl (Z.land b 127) shift)) in
        if b <? 128 then Ok (v, r) else varint_loop shs v r
  end.
Definition varint (r : Reader) : res Error (Z * Reader) := varint_loop shifts 0 r.

Definition next (r : Reader) : res Error (option (Z * Z * Value) * Reader) :=
  if r.(rpos) =? len r.(rbytes) then Ok (None, r)
  else
    let? (key, r) := varint r in
    if (Z.shiftr key 3 =? 0) || (0x1fffffff <? Z.shiftr key 3) then Err InvalidProtobuf
    else
      let wire := Z.land key 7 in
      let? (value, r) :=
        if wire =? 0 then let? (v, r) := varint r in Ok (Number v, r)
        else if wire =? 1 then let? (b, r) := take r 8 in Ok (Number (from_le_bytes b), r)
        else if wire =? 2 then
          let? (n, r) := varint r in
          let? (b, r) := take r n in Ok (Data b, r)
        else if wire =? 5 then let? (b, r) := take r 4 in Ok (Number (from_le_bytes b), r)
        else Err InvalidProtobuf in
      Ok (Some (Z.shiftr key 3, wire, value), r).

(** [while let Some(field) = reader.next()? { .. }]; every field takes a byte. *)
Fixpoint while_next {A} (fuel : nat) (visit : A -> Z -> Z -> Value -> res Error A) (r : Reader) (acc : A)
    : res Error A :=
  match fuel with
  | O => Fuel
  | S fuel =>
      let? (f, r) := next r in
      match f with
      | None => Ok acc
      | Some (number, wire, value) => let? acc := visit acc number wire value in while_next fuel visit r acc
      end
  end.

(** [packed_varints]: the state is the count and the bytes of the open varint. *)
Fixpoint packed_loop (input : bytes) (count length_ : Z) : res Error Z :=
  match input with
  | [] => if length_ =? 0 then Ok count else Err InvalidProtobuf
  | byte :: input =>
      let length_ := length_ + 1 in
      if 10 <? length_ then Err InvalidProtobuf
      else if Z.land byte 0x80 =? 0 then packed_loop input (count + 1) 0
      else packed_loop input count length_
  end.
Definition packed_varints (input : bytes) : res Error Z := packed_loop input 0 0.

Definition wire_type (k : Kind) : Z :=
  match k with
  | Message _ | String | Hex | Bytes => 2
  | Fixed64 | Signed64 | Double | PackedFixed64 | PackedDouble => 1
  | Fixed32 => 5
  | _ => 0
  end.

(** * The preflight *)

Record Budget : Type := mkBudget {
  options : Options;
  nodes : Z;
  spans : Z;
  groups : Z;
  events : Z;
  links : Z
}.

Definition increment (v max : Z) (error : Error) : res Error Z :=
  let v := v + 1 in if max <? v then Err error else Ok v.

Definition add_node (b : Budget) : res Error Budget :=
  let? n := increment b.(nodes) b.(options).(opt7) TooManyNodes in
  Ok (mkBudget b.(options) n b.(spans) b.(groups) b.(events) b.(links)).

Definition with_options (b : Budget) (o : Options) : Budget :=
  mkBudget o b.(nodes) b.(spans) b.(groups) b.(events) b.(links).

Definition is_attribute (s : Schema) : bool := match s with Pair | Any | Array | KvList => true | _ => false end.
Definition is_packed (k : Kind) : bool :=
  match k with PackedFixed64 | PackedDouble | PackedUint64 => true | _ => false end.
Definition is_message (k : Kind) : bool := match k with Message _ => true | _ => false end.

(** What a child message is counted as. *)
Inductive Role : Type := Group (factor : Z) | SpanRole | EventRole | LinkRole | PairRole | Plain.
Definition role (child : Schema) : Role :=
  match child with
  | ResourceMetrics | ScopeMetrics | Metric => Group 3
  | ResourceSpans | ScopeSpans | ResourceLogs | ScopeLogs => Group 2
  | Span | LogRecord | NumberPoint | HistogramPoint | ExponentialPoint | SummaryPoint => SpanRole
  | Event | Exemplar => EventRole
  | Link => LinkRole
  | Pair => PairRole
  | _ => Plain
  end.

Definition count_child (child : Schema) (b : Budget) (pairs : Z) : res Error (Budget * Z) :=
  let o := b.(options) in
  match role child with
  | Group factor =>
      let? g := increment b.(groups) (wrap_u64 (o.(opt0) * factor)) TooManyRecords in
      Ok (mkBudget o b.(nodes) b.(spans) g b.(events) b.(links), pairs)
  | SpanRole =>
      let? n := increment b.(spans) o.(opt0) TooManyRecords in
      Ok (mkBudget o b.(nodes) n b.(groups) b.(events) b.(links), pairs)
  | EventRole =>
      let? n := increment b.(events) o.(opt0) TooManyRecords in
      Ok (mkBudget o b.(nodes) b.(spans) b.(groups) n b.(links), pairs)
  | LinkRole =>
      let? n := increment b.(links) o.(opt0) TooManyRecords in
      Ok (mkBudget o b.(nodes) b.(spans) b.(groups) b.(events) n, pairs)
  | PairRole => let? p := increment pairs o.(opt1) AttributesTooLarge in Ok (b, p)
  | Plain => Ok (b, pairs)
  end.

(** The local state of the walk over one message: the budget, the bytes and
    nodes of the attribute set, the pairs and the repeated fields seen. *)
Record Walk : Type := mkWalk { budget : Budget; attr : Z * Z; pairs : Z; repeated_fields : Z }.

Definition set_budget (w : Walk) (b : Budget) : Walk := mkWalk b w.(attr) w.(pairs) w.(repeated_fields).

(** [budget.nodes] after one node per repeated field seen for the first time. *)
Definition mark_repeated (w : Walk) (number : Z) (repeated : bool) : res Error Walk :=
  if repeated && (Z.land w.(repeated_fields) (Z.shiftl 1 number) =? 0) then
    let? b := add_node w.(budget) in
    Ok (mkWalk b w.(attr) w.(pairs) (Z.lor w.(repeated_fields) (Z.shiftl 1 number)))
  else Ok w.

(** A packed field: one node for the occurrence and one per value. *)
Definition packed_field (w : Walk) (kind : Kind) (value : Value) : res Error Walk :=
  match value with
  | Number _ => Err InvalidProtobuf
  | Data b =>
      let? values :=
        match kind with
        | PackedUint64 => packed_varints b
        | _ => if len b mod 8 =? 0 then Ok (len b / 8) else Err InvalidProtobuf
        end in
      let? bu := add_node w.(budget) in
      let n := sat_u64 (bu.(nodes) + values) in
      if bu.(options).(opt7) <? n then Err TooManyNodes
      else Ok (set_budget w (mkBudget bu.(options) n bu.(spans) bu.(groups) bu.(events) bu.(links)))
  end.

Definition add_bytes (w : Walk) (n : Z) : Walk :=
  mkWalk w.(budget) (sat_u64 (fst w.(attr) + n), snd w.(attr)) w.(pairs) w.(repeated_fields).

(** A string, identifier or byte string. *)
Definition text_field (schema : Schema) (number : Z) (kind : Kind) (w : Walk) (b : bytes) : res Error Walk :=
  let o := w.(budget).(options) in
  let is_string := match kind with String => true | _ => false end in
  if is_string && negb (from_utf8_ok b) then Err InvalidProtobuf
  else if bool_decide (schema = Metric) && is_string && (o.(opt3) <? len b) then Err AttributesTooLarge
  else if is_attribute schema then
    let max := if bool_decide (schema = Pair) && (number =? 1) then o.(opt2) else o.(opt3) in
    let size := match kind with Bytes => (len b + 2) / 3 * 4 | _ => len b end in
    if max <? size then Err AttributesTooLarge else Ok (add_bytes w size)
  else Ok w.

Definition MAX_BODY : Z := 16 * 1024 * 1024.

(** The options a child walk runs under: log bodies have their own ceiling. *)
Definition child_options (schema : Schema) (number : Z) (o : Options) : Options :=
  if bool_decide (schema = LogRecord) && (number =? 5) then
    mkOptions o.(opt0) o.(opt1) o.(opt2) MAX_BODY MAX_BODY o.(opt5) o.(opt6) o.(opt7)
  else o.

Section Visit.
Variable recurse : bytes -> Schema -> Budget -> Z -> Z * Z -> res Error (Budget * (Z * Z)).

Definition message_field (schema : Schema) (depth number : Z) (child : Schema) (w : Walk) (b : bytes)
    : res Error Walk :=
  let? (bu, p) := count_child child w.(budget) w.(pairs) in
  if negb (is_attribute schema) && negb (bool_decide (child = Pair)) then
    let saved := bu.(options) in
    let? (bu, _) := recurse b child (with_options bu (child_options schema number saved)) 0 (0, 0) in
    Ok (mkWalk (with_options bu saved) w.(attr) p w.(repeated_fields))
  else
    let next_depth := match schema with Pair | Array => depth + 1 | _ => depth end in
    let? (bu, a) := recurse b child bu next_depth w.(attr) in
    Ok (mkWalk bu a p w.(repeated_fields)).

Definition visit (schema : Schema) (depth : Z) (w : Walk) (number wire : Z) (value : Value) : res Error Walk :=
  if bool_decide (schema = Resource) && (number =? 3) then Err InvalidProtobuf
  else
    match field schema number with
    | None => let? b := add_node w.(budget) in Ok (set_budget w b)
    | Some (_, kind, repeated) =>
        let packed := is_packed kind in
        if negb (wire =? wire_type kind) && negb (packed && (wire =? 2)) then Err InvalidProtobuf
        else
          let? w := mark_repeated w number repeated in
          if packed && (wire =? 2) then packed_field w kind value
          else
            let? w :=
              if is_message kind then Ok w else let? b := add_node w.(budget) in Ok (set_budget w b) in
            let? w :=
              match kind, value with
              | Message child, Data b => message_field schema depth number child w b
              | (String | Hex | Bytes), Data b => text_field schema number kind w b
              | _, Number _ => Ok (if is_attribute schema then add_bytes w 8 else w)
              | _, _ => Ok w
              end in
            if w.(budget).(options).(opt4) <? fst w.(attr) then Err AttributesTooLarge else Ok w
    end.
End Visit.

(** Each message is a proper part of the one that holds it, so one unit of fuel
    per byte is enough ([preflight_ends]). *)
Fixpoint preflight (fuel : nat) (input : bytes) (schema : Schema) (bu : Budget) (depth : Z) (a : Z * Z)
    : res Error (Budget * (Z * Z)) :=
  match fuel with
  | O => Fuel
  | S fuel =>
      if Z.min bu.(options).(opt5) 64 <? depth then Err AttributesTooLarge
      else
        let? bu := add_node bu in
        let? a :=
          if is_attribute schema then
            let? n := increment (snd a) bu.(options).(opt6) AttributesTooLarge in Ok (fst a, n)
          else Ok a in
        let? w := while_next (S (length input)) (visit (preflight fuel) schema depth) (mkReader input 0)
                    (mkWalk bu a 0 0) in
        Ok (w.(budget), w.(attr))
  end.

Definition Budget_new (o : Options) : Budget := mkBudget o 0 0 0 0 0.

(** The admission half of [decode_signal]; the decoder that follows it reads
    the same bytes. *)
Definition preflight_signal (input : bytes) (o : Options) (schema : Schema) : res Error unit :=
  let? _ := preflight (S (length input)) input schema (Budget_new o) 0 (0, 0) in Ok tt.

(** * Encodings *)

Definition HEX : bytes := str "0123456789abcdef".
Definition hex (input : bytes) : bytes :=
  concat (map (fun b => [default 0 (get HEX (Z.shiftr b 4)); default 0 (get HEX (Z.land b 15))]) input).

Definition BASE64 : bytes := str "ABCDEFGHIJKLMNOPQRSTUVWXYZabcdefghijklmnopqrstuvwxyz0123456789+/".
Definition b64 (i : Z) : Z := default 0 (get BASE64 i).

(** [bytes.chunks(3)] and the four characters of each. *)
Fixpoint base64 (input : bytes) : bytes :=
  match input with
  | a :: b :: c :: rest =>
      b64 (Z.shiftr a 2) :: b64 (Z.lor (Z.shiftl (Z.land a 3) 4) (Z.shiftr b 4)) ::
      b64 (Z.lor (Z.shiftl (Z.land b 15) 2) (Z.shiftr c 6)) :: b64 (Z.land c 63) :: base64 rest
  | [a; b] =>
      [b64 (Z.shiftr a 2); b64 (Z.lor (Z.shiftl (Z.land a 3) 4) (Z.shiftr b 4));
       b64 (Z.lor (Z.shiftl (Z.land b 15) 2) (Z.shiftr 0 6)); 61]
  | [a] => [b64 (Z.shiftr a 2); b64 (Z.lor (Z.shiftl (Z.land a 3) 4) (Z.shiftr 0 4)); 61; 61]
  | [] => []
  end.

(** * The reader *)

Definition reader_ok (r : Reader) : Prop := 0 <= r.(rpos) <= len r.(rbytes).

(** [r'] is further on in the same input. *)
Definition advanced (r r' : Reader) : Prop :=
  r'.(rbytes) = r.(rbytes) /\ r.(rpos) < r'.(rpos) <= len r.(rbytes).

Lemma take_ok r n b r' : take r n = Ok (b, r') ->
  r'.(rbytes) = r.(rbytes) /\ r'.(rpos) = r.(rpos) + n /\ 0 <= r.(rpos) <= r'.(rpos) /\ r'.(rpos) <= len r.(rbytes) /\
  b = slice r.(rbytes) r.(rpos) r'.(rpos) /\ len b = n.
Proof.
  unfold take, checked_u64. destruct (_ && _); [|done]. cbn [ok_or].
  destruct (get_range _ _ _) as [x|] eqn:E; [|done]. intros [= <- <-]. cbn [rbytes rpos].
  apply get_range_Some in E as (-> & H1 & H2). rewrite len_slice by lia. split_and!; done || lia.
Qed.

Lemma take_not_fuel r n : take r n <> Fuel.
Proof. unfold take. destruct (checked_u64 _); [|done]. cbn [ok_or]. by destruct (get_range _ _ _). Qed.

Lemma varint_loop_ok shs v r v' r' : reader_ok r -> 0 <= v -> varint_loop shs v r = Ok (v', r') ->
  advanced r r' /\ 0 <= v'.
Proof.
  revert v r. induction shs as [|s shs IH]; intros v r Hr Hv E; [done|]. cbn [varint_loop] in E.
  destruct (take r 1) as [[t r1]| |] eqn:Et; [|done..]. apply take_ok in Et as (Hb & Hp & _ & Hl & _).
  destruct (_ && _); [done|]. set (v1 := Z.lor v _) in *.
  assert (Hv1 : 0 <= v1) by (apply Z.lor_nonneg; split; [done|]; by apply Z.mod_pos_bound). destruct (_ <? 128).
  - injection E as <- <-. split; [|done]. split; [done|lia].
  - apply IH in E as [[Hb' Hp'] Hn]; [|unfold reader_ok in *; rewrite Hb; lia|done]. rewrite Hb in *.
    split; [|done]. split; [done|lia].
Qed.

Lemma varint_loop_not_fuel shs v r : varint_loop shs v r <> Fuel.
Proof.
  revert v r. induction shs as [|s shs IH]; intros v r; [done|]. cbn [varint_loop].
  destruct (take r 1) as [[t r1]| |] eqn:Et; [|done|by apply take_not_fuel in Et].
  destruct (_ && _); [done|]. destruct (_ <? 128); [done|apply IH].
Qed.

Lemma next_not_fuel r : next r <> Fuel.
Proof.
  unfold next. destruct (_ =? _); [done|]. unfold varint.
  destruct (varint_loop _ _ r) as [[key r1]| |] eqn:E; [|done|by apply varint_loop_not_fuel in E].
  destruct (_ || _); [done|].
  repeat match goal with
  | |- context [if ?c then _ else _] => destruct c
  | |- context [varint_loop ?a ?b ?c] => let E := fresh in destruct (varint_loop a b c) as [[? ?]| |] eqn:E;
      [|done|by apply varint_loop_not_fuel in E]
  | |- context [take ?a ?b] => let E := fresh in destruct (take a b) as [[? ?]| |] eqn:E;
      [|done|by apply take_not_fuel in E]
  end; done.
Qed.

(** A field moves the reader on by more than its payload. *)
Definition data_size (v : Value) : Z := match v with Data b => len b | Number _ => 0 end.

Lemma next_ok r n w v r' : reader_ok r -> next r = Ok (Some (n, w, v), r') ->
  advanced r r' /\ data_size v < r'.(rpos) - r.(rpos) /\ 0 < n < 2 ^ 29.
Proof.
  intros Hr. unfold next. destruct (_ =? _); [done|]. unfold varint.
  destruct (varint_loop _ _ r) as [[key r1]| |] eqn:E; [|done..]. apply varint_loop_ok in E as [[Hb Hp] Hk]; [|done..].
  destruct ((_ =? 0) || _) eqn:Ek; [done|].
  assert (Hn : 0 < Z.shiftr key 3 < 2 ^ 29) by (pose proof (proj2 (Z.shiftr_nonneg key 3) Hk); bools; lia).
  assert (Hr1 : reader_ok r1) by (unfold reader_ok in *; rewrite Hb; lia).
  repeat match goal with
  | |- context [if ?c then _ else _] => destruct c
  | |- context [varint_loop ?a ?b ?c] => let E := fresh "E" in destruct (varint_loop a b c) as [[? ?]| |] eqn:E;
      [apply varint_loop_ok in E as [[? ?] ?]; [|done..]|done..]
  | |- context [take ?a ?b] => let E := fresh "E" in destruct (take a b) as [[? ?]| |] eqn:E;
      [apply take_ok in E as (? & ? & ? & ? & ? & ?)|done..]
  end; try done; intros [= <- <- <- <-]; unfold advanced; cbn [data_size];
    repeat match goal with H : rbytes _ = rbytes _ |- _ => rewrite H in * end; split_and!; try done; lia.
Qed.

(** * The fields of a message *)

Definition Field : Type := Z * Z * Value.

(** The fields read before the end ([true]) or before malformed bytes. *)
Fixpoint next_list (fuel : nat) (r : Reader) : list Field * bool :=
  match fuel with
  | O => ([], false)
  | S fuel =>
      match next r with
      | Ok (Some f, r) => let (fs, ok) := next_list fuel r in (f :: fs, ok)
      | Ok (None, _) => ([], true)
      | _ => ([], false)
      end
  end.
Definition fields_of (input : bytes) : list Field := fst (next_list (S (length input)) (mkReader input 0)).

Lemma next_err r e : next r = Err e -> e = InvalidProtobuf.
Proof.
  assert (Ht : forall r n e, take r n = Err e -> e = InvalidProtobuf).
  { intros r0 n e0. unfold take. destruct (checked_u64 _); cbn [ok_or]; [|by intros [= <-]].
    destruct (get_range _ _ _); [done|by intros [= <-]]. }
  assert (Hv : forall shs v r e, varint_loop shs v r = Err e -> e = InvalidProtobuf).
  { induction shs as [|s shs IH]; intros v r0 e0 E; [by injection E|]. cbn [varint_loop] in E.
    destruct (take r0 1) as [[t r1]| |] eqn:Et; [|apply Ht in Et; by simplify_eq|done].
    destruct (_ && _); [by injection E|]. destruct (_ <? 128); [done|by eapply IH]. }
  unfold next, varint. intros E. case_in E; simplify_eq; try done; eauto.
  match goal with H : _ = Err e |- _ => case_in H; simplify_eq; try done; eauto end.
Qed.

Lemma while_next_fold {A} (visit : A -> Z -> Z -> Value -> res Error A) fuel r acc :
  reader_ok r -> len r.(rbytes) - r.(rpos) < Z.of_nat fuel ->
  while_next fuel visit r acc =
  let (fs, ok) := next_list fuel r in
  let? a := foldM (fun a f => visit a (fst (fst f)) (snd (fst f)) (snd f)) acc fs in
  if ok then Ok a else Err InvalidProtobuf.
Proof.
  revert r acc. induction fuel as [|fuel IH]; intros r acc Hr Hf; [unfold reader_ok in Hr; lia|].
  cbn [while_next next_list]. destruct (next r) as [[[[[n w] v]|] r']|e|] eqn:E; [|done| |by apply next_not_fuel in E].
  - apply next_ok in E as ([Hb Hp] & _ & _); [|done].
    specialize (fun acc => IH r' acc ltac:(unfold reader_ok in *; rewrite Hb; lia) ltac:(rewrite Hb; lia)) as IH'.
    destruct (next_list fuel r') as [fs ok]. cbn [foldM fst snd]. by destruct (visit acc n w v).
  - apply next_err in E as ->. done.
Qed.

Lemma next_list_small fuel r f : reader_ok r -> f ∈ fst (next_list fuel r) ->
  data_size (snd f) < len r.(rbytes) /\ 0 < fst (fst f) < 2 ^ 29.
Proof.
  revert r. induction fuel as [|fuel IH]; intros r Hr Hin; [by apply not_elem_of_nil in Hin|]. cbn [next_list] in Hin.
  destruct (next r) as [[[[[n w] v]|] r']|e|] eqn:E; try (by apply not_elem_of_nil in Hin).
  apply next_ok in E as ([Hb Hp] & Hs & Hn); [|done].
  destruct (next_list fuel r') as [fs ok] eqn:El. cbn [fst] in Hin. apply elem_of_cons in Hin as [->|Hin].
  - unfold reader_ok in Hr. cbn. split; [lia|done].
  - rewrite <- Hb. apply IH; [unfold reader_ok in *; rewrite Hb; lia|by rewrite El].
Qed.

Lemma fields_small input f : f ∈ fields_of input -> data_size (snd f) < len input /\ 0 < fst (fst f) < 2 ^ 29.
Proof. apply next_list_small. unfold reader_ok. cbn. len_lia. Qed.

(** The loop of the preflight over the fields of its message. *)
Lemma walk_fields {A} (visit : A -> Z -> Z -> Value -> res Error A) input acc r :
  while_next (S (length input)) visit (mkReader input 0) acc = r ->
  match foldM (fun a f => visit a (fst (fst f)) (snd (fst f)) (snd f)) acc (fields_of input) with
  | Ok a => r = Ok a \/ r = Err InvalidProtobuf
  | Err e => r = Err e
  | Fuel => r = Fuel
  end.
Proof.
  unfold fields_of. rewrite while_next_fold; [|unfold reader_ok; cbn; len_lia|cbn [rbytes rpos]; unfold len; lia].
  destruct (next_list _ _) as [fs ok]. cbn [fst]. intros <-.
  match goal with |- context [foldM ?f acc fs] => destruct (foldM f acc fs); [|done..] end. destruct ok; [by left|by right].
Qed.

(** * The preflight returns *)

Lemma add_node_not_fuel b : add_node b <> Fuel.
Proof. unfold add_node, increment. by destruct (_ <? _). Qed.

Lemma let_returns {E A B} (r : res E A) (k : A -> res E B) : r <> Fuel -> (forall a, k a <> Fuel) ->
  (let? a := r in k a) <> Fuel.
Proof. intros Hr Hk. destruct r; [apply Hk|done|done]. Qed.

Lemma packed_loop_not_fuel b c n : packed_loop b c n <> Fuel.
Proof. revert c n. induction b as [|x b IH]; intros c n; cbn; repeat case_match; done || apply IH. Qed.

Lemma count_child_not_fuel c b p : count_child c b p <> Fuel.
Proof. unfold count_child, increment. by destruct (role c); repeat case_match. Qed.

Lemma packed_field_not_fuel w k v : packed_field w k v <> Fuel.
Proof.
  unfold packed_field. destruct v as [n|b]; [done|]. apply let_returns.
  { destruct k; try (by destruct (_ =? _)). apply packed_loop_not_fuel. }
  intros n. apply let_returns; [apply add_node_not_fuel|]. intros bu. by destruct (_ <? _).
Qed.

Lemma mark_repeated_not_fuel w n r : mark_repeated w n r <> Fuel.
Proof. unfold mark_repeated. destruct (_ && _); [|done]. apply let_returns; [apply add_node_not_fuel|done]. Qed.

Lemma visit_returns recurse schema depth w number wire value :
  (forall b c bu d a, value = Data b -> recurse b c bu d a <> Fuel) ->
  visit recurse schema depth w number wire value <> Fuel.
Proof.
  intros Hrec. unfold visit. destruct (_ && _); [done|]. destruct (field schema number) as [[[name kind] rep]|].
  2:{ apply let_returns; [apply add_node_not_fuel|done]. }
  destruct (_ && _); [done|]. apply let_returns; [apply mark_repeated_not_fuel|]. intros w1.
  destruct (_ && _); [apply packed_field_not_fuel|]. apply let_returns.
  { destruct (is_message kind); [done|]. apply let_returns; [apply add_node_not_fuel|done]. }
  intros w2. apply let_returns; [|intros w3; by destruct (_ <? _)].
  assert (Htext : forall k b, text_field schema number k w2 b <> Fuel) by (intros; unfold text_field; by repeat case_match).
  destruct kind, value; try done; try apply Htext. unfold message_field.
  apply let_returns; [apply count_child_not_fuel|]. intros [bu p].
  destruct (_ && _); (apply let_returns; [by eapply Hrec|by intros [? ?]]).
Qed.

Lemma preflight_ends fuel input schema bu depth a : (length input < fuel)%nat ->
  preflight fuel input schema bu depth a <> Fuel.
Proof.
  revert input schema bu depth a. induction fuel as [|fuel IH]; intros input schema bu depth a Hf; [lia|].
  cbn [preflight]. destruct (_ <? _); [done|]. apply let_returns; [apply add_node_not_fuel|]. intros b1.
  apply let_returns; [unfold increment; by repeat case_match|]. intros a1. apply let_returns; [|done].
  destruct (while_next _ _ _ _) as [w|e|] eqn:E; [done|done|]. apply walk_fields in E.
  match type of E with match ?m with _ => _ end => destruct m as [x|e|] eqn:Ef end; [by destruct E|done|].
  exfalso. revert Ef. apply foldM_not_fuel. intros w [[n wi] v] Hin. cbn [fst snd]. apply visit_returns.
  intros b c bu' d a' ->. apply IH. apply fields_small in Hin as [Hin _]. cbn in Hin. unfold len in Hin. lia.
Qed.

(** * What the preflight counts *)

(** The message tree: the sub-message a field holds. *)
Definition child_of (schema : Schema) (f : Field) : option (Schema * bytes) :=
  match field schema (fst (fst f)), snd f with
  | Some (_, Message c, _), Data b => Some (c, b)
  | _, _ => None
  end.

(** Total weight of the messages below a message. *)
Fixpoint tally (fuel : nat) (weight : Schema -> Z) (schema : Schema) (input : bytes) : Z :=
  match fuel with
  | O => 0
  | S fuel =>
      fold_right (fun f n =>
        match child_of schema f with Some (c, b) => weight c + tally fuel weight c b | None => 0 end + n)
        0 (fields_of input)
  end.

(** The attribute depth at which a child is walked, and the deepest one. *)
Definition child_depth (schema : Schema) (depth : Z) (child : Schema) : Z :=
  if negb (is_attribute schema) && negb (bool_decide (child = Pair)) then 0
  else match schema with Pair | Array => depth + 1 | _ => depth end.
Fixpoint deepest (fuel : nat) (schema : Schema) (input : bytes) (depth : Z) : Z :=
  match fuel with
  | O => depth
  | S fuel =>
      fold_right (fun f n =>
        match child_of schema f with Some (c, b) => Z.max (deepest fuel c b (child_depth schema depth c)) n | None => n end)
        depth (fields_of input)
  end.

Inductive Counter : Type := Records | Groups | Events | Links.
Definition counter (k : Counter) (b : Budget) : Z :=
  match k with Records => b.(spans) | Groups => b.(groups) | Events => b.(events) | Links => b.(links) end.
Definition weight (k : Counter) (c : Schema) : Z :=
  match k, role c with
  | Records, SpanRole | Groups, Group _ | Events, EventRole | Links, LinkRole => 1
  | _, _ => 0
  end.

Definition capped (b : Budget) : Prop :=
  let o := b.(options) in
  0 <= b.(nodes) <= o.(opt7) /\ b.(spans) <= o.(opt0) /\ b.(events) <= o.(opt0) /\ b.(links) <= o.(opt0) /\
  b.(groups) <= o.(opt0) * 3.

(** Machine-sized limits whose product does not wrap. *)
Definition small (o : Options) : Prop := 0 <= o.(opt0) /\ o.(opt0) * 3 < U64 /\ 0 <= o.(opt7) <= U64_MAX.

(** The budget after more of the tree was walked. *)
Definition grows (b b' : Budget) (t : Counter -> Z) (n : Z) : Prop :=
  b'.(options) = b.(options) /\ (forall k, counter k b' = counter k b + t k) /\
  (small b.(options) -> capped b -> capped b' /\ b.(nodes) + n <= b'.(nodes)).

Lemma grows_refl b : grows b b (fun _ => 0) 0.
Proof. split_and!; [done|intros k; lia|]. intros _ Hc. split; [done|lia]. Qed.

Lemma grows_trans a b c t u n m : grows a b t n -> grows b c u m -> grows a c (fun k => t k + u k) (n + m).
Proof.
  intros (O1 & C1 & K1) (O2 & C2 & K2). split_and!; [congruence|intros k; rewrite C2, C1; lia|].
  intros Hs Hc. destruct (K1 Hs Hc) as [Hc1 N1]. rewrite O1 in K2. destruct (K2 Hs Hc1) as [Hc2 N2]. split; [done|lia].
Qed.

Lemma grows_eq a b t u n m : grows a b t n -> (forall k, t k = u k) -> m <= n -> grows a b u m.
Proof.
  intros (O1 & C1 & K1) Hk Hn. split_and!; [done|intros k; by rewrite <- Hk|].
  intros Hs Hc. destruct (K1 Hs Hc). split; [done|lia].
Qed.

Lemma increment_ok v m e n : increment v m e = Ok n -> n = v + 1 /\ n <= m.
Proof. unfold increment. destruct (_ <? _) eqn:E; [done|]. bools. intros [= <-]. lia. Qed.

Lemma add_node_grows b b' : add_node b = Ok b' -> grows b b' (fun _ => 0) 1.
Proof.
  unfold add_node. destruct (increment _ _ _) as [n| |] eqn:E; [|done..]. apply increment_ok in E as [-> Hn].
  intros [= <-]. split_and!; cbn; [done|intros []; cbn; lia|]. unfold capped. cbn. intros _ Hc. split; [|lia].
  split_and!; lia.
Qed.

Lemma role_factor c f : role c = Group f -> f = 2 \/ f = 3.
Proof. destruct c; cbn; intros [= <-]; auto. Qed.

Lemma count_child_grows c b p b' p' : count_child c b p = Ok (b', p') -> grows b b' (fun k => weight k c) 0.
Proof.
  unfold count_child, weight. intros E. destruct (role c) as [f| | | | |] eqn:R.
  1: assert (Hf : small (options b) -> wrap_u64 (opt0 (options b) * f) <= opt0 (options b) * 3)
       by (intros Hs; unfold small in Hs; apply role_factor in R as [-> | ->]; unfold wrap_u64; rewrite Z.mod_small; lia).
  1-5: match type of E with context [increment ?v ?m ?e] =>
         destruct (increment v m e) as [n| |] eqn:Ei; [apply increment_ok in Ei as [-> Hn]|done..] end.
  all: injection E as <- <-; split_and!; cbn; [done|intros []; cbn; lia|].
  all: unfold capped; cbn; intros Hs Hc; try specialize (Hf Hs); split; [split_and!; lia|lia].
Qed.

Lemma mark_repeated_grows w n r w' : mark_repeated w n r = Ok w' -> grows w.(budget) w'.(budget) (fun _ => 0) 0.
Proof.
  unfold mark_repeated. destruct (_ && _); [|intros [= <-]; apply grows_refl].
  destruct (add_node _) as [b| |] eqn:E; [|done..]. intros [= <-]. apply add_node_grows in E. eapply grows_eq; [exact E|done|lia].
Qed.

Lemma packed_loop_nonneg b c n v : 0 <= c -> packed_loop b c n = Ok v -> 0 <= v.
Proof.
  revert c n. induction b as [|x b IH]; intros c n Hc E; cbn in E.
  { destruct (_ =? _); [by injection E as <-|done]. }
  destruct (10 <? n + 1); [done|]. destruct (_ =? 0); (eapply IH; [|exact E]); lia.
Qed.

Lemma packed_field_grows w k v w' : packed_field w k v = Ok w' -> grows w.(budget) w'.(budget) (fun _ => 0) 0.
Proof.
  unfold packed_field. destruct v as [n|b]; [done|].
  match goal with |- context [let? values := ?m in _] => destruct m as [values| |] eqn:Ev; [|done..] end.
  assert (Hv : 0 <= values).
  { destruct k; try (destruct (len b mod 8 =? 0); [injection Ev as <-; apply Z.div_pos; len_lia|done]).
    by eapply packed_loop_nonneg; [|exact Ev]. }
  destruct (add_node _) as [bu| |] eqn:E; [|done..]. apply add_node_grows in E.
  destruct (_ <? _) eqn:Ec; [done|]. bools. intros [= <-]. cbn [budget set_budget].
  eapply grows_eq; [apply (grows_trans _ _ _ _ (fun _ => 0) _ 0 E)|done|lia].
  split_and!; cbn; [done|intros []; cbn; lia|]. unfold capped, small, sat_u64 in *. cbn. intros Hs Hc.
  split; [split_and!|]; lia.
Qed.

(** ** One field and one message *)

Lemma text_field_budget schema n k w b w' : text_field schema n k w b = Ok w' -> w'.(budget) = w.(budget).
Proof. unfold text_field. intros E. case_in E; by injection E as <-. Qed.

Section Counting.
Variable recurse : bytes -> Schema -> Budget -> Z -> Z * Z -> res Error (Budget * (Z * Z)).
Variable T : Counter -> Schema -> bytes -> Z.
Variable N : Schema -> bytes -> Z.
Variable D : Schema -> bytes -> Z -> Z.
Hypothesis recurse_ok : forall b c bu d a bu' a', recurse b c bu d a = Ok (bu', a') ->
  grows bu bu' (fun k => T k c b) (1 + N c b) /\ D c b d <= Z.min bu.(options).(opt5) 64.

Definition child_sum (k : Counter) (schema : Schema) (f : Field) : Z :=
  match child_of schema f with Some (c, b) => weight k c + T k c b | None => 0 end.
Definition child_nodes (schema : Schema) (f : Field) : Z :=
  match child_of schema f with Some (c, b) => 1 + N c b | None => 0 end.

Lemma child_options_counts schema n o : opt0 (child_options schema n o) = opt0 o /\ opt5 (child_options schema n o) = opt5 o /\
  opt7 (child_options schema n o) = opt7 o.
Proof. unfold child_options. by destruct (_ && _). Qed.

(** Options that agree on the counted limits give the same growth. *)
Lemma grows_with_options b o b' t n : opt0 o = opt0 b.(options) -> opt7 o = opt7 b.(options) ->
  grows (with_options b o) b' t n -> grows b (with_options b' b.(options)) t n.
Proof.
  intros H0 H7 (O1 & C1 & K1). split_and!; [done|intros k; specialize (C1 k); destruct k; exact C1|].
  intros Hs Hc. unfold capped, small in *. cbn in *. rewrite O1, H0, H7 in K1. destruct (K1 Hs Hc) as [Hc' Hn].
  split; [exact Hc'|exact Hn].
Qed.

Lemma message_field_grows schema depth number child w b w' :
  message_field recurse schema depth number child w b = Ok w' ->
  grows w.(budget) w'.(budget) (fun k => weight k child + T k child b) (1 + N child b) /\
  D child b (child_depth schema depth child) <= Z.min w.(budget).(options).(opt5) 64.
Proof.
  unfold message_field, child_depth. destruct (count_child child _ _) as [[bu p]| |] eqn:Ec; [|done..].
  apply count_child_grows in Ec. assert (Eo : options bu = options (budget w)) by apply Ec.
  destruct (_ && _).
  - destruct (recurse _ _ _ _ _) as [[bu' a']| |] eqn:Er; [|done..]. intros [= <-]. cbn [budget].
    apply recurse_ok in Er as [Hg Hd]. destruct (child_options_counts schema number (options bu)) as (H0 & H5 & H7).
    apply grows_with_options in Hg; [|done..]. cbn [options with_options] in Hd. rewrite H5, Eo in Hd. split; [|exact Hd].
    eapply grows_eq; [exact (grows_trans _ _ _ _ _ _ _ Ec Hg)|done|lia].
  - destruct (recurse _ _ _ _ _) as [[bu' a']| |] eqn:Er; [|done..]. intros [= <-]. cbn [budget].
    apply recurse_ok in Er as [Hg Hd]. rewrite Eo in Hd. split; [|exact Hd].
    eapply grows_eq; [exact (grows_trans _ _ _ _ _ _ _ Ec Hg)|done|lia].
Qed.

Lemma visit_grows schema depth w f w' : visit recurse schema depth w (fst (fst f)) (snd (fst f)) (snd f) = Ok w' ->
  grows w.(budget) w'.(budget) (fun k => child_sum k schema f) (child_nodes schema f) /\
  forall c b, child_of schema f = Some (c, b) -> D c b (child_depth schema depth c) <= Z.min w.(budget).(options).(opt5) 64.
Proof.
  destruct f as [[number wire] value]. unfold visit, child_sum, child_nodes, child_of. cbn [fst snd].
  destruct (_ && _); [done|]. destruct (field schema number) as [[[name kind] rep]|].
  2:{ destruct (add_node _) as [b| |] eqn:E; [|done..]. intros [= <-]. split; [|done].
      eapply grows_eq; [by apply add_node_grows in E|done|lia]. }
  destruct (_ && _); [done|]. destruct (mark_repeated w number rep) as [w1| |] eqn:Em; [|done..].
  apply mark_repeated_grows in Em. assert (Eo : options (budget w1) = options (budget w)) by apply Em.
  destruct (is_packed kind && (wire =? 2)) eqn:Ep.
  { intros E. apply packed_field_grows in E. destruct kind; try discriminate Ep;
      (split; [|by destruct value]); (eapply grows_eq; [exact (grows_trans _ _ _ _ _ _ _ Em E)|done|lia]). }
  match goal with |- context [let? w := ?m in _] => destruct m as [w2| |] eqn:E2; [|done..] end.
  assert (G2 : grows (budget w) (budget w2) (fun _ => 0) 0 /\ (is_message kind = true -> w2 = w1)).
  { destruct (is_message kind).
    - injection E2 as <-. by split.
    - destruct (add_node _) as [b| |] eqn:En; [|done..]. injection E2 as <-. apply add_node_grows in En. split; [|done].
      eapply grows_eq; [exact (grows_trans _ _ _ _ _ _ _ Em En)|done|lia]. }
  destruct G2 as [G2 Hw2].
  match goal with |- context [let? w := ?m in _] => destruct m as [w3| |] eqn:E3; [|done..] end.
  destruct (_ <? _); [done|]. intros [= <-].
  destruct kind, value; try (injection E3 as <-; split; [|done]; destruct (is_attribute schema); exact G2);
    try (injection E3 as <-; split; [exact G2|done]);
    try (apply text_field_budget in E3; rewrite E3; split; [exact G2|done]).
  apply message_field_grows in E3 as [G3 Hd]. rewrite (Hw2 eq_refl) in *.
  split; [eapply grows_eq; [exact (grows_trans _ _ _ _ _ _ _ Em G3)|done|lia]|].
  intros c b' [= <- <-]. by rewrite <- Eo.
Qed.

Lemma fold_grows schema depth fs w w' :
  foldM (fun a f => visit recurse schema depth a (fst (fst f)) (snd (fst f)) (snd f)) w fs = Ok w' ->
  grows w.(budget) w'.(budget) (fun k => fold_right (fun f n => child_sum k schema f + n) 0 fs)
    (fold_right (fun f n => child_nodes schema f + n) 0 fs) /\
  forall x, x <= Z.min w.(budget).(options).(opt5) 64 ->
    fold_right (fun f n => match child_of schema f with
      | Some (c, b) => Z.max (D c b (child_depth schema depth c)) n | None => n end) x fs <= Z.min w.(budget).(options).(opt5) 64.
Proof.
  revert w. induction fs as [|f fs IH]; intros w E; cbn [foldM fold_right] in *.
  { injection E as <-. split; [apply grows_refl|done]. }
  destruct (visit _ _ _ w _ _ _) as [w1| |] eqn:Ev; [|done..]. apply visit_grows in Ev as [Hg Hd].
  apply IH in E as [Hg' Hd']. split; [exact (grows_trans _ _ _ _ _ _ _ Hg Hg')|].
  assert (Eo : options (budget w1) = options (budget w)) by apply Hg. rewrite Eo in Hd'. intros x Hx.
  specialize (Hd' x Hx). destruct (child_of schema f) as [[c b]|]; [|done].
  specialize (Hd c b eq_refl). apply Z.max_lub; [exact Hd|exact Hd'].
Qed.
End Counting.

Lemma preflight_grows fuel input schema bu depth a bu' a' : preflight fuel input schema bu depth a = Ok (bu', a') ->
  grows bu bu' (fun k => tally fuel (weight k) schema input) (1 + tally fuel (fun _ => 1) schema input) /\
  deepest fuel schema input depth <= Z.min bu.(options).(opt5) 64.
Proof.
  revert input schema bu depth a bu' a'. induction fuel as [|fuel IH]; intros input schema bu depth a bu' a' E; [done|].
  cbn [preflight] in E. destruct (_ <? depth) eqn:Ed; [done|]. destruct (add_node bu) as [b1| |] eqn:En; [|done..].
  match type of E with context [let? a := ?m in _] => destruct m as [a1| |]; [|done..] end.
  destruct (while_next _ _ _ _) as [w|e|] eqn:Ew; [|done..]. injection E as <- <-. apply walk_fields in Ew.
  match type of Ew with match ?m with _ => _ end => destruct m as [w1|e|] eqn:Ef; [|done..] end.
  destruct Ew as [Ew|Ew]; [injection Ew as <-|done].
  apply (fold_grows (preflight fuel) (fun k c b => tally fuel (weight k) c b) (fun c b => tally fuel (fun _ => 1) c b)
    (fun c b d => deepest fuel c b d) IH) in Ef as [Hg Hd].
  apply add_node_grows in En. cbn [budget] in *. assert (Eo : options b1 = options bu) by apply En. split.
  - eapply grows_eq; [exact (grows_trans _ _ _ _ _ _ _ En Hg)|done|]. cbn [tally]. unfold child_nodes. lia.
  - cbn [deepest]. rewrite <- Eo. apply Hd. rewrite Eo. bools. lia.
Qed.

(** C8. The OTLP preflight always answers, and what it admits is within every
    limit: over the whole message tree at most [opt0] records (spans, log
    records or data points), as many events and links, at most three times as
    many groups, at most [opt7] messages, and attribute values nested at most
    [opt5] deep and never beyond 64. *)
Theorem otlp_preflight_bounds (input : bytes) (o : Options) (schema : Schema) : small o ->
  match preflight_signal input o schema with
  | Ok _ =>
      let t k := tally (S (length input)) (weight k) schema input in
      t Records <= o.(opt0) /\ t Events <= o.(opt0) /\ t Links <= o.(opt0) /\ t Groups <= o.(opt0) * 3 /\
      1 + tally (S (length input)) (fun _ => 1) schema input <= o.(opt7) /\
      deepest (S (length input)) schema input 0 <= Z.min o.(opt5) 64
  | Err _ => True
  | Fuel => False
  end.
Proof.
  intros Hs. unfold preflight_signal. destruct (preflight _ _ _ _ _ _) as [[bu a]|e|] eqn:E; [|done|].
  - apply preflight_grows in E as [(Eo & Hc & Hk) Hd].
    assert (H0 : capped (Budget_new o)) by (unfold capped, small in *; cbn; lia).
    destruct (Hk Hs H0) as [Hcap Hn]. unfold capped in Hcap. rewrite Eo in Hcap.
    pose proof (Hc Records) as C1. pose proof (Hc Events) as C2. pose proof (Hc Links) as C3. pose proof (Hc Groups) as C4.
    cbn [Budget_new options counter spans events links groups nodes] in *. cbv zeta.
    split_and!; lia.
  - revert E. apply preflight_ends. lia.
Qed.

(** * Encodings read back *)

Definition index_of (alphabet : bytes) (c : Z) : option Z :=
  option_map (fun p => Z.of_nat (fst p)) (list_find (eq c) alphabet).

(** A reference decoder of padded base64. *)
Fixpoint unbase64 (text : bytes) : option bytes :=
  match text with
  | [] => Some []
  | c0 :: c1 :: c2 :: c3 :: rest =>
      let* i0 := index_of BASE64 c0 in
      let* i1 := index_of BASE64 c1 in
      let a := i0 * 4 + i1 / 16 in
      if (c2 =? 61) && (c3 =? 61) then match rest with [] => Some [a] | _ => None end
      else
        let* i2 := index_of BASE64 c2 in
        let b := i1 mod 16 * 16 + i2 / 4 in
        if c3 =? 61 then match rest with [] => Some [a; b] | _ => None end
        else
          let* i3 := index_of BASE64 c3 in
          let* out := unbase64 rest in
          Some (a :: b :: i2 mod 4 * 64 + i3 :: out)
  | _ => None
  end.

Lemma sextet i : 0 <= i < 64 -> index_of BASE64 (b64 i) = Some i /\ b64 i <> 61.
Proof.
  intros Hi. assert (H : forallb (fun i => bool_decide (index_of BASE64 (b64 i) = Some i) && negb (b64 i =? 61))
    (map Z.of_nat (seq 0 64)) = true) by (vm_compute; reflexivity).
  rewrite forallb_forall in H. specialize (H i). rewrite andb_true_iff, bool_decide_eq_true, negb_true_iff, Z.eqb_neq in H.
  apply H. apply in_map_iff. exists (Z.to_nat i). split; [lia|]. apply in_seq. lia.
Qed.

Lemma index_b64 i : 0 <= i < 64 -> index_of BASE64 (b64 i) = Some i.
Proof. apply sextet. Qed.
Lemma b64_not_pad i : 0 <= i < 64 -> (b64 i =? 61) = false.
Proof. intros Hi. apply Z.eqb_neq. by apply sextet. Qed.

Lemma land_3 z : Z.land z 3 = z mod 4.
Proof. exact (Z.land_ones z 2 ltac:(lia)). Qed.
Lemma land_15 z : Z.land z 15 = z mod 16.
Proof. exact (Z.land_ones z 4 ltac:(lia)). Qed.
Lemma land_63 z : Z.land z 63 = z mod 64.
Proof. exact (Z.land_ones z 6 ltac:(lia)). Qed.

Lemma join a b k : 0 <= k -> 0 <= a -> 0 <= b < 2 ^ k -> Z.lor (Z.shiftl a k) b = a * 2 ^ k + b.
Proof. intros Hk Ha Hb. rewrite Z.lor_comm. rewrite lor_shiftl_add by lia. lia. Qed.

(** The four indices of a chunk, as arithmetic. *)
Lemma chunk_indices a b c : 0 <= a < 256 -> 0 <= b < 256 -> 0 <= c < 256 ->
  Z.shiftr a 2 = a / 4 /\ Z.lor (Z.shiftl (Z.land a 3) 4) (Z.shiftr b 4) = a mod 4 * 16 + b / 16 /\
  Z.lor (Z.shiftl (Z.land b 15) 2) (Z.shiftr c 6) = b mod 16 * 4 + c / 64 /\ Z.land c 63 = c mod 64.
Proof.
  intros Ha Hb Hc. rewrite land_3, land_15, land_63, !Z.shiftr_div_pow2 by lia.
  rewrite (join (a mod 4)), (join (b mod 16)) by dlia. split_and!; reflexivity.
Qed.

Lemma base64_back (input : bytes) : byte_list input ->
  unbase64 (base64 input) = Some input /\ len (base64 input) = (len input + 2) / 3 * 4.
Proof.
  remember (length input) as n eqn:Hn. assert (Hle : (length input <= n)%nat) by lia. clear Hn.
  revert input Hle. induction n as [|n IH]; intros input Hle Hb.
  { destruct input; [done|simpl in Hle; lia]. }
  destruct input as [|a [|b [|c rest]]]; [done|..];
    repeat match goal with H : byte_list (_ :: _) |- _ => apply Forall_cons_1 in H as [? H]; fold (byte_list) in H
      | H : Forall _ (_ :: _) |- _ => apply Forall_cons_1 in H as [? H] end.
  - destruct (chunk_indices a 0 0) as (E1 & E2 & _ & _); [lia..|]. cbn [base64 unbase64].
    rewrite E1, E2. rewrite !index_b64 by dlia. cbn. split; [|done]. do 2 f_equal. dlia.
  - destruct (chunk_indices a b 0) as (E1 & E2 & E3 & _); [lia..|]. cbn [base64 unbase64].
    rewrite E1, E2, E3.
    rewrite (b64_not_pad (b mod 16 * 4 + 0 / 64)) by dlia. cbn [andb].
    rewrite !index_b64 by dlia. cbn [Z.eqb Pos.eqb]. split; [|done]. do 2 f_equal; [dlia|f_equal; dlia].
  - destruct (chunk_indices a b c) as (E1 & E2 & E3 & E4); [lia..|]. cbn [base64 unbase64].
    rewrite E1, E2, E3, E4.
    rewrite (b64_not_pad (b mod 16 * 4 + c / 64)) by dlia. cbn [andb].
    rewrite (b64_not_pad (c mod 64)) by dlia.
    rewrite !index_b64 by dlia. destruct (IH rest) as [-> El]; [simpl in Hle; lia|done|].
    split; [do 2 f_equal; [dlia|f_equal; [dlia|f_equal; dlia]]|]. rewrite !len_cons, El. pose proof (len_nonneg rest). dlia.
Qed.

(** A reference decoder of lower-case hex. *)
Fixpoint unhex (text : bytes) : option bytes :=
  match text with
  | [] => Some []
  | h :: l :: rest =>
      let* i := index_of HEX h in
      let* j := index_of HEX l in
      let* out := unhex rest in Some (i * 16 + j :: out)
  | _ => None
  end.

Lemma hex_digit i : 0 <= i < 16 -> index_of HEX (default 0 (get HEX i)) = Some i.
Proof.
  intros Hi. assert (H : forallb (fun i => bool_decide (index_of HEX (default 0 (get HEX i)) = Some i))
    (map Z.of_nat (seq 0 16)) = true) by (vm_compute; reflexivity).
  rewrite forallb_forall in H. specialize (H i). rewrite bool_decide_eq_true in H.
  apply H. apply in_map_iff. exists (Z.to_nat i). split; [lia|]. apply in_seq. lia.
Qed.

Lemma hex_back input : byte_list input -> unhex (hex input) = Some input /\ len (hex input) = 2 * len input.
Proof.
  induction 1 as [|b input Hb Hi [IH1 IH2]]; [done|]. unfold hex in *. cbn [map concat app unhex].
  rewrite land_15, Z.shiftr_div_pow2 by lia. rewrite !hex_digit by dlia. rewrite IH1.
  split; [do 2 f_equal; dlia|]. rewrite !len_cons, IH2. lia.
Qed.

(** The text forms of byte fields are faithful: padded base64 and
    lower-case hex decode back to the bytes, and the base64 length is the one
    the preflight charges for it. *)
Theorem otlp_text_roundtrip (input : bytes) : byte_list input ->
  unbase64 (base64 input) = Some input /\ len (base64 input) = (len input + 2) / 3 * 4 /\
  unhex (hex input) = Some input.
Proof.
  intros Hb. destruct (base64_back input Hb) as [H1 H2]. destruct (hex_back input Hb) as [H3 _]. by split_and!.
Qed.

(** * Packed varints *)

(** The bytes of one varint: continuation bytes, then a last one. *)
Definition varint_bytes (c : bytes) : Prop :=
  exists init last, c = init ++ [last] /\ Forall (fun b => Z.land b 0x80 <> 0) init /\ Z.land last 0x80 = 0 /\ len c <= 10.

Lemma packed_chunk init last rest c n : Forall (fun b => Z.land b 0x80 <> 0) init -> Z.land last 0x80 = 0 ->
  0 <= n -> n + len init + 1 <= 10 -> packed_loop (init ++ last :: rest) c n = packed_loop rest (c + 1) 0.
Proof.
  intros Hi Hl. revert n. induction Hi as [|b init Hb Hi IH]; intros n Hn Hle; cbn [app packed_loop].
  - rewrite (proj2 (Z.ltb_ge _ _)) by len_lia. by rewrite Hl.
  - rewrite len_cons in Hle. pose proof (len_nonneg init). rewrite (proj2 (Z.ltb_ge _ _)) by lia.
    rewrite (proj2 (Z.eqb_neq _ _) Hb). apply IH; lia.
Qed.

Lemma packed_complete cs c : Forall varint_bytes cs -> packed_loop (concat cs) c 0 = Ok (c + len cs).
Proof.
  intros Hc. revert c. induction Hc as [|x cs (init & last & -> & Hi & Hl & Hle) Hcs IH]; intros c.
  { cbn. f_equal. len_lia. }
  cbn [concat]. rewrite <- app_assoc. cbn [app]. rewrite packed_chunk; [|done|done|lia|len_lia].
  rewrite IH. f_equal. len_lia.
Qed.

Lemma packed_sound b p c n : Forall (fun b => Z.land b 0x80 <> 0) p -> len p <= 10 -> packed_loop b c (len p) = Ok n ->
  exists cs, concat cs = p ++ b /\ Forall varint_bytes cs /\ n = c + len cs.
Proof.
  revert p c. induction b as [|x b IH]; intros p c Hp Hl E; cbn [packed_loop] in E.
  { destruct (Z.eqb_spec (len p) 0) as [E0|]; [|done]. injection E as <-. exists []. destruct p; [|by len_lia].
    split_and!; [done|constructor|len_lia]. }
  destruct (_ <? _) eqn:E10; [done|]. bools. destruct (Z.land x 0x80 =? 0) eqn:Ex; bools.
  - change 0 with (len (@nil Z)) in E. apply IH in E as (cs & Hc & Hf & ->); [|constructor|done].
    exists ((p ++ [x]) :: cs). split_and!; [cbn; by rewrite Hc, <- app_assoc| |len_lia]. constructor; [|done].
    exists p, x. split_and!; [done|done|done|len_lia].
  - replace (len p + 1) with (len (p ++ [x])) in E by len_lia.
    apply IH in E as (cs & Hc & Hf & ->); [|apply Forall_app; split; [done|by constructor; [|constructor]]|len_lia].
    exists cs. split_and!; [by rewrite Hc, <- app_assoc|done|done].
Qed.

(** The preflight charges a packed field one node per varint: the count is
    [n] exactly when the payload is the concatenation of [n] varints of at
    most ten bytes. *)
Theorem packed_varints_exact (input : bytes) (n : Z) :
  packed_varints input = Ok n <-> exists cs, concat cs = input /\ Forall varint_bytes cs /\ n = len cs.
Proof.
  unfold packed_varints. split.
  - intros E. change 0 with (len (@nil Z)) in E at 2. by apply packed_sound in E.
  - intros (cs & <- & Hf & ->). by rewrite packed_complete.
Qed.

(** * Instances of the theorems *)

(** A trace request with one span that has one attribute. *)
Definition sample_trace : bytes :=
  let pair := [10; 1; 97; 18; 3; 10; 1; 98] in
  let span := [74; 8] ++ pair in
  let scope := [18; 10] ++ span in
  let resource := [18; 12] ++ scope in
  [10; 14] ++ resource.
Definition sample_options : Options := mkOptions 10 10 100 100 1000 8 100 100.

Lemma otlp_preflight_bounds_witness :
  tally (S (length sample_trace)) (weight Records) Export sample_trace = 1 /\
  tally (S (length sample_trace)) (weight Records) Export sample_trace <= 10.
Proof.
  split; [vm_compute; reflexivity|].
  pose proof (otlp_preflight_bounds sample_trace sample_options Export) as H.
  assert (E : preflight_signal sample_trace sample_options Export = Ok tt) by (vm_compute; reflexivity).
  rewrite E in H. apply H. vm_compute. split_and!; done || discriminate.
Defined.

Lemma otlp_text_roundtrip_witness : unbase64 (base64 [255; 0; 17; 1]) = Some [255; 0; 17; 1].
Proof. apply (otlp_text_roundtrip [255; 0; 17; 1]). repeat (constructor; [lia|]). constructor. Defined.
