(* ===== verification/OtlpMerge.v ===== *)
(** The OTLP decoder behind the preflight, otlp_merge.rs and the rest of
    otlp_traces.rs: fields are merged into plans the way protobuf merges
    messages, with the budgets of every attribute owner, and the plans are
    turned into JSON-shaped terms.

    A plan's field map is an ordered map from field numbers. *)

From S2P Require Import Prelude OrdMap Float64 JsonRead TermJson OtlpTraces.

Record Charge : Type := mkCharge { c_bytes : Z; c_nodes : Z }.
Definition Charge_default : Charge := mkCharge 0 0.
Definition charge_add (a b : Charge) : Charge :=
  mkCharge (sat_u64 (a.(c_bytes) + b.(c_bytes))) (sat_u64 (a.(c_nodes) + b.(c_nodes))).

Inductive Plan : Type :=
| mkPlan (schema : Schema) (fields : omap Z Values) (supplied : Charge) (pairs : Z)
with Values : Type :=
| Single (item : Item)
| Many (items : list Item)
with Item : Type :=
| Scalar (v : OtlpTraces.Value)
| MessageItem (p : Plan).

Definition p_schema (p : Plan) : Schema := let '(mkPlan s _ _ _) := p in s.
Definition p_fields (p : Plan) : omap Z Values := let '(mkPlan _ f _ _) := p in f.
Definition p_supplied (p : Plan) : Charge := let '(mkPlan _ _ c _) := p in c.
Definition p_pairs (p : Plan) : Z := let '(mkPlan _ _ _ n) := p in n.
Definition with_fields (p : Plan) (f : omap Z Values) : Plan := mkPlan (p_schema p) f (p_supplied p) (p_pairs p).

Definition attribute (s : Schema) : bool := match s with Pair | Any | Array | KvList => true | _ => false end.

Definition oneof (s : Schema) (number : Z) : bool :=
  match s with
  | Any => (1 <=? number) && (number <=? 7)
  | Metric => (number =? 5) || (number =? 7) || (number =? 9) || (number =? 10) || (number =? 11)
  | NumberPoint => (number =? 4) || (number =? 6)
  | OtlpTraces.Exemplar => (number =? 3) || (number =? 6)
  | _ => false
  end.

(** * The field map *)

Definition push (m : omap Z Values) (n : Z) (i : Item) : res Error (omap Z Values) :=
  match find n m with
  | None => Ok (put n (Many [i]) m)
  | Some (Many items) => Ok (put n (Many (items ++ [i])) m)
  | Some (Single _) => Err InvalidProtobuf
  end.

(** [entry(number).or_insert_with(|| Values::Many(Vec::new()))]. *)
Definition ensure_many (m : omap Z Values) (n : Z) : omap Z Values :=
  match find n m with None => put n (Many []) m | Some _ => m end.

(** [fields.retain(|&key, _| key == number || !oneof(schema, key))]. *)
Definition retain (s : Schema) (n : Z) (m : omap Z Values) : omap Z Values :=
  if oneof s n then List.filter (fun e => (fst e =? n) || negb (oneof s (fst e))) m else m.

Definition Plan_new (s : Schema) : Plan := mkPlan s [] Charge_default 0.

(** * Merging *)

(** The varints of a packed field, pushed in order. *)
Fixpoint push_varints (fuel : nat) (r : Reader) (n : Z) (m : omap Z Values) : res Error (omap Z Values) :=
  match fuel with
  | O => Fuel
  | S fuel =>
      if r.(rpos) <? len r.(rbytes) then
        let? (v, r) := varint r in
        let? m := push m n (Scalar (Number v)) in
        push_varints fuel r n m
      else Ok m
  end.

(** [bytes.as_chunks::<8>().0]. *)
Fixpoint chunks8 (b : bytes) : list bytes :=
  match b with
  | b0 :: b1 :: b2 :: b3 :: b4 :: b5 :: b6 :: b7 :: b => [b0; b1; b2; b3; b4; b5; b6; b7] :: chunks8 b
  | _ => []
  end.

Definition push_words (b : bytes) (n : Z) (m : omap Z Values) : res Error (omap Z Values) :=
  foldM (fun m c => push m n (Scalar (Number (from_le_bytes c)))) m (chunks8 b).

(** The bytes a scalar of an attribute is charged. *)
Definition scalar_bytes (kind : Kind) (v : OtlpTraces.Value) : Z :=
  match v with
  | Data b => match kind with Bytes => (len b + 2) / 3 * 4 | _ => len b end
  | Number _ => 8
  end.

Definition over (c : Charge) (o : Options) : bool := (o.(opt4) <? c.(c_bytes)) || (o.(opt6) <? c.(c_nodes)).

Section Step.
Variable recurse : Plan -> bytes -> Options -> res Error (Plan * Charge).

(** A message field: a new plan per occurrence when repeated, otherwise merged
    into the one that is there. *)
Definition merge_message (s : Schema) (m : omap Z Values) (number : Z) (child : Schema) (many : bool)
    (b : bytes) (o : Options) : res Error (omap Z Values * Charge) :=
  if many then
    let? (p, added) := recurse (Plan_new child) b o in
    let? m := push m number (MessageItem p) in
    Ok (m, added)
  else
    match default (Single (MessageItem (Plan_new child))) (find number m) with
    | Single (MessageItem p) =>
        let? (p, added) := recurse p b o in
        Ok (put number (Single (MessageItem p)) m, added)
    | _ => Err InvalidProtobuf
    end.

Definition merge_field (o : Options) (acc : Plan * Charge) (number wire : Z) (value : OtlpTraces.Value)
    : res Error (Plan * Charge) :=
  let '(p, charge) := acc in
  let s := p_schema p in
  match field s number with
  | None => Ok acc
  | Some (_, kind, many) =>
      let m := retain s number (p_fields p) in
      let? (p, charge) :=
        match kind, value with
        | Message child, Data b =>
            let? (m, added) := merge_message s m number child many b (child_options s number o) in
            let? pairs :=
              if bool_decide (child = Pair) then
                let n := sat_u64 (p_pairs p + 1) in
                if o.(opt1) <? n then Err AttributesTooLarge else Ok n
              else Ok (p_pairs p) in
            Ok (mkPlan s m (p_supplied p) pairs,
                if attribute s || bool_decide (child = Pair) then charge_add charge added else charge)
        | PackedUint64, Data b =>
            let? _ := packed_varints b in
            let? m := push_varints (S (length b)) (mkReader b 0) number m in
            Ok (with_fields p (ensure_many m number), charge)
        | (PackedFixed64 | PackedDouble), Data b =>
            let? m := push_words b number m in
            Ok (with_fields p (ensure_many m number), charge)
        | _, _ =>
            let charge :=
              if attribute s then mkCharge (sat_u64 (charge.(c_bytes) + scalar_bytes kind value)) charge.(c_nodes)
              else charge in
            let? m := if many then push m number (Scalar value) else Ok (put number (Single (Scalar value)) m) in
            Ok (with_fields p m, charge)
        end in
      if over (charge_add (p_supplied p) charge) o then Err AttributesTooLarge else Ok (p, charge)
  end.
End Step.

Fixpoint merge (fuel : nat) (p : Plan) (input : bytes) (o : Options) : res Error (Plan * Charge) :=
  match fuel with
  | O => Fuel
  | S fuel =>
      let charge := mkCharge 0 (if attribute (p_schema p) then 1 else 0) in
      let? (p, charge) := while_next (S (length input)) (merge_field (merge fuel) o) (mkReader input 0) (p, charge) in
      let supplied := charge_add (p_supplied p) charge in
      if over supplied o then Err AttributesTooLarge
      else Ok (mkPlan (p_schema p) (p_fields p) supplied (p_pairs p), charge)
  end.

(** * Terms *)

Definition binary (b : bytes) : Term := Binary b.

Definition packed_number (kind : Kind) (n : Z) : Term :=
  match kind with
  | PackedFixed64 => Integer n
  | _ =>
      if f64_is_nan n then binary (str "NaN")
      else if f64_eq n F64_INFINITY then binary (str "Infinity")
      else if f64_eq n F64_NEG_INFINITY then binary (str "-Infinity")
      else FloatT n
  end.

(** [((n >> 1) as i32) ^ -((n & 1) as i32)] on [n as u32]. *)
Definition unzigzag32 (n : Z) : Z :=
  let n := n mod 4294967296 in Z.lxor (Z.shiftr n 1) (- Z.land n 1).

Definition scalar_term (kind : Kind) (v : OtlpTraces.Value) : res Error Term :=
  match v with
  | Data b =>
      match kind with
      | Hex => Ok (binary (hex b))
      | Bytes => Ok (binary (base64 b))
      | String => Ok (binary b)
      | _ => Err InvalidProtobuf
      end
  | Number n =>
      Ok match kind with
         | Int | Signed64 => Integer (as_i64 n)
         | Sint32 => Integer (unzigzag32 n)
         | Bool => Atom (if n =? 0 then FALSE else TRUE)
         | Double | PackedDouble => packed_number PackedDouble n
         | _ => Integer n
         end
  end.

Fixpoint materialize (p : Plan) : res Error Term :=
  let '(mkPlan s fields _ _) := p in
  let? entries :=
    (fix go (l : omap Z Values) : res Error (list (Term * Term)) :=
       match l with
       | [] => Ok []
       | (number, vs) :: l =>
           let? (name, kind, _) := ok_or (field s number) InvalidProtobuf in
           let? v := values_term kind vs in
           let? rest := go l in Ok ((binary name, v) :: rest)
       end) fields in
  match map_from_arrays (map fst entries) (map snd entries) with
  | Ok t => Ok t
  | _ => Err InvalidProtobuf
  end
with values_term (kind : Kind) (vs : Values) : res Error Term :=
  match vs with
  | Single item => item_term kind item
  | Many items =>
      let? ts :=
        (fix go (l : list Item) : res Error (list Term) :=
           match l with
           | [] => Ok []
           | item :: l => let? t := item_term kind item in let? ts := go l in Ok (t :: ts)
           end) items in
      Ok (List ts)
  end
with item_term (kind : Kind) (i : Item) : res Error Term :=
  match i with
  | MessageItem p => materialize p
  | Scalar v => scalar_term kind v
  end.

(** [merge::decode]. *)
Definition decode (input : bytes) (s : Schema) (o : Options) : res Error Term :=
  let? (p, _) := merge (S (length input)) (Plan_new s) input o in materialize p.

Definition decode_signal (input : bytes) (o : Options) (s : Schema) : res Error Term :=
  let? _ := preflight_signal input o s in decode input s o.

Definition decode_traces (input : bytes) (o : Options) : res Error Term := decode_signal input o Export.
Definition decode_logs (input : bytes) (o : Options) : res Error Term := decode_signal input o ExportLogs.
Definition decode_metrics (input : bytes) (o : Options) : res Error Term := decode_signal input o ExportMetrics.

(** * The schema tables *)

Lemma field_bound s n x : field s n = Some x -> 1 <= n <= 16.
Proof.
  destruct n as [|p|p]; [by destruct s| |by destruct s].
  do 5 (try destruct p as [p|p|]); try (intros _; lia); by destruct s.
Qed.

Definition all_numbers : list Z := map Z.of_nat (seq 1 16).
Definition all_schemas : list Schema :=
  [Export; ExportLogs; ExportMetrics; ResourceMetrics; ScopeMetrics; Metric; Gauge; Sum; Histogram; ExponentialHistogram;
   Summary; NumberPoint; HistogramPoint; ExponentialPoint; Buckets; SummaryPoint; QuantileValue; OtlpTraces.Exemplar;
   ResourceLogs; ScopeLogs; LogRecord; ResourceSpans; Resource; ScopeSpans; Scope; Span; Status; Event; Link; Pair; Any;
   Array; KvList].

Lemma all_schemas_in s : In s all_schemas.
Proof. destruct s; cbn; tauto. Qed.

Lemma all_numbers_in n : 1 <= n <= 16 -> In n all_numbers.
Proof. intros Hn. apply in_map_iff. exists (Z.to_nat n). split; [lia|]. apply in_seq. lia. Qed.

(** Field names identify the fields of a message. *)
Lemma field_name_inj s n m a k b j c : field s n = Some (a, k, b) -> field s m = Some (a, j, c) -> n = m.
Proof.
  intros E1 E2. pose proof (field_bound _ _ _ E1) as B1. pose proof (field_bound _ _ _ E2) as B2.
  assert (H : forallb (fun s => forallb (fun n => forallb (fun m =>
    match field s n, field s m with
    | Some (a, _, _), Some (b, _, _) => negb (bytes_eqb a b) || (n =? m)
    | _, _ => true
    end) all_numbers) all_numbers) all_schemas = true) by (vm_compute; reflexivity).
  rewrite forallb_forall in H. specialize (H s (all_schemas_in s)). cbv beta in H.
  rewrite forallb_forall in H. specialize (H n (all_numbers_in n B1)). cbv beta in H.
  rewrite forallb_forall in H. specialize (H m (all_numbers_in m B2)). cbv beta in H.
  rewrite E1, E2 in H. rewrite (proj2 (bytes_eqb_eq a a) eq_refl) in H. cbn in H. by apply Z.eqb_eq in H.
Qed.

(** * What the preflight establishes of the bytes *)

Definition is_text (k : Kind) : bool := match k with String | Hex | Bytes => true | _ => false end.
Definition is_data (v : OtlpTraces.Value) : bool := match v with Data _ => true | Number _ => false end.

Fixpoint typed (fuel : nat) (s : Schema) (input : bytes) : Prop :=
  match fuel with
  | O => False
  | S fuel =>
      snd (next_list (S (length input)) (mkReader input 0)) = true /\
      Forall (fun f : Field =>
        match field s (fst (fst f)) with
        | None => True
        | Some (_, Message c, _) => match snd f with Data b => typed fuel c b | Number _ => False end
        | Some (_, kind, _) => is_packed kind || Bool.eqb (is_data (snd f)) (is_text kind) = true
        end) (fields_of input)
  end.

Lemma next_wire r n w v r' : next r = Ok (Some (n, w, v), r') -> is_data v = (w =? 2).
Proof.
  unfold next. destruct (_ =? _); [done|]. destruct (varint r) as [[key r1]| |]; [|done..].
  destruct (_ || _); [done|]. generalize (Z.land key 7) (Z.shiftr key 3). intros wire number.
  match goal with |- context [let? x := ?m in _] => destruct m as [[value r2]| |] eqn:Ev; [|done..] end.
  intros [= <- <- <- <-]. destruct (Z.eqb_spec wire 2) as [->|Hw].
  - cbn [Z.eqb Pos.eqb] in Ev. destruct (varint r1) as [[k r3]| |]; [|done..]. destruct (take r3 k) as [[b r4]| |]; [|done..].
    by injection Ev as <- _.
  - case_in Ev; simplify_eq; done.
Qed.

Lemma next_list_wire fuel r f : f ∈ fst (next_list fuel r) -> is_data (snd f) = (snd (fst f) =? 2).
Proof.
  revert r. induction fuel as [|fuel IH]; intros r Hin; [by apply not_elem_of_nil in Hin|]. cbn [next_list] in Hin.
  destruct (next r) as [[[[[n w] v]|] r']|e|] eqn:E; try (by apply not_elem_of_nil in Hin).
  destruct (next_list fuel r') as [fs ok] eqn:El. cbn [fst] in Hin. apply elem_of_cons in Hin as [->|Hin].
  - by apply next_wire in E.
  - apply (IH r'). by rewrite El.
Qed.

Lemma visit_typed recurse (T : Schema -> bytes -> Prop) s depth w f w' :
  (forall b c bu d a x, recurse b c bu d a = Ok x -> T c b) -> is_data (snd f) = (snd (fst f) =? 2) ->
  visit recurse s depth w (fst (fst f)) (snd (fst f)) (snd f) = Ok w' ->
  match field s (fst (fst f)) with
  | None => True
  | Some (_, Message c, _) => match snd f with Data b => T c b | Number _ => False end
  | Some (_, kind, _) => is_packed kind || Bool.eqb (is_data (snd f)) (is_text kind) = true
  end.
Proof.
  destruct f as [[n wire] v]. cbn [fst snd]. intros Hr Hd. unfold visit. destruct (_ && _); [done|].
  destruct (field s n) as [[[name kind] rep]|]; [|done].
  destruct (negb (wire =? wire_type kind) && negb (is_packed kind && (wire =? 2))) eqn:Ew; [done|].
  destruct (mark_repeated w n rep) as [w1| |]; [|done..]. destruct (is_packed kind) eqn:Ep; [by destruct kind|].
  cbn [andb negb] in *. rewrite andb_true_r in Ew. bools. subst wire.
  destruct kind; try discriminate Ep; cbn in Hd; destruct v; try discriminate Hd; try done.
  cbn [is_message]. unfold message_field. intros E. case_in E; match goal with H : _ = Ok _ |- _ => solve [case_in H; eauto] end.
Qed.

Lemma preflight_typed fuel input s bu depth a x : preflight fuel input s bu depth a = Ok x -> typed fuel s input.
Proof.
  revert input s bu depth a x. induction fuel as [|fuel IH]; intros input s bu depth a x E; [done|].
  cbn [preflight] in E. destruct (_ <? depth); [done|]. destruct (add_node bu) as [b1| |]; [|done..].
  match type of E with context [let? a := ?m in _] => destruct m as [a1| |]; [|done..] end.
  destruct (while_next _ _ _ _) as [w|e|] eqn:Ew; [|done..]. clear E. cbn [typed].
  rewrite while_next_fold in Ew; [|unfold reader_ok; cbn; len_lia|cbn [rbytes rpos]; unfold len; lia].
  assert (Hw : forall f, f ∈ fields_of input -> is_data (snd f) = (snd (fst f) =? 2)) by (intros f; apply next_list_wire).
  unfold fields_of in *. destruct (next_list _ _) as [fs ok]. cbn [fst snd] in *.
  match type of Ew with context [foldM ?g ?x fs] => destruct (foldM g x fs) as [w'| |] eqn:Ef; [|done..] end.
  destruct ok; [|done]. split; [done|]. clear Ew w. revert Ef. generalize (mkWalk b1 a1 0 0).
  induction fs as [|f fs IHf]; intros w Ef; [constructor|]. cbn [foldM] in Ef.
  destruct (visit _ _ _ w _ _ _) as [w1| |] eqn:Ev; [|done..]. constructor.
  - eapply visit_typed; [|apply Hw, list_elem_of_here|exact Ev]. intros b c bu' d a' y. apply IH.
  - eapply IHf; [|exact Ef]. intros g Hg. by apply Hw, list_elem_of_further.
Qed.

(** The loop of the decoder over bytes the preflight admitted. *)
Lemma while_next_admitted {A} (visit : A -> Z -> Z -> OtlpTraces.Value -> res Error A) input acc :
  snd (next_list (S (length input)) (mkReader input 0)) = true ->
  while_next (S (length input)) visit (mkReader input 0) acc =
  foldM (fun a f => visit a (fst (fst f)) (snd (fst f)) (snd f)) acc (fields_of input).
Proof.
  intros Hok. rewrite while_next_fold; [|unfold reader_ok; cbn; len_lia|cbn [rbytes rpos]; unfold len; lia].
  unfold fields_of. destruct (next_list _ _) as [fs ok]. cbn [fst snd] in *. subst ok.
  match goal with |- context [foldM ?g acc fs] => by destruct (foldM g acc fs) end.
Qed.

(** * Plans that agree with their schema *)

Definition within (c : Charge) (o : Options) : Prop := c.(c_bytes) <= o.(opt4) /\ c.(c_nodes) <= o.(opt6).

Definition one_choice (s : Schema) (m : omap Z Values) : Prop :=
  forall e f, e ∈ m -> f ∈ m -> oneof s (fst e) = true -> oneof s (fst f) = true -> fst e = fst f.

(** ** Weights

    What a plan still holds of the input: [leaf] per scalar of an attribute
    message and [self] per attribute message. *)
Definition kind_of (s : Schema) (n : Z) : option Kind := option_map (fun f => snd (fst f)) (field s n).

Section Weight.
Variable leaf : option Kind -> OtlpTraces.Value -> Z.
Variable self : Z.

Fixpoint weigh (p : Plan) : Z :=
  let '(mkPlan s m _ _) := p in
  (fix go (l : omap Z Values) : Z :=
     match l with [] => 0 | (n, vs) :: l => values_weight (attribute s) (kind_of s n) vs + go l end) m
with values_weight (context : bool) (kind : option Kind) (vs : Values) : Z :=
  match vs with
  | Single i => item_weight context kind i
  | Many items =>
      (fix go (l : list Item) : Z := match l with [] => 0 | i :: l => item_weight context kind i + go l end) items
  end
with item_weight (context : bool) (kind : option Kind) (i : Item) : Z :=
  match i with
  | Scalar v => if context then leaf kind v else 0
  | MessageItem p => if context || bool_decide (p_schema p = Pair) then self + weigh p else 0
  end.

Definition field_weight (s : Schema) (n : Z) (vs : Values) : Z := values_weight (attribute s) (kind_of s n) vs.
Definition items_weight (context : bool) (kind : option Kind) (l : list Item) : Z :=
  fold_right (fun i n => item_weight context kind i + n) 0 l.

Lemma weigh_fields s m c n : weigh (mkPlan s m c n) = msum (field_weight s) m.
Proof. cbn [weigh]. induction m as [|[k vs] m IH]; [done|]. cbn [msum fold_right fst snd]. by rewrite IH. Qed.

Lemma weigh_many context kind l : values_weight context kind (Many l) = items_weight context kind l.
Proof. cbn [values_weight]. induction l as [|i l IH]; [done|]. cbn [items_weight fold_right]. by rewrite IH. Qed.

Lemma weight_single context kind i : values_weight context kind (Single i) = item_weight context kind i.
Proof. done. Qed.

Lemma weight_scalar context kind v : item_weight context kind (Scalar v) = if context then leaf kind v else 0.
Proof. done. Qed.

Lemma weight_message context kind p :
  item_weight context kind (MessageItem p) = if context || bool_decide (p_schema p = Pair) then self + weigh p else 0.
Proof. done. Qed.

Lemma items_weight_app context kind l k :
  items_weight context kind (l ++ k) = items_weight context kind l + items_weight context kind k.
Proof. unfold items_weight. induction l as [|i l IH]; [done|]. cbn [app fold_right]. rewrite IH. lia. Qed.
End Weight.

Definition byte_leaf (k : option Kind) (v : OtlpTraces.Value) : Z := match k with Some k => scalar_bytes k v | None => 0 end.
Definition byte_weight : Plan -> Z := weigh byte_leaf 0.
Definition node_weight : Plan -> Z := weigh (fun _ _ => 0) 1.

(** The attribute pairs under a field. *)
Definition pair_items (s : Schema) (n : Z) (vs : Values) : Z :=
  match field s n, vs with Some (_, Message Pair, _), Many items => len items | _, _ => 0 end.

(** ** The invariant *)
Fixpoint plan_ok (o : Options) (p : Plan) : Prop :=
  let '(mkPlan s m supplied pairs) := p in
  ordered m /\ one_choice s m /\ msum (pair_items s) m <= pairs <= o.(opt1) /\
  byte_weight p <= supplied.(c_bytes) /\ node_weight p <= supplied.(c_nodes) /\ within supplied o /\
  (fix go (l : omap Z Values) : Prop :=
     match l with
     | [] => True
     | (n, vs) :: l =>
         match field s n with
         | Some (_, kind, many) => values_ok (child_options s n o) kind many vs
         | None => False
         end /\ go l
     end) m
with values_ok (o : Options) (kind : Kind) (many : bool) (vs : Values) : Prop :=
  match vs with
  | Single i => many = false /\ item_ok o kind i
  | Many items =>
      many = true /\ (fix go (l : list Item) : Prop := match l with [] => True | i :: l => item_ok o kind i /\ go l end) items
  end
with item_ok (o : Options) (kind : Kind) (i : Item) : Prop :=
  match i with
  | Scalar v => is_message kind = false /\ is_data v = is_text kind
  | MessageItem p => kind = Message (p_schema p) /\ plan_ok o p
  end.

Definition entry_ok (o : Options) (s : Schema) (e : Z * Values) : Prop :=
  match field s (fst e) with
  | Some (_, kind, many) => values_ok (child_options s (fst e) o) kind many (snd e)
  | None => False
  end.

Definition map_ok (o : Options) (s : Schema) (m : omap Z Values) : Prop :=
  ordered m /\ one_choice s m /\ Forall (entry_ok o s) m.

Lemma plan_ok_iff o s m supplied pairs : plan_ok o (mkPlan s m supplied pairs) <->
  map_ok o s m /\ msum (pair_items s) m <= pairs <= o.(opt1) /\
  byte_weight (mkPlan s m supplied pairs) <= supplied.(c_bytes) /\
  node_weight (mkPlan s m supplied pairs) <= supplied.(c_nodes) /\ within supplied o.
Proof.
  cbn [plan_ok]. unfold map_ok.
  enough (G : (fix go (l : omap Z Values) : Prop :=
     match l with
     | [] => True
     | (n, vs) :: l =>
         match field s n with
         | Some (_, kind, many) => values_ok (child_options s n o) kind many vs
         | None => False
         end /\ go l
     end) m <-> Forall (entry_ok o s) m) by tauto.
  induction m as [|[n vs] m IH]; [split; [constructor|done]|]. by rewrite list.Forall_cons, <- IH.
Qed.

Lemma many_ok_iff o kind many l : values_ok o kind many (Many l) <-> many = true /\ Forall (item_ok o kind) l.
Proof.
  cbn [values_ok]. enough (G : (fix go (l : list Item) : Prop :=
    match l with [] => True | i :: l => item_ok o kind i /\ go l end) l <-> Forall (item_ok o kind) l) by tauto.
  induction l as [|i l IH]; [split; [constructor|done]|]. by rewrite list.Forall_cons, <- IH.
Qed.

(** ** Induction over the plans inside a plan *)

Definition holds (vs : Values) (q : Plan) : Prop :=
  match vs with Single i => i = MessageItem q | Many l => MessageItem q ∈ l end.

Lemma plan_induction (P : Plan -> Prop) :
  (forall s m c n, (forall k vs q, (k, vs) ∈ m -> holds vs q -> P q) -> P (mkPlan s m c n)) -> forall p, P p.
Proof.
  intros H. fix IH 1. intros [s m c n]. apply H.
  assert (G : Forall (fun e => forall q, holds (snd e) q -> P q) m).
  { induction m as [|[k [[v|p]|l]] m IHm]; constructor; try exact IHm; intros q; cbn [snd holds].
    - discriminate.
    - intros E. assert (Ep : p = q) by congruence. rewrite <- Ep. exact (IH p).
    - assert (Gl : Forall (fun i => match i with MessageItem p => P p | Scalar _ => True end) l).
      { clear -IH. induction l as [|[v|p] l IHl]; constructor; try exact IHl; [exact I|exact (IH p)]. }
      intros Hin. rewrite list.Forall_forall in Gl. exact (Gl _ Hin). }
  intros k vs q Hin Hq. rewrite list.Forall_forall in G. exact (G _ Hin q Hq).
Qed.

Lemma fold_sum_nonneg {A} (w : A -> Z) l : (forall x, x ∈ l -> 0 <= w x) -> 0 <= fold_right (fun x n => w x + n) 0 l.
Proof.
  induction l as [|x l IH]; intros Hw; cbn [fold_right]; [done|].
  pose proof (Hw x (list_elem_of_here _ _)). assert (forall y, y ∈ l -> 0 <= w y) by (intros; by apply Hw, list_elem_of_further).
  specialize (IH ltac:(done)). lia.
Qed.

Lemma weigh_nonneg leaf self p : (forall k v, 0 <= leaf k v) -> 0 <= self -> 0 <= weigh leaf self p.
Proof.
  intros Hl Hs. induction p as [s m c n IH] using plan_induction. rewrite weigh_fields.
  assert (Hi : forall k vs i, (k, vs) ∈ m -> (vs = Single i \/ exists l, vs = Many l /\ i ∈ l) ->
    forall x y, 0 <= item_weight leaf self x y i).
  { intros k vs [v|q] Hin Hi x y; [rewrite weight_scalar; by destruct x|]. rewrite weight_message. destruct (x || _); [|done].
    assert (0 <= weigh leaf self q); [|lia]. apply (IH k vs q Hin). destruct Hi as [->|(l & -> & Hl')]; done. }
  apply fold_sum_nonneg. intros [k vs] Hin. cbn [fst snd]. unfold field_weight.
  destruct vs as [i|l]; [eapply (Hi k (Single i)); [done|by left]|].
  rewrite weigh_many. apply fold_sum_nonneg. intros i Hin'. eapply (Hi k (Many l)); [done|right; eauto].
Qed.

Lemma field_weight_nonneg leaf self s k vs : (forall k v, 0 <= leaf k v) -> 0 <= self -> 0 <= field_weight leaf self s k vs.
Proof.
  intros Hl Hs. pose proof (weigh_nonneg leaf self (mkPlan s [(k, vs)] Charge_default 0) Hl Hs) as H.
  rewrite weigh_fields in H. cbn [msum fold_right fst snd] in H. lia.
Qed.

(** ** Operations on a map that agrees with its schema *)

Definition bytes_of (s : Schema) : omap Z Values -> Z := msum (field_weight byte_leaf 0 s).
Definition nodes_of (s : Schema) : omap Z Values -> Z := msum (field_weight (fun _ _ => 0) 1 s).
Definition pairs_of (s : Schema) : omap Z Values -> Z := msum (pair_items s).

Lemma byte_leaf_nonneg k v : 0 <= byte_leaf k v.
Proof.
  destruct k as [k|]; [|done]. cbn. destruct v as [n|b]; cbn; [lia|]. pose proof (len_nonneg b).
  destruct k; try lia. apply Z.mul_nonneg_nonneg; [apply Z.div_pos; lia|lia].
Qed.

Lemma pair_items_nonneg s n vs : 0 <= pair_items s n vs.
Proof. unfold pair_items. destruct (field s n) as [[[? [[]| | | | | | | | | | | | | | ]] ?]|], vs; try done; apply len_nonneg. Qed.

Lemma byte_weight_nonneg s n vs : 0 <= field_weight byte_leaf 0 s n vs.
Proof. apply field_weight_nonneg; [apply byte_leaf_nonneg|done]. Qed.
Lemma node_weight_nonneg s n vs : 0 <= field_weight (fun _ _ => 0) 1 s n vs.
Proof. by apply field_weight_nonneg. Qed.
#[export] Hint Resolve byte_weight_nonneg node_weight_nonneg pair_items_nonneg : pulso.

Lemma elem_of_filter_in {A} (g : A -> bool) l x : x ∈ List.filter g l -> x ∈ l.
Proof. rewrite !list_elem_of_In, filter_In. tauto. Qed.

(** From [m] to [m'] the map holds at most so much more. *)
Definition grown (o : Options) (s : Schema) (m m' : omap Z Values) (db dn dp : Z) : Prop :=
  map_ok o s m' /\ bytes_of s m' <= bytes_of s m + db /\ nodes_of s m' <= nodes_of s m + dn /\
  pairs_of s m' <= pairs_of s m + dp.

Lemma grown_trans o s a b c db dn dp db' dn' dp' : grown o s a b db dn dp -> grown o s b c db' dn' dp' ->
  grown o s a c (db + db') (dn + dn') (dp + dp').
Proof. intros (_ & ? & ? & ?) (? & ? & ? & ?). split_and!; [done|lia..]. Qed.

(** Choosing [n] leaves no other alternative of the same choice. *)
Definition chosen (s : Schema) (n : Z) (m : omap Z Values) : Prop :=
  oneof s n = true -> forall e, e ∈ m -> oneof s (fst e) = true -> fst e = n.

Lemma retain_ok o s n m : map_ok o s m -> grown o s m (retain s n m) 0 0 0 /\ chosen s n (retain s n m).
Proof.
  intros (Ho & H1 & He). unfold retain, chosen. destruct (oneof s n) eqn:En.
  2:{ split; [|done]. split_and!; [done|lia..]. }
  set (g := fun e : Z * Values => _). split.
  - split_and!; [split_and!| | |].
    + by apply filter_ordered.
    + intros e f Hf Hg. apply H1; by eapply elem_of_filter_in.
    + apply list.Forall_forall. intros e Hin. rewrite list.Forall_forall in He. apply He. by eapply elem_of_filter_in.
    + rewrite Z.add_0_r. apply msum_filter; auto with pulso.
    + rewrite Z.add_0_r. apply msum_filter; auto with pulso.
    + rewrite Z.add_0_r. apply msum_filter; auto with pulso.
  - intros _ e Hin Hf. apply list_elem_of_In, filter_In in Hin as [_ Hg]. subst g. cbv beta in Hg. rewrite Hf, orb_false_r in Hg.
    by bools.
Qed.

Lemma put_ok o s n v m : map_ok o s m -> chosen s n m -> entry_ok o s (n, v) ->
  map_ok o s (put n v m) /\ chosen s n (put n v m).
Proof.
  intros (Ho & H1 & He) Hc Hv. split; [split_and!|].
  - by apply put_ordered.
  - intros [i a] [j b] Hi Hj Oi Oj. apply put_in in Hi as [[= -> ->]|Hi], Hj as [[= -> ->]|Hj]; cbn [fst] in *; [done| | |].
    + symmetry. by apply (Hc Oi (j, b)).
    + by apply (Hc Oj (i, a)).
    + by apply (H1 (i, a) (j, b)).
  - apply list.Forall_forall. intros [k w] Hin. apply put_in in Hin as [[= -> ->]|Hin]; [done|].
    rewrite list.Forall_forall in He. by apply He.
  - intros On [k w] Hin Ok. apply put_in in Hin as [[= -> ->]|Hin]; [done|]. by apply (Hc On (k, w)).
Qed.

(** A value that stands in for what was there. *)
Lemma put_grown o s n v m db dn dp : map_ok o s m -> chosen s n m -> entry_ok o s (n, v) ->
  let old w := from_option (w n) 0 (find n m) in
  field_weight byte_leaf 0 s n v <= old (field_weight byte_leaf 0 s) + db ->
  field_weight (fun _ _ => 0) 1 s n v <= old (field_weight (fun _ _ => 0) 1 s) + dn ->
  pair_items s n v <= old (pair_items s) + dp ->
  grown o s m (put n v m) db dn dp /\ chosen s n (put n v m).
Proof.
  intros Hm Hc Hv old Hb Hn Hp. destruct (put_ok o s n v m Hm Hc Hv) as [H1 H2]. split; [|done].
  destruct Hm as (Ho & _). split; [done|]. unfold bytes_of, nodes_of, pairs_of. rewrite !msum_put by done. subst old. cbv beta in *.
  split_and!; lia.
Qed.

Lemma entry_find o s n m v : map_ok o s m -> find n m = Some v -> entry_ok o s (n, v).
Proof. intros (_ & _ & He) E. rewrite list.Forall_forall in He. by apply He, find_in. Qed.

Lemma kind_of_field s n name kind many : field s n = Some (name, kind, many) -> kind_of s n = Some kind.
Proof. unfold kind_of. by intros ->. Qed.

Definition is_pair (k : Kind) : Z := match k with Message Pair => 1 | _ => 0 end.

Lemma push_grown o s n name kind m i : map_ok o s m -> chosen s n m -> field s n = Some (name, kind, true) ->
  item_ok (child_options s n o) kind i ->
  exists m', push m n i = Ok m' /\
    grown o s m m' (item_weight byte_leaf 0 (attribute s) (Some kind) i)
      (item_weight (fun _ _ => 0) 1 (attribute s) (Some kind) i) (is_pair kind) /\ chosen s n m'.
Proof.
  intros Hm Hc Ef Hi. unfold push. destruct (find n m) as [[j|l]|] eqn:En.
  - apply entry_find with (1 := Hm) in En. unfold entry_ok in En. cbn [fst snd] in En. rewrite Ef in En. by destruct En.
  - pose proof (entry_find _ _ _ _ _ Hm En) as He. unfold entry_ok in He. cbn [fst snd] in He. rewrite Ef in He.
    apply many_ok_iff in He as [_ He]. eexists. split; [done|]. apply put_grown; [done|done| |..].
    + unfold entry_ok. cbn [fst snd]. rewrite Ef. apply many_ok_iff. split; [done|]. apply list.Forall_app. split; [done|by constructor].
    + rewrite En. cbn [from_option]. unfold field_weight. rewrite (kind_of_field _ _ _ _ _ Ef), !weigh_many, items_weight_app.
      cbn [items_weight fold_right]. lia.
    + rewrite En. cbn [from_option]. unfold field_weight. rewrite (kind_of_field _ _ _ _ _ Ef), !weigh_many, items_weight_app.
      cbn [items_weight fold_right]. lia.
    + rewrite En. cbn [from_option]. unfold pair_items. rewrite Ef. destruct kind as [[]| | | | | | | | | | | | | |]; cbn; len_lia.
  - eexists. split; [done|]. apply put_grown; [done|done| |..].
    + unfold entry_ok. cbn [fst snd]. rewrite Ef. apply many_ok_iff. split; [done|]. by constructor.
    + rewrite En. unfold field_weight. rewrite (kind_of_field _ _ _ _ _ Ef), weigh_many. cbn [items_weight fold_right from_option]. lia.
    + rewrite En. unfold field_weight. rewrite (kind_of_field _ _ _ _ _ Ef), weigh_many. cbn [items_weight fold_right from_option]. lia.
    + rewrite En. unfold pair_items. rewrite Ef. destruct kind as [[]| | | | | | | | | | | | | |]; cbn; len_lia.
Qed.

(** ** One field *)

(** The computation ends, with a value that satisfies [P] unless it fails. *)
Definition yields {A} (r : res Error A) (P : A -> Prop) : Prop :=
  match r with Ok a => P a | Err _ => True | Fuel => False end.

Lemma yields_let {A B} (r : res Error A) (k : A -> res Error B) P Q :
  yields r P -> (forall a, P a -> yields (k a) Q) -> yields (let? a := r in k a) Q.
Proof. destruct r; cbn; [|done|done]. intros Hp Hk. by apply Hk. Qed.

Lemma packed_context s n name kind many : field s n = Some (name, kind, many) -> is_packed kind = true ->
  attribute s = false /\ many = true.
Proof.
  intros E Hk. pose proof (field_bound _ _ _ E) as B.
  assert (H : forallb (fun s => forallb (fun n => match field s n with
    | Some (_, kind, many) => negb (is_packed kind) || (negb (attribute s) && many) | None => true end) all_numbers) all_schemas = true)
    by (vm_compute; reflexivity).
  rewrite forallb_forall in H. specialize (H s (all_schemas_in s)). cbv beta in H.
  rewrite forallb_forall in H. specialize (H n (all_numbers_in n B)). cbv beta in H. rewrite E, Hk in H. cbn in H.
  by bools.
Qed.

Lemma attribute_child s n name c many : field s n = Some (name, Message c, many) -> attribute s = true -> attribute c = true.
Proof. intros E Hs. destruct s; try discriminate Hs; cbn in E; by case_in E; simplify_eq. Qed.

Definition unchanged (o : Options) (s : Schema) (n : Z) (m m' : omap Z Values) : Prop :=
  grown o s m m' 0 0 0 /\ chosen s n m'.

Lemma push_number o s n name kind m v : map_ok o s m -> chosen s n m -> field s n = Some (name, kind, true) ->
  is_packed kind = true -> yields (push m n (Scalar (Number v))) (unchanged o s n m).
Proof.
  intros Hm Hc Ef Hk. destruct (packed_context _ _ _ _ _ Ef Hk) as [Ha _].
  destruct (push_grown o s n name kind m (Scalar (Number v)) Hm Hc Ef) as (m' & -> & Hg & Hc').
  { by destruct kind. }
  rewrite !weight_scalar, Ha in Hg. replace (is_pair kind) with 0 in Hg by by destruct kind. by split.
Qed.

Lemma push_varints_ok o s n name kind m fuel r : map_ok o s m -> chosen s n m -> field s n = Some (name, kind, true) ->
  is_packed kind = true -> reader_ok r -> len r.(rbytes) - r.(rpos) < Z.of_nat fuel ->
  yields (push_varints fuel r n m) (unchanged o s n m).
Proof.
  intros Hm Hc Ef Hk. revert m r Hm Hc. induction fuel as [|fuel IH]; intros m r Hm Hc Hr Hf; [unfold reader_ok in Hr; lia|].
  cbn [push_varints]. destruct (_ <? _).
  2:{ split; [|done]. split_and!; [done|lia..]. }
  unfold varint. destruct (varint_loop _ _ r) as [[v r']|e|] eqn:Ev; [|done|by apply varint_loop_not_fuel in Ev].
  apply varint_loop_ok in Ev as [[Hb Hp] _]; [|done..].
  eapply yields_let; [eapply push_number; eassumption|]. intros m1 [Hg1 Hc1]. pose proof (proj1 Hg1) as Hm1.
  specialize (IH m1 r' Hm1 Hc1 ltac:(unfold reader_ok in *; rewrite Hb; lia) ltac:(rewrite Hb; lia)).
  destruct (push_varints fuel r' n m1) as [m2| |]; [|done..]. destruct IH as [Hg2 Hc2].
  split; [|done]. exact (grown_trans _ _ _ _ _ _ _ _ _ _ _ Hg1 Hg2).
Qed.

Lemma push_words_ok o s n name kind m b : map_ok o s m -> chosen s n m -> field s n = Some (name, kind, true) ->
  is_packed kind = true -> yields (push_words b n m) (unchanged o s n m).
Proof.
  intros Hm Hc Ef Hk. unfold push_words. revert m Hm Hc. induction (chunks8 b) as [|c cs IH]; intros m Hm Hc; cbn [foldM].
  { split; [|done]. split_and!; [done|lia..]. }
  eapply yields_let; [eapply push_number; eassumption|]. intros m1 [Hg1 Hc1]. specialize (IH m1 (proj1 Hg1) Hc1).
  destruct (foldM _ m1 cs) as [m2| |]; [|done..]. destruct IH as [Hg2 Hc2].
  split; [|done]. exact (grown_trans _ _ _ _ _ _ _ _ _ _ _ Hg1 Hg2).
Qed.

Lemma ensure_many_ok o s n name kind m : map_ok o s m -> chosen s n m -> field s n = Some (name, kind, true) ->
  unchanged o s n m (ensure_many m n).
Proof.
  intros Hm Hc Ef. unfold ensure_many, unchanged. destruct (find n m) eqn:En.
  { split; [|done]. split_and!; [done|lia..]. }
  apply put_grown; [done|done| |..]; rewrite ?En; cbn [from_option].
  - unfold entry_ok. cbn [fst snd]. rewrite Ef. by apply many_ok_iff.
  - by unfold field_weight; rewrite weigh_many.
  - by unfold field_weight; rewrite weigh_many.
  - unfold pair_items. rewrite Ef. destruct kind as [[]| | | | | | | | | | | | | |]; cbn; len_lia.
Qed.

Lemma scalar_grown o s n name kind many m v : map_ok o s m -> chosen s n m -> field s n = Some (name, kind, many) ->
  item_ok (child_options s n o) kind (Scalar v) ->
  yields (if many then push m n (Scalar v) else Ok (put n (Single (Scalar v)) m))
    (fun m' => grown o s m m' (if attribute s then scalar_bytes kind v else 0) 0 0).
Proof.
  intros Hm Hc Ef Hi. assert (Hk : is_pair kind = 0) by (destruct Hi as [Hi _]; by destruct kind). destruct many.
  - destruct (push_grown o s n name kind m (Scalar v) Hm Hc Ef Hi) as (m' & -> & Hg & _).
    rewrite !weight_scalar, Hk in Hg. cbn [yields]. by destruct (attribute s).
  - assert (Hold : forall w, (forall n v, 0 <= w n v) -> 0 <= from_option (w n) 0 (find n m))
      by (intros w Hw; destruct (find n m); [apply Hw|done]).
    apply put_grown; [done|done| |..].
    + unfold entry_ok. cbn [fst snd]. by rewrite Ef.
    + unfold field_weight at 1. rewrite (kind_of_field _ _ _ _ _ Ef), weight_single, weight_scalar.
      specialize (Hold (field_weight byte_leaf 0 s) ltac:(auto with pulso)). cbn [byte_leaf]. lia.
    + unfold field_weight at 1. rewrite weight_single, weight_scalar.
      specialize (Hold (field_weight (fun _ _ => 0) 1 s) ltac:(auto with pulso)). destruct (attribute s); lia.
    + unfold pair_items at 1. rewrite Ef. specialize (Hold (pair_items s) ltac:(auto with pulso)).
      destruct kind as [[]| | | | | | | | | | | | | |]; lia.
Qed.

(** What a merge promises of the plan it returns and of its charge. *)
Definition self_node (s : Schema) : Z := if attribute s then 1 else 0.
Definition merged (o : Options) (p : Plan) (x : Plan * Charge) : Prop :=
  let '(q, c) := x in
  p_schema q = p_schema p /\ plan_ok o q /\ 0 <= c.(c_bytes) /\ 0 <= c.(c_nodes) /\
  byte_weight q <= byte_weight p + c.(c_bytes) /\ node_weight q + self_node (p_schema p) <= node_weight p + c.(c_nodes).

(** Machine-sized limits below saturation. *)
Definition bounded (o : Options) : Prop := 0 <= o.(opt1) < U64_MAX /\ 0 <= o.(opt4) < U64_MAX /\ 0 <= o.(opt6) < U64_MAX.

Lemma child_bounded s n o : bounded o -> bounded (child_options s n o).
Proof. unfold bounded, child_options. destruct (_ && _); [|done]. cbn. unfold MAX_BODY, U64_MAX. lia. Qed.

Lemma plan_new_ok o s : bounded o -> plan_ok o (Plan_new s).
Proof.
  intros Ho. apply plan_ok_iff. unfold bounded, within in *. split; [|cbn; lia].
  split_and!; [constructor|by intros e f Hin%not_elem_of_nil|constructor].
Qed.

Section Step.
Variable recurse : Plan -> bytes -> Options -> res Error (Plan * Charge).
Variable T : Schema -> bytes -> Prop.
Hypothesis recurse_ok : forall p b o, bounded o -> plan_ok o p -> T (p_schema p) b -> yields (recurse p b o) (merged o p).

Lemma message_weight o p q c context name n s many : field s n = Some (name, Message (p_schema p), many) ->
  attribute s = context -> merged o p (q, c) ->
  let added w := if context || bool_decide (p_schema p = Pair) then w else 0 in
  item_weight byte_leaf 0 context (Some (Message (p_schema p))) (MessageItem q) <=
    added (byte_weight p) + added c.(c_bytes) /\
  item_weight (fun _ _ => 0) 1 context (Some (Message (p_schema p))) (MessageItem q) <=
    added (node_weight p) + added c.(c_nodes).
Proof.
  intros Ef <- (Es & _ & Hb & Hn & Gb & Gn). cbv zeta. rewrite !weight_message, Es.
  destruct (attribute s || _) eqn:Ec; [|lia].
  assert (Ha : attribute (p_schema p) = true).
  { apply orb_true_iff in Ec as [Ha|Hp]; [by eapply attribute_child|]. apply bool_decide_eq_true in Hp. by rewrite Hp. }
  unfold self_node in Gn. rewrite Ha in Gn. fold (byte_weight q) (node_weight q). lia.
Qed.

Lemma merge_message_ok o s n name m child many b : bounded o -> map_ok o s m -> chosen s n m ->
  field s n = Some (name, Message child, many) -> T child b ->
  yields (merge_message recurse s m n child many b (child_options s n o)) (fun '(m', added) =>
    let gain w := if attribute s || bool_decide (child = Pair) then w else 0 in
    0 <= added.(c_bytes) /\ 0 <= added.(c_nodes) /\
    grown o s m m' (gain added.(c_bytes)) (gain added.(c_nodes)) (is_pair (Message child))).
Proof.
  intros Ho Hm Hc Ef Ht. pose proof (child_bounded s n o Ho) as Hco. unfold merge_message. destruct many.
  - pose proof (recurse_ok (Plan_new child) b (child_options s n o) Hco (plan_new_ok _ _ Hco) Ht) as Hr.
    destruct (recurse _ _ _) as [[q c]| |]; [|done..]. cbn [yields] in Hr.
    pose proof (message_weight _ (Plan_new child) q c _ name n s true Ef eq_refl Hr) as [Wb Wn].
    destruct Hr as (Es & Hq & Hb & Hn & _).
    destruct (push_grown o s n name (Message child) m (MessageItem q) Hm Hc Ef) as (m' & -> & Hg & _).
    { cbn. rewrite Es. done. }
    cbn [yields]. split_and!; [done|done|]. destruct Hg as (? & ? & ? & ?). cbn [p_schema Plan_new] in *.
    change (byte_weight (Plan_new child)) with 0 in Wb. change (node_weight (Plan_new child)) with 0 in Wn.
    split_and!; [done| | |done]; destruct (attribute s || _); lia.
  - set (old := find n m) in *.
    assert (Hold : exists p, default (Single (MessageItem (Plan_new child))) old = Single (MessageItem p) /\ p_schema p = child /\
      plan_ok (child_options s n o) p /\
      (forall leaf self, (if attribute s || bool_decide (child = Pair) then weigh leaf self p else 0) +
         (if attribute s || bool_decide (child = Pair) then match old with Some _ => self | None => 0 end else 0) =
         from_option (field_weight leaf self s n) 0 old)).
    { subst old. destruct (find n m) as [v|] eqn:En.
      - pose proof (entry_find _ _ _ _ _ Hm En) as He. unfold entry_ok in He. cbn [fst snd] in He. rewrite Ef in He.
        destruct v as [[v|p]|l]; [by destruct He as [_ [? _]]| |by destruct He].
        destruct He as (_ & [= Hs] & Hp). exists p. split_and!; [done|done|done|]. intros leaf self. cbn [from_option].
        unfold field_weight. rewrite weight_single, weight_message, <- Hs. destruct (attribute s || _); lia.
      - exists (Plan_new child). split_and!; [done|done|by apply plan_new_ok|]. intros leaf self. cbn. by destruct (attribute s || _). }
    destruct Hold as (p & -> & Hs & Hp & Hw). subst child.
    pose proof (recurse_ok p b (child_options s n o) Hco Hp Ht) as Hr.
    destruct (recurse _ _ _) as [[q c]| |]; [|done..]. cbn [yields] in Hr |- *.
    pose proof (message_weight _ p q c _ name n s false Ef eq_refl Hr) as [Wb Wn].
    destruct Hr as (Es & Hq & Hb & Hn & Gb & Gn). split_and!; [done|done|].
    apply put_grown; [done|done| |..].
    + unfold entry_ok. cbn [fst snd]. rewrite Ef. cbn [values_ok item_ok]. by rewrite Es.
    + fold old. rewrite <- Hw. unfold field_weight. rewrite (kind_of_field _ _ _ _ _ Ef), weight_single. fold (byte_weight p).
      revert Wb. destruct (attribute s || _), old; lia.
    + fold old. rewrite <- Hw. unfold field_weight. rewrite (kind_of_field _ _ _ _ _ Ef), weight_single. fold (node_weight p).
      revert Wn. destruct (attribute s || _), old; lia.
    + unfold pair_items at 1. rewrite Ef. assert (0 <= from_option (pair_items s n) 0 (find n m))
        by (destruct (find n m); [apply pair_items_nonneg|done]). destruct (p_schema p); cbn [is_pair]; lia.
Qed.

(** The state of the loop over the fields of one message merged into [p0]. *)
Definition merging (o : Options) (p0 : Plan) (x : Plan * Charge) : Prop :=
  let '(q, c) := x in
  let s := p_schema p0 in
  p_schema q = s /\ p_supplied q = p_supplied p0 /\ map_ok o s (p_fields q) /\
  pairs_of s (p_fields q) <= p_pairs q <= o.(opt1) /\ 0 <= c.(c_bytes) /\ 0 <= c.(c_nodes) /\
  bytes_of s (p_fields q) <= bytes_of s (p_fields p0) + c.(c_bytes) /\
  nodes_of s (p_fields q) + self_node s <= nodes_of s (p_fields p0) + c.(c_nodes).

Definition supplied_ok (p : Plan) : Prop := 0 <= (p_supplied p).(c_bytes) /\ 0 <= (p_supplied p).(c_nodes).

Lemma over_add a c o : bounded o -> 0 <= a.(c_bytes) -> 0 <= a.(c_nodes) -> over (charge_add a c) o = false ->
  a.(c_bytes) + c.(c_bytes) <= o.(opt4) /\ a.(c_nodes) + c.(c_nodes) <= o.(opt6).
Proof. unfold bounded, over, charge_add, sat_u64. cbn. intros. bools. lia. Qed.

(** A field that was charged for what it added keeps the invariant. *)
Lemma merging_step o p0 q c m' c' gb gn gp pairs : bounded o -> supplied_ok p0 -> merging o p0 (q, c) ->
  grown o (p_schema p0) (p_fields q) m' gb gn gp -> 0 <= gb -> 0 <= gn ->
  Z.min (c.(c_bytes) + gb) U64_MAX <= c'.(c_bytes) -> Z.min (c.(c_nodes) + gn) U64_MAX <= c'.(c_nodes) ->
  p_pairs q + gp <= pairs <= o.(opt1) ->
  yields (let? (p, charge) := Ok (mkPlan (p_schema p0) m' (p_supplied q) pairs, c') in
          if over (charge_add (p_supplied p) charge) o then Err AttributesTooLarge else Ok (p, charge)) (merging o p0).
Proof.
  intros Ho [Sb Sn] (Es & Ep & Hm & Hp & Cb & Cn & Gb & Gn) (Hm' & Gb' & Gn' & Gp') Hgb Hgn Hb Hn Hpairs.
  cbn [p_supplied]. destruct (over _ o) eqn:Eo; [done|]. rewrite Ep in Eo. apply over_add in Eo as [Ob On]; [|done..].
  unfold bounded in Ho. cbn [yields merging p_schema p_supplied p_fields p_pairs]. split_and!; try done; lia.
Qed.

Lemma merge_field_ok o p0 x f : bounded o -> supplied_ok p0 -> merging o p0 x ->
  match field (p_schema p0) (fst (fst f)) with
  | None => True
  | Some (_, Message c, _) => match snd f with Data b => T c b | Number _ => False end
  | Some (_, kind, _) => is_packed kind || Bool.eqb (is_data (snd f)) (is_text kind) = true
  end ->
  yields (merge_field recurse o x (fst (fst f)) (snd (fst f)) (snd f)) (merging o p0).
Proof.
  intros Ho Hs Hx Ht. destruct x as [q c], f as [[n wire] v]. cbn [fst snd] in *. unfold merge_field.
  pose proof Hx as (Es & _ & Hm & Hp & Cb & Cn & _). rewrite Es.
  destruct (field (p_schema p0) n) as [[[name kind] many]|] eqn:Ef; [|done].
  destruct (retain_ok o _ n _ Hm) as [Hg Hc]. pose proof (proj1 Hg) as Hm1. set (m := retain _ n (p_fields q)) in *.
  assert (Hflat : forall m', unchanged o (p_schema p0) n m m' ->
    yields (let? (p, charge) := Ok (with_fields q m', c) in
            if over (charge_add (p_supplied p) charge) o then Err AttributesTooLarge else Ok (p, charge)) (merging o p0)).
  { intros m' [Hg' _]. unfold with_fields. rewrite Es.
    eapply merging_step; [done|done|done|exact (grown_trans _ _ _ _ _ _ _ _ _ _ _ Hg Hg')|lia..]. }
  destruct (is_packed kind && is_data v) eqn:Ek.
  - bools. assert (many = true) as -> by (by eapply packed_context).
    assert (Hens : forall r, yields r (unchanged o (p_schema p0) n m) -> yields
      (let? (p, charge) := let? m' := r in Ok (with_fields q (ensure_many m' n), c) in
       if over (charge_add (p_supplied p) charge) o then Err AttributesTooLarge else Ok (p, charge)) (merging o p0)).
    { intros [m1|e|] Hr; [|done..]. destruct Hr as [Hg1 Hc1]. apply Hflat.
      destruct (ensure_many_ok o _ n name kind m1 (proj1 Hg1) Hc1 Ef) as [Hg2 Hc2]. split; [|done].
      exact (grown_trans _ _ _ _ _ _ _ _ _ _ _ Hg1 Hg2). }
    destruct v as [k|b]; [done|]. destruct kind; try done.
    + apply Hens. eapply push_words_ok; eassumption || done.
    + destruct (packed_varints b) as [z|e|] eqn:Epv; [|done|by apply packed_loop_not_fuel in Epv]. apply Hens.
      eapply push_varints_ok; try eassumption; [unfold reader_ok; cbn; len_lia|cbn [rbytes rpos]; unfold len; lia].
    + apply Hens. eapply push_words_ok; eassumption || done.
  - destruct (is_message kind) eqn:Em.
    + destruct kind as [child| | | | | | | | | | | | | |]; try discriminate Em. destruct v as [k|b]; [done|].
      pose proof (merge_message_ok o _ n name m child many b Ho Hm1 Hc Ef Ht) as Hr.
      destruct (merge_message _ _ _ _ _ _ _ _) as [[m' added]|e|]; [|done..]. destruct Hr as (Ab & An & Hg').
      assert (Hpairs : yields (if bool_decide (child = Pair) then
                 let k := sat_u64 (p_pairs q + 1) in if opt1 o <? k then Err AttributesTooLarge else Ok k
               else Ok (p_pairs q)) (fun k => p_pairs q + is_pair (Message child) <= k <= o.(opt1))).
      { unfold bounded in Ho. destruct (bool_decide (child = Pair)) eqn:Ec.
        - apply bool_decide_eq_true in Ec as ->. cbv zeta. destruct (opt1 o <? _) eqn:El; [done|]. bools. cbn. unfold sat_u64 in *. lia.
        - apply bool_decide_eq_false in Ec. cbn. destruct child; try done; lia. }
      match type of Hpairs with yields ?r _ => destruct r as [k|e|]; [|done..] end. cbn [yields] in Hpairs.
      eapply merging_step; [done|done|done|exact (grown_trans _ _ _ _ _ _ _ _ _ _ _ Hg Hg')|..];
        destruct (attribute _ || _); try lia; cbn [charge_add c_bytes c_nodes]; unfold sat_u64; lia.
    + set (c1 := if attribute (p_schema p0) then _ else c).
      assert (Hc1 : Z.min (c_bytes c + (if attribute (p_schema p0) then scalar_bytes kind v else 0)) U64_MAX <= c_bytes c1 /\
        c_nodes c1 = c_nodes c).
      { pose proof (byte_leaf_nonneg (Some kind) v). cbn in *. subst c1. destruct (attribute _); cbn; unfold sat_u64; lia. }
      assert (Hi : item_ok (child_options (p_schema p0) n o) kind (Scalar v)).
      { split; [done|]. destruct kind; try discriminate Em; destruct v; done. }
      assert (Hstep : forall m', grown o (p_schema p0) m m' (if attribute (p_schema p0) then scalar_bytes kind v else 0) 0 0 ->
        yields (let? (p, charge) := Ok (with_fields q m', c1) in
            if over (charge_add (p_supplied p) charge) o then Err AttributesTooLarge else Ok (p, charge)) (merging o p0)).
      { intros m' Hg'. unfold with_fields. rewrite Es. pose proof (byte_leaf_nonneg (Some kind) v) as Hk. cbn in Hk.
        eapply merging_step; [done|done|done|exact (grown_trans _ _ _ _ _ _ _ _ _ _ _ Hg Hg')|..];
          destruct (attribute _); lia. }
      assert (Hfin : yields (let? (p, charge) := let? m' := if many then push m n (Scalar v) else Ok (put n (Single (Scalar v)) m) in
              Ok (with_fields q m', c1) in
            if over (charge_add (p_supplied p) charge) o then Err AttributesTooLarge else Ok (p, charge)) (merging o p0)).
      { pose proof (scalar_grown o _ n name kind many m v Hm1 Hc Ef Hi) as Hr.
        destruct (if many then _ else _) as [m'|e|]; [|done..]. by apply Hstep. }
      destruct kind, v; try discriminate Em; try discriminate Ek; exact Hfin.
Qed.
End Step.

(** ** One message *)

Lemma plan_supplied_ok o p : plan_ok o p -> supplied_ok p.
Proof.
  destruct p as [s m c n]. intros (_ & _ & Hb & Hn & _)%plan_ok_iff. unfold supplied_ok. cbn [p_supplied].
  pose proof (weigh_nonneg byte_leaf 0 (mkPlan s m c n) byte_leaf_nonneg ltac:(done)).
  pose proof (weigh_nonneg (fun _ _ => 0) 1 (mkPlan s m c n) ltac:(done) ltac:(done)). unfold byte_weight, node_weight in *. lia.
Qed.

Lemma weights_of p : byte_weight p = bytes_of (p_schema p) (p_fields p) /\ node_weight p = nodes_of (p_schema p) (p_fields p).
Proof. destruct p. unfold byte_weight, node_weight. by rewrite !weigh_fields. Qed.

(** The end of a message: what it supplied is added to its owner. *)
Lemma merging_done o p0 q c : bounded o -> plan_ok o p0 -> merging o p0 (q, c) ->
  over (charge_add (p_supplied q) c) o = false ->
  merged o p0 (mkPlan (p_schema q) (p_fields q) (charge_add (p_supplied q) c) (p_pairs q), c).
Proof.
  intros Ho Hp (Es & Ep & Hm & Hk & Cb & Cn & Gb & Gn) Hover. destruct (plan_supplied_ok _ _ Hp) as [Sb Sn].
  rewrite Ep in *. destruct (over_add _ _ _ Ho Sb Sn Hover) as [Ob On]. destruct (weights_of p0) as [W1 W2].
  assert (Eadd : charge_add (p_supplied p0) c = mkCharge (c_bytes (p_supplied p0) + c_bytes c) (c_nodes (p_supplied p0) + c_nodes c)).
  { unfold charge_add, sat_u64, bounded in *. f_equal; lia. }
  set (q' := mkPlan _ _ _ _). destruct (weights_of q') as [V1 V2].
  assert (Hle : byte_weight p0 <= c_bytes (p_supplied p0) /\ node_weight p0 <= c_nodes (p_supplied p0))
    by (destruct p0; apply plan_ok_iff in Hp; cbn; tauto).
  assert (Hs : 0 <= self_node (p_schema p0)) by (unfold self_node; destruct (attribute _); lia).
  cbn [p_schema p_fields q'] in V1, V2. rewrite Es in V1, V2. unfold merged. cbn [p_schema q'].
  split_and!; try done; [|lia..]. subst q'. apply plan_ok_iff. rewrite Es, Eadd in *. unfold within, pairs_of in *. cbn [c_bytes c_nodes].
  split_and!; try done; lia.
Qed.

Lemma merge_ok fuel p b o : bounded o -> plan_ok o p -> typed fuel (p_schema p) b -> yields (merge fuel p b o) (merged o p).
Proof.
  revert p b o. induction fuel as [|fuel IH]; intros p b o Ho Hp Ht; [done|]. destruct Ht as [Hok Hf].
  cbn [merge]. rewrite while_next_admitted by done. destruct p as [s m sup n] eqn:Eplan.
  pose proof (plan_supplied_ok _ _ Hp) as Hs. cbn [p_schema] in Hf. rewrite <- Eplan in *.
  assert (Hloop : forall x, merging o p x -> yields
    (foldM (fun a f => merge_field (merge fuel) o a (fst (fst f)) (snd (fst f)) (snd f)) x (fields_of b)) (merging o p)).
  { assert (Es : p_schema p = s) by by rewrite Eplan. clear -Hf IH Ho Hs Es. induction Hf as [|f fs Hf Hfs IHf]; intros x Hx; [done|].
    cbn [foldM]. rewrite <- Es in Hf. eapply yields_let; [eapply merge_field_ok; eassumption|]. exact IHf. }
  eapply yields_let; [apply Hloop|].
  - assert (Hp' := Hp). rewrite Eplan in Hp'. apply plan_ok_iff in Hp' as (Hm & Hk & _). unfold merging, pairs_of, self_node.
    rewrite Eplan. cbn [p_schema p_supplied p_fields p_pairs c_bytes c_nodes]. split_and!; try done; destruct (attribute s); lia.
  - intros [q c] Hq. destruct (over _ _) eqn:Eo; [done|]. by apply merging_done.
Qed.

(** * Terms *)

Fixpoint entries_terms (s : Schema) (l : omap Z Values) : res Error (list (Term * Term)) :=
  match l with
  | [] => Ok []
  | (number, vs) :: l =>
      let? (name, kind, _) := ok_or (field s number) InvalidProtobuf in
      let? v := values_term kind vs in
      let? rest := entries_terms s l in Ok ((binary name, v) :: rest)
  end.

Fixpoint items_terms (kind : Kind) (l : list Item) : res Error (list Term) :=
  match l with
  | [] => Ok []
  | item :: l => let? t := item_term kind item in let? ts := items_terms kind l in Ok (t :: ts)
  end.

Lemma materialize_eq s m c n : materialize (mkPlan s m c n) =
  let? entries := entries_terms s m in
  match map_from_arrays (map fst entries) (map snd entries) with Ok t => Ok t | _ => Err InvalidProtobuf end.
Proof.
  cbn [materialize]. match goal with |- (let? entries := ?g in _) = _ => assert (G : g = entries_terms s m); [|by rewrite G] end.
  induction m as [|[k vs] m IH]; [done|]. by rewrite IH.
Qed.

Lemma values_term_many kind l : values_term kind (Many l) = let? ts := items_terms kind l in Ok (List ts).
Proof.
  cbn [values_term]. match goal with |- (let? ts := ?g in _) = _ => assert (G : g = items_terms kind l); [|by rewrite G] end.
  induction l as [|i l IH]; [done|]. by rewrite IH.
Qed.

Definition field_name (s : Schema) (n : Z) : bytes := match field s n with Some (name, _, _) => name | None => [] end.

Lemma scalar_term_ok kind v : is_message kind = false -> is_data v = is_text kind -> exists t, scalar_term kind v = Ok t.
Proof. intros Hm Hd. destruct v as [n|b]; [by eexists|]. destruct kind; try discriminate Hd; try discriminate Hm; by eexists. Qed.

Lemma values_term_ok o kind many vs : values_ok o kind many vs ->
  (forall q o, holds vs q -> plan_ok o q -> exists t, materialize q = Ok t) -> exists t, values_term kind vs = Ok t.
Proof.
  assert (Hitem : forall i o, item_ok o kind i -> (forall q, i = MessageItem q -> forall o, plan_ok o q -> exists t, materialize q = Ok t) ->
    exists t, item_term kind i = Ok t).
  { intros [v|q] o' Hi Hq; [destruct Hi; by apply scalar_term_ok|]. destruct Hi as [_ Hp]. by apply (Hq q eq_refl o'). }
  destruct vs as [i|l]; intros Hv Hh.
  - destruct Hv as [_ Hi]. apply (Hitem i o Hi). intros q -> o'. by apply Hh.
  - apply many_ok_iff in Hv as [_ Hi]. rewrite values_term_many.
    enough (exists ts, items_terms kind l = Ok ts) as [ts ->] by by eexists.
    cbn [holds] in Hh. induction Hi as [|i l Hi Hl IH]; [by eexists|]. cbn [items_terms].
    destruct (Hitem i o Hi) as [t ->]; [intros q -> o'; by apply Hh, list_elem_of_here|].
    destruct IH as [ts ->]; [intros q o' Hin; by apply Hh, list_elem_of_further|]. by eexists.
Qed.

Lemma entries_terms_ok o s m : Forall (entry_ok o s) m ->
  (forall k vs q o, (k, vs) ∈ m -> holds vs q -> plan_ok o q -> exists t, materialize q = Ok t) ->
  exists es, entries_terms s m = Ok es /\ map fst es = map (fun e => binary (field_name s (fst e))) m.
Proof.
  intros He. induction He as [|[n vs] m He Hm IH]; intros Hh; [by exists []|]. cbn [entries_terms].
  unfold entry_ok in He. cbn [fst snd] in He. unfold field_name. cbn [map fst].
  destruct (field s n) as [[[name kind] many]|] eqn:Ef; [|done].
  cbn [ok_or]. destruct (values_term_ok _ _ _ _ He) as [t ->]; [intros q o'; apply (Hh n vs), list_elem_of_here|].
  destruct IH as (es & -> & Hes); [intros k vs' q o' Hin; by apply (Hh k vs'), list_elem_of_further|].
  eexists. split; [done|]. cbn [map fst]. by rewrite Hes.
Qed.

Lemma names_nodup s m o : ordered m -> Forall (entry_ok o s) m -> NoDup (map (fun e : Z * Values => binary (field_name s (fst e))) m).
Proof.
  intros Ho He. apply ordered_nodup in Ho. unfold keys in Ho. induction m as [|[n vs] m IH]; [constructor|].
  cbn [map fst] in *. apply list.NoDup_cons in Ho as [Hn Ho]. apply Forall_cons_1 in He as [He Hes]. apply list.NoDup_cons.
  split; [|by apply IH]. intros Hin. apply Hn. apply list_elem_of_In, in_map_iff in Hin as ([k w] & E & Hin).
  apply list_elem_of_In in Hin. rewrite list.Forall_forall in Hes. specialize (Hes _ Hin). unfold entry_ok, field_name, binary in *.
  cbn [fst snd] in *. destruct (field s n) as [[[a ka] ma]|] eqn:E1; [|done]. destruct (field s k) as [[[b kb] mb]|] eqn:E2; [|done].
  injection E as ->. rewrite (field_name_inj _ _ _ _ _ _ _ _ E1 E2). apply list_elem_of_In, in_map_iff. exists (k, w). split; [done|].
  by apply list_elem_of_In.
Qed.

Lemma materialize_total p : forall o, plan_ok o p -> exists values,
  materialize p = Ok (Map (zip (map (fun e => binary (field_name (p_schema p) (fst e))) (p_fields p)) values)) /\
  length values = length (p_fields p).
Proof.
  induction p as [s m c n IH] using plan_induction. intros o Hp. apply plan_ok_iff in Hp as ((Ho & _ & He) & _).
  destruct (entries_terms_ok o s m He) as (es & Ees & Hes).
  { intros k vs q o' Hin Hq Hp. destruct (IH k vs q Hin Hq o' Hp) as (v & -> & _). by eexists. }
  rewrite materialize_eq, Ees. unfold map_from_arrays. rewrite Hes.
  rewrite bool_decide_eq_true_2 by (by eapply names_nodup). exists (map snd es). split; [done|].
  cbn [p_fields]. rewrite length_map. apply (f_equal length) in Hes. by rewrite !length_map in Hes.
Qed.

(** C9. The OTLP decoder always answers on input the preflight admitted. When
    the merge succeeds, its plan agrees with the schema at every level: field
    numbers are known and in order, repeated fields hold lists and others
    single values, at most one alternative of a choice is set, every attribute
    list has at most [opt1] pairs, and each owner holds at most [opt4] bytes
    and [opt6] nodes of attributes ([MAX_BODY] bytes for a log body), however
    the input split, repeated or replaced them; and the answer is then a map
    from the names of exactly those fields. *)
Theorem otlp_decode_within (input : bytes) (o : Options) (s : Schema) :
  bounded o -> preflight_signal input o s = Ok tt ->
  match merge (S (length input)) (Plan_new s) input o with
  | Ok (p, _) =>
      plan_ok o p /\
      exists values, length values = length (p_fields p) /\ decode_signal input o s =
        Ok (Map (zip (map (fun e => Binary (field_name s (fst e))) (p_fields p)) values))
  | Err e => decode_signal input o s = Err e
  | Fuel => False
  end.
Proof.
  intros Ho E. assert (Ht : typed (S (length input)) s input).
  { unfold preflight_signal in E. destruct (preflight _ _ _ _ _ _) as [x| |] eqn:Ep; [|done..]. by eapply preflight_typed. }
  unfold decode_signal, decode. rewrite E.
  pose proof (merge_ok (S (length input)) (Plan_new s) input o Ho (plan_new_ok o s Ho) Ht) as H.
  destruct (merge _ _ _ _) as [[p c]|e|]; [|done..]. destruct H as (Es & Hp & _). split; [done|].
  destruct (materialize_total p o Hp) as (vs & -> & Hl). exists vs. split; [done|]. by rewrite Es.
Qed.


(** * Concatenation

    Protobuf merges a message given in parts: reading the concatenation of two
    encodings is reading the first and then the second. *)

(** [r], with the text before and after its input. *)
Definition inside (pre post : bytes) (r : Reader) : Reader :=
  mkReader (pre ++ r.(rbytes) ++ post) (len pre + r.(rpos)).

Section Inside.
Variables pre post b : bytes.
Hypothesis fits : len pre + len b + len post <= U64_MAX.

Lemma slice_inside i j : 0 <= i -> i <= j -> j <= len b -> slice (pre ++ b ++ post) (len pre + i) (len pre + j) = slice b i j.
Proof.
  intros Hi Hij Hj. unfold slice. replace (Z.to_nat (len pre + j - (len pre + i))) with (Z.to_nat (j - i)) by lia.
  replace (Z.to_nat (len pre + i)) with (length pre + Z.to_nat i)%nat by (unfold len; lia).
  rewrite drop_app_add, drop_app_le by (unfold len in *; lia).
  rewrite take_app_le; [done|]. rewrite length_drop. unfold len in *. lia.
Qed.

Lemma take_inside r n x r' : r.(rbytes) = b -> OtlpTraces.take r n = Ok (x, r') ->
  OtlpTraces.take (inside pre post r) n = Ok (x, inside pre post r') /\ r'.(rbytes) = b.
Proof.
  intros Hb E. apply take_ok in E as (Er & Ep & H1 & H2 & Ex & Hl). rewrite Hb in *. split; [|done].
  unfold OtlpTraces.take, inside. cbn [rbytes rpos]. rewrite Hb, Er, Ep in *. unfold checked_u64.
  rewrite (proj2 (Z.leb_le 0 _)) by len_lia. rewrite (proj2 (Z.leb_le _ U64_MAX)) by len_lia. cbn [andb ok_or].
  unfold get_range. rewrite !(proj2 (Z.leb_le _ _)) by len_lia. cbn [andb ok_or].
  replace (len pre + rpos r + n) with (len pre + (rpos r + n)) by lia. rewrite slice_inside by lia.
  by rewrite Ex.
Qed.

Lemma varint_inside shs v r v' r' : r.(rbytes) = b -> varint_loop shs v r = Ok (v', r') ->
  varint_loop shs v (inside pre post r) = Ok (v', inside pre post r') /\ r'.(rbytes) = b.
Proof.
  revert v r. induction shs as [|sh shs IH]; intros v r Hb E; [done|]. cbn [varint_loop] in *.
  destruct (OtlpTraces.take r 1) as [[t r1]| |] eqn:Et; [|done..]. apply take_inside in Et as [-> Hb1]; [|done].
  destruct (_ && _); [done|]. destruct (_ <? 128); [by injection E as <- <-|]. by apply IH.
Qed.

Lemma next_inside r f r' : reader_ok r -> r.(rbytes) = b -> next r = Ok (Some f, r') ->
  next (inside pre post r) = Ok (Some f, inside pre post r') /\ r'.(rbytes) = b.
Proof.
  intros Hr Hb E. assert (Hlt : rpos r <> len b) by (intros Hl; unfold next in E; rewrite Hb, Hl, Z.eqb_refl in E; done).
  assert (Hin : (rpos (inside pre post r) =? len (rbytes (inside pre post r))) = false).
  { apply Z.eqb_neq. unfold inside. cbn [rbytes rpos]. unfold reader_ok in Hr. rewrite Hb in *. len_lia. }
  unfold next, varint in *. rewrite Hin. rewrite Hb, (proj2 (Z.eqb_neq _ _) Hlt) in E.
  destruct (varint_loop shifts 0 r) as [[key r1]| |] eqn:E1; [|done..]. apply varint_inside in E1 as [-> Hb1]; [|done].
  destruct (_ || _); [done|].
  repeat match type of E with
  | context [if ?c then _ else _] => destruct c
  | context [varint_loop ?a ?x ?y] => let E := fresh "E" in destruct (varint_loop a x y) as [[? ?]| |] eqn:E;
      [apply varint_inside in E as [-> ?]; [|done]|done..]
  | context [OtlpTraces.take ?x ?y] => let E := fresh "E" in destruct (OtlpTraces.take x y) as [[? ?]| |] eqn:E;
      [apply take_inside in E as [-> ?]; [|done]|done..]
  end; try done; by injection E as <- <-.
Qed.

(** The fields of [b] come first, then those after it. *)
Lemma next_list_inside fuel r fs k : reader_ok r -> r.(rbytes) = b -> next_list fuel r = (fs, true) ->
  next_list (length fs + k) (inside pre post r) =
  let (gs, ok) := next_list k (mkReader (pre ++ b ++ post) (len pre + len b)) in (fs ++ gs, ok).
Proof.
  revert r fs. induction fuel as [|fuel IH]; intros r fs Hr Hb E; [done|]. cbn [next_list] in E.
  destruct (next r) as [[[f|] r']|e|] eqn:En; [| |done..].
  - pose proof En as Ha. destruct f as [[? ?] ?]. apply next_ok in Ha as ([Hb' Hp] & _); [|done].
    apply next_inside in En as [En Hb1]; [|done..]. destruct (next_list fuel r') as [gs ok] eqn:El. injection E as <- ->.
    cbn [length Nat.add next_list]. rewrite En. rewrite (IH r' gs); [|unfold reader_ok in *; rewrite Hb'; lia|done|done].
    by destruct (next_list k _).
  - injection E as <-. cbn [length Nat.add app]. unfold next in En. destruct (Z.eqb_spec (rpos r) (len (rbytes r))) as [Ep|].
    + unfold inside. rewrite Ep, Hb. by destruct (next_list k _).
    + destruct (varint r) as [[key r1]| |]; [|done..]. destruct (_ || _); [done|].
      match type of En with (let? x := ?m in _) = _ => by destruct m as [[? ?]| |] end.
Qed.
End Inside.

Lemma next_list_length fuel r fs : reader_ok r -> next_list fuel r = (fs, true) ->
  len fs <= len r.(rbytes) - r.(rpos).
Proof.
  revert r fs. induction fuel as [|fuel IH]; intros r fs Hr E; [done|]. cbn [next_list] in E.
  destruct (next r) as [[[[[n w] v]|] r']|e|] eqn:En; [| |done..].
  - apply next_ok in En as ([Hb Hp] & _); [|done]. destruct (next_list fuel r') as [gs ok] eqn:El. injection E as <- ->.
    apply IH in El; [|unfold reader_ok in *; rewrite Hb; lia]. rewrite Hb in El. unfold Field in *. len_lia.
  - injection E as <-. unfold reader_ok in Hr. len_lia.
Qed.

Definition complete (b : bytes) : Prop := snd (next_list (S (length b)) (mkReader b 0)) = true.

Lemma fields_app b1 b2 : len b1 + len b2 <= U64_MAX -> complete b1 -> complete b2 ->
  complete (b1 ++ b2) /\ fields_of (b1 ++ b2) = fields_of b1 ++ fields_of b2.
Proof.
  intros Hl H1 H2. unfold complete, fields_of in *.
  destruct (next_list (S (length b1)) _) as [f1 o1] eqn:E1. destruct (next_list (S (length b2)) _) as [f2 o2] eqn:E2.
  cbn [fst snd] in *. subst o1 o2.
  assert (R1 : reader_ok (mkReader b1 0)) by (unfold reader_ok; cbn; len_lia).
  assert (R2 : reader_ok (mkReader b2 0)) by (unfold reader_ok; cbn; len_lia).
  pose proof (next_list_length _ _ _ R1 E1) as L1. pose proof (next_list_length _ _ _ R2 E2) as L2. cbn [rbytes rpos] in L1, L2.
  set (k := (length b1 - length f1 + (length b2 - length f2))%nat).
  pose proof (next_list_inside [] b2 b1 ltac:(len_lia) _ _ _ (length f2 + S k) R1 eq_refl E1) as N1.
  pose proof (next_list_inside b1 [] b2 ltac:(len_lia) _ _ _ (S k) R2 eq_refl E2) as N2.
  unfold inside in *. cbn [rbytes rpos app] in *. rewrite app_nil_r, !Z.add_0_r in *. change (len [] + 0) with 0 in N1.
  change (len (@nil Z) + len b1) with (len b1) in N1. rewrite N2 in N1.
  assert (Hend : next_list (S k) (mkReader (b1 ++ b2) (len b1 + len b2)) = ([], true)).
  { cbn [next_list]. unfold next. cbn [rbytes rpos]. by rewrite len_app, Z.eqb_refl. }
  rewrite Hend, app_nil_r in N1. change (len (@nil Z)) with 0 in N1. replace (S (length (b1 ++ b2))) with (length f1 + (length f2 + S k))%nat; [by rewrite N1|].
  rewrite length_app. unfold len in *. lia.
Qed.

(** ** What one field does, whatever was supplied before *)

(** [f] adds [xb] bytes and [xn] nodes to a charge, up to saturation. *)
Definition adds (f : Charge -> Charge) (xb xn : Z) : Prop :=
  0 <= xb /\ 0 <= xn /\ forall c, 0 <= c.(c_bytes) -> 0 <= c.(c_nodes) ->
  Z.min (c.(c_bytes) + xb) U64_MAX <= (f c).(c_bytes) <= c.(c_bytes) + xb /\
  Z.min (c.(c_nodes) + xn) U64_MAX <= (f c).(c_nodes) <= c.(c_nodes) + xn.

Lemma adds_id : adds id 0 0.
Proof. split_and!; [done|done|]. intros c Hb Hn. unfold id. lia. Qed.

Lemma adds_charge x : 0 <= x.(c_bytes) -> 0 <= x.(c_nodes) -> adds (fun c => charge_add c x) x.(c_bytes) x.(c_nodes).
Proof. intros Hb Hn. split_and!; [done|done|]. intros c ? ?. unfold charge_add, sat_u64. cbn. lia. Qed.

Lemma adds_bytes x : 0 <= x -> adds (fun c => mkCharge (sat_u64 (c.(c_bytes) + x)) c.(c_nodes)) x 0.
Proof. intros Hx. split_and!; [done|done|]. intros c ? ?. unfold sat_u64. cbn. lia. Qed.

Definition same_content (p q : Plan) : Prop := p_schema p = p_schema q /\ p_fields p = p_fields q /\ p_pairs p = p_pairs q.

(** The effect of a field: new fields and pairs and an addition to the charge. *)
Definition effect (recurse : Plan -> bytes -> Options -> res Error (Plan * Charge)) (o : Options) (q : Plan) (n w : Z)
    (v : OtlpTraces.Value) (m : omap Z Values) (pairs : Z) (f : Charge -> Charge) : Prop :=
  forall q' c', same_content q' q -> merge_field recurse o (q', c') n w v =
    if over (charge_add (p_supplied q') (f c')) o then Err AttributesTooLarge
    else Ok (mkPlan (p_schema q) m (p_supplied q') pairs, f c').

Lemma merge_message_charge recurse s m n child many b o m' c :
  (forall p b o q c, recurse p b o = Ok (q, c) -> 0 <= c.(c_bytes) /\ 0 <= c.(c_nodes)) ->
  merge_message recurse s m n child many b o = Ok (m', c) -> 0 <= c.(c_bytes) /\ 0 <= c.(c_nodes).
Proof.
  intros Hrec E. unfold merge_message in E. destruct many.
  - destruct (recurse _ _ _) as [[p x]| |] eqn:Er; [|done..]. destruct (push _ _ _); [|done..]. injection E as _ <-. by eapply Hrec.
  - destruct (default _ _) as [[v|p]|l]; [done| |done]. destruct (recurse _ _ _) as [[q x]| |] eqn:Er; [|done..].
    injection E as _ <-. by eapply Hrec.
Qed.

Lemma merge_field_effect recurse o q c n w v x :
  (forall p b o q c, recurse p b o = Ok (q, c) -> 0 <= c.(c_bytes) /\ 0 <= c.(c_nodes)) ->
  merge_field recurse o (q, c) n w v = Ok x -> field (p_schema q) n <> None ->
  exists m pairs f xb xn, adds f xb xn /\ effect recurse o q n w v m pairs f.
Proof.
  intros Hrec E Hf. unfold effect, merge_field in *. destruct (field (p_schema q) n) as [[[name kind] many]|] eqn:Ef; [|done].
  set (m0 := retain _ n (p_fields q)) in *.
  enough (G : exists m pairs f xb xn, adds f xb xn /\ forall q' c', same_content q' q ->
    match kind, v with
    | Message child, Data b =>
        let? (m, added) := merge_message recurse (p_schema q) m0 n child many b (child_options (p_schema q) n o) in
        let? pairs :=
          if bool_decide (child = Pair) then
            let k := sat_u64 (p_pairs q + 1) in if o.(opt1) <? k then Err AttributesTooLarge else Ok k
          else Ok (p_pairs q) in
        Ok (mkPlan (p_schema q) m (p_supplied q') pairs,
            if attribute (p_schema q) || bool_decide (child = Pair) then charge_add c' added else c')
    | PackedUint64, Data b =>
        let? _ := packed_varints b in
        let? m := push_varints (S (length b)) (mkReader b 0) n m0 in Ok (with_fields q' (ensure_many m n), c')
    | (PackedFixed64 | PackedDouble), Data b =>
        let? m := push_words b n m0 in Ok (with_fields q' (ensure_many m n), c')
    | _, _ =>
        let charge :=
          if attribute (p_schema q) then mkCharge (sat_u64 (c_bytes c' + scalar_bytes kind v)) (c_nodes c') else c' in
        let? m := if many then push m0 n (Scalar v) else Ok (put n (Single (Scalar v)) m0) in
        Ok (with_fields q' m, charge)
    end = Ok (mkPlan (p_schema q) m (p_supplied q') pairs, f c')).
  { destruct G as (m & pairs & f & xb & xn & Ha & G). exists m, pairs, f, xb, xn. split; [done|]. intros q' c' Hc.
    specialize (G q' c' Hc). destruct Hc as (Es & Em & Ep). rewrite Es, Em, Ep, Ef. fold m0.
    match type of G with ?l = _ => match goal with |- (let? x := ?l' in _) = _ => change l' with l end end. by rewrite G. }
  assert (Hflat : forall (r : res Error (omap Z Values)) (g : omap Z Values -> omap Z Values) f xb xn m1,
    r = Ok m1 -> adds f xb xn -> exists m pairs f' xb xn, adds f' xb xn /\
    forall q' c', same_content q' q ->
    (let? m := r in Ok (with_fields q' (g m), f c')) = Ok (mkPlan (p_schema q) m (p_supplied q') pairs, f' c')).
  { intros r g f xb xn m1 -> Ha. exists (g m1), (p_pairs q), f, xb, xn. split; [done|]. intros q' c' (Es & Em & Ep).
    unfold with_fields. by rewrite Es, Ep. }
  destruct (is_message kind && is_data v) eqn:Ek; bools.
  - destruct kind as [child| | | | | | | | | | | | | |]; try done. destruct v as [|b]; [done|].
    destruct (merge_message _ _ _ _ _ _ _ _) as [[m1 added]| |] eqn:Em; [|done..].
    apply merge_message_charge with (1 := Hrec) in Em as [Ab An].
    destruct (if bool_decide _ then _ else Ok (p_pairs q)) as [k| |]; [|done..].
    destruct (attribute (p_schema q) || bool_decide (child = Pair)).
    + exists m1, k, (fun c => charge_add c added), (c_bytes added), (c_nodes added). split; [by apply adds_charge|done].
    + exists m1, k, id, 0, 0. split; [apply adds_id|done].
  - assert (Hb : 0 <= scalar_bytes kind v) by exact (byte_leaf_nonneg (Some kind) v).
    assert (Hscalar : adds (fun c' => if attribute (p_schema q) then mkCharge (sat_u64 (c_bytes c' + scalar_bytes kind v)) (c_nodes c') else c')
      (if attribute (p_schema q) then scalar_bytes kind v else 0) 0) by (destruct (attribute _); [by apply adds_bytes|apply adds_id]).
    destruct kind, v; try discriminate Ek;
      try (match type of E with context [let? m := ?r in Ok (with_fields _ m, _)] => destruct r as [m1| |] eqn:Er; [|done..] end;
           eapply (Hflat _ (fun m => m) _ _ _ m1 eq_refl Hscalar));
      try (destruct (packed_varints b); [|done..]);
      (match type of E with context [let? m := ?r in Ok (with_fields _ (ensure_many m _), _)] => destruct r as [m1| |] eqn:Er; [|done..] end;
           eapply (Hflat _ (fun m => ensure_many m n) _ _ _ m1 eq_refl adds_id)).
Qed.

Lemma merge_loop fuel p b o q c : merge (S fuel) p b o = Ok (q, c) ->
  complete b /\ exists q0,
    foldM (fun a f => merge_field (merge fuel) o a (fst (fst f)) (snd (fst f)) (snd f))
      (p, mkCharge 0 (self_node (p_schema p))) (fields_of b) = Ok (q0, c) /\
    over (charge_add (p_supplied q0) c) o = false /\
    q = mkPlan (p_schema q0) (p_fields q0) (charge_add (p_supplied q0) c) (p_pairs q0).
Proof.
  cbn [merge]. fold (self_node (p_schema p)).
  rewrite while_next_fold; [|unfold reader_ok; cbn; len_lia|cbn [rbytes rpos]; unfold len; lia].
  unfold complete, fields_of. destruct (next_list _ _) as [fs ok]. cbn [fst snd].
  match goal with |- context [foldM ?g ?a fs] => destruct (foldM g a fs) as [[q0 c0]| |] eqn:Ef; [|done..] end.
  destruct ok; [|done]. cbv iota. intros E. split; [done|]. destruct (over _ _) eqn:Eo; [done|]. injection E as <- <-. eauto.
Qed.

Lemma merge_charge fuel p b o q c : merge fuel p b o = Ok (q, c) -> 0 <= c.(c_bytes) /\ 0 <= c.(c_nodes).
Proof.
  revert p b o q c. induction fuel as [|fuel IH]; intros p b o q c E; [done|].
  apply merge_loop in E as (_ & q0 & Ef & _).
  enough (G : forall x, 0 <= (snd x).(c_bytes) /\ 0 <= (snd x).(c_nodes) -> forall y,
    foldM (fun a f => merge_field (merge fuel) o a (fst (fst f)) (snd (fst f)) (snd f)) x (fields_of b) = Ok y ->
    0 <= (snd y).(c_bytes) /\ 0 <= (snd y).(c_nodes)).
  { apply (G _) in Ef; [done|]. cbn. unfold self_node. destruct (attribute _); lia. }
  clear Ef. induction (fields_of b) as [|f fs IHf]; intros x Hx y Ey; cbn [foldM] in Ey; [by injection Ey as <-|].
  destruct (merge_field _ _ x _ _ _) as [x1| |] eqn:E1; [|done..]. apply (IHf x1); [|done]. destruct x as [p1 c1]. cbn in Hx.
  destruct (field (p_schema p1) (fst (fst f))) eqn:Efield.
  - destruct (merge_field_effect _ _ _ _ _ _ _ _ IH E1 ltac:(by rewrite Efield)) as (m & k & g & xb & xn & (Hb & Hn & Ha) & G).
    rewrite G in E1 by done. destruct (over _ _); [done|]. injection E1 as <-. cbn [snd].
    destruct (Ha c1) as [? ?]; [tauto..|]. unfold U64_MAX in *. lia.
  - unfold merge_field in E1. rewrite Efield in E1. by injection E1 as <-.
Qed.

(** Two runs over the same fields from the same content, the second with no
    more supplied so far. *)
Definition ahead (d : Z) (x y : Plan * Charge) : Prop :=
  same_content (fst y) (fst x) /\ supplied_ok (fst x) /\ supplied_ok (fst y) /\
  0 <= (snd x).(c_bytes) /\ 0 <= (snd x).(c_nodes) /\ 0 <= (snd y).(c_bytes) /\ 0 <= (snd y).(c_nodes) /\
  (p_supplied (fst x)).(c_bytes) + (snd x).(c_bytes) = (p_supplied (fst y)).(c_bytes) + (snd y).(c_bytes) /\
  (p_supplied (fst x)).(c_nodes) + (snd x).(c_nodes) = (p_supplied (fst y)).(c_nodes) + (snd y).(c_nodes) + d.

Lemma over_free a c o : a.(c_bytes) + c.(c_bytes) <= o.(opt4) -> a.(c_nodes) + c.(c_nodes) <= o.(opt6) -> bounded o ->
  over (charge_add a c) o = false.
Proof.
  unfold over, charge_add, sat_u64, bounded. cbn. intros. apply orb_false_iff. split; apply Z.ltb_ge; lia.
Qed.

Lemma field_ahead fuel o d x y n w v x' : bounded o -> 0 <= d -> ahead d x y ->
  merge_field (merge fuel) o x n w v = Ok x' ->
  exists y', merge_field (merge fuel) o y n w v = Ok y' /\ ahead d x' y' /\ p_supplied (fst y') = p_supplied (fst y) /\ p_schema (fst y') = p_schema (fst y).
Proof.
  intros Ho Hd Hxy E. destruct x as [q c], y as [q' c']. pose proof Hxy as (Hs & [Sb Sn] & [Sb' Sn'] & Cb & Cn & Cb' & Cn' & Eb & En).
  cbn [fst snd] in *. pose proof Hs as (Es & Em & Ep). destruct (field (p_schema q) n) eqn:Ef.
  - destruct (merge_field_effect _ _ _ _ _ _ _ _ (merge_charge fuel) E ltac:(by rewrite Ef))
      as (m & k & g & xb & xn & (Hb & Hn & Ha) & G).
    rewrite (G q c) in E by done. rewrite (G q' c') by done. destruct (over _ _) eqn:Eo in E; [done|]. injection E as <-.
    apply over_add in Eo as [Ob On]; [|done..]. destruct (Ha c Cb Cn) as [A1 A2]. destruct (Ha c' Cb' Cn') as [A3 A4].
    assert (Hex : c_bytes (g c) = c_bytes c + xb /\ c_nodes (g c) = c_nodes c + xn /\
      c_bytes (g c') = c_bytes c' + xb /\ c_nodes (g c') = c_nodes c' + xn) by (unfold bounded in Ho; split_and!; lia).
    rewrite over_free; [|lia|lia|done]. eexists. split; [done|]. unfold ahead, same_content, supplied_ok. cbn.
    split_and!; done || lia.
  - unfold merge_field in *. rewrite Es, Ef. rewrite Ef in E. injection E as <-. by exists (q', c').
Qed.

Lemma fields_ahead fuel o d fs x y x' : bounded o -> 0 <= d -> ahead d x y ->
  foldM (fun a f => merge_field (merge fuel) o a (fst (fst f)) (snd (fst f)) (snd f)) x fs = Ok x' ->
  exists y', foldM (fun a f => merge_field (merge fuel) o a (fst (fst f)) (snd (fst f)) (snd f)) y fs = Ok y' /\
    ahead d x' y' /\ p_supplied (fst y') = p_supplied (fst y) /\ p_schema (fst y') = p_schema (fst y).
Proof.
  intros Ho Hd. revert x y. induction fs as [|f fs IH]; intros x y Hxy E; cbn [foldM] in *.
  { injection E as <-. by exists y. }
  destruct (merge_field _ _ x _ _ _) as [x1| |] eqn:E1; [|done..].
  destruct (field_ahead fuel o d x y _ _ _ _ Ho Hd Hxy E1) as (y1 & -> & H1 & Hs1 & Hk1).
  destruct (IH x1 y1 H1 E) as (y' & -> & H2 & Hs2 & Hk2). exists y'. by rewrite Hs2, Hs1, Hk2, Hk1.
Qed.

(** C10. Protobuf's merge law: a message given in two parts is the message
    given as their concatenation. When merging [b1] and then [b2] into a plan
    succeeds, merging [b1 ++ b2] into it succeeds too, with the same fields,
    the same pairs and the same bytes charged; only the node of the message
    itself, charged once per part, is charged once less. *)
Theorem otlp_merge_concat (fuel : nat) (p p1 p2 : Plan) (b1 b2 : bytes) (o : Options) (c1 c2 : Charge) :
  bounded o -> supplied_ok p -> len b1 + len b2 <= U64_MAX ->
  merge fuel p b1 o = Ok (p1, c1) -> merge fuel p1 b2 o = Ok (p2, c2) ->
  exists q c, merge fuel p (b1 ++ b2) o = Ok (q, c) /\ same_content q p2 /\
    (p_supplied q).(c_bytes) = (p_supplied p2).(c_bytes) /\
    (p_supplied q).(c_nodes) + self_node (p_schema p) = (p_supplied p2).(c_nodes).
Proof.
  intros Ho Hp Hl E1 E2. destruct fuel as [|fuel]; [done|]. 
  destruct (merge_charge _ _ _ _ _ _ E1) as [Cb1 Cn1]. destruct (merge_charge _ _ _ _ _ _ E2) as [Cb2 Cn2].
  apply merge_loop in E1 as (K1 & q1 & F1 & O1 & ->). apply merge_loop in E2 as (K2 & q2 & F2 & O2 & ->).
  destruct (fields_app b1 b2 Hl K1 K2) as [K Hf]. cbn [merge]. fold (self_node (p_schema p)).
  rewrite while_next_admitted, Hf, foldM_app, F1 by done.
  set (x0 := (p, _)) in *. assert (A0 : ahead 0 x0 x0).
  { unfold ahead, x0, same_content. cbn [fst snd c_bytes c_nodes]. unfold supplied_ok, self_node in *.
    split_and!; try done; try lia; destruct (attribute _); lia. }
  destruct (fields_ahead fuel o 0 _ _ _ _ Ho ltac:(lia) A0 F1) as (y & Ey & _ & Hs1 & Hk1). rewrite F1 in Ey. injection Ey as <-.
  cbn [fst x0] in Hs1, Hk1. destruct Hp as [Sb Sn]. rewrite Hs1 in O1. apply over_add in O1 as [Ob On]; [|done..].
  assert (Eadd : charge_add (p_supplied q1) c1 = mkCharge (c_bytes (p_supplied p) + c_bytes c1) (c_nodes (p_supplied p) + c_nodes c1)).
  { rewrite Hs1. unfold charge_add, sat_u64, bounded in *. f_equal; lia. }
  rewrite Eadd in F2. cbn [p_schema] in F2. rewrite Hk1 in F2.
  assert (A1 : ahead (self_node (p_schema p))
    (mkPlan (p_schema p) (p_fields q1) (mkCharge (c_bytes (p_supplied p) + c_bytes c1) (c_nodes (p_supplied p) + c_nodes c1))
       (p_pairs q1), mkCharge 0 (self_node (p_schema p))) (q1, c1)).
  { unfold ahead, same_content, supplied_ok. cbn. rewrite Hs1. split_and!; try done; try lia; unfold self_node; destruct (attribute _); lia. }
  assert (Hself : 0 <= self_node (p_schema p)) by (unfold self_node; destruct (attribute _); lia).
  destruct (fields_ahead fuel o _ _ _ _ _ Ho Hself A1 F2) as ([q' c'] & -> & A2 & Hs2 & Hk2).
  destruct A2 as (Hs & [Xb Xn] & [Yb Yn] & _ & _ & Zb & Zn & Eb & En). cbn [fst snd] in *.
  apply over_add in O2 as [Ob2 On2]; [|done..].
  rewrite over_free; [|lia|lia|done]. eexists _, _. split; [reflexivity|]. cbn [p_supplied].
  destruct Hs as (Es & Em & Ep). split; [by split_and!|]. unfold charge_add, sat_u64, bounded in *. cbn. split; lia.
Qed.
(** * Instances of the theorems *)

Lemma otlp_decode_within_witness :
  exists p c, merge (S (length sample_trace)) (Plan_new Export) sample_trace sample_options = Ok (p, c) /\ plan_ok sample_options p.
Proof.
  assert (Ho : bounded sample_options) by (vm_compute; split_and!; done || discriminate).
  assert (E : preflight_signal sample_trace sample_options Export = Ok tt) by (vm_compute; reflexivity).
  pose proof (otlp_decode_within sample_trace sample_options Export Ho E) as H.
  destruct (merge _ _ _ _) as [[p c]|e|] eqn:Em; [|vm_compute in Em; discriminate Em..].
  exists p, c. split; [reflexivity|apply H].
Defined.

(** An attribute value that is first a string and then a list, in two parts. *)
Lemma otlp_merge_concat_witness :
  exists q c, merge 9 (Plan_new Any) ([10; 1; 97] ++ [42; 5; 10; 3; 10; 1; 98]) sample_options = Ok (q, c) /\
    keys (p_fields q) = [5] /\ p_supplied q = mkCharge 2 3.
Proof.
  assert (Ho : bounded sample_options) by (vm_compute; split_and!; done || discriminate).
  destruct (merge 9 (Plan_new Any) [10; 1; 97] sample_options) as [[p1 c1]| |] eqn:E1; [|vm_compute in E1; discriminate E1..].
  destruct (merge 9 p1 [42; 5; 10; 3; 10; 1; 98] sample_options) as [[p2 c2]| |] eqn:E2;
    [|vm_compute in E1; injection E1 as <- <-; vm_compute in E2; discriminate E2..].
  destruct (otlp_merge_concat 9 (Plan_new Any) p1 p2 [10; 1; 97] [42; 5; 10; 3; 10; 1; 98] sample_options c1 c2 Ho ltac:(vm_compute; split; discriminate)
    ltac:(vm_compute; discriminate) E1 E2) as (q & c & Eq & Hs & Hb & Hn).
  exists q, c. split; [exact Eq|]. vm_compute in Eq. injection Eq as <- <-. split; reflexivity.
Defined.
