(* ===== verification/OtlpInteger.v ===== *)
(** Schema-scoped integers of OTLP JSON, otlp_json_integer.rs: the scope that
    says which JSON numbers are protocol integers, the exact reading of their
    lexemes, and the builder that substitutes them. *)

From S2P Require Import Prelude Utf8 External Float64 JsonRead TermJson.
From S2P Require OtlpTraces.
#[local] Existing Instance OtlpTraces.Schema_eq_dec.

(** * Scopes *)

Inductive Scope : Type := Root | Message (s : OtlpTraces.Schema) | IntegerScope | OrdinaryScope.

(** [1..=16]. *)
Definition field_numbers : list Z := [1; 2; 3; 4; 5; 6; 7; 8; 9; 10; 11; 12; 13; 14; 15; 16].

(** [(1..=16).filter_map(|n| field(schema, n)).find(..)]. *)
Definition field_kind (schema : OtlpTraces.Schema) (key : bytes) : option OtlpTraces.Kind :=
  fold_right (fun n rest =>
    match OtlpTraces.field schema n with
    | Some (name, kind, _) => if bytes_eqb name key then Some kind else rest
    | None => rest
    end) None field_numbers.

Definition is_integer_kind (k : OtlpTraces.Kind) : bool :=
  match k with
  | OtlpTraces.Int | OtlpTraces.Uint | OtlpTraces.Signed64 | OtlpTraces.Fixed64 | OtlpTraces.Fixed32
  | OtlpTraces.PackedFixed64 | OtlpTraces.Sint32 | OtlpTraces.PackedUint64 => true
  | _ => false
  end.

Definition scope_key (self : Scope) (key : bytes) : Scope :=
  match self with
  | Root =>
      if bytes_eqb key (str "resourceLogs") then Message OtlpTraces.ResourceLogs
      else if bytes_eqb key (str "resourceMetrics") then Message OtlpTraces.ResourceMetrics
      else if bytes_eqb key (str "resourceSpans") then Message OtlpTraces.ResourceSpans
      else OrdinaryScope
  | Message schema =>
      match field_kind schema key with
      | Some (OtlpTraces.Message child) => Message child
      | Some kind => if is_integer_kind kind then IntegerScope else OrdinaryScope
      | None => OrdinaryScope
      end
  | _ => OrdinaryScope
  end.

Definition scope_field_bit (self : Scope) (key : bytes) : Z :=
  match self with
  | Root =>
      if bytes_eqb key (str "resourceLogs") then 1
      else if bytes_eqb key (str "resourceMetrics") then 2
      else if bytes_eqb key (str "resourceSpans") then 4
      else 0
  | Message schema =>
      if bool_decide (schema = OtlpTraces.Resource) && bytes_eqb key (str "entityRefs") then Z.shiftl 1 3
      else
        fold_right (fun n rest =>
          match OtlpTraces.field schema n with
          | Some (name, _, _) => if bytes_eqb name key then Z.shiftl 1 n else rest
          | None => rest
          end) 0 field_numbers
  | _ => 0
  end.

#[export] Instance Context_Scope : Context Scope :=
  {| ctx_key := scope_key; ctx_field_bit := scope_field_bit;
     ctx_integer s := match s with IntegerScope => true | _ => false end |}.

(** * Integer lexemes *)

(** The digit scan: positions exclude the point; [first] and [last] are those
    of the outermost non-zero digits. *)
Definition scan_step (s : Z * option Z * Z) (byte : Z) : Z * option Z * Z :=
  let '(digits, first, last) := s in
  if byte =? 46 then s
  else if negb (byte =? 48) then (digits + 1, Some (default digits first), digits)
  else (digits + 1, first, last).
Definition scan (mantissa : bytes) : Z * option Z * Z := fold_left scan_step mantissa (0, None, 0).

Definition exponent_digits (limit : Z) (text : bytes) : Z :=
  fold_left (fun n b => Z.min (sat_i64 (sat_i64 (n * 10) + (b - 48))) limit) text 0.

Definition exponent_of (limit : Z) (text : bytes) : Z :=
  let minus := match text with 45 :: _ => true | _ => false end in
  let offset := match text with 45 :: _ | 43 :: _ => 1%nat | _ => 0%nat end in
  let value := exponent_digits limit (drop offset text) in
  if minus then - value else value.

Definition push_digit (m : option Z) (byte : Z) : option Z :=
  let* m := m in
  let* m := checked_u64 (m * 10) in
  checked_u64 (m + (byte - 48)).

(** [for _ in 0..shift { magnitude = magnitude.checked_mul(10)?; }]. *)
Fixpoint times10 (shift : nat) (m : option Z) : option Z :=
  match shift with
  | O => m
  | S shift => times10 shift (let* m := m in checked_u64 (m * 10))
  end.

Definition signed (negative : bool) (magnitude : Z) : option Number :=
  if negative then
    if magnitude =? I64_MAX + 1 then Some (Int I64_MIN)
    else let* v := checked_i64 magnitude in Some (Int (- v))
  else if magnitude <=? I64_MAX then Some (Int magnitude)
  else Some (UInt magnitude).

Definition integer (raw : bytes) : option Number :=
  let negative := match raw with 45 :: _ => true | _ => false end in
  let unsigned := if negative then drop 1 raw else raw in
  let end_ := prefix_len (fun b => negb ((b =? 101) || (b =? 69))) unsigned in
  let mantissa := take (Z.to_nat end_) unsigned in
  let dot := prefix_len (fun b => negb (b =? 46)) mantissa in
  let fraction := if dot =? len mantissa then 0 else len mantissa - dot - 1 in
  let '(digits, first, last) := scan mantissa in
  match first with
  | None => Some (Int 0)
  | Some first =>
      let width := last - first + 1 in
      if 20 <? width then None
      else
        let limit := sat_i64 (len raw + 21) in
        let exponent :=
          if end_ =? len unsigned then 0
          else exponent_of limit (drop (Z.to_nat (end_ + 1)) unsigned) in
        let shift := exponent - fraction + (digits - last - 1) in
        if (shift <? 0) || (20 <? width + shift) then None
        else
          let significant := take (Z.to_nat width) (drop (Z.to_nat first)
            (List.filter (fun b => negb (b =? 46)) mantissa)) in
          let* magnitude := times10 (Z.to_nat shift) (fold_left push_digit significant (Some 0)) in
          signed negative magnitude
  end.

(** * The builder *)

Record IntegerBuilder : Type := mkIntegerBuilder { base : TermBuilder }.

Definition INVALID_OTLP_INTEGER : Term := Atom (str "invalid_otlp_integer").

(** A method of the base builder. *)
Definition lift (r : Res (Term * TermBuilder)) : Res (Term * IntegerBuilder) :=
  let? (v, b) := r in Ok (v, mkIntegerBuilder b).

#[export] Instance Builder_Integer : Builder IntegerBuilder Term := {|
  b_null b := lift (b_null b.(base));
  b_boolean b v := lift (b_boolean b.(base) v);
  b_number b n := lift (b_number b.(base) n);
  b_integer_literal b raw :=
    match integer raw with
    | Some value => lift (b_number b.(base) value)
    | None => Ok (INVALID_OTLP_INTEGER, b)
    end;
  b_string b s := lift (b_string b.(base) s);
  b_key b s := lift (b_key b.(base) s);
  b_array b items := lift (b_array b.(base) items);
  b_object b keys values := lift (b_object b.(base) keys values)
|}.

Definition decode `{SimdUtf8} `{Memchr2} (input : bytes) (schema : option OtlpTraces.Schema) : Res Term :=
  let scope := match schema with Some s => Message s | None => Root end in
  let? (v, _, _, _) := document_in (Parser_new input) (mkIntegerBuilder TermBuilder_new) Stacks_new scope in Ok v.

(** * The value of a lexeme *)

Definition digit (c : Z) : Prop := 48 <= c <= 57.

(** A JSON number, split: sign, integer part, fraction, exponent marker, its
    sign and its digits. *)
Record Lexeme : Type := mkLexeme {
  lx_negative : bool;
  lx_int : bytes;
  lx_frac : option bytes;
  lx_exp : option (Z * bytes * bytes)
}.

Definition lexeme_ok (l : Lexeme) : Prop :=
  Forall digit l.(lx_int) /\ l.(lx_int) <> [] /\ Forall digit (default [] l.(lx_frac)) /\
  match l.(lx_exp) with
  | Some (e, sign, ds) => (e = 101 \/ e = 69) /\ sign ∈ [[]; [43]; [45]] /\ Forall digit ds
  | None => True
  end.

Definition frac_text (l : Lexeme) : bytes := match l.(lx_frac) with Some f => 46 :: f | None => [] end.
Definition exp_text (l : Lexeme) : bytes := match l.(lx_exp) with Some (e, sign, ds) => e :: sign ++ ds | None => [] end.
Definition lexeme_text (l : Lexeme) : bytes :=
  (if l.(lx_negative) then [45] else []) ++ l.(lx_int) ++ frac_text l ++ exp_text l.

Definition mantissa_value (l : Lexeme) : Z := digits_value (l.(lx_int) ++ default [] l.(lx_frac)).
Definition exponent_value (l : Lexeme) : Z :=
  match l.(lx_exp) with
  | Some (_, sign, ds) => if bool_decide (sign = [45]) then - digits_value ds else digits_value ds
  | None => 0
  end.

(** The lexeme denotes the integer [v]: mantissa times a power of ten, cleared
    of negative powers. *)
Definition denotes (l : Lexeme) (v : Z) : Prop :=
  let e := exponent_value l - len (default [] l.(lx_frac)) in
  v * 10 ^ Z.max 0 (- e) = (if l.(lx_negative) then - mantissa_value l else mantissa_value l) * 10 ^ Z.max 0 e.

(** ** Digit strings *)

Lemma digits_value_range ds : Forall digit ds -> 0 <= digits_value ds < 10 ^ len ds.
Proof.
  intros H. induction ds as [|d ds IH] using rev_ind; [done|].
  apply Forall_app in H as [H Hd]. apply Forall_cons_1 in Hd as [Hd _]. specialize (IH H). unfold digit in Hd.
  rewrite digits_value_snoc, len_app, Z.pow_add_r by len_lia. change (10 ^ len [d]) with 10. lia.
Qed.

(** A digit string without outer zeros. *)
Definition trimmed (w : bytes) : Prop :=
  Forall digit w /\ (exists c w', w = c :: w' /\ c <> 48) /\ (exists w' c, w = w' ++ [c] /\ c <> 48).

Lemma trimmed_bounds w : trimmed w ->
  1 <= len w /\ 10 ^ (len w - 1) <= digits_value w < 10 ^ len w /\ digits_value w mod 10 <> 0.
Proof.
  intros (Hd & (c & w' & -> & Hc) & (w2 & d & E & Hne)). pose proof (digits_value_range _ Hd) as Hr.
  split; [len_lia|]. split; [split; [|lia]|].
  - apply Forall_cons_1 in Hd as [Hcd Hw]. unfold digit in Hcd. change (c :: w') with ([c] ++ w').
    rewrite digits_value_app. rewrite len_app. replace (len [c] + len w' - 1) with (len w') by len_lia.
    pose proof (digits_value_range _ Hw). assert (Ev : digits_value [c] = c - 48) by (unfold digits_value; cbn; lia).
    rewrite Ev. assert (0 < 10 ^ len w') by (apply Z.pow_pos_nonneg; len_lia). nia.
  - rewrite E in Hd |- *. apply Forall_app in Hd as [_ Hd]. apply Forall_cons_1 in Hd as [Hd _]. unfold digit in Hd.
    rewrite digits_value_snoc. replace (digits_value w2 * 10 + (d - 48)) with ((d - 48) + digits_value w2 * 10) by lia.
    rewrite Z.mod_add, Z.mod_small by lia. lia.
Qed.

(** ** The scan *)

Definition no_dot (l : bytes) : bytes := List.filter (fun b => negb (b =? 46)) l.

Lemma scan_no_dot l s : fold_left scan_step l s = fold_left scan_step (no_dot l) s.
Proof.
  revert s. induction l as [|c l IH]; intros s; [done|]. cbn [fold_left no_dot List.filter].
  destruct (c =? 46) eqn:E; cbn [negb].
  - rewrite IH. f_equal. unfold scan_step. rewrite E. by destruct s as [[? ?] ?].
  - cbn [fold_left]. apply IH.
Qed.

(** Leading zeros, significant digits, trailing zeros. *)
Lemma scan_spec ds : Forall digit ds ->
  match scan ds with
  | (n, None, _) => n = len ds /\ ds = replicate (length ds) 48
  | (n, Some f, l) => n = len ds /\ 0 <= f /\ exists w tz, trimmed w /\
      ds = replicate (Z.to_nat f) 48 ++ w ++ replicate tz 48 /\ len w = l - f + 1 /\ Z.of_nat tz = n - l - 1
  end.
Proof.
  unfold scan. induction ds as [|c ds IH] using rev_ind; intros Hd; [done|].
  apply Forall_app in Hd as [Hd Hc]. apply Forall_cons_1 in Hc as [Hc _]. specialize (IH Hd).
  rewrite fold_left_app. cbn [fold_left]. destruct (fold_left scan_step ds (0, None, 0)) as [[n o] l].
  unfold scan_step, digit in *. rewrite (proj2 (Z.eqb_neq c 46)) by lia.
  destruct (Z.eqb_spec c 48) as [->|Hne]; cbn [negb]; destruct o as [f|]; cbn [default from_option]; unfold id.
  - destruct IH as (-> & Hf & w & tz & Hw & -> & Hl & Ht). split; [len_lia|]. split; [done|]. exists w, (S tz).
    split; [done|]. split; [|split; [done|len_lia]].
    replace (S tz) with (tz + 1)%nat by lia. rewrite replicate_add. cbn [replicate]. by rewrite <- !app_assoc.
  - destruct IH as (-> & E). split; [len_lia|]. rewrite length_app, Nat.add_comm. cbn [length Nat.add].
    replace (S (length ds)) with (length ds + 1)%nat by lia. rewrite replicate_add. cbn [replicate]. by rewrite <- E.
  - destruct IH as (-> & Hf & w & tz & Hw & -> & Hl & Ht). split; [len_lia|]. split; [done|].
    exists (w ++ replicate tz 48 ++ [c]), 0%nat. split_and!.
    + destruct Hw as (Hwd & (c0 & w0 & -> & Hc0) & _). split; [|split].
      * apply Forall_app. split; [done|]. apply Forall_app. split; [apply Forall_replicate; unfold digit; lia|].
        constructor; [unfold digit; lia|constructor].
      * exists c0, (w0 ++ replicate tz 48 ++ [c]). by rewrite <- app_comm_cons.
      * exists ((c0 :: w0) ++ replicate tz 48), c. by rewrite <- app_assoc.
    + cbn [replicate]. rewrite app_nil_r. by rewrite <- !app_assoc.
    + unfold len in *. rewrite !length_app, !length_replicate in *. cbn [length] in *. lia.
    + unfold len in *. rewrite !length_app, !length_replicate in *. cbn [length] in *. lia.
  - destruct IH as (-> & E). split; [len_lia|]. split; [apply len_nonneg|]. exists [c], 0%nat. split_and!.
    + split; [constructor; [unfold digit; lia|constructor]|]. split; [by exists c, []|by exists [], c].
    + rewrite E at 1. unfold len. by rewrite Nat2Z.id.
    + len_lia.
    + len_lia.
Qed.

(** ** Splitting the text *)

Lemma exponent_digits_value limit ds : 0 <= limit <= I64_MAX -> Forall digit ds ->
  exponent_digits limit ds = Z.min limit (digits_value ds).
Proof.
  intros Hl Hd. induction ds as [|d ds IH] using rev_ind; [unfold exponent_digits, digits_value; cbn; lia|].
  apply Forall_app in Hd as [Hd Hc]. apply Forall_cons_1 in Hc as [Hc _]. unfold digit in Hc.
  pose proof (digits_value_range _ Hd) as Hr. unfold exponent_digits in *. rewrite fold_left_app. cbn [fold_left].
  rewrite IH by done. rewrite digits_value_snoc. unfold sat_i64, I64_MAX, I64_MIN in *. lia.
Qed.

Definition clamp (limit e : Z) : Z := Z.max (- limit) (Z.min limit e).

Lemma exponent_of_value limit sign ds : 0 <= limit <= I64_MAX -> sign ∈ [[]; [43]; [45]] -> Forall digit ds ->
  exponent_of limit (sign ++ ds) = clamp limit (if bool_decide (sign = [45]) then - digits_value ds else digits_value ds).
Proof.
  intros Hl Hs Hd. pose proof (digits_value_range _ Hd) as Hr. pose proof (exponent_digits_value limit ds Hl Hd) as E.
  unfold clamp. rewrite !elem_of_cons, elem_of_nil in Hs. destruct Hs as [-> | [-> | [-> | []]]]; cbn [app].
  - rewrite bool_decide_eq_false_2 by done. assert (Ee : exponent_of limit ds = exponent_digits limit ds).
    { unfold exponent_of. destruct ds as [|d ds]; [done|]. apply Forall_cons_1 in Hd as [Hd _]. unfold digit in Hd.
      destruct d as [|p|p]; [done| |done]. do 6 (destruct p as [p|p|]; try reflexivity; try lia). }
    rewrite Ee, E. lia.
  - rewrite bool_decide_eq_false_2 by done. change (exponent_of limit (43 :: ds)) with (exponent_digits limit ds). lia.
  - rewrite bool_decide_eq_true_2 by done. change (exponent_of limit (45 :: ds)) with (- exponent_digits limit ds). lia.
Qed.

(** The computation after the text is split. *)
Definition core (negative : bool) (ds : bytes) (fraction exponent : Z) : option Number :=
  let '(digits, first, last) := scan ds in
  match first with
  | None => Some (Int 0)
  | Some first =>
      let width := last - first + 1 in
      if 20 <? width then None
      else
        let shift := exponent - fraction + (digits - last - 1) in
        if (shift <? 0) || (20 <? width + shift) then None
        else
          let significant := take (Z.to_nat width) (drop (Z.to_nat first) ds) in
          let* magnitude := times10 (Z.to_nat shift) (fold_left push_digit significant (Some 0)) in
          signed negative magnitude
  end.

Definition digits_of (l : Lexeme) : bytes := l.(lx_int) ++ default [] l.(lx_frac).

Lemma no_dot_digits ds : Forall digit ds -> no_dot ds = ds.
Proof.
  induction 1 as [|d ds Hd H IH]; [done|]. unfold no_dot, digit in *. cbn [List.filter].
  rewrite (proj2 (Z.eqb_neq d 46)) by lia. cbn. by rewrite IH.
Qed.

Lemma mantissa_no_dot l : lexeme_ok l -> no_dot (l.(lx_int) ++ frac_text l) = digits_of l.
Proof.
  intros (Hi & _ & Hf & _). unfold no_dot, digits_of, frac_text. rewrite List.filter_app.
  fold (no_dot (lx_int l)). rewrite no_dot_digits by done. f_equal.
  destruct (lx_frac l) as [f|]; [|done]. cbn. by apply no_dot_digits.
Qed.

(** The prefix of an unsigned lexeme up to the exponent, and the fraction. *)
Lemma mantissa_end l : lexeme_ok l ->
  prefix_len (fun b => negb ((b =? 101) || (b =? 69))) ((l.(lx_int) ++ frac_text l) ++ exp_text l) =
  len (l.(lx_int) ++ frac_text l).
Proof.
  intros (Hi & _ & Hf & He). apply prefix_len_app.
  - assert (G : forall ds, Forall digit ds -> Forall (fun c => negb ((c =? 101) || (c =? 69)) = true) ds).
    { intros ds H. eapply Forall_impl; [|exact H]. unfold digit. intros c Hc.
      by rewrite (proj2 (Z.eqb_neq c 101)), (proj2 (Z.eqb_neq c 69)) by lia. }
    apply Forall_app. split; [by apply G|]. unfold frac_text. destruct (lx_frac l); [|constructor].
    constructor; [done|by apply G].
  - unfold exp_text. destruct (lx_exp l) as [[[e sign] ds]|]; [|done]. cbn. by destruct He as [[-> | ->] _].
Qed.

Lemma fraction_len l : lexeme_ok l ->
  let mantissa := l.(lx_int) ++ frac_text l in
  let dot := prefix_len (fun b => negb (b =? 46)) mantissa in
  (if dot =? len mantissa then 0 else len mantissa - dot - 1) = len (default [] l.(lx_frac)).
Proof.
  intros (Hi & _ & Hf & _). cbv zeta. unfold frac_text.
  assert (G : Forall (fun c => negb (c =? 46) = true) (lx_int l)).
  { eapply Forall_impl; [|exact Hi]. unfold digit. intros c Hc. by rewrite (proj2 (Z.eqb_neq c 46)) by lia. }
  rewrite prefix_len_app by (try done; by destruct (lx_frac l)). destruct (lx_frac l) as [f|]; cbn [default from_option]; unfold id.
  - rewrite len_app, len_cons. pose proof (len_nonneg f). rewrite (proj2 (Z.eqb_neq _ _)) by lia. lia.
  - by rewrite app_nil_r, Z.eqb_refl.
Qed.

Lemma integer_text l : lexeme_ok l -> len (lexeme_text l) <= 2 ^ 62 ->
  integer (lexeme_text l) =
  core l.(lx_negative) (digits_of l) (len (default [] l.(lx_frac))) (clamp (len (lexeme_text l) + 21) (exponent_value l)).
Proof.
  intros Hok Hlen. pose proof Hok as (Hi & Hne & Hf & He).
  assert (Hu : forall r, r = lexeme_text l -> (match r with 45 :: _ => true | _ => false end) = l.(lx_negative) /\
    (if l.(lx_negative) then drop 1 r else r) = (l.(lx_int) ++ frac_text l) ++ exp_text l).
  { intros r ->. unfold lexeme_text. rewrite <- app_assoc. destruct (lx_negative l); [done|]. split; [|done].
    destruct (lx_int l) as [|d ds]; [done|]. apply Forall_cons_1 in Hi as [Hd _]. unfold digit in Hd. cbn [app].
    destruct d as [|p|p]; [done| |done]. do 6 (destruct p as [p|p|]; try reflexivity; try lia). }
  destruct (Hu _ eq_refl) as [En Eu]. unfold integer. rewrite En, Eu, mantissa_end by done.
  set (m := lx_int l ++ frac_text l).
  replace (take (Z.to_nat (len m)) (m ++ exp_text l)) with m by (unfold len; by rewrite Nat2Z.id, take_app_length).
  pose proof (fraction_len l Hok) as Ef. cbv zeta in Ef. fold m in Ef. rewrite Ef.
  unfold scan at 1. rewrite scan_no_dot. fold (no_dot m). pose proof (mantissa_no_dot l Hok) as Em. fold m in Em.
  rewrite Em.
  change (fold_left scan_step (digits_of l) (0, None, 0)) with (scan (digits_of l)). unfold core.
  destruct (scan (digits_of l)) as [[digits [first|]] last]; [|done]. destruct (20 <? _); [done|].
  assert (Ex : (if len m =? len (m ++ exp_text l) then 0
     else exponent_of (sat_i64 (len (lexeme_text l) + 21)) (drop (Z.to_nat (len m + 1)) (m ++ exp_text l))) =
     clamp (len (lexeme_text l) + 21) (exponent_value l)).
  { assert (Hsat : sat_i64 (len (lexeme_text l) + 21) = len (lexeme_text l) + 21)
      by (unfold sat_i64, I64_MAX, I64_MIN; pose proof (len_nonneg (lexeme_text l)); lia).
    rewrite Hsat. unfold exp_text, exponent_value. destruct (lx_exp l) as [[[e sign] ds]|].
    - destruct He as (_ & Hsg & Hds). rewrite (proj2 (Z.eqb_neq _ _)) by len_lia.
      replace (drop (Z.to_nat (len m + 1)) (m ++ e :: sign ++ ds)) with (sign ++ ds).
      2:{ replace (Z.to_nat (len m + 1)) with (length (m ++ [e])) by (rewrite length_app; unfold len; cbn; lia).
          change (e :: sign ++ ds) with ([e] ++ sign ++ ds). rewrite app_assoc. by rewrite drop_app_length. }
      apply exponent_of_value; [|done|done]. pose proof (len_nonneg (lexeme_text l)). unfold I64_MAX. lia.
    - rewrite app_nil_r, Z.eqb_refl. unfold clamp. pose proof (len_nonneg (lexeme_text l)). lia. }
  by rewrite Ex.
Qed.

(** ** Exactness *)

Lemma push_digits w m : Forall digit w -> 0 <= m ->
  fold_left push_digit w (Some m) =
  (let v := m * 10 ^ len w + digits_value w in if v <=? U64_MAX then Some v else None) \/ U64_MAX < m.
Proof.
  intros Hd Hm. destruct (Z_lt_le_dec U64_MAX m) as [|Hmax]; [by right|left]. cbv zeta.
  induction w as [|d w IH] using rev_ind.
  { change (10 ^ len (@nil Z)) with 1. change (digits_value []) with 0. cbn [fold_left].
    rewrite (proj2 (Z.leb_le _ _)) by lia. f_equal. lia. }
  apply Forall_app in Hd as [Hd Hc]. apply Forall_cons_1 in Hc as [Hc _]. unfold digit in Hc.
  pose proof (digits_value_range _ Hd) as Hr. assert (Hp : 0 < 10 ^ len w) by (apply Z.pow_pos_nonneg; len_lia).
  rewrite fold_left_app, IH by done. cbn [fold_left]. rewrite digits_value_snoc, len_app, Z.pow_add_r by len_lia.
  change (10 ^ len [d]) with 10. set (v := m * 10 ^ len w + digits_value w).
  assert (Hv : 0 <= v) by (unfold v; nia).
  replace (m * (10 ^ len w * 10) + (digits_value w * 10 + (d - 48))) with (v * 10 + (d - 48)) by (unfold v; lia).
  unfold push_digit, checked_u64. destruct (Z.leb_spec v U64_MAX).
  - rewrite (proj2 (Z.leb_le 0 (v * 10))) by lia. cbn [andb]. destruct (Z.leb_spec (v * 10) U64_MAX).
    + rewrite (proj2 (Z.leb_le 0 (v * 10 + (d - 48)))) by lia. cbn [andb]. done.
    + by rewrite (proj2 (Z.leb_gt _ _)) by lia.
  - by rewrite (proj2 (Z.leb_gt _ _)) by lia.
Qed.

Lemma times10_value n v : 0 <= v ->
  times10 n (if v <=? U64_MAX then Some v else None) = if v * 10 ^ Z.of_nat n <=? U64_MAX then Some (v * 10 ^ Z.of_nat n) else None.
Proof.
  revert v. induction n as [|n IH]; intros v Hv; [change (10 ^ Z.of_nat 0) with 1; cbn [times10]; by rewrite Z.mul_1_r|].
  cbn [times10]. rewrite Nat2Z.inj_succ, Z.pow_succ_r, Z.mul_assoc by lia. rewrite <- IH by lia. f_equal.
  destruct (Z.leb_spec v U64_MAX); unfold checked_u64.
  - rewrite (proj2 (Z.leb_le 0 (v * 10))) by lia. done.
  - by rewrite (proj2 (Z.leb_gt _ _)) by lia.
Qed.

Definition number_of (v : Z) : Number := if v <=? I64_MAX then Int v else UInt v.

(** A sign and a magnitude within a word make the number in range. *)
Lemma signed_spec neg m n : 0 < m <= U64_MAX ->
  signed neg m = Some n <->
  exists v, v = (if neg then - m else m) /\ I64_MIN <= v <= U64_MAX /\ n = number_of v.
Proof.
  intros Hm. unfold signed, number_of, checked_i64 in *. unfold I64_MIN, I64_MAX, U64_MAX in *. destruct neg.
  - destruct (Z.eqb_spec m (9223372036854775807 + 1)) as [->|Hne].
    + split; [intros [= <-]; by eexists|]. intros (v & -> & _ & ->). done.
    + destruct (Z_le_gt_dec m 9223372036854775807) as [Hle|Hgt].
      * rewrite (proj2 (Z.leb_le _ m)), (proj2 (Z.leb_le m _)) by lia. cbn [andb].
        split; [intros [= <-]; exists (- m); split; [done|]; split; [lia|]; by rewrite (proj2 (Z.leb_le _ _)) by lia|].
        intros (v & -> & _ & ->). by rewrite (proj2 (Z.leb_le _ _)) by lia.
      * rewrite (proj2 (Z.leb_le _ m)), (proj2 (Z.leb_gt m _)) by lia. cbn [andb]. split; [done|]. intros (v & -> & ? & _). lia.
  - split.
    + intros E. exists m. split; [done|]. split; [lia|]. destruct (m <=? _); by injection E as <-.
    + intros (v & -> & _ & ->). by destruct (m <=? _).
Qed.

(** ** Powers of ten *)

Lemma pow10_pos n : 0 <= n -> 0 < 10 ^ n.
Proof. intros Hn. by apply Z.pow_pos_nonneg. Qed.

(** The denoted value of [w * 10^tz * 10^e] when [w] does not end in zero. *)
Lemma denoted_shift w tz e v : 0 <= tz -> w mod 10 <> 0 ->
  v * 10 ^ Z.max 0 (- e) = w * 10 ^ tz * 10 ^ Z.max 0 e <-> 0 <= tz + e /\ v = w * 10 ^ (tz + e).
Proof.
  intros Ht Hw. destruct (Z_le_gt_dec 0 e) as [He|He].
  - rewrite Z.max_l, (Z.max_r 0 e), Z.mul_1_r by lia. rewrite <- Z.mul_assoc, <- Z.pow_add_r by lia.
    split; [intros ->; split; [lia|done]|intros [_ ->]; done].
  - rewrite Z.max_r, (Z.max_l 0 e) by lia. change (10 ^ 0) with 1. rewrite Z.mul_1_r.
    destruct (Z_le_gt_dec 0 (tz + e)) as [Hs|Hs].
    + replace tz with ((tz + e) + - e) at 1 by lia. rewrite Z.pow_add_r, Z.mul_assoc by lia.
      pose proof (pow10_pos (- e) ltac:(lia)). split; [intros E; split; [done|]; nia|intros [_ ->]; done].
    + split; [intros E; exfalso|intros [? _]; lia]. replace (- e) with (tz + (- e - tz)) in E by lia.
      rewrite Z.pow_add_r in E by lia. pose proof (pow10_pos tz Ht).
      assert (E' : v * 10 ^ (- e - tz) = w) by nia. apply Hw. rewrite <- E'.
      replace (- e - tz) with (Z.succ (- e - tz - 1)) by lia. rewrite Z.pow_succ_r by lia.
      replace (v * (10 * 10 ^ (- e - tz - 1))) with ((v * 10 ^ (- e - tz - 1)) * 10) by lia. by apply Z.mod_mul.
Qed.

Lemma padded_value f w tz :
  digits_value (replicate f 48 ++ w ++ replicate tz 48) = digits_value w * 10 ^ Z.of_nat tz.
Proof.
  rewrite digits_value_app, digits_value_zeros, digits_value_app, digits_value_zeros. unfold len.
  rewrite length_replicate. lia.
Qed.

(** Significant digits and zeros beyond twenty places exceed a word. *)
Lemma too_wide w s : trimmed w -> 0 <= s -> 20 < len w \/ 20 < len w + s -> U64_MAX < digits_value w * 10 ^ s.
Proof.
  intros Hw Hs Ho. destruct (trimmed_bounds w Hw) as (Hw1 & Hwv & _).
  assert (Hle : 10 ^ (len w - 1 + s) <= digits_value w * 10 ^ s)
    by (rewrite Z.pow_add_r by lia; pose proof (pow10_pos s Hs); nia).
  assert (Hbig : 10 ^ 20 <= 10 ^ (len w - 1 + s)) by (apply Z.pow_le_mono_r; lia).
  assert (U64_MAX < 10 ^ 20) by (by vm_compute). lia.
Qed.

(** What a signed trimmed mantissa denotes. *)
Lemma signed_denoted (neg : bool) w tz e v : trimmed w ->
  v * 10 ^ Z.max 0 (- e) =
    (if neg then - (digits_value w * 10 ^ Z.of_nat tz) else digits_value w * 10 ^ Z.of_nat tz) * 10 ^ Z.max 0 e <->
  0 <= Z.of_nat tz + e /\ v = (if neg then - digits_value w else digits_value w) * 10 ^ (Z.of_nat tz + e).
Proof.
  intros Hw. destruct (trimmed_bounds w Hw) as (_ & Hwv & Hmod). destruct neg.
  - replace (- (digits_value w * 10 ^ Z.of_nat tz)) with (- digits_value w * 10 ^ Z.of_nat tz) by lia.
    apply denoted_shift; [lia|]. rewrite Z.mod_opp_l_nz by lia. pose proof (Z.mod_pos_bound (digits_value w) 10). lia.
  - apply denoted_shift; [lia|done].
Qed.

Lemma significant_value w s : trimmed w -> 0 <= s ->
  times10 (Z.to_nat s) (fold_left push_digit w (Some 0)) =
  if digits_value w * 10 ^ s <=? U64_MAX then Some (digits_value w * 10 ^ s) else None.
Proof.
  intros Hw Hs. destruct (trimmed_bounds w Hw) as (Hw1 & Hwv & _). pose proof (pow10_pos (len w - 1) ltac:(lia)).
  destruct (push_digits w 0) as [Ep|Ep]; [apply Hw|done| |unfold U64_MAX in Ep; lia]. cbv zeta in Ep.
  rewrite Ep, Z.mul_0_l, Z.add_0_l. by rewrite times10_value, Z2Nat.id by lia.
Qed.

(** The value the digits and the exponent denote, in range. *)
Definition in_range_value (neg : bool) (ds : bytes) (e : Z) (n : Number) : Prop :=
  exists v, v * 10 ^ Z.max 0 (- e) = (if neg then - digits_value ds else digits_value ds) * 10 ^ Z.max 0 e /\
    I64_MIN <= v <= U64_MAX /\ n = number_of v.

Lemma core_exact neg ds fraction limit e n : Forall digit ds -> 0 <= fraction <= len ds -> len ds + 21 <= limit ->
  core neg ds fraction (clamp limit e) = Some n <-> in_range_value neg ds (e - fraction) n.
Proof.
  intros Hd Hfr Hlim. pose proof (scan_spec ds Hd) as Hs. unfold core, in_range_value. destruct (scan ds) as [[k [f|]] l].
  2:{ destruct Hs as [_ E]. assert (E0 : digits_value ds = 0) by (rewrite E; apply digits_value_zeros). rewrite E0.
      split; [intros [= <-]; exists 0; split; [destruct neg; lia|done]|].
      intros (v & Hv & _ & ->). pose proof (pow10_pos (Z.max 0 (- (e - fraction))) ltac:(lia)).
      assert (v = 0) as -> by (destruct neg; nia). done. }
  destruct Hs as (-> & Hf & w & tz & Hw & Eds & Hlw & Htz).
  assert (Hden : forall v, v * 10 ^ Z.max 0 (- (e - fraction)) =
      (if neg then - digits_value ds else digits_value ds) * 10 ^ Z.max 0 (e - fraction) <->
      0 <= Z.of_nat tz + (e - fraction) /\ v = (if neg then - digits_value w else digits_value w) * 10 ^ (Z.of_nat tz + (e - fraction)))
    by (intros v; rewrite Eds, padded_value; by apply signed_denoted).
  destruct (trimmed_bounds w Hw) as (Hw1 & Hwv & _). pose proof (pow10_pos (len w - 1) ltac:(lia)) as Hpw.
  set (s := Z.of_nat tz + (e - fraction)) in *.
  assert (Hsum : len ds = f + len w + Z.of_nat tz)
    by (rewrite Eds; unfold len; rewrite !length_app, !length_replicate; lia).
  assert (Hnone : (20 < len w \/ 20 < len w + s \/ s < 0) -> ~ in_range_value neg ds (e - fraction) n).
  { intros Ho (v & Hv & Hr & _). apply Hden in Hv as [Hs0 ->].
    pose proof (too_wide w s Hw Hs0 ltac:(lia)). unfold I64_MIN, U64_MAX in *. destruct neg; lia. }
  rewrite <- Hlw. set (shift := clamp limit e - fraction + (len ds - l - 1)).
  assert (Hshift : shift = s \/ (shift < 0 /\ s < 0) \/ (20 < shift /\ 20 < s)) by (unfold shift, s, clamp in *; lia).
  destruct (20 <? len w) eqn:E20; bools; [split; [done|intros Hv; apply Hnone in Hv; [done|lia]]|].
  destruct ((shift <? 0) || (20 <? len w + shift)) eqn:Es.
  { split; [done|]. intros Hv. apply Hnone in Hv; [done|]. apply orb_true_iff in Es as [Es|Es]; bools; lia. }
  bools. assert (shift = s) as -> by lia.
  replace (take (Z.to_nat (len w)) (drop (Z.to_nat f) ds)) with w
    by (rewrite Eds, drop_app_length' by (by rewrite length_replicate); unfold len; by rewrite Nat2Z.id, take_app_length).
  rewrite significant_value by (done || lia). pose proof (pow10_pos s ltac:(lia)) as Hps.
  destruct (Z.leb_spec (digits_value w * 10 ^ s) U64_MAX) as [Hle|Hgt].
  - rewrite signed_spec by nia. split.
    + intros (v & Ev & Hr & ->). exists v. split; [|by split]. apply Hden. split; [lia|]. rewrite Ev. destruct neg; lia.
    + intros (v & Hv & Hr & ->). apply Hden in Hv as [_ Hv]. exists v. split; [rewrite Hv; destruct neg; lia|by split].
  - split; [done|]. intros (v & Hv & Hr & _). apply Hden in Hv as [_ ->]. unfold I64_MIN, U64_MAX in *. destruct neg; lia.
Qed.

(** Protocol integers are read exactly: for every JSON number, with any
    fraction and any exponent, [integer] answers [n] precisely when the number
    denotes an integer between -2^63 and 2^64-1, and [n] is that integer; no
    value is rounded and none in range is refused. *)
Theorem otlp_integer_exact (l : Lexeme) (n : Number) :
  lexeme_ok l -> len (lexeme_text l) <= 2 ^ 62 ->
  integer (lexeme_text l) = Some n <->
  exists v, denotes l v /\ I64_MIN <= v <= U64_MAX /\ n = number_of v.
Proof.
  intros Hok Hlen. rewrite integer_text by done. unfold denotes, mantissa_value. fold (digits_of l).
  pose proof Hok as (Hi & _ & Hf & _). apply core_exact.
  - by apply Forall_app.
  - unfold digits_of. len_lia.
  - unfold digits_of, lexeme_text, frac_text. rewrite !len_app. pose proof (len_nonneg (exp_text l)).
    destruct (lx_negative l), (lx_frac l); cbn [default from_option]; unfold id; len_lia.
Qed.

(** * The document *)

Section Document.
Context `{SimdUtf8} `{Memchr2}.

#[export] Instance Integer_total : BuilderTotal IntegerBuilder Term.
Proof.
  constructor; intros; cbn; unfold lift; try done.
  - by destruct (integer s).
  - pose proof (t_key (base b) s) as Hk. cbn in Hk. by destruct (term_key (base b) s) as [[? ?]| |].
  - pose proof (t_object (base b) k v) as Ho. cbn in Ho. by destruct (map_from_arrays k v).
Qed.

(** A scoped document is always answered. *)
Lemma otlp_json_returns input schema : decode input schema <> Fuel.
Proof.
  unfold decode. destruct (document_in _ _ _ _) as [[[[v p] b] st]| |] eqn:E; [done|done|].
  exfalso. revert E. apply document_in_not_fuel. unfold in_bounds. simpl. len_lia.
Qed.
End Document.

(** * Instances of the theorems *)

Definition sample_lexeme : Lexeme := mkLexeme true (str "12") (Some (str "50")) (Some (69, [43], str "01")).

Lemma otlp_integer_exact_witness : integer (str "-12.50E+01") = Some (Int (-125)).
Proof.
  change (str "-12.50E+01") with (lexeme_text sample_lexeme).
  apply (otlp_integer_exact sample_lexeme (Int (-125))).
  - assert (G : forall ds, forallb (fun c => (48 <=? c) && (c <=? 57)) ds = true -> Forall digit ds)
      by (intros ds Hd; rewrite forallb_forall in Hd; apply Forall_forall; intros c Hc; specialize (Hd c Hc); unfold digit; bools; lia).
    split; [by apply G|]. split; [done|]. split; [by apply G|]. split; [by right|]. split; [|by apply G].
    rewrite !elem_of_cons. right. by left.
  - vm_compute. discriminate.
  - exists (-125). split; [vm_compute; reflexivity|]. split; [vm_compute; split; discriminate|reflexivity].
Defined.
