(* ===== verification/StableHash.v ===== *)
(** Series identity, stable_hash.rs: the digest of a label set, computed from a
    scratch buffer while it fits and from the streaming hasher beyond. *)

From S2P Require Import Prelude Utf8 External.

Definition SEP : Z := 0xff.

Section Hash.
Context `{Xxh64}.
(** [buf.capacity()] after [Vec::with_capacity(1024)]: the allocator may give
    more, and the buffer never outgrows it. *)
Variable capacity : Z.

(** The buffer and the hasher that replaces it. *)
Definition State : Type := bytes * option Hasher.

Definition add_pair (s : State) (pair : bytes * bytes) : State :=
  let '(buf, hasher) := s in
  let '(name, value) := pair in
  let '(buf, hasher) :=
    match hasher with
    | None =>
        if capacity <=? len buf + len name + len value + 2
        then ([], Some (hasher_update (hasher_new 0) buf)) else (buf, None)
    | Some h => (buf, Some h)
    end in
  match hasher with
  | Some h =>
      (buf, Some (hasher_update (hasher_update (hasher_update (hasher_update h name) [SEP]) value) [SEP]))
  | None => (buf ++ name ++ [SEP] ++ value ++ [SEP], None)
  end.

Definition stable_hash (pairs : list (bytes * bytes)) : Z :=
  match fold_left add_pair pairs ([], None) with
  | (_, Some h) => hasher_digest h
  | (buf, None) => xxh64 buf 0
  end.

(** * The hashed text *)

(** [name<0xff>value<0xff>...], what Prometheus hashes. *)
Definition canonical (pairs : list (bytes * bytes)) : bytes :=
  concat (map (fun '(name, value) => name ++ [SEP] ++ value ++ [SEP]) pairs).

Lemma canonical_snoc pairs n v : canonical (pairs ++ [(n, v)]) = canonical pairs ++ n ++ [SEP] ++ v ++ [SEP].
Proof. unfold canonical. rewrite map_app, concat_app. cbn [map concat]. by rewrite app_nil_r. Qed.

(** A state that stands for the text read so far. *)
Definition stands_for (s : State) (text : bytes) : Prop :=
  match s with
  | (buf, None) => buf = text
  | (_, Some h) => exists chunks, h = fold_left hasher_update chunks (hasher_new 0) /\ concat chunks = text
  end.

Lemma add_pair_stands s pairs n v : stands_for s (canonical pairs) ->
  stands_for (add_pair s (n, v)) (canonical (pairs ++ [(n, v)])).
Proof.
  assert (Hstream : forall chunks text, concat chunks = text ->
    stands_for ([], Some (hasher_update (hasher_update (hasher_update (hasher_update
      (fold_left hasher_update chunks (hasher_new 0)) n) [SEP]) v) [SEP])) (text ++ n ++ [SEP] ++ v ++ [SEP])).
  { intros chunks text Hc. exists (chunks ++ [n; [SEP]; v; [SEP]]). rewrite fold_left_app, concat_app, Hc. split; [done|].
    cbn [concat]. by rewrite app_nil_r. }
  rewrite canonical_snoc. destruct s as [buf [h|]]; cbn [add_pair stands_for].
  - intros (chunks & -> & Hc). exact (Hstream _ _ Hc).
  - intros ->. destruct (_ <=? _); [|done]. apply (Hstream [canonical pairs]). cbn. by rewrite app_nil_r.
Qed.

Lemma stable_hash_text pairs : stable_hash pairs = xxh64 (canonical pairs) 0.
Proof.
  assert (G : stands_for (fold_left add_pair pairs ([], None)) (canonical pairs)).
  { induction pairs as [|[n v] pairs IH] using rev_ind; [done|]. rewrite fold_left_app. cbn [fold_left].
    by apply add_pair_stands. }
  unfold stable_hash. destruct (fold_left add_pair pairs ([], None)) as [buf [h|]]; cbn [stands_for] in G.
  - destruct G as (chunks & -> & <-). apply hasher_stream.
  - by rewrite G.
Qed.
End Hash.

(** ** The text determines the labels *)

Lemma split_sep a b x y : SEP ∉ a -> SEP ∉ b -> a ++ SEP :: x = b ++ SEP :: y -> a = b /\ x = y.
Proof.
  revert b. induction a as [|c a IH]; intros [|d b] Ha Hb E; cbn in E.
  - by injection E.
  - injection E as Ed _. exfalso. apply Hb. rewrite Ed. apply list_elem_of_here.
  - injection E as Ed _. exfalso. apply Ha. rewrite <- Ed. apply list_elem_of_here.
  - injection E as -> E. apply IH in E as [-> ->]; [done|..]; intros Hin; [apply Ha|apply Hb]; by apply list_elem_of_further.
Qed.

Lemma utf8_no_sep b : from_utf8_ok b = true -> SEP ∉ b.
Proof.
  intros Hu Hin. apply utf8_bytes_bound in Hu. rewrite list.Forall_forall in Hu. specialize (Hu _ Hin). unfold SEP in Hu. lia.
Qed.

Definition utf8_pair (p : bytes * bytes) : Prop := from_utf8_ok (fst p) = true /\ from_utf8_ok (snd p) = true.

Lemma canonical_inj a b : Forall utf8_pair a -> Forall utf8_pair b -> canonical a = canonical b -> a = b.
Proof.
  intros Ha. revert b. induction Ha as [|[n v] a [Hn Hv] Ha IH]; intros b Hb E.
  - destruct Hb as [|[n' v'] b _ _]; [done|]. exfalso. unfold canonical in E. cbn in E. by destruct n'.
  - destruct Hb as [|[n' v'] b [Hn' Hv'] Hb].
    { exfalso. unfold canonical in E. cbn in E. by destruct n. }
    unfold canonical in E. cbn [map concat] in E. rewrite <- !app_assoc in E. cbn [app fst snd] in *.
    apply split_sep in E as [-> E]; [|by apply utf8_no_sep..]. apply split_sep in E as [-> E]; [|by apply utf8_no_sep..].
    by rewrite (IH b Hb E).
Qed.

(** A series is hashed as Prometheus hashes it: the digest is that of
    [name 0xff value 0xff ...], whichever of the scratch buffer and the
    streaming hasher computes it and whatever capacity the buffer has; and on
    UTF-8 label sets different labels never share the hashed text. *)
Theorem stable_hash_canonical `{Xxh64} (capacity : Z) (a b : list (bytes * bytes)) :
  Forall utf8_pair a -> Forall utf8_pair b ->
  stable_hash capacity a = xxh64 (canonical a) 0 /\ (canonical a = canonical b -> a = b).
Proof. intros Ha Hb. split; [apply stable_hash_text|by apply canonical_inj]. Qed.

(** * Instances of the theorems *)

Section Witnesses.
Import Concrete.

(** One capacity keeps the buffer, the other switches to the hasher. *)
Lemma stable_hash_canonical_witness :
  stable_hash 1024 [(str "a", str "b")] = xxh64 (canonical [(str "a", str "b")]) 0 /\
  stable_hash 3 [(str "a", str "b")] = xxh64 (canonical [(str "a", str "b")]) 0.
Proof.
  split; [apply (stable_hash_canonical 1024 _ [])|apply (stable_hash_canonical 3 _ [])];
    (constructor; [vm_compute; split; reflexivity|constructor]) || constructor.
Defined.
End Witnesses.
