(* ===== verification/MetricPostings.v ===== *)
(** Label postings of metric segments, metric_postings.rs: the index from label
    values to series and from series to row groups that the segment writer puts
    in the footer, its text form, and the row groups a query can skip by it,
    with the equality matching of metric_segment_parquet.rs it has to agree
    with.

    Series are numbered by first appearance; a set of series is a bit string.
    A row is the slice of its canonical label text, an address and the bytes
    there: rows that share a label buffer have equal addresses. *)

From S2P Require Import Prelude OrdMap Utf8 External Float64 StableHash.

Definition MAGIC : bytes := str "PULSOMP1".
Definition MAX_TEXT : Z := 65536.
Definition MAX_RAW : Z := MAX_TEXT / 2.
Definition MAX_SERIES : Z := 512.
Definition MAX_GROUPS : Z := 128.
Definition MAX_ROWS : Z := 100000.
Definition MAX_LABELS : nat := 16.
Definition MAX_FIELD : Z := 256.
Definition MAX_CANONICAL : Z := 4096.
Definition MAX_DICTIONARY : Z := 131072.
Definition MAX_PROBES : Z := 16 * 1024 * 1024.

Abbreviation Bits := bytes.
Abbreviation Values := (omap bytes Bits).

Record Index : Type := mkIndex {
  series : Z;
  rows : Z;
  groups : list (Z * Bits);
  labels : omap bytes Values
}.

Definition div_ceil (a b : Z) : Z := (a + b - 1) / b.

(** [bits[ordinal / 8] |= 1 << (ordinal % 8)]; the ordinals are below the
    number of series, so the byte is there. *)
Definition set (bits : Bits) (ordinal : Z) : Bits :=
  alter (fun b => Z.lor b (Z.shiftl 1 (ordinal mod 8))) (Z.to_nat (ordinal / 8)) bits.

Definition zeros (width : Z) : Bits := replicate (Z.to_nat width) 0.
Definition numbers (n : Z) : list Z := map Z.of_nat (seq 0 (Z.to_nat n)).
Definition universe (series : Z) : Bits := fold_left set (numbers series) (zeros (div_ceil series 8)).

(** * Canonical label text *)

(** [bytes.split(|b| *b == 0xff)]. *)
Fixpoint split_ff (b : bytes) : list bytes :=
  match b with
  | [] => [[]]
  | x :: b =>
      if x =? 0xff then [] :: split_ff b
      else match split_ff b with f :: fs => (x :: f) :: fs | [] => [[x]] end
  end.

Fixpoint pairs_loop (fields : list bytes) (previous : option bytes) : option (list (bytes * bytes)) :=
  match fields with
  | [] => None
  | name :: fields =>
      match name, fields with
      | [], [] => Some []
      | _, [] => None
      | _, value :: fields =>
          if match previous with Some p => bytes_leb name p | None => false end
             || negb (from_utf8_ok name) || negb (from_utf8_ok value) then None
          else let* out := pairs_loop fields (Some name) in Some ((name, value) :: out)
      end
  end.

Definition pairs (b : bytes) : option (list (bytes * bytes)) :=
  if MAX_CANONICAL <? len b then None else pairs_loop (split_ff b) None.

(** [labels.iter().find(|(key, _)| *key == name)]. *)
Fixpoint label_value (name : bytes) (labels : list (bytes * bytes)) : option bytes :=
  match labels with
  | [] => None
  | (k, v) :: labels => if bytes_eqb k name then Some v else label_value name labels
  end.

(** * Building *)

Record Dictionary : Type := mkDictionary {
  dictionary : omap bytes Z;
  dictionary_bytes : Z;
  probes : Z;
  previous : option (Z * Z * Z);
  ordinals : list Z
}.

Abbreviation Row := (Z * bytes)%type.

(** The ordinal of a row: the one before it when the slice is the same, else
    looked up, else new. *)
Definition row_ordinal (d : Dictionary) (row : Row) : option (Z * Dictionary) :=
  let '(pointer, canonical) := row in
  let lookup :=
    let* probes := checked_u64 (d.(probes) + len canonical) in
    if (MAX_CANONICAL <? len canonical) || (MAX_PROBES <? probes) then None
    else
      match find canonical d.(dictionary) with
      | Some ordinal => Some (ordinal, mkDictionary d.(dictionary) d.(dictionary_bytes) probes d.(previous) d.(ordinals))
      | None =>
          if MAX_SERIES <=? len d.(dictionary) then None
          else
            let* total := checked_u64 (d.(dictionary_bytes) + len canonical) in
            if MAX_DICTIONARY <? total then None
            else
              let ordinal := len d.(dictionary) in
              Some (ordinal, mkDictionary (put canonical ordinal d.(dictionary)) total probes d.(previous) d.(ordinals))
      end in
  match d.(previous) with
  | Some (p, length_, ordinal) => if (p =? pointer) && (length_ =? len canonical) then Some (ordinal, d) else lookup
  | None => lookup
  end.

Definition add_row (d : Dictionary) (row : Row) : option Dictionary :=
  let* (ordinal, d) := row_ordinal d row in
  Some (mkDictionary d.(dictionary) d.(dictionary_bytes) d.(probes) (Some (fst row, len (snd row), ordinal))
          (d.(ordinals) ++ [ordinal mod 65536])).

Fixpoint add_rows (d : Dictionary) (l : list Row) : option Dictionary :=
  match l with
  | [] => Some d
  | row :: l => let* d := add_row d row in add_rows d l
  end.

Definition Dictionary_new : Dictionary := mkDictionary [] 0 0 None [].

(** The rows of each group and the series in it. *)
Fixpoint fill_groups (group_size : Z) (row : Z) (l : list Z) (row_groups : list (Z * Bits)) : list (Z * Bits) :=
  match l with
  | [] => row_groups
  | ordinal :: l =>
      fill_groups group_size (row + 1) l
        (alter (fun g => (fst g + 1, set (snd g) ordinal)) (Z.to_nat (row / group_size)) row_groups)
  end.

Abbreviation Parsed := (list (Z * list (bytes * bytes))).

(** The complete partition of the series by one label, unless a value is too
    long. *)
Fixpoint partition (name : bytes) (width : Z) (l : Parsed) (values : Values) : option Values :=
  match l with
  | [] => Some values
  | (ordinal, labels) :: l =>
      let value := default [] (label_value name labels) in
      if MAX_FIELD <? len value then None
      else partition name width l (update value (zeros width) (fun bits => set bits ordinal) values)
  end.

Definition sumZ (l : list Z) : Z := fold_right Z.add 0 l.

Definition values_size (width : Z) (name : bytes) (values : Values) : Z :=
  2 + len name + 2 + sumZ (map (fun value => 2 + len value + width) (keys values)).

Fixpoint index_names (names : list bytes) (width : Z) (parsed : Parsed) (size : Z) (acc : omap bytes Values)
    : omap bytes Values :=
  match names with
  | [] => acc
  | name :: names =>
      match partition name width parsed [] with
      | None => index_names names width parsed size acc
      | Some values =>
          let b := values_size width name values in
          if MAX_RAW <? size + b then index_names names width parsed size acc
          else index_names names width parsed (size + b) (put name values acc)
      end
  end.

(** A [BTreeSet] of names, as the keys of a map. *)
Definition name_set (parsed : Parsed) : omap bytes unit :=
  fold_left (fun s name => put name tt s)
    (List.filter (fun name => len name <=? MAX_FIELD) (concat (map (fun p => map fst (snd p)) parsed))) [].

Definition metric_name : bytes := str "__name__".

(** [names.take("__name__")] first, then the rest in byte order. *)
Definition examined (parsed : Parsed) : list bytes :=
  let names := name_set parsed in
  take MAX_LABELS
    (match find metric_name names with Some _ => [metric_name] | None => [] end ++ keys (remove metric_name names)).

Section Text.
Context `{Xxh64}.

(** ** The text *)

Definition u16_bytes (v : Z) : bytes := to_le_bytes 2 (v mod 65536).
Definition u32_bytes (v : Z) : bytes := to_le_bytes 4 (v mod 4294967296).
Definition field (v : bytes) : bytes := u16_bytes (len v) ++ v.

Definition put_group (g : Z * Bits) : bytes := u32_bytes (fst g) ++ snd g.
Definition put_value (e : bytes * Bits) : bytes := field (fst e) ++ snd e.
Definition put_label (e : bytes * Values) : bytes :=
  field (fst e) ++ u16_bytes (len (snd e)) ++ concat (map put_value (snd e)).
Definition body (i : Index) : bytes :=
  MAGIC ++ u16_bytes i.(series) ++ u32_bytes i.(rows) ++ u16_bytes (len i.(groups)) ++ concat (map put_group i.(groups)) ++
  u16_bytes (len i.(labels)) ++ concat (map put_label i.(labels)).

Definition HEX : bytes := str "0123456789abcdef".
Definition hex (b : bytes) : bytes :=
  concat (map (fun x => [default 0 (get HEX (Z.shiftr x 4)); default 0 (get HEX (Z.land x 15))]) b).

Definition encode (i : Index) : bytes :=
  let out := body i in hex (out ++ to_le_bytes 8 (xxh64 out 0)).

(** The index of a segment, before it is spelled. *)
Definition build_index (l : list Row) (group_size : Z) : option Index :=
  let count := len l in
  if (count =? 0) || (MAX_ROWS <? count) || (group_size =? 0) then None
  else
    let n := div_ceil count group_size in
    if MAX_GROUPS <? n then None
    else
      let* d := add_rows Dictionary_new l in
      let total := len d.(dictionary) in
      let width := div_ceil total 8 in
      let row_groups := fill_groups group_size 0 d.(ordinals) (replicate (Z.to_nat n) (0, zeros width)) in
      let* parsed := mapO (fun '(canonical, ordinal) => let* p := pairs canonical in Some (ordinal, p)) d.(dictionary) in
      let size := 8 + 2 + 4 + 2 + n * (4 + width) + 2 + 8 in
      let indexed := index_names (examined parsed) width parsed size [] in
      match indexed with
      | [] => None
      | _ => Some (mkIndex total count row_groups indexed)
      end.

Definition build (l : list Row) (group_size : Z) : option bytes :=
  let* i := build_index l group_size in Some (encode i).

(** * Reading *)

(** [Cursor]: the bytes that are left. *)
Definition take_ (c : bytes) (count : Z) : option (bytes * bytes) :=
  let* v := get_range c 0 count in Some (v, drop (Z.to_nat count) c).
Definition u16 (c : bytes) : option (Z * bytes) := let* (b, c) := take_ c 2 in Some (from_le_bytes b, c).
Definition u32 (c : bytes) : option (Z * bytes) := let* (b, c) := take_ c 4 in Some (from_le_bytes b, c).
Definition read_field (c : bytes) : option (bytes * bytes) :=
  let* (count, c) := u16 c in
  if MAX_FIELD <? count then None
  else
    let* (b, c) := take_ c count in
    if from_utf8_ok b then Some (b, c) else None.
Definition read_bits (all : Bits) (c : bytes) : option (Bits * bytes) :=
  let* (bits, c) := take_ c (len all) in
  if existsb (fun '(b, u) => negb (Z.land b (Z.lxor 255 u) =? 0)) (zip bits all) || forallb (fun b => b =? 0) bits
  then None else Some (bits, c).

Definition nibble (b : Z) : option Z :=
  if (48 <=? b) && (b <=? 57) then Some (b - 48) else if (97 <=? b) && (b <=? 102) then Some (b - 97 + 10) else None.

(** [text.as_chunks::<2>().0], each a byte. *)
Fixpoint unhex (text : bytes) : option bytes :=
  match text with
  | a :: b :: text =>
      let* x := nibble a in
      let* y := nibble b in
      let* raw := unhex text in Some (x * 16 + y :: raw)
  | _ => Some []
  end.

Fixpoint ones (n : nat) (b : Z) : Z :=
  match n with O => 0 | S n => b mod 2 + ones n (b / 2) end.
Definition count_ones (b : Z) : Z := ones 8 b.
Definition population (bits : Bits) : Z := sumZ (map count_ones bits).

(** [for (a, b) in a.iter_mut().zip(b) { .. }]. *)
Fixpoint zip_into (f : Z -> Z -> Z) (a b : Bits) : Bits :=
  match a, b with
  | x :: a, y :: b => f x y :: zip_into f a b
  | a, _ => a
  end.
Definition or_bits (a b : Bits) : Bits := zip_into Z.lor a b.

Fixpoint read_groups (n : nat) (total : Z) (all : Bits) (c : bytes) (acc : list (Z * Bits)) (covered : Bits) (group_rows : Z)
    : option (list (Z * Bits) * Bits * Z * bytes) :=
  match n with
  | O => Some (acc, covered, group_rows, c)
  | S n =>
      let* (count, c) := u32 c in
      let* (bits, c) := read_bits all c in
      if (count =? 0) || (total <? count) || (count <? population bits) then None
      else
        let* group_rows := checked_u64 (group_rows + count) in
        read_groups n total all c (acc ++ [(count, bits)]) (or_bits covered bits) group_rows
  end.

(** [previous.is_some_and(|p| p >= name)]. *)
Definition not_after (previous : option bytes) (name : bytes) : bool :=
  match previous with Some p => bytes_leb name p | None => false end.

Fixpoint read_values (n : nat) (all : Bits) (c : bytes) (values : Values) (covered : Bits) (previous : option bytes)
    : option (Values * Bits * bytes) :=
  match n with
  | O => Some (values, covered, c)
  | S n =>
      let* (value, c) := read_field c in
      if not_after previous value then None
      else
        let* (bits, c) := read_bits all c in
        if existsb (fun '(s, b) => negb (Z.land s b =? 0)) (zip covered bits) then None
        else read_values n all c (put value bits values) (or_bits covered bits) (Some value)
  end.

Fixpoint read_labels (n : nat) (total : Z) (all : Bits) (c : bytes) (acc : omap bytes Values) (previous : option bytes)
    : option (omap bytes Values * bytes) :=
  match n with
  | O => Some (acc, c)
  | S n =>
      let* (name, c) := read_field c in
      if not_after previous name then None
      else
        let* (count, c) := u16 c in
        if (count =? 0) || (total <? count) then None
        else
          let* (values, covered, c) := read_values (Z.to_nat count) all c [] (zeros (len all)) None in
          if bytes_eqb covered all then read_labels n total all c (put name values acc) (Some name) else None
  end.

(** The part after the checksum. *)
Definition parse_body (b : bytes) : option Index :=
  let* (magic, c) := take_ b (len MAGIC) in
  if negb (bytes_eqb magic MAGIC) then None
  else
    let* (series, c) := u16 c in
    let* (rows, c) := u32 c in
    let* (groups, c) := u16 c in
    if (series =? 0) || (MAX_SERIES <? series) || (rows =? 0) || (MAX_ROWS <? rows) || (groups =? 0) || (MAX_GROUPS <? groups)
    then None
    else
      let all := universe series in
      let* (group_bits, covered, group_rows, c) := read_groups (Z.to_nat groups) rows all c [] (zeros (len all)) 0 in
      if negb (group_rows =? rows) || negb (bytes_eqb covered all) then None
      else
        let* (label_count, c) := u16 c in
        if (label_count =? 0) || (Z.of_nat MAX_LABELS <? label_count) then None
        else
          let* (labels, c) := read_labels (Z.to_nat label_count) series all c [] None in
          match c with
          | [] => Some (mkIndex series rows group_bits labels)
          | _ => None
          end.

Definition parse (text : bytes) : option Index :=
  if (MAX_TEXT <? len text) || negb (len text mod 2 =? 0) || (len text <? 16) then None
  else
    let* raw := unhex text in
    let n := len raw - 8 in
    let* b := get_range raw 0 n in
    let* digest := get_range raw (len b) (len raw) in
    if xxh64 b 0 =? from_le_bytes digest then parse_body b else None.
End Text.

(** * Queries *)

Inductive MatcherOp : Type := MEq | MNeq | MRe | MNre.
Record Matcher : Type := mkMatcher { name : bytes; op : MatcherOp; value : bytes }.

Definition is_eq (m : Matcher) : bool := match m.(op) with MEq => true | _ => false end.

(** One equality matcher narrows the selected series. *)
Definition narrow (i : Index) (acc : Bits * bool) (m : Matcher) : Bits * bool :=
  let '(selected, used) := acc in
  if negb (is_eq m) then (selected, used)
  else
    match find m.(name) i.(labels) with
    | None => (selected, used)
    | Some values =>
        match find m.(value) values with
        | Some bits => (zip_into Z.land selected bits, true)
        | None => (map (fun _ => 0) selected, true)
        end
    end.

Definition candidates (i : Index) (matchers : list Matcher) : option (list bool) :=
  let '(selected, used) := fold_left (narrow i) matchers (universe i.(series), false) in
  if used then
    Some (map (fun g => existsb (fun '(a, b) => negb (Z.land a b =? 0)) (zip (snd g) selected)) i.(groups))
  else None.

(** What the reader asks of a Parquet footer: the key-value entries, the rows
    of the file and of each row group. *)
Record Metadata : Type := mkMetadata {
  key_value_metadata : option (list (bytes * option bytes));
  num_rows : Z;
  row_groups : list Z
}.

Definition KEY : bytes := str "pulso.metric.postings.v1".

Definition candidate_groups `{Xxh64} (m : Metadata) (matchers : list Matcher) : option (list bool) :=
  if negb (existsb is_eq matchers) then None
  else
    let* entries := m.(key_value_metadata) in
    match List.filter (fun e => bytes_eqb (fst e) KEY) entries with
    | [(_, Some text)] =>
        let* i := parse text in
        if negb (m.(num_rows) =? i.(rows)) || negb (len m.(row_groups) =? len i.(groups))
           || existsb (fun '(n, g) => negb (n =? fst g)) (zip m.(row_groups) i.(groups))
        then None
        else candidates i matchers
    | _ => None
    end.

(** ** Matching a row

    [parse_canonical_pairs] and [labels_match] of metric_segment_parquet.rs; a
    compiled regular expression is a parameter of the match. *)

(** [memchr(0xff, bytes)]. *)
Fixpoint find_ff (b : bytes) : option Z :=
  match b with
  | [] => None
  | x :: b => if x =? 0xff then Some 0 else let* i := find_ff b in Some (i + 1)
  end.

(** The source walks with an index; every pair takes two bytes, so the length
    is enough fuel. *)
Fixpoint parse_canonical_pairs (fuel : nat) (b : bytes) : res unit (list (bytes * bytes)) :=
  match b with
  | [] => Ok []
  | _ =>
      match fuel with
      | O => Fuel
      | S fuel =>
          let? name_end := ok_or (find_ff b) tt in
          let rest := drop (Z.to_nat (name_end + 1)) b in
          let? value_end := ok_or (find_ff rest) tt in
          let? out := parse_canonical_pairs fuel (drop (Z.to_nat (value_end + 1)) rest) in
          Ok ((take (Z.to_nat name_end) b, take (Z.to_nat value_end) rest) :: out)
      end
  end.

Definition Regex : Type := bytes -> bool.

(** The last two branches compare under the optional compiled expression of
    the matcher; a value that is not UTF-8 does not match it. *)
Definition matcher_ok (labels : list (bytes * bytes)) (m : Matcher) (re : option Regex) : bool :=
  let got := label_value m.(name) labels in
  match m.(op) with
  | MEq => match got with Some v => bytes_eqb v m.(value) | None => bytes_eqb m.(value) [] end
  | MNeq => match got with Some v => negb (bytes_eqb v m.(value)) | None => negb (bytes_eqb m.(value) []) end
  | MRe | MNre =>
      match re with
      | None => false
      | Some re =>
          let actual := default [] got in
          let matched := from_utf8_ok actual && re actual in
          match m.(op) with MRe => matched | _ => negb matched end
      end
  end.

Definition labels_match (labels : list (bytes * bytes)) (matchers : list Matcher) (regex_cache : list (option Regex)) : bool :=
  forallb (fun '(m, re) => matcher_ok labels m re) (zip matchers regex_cache).

(** * Sets of series as bits *)

Definition bit (bits : Bits) (o : Z) : bool := Z.testbit (nth (Z.to_nat (o / 8)) bits 0) (o mod 8).

Lemma len_set bits o : len (set bits o) = len bits.
Proof. unfold set, len. by rewrite length_alter. Qed.

Lemma len_zeros w : 0 <= w -> len (zeros w) = w.
Proof. intros Hw. unfold zeros, len. rewrite length_replicate. lia. Qed.

Lemma nth_alter (f : Z -> Z) i j (l : Bits) : (i < length l)%nat ->
  nth j (alter f i l) 0 = if decide (i = j) then f (nth j l 0) else nth j l 0.
Proof.
  intros Hi. rewrite !nth_lookup. destruct (decide (i = j)) as [<-|Hn].
  - rewrite list_lookup_alter. rewrite decide_True by done. destruct (lookup_lt_is_Some_2 l i Hi) as [x ->]. done.
  - by rewrite list_lookup_alter_ne.
Qed.

Lemma bit_set bits j o : 0 <= j -> 0 <= o -> j / 8 < len bits -> bit (set bits j) o = (o =? j) || bit bits o.
Proof.
  intros Hj Ho Hl. unfold bit, set. rewrite nth_alter by (unfold len in Hl; apply Nat2Z.inj_lt; rewrite Z2Nat.id; [lia|apply Z.div_pos; lia]).
  assert (0 <= o / 8 /\ 0 <= j / 8) as [H1 H2] by (split; apply Z.div_pos; lia).
  destruct (decide _) as [E|E].
  - rewrite Z.lor_spec, Z.shiftl_spec by dlia. rewrite orb_comm. f_equal.
    assert (Ed : o / 8 = j / 8) by lia.
    destruct (Z.eqb_spec o j) as [->|Hn]; [by rewrite Z.sub_diag|].
    destruct (Z.testbit 1 (o mod 8 - j mod 8)) eqn:Et; [|done]. exfalso.
    destruct (Z_lt_ge_dec (o mod 8 - j mod 8) 0); [by rewrite Z.testbit_neg_r in Et|].
    assert (o mod 8 - j mod 8 = 0); [|dlia]. destruct (Z.eq_dec (o mod 8 - j mod 8) 0); [done|].
    rewrite Z.bits_above_log2 in Et; [done|lia|cbn; lia].
  - rewrite (proj2 (Z.eqb_neq o j)); [done|]. intros ->. done.
Qed.

Lemma bit_zeros w o : bit (zeros w) o = false.
Proof.
  unfold bit, zeros. rewrite nth_lookup. destruct (_ !! _) as [x|] eqn:E; [|apply Z.testbit_0_l].
  apply lookup_replicate in E as [-> _]. apply Z.testbit_0_l.
Qed.

Lemma byte_set bits o : 0 <= o -> byte_list bits -> byte_list (set bits o).
Proof.
  intros Ho Hb. unfold set, byte_list in *. apply Forall_alter; [done|]. intros x Hx [H1 H2].
  assert (Hs : 0 <= Z.shiftl 1 (o mod 8) < 256).
  { rewrite Z.shiftl_1_l. split; [apply Z.pow_nonneg; lia|]. change 256 with (2 ^ 8). apply Z.pow_lt_mono_r; dlia. }
  split; [apply Z.lor_nonneg; lia|]. destruct (Z.eq_dec (Z.lor x (Z.shiftl 1 (o mod 8))) 0) as [->|Hn]; [lia|].
  change 256 with (2 ^ 8). apply Z.log2_lt_pow2; [pose proof (proj2 (Z.lor_nonneg x (Z.shiftl 1 (o mod 8)))); lia|].
  rewrite Z.log2_lor by lia. apply Z.max_lub_lt.
  - destruct (Z.eq_dec x 0) as [->|]; [done|]. apply Z.log2_lt_pow2; lia.
  - apply Z.log2_lt_pow2; [|lia]. rewrite Z.shiftl_1_l. apply Z.pow_pos_nonneg; dlia.
Qed.

Lemma byte_zeros w : byte_list (zeros w).
Proof. apply Forall_replicate. lia. Qed.

(** A fold of [set] over ordinals that fit. *)
Lemma fold_set l bits : Forall (fun j => 0 <= j /\ j / 8 < len bits) l ->
  len (fold_left set l bits) = len bits /\ (byte_list bits -> byte_list (fold_left set l bits)) /\
  forall o, 0 <= o -> bit (fold_left set l bits) o = bool_decide (o ∈ l) || bit bits o.
Proof.
  revert bits. induction l as [|j l IH]; intros bits Hl; cbn [fold_left].
  { split_and!; [done|done|]. intros o Ho. rewrite bool_decide_eq_false_2; [done|apply not_elem_of_nil]. }
  apply Forall_cons_1 in Hl as [[Hj Hb] Hl]. destruct (IH (set bits j)) as (L & B & E).
  { eapply Forall_impl; [|exact Hl]. intros k. by rewrite len_set. }
  rewrite len_set in L. split_and!; [done|intros; by apply B, byte_set|]. intros o Ho. rewrite E, bit_set by done.
  rewrite orb_assoc. f_equal. apply eq_bool_prop_intro. rewrite orb_True, !Is_true_true, !bool_decide_eq_true, Z.eqb_eq, elem_of_cons. tauto.
Qed.

Lemma numbers_in n o : o ∈ numbers n <-> 0 <= o < n.
Proof.
  unfold numbers. rewrite list_elem_of_In, in_map_iff. split.
  - intros (k & <- & Hk). apply in_seq in Hk. lia.
  - intros Ho. exists (Z.to_nat o). split; [lia|]. apply in_seq. lia.
Qed.

Lemma len_numbers n : 0 <= n -> len (numbers n) = n.
Proof. intros Hn. unfold numbers, len. rewrite length_map, length_seq. lia. Qed.

Lemma div_ceil_fits n j : 0 <= j < n -> j / 8 < div_ceil n 8.
Proof. unfold div_ceil. intros. dlia. Qed.

Lemma div_ceil_nonneg n d : 0 <= n -> 0 < d -> 0 <= div_ceil n d.
Proof. intros. unfold div_ceil. apply Z.div_pos; lia. Qed.

Lemma universe_spec n : 0 <= n -> len (universe n) = div_ceil n 8 /\ byte_list (universe n) /\
  forall o, 0 <= o -> bit (universe n) o = (o <? n).
Proof.
  intros Hn. pose proof (div_ceil_nonneg n 8 Hn ltac:(lia)) as Hd. unfold universe.
  destruct (fold_set (numbers n) (zeros (div_ceil n 8))) as (L & B & E).
  { apply list.Forall_forall. intros j Hj. apply numbers_in in Hj. rewrite len_zeros by done. split; [lia|by apply div_ceil_fits]. }
  rewrite len_zeros in L by done. split_and!; [done|apply B, byte_zeros|]. intros o Ho. rewrite E, bit_zeros, orb_false_r by done.
  apply eq_bool_prop_intro. rewrite !Is_true_true, bool_decide_eq_true, numbers_in, Z.ltb_lt. lia.
Qed.

Lemma bit_outside bits o : 8 * len bits <= o -> bit bits o = false.
Proof.
  intros Ho. unfold bit. rewrite nth_overflow; [apply Z.testbit_0_l|]. pose proof (len_nonneg bits). unfold len in *. 
  apply Nat2Z.inj_le. rewrite Z2Nat.id; [dlia|apply Z.div_pos; lia].
Qed.

(** Two bit strings with the same members are equal. *)
Lemma bits_ext a b : byte_list a -> byte_list b -> len a = len b -> (forall o, 0 <= o -> bit a o = bit b o) -> a = b.
Proof.
  intros Ha Hb Hl He. apply list_eq_same_length with (n := length a); [unfold len in Hl; lia|done|]. intros i x y Hi Hx Hy.
  assert (0 <= x < 256) by (apply Forall_lookup_1 with (1 := Ha) in Hx; done).
  assert (0 <= y < 256) by (apply Forall_lookup_1 with (1 := Hb) in Hy; done).
  apply Z.bits_inj'. intros k Hk. destruct (Z_lt_ge_dec k 8).
  - specialize (He (8 * Z.of_nat i + k) ltac:(lia)). unfold bit in He.
    replace ((8 * Z.of_nat i + k) / 8) with (Z.of_nat i) in He by dlia.
    replace ((8 * Z.of_nat i + k) mod 8) with k in He by dlia.
    rewrite Nat2Z.id, !nth_lookup, Hx, Hy in He. exact He.
  - assert (Hz : forall z, 0 <= z < 256 -> Z.testbit z k = false).
    { intros z Hz. destruct (Z.eq_dec z 0) as [->|]; [apply Z.testbit_0_l|]. apply Z.bits_above_log2; [lia|].
      apply Z.lt_le_trans with 8; [|lia]. apply Z.log2_lt_pow2; [lia|]. cbn. lia. }
    by rewrite !Hz.
Qed.

Lemma len_zip_into f a b : len (zip_into f a b) = len a.
Proof. revert b. induction a as [|x a IH]; intros [|y b]; cbn [zip_into]; rewrite ?len_cons, ?IH; done. Qed.

Lemma bit_zip_into f g a b o : len a = len b -> (forall x y k, Z.testbit (f x y) k = g (Z.testbit x k) (Z.testbit y k)) -> g false false = false ->
  bit (zip_into f a b) o = g (bit a o) (bit b o).
Proof.
  intros Hl Hf Hg. unfold bit. generalize (Z.to_nat (o / 8)). revert b Hl. induction a as [|x a IH]; intros [|y b] Hl n; cbn [zip_into].
  - destruct n; cbn [nth]; rewrite !Z.testbit_0_l; done.
  - by len_lia.
  - by len_lia.
  - destruct n as [|n]; cbn [nth]; [apply Hf|]. apply IH. len_lia.
Qed.

Lemma bit_or a b o : len a = len b -> bit (or_bits a b) o = bit a o || bit b o.
Proof. intros Hl. apply (bit_zip_into Z.lor orb); [done|apply Z.lor_spec|done]. Qed.
Lemma bit_and a b o : len a = len b -> bit (zip_into Z.land a b) o = bit a o && bit b o.
Proof. intros Hl. apply (bit_zip_into Z.land andb); [done|apply Z.land_spec|done]. Qed.

(** A word with bits is not zero. *)
Lemma byte_bits x y : 0 <= x < 256 -> negb (Z.land x y =? 0) = true <-> exists k, 0 <= k < 8 /\ Z.testbit x k = true /\ Z.testbit y k = true.
Proof.
  intros Hx. rewrite negb_true_iff, Z.eqb_neq. split.
  - intros Hn.
    assert (Hex : ~ forall k, 0 <= k -> Z.testbit (Z.land x y) k = false).
    { intros Hz. apply Hn. apply Z.bits_inj'. intros k Hk. by rewrite Hz, Z.testbit_0_l. }
    assert (Hd : forall n : nat, (exists k, 0 <= k < Z.of_nat n /\ Z.testbit (Z.land x y) k = true) \/
      forall k, 0 <= k < Z.of_nat n -> Z.testbit (Z.land x y) k = false).
    { induction n as [|n [IH|IH]]; [right; lia|left; destruct IH as (k & ? & ?); exists k; split; [lia|done]|].
      destruct (Z.testbit (Z.land x y) (Z.of_nat n)) eqn:E; [left; exists (Z.of_nat n); split; [lia|done]|right].
      intros k Hk. destruct (Z.eq_dec k (Z.of_nat n)) as [->|]; [done|]. apply IH. lia. }
    destruct (Hd 8%nat) as [(k & Hk & Ht)|Hz].
    + exists k. rewrite Z.land_spec in Ht. bools. split; [lia|done].
    + exfalso. apply Hex. intros k Hk. destruct (Z_lt_ge_dec k 8); [by apply Hz|]. rewrite Z.land_spec.
      destruct (Z.eq_dec x 0) as [->|]; [by rewrite Z.testbit_0_l|]. rewrite Z.bits_above_log2; [done|lia|].
      apply Z.lt_le_trans with 8; [|lia]. apply Z.log2_lt_pow2; [lia|]. cbn. lia.
  - intros (k & Hk & H1 & H2) E. pose proof (Z.land_spec x y k) as Hs. rewrite E, H1, H2, Z.testbit_0_l in Hs. done.
Qed.

(** The intersection test of two bit strings. *)
Lemma meets a b : byte_list a -> len a = len b ->
  existsb (fun '(x, y) => negb (Z.land x y =? 0)) (zip a b) = true <-> exists o, 0 <= o /\ bit a o = true /\ bit b o = true.
Proof.
  intros Ha Hl. rewrite existsb_exists. split.
  - intros ([x y] & Hin & Hn). apply list_elem_of_In, list_elem_of_lookup in Hin as [i Hi].
    apply lookup_zip_Some in Hi as [Hx Hy]. apply byte_bits in Hn as (k & Hk & H1 & H2).
    2:{ apply Forall_lookup_1 with (1 := Ha) in Hx. done. }
    exists (8 * Z.of_nat i + k). unfold bit. replace ((8 * Z.of_nat i + k) / 8) with (Z.of_nat i) by dlia.
    replace ((8 * Z.of_nat i + k) mod 8) with k by dlia. rewrite Nat2Z.id, !nth_lookup, Hx, Hy. split; [lia|done].
  - intros (o & Ho & H1 & H2). destruct (Z_lt_ge_dec o (8 * len a)).
    2:{ by rewrite bit_outside in H1 by lia. }
    assert (Hi : (Z.to_nat (o / 8) < length a)%nat).
    { unfold len in *. apply Nat2Z.inj_lt. rewrite Z2Nat.id; [dlia|apply Z.div_pos; lia]. }
    destruct (lookup_lt_is_Some_2 a _ Hi) as [x Hx]. destruct (lookup_lt_is_Some_2 b (Z.to_nat (o / 8))) as [y Hy]; [unfold len in *; lia|].
    exists (x, y). split.
    + apply list_elem_of_In, list_elem_of_lookup. exists (Z.to_nat (o / 8)). apply lookup_zip_Some. done.
    + unfold bit in H1, H2. rewrite nth_lookup, Hx in H1. rewrite nth_lookup, Hy in H2. cbn in H1, H2.
      apply byte_bits; [apply Forall_lookup_1 with (1 := Ha) in Hx; done|]. exists (o mod 8). split; [dlia|done].
Qed.

(** * Reading is the inverse of writing *)

Lemma take_iff c n v c' : 0 <= n -> take_ c n = Some (v, c') <-> c = v ++ c' /\ len v = n.
Proof.
  intros Hn. unfold take_, get_range, slice. change (Z.to_nat 0) with 0%nat. rewrite drop_0, Z.sub_0_r. split.
  - destruct (_ && _) eqn:E; [|done]. bools. intros [= <- <-]. split; [by rewrite take_drop|].
    unfold len in *. rewrite length_take. lia.
  - intros [-> Hl]. rewrite len_app, !(proj2 (Z.leb_le _ _)) by len_lia. cbn [andb].
    replace (Z.to_nat n) with (length v) by (unfold len in Hl; lia). by rewrite take_app_length, drop_app_length.
Qed.

Lemma to_from_le_bytes b : byte_list b -> to_le_bytes (length b) (from_le_bytes b) = b.
Proof.
  induction 1 as [|x b Hx Hb IH]; [done|]. cbn [length to_le_bytes from_le_bytes]. rewrite Z.mul_comm, Z.mod_add, Z.mod_small by lia.
  rewrite Z.div_add, Z.div_small, Z.add_0_l by lia. by rewrite IH.
Qed.

(** A fixed-width count. *)
Lemma word_iff (n : nat) c v c' : byte_list c ->
  (let* (b, c) := take_ c (Z.of_nat n) in Some (from_le_bytes b, c)) = Some (v, c') <->
  c = to_le_bytes n (v mod 256 ^ Z.of_nat n) ++ c' /\ 0 <= v < 256 ^ Z.of_nat n.
Proof.
  intros Hc. split.
  - destruct (take_ c (Z.of_nat n)) as [[b c1]|] eqn:E; [|done]. apply take_iff in E as [-> Hl]; [|lia].
    intros [= <- <-]. apply byte_list_app in Hc as [Hb _]. pose proof (from_le_bytes_bound _ Hb) as Hr. rewrite Hl in Hr.
    split; [|done]. rewrite Z.mod_small by done. replace n with (length b) by (unfold len in Hl; lia). by rewrite to_from_le_bytes.
  - intros [-> Hv]. rewrite Z.mod_small by done. rewrite (proj2 (take_iff _ (Z.of_nat n) (to_le_bytes n v) c' ltac:(lia))).
    + by rewrite from_to_le_bytes.
    + split; [done|apply to_le_bytes_len].
Qed.

Lemma u16_iff c v c' : byte_list c -> u16 c = Some (v, c') <-> c = u16_bytes v ++ c' /\ 0 <= v < 65536.
Proof. apply (word_iff 2). Qed.
Lemma u32_iff c v c' : byte_list c -> u32 c = Some (v, c') <-> c = u32_bytes v ++ c' /\ 0 <= v < 4294967296.
Proof. apply (word_iff 4). Qed.

Definition field_ok (v : bytes) : Prop := len v <= MAX_FIELD /\ from_utf8_ok v = true.

Lemma read_field_iff c v c' : byte_list c -> read_field c = Some (v, c') <-> c = field v ++ c' /\ field_ok v.
Proof.
  intros Hc. unfold read_field, field, field_ok, MAX_FIELD. split.
  - destruct (u16 c) as [[n c1]|] eqn:E; [|done]. apply u16_iff in E as [-> Hn]; [|done].
    destruct (256 <? n) eqn:El; [done|]. destruct (take_ c1 n) as [[b c2]|] eqn:Et; [|done].
    apply take_iff in Et as [-> Hl]; [|lia]. destruct (from_utf8_ok b) eqn:Eu; [|done]. intros [= <- <-]. bools.
    rewrite Hl, <- app_assoc. done.
  - intros (-> & Hl & Hu). rewrite <- app_assoc in *. rewrite (proj2 (u16_iff _ (len v) (v ++ c') Hc)) by (split; [done|len_lia]).
    rewrite (proj2 (Z.ltb_ge _ _)) by done. rewrite (proj2 (take_iff _ (len v) v c' ltac:(len_lia))) by done. by rewrite Hu.
Qed.

(** A nonempty set of known series. *)
Definition bits_ok (all bits : Bits) : Prop :=
  len bits = len all /\ byte_list bits /\ (forall o, 0 <= o -> bit bits o = true -> bit all o = true) /\
  exists o, 0 <= o /\ bit bits o = true.

Lemma all_zero bits : byte_list bits -> forallb (fun b => b =? 0) bits = true <-> forall o, 0 <= o -> bit bits o = false.
Proof.
  intros Hb. split.
  - intros Hz o Ho. unfold bit. rewrite nth_lookup. destruct (_ !! _) as [x|] eqn:E; [|apply Z.testbit_0_l].
    apply list_elem_of_lookup_2 in E. rewrite forallb_forall in Hz. apply list_elem_of_In in E. apply Hz in E. bools. cbn. by rewrite E, Z.testbit_0_l.
  - intros Hz. assert (E : bits = zeros (len bits)).
    { apply bits_ext; [done|apply byte_zeros|by rewrite len_zeros by len_lia|]. intros o Ho. by rewrite Hz, bit_zeros. }
    rewrite E. unfold zeros. induction (Z.to_nat (len bits)); cbn; [done|by rewrite IHn].
Qed.

Lemma bit_complement all o : byte_list all -> 0 <= o < 8 * len all -> bit (map (Z.lxor 255) all) o = negb (bit all o).
Proof.
  intros Ha Ho. unfold bit. rewrite !nth_lookup. assert (Hi : (Z.to_nat (o / 8) < length all)%nat).
  { unfold len in *. apply Nat2Z.inj_lt. rewrite Z2Nat.id; [dlia|apply Z.div_pos; lia]. }
  destruct (lookup_lt_is_Some_2 all _ Hi) as [x Hx]. rewrite list_lookup_fmap, Hx. cbn. rewrite Z.lxor_spec.
  change 255 with (Z.ones 8). rewrite Z.ones_spec_low by dlia. by destruct (Z.testbit x (o mod 8)).
Qed.

Lemma bit_bound bits o : bit bits o = true -> 0 <= o -> o < 8 * len bits.
Proof. intros Hb Ho. destruct (Z_lt_ge_dec o (8 * len bits)); [done|]. by rewrite bit_outside in Hb by lia. Qed.

Lemma existsb_zip_map {A B C} (f : A -> C -> bool) (g : B -> C) a b :
  existsb (fun '(x, y) => f x (g y)) (zip a b) = existsb (fun '(x, y) => f x y) (zip a (map g b)).
Proof. revert b. induction a as [|x a IH]; intros [|y b]; cbn; [done..|]. by rewrite IH. Qed.

Lemma read_bits_iff all c bits c' : byte_list all -> byte_list c ->
  read_bits all c = Some (bits, c') <-> c = bits ++ c' /\ bits_ok all bits.
Proof.
  intros Ha Hc. unfold read_bits, bits_ok. 
  assert (G : forall bits, byte_list bits -> len bits = len all ->
    existsb (fun '(b, u) => negb (Z.land b (Z.lxor 255 u) =? 0)) (zip bits all) || forallb (fun b => b =? 0) bits = false <->
    (forall o, 0 <= o -> bit bits o = true -> bit all o = true) /\ exists o, 0 <= o /\ bit bits o = true).
  { clear bits. intros bits Hb Hl. rewrite orb_false_iff. 
    rewrite (existsb_zip_map (fun b u => negb (Z.land b u =? 0)) (Z.lxor 255)).
    assert (Hl' : len bits = len (map (Z.lxor 255) all)) by by rewrite len_map.
    pose proof (meets bits (map (Z.lxor 255) all) Hb Hl') as Hm. pose proof (all_zero bits Hb) as Hz.
    split.
    - intros [H1 H2]. split.
      + intros o Ho Hbit. destruct (bit all o) eqn:Eo; [done|]. exfalso. rewrite (proj2 Hm) in H1; [done|].
        exists o. split_and!; [done|done|]. rewrite bit_complement, Eo; [done|done|]. rewrite <- Hl. split; [done|by apply bit_bound].
      + destruct (existsb (fun o => bit bits o) (numbers (8 * len bits))) eqn:Ex.
        * apply existsb_exists in Ex as (o & Hin & Ho). apply list_elem_of_In, numbers_in in Hin. exists o. split; [lia|done].
        * exfalso. rewrite (proj2 Hz) in H2; [done|]. intros o Ho. destruct (bit bits o) eqn:Eo; [|done]. exfalso.
          assert (existsb (fun o => bit bits o) (numbers (8 * len bits)) = true); [|congruence]. apply existsb_exists. exists o.
          split; [|done]. apply list_elem_of_In, numbers_in. split; [done|by apply bit_bound].
    - intros [H1 (o & Ho & Hbit)]. split; apply not_true_is_false; intros E.
      + apply Hm in E as (k & Hk & H2 & H3). pose proof (H1 k Hk H2) as H4. rewrite bit_complement, H4 in H3; [done|done|].
        rewrite <- Hl. split; [done|by apply bit_bound].
      + rewrite (proj1 Hz) in Hbit; done. }
  split.
  - destruct (take_ c (len all)) as [[b c1]|] eqn:E; [|done]. apply take_iff in E as [-> Hl]; [|len_lia].
    apply byte_list_app in Hc as [Hb _]. destruct (_ || _) eqn:Et; [done|]. intros [= <- <-]. apply G in Et; [|done..]. done.
  - intros (-> & Hl & Hb & H1). rewrite (proj2 (take_iff _ (len all) bits c' ltac:(len_lia))) by done. by rewrite (proj2 (G bits Hb Hl) H1).
Qed.

(** ** Row groups *)

Definition group_ok (total : Z) (all : Bits) (g : Z * Bits) : Prop :=
  0 < fst g <= total /\ population (snd g) <= fst g /\ bits_ok all (snd g).

Lemma byte_list_drop a b : byte_list (a ++ b) -> byte_list b.
Proof. by intros [_ ?]%byte_list_app. Qed.

Lemma read_groups_iff n total all c acc cov gr gs' cov' gr' c' : byte_list all -> byte_list c ->
  0 <= total < 4294967296 -> 0 <= gr -> gr + Z.of_nat n * total <= U64_MAX ->
  read_groups n total all c acc cov gr = Some (gs', cov', gr', c') <->
  exists gs, gs' = acc ++ gs /\ length gs = n /\ Forall (group_ok total all) gs /\ c = concat (map put_group gs) ++ c' /\
    cov' = fold_left or_bits (map snd gs) cov /\ gr' = gr + sumZ (map fst gs).
Proof.
  intros Ha Hc Ht. revert c acc cov gr Hc. induction n as [|n IH]; intros c acc cov gr Hc Hgr Hmax; cbn [read_groups].
  { split.
    - intros [= <- <- <- <-]. exists []. rewrite app_nil_r. cbn. split_and!; try done. lia.
    - intros ([|g gs] & -> & Hl & _ & -> & -> & ->); [|done]. cbn. by rewrite app_nil_r, Z.add_0_r. }
  split.
  - destruct (u32 c) as [[count c1]|] eqn:E1; [|done]. apply u32_iff in E1 as [-> Hcount]; [|done]. apply byte_list_drop in Hc as Hc1.
    destruct (read_bits all c1) as [[bits c2]|] eqn:E2; [|done]. apply read_bits_iff in E2 as [-> Hbits]; [|done..].
    apply byte_list_drop in Hc1 as Hc2. destruct (_ || _ || _) eqn:Ec; [done|]. bools. unfold checked_u64.
    rewrite !(proj2 (Z.leb_le _ _)) by lia. cbn [andb]. intros E. apply IH in E as (gs & -> & Hl & Hf & -> & -> & ->); [|done|lia|lia].
    exists ((count, bits) :: gs). rewrite <- !app_assoc. cbn [app length map concat fold_left snd fst sumZ fold_right put_group].
    split_and!; [done|by rewrite Hl| |by rewrite <- !app_assoc|done|unfold sumZ; lia].
    constructor; [|done]. unfold group_ok. cbn [fst snd]. split; [lia|split; [done|done]].
  - intros ([|[count bits] gs] & -> & Hl & Hf & -> & -> & ->); [done|]. injection Hl as Hl. apply Forall_cons_1 in Hf as [(G1 & G2 & G3) Hf].
    cbn [map concat fst snd fold_left sumZ fold_right] in *. change (put_group (count, bits)) with (u32_bytes count ++ bits) in Hc |- *.
    rewrite <- !app_assoc in Hc |- *.
    rewrite (proj2 (u32_iff _ count _ Hc)) by (split; [done|lia]). apply byte_list_drop in Hc as Hc1.
    rewrite (proj2 (read_bits_iff all _ bits _ Ha Hc1)) by done. apply byte_list_drop in Hc1 as Hc2.
    rewrite (proj2 (Z.eqb_neq _ _)), !(proj2 (Z.ltb_ge _ _)) by lia. cbn [orb]. unfold checked_u64.
    rewrite !(proj2 (Z.leb_le _ _)) by lia. cbn [andb]. apply IH; [done|lia|lia|]. exists gs. rewrite <- app_assoc.
    split_and!; try done. unfold sumZ. cbn. lia.
Qed.

(** ** Label values and labels *)

Definition disjoint (a b : Bits) : Prop := existsb (fun '(s, b) => negb (Z.land s b =? 0)) (zip a b) = false.

Fixpoint values_chain (all : Bits) (prev : option bytes) (cov : Bits) (l : Values) : Prop :=
  match l with
  | [] => True
  | (v, b) :: l =>
      not_after prev v = false /\ field_ok v /\ bits_ok all b /\ disjoint cov b /\
      values_chain all (Some v) (or_bits cov b) l
  end.

Definition put_all {V} (l m : omap bytes V) : omap bytes V := fold_left (fun m e => put (fst e) (snd e) m) l m.

Lemma read_values_iff n all c values cov prev vs' cov' c' : byte_list all -> byte_list c ->
  read_values n all c values cov prev = Some (vs', cov', c') <->
  exists l, vs' = put_all l values /\ length l = n /\ values_chain all prev cov l /\ c = concat (map put_value l) ++ c' /\
    cov' = fold_left or_bits (map snd l) cov.
Proof.
  intros Ha Hc. revert c values cov prev Hc. induction n as [|n IH]; intros c values cov prev Hc; cbn [read_values].
  { split.
    - intros [= <- <- <-]. by exists [].
    - intros ([|e l] & -> & Hl & _ & -> & ->); [done|done]. }
  split.
  - destruct (read_field c) as [[v c1]|] eqn:E1; [|done]. apply read_field_iff in E1 as [-> Hv]; [|done]. apply byte_list_drop in Hc as Hc1.
    destruct (not_after prev v) eqn:En; [done|]. destruct (read_bits all c1) as [[bits c2]|] eqn:E2; [|done].
    apply read_bits_iff in E2 as [-> Hb]; [|done..]. apply byte_list_drop in Hc1 as Hc2. destruct (existsb _ _) eqn:Ed; [done|].
    intros E. apply IH in E as (l & -> & Hl & Hch & -> & ->); [|done]. exists ((v, bits) :: l).
    cbn [put_all fold_left fst snd length values_chain map concat]. change (put_value (v, bits)) with (field v ++ bits).
    rewrite <- !app_assoc. repeat (split; [done || by rewrite Hl|]). done.
  - intros ([|[v bits] l] & -> & Hl & Hch & -> & ->); [done|]. injection Hl as Hl. destruct Hch as (H1 & H2 & H3 & H4 & H5).
    cbn [map concat fst snd fold_left put_all] in *. change (put_value (v, bits)) with (field v ++ bits) in Hc |- *.
    rewrite <- !app_assoc in Hc |- *.
    rewrite (proj2 (read_field_iff _ v _ Hc)) by done. apply byte_list_drop in Hc as Hc1. rewrite H1.
    rewrite (proj2 (read_bits_iff all _ bits _ Ha Hc1)) by done. apply byte_list_drop in Hc1 as Hc2. rewrite H4.
    apply IH; [done|]. by exists l.
Qed.

Lemma put_last {V} k (v : V) m : (forall e, e ∈ m -> bytes_compare (fst e) k = Lt) -> put k v m = m ++ [(k, v)].
Proof.
  induction m as [|[j w] m IH]; intros Hk; [done|]. cbn [put app]. cbn [cmp Ordered_bytes].
  pose proof (Hk (j, w) (list_elem_of_here _ _)) as Hj. cbn [fst] in Hj. rewrite Hj. rewrite IH; [done|]. intros e He. by apply Hk, list_elem_of_further.
Qed.

Lemma ordered_app_lt {V} (m : omap bytes V) e l : ordered (m ++ e :: l) -> forall f, f ∈ m -> bytes_compare (fst f) (fst e) = Lt.
Proof.
  induction m as [|g m IH]; intros Ho f Hf; [by apply not_elem_of_nil in Hf|]. cbn [app] in Ho. apply elem_of_cons in Hf as [->|Hf].
  - apply (ordered_head g (m ++ e :: l) e Ho). apply elem_of_app. right. apply list_elem_of_here.
  - apply IH; [by eapply ordered_tail|done].
Qed.

Lemma put_all_app {V} (l m : omap bytes V) : ordered (m ++ l) -> put_all l m = m ++ l.
Proof.
  unfold put_all. revert m. induction l as [|[k v] l IH]; intros m Ho; cbn [fold_left]; [by rewrite app_nil_r|].
  cbn [fst snd]. rewrite put_last by exact (ordered_app_lt m (k, v) l Ho). rewrite IH; by rewrite <- app_assoc.
Qed.

(** Keys that come one after the other are ordered. *)
Lemma not_after_lt p v : not_after (Some p) v = false <-> bytes_compare p v = Lt.
Proof.
  cbn. unfold bytes_leb. rewrite (bytes_compare_antisym p v). destruct (bytes_compare p v); done.
Qed.

Lemma chain_ordered {V} (e : bytes * V) l : ordered l -> (forall f, head l = Some f -> not_after (Some (fst e)) (fst f) = false) ->
  ordered (e :: l).
Proof. intros Ho Hh. apply ordered_cons. split; [done|]. intros f Hf. by apply not_after_lt, Hh. Qed.

Lemma values_chain_ordered all prev cov l : values_chain all prev cov l -> ordered l.
Proof.
  revert prev cov. induction l as [|[v b] l IH]; intros prev cov Hc; [constructor|]. destruct Hc as (_ & _ & _ & _ & Hc).
  apply chain_ordered; [by eapply IH|]. intros f Hf. destruct l as [|[w d] l]; [done|]. injection Hf as <-. by destruct Hc.
Qed.

(** A complete partition of the series, as the reader checks it. *)
Definition partition_read (total : Z) (all : Bits) (vs : Values) : Prop :=
  0 < len vs <= total /\ values_chain all None (zeros (len all)) vs /\ fold_left or_bits (map snd vs) (zeros (len all)) = all.

Fixpoint labels_chain (total : Z) (all : Bits) (prev : option bytes) (l : omap bytes Values) : Prop :=
  match l with
  | [] => True
  | (name, vs) :: l =>
      not_after prev name = false /\ field_ok name /\ partition_read total all vs /\ labels_chain total all (Some name) l
  end.

Lemma labels_chain_ordered total all prev l : labels_chain total all prev l -> ordered l.
Proof.
  revert prev. induction l as [|[v b] l IH]; intros prev Hc; [constructor|]. destruct Hc as (_ & _ & _ & Hc).
  apply chain_ordered; [by eapply IH|]. intros f Hf. destruct l as [|[w d] l]; [done|]. injection Hf as <-. by destruct Hc.
Qed.

Lemma read_labels_iff n total all c acc prev ls' c' : byte_list all -> byte_list c -> 0 <= total < 65536 ->
  read_labels n total all c acc prev = Some (ls', c') <->
  exists l, ls' = put_all l acc /\ length l = n /\ labels_chain total all prev l /\ c = concat (map put_label l) ++ c'.
Proof.
  intros Ha Hc Ht. revert c acc prev Hc. induction n as [|n IH]; intros c acc prev Hc; cbn [read_labels].
  { split.
    - intros [= <- <-]. by exists [].
    - intros ([|e l] & -> & Hl & _ & ->); done. }
  split.
  - destruct (read_field c) as [[k c1]|] eqn:E1; [|done]. apply read_field_iff in E1 as [-> Hk]; [|done]. apply byte_list_drop in Hc as Hc1.
    destruct (not_after prev k) eqn:En; [done|]. destruct (u16 c1) as [[count c2]|] eqn:E2; [|done]. apply u16_iff in E2 as [-> Hcount]; [|done].
    apply byte_list_drop in Hc1 as Hc2. destruct (_ || _) eqn:Eb; [done|]. bools.
    destruct (read_values _ all c2 _ _ _) as [[[vs cov] c3]|] eqn:E3; [|done]. apply read_values_iff in E3 as (l0 & -> & Hl0 & Hch & -> & ->); [|done..].
    apply byte_list_drop in Hc2 as Hc3. pose proof (values_chain_ordered _ _ _ _ Hch) as Ho. rewrite (put_all_app l0 [] Ho). cbn [app].
    destruct (bytes_eqb _ _) eqn:Ee; [|done]. apply bytes_eqb_eq in Ee. intros E. apply IH in E as (l & -> & Hl & Hlc & ->); [|done].
    assert (Hn0 : len l0 = count) by (unfold len; lia). exists ((k, l0) :: l). cbn [put_all fold_left fst snd length labels_chain map concat].
    change (put_label (k, l0)) with (field k ++ u16_bytes (len l0) ++ concat (map put_value l0)). rewrite Hn0, <- !app_assoc.
    split; [done|]. split; [by rewrite Hl|]. split; [|done]. repeat (split; [done|]). split; [|done]. unfold partition_read. rewrite Hn0.
    split; [lia|done].
  - intros ([|[k vs] l] & -> & Hl & Hch & ->); [done|]. injection Hl as Hl. destruct Hch as (H1 & H2 & (H3 & H4 & H5) & H6).
    cbn [map concat fst snd fold_left put_all] in *.
    change (put_label (k, vs)) with (field k ++ u16_bytes (len vs) ++ concat (map put_value vs)) in Hc |- *.
    rewrite <- !app_assoc in Hc |- *. rewrite (proj2 (read_field_iff _ k _ Hc)) by done. apply byte_list_drop in Hc as Hc1. rewrite H1.
    rewrite (proj2 (u16_iff _ (len vs) _ Hc1)) by (split; [done|lia]). apply byte_list_drop in Hc1 as Hc2.
    rewrite (proj2 (Z.eqb_neq _ _)), (proj2 (Z.ltb_ge _ _)) by lia. cbn [orb].
    pose proof (values_chain_ordered _ _ _ _ H4) as Ho. pose proof (put_all_app vs [] Ho) as Hp.
    rewrite (proj2 (read_values_iff (Z.to_nat (len vs)) all _ [] (zeros (len all)) None vs all (concat (map put_label l) ++ c') Ha Hc2)).
    + rewrite (proj2 (bytes_eqb_eq all all) eq_refl). apply IH; [by apply byte_list_drop in Hc2|]. by exists l.
    + exists vs. split_and!; try done. unfold len. lia.
Qed.

(** ** The whole index *)

(** What the reader accepts. *)
Definition readable (i : Index) : Prop :=
  let all := universe i.(series) in
  (0 < i.(series) <= MAX_SERIES /\ 0 < i.(rows) <= MAX_ROWS /\ 0 < len i.(groups) <= MAX_GROUPS) /\
  Forall (group_ok i.(rows) all) i.(groups) /\ sumZ (map fst i.(groups)) = i.(rows) /\
  fold_left or_bits (map snd i.(groups)) (zeros (len all)) = all /\
  0 < len i.(labels) <= Z.of_nat MAX_LABELS /\ labels_chain i.(series) all None i.(labels).

Lemma byte_universe n : 0 <= n -> byte_list (universe n).
Proof. intros Hn. by apply universe_spec. Qed.

Lemma MAGIC_len : len MAGIC = 8.
Proof. done. Qed.

Lemma parse_body_iff b i : byte_list b -> parse_body b = Some i <-> b = body i /\ readable i.
Proof.
  intros Hb. unfold parse_body, readable, body, MAX_SERIES, MAX_ROWS, MAX_GROUPS. split.
  - destruct (take_ b (len MAGIC)) as [[magic c]|] eqn:E0; [|done]. apply take_iff in E0 as [-> _]; [|done].
    destruct (bytes_eqb magic MAGIC) eqn:Em; [|done]. apply bytes_eqb_eq in Em as ->. cbn [negb]. apply byte_list_drop in Hb as Hc.
    destruct (u16 c) as [[n c1]|] eqn:E1; [|done]. apply u16_iff in E1 as [-> Hn]; [|done]. apply byte_list_drop in Hc as Hc1.
    destruct (u32 c1) as [[r c2]|] eqn:E2; [|done]. apply u32_iff in E2 as [-> Hr]; [|done]. apply byte_list_drop in Hc1 as Hc2.
    destruct (u16 c2) as [[g c3]|] eqn:E3; [|done]. apply u16_iff in E3 as [-> Hg]; [|done]. apply byte_list_drop in Hc2 as Hc3.
    destruct (_ || _) eqn:Eb; [done|]. bools. cbv zeta. pose proof (byte_universe n ltac:(lia)) as Ha.
    destruct (read_groups _ r _ c3 _ _ _) as [[[[gs cov] gr] c4]|] eqn:E4; [|done].
    apply read_groups_iff in E4 as (gs0 & -> & Hl & Hf & -> & -> & ->); [|done|done|lia|lia|unfold U64_MAX; rewrite Z2Nat.id by lia; nia].
    cbn [app]. rewrite Z.add_0_l. destruct (_ || _) eqn:Ev; [done|]. bools. apply byte_list_drop in Hc3 as Hc4.
    destruct (u16 c4) as [[k c5]|] eqn:E5; [|done]. apply u16_iff in E5 as [-> Hk]; [|done]. apply byte_list_drop in Hc4 as Hc5.
    destruct (_ || _) eqn:Ek; [done|]. bools. destruct (read_labels _ n _ c5 _ _) as [[ls c6]|] eqn:E6; [|done].
    apply read_labels_iff in E6 as (l & -> & Hll & Hch & ->); [|done|done|lia]. destruct c6; [|done].
    rewrite (put_all_app l []) by (by eapply labels_chain_ordered). intros [= <-]. cbn [series rows groups labels app].
    assert (Hg' : len gs0 = g) by (unfold len; lia). assert (Hk' : len l = k) by (unfold len; lia).
    rewrite Hg', Hk', app_nil_r. match goal with H : bytes_eqb _ _ = true |- _ => apply bytes_eqb_eq in H end.
    split; [done|]. split_and!; try done; lia.
  - intros [-> (((? & ?) & (? & ?) & (? & ?)) & Hf & Hs & Hcov & Hll & Hch)]. destruct i as [n r gs ls]. cbn [series rows groups labels] in *.
    rewrite (proj2 (take_iff _ (len MAGIC) MAGIC _ ltac:(done))) by done. rewrite (proj2 (bytes_eqb_eq _ _) eq_refl). cbn [negb].
    apply byte_list_drop in Hb as Hc. rewrite (proj2 (u16_iff _ n _ Hc)) by (split; [done|lia]). apply byte_list_drop in Hc as Hc1.
    rewrite (proj2 (u32_iff _ r _ Hc1)) by (split; [done|lia]). apply byte_list_drop in Hc1 as Hc2.
    rewrite (proj2 (u16_iff _ (len gs) _ Hc2)) by (split; [done|lia]). apply byte_list_drop in Hc2 as Hc3.
    rewrite !(proj2 (Z.eqb_neq _ _)), !(proj2 (Z.ltb_ge _ _)) by (unfold MAX_SERIES; lia). cbn [orb]. pose proof (byte_universe n ltac:(lia)) as Ha.
    rewrite (proj2 (read_groups_iff (Z.to_nat (len gs)) r (universe n) _ [] (zeros (len (universe n))) 0 gs (universe n) r
      (u16_bytes (len ls) ++ concat (map put_label ls)) Ha Hc3 ltac:(lia) ltac:(lia) ltac:(unfold U64_MAX; rewrite Z2Nat.id by lia; nia))).
    + rewrite Z.eqb_refl, (proj2 (bytes_eqb_eq _ _) eq_refl). cbn [negb orb]. apply byte_list_drop in Hc3 as Hc4.
      unfold MAX_LABELS in *. rewrite (proj2 (u16_iff _ (len ls) _ Hc4)) by (split; [done|lia]). apply byte_list_drop in Hc4 as Hc5.
      rewrite (proj2 (Z.eqb_neq _ _)), (proj2 (Z.ltb_ge _ _)) by lia. cbn [orb].
      pose proof (put_all_app ls [] ltac:(by eapply labels_chain_ordered)) as Hp.
      rewrite (proj2 (read_labels_iff (Z.to_nat (len ls)) n (universe n) _ [] None ls [] Ha Hc5 ltac:(lia))); [done|].
      exists ls. split_and!; try done; [unfold len; lia|by rewrite app_nil_r].
    + exists gs. rewrite Z.add_0_l. split_and!; try done. unfold len. lia.
Qed.

(** ** The spelling *)

Lemma hex_digit_eq x : 0 <= x < 16 -> default 0 (get HEX x) = if x <? 10 then 48 + x else 87 + x.
Proof.
  intros Hx. assert (H : forallb (fun x => default 0 (get HEX x) =? (if x <? 10 then 48 + x else 87 + x)) (numbers 16) = true)
    by (vm_compute; reflexivity).
  rewrite forallb_forall in H. apply Z.eqb_eq, H. apply list_elem_of_In, numbers_in. lia.
Qed.

Lemma nibble_iff a x : nibble a = Some x <-> 0 <= x < 16 /\ a = default 0 (get HEX x).
Proof.
  unfold nibble. split.
  - destruct (_ && _) eqn:E1; bools.
    + intros [= <-]. rewrite hex_digit_eq, (proj2 (Z.ltb_lt _ _)) by lia. lia.
    + destruct ((97 <=? a) && (a <=? 102)) eqn:E2; [|done]. bools. intros [= <-]. rewrite hex_digit_eq, (proj2 (Z.ltb_ge _ _)) by lia. lia.
  - intros [Hx ->]. rewrite hex_digit_eq by done. destruct (Z.ltb_spec x 10).
    + rewrite !(proj2 (Z.leb_le _ _)) by lia. cbn [andb]. f_equal. lia.
    + rewrite (proj2 (Z.leb_le 48 _)), (proj2 (Z.leb_gt _ 57)), !(proj2 (Z.leb_le _ _)) by lia. cbn [andb]. f_equal. lia.
Qed.

Lemma hex_cons x raw : hex (x :: raw) = default 0 (get HEX (Z.shiftr x 4)) :: default 0 (get HEX (Z.land x 15)) :: hex raw.
Proof. done. Qed.

Lemma byte_nibbles x : 0 <= x < 256 -> Z.shiftr x 4 = x / 16 /\ Z.land x 15 = x mod 16.
Proof. intros Hx. rewrite Z.shiftr_div_pow2 by lia. split; [done|]. exact (Z.land_ones x 4 ltac:(lia)). Qed.

Lemma hex_len raw : len (hex raw) = 2 * len raw.
Proof. induction raw as [|x raw IH]; [done|]. rewrite hex_cons, !len_cons, IH. lia. Qed.

Lemma unhex_iff text raw : unhex text = Some raw /\ len text mod 2 = 0 <-> text = hex raw /\ byte_list raw.
Proof.
  revert raw. induction text as [text IH] using (induction_ltof1 _ (@length Z)). unfold ltof in IH. intros raw.
  destruct text as [|a [|b text]].
  - cbn [unhex]. split; [intros [[= <-] _]; split; [done|constructor]|]. intros [E _]. destruct raw; [done|discriminate E].
  - split; [by intros [_ E]|]. intros [E _]. destruct raw; discriminate E.
  - cbn [unhex]. assert (Hm : len (a :: b :: text) mod 2 = len text mod 2) by (rewrite !len_cons; dlia). rewrite Hm. split.
    + intros [E He]. destruct (nibble a) as [x|] eqn:Ea; [|done]. destruct (nibble b) as [y|] eqn:Eb; [|done].
      destruct (unhex text) as [r|] eqn:Er; [|done]. injection E as <-. apply nibble_iff in Ea as [Hx ->], Eb as [Hy ->].
      destruct (proj1 (IH text ltac:(cbn; lia) r) (conj Er He)) as [-> Hr]. rewrite hex_cons.
      destruct (byte_nibbles (x * 16 + y) ltac:(lia)) as [-> ->].
      replace ((x * 16 + y) / 16) with x by dlia. replace ((x * 16 + y) mod 16) with y by dlia. split; [done|]. constructor; [lia|done].
    + intros [E Hr]. destruct Hr as [|x r Hx Hr]; [done|].
      assert (Hq : 0 <= x / 16 < 16) by (clear -Hx; dlia). assert (Hm16 : 0 <= x mod 16 < 16) by (clear; dlia). rewrite hex_cons in E. destruct (byte_nibbles x Hx) as [E1 E2].
      rewrite E1, E2 in E. injection E as -> -> ->. rewrite (proj2 (nibble_iff _ (x / 16)) (conj Hq eq_refl)).
      rewrite (proj2 (nibble_iff _ (x mod 16)) (conj Hm16 eq_refl)).
      destruct (proj2 (IH (hex r) ltac:(cbn; lia) r) (conj eq_refl Hr)) as [-> He]. split; [|done]. do 2 f_equal. clear. dlia.
Qed.

(** [parse] accepts exactly the encodings of readable indexes. *)
Lemma parse_iff `{Xxh64} text i :
  parse text = Some i <-> text = encode i /\ readable i /\ byte_list (body i) /\ len text <= MAX_TEXT.
Proof.
  pose proof (fun b => xxh64_range b 0 ltac:(done)) as Hx. unfold parse, encode. split.
  - destruct (_ || _ || _) eqn:Eb; [done|]. bools. destruct (unhex text) as [raw|] eqn:Eu; [|done].
    match goal with H : len text mod 2 = 0 |- _ => destruct (proj1 (unhex_iff text raw) (conj Eu H)) as [-> Hr] end.
    rewrite hex_len in *. cbv zeta. destruct (get_range raw 0 _) as [b|] eqn:E1; [|done]. apply get_range_Some in E1 as (-> & R1 & R2).
    rewrite len_slice by lia. destruct (get_range raw _ (len raw)) as [digest|] eqn:E2; [|done]. apply get_range_Some in E2 as (-> & R3 & R4).
    unfold slice. change (Z.to_nat 0) with 0%nat. rewrite drop_0, !Z.sub_0_r. set (n := Z.to_nat (len raw - 8)).
    assert (Hd : length (drop n raw) = 8%nat) by (subst n; rewrite length_drop; unfold len in *; lia).
    rewrite (firstn_all2 (drop n raw)) by (subst n; rewrite length_drop; unfold len in *; lia).
    destruct (Z.eqb_spec (xxh64 (take n raw) 0) (from_le_bytes (drop n raw))) as [E|]; [|done].
    assert (Hb : byte_list (take n raw) /\ byte_list (drop n raw)) by (apply byte_list_app; by rewrite take_drop). destruct Hb as [Hb Hb'].
    intros Ep. apply parse_body_iff in Ep as [Ebody Hread]; [|done]. rewrite <- Ebody, E. split_and!; [|done|done|lia].
    rewrite <- Hd, to_from_le_bytes, take_drop by done. done.
  - intros (-> & Hread & Hb & Hl). rewrite hex_len in *. set (digest := to_le_bytes 8 (xxh64 (body i) 0)) in *.
    assert (Hld : len digest = 8) by apply to_le_bytes_len. assert (Hr : byte_list (body i ++ digest)).
    { apply byte_list_app. split; [done|apply to_le_bytes_range]. }
    destruct (proj2 (unhex_iff _ (body i ++ digest)) (conj eq_refl Hr)) as [-> _].
    rewrite (proj2 (Z.ltb_ge _ _)) by done. replace (2 * len (body i ++ digest) mod 2) with 0 by (rewrite Z.mul_comm, Z.mod_mul; lia).
    rewrite (proj2 (Z.ltb_ge _ 16)) by len_lia. cbn [orb negb Z.eqb]. replace (len (body i ++ digest) - 8) with (len (body i)) by len_lia.
    assert (E1 : get_range (body i ++ digest) 0 (len (body i)) = Some (body i)).
    { pose proof (get_range_app_mid [] (body i) digest) as E. cbn [app] in E. change (len (@nil Z)) with 0 in E. by rewrite Z.add_0_l in E. }
    assert (E2 : get_range (body i ++ digest) (len (body i)) (len (body i ++ digest)) = Some digest).
    { pose proof (get_range_app_mid (body i) digest []) as E. rewrite app_nil_r in E. by rewrite len_app. }
    rewrite E1, E2. unfold digest. rewrite from_to_le_bytes by apply Hx. rewrite Z.eqb_refl. by apply parse_body_iff.
Qed.

(** ** What a readable index says *)

Lemma byte_or a b : byte_list a -> byte_list b -> byte_list (or_bits a b).
Proof.
  intros Ha. revert b. induction Ha as [|x a Hx Ha IH]; intros b Hb; cbn; [constructor|].
  destruct Hb as [|y b Hy Hb]; [by constructor|]. constructor; [|by apply IH].
  split; [apply Z.lor_nonneg; lia|]. destruct (Z.eq_dec (Z.lor x y) 0) as [->|Hn]; [lia|].
  change 256 with (2 ^ 8). apply Z.log2_lt_pow2; [pose proof (proj2 (Z.lor_nonneg x y)); lia|].
  rewrite Z.log2_lor by lia. apply Z.max_lub_lt; (destruct (Z.eq_dec x 0), (Z.eq_dec y 0); subst; try done; apply Z.log2_lt_pow2; lia).
Qed.

Lemma len_or a b : len (or_bits a b) = len a.
Proof. apply len_zip_into. Qed.

Lemma fold_or l cov : byte_list cov -> Forall (fun b => len b = len cov /\ byte_list b) l ->
  len (fold_left or_bits l cov) = len cov /\ byte_list (fold_left or_bits l cov) /\
  forall o, bit (fold_left or_bits l cov) o = bit cov o || existsb (fun b => bit b o) l.
Proof.
  revert cov. induction l as [|b l IH]; intros cov Hc Hl; cbn [fold_left existsb].
  { split_and!; [done|done|]. intros o. by rewrite orb_false_r. }
  apply Forall_cons_1 in Hl as [[Hb1 Hb2] Hl]. assert (Lor : len (or_bits cov b) = len cov) by apply len_or.
  destruct (IH (or_bits cov b)) as (L & B & E); [by apply byte_or|by rewrite Lor|].
  rewrite Lor in L. split_and!; [done|done|]. intros o. rewrite E, bit_or by done. by rewrite orb_assoc.
Qed.

Lemma disjoint_iff a b : byte_list a -> len a = len b -> disjoint a b <-> forall o, 0 <= o -> bit a o = true -> bit b o = false.
Proof.
  intros Ha Hl. unfold disjoint. pose proof (meets a b Ha Hl) as Hm. split.
  - intros E o Ho H1. destruct (bit b o) eqn:E2; [|done]. rewrite (proj2 Hm) in E; [done|]. by exists o.
  - intros Hd. apply not_true_is_false. intros E. apply Hm in E as (o & Ho & H1 & H2). by rewrite (Hd o Ho H1) in H2.
Qed.

(** Every series has exactly one of the values. *)
Definition partitions (n : Z) (vs : Values) : Prop :=
  forall o, 0 <= o < n -> exists v b, (v, b) ∈ vs /\ bit b o = true /\ forall v' b', (v', b') ∈ vs -> bit b' o = true -> v' = v.

Lemma chain_iff all prev cov l : byte_list cov -> len cov = len all ->
  values_chain all prev cov l <->
  (forall e, head l = Some e -> not_after prev (fst e) = false) /\ ordered l /\
  Forall (fun e => field_ok (fst e) /\ bits_ok all (snd e)) l /\
  forall o, 0 <= o -> (bit cov o = true -> forall e, e ∈ l -> bit (snd e) o = false) /\
    forall e f, e ∈ l -> f ∈ l -> bit (snd e) o = true -> bit (snd f) o = true -> fst e = fst f.
Proof.
  intros Hc Hl. revert prev cov Hc Hl. induction l as [|[v b] l IH]; intros prev cov Hc Hl; cbn [values_chain].
  { split; [intros _|done]. split_and!; [done|constructor|constructor|]. intros o _. split; [intros _ e He|intros e f He]; by apply not_elem_of_nil in He. }
  split.
  - intros (H1 & H2 & H3 & H4 & H5). pose proof H3 as (Lb & Bb & _). apply IH in H5 as (G1 & G2 & G3 & G4); [|by apply byte_or|by rewrite len_or].
    rewrite disjoint_iff in H4 by (done || lia). split_and!.
    + by intros e [= <-].
    + by apply chain_ordered.
    + by constructor.
    + intros o Ho. destruct (G4 o Ho) as [G5 G6]. rewrite bit_or in G5 by lia. split.
      * intros Hb e [->|He]%elem_of_cons; [by apply H4|]. apply G5; [by rewrite Hb|done].
      * intros e f [->|He]%elem_of_cons [->|Hf]%elem_of_cons He' Hf'; cbn [fst snd] in *; [done| | |by apply G6].
        -- by rewrite G5 in Hf' by (done || by rewrite He', orb_true_r).
        -- by rewrite G5 in He' by (done || by rewrite Hf', orb_true_r).
  - intros (H1 & H2 & H3 & H4). apply Forall_cons_1 in H3 as [[F1 F2] F3]. cbn [fst snd] in F1, F2. pose proof F2 as (Lb & Bb & _).
    split; [by apply (H1 (v, b))|]. split; [done|]. split; [done|]. split.
    + apply disjoint_iff; [done|lia|]. intros o Ho Hb. destruct (H4 o Ho) as [H5 _]. apply (H5 Hb (v, b)), list_elem_of_here.
    + apply IH; [by apply byte_or|by rewrite len_or|]. split_and!.
      * intros e He. apply not_after_lt. apply ordered_cons in H2 as [_ H2]. by apply H2.
      * by eapply ordered_tail.
      * done.
      * intros o Ho. destruct (H4 o Ho) as [H5 H6]. rewrite bit_or by lia. split.
        -- intros Hor e He. apply orb_true_iff in Hor as [Hor|Hor]; [by apply H5, list_elem_of_further|].
           destruct (bit (snd e) o) eqn:Ee; [|done]. exfalso.
           pose proof (H6 (v, b) e (list_elem_of_here _ _) ltac:(by apply list_elem_of_further) Hor Ee) as E.
           pose proof (ordered_head _ _ _ H2 He) as Hlt. unfold less in Hlt. rewrite <- E, cmp_refl in Hlt. done.
        -- intros e f He Hf. apply H6; by apply list_elem_of_further.
Qed.

Definition partition_ok (n : Z) (vs : Values) : Prop :=
  ordered vs /\ 0 < len vs <= n /\ Forall (fun e => field_ok (fst e) /\ bits_ok (universe n) (snd e)) vs /\ partitions n vs.

Lemma cover_iff n l : 0 <= n -> Forall (fun b => bits_ok (universe n) b) l ->
  fold_left or_bits l (zeros (len (universe n))) = universe n <-> forall o, 0 <= o < n -> exists b, b ∈ l /\ bit b o = true.
Proof.
  intros Hn Hl. destruct (universe_spec n Hn) as (Lu & Bu & Eu).
  pose proof (len_nonneg (universe n)) as Hw.
  destruct (fold_or l (zeros (len (universe n)))) as (L & B & E).
  { apply byte_zeros. }
  { rewrite len_zeros by done. eapply Forall_impl; [|exact Hl]. by intros b (? & ? & _). }
  rewrite len_zeros in L by done. split.
  - intros Ef o Ho. assert (Hb : bit (universe n) o = true) by (rewrite Eu by lia; apply Z.ltb_lt; lia).
    rewrite <- Ef, E, bit_zeros in Hb. cbn in Hb. apply existsb_exists in Hb as (b & Hin & Hb). exists b. split; [by apply list_elem_of_In|done].
  - intros Hc. apply bits_ext; [done|done|done|]. intros o Ho. rewrite E, bit_zeros, Eu by done. cbn [orb].
    destruct (Z.ltb_spec o n) as [Hlt|Hge].
    + apply existsb_exists. destruct (Hc o ltac:(lia)) as (b & Hin & Hb). exists b. split; [by apply list_elem_of_In|done].
    + apply not_true_is_false. intros Ex. apply existsb_exists in Ex as (b & Hin & Hb). apply list_elem_of_In in Hin.
      rewrite list.Forall_forall in Hl. destruct (Hl b Hin) as (_ & _ & Hs & _). specialize (Hs o Ho Hb). rewrite Eu in Hs by done. bools. lia.
Qed.

Lemma partition_read_iff n vs : 0 <= n -> partition_read n (universe n) vs <-> partition_ok n vs.
Proof.
  intros Hn. unfold partition_read, partition_ok. pose proof (len_nonneg (universe n)) as Hw.
  rewrite (chain_iff (universe n) None (zeros (len (universe n))) vs (byte_zeros _) (len_zeros _ Hw)). split.
  - intros (H1 & (_ & H2 & H3 & H4) & H5). split_and!; try done; try lia. intros o Ho.
    assert (Hb : Forall (fun b => bits_ok (universe n) b) (map snd vs)).
    { apply list.Forall_forall. intros b Hb. apply list_elem_of_In, in_map_iff in Hb as (e & <- & He). apply list_elem_of_In in He.
      rewrite list.Forall_forall in H3. by apply H3. }
    destruct (proj1 (cover_iff n _ Hn Hb) H5 o Ho) as (b & Hin & Hbit). apply list_elem_of_In, in_map_iff in Hin as ([v b'] & E & Hin).
    cbn in E. subst b'. apply list_elem_of_In in Hin. exists v, b. split_and!; [done|done|]. intros v' b' Hin' Hbit'.
    destruct (H4 o ltac:(lia)) as [_ H6]. exact (H6 (v', b') (v, b) Hin' Hin Hbit' Hbit).
  - intros (H1 & H2 & H3 & H4). split_and!; try done; try lia.
    + intros o Ho. split; [by rewrite bit_zeros|]. intros [v b] [v' b'] He Hf Hb Hb'. cbn [fst snd] in *.
      assert (Ho' : o < n).
      { rewrite list.Forall_forall in H3. destruct (H3 _ He) as [_ (_ & _ & Hs & _)]. cbn in Hs. specialize (Hs o Ho Hb).
        destruct (universe_spec n Hn) as (_ & _ & Eu). rewrite Eu in Hs by done. by bools. }
      destruct (H4 o ltac:(lia)) as (w & d & _ & _ & Hu). by rewrite (Hu v b He Hb), (Hu v' b' Hf Hb').
    + assert (Hb : Forall (fun b => bits_ok (universe n) b) (map snd vs)).
      { apply list.Forall_forall. intros b Hb. apply list_elem_of_In, in_map_iff in Hb as (e & <- & He). apply list_elem_of_In in He.
        rewrite list.Forall_forall in H3. by apply H3. }
      apply cover_iff; [done|done|]. intros o Ho. destruct (H4 o Ho) as (v & b & Hin & Hbit & _). exists b. split; [|done].
      apply list_elem_of_In, in_map_iff. exists (v, b). split; [done|by apply list_elem_of_In].
Qed.

(** An index that describes its segment completely: every row group is
    nonempty, every series is in a group, and every indexed label gives each
    series exactly one value. *)
Definition well_formed (i : Index) : Prop :=
  (0 < i.(series) <= MAX_SERIES /\ 0 < i.(rows) <= MAX_ROWS /\ 0 < len i.(groups) <= MAX_GROUPS) /\
  (Forall (group_ok i.(rows) (universe i.(series))) i.(groups) /\ sumZ (map fst i.(groups)) = i.(rows) /\
   forall o, 0 <= o < i.(series) -> exists g, g ∈ i.(groups) /\ bit (snd g) o = true) /\
  (ordered i.(labels) /\ 0 < len i.(labels) <= Z.of_nat MAX_LABELS /\
   Forall (fun e => field_ok (fst e) /\ partition_ok i.(series) (snd e)) i.(labels)).

Lemma labels_chain_iff n prev l : 0 <= n -> labels_chain n (universe n) prev l <->
  (forall e, head l = Some e -> not_after prev (fst e) = false) /\ ordered l /\
  Forall (fun e => field_ok (fst e) /\ partition_ok n (snd e)) l.
Proof.
  intros Hn. revert prev. induction l as [|[k vs] l IH]; intros prev; cbn [labels_chain].
  { split; [intros _; split_and!; [done|constructor|constructor]|done]. }
  rewrite IH, partition_read_iff by done. split.
  - intros (H1 & H2 & H3 & H4 & H5 & H6). split; [by intros e [= <-]|]. split; [by apply chain_ordered|]. by constructor.
  - intros (H1 & H2 & H3). apply Forall_cons_1 in H3 as [[F1 F2] F3]. split; [by apply (H1 (k, vs))|]. split; [done|]. split; [done|].
    split; [|split; [by eapply ordered_tail|done]]. intros e He. apply not_after_lt. apply ordered_cons in H2 as [_ H2]. by apply H2.
Qed.

Lemma readable_iff i : readable i <-> well_formed i.
Proof.
  unfold readable, well_formed. split.
  - intros (H1 & H2 & H3 & H4 & H5 & H6). apply labels_chain_iff in H6 as (_ & H6 & H7); [|lia].
    split; [done|]. split; [|done]. split; [done|]. split; [done|].
    assert (Hb : Forall (fun b => bits_ok (universe (series i)) b) (map snd (groups i))).
    { apply list.Forall_forall. intros b Hb. apply list_elem_of_In, in_map_iff in Hb as (g & <- & Hg). apply list_elem_of_In in Hg.
      rewrite list.Forall_forall in H2. by apply H2. }
    intros o Ho. destruct (proj1 (cover_iff (series i) _ ltac:(lia) Hb) H4 o Ho) as (b & Hin & Hbit).
    apply list_elem_of_In, in_map_iff in Hin as (g & <- & Hg). exists g. split; [by apply list_elem_of_In|done].
  - intros (H1 & (H2 & H3 & H4) & (H5 & H6 & H7)). split; [done|]. split; [done|]. split; [done|]. split.
    + apply cover_iff; [lia| |].
      * apply list.Forall_forall. intros b Hb. apply list_elem_of_In, in_map_iff in Hb as (g & <- & Hg). apply list_elem_of_In in Hg.
        rewrite list.Forall_forall in H2. by apply H2.
      * intros o Ho. destruct (H4 o Ho) as (g & Hin & Hbit). exists (snd g). split; [|done]. apply list_elem_of_In, in_map_iff.
        exists g. split; [done|by apply list_elem_of_In].
    + split; [done|]. apply labels_chain_iff; [lia|]. done.
Qed.

Lemma byte_concat {A} (f : A -> bytes) l : Forall (fun x => byte_list (f x)) l -> byte_list (concat (map f l)).
Proof. induction 1 as [|x l Hx Hl IH]; [constructor|]. cbn. by apply byte_list_app. Qed.

Lemma utf8_bytes v : from_utf8_ok v = true -> byte_list v.
Proof. intros Hu. apply utf8_bytes_bound in Hu. eapply Forall_impl; [|exact Hu]. intros x Hx. cbv beta in Hx. lia. Qed.

Lemma byte_field v : from_utf8_ok v = true -> byte_list (field v).
Proof. intros Hu. apply byte_list_app. split; [apply to_le_bytes_range|by apply utf8_bytes]. Qed.

Lemma byte_MAGIC : byte_list MAGIC.
Proof.
  apply list.Forall_forall. intros x Hx. assert (H : forallb is_byte MAGIC = true) by reflexivity.
  rewrite forallb_forall in H. apply list_elem_of_In, H in Hx. unfold is_byte in Hx. by bools.
Qed.

Lemma byte_body i : well_formed i -> byte_list (body i).
Proof.
  intros (_ & (Hg & _) & (_ & _ & Hl)). unfold body, u16_bytes, u32_bytes.
  rewrite !byte_list_app. split_and!; try apply to_le_bytes_range.
  - apply byte_MAGIC.
  - apply byte_concat. eapply Forall_impl; [|exact Hg]. intros g (_ & _ & _ & Hb & _). apply byte_list_app. split; [apply to_le_bytes_range|done].
  - apply byte_concat. eapply Forall_impl; [|exact Hl]. intros [k vs] ([_ Hk] & _ & _ & Hv & _). apply byte_list_app. split; [by apply byte_field|].
    apply byte_list_app. split; [apply to_le_bytes_range|]. apply byte_concat. eapply Forall_impl; [|exact Hv].
    intros [v b] ([_ Hu] & _ & Hb & _). apply byte_list_app. split; [by apply byte_field|done].
Qed.

Lemma postings_read `{Xxh64} i : well_formed i -> len (encode i) <= MAX_TEXT -> parse (encode i) = Some i.
Proof. intros Hw Hl. apply parse_iff. rewrite readable_iff. split_and!; [done|done|by apply byte_body|done]. Qed.

(** The reader of the footer index accepts exactly the texts the writer
    could have written: a text is read as the index [i] when, and only when,
    [i] describes its segment completely, the text is the spelling of [i] and
    it is within the size limit. *)
Theorem postings_text_exact `{Xxh64} (text : bytes) (i : Index) :
  parse text = Some i <-> well_formed i /\ text = encode i /\ len text <= MAX_TEXT.
Proof.
  rewrite parse_iff, readable_iff. split; [tauto|]. intros (Hw & He & Hl). split; [done|]. split; [done|]. split; [by apply byte_body|done].
Qed.

(** * What a query selects *)

(** The series [o] has, on every indexed label, the value an equality matcher
    asks for. *)
Definition selects (i : Index) (ms : list Matcher) (o : Z) : Prop :=
  forall m, m ∈ ms -> is_eq m = true -> forall vs, find m.(name) i.(labels) = Some vs ->
  exists b, find m.(value) vs = Some b /\ bit b o = true.

Definition usable (i : Index) (ms : list Matcher) : Prop :=
  exists m, m ∈ ms /\ is_eq m = true /\ find m.(name) i.(labels) <> None.

Lemma byte_and a b : byte_list a -> byte_list b -> byte_list (zip_into Z.land a b).
Proof.
  intros Ha. revert b. induction Ha as [|x a Hx Ha IH]; intros b Hb; [constructor|]. destruct Hb as [|y b Hy Hb]; [by constructor|].
  constructor; [|by apply IH]. split; [apply Z.land_nonneg; lia|]. destruct (Z.eq_dec (Z.land x y) 0) as [->|Hn]; [lia|].
  change 256 with (2 ^ 8). apply Z.log2_lt_pow2; [pose proof (proj2 (Z.land_nonneg x y)); lia|].
  pose proof (Z.log2_land x y ltac:(lia) ltac:(lia)). assert (Z.log2 x < 8); [|lia].
  destruct (Z.eq_dec x 0) as [->|]; [done|]. apply Z.log2_lt_pow2; lia.
Qed.

Lemma index_bits i k vs v b : well_formed i -> find k i.(labels) = Some vs -> find v vs = Some b -> bits_ok (universe i.(series)) b.
Proof.
  intros (_ & _ & (_ & _ & Hl)) E1 E2. apply find_in in E1, E2. rewrite list.Forall_forall in Hl.
  destruct (Hl _ E1) as [_ (_ & _ & Hv & _)]. rewrite list.Forall_forall in Hv. by destruct (Hv _ E2).
Qed.

Lemma narrow_spec i ms sel used : well_formed i -> len sel = len (universe i.(series)) -> byte_list sel ->
  let '(sel', used') := fold_left (narrow i) ms (sel, used) in
  len sel' = len (universe i.(series)) /\ byte_list sel' /\
  (forall o, 0 <= o -> bit sel' o = true <-> bit sel o = true /\ selects i ms o) /\ (used' = true <-> used = true \/ usable i ms).
Proof.
  intros Hw. revert sel used. induction ms as [|m ms IH]; intros sel used Hl Hb; cbn [fold_left].
  { split_and!; try done.
    - intros o Ho. split; [intros; split; [done|]|tauto]. intros m Hin. by apply not_elem_of_nil in Hin.
    - split; [tauto|]. intros [?|(m & Hin & _)]; [done|]. by apply not_elem_of_nil in Hin. }
  assert (Hskip : (is_eq m = true -> find (name m) (labels i) = None) -> narrow i (sel, used) m = (sel, used) ->
    let '(sel', used') := fold_left (narrow i) ms (narrow i (sel, used) m) in
    len sel' = len (universe i.(series)) /\ byte_list sel' /\
    (forall o, 0 <= o -> bit sel' o = true <-> bit sel o = true /\ selects i (m :: ms) o) /\ (used' = true <-> used = true \/ usable i (m :: ms))).
  { intros Hm ->. specialize (IH sel used Hl Hb). destruct (fold_left (narrow i) ms (sel, used)) as [sel' used'].
    destruct IH as (L & B & E & U). split_and!; try done.
    - intros o Ho. rewrite E by done. unfold selects. split; intros [H1 H2]; (split; [done|]).
      + intros m' [->|Hin]%elem_of_cons He vs Hf; [by rewrite Hm in Hf|by apply (H2 m')].
      + intros m' Hin. by apply H2, list_elem_of_further.
    - rewrite U. unfold usable. split; intros [?|(m' & Hin & He & Hf)]; try (by left); right; exists m'.
      + split; [by apply list_elem_of_further|done].
      + apply elem_of_cons in Hin as [->|Hin]; [by rewrite Hm in Hf|done]. }
  destruct (is_eq m) eqn:Em; [|apply Hskip; [done|unfold narrow; by rewrite Em]].
  destruct (find (name m) (labels i)) as [vs|] eqn:En; [|apply Hskip; [done|unfold narrow; by rewrite Em, En]]. clear Hskip.
  assert (Hnar : narrow i (sel, used) m = match find (value m) vs with
    | Some b => (zip_into Z.land sel b, true) | None => (map (fun _ => 0) sel, true) end) by (unfold narrow; by rewrite Em, En).
  rewrite Hnar. clear Hnar.
  assert (Hfin : forall sel1, len sel1 = len (universe i.(series)) -> byte_list sel1 ->
    (forall o, 0 <= o -> bit sel1 o = true <-> bit sel o = true /\ exists b, find m.(value) vs = Some b /\ bit b o = true) ->
    let '(sel', used') := fold_left (narrow i) ms (sel1, true) in
    len sel' = len (universe i.(series)) /\ byte_list sel' /\
    (forall o, 0 <= o -> bit sel' o = true <-> bit sel o = true /\ selects i (m :: ms) o) /\ (used' = true <-> used = true \/ usable i (m :: ms))).
  { intros sel1 L1 B1 E1. specialize (IH sel1 true L1 B1). destruct (fold_left (narrow i) ms (sel1, true)) as [sel' used'].
    destruct IH as (L & B & E & U). split_and!; try done.
    - intros o Ho. rewrite E, E1 by done. unfold selects. split.
      + intros [[H1 H2] H3]. split; [done|]. intros m' [->|Hin]%elem_of_cons He vs' Hf; [|by apply (H3 m')].
        rewrite En in Hf. by injection Hf as <-.
      + intros [H1 H2]. split; [split; [done|]|].
        * by apply (H2 m (list_elem_of_here _ _) Em vs).
        * intros m' Hin. by apply H2, list_elem_of_further.
    - rewrite U. split; [intros _|tauto]. right. exists m. split_and!; [apply list_elem_of_here|done|by rewrite En]. }
  destruct (find (value m) vs) as [b|] eqn:Ev.
  - pose proof (index_bits _ _ _ _ _ Hw En Ev) as (Lb & Bb & _). apply Hfin; [by rewrite len_zip_into|by apply byte_and|].
    intros o Ho. rewrite bit_and by lia. rewrite andb_true_iff. split; [intros [? ?]; split; [done|by exists b]|].
    intros [? (b' & [= <-] & ?)]. done.
  - assert (Hz : map (fun _ : Z => 0) sel = zeros (len sel)).
    { unfold zeros, len. rewrite Nat2Z.id. clear. induction sel as [|x sel IH]; cbn; [done|by rewrite IH]. }
    apply Hfin; [by rewrite len_map|rewrite Hz; apply byte_zeros|]. intros o Ho. rewrite Hz, bit_zeros. split; [done|].
    by intros [_ (b & ? & _)].
Qed.

(** A group is kept exactly when it holds a series the equalities select. *)
Lemma candidates_spec i ms : well_formed i ->
  match candidates i ms with
  | None => ~ usable i ms
  | Some keep =>
      usable i ms /\ length keep = length i.(groups) /\
      forall k g, i.(groups) !! k = Some g ->
        keep !! k = Some true <-> exists o, 0 <= o < i.(series) /\ bit (snd g) o = true /\ selects i ms o
  end.
Proof.
  intros Hw. unfold candidates. pose proof Hw as ((Hs & _) & (Hg & _) & _).
  destruct (universe_spec (series i) ltac:(lia)) as (Lu & Bu & Eu).
  pose proof (narrow_spec i ms (universe (series i)) false Hw eq_refl Bu) as Hn.
  destruct (fold_left (narrow i) ms (universe (series i), false)) as [sel used]. destruct Hn as (L & B & E & U).
  destruct used.
  - split; [destruct (proj1 U eq_refl); done|]. split; [by rewrite length_map|]. intros k g Hk. rewrite list_lookup_fmap, Hk. cbn [fmap option_fmap option_map].
    rewrite list.Forall_forall in Hg. apply list_elem_of_lookup_2 in Hk. destruct (Hg g Hk) as (_ & _ & Lg & Bg & Sg & _).
    pose proof (meets (snd g) sel Bg ltac:(lia)) as Hm. split.
    + intros [= Hx]. apply Hm in Hx as (o & Ho & H1 & H2). apply E in H2 as [H2 H3]; [|done]. rewrite Eu in H2 by done. bools.
      exists o. split; [lia|done].
    + intros (o & Ho & H1 & H2). f_equal. apply Hm. exists o. split; [lia|]. split; [done|]. apply E; [lia|]. split; [|done].
      rewrite Eu by lia. apply Z.ltb_lt. lia.
  - intros Hu. discriminate (proj2 U (or_intror Hu)).
Qed.
