(* ===== verification/PostingsBuild.v ===== *)
(** What the index of [MetricPostings] says of the rows it was built from: it
    is always readable, and it keeps exactly the row groups that hold a row the
    indexed equalities select, so no matching row is skipped. *)

From S2P Require Import Prelude OrdMap Utf8 External Float64 StableHash MetricPostings.

(** * The dictionary *)

(** Slices at the same address with the same length are the same bytes. *)
Definition same_slices (l : list Row) : Prop :=
  forall a b, a ∈ l -> b ∈ l -> fst a = fst b -> len (snd a) = len (snd b) -> snd a = snd b.

Record dict_ok (seen : list Row) (d : Dictionary) : Prop := {
  do_ordered : ordered d.(dictionary);
  do_ordinals : map snd d.(dictionary) ≡ₚ numbers (len d.(dictionary));
  do_size : len d.(dictionary) <= MAX_SERIES;
  do_rows : length d.(ordinals) = length seen;
  do_row : forall r row, seen !! r = Some row -> exists o, d.(ordinals) !! r = Some o /\ find (snd row) d.(dictionary) = Some o;
  do_key : forall k o, find k d.(dictionary) = Some o -> exists row, row ∈ seen /\ snd row = k;
  do_previous : forall p n o, d.(previous) = Some (p, n, o) ->
    exists row, row ∈ seen /\ fst row = p /\ len (snd row) = n /\ find (snd row) d.(dictionary) = Some o
}.

Lemma numbers_snoc n : 0 <= n -> numbers (1 + n) = numbers n ++ [n].
Proof.
  intros Hn. unfold numbers. replace (Z.to_nat (1 + n)) with (Z.to_nat n + 1)%nat by lia.
  rewrite seq_app, map_app. cbn. do 2 f_equal. lia.
Qed.

Lemma dict_range seen d k o : dict_ok seen d -> find k d.(dictionary) = Some o -> 0 <= o < len d.(dictionary).
Proof.
  intros Hd E. apply find_in in E. apply (do_ordinals) in Hd as Hp. apply numbers_in. rewrite <- Hp.
  apply list_elem_of_In, in_map_iff. exists (k, o). split; [done|by apply list_elem_of_In].
Qed.

(** The state after a row whose ordinal is [o]. *)
Lemma dict_push seen d row o d1 : dict_ok seen d ->
  ordered d1.(dictionary) -> map snd d1.(dictionary) ≡ₚ numbers (len d1.(dictionary)) -> len d1.(dictionary) <= MAX_SERIES ->
  d1.(ordinals) = d.(ordinals) -> (forall k v, find k d.(dictionary) = Some v -> find k d1.(dictionary) = Some v) ->
  (forall k v, find k d1.(dictionary) = Some v -> find k d.(dictionary) = Some v \/ k = snd row) ->
  find (snd row) d1.(dictionary) = Some o ->
  dict_ok (seen ++ [row]) (mkDictionary d1.(dictionary) d1.(dictionary_bytes) d1.(probes) (Some (fst row, len (snd row), o))
    (d1.(ordinals) ++ [o mod 65536])).
Proof.
  intros Hd Ho Hp Hs Eo Hk Hnew Hf.
  assert (Hr : 0 <= o < len d1.(dictionary)).
  { apply find_in in Hf. apply numbers_in. rewrite <- Hp. apply list_elem_of_In, in_map_iff. exists (snd row, o). split; [done|by apply list_elem_of_In]. }
  assert (Em : o mod 65536 = o) by (unfold MAX_SERIES in Hs; apply Z.mod_small; lia). rewrite Em, Eo. split; cbn.
  - done.
  - done.
  - done.
  - rewrite !length_app, (do_rows _ _ Hd). done.
  - intros r x Hx. apply lookup_app_Some in Hx as [Hx|[Hge Hx]].
    + destruct (do_row _ _ Hd r x Hx) as (o' & E1 & E2). exists o'. split; [|by apply Hk]. by apply lookup_app_l_Some.
    + rewrite <- (do_rows _ _ Hd) in Hge, Hx. destruct (r - length (ordinals d))%nat as [|n] eqn:En; [|done]. injection Hx as <-.
      exists o. split; [|done]. rewrite lookup_app_r, En by done. done.
  - intros k v E. apply Hnew in E as [E| ->].
    + destruct (do_key _ _ Hd k v E) as (x & Hx & <-). exists x. split; [apply elem_of_app; by left|done].
    + exists row. split; [apply elem_of_app; right; apply list_elem_of_here|done].
  - intros p n o' [= <- <- <-]. exists row. split; [apply elem_of_app; right; apply list_elem_of_here|done].
Qed.

Lemma add_row_ok seen d row d' : same_slices (seen ++ [row]) -> dict_ok seen d -> add_row d row = Some d' -> dict_ok (seen ++ [row]) d'.
Proof.
  intros Hs Hd E. unfold add_row in E. destruct (row_ordinal d row) as [[o d1]|] eqn:Er; [|done]. injection E as <-.
  destruct row as [p c]. unfold row_ordinal in Er.
  match type of Er with context [if _ then Some (_, d) else ?l] => set (lookup := l) in Er end.
  assert (Hlookup : lookup = Some (o, d1) -> dict_ok (seen ++ [(p, c)]) (mkDictionary (dictionary d1) (dictionary_bytes d1) (probes d1)
    (Some (p, len c, o)) (ordinals d1 ++ [o mod 65536]))).
  { subst lookup. intros El. destruct (checked_u64 (probes d + len c)) as [pr|]; [|done]. destruct (_ || _); [done|].
    destruct (find c (dictionary d)) as [o'|] eqn:Ef.
    - injection El as <- <-. apply (dict_push seen d (p, c)); cbn; auto; apply Hd.
    - destruct (MAX_SERIES <=? _) eqn:Ec; [done|]. destruct (checked_u64 _) as [total|]; [|done]. destruct (_ <? total); [done|].
      injection El as <- <-. bools. apply (dict_push seen d (p, c)); cbn [dictionary ordinals snd]; try done.
      + by apply put_ordered, Hd.
      + pose proof (put_new_perm c (len (dictionary d)) (dictionary d) Ef) as Hp. rewrite (Permutation_map snd Hp).
        assert (Hl : len (put c (len (dictionary d)) (dictionary d)) = 1 + len (dictionary d)) by (unfold len; rewrite Hp; cbn; lia).
        rewrite Hl, numbers_snoc by len_lia. cbn. rewrite (do_ordinals _ _ Hd). by rewrite Permutation_app_comm.
      + pose proof (put_length c (len (dictionary d)) (dictionary d)). lia.
      + intros k v Hk. rewrite find_put. destruct (cmp c k) eqn:Ek; [|done..]. apply cmp_eq in Ek as ->. congruence.
      + intros k v Hk. rewrite find_put in Hk. destruct (cmp c k) eqn:Ek; [|by left..]. apply cmp_eq in Ek as ->. by right.
      + apply find_put_same. }
  destruct (previous d) as [[[pp nn] oo]|] eqn:Ep; [|by apply Hlookup]. destruct ((pp =? p) && (nn =? len c)) eqn:Eq; [|by apply Hlookup].
  injection Er as <- <-. bools. subst pp nn. destruct (do_previous _ _ Hd _ _ _ Ep) as (x & Hx & H1 & H2 & H3).
  assert (Ex : snd x = c).
  { apply (Hs x (p, c)); [apply elem_of_app; by left|apply elem_of_app; right; apply list_elem_of_here|done|done]. }
  rewrite Ex in H3. apply (dict_push seen d (p, c)); cbn; auto; apply Hd.
Qed.

Lemma add_rows_ok seen d l d' : same_slices (seen ++ l) -> dict_ok seen d -> add_rows d l = Some d' -> dict_ok (seen ++ l) d'.
Proof.
  revert seen d. induction l as [|row l IH]; intros seen d Hs Hd E; cbn [add_rows] in E.
  { injection E as <-. by rewrite app_nil_r. }
  destruct (add_row d row) as [d1|] eqn:E1; [|done]. replace (seen ++ row :: l) with ((seen ++ [row]) ++ l) in * by by rewrite <- app_assoc.
  eapply IH; [done| |exact E]. eapply add_row_ok; [|exact Hd|exact E1].
  intros a b Ha Hb. apply Hs; apply elem_of_app; by left.
Qed.

Lemma dict_new_ok : dict_ok [] Dictionary_new.
Proof. split; cbn; try done. constructor. Qed.

(** * Row groups *)

(** The ordinals of the rows of group [k], the first of [l] being row [row]. *)
Fixpoint mine (size k row : Z) (l : list Z) : list Z :=
  match l with
  | [] => []
  | o :: l => if row / size =? k then o :: mine size k (row + 1) l else mine size k (row + 1) l
  end.

Lemma mine_in size k row l o : o ∈ mine size k row l <-> exists j : nat, l !! j = Some o /\ (row + Z.of_nat j) / size = k.
Proof.
  revert row. induction l as [|x l IH]; intros row; cbn [mine].
  { split; [intros Hin; by apply not_elem_of_nil in Hin|by intros (j & ? & _)]. }
  assert (G : o ∈ mine size k (row + 1) l <-> exists j : nat, (x :: l) !! S j = Some o /\ (row + Z.of_nat (S j)) / size = k).
  { rewrite IH. split; intros (j & H1 & H2); exists j; (split; [exact H1|]); rewrite <- H2; f_equal; lia. }
  destruct (Z.eqb_spec (row / size) k) as [Ek|Ek].
  - rewrite elem_of_cons, G. split.
    + intros [->|(j & ? & ?)]; [exists 0%nat; split; [done|]; by rewrite Z.add_0_r|by exists (S j)].
    + intros ([|j] & H1 & H2); [left; by injection H1|right; by exists j].
  - rewrite G. split; [intros (j & ? & ?); by exists (S j)|]. intros ([|j] & H1 & H2); [|by exists j].
    exfalso. apply Ek. by rewrite Z.add_0_r in H2.
Qed.

Lemma fill_lookup size row l gs k : 0 < size -> 0 <= row -> fill_groups size row l gs !! k =
  (fun g : Z * Bits => (fst g + len (mine size (Z.of_nat k) row l), fold_left set (mine size (Z.of_nat k) row l) (snd g))) <$> gs !! k.
Proof.
  intros Hs. revert row gs. induction l as [|o l IH]; intros row gs Hr; cbn [fill_groups mine].
  { destruct (gs !! k) as [[c b]|]; cbn; [|done]. by rewrite Z.add_0_r. }
  rewrite IH by lia. assert (Hd : 0 <= row / size) by (apply Z.div_pos; lia).
  destruct (Z.eqb_spec (row / size) (Z.of_nat k)) as [Ek|Ek].
  - rewrite list_lookup_alter, decide_True by lia. replace (Z.to_nat (row / size)) with k by lia. destruct (gs !! k) as [[c b]|]; cbn [fmap option_fmap option_map fst snd fold_left]; [|done].
    rewrite len_cons. do 2 f_equal. lia.
  - rewrite list_lookup_alter_ne by lia. done.
Qed.

Lemma sumZ_cons x l : sumZ (x :: l) = x + sumZ l.
Proof. done. Qed.

Lemma sumZ_alter (gs : list (Z * Bits)) k f : (k < length gs)%nat -> (forall g, fst (f g) = fst g + 1) ->
  sumZ (map fst (alter f k gs)) = sumZ (map fst gs) + 1.
Proof.
  intros Hk Hf. revert k Hk. induction gs as [|g gs IH]; intros [|k] Hk; cbn in *; [lia|lia|rewrite Hf; lia|].
  specialize (IH k ltac:(lia)). unfold sumZ in *. rewrite IH. lia.
Qed.

Lemma fill_sum size row l gs : 0 < size -> 0 <= row -> (len l = 0 \/ (row + len l - 1) / size < len gs) ->
  sumZ (map fst (fill_groups size row l gs)) = sumZ (map fst gs) + len l.
Proof.
  intros Hs. revert row gs. induction l as [|o l IH]; intros row gs Hr Hb; cbn [fill_groups]; [len_lia|].
  rewrite len_cons in Hb. destruct Hb as [Hb|Hb]; [len_lia|].
  assert (Hk : (Z.to_nat (row / size) < length gs)%nat).
  { assert (row / size <= (row + (1 + len l) - 1) / size) by (apply Z.div_le_mono; len_lia).
    assert (0 <= row / size) by (apply Z.div_pos; lia). unfold len in *. lia. }
  rewrite IH; [|lia|].
  - rewrite sumZ_alter by done. rewrite len_cons. lia.
  - right. unfold len in *. rewrite length_alter. replace (row + 1 + Z.of_nat (length l) - 1) with (row + (1 + Z.of_nat (length l)) - 1) by lia. done.
Qed.

Lemma ones_nonneg n b : 0 <= ones n b.
Proof. revert b. induction n as [|n IH]; intros b; cbn [ones]; [done|]. specialize (IH (b / 2)). pose proof (Z.mod_pos_bound b 2). lia. Qed.

Lemma count_ones_set x k : 0 <= x < 256 -> 0 <= k < 8 -> count_ones (Z.lor x (Z.shiftl 1 k)) <= count_ones x + 1.
Proof.
  intros Hx Hk. assert (H : forallb (fun x => forallb (fun k => count_ones (Z.lor x (Z.shiftl 1 k)) <=? count_ones x + 1) (numbers 8)) (numbers 256) = true)
    by (vm_compute; reflexivity).
  rewrite forallb_forall in H. specialize (H x ltac:(apply list_elem_of_In, numbers_in; lia)). cbv beta in H.
  rewrite forallb_forall in H. specialize (H k ltac:(apply list_elem_of_In, numbers_in; lia)). by bools.
Qed.

Lemma population_set bits o : 0 <= o -> byte_list bits -> population (set bits o) <= population bits + 1.
Proof.
  intros Ho Hb. unfold set, population. set (f := fun b => Z.lor b (Z.shiftl 1 (o mod 8))). generalize (Z.to_nat (o / 8)).
  assert (Hf : forall x, 0 <= x < 256 -> count_ones (f x) <= count_ones x + 1) by (intros x Hx; apply count_ones_set; [done|dlia]).
  induction Hb as [|x bits Hx Hb IH]; intros n; [destruct n; cbn; lia|]. destruct n as [|n].
  - change (alter f 0%nat (x :: bits)) with (f x :: bits). cbn [map]. rewrite !sumZ_cons. specialize (Hf x Hx). lia.
  - change (alter f (S n) (x :: bits)) with (x :: alter f n bits). cbn [map]. rewrite !sumZ_cons. specialize (IH n). lia.
Qed.

Lemma population_fold l bits : Forall (fun o => 0 <= o) l -> byte_list bits -> population (fold_left set l bits) <= population bits + len l.
Proof.
  intros Hl. revert bits. induction Hl as [|o l Ho Hl IH]; intros bits Hb; cbn [fold_left]; [len_lia|].
  specialize (IH (set bits o) ltac:(by apply byte_set)). pose proof (population_set bits o Ho Hb). rewrite len_cons. lia.
Qed.

Lemma population_zeros w : population (zeros w) = 0.
Proof. unfold population, zeros. induction (Z.to_nat w) as [|n IH]; [done|]. cbn [replicate map]. unfold sumZ in *. cbn [fold_right]. by rewrite IH. Qed.

(** Distinct or not, ordinals below [n] make a set of series. *)
Lemma members_ok n l : 0 < n -> l <> [] -> Forall (fun o => 0 <= o < n) l ->
  bits_ok (universe n) (fold_left set l (zeros (div_ceil n 8))) /\
  forall o, 0 <= o -> bit (fold_left set l (zeros (div_ceil n 8))) o = bool_decide (o ∈ l).
Proof.
  intros Hn Hne Hl. destruct (universe_spec n ltac:(lia)) as (Lu & Bu & Eu). pose proof (div_ceil_nonneg n 8 ltac:(lia) ltac:(lia)) as Hw.
  destruct (fold_set l (zeros (div_ceil n 8))) as (L & B & E).
  { rewrite len_zeros by done. eapply Forall_impl; [|exact Hl]. cbn. intros o Ho. split; [lia|by apply div_ceil_fits]. }
  rewrite len_zeros in L by done. assert (E' : forall o, 0 <= o -> bit (fold_left set l (zeros (div_ceil n 8))) o = bool_decide (o ∈ l)).
  { intros o Ho. rewrite E, bit_zeros by done. apply orb_false_r. }
  split; [|done]. split_and!.
  - by rewrite L, Lu.
  - apply B, byte_zeros.
  - intros o Ho. rewrite E', Eu by done. rewrite bool_decide_eq_true, Z.ltb_lt. intros Hin. rewrite list.Forall_forall in Hl. apply Hl in Hin. lia.
  - destruct l as [|o l]; [done|]. exists o. apply Forall_cons_1 in Hl as [Ho _]. split; [lia|]. rewrite E' by lia.
    apply bool_decide_eq_true. apply list_elem_of_here.
Qed.

(** * Partitions *)

Definition value_of (name : bytes) (labels : list (bytes * bytes)) : bytes := default [] (label_value name labels).

(** The series whose value of [name] is [v]. *)
Definition members (name v : bytes) (l : Parsed) : list Z :=
  map fst (List.filter (fun p => bytes_eqb (value_of name (snd p)) v) l).

Lemma members_in name v l o : o ∈ members name v l <-> exists labels, (o, labels) ∈ l /\ value_of name labels = v.
Proof.
  unfold members. rewrite list_elem_of_In, in_map_iff. split.
  - intros ([o' labels] & <- & Hin). apply filter_In in Hin as [Hin E]. apply bytes_eqb_eq in E. exists labels. split; [by apply list_elem_of_In|done].
  - intros (labels & Hin & <-). exists (o, labels). split; [done|]. apply filter_In. split; [by apply list_elem_of_In|]. by apply bytes_eqb_eq.
Qed.

Lemma partition_spec name width l vs vs' : ordered vs -> partition name width l vs = Some vs' ->
  ordered vs' /\ len vs' <= len vs + len l /\ Forall (fun p => len (value_of name (snd p)) <= MAX_FIELD) l /\
  forall v, find v vs' = match members name v l with
                         | [] => find v vs
                         | ms => Some (fold_left set ms (default (zeros width) (find v vs)))
                         end.
Proof.
  revert vs. induction l as [|[o labels] l IH]; intros vs Ho E; cbn [partition] in E.
  { injection E as <-. split_and!; [done|len_lia|constructor|done]. }
  fold (value_of name labels) in E. destruct (MAX_FIELD <? _) eqn:El; [done|]. bools. set (w := value_of name labels) in *.
  apply IH in E as (H1 & H2 & H3 & H4); [|by apply put_ordered]. unfold update in *.
  pose proof (put_length w (set (default (zeros width) (find w vs)) o) vs). split_and!; [done|len_lia|by constructor|].
  intros v. rewrite H4, find_put. unfold members. cbn [List.filter snd]. fold w. destruct (cmp w v) eqn:Ec.
  - apply cmp_eq in Ec as ->. rewrite (proj2 (bytes_eqb_eq v v) eq_refl). cbn [map fst]. fold (members name v l).
    destruct (members name v l); done.
  - destruct (bytes_eqb w v) eqn:Eb; [apply bytes_eqb_eq in Eb as ->; by rewrite cmp_refl in Ec|]. done.
  - destruct (bytes_eqb w v) eqn:Eb; [apply bytes_eqb_eq in Eb as ->; by rewrite cmp_refl in Ec|]. done.
Qed.

(** The parsed dictionary: every series once, with UTF-8 labels. *)
Definition parsed_ok (n : Z) (l : Parsed) : Prop :=
  map fst l ≡ₚ numbers n /\ Forall (fun p => Forall utf8_pair (snd p)) l.

Lemma label_value_in name labels v : label_value name labels = Some v -> exists k, (k, v) ∈ labels /\ k = name.
Proof.
  induction labels as [|[k w] labels IH]; cbn; [done|]. destruct (bytes_eqb k name) eqn:E.
  - intros [= <-]. apply bytes_eqb_eq in E. exists k. split; [apply list_elem_of_here|done].
  - intros Ev. destruct (IH Ev) as (k' & Hin & Hk). exists k'. split; [by apply list_elem_of_further|done].
Qed.

Lemma value_of_utf8 name labels : Forall utf8_pair labels -> from_utf8_ok (value_of name labels) = true.
Proof.
  intros Hu. unfold value_of. destruct (label_value name labels) as [v|] eqn:E; [|done]. cbn.
  apply label_value_in in E as (k & Hin & _). rewrite list.Forall_forall in Hu. by destruct (Hu _ Hin).
Qed.

Lemma members_range n name v l : parsed_ok n l -> Forall (fun o => 0 <= o < n) (members name v l).
Proof.
  intros [Hp _]. apply list.Forall_forall. intros o Hin. apply members_in in Hin as (labels & Hin & _). apply numbers_in. rewrite <- Hp.
  apply list_elem_of_In, in_map_iff. exists (o, labels). split; [done|by apply list_elem_of_In].
Qed.

(** A series has one entry. *)
Lemma parsed_unique n l o a b : parsed_ok n l -> (o, a) ∈ l -> (o, b) ∈ l -> a = b.
Proof.
  intros [Hp _] Ha Hb. assert (Hnd : NoDup (map fst l)).
  { rewrite Hp. unfold numbers. apply NoDup_fmap_2_strong; [lia|apply NoDup_seq]. }
  clear Hp. induction l as [|[p c] l IH]; [by apply not_elem_of_nil in Ha|]. cbn in Hnd. apply list.NoDup_cons in Hnd as [Hn Hnd].
  assert (Hf : forall x, (p, x) ∉ l).
  { intros x Hin. apply Hn. apply list_elem_of_In, in_map_iff. exists (p, x). split; [done|by apply list_elem_of_In]. }
  apply elem_of_cons in Ha as [Ha|Ha], Hb as [Hb|Hb]; simplify_eq; [done|by apply Hf in Hb|by apply Hf in Ha|by apply IH].
Qed.

Lemma partition_complete n name l vs : 0 < n -> parsed_ok n l -> partition name (div_ceil n 8) l [] = Some vs ->
  partition_ok n vs /\
  forall o labels, (o, labels) ∈ l -> forall v, (exists b, find v vs = Some b /\ bit b o = true) <-> v = value_of name labels.
Proof.
  intros Hn Hp E. assert (Hlen : len l = n).
  { destruct Hp as [Hp _]. apply Permutation_length in Hp. rewrite length_map in Hp. unfold len. rewrite Hp. fold (len (numbers n)). apply len_numbers. lia. }
  apply partition_spec in E as (Ho & Hl & Hf & E); [|constructor]. cbn [find default] in E.
  assert (Hfind : forall v b, find v vs = Some b -> members name v l <> [] /\ b = fold_left set (members name v l) (zeros (div_ceil n 8))).
  { intros v b Hv. rewrite E in Hv. destruct (members name v l) as [|x ms]; [done|]. by injection Hv as <-. }
  assert (Hexact : forall o labels, (o, labels) ∈ l -> forall v, (exists b, find v vs = Some b /\ bit b o = true) <-> v = value_of name labels).
  { intros o labels Hin v. assert (Hr : 0 <= o < n).
    { apply numbers_in. destruct Hp as [Hp _]. rewrite <- Hp. apply list_elem_of_In, in_map_iff. exists (o, labels). split; [done|by apply list_elem_of_In]. }
    split.
    - intros (b & Hv & Hb). destruct (Hfind v b Hv) as [Hne ->]. destruct (members_ok n _ Hn Hne (members_range n name v l Hp)) as [_ Hbit].
      rewrite Hbit in Hb by lia. apply bool_decide_eq_true, members_in in Hb as (labels' & Hin' & <-). by rewrite (parsed_unique n l o _ _ Hp Hin Hin').
    - intros ->. assert (Hm : o ∈ members name (value_of name labels) l) by (apply members_in; by exists labels).
      assert (Hne : members name (value_of name labels) l <> []) by (intros E0; rewrite E0 in Hm; by apply not_elem_of_nil in Hm).
      destruct (members_ok n _ Hn Hne (members_range n name _ l Hp)) as [_ Hbit].
      exists (fold_left set (members name (value_of name labels) l) (zeros (div_ceil n 8))). split.
      + rewrite E. by destruct (members name (value_of name labels) l).
      + rewrite Hbit by lia. by apply bool_decide_eq_true. }
  split; [|done]. split_and!.
  - done.
  - destruct l as [|[o labels] l]; [len_lia|]. destruct (proj2 (Hexact o labels (list_elem_of_here _ _) _) eq_refl) as (b & Hv & _).
    apply find_in in Hv. destruct vs; [by apply not_elem_of_nil in Hv|len_lia].
  - change (len (@nil (bytes * Bits))) with 0 in Hl. lia.
  - apply list.Forall_forall. intros [v b] Hin. apply (proj2 (find_iff v b vs Ho)) in Hin. destruct (Hfind v b Hin) as [Hne ->].
    cbn [fst snd]. split; [|by apply members_ok; [..|apply members_range]].
    destruct (members name v l) as [|o ms] eqn:Em; [done|]. assert (Ho' : o ∈ members name v l) by (rewrite Em; apply list_elem_of_here).
    apply members_in in Ho' as (labels & Hin' & <-). rewrite list.Forall_forall in Hf. destruct Hp as [_ Hu]. rewrite list.Forall_forall in Hu.
    split; [by apply (Hf (o, labels))|]. apply value_of_utf8. by apply (Hu (o, labels)).
  - intros o Ho'. assert (Hin : o ∈ map fst l) by (destruct Hp as [Hp _]; rewrite Hp; by apply numbers_in).
    apply list_elem_of_In, in_map_iff in Hin as ([o' labels] & Eo & Hin). cbn in Eo. subst o'. apply list_elem_of_In in Hin.
    destruct (proj2 (Hexact o labels Hin _) eq_refl) as (b & Hv & Hb). exists (value_of name labels), b.
    split_and!; [by apply find_in|done|]. intros v' b' Hin' Hb'. apply (Hexact o labels Hin). exists b'. split; [|done]. by apply find_iff.
Qed.

(** * Label names *)

Lemma put_names_in l (m : omap bytes unit) e : e ∈ fold_left (fun s n => put n tt s) l m -> fst e ∈ l \/ e ∈ m.
Proof.
  revert m. induction l as [|x l IH]; intros m Hin; cbn [fold_left] in Hin; [by right|].
  apply IH in Hin as [Hin|Hin]; [left; by apply list_elem_of_further|]. apply put_in in Hin as [->|Hin]; [left; apply list_elem_of_here|by right].
Qed.

Lemma put_names_ordered l (m : omap bytes unit) : ordered m -> ordered (fold_left (fun s n => put n tt s) l m).
Proof. revert m. induction l as [|x l IH]; intros m Ho; cbn [fold_left]; [done|]. by apply IH, put_ordered. Qed.

Lemma name_set_ok n parsed e : parsed_ok n parsed -> e ∈ name_set parsed -> field_ok (fst e).
Proof.
  intros [_ Hu] Hin. unfold name_set in Hin. apply put_names_in in Hin as [Hin|Hin]; [|by apply not_elem_of_nil in Hin].
  apply list_elem_of_In, filter_In in Hin as [Hin Hl]. bools. split; [done|].
  apply in_concat in Hin as (ks & Hks & Hin). apply in_map_iff in Hks as ([o labels] & <- & Hp). cbn in Hin.
  apply in_map_iff in Hin as ([k v] & E & Hin). cbn in E. rewrite <- E. rewrite list.Forall_forall in Hu.
  apply list_elem_of_In in Hp. specialize (Hu _ Hp). cbn in Hu. rewrite list.Forall_forall in Hu. apply list_elem_of_In in Hin.
  by destruct (Hu _ Hin).
Qed.

Lemma examined_ok n parsed : parsed_ok n parsed ->
  NoDup (examined parsed) /\ (length (examined parsed) <= MAX_LABELS)%nat /\ Forall field_ok (examined parsed).
Proof.
  intros Hp. unfold examined. set (names := name_set parsed). assert (Ho : ordered names) by (apply put_names_ordered; constructor).
  set (all := _ ++ _). assert (Hall : NoDup all /\ Forall field_ok all).
  { assert (Hkeys : Forall field_ok (keys (remove metric_name names))).
    { apply list.Forall_forall. intros k Hk. apply list_elem_of_In, in_map_iff in Hk as (e & <- & He). apply list_elem_of_In, remove_in in He.
      by eapply name_set_ok. }
    assert (Hnd : NoDup (keys (remove metric_name names))) by by apply ordered_nodup, remove_ordered.
    subst all. destruct (find metric_name names) as [[]|] eqn:Ef; cbn [app]; [|done]. split.
    - apply list.NoDup_cons. split; [|done]. intros Hin. apply list_elem_of_In, in_map_iff in Hin as ([k []] & Ek & Hin). cbn in Ek. subst k.
      apply list_elem_of_In in Hin. apply (find_iff metric_name tt _ (remove_ordered _ _ Ho)) in Hin. by rewrite find_remove, cmp_refl in Hin.
    - constructor; [|done]. apply find_in in Ef. by apply (name_set_ok n parsed) in Ef. }
  destruct Hall as [H1 H2]. split_and!.
  - refine (sublist_NoDup _ _ H1 _). apply sublist_take.
  - rewrite length_take. lia.
  - by apply Forall_take.
Qed.

Lemma index_names_spec names width parsed size acc base : NoDup names -> (forall k, k ∈ names -> find k acc = None) -> ordered acc ->
  size = base + msum (values_size width) acc -> size <= MAX_RAW ->
  let r := index_names names width parsed size acc in
  ordered r /\ base + msum (values_size width) r <= MAX_RAW /\ len r <= len acc + len names /\
  forall k vs, find k r = Some vs -> find k acc = Some vs \/ (k ∈ names /\ partition k width parsed [] = Some vs).
Proof.
  revert size acc. induction names as [|name names IH]; intros size acc Hnd Hfresh Ho Hs Hm; cbn [index_names].
  { split_and!; [done|lia|len_lia|by left]. }
  apply list.NoDup_cons in Hnd as [Hn Hnd].
  assert (Hskip : let r := index_names names width parsed size acc in
    ordered r /\ base + msum (values_size width) r <= MAX_RAW /\ len r <= len acc + len (name :: names) /\
    forall k vs, find k r = Some vs -> find k acc = Some vs \/ (k ∈ name :: names /\ partition k width parsed [] = Some vs)).
  { destruct (IH size acc) as (H1 & H2 & H3 & H4); [done|intros k Hk; by apply Hfresh, list_elem_of_further|done|done|done|].
    split_and!; [done|done|len_lia|]. intros k vs Hk. destruct (H4 k vs Hk) as [?|[? ?]]; [by left|]. right. split; [by apply list_elem_of_further|done]. }
  destruct (partition name width parsed []) as [values|] eqn:Ep; [|exact Hskip]. destruct (MAX_RAW <? _) eqn:El; [exact Hskip|]. bools.
  destruct (IH (size + values_size width name values) (put name values acc)) as (H1 & H2 & H3 & H4).
  - done.
  - intros k Hk. rewrite find_put. destruct (cmp name k) eqn:Ec; [apply cmp_eq in Ec as ->; done|by apply Hfresh, list_elem_of_further..].
  - by apply put_ordered.
  - rewrite msum_put, (Hfresh name) by (done || apply list_elem_of_here). cbn [from_option]. lia.
  - done.
  - pose proof (put_length name values acc). split_and!; [done|done|len_lia|]. intros k vs Hk. destruct (H4 k vs Hk) as [Hk'|[? ?]].
    + rewrite find_put in Hk'. destruct (cmp name k) eqn:Ec; [|by left..]. apply cmp_eq in Ec as ->. injection Hk' as <-. right.
      split; [apply list_elem_of_here|done].
    + right. split; [by apply list_elem_of_further|done].
Qed.

(** * Sizes *)

Lemma len_concat {A} (f : A -> bytes) (w : A -> Z) l : Forall (fun x => len (f x) = w x) l -> len (concat (map f l)) = sumZ (map w l).
Proof. induction 1 as [|x l Hx Hl IH]; [done|]. cbn [map concat]. by rewrite len_app, Hx, IH. Qed.

Lemma sumZ_const {A} (c : Z) (l : list A) : sumZ (map (fun _ => c) l) = len l * c.
Proof. induction l as [|x l IH]; [done|]. cbn [map]. rewrite sumZ_cons, IH, len_cons. lia. Qed.

Lemma msum_sumZ (w : bytes -> Values -> Z) m : msum w m = sumZ (map (fun e => w (fst e) (snd e)) m).
Proof. induction m as [|e m IH]; [done|]. rewrite msum_cons, IH. done. Qed.

Lemma len_u16 v : len (u16_bytes v) = 2.
Proof. apply to_le_bytes_len. Qed.
Lemma len_u32 v : len (u32_bytes v) = 4.
Proof. apply to_le_bytes_len. Qed.

Lemma encode_size `{Xxh64} i : well_formed i -> let width := div_ceil i.(series) 8 in
  len (encode i) = 2 * (26 + len i.(groups) * (4 + width) + msum (values_size width) i.(labels)).
Proof.
  intros Hw width. pose proof Hw as ((Hs & _) & (Hg & _) & (_ & _ & Hl)). destruct (universe_spec i.(series) ltac:(lia)) as (Lu & _ & _).
  unfold encode. rewrite hex_len, len_app, to_le_bytes_len. unfold body. rewrite !len_app, !len_u16, len_u32, MAGIC_len.
  rewrite (len_concat put_group (fun _ => 4 + width)).
  2:{ eapply Forall_impl; [|exact Hg]. intros g (_ & _ & Lg & _). unfold put_group. rewrite len_app, len_u32. lia. }
  rewrite (len_concat put_label (fun e => values_size width (fst e) (snd e))).
  2:{ eapply Forall_impl; [|exact Hl]. intros [k vs] (_ & _ & _ & Hv & _). unfold put_label, values_size, field. cbn [fst snd].
      rewrite !len_app, !len_u16. rewrite (len_concat put_value (fun e => 2 + len (fst e) + width)).
      2:{ eapply Forall_impl; [|exact Hv]. intros [v b] (_ & Lb & _). unfold put_value, field. cbn [fst snd] in *. rewrite !len_app, len_u16. lia. }
      unfold keys. rewrite map_map. lia. }
  rewrite sumZ_const, msum_sumZ. lia.
Qed.

(** * Canonical text *)

Fixpoint join (fs : list bytes) : bytes :=
  match fs with [] => [] | [f] => f | f :: fs => f ++ SEP :: join fs end.

Lemma join_cons f fs : fs <> [] -> join (f :: fs) = f ++ SEP :: join fs.
Proof. by destruct fs. Qed.

Lemma join_split b : join (split_ff b) = b /\ split_ff b <> [].
Proof.
  induction b as [|x b [IH Hne]]; [done|]. cbn [split_ff]. destruct (split_ff b) as [|f fs] eqn:E; [done|].
  destruct (Z.eqb_spec x 0xff) as [->|Hx]; (split; [|done]).
  - rewrite join_cons by done. by rewrite IH.
  - destruct fs as [|g fs]; [cbn in *; by rewrite IH|]. rewrite join_cons in * by done. by rewrite <- IH.
Qed.

Lemma pairs_canonical fs prev l : pairs_loop fs prev = Some l -> join fs = canonical l /\ Forall utf8_pair l.
Proof.
  revert prev l. induction fs as [fs IH] using (induction_ltof1 _ (@length bytes)). unfold ltof in IH. intros prev l E.
  destruct fs as [|k [|v fs]]; cbn [pairs_loop] in E; [done| |].
  { destruct k; [|done]. injection E as <-. split; [done|constructor]. }
  assert (E' : (if not_after prev k || negb (from_utf8_ok k) || negb (from_utf8_ok v) then None
                else let* out := pairs_loop fs (Some k) in Some ((k, v) :: out)) = Some l) by by destruct k.
  destruct (_ || _) eqn:Eb; [done|]. bools. destruct (pairs_loop fs (Some k)) as [out|] eqn:Eo; [|done]. injection E' as <-.
  destruct (IH fs ltac:(cbn; lia) _ _ Eo) as [Hj Hu]. split; [|by constructor].
  destruct fs as [|f fs]; [done|]. unfold canonical. cbn [map concat]. fold (canonical out). rewrite !join_cons by done.
  rewrite <- Hj, <- !app_assoc. done.
Qed.

Lemma pairs_spec c l : pairs c = Some l -> c = canonical l /\ Forall utf8_pair l.
Proof.
  unfold pairs. destruct (_ <? _); [done|]. intros E. apply pairs_canonical in E as [Hj Hu]. destruct (join_split c) as [Hc _]. by rewrite Hc in Hj.
Qed.

Lemma find_ff_app n r : SEP ∉ n -> find_ff (n ++ SEP :: r) = Some (len n).
Proof.
  induction n as [|x n IH]; intros Hn; cbn [app find_ff]; [done|].
  destruct (Z.eqb_spec x 0xff) as [->|Hx]; [exfalso; apply Hn, list_elem_of_here|].
  rewrite IH by (intros Hin; by apply Hn, list_elem_of_further). rewrite len_cons. f_equal. lia.
Qed.

(** The segment reader splits canonical text into the same pairs. *)
Lemma parse_canonical_ok l fuel : Forall utf8_pair l -> (length l <= fuel)%nat -> parse_canonical_pairs fuel (canonical l) = Ok l.
Proof.
  intros Hu. revert fuel. induction Hu as [|[n v] l [Hn Hv] Hl IH]; intros fuel Hf; [by destruct fuel|]. cbn [fst snd length] in *.
  destruct fuel as [|fuel]; [lia|]. unfold canonical. cbn [map concat]. fold (canonical l). rewrite <- !app_assoc. cbn [app].
  set (text := n ++ SEP :: v ++ SEP :: canonical l). assert (Hne : text <> []) by (subst text; by destruct n).
  assert (Hstep : parse_canonical_pairs (S fuel) text = (let? name_end := ok_or (find_ff text) tt in
     let rest := drop (Z.to_nat (name_end + 1)) text in let? value_end := ok_or (find_ff rest) tt in
     let? out := parse_canonical_pairs fuel (drop (Z.to_nat (value_end + 1)) rest) in
     Ok ((take (Z.to_nat name_end) text, take (Z.to_nat value_end) rest) :: out))) by by destruct text.
  rewrite Hstep. subst text. rewrite find_ff_app by by apply utf8_no_sep. cbn [ok_or]. cbv zeta.
  assert (Hd : forall (x r : bytes), drop (Z.to_nat (len x + 1)) (x ++ SEP :: r) = r /\ take (Z.to_nat (len x)) (x ++ SEP :: r) = x).
  { intros x r. unfold len. replace (Z.to_nat (Z.of_nat (length x) + 1)) with (length x + 1)%nat by lia.
    rewrite drop_app_add, Nat2Z.id, take_app_length. done. }
  destruct (Hd n (v ++ SEP :: canonical l)) as [-> ->]. rewrite find_ff_app by by apply utf8_no_sep. cbn [ok_or].
  destruct (Hd v (canonical l)) as [-> ->]. rewrite IH by lia. done.
Qed.

Lemma canonical_length l : (length l <= length (canonical l))%nat.
Proof. induction l as [|[n v] l IH]; [done|]. unfold canonical. cbn [map concat length]. fold (canonical l). rewrite !length_app. cbn. lia. Qed.

(** An equality holds of the labels when it names their value. *)
Lemma eq_matches labels m re : is_eq m = true -> matcher_ok labels m re = true <-> value_of m.(name) labels = m.(value).
Proof.
  unfold is_eq, matcher_ok, value_of. destruct (op m); try done. intros _. destruct (label_value (name m) labels) as [v|]; cbn [default from_option]; unfold id.
  - by rewrite bytes_eqb_eq.
  - rewrite bytes_eqb_eq. split; congruence.
Qed.

(** * The built index *)

Lemma mapO_forall2 {A B} (f : A -> option B) l r : mapO f l = Some r -> Forall2 (fun a b => f a = Some b) l r.
Proof.
  revert r. induction l as [|x l IH]; intros r E; cbn in E; [injection E as <-; constructor|].
  destruct (f x) as [y|] eqn:Ey; [|done]. destruct (mapO f l) as [ys|]; [|done]. injection E as <-. constructor; [done|by apply IH].
Qed.

Lemma sumZ_bound (l : list (Z * Bits)) g : Forall (fun g => 0 <= fst g) l -> g ∈ l -> fst g <= sumZ (map fst l).
Proof.
  induction 1 as [|x l Hx Hl IH]; intros Hin; [by apply not_elem_of_nil in Hin|]. cbn [map]. rewrite sumZ_cons.
  assert (0 <= sumZ (map fst l)) by (clear -Hl; induction Hl as [|y l Hy Hl IH]; cbn [map]; rewrite ?sumZ_cons; [done|lia]).
  apply elem_of_cons in Hin as [->|Hin]; [lia|]. specialize (IH Hin). lia.
Qed.

Lemma fill_length size row l gs : length (fill_groups size row l gs) = length gs.
Proof. revert row gs. induction l as [|o l IH]; intros row gs; cbn [fill_groups]; [done|]. by rewrite IH, length_alter. Qed.

(** The row groups of rows with these ordinals. *)
Lemma groups_spec n size ords : 0 < n -> 0 < size -> ords <> [] -> Forall (fun o => 0 <= o < n) ords ->
  let gs := fill_groups size 0 ords (replicate (Z.to_nat (div_ceil (len ords) size)) (0, zeros (div_ceil n 8))) in
  len gs = div_ceil (len ords) size /\ sumZ (map fst gs) = len ords /\ Forall (group_ok (len ords) (universe n)) gs /\
  forall k g, gs !! k = Some g -> forall o, 0 <= o -> bit (snd g) o = true <-> exists r : nat, ords !! r = Some o /\ Z.of_nat r / size = Z.of_nat k.
Proof.
  intros Hn Hs Hne Hr. set (m := div_ceil (len ords) size). set (start := replicate (Z.to_nat m) _). intros gs.
  assert (Hpos : 0 < len ords) by (destruct ords; [done|len_lia]).
  assert (Hm : 0 < m /\ (len ords - 1) / size < m /\ (m - 1) * size < len ords).
  { subst m. unfold div_ceil. pose proof (Z.div_mod (len ords + size - 1) size ltac:(lia)). pose proof (Z.mod_pos_bound (len ords + size - 1) size Hs).
    assert (E : (len ords + size - 1) / size = (len ords - 1) / size + 1).
    { replace (len ords + size - 1) with (len ords - 1 + 1 * size) by lia. by rewrite Z.div_add by lia. }
    assert (0 <= (len ords - 1) / size) by (apply Z.div_pos; lia). split_and!; [lia|lia|nia]. }
  assert (Lstart : len start = m) by (unfold len, start; rewrite length_replicate; lia).
  assert (Hlook : forall k g, gs !! k = Some g -> let ms := mine size (Z.of_nat k) 0 ords in
    (Z.of_nat k < m) /\ g = (len ms, fold_left set ms (zeros (div_ceil n 8)))).
  { intros k g Hk. subst gs. rewrite fill_lookup in Hk by lia. destruct (start !! k) as [g0|] eqn:E0; [|done]. injection Hk as <-.
    pose proof (lookup_lt_Some _ _ _ E0) as Hlt. apply lookup_replicate in E0 as [-> _]. cbn [fst snd]. rewrite Z.add_0_l.
    split; [unfold len in Lstart; lia|done]. }
  assert (Lgs : len gs = m).
  { subst gs. unfold len. rewrite fill_length. apply Lstart. }
  assert (Hmine : forall k : nat, Z.of_nat k < m -> mine size (Z.of_nat k) 0 ords <> []).
  { intros k Hk. assert (Hlt : (Z.to_nat (Z.of_nat k * size) < length ords)%nat) by (unfold len in *; nia).
    destruct (lookup_lt_is_Some_2 ords _ Hlt) as [o Ho]. intros E.
    assert (Hin : o ∈ mine size (Z.of_nat k) 0 ords); [|rewrite E in Hin; by apply not_elem_of_nil in Hin].
    apply mine_in. exists (Z.to_nat (Z.of_nat k * size)). split; [done|]. rewrite Z2Nat.id by nia. rewrite Z.add_0_l. by apply Z.div_mul; lia. }
  assert (Hrange : forall k, Forall (fun o => 0 <= o < n) (mine size k 0 ords)).
  { intros k. apply list.Forall_forall. intros o Hin. apply mine_in in Hin as (j & Hj & _). by apply Forall_lookup_1 with (1 := Hr) in Hj. }
  assert (Hsum : sumZ (map fst gs) = len ords).
  { subst gs. rewrite fill_sum; [|lia|lia|right; rewrite Lstart, Z.add_0_l; lia]. subst start.
    assert (E : sumZ (map fst (replicate (Z.to_nat m) (0, zeros (div_ceil n 8)))) = 0); [|lia].
    clear. induction (Z.to_nat m) as [|j IH]; [done|]. cbn [replicate map]. by rewrite sumZ_cons, IH. }
  split_and!; [done|done| |].
  - assert (Hnn : Forall (fun g : Z * Bits => 0 <= fst g) gs).
    { apply list.Forall_forall. intros g Hg. apply list_elem_of_lookup in Hg as [k Hk]. destruct (Hlook k g Hk) as [_ ->]. apply len_nonneg. }
    apply list.Forall_forall. intros g Hg. pose proof (sumZ_bound gs g Hnn Hg) as Hle. rewrite Hsum in Hle.
    apply list_elem_of_lookup in Hg as [k Hk]. destruct (Hlook k g Hk) as [Hlt ->]. cbn [fst snd] in *. specialize (Hmine k Hlt).
    split; [split; [|done]|split].
    + cbn. destruct (mine size (Z.of_nat k) 0 ords); [done|len_lia].
    + cbn [fst snd]. pose proof (population_fold (mine size (Z.of_nat k) 0 ords) (zeros (div_ceil n 8))) as Hp. rewrite population_zeros in Hp.
      apply Hp; [|apply byte_zeros]. eapply Forall_impl; [|exact (Hrange (Z.of_nat k))]. cbn. lia.
    + cbn [snd]. by apply members_ok.
  - intros k g Hk o Ho. destruct (Hlook k g Hk) as [Hlt ->]. cbn [snd]. destruct (members_ok n _ Hn (Hmine k Hlt) (Hrange (Z.of_nat k))) as [_ Hbit].
    rewrite Hbit, bool_decide_eq_true, mine_in by done. setoid_rewrite Z.add_0_l. done.
Qed.


(** How an index describes the rows: [ords] gives each row its series, [parsed]
    each series its labels. *)
Record built (l : list Row) (size : Z) (i : Index) (ords : list Z) (parsed : Parsed) : Prop := {
  bu_formed : well_formed i;
  bu_rows : i.(rows) = len l;
  bu_groups : len i.(groups) = div_ceil (len l) size;
  bu_parsed : parsed_ok i.(series) parsed;
  bu_ords : length ords = length l;
  bu_row : forall r row, l !! r = Some row ->
    exists o labels, ords !! r = Some o /\ 0 <= o < i.(series) /\ (o, labels) ∈ parsed /\ pairs (snd row) = Some labels;
  bu_group : forall k g, i.(groups) !! k = Some g -> forall o, 0 <= o ->
    bit (snd g) o = true <-> exists r : nat, ords !! r = Some o /\ Z.of_nat r / size = Z.of_nat k;
  bu_label : forall name vs, find name i.(labels) = Some vs -> forall o labels, (o, labels) ∈ parsed ->
    forall v, (exists b, find v vs = Some b /\ bit b o = true) <-> v = value_of name labels;
  bu_size : 26 + len i.(groups) * (4 + div_ceil i.(series) 8) + msum (values_size (div_ceil i.(series) 8)) i.(labels) <= MAX_RAW
}.

(** The parsed dictionary of an accepted segment. *)
Lemma parsed_from seen d parsed : dict_ok seen d ->
  mapO (fun '(canonical, ordinal) => let* p := pairs canonical in Some (ordinal, p)) d.(dictionary) = Some parsed ->
  parsed_ok (len d.(dictionary)) parsed /\
  forall k o, find k d.(dictionary) = Some o -> exists labels, (o, labels) ∈ parsed /\ pairs k = Some labels.
Proof.
  intros Hd E. apply mapO_forall2 in E. split; [split|].
  - rewrite <- (do_ordinals _ _ Hd). assert (Em : map fst parsed = map snd (dictionary d)); [clear Hd|by rewrite Em]. induction E as [|[k o] [o' p] ks ps Ek Es IH]; [done|].
    destruct (pairs k); [|done]. injection Ek as <- <-. cbn. by rewrite IH.
  - clear Hd. induction E as [|[k o] [o' p] ks ps Ek Es IH]; constructor; [|done].
    destruct (pairs k) as [p'|] eqn:Ep; [|done]. injection Ek as <- <-. by apply pairs_spec in Ep as [_ ?].
  - intros k o Ef. apply find_in, list_elem_of_lookup in Ef as [j Hj]. destruct (Forall2_lookup_l _ _ _ _ _ E Hj) as ([o' p] & Hp & Ep).
    destruct (pairs k) as [p'|]; [|done]. injection Ep as <- <-. exists p'. split; [by apply list_elem_of_lookup_2 with j|done].
Qed.

Lemma ordinals_range seen d : dict_ok seen d -> Forall (fun o => 0 <= o < len d.(dictionary)) d.(ordinals).
Proof.
  intros Hd. apply Forall_lookup_2. intros j o Hj. pose proof (lookup_lt_Some _ _ _ Hj) as Hlt. rewrite (do_rows _ _ Hd) in Hlt.
  destruct (lookup_lt_is_Some_2 seen j Hlt) as [row Hrow]. destruct (do_row _ _ Hd j row Hrow) as (o' & Ho' & Hf).
  assert (o' = o) as -> by congruence. by eapply dict_range.
Qed.

(** Every series has a row. *)
Lemma ordinals_onto seen d o : dict_ok seen d -> 0 <= o < len d.(dictionary) -> exists r : nat, d.(ordinals) !! r = Some o.
Proof.
  intros Hd Ho. apply numbers_in in Ho. rewrite <- (do_ordinals _ _ Hd) in Ho. apply list_elem_of_In, in_map_iff in Ho as ([k o'] & Eo & Hin).
  cbn in Eo. subst o'. apply list_elem_of_In, (find_iff _ _ _ (do_ordered _ _ Hd)) in Hin. destruct (do_key _ _ Hd _ _ Hin) as (row & Hrow & <-).
  apply list_elem_of_lookup in Hrow as [r Hr]. destruct (do_row _ _ Hd r row Hr) as (o' & E1 & E2). exists r. congruence.
Qed.

Lemma group_of_row m size r : 0 < size -> 0 <= r < m -> 0 <= r / size < div_ceil m size.
Proof.
  intros Hs Hr. split; [apply Z.div_pos; lia|]. unfold div_ceil. apply Z.lt_le_trans with ((r + 1 * size) / size); [rewrite Z.div_add by lia; lia|].
  apply Z.div_le_mono; lia.
Qed.

(** The size of the fixed part leaves room for the index. *)
Lemma fixed_size n m : 0 <= n <= MAX_SERIES -> 0 <= m <= MAX_GROUPS -> 26 + m * (4 + div_ceil n 8) <= MAX_RAW.
Proof.
  unfold MAX_RAW, MAX_TEXT, MAX_SERIES, MAX_GROUPS, div_ceil. change (65536 / 2) with 32768. intros Hn Hm.
  assert (0 <= (n + 8 - 1) / 8 <= 64) by (clear Hm; dlia). nia.
Qed.

Lemma build_index_ok l size i : 0 <= size -> same_slices l -> build_index l size = Some i -> exists ords parsed, built l size i ords parsed.
Proof.
  intros Hs0 Hsame E. unfold build_index in E. destruct (_ || _) eqn:Eg in E; [done|]. bools. destruct (MAX_GROUPS <? _) eqn:En; [done|]. bools.
  destruct (add_rows Dictionary_new l) as [d|] eqn:Ed; [|done]. apply (add_rows_ok [] _ l d Hsame dict_new_ok) in Ed as Hd. cbn [app] in Hd.
  destruct (mapO _ (dictionary d)) as [parsed|] eqn:Ep; [|done]. destruct (parsed_from l d parsed Hd Ep) as [Hparsed Hlabels].
  pose proof (ordinals_range l d Hd) as Hr. pose proof (fun o => ordinals_onto l d o Hd) as Honto. pose proof (do_size _ _ Hd) as Hmax.
  set (n := len (dictionary d)) in *. set (width := div_ceil n 8) in *. assert (Hsize : 0 < size) by lia.
  assert (Lo : len (ordinals d) = len l) by (unfold len; by rewrite (do_rows _ _ Hd)).
  assert (Hpos : 0 < len l) by len_lia. assert (Hm : 0 < div_ceil (len l) size) by (pose proof (group_of_row (len l) size 0 Hsize ltac:(lia)); lia).
  assert (Hne : ordinals d <> []) by (intros E0; rewrite E0 in Lo; len_lia).
  assert (Hn : 0 < n) by (destruct (ordinals d) as [|o os]; [done|]; apply Forall_cons_1 in Hr as [Ho _]; lia).
  destruct (groups_spec n size (ordinals d) Hn Hsize Hne Hr) as (G1 & G2 & G3 & G4). rewrite Lo in G1, G2, G3, G4. fold width in G1, G2, G3, G4.
  set (gs := fill_groups _ _ _ _) in *. destruct (examined_ok n parsed Hparsed) as (X1 & X2 & X3).
  destruct (index_names_spec (examined parsed) width parsed (8 + 2 + 4 + 2 + div_ceil (len l) size * (4 + width) + 2 + 8) []
    (26 + div_ceil (len l) size * (4 + width))) as (I1 & I2 & I3 & I4); [done|done|constructor|cbn; lia| |].
  { pose proof (fixed_size n (div_ceil (len l) size)). subst width. lia. }
  set (indexed := index_names _ _ _ _ _) in *.
  assert (Hi : 0 < len indexed /\ i = mkIndex n (len l) gs indexed) by (destruct indexed; [done|]; injection E as <-; split; [len_lia|done]).
  destruct Hi as [Hi ->]. clear E.
  assert (Hlab : forall name vs, find name indexed = Some vs -> name ∈ examined parsed /\ partition name width parsed [] = Some vs).
  { intros name vs Hf. by destruct (I4 name vs Hf) as [?|?]. }
  exists (ordinals d), parsed. split; cbn [series rows groups labels]; [split; [|split]; cbn [series rows groups labels]|..].
  - rewrite G1. lia.
  - split; [done|]. split; [done|]. intros o Ho. destruct (Honto o Ho) as [r Hro]. pose proof (lookup_lt_Some _ _ _ Hro) as Hlt.
    destruct (group_of_row (len l) size (Z.of_nat r) Hsize ltac:(unfold len in *; lia)) as [Hg0 Hg1].
    destruct (lookup_lt_is_Some_2 gs (Z.to_nat (Z.of_nat r / size)) ltac:(unfold len in *; lia)) as [g Hg]. exists g.
    split; [by apply list_elem_of_lookup_2 in Hg|]. apply (G4 _ _ Hg o ltac:(lia)). exists r. split; [done|]. lia.
  - split; [done|]. split; [change (len (@nil (bytes * Values))) with 0 in I3; unfold len in *; lia|]. apply list.Forall_forall. intros [k vs] Hin.
    apply (find_iff _ _ _ I1) in Hin. destruct (Hlab k vs Hin) as [Hk Hp]. rewrite list.Forall_forall in X3. cbn [fst snd].
    split; [by apply X3|]. by apply (partition_complete n k parsed vs Hn Hparsed).
  - done.
  - done.
  - done.
  - apply (do_rows _ _ Hd).
  - intros r row Hrow. destruct (do_row _ _ Hd r row Hrow) as (o & E1 & E2). destruct (Hlabels _ _ E2) as (labels & L1 & L2).
    exists o, labels. split_and!; [done|by apply (dict_range l d _ _ Hd E2)..|done|done].
  - exact G4.
  - intros name vs Hf. destruct (Hlab name vs Hf) as [_ Hp]. by apply (partition_complete n name parsed vs Hn Hparsed).
  - rewrite G1. exact I2.
Qed.

(** * Queries over the built index *)

(** The labels of a row, as the segment reader splits them. *)
Definition row_labels (row : Row) : res unit (list (bytes * bytes)) := parse_canonical_pairs (length (snd row)) (snd row).

(** The row satisfies every equality on a label the index holds. *)
Definition passes (i : Index) (ms : list Matcher) (row : Row) : Prop :=
  exists ls, row_labels row = Ok ls /\
  forall m, m ∈ ms -> is_eq m = true -> find m.(name) i.(labels) <> None -> matcher_ok ls m None = true.

Lemma row_labels_ok row labels : pairs (snd row) = Some labels -> row_labels row = Ok labels.
Proof.
  intros E. apply pairs_spec in E as [E Hu]. unfold row_labels. rewrite E. apply parse_canonical_ok; [done|]. apply canonical_length.
Qed.

Lemma selects_passes l size i ords parsed ms r row o labels : built l size i ords parsed ->
  l !! r = Some row -> ords !! r = Some o -> (o, labels) ∈ parsed -> pairs (snd row) = Some labels ->
  selects i ms o <-> passes i ms row.
Proof.
  intros Hb Hr Ho Hin Hp. pose proof (row_labels_ok row labels Hp) as Hrow. split.
  - intros Hs. exists labels. split; [done|]. intros m Hm He Hf. apply eq_matches; [done|].
    destruct (find (name m) (MetricPostings.labels i)) as [vs|] eqn:Ef; [|done]. symmetry.
    apply (bu_label _ _ _ _ _ Hb _ _ Ef o labels Hin). by apply Hs.
  - intros (labels' & E & Hall) m Hm He vs Hf. rewrite Hrow in E. injection E as <-.
    apply (bu_label _ _ _ _ _ Hb _ _ Hf o labels Hin). symmetry. apply (eq_matches labels m None He). apply Hall; [done|done|congruence].
Qed.

Lemma built_candidates l size i ords parsed ms keep k : 0 < size -> built l size i ords parsed -> candidates i ms = Some keep ->
  keep !! k = Some true <-> exists (r : nat) row, l !! r = Some row /\ Z.of_nat r / size = Z.of_nat k /\ passes i ms row.
Proof.
  intros Hs Hb E. pose proof (candidates_spec i ms (bu_formed _ _ _ _ _ Hb)) as Hc. rewrite E in Hc. destruct Hc as (_ & Lk & Hc).
  assert (Hfwd : forall g, i.(groups) !! k = Some g -> (exists o, 0 <= o < series i /\ bit (snd g) o = true /\ selects i ms o) <->
    exists (r : nat) row, l !! r = Some row /\ Z.of_nat r / size = Z.of_nat k /\ passes i ms row).
  { intros g Hg. split.
    - intros (o & Ho & Hbit & Hsel). apply (bu_group _ _ _ _ _ Hb k g Hg) in Hbit as (r & Hr & Hk); [|lia].
      pose proof (lookup_lt_Some _ _ _ Hr) as Hlt. rewrite (bu_ords _ _ _ _ _ Hb) in Hlt. destruct (lookup_lt_is_Some_2 l r Hlt) as [row Hrow].
      destruct (bu_row _ _ _ _ _ Hb r row Hrow) as (o' & labels & E1 & _ & E2 & E3). assert (o' = o) as -> by congruence.
      exists r, row. split_and!; [done|done|]. by apply (selects_passes l size i ords parsed ms r row o labels).
    - intros (r & row & Hrow & Hk & Hp). destruct (bu_row _ _ _ _ _ Hb r row Hrow) as (o & labels & E1 & Hr & E2 & E3).
      exists o. split; [done|]. split; [|by apply (selects_passes l size i ords parsed ms r row o labels)].
      apply (bu_group _ _ _ _ _ Hb k g Hg); [lia|]. by exists r. }
  split.
  - intros Hk. pose proof (lookup_lt_Some _ _ _ Hk) as Hlt. rewrite Lk in Hlt. destruct (lookup_lt_is_Some_2 _ k Hlt) as [g Hg].
    apply (Hfwd g Hg). by apply (Hc k g Hg).
  - intros Hex. destruct (i.(groups) !! k) as [g|] eqn:Hg; [apply (Hc k g Hg); by apply (Hfwd g eq_refl)|]. exfalso.
    destruct Hex as (r & row & Hrow & Hk & _). apply lookup_lt_Some in Hrow. apply lookup_ge_None in Hg.
    destruct (group_of_row (len l) size (Z.of_nat r) Hs ltac:(unfold len; lia)) as [_ Hlt]. rewrite <- (bu_groups _ _ _ _ _ Hb) in Hlt. unfold len in Hlt. lia.
Qed.

(** A match under any compiled expressions satisfies the equalities. *)
Lemma match_passes i ms cache row labels : length cache = length ms -> row_labels row = Ok labels -> labels_match labels ms cache = true ->
  passes i ms row.
Proof.
  intros Hl Hrow Hm. exists labels. split; [done|]. intros m Hin He _. unfold labels_match in Hm. rewrite forallb_forall in Hm.
  apply list_elem_of_lookup in Hin as [j Hj]. destruct (lookup_lt_is_Some_2 cache j) as [re Hre]; [rewrite Hl; by eapply lookup_lt_Some|].
  specialize (Hm (m, re)). cbv beta iota in Hm. apply (eq_matches labels m None He), (eq_matches labels m re He), Hm.
  apply list_elem_of_In, list_elem_of_lookup. exists j. apply lookup_zip_with_Some. by exists m, re.
Qed.

(** The footer of a file written with this index beside its rows. *)
Definition footer (md : Metadata) (i : Index) (text : bytes) : Prop :=
  (exists entries, md.(key_value_metadata) = Some entries /\ List.filter (fun e => bytes_eqb (fst e) KEY) entries = [(KEY, Some text)]) /\
  md.(num_rows) = i.(rows) /\ md.(row_groups) = map fst i.(groups).

Lemma zip_same (l : list (Z * Bits)) : existsb (fun '(n, g) => negb (n =? fst g)) (zip (map fst l) l) = false.
Proof. induction l as [|g l IH]; [done|]. cbn. by rewrite Z.eqb_refl, IH. Qed.

Lemma candidate_groups_eq `{Xxh64} md i text ms : footer md i text -> parse text = Some i ->
  candidate_groups md ms = if existsb is_eq ms then candidates i ms else None.
Proof.
  intros ((entries & E1 & E2) & E3 & E4) Hp. unfold candidate_groups. destruct (existsb is_eq ms); [|done]. cbn [negb].
  rewrite E1, E2, Hp, E3, E4, Z.eqb_refl, len_map, Z.eqb_refl, zip_same. done.
Qed.

Lemma unused_without_eq i ms : existsb is_eq ms = false -> ~ usable i ms.
Proof.
  intros E (m & Hm & He & _). assert (Ht : existsb is_eq ms = true); [|congruence]. apply existsb_exists. exists m.
  split; [by apply list_elem_of_In|done].
Qed.

(** C11. An index that was written is read back from the footer, and its answer
    is exact. It answers when an equality names an indexed label; then it keeps
    a row group if and only if the group holds a row that satisfies every
    equality on an indexed label. So no row that matches the whole query is in
    a skipped group, whatever expressions the other matchers hold. *)
Theorem postings_sound `{Xxh64} (l : list Row) (group_size : Z) (text : bytes) :
  0 <= group_size -> same_slices l -> build l group_size = Some text ->
  exists i, parse text = Some i /\ i.(rows) = len l /\ len i.(groups) = div_ceil (len l) group_size /\
    forall md ms, footer md i text ->
      match candidate_groups md ms with
      | None => ~ usable i ms
      | Some keep =>
          (forall k, keep !! k = Some true <->
             exists (r : nat) row, l !! r = Some row /\ Z.of_nat r / group_size = Z.of_nat k /\ passes i ms row) /\
          (forall (r : nat) row labels cache, l !! r = Some row -> row_labels row = Ok labels -> length cache = length ms ->
             labels_match labels ms cache = true -> keep !! Z.to_nat (Z.of_nat r / group_size) = Some true)
      end.
Proof.
  intros Hs Hsame E. unfold build in E. destruct (build_index l group_size) as [i|] eqn:Ei; [|done]. injection E as <-.
  assert (Hpos : 0 < group_size).
  { unfold build_index in Ei. destruct (_ || _) eqn:Eg in Ei; [done|]. bools. lia. }
  destruct (build_index_ok l group_size i Hs Hsame Ei) as (ords & parsed & Hb). pose proof (bu_formed _ _ _ _ _ Hb) as Hw.
  assert (Hread : parse (encode i) = Some i).
  { apply postings_read; [done|]. rewrite encode_size by done. pose proof (bu_size _ _ _ _ _ Hb). unfold MAX_RAW, MAX_TEXT in *.
    change (65536 / 2) with 32768 in *. lia. }
  exists i. split_and!; [done|apply Hb|apply Hb|]. intros md ms Hf. rewrite (candidate_groups_eq md i (encode i)) by done.
  destruct (existsb is_eq ms) eqn:Ee; [|by apply unused_without_eq]. pose proof (candidates_spec i ms Hw) as Hc.
  destruct (candidates i ms) as [keep|] eqn:Ek; [|done]. split; [intros k; by apply (built_candidates l group_size i ords parsed)|].
  intros r row labels cache Hr Hrow Hl Hm. apply (built_candidates l group_size i ords parsed ms); [done..|].
  exists r, row. split; [done|]. split; [rewrite Z2Nat.id by (apply Z.div_pos; lia); done|]. by eapply match_passes.
Qed.

Definition same_slicesb (l : list Row) : bool :=
  forallb (fun a => forallb (fun b => negb (fst a =? fst b) || negb (len (snd a) =? len (snd b)) || bytes_eqb (snd a) (snd b)) l) l.

Lemma same_slicesb_ok l : same_slicesb l = true -> same_slices l.
Proof.
  unfold same_slicesb. rewrite forallb_forall. intros Hb x y Hx Hy H1 H2. specialize (Hb x ltac:(by apply list_elem_of_In)).
  rewrite forallb_forall in Hb. specialize (Hb y ltac:(by apply list_elem_of_In)). cbv beta in Hb.
  rewrite H1, H2, !Z.eqb_refl in Hb. cbn in Hb. by apply bytes_eqb_eq.
Qed.

Section Witness.
Import Concrete.

(** Four rows of three series, two in each group. *)
Definition sample : list Row :=
  [(0, [97; 255; 49; 255; 98; 255; 50; 255]); (10, [97; 255; 50; 255]); (20, []); (0, [97; 255; 49; 255; 98; 255; 50; 255])].

Lemma postings_sound_witness : exists text md keep, build sample 2 = Some text /\
  candidate_groups md [mkMatcher [97] MEq [50]] = Some keep /\ keep !! 0%nat = Some true /\ keep !! 1%nat <> Some true.
Proof.
  destruct (build sample 2) as [text|] eqn:Eb; [|by vm_compute in Eb].
  assert (Hs : same_slices sample) by (apply same_slicesb_ok; vm_compute; reflexivity).
  destruct (postings_sound sample 2 text ltac:(done) Hs Eb) as (i & Hi & _ & _ & Hq).
  set (md := mkMetadata (Some [(KEY, Some text)]) 4 [2; 2]). exists text, md.
  assert (Hf : footer md i text).
  { vm_compute in Eb. injection Eb as <-. vm_compute in Hi. injection Hi as <-. split; [|done]. eexists. split; reflexivity. }
  specialize (Hq md [mkMatcher [97] MEq [50]] Hf).
  assert (Ek : candidate_groups md [mkMatcher [97] MEq [50]] = Some [true; false]).
  { subst md. vm_compute in Eb. injection Eb as <-. vm_compute. reflexivity. }
  rewrite Ek in Hq. exists [true; false]. split_and!; [done|done| |done].
  apply (proj2 Hq 1%nat (10, [97; 255; 50; 255]) [([97], [50])] [None]); reflexivity.
Defined.
End Witness.
