(* ===== verification/Patterns.v ===== *)
(** The log pattern miner (patterns.rs): a Drain tree of templates over the
    tokens of log lines, with a bounded number of live templates, and the
    counts it reports per time step. *)

From Stdlib Require Import SpecFloat.
From stdpp Require Import gmap.
From S2P Require Import Prelude OrdMap External Float64.

Definition WILDCARD : bytes := str "<_>".
Definition MAX_LINE_BYTES : Z := 4096.
Definition MAX_TOKENS : Z := 128.
Definition MIN_WORDS : Z := 2.
Definition PREFIX_DEPTH : nat := 1.
Definition MAX_CHILDREN : Z := 32.
(** The double nearest to 0.4. *)
Definition SIMILARITY : Z := 0x3FD999999999999A.
Definition MAX_CLUSTERS : Z := 500.
Definition PUNCTUATION : bytes := [61; 44; 59; 40; 41; 91; 93; 123; 125; 34; 39].

Inductive Kind : Type := Word | Punct.

#[export] Instance kind_eq_dec : EqDecision Kind.
Proof. solve_decision. Defined.

Record Token : Type := mkToken { text : bytes; kind : Kind; space_before : bool }.

(** A slot without text is the wildcard. *)
Record Slot : Type := mkSlot { slot_text : option bytes; slot_kind : Kind; slot_space : bool }.

Record Cluster : Type := mkCluster { slots : list Slot; counts : omap Z Z; last_used : Z }.

(** Token count plus every punctuation token with its position. *)
Abbreviation Shape := (nat * list (nat * bytes))%type.

(** The order of a [HashMap] is never observed, so it is a finite map; a
    cluster is named by its index. *)
Inductive Node : Type := mkNode { children : gmap (option bytes) Node; node_clusters : list nat }.
Definition Node_default : Node := mkNode ∅ [].

Record Miner : Type := mkMiner {
  start : Z;
  step : Z;
  roots : gmap Shape Node;
  clusters : list (option Cluster);
  live : Z;
  clock : Z;
  skipped : Z
}.

Definition Miner_new (start step : Z) : Miner := mkMiner start (Z.max step 1) ∅ [] 0 0 0.

(** * Tokens *)

(** [u8::is_ascii_whitespace]. *)
Definition is_ascii_whitespace (b : Z) : bool := (b =? 32) || (b =? 9) || (b =? 10) || (b =? 12) || (b =? 13).
Definition is_punct (b : Z) : bool := existsb (Z.eqb b) PUNCTUATION.
Definition in_word (b : Z) : bool := negb (is_ascii_whitespace b) && negb (is_punct b).

Definition is_word (t : Token) : bool := bool_decide (t.(kind) = Word).
Definition words (tokens : list Token) : list Token := List.filter is_word tokens.

(** Every turn consumes a byte, so the length of the line is enough fuel. *)
Fixpoint tokenize_loop (fuel : nat) (line : bytes) (space : bool) (tokens : list Token) : res unit (list Token) :=
  match line with
  | [] => Ok tokens
  | b :: rest =>
      match fuel with
      | O => Fuel
      | S fuel =>
          if is_ascii_whitespace b then tokenize_loop fuel rest true tokens
          else
            let n := if is_punct b then 1 else prefix_len in_word line in
            let tokens := tokens ++ [mkToken (slice line 0 n) (if is_punct b then Punct else Word)
              (space && negb (bool_decide (tokens = [])))] in
            if MAX_TOKENS <? len tokens then Err tt
            else tokenize_loop fuel (drop (Z.to_nat n) line) false tokens
      end
  end.

Definition tokenize (line : bytes) : option (list Token) :=
  match tokenize_loop (length line) line false [] with
  | Ok tokens => if MIN_WORDS <=? len (words tokens) then Some tokens else None
  | _ => None
  end.

Definition is_punct_token (e : nat * Token) : bool := bool_decide ((snd e).(kind) = Punct).
Definition shape (tokens : list Token) : Shape :=
  (length tokens,
   map (fun e => (fst e, (snd e).(text))) (List.filter is_punct_token (imap pair tokens))).

Definition has_digit (text : bytes) : bool := existsb is_digit text.

(** * Templates *)

Definition f64_div (a b : Z) : Z := bits_of_spec (SFdiv 53 1024 (spec_of_bits a) (spec_of_bits b)).

(** The words, the equal ones and the wildcards of a template against a line. *)
Fixpoint similar (slots : list Slot) (tokens : list Token) (acc : Z * Z * Z) : Z * Z * Z :=
  match slots, tokens with
  | slot :: slots, token :: tokens =>
      let '(words, same, wildcards) := acc in
      similar slots tokens
        (match slot.(slot_kind) with
         | Punct => acc
         | Word =>
             match slot.(slot_text) with
             | None => (words + 1, same, wildcards + 1)
             | Some t => if bytes_eqb t token.(text) then (words + 1, same + 1, wildcards) else (words + 1, same, wildcards)
             end
         end)
  | _, _ => acc
  end.

Definition similarity (cluster : Cluster) (tokens : list Token) : Z * Z :=
  let '(words, same, wildcards) := similar cluster.(slots) tokens (0, 0, 0) in
  if words =? 0 then (f64_of_Z 1, wildcards)
  else (f64_div (f64_of_Z same) (f64_of_Z words), wildcards).

Fixpoint merge_slots (slots : list Slot) (tokens : list Token) : list Slot :=
  match slots, tokens with
  | slot :: slots, token :: tokens =>
      (match slot.(slot_text) with
       | Some t => if bytes_eqb t token.(text) then slot else mkSlot None slot.(slot_kind) slot.(slot_space)
       | None => slot
       end) :: merge_slots slots tokens
  | _, _ => slots
  end.
Definition merge (c : Cluster) (tokens : list Token) : Cluster :=
  mkCluster (merge_slots c.(slots) tokens) c.(counts) c.(last_used).

Fixpoint render_loop (slots : list Slot) (out : bytes) (previous_wildcard : bool) : bytes :=
  match slots with
  | [] => out
  | slot :: slots =>
      match slot.(slot_text) with
      | None =>
          if previous_wildcard && negb slot.(slot_space) then render_loop slots out previous_wildcard
          else render_loop slots (out ++ (if slot.(slot_space) then [32] else []) ++ WILDCARD) true
      | Some t => render_loop slots (out ++ (if slot.(slot_space) then [32] else []) ++ t) false
      end
  end.
Definition render (slots : list Slot) : bytes := render_loop slots [] false.

(** * The tree

    An index out of range and [expect] panic: [Err tt]. *)

Fixpoint descend (node : Node) (tokens : list Token) : option Node :=
  match tokens with
  | [] => Some node
  | token :: tokens =>
      let* node := match node.(children) !! Some token.(text) with Some n => Some n | None => node.(children) !! None end in
      descend node tokens
  end.

Fixpoint best_of (cs : list (option Cluster)) (tokens : list Token) (ids : list nat) (best : option (Z * Z * nat))
    : res unit (option (Z * Z * nat)) :=
  match ids with
  | [] => Ok best
  | id :: ids =>
      match cs !! id with
      | None => Err tt
      | Some None => best_of cs tokens ids best
      | Some (Some cluster) =>
          let '(score, wildcards) := similarity cluster tokens in
          let better :=
            match best with
            | None => true
            | Some (s, w, _) => f64_lt s score || (f64_eq score s && (w <? wildcards))
            end in
          best_of cs tokens ids (if better then Some (score, wildcards, id) else best)
      end
  end.

Definition search (m : Miner) (key : Shape) (tokens : list Token) : res unit (option nat) :=
  match (let* node := m.(roots) !! key in descend node (take PREFIX_DEPTH (words tokens))) with
  | None => Ok None
  | Some node =>
      let? best := best_of m.(clusters) tokens node.(node_clusters) None in
      Ok match best with
         | Some (score, _, id) => if f64_le SIMILARITY score then Some id else None
         | None => None
         end
  end.

(** [min] of the pairs of last use and index. *)
Fixpoint victim (cs : list (option Cluster)) (id : nat) (best : option (Z * nat)) : option (Z * nat) :=
  match cs with
  | [] => best
  | None :: cs => victim cs (S id) best
  | Some c :: cs =>
      victim cs (S id)
        match best with
        | None => Some (c.(last_used), id)
        | Some (u, i) => if c.(last_used) <? u then Some (c.(last_used), id) else best
        end
  end.

Definition evict (m : Miner) : Miner :=
  match victim m.(clusters) 0 None with
  | Some (_, id) =>
      mkMiner m.(start) m.(step) m.(roots) (<[id := None]> m.(clusters)) (m.(live) - 1) m.(clock) m.(skipped)
  | None => m
  end.

(** [retain(|id| clusters[*id].is_some())]. *)
Fixpoint retain_live (cs : list (option Cluster)) (ids : list nat) : res unit (list nat) :=
  match ids with
  | [] => Ok []
  | id :: ids =>
      match cs !! id with
      | None => Err tt
      | Some c =>
          let? out := retain_live cs ids in
          Ok (match c with Some _ => id :: out | None => out end)
      end
  end.

Definition child_key (node : Node) (t : bytes) : option bytes :=
  if has_digit t then None
  else if bool_decide (is_Some (node.(children) !! Some t)) || (Z.of_nat (size node.(children)) + 1 <? MAX_CHILDREN)
  then Some t else None.

Fixpoint insert_node (cs : list (option Cluster)) (id : nat) (node : Node) (tokens : list Token) : res unit Node :=
  match tokens with
  | [] =>
      let? ids := retain_live cs node.(node_clusters) in
      Ok (mkNode node.(children) (ids ++ [id]))
  | token :: tokens =>
      let child := child_key node token.(text) in
      let? n := insert_node cs id (default Node_default (node.(children) !! child)) tokens in
      Ok (mkNode (<[child := n]> node.(children)) node.(node_clusters))
  end.

Definition insert (m : Miner) (key : Shape) (tokens : list Token) : res unit (Miner * nat) :=
  let m := if MAX_CLUSTERS <=? m.(live) then evict m else m in
  let id := length m.(clusters) in
  let cs := m.(clusters) ++
    [Some (mkCluster (map (fun t => mkSlot (Some t.(text)) t.(kind) t.(space_before)) tokens) [] m.(clock))] in
  let? node := insert_node cs id (default Node_default (m.(roots) !! key)) (take PREFIX_DEPTH (words tokens)) in
  Ok (mkMiner m.(start) m.(step) (<[key := node]> m.(roots)) cs (m.(live) + 1) m.(clock) m.(skipped), id).

(** [self.clusters[id].as_mut().expect("live cluster")], updated. *)
Definition with_cluster (m : Miner) (id : nat) (f : Cluster -> Cluster) : res unit Miner :=
  match m.(clusters) !! id with
  | Some (Some c) =>
      Ok (mkMiner m.(start) m.(step) m.(roots) (<[id := Some (f c)]> m.(clusters)) m.(live) m.(clock) m.(skipped))
  | _ => Err tt
  end.

(** The template a line joins or starts. *)
Definition assign (m : Miner) (tokens : list Token) : res unit (Miner * nat) :=
  let key := shape tokens in
  let? found := search m key tokens in
  match found with
  | Some id => let? m := with_cluster m id (fun c => merge c tokens) in Ok (m, id)
  | None => insert m key tokens
  end.

(** Arithmetic on [i64] wraps in a release build. *)
Definition wrap_i64 (z : Z) : Z := as_i64 (wrap_u64 z).
Definition bucket_of (m : Miner) (ts : Z) : Z :=
  wrap_i64 (m.(start) + wrap_i64 (wrap_i64 (ts - m.(start)) / m.(step) * m.(step))).

Definition skip_line (m : Miner) : Miner :=
  mkMiner m.(start) m.(step) m.(roots) m.(clusters) m.(live) m.(clock) (wrap_u64 (m.(skipped) + 1)).

Definition train (m : Miner) (ts : Z) (line : bytes) : res unit Miner :=
  if MAX_LINE_BYTES <? len line then Ok (skip_line m)
  else
    match tokenize line with
    | None => Ok (skip_line m)
    | Some tokens =>
        let m := mkMiner m.(start) m.(step) m.(roots) m.(clusters) m.(live) (wrap_u64 (m.(clock) + 1)) m.(skipped) in
        let bucket := bucket_of m ts in
        let? (m, id) := assign m tokens in
        with_cluster m id (fun c =>
          mkCluster c.(slots) (update bucket 0 (fun n => wrap_u64 (n + 1)) c.(counts)) m.(clock))
    end.

(** * The report *)

Abbreviation Pattern := (bytes * list (Z * Z))%type.

(** [sum] of the counts; it wraps in a release build. *)
Definition total_of (counts : list (Z * Z)) : Z := fold_left (fun n e => wrap_u64 (n + snd e)) counts 0.

Definition row_leb (a b : Z * Pattern) : bool :=
  match fst b ?= fst a with
  | Lt => true
  | Gt => false
  | Eq => bytes_leb (fst (snd a)) (fst (snd b))
  end.

Definition add_counts (sum : omap Z Z) (counts : list (Z * Z)) : omap Z Z :=
  fold_left (fun sum e => update (fst e) 0 (fun n => wrap_u64 (n + snd e)) sum) counts sum.

(** [iter().copied().collect::<BTreeMap<_, _>>()]. *)
Definition collect (l : list (Z * Z)) : omap Z Z := fold_left (fun m e => put (fst e) (snd e) m) l [].

Definition merge_row (acc : list Pattern * gmap bytes nat) (row : Z * Pattern) : res unit (list Pattern * gmap bytes nat) :=
  let '(merged, index) := acc in
  let '(pattern, counts) := snd row in
  match index !! pattern with
  | Some i =>
      match merged !! i with
      | Some (p, old) => Ok (<[i := (p, add_counts (collect old) counts)]> merged, index)
      | None => Err tt
      end
  | None => Ok (merged ++ [(pattern, counts)], <[pattern := length merged]> index)
  end.

(** [into_iter().flatten()]. *)
Fixpoint flatten (cs : list (option Cluster)) : list Cluster :=
  match cs with
  | [] => []
  | Some c :: cs => c :: flatten cs
  | None :: cs => flatten cs
  end.

Definition finish (m : Miner) : res unit (list Pattern) :=
  let out := map (fun c => (total_of c.(counts), (render c.(slots), c.(counts)))) (flatten m.(clusters)) in
  let? (merged, _) := foldM merge_row ([], ∅) (sort_by row_leb out) in
  Ok merged.

(** A run over lines with their times. *)
Definition run (m : Miner) (lines : list (Z * bytes)) : res unit Miner :=
  foldM (fun m e => train m (fst e) (snd e)) m lines.

(** * Shapes and templates *)

(** The slot is of the token's kind, and a punctuation slot is that
    punctuation: what lines of the same shape share. *)
Definition agrees (s : Slot) (t : Token) : Prop :=
  s.(slot_kind) = t.(kind) /\ (t.(kind) = Punct -> s.(slot_text) = Some t.(text)).
Definition compat : list Slot -> list Token -> Prop := Forall2 agrees.

(** The template describes the line: a slot is the wildcard or the token. *)
Definition covers (s : Slot) (t : Token) : Prop :=
  agrees s t /\ (s.(slot_text) = None \/ s.(slot_text) = Some t.(text)).
Definition fits : list Slot -> list Token -> Prop := Forall2 covers.

Definition slot_of (t : Token) : Slot := mkSlot (Some t.(text)) t.(kind) t.(space_before).

Lemma fits_compat sl ts : fits sl ts -> compat sl ts.
Proof. induction 1 as [|s t sl ts [? _] _ IH]; by constructor. Qed.

Lemma merge_cons s sl t ts : merge_slots (s :: sl) (t :: ts) =
  (match slot_text s with Some x => if bytes_eqb x (text t) then s else mkSlot None (slot_kind s) (slot_space s) | None => s end) :: merge_slots sl ts.
Proof. done. Qed.

(** One step of a merge. *)
Lemma merge_slot s t : agrees s t ->
  let s' := match slot_text s with Some x => if bytes_eqb x (text t) then s else mkSlot None (slot_kind s) (slot_space s) | None => s end in
  covers s' t /\ forall u, agrees s u -> agrees s' u /\ (covers s u -> covers s' u).
Proof.
  intros [Hk Hp] s'. assert (Hcase : s' = s /\ (slot_text s = None \/ slot_text s = Some (text t)) \/
    s' = mkSlot None (slot_kind s) (slot_space s) /\ kind t = Word).
  { subst s'. destruct (slot_text s) as [x|] eqn:E; [|by left; split; [|left]]. destruct (bytes_eqb x (text t)) eqn:Eb.
    - apply bytes_eqb_eq in Eb as ->. left. split; [done|by right].
    - right. split; [done|]. destruct (kind t) eqn:Ek; [done|]. specialize (Hp eq_refl). injection Hp as ->.
      assert (bytes_eqb (text t) (text t) = true) by by apply bytes_eqb_eq. congruence. }
  destruct Hcase as [[-> Hc]|[-> Hw]]; [by split|]. unfold covers, agrees. cbn. split.
  - split; [split; [done|congruence]|by left].
  - intros u [Hu _]. assert (Hu' : kind u = Word) by congruence. split; [split; [done|congruence]|]. intros _. split; [split; [done|congruence]|by left].
Qed.

Lemma merge_slots_ok sl ts : compat sl ts -> fits (merge_slots sl ts) ts /\
  forall us, compat sl us -> compat (merge_slots sl ts) us /\ (fits sl us -> fits (merge_slots sl ts) us).
Proof.
  induction 1 as [|s t sl ts Ha Hs [IH1 IH2]].
  { split; [constructor|]. intros us Hu. inversion Hu. split; [constructor|done]. }
  rewrite merge_cons. destruct (merge_slot s t Ha) as [Hc Hall]. split; [by constructor|]. intros us Hu. inversion Hu as [|? u ? us' Hau Hus]; subst.
  destruct (Hall u Hau) as [H1 H2]. destruct (IH2 us' Hus) as [H3 H4]. split; [by constructor|]. intros Hf. inversion Hf; subst. constructor; [by apply H2|by apply H4].
Qed.

Lemma shape_in tokens i x : (i, x) ∈ snd (shape tokens) <-> exists t, tokens !! i = Some t /\ kind t = Punct /\ text t = x.
Proof.
  cbn. rewrite list_elem_of_In, in_map_iff. split.
  - intros ([j t] & [= <- <-] & Hin). apply filter_In in Hin as [Hin Hk]. apply bool_decide_eq_true in Hk. apply list_elem_of_In, elem_of_lookup_imap in Hin as (k & y & [= -> ->] & Hy).
    by exists y.
  - intros (t & Ht & Hk & <-). exists (i, t). split; [done|]. apply filter_In. split; [|by apply bool_decide_eq_true].
    apply list_elem_of_In, elem_of_lookup_imap. by exists i, t.
Qed.

(** Lines of the same shape agree with each other's fresh template. *)
Lemma shape_compat a b : shape a = shape b -> compat (map slot_of a) b.
Proof.
  intros E. assert (Hl : length a = length b) by by injection E. apply Forall2_same_length_lookup_2; [by rewrite length_map|].
  intros i s t Hs Ht. rewrite list_lookup_fmap in Hs. destruct (a !! i) as [u|] eqn:Hu; [|done]. injection Hs as <-. unfold agrees. cbn.
  assert (Hin : forall x, (exists u, a !! i = Some u /\ kind u = Punct /\ text u = x) <-> (exists t, b !! i = Some t /\ kind t = Punct /\ text t = x)).
  { intros x. rewrite <- !shape_in. by rewrite E. }
  split.
  - destruct (kind u) eqn:Ku, (kind t) eqn:Kt; try done.
    + destruct (proj2 (Hin (text t))) as (u' & Hu' & Hk & _); [by exists t|]. congruence.
    + destruct (proj1 (Hin (text u))) as (t' & Ht' & Hk & _); [by exists u|]. congruence.
  - intros Hk. destruct (proj2 (Hin (text t))) as (u' & Hu' & _ & Hx); [by exists t|]. congruence.
Qed.

Lemma fresh_fits tokens : fits (map slot_of tokens) tokens.
Proof. induction tokens as [|t tokens IH]; constructor; [|done]. split; [by split|by right]. Qed.

(** * The invariant of the tree *)

(** Every cluster below a node. *)
Inductive holds (P : nat -> Prop) : Node -> Prop :=
| Holds ch ids : Forall P ids -> (forall k c, ch !! k = Some c -> holds P c) -> holds P (mkNode ch ids).

Lemma holds_impl (P Q : nat -> Prop) n : (forall id, P id -> Q id) -> holds P n -> holds Q n.
Proof. intros H. induction 1 as [ch ids Hi _ IH]. constructor; [by eapply Forall_impl|done]. Qed.

Lemma holds_inv P n : holds P n -> Forall P (node_clusters n) /\ forall k c, children n !! k = Some c -> holds P c.
Proof. by destruct 1. Qed.

Lemma holds_default P : holds P Node_default.
Proof. constructor; [constructor|]. intros k c. by rewrite lookup_empty. Qed.

Lemma descend_holds P n tokens r : holds P n -> descend n tokens = Some r -> holds P r.
Proof.
  revert n. induction tokens as [|t tokens IH]; intros n Hn E; cbn [descend] in E; [by injection E as <-|].
  apply holds_inv in Hn as [_ Hc]. destruct (children n !! Some (text t)) as [c|] eqn:E1; [by eapply IH; [eapply Hc|]|].
  destruct (children n !! None) as [c|] eqn:E2; [|done]. by eapply IH; [eapply Hc|].
Qed.

Lemma retain_live_ok cs ids (P : nat -> Prop) : Forall (fun id => (id < length cs)%nat) ids -> Forall P ids ->
  exists out, retain_live cs ids = Ok out /\ Forall P out.
Proof.
  induction ids as [|id ids IH]; intros Hr HP; cbn [retain_live]; [by exists []|].
  apply Forall_cons_1 in Hr as [H1 Hr], HP as [H2 HP]. destruct (IH Hr HP) as (out & -> & Ho). destruct (lookup_lt_is_Some_2 cs id H1) as [c ->].
  eexists. split; [done|]. destruct c; [by constructor|done].
Qed.

Lemma insert_node_ok cs id (P : nat -> Prop) n tokens : (forall i, P i -> (i < length cs)%nat) -> P id -> holds P n ->
  exists r, insert_node cs id n tokens = Ok r /\ holds P r.
Proof.
  intros Hr Hid. revert n. induction tokens as [|t tokens IH]; intros n Hn; cbn [insert_node]; apply holds_inv in Hn as [H1 H2].
  - destruct (retain_live_ok cs (node_clusters n) P) as (out & -> & Ho); [by eapply Forall_impl|done|]. eexists. split; [done|].
    constructor; [|done]. apply Forall_app. split; [done|by constructor].
  - set (k := child_key n (text t)). destruct (IH (default Node_default (children n !! k))) as (r & -> & Hr').
    { destruct (children n !! k) as [c|] eqn:E; [by eapply H2|apply holds_default]. }
    eexists. split; [done|]. constructor; [done|]. intros k' c E. apply lookup_insert_Some in E as [[_ <-]|[_ E]]; [done|by eapply H2].
Qed.

Definition live_count (cs : list (option Cluster)) : Z := len (flatten cs).

(** Under [key], lines of that shape agree with the template. *)
Definition of_shape (key : Shape) (c : Cluster) : Prop := forall tokens, shape tokens = key -> compat c.(slots) tokens.

Definition placed (cs : list (option Cluster)) (key : Shape) (id : nat) : Prop :=
  exists oc, cs !! id = Some oc /\ forall c, oc = Some c -> of_shape key c.

Record sound (m : Miner) : Prop := {
  so_live : m.(live) = live_count m.(clusters);
  so_max : m.(live) <= MAX_CLUSTERS;
  so_roots : forall key node, m.(roots) !! key = Some node -> holds (placed m.(clusters) key) node
}.

Lemma flatten_app a b : flatten (a ++ b) = flatten a ++ flatten b.
Proof. induction a as [|[c|] a IH]; cbn; [done|by rewrite IH|done]. Qed.

Definition weight (oc : option Cluster) : Z := match oc with Some _ => 1 | None => 0 end.

Lemma live_insert cs id old new : cs !! id = Some old -> live_count (<[id := new]> cs) = live_count cs - weight old + weight new.
Proof.
  unfold live_count. revert id. induction cs as [|c cs IH]; intros [|id] E; [done|done| |].
  - injection E as ->. cbn. destruct old, new; cbn [flatten weight]; rewrite ?len_cons; lia.
  - specialize (IH id E). change (<[S id := new]> (c :: cs)) with (c :: <[id := new]> cs). destruct c; cbn [flatten]; rewrite ?len_cons; lia.
Qed.

Lemma best_of_ok cs tokens ids best : Forall (fun id => (id < length cs)%nat) ids ->
  exists r, best_of cs tokens ids best = Ok r /\
    (r = best \/ exists s w id c, r = Some (s, w, id) /\ id ∈ ids /\ cs !! id = Some (Some c)).
Proof.
  revert best. induction ids as [|id ids IH]; intros best Hr; cbn [best_of]; [eexists; split; [done|by left]|].
  apply Forall_cons_1 in Hr as [H1 Hr]. destruct (lookup_lt_is_Some_2 cs id H1) as [[c|] Hc]; rewrite Hc.
  - destruct (similarity c tokens) as [score wild]. match goal with |- context [best_of cs tokens ids ?b] => set (b' := b) end.
    destruct (IH b' Hr) as (r & -> & [->|(s & w & i & c' & -> & Hin & Hl)]); eexists; (split; [done|]).
    + subst b'. match goal with |- context [if ?b then _ else _] => destruct b end; [right|by left].
      exists score, wild, id, c. split_and!; [done|apply list_elem_of_here|done].
    + right. exists s, w, i, c'. split_and!; [done|by apply list_elem_of_further|done].
  - destruct (IH best Hr) as (r & -> & [->|(s & w & i & c' & -> & Hin & Hl)]); eexists; (split; [done|]); [by left|].
    right. exists s, w, i, c'. split_and!; [done|by apply list_elem_of_further|done].
Qed.

Lemma placed_range cs key id : placed cs key id -> (id < length cs)%nat.
Proof. intros (oc & E & _). by eapply lookup_lt_Some. Qed.

(** A search does not panic, and finds a live template of the line's shape. *)
Lemma search_ok m key tokens : sound m -> exists r, search m key tokens = Ok r /\
  forall id, r = Some id -> exists c, m.(clusters) !! id = Some (Some c) /\ of_shape key c.
Proof.
  intros Hs. unfold search. destruct (m.(roots) !! key) as [node|] eqn:Er; [|by exists None].
  destruct (descend node _) as [leaf|] eqn:Ed; [|by exists None]. apply (so_roots _ Hs) in Er. pose proof (descend_holds _ _ _ _ Er Ed) as Hl.
  apply holds_inv in Hl as [Hl _]. destruct (best_of_ok m.(clusters) tokens (node_clusters leaf) None) as (r & -> & Hr).
  { eapply Forall_impl; [|exact Hl]. intros id. apply placed_range. }
  eexists. split; [done|]. intros id E. destruct Hr as [->|(s & w & i & c & -> & Hin & Hc)]; [done|]. destruct (f64_le _ _); [|done]. injection E as ->.
  exists c. split; [done|]. rewrite list.Forall_forall in Hl. destruct (Hl id Hin) as (oc & Eo & Ho). apply Ho. congruence.
Qed.

(** The victim is live, and no live template was used less recently. *)
Lemma victim_spec cs k best : match victim cs k best with
  | None => best = None /\ live_count cs = 0
  | Some (u, id) =>
      (best = Some (u, id) \/ exists i c, id = (k + i)%nat /\ cs !! i = Some (Some c) /\ u = c.(last_used)) /\
      (forall u' id', best = Some (u', id') -> u <= u') /\ (forall i c, cs !! i = Some (Some c) -> u <= c.(last_used))
  end.
Proof.
  revert k best. induction cs as [|[c|] cs IH]; intros k best; cbn [victim].
  - destruct best as [[u id]|]; [|done]. split_and!; [by left|intros ? ? [= <- <-]; lia|done].
  - match goal with |- context [victim cs (S k) ?b] => set (b' := b); specialize (IH (S k) b') end.
    assert (Hb : exists u0 id0, b' = Some (u0, id0) /\ u0 <= last_used c /\ (best = Some (u0, id0) \/ id0 = k /\ u0 = last_used c) /\
      (forall u' id', best = Some (u', id') -> u0 <= u')).
    { subst b'. destruct best as [[u i]|]; [destruct (_ <? _) eqn:E; bools|].
      - exists (last_used c), k. split_and!; [done|lia|by right|intros ? ? [= <- <-]; lia].
      - exists u, i. split_and!; [done|lia|by left|intros ? ? [= <- <-]; lia].
      - exists (last_used c), k. split_and!; [done|lia|by right|done]. }
    destruct Hb as (u0 & id0 & E0 & H0 & H1 & H2). rewrite E0 in IH. destruct (victim cs (S k) b') as [[u id]|] eqn:Ev; rewrite E0 in Ev; rewrite Ev in *; [|by destruct IH].
    destruct IH as (I1 & I2 & I3). specialize (I2 u0 id0 eq_refl). split_and!.
    + destruct I1 as [[= -> ->]|(i & c' & -> & Hi & ->)]; [|right; exists (S i), c'; split_and!; [lia|done|done]].
      destruct H1 as [->|[-> ->]]; [by left|]. right. exists 0%nat, c. split_and!; [lia|done|done].
    + intros u' id' Hb. specialize (H2 u' id' Hb). lia.
    + intros [|i] c' Hi; [injection Hi as <-; lia|]. by apply (I3 i).
  - specialize (IH (S k) best). destruct (victim cs (S k) best) as [[u id]|]; [|done]. destruct IH as (I1 & I2 & I3). split_and!; [|done|].
    + destruct I1 as [->|(i & c' & -> & Hi & ->)]; [by left|]. right. exists (S i), c'. split_and!; [lia|done|done].
    + intros [|i] c' Hi; [done|]. by apply (I3 i).
Qed.

(** Room for one more template, at the cost of the least recently used. *)
Lemma evict_ok m : sound m -> m.(live) = MAX_CLUSTERS ->
  exists id c, m.(clusters) !! id = Some (Some c) /\ (forall i c', m.(clusters) !! i = Some (Some c') -> c.(last_used) <= c'.(last_used)) /\
    evict m = mkMiner m.(start) m.(step) m.(roots) (<[id := None]> m.(clusters)) (m.(live) - 1) m.(clock) m.(skipped).
Proof.
  intros Hs Hm. unfold evict. pose proof (victim_spec m.(clusters) 0 None) as Hv. destruct (victim _ _ _) as [[u id]|].
  - destruct Hv as ([?|(i & c & -> & Hi & ->)] & _ & Hmin); [done|]. exists i, c. done.
  - destruct Hv as [_ H0]. pose proof (so_live _ Hs). unfold MAX_CLUSTERS in *. lia.
Qed.

Lemma placed_mono (cs cs' : list (option Cluster)) key id :
  (forall oc, cs !! id = Some oc -> exists oc', cs' !! id = Some oc' /\ forall c', oc' = Some c' -> exists c, oc = Some c /\ forall k, of_shape k c -> of_shape k c') ->
  placed cs key id -> placed cs' key id.
Proof.
  intros H (oc & E & Ho). destruct (H oc E) as (oc' & E' & Hc). exists oc'. split; [done|]. intros c' Ec. destruct (Hc c' Ec) as (c & -> & Hk).
  by apply Hk, Ho.
Qed.

(** Replacing a template by one of the same shapes. *)
Lemma with_cluster_ok m id f c : sound m -> m.(clusters) !! id = Some (Some c) -> (forall k, of_shape k c -> of_shape k (f c)) ->
  exists m', with_cluster m id f = Ok m' /\ sound m' /\ m'.(clusters) = <[id := Some (f c)]> m.(clusters) /\ m'.(live) = m.(live) /\
    (m'.(start), m'.(step), m'.(clock), m'.(skipped)) = (m.(start), m.(step), m.(clock), m.(skipped)).
Proof.
  intros Hs Hc Hk. unfold with_cluster. rewrite Hc. eexists. split; [done|]. split; [|done]. pose proof (lookup_lt_Some _ _ _ Hc) as Hlt.
  split; cbn [live clusters roots].
  - rewrite (live_insert _ _ _ _ Hc). cbn [weight]. pose proof (so_live _ Hs). lia.
  - apply Hs.
  - intros key node Hn. apply (so_roots _ Hs) in Hn. eapply holds_impl; [|exact Hn]. intros i. apply placed_mono. intros oc E.
    destruct (decide (i = id)) as [->|Hne].
    + rewrite list_lookup_insert_eq by done. eexists. split; [done|]. intros c' [= <-]. exists c. split; [congruence|done].
    + rewrite list_lookup_insert_ne by done. exists oc. split; [done|]. intros c' ->. by exists c'.
Qed.

Definition fresh (m : Miner) (tokens : list Token) : Cluster := mkCluster (map slot_of tokens) [] m.(clock).

(** Live, and no live template was used less recently. *)
Definition oldest (cs : list (option Cluster)) (i : nat) : Prop :=
  exists c, cs !! i = Some (Some c) /\ forall k c', cs !! k = Some (Some c') -> c.(last_used) <= c'.(last_used).

Lemma insert_ok m tokens : sound m -> exists m' id, insert m (shape tokens) tokens = Ok (m', id) /\ sound m' /\
  id = length m.(clusters) /\ m'.(clusters) !! id = Some (Some (fresh m tokens)) /\ length m'.(clusters) = S (length m.(clusters)) /\
  (forall i, (i < length m.(clusters))%nat -> m'.(clusters) !! i = m.(clusters) !! i \/ m'.(clusters) !! i = Some None /\ oldest m.(clusters) i) /\
  m'.(live) = Z.min MAX_CLUSTERS (m.(live) + 1) /\
  (m'.(start), m'.(step), m'.(clock), m'.(skipped)) = (m.(start), m.(step), m.(clock), m.(skipped)).
Proof.
  intros Hs. set (m1 := if MAX_CLUSTERS <=? m.(live) then evict m else m).
  assert (H1 : (m1.(start), m1.(step), m1.(clock), m1.(skipped), m1.(roots)) = (m.(start), m.(step), m.(clock), m.(skipped), m.(roots)) /\
    length m1.(clusters) = length m.(clusters) /\ m1.(live) = live_count m1.(clusters) /\ m1.(live) + 1 = Z.min MAX_CLUSTERS (m.(live) + 1) /\
    forall i, m1.(clusters) !! i = m.(clusters) !! i \/ m1.(clusters) !! i = Some None /\ (i < length m.(clusters))%nat /\ oldest m.(clusters) i).
  { subst m1. destruct (MAX_CLUSTERS <=? live m) eqn:E; bools.
    - destruct (evict_ok m Hs) as (v & c & Hv & Hmin & ->); [pose proof (so_max _ Hs); lia|]. cbn [start step clock skipped roots clusters live].
      split_and!; [done|by rewrite length_insert|rewrite (live_insert _ _ _ _ Hv); cbn [weight]; pose proof (so_live _ Hs); lia|pose proof (so_max _ Hs); lia|].
      intros i. pose proof (lookup_lt_Some _ _ _ Hv). destruct (decide (i = v)) as [->|Hne]; [right; rewrite list_lookup_insert_eq by done; split_and!; [done|done|by exists c]|left; by rewrite list_lookup_insert_ne].
    - split_and!; [done|done|apply Hs|pose proof (so_max _ Hs); lia|by left]. }
  destruct H1 as (Ef & El & Hl & Hm & Hi). injection Ef as F1 F2 F3 F4 F5. unfold insert. fold m1. cbv zeta.
  match goal with |- context [insert_node ?cs' _ _ _] => set (cs := cs') end.
  assert (Ecs : cs = clusters m1 ++ [Some (fresh m tokens)]) by (subst cs; unfold fresh; by rewrite F3).
  assert (Hmono : forall key id, placed m.(clusters) key id -> placed cs key id).
  { intros key id. apply placed_mono. intros oc E. pose proof (lookup_lt_Some _ _ _ E). rewrite Ecs, lookup_app_l by lia.
    destruct (Hi id) as [->|(-> & _)]; [exists oc; split; [done|]; intros c' ->; by exists c'|by eexists]. }
  assert (Hnew : placed cs (shape tokens) (length (clusters m1))).
  { eexists. rewrite Ecs. split; [apply list_lookup_middle; done|]. intros c [= <-] us Hu. by apply shape_compat. }
  destruct (insert_node_ok cs (length (clusters m1)) (placed cs (shape tokens)) (default Node_default (roots m1 !! shape tokens)) (take PREFIX_DEPTH (words tokens)))
    as (node & -> & Hn); [apply placed_range|done| |].
  { rewrite F5. destruct (roots m !! shape tokens) as [n|] eqn:E; [|apply holds_default]. eapply holds_impl; [apply Hmono|by apply Hs]. }
  eexists _, _. split; [done|]. cbn [clusters start step clock skipped]. split_and!.
  - split; cbn [live clusters roots].
    + rewrite Ecs. unfold live_count. rewrite flatten_app, len_app. cbn [flatten]. rewrite len_cons, len_nil. unfold live_count in Hl. lia.
    + lia.
    + intros key n E. apply lookup_insert_Some in E as [[<- <-]|[_ E]]; [done|]. rewrite F5 in E. apply (so_roots _ Hs) in E. eapply holds_impl; [apply Hmono|done].
  - done.
  - rewrite Ecs. by apply list_lookup_middle.
  - rewrite Ecs, length_app. cbn. lia.
  - intros i Hlt. rewrite Ecs, lookup_app_l by lia. destruct (Hi i) as [?|(? & _ & ?)]; [by left|by right].
  - cbn [live]. lia.
  - by rewrite F1, F2, F3, F4.
Qed.

(** What joining or starting a template does. *)
Record assigned (m : Miner) (tokens : list Token) (m' : Miner) (id : nat) : Prop := {
  as_sound : sound m';
  as_same : (m'.(start), m'.(step), m'.(clock), m'.(skipped)) = (m.(start), m.(step), m.(clock), m.(skipped));
  as_length : (length m.(clusters) <= length m'.(clusters))%nat /\ (id < length m'.(clusters))%nat;
  as_cluster : exists c, m'.(clusters) !! id = Some (Some c) /\ fits c.(slots) tokens /\
    match m.(clusters) !! id with
    | None => c.(counts) = []
    | Some None => False
    | Some (Some c0) => c.(counts) = c0.(counts) /\ forall us, fits c0.(slots) us -> fits c.(slots) us
    end;
  as_other : forall i, i <> id -> m'.(clusters) !! i = m.(clusters) !! i \/ m'.(clusters) !! i = Some None /\ oldest m.(clusters) i;
  as_place : match search m (shape tokens) tokens with
    | Ok (Some i) => id = i /\ length m'.(clusters) = length m.(clusters) /\ m'.(live) = m.(live)
    | Ok None => id = length m.(clusters) /\ length m'.(clusters) = S (length m.(clusters)) /\ m'.(live) = Z.min MAX_CLUSTERS (m.(live) + 1)
    | _ => False
    end
}.

Lemma assign_ok m tokens : sound m -> exists m' id, assign m tokens = Ok (m', id) /\ assigned m tokens m' id.
Proof.
  intros Hs. unfold assign. destruct (search_ok m (shape tokens) tokens Hs) as (r & Er & Hr). rewrite Er. destruct r as [id|].
  - destruct (Hr id eq_refl) as (c & Hc & Hk). specialize (Hk tokens eq_refl). destruct (merge_slots_ok _ _ Hk) as [Hf Hu].
    destruct (with_cluster_ok m id (fun c => merge c tokens) c Hs Hc) as (m' & -> & Hs' & Ecs & El & Ef).
    { intros k Ho us Hus. by apply Hu, Ho. }
    exists m', id. split; [done|]. pose proof (lookup_lt_Some _ _ _ Hc) as Hlt. split; [done|done|rewrite Ecs, length_insert; lia| | |].
    + exists (merge c tokens). rewrite Ecs, list_lookup_insert_eq, Hc by done. split_and!; [done|done|done|]. intros us Hus.
      apply Hu; [by apply fits_compat|done].
    + intros i Hne. left. by rewrite Ecs, list_lookup_insert_ne.
    + rewrite Er. split_and!; [done|by rewrite Ecs, length_insert|done].
  - destruct (insert_ok m tokens Hs) as (m' & id & -> & Hs' & -> & Hc & Hl & Hi & Hlv & Ef). exists m', (length (clusters m)). split; [done|].
    split; [done|done|lia| | |].
    + eexists. split; [exact Hc|]. rewrite (proj2 (lookup_ge_None _ _)) by lia. split; [apply fresh_fits|done].
    + intros i Hne. destruct (decide (i < length (clusters m))%nat) as [Hlt|Hge]; [by apply Hi|].
      left. rewrite !(proj2 (lookup_ge_None _ _)) by lia. done.
    + by rewrite Er.
Qed.

(** * The history of a run *)

Abbreviation Log := (list (option (nat * list Token))).

(** What a line is clustered by, when it is clustered. *)
Definition tokens_of (line : bytes) : option (list Token) := if MAX_LINE_BYTES <? len line then None else tokenize line.

(** Where the search sends a line: the template it finds, or the next new one. *)
Definition place (m : Miner) (line : bytes) : option (nat * list Token) :=
  let* tokens := tokens_of line in
  match search m (shape tokens) tokens with
  | Ok (Some id) => Some (id, tokens)
  | _ => Some (length m.(clusters), tokens)
  end.
(** Where each line of a run is sent. *)
Fixpoint placements (m : Miner) (lines : list (Z * bytes)) : Log :=
  match lines with
  | [] => []
  | e :: lines => place m (snd e) :: match train m (fst e) (snd e) with Ok m => placements m lines | _ => [] end
  end.

(** The templates of the placed lines, in their order. *)
Definition visited (log : Log) : list nat := flat_map (fun o => match o with Some (id, _) => [id] | None => [] end) log.
(** The last use of a template, counted in placed lines; -1 when it has none. *)
Fixpoint last_from (k : Z) (id : nat) (ids : list nat) : Z :=
  match ids with
  | [] => -1
  | i :: ids => let r := last_from (k + 1) id ids in if (r <? 0) && bool_decide (i = id) then k else r
  end.
Definition last_use (id : nat) (log : Log) : Z := last_from 0 id (visited log).

(** The lines of a bucket that went to a template. *)
Definition in_bucket (bucket : Z -> Z) (id : nat) (b : Z) (e : (Z * bytes) * option (nat * list Token)) : bool :=
  match snd e with Some (i, _) => bool_decide (i = id) && (bucket (fst (fst e)) =? b) | None => false end.
Definition tally (bucket : Z -> Z) (id : nat) (b : Z) (hist : list (Z * bytes)) (log : Log) : Z :=
  len (List.filter (in_bucket bucket id b) (zip hist log)).

Definition is_none (o : option (nat * list Token)) : bool := match o with None => true | Some _ => false end.

(** [log] says where each line of [hist] went. *)
Record traced (hist : list (Z * bytes)) (log : Log) (m : Miner) : Prop := {
  tr_sound : sound m;
  tr_log : Forall2 (fun e o => match o with None => tokens_of (snd e) = None | Some (_, ts) => tokens_of (snd e) = Some ts end) hist log;
  tr_skipped : m.(skipped) = len (List.filter is_none log);
  tr_ids : forall id ts, Some (id, ts) ∈ log -> (id < length m.(clusters))%nat;
  tr_cluster : forall id c, m.(clusters) !! id = Some (Some c) -> ordered c.(counts) /\
    (forall b, default 0 (find b c.(counts)) = tally (bucket_of m) id b hist log) /\ (forall ts, Some (id, ts) ∈ log -> fits c.(slots) ts)
}.

(** The templates that are kept are the ones used last. *)
Record recent (log : Log) (m : Miner) : Prop := {
  re_ids : forall id, (id < length m.(clusters))%nat <-> id ∈ visited log;
  re_live : m.(live) = Z.min MAX_CLUSTERS (len m.(clusters));
  re_clock : m.(clock) = len (visited log);
  re_used : forall id c, m.(clusters) !! id = Some (Some c) -> c.(last_used) = last_use id log + 1;
  re_order : forall id c dead, m.(clusters) !! id = Some (Some c) -> m.(clusters) !! dead = Some None -> last_use dead log < last_use id log
}.

Lemma tally_snoc bucket id b hist log e o : length hist = length log ->
  tally bucket id b (hist ++ [e]) (log ++ [o]) = tally bucket id b hist log + (if in_bucket bucket id b (e, o) then 1 else 0).
Proof.
  intros Hl. unfold tally. rewrite zip_with_app by done. cbn [zip_with]. rewrite List.filter_app, len_app. cbn [List.filter].
  by destruct (in_bucket bucket id b (e, o)).
Qed.

Lemma tally_bound bucket id b hist log : 0 <= tally bucket id b hist log <= len hist.
Proof.
  split; [apply len_nonneg|]. unfold tally, len. pose proof (List.filter_length_le (in_bucket bucket id b) (zip hist log)).
  rewrite length_zip_with in *. lia.
Qed.

Lemma tally_unseen bucket id b hist log : (forall ts, Some (id, ts) ∉ log) -> tally bucket id b hist log = 0.
Proof.
  revert hist. unfold tally. induction log as [|o log IH]; intros [|e hist] Hn; try done. cbn [zip_with List.filter].
  assert (Hn' : forall ts, Some (id, ts) ∉ log) by (intros ts Hin; by apply (Hn ts), list_elem_of_further).
  destruct (in_bucket bucket id b (e, o)) eqn:E; [|by apply IH]. exfalso. unfold in_bucket in E. cbn in E. destruct o as [[i ts]|]; [|done].
  apply andb_true_iff in E as [E _]. apply bool_decide_eq_true in E as ->. apply (Hn ts). apply list_elem_of_here.
Qed.

Lemma wrap_small z : 0 <= z < U64 -> wrap_u64 z = z.
Proof. apply Z.mod_small. Qed.

Lemma log_length hist log m : traced hist log m -> length hist = length log.
Proof. intros Ht. apply (Forall2_length (tr_log _ _ _ Ht)). Qed.

Lemma last_from_snoc k id ids i : 0 <= k -> last_from k id (ids ++ [i]) = if bool_decide (i = id) then k + len ids else last_from k id ids.
Proof.
  revert k. induction ids as [|j ids IH]; intros k Hk; cbn [app last_from].
  - cbn. rewrite len_nil. destruct (bool_decide _); lia.
  - rewrite IH, len_cons by lia. destruct (bool_decide (i = id)); [|done]. pose proof (len_nonneg ids).
    rewrite (proj2 (Z.ltb_ge _ _)) by lia. cbn [andb]. lia.
Qed.

Lemma last_from_lt k id ids : 0 <= k -> last_from k id ids < k + len ids /\ (id ∈ ids <-> k <= last_from k id ids) /\ (last_from k id ids < 0 \/ k <= last_from k id ids).
Proof.
  revert k. induction ids as [|j ids IH]; intros k Hk; cbn [last_from].
  - rewrite len_nil, elem_of_nil. split_and!; [lia|split; [done|lia]|by left].
  - rewrite len_cons, elem_of_cons. destruct (IH (k + 1) ltac:(lia)) as (I1 & I2 & I3). set (r := last_from (k + 1) id ids) in *. pose proof (len_nonneg ids).
    destruct (Z.ltb_spec r 0); cbn [andb]; [destruct (decide (j = id)) as [->|Hne]|].
    + rewrite bool_decide_eq_true_2 by done. split_and!; [lia|split; [lia|by left]|lia].
    + rewrite bool_decide_eq_false_2 by done. split_and!; [lia| |lia]. rewrite I2. split; [intros [->|?]; [done|lia]|lia].
    + destruct I3 as [?|I3]; [lia|]. split_and!; [lia|split; [lia|intros _; right; by apply I2]|lia].
Qed.

(** Two templates are not used last by the same line. *)
Lemma last_from_inj k i j ids : 0 <= k -> 0 <= last_from k i ids -> last_from k i ids = last_from k j ids -> i = j.
Proof.
  revert k. induction ids as [|x ids IH] using rev_ind; intros k Hk; [done|]. rewrite !last_from_snoc by done.
  pose proof (last_from_lt k i ids Hk). pose proof (last_from_lt k j ids Hk). destruct (decide (x = i)) as [Hi|Hi], (decide (x = j)) as [Hj|Hj].
  - congruence.
  - rewrite bool_decide_eq_true_2, bool_decide_eq_false_2 by done. lia.
  - rewrite bool_decide_eq_false_2, bool_decide_eq_true_2 by done. lia.
  - rewrite !bool_decide_eq_false_2 by done. by apply IH.
Qed.

Lemma visited_app a b : visited (a ++ b) = visited a ++ visited b.
Proof. apply flat_map_app. Qed.

Lemma visited_none log : visited (log ++ [None]) = visited log.
Proof. rewrite visited_app. cbn. by rewrite app_nil_r. Qed.

Lemma visited_log id log : id ∈ visited log <-> exists ts, Some (id, ts) ∈ log.
Proof.
  unfold visited. rewrite list_elem_of_In, in_flat_map. setoid_rewrite list_elem_of_In. split.
  - intros ([[i ts]|] & Hin & Hx); [|done]. destruct Hx as [->|[]]. by exists ts.
  - intros [ts Hin]. exists (Some (id, ts)). split; [done|by left].
Qed.

Lemma last_use_snoc id log i ts : last_use id (log ++ [Some (i, ts)]) = if bool_decide (i = id) then len (visited log) else last_use id log.
Proof. unfold last_use. rewrite visited_app. cbn. by rewrite last_from_snoc. Qed.

Lemma last_use_below id log : last_use id log < len (visited log) /\ (id ∈ visited log <-> 0 <= last_use id log).
Proof. unfold last_use. destruct (last_from_lt 0 id (visited log)) as (H1 & H2 & _); [done|]. split; [lia|done]. Qed.

Lemma visited_bound log : len (visited log) <= len log.
Proof. induction log as [|[[i ts]|] log IH]; cbn; [done|..]; rewrite ?len_cons in *; unfold visited in IH; lia. Qed.

Lemma log_tokens hist log m : traced hist log m -> map (option_map snd) log = map (fun e => tokens_of (snd e)) hist.
Proof.
  intros [_ Hf _ _ _]. induction Hf as [|e o hist log Ho _ IH]; [done|]. cbn [map]. rewrite IH. destruct o as [[id ts]|]; cbn; by rewrite Ho.
Qed.

Lemma skip_traced hist log m ts line : traced hist log m -> len hist < U64_MAX -> tokens_of line = None ->
  traced (hist ++ [(ts, line)]) (log ++ [None]) (skip_line m).
Proof.
  intros Ht Hb Hn. pose proof (log_length _ _ _ Ht) as Hl. split.
  - destruct (tr_sound _ _ _ Ht) as [S1 S2 S3]. by split.
  - apply Forall2_app; [apply Ht|]. by constructor.
  - cbn. rewrite List.filter_app, len_app, (tr_skipped _ _ _ Ht). cbn. change (len [@None (nat * list Token)]) with 1. apply wrap_small.
    pose proof (List.filter_length_le is_none log). unfold len, U64, U64_MAX in *. lia.
  - intros id us Hin. apply elem_of_app in Hin as [Hin|Hin]; [by apply (tr_ids _ _ _ Ht id us)|]. by apply list_elem_of_singleton in Hin.
  - intros id c Hc. destruct (tr_cluster _ _ _ Ht id c Hc) as (C1 & C2 & C3). split_and!; [done| |].
    + intros b. rewrite tally_snoc by done. cbn. rewrite Z.add_0_r. apply C2.
    + intros us Hin. apply elem_of_app in Hin as [Hin|Hin]; [by apply C3|]. by apply list_elem_of_singleton in Hin.
Qed.

(** The clock of the miner moves before a line is placed. *)
Definition tick (m : Miner) : Miner :=
  mkMiner m.(start) m.(step) m.(roots) m.(clusters) m.(live) (wrap_u64 (m.(clock) + 1)) m.(skipped).

Lemma tick_sound m : sound m -> sound (tick m).
Proof. intros [S1 S2 S3]. by split. Qed.

Definition count_line (m : Miner) (bucket : Z) (c : Cluster) : Cluster :=
  mkCluster c.(slots) (update bucket 0 (fun n => wrap_u64 (n + 1)) c.(counts)) m.(clock).

Lemma bucket_same m m' : (m'.(start), m'.(step), m'.(clock), m'.(skipped)) = (m.(start), m.(step), m.(clock), m.(skipped)) ->
  forall ts, bucket_of m' ts = bucket_of m ts.
Proof. intros [= E1 E2 _ _] ts. unfold bucket_of. by rewrite E1, E2. Qed.

Lemma count_line_find m bucket c b n : ordered c.(counts) -> default 0 (find bucket c.(counts)) = n -> 0 <= n < U64_MAX ->
  ordered (count_line m bucket c).(counts) /\
  default 0 (find b (count_line m bucket c).(counts)) = default 0 (find b c.(counts)) + (if bucket =? b then 1 else 0).
Proof.
  intros Ho Hn Hr. cbn. unfold update. split; [by apply put_ordered|]. rewrite Hn. rewrite find_put. destruct (Z.eqb_spec bucket b) as [->|Hne].
  - rewrite cmp_refl. cbn [default from_option]. rewrite Hn. unfold id. apply wrap_small. unfold U64, U64_MAX in *. lia.
  - destruct (cmp bucket b) eqn:E; [apply cmp_eq in E; done|lia|lia].
Qed.

Lemma line_traced hist log m ts line tokens m1 id c : traced hist log m -> len hist < U64_MAX -> tokens_of line = Some tokens ->
  assigned (tick m) tokens m1 id -> m1.(clusters) !! id = Some (Some c) ->
  exists m', with_cluster m1 id (count_line m1 (bucket_of (tick m) ts)) = Ok m' /\
    (m'.(start), m'.(step)) = (m.(start), m.(step)) /\ traced (hist ++ [(ts, line)]) (log ++ [Some (id, tokens)]) m'.
Proof.
  intros Ht Hb Htok Ha Hc. pose proof (log_length _ _ _ Ht) as Hl. destruct (as_cluster _ _ _ _ Ha) as (c0 & Hc0 & Hfit & Hold).
  assert (c0 = c) as -> by congruence. pose proof (bucket_same _ _ (as_same _ _ _ _ Ha)) as Hbk. set (bk := bucket_of (tick m) ts).
  destruct (with_cluster_ok m1 id (count_line m1 bk) c (as_sound _ _ _ _ Ha) Hc) as (m' & -> & Hs' & Ecs & El & Ef); [done|].
  exists m'. split; [done|]. pose proof (bucket_same _ _ Ef) as Hbk'. assert (Hbm : forall t, bucket_of m' t = bucket_of m t) by (intros t; by rewrite Hbk', Hbk).
  pose proof (as_same _ _ _ _ Ha) as Es. rewrite Es in Ef. injection Ef as F1 F2 F3 F4. split; [by rewrite F1, F2|].
  assert (Hll : length (clusters m') = length (clusters m1)) by by rewrite Ecs, length_insert.
  destruct (as_length _ _ _ _ Ha) as [L1 L2]. change (clusters (tick m)) with (clusters m) in *.
  assert (Htally : forall i b h g, tally (bucket_of m') i b h g = tally (bucket_of m) i b h g).
  { intros i b h g. unfold tally. f_equal. apply List.filter_ext. intros [[t l] [[j us]|]]; [|done]. unfold in_bucket. cbn. by rewrite Hbm. }
  split.
  - done.
  - apply Forall2_app; [apply Ht|]. by constructor.
  - rewrite F4. change (skipped (tick m)) with (skipped m). rewrite (tr_skipped _ _ _ Ht), List.filter_app, len_app. cbn [List.filter is_none].
    rewrite len_nil. lia.
  - intros i us Hin. apply elem_of_app in Hin as [Hin|Hin]; [apply (tr_ids _ _ _ Ht) in Hin; lia|]. apply list_elem_of_singleton in Hin as [= -> ->]. lia.
  - intros i ci Hi. rewrite Ecs in Hi. destruct (decide (i = id)) as [->|Hne].
    + rewrite list_lookup_insert_eq in Hi by lia. injection Hi as <-.
      assert (Hprev : ordered (counts c) /\ (forall b, default 0 (find b (counts c)) = tally (bucket_of m) id b hist log) /\
        forall us, Some (id, us) ∈ log -> fits (slots c) us).
      { destruct (clusters m !! id) as [[co|]|] eqn:E; [|done|].
        - destruct Hold as [Hcnt Hmono]. destruct (tr_cluster _ _ _ Ht id co E) as (C1 & C2 & C3). rewrite Hcnt. split_and!; [done|done|]. intros us Hin. by apply Hmono, C3.
        - rewrite Hold. assert (Hun : forall us, Some (id, us) ∉ log) by (intros us Hin; apply (tr_ids _ _ _ Ht), lookup_lt_is_Some_2 in Hin as [? ?]; congruence).
          split_and!; [constructor|intros b; by rewrite tally_unseen|]. intros us Hin. by apply Hun in Hin. }
      destruct Hprev as (P1 & P2 & P3). split_and!.
      * eapply count_line_find with (b := 0); [done|apply P2|]. pose proof (tally_bound (bucket_of m) id bk hist log). lia.
      * intros b. rewrite Htally, tally_snoc by done. pose proof (tally_bound (bucket_of m) id bk hist log).
        rewrite (proj2 (count_line_find m1 bk c b _ P1 (P2 bk) ltac:(lia))), P2. f_equal. unfold in_bucket. cbn [fst snd].
        rewrite bool_decide_eq_true_2 by done. done.
      * intros us Hin. apply elem_of_app in Hin as [Hin|Hin]; [by apply P3|]. apply list_elem_of_singleton in Hin as [= ->]. done.
    + rewrite list_lookup_insert_ne in Hi by done. destruct (as_other _ _ _ _ Ha i Hne) as [E|[E _]]; rewrite E in Hi; [|done].
      destruct (tr_cluster _ _ _ Ht i ci Hi) as (C1 & C2 & C3). split_and!; [done| |].
      * intros b. rewrite Htally, tally_snoc, C2 by done. unfold in_bucket. cbn [fst snd]. rewrite bool_decide_eq_false_2 by done. cbn. lia.
      * intros us Hin. apply elem_of_app in Hin as [Hin|Hin]; [by apply C3|]. apply list_elem_of_singleton in Hin as [= -> ->]. done.
Qed.

Lemma skip_recent log m : recent log m -> recent (log ++ [None]) (skip_line m).
Proof. intros [R1 R2 R3 R4 R5]. unfold last_use in *. split; unfold last_use; rewrite ?visited_none; done. Qed.

Lemma line_recent log m tokens m1 id bk m' : recent log m -> len (visited log) < U64_MAX -> assigned (tick m) tokens m1 id ->
  with_cluster m1 id (count_line m1 bk) = Ok m' -> recent (log ++ [Some (id, tokens)]) m'.
Proof.
  intros [R1 R2 R3 R4 R5] Hb Ha. unfold with_cluster. destruct (clusters m1 !! id) as [[c|]|] eqn:Hc; [|done..]. intros [= <-].
  pose proof (as_other _ _ _ _ Ha) as Hother. pose proof (as_place _ _ _ _ Ha) as Hp. pose proof (as_length _ _ _ _ Ha) as [_ Hlt].
  pose proof (as_same _ _ _ _ Ha) as Hs. injection Hs as _ _ Hclock _. cbn [clock tick] in Hclock. change (clusters (tick m)) with (clusters m) in *. change (live (tick m)) with (live m) in Hp.
  rewrite wrap_small in Hclock by (pose proof (len_nonneg (visited log)); unfold U64, U64_MAX in *; lia).
  assert (Hv : visited (log ++ [Some (id, tokens)]) = visited log ++ [id]) by (by rewrite visited_app). pose proof (len_nonneg (visited log)) as Hnn.
  assert (Hplace : (id < length (clusters m))%nat /\ length (clusters m1) = length (clusters m) /\ live m1 = live m \/
    id = length (clusters m) /\ length (clusters m1) = S (length (clusters m)) /\ live m1 = Z.min MAX_CLUSTERS (live m + 1)).
  { destruct (search _ _ _) as [[i|]| |]; [destruct Hp as (_ & Hl & Hv'); left; split_and!; [lia|done|done]|by right|done..]. }
  split; cbn [clusters live clock].
  - intros i. rewrite length_insert, Hv, elem_of_app, list_elem_of_singleton, <- R1. lia.
  - unfold len. rewrite length_insert. unfold len in R2. lia.
  - rewrite Hv, len_app, Hclock, R3. change (len [id]) with 1. done.
  - intros i ci Hi. rewrite last_use_snoc. destruct (decide (id = i)) as [<-|Hne].
    + rewrite list_lookup_insert_eq in Hi by done. injection Hi as <-. rewrite bool_decide_eq_true_2 by done. cbn. lia.
    + rewrite list_lookup_insert_ne in Hi by done. rewrite bool_decide_eq_false_2 by done. destruct (Hother i (not_eq_sym Hne)) as [E|[E _]]; rewrite E in Hi; [by apply R4|done].
  - intros i ci d Hi Hd. destruct (decide (id = d)) as [<-|Hd'].
    { by rewrite list_lookup_insert_eq in Hd. }
    rewrite list_lookup_insert_ne in Hd by done. rewrite !last_use_snoc, (bool_decide_eq_false_2 (id = d)) by done. destruct (last_use_below d log) as [Hlow Hvis].
    destruct (decide (id = i)) as [<-|Hne]; [by rewrite bool_decide_eq_true_2|]. rewrite bool_decide_eq_false_2 by done. rewrite list_lookup_insert_ne in Hi by done.
    destruct (Hother i (not_eq_sym Hne)) as [E|[E _]]; rewrite E in Hi; [|done]. destruct (Hother d (not_eq_sym Hd')) as [E'|[E' (cd & Hcd & Hold)]]; [rewrite E' in Hd; by apply (R5 i ci d)|].
    specialize (Hold i ci Hi). rewrite (R4 d cd Hcd), (R4 i ci Hi) in Hold. destruct (Z.eq_dec (last_use d log) (last_use i log)) as [Eq|]; [|lia].
    assert (d = i); [|congruence]. apply (last_from_inj 0 d i (visited log)); [done| |exact Eq]. apply Hvis, R1. by eapply lookup_lt_Some.
Qed.

Lemma train_traced hist log m ts line : traced hist log m -> recent log m -> len hist < U64_MAX ->
  exists m', train m ts line = Ok m' /\ (m'.(start), m'.(step)) = (m.(start), m.(step)) /\
    traced (hist ++ [(ts, line)]) (log ++ [place m line]) m' /\ recent (log ++ [place m line]) m'.
Proof.
  intros Ht Hr Hb. unfold train, place. destruct (MAX_LINE_BYTES <? len line) eqn:E1.
  { assert (Htok : tokens_of line = None) by (unfold tokens_of; by rewrite E1). rewrite Htok. exists (skip_line m). split_and!; [done|done|by apply skip_traced|by apply skip_recent]. }
  destruct (tokenize line) as [tokens|] eqn:E2.
  - assert (Htok : tokens_of line = Some tokens) by (unfold tokens_of; by rewrite E1). rewrite Htok. cbn [mbind option_bind]. cbv zeta. fold (tick m).
    destruct (assign_ok (tick m) tokens (tick_sound _ (tr_sound _ _ _ Ht))) as (m1 & id & -> & Ha). pose proof (as_place _ _ _ _ Ha) as Hp.
    destruct (as_cluster _ _ _ _ Ha) as (c & Hc & _). change (search (tick m)) with (search m) in Hp.
    assert (Hid : match search m (shape tokens) tokens with Ok (Some i) => Some (i, tokens) | _ => Some (length (clusters m), tokens) end = Some (id, tokens)).
    { destruct (search m (shape tokens) tokens) as [[i|]| |]; [by destruct Hp as [-> _]..|done|done]. }
    rewrite Hid. destruct (line_traced hist log m ts line tokens m1 id c Ht Hb Htok Ha Hc) as (m' & E & Es & Hm'). exists m'. split_and!; [done|done|done|].
    eapply line_recent; [done| |done|exact E]. pose proof (visited_bound log). pose proof (log_length _ _ _ Ht). unfold len in *. lia.
  - assert (Htok : tokens_of line = None) by (unfold tokens_of; by rewrite E1). rewrite Htok. exists (skip_line m). split_and!; [done|done|by apply skip_traced|by apply skip_recent].
Qed.

Lemma run_traced lines : forall hist log m, traced hist log m -> recent log m -> len hist + len lines <= U64_MAX ->
  exists m', run m lines = Ok m' /\ traced (hist ++ lines) (log ++ placements m lines) m' /\ recent (log ++ placements m lines) m'.
Proof.
  induction lines as [|[ts line] lines IH]; intros hist log m Ht Hr Hb.
  { exists m. cbn [placements]. rewrite !app_nil_r. done. }
  rewrite len_cons in Hb. destruct (train_traced hist log m ts line Ht Hr) as (m1 & E1 & _ & H1 & R1); [len_lia|].
  destruct (IH (hist ++ [(ts, line)]) (log ++ [place m line]) m1 H1 R1) as (m' & E' & H' & R'); [rewrite len_app, len_cons, len_nil; lia|].
  exists m'. unfold run. cbn [foldM fst snd placements]. rewrite E1. split; [exact E'|]. rewrite <- !app_assoc in H', R'; rewrite <- ?app_assoc in H'. exact (conj H' R').
Qed.

Lemma new_recent s st : recent [] (Miner_new s st).
Proof. split; [intros id; cbn; rewrite elem_of_nil; lia|done..]. Qed.

Lemma new_traced s st : traced [] [] (Miner_new s st).
Proof.
  split.
  - split; [done|done|]. intros key node. cbn. by rewrite lookup_empty.
  - constructor.
  - done.
  - intros id ts Hin. by apply not_elem_of_nil in Hin.
  - done.
Qed.

(** * The report *)

Definition amount (b : Z) (l : list (Z * Z)) : Z := default 0 (find b l).

(** What the rows report for a pattern in a bucket. *)
Fixpoint reported (p : bytes) (b : Z) (l : list Pattern) : Z :=
  match l with
  | [] => 0
  | e :: l => (if bytes_eqb (fst e) p then amount b (snd e) else 0) + reported p b l
  end.

Definition counted (l : list (Z * Z)) : Prop := ordered l /\ forall b, 0 <= amount b l.

Lemma reported_app p b l k : reported p b (l ++ k) = reported p b l + reported p b k.
Proof. induction l as [|e l IH]; cbn [app reported]; [done|]. rewrite IH. lia. Qed.

Lemma reported_perm p b l k : l ≡ₚ k -> reported p b l = reported p b k.
Proof. induction 1; cbn [reported]; lia. Qed.

Lemma reported_nonneg p b l : Forall (fun e => counted (snd e)) l -> 0 <= reported p b l.
Proof. induction 1 as [|e l [_ He] Hl IH]; cbn [reported]; [done|]. specialize (He b). destruct (bytes_eqb _ _); lia. Qed.

Lemma reported_insert p b l i q old new : l !! i = Some (q, old) ->
  reported p b (<[i := (q, new)]> l) = reported p b l + (if bytes_eqb q p then amount b new - amount b old else 0).
Proof.
  revert i. induction l as [|e l IH]; intros [|i] E; [done|done| |].
  - injection E as ->. change (<[0%nat := (q, new)]> ((q, old) :: l)) with ((q, new) :: l). cbn [reported fst snd]. destruct (bytes_eqb q p); lia.
  - change (<[S i := (q, new)]> (e :: l)) with (e :: <[i := (q, new)]> l). cbn [reported]. rewrite (IH i E). lia.
Qed.

Lemma reported_at p b l i cs : Forall (fun e => counted (snd e)) l -> l !! i = Some (p, cs) -> amount b cs <= reported p b l.
Proof.
  intros Hc. revert i. induction Hc as [|e l [_ He] Hl IH]; intros i E; [done|]. cbn [reported]. destruct i as [|i].
  - injection E as ->. cbn [fst snd]. rewrite (proj2 (bytes_eqb_eq p p) eq_refl). pose proof (reported_nonneg p b l Hl). lia.
  - specialize (IH i E). specialize (He b). destruct (bytes_eqb _ _); lia.
Qed.

Lemma amount_update t n sum b : 0 <= amount t sum + n < U64 ->
  amount b (update t 0 (fun x => wrap_u64 (x + n)) sum) = amount b sum + (if t =? b then n else 0).
Proof.
  intros Hr. unfold amount, update in *. rewrite find_put. rewrite wrap_small by done. destruct (Z.eqb_spec t b) as [->|Hne]; [by rewrite cmp_refl|].
  destruct (cmp t b) eqn:E; [by apply cmp_eq in E|lia|lia].
Qed.

Lemma amount_cons t n l b : ordered ((t, n) :: l) -> amount b ((t, n) :: l) = (if t =? b then n else 0) + amount b l /\ ((t =? b) = true -> amount b l = 0).
Proof.
  intros Ho. unfold amount. cbn [find]. destruct (Z.eqb_spec t b) as [->|Hne].
  - rewrite cmp_refl, (find_below b n l b Ho); [|by rewrite cmp_refl]. cbn. split; [lia|done].
  - destruct (cmp t b) eqn:E; [by apply cmp_eq in E|done..].
Qed.

Lemma add_counts_ok l sum : ordered sum -> counted l -> (forall b, 0 <= amount b sum /\ amount b sum + amount b l < U64) ->
  ordered (add_counts sum l) /\ forall b, amount b (add_counts sum l) = amount b sum + amount b l.
Proof.
  unfold add_counts. revert sum. induction l as [|[t n] l IH]; intros sum Ho [Hl Hnn] Hb; cbn [fold_left fst snd].
  { split; [done|]. intros b. unfold amount at 3. cbn. lia. }
  pose proof (amount_cons t n l t Hl) as [Ht Ht0]. rewrite Z.eqb_refl in Ht, Ht0. specialize (Ht0 eq_refl).
  pose proof (Hb t) as [Hb1 Hb2]. pose proof (Hnn t) as Hn. rewrite Ht, Ht0 in *.
  assert (Hu : forall b, amount b (update t 0 (fun x => wrap_u64 (x + n)) sum) = amount b sum + (if t =? b then n else 0)) by (intros b; apply amount_update; lia).
  assert (Hc : counted l).
  { split; [by eapply ordered_tail|]. intros b. destruct (amount_cons t n l b Hl) as [E E0]. specialize (Hnn b). rewrite E in Hnn. destruct (t =? b); [rewrite E0 by done; lia|lia]. }
  destruct (IH (update t 0 (fun x => wrap_u64 (x + n)) sum)) as [H1 H2]; [by apply put_ordered|done| |].
  - intros b. rewrite Hu. destruct (amount_cons t n l b Hl) as [E _]. specialize (Hb b). rewrite E in Hb. destruct (t =? b) eqn:Et; [apply Z.eqb_eq in Et; subst b|]; lia.
  - split; [done|]. intros b. rewrite H2, Hu. destruct (amount_cons t n l b Hl) as [-> _]. lia.
Qed.

Lemma collect_ok l : counted l -> ordered (collect l) /\ forall b, amount b (collect l) = amount b l.
Proof.
  intros [Ho _]. unfold collect. assert (G : forall m : OrdMap.omap Z Z, ordered m -> (forall k v, find k m = Some v -> find k l = None) ->
    ordered (fold_left (fun m e => put (fst e) (snd e) m) l m) /\
    forall k, find k (fold_left (fun m e => put (fst e) (snd e) m) l m) = match find k l with Some v => Some v | None => find k m end).
  { induction l as [|[t n] l IH]; intros m Hm Hd; cbn [fold_left fst snd find]; [done|].
    destruct (IH (ordered_tail _ _ Ho) (put t n m)) as [H1 H2].
    - by apply put_ordered.
    - intros k v E. rewrite find_put in E. destruct (cmp t k) eqn:Ec.
      + apply cmp_eq in Ec as ->. apply (find_below k n l k Ho). by rewrite cmp_refl.
      + specialize (Hd k v E). cbn [find] in Hd. by rewrite Ec in Hd.
      + specialize (Hd k v E). cbn [find] in Hd. by rewrite Ec in Hd.
    - split; [done|]. intros k. rewrite H2, find_put. destruct (cmp t k) eqn:Ec; [|done..]. apply cmp_eq in Ec as ->.
      by rewrite (find_below k n l k Ho) by by rewrite cmp_refl. }
  destruct (G [] ltac:(constructor) ltac:(done)) as [H1 H2]. split; [done|]. intros b. unfold amount. rewrite H2. by destruct (find b l).
Qed.

(** The merged rows and the index of their patterns. *)
Record merged_ok (merged : list Pattern) (index : gmap bytes nat) : Prop := {
  me_index : forall p i, index !! p = Some i <-> exists cs, merged !! i = Some (p, cs);
  me_counted : Forall (fun e => counted (snd e)) merged
}.

Lemma merge_row_ok merged index row : merged_ok merged index -> counted (snd (snd row)) ->
  (forall p b, reported p b merged + reported p b [snd row] < U64) ->
  exists merged' index', merge_row (merged, index) row = Ok (merged', index') /\ merged_ok merged' index' /\
    (forall p b, reported p b merged' = reported p b merged + reported p b [snd row]) /\ len merged' <= len merged + 1.
Proof.
  intros [M1 M2] Hc Hb. destruct row as [tot [p cs]]. cbn [snd] in *. unfold merge_row. cbn [snd]. destruct (index !! p) as [i|] eqn:Ei.
  - destruct (proj1 (M1 p i) Ei) as [old Hi]. rewrite Hi. eexists _, _. split; [done|].
    assert (Hold : counted old) by (by apply Forall_lookup_1 with (1 := M2) in Hi). destruct (collect_ok old Hold) as [K1 K2].
    assert (Hpp : bytes_eqb p p = true) by by apply bytes_eqb_eq.
    destruct (add_counts_ok cs (collect old) K1 Hc) as [A1 A2].
    { intros b. rewrite K2. split; [apply Hold|]. specialize (Hb p b). pose proof (reported_at p b merged i old M2 Hi). cbn [reported fst snd] in Hb.
      rewrite Hpp in Hb. lia. }
    split_and!; [split| |unfold len; rewrite length_insert; lia].
    + intros q j. rewrite M1. pose proof (lookup_lt_Some _ _ _ Hi). destruct (decide (j = i)) as [->|Hne].
      * rewrite list_lookup_insert_eq by done. rewrite Hi. split; [intros [c' [= -> _]]; by eexists|intros [c' [= <- _]]; by exists old].
      * by rewrite list_lookup_insert_ne.
    + apply Forall_insert; [done|]. cbn. split; [done|]. intros b. rewrite A2, K2. pose proof (proj2 Hold b). pose proof (proj2 Hc b). lia.
    + intros q b. rewrite (reported_insert q b merged i p old _ Hi), A2, K2. cbn [reported fst snd]. destruct (bytes_eqb p q); lia.
  - eexists _, _. split; [done|]. split_and!; [split| |rewrite len_app, len_cons, len_nil; lia].
    + intros q j. rewrite lookup_insert_Some. split.
      * intros [[<- <-]|[Hne E]]; [exists cs; by apply list_lookup_middle|]. apply M1 in E as [c' E]. exists c'. by apply lookup_app_l_Some.
      * intros [c' E]. apply lookup_app_Some in E as [E|[Hge E]].
        -- right. assert (Eq : index !! q = Some j) by (apply M1; by exists c'). split; [congruence|done].
        -- left. destruct (j - length merged)%nat as [|n] eqn:En; [|done]. injection E as <- <-. split; [done|lia].
    + apply Forall_app. split; [done|by constructor].
    + intros q b. by rewrite reported_app.
Qed.

Lemma merge_rows_ok rows merged index : merged_ok merged index -> Forall (fun r => counted (snd (snd r))) rows ->
  (forall p b, reported p b merged + reported p b (map snd rows) < U64) ->
  exists merged' index', foldM merge_row (merged, index) rows = Ok (merged', index') /\ merged_ok merged' index' /\
    (forall p b, reported p b merged' = reported p b merged + reported p b (map snd rows)) /\ len merged' <= len merged + len rows.
Proof.
  intros Hm Hr. revert merged index Hm. induction Hr as [|row rows Hc Hr IH]; intros merged index Hm Hb; cbn [foldM map].
  { exists merged, index. split_and!; [done|done|intros p b; cbn; lia|len_lia]. }
  assert (Hnn : forall p b, 0 <= reported p b (map snd rows)) by (intros p b; apply reported_nonneg, Forall_map; done).
  destruct (merge_row_ok merged index row Hm Hc) as (m1 & i1 & -> & Hm1 & R1 & L1).
  { intros p b. specialize (Hb p b). specialize (Hnn p b). cbn [map reported] in *. lia. }
  destruct (IH m1 i1 Hm1) as (m2 & i2 & -> & Hm2 & R2 & L2).
  { intros p b. rewrite R1. specialize (Hb p b). cbn [map reported] in *. lia. }
  exists m2, i2. split_and!; [done|done|intros p b; rewrite R2, R1; cbn [map reported]; lia|rewrite len_cons; lia].
Qed.

Lemma merged_nodup merged index : merged_ok merged index -> NoDup (map fst merged).
Proof.
  intros [M1 _]. apply NoDup_alt. intros i j p Hi Hj. rewrite list_lookup_fmap in Hi, Hj.
  destruct (merged !! i) as [[q a]|] eqn:Ei; [|done]. destruct (merged !! j) as [[r b]|] eqn:Ej; [|done]. injection Hi as ->. injection Hj as ->.
  assert (H1 : index !! p = Some i) by (apply M1; by exists a). assert (H2 : index !! p = Some j) by (apply M1; by exists b). congruence.
Qed.

Definition is_pattern (p : bytes) (oc : option Cluster) : bool :=
  match oc with Some c => bytes_eqb (render c.(slots)) p | None => false end.

(** The sum of [f] over the templates with a pattern. *)
Fixpoint weigh (f : nat -> Z) (p : bytes) (k : nat) (cs : list (option Cluster)) : Z :=
  match cs with
  | [] => 0
  | oc :: cs => (if is_pattern p oc then f k else 0) + weigh f p (S k) cs
  end.

Definition row_of (c : Cluster) : Pattern := (render c.(slots), c.(counts)).

Lemma reported_weigh p b f k cs : (forall i c, cs !! i = Some (Some c) -> amount b c.(counts) = f (k + i)%nat) ->
  reported p b (map row_of (flatten cs)) = weigh f p k cs.
Proof.
  revert k. induction cs as [|oc cs IH]; intros k Hf; [done|]. cbn [weigh].
  rewrite <- (IH (S k)) by (intros i c Hi; rewrite (Hf (S i) c Hi); f_equal; lia). destruct oc as [c|]; cbn [flatten map reported is_pattern]; [|lia].
  cbn [row_of fst snd]. rewrite (Hf 0%nat c eq_refl), Nat.add_0_r. done.
Qed.

Lemma weigh_add f g p k cs : weigh (fun i => f i + g i) p k cs = weigh f p k cs + weigh g p k cs.
Proof. revert k. induction cs as [|oc cs IH]; intros k; cbn [weigh]; [done|]. rewrite IH. destruct (is_pattern p oc); lia. Qed.

Lemma weigh_zero p k cs : weigh (fun _ => 0) p k cs = 0.
Proof. revert k. induction cs as [|oc cs IH]; intros k; cbn [weigh]; [done|]. rewrite IH. by destruct (is_pattern p oc). Qed.

Definition unit_at (id : nat) (x : Z) (i : nat) : Z := if bool_decide (id = i) then x else 0.

Lemma weigh_at p id x k cs : weigh (unit_at id x) p k cs =
  if bool_decide (k <= id)%nat then (if is_pattern p (default None (cs !! (id - k)%nat)) then x else 0) else 0.
Proof.
  revert k. induction cs as [|oc cs IH]; intros k; cbn [weigh]; [by destruct (bool_decide _)|]. rewrite IH. unfold unit_at.
  destruct (decide (id = k)) as [->|Hne].
  - rewrite (bool_decide_eq_true_2 (k = k)), (bool_decide_eq_true_2 (k <= k)%nat), (bool_decide_eq_false_2 (S k <= k)%nat), Nat.sub_diag by lia.
    change (default None ((oc :: cs) !! 0%nat)) with oc. destruct (is_pattern p oc); lia.
  - rewrite (bool_decide_eq_false_2 (id = k)) by done. destruct (decide (k <= id)%nat) as [Hle|Hgt].
    + rewrite !bool_decide_eq_true_2 by lia. replace (id - k)%nat with (S (id - S k)) by lia. change ((oc :: cs) !! S (id - S k)) with (cs !! (id - S k)%nat). destruct (is_pattern p oc); lia.
    + rewrite !bool_decide_eq_false_2 by lia. destruct (is_pattern p oc); lia.
Qed.

(** The line went to a live template with the pattern, in the bucket. *)
Definition went (m : Miner) (p : bytes) (b : Z) (e : (Z * bytes) * option (nat * list Token)) : bool :=
  match snd e with
  | Some (id, _) => is_pattern p (default None (m.(clusters) !! id)) && (bucket_of m (fst (fst e)) =? b)
  | None => false
  end.

Lemma weigh_ext f g p k cs : (forall i, f i = g i) -> weigh f p k cs = weigh g p k cs.
Proof. intros H. revert k. induction cs as [|oc cs IH]; intros k; cbn [weigh]; [done|]. by rewrite H, IH. Qed.

Lemma weigh_tally m p b hist log :
  weigh (fun i => tally (bucket_of m) i b hist log) p 0 m.(clusters) = len (List.filter (went m p b) (zip hist log)).
Proof.
  unfold tally. induction (zip hist log) as [|e z IH]; cbn [List.filter]; [apply weigh_zero|].
  rewrite (weigh_ext _ (fun i => (if in_bucket (bucket_of m) i b e then 1 else 0) + len (List.filter (in_bucket (bucket_of m) i b) z))).
  2:{ intros i. destruct (in_bucket (bucket_of m) i b e); [rewrite len_cons|]; lia. }
  rewrite weigh_add, IH. unfold went at 2. unfold in_bucket. destruct e as [[ts line] [[id us]|]]; cbn [fst snd]; [|by rewrite weigh_zero].
  rewrite (weigh_ext _ (unit_at id (if bucket_of m ts =? b then 1 else 0))).
  2:{ intros i. unfold unit_at. destruct (decide (id = i)) as [->|Hne]; [rewrite !bool_decide_eq_true_2 by done|rewrite !bool_decide_eq_false_2 by done]; done. }
  rewrite weigh_at, bool_decide_eq_true_2, Nat.sub_0_r by lia. destruct (is_pattern _ _); cbn [andb]; [|lia]. destruct (_ =? b); [rewrite len_cons|]; lia.
Qed.

Lemma went_bound m p b hist log : len (List.filter (went m p b) (zip hist log)) <= len hist.
Proof. unfold len. pose proof (List.filter_length_le (went m p b) (zip hist log)). rewrite length_zip_with in *. lia. Qed.

Lemma flatten_in c cs : c ∈ flatten cs -> exists i, cs !! i = Some (Some c).
Proof.
  induction cs as [|[x|] cs IH]; cbn [flatten]; intros Hin; [by apply not_elem_of_nil in Hin| |].
  - apply elem_of_cons in Hin as [->|Hin]; [by exists 0%nat|]. destruct (IH Hin) as [i Hi]. by exists (S i).
  - destruct (IH Hin) as [i Hi]. by exists (S i).
Qed.

Lemma finish_traced hist log m : traced hist log m -> len hist <= U64_MAX -> exists ps, finish m = Ok ps /\ NoDup (map fst ps) /\
  len ps <= live_count m.(clusters) /\ forall p b, reported p b ps = len (List.filter (went m p b) (zip hist log)).
Proof.
  intros Ht Hb. unfold finish. set (out := map _ (flatten _)).
  assert (Hout : map snd out = map row_of (flatten m.(clusters))) by (subst out; by rewrite map_map).
  assert (Hrep : forall p b, reported p b (map snd (sort_by row_leb out)) = len (List.filter (went m p b) (zip hist log))).
  { intros p b. rewrite (reported_perm p b _ (map snd out)) by (apply Permutation_map, sort_by_perm). rewrite Hout, <- weigh_tally.
    apply reported_weigh. intros i c Hi. cbn. by apply (tr_cluster _ _ _ Ht i c Hi). }
  destruct (merge_rows_ok (sort_by row_leb out) [] ∅) as (ps & idx & -> & Hm & Hr & Hl).
  - split; [|constructor]. intros p i. rewrite lookup_empty. split; [done|by intros [? ?]].
  - rewrite sort_by_perm. subst out. apply Forall_map, list.Forall_forall. intros c Hin. cbn. apply flatten_in in Hin as [i Hi].
    destruct (tr_cluster _ _ _ Ht i c Hi) as (C1 & C2 & _). split; [done|]. intros b. unfold amount. rewrite C2. apply tally_bound.
  - intros p b. rewrite Hrep. pose proof (went_bound m p b hist log). cbn [reported]. unfold U64, U64_MAX in *. lia.
  - exists ps. split_and!; [done|by eapply merged_nodup| |intros p b; rewrite Hr, Hrep; cbn [reported]; lia].
    rewrite len_nil in Hl. unfold len in Hl. rewrite sort_by_perm in Hl. subst out. rewrite length_map in Hl. exact Hl.
Qed.

(** * Tokens and filters *)





Lemma punct_visible b : is_punct b = true -> is_ascii_whitespace b = false.
Proof. unfold is_punct. intros E. apply existsb_exists in E as (x & Hx & E). bools. subst x. cbn in Hx. by intuition subst. Qed.




(** A line filter: literal text, and wildcards that stand for at least one byte. *)
Inductive globs : bytes -> bytes -> Prop :=
| globs_end : globs [] []
| globs_byte x p l : globs p l -> globs (x :: p) (x :: l)
| globs_wild t p l : t <> [] -> globs p l -> globs (WILDCARD ++ p) (t ++ l).





(** * What a run reports *)

Definition alive (m : Miner) (id : nat) : Prop := exists c, m.(clusters) !! id = Some (Some c).

Lemma run_recorded s st lines : len lines <= U64_MAX ->
  exists m ps, run (Miner_new s st) lines = Ok m /\ finish m = Ok ps /\ let log := placements (Miner_new s st) lines in
    traced lines log m /\ recent log m /\ NoDup (map fst ps) /\ len ps <= live_count m.(clusters) /\
    forall p b, reported p b ps = len (List.filter (went m p b) (zip lines log)).
Proof.
  intros Hb. destruct (run_traced lines [] [] (Miner_new s st) (new_traced s st) (new_recent s st)) as (m & E & Ht & Hr); [len_lia|]. cbn [app] in Ht, Hr.
  destruct (finish_traced _ _ m Ht Hb) as (ps & Ef & Hnd & Hl & Hc). by exists m, ps.
Qed.

(** C12. The miner never panics, and reports exactly the lines it still has a
    template for. Each line is skipped, when it is too long or has no tokens,
    or sent to one template: the one the search finds in the state before the
    line, or else a new one. Of the templates ever started the 500 used last are
    alive at the end, all of them when there are no more than 500. The report
    has a pattern once, and its count in a time step is the number of lines of
    that step sent to a template that is alive and renders as the pattern. *)
Theorem miner_exact (s st : Z) (lines : list (Z * bytes)) : len lines <= U64_MAX ->
  let log := placements (Miner_new s st) lines in
  exists m ps, run (Miner_new s st) lines = Ok m /\ finish m = Ok ps /\
    map (option_map snd) log = map (fun e => tokens_of (snd e)) lines /\
    (forall id, (id < length m.(clusters))%nat <-> exists ts, Some (id, ts) ∈ log) /\
    m.(live) = live_count m.(clusters) /\ m.(live) = Z.min MAX_CLUSTERS (len m.(clusters)) /\
    (forall id dead, alive m id -> m.(clusters) !! dead = Some None -> last_use dead log < last_use id log) /\
    m.(skipped) = len (List.filter is_none log) /\
    len ps <= m.(live) /\ NoDup (map fst ps) /\
    forall p b, reported p b ps = len (List.filter (went m p b) (zip lines log)).
Proof.
  intros Hb log. destruct (run_recorded s st lines Hb) as (m & ps & E & Ef & Ht & Hr & Hnd & Hl & Hc). fold log in Ht, Hr, Hc. exists m, ps.
  pose proof (tr_sound _ _ _ Ht) as [S1 _ _]. split_and!; [done|done| | |done|apply Hr| |apply Ht|lia|done|done].
  - by apply (log_tokens lines log m).
  - intros id. rewrite <- visited_log. apply Hr.
  - intros id dead [c Hid]. by apply (re_order _ _ Hr id c).
Qed.




Definition sample_lines : list (Z * bytes) :=
  [(1, str "GET /a 200 ok"); (2, str "GET /b 200 ok"); (12, str "GET /c 200 ok"); (13, str "x")].

Lemma miner_exact_witness : exists m ps, run (Miner_new 0 10) sample_lines = Ok m /\ finish m = Ok ps /\
  map (option_map fst) (placements (Miner_new 0 10) sample_lines) = [Some 0%nat; Some 0%nat; Some 0%nat; None] /\
  reported (str "GET <_> 200 ok") 0 ps = 2 /\ reported (str "GET <_> 200 ok") 10 ps = 1.
Proof.
  destruct (miner_exact 0 10 sample_lines ltac:(vm_compute; congruence)) as (m & ps & E & Ef & _).
  exists m, ps. vm_compute in E. injection E as <-. vm_compute in Ef. injection Ef as <-. split_and!; vm_compute; reflexivity.
Defined.


(** ** Two limits of the report *)

Definition mined (lines : list bytes) : res unit (list (bytes * Z)) :=
  let? m := run (Miner_new 0 10) (map (fun l => (0, l)) lines) in
  let? ps := finish m in
  Ok (map (fun p => (fst p, total_of (snd p))) ps).

(** The rows are sorted before equal renderings are added up, so a merged
    pattern can come after one with fewer lines. *)
Theorem report_not_sorted : mined (replicate 3 (str "other thing here") ++ replicate 2 (str "<_> job done") ++ [str "1 job done"; str "2 job done"]) =
  Ok [(str "other thing here", 3); (str "<_> job done", 4)].
Proof. vm_compute. reflexivity. Qed.

Lemma globs_literal p l : Forall (fun x => x <> 60) p -> globs p l -> l = p.
Proof.
  intros Hp H. induction H as [|x p l H IH|t p l Ht H IH]; [done| |].
  - apply Forall_cons_1 in Hp as [_ Hp]. by rewrite (IH Hp).
  - apply Forall_cons_1 in Hp as [Hp _]. done.
Qed.

(** A template keeps one space for any run of whitespace, and the spacing of
    its first line: a line spaced otherwise is reported under a pattern that
    does not match it. *)
Theorem pattern_misses_line : mined [str "job  done"] = Ok [(str "job done", 1)] /\ ~ globs (str "job done") (str "job  done") /\
  mined [str "level=info done"; str "level = info done"] = Ok [(str "level=info done", 2)] /\ ~ globs (str "level=info done") (str "level = info done").
Proof.
  assert (G : forall p l, Forall (fun x => x <> 60) p -> l <> p -> ~ globs p l).
  { intros p l Hp Hne Hg. apply Hne. by apply (globs_literal p l). }
  split_and!; [vm_compute; reflexivity| |vm_compute; reflexivity|].
  - apply G; [repeat (constructor; [done|]); constructor|done].
  - apply G; [repeat (constructor; [done|]); constructor|done].
Qed.
