(* ===== verification/QueryFilter.v ===== *)
(** Query-time filters (query_filter.rs): label matchers over the resource
    column and line filters over the body column, both stored as JSON text by
    the term encoder. A position [i] of the source is the suffix [input[i..]].
    Compiled regular expressions and substring searchers are parameters. *)

From S2P Require Import Prelude Utf8 External Float64 Out JsonWrite JsonRead JsonText TermJson.

Definition Regex : Type := bytes -> bool.

Inductive MatchOp : Type := Eq_ | Neq | Re | Nre.

Inductive Matcher : Type :=
| Literal (name : bytes) (op : MatchOp) (value : bytes)
| MRegex (name : bytes) (op : MatchOp) (regex : Regex).

Definition name (m : Matcher) : bytes := match m with Literal n _ _ | MRegex n _ _ => n end.

Definition evaluate_present (m : Matcher) (value : bytes) : bool :=
  match m with
  | Literal _ Eq_ v => bytes_eqb value v
  | Literal _ Neq v => negb (bytes_eqb value v)
  | MRegex _ Re regex => regex value
  | MRegex _ Nre regex => negb (regex value)
  | Literal _ Re _ | Literal _ Nre _ | MRegex _ Eq_ _ | MRegex _ Neq _ => false
  end.

Definition evaluate_absent (m : Matcher) : bool :=
  match m with
  | Literal _ Eq_ v => bool_decide (v = [])
  | Literal _ Neq v => negb (bool_decide (v = []))
  | MRegex _ Re regex => regex []
  | MRegex _ Nre regex => negb (regex [])
  | _ => false
  end.

Inductive LineFilterOp : Type := Contains | NotContains | MatchRe | NotMatchRe.

(** [finder] is [find(body).is_some()]. *)
Inductive LineFilter : Type :=
| Substring (op : LineFilterOp) (finder : bytes -> bool)
| LRegex (op : LineFilterOp) (regex : Regex).

Definition matches (f : LineFilter) (body : bytes) : bool :=
  match f with
  | Substring Contains finder => finder body
  | Substring NotContains finder => negb (finder body)
  | LRegex MatchRe regex => regex body
  | LRegex NotMatchRe regex => negb (regex body)
  | Substring MatchRe _ | Substring NotMatchRe _ | LRegex Contains _ | LRegex NotContains _ => false
  end.

(** * Strings *)

(** The contents of a string up to its closing quote, and the rest from it. *)
Fixpoint string_end (l : bytes) : option (bytes * bytes) :=
  match l with
  | [] => None
  | c :: l' =>
      if c =? 34 then Some ([], l)
      else if c =? 92 then
        match l' with
        | [] => None
        | e :: l'' => let* (s, r) := string_end l'' in Some (c :: e :: s, r)
        end
      else let* (s, r) := string_end l' in Some (c :: s, r)
  end.

Definition has_escapes (b : bytes) : bool := existsb (Z.eqb 92) b.

Definition hex_digit (b : Z) : option Z :=
  if (48 <=? b) && (b <=? 57) then Some (b - 48)
  else if (97 <=? b) && (b <=? 102) then Some (b - 97 + 10)
  else if (65 <=? b) && (b <=? 70) then Some (b - 65 + 10)
  else None.

Definition decode_unicode_escape (hex : bytes) : option Z :=
  fold_left (fun cp b => let* cp := cp in let* d := hex_digit b in Some (Z.lor (Z.shiftl cp 4) d)) hex (Some 0).

Definition push_utf8 (cp : Z) : bytes :=
  if cp <=? 0x7F then [cp]
  else if cp <=? 0x7FF then [Z.lor 0xC0 (Z.shiftr cp 6); Z.lor 0x80 (Z.land cp 0x3F)]
  else if cp <=? 0xFFFF then
    [Z.lor 0xE0 (Z.shiftr cp 12); Z.lor 0x80 (Z.land (Z.shiftr cp 6) 0x3F); Z.lor 0x80 (Z.land cp 0x3F)]
  else [0xEF; 0xBF; 0xBD].

(** The escapes of one letter. *)
Definition simple_escape (e : Z) : option Z :=
  if e =? 110 then Some 10 else if e =? 116 then Some 9 else if e =? 114 then Some 13
  else if e =? 98 then Some 8 else if e =? 102 then Some 12 else if e =? 34 then Some 34
  else if e =? 92 then Some 92 else if e =? 47 then Some 47 else None.

Fixpoint unescape_json_string (l : bytes) : bytes :=
  match l with
  | [] => []
  | c :: l' =>
      if c =? 92 then
        match l' with
        | [] => [c]
        | e :: l'' =>
            match simple_escape e with
            | Some x => x :: unescape_json_string l''
            | None =>
                if e =? 117 then
                  match l'' with
                  | h1 :: h2 :: h3 :: h4 :: rest =>
                      match decode_unicode_escape [h1; h2; h3; h4] with
                      | Some cp => push_utf8 cp
                      | None => [c; e; h1; h2; h3; h4]
                      end ++ unescape_json_string rest
                  | _ => 92 :: e :: unescape_json_string l''
                  end
                else 92 :: e :: unescape_json_string l''
            end
        end
      else c :: unescape_json_string l'
  end.

Definition decoded (raw : bytes) : Cow :=
  if has_escapes raw then Owned (unescape_json_string raw) else Borrowed raw.

Definition line_bytes_for_match (b : bytes) : Cow :=
  if (2 <=? len b) && bool_decide (get b 0 = Some 34) && bool_decide (get b (len b - 1) = Some 34) then
    let inner := slice b 1 (len b - 1) in
    if has_escapes inner then Owned (unescape_json_string inner) else Borrowed inner
  else Borrowed b.

(** * Objects *)

Definition is_space (c : Z) : bool := (c =? 32) || (c =? 9) || (c =? 10) || (c =? 13).
Fixpoint skip_while (f : Z -> bool) (l : bytes) : bytes :=
  match l with
  | c :: l' => if f c then skip_while f l' else l
  | [] => []
  end.

(** [char::is_whitespace] of a byte read as a character. *)
Definition char_is_whitespace (c : Z) : bool := ((9 <=? c) && (c <=? 13)) || (c =? 32) || (c =? 0x85) || (c =? 0xA0).

Definition is_ascii_alphabetic (c : Z) : bool := ((65 <=? c) && (c <=? 90)) || ((97 <=? c) && (c <=? 122)).
Definition in_number (c : Z) : bool :=
  is_digit c || (c =? 46) || (c =? 101) || (c =? 69) || (c =? 43) || (c =? 45).

(** The loop over a nested value; [quoted] is the inner loop over a string. *)
Fixpoint skip_nested (opener closer : Z) (l : bytes) (depth : Z) (quoted : bool) : option bytes :=
  match l with
  | [] => None
  | c :: l' =>
      if quoted then
        if c =? 34 then skip_nested opener closer l' depth false
        else if c =? 92 then
          match l' with
          | [] => None
          | _ :: l'' => skip_nested opener closer l'' depth true
          end
        else skip_nested opener closer l' depth true
      else if c =? 34 then skip_nested opener closer l' depth true
      else if c =? opener then skip_nested opener closer l' (depth + 1) false
      else if c =? closer then
        if depth - 1 =? 0 then Some l' else skip_nested opener closer l' (depth - 1) false
      else skip_nested opener closer l' depth false
  end.

Definition skip_value (l : bytes) : option bytes :=
  match l with
  | [] => None
  | c :: l' =>
      if c =? 123 then skip_nested 123 125 l' 1 false
      else if c =? 91 then skip_nested 91 93 l' 1 false
      else if (c =? 116) || (c =? 102) || (c =? 110) then Some (skip_while is_ascii_alphabetic l)
      else if (c =? 45) || is_digit c then Some (skip_while in_number l)
      else None
  end.

(** The visitor threads its state and says whether to go on; a turn reads a
    key, so the length is enough fuel. *)
Fixpoint walk_loop {A} (fuel : nat) (strict : bool) (visit : A -> bytes -> bytes -> A * bool) (acc : A) (l : bytes) : opt A :=
  match fuel with
  | O => Fuel
  | S fuel =>
      match skip_while (fun c => is_space c || (c =? 44)) l with
      | [] => Nothing
      | c :: l =>
          if c =? 125 then Ok acc
          else if negb (c =? 34) then Nothing
          else
            let? (key, l) := ok_or (string_end l) tt in
            match skip_while is_space (drop 1 l) with
            | [] => Nothing
            | c :: l =>
                if negb (c =? 58) then Nothing
                else
                  match skip_while is_space l with
                  | [] => Nothing
                  | c :: l' =>
                      if c =? 34 then
                        let? (value, l) := ok_or (string_end l') tt in
                        let '(acc, more) := visit acc key value in
                        if more then walk_loop fuel strict visit acc (drop 1 l) else Ok acc
                      else if strict then Nothing
                      else let? l := ok_or (skip_value (c :: l')) tt in walk_loop fuel strict visit acc l
                  end
            end
      end
  end.

Definition walk_string_pairs {A} (input : bytes) (strict : bool) (visit : A -> bytes -> bytes -> A * bool) (acc : A) : opt A :=
  match skip_while char_is_whitespace input with
  | [] => Nothing
  | c :: l => if c =? 123 then walk_loop (S (length input)) strict visit acc l else Nothing
  end.

(** [None] is [Err tt], whether the label or the object is missing. *)
Definition find_label (input key : bytes) : opt Cow :=
  let? found := walk_string_pairs input false (fun found name value =>
    if bytes_eqb (cow_bytes (decoded name)) key then (Some (decoded value), false) else (found, true)) None in
  ok_or found tt.

Definition push_pair (pairs : list (Cow * Cow)) (name value : bytes) : list (Cow * Cow) * bool :=
  (pairs ++ [(decoded name, decoded value)], true).
Definition string_pairs (input : bytes) : opt (list (Cow * Cow)) := walk_string_pairs input false push_pair [].
Definition strict_string_pairs (input : bytes) : opt (list (Cow * Cow)) := walk_string_pairs input true push_pair [].

(** * Rows

    The filters of segment_parquet.rs and log_metric.rs on the columns of one
    row; a null column is [None]. *)

Record LogRow : Type := mkLogRow { resource : option bytes; service : option bytes; severity_text : option bytes; body : option bytes }.

Definition resource_lookup (resource : option bytes) (name : bytes) : opt Cow :=
  match resource with
  | None | Some [] => Nothing
  | Some r => find_label r name
  end.

Definition lookup_eval (found : opt Cow) (m : Matcher) : opt bool :=
  match found with
  | Ok v => Ok (evaluate_present m (cow_bytes v))
  | Err _ => Ok (evaluate_absent m)
  | Fuel => Fuel
  end.

Definition promoted_or_resource (name : bytes) (promoted resource : option bytes) (m : Matcher) : opt bool :=
  match promoted with
  | None | Some [] => lookup_eval (resource_lookup resource name) m
  | Some v => Ok (evaluate_present m v)
  end.

Definition is_service (n : bytes) : bool := bytes_eqb n (str "service") || bytes_eqb n (str "service_name").
Definition is_level (n : bytes) : bool := bytes_eqb n (str "level") || bytes_eqb n (str "detected_level").

Fixpoint matchers_pass (ms : list Matcher) (r : LogRow) : opt bool :=
  match ms with
  | [] => Ok true
  | m :: ms =>
      let n := name m in
      let? kept :=
        (if is_service n then promoted_or_resource n r.(service) r.(resource) m
         else if is_level n then promoted_or_resource n r.(severity_text) r.(resource) m
         else lookup_eval (resource_lookup r.(resource) n) m) in
      if negb kept then Ok false else matchers_pass ms r
  end.

Definition line_filters_pass (filters : list LineFilter) (r : LogRow) : bool :=
  match r.(body) with
  | None | Some [] => forallb (fun f => matches f []) filters
  | Some raw => forallb (fun f => matches f (cow_bytes (line_bytes_for_match raw))) filters
  end.

(** The selection of a log metric scan. *)
Record Selection : Type := mkSelection { wanted_service : option bytes; matchers : list Matcher }.

Definition present (v : option bytes) : option bytes := match v with Some [] => None | v => v end.

Fixpoint all_selected (ms : list Matcher) (resource : bytes) (service level : option bytes) : opt bool :=
  match ms with
  | [] => Ok true
  | m :: ms =>
      let promoted := if is_service (name m) then present service else if is_level (name m) then present level else None in
      let? kept :=
        match promoted with
        | Some v => Ok (evaluate_present m v)
        | None => if bool_decide (resource = []) then Ok (evaluate_absent m) else lookup_eval (find_label resource (name m)) m
        end in
      if kept then all_selected ms resource service level else Ok false
  end.

Definition selected (s : Selection) (resource : bytes) (service level : option bytes) : opt bool :=
  if match s.(wanted_service) with Some w => negb (bool_decide (service = Some w)) | None => false end then Ok false
  else all_selected s.(matchers) resource service level.

(** * Strings that were written *)

Definition escaped (s : bytes) : bytes := concat (map escape_byte s).

Lemma escape_cases c : 0 <= c -> (plain c = true /\ escape_byte c = [c]) \/
  (c ∈ special /\ exists e, escape_byte c = 92 :: e).
Proof.
  intros Hc. destruct (plain c) eqn:E; [left; split; [done|by apply escape_byte_plain]|]. right.
  pose proof (special_spec c Hc E) as Hs. split; [done|]. by apply special_ascii.
Qed.

Lemma escaped_cons c s : escaped (c :: s) = escape_byte c ++ escaped s.
Proof. done. Qed.

Lemma special_forall (P : Z -> Prop) : Forall P special -> forall c, c ∈ special -> P c.
Proof. intros H. by apply list.Forall_forall. Qed.

Lemma unescape_byte c r : 0 <= c -> unescape_json_string (escape_byte c ++ r) = c :: unescape_json_string r.
Proof.
  intros Hc. destruct (escape_cases c Hc) as [[Hp ->]|[Hs _]].
  - cbn [app unescape_json_string]. unfold plain, QUOTE, BACKSLASH in Hp. bools. by replace (c =? 92) with false by (symmetry; lia).
  - clear Hc. revert c Hs. apply special_forall. repeat (constructor; [reflexivity|]). constructor.
Qed.

Lemma unescape_escaped s : Forall (fun c => 0 <= c) s -> unescape_json_string (escaped s) = s.
Proof.
  induction 1 as [|c s Hc Hs IH]; [done|]. rewrite escaped_cons, unescape_byte, IH by done. done.
Qed.

Lemma string_end_byte c r : 0 <= c -> string_end (escape_byte c ++ r) =
  let* (s, r) := string_end r in Some (escape_byte c ++ s, r).
Proof.
  intros Hc. destruct (escape_cases c Hc) as [[Hp ->]|[Hs _]].
  - cbn [app string_end]. unfold plain, QUOTE, BACKSLASH in Hp. bools. replace (c =? 92) with false by (symmetry; lia).
    by replace (c =? 34) with false by (symmetry; lia).
  - clear Hc. revert c Hs. apply special_forall. let x := eval vm_compute in special in change special with x.
    repeat (constructor; [cbn; by destruct (string_end r) as [[? ?]|]|]). constructor.
Qed.

Lemma string_end_escaped s r : Forall (fun c => 0 <= c) s -> string_end (escaped s ++ 34 :: r) = Some (escaped s, 34 :: r).
Proof.
  induction 1 as [|c s Hc Hs IH]; [done|]. rewrite escaped_cons, <- app_assoc, string_end_byte, IH by done. done.
Qed.

Lemma unescape_plain raw : has_escapes raw = false -> unescape_json_string raw = raw.
Proof.
  induction raw as [|c raw IH]; [done|]. unfold has_escapes. cbn [existsb]. intros E. apply orb_false_iff in E as [E1 E2].
  cbn [unescape_json_string]. rewrite Z.eqb_sym, E1. by rewrite IH.
Qed.

Lemma decoded_bytes raw : cow_bytes (decoded raw) = unescape_json_string raw.
Proof. unfold decoded. destruct (has_escapes raw) eqn:E; [done|]. cbn. by rewrite unescape_plain. Qed.

Lemma decoded_escaped s : Forall (fun c => 0 <= c) s -> cow_bytes (decoded (escaped s)) = s.
Proof. intros Hs. by rewrite decoded_bytes, unescape_escaped. Qed.

(** A string body is matched as the text it spells. *)
Lemma line_of_string s : Forall (fun c => 0 <= c) s -> cow_bytes (line_bytes_for_match (json_string s)) = s.
Proof.
  intros Hs. unfold json_string, QUOTE. fold (escaped s). cbn [app]. set (b := 34 :: escaped s ++ [34]). unfold line_bytes_for_match.
  assert (Hl : len b = len (escaped s) + 2) by (subst b; rewrite len_cons, len_app, len_cons, len_nil; lia).
  pose proof (len_nonneg (escaped s)). replace (2 <=? len b) with true by (symmetry; lia).
  assert (H0 : get b 0 = Some 34) by (unfold get; by replace (0 <? len b) with true by (symmetry; lia)).
  assert (H1 : get b (len b - 1) = Some 34).
  { rewrite Hl. replace (len (escaped s) + 2 - 1) with (len (34 :: escaped s)) by (rewrite len_cons; lia). apply (get_app_mid (34 :: escaped s)). }
  rewrite H0, H1, !bool_decide_eq_true_2 by done. cbn [andb].
  assert (Hi : slice b 1 (len b - 1) = escaped s).
  { rewrite Hl. replace (len (escaped s) + 2 - 1) with (len [34] + len (escaped s)) by (change (len [34]) with 1; lia). apply (slice_app_mid [34] (escaped s) [34]). }
  rewrite Hi. cbv zeta. fold (decoded (escaped s)). by apply decoded_escaped.
Qed.

(** * Values that were written *)

Section Written.
Context `{SimdUtf8} `{Itoa} `{Ryu} `{AtomNames}.

Definition bracket (o c : Z) : Prop := o = 123 /\ c = 125 \/ o = 91 /\ c = 93.

Lemma nested_byte o c x r d : 0 <= x -> skip_nested o c (escape_byte x ++ r) d true = skip_nested o c r d true.
Proof.
  intros Hx. destruct (escape_cases x Hx) as [[Hp ->]|[Hs _]].
  - cbn [app skip_nested]. unfold plain, QUOTE, BACKSLASH in Hp. bools. replace (x =? 34) with false by (symmetry; lia).
    by replace (x =? 92) with false by (symmetry; lia).
  - clear Hx. revert x Hs. apply special_forall. repeat (constructor; [reflexivity|]). constructor.
Qed.

Lemma nested_string o c s r d : Forall (fun x => 0 <= x) s -> bracket o c ->
  skip_nested o c (json_string s ++ r) d false = skip_nested o c r d false.
Proof.
  intros Hs Hb. unfold json_string, QUOTE. fold (escaped s). rewrite <- !app_assoc. cbn [app]. change (skip_nested o c (34 :: escaped s ++ 34 :: r) d false) with (skip_nested o c (escaped s ++ 34 :: r) d true).
  induction Hs as [|x s Hx Hs IH]; [done|]. by rewrite escaped_cons, <- app_assoc, nested_byte.
Qed.

(** Bytes that are neither quotes nor brackets. *)
Definition inert (x : Z) : bool := negb (existsb (Z.eqb x) [34; 91; 93; 123; 125]).

Lemma nested_inert o c x r d : bracket o c -> Forall (fun x => inert x = true) x ->
  skip_nested o c (x ++ r) d false = skip_nested o c r d false.
Proof.
  intros Hb. induction 1 as [|y x Hy Hx IH]; [done|]. cbn [app skip_nested]. unfold inert in Hy. cbn [existsb] in Hy. bools.
  replace (y =? 34) with false by (symmetry; lia). destruct Hb as [[-> ->]|[-> ->]].
  - replace (y =? 123) with false by (symmetry; lia). replace (y =? 125) with false by (symmetry; lia). done.
  - replace (y =? 91) with false by (symmetry; lia). replace (y =? 93) with false by (symmetry; lia). done.
Qed.

Lemma digits_in_number ds : Forall (fun c => is_digit c = true) ds -> Forall (fun c => in_number c = true) ds.
Proof. intros Hd. eapply Forall_impl; [|exact Hd]. cbn. intros c Hc. unfold in_number. by rewrite Hc. Qed.

Lemma decimal_in_number n : Forall (fun c => in_number c = true) (decimal_Z n).
Proof.
  unfold decimal_Z. destruct (Z.ltb_spec n 0); [constructor; [done|]|];
    apply digits_in_number, decimal_int_text; lia.
Qed.

Lemma float_in_number text bits : float_text text bits -> Forall (fun c => in_number c = true) text.
Proof.
  intros (neg & ip & fp & ep & -> & Hi & Hf & He & _). rewrite !Forall_app. split_and!.
  - destruct neg; by repeat constructor.
  - destruct Hi as [->|(x & ds & -> & Hx & Hd)]; [by repeat constructor|]. constructor; [|by apply digits_in_number].
    unfold in_number, is_digit. by replace ((48 <=? x) && (x <=? 57)) with true by (symmetry; lia).
  - destruct Hf as [->|(ds & -> & _ & Hd)]; [constructor|]. constructor; [done|by apply digits_in_number].
  - destruct He as [->|(e & sg & ds & -> & Hee & Hsg & _ & Hd)]; [constructor|].
    constructor; [by destruct Hee as [->| ->]|]. apply Forall_app. split; [|by apply digits_in_number].
    destruct Hsg as [->|[->| ->]]; by repeat constructor.
Qed.

Lemma in_number_inert x : in_number x = true -> inert x = true.
Proof.
  unfold in_number, inert, is_digit. cbn [existsb]. intros Hx. destruct (negb _) eqn:E; [done|]. bools. lia.
Qed.

Lemma number_text_inert x : Forall (fun c => in_number c = true) x -> Forall (fun c => inert c = true) x.
Proof. intros Hx. eapply Forall_impl; [|exact Hx]. apply in_number_inert. Qed.

(** The string a value spells, when it is a string. *)
Definition label_text (t : Term) : option bytes :=
  match t with
  | Binary b => Some b
  | Atom a => if bool_decide (a = NIL) || bool_decide (a = TRUE) || bool_decide (a = FALSE) then None
              else Some (default [] (atom_to_string a))
  | _ => None
  end.

Lemma label_text_ok d t s : encodable d t = true -> label_text t = Some s -> json_text t = json_string s /\ Forall (fun c => 0 <= c) s.
Proof.
  destruct t as [b|n|f|a|l| |l|l|]; cbn [encodable label_text json_text]; try done.
  - intros E [= <-]. bools. split; [done|by apply utf8_nonneg].
  - intros E. destruct (bool_decide (a = NIL)); [done|]. destruct (bool_decide (a = TRUE)); [done|]. destruct (bool_decide (a = FALSE)); [done|].
    cbn [orb]. intros [= <-]. split; [done|]. destruct (atom_to_string a) as [s|] eqn:Ea; [|constructor]. cbn. by apply utf8_nonneg, (atom_to_string_utf8 a).
Qed.

Definition scanned (t : Term) : Prop := forall d o c depth r, encodable d t = true -> ryu_spells t -> bracket o c -> 0 < depth ->
  skip_nested o c (json_text t ++ r) depth false = skip_nested o c r depth false.

Lemma scanned_joined (l : list bytes) o c depth : bracket o c ->
  Forall (fun x => forall r, skip_nested o c (x ++ r) depth false = skip_nested o c r depth false) l ->
  forall r i, skip_nested o c (joined i l ++ r) depth false = skip_nested o c r depth false.
Proof.
  intros Hb. induction 1 as [|x l Hx Hl IH]; intros r i; [done|]. cbn [joined]. rewrite <- !app_assoc.
  destruct (0 <? i)%nat; [|cbn [app]; by rewrite Hx, IH]. rewrite (nested_inert o c [44]) by (done || by repeat constructor). by rewrite Hx, IH.
Qed.

(** The brackets around a sequence leave the depth as it was. *)
Lemma scanned_wrap o c o' c' x depth r : bracket o c -> bracket o' c' -> 0 < depth ->
  (forall depth r, 0 < depth -> skip_nested o c (x ++ r) depth false = skip_nested o c r depth false) ->
  skip_nested o c ([o'] ++ x ++ [c'] ++ r) depth false = skip_nested o c r depth false.
Proof.
  intros Hb Hb' Hd Hx. cbn [app skip_nested]. destruct Hb as [[-> ->]|[-> ->]], Hb' as [[-> ->]|[-> ->]]; cbn [Z.eqb Pos.eqb].
  - rewrite Hx by lia. cbn [skip_nested Z.eqb Pos.eqb]. replace (depth + 1 - 1) with depth by lia. by replace (depth =? 0) with false by (symmetry; lia).
  - by rewrite Hx by lia.
  - by rewrite Hx by lia.
  - rewrite Hx by lia. cbn [skip_nested Z.eqb Pos.eqb]. replace (depth + 1 - 1) with depth by lia. by replace (depth =? 0) with false by (symmetry; lia).
Qed.

Lemma literal_inert a : bool_decide (a = NIL) || bool_decide (a = TRUE) || bool_decide (a = FALSE) = true ->
  Forall (fun c => is_ascii_alphabetic c = true /\ inert c = true) (json_text (Atom a)).
Proof.
  cbn [json_text]. destruct (bool_decide (a = NIL)); [intros _; by repeat constructor|]. destruct (bool_decide (a = TRUE)); [intros _; by repeat constructor|].
  destruct (bool_decide (a = FALSE)); [intros _; by repeat constructor|done].
Qed.

Lemma scanned_items l d o c depth r : Forall scanned l -> forallb (encodable d) l = true -> ryu_spells (List l) -> bracket o c -> 0 < depth ->
  skip_nested o c (joined 0 (map json_text l) ++ r) depth false = skip_nested o c r depth false.
Proof.
  intros IH He Hr Hb Hd. apply scanned_joined; [done|]. apply Forall_map. revert He Hr.
  induction IH as [|x l Hx Hl IHl]; intros He Hr; [constructor|]. cbn [forallb] in He. bools.
  apply ryu_spells_List in Hr as [Hr1 Hr2]. constructor; [|by apply IHl]. intros r0. by eapply Hx.
Qed.

Lemma scanned_entries l d o c depth r : Forall (fun e => scanned (snd e)) l -> forallb (fun e => key_ok (fst e)) l = true ->
  forallb (fun e => encodable d (snd e)) l = true -> ryu_spells (Map l) -> bracket o c -> 0 < depth ->
  skip_nested o c (joined 0 (map (fun e => member (key_text (fst e), json_text (snd e))) l) ++ r) depth false = skip_nested o c r depth false.
Proof.
  intros IH Hk He Hr Hb Hd. apply scanned_joined; [done|]. apply Forall_map. revert Hk He Hr.
  induction IH as [|[k v] l Hx Hl IHl]; intros Hk He Hr; [constructor|]. cbn [forallb fst snd] in *. bools.
  apply ryu_spells_Map in Hr as [Hr1 Hr2]. constructor; [|by apply IHl]. intros r0. unfold member. cbn [fst snd]. rewrite <- !app_assoc.
  rewrite nested_string; [|by apply utf8_nonneg, key_text_utf8|done]. rewrite (nested_inert o c [58]) by (done || by repeat constructor). by eapply Hx.
Qed.

Lemma keys_ok_each l : keys_ok l = true -> forallb (fun e => key_ok (fst e)) l = true.
Proof. unfold keys_ok. intros Hk. by bools. Qed.

Lemma scan_text t : scanned t.
Proof.
  induction t as [b|n|f|a|l IH| |l IH|l IH|] using Term_nested_ind; intros d o c depth r He Hr Hb Hd; cbn [encodable] in He;
    apply andb_true_iff in He as [_ He]; try discriminate He.
  - by apply nested_string, Hb; apply utf8_nonneg.
  - by apply nested_inert, number_text_inert, decimal_in_number.
  - apply Forall_cons_1 in Hr as [Hr _]. by eapply nested_inert, number_text_inert, float_in_number.
  - destruct (label_text (Atom a)) as [s|] eqn:El.
    + destruct (label_text_ok 0 (Atom a) s) as [-> Hs]; [cbn [encodable]; by rewrite He|done|]. by apply nested_string.
    + cbn [label_text] in El. destruct (_ || _) eqn:Eb in El; [|done]. apply nested_inert; [done|].
      eapply Forall_impl; [|by apply literal_inert]. by intros x [_ ?].
  - cbn [json_text]. rewrite <- !app_assoc. apply scanned_wrap; [done|by right|done|]. intros depth' r' Hd'. by eapply scanned_items.
  - cbn [json_text]. rewrite <- !app_assoc. apply andb_true_iff in He as [Hk He]. apply scanned_wrap; [done|by left|done|]. intros depth' r' Hd'.
    eapply scanned_entries; [|by apply keys_ok_each|done..]. eapply Forall_impl; [|exact IH]. by intros e [_ ?].
Qed.

Lemma skip_while_app f x r : Forall (fun c => f c = true) x -> (forall c r', r = c :: r' -> f c = false) -> skip_while f (x ++ r) = r.
Proof.
  intros Hx Hr. induction Hx as [|y x Hy Hx IH]; cbn [app skip_while]; [|by rewrite Hy].
  destruct r as [|c r]; [done|]. cbn [skip_while]. by rewrite (Hr c r eq_refl).
Qed.

(** The text of a value that is not a string starts so that it is skipped, and
    is skipped up to the comma or brace after it. *)
Lemma skip_text d t c r : encodable d t = true -> ryu_spells t -> label_text t = None -> c = 44 \/ c = 125 ->
  skip_value (json_text t ++ c :: r) = Some (c :: r) /\ exists h y, json_text t = h :: y /\ h <> 34 /\ is_space h = false.
Proof.
  intros He Hr Hl Hc. assert (Hnum : forall x, number_head x -> Forall (fun c => in_number c = true) x ->
    skip_value (x ++ c :: r) = Some (c :: r) /\ exists h y, x = h :: y /\ h <> 34 /\ is_space h = false).
  { intros x (h & y & -> & Hh) Hx. split.
    - cbn [app skip_value]. change (h :: y ++ c :: r) with ((h :: y) ++ c :: r). rewrite (skip_while_app in_number); [|done|intros c' r' [= <- <-]; by destruct Hc as [->| ->]].
      replace (h =? 123) with false by (symmetry; lia). replace (h =? 91) with false by (symmetry; lia).
      replace ((h =? 116) || (h =? 102) || (h =? 110)) with false by (symmetry; lia). unfold is_digit. by replace ((h =? 45) || ((48 <=? h) && (h <=? 57))) with true by (symmetry; lia).
    - exists h, y. split_and!; [done|lia|unfold is_space; lia]. }
  destruct t as [b|n|f|a|l| |l|l|]; cbn [encodable] in He; apply andb_true_iff in He as [Hd He]; try discriminate He; try discriminate Hl.
  - apply Hnum; [apply decimal_Z_head|apply decimal_in_number].
  - apply Forall_cons_1 in Hr as [Hr _]. apply Hnum; [by eapply float_text_head|by eapply float_in_number].
  - cbn [label_text] in Hl. destruct (_ || _) eqn:Eb in Hl; [|done]. pose proof (literal_inert a Eb) as Hx. split.
    + assert (Hs : skip_while is_ascii_alphabetic (json_text (Atom a) ++ c :: r) = c :: r).
      { apply skip_while_app; [eapply Forall_impl; [|exact Hx]; by intros x [? _]|]. intros c' r' [= <- <-]. by destruct Hc as [->| ->]. }
      revert Hs. cbn [json_text]. destruct (bool_decide (a = NIL)); [intros Hs; unfold skip_value; cbn [app] in *; by rewrite Hs|].
      destruct (bool_decide (a = TRUE)); [intros Hs; unfold skip_value; cbn [app] in *; by rewrite Hs|].
      destruct (bool_decide (a = FALSE)); [intros Hs; unfold skip_value; cbn [app] in *; by rewrite Hs|done].
    + cbn [json_text]. destruct (bool_decide (a = NIL)); [by do 2 eexists|]. destruct (bool_decide (a = TRUE)); [by do 2 eexists|].
      destruct (bool_decide (a = FALSE)); [by do 2 eexists|done].
  - split; [|by do 2 eexists]. cbn [json_text]. rewrite <- !app_assoc. cbn [app skip_value Z.eqb Pos.eqb].
    erewrite scanned_items; [done|apply list.Forall_forall; intros x _; apply scan_text|done|done|by right|lia].
  - split; [|by do 2 eexists]. cbn [json_text]. rewrite <- !app_assoc. cbn [app skip_value Z.eqb Pos.eqb]. apply andb_true_iff in He as [Hk He].
    erewrite scanned_entries; [done|apply list.Forall_forall; intros x _; apply scan_text|by apply keys_ok_each|done|done|by left|lia].
Qed.

(** What a visitor sees of the entries of a map. *)
Fixpoint visited {A} (strict : bool) (visit : A -> bytes -> bytes -> A * bool) (acc : A) (l : list (Term * Term)) : opt A :=
  match l with
  | [] => Ok acc
  | (k, v) :: l =>
      match label_text v with
      | Some s =>
          let '(acc, more) := visit acc (escaped (key_text k)) (escaped s) in
          if more then visited strict visit acc l else Ok acc
      | None => if strict then Nothing else visited strict visit acc l
      end
  end.

Definition writable (d : Z) (l : list (Term * Term)) : Prop :=
  forallb (fun e => key_ok (fst e)) l = true /\ forallb (fun e => encodable d (snd e)) l = true /\ ryu_spells (Map l).

Lemma json_string_eq s r : json_string s ++ r = 34 :: escaped s ++ 34 :: r.
Proof. unfold json_string, QUOTE. fold (escaped s). rewrite <- !app_assoc. done. Qed.

Lemma joined_next l r : exists c r', joined 1 l ++ 125 :: r = c :: r' /\ (c = 44 \/ c = 125).
Proof. destruct l as [|x l]; [by exists 125, r; split; [|right]|]. rewrite joined_1_cons. do 2 eexists. split; [done|by left]. Qed.

(** One turn of the walk reads one entry. *)
Lemma walk_entry {A} fuel strict (visit : A -> bytes -> bytes -> A * bool) acc k v d rest c r : key_ok k = true -> encodable d v = true -> ryu_spells v ->
  rest = c :: r -> c = 44 \/ c = 125 -> forall i : nat,
  walk_loop (S fuel) strict visit acc ((if (0 <? i)%nat then [44] else []) ++ member (key_text k, json_text v) ++ rest) =
  match label_text v with
  | Some s => let '(acc, more) := visit acc (escaped (key_text k)) (escaped s) in if more then walk_loop fuel strict visit acc rest else Ok acc
  | None => if strict then Nothing else walk_loop fuel strict visit acc rest
  end.
Proof.
  intros Hk He Hr Erest Hc i. unfold member. cbn [fst snd]. rewrite <- !app_assoc, json_string_eq. cbn [walk_loop].
  set (l := 34 :: _). assert (E0 : skip_while (fun c => is_space c || (c =? 44)) ((if (0 <? i)%nat then [44] else []) ++ l) = l) by by destruct (0 <? i)%nat.
  rewrite E0. subst l. cbn [Z.eqb Pos.eqb negb]. rewrite string_end_escaped by (by apply utf8_nonneg, key_text_utf8). cbn [ok_or drop app skip_while is_space Z.eqb Pos.eqb orb].
  destruct (label_text v) as [s|] eqn:El.
  - destruct (label_text_ok d v s He El) as [-> Hs]. rewrite json_string_eq. cbn [skip_while is_space Z.eqb Pos.eqb orb]. rewrite string_end_escaped by done. done.
  - destruct (skip_text d v c r He Hr El Hc) as (Hskip & h & y & Ej & Hh & Hsp). rewrite <- Erest in Hskip. rewrite Ej in *. cbn [app skip_while] in *. rewrite Hsp.
    replace (h =? 34) with false by (symmetry; lia). destruct strict; [done|]. change (h :: y ++ rest) with ((h :: y) ++ rest) in Hskip.
    cbn [app] in Hskip. by rewrite Hskip.
Qed.

Lemma walk_entries {A} fuel strict (visit : A -> bytes -> bytes -> A * bool) l d : writable d l -> (length l < fuel)%nat -> forall acc i r,
  walk_loop fuel strict visit acc (joined i (map (fun e => member (key_text (fst e), json_text (snd e))) l) ++ 125 :: r) = visited strict visit acc l.
Proof.
  revert fuel. induction l as [|[k v] l IH]; intros fuel (Hk & He & Hr) Hf acc i r; (destruct fuel as [|fuel]; [cbn in Hf; lia|]); [done|].
  cbn [map joined fst snd forallb length] in *. bools. apply ryu_spells_Map in Hr as [Hr1 Hr2]. rewrite <- !app_assoc, (Nat.add_comm i), joined_S.
  destruct (joined_next (map (fun e : Term * Term => member (key_text (fst e), json_text (snd e))) l) r) as (c & r' & E & Hc).
  rewrite (walk_entry fuel strict visit acc k v d _ c r') by done. cbn [visited].
  assert (IH' : forall acc, walk_loop fuel strict visit acc (joined 1 (map (fun e => member (key_text (fst e), json_text (snd e))) l) ++ 125 :: r) = visited strict visit acc l).
  { intros acc'. apply IH; [by split_and!|lia]. }
  destruct (label_text v) as [s|]; [|destruct strict; [done|apply IH']]. destruct (visit acc _ _) as [acc' []]; [apply IH'|done].
Qed.

Lemma joined_length {B} (f : B -> bytes) l i : (forall x, f x <> []) -> (length l <= length (joined i (map f l)))%nat.
Proof.
  intros Hf. revert i. induction l as [|x l IH]; intros i; [cbn; lia|]. cbn [map joined length]. rewrite !length_app.
  specialize (IH (i + 1)%nat). specialize (Hf x). destruct (f x); [done|]. cbn [length]. lia.
Qed.

(** Walking a written map visits its string entries in order. *)
Lemma walk_written {A} strict (visit : A -> bytes -> bytes -> A * bool) acc l d : writable d l ->
  walk_string_pairs (json_text (Map l)) strict visit acc = visited strict visit acc l.
Proof.
  intros Hw. unfold walk_string_pairs. cbn [json_text app skip_while]. change (char_is_whitespace 123) with false. cbv iota. change (123 =? 123) with true. cbv iota.
  apply (walk_entries _ _ _ _ d Hw). cbn [length]. rewrite length_app.
  pose proof (joined_length (fun e : Term * Term => member (key_text (fst e), json_text (snd e))) l 0). cbn [length].
  assert (forall x : Term * Term, member (key_text (fst x), json_text (snd x)) <> []) by (intros x; unfold member, json_string; done). intuition lia.
Qed.

(** The string a map holds under a key. *)
Fixpoint label_lookup (key : bytes) (l : list (Term * Term)) : option bytes :=
  match l with
  | [] => None
  | (k, v) :: l =>
      match label_text v with
      | Some s => if bytes_eqb (key_text k) key then Some s else label_lookup key l
      | None => label_lookup key l
      end
  end.

Definition cow_eq (r : opt Cow) (o : option bytes) : Prop :=
  match r, o with
  | Ok c, Some s => cow_bytes c = s
  | Err _, None => True
  | _, _ => False
  end.

Lemma find_label_written key l d : writable d l -> cow_eq (find_label (json_text (Map l)) key) (label_lookup key l).
Proof.
  intros Hw. unfold find_label. rewrite (walk_written _ _ _ _ d Hw). destruct Hw as (Hk & He & Hr). clear Hr.
  induction l as [|[k v] l IH]; [done|]. cbn [visited label_lookup forallb fst snd] in *. bools. destruct (label_text v) as [s|] eqn:El; [|by apply IH].
  rewrite decoded_escaped by (by apply utf8_nonneg, key_text_utf8). destruct (bytes_eqb (key_text k) key); [|by apply IH].
  cbn. by apply decoded_escaped, (label_text_ok d v s).
Qed.

Definition pair_bytes (e : Cow * Cow) : bytes * bytes := (cow_bytes (fst e), cow_bytes (snd e)).

(** The string entries of a map. *)
Fixpoint label_pairs (l : list (Term * Term)) : list (bytes * bytes) :=
  match l with
  | [] => []
  | (k, v) :: l => match label_text v with Some s => (key_text k, s) :: label_pairs l | None => label_pairs l end
  end.

Definition all_labels (l : list (Term * Term)) : bool := forallb (fun e => bool_decide (is_Some (label_text (snd e)))) l.

Lemma visited_pairs strict l d acc : writable d l -> if strict && negb (all_labels l) then visited strict push_pair acc l = Nothing
  else exists out, visited strict push_pair acc l = Ok (acc ++ out) /\ map pair_bytes out = label_pairs l.
Proof.
  intros (Hk & He & _). revert acc. induction l as [|[k v] l IH]; intros acc; cbn [visited label_pairs].
  { destruct strict; exists []; by rewrite app_nil_r. }
  cbn [all_labels forallb fst snd] in *. bools. specialize (IH ltac:(done) ltac:(done)). fold (all_labels l). destruct (label_text v) as [s|] eqn:El.
  - rewrite bool_decide_eq_true_2 by done. cbn [andb]. set (e := (decoded (escaped (key_text k)), decoded (escaped s))).
    change (push_pair acc (escaped (key_text k)) (escaped s)) with (acc ++ [e], true). cbv iota beta. specialize (IH (acc ++ [e])).
    destruct (strict && negb (all_labels l)) eqn:Es; [by destruct strict|]. destruct IH as (out & Eo & Hm). exists (e :: out).
    split; [by rewrite Eo, <- app_assoc|]. cbn [map]. rewrite Hm. f_equal. subst e. unfold pair_bytes. cbn [fst snd].
    rewrite !decoded_escaped; [done|by apply (label_text_ok d v s)|by apply utf8_nonneg, key_text_utf8].
  - rewrite bool_decide_eq_false_2 by (by intros [? ?]). destruct strict; [done|]. cbn [andb negb]. apply IH.
Qed.

Lemma absent_is_empty m : evaluate_absent m = evaluate_present m [].
Proof. destruct m as [n [] v|n [] re]; cbn; try done; unfold bytes_eqb; [|f_equal]; apply bool_decide_ext; split; congruence. Qed.

Lemma lookup_eval_written key l d m : writable d l ->
  lookup_eval (find_label (json_text (Map l)) key) m = Ok (evaluate_present m (default [] (label_lookup key l))).
Proof.
  intros Hw. pose proof (find_label_written key l d Hw) as E. unfold lookup_eval. destruct (find_label _ _) as [c|e|], (label_lookup key l) as [s|]; try done.
  - cbn in E. by rewrite E.
  - by rewrite absent_is_empty.
Qed.

(** The label a matcher is about: the typed column when it is set, else the
    string of the resource, else empty. *)
Definition label_of (service level : option bytes) (l : list (Term * Term)) (n : bytes) : bytes :=
  match (if is_service n then present service else if is_level n then present level else None) with
  | Some v => v
  | None => default [] (label_lookup n l)
  end.

Lemma matchers_written ms l d svc lvl line : writable d l ->
  matchers_pass ms (mkLogRow (Some (json_text (Map l))) svc lvl line) = Ok (forallb (fun m => evaluate_present m (label_of svc lvl l (name m))) ms) /\
  selected (mkSelection None ms) (json_text (Map l)) svc lvl = Ok (forallb (fun m => evaluate_present m (label_of svc lvl l (name m))) ms).
Proof.
  intros Hw. assert (Hne : json_text (Map l) <> []) by done. unfold selected. cbn [wanted_service matchers].
  assert (Hlook : forall n m, lookup_eval (resource_lookup (Some (json_text (Map l))) n) m = Ok (evaluate_present m (default [] (label_lookup n l)))).
  { intros n m. rewrite <- (lookup_eval_written n l d m Hw). unfold resource_lookup. by destruct (json_text (Map l)). }
  assert (Hpr : forall n p m, promoted_or_resource n p (Some (json_text (Map l))) m =
    Ok (evaluate_present m (match present p with Some v => v | None => default [] (label_lookup n l) end))).
  { intros n [[|x p]|] m; cbn [promoted_or_resource present]; [apply Hlook|done|apply Hlook]. }
  induction ms as [|m ms [IH1 IH2]]; [done|]. cbn [matchers_pass all_selected forallb resource service severity_text].
  rewrite bool_decide_eq_false_2, (lookup_eval_written _ l d m Hw) by done. rewrite !Hpr, Hlook. set (e := evaluate_present m (label_of svc lvl l (name m))).
  assert (E1 : (if is_service (name m) then Ok (evaluate_present m (match present svc with Some v => v | None => default [] (label_lookup (name m) l) end))
    else if is_level (name m) then Ok (evaluate_present m (match present lvl with Some v => v | None => default [] (label_lookup (name m) l) end))
    else Ok (evaluate_present m (default [] (label_lookup (name m) l)))) = @Ok unit bool e).
  { subst e. unfold label_of. destruct (is_service (name m)); [done|]. by destruct (is_level (name m)). }
  assert (E2 : match (if is_service (name m) then present svc else if is_level (name m) then present lvl else None) with
    | Some v => Ok (evaluate_present m v) | None => Ok (evaluate_present m (default [] (label_lookup (name m) l))) end = @Ok unit bool e).
  { subst e. unfold label_of. destruct (is_service (name m)); [by destruct (present svc)|]. destruct (is_level (name m)); [by destruct (present lvl)|done]. }
  rewrite E1, E2. destruct e; cbn [negb andb]; [by split|done].
Qed.

(** C14. The filters decide a stored row by what was written. The resource
    column holds a map and the body a string, both written by the term
    encoder: a row passes the label matchers exactly when each holds of the
    typed column of its name, else of the map's string under that name, else
    of the empty string, in the segment reader and in the metric scan alike;
    the line filters see the body's own text; and the pair readers return the
    string entries, the strict one only when there are no others. *)
Theorem row_filters_exact (budget d d' : Z) (l : list (Term * Term)) (s text line : bytes) (svc lvl : option bytes)
    (ms : list Matcher) (fs : list LineFilter) :
  JsonEncoder.value budget [] (Map l) d = Ok text -> ryu_spells (Map l) -> JsonEncoder.value budget [] (Binary s) d' = Ok line ->
  let row := mkLogRow (Some text) svc lvl (Some line) in
  let wanted := forallb (fun m => evaluate_present m (label_of svc lvl l (name m))) ms in
  matchers_pass ms row = Ok wanted /\ selected (mkSelection None ms) text svc lvl = Ok wanted /\
  line_filters_pass fs row = forallb (fun f => matches f s) fs /\
  (exists out, string_pairs text = Ok out /\ map pair_bytes out = label_pairs l) /\
  (if all_labels l then exists out, strict_string_pairs text = Ok out /\ map pair_bytes out = label_pairs l else strict_string_pairs text = Nothing).
Proof.
  intros E1 Hr E2 row wanted. apply encode_sound in E1 as (Ee & Et & _). apply encode_sound in E2 as (Es & El & _). subst row text line. cbn [app] in *.
  assert (Hw : writable (d + 1) l).
  { cbn [encodable] in Ee. bools. split_and!; [by apply keys_ok_each|done|done]. }
  destruct (matchers_written ms l (d + 1) svc lvl (Some (json_text (Binary s))) Hw) as [M1 M2]. split_and!; [done|done| | |].
  - unfold line_filters_pass. cbn [body json_text]. rewrite line_of_string by (cbn [encodable] in Es; bools; by apply utf8_nonneg). done.
  - unfold string_pairs. rewrite (walk_written _ _ _ _ (d + 1) Hw). apply (visited_pairs false l (d + 1) [] Hw).
  - unfold strict_string_pairs. rewrite (walk_written _ _ _ _ (d + 1) Hw). pose proof (visited_pairs true l (d + 1) [] Hw) as Hp. by destruct (all_labels l).
Qed.
End Written.

(** The escape of half a surrogate pair, as JSON spells characters beyond the
    basic plane, decodes to bytes that are not UTF-8. *)
Theorem surrogate_not_utf8 : let body := [34; 92; 117; 100; 56; 51; 100; 34] in
  cow_bytes (line_bytes_for_match body) = [0xED; 0xA0; 0xBD] /\ from_utf8_ok (cow_bytes (line_bytes_for_match body)) = false.
Proof. split; reflexivity. Qed.

Section Witness.
Import Concrete.

#[local] Program Instance atom_names : AtomNames :=
  {| atom_to_string := fun a => if from_utf8_ok a then Some a else None |}.
Next Obligation. simpl. intros a s. destruct (from_utf8_ok a) eqn:E; [|done]. by intros [= <-]. Qed.

(** A resource with a nested value, an escaped string and an atom key. *)
Definition sample_resource : list (Term * Term) :=
  [(Binary (str "n"), List [Integer 1; Map [(Binary (str "env"), Binary (str "x"))]]);
   (Binary (str "env"), Binary [112; 34; 100]); (Atom (str "service"), Binary (str "api"))].

Lemma row_filters_exact_witness : exists text line,
  matchers_pass [Literal (str "env") Eq_ [112; 34; 100]; Literal (str "service_name") Neq (str "web"); Literal (str "zone") Eq_ []]
    (mkLogRow (Some text) (Some (str "api")) None (Some line)) = Ok true /\
  line_filters_pass [Substring Contains (fun b => bytes_eqb b [104; 10])] (mkLogRow (Some text) (Some (str "api")) None (Some line)) = true.
Proof.
  exists (json_text (Map sample_resource)), (json_text (Binary [104; 10])).
  destruct (row_filters_exact 1000 1 1 sample_resource [104; 10] (json_text (Map sample_resource)) (json_text (Binary [104; 10])) (Some (str "api")) None
    [Literal (str "env") Eq_ [112; 34; 100]; Literal (str "service_name") Neq (str "web"); Literal (str "zone") Eq_ []]
    [Substring Contains (fun b => bytes_eqb b [104; 10])]) as (M & _ & L & _).
  - vm_compute. reflexivity.
  - constructor.
  - vm_compute. reflexivity.
  - split; [etransitivity; [exact M|]; vm_compute; reflexivity|]. etransitivity; [exact L|]. vm_compute. reflexivity.
Defined.
End Witness.
