(* ===== verification/LogTiers.v ===== *)
(** Stream-grouped log segments (log_tiers.rs): the [Grouper] that splits the
    rows of stored segments by service or stream and hands them out again in
    larger segments, and the summaries of an output. An Arrow batch is what
    the module asks of it: its rows and the size of its string data; taking
    rows of a batch and encoding batches are parameters. *)

From S2P Require Import Prelude OrdMap External.

(** A row: a null timestamp or service is [None], a null resource reads as the
    empty string, the other columns are carried along. *)
Record Row : Type := mkRow { timestamp_ns : option Z; service : option bytes; resource : bytes; cells : bytes }.

Record RecordBatch : Type := mkBatch { batch_rows : list Row; value_data : Z }.

Definition num_rows (b : RecordBatch) : Z := len b.(batch_rows).
Definition string_bytes (b : RecordBatch) : Z := b.(value_data).

Inductive CompactError : Type := Invalid.
Abbreviation Res A := (res CompactError A).

(** [take_record_batch] keeps the rows of the indices, in their order;
    [encode_sorted] writes a segment. *)
Class Arrow : Type := {
  take_record_batch : RecordBatch -> list Z -> option RecordBatch;
  take_rows : forall b idx p, take_record_batch b idx = Some p -> map Some p.(batch_rows) = map (get b.(batch_rows)) idx;
  take_data : forall b idx p, take_record_batch b idx = Some p -> 0 <= p.(value_data);
  encode_sorted : list RecordBatch -> Z -> Res bytes
}.

Abbreviation GroupKey := (option bytes * option bytes)%type.
Abbreviation StreamKey := (option bytes * bytes)%type.

Record Group : Type := mkGroup { batches : list RecordBatch; rows : Z; bytes_ : Z }.
Definition Group_default : Group := mkGroup [] 0 0.

Record Grouper : Type := mkGrouper {
  groups : omap GroupKey Group;
  held : Z;
  target_rows : Z;
  target_bytes : Z;
  pack_bytes : Z;
  max_held : Z
}.

Record Output : Type := mkOutput {
  payload : bytes;
  min_ts : Z;
  max_ts : Z;
  out_rows : Z;
  services : option (list bytes);
  streams : option (list StreamKey);
  minutes : option (list (Z * Z))
}.

Definition MAX_STREAMS : Z := 4096.
Definition MAX_MINUTES : Z := 2 * 1440.
Definition MINUTE_NS : Z := 60000000000.

Definition Grouper_new (target_rows target_bytes pack_bytes max_held : Z) : Grouper :=
  mkGrouper [] 0 target_rows target_bytes (Z.min pack_bytes target_bytes) max_held.

(** * Adding *)

Definition group_key (r : Row) : GroupKey :=
  match r.(service) with
  | Some name => if bool_decide (name = []) then (None, Some r.(resource)) else (Some name, None)
  | None => (None, Some r.(resource))
  end.

(** The indices of the rows of each group. The order of a [HashMap] is not
    fixed; the groups are listed as they first appear. *)
Fixpoint push_index (key : GroupKey) (row : Z) (m : list (GroupKey * list Z)) : list (GroupKey * list Z) :=
  match m with
  | [] => [(key, [row])]
  | (k, idx) :: m => if bool_decide (k = key) then (k, idx ++ [row]) :: m else (k, idx) :: push_index key row m
  end.

(** [u32::try_from(row)] fails past the range of [u32]. *)
Fixpoint index_rows (l : list Row) (row : Z) (m : list (GroupKey * list Z)) : Res (list (GroupKey * list Z)) :=
  match l with
  | [] => Ok m
  | r :: l =>
      let? row32 := ok_or (checked_u32 row) Invalid in
      index_rows l (row + 1) (push_index (group_key r) row32 m)
  end.

Section Grouping.
Context `{Arrow}.

Definition add_part (g : Grouper) (key : GroupKey) (part : RecordBatch) : Grouper :=
  let size := string_bytes part in
  let group := default Group_default (find key g.(groups)) in
  mkGrouper (put key (mkGroup (group.(batches) ++ [part]) (group.(rows) + num_rows part) (group.(bytes_) + size)) g.(groups))
    (g.(held) + size) g.(target_rows) g.(target_bytes) g.(pack_bytes) g.(max_held).

(** A failure leaves what was added before it. *)
Fixpoint add_parts (g : Grouper) (batch : RecordBatch) (l : list (GroupKey * list Z)) : Grouper * Res unit :=
  match l with
  | [] => (g, Ok tt)
  | (key, idx) :: l =>
      match (if len idx =? num_rows batch then Some batch else take_record_batch batch idx) with
      | Some part => add_parts (add_part g key part) batch l
      | None => (g, Err Invalid)
      end
  end.

Definition add_batch (g : Grouper) (batch : RecordBatch) : Grouper * Res unit :=
  match index_rows batch.(batch_rows) 0 [] with
  | Ok indices => add_parts g batch indices
  | Err e => (g, Err e)
  | Fuel => (g, Fuel)
  end.

(** The batches of a stored segment, each of which may fail to decode. *)
Fixpoint add_batches (g : Grouper) (l : list (Res RecordBatch)) (n : Z) : Grouper * Res Z :=
  match l with
  | [] => (g, Ok n)
  | Ok batch :: l =>
      match add_batch g batch with
      | (g, Ok _) => add_batches g l (n + num_rows batch)
      | (g, Err e) => (g, Err e)
      | (g, Fuel) => (g, Fuel)
      end
  | Err e :: _ => (g, Err e)
  | Fuel :: _ => (g, Fuel)
  end.

Definition add (g : Grouper) (segment_batches : Res (list (Res RecordBatch))) : Grouper * Res Z :=
  match segment_batches with
  | Ok l => add_batches g l 0
  | Err e => (g, Err e)
  | Fuel => (g, Fuel)
  end.

(** * Taking *)

Definition remove_group (g : Grouper) (key : GroupKey) : Group * Grouper :=
  let group := default Group_default (find key g.(groups)) in
  (group, mkGrouper (remove key g.(groups)) (g.(held) - group.(bytes_)) g.(target_rows) g.(target_bytes) g.(pack_bytes) g.(max_held)).

(** How many batches make a chunk, with their rows and bytes. *)
Fixpoint chunk (target_rows target_bytes : Z) (l : list RecordBatch) (rows bytes count : Z) : Z * Z * Z :=
  match l with
  | [] => (rows, bytes, count)
  | batch :: l =>
      let size := string_bytes batch in
      if (0 <? count) && ((target_rows <? rows + num_rows batch) || (target_bytes <? bytes + size)) then (rows, bytes, count)
      else chunk target_rows target_bytes l (rows + num_rows batch) (bytes + size) (count + 1)
  end.

Definition take_chunk (g : Grouper) (key : GroupKey) : list RecordBatch * Grouper :=
  match find key g.(groups) with
  | None => ([], g)
  | Some group =>
      let '(r, b, count) := chunk g.(target_rows) g.(target_bytes) group.(batches) 0 0 0 in
      let taken := take (Z.to_nat count) group.(batches) in
      let rest := drop (Z.to_nat count) group.(batches) in
      let gs := match rest with
                | [] => remove key g.(groups)
                | _ => put key (mkGroup rest (group.(rows) - r) (group.(bytes_) - b)) g.(groups)
                end in
      (taken, mkGrouper gs (g.(held) - b) g.(target_rows) g.(target_bytes) g.(pack_bytes) g.(max_held))
  end.

Definition is_full (g : Grouper) (e : GroupKey * Group) : bool :=
  (g.(target_rows) <=? (snd e).(rows)) || (g.(target_bytes) <=? (snd e).(bytes_)).

Fixpoint find_first {A} (f : A -> bool) (l : list A) : option A :=
  match l with
  | [] => None
  | x :: l => if f x then Some x else find_first f l
  end.

(** [max_by_key] keeps the last of equal elements. *)
Fixpoint largest (l : list (GroupKey * Group)) (best : option (GroupKey * Group)) : option (GroupKey * Group) :=
  match l with
  | [] => best
  | e :: l =>
      largest l match best with
                | Some b => if (snd e).(bytes_) <? (snd b).(bytes_) then best else Some e
                | None => Some e
                end
  end.

(** Whole groups in order while they fit one pack. *)
Fixpoint pack_keys (g : Grouper) (l : list (GroupKey * Group)) (rows_ bytes : Z) (keys : list GroupKey) : list GroupKey :=
  match l with
  | [] => keys
  | (key, group) :: l =>
      if negb (bool_decide (keys = [])) && ((g.(target_rows) <? rows_ + group.(rows)) || (g.(pack_bytes) <? bytes + group.(bytes_)))
      then keys
      else pack_keys g l (rows_ + group.(rows)) (bytes + group.(bytes_)) (keys ++ [key])
  end.

Fixpoint remove_all (g : Grouper) (keys : list GroupKey) (acc : list RecordBatch) : list RecordBatch * Grouper :=
  match keys with
  | [] => (acc, g)
  | key :: keys => let '(group, g) := remove_group g key in remove_all g keys (acc ++ group.(batches))
  end.

(** * Summaries *)

(** The minute bucket ending at or after [ts]; the arithmetic is in [i128]. *)
Definition minute (ts : Z) : Z :=
  let bucket := (ts - 1) / MINUTE_NS + 1 in
  match checked_i64 bucket with Some b => b | None => I64_MAX end.

Record Summary : Type := mkSummary {
  s_min : Z;
  s_max : Z;
  s_rows : Z;
  s_services : option (omap bytes unit);
  s_streams : option (omap StreamKey unit);
  s_minutes : option (omap Z Z)
}.

Definition Summary_new : Summary := mkSummary I64_MAX I64_MIN 0 (Some []) (Some []) (Some []).

Definition summarize (s : Summary) (r : Row) : Summary :=
  let value := default 0 r.(timestamp_ns) in
  mkSummary (Z.min s.(s_min) value) (Z.max s.(s_max) value) (s.(s_rows) + 1)
    (let* set := s.(s_services) in
     let* name := r.(service) in
     if negb (bool_decide (name = [])) && (len name <=? 256) then
       let set := put name tt set in if len set <=? 128 then Some set else None
     else None)
    (let* set := s.(s_streams) in
     let set := put (r.(service), r.(resource)) tt set in if len set <=? MAX_STREAMS then Some set else None)
    (let* counts := s.(s_minutes) in
     let* ts := r.(timestamp_ns) in
     let counts := update (minute ts) 0 (fun n => wrap_u64 (n + 1)) counts in
     if len counts <=? MAX_MINUTES then Some counts else None).

Definition rows_of (l : list RecordBatch) : list Row := concat (map batch_rows l).

Definition encode (l : list RecordBatch) : Res Output :=
  let s := fold_left summarize (rows_of l) Summary_new in
  let '(lo, hi) := if s.(s_rows) =? 0 then (0, 0) else (s.(s_min), s.(s_max)) in
  let? payload := encode_sorted l s.(s_rows) in
  Ok (mkOutput payload lo hi s.(s_rows) (option_map keys s.(s_services)) (option_map keys s.(s_streams)) s.(s_minutes)).

(** The batches of the next output, if one is due. *)
Definition next_batches (g : Grouper) (finish : bool) : option (list RecordBatch) * Grouper :=
  match find_first (is_full g) g.(groups) with
  | Some (key, _) => let '(l, g) := take_chunk g key in (Some l, g)
  | None =>
      if bool_decide (g.(groups) = []) || negb (finish || (g.(max_held) <? g.(held))) then (None, g)
      else
        let big := if finish then None
                   else match largest g.(groups) None with
                        | Some e => if g.(target_bytes) / 4 <=? (snd e).(bytes_) then Some (fst e) else None
                        | None => None
                        end in
        match big with
        | Some key => let '(group, g) := remove_group g key in (Some group.(batches), g)
        | None => let '(l, g) := remove_all g (pack_keys g g.(groups) 0 0 []) [] in (Some l, g)
        end
  end.

Definition next (g : Grouper) (finish : bool) : Grouper * Res (option Output) :=
  match next_batches g finish with
  | (None, g) => (g, Ok None)
  | (Some l, g) => (g, let? o := encode l in Ok (Some o))
  end.
End Grouping.

(** * Rows by key *)

Definition of_key (k : GroupKey) (l : list Row) : list Row := List.filter (fun r => bool_decide (group_key r = k)) l.

Lemma of_key_app k a b : of_key k (a ++ b) = of_key k a ++ of_key k b.
Proof. apply List.filter_app. Qed.

Lemma of_key_skip k k' l : k <> k' -> of_key k (List.filter (fun r => negb (bool_decide (group_key r = k'))) l) = of_key k l.
Proof.
  intros Hne. unfold of_key. induction l as [|r l IH]; [done|]. cbn [List.filter]. destruct (decide (group_key r = k')) as [E|E].
  - rewrite (bool_decide_eq_true_2 (group_key r = k')), (bool_decide_eq_false_2 (group_key r = k)) by congruence. cbn [negb]. apply IH.
  - rewrite (bool_decide_eq_false_2 (group_key r = k')) by done. cbn [negb List.filter]. by rewrite IH.
Qed.

Lemma filter_partition {A} (f : A -> bool) l : List.filter f l ++ List.filter (fun x => negb (f x)) l ≡ₚ l.
Proof.
  induction l as [|x l IH]; [done|]. cbn [List.filter]. destruct (f x); cbn [negb app]; [by rewrite IH|].
  rewrite <- Permutation_middle. by rewrite IH.
Qed.

(** Distinct keys that cover the rows partition them. *)
Lemma partition_rows ks l : NoDup ks -> (forall r, r ∈ l -> group_key r ∈ ks) -> concat (map (fun k => of_key k l) ks) ≡ₚ l.
Proof.
  intros Hnd. revert l. induction Hnd as [|k ks Hk Hnd IH]; intros l Hl; cbn [map concat].
  { destruct l as [|r l]; [done|]. specialize (Hl r (list_elem_of_here _ _)). by apply not_elem_of_nil in Hl. }
  set (rest := List.filter (fun r => negb (bool_decide (group_key r = k))) l).
  assert (E : map (fun k => of_key k l) ks = map (fun k => of_key k rest) ks).
  { apply map_ext_in. intros k' Hin. symmetry. apply of_key_skip. intros ->. apply Hk. by apply list_elem_of_In. }
  rewrite E, IH; [apply filter_partition|]. intros r Hr. apply list_elem_of_In, filter_In in Hr as [Hr Hne]. bools.
  apply list_elem_of_In, Hl in Hr. apply elem_of_cons in Hr as [Hr|Hr]; [|done]. by rewrite bool_decide_eq_true_2 in Hne.
Qed.

(** What the index of a batch holds after the rows [pre]. *)
Record indexed (all pre : list Row) (m : list (GroupKey * list Z)) : Prop := {
  ix_nodup : NoDup (map fst m);
  ix_rows : forall k idx, (k, idx) ∈ m -> map (get all) idx = map Some (of_key k pre);
  ix_keys : forall r, r ∈ pre -> group_key r ∈ map fst m
}.

Lemma push_index_keys key row m : map fst (push_index key row m) = if bool_decide (key ∈ map fst m) then map fst m else map fst m ++ [key].
Proof.
  induction m as [|[k idx] m IH]; [by rewrite bool_decide_eq_false_2 by apply not_elem_of_nil|]. cbn [push_index map fst].
  destruct (decide (k = key)) as [->|Hne]; [rewrite !bool_decide_eq_true_2 by (done || apply list_elem_of_here); done|].
  rewrite (bool_decide_eq_false_2 (k = key)) by done. cbn [map fst]. rewrite IH.
  destruct (decide (key ∈ map fst m)) as [Hin|Hin]; [rewrite !bool_decide_eq_true_2 by (done || by apply list_elem_of_further); done|].
  rewrite !bool_decide_eq_false_2; [done|intros [?|?]%elem_of_cons; [congruence|done]|done].
Qed.

Lemma push_index_in key row m k idx : NoDup (map fst m) -> (k, idx) ∈ push_index key row m ->
  (k <> key /\ (k, idx) ∈ m) \/ (k = key /\ exists old, idx = old ++ [row] /\ ((k, old) ∈ m \/ old = [] /\ k ∉ map fst m)).
Proof.
  induction m as [|[k' idx'] m IH]; intros Hnd Hin; cbn [push_index] in Hin.
  { apply list_elem_of_singleton in Hin as [= -> ->]. right. split; [done|]. exists []. split; [done|]. right. split; [done|]. apply not_elem_of_nil. }
  cbn [map fst] in Hnd. apply list.NoDup_cons in Hnd as [Hn Hnd].
  destruct (decide (k' = key)) as [->|Hne].
  - rewrite bool_decide_eq_true_2 in Hin by done. apply elem_of_cons in Hin as [[= -> ->]|Hin].
    + right. split; [done|]. exists idx'. split; [done|]. left. apply list_elem_of_here.
    + left. split; [|by apply list_elem_of_further]. intros ->. apply Hn. apply list_elem_of_In, in_map_iff. exists (key, idx). split; [done|by apply list_elem_of_In].
  - rewrite bool_decide_eq_false_2 in Hin by done. apply elem_of_cons in Hin as [[= -> ->]|Hin].
    + left. split; [done|]. apply list_elem_of_here.
    + destruct (IH Hnd Hin) as [[H1 H2]|(-> & old & -> & [H2|[-> H2]])].
      * left. split; [done|by apply list_elem_of_further].
      * right. split; [done|]. exists old. split; [done|]. left. by apply list_elem_of_further.
      * right. split; [done|]. exists []. split; [done|]. right. split; [done|]. cbn [map fst]. intros [?|?]%elem_of_cons; congruence.
Qed.

Lemma index_rows_ok all pre l m r : all = pre ++ l -> indexed all pre m -> index_rows l (len pre) m = Ok r -> indexed all all r.
Proof.
  revert pre m. induction l as [|x l IH]; intros pre m Ea Hi E; cbn [index_rows] in E.
  { injection E as <-. rewrite app_nil_r in Ea. by subst. }
  unfold checked_u32 in E. destruct (_ && _); [|done]. cbn [ok_or] in E.
  replace (len pre + 1) with (len (pre ++ [x])) in E by (rewrite len_app, len_cons, len_nil; lia).
  apply (IH (pre ++ [x])) in E; [done|by rewrite <- app_assoc|].
  destruct Hi as [H1 H2 H3]. set (k := group_key x) in *. split.
  - rewrite push_index_keys. destruct (decide (k ∈ map fst m)) as [Hin|Hin]; [by rewrite bool_decide_eq_true_2|]. rewrite bool_decide_eq_false_2 by done.
    apply list.NoDup_app. split_and!; [done|intros y Hy ->%list_elem_of_singleton; done|apply NoDup_singleton].
  - intros k' idx Hin. rewrite of_key_app. unfold of_key at 2. cbn [List.filter]. fold k. apply push_index_in in Hin as [[Hne Hin]|(-> & old & -> & Hold)]; [| |done].
    + rewrite bool_decide_eq_false_2, app_nil_r by done. by apply H2.
    + rewrite bool_decide_eq_true_2, !map_app by done. f_equal.
      * destruct Hold as [Hin|[-> Hn]]; [by apply H2|]. symmetry. cbn. destruct (of_key k pre) as [|y ys] eqn:Ek; [done|]. exfalso. apply Hn.
        assert (Hy : y ∈ of_key k pre) by (rewrite Ek; apply list_elem_of_here). apply list_elem_of_In, filter_In in Hy as [Hy Hky].
        apply bool_decide_eq_true in Hky. rewrite <- Hky. apply H3. by apply list_elem_of_In.
      * cbn [map]. subst all. by rewrite get_app_mid.
  - intros y Hy. rewrite push_index_keys. apply elem_of_app in Hy as [Hy| ->%list_elem_of_singleton].
    + apply H3 in Hy. destruct (bool_decide _); [done|]. apply elem_of_app. by left.
    + destruct (decide (k ∈ map fst m)) as [Hin|Hin]; [by rewrite bool_decide_eq_true_2|]. rewrite bool_decide_eq_false_2 by done. apply elem_of_app. right. apply list_elem_of_here.
Qed.

(** * The invariant *)

Definition sumz (l : list Z) : Z := fold_right Z.add 0 l.
Definition total_rows (l : list RecordBatch) : Z := sumz (map num_rows l).
Definition total_bytes (l : list RecordBatch) : Z := sumz (map string_bytes l).

Lemma sumz_app a b : sumz (a ++ b) = sumz a + sumz b.
Proof. induction a as [|x a IH]; [done|]. cbn [app]. unfold sumz in *. cbn [fold_right]. lia. Qed.

Lemma total_rows_app a b : total_rows (a ++ b) = total_rows a + total_rows b.
Proof. unfold total_rows. by rewrite map_app, sumz_app. Qed.
Lemma total_bytes_app a b : total_bytes (a ++ b) = total_bytes a + total_bytes b.
Proof. unfold total_bytes. by rewrite map_app, sumz_app. Qed.

Lemma rows_of_app a b : rows_of (a ++ b) = rows_of a ++ rows_of b.
Proof. unfold rows_of. by rewrite map_app, concat_app. Qed.

(** A group accounts for its batches, all of them of its key. *)
Record group_ok (k : GroupKey) (g : Group) : Prop := {
  gk_some : g.(batches) <> [];
  gk_rows : g.(rows) = total_rows g.(batches);
  gk_bytes : g.(bytes_) = total_bytes g.(batches);
  gk_data : Forall (fun b => 0 <= b.(value_data)) g.(batches);
  gk_key : Forall (fun r => group_key r = k) (rows_of g.(batches))
}.

Record grouper_ok (g : Grouper) : Prop := {
  gr_ordered : ordered g.(groups);
  gr_held : g.(held) = msum (fun _ gr => gr.(bytes_)) g.(groups);
  gr_group : forall k gr, (k, gr) ∈ g.(groups) -> group_ok k gr
}.

Definition contents (m : omap GroupKey Group) : list Row := concat (map (fun e => rows_of (snd e).(batches)) m).
Definition rows_at (k : GroupKey) (m : omap GroupKey Group) : list Row := rows_of (default Group_default (find k m)).(batches).

Lemma contents_cons e m : contents (e :: m) = rows_of (snd e).(batches) ++ contents m.
Proof. done. Qed.

Lemma put_contents k v m : ordered m -> contents (put k v m) ++ rows_at k m ≡ₚ contents m ++ rows_of v.(batches).
Proof.
  induction m as [|[j w] m IH]; intros Ho; cbn [put]; [cbn; by rewrite !app_nil_r|]. unfold rows_at. cbn [find]. destruct (cmp j k) eqn:E.
  - cbn [default from_option]. rewrite !contents_cons. cbn [snd]. unfold id. solve_Permutation.
  - rewrite !contents_cons. cbn [snd]. specialize (IH (ordered_tail _ _ Ho)). unfold rows_at in IH. rewrite <- !app_assoc, IH. solve_Permutation.
  - assert (Hn : find k m = None) by (apply (find_below j w m k Ho); intros Eg; apply cmp_gt_lt in Eg; congruence).
    rewrite Hn. cbn [default from_option Group_default batches]. rewrite !contents_cons. cbn [snd rows_of map concat]. rewrite app_nil_r. solve_Permutation.
Qed.

Lemma remove_contents k m : contents (remove k m) ++ rows_at k m ≡ₚ contents m.
Proof.
  induction m as [|[j w] m IH]; cbn [remove]; [done|]. unfold rows_at in *. cbn [find]. destruct (cmp j k); rewrite ?contents_cons; cbn [default from_option snd].
  - unfold id. solve_Permutation.
  - by rewrite <- app_assoc, IH.
  - by rewrite <- app_assoc, IH.
Qed.

Section Conserve.
Context `{Arrow}.

Lemma add_part_ok g k p : grouper_ok g -> 0 <= p.(value_data) -> Forall (fun r => group_key r = k) p.(batch_rows) ->
  grouper_ok (add_part g k p) /\ contents (add_part g k p).(groups) ≡ₚ contents g.(groups) ++ p.(batch_rows).
Proof.
  intros [H1 H2 H3] Hd Hk. unfold add_part. cbn [groups]. set (old := default Group_default (find k (groups g))).
  set (new := mkGroup _ _ _). assert (Hold : batches old = [] /\ rows old = 0 /\ bytes_ old = 0 \/ group_ok k old).
  { subst old. destruct (find k (groups g)) as [gr|] eqn:E; [|by left]. right. apply find_in in E. by apply H3. }
  assert (Hb : rows_of (batches new) = rows_at k (groups g) ++ batch_rows p).
  { subst new. cbn [batches]. rewrite rows_of_app. unfold rows_at. fold old. f_equal. unfold rows_of. cbn. by rewrite app_nil_r. }
  split; [split; cbn [groups held]|].
  - by apply put_ordered.
  - rewrite msum_put by done. subst new. cbn [bytes_]. rewrite H2. subst old. destruct (find k (groups g)); cbn; lia.
  - intros k' gr Hin. apply put_in in Hin as [[= -> ->]|Hin]; [|by apply H3]. subst new. split; cbn [batches rows bytes_].
    + by destruct (batches old).
    + rewrite total_rows_app. change (total_rows [p]) with (num_rows p + 0). destruct Hold as [(-> & -> & _)|Ho]; [cbn; lia|]. rewrite (gk_rows _ _ Ho). lia.
    + rewrite total_bytes_app. change (total_bytes [p]) with (string_bytes p + 0). destruct Hold as [(-> & _ & ->)|Ho]; [cbn; lia|]. rewrite (gk_bytes _ _ Ho). lia.
    + apply Forall_app. split; [|by constructor]. destruct Hold as [(-> & _ & _)|Ho]; [constructor|apply Ho].
    + rewrite rows_of_app. apply Forall_app. split; [|unfold rows_of; cbn; by rewrite app_nil_r]. destruct Hold as [(-> & _ & _)|Ho]; [constructor|apply Ho].
  - pose proof (put_contents k new (groups g) H1) as Hp. rewrite Hb in Hp. apply (Permutation_app_inv_r (rows_at k (groups g))). rewrite Hp. solve_Permutation.
Qed.

Lemma get_some_map (all : list Row) idx l : map (get all) idx = map Some l -> len idx = len l.
Proof. intros E. apply (f_equal len) in E. by rewrite !len_map in E. Qed.

Lemma filter_full {A} (f : A -> bool) l : length (List.filter f l) = length l -> List.filter f l = l.
Proof.
  induction l as [|x l IH]; [done|]. cbn [List.filter]. destruct (f x); cbn [length]; [intros [= E]; by rewrite IH|].
  pose proof (List.filter_length_le f l). lia.
Qed.

Lemma map_some_inj (a b : list Row) : map Some a = map Some b -> a = b.
Proof. revert b. induction a as [|x a IH]; intros [|y b] E; try done. injection E as -> E. f_equal. by apply IH. Qed.

(** The part of a batch under a key. *)
Lemma part_ok b k idx p : 0 <= b.(value_data) -> map (get b.(batch_rows)) idx = map Some (of_key k b.(batch_rows)) ->
  (if len idx =? num_rows b then Some b else take_record_batch b idx) = Some p ->
  p.(batch_rows) = of_key k b.(batch_rows) /\ 0 <= p.(value_data).
Proof.
  intros Hd Hm E. destruct (len idx =? num_rows b) eqn:El.
  - injection E as <-. bools. split; [|done]. apply get_some_map in Hm. symmetry. apply filter_full.
    unfold num_rows, len in *. unfold of_key in Hm. lia.
  - split; [|by eapply take_data]. apply take_rows in E. rewrite Hm in E. by apply map_some_inj.
Qed.

Lemma of_key_all k l : Forall (fun r => group_key r = k) (of_key k l).
Proof. apply list.Forall_forall. intros r Hr. apply list_elem_of_In, filter_In in Hr as [_ Hr]. by apply bool_decide_eq_true in Hr. Qed.

Lemma add_parts_ok g b l g' : 0 <= b.(value_data) -> grouper_ok g ->
  Forall (fun e => map (get b.(batch_rows)) (snd e) = map Some (of_key (fst e) b.(batch_rows))) l -> add_parts g b l = (g', Ok tt) ->
  grouper_ok g' /\ contents g'.(groups) ≡ₚ contents g.(groups) ++ concat (map (fun k => of_key k b.(batch_rows)) (map fst l)).
Proof.
  intros Hd. revert g. induction l as [|[k idx] l IH]; intros g Hg Hl E; cbn [add_parts] in E.
  { injection E as <-. split; [done|]. cbn. by rewrite app_nil_r. }
  apply Forall_cons_1 in Hl as [Hk Hl]. cbn [fst snd] in Hk. destruct (if len idx =? num_rows b then _ else _) as [p|] eqn:Ep; [|done].
  destruct (part_ok b k idx p Hd Hk Ep) as [Hp Hdp]. destruct (add_part_ok g k p Hg Hdp) as [Hg1 Hc1]; [rewrite Hp; apply of_key_all|].
  destruct (IH _ Hg1 Hl E) as [Hg' Hc']. split; [done|]. rewrite Hc', Hc1, Hp. cbn [map concat fst]. solve_Permutation.
Qed.

(** Adding a batch adds its rows. *)
Lemma add_batch_ok g b g' : grouper_ok g -> 0 <= b.(value_data) -> add_batch g b = (g', Ok tt) ->
  grouper_ok g' /\ contents g'.(groups) ≡ₚ contents g.(groups) ++ b.(batch_rows).
Proof.
  intros Hg Hd E. unfold add_batch in E. destruct (index_rows _ _ _) as [m|e|] eqn:Em; [|done|done].
  apply (index_rows_ok b.(batch_rows) [] b.(batch_rows)) in Em; [|done|]; [|split; [constructor|intros k idx Hin; by apply not_elem_of_nil in Hin|intros r Hin; by apply not_elem_of_nil in Hin]].
  destruct Em as [I1 I2 I3]. destruct (add_parts_ok g b m g' Hd Hg) as [H1 H2]; [apply list.Forall_forall; intros [k idx] Hin; by apply I2|done|].
  split; [done|]. by rewrite H2, (partition_rows (map fst m)).
Qed.

(** The rows of a source that decodes. *)
Fixpoint source_rows (l : list (Res RecordBatch)) : list Row :=
  match l with
  | Ok b :: l => b.(batch_rows) ++ source_rows l
  | _ => []
  end.

Definition source_ok (r : Res RecordBatch) : Prop := match r with Ok b => 0 <= b.(value_data) | _ => True end.

Lemma add_batches_ok l g n g' n' : grouper_ok g -> Forall source_ok l -> add_batches g l n = (g', Ok n') ->
  grouper_ok g' /\ contents g'.(groups) ≡ₚ contents g.(groups) ++ source_rows l /\ n' = n + len (source_rows l).
Proof.
  intros Hg Hs. revert g n Hg. induction Hs as [|[b|e|] l Hb Hl IH]; intros g n Hg E; cbn [add_batches source_rows] in *; try done.
  { injection E as <- <-. split_and!; [done|by rewrite app_nil_r|len_lia]. }
  destruct (add_batch g b) as [g1 [[]|e|]] eqn:Eb; [|done|done]. destruct (add_batch_ok g b g1 Hg Hb Eb) as [Hg1 Hc1].
  destruct (IH g1 _ Hg1 E) as (Hg' & Hc' & ->). split_and!; [done|rewrite Hc', Hc1; solve_Permutation|rewrite len_app; unfold num_rows; lia].
Qed.
End Conserve.

(** * Taking conserves *)

Lemma sumz_cons x l : sumz (x :: l) = x + sumz l.
Proof. done. Qed.

Lemma chunk_spec tr tb l r b c r' b' c' : 0 <= c -> (1 < c -> r <= tr /\ b <= tb) -> chunk tr tb l r b c = (r', b', c') ->
  exists n, (n <= length l)%nat /\ c' = c + Z.of_nat n /\ r' = r + total_rows (take n l) /\ b' = b + total_bytes (take n l) /\
    (c = 0 -> l <> [] -> (0 < n)%nat) /\ (1 < c' -> r' <= tr /\ b' <= tb).
Proof.
  revert r b c. induction l as [|x l IH]; intros r b c Hc Hb E; cbn [chunk] in E.
  { injection E as <- <- <-. exists 0%nat. change (total_rows (take 0 [])) with 0. change (total_bytes (take 0 [])) with 0. split_and!; [done|lia|lia|lia|done|done]. }
  destruct ((0 <? c) && _) eqn:Eb.
  { injection E as <- <- <-. exists 0%nat. bools. change (total_rows (take 0 (x :: l))) with 0. change (total_bytes (take 0 (x :: l))) with 0.
    split_and!; [lia|lia|lia|lia|lia|done]. }
  apply IH in E as (n & Hn & -> & -> & -> & _ & Hbound); [|lia|].
  - exists (S n). cbn [length take]. unfold total_rows, total_bytes in *. cbn [map]. rewrite !sumz_cons. split_and!; [lia|lia|lia|lia|lia|].
    intros H1. destruct (Hbound ltac:(lia)). lia.
  - intros Hgt. apply andb_false_iff in Eb as [Eb|Eb]; bools; lia.
Qed.

(** The batches a grouper holds. *)
Definition nbatches (m : omap GroupKey Group) : Z := msum (fun _ g => len g.(batches)) m.

(** The groups after a step that handed out [l]. *)
Record handed (g : Grouper) (l : list RecordBatch) (g' : Grouper) : Prop := {
  hd_ok : grouper_ok g';
  hd_rows : contents g.(groups) ≡ₚ rows_of l ++ contents g'.(groups);
  hd_some : l <> [];
  hd_less : nbatches g'.(groups) < nbatches g.(groups);
  hd_same : (g'.(target_rows), g'.(target_bytes), g'.(pack_bytes), g'.(max_held)) = (g.(target_rows), g.(target_bytes), g.(pack_bytes), g.(max_held))
}.

Lemma total_bytes_split n l : total_bytes l = total_bytes (take n l) + total_bytes (drop n l).
Proof. by rewrite <- total_bytes_app, take_drop. Qed.
Lemma total_rows_split n l : total_rows l = total_rows (take n l) + total_rows (drop n l).
Proof. by rewrite <- total_rows_app, take_drop. Qed.
Lemma rows_of_split n l : rows_of l = rows_of (take n l) ++ rows_of (drop n l).
Proof. by rewrite <- rows_of_app, take_drop. Qed.

(** A chunk of a full group holds its first batches, at most a target's worth
    of them unless a single batch is larger. *)
Lemma take_chunk_ok g k gr l g' : grouper_ok g -> find k g.(groups) = Some gr -> take_chunk g k = (l, g') ->
  handed g l g' /\ Forall (fun r => group_key r = k) (rows_of l) /\
  (1 < len l -> total_rows l <= g.(target_rows) /\ total_bytes l <= g.(target_bytes)).
Proof.
  intros [H1 H2 H3] Hf E. unfold take_chunk in E. rewrite Hf in E. destruct (chunk _ _ _ _ _ _) as [[r b] c] eqn:Ec.
  apply chunk_spec in Ec as (n & Hn & -> & -> & -> & Hpos & Hbound); [|lia|lia]. rewrite !Z.add_0_l, Nat2Z.id in *. injection E as <- <-.
  pose proof (H3 k gr (find_in _ _ _ Hf)) as [K1 K2 K3 K4 K5]. specialize (Hpos eq_refl K1).
  assert (Hlt : len (take n (batches gr)) = Z.of_nat n) by (unfold len; rewrite length_take; lia).
  assert (Hat : rows_at k (groups g) = rows_of (batches gr)) by (unfold rows_at; by rewrite Hf).
  rewrite (rows_of_split n) in K5. apply Forall_app in K5 as [K5 K6].
  split; [|split; [done|intros Hl; apply Hbound; lia]].
  pose proof (remove_contents k (groups g)) as Hrem. rewrite Hat in Hrem.
  assert (Hm : forall w : GroupKey -> Group -> Z, from_option (w k) 0 (find k (groups g)) = w k gr) by (intros w; by rewrite Hf).
  destruct (drop n (batches gr)) as [|x xs] eqn:Ed.
  - assert (Et : take n (batches gr) = batches gr) by (apply take_ge; apply (f_equal length) in Ed; rewrite length_drop in Ed; cbn in Ed; lia). rewrite Et in *.
    split; cbn [groups held target_rows target_bytes pack_bytes max_held]; [split; cbn [groups held]| | | |done].
    + by apply remove_ordered.
    + rewrite msum_remove, (Hm (fun _ gr => bytes_ gr)) by done. lia.
    + intros k' gr' Hin. apply remove_in in Hin. by apply H3.
    + rewrite <- Hrem. solve_Permutation.
    + done.
    + unfold nbatches. rewrite msum_remove, (Hm (fun _ gr => len (batches gr))) by done. lia.
  - set (new := mkGroup (x :: xs) _ _). assert (Hnew : group_ok k new).
    { subst new. split; cbn [batches rows bytes_]; [done| | | |done].
      - rewrite K2, (total_rows_split n), Ed. lia.
      - rewrite K3, (total_bytes_split n), Ed. lia.
      - rewrite <- Ed. by apply Forall_drop. }
    split; cbn [groups held target_rows target_bytes pack_bytes max_held]; [split; cbn [groups held]| | | |done].
    + by apply put_ordered.
    + rewrite msum_put, (Hm (fun _ gr => bytes_ gr)) by done. subst new. cbn [bytes_]. lia.
    + intros k' gr' Hin. apply put_in in Hin as [[= -> ->]|Hin]; [done|by apply H3].
    + pose proof (put_contents k new (groups g) H1) as Hp. rewrite Hat in Hp. assert (Eb : batches new = drop n (batches gr)) by done.
      rewrite Eb, (rows_of_split n (batches gr)) in Hp. clear Eb. apply (Permutation_app_inv_r (rows_of (drop n (batches gr)))). rewrite <- Hp. solve_Permutation.
    + intros E0. rewrite E0 in Hlt. change (len (@nil RecordBatch)) with 0 in Hlt. lia.
    + unfold nbatches. rewrite msum_put, (Hm (fun _ gr => len (batches gr))) by done. subst new. cbn [batches]. rewrite <- Ed. unfold len. rewrite length_drop. lia.
Qed.

Lemma remove_group_ok g k gr g' : grouper_ok g -> find k g.(groups) = Some gr -> remove_group g k = (gr, g') -> handed g gr.(batches) g'.
Proof.
  intros [H1 H2 H3] Hf E. unfold remove_group in E. rewrite Hf in E. cbn [default from_option] in E. unfold id in E. injection E as <-.
  pose proof (H3 k gr (find_in _ _ _ Hf)) as Hk. pose proof (remove_contents k (groups g)) as Hrem. unfold rows_at in Hrem. rewrite Hf in Hrem.
  split; cbn [groups held target_rows target_bytes pack_bytes max_held]; [split; cbn [groups held]| |apply Hk| |done].
  - by apply remove_ordered.
  - rewrite msum_remove, Hf by done. cbn [from_option]. lia.
  - intros k' gr' Hin. apply remove_in in Hin. by apply H3.
  - rewrite <- Hrem. cbn [default from_option]. unfold id. solve_Permutation.
  - unfold nbatches. rewrite msum_remove, Hf by done. cbn [from_option]. pose proof (gk_some _ _ Hk). destruct (batches gr); [done|]. rewrite len_cons. len_lia.
Qed.

Lemma handed_trans g l1 g1 l2 g2 : handed g l1 g1 -> handed g1 l2 g2 -> handed g (l1 ++ l2) g2.
Proof.
  intros [A1 A2 A3 A4 A5] [B1 B2 B3 B4 B5]. split; [done| |by destruct l1|lia|congruence].
  rewrite A2, B2, rows_of_app. solve_Permutation.
Qed.

(** Whole groups from the front, a pack's worth of them unless the first is
    larger. *)
Lemma pack_keys_spec g l r b ks : (1 < len ks -> r <= g.(target_rows) /\ b <= g.(pack_bytes)) ->
  exists n, (n <= length l)%nat /\ pack_keys g l r b ks = ks ++ map fst (take n l) /\ (ks = [] -> l <> [] -> (0 < n)%nat) /\
    (1 < len ks + Z.of_nat n -> r + sumz (map (fun e => (snd e).(rows)) (take n l)) <= g.(target_rows) /\
      b + sumz (map (fun e => (snd e).(bytes_)) (take n l)) <= g.(pack_bytes)).
Proof.
  revert r b ks. induction l as [|[k gr] l IH]; intros r b ks Hb; cbn [pack_keys].
  { exists 0%nat. rewrite app_nil_r. split_and!; [done|done|done|]. cbn [take map sumz fold_right]. rewrite !Z.add_0_r. done. }
  destruct (negb _ && _) eqn:E.
  { exists 0%nat. rewrite app_nil_r. split_and!; [lia|done| |cbn [take map sumz fold_right]; by rewrite !Z.add_0_r].
    intros ->. rewrite bool_decide_eq_true_2 in E by done. done. }
  destruct (IH (r + rows gr) (b + bytes_ gr) (ks ++ [k])) as (n & Hn & Hk & _ & Hbound).
  - rewrite len_app, len_cons, len_nil. intros Hgt. apply andb_false_iff in E as [E|E]; [|bools; lia].
    apply negb_false_iff, bool_decide_eq_true in E as ->. change (len (@nil GroupKey)) with 0 in Hgt. lia.
  - exists (S n). rewrite Hk, <- app_assoc. cbn [length take map fst snd]. rewrite !sumz_cons. split_and!; [lia|done|lia|].
    rewrite len_app, len_cons, len_nil in Hbound. intros Hgt. destruct (Hbound ltac:(lia)). lia.
Qed.

Definition batches_of (l : list (GroupKey * Group)) : list RecordBatch := concat (map (fun e => (snd e).(batches)) l).

Lemma remove_all_ok pre rest g acc l g' : grouper_ok g -> g.(groups) = pre ++ rest -> pre <> [] -> remove_all g (map fst pre) acc = (l, g') ->
  l = acc ++ batches_of pre /\ g'.(groups) = rest /\ handed g (batches_of pre) g'.
Proof.
  revert g acc. induction pre as [|[k gr] pre IH]; intros g acc Hg Eg Hne E; [done|]. cbn [map fst remove_all] in E.
  assert (Hf : find k g.(groups) = Some gr) by (rewrite Eg; cbn [app find]; by rewrite cmp_refl).
  destruct (remove_group g k) as [gr' g1] eqn:Er. assert (gr' = gr) as -> by (unfold remove_group in Er; rewrite Hf in Er; by injection Er).
  pose proof (remove_group_ok g k gr g1 Hg Hf Er) as H1.
  assert (Eg1 : g1.(groups) = pre ++ rest).
  { unfold remove_group in Er. injection Er as _ <-. cbn [groups]. rewrite Eg. cbn [app remove]. by rewrite cmp_refl. }
  unfold batches_of. cbn [map concat snd]. fold (batches_of pre). destruct pre as [|e pre].
  - cbn in E. injection E as <- <-. rewrite app_nil_r. split_and!; [done|done|done].
  - destruct (IH g1 (acc ++ batches gr) (hd_ok _ _ _ H1) Eg1 ltac:(done) E) as (-> & Hr & H2).
    split_and!; [by rewrite app_assoc|done|by eapply handed_trans].
Qed.

Lemma find_first_some {A} (f : A -> bool) l x : find_first f l = Some x -> x ∈ l /\ f x = true.
Proof.
  induction l as [|y l IH]; cbn; [done|]. destruct (f y) eqn:E; [intros [= <-]; split; [apply list_elem_of_here|done]|].
  intros Ex. destruct (IH Ex). split; [by apply list_elem_of_further|done].
Qed.
Lemma find_first_none {A} (f : A -> bool) l : find_first f l = None -> Forall (fun x => f x = false) l.
Proof. induction l as [|y l IH]; cbn; [constructor|]. destruct (f y) eqn:E; [done|]. intros Ex. constructor; [done|by apply IH]. Qed.

Lemma largest_in l best e : largest l best = Some e -> e ∈ l \/ best = Some e.
Proof.
  revert best. induction l as [|x l IH]; intros best E; cbn [largest] in E; [by right|].
  apply IH in E as [E|E]; [left; by apply list_elem_of_further|]. destruct best as [b|]; [destruct (_ <? _) in E|]; simplify_eq; [by right|left; apply list_elem_of_here..].
Qed.

(** What a step of the output promises: whole batches in one of three ways, or
    nothing when nothing is due. *)
Definition next_spec (g : Grouper) (finish : bool) (r : option (list RecordBatch)) (g' : Grouper) : Prop :=
  match r with
  | None => g' = g /\ Forall (fun e => is_full g e = false) g.(groups) /\ (g.(groups) = [] \/ finish = false /\ g.(held) <= g.(max_held))
  | Some l =>
      handed g l g' /\
      ((exists k, Forall (fun r => group_key r = k) (rows_of l)) \/ (total_rows l <= g.(target_rows) /\ total_bytes l <= g.(pack_bytes)))
  end.

Lemma group_totals l : Forall (fun e => group_ok (fst e) (snd e)) l ->
  sumz (map (fun e => (snd e).(rows)) l) = total_rows (batches_of l) /\ sumz (map (fun e => (snd e).(bytes_)) l) = total_bytes (batches_of l).
Proof.
  induction 1 as [|[k gr] l Hk Hl [IH1 IH2]]; [done|]. unfold batches_of. cbn [map concat snd fst] in *. fold (batches_of l).
  rewrite !sumz_cons, total_rows_app, total_bytes_app, IH1, IH2, (gk_rows _ _ Hk), (gk_bytes _ _ Hk). done.
Qed.

Lemma next_batches_ok g finish r g' : grouper_ok g -> next_batches g finish = (r, g') -> next_spec g finish r g'.
Proof.
  intros Hg E. unfold next_batches in E. destruct (find_first (is_full g) (groups g)) as [[k gr]|] eqn:Ef.
  - apply find_first_some in Ef as [Hin _]. apply (find_iff _ _ _ (gr_ordered _ Hg)) in Hin.
    destruct (take_chunk g k) as [l g1] eqn:Et. injection E as <- <-. destruct (take_chunk_ok g k gr l g1 Hg Hin Et) as (H1 & H2 & _).
    split; [done|]. left. by exists k.
  - apply find_first_none in Ef. destruct (bool_decide (groups g = []) || negb (finish || (max_held g <? held g))) eqn:Eb.
    + injection E as <- <-. split_and!; [done|done|]. apply orb_true_iff in Eb as [Eb|Eb]; [left; by apply bool_decide_eq_true in Eb|].
      right. bools. split; [by destruct finish|]. destruct finish; [done|]. cbn in *. bools. lia.
    + apply orb_false_iff in Eb as [Eb _]. apply bool_decide_eq_false in Eb.
      match type of E with match ?b with _ => _ end = _ => set (big := b) in E end. destruct big as [k|] eqn:Ebig.
      * assert (Hgr : exists gr, find k (groups g) = Some gr).
        { subst big. destruct finish; [done|]. destruct (largest (groups g) None) as [[k' gr]|] eqn:El; [|done]. destruct (_ <=? _) in Ebig; [|done].
          injection Ebig as <-. apply largest_in in El as [El|]; [|done]. exists gr. by apply (find_iff _ _ _ (gr_ordered _ Hg)). }
        destruct Hgr as [gr Hf]. destruct (remove_group g k) as [gr' g1] eqn:Er. injection E as <- <-.
        assert (gr' = gr) as -> by (unfold remove_group in Er; rewrite Hf in Er; by injection Er).
        split; [by eapply remove_group_ok|]. left. exists k. apply (gr_group _ Hg k gr). by apply find_in.
      * destruct (pack_keys_spec g (groups g) 0 0 []) as (n & Hn & Epk & Hpos & Hbound); [by intros ?|]. rewrite Epk in E. cbn [app] in E. specialize (Hpos eq_refl Eb).
        destruct (remove_all g (map fst (take n (groups g))) []) as [l g1] eqn:Er. injection E as <- <-.
        assert (Hall : Forall (fun e => group_ok (fst e) (snd e)) (groups g)) by (apply list.Forall_forall; intros [k gr] Hin; by apply (gr_group _ Hg)).
        destruct (remove_all_ok (take n (groups g)) (drop n (groups g)) g [] l g1 Hg) as (-> & _ & H1); [by rewrite take_drop| |done|].
        { intros E0. apply (f_equal length) in E0. rewrite length_take in E0. cbn in E0. lia. }
        split; [done|]. cbn [app]. destruct (decide (n = 1%nat)) as [->|Hn1].
        -- left. destruct (groups g) as [|[k gr] gs]; [done|]. exists k. unfold batches_of. cbn [take map concat snd]. rewrite app_nil_r.
           apply Forall_cons_1 in Hall as [Hk _]. apply Hk.
        -- right. destruct (group_totals (take n (groups g))) as [<- <-]; [by apply Forall_take|]. rewrite !Z.add_0_l in Hbound. apply Hbound.
           change (len (@nil GroupKey)) with 0. lia.
Qed.

(** * Histories *)

Section History.
Context `{Arrow}.

(** The states a grouper reaches while its steps succeed: the rows added and
    the batches handed out for each output. *)
Inductive history : Grouper -> list Row -> list (list RecordBatch) -> Prop :=
| history_new tr tb pb mh : history (Grouper_new tr tb pb mh) [] []
| history_add g added outs src g' n : history g added outs -> Forall source_ok src -> add g (Ok src) = (g', Ok n) ->
    history g' (added ++ source_rows src) outs
| history_next g added outs finish l g' : history g added outs -> next_batches g finish = (Some l, g') ->
    history g' added (outs ++ [l]).

(** Taking outputs until none is due. *)
Fixpoint drain (fuel : nat) (g : Grouper) (finish : bool) (outs : list (list RecordBatch)) : res unit (list (list RecordBatch) * Grouper) :=
  match fuel with
  | O => Fuel
  | S fuel =>
      match next_batches g finish with
      | (None, g) => Ok (outs, g)
      | (Some l, g) => drain fuel g finish (outs ++ [l])
      end
  end.

Definition output_rows (outs : list (list RecordBatch)) : list Row := concat (map rows_of outs).

Lemma output_rows_snoc outs l : output_rows (outs ++ [l]) = output_rows outs ++ rows_of l.
Proof. unfold output_rows. rewrite map_app, concat_app. cbn. by rewrite app_nil_r. Qed.

Lemma new_ok tr tb pb mh : grouper_ok (Grouper_new tr tb pb mh).
Proof. split; cbn; [constructor|done|]. intros k gr Hin. by apply not_elem_of_nil in Hin. Qed.

Lemma history_ok g added outs : history g added outs -> grouper_ok g /\ added ≡ₚ output_rows outs ++ contents g.(groups).
Proof.
  induction 1 as [tr tb pb mh|g added outs src g' n _ [IH1 IH2] Hs E|g added outs finish l g' _ [IH1 IH2] E].
  - split; [apply new_ok|done].
  - destruct (add_batches_ok src g 0 g' n IH1 Hs E) as (H1 & H2 & _). split; [done|]. rewrite H2, IH2. solve_Permutation.
  - apply next_batches_ok in E as [Hh _]; [|done]. split; [apply Hh|]. rewrite IH2, (hd_rows _ _ _ Hh), output_rows_snoc. solve_Permutation.
Qed.

Lemma nbatches_nonneg m : 0 <= nbatches m.
Proof. unfold nbatches. induction m as [|e m IH]; [done|]. rewrite msum_cons. pose proof (len_nonneg (batches (snd e))). lia. Qed.

Lemma drain_ok fuel g finish outs : grouper_ok g -> nbatches g.(groups) < Z.of_nat fuel ->
  exists more g', drain fuel g finish outs = Ok (outs ++ more, g') /\ grouper_ok g' /\ contents g.(groups) ≡ₚ output_rows more ++ contents g'.(groups) /\
    Forall (fun l => l <> []) more /\ g'.(max_held) = g.(max_held) /\ Forall (fun e => is_full g' e = false) g'.(groups) /\
    (g'.(groups) = [] \/ finish = false /\ g'.(held) <= g'.(max_held)).
Proof.
  revert g outs. induction fuel as [|fuel IH]; intros g outs Hg Hf; [pose proof (nbatches_nonneg g.(groups)); lia|]. cbn [drain].
  destruct (next_batches g finish) as [[l|] g1] eqn:E; apply next_batches_ok in E; [|done| |done].
  - destruct E as [Hh _]. destruct (IH g1 (outs ++ [l])) as (more & g' & -> & H1 & H2 & H3 & H4 & H5 & H6); [apply Hh|pose proof (hd_less _ _ _ Hh); lia|].
    exists (l :: more), g'. rewrite <- app_assoc. pose proof (hd_same _ _ _ Hh) as [= _ _ _ Es]. split_and!; [done|done| |by constructor; [apply Hh|]|congruence|done|done].
    rewrite (hd_rows _ _ _ Hh), H2. unfold output_rows. cbn [map concat]. solve_Permutation.
  - destruct E as (-> & H1 & H2). exists [], g. rewrite app_nil_r. split_and!; try done.
Qed.

(** C24. Regrouping neither loses nor repeats a row. After any run of additions
    and outputs that succeed, the rows added are, as a multiset, the rows of
    the outputs and the rows still held; the held size is the sum over the
    groups, whose rows all have the group's key. Taking outputs ends after at
    most one step per batch held: with [finish] nothing remains, without it no
    group is full and what remains is within [max_held]. An output is of one
    group, or packs whole groups within the row target and the pack size. *)
Theorem grouper_exact (g : Grouper) (added : list Row) (outs : list (list RecordBatch)) (finish : bool) : history g added outs ->
  added ≡ₚ output_rows outs ++ contents g.(groups) /\ grouper_ok g /\
  exists more g', drain (S (Z.to_nat (nbatches g.(groups)))) g finish outs = Ok (outs ++ more, g') /\
    added ≡ₚ output_rows (outs ++ more) ++ contents g'.(groups) /\ Forall (fun l => l <> []) more /\
    Forall (fun e => is_full g' e = false) g'.(groups) /\ (if finish then g'.(groups) = [] else g'.(groups) = [] \/ g'.(held) <= g.(max_held)) /\
    forall l g'', next_batches g finish = (Some l, g'') ->
      (exists k, Forall (fun r => group_key r = k) (rows_of l)) \/ (total_rows l <= g.(target_rows) /\ total_bytes l <= g.(pack_bytes)).
Proof.
  intros Hh. destruct (history_ok g added outs Hh) as [Hg Hp]. split; [done|]. split; [done|].
  pose proof (nbatches_nonneg g.(groups)). destruct (drain_ok (S (Z.to_nat (nbatches g.(groups)))) g finish outs Hg ltac:(lia)) as (more & g' & E & H1 & H2 & H3 & H4 & H5 & H6).
  exists more, g'. split_and!; [done| |done|done| |intros l g'' E'; by apply next_batches_ok in E' as [_ ?]].
  - unfold output_rows in *. rewrite map_app, concat_app, Hp, H2. solve_Permutation.
  - rewrite <- H4. destruct finish; destruct H6 as [H6|[? H6]]; try done; [by left|by right].
Qed.

End History.

(** * Summaries of an output *)

(** The rows counted in a minute. *)
Definition in_minute (b : Z) (r : Row) : bool := match r.(timestamp_ns) with Some ts => minute ts =? b | None => false end.

(** What a summary says of the rows [l]; an absent set says nothing. *)
Record summarizes (l : list Row) (s : Summary) : Prop := {
  sm_rows : s.(s_rows) = len l;
  sm_bounds : Forall (fun r => s.(s_min) <= default 0 r.(timestamp_ns) <= s.(s_max)) l;
  sm_min : l <> [] -> exists r, r ∈ l /\ default 0 r.(timestamp_ns) = s.(s_min);
  sm_max : l <> [] -> exists r, r ∈ l /\ default 0 r.(timestamp_ns) = s.(s_max);
  sm_services : forall set, s.(s_services) = Some set -> (forall n, find n set = Some tt <-> exists r, r ∈ l /\ r.(service) = Some n) /\
    Forall (fun r => exists n, r.(service) = Some n /\ n <> [] /\ len n <= 256) l /\ len set <= 128;
  sm_streams : forall set, s.(s_streams) = Some set -> (forall k, find k set = Some tt <-> exists r, r ∈ l /\ (r.(service), r.(resource)) = k) /\ len set <= MAX_STREAMS;
  sm_minutes : forall m, s.(s_minutes) = Some m -> (forall b, default 0 (find b m) = len (List.filter (in_minute b) l)) /\
    Forall (fun r => r.(timestamp_ns) <> None) l /\ len m <= MAX_MINUTES
}.

Lemma find_put_iff {K} `{Ordered K} (k j : K) (m : omap K unit) : find j (put k tt m) = Some tt <-> k = j \/ find j m = Some tt.
Proof.
  rewrite find_put. destruct (cmp k j) eqn:E.
  - apply cmp_eq in E as ->. split; [by left|done].
  - split; [by right|intros [->|?]; [by rewrite cmp_refl in E|done]].
  - split; [by right|intros [->|?]; [by rewrite cmp_refl in E|done]].
Qed.

Lemma snoc_in {A} (l : list A) x (P : A -> Prop) : (exists r, r ∈ l ++ [x] /\ P r) <-> P x \/ exists r, r ∈ l /\ P r.
Proof.
  split.
  - intros (r & Hr & HP). apply elem_of_app in Hr as [Hr| ->%list_elem_of_singleton]; [right; by exists r|by left].
  - intros [HP|(r & Hr & HP)]; [exists x|exists r]; (split; [apply elem_of_app|done]); [right; apply list_elem_of_here|by left].
Qed.

Definition ts_ok (r : Row) : Prop := I64_MIN <= default 0 r.(timestamp_ns) <= I64_MAX.

Lemma summarize_ok l s r : summarizes l s -> len l < U64_MAX -> ts_ok r -> Forall ts_ok l -> (l = [] -> s.(s_min) = I64_MAX /\ s.(s_max) = I64_MIN) ->
  summarizes (l ++ [r]) (summarize s r).
Proof.
  intros [S1 S2 S3 S4 S5 S6 S7] Hb Hr Hl Hempty. unfold summarize. set (v := default 0 (timestamp_ns r)) in *.
  split; cbn [s_rows s_min s_max s_services s_streams s_minutes].
  - rewrite len_app, len_cons, len_nil. lia.
  - apply Forall_app. split; [|constructor; [fold v; lia|constructor]]. eapply Forall_impl; [|exact S2]. cbn. lia.
  - intros _. apply snoc_in. fold v. destruct (Z_le_gt_dec v (s_min s)); [left; lia|]. right. destruct l as [|x l].
    + destruct (Hempty eq_refl) as [Hm _]. unfold ts_ok in Hr. fold v in Hr. lia.
    + destruct S3 as (r' & Hin & Er); [done|]. exists r'. split; [done|lia].
  - intros _. apply snoc_in. fold v. destruct (Z_le_gt_dec (s_max s) v); [left; lia|]. right. destruct l as [|x l].
    + destruct (Hempty eq_refl) as [_ Hm]. unfold ts_ok in Hr. fold v in Hr. lia.
    + destruct S4 as (r' & Hin & Er); [done|]. exists r'. split; [done|lia].
  - intros set E. destruct (s_services s) as [old|]; [|done]. destruct (service r) as [n|] eqn:En; [|done]. destruct (_ && _) eqn:Ec; [|done]. bools.
    destruct (_ <=? 128) eqn:El; [|done]. injection E as <-. bools. destruct (S5 old eq_refl) as (A & B & C). split_and!; [|apply Forall_app; split; [done|]|done].
    + intros j. rewrite find_put_iff, snoc_in, A, En. split; (intros [?|?]; [left; congruence|by right]).
    + constructor; [|constructor]. exists n. split; [done|]. split; [|done]. intros ->. by rewrite bool_decide_eq_true_2 in *.
  - intros set E. destruct (s_streams s) as [old|]; [|done]. destruct (_ <=? MAX_STREAMS) eqn:El; [|done]. injection E as <-. bools.
    destruct (S6 old eq_refl) as (A & B). split; [|done]. intros j. rewrite find_put_iff, snoc_in, A. done.
  - intros m E. destruct (s_minutes s) as [old|]; [|done]. destruct (timestamp_ns r) as [ts|] eqn:Et; [|done]. destruct (_ <=? MAX_MINUTES) eqn:El; [|done]. injection E as <-. bools.
    destruct (S7 old eq_refl) as (A & B & C). split_and!; [|apply Forall_app; split; [done|constructor; [congruence|constructor]]|done].
    intros b. rewrite List.filter_app, len_app. cbn [List.filter]. unfold in_minute at 2. rewrite Et. unfold update. rewrite find_put, A.
    assert (Hle : len (List.filter (in_minute (minute ts)) l) <= len l) by (unfold len; pose proof (List.filter_length_le (in_minute (minute ts)) l); lia).
    pose proof (len_nonneg (List.filter (in_minute (minute ts)) l)).
    destruct (Z.eqb_spec (minute ts) b) as [<-|Hne].
    + rewrite cmp_refl. cbn [default from_option]. unfold id, wrap_u64. rewrite Z.mod_small by (unfold U64, U64_MAX in *; lia). done.
    + destruct (cmp (minute ts) b) eqn:Eb; [by apply cmp_eq in Eb|rewrite A, len_nil; lia..].
Qed.

Lemma summary_ok l pre s : summarizes pre s -> (pre = [] -> s.(s_min) = I64_MAX /\ s.(s_max) = I64_MIN) -> len pre + len l <= U64_MAX -> Forall ts_ok (pre ++ l) ->
  summarizes (pre ++ l) (fold_left summarize l s).
Proof.
  revert pre s. induction l as [|r l IH]; intros pre s Hs He Hb Ht; cbn [fold_left]; [by rewrite app_nil_r|].
  rewrite len_cons in Hb. pose proof Ht as Ht'. apply Forall_app in Ht as [Ht1 Ht2]. apply Forall_cons_1 in Ht2 as [Hr Ht2].
  replace (pre ++ r :: l) with ((pre ++ [r]) ++ l) in * by by rewrite <- app_assoc. apply IH; [|by destruct pre|rewrite len_app, len_cons, len_nil; lia|done].
  apply summarize_ok; [done|len_lia|done|done|done].
Qed.

Lemma summary_new_ok : summarizes [] Summary_new.
Proof.
  split; cbn; try done.
  - intros set [= <-]. split_and!; [|constructor|done]. intros n. split; [done|]. intros (r & Hr & _). by apply not_elem_of_nil in Hr.
  - intros set [= <-]. split; [|done]. intros n. split; [done|]. intros (r & Hr & _). by apply not_elem_of_nil in Hr.
  - intros m [= <-]. split_and!; [done|constructor|done].
Qed.

(** The summaries of an output are exact: its row count, the least and the
    greatest timestamp with a missing one counted as zero, the set of services
    and of streams, and the lines of each minute, whenever these are given. *)
Theorem output_summary_exact `{Arrow} (l : list RecordBatch) (o : Output) : len (rows_of l) <= U64_MAX -> Forall ts_ok (rows_of l) -> encode l = Ok o ->
  exists s, summarizes (rows_of l) s /\ o.(out_rows) = len (rows_of l) /\
    (rows_of l <> [] -> o.(min_ts) = s.(s_min) /\ o.(max_ts) = s.(s_max)) /\
    o.(services) = option_map keys s.(s_services) /\ o.(streams) = option_map keys s.(s_streams) /\ o.(minutes) = s.(s_minutes).
Proof.
  intros Hb Ht E. unfold encode in E. set (s := fold_left summarize (rows_of l) Summary_new) in *.
  assert (Hs : summarizes (rows_of l) s) by (apply (summary_ok (rows_of l) [] Summary_new); [apply summary_new_ok|done|len_lia|done]).
  destruct (if s_rows s =? 0 then (0, 0) else (s_min s, s_max s)) as [lo hi] eqn:Elh. destruct (encode_sorted l (s_rows s)); [|done|done]. injection E as <-.
  exists s. cbn. split_and!; try done; [apply Hs|]. intros Hne. rewrite (sm_rows _ _ Hs) in Elh. destruct (rows_of l); [done|].
  rewrite len_cons in Elh. replace (1 + _ =? 0) with false in Elh by (symmetry; len_lia). by injection Elh as <- <-.
Qed.

Section Witness.

Lemma mapO_some {A B} (f : A -> option B) l r : mapO f l = Some r -> map Some r = map f l.
Proof.
  revert r. induction l as [|x l IH]; intros r E; cbn in E; [by injection E as <-|]. destruct (f x) as [y|] eqn:Ey; [|done].
  destruct (mapO f l) as [ys|]; [|done]. injection E as <-. cbn. by rewrite Ey, (IH ys).
Qed.

(** Batches whose size is their number of rows. *)
#[local] Program Instance plain_arrow : Arrow := {|
  take_record_batch b idx := let* rows := mapO (get b.(batch_rows)) idx in Some (mkBatch rows (len rows));
  encode_sorted l n := Ok []
|}.
Next Obligation. intros b idx p E. cbn in E. destruct (mapO (get (batch_rows b)) idx) as [r|] eqn:Er; [|done]. injection E as <-. cbn. by apply mapO_some. Qed.
Next Obligation. intros b idx p E. cbn in E. destruct (mapO (get (batch_rows b)) idx) as [r|]; [|done]. injection E as <-. cbn. apply len_nonneg. Qed.

Definition sample_batch : RecordBatch :=
  mkBatch [mkRow (Some 1) (Some [97]) [120] []; mkRow None None [121] []; mkRow (Some 60000000001) (Some [97]) [120] []] 3.

Lemma grouper_exact_witness : exists g outs g', add (Grouper_new 2 100 100 1) (Ok [Ok sample_batch; Ok sample_batch]) = (g, Ok 6) /\
  drain 5 g true [] = Ok (outs, g') /\ g'.(groups) = [] /\ output_rows outs ≡ₚ batch_rows sample_batch ++ batch_rows sample_batch.
Proof.
  destruct (add (Grouper_new 2 100 100 1) (Ok [Ok sample_batch; Ok sample_batch])) as [g r] eqn:E.
  assert (Er : r = Ok 6) by (vm_compute in E; by injection E as _ <-). subst r.
  assert (Hh : history g (batch_rows sample_batch ++ batch_rows sample_batch) []).
  { change (batch_rows sample_batch ++ batch_rows sample_batch) with ([] ++ source_rows [Ok sample_batch; Ok sample_batch]).
    eapply history_add; [apply (history_new 2 100 100 1)| |exact E]. repeat (constructor; [cbn; lia|]). constructor. }
  destruct (grouper_exact g (batch_rows sample_batch ++ batch_rows sample_batch) [] true Hh) as (_ & _ & more & g' & Ed & Hp & _ & _ & He & _).
  exists g, more, g'. cbn [app] in Hp. rewrite He in Hp. unfold contents in Hp. cbn [map concat] in Hp. rewrite app_nil_r in Hp. split_and!; [done| |done|by symmetry].
  vm_compute in E. injection E as <-. exact Ed.
Defined.

Lemma output_summary_exact_witness : exists o, encode [sample_batch] = Ok o /\ o.(out_rows) = 3 /\ o.(minutes) = None /\ o.(streams) = Some [(None, [121]); (Some [97], [120])].
Proof.
  destruct (encode [sample_batch]) as [o|e|] eqn:E; [|by vm_compute in E..]. exists o.
  destruct (output_summary_exact [sample_batch] o) as (s & Hs & Hr & _); [vm_compute; congruence| |exact E|].
  - repeat (constructor; [vm_compute; split; congruence|]). constructor.
  - split; [done|]. rewrite Hr. vm_compute in E. injection E as <-. split_and!; vm_compute; reflexivity.
Defined.
End Witness.
