(* ===== verification/Structural.v ===== *)
(** Structural joins of TraceQL (tempo_expression.rs, [structural] and
    [closure]): which spans of one trace a chain of relations returns, over
    the parent links of the trace. The links may repeat a span, miss a parent
    or form cycles. *)

From stdpp Require Import gmap.
From S2P Require Import Prelude.

Inductive Relation : Type := Descendant | Child | Ancestor | Parent | Sibling.

(** One stored span: span ID, parent span ID and spanset mask. *)
Record Link : Type := mkLink { id_ : Z; parent : option Z; mask : Z }.

(** * The source *)

Abbreviation Edges := (gmap Z (list Z)).
Definition push_edge (k v : Z) (m : Edges) : Edges := <[k := default [] (m !! k) ++ [v]]> m.

Definition children_of (spans : list Link) : Edges :=
  fold_left (fun m s => match s.(parent) with Some p => push_edge p s.(id_) m | None => m end) spans ∅.
Definition parents_of (spans : list Link) : Edges :=
  fold_left (fun m s => match s.(parent) with Some p => push_edge s.(id_) p m | None => m end) spans ∅.

(** [if seen.insert(x) { queue.push(x) }] for each element; the head of the
    list is the end of the queue. *)
Fixpoint visit (l : list Z) (seen : gset Z) (queue : list Z) : gset Z * list Z :=
  match l with
  | [] => (seen, queue)
  | x :: l => if bool_decide (x ∈ seen) then visit l seen queue else visit l ({[x]} ∪ seen) (x :: queue)
  end.

Fixpoint closure_loop (fuel : nat) (edges : Edges) (seen : gset Z) (queue : list Z) : res unit (gset Z) :=
  match queue with
  | [] => Ok seen
  | id :: queue =>
      match fuel with
      | O => Fuel
      | S fuel =>
          let '(seen, queue) := visit (default [] (edges !! id)) seen queue in
          closure_loop fuel edges seen queue
      end
  end.

Definition closure (fuel : nat) (seeds : list Z) (edges : Edges) : res unit (gset Z) :=
  let '(seen, queue) := visit seeds ∅ [] in closure_loop fuel edges seen queue.

(** A [HashSet] is iterated in some order. *)
Definition selected_ids (spans : list Link) (current : list bool) : list Z :=
  map (fun e => (fst e).(id_)) (List.filter snd (zip spans current)).
Definition selected_parents (spans : list Link) (current : list bool) : list Z :=
  concat (map (fun e => match (fst e).(parent) with Some p => [p] | None => [] end) (List.filter snd (zip spans current))).

Definition candidate (bit : Z) (s : Link) : bool := negb (Z.land s.(mask) bit =? 0).

Definition by_parent (spans : list Link) (current : list bool) : gmap Z (gset Z) :=
  fold_left (fun m e => match (fst e).(parent), snd e with
                        | Some p, true => <[p := {[(fst e).(id_)]} ∪ default ∅ (m !! p)]> m
                        | _, _ => m
                        end) (zip spans current) ∅.

(** A closure visits each span ID, or each parent, at most once. *)
Definition closure_fuel (spans : list Link) : nat := length spans.

Definition join (relation : Relation) (bit : Z) (spans : list Link) (current : list bool) : res unit (list bool) :=
  let ids : gset Z := list_to_set (selected_ids spans current) in
  match relation with
  | Child => Ok (map (fun s => candidate bit s && match s.(parent) with Some p => bool_decide (p ∈ ids) | None => false end) spans)
  | Parent =>
      let wanted : gset Z := list_to_set (selected_parents spans current) in
      Ok (map (fun s => candidate bit s && bool_decide (s.(id_) ∈ wanted)) spans)
  | Descendant =>
      let? down := closure (closure_fuel spans) (elements ids) (children_of spans) in
      Ok (map (fun s => candidate bit s && match s.(parent) with Some p => bool_decide (p ∈ down) | None => false end) spans)
  | Ancestor =>
      let? up := closure (closure_fuel spans) (selected_parents spans current) (parents_of spans) in
      Ok (map (fun s => candidate bit s && bool_decide (s.(id_) ∈ up)) spans)
  | Sibling =>
      let m := by_parent spans current in
      Ok (map (fun s => candidate bit s &&
                 match s.(parent) with
                 | Some p => match m !! p with
                             | Some ids => existsb (fun id => negb (id =? s.(id_))) (elements ids)
                             | None => false
                             end
                 | None => false
                 end) spans)
  end.

(** [1u8 << (i + 1)]; the program has at most three relations. *)
Fixpoint joins (relations : list Relation) (i : Z) (spans : list Link) (current : list bool) : res unit (list bool) :=
  match relations with
  | [] => Ok current
  | r :: relations =>
      let? current := join r (Z.shiftl 1 (i + 1) mod 256) spans current in
      joins relations (i + 1) spans current
  end.

Definition structural (relations : list Relation) (spans : list Link) : res unit (list bool) :=
  joins relations 0 spans (map (fun s => negb (Z.land s.(mask) 1 =? 0)) spans).

(** * Reachability *)

Definition edge (m : Edges) (x y : Z) : Prop := y ∈ default [] (m !! x).

Lemma visit_spec l seen queue seen' queue' : visit l seen queue = (seen', queue') ->
  exists new, queue' = new ++ queue /\ NoDup new /\ (forall x, x ∈ new <-> x ∈ l /\ x ∉ seen) /\ (forall x, x ∈ seen' <-> x ∈ seen \/ x ∈ l).
Proof.
  revert seen queue. induction l as [|x l IH]; intros seen queue E; cbn [visit] in E.
  { injection E as <- <-. exists []. split_and!; [done|constructor| |]; intros y; rewrite elem_of_nil; tauto. }
  destruct (decide (x ∈ seen)) as [Hx|Hx].
  - rewrite bool_decide_eq_true_2 in E by done. apply IH in E as (new & -> & H1 & H2 & H3). exists new. split_and!; [done|done| |].
    + intros y. rewrite H2, elem_of_cons. intuition congruence.
    + intros y. rewrite H3, elem_of_cons. intuition congruence.
  - rewrite bool_decide_eq_false_2 in E by done. apply IH in E as (new & -> & H1 & H2 & H3). exists (new ++ [x]). split_and!.
    + by rewrite <- app_assoc.
    + apply list.NoDup_app. split_and!; [done| |apply NoDup_singleton]. intros y Hy ->%list_elem_of_singleton. apply H2 in Hy as [_ Hy]. apply Hy, elem_of_union_l, elem_of_singleton. done.
    + intros y. rewrite elem_of_app, H2, list_elem_of_singleton, elem_of_cons, elem_of_union, elem_of_singleton. destruct (decide (y = x)) as [->|]; tauto.
    + intros y. rewrite H3, elem_of_cons, elem_of_union, elem_of_singleton. tauto.
Qed.

Lemma closure_loop_ok fuel (m : Edges) (U : gset Z) (S : Z -> Prop) seen queue :
  (forall x y, edge m x y -> y ∈ U) -> seen ⊆ U -> NoDup queue -> (forall x, x ∈ queue -> x ∈ seen) ->
  (forall x, x ∈ seen -> exists s, S s /\ rtc (edge m) s x) -> (forall s, S s -> s ∈ seen) ->
  (forall x y, x ∈ seen -> x ∉ queue -> edge m x y -> y ∈ seen) ->
  (length queue + size (U ∖ seen) <= fuel)%nat ->
  exists r, closure_loop fuel m seen queue = Ok r /\ forall x, x ∈ r <-> exists s, S s /\ rtc (edge m) s x.
Proof.
  intros HU. revert seen queue. induction fuel as [|fuel IH]; intros seen queue Hs Hnd Hq Hr HS Hc Hf.
  all: destruct queue as [|id queue]; cbn [closure_loop].
  1, 3: exists seen; split; [done|]; intros x; split; [apply Hr|]; intros (s & Hss & Hx); apply HS in Hss; revert Hss; induction Hx as [|a b c Hab Hbc IHx]; intros Ha; [done|];
    apply IHx; eapply Hc; [exact Ha|apply not_elem_of_nil|exact Hab].
  { cbn in Hf. lia. }
  destruct (visit _ _ _) as [seen' queue'] eqn:Ev. apply visit_spec in Ev as (new & -> & N1 & N2 & N3). apply list.NoDup_cons in Hnd as [Hid Hnd].
  assert (Hids : id ∈ seen) by (apply Hq, list_elem_of_here). apply IH.
  - intros x Hx. apply N3 in Hx as [Hx|Hx]; [by apply Hs|by eapply HU].
  - apply list.NoDup_app. split_and!; [done| |done]. intros x Hx Hxq. apply N2 in Hx as [_ Hx]. apply Hx, Hq. by apply list_elem_of_further.
  - intros x Hx. apply N3. apply elem_of_app in Hx as [Hx|Hx]; [right; by apply N2|left]. apply Hq. by apply list_elem_of_further.
  - intros x Hx. apply N3 in Hx as [Hx|Hx]; [by apply Hr|]. destruct (Hr id Hids) as (s & Hss & Hsr). exists s. split; [done|]. by eapply rtc_r.
  - intros s Hss. apply N3. left. by apply HS.
  - intros x y Hx Hxq Hxy. apply N3. apply N3 in Hx as [Hx|Hx].
    + destruct (decide (x = id)) as [->|Hne]; [by right|]. left. eapply Hc; [exact Hx| |exact Hxy]. intros [?|?]%elem_of_cons; [done|]. apply Hxq, elem_of_app. by right.
    + destruct (decide (x ∈ seen)) as [Hxs|Hxs]; [|exfalso; apply Hxq, elem_of_app; left; by apply N2].
      destruct (decide (x = id)) as [->|Hne]; [by right|]. left. eapply Hc; [exact Hxs| |exact Hxy]. intros [?|?]%elem_of_cons; [done|]. apply Hxq, elem_of_app. by right.
  - assert (Hsize : (length new + size (U ∖ seen') <= size (U ∖ seen))%nat).
    { rewrite <- (size_list_to_set (C := gset Z) new N1). rewrite <- size_union; [|set_unfold; intros x Hx1 Hx2; apply N2 in Hx1 as [Hx1 _]; destruct Hx2 as [_ Hx2]; apply Hx2, N3; by right].
      apply subseteq_size. intros x Hx. apply elem_of_union in Hx as [Hx|Hx].
      - apply elem_of_list_to_set, N2 in Hx as [Hx1 Hx2]. apply elem_of_difference. split; [by eapply HU|done].
      - apply elem_of_difference in Hx as [Hx1 Hx2]. apply elem_of_difference. split; [done|]. intros Hx3. apply Hx2, N3. by left. }
    rewrite length_app. cbn [length] in Hf. lia.
Qed.

(** The closure is everything reachable from the seeds. *)
Lemma closure_ok fuel seeds (m : Edges) (U : gset Z) : (forall x y, edge m x y -> y ∈ U) -> (forall s, s ∈ seeds -> s ∈ U) -> (size U <= fuel)%nat ->
  exists r, closure fuel seeds m = Ok r /\ forall x, x ∈ r <-> exists s, s ∈ seeds /\ rtc (edge m) s x.
Proof.
  intros HU Hs Hf. unfold closure. destruct (visit seeds ∅ []) as [seen queue] eqn:Ev. apply visit_spec in Ev as (new & -> & N1 & N2 & N3).
  rewrite app_nil_r. apply (closure_loop_ok fuel m U (fun s => s ∈ seeds)); [done| |done| | | | |].
  - intros x Hx. apply N3 in Hx as [Hx|Hx]; [by apply not_elem_of_empty in Hx|by apply Hs].
  - intros x Hx. apply N3. right. by apply N2.
  - intros x Hx. apply N3 in Hx as [Hx|Hx]; [by apply not_elem_of_empty in Hx|]. exists x. split; [done|apply rtc_refl].
  - intros s Hss. apply N3. by right.
  - intros x y Hx Hxq _. exfalso. apply Hxq, N2. apply N3 in Hx as [Hx|Hx]; [by apply not_elem_of_empty in Hx|]. split; [done|apply not_elem_of_empty].
  - rewrite <- (size_list_to_set (C := gset Z) new N1). rewrite <- size_union.
    + etransitivity; [apply subseteq_size|exact Hf]. intros x Hx. apply elem_of_union in Hx as [Hx|Hx]; [|by apply elem_of_difference in Hx as [Hx _]].
      apply elem_of_list_to_set, N2 in Hx as [Hx _]. by apply Hs.
    + intros x Hx1 Hx2. apply elem_of_list_to_set, N2 in Hx1 as [Hx1 _]. apply elem_of_difference in Hx2 as [_ Hx2]. apply Hx2, N3. by right.
Qed.

(** * Links *)

(** [c] is the ID of a span whose parent is [p]. *)
Definition link (spans : list Link) (p c : Z) : Prop := exists s, s ∈ spans /\ s.(id_) = c /\ s.(parent) = Some p.

Lemma edge_push k v (m : Edges) x y : edge (push_edge k v m) x y <-> edge m x y \/ (x = k /\ y = v).
Proof.
  unfold edge, push_edge. destruct (decide (k = x)) as [->|Hne].
  - rewrite lookup_insert_eq. cbn [default from_option]. unfold id. rewrite elem_of_app, list_elem_of_singleton. tauto.
  - rewrite lookup_insert_ne by done. intuition congruence.
Qed.

Lemma fold_edges (f : Link -> option (Z * Z)) (g : Edges -> Link -> Edges) spans m x y :
  (forall m s, g m s = match f s with Some (k, v) => push_edge k v m | None => m end) ->
  edge (fold_left g spans m) x y <-> edge m x y \/ exists s, s ∈ spans /\ f s = Some (x, y).
Proof.
  intros Hg. revert m. induction spans as [|s spans IH]; intros m; cbn [fold_left].
  { split; [by left|]. intros [?|(s & Hs & _)]; [done|]. by apply not_elem_of_nil in Hs. }
  rewrite IH, Hg. setoid_rewrite elem_of_cons. destruct (f s) as [[k v]|] eqn:E.
  - rewrite edge_push. split.
    + intros [[?|[-> ->]]|(s' & ? & ?)]; [by left|right; exists s; split; [by left|done]|right; exists s'; split; [by right|done]].
    + intros [?|(s' & [->|?] & Es)]; [by left; left|left; right; split; congruence|right; by exists s'].
  - split.
    + intros [?|(s' & Hs & Es)]; [by left|]. right. exists s'. split; [by right|done].
    + intros [?|(s' & [->|Hs] & Es)]; [by left|congruence|]. right. by exists s'.
Qed.

Lemma edge_empty x y : ~ edge ∅ x y.
Proof. unfold edge. rewrite lookup_empty. apply not_elem_of_nil. Qed.

Lemma children_edge spans x y : edge (children_of spans) x y <-> link spans x y.
Proof.
  unfold children_of. rewrite (fold_edges (fun s => match parent s with Some p => Some (p, id_ s) | None => None end)) by (intros m s; by destruct (parent s)).
  unfold link. split.
  - intros [He|(s & Hs & Es)]; [by apply edge_empty in He|]. destruct (parent s) as [p|] eqn:Ep; [|done]. injection Es as -> <-. by exists s.
  - intros (s & Hs & <- & Hp). right. exists s. by rewrite Hp.
Qed.

Lemma parents_edge spans x y : edge (parents_of spans) x y <-> link spans y x.
Proof.
  unfold parents_of. rewrite (fold_edges (fun s => match parent s with Some p => Some (id_ s, p) | None => None end)) by (intros m s; by destruct (parent s)).
  unfold link. split.
  - intros [He|(s & Hs & Es)]; [by apply edge_empty in He|]. destruct (parent s) as [p|] eqn:Ep; [|done]. injection Es as <- ->. by exists s.
  - intros (s & Hs & <- & Hp). right. exists s. by rewrite Hp.
Qed.

(** The span is selected. *)
Definition chosen (spans : list Link) (current : list bool) (a : Link) : Prop := exists k : nat, spans !! k = Some a /\ current !! k = Some true.

Lemma chosen_zip spans current a : length current = length spans -> chosen spans current a <-> (a, true) ∈ zip spans current.
Proof.
  intros Hl. rewrite list_elem_of_lookup. unfold chosen. split; intros (k & H).
  - destruct H as [H1 H2]. exists k. apply lookup_zip_with_Some. by exists a, true.
  - apply lookup_zip_with_Some in H as (x & y & [= <- <-] & H1 & H2). by exists k.
Qed.

Lemma selected_ids_in spans current x : length current = length spans ->
  x ∈ selected_ids spans current <-> exists a, chosen spans current a /\ a.(id_) = x.
Proof.
  intros Hl. unfold selected_ids. rewrite list_elem_of_In, in_map_iff. split.
  - intros ([a c] & <- & Hin). apply filter_In in Hin as [Hin Hc]. cbn in Hc. subst c. exists a. split; [|done]. apply chosen_zip; [done|]. by apply list_elem_of_In.
  - intros (a & Ha & <-). exists (a, true). split; [done|]. apply filter_In. split; [|done]. apply list_elem_of_In. by apply chosen_zip.
Qed.

Lemma selected_parents_in spans current x : length current = length spans ->
  x ∈ selected_parents spans current <-> exists a, chosen spans current a /\ a.(parent) = Some x.
Proof.
  intros Hl. unfold selected_parents. rewrite list_elem_of_In, in_concat. split.
  - intros (l & Hl' & Hx). apply in_map_iff in Hl' as ([a c] & <- & Hin). apply filter_In in Hin as [Hin Hc]. cbn in Hc, Hx. subst c. exists a.
    split; [apply chosen_zip; [done|]; by apply list_elem_of_In|]. destruct (parent a); [|done]. by destruct Hx as [->|[]].
  - intros (a & Ha & Hp). exists [x]. split; [|by left]. apply in_map_iff. exists (a, true). cbn. rewrite Hp. split; [done|].
    apply filter_In. split; [|done]. apply list_elem_of_In. by apply chosen_zip.
Qed.

Lemma by_parent_in spans current p ids : length current = length spans -> by_parent spans current !! p = Some ids ->
  forall x, x ∈ ids <-> exists a, chosen spans current a /\ a.(parent) = Some p /\ a.(id_) = x.
Proof.
  intros Hl. setoid_rewrite (fun a => chosen_zip spans current a Hl). unfold by_parent.
  assert (G : forall (z : list (Link * bool)) (m : gmap Z (gset Z)) x, x ∈ default ∅ (fold_left (fun m e => match (fst e).(parent), snd e with
    | Some p, true => <[p := {[(fst e).(id_)]} ∪ default ∅ (m !! p)]> m | _, _ => m end) z m !! p) <->
    x ∈ default ∅ (m !! p) \/ exists a, (a, true) ∈ z /\ a.(parent) = Some p /\ a.(id_) = x).
  { induction z as [|[a c] z IH]; intros m x; cbn [fold_left fst snd].
    { split; [by left|]. intros [?|(a & Ha & _)]; [done|]. by apply not_elem_of_nil in Ha. }
    assert (Hcons : (exists a', (a', true) ∈ (a, c) :: z /\ parent a' = Some p /\ id_ a' = x) <->
      (c = true /\ parent a = Some p /\ id_ a = x) \/ exists a', (a', true) ∈ z /\ parent a' = Some p /\ id_ a' = x).
    { setoid_rewrite elem_of_cons. split.
      - intros (a' & [[= -> <-]|Ha] & H1 & H2); [by left|right; by exists a'].
      - intros [(-> & H1 & H2)|(a' & Ha & H1 & H2)]; [exists a; split; [by left|done]|exists a'; split; [by right|done]]. }
    rewrite IH, Hcons. destruct (parent a) as [q|] eqn:Eq; [destruct c|].
    - destruct (decide (q = p)) as [->|Hne].
      + rewrite lookup_insert_eq. cbn [default from_option]. unfold id. rewrite elem_of_union, elem_of_singleton. intuition congruence.
      + rewrite lookup_insert_ne by done. intuition congruence.
    - intuition congruence.
    - intuition congruence. }
  intros E x. specialize (G (zip spans current) ∅ x). rewrite E in G. cbn [default from_option] in G. unfold id in G. rewrite lookup_empty in G. cbn in G. rewrite G. split; [intros [Hx|?]; [by apply not_elem_of_empty in Hx|done]|by right].
Qed.

Lemma by_parent_some spans current a p : length current = length spans -> chosen spans current a -> a.(parent) = Some p -> by_parent spans current !! p <> None.
Proof.
  intros Hl Ha Hp. apply (chosen_zip _ _ _ Hl) in Ha. unfold by_parent.
  assert (G : forall (z : list (Link * bool)) (m : gmap Z (gset Z)), (m !! p <> None \/ (a, true) ∈ z) -> fold_left (fun m e => match (fst e).(parent), snd e with
    | Some p, true => <[p := {[(fst e).(id_)]} ∪ default ∅ (m !! p)]> m | _, _ => m end) z m !! p <> None).
  { induction z as [|[b c] z IH]; intros m Hm; cbn [fold_left fst snd]; [destruct Hm as [?|Hm]; [done|by apply not_elem_of_nil in Hm]|]. apply IH.
    destruct Hm as [Hm|Hm].
    - left. destruct (parent b) as [q|]; [|done]. destruct c; [|done]. destruct (decide (q = p)) as [->|]; [by rewrite lookup_insert_eq|by rewrite lookup_insert_ne].
    - apply elem_of_cons in Hm as [[= <- <-]|Hm]; [left; rewrite Hp; by rewrite lookup_insert_eq|by right]. }
  apply G. by right.
Qed.

(** * What a chain returns *)

(** The span [s] stands in the relation to a row the chain has selected. *)
Definition related (r : Relation) (spans : list Link) (P : nat -> Prop) (s : Link) : Prop :=
  exists (k : nat) a, spans !! k = Some a /\ P k /\
  match r with
  | Child => s.(parent) = Some a.(id_)
  | Parent => a.(parent) = Some s.(id_)
  | Descendant => exists p, s.(parent) = Some p /\ rtc (link spans) a.(id_) p
  | Ancestor => exists p, a.(parent) = Some p /\ rtc (link spans) s.(id_) p
  | Sibling => exists p, a.(parent) = Some p /\ s.(parent) = Some p /\ a.(id_) <> s.(id_)
  end.

(** The rows of spanset [i] or later that the rest of the chain returns, from
    the rows [P]. *)
Fixpoint returned (relations : list Relation) (i : Z) (spans : list Link) (P : nat -> Prop) : nat -> Prop :=
  match relations with
  | [] => P
  | r :: relations =>
      returned relations (i + 1) spans
        (fun j => exists s, spans !! j = Some s /\ Z.testbit s.(mask) (i + 1) = true /\ related r spans P s)
  end.

Lemma bit_test x k : 0 <= k -> negb (Z.land x (Z.shiftl 1 k) =? 0) = Z.testbit x k.
Proof.
  intros Hk. destruct (Z.testbit x k) eqn:E.
  - apply negb_true_iff, Z.eqb_neq. intros E0. apply (f_equal (fun z => Z.testbit z k)) in E0. rewrite Z.land_spec, Z.shiftl_spec, Z.sub_diag, E, Z.bits_0 in E0 by done. done.
  - apply negb_false_iff, Z.eqb_eq. apply Z.bits_inj'. intros n Hn. rewrite Z.land_spec, Z.bits_0. destruct (decide (n = k)) as [->|Hne]; [by rewrite E|].
    destruct (Z_lt_dec n k); [rewrite (Z.shiftl_spec_low 1 k n) by lia; apply andb_false_r|]. rewrite Z.shiftl_spec by done.
    rewrite (Z.bits_above_log2 1 (n - k)) by (cbn; lia). apply andb_false_r.
Qed.

Lemma map_size {A} (f : A -> Z) (l : list A) : (size (list_to_set (map f l) : gset Z) <= length l)%nat.
Proof.
  induction l as [|x l IH]; cbn [map list_to_set]; [by rewrite size_empty|]. cbn [length].
  rewrite size_union_alt, size_singleton. pose proof (subseteq_size (list_to_set (map f l) ∖ {[f x]} : gset Z) (list_to_set (map f l))) as Hs.
  specialize (Hs ltac:(set_solver)). lia.
Qed.

Lemma rtc_impl {A} (R S : A -> A -> Prop) x y : (forall a b, R a b -> S a b) -> rtc R x y -> rtc S x y.
Proof. intros H. induction 1 as [|a b c Hab _ IH]; [apply rtc_refl|]. eapply rtc_l; [by apply H|done]. Qed.

Lemma rtc_flip {A} (R S : A -> A -> Prop) x y : (forall a b, R a b -> S b a) -> rtc R x y -> rtc S y x.
Proof. intros H. induction 1 as [|a b c Hab _ IH]; [apply rtc_refl|]. eapply rtc_r; [done|by apply H]. Qed.

Section Join.
Context (spans : list Link) (current : list bool).
Hypothesis Hlen : length current = length spans.

Lemma down_ok : exists down, closure (closure_fuel spans) (elements (list_to_set (selected_ids spans current) : gset Z)) (children_of spans) = Ok down /\
  forall x, x ∈ down <-> exists a, chosen spans current a /\ rtc (link spans) a.(id_) x.
Proof.
  destruct (closure_ok (closure_fuel spans) (elements (list_to_set (selected_ids spans current) : gset Z)) (children_of spans) (list_to_set (map id_ spans)))
    as (r & E & Hr).
  - intros x y He. apply children_edge in He as (s & Hs & <- & _). apply elem_of_list_to_set, list_elem_of_In, in_map_iff. exists s. split; [done|by apply list_elem_of_In].
  - intros s Hs. apply elem_of_elements, elem_of_list_to_set, selected_ids_in in Hs as (a & (k & Ha & _) & <-); [|done].
    apply elem_of_list_to_set, list_elem_of_In, in_map_iff. exists a. split; [done|]. apply list_elem_of_In. by eapply list_elem_of_lookup_2.
  - apply map_size.
  - exists r. split; [done|]. intros x. rewrite Hr. split.
    + intros (s & Hs & Hx). apply elem_of_elements, elem_of_list_to_set, selected_ids_in in Hs as (a & Ha & <-); [|done]. exists a. split; [done|].
      eapply rtc_impl; [|exact Hx]. intros p c. apply children_edge.
    + intros (a & Ha & Hx). exists (id_ a). split; [apply elem_of_elements, elem_of_list_to_set, selected_ids_in; [done|by exists a]|].
      eapply rtc_impl; [|exact Hx]. intros p c. apply children_edge.
Qed.

Definition parent_or_zero (s : Link) : Z := default 0 s.(parent).

Lemma up_ok : exists up, closure (closure_fuel spans) (selected_parents spans current) (parents_of spans) = Ok up /\
  forall x, x ∈ up <-> exists a p, chosen spans current a /\ a.(parent) = Some p /\ rtc (link spans) x p.
Proof.
  destruct (closure_ok (closure_fuel spans) (selected_parents spans current) (parents_of spans) (list_to_set (map parent_or_zero spans))) as (r & E & Hr).
  - intros x y He. apply parents_edge in He as (s & Hs & _ & Hp). apply elem_of_list_to_set, list_elem_of_In, in_map_iff. exists s. unfold parent_or_zero. rewrite Hp. split; [done|by apply list_elem_of_In].
  - intros s Hs. apply selected_parents_in in Hs as (a & (k & Ha & _) & Hp); [|done].
    apply elem_of_list_to_set, list_elem_of_In, in_map_iff. exists a. unfold parent_or_zero. rewrite Hp. split; [done|]. apply list_elem_of_In. by eapply list_elem_of_lookup_2.
  - apply map_size.
  - exists r. split; [done|]. intros x. rewrite Hr. split.
    + intros (s & Hs & Hx). apply selected_parents_in in Hs as (a & Ha & Hp); [|done]. exists a, s. split_and!; [done|done|].
      eapply rtc_flip; [|exact Hx]. intros c p. apply parents_edge.
    + intros (a & p & Ha & Hp & Hx). exists p. split; [apply selected_parents_in; [done|by exists a]|]. eapply rtc_flip; [|exact Hx]. intros q c. by apply parents_edge.
Qed.

Definition selected_at (k : nat) : Prop := current !! k = Some true.

Lemma related_chosen r s (Q : Link -> Prop) : (forall a, Q a <-> match r with
  | Child => s.(parent) = Some a.(id_) | Parent => a.(parent) = Some s.(id_)
  | Descendant => exists p, s.(parent) = Some p /\ rtc (link spans) a.(id_) p
  | Ancestor => exists p, a.(parent) = Some p /\ rtc (link spans) s.(id_) p
  | Sibling => exists p, a.(parent) = Some p /\ s.(parent) = Some p /\ a.(id_) <> s.(id_) end) ->
  related r spans selected_at s <-> exists a, chosen spans current a /\ Q a.
Proof.
  intros HQ. unfold related, chosen, selected_at. split.
  - intros (k & a & H1 & H2 & H3). exists a. split; [by exists k|by apply HQ].
  - intros (a & (k & H1 & H2) & H3). exists k, a. split_and!; [done|done|by apply HQ].
Qed.

(** One join is exact. *)
Lemma join_ok r i : 0 <= i < 8 -> exists next, join r (Z.shiftl 1 i mod 256) spans current = Ok next /\ length next = length spans /\
  forall j s, spans !! j = Some s -> next !! j = Some true <-> Z.testbit s.(mask) i = true /\ related r spans selected_at s.
Proof.
  intros Hi. assert (Hbit : Z.shiftl 1 i mod 256 = Z.shiftl 1 i).
  { apply Z.mod_small. rewrite Z.shiftl_1_l. split; [apply Z.pow_nonneg; lia|]. change 256 with (2 ^ 8). apply Z.pow_lt_mono_r; lia. }
  rewrite Hbit. assert (Hgen : forall f (G : Link -> Prop), (forall s, f s = true <-> G s) -> forall j s, spans !! j = Some s ->
    map (fun s => candidate (Z.shiftl 1 i) s && f s) spans !! j = Some true <-> Z.testbit s.(mask) i = true /\ G s).
  { intros f G HfG j s Hs. rewrite list_lookup_fmap, Hs. cbn [fmap option_fmap option_map]. unfold candidate. rewrite bit_test by lia. rewrite <- HfG.
    split; [intros [= E]; by apply andb_true_iff|intros E; f_equal; by apply andb_true_iff]. }
  unfold join. cbv zeta. destruct r.
  - destruct down_ok as (down & -> & Hd). eexists. split; [done|]. split; [apply length_map|]. apply Hgen. intros s.
    rewrite (related_chosen Descendant s (fun a => exists p, parent s = Some p /\ rtc (link spans) (id_ a) p)) by done.
    destruct (parent s) as [p|]; [|split; [done|by intros (a & _ & q & ? & _)]]. rewrite bool_decide_eq_true, Hd. split.
    + intros (a & Ha & Hx). exists a. split; [done|by exists p].
    + intros (a & Ha & q & [= <-] & Hx). by exists a.
  - eexists. split; [done|]. split; [apply length_map|]. apply Hgen. intros s. rewrite (related_chosen Child s (fun a => parent s = Some (id_ a))) by done.
    destruct (parent s) as [p|]; [|split; [done|by intros (a & _ & ?)]]. rewrite bool_decide_eq_true, elem_of_list_to_set, selected_ids_in by done. split.
    + intros (a & Ha & <-). by exists a.
    + intros (a & Ha & [= ->]). by exists a.
  - destruct up_ok as (up & -> & Hu). eexists. split; [done|]. split; [apply length_map|]. apply Hgen. intros s.
    rewrite (related_chosen Ancestor s (fun a => exists p, parent a = Some p /\ rtc (link spans) (id_ s) p)) by done. rewrite bool_decide_eq_true, Hu. split.
    + intros (a & p & Ha & Hp & Hx). exists a. split; [done|by exists p].
    + intros (a & Ha & p & Hp & Hx). by exists a, p.
  - eexists. split; [done|]. split; [apply length_map|]. apply Hgen. intros s. rewrite (related_chosen Parent s (fun a => parent a = Some (id_ s))) by done.
    rewrite bool_decide_eq_true, elem_of_list_to_set, selected_parents_in by done. done.
  - eexists. split; [done|]. split; [apply length_map|]. apply Hgen. intros s.
    rewrite (related_chosen Sibling s (fun a => exists p, parent a = Some p /\ parent s = Some p /\ id_ a <> id_ s)) by done.
    destruct (parent s) as [p|]; [|split; [done|by intros (a & _ & q & _ & ? & _)]]. split.
    + destruct (by_parent spans current !! p) as [ids|] eqn:Eb; [|done]. intros Hex. apply existsb_exists in Hex as (x & Hx & Hne). bools.
      apply list_elem_of_In, elem_of_elements, (by_parent_in spans current p ids Hlen Eb) in Hx as (a & Ha & Hp & <-). exists a. split; [done|]. by exists p.
    + intros (a & Ha & q & Hp & [= <-] & Hne). destruct (by_parent spans current !! p) as [ids|] eqn:Eb; [|by apply (by_parent_some spans current a p) in Eb].
      apply existsb_exists. exists (id_ a). split; [|apply negb_true_iff; by apply Z.eqb_neq]. apply list_elem_of_In, elem_of_elements, (by_parent_in spans current p ids Hlen Eb). by exists a.
Qed.
End Join.

Lemma related_ext r spans P Q s : (forall k, P k <-> Q k) -> related r spans P s <-> related r spans Q s.
Proof. intros H. unfold related. by setoid_rewrite H. Qed.

Lemma returned_ext relations i spans P Q : (forall k, P k <-> Q k) -> forall j, returned relations i spans P j <-> returned relations i spans Q j.
Proof.
  revert i P Q. induction relations as [|r relations IH]; intros i P Q H j; cbn [returned]; [apply H|]. apply IH. intros k. by setoid_rewrite (related_ext r spans P Q _ H).
Qed.

Lemma joins_ok relations i spans current : 0 <= i -> i + len relations < 8 -> length current = length spans ->
  exists r, joins relations i spans current = Ok r /\ length r = length spans /\
    forall j, r !! j = Some true <-> returned relations i spans (fun k => current !! k = Some true) j.
Proof.
  revert i current. induction relations as [|rel relations IH]; intros i current Hi Hb Hl; cbn [joins returned]; [by exists current|].
  rewrite len_cons in Hb. destruct (join_ok spans current Hl rel (i + 1) ltac:(len_lia)) as (next & -> & Hn & Hj).
  destruct (IH (i + 1) next ltac:(lia) ltac:(lia) Hn) as (r & -> & Hr & Hret). exists r. split; [done|]. split; [done|]. intros j. rewrite Hret. apply returned_ext.
  intros k. split.
  - intros Hk. pose proof (lookup_lt_Some _ _ _ Hk) as Hlt. rewrite Hn in Hlt. destruct (lookup_lt_is_Some_2 spans k Hlt) as [s Hs]. exists s. split; [done|].
    by apply (Hj k s Hs).
  - intros (s & Hs & Hx). by apply (Hj k s Hs).
Qed.

(** C37. A chain of structural operators returns exactly the spans its
    relations describe, on every set of links: it always ends, with cycles and
    missing parents too, within one visit per span in each closure; a row is
    returned when its spanset bit is set and it stands in the relation to a
    row the chain has selected before, ancestors and descendants being the
    reachable ones through parent links. *)
Theorem structural_exact (relations : list Relation) (spans : list Link) : len relations < 8 ->
  exists r, structural relations spans = Ok r /\ length r = length spans /\
    forall j, r !! j = Some true <->
      returned relations 0 spans (fun k => exists s, spans !! k = Some s /\ Z.testbit s.(mask) 0 = true) j.
Proof.
  intros Hb. unfold structural. destruct (joins_ok relations 0 spans (map (fun s => negb (Z.land (mask s) 1 =? 0)) spans)) as (r & E & Hl & Hr); [lia|lia|apply length_map|].
  exists r. split; [done|]. split; [done|]. intros j. rewrite Hr. apply returned_ext. intros k. rewrite list_lookup_fmap.
  destruct (spans !! k) as [s|]; cbn [fmap option_fmap option_map]; [|split; [done|by intros (? & ? & _)]].
  pose proof (bit_test (mask s) 0 ltac:(lia)) as Hbit. change (Z.shiftl 1 0) with 1 in Hbit. rewrite Hbit. split; [intros [= E0]; by exists s|intros (s' & [= <-] & ->); done].
Qed.

(** A cycle of two spans under a third, and a leaf below the cycle. *)
Definition sample_spans : list Link := [mkLink 1 (Some 2) 1; mkLink 2 (Some 1) 2; mkLink 3 (Some 2) 2; mkLink 4 (Some 9) 2].

Lemma structural_exact_witness : len [Descendant] < 8 /\ structural [Descendant] sample_spans = Ok [false; true; true; false] /\
  returned [Descendant] 0 sample_spans (fun k => exists s, sample_spans !! k = Some s /\ Z.testbit s.(mask) 0 = true) 2%nat.
Proof.
  assert (Hb : len [Descendant] < 8) by (vm_compute; reflexivity). destruct (structural_exact [Descendant] sample_spans Hb) as (r & E & _ & Hr).
  assert (E' : structural [Descendant] sample_spans = Ok [false; true; true; false]) by (vm_compute; reflexivity). rewrite E' in E. injection E as <-.
  split_and!; [done|done|]. apply (Hr 2%nat). reflexivity.
Defined.
