(* ===== verification/TraceFields.v ===== *)
(** Reading stored trace rows (trace_search.rs, tempo_search.rs): the raw
    members of an object, strings and integers in them, with the errors of the
    trace queries; and what the raw readers of the JSON parser promise. *)

From S2P Require Import Prelude Utf8 External Float64 JsonRead.

Inductive Error : Type :=
| Invalid | Budget | Groups | Rows | Unknown | Root | RootUnknown | Timestamp | Duration | UnsupportedTag | DiscoveryWork.

Abbreviation Answer A := (res Error A).
Abbreviation RawFields := (list (Cow * bytes)).

(** [.map_err(|_| e)]. *)
Definition map_err {E F A} (e : F) (r : res E A) : res F A :=
  match r with Ok a => Ok a | Err _ => Err e | Fuel => Fuel end.

(** [s.parse::<i64>()]: an optional sign, at least one digit, in range. *)
Definition parse_i64 (s : bytes) : option Z :=
  let '(sign, digits) := match s with
                         | c :: l => if c =? 45 then (-1, l) else if c =? 43 then (1, l) else (1, s)
                         | [] => (1, [])
                         end in
  if (0 <? len digits) && forallb is_digit digits then checked_i64 (sign * digits_value digits) else None.

Section Fields.
Context `{SimdUtf8} `{Memchr2}.

Definition object (raw : bytes) : Answer RawFields :=
  let? (fields, p) := map_err Invalid (raw_object (Parser_new raw)) in
  let p := ws p in
  let? _ := map_err Invalid (jend p) in
  Ok fields.

Definition field (fields : RawFields) (name : bytes) : Answer bytes :=
  match List.filter (fun f => bytes_eqb (cow_bytes (fst f)) name) fields with
  | [] => Err Invalid
  | [(_, value)] => Ok value
  | _ :: _ :: _ => Err Invalid
  end.

Definition string (raw : bytes) : Answer bytes :=
  let? (value, p) := map_err Invalid (JsonRead.string (Parser_new raw)) in
  let p := ws p in
  let? _ := map_err Invalid (jend p) in
  if from_utf8_ok (cow_bytes value) then Ok (cow_bytes value) else Err Invalid.

(** [Parser::new(raw).raw_array()]; what follows the array is not read. *)
Definition array (raw : bytes) : Answer (list bytes) :=
  let? (values, _) := map_err Invalid (raw_array (Parser_new raw)) in Ok values.

Definition integer (raw : bytes) : Answer Z :=
  if from_utf8_ok raw then ok_or (parse_i64 raw) Invalid else Err Invalid.

(** * The raw readers answer *)

Lemma skip_value_moved p raw q : in_bounds p -> skip_value p = Ok (raw, q) -> moved 1 p q /\ raw = slice p.(jbuf) p.(jpos) q.(jpos).
Proof.
  unfold skip_value, value, value_top. intros Hp E. destruct (value_in _ _ _ _ _) as [[[[v q'] b'] st']| |] eqn:Ev; try done.
  injection E as <- <-. apply value_in_post in Ev as [Hm _]; [|done]. split; [done|]. by destruct Hm as (-> & _).
Qed.

Lemma skip_value_not_fuel p : in_bounds p -> skip_value p <> Fuel.
Proof.
  intros Hp. unfold skip_value, value. pose proof (value_top_not_fuel p skip_builder Stacks_new ordinary Hp).
  by destruct (value_top _ _ _ _) as [[[[v q'] b'] st']| |].
Qed.

Lemma raw_object_loop_not_fuel fuel p fields : in_bounds p -> remaining p < Z.of_nat fuel -> raw_object_loop fuel p fields <> Fuel.
Proof.
  revert p fields. induction fuel as [|fuel IH]; intros p fields Hp Hf; [unfold remaining, in_bounds in *; lia|]. cbn [raw_object_loop].
  pose proof (string_not_fuel p Hp). destruct (JsonRead.string p) as [[key p1]| |] eqn:E1; try done. apply string_moved in E1; [|done]. into_bounds.
  pose proof (colon_not_fuel p1). destruct (colon p1) as [p2| |] eqn:E2; try done. apply colon_moved in E2; [|done]. into_bounds.
  pose proof (skip_value_not_fuel p2 ltac:(done)). destruct (skip_value p2) as [[raw p3]| |] eqn:E3; try done. apply skip_value_moved in E3 as [E3 _]; [|done]. into_bounds.
  pose proof (object_next_not_fuel p3). destruct (object_next p3) as [[more p4]| |] eqn:E4; try done. apply object_next_moved in E4; [|done]. into_bounds.
  destruct more; [|done]. apply IH; [done|]. unfold remaining in *.
  repeat match goal with Hm : moved _ _ _ |- _ => apply moved_remaining in Hm end. lia.
Qed.

Lemma raw_object_not_fuel p : in_bounds p -> raw_object p <> Fuel.
Proof.
  intros Hp. unfold raw_object. pose proof (ws_moved p Hp). into_bounds.
  pose proof (expect_not_fuel (ws p) 123). destruct (expect (ws p) 123) as [p1| |] eqn:E1; try done. apply expect_moved in E1; [|done]. into_bounds.
  pose proof (object_open_not_fuel p1). destruct (object_open p1) as [[more p2]| |] eqn:E2; try done. apply object_open_moved in E2; [|done]. into_bounds.
  destruct more; [|done]. apply raw_object_loop_not_fuel; [done|]. unfold remaining, in_bounds, len in *. lia.
Qed.

Lemma raw_array_loop_not_fuel fuel p values : in_bounds p -> remaining p < Z.of_nat fuel -> raw_array_loop fuel p values <> Fuel.
Proof.
  revert p values. induction fuel as [|fuel IH]; intros p values Hp Hf; [unfold remaining, in_bounds in *; lia|]. cbn [raw_array_loop].
  pose proof (skip_value_not_fuel p ltac:(done)). destruct (skip_value p) as [[raw p1]| |] eqn:E1; try done. apply skip_value_moved in E1 as [E1 _]; [|done]. into_bounds.
  pose proof (ws_moved p1 ltac:(done)). into_bounds. pose proof (peek_not_fuel (ws p1)). destruct (peek (ws p1)) as [c| |] eqn:E2; try done.
  destruct (c =? 93); [done|]. destruct (c =? 44); [|done]. apply peek_moved in E2; [|done]. into_bounds. pose proof (ws_moved (adv (ws p1) 1) ltac:(done)). into_bounds.
  apply IH; [done|]. unfold remaining in *. repeat match goal with Hm : moved _ _ _ |- _ => apply moved_remaining in Hm end. lia.
Qed.

Lemma raw_array_not_fuel p : in_bounds p -> raw_array p <> Fuel.
Proof.
  intros Hp. unfold raw_array. pose proof (ws_moved p Hp). into_bounds.
  pose proof (expect_not_fuel (ws p) 91). destruct (expect (ws p) 91) as [p1| |] eqn:E1; try done. apply expect_moved in E1; [|done]. into_bounds.
  pose proof (ws_moved p1 ltac:(done)). into_bounds. pose proof (peek_not_fuel (ws p1)). destruct (peek (ws p1)) as [c| |]; try done.
  destruct (c =? 93); [done|]. apply raw_array_loop_not_fuel; [done|]. unfold remaining, in_bounds, len in *. lia.
Qed.

Lemma new_in_bounds raw : in_bounds (Parser_new raw).
Proof. unfold in_bounds, Parser_new. cbn [jpos jbuf]. len_lia. Qed.

Lemma jend_not_fuel p : jend p <> Fuel.
Proof. unfold jend. by destruct (_ =? _). Qed.

Lemma object_not_fuel raw : object raw <> Fuel.
Proof.
  unfold object. pose proof (raw_object_not_fuel _ (new_in_bounds raw)). destruct (raw_object _) as [[fields p]| |]; try done. cbn [map_err].
  pose proof (jend_not_fuel (ws p)). by destruct (jend (ws p)).
Qed.

Lemma array_not_fuel raw : array raw <> Fuel.
Proof. unfold array. pose proof (raw_array_not_fuel _ (new_in_bounds raw)). by destruct (raw_array _) as [[values p]| |]. Qed.

Lemma string_answers raw : string raw <> Fuel.
Proof.
  unfold string. pose proof (string_not_fuel _ (new_in_bounds raw)). destruct (JsonRead.string _) as [[value p]| |]; try done. cbn [map_err].
  pose proof (jend_not_fuel (ws p)). destruct (jend (ws p)); try done. cbn [map_err]. by destruct (from_utf8_ok _).
Qed.

Lemma field_not_fuel fields name : field fields name <> Fuel.
Proof. unfold field. by destruct (List.filter _ _) as [|[k v] [|]]. Qed.

Lemma integer_not_fuel raw : integer raw <> Fuel.
Proof. unfold integer. destruct (from_utf8_ok raw); [|done]. by destruct (parse_i64 raw). Qed.

Lemma parse_i64_range s n : parse_i64 s = Some n -> I64_MIN <= n <= I64_MAX.
Proof.
  unfold parse_i64, checked_i64. destruct (match s with [] => _ | _ => _ end) as [sign digits]. destruct (_ && _); [|done].
  destruct ((_ <=? _) && _) eqn:E; [|done]. intros [= <-]. bools. lia.
Qed.
End Fields.
#[export] Hint Resolve object_not_fuel array_not_fuel string_answers field_not_fuel integer_not_fuel : pulso.
