(* ===== verification/TempoExpression.v ===== *)
(** TraceQL span programs (tempo_expression.rs): compiling the postfix program
    of the front end, and evaluating it on one stored span.

    A program is a list of instructions, each four strings. It spells boolean
    trees in postfix order, one per spanset, joined by structural operators and
    followed by selections. [compile] is shown to be the exact parser of that
    notation, and [evaluate_with] to give the trees their meaning. *)

From S2P Require Import Prelude Utf8 External Float64 OrdMap Out JsonWrite JsonRead TraceFields Structural.

Definition WORK_MAX : Z := 20000000.
Definition SPANSETS_MAX : Z := 4.
Definition SELECT_MAX : Z := 8.
Definition PROGRAM_MAX : Z := 64.

(** Sampled values by key and owner. *)
Abbreviation Attributes := (@omap (bytes * bytes) bytes).
(** [Owner]: the raw typed values of one owner by key. *)
Abbreviation Owner := (@omap bytes bytes).

(** The validated envelope of trace_metadata.rs. *)
Record Envelope : Type := mkEnvelope { members : RawFields; resource_ : Z; span_ : Z }.

(** Comparing with a literal. *)
Definition eqs (s : bytes) (w : String.string) : bool := bytes_eqb s (str w).
Arguments eqs s w%_string_scope.
Definition among (s : bytes) (ws : list bytes) : bool := existsb (bytes_eqb s) ws.
Definition starts_with (s w : bytes) : bool := bool_decide (take (length w) s = w).
Definition ends_with (s w : bytes) : bool := bool_decide (drop (length s - length w) s = w).

(** [s.contains(w)]. *)
Fixpoint contains (s : bytes) (w : bytes) : bool :=
  bool_decide (take (length w) s = w) || match s with [] => false | _ :: s => contains s w end.

(** [scope.split('.').next()]. *)
Fixpoint before_dot (s : bytes) : bytes :=
  match s with
  | [] => []
  | c :: s => if c =? 46 then [] else c :: before_dot s
  end.

Definition compare (a b : Z) (op : bytes) : bool :=
  if eqs op "=" then a =? b
  else if eqs op "!=" then negb (a =? b)
  else if eqs op "<" then a <? b
  else if eqs op "<=" then a <=? b
  else if eqs op ">" then b <? a
  else if eqs op ">=" then b <=? a
  else false.

(** An instruction: scope, key, operator and wanted value. *)
Abbreviation Word := (bytes * bytes * bytes * bytes)%type.

Section Programs.
Context {Regex : Type} (anchored : bytes -> option Regex) (is_match : Regex -> bytes -> bool).
Context `{SimdUtf8} `{Memchr2}.

Inductive Instruction : Type :=
| And
| Or
| Leaf (scope key op wanted : bytes) (regex : option Regex).

Record Expression : Type := mkExpression {
  spansets : list (list Instruction);
  relations : list Relation;
  select : list (bytes * bytes);
  events : bool;
  attributes_ : bool;
  size_ : Z
}.

(** * Compiling *)

(** The variables of the loop; the spansets are the finished ones and [out],
    the last. *)
Record Compiling : Type := mkCompiling {
  c_leaves : Z; c_regexes : Z; c_stack : Z; c_events : bool; c_attributes : bool;
  c_finished : list (list Instruction); c_out : list Instruction;
  c_relations : list Relation; c_select : list (bytes * bytes)
}.

Definition select_valid (key op wanted : bytes) (selected : Z) : bool :=
  (if among key [str "resource"; str "span"; str "event"; str "none"] then (1 <=? len op) && (len op <=? 256)
   else if eqs key "intrinsic" then among op [str "name"; str "status"; str "kind"]
   else false) &&
  (len wanted =? 0) && negb (selected =? SELECT_MAX).

Definition relation_of (op : bytes) : option Relation :=
  if eqs op ">>" then Some Descendant
  else if eqs op ">" then Some Child
  else if eqs op "<<" then Some Ancestor
  else if eqs op "<" then Some Parent
  else if eqs op "~" then Some Sibling
  else None.

Definition boolean_of (op : bytes) : option Instruction :=
  if eqs op "&&" then Some And else if eqs op "||" then Some Or else None.

(** [let re = match scope ...], with the regexes counted so far. *)
Definition leaf_regex (scope key op wanted : bytes) (regexes : Z) : option (option Regex * Z) :=
  if among scope [str "resource.string"; str "span.string"; str "none.string"; str "event.string"] then
    if among op [str "="; str "!="] then Some (None, regexes)
    else if among op [str "=~"; str "!~"] then
      if (8 <? regexes + 1) || (1024 <? len wanted) then None
      else let* r := anchored wanted in Some (Some r, regexes + 1)
    else None
  else if among scope [str "resource.int"; str "span.int"; str "none.int"; str "event.int"; str "intrinsic"] then
    if negb (among op [str "="; str "!="; str "<"; str "<="; str ">"; str ">="]) then None
    else
      let* n := parse_i64 wanted in
      if eqs scope "intrinsic" &&
         (if eqs key "status" then negb (among op [str "="; str "!="]) || negb ((0 <=? n) && (n <=? 2))
          else if eqs key "duration" then n <? 0
          else true)
      then None else Some (None, regexes)
  else None.

Definition leaf_guard (key wanted : bytes) (leaves : Z) : bool :=
  (16 <? leaves) || (len key =? 0) || (256 <? len key) || (4096 <? len wanted) || contains wanted (str "${").

Definition compile_step (c : Compiling) (i : Word) : option Compiling :=
  let '(scope, key, op, wanted) := i in
  let '(mkCompiling leaves regexes stack events attributes finished out relations select) := c in
  if eqs scope "select" then
    if negb (select_valid key op wanted (len select)) then None
    else
      Some (mkCompiling leaves regexes stack (events || eqs key "event")
              (attributes || among key [str "resource"; str "span"; str "none"]) finished out relations (select ++ [(key, op)]))
  else if negb (len select =? 0) then None
  else if eqs scope "spanset" then
    let* relation := relation_of op in
    if negb (stack =? 1) || negb (len key =? 0) || negb (len wanted =? 0) then None
    else if len (finished ++ [out]) =? SPANSETS_MAX then None
    else Some (mkCompiling leaves regexes 0 events attributes (finished ++ [out]) [] (relations ++ [relation]) select)
  else if eqs scope "boolean" then
    if (stack <? 2) || negb (len key =? 0) || negb (len wanted =? 0) then None
    else
      let* instruction := boolean_of op in
      Some (mkCompiling leaves regexes (stack - 1) events attributes finished (out ++ [instruction]) relations select)
  else if leaf_guard key wanted (leaves + 1) then None
  else
    let* (re, regexes) := leaf_regex scope key op wanted regexes in
    Some (mkCompiling (leaves + 1) regexes (stack + 1) (events || starts_with scope (str "event."))
            (attributes || existsb (starts_with scope) [str "resource."; str "span."; str "none."])
            finished (out ++ [Leaf scope key op wanted re]) relations select).

Fixpoint compile_loop (program : list Word) (c : Compiling) : option Compiling :=
  match program with
  | [] => Some c
  | i :: program => let* c := compile_step c i in compile_loop program c
  end.

Definition compile_start : Compiling := mkCompiling 0 0 0 false false [] [] [] [].

Definition compile (program : list Word) : option Expression :=
  if (len program =? 0) || (PROGRAM_MAX <? len program) then None
  else
    let* c := compile_loop program compile_start in
    if c.(c_stack) =? 1 then
      Some (mkExpression (c.(c_finished) ++ [c.(c_out)]) c.(c_relations) c.(c_select) c.(c_events) c.(c_attributes) (len program))
    else None.

Definition span_local (e : Expression) : bool := (len e.(relations) =? 0) && (len e.(select) =? 0).

(** * Evaluating *)

Record Owners : Type := mkOwners { o_resource : Owner; o_span : Owner; o_events : list Owner }.

(** [string] without the copy. *)
Definition borrowed_string (raw : bytes) : Answer bytes := string raw.

Fixpoint attributes_loop (pairs : list bytes) (out : Owner) : Answer Owner :=
  match pairs with
  | [] => Ok out
  | p :: pairs =>
      let? entry := object p in
      let? key := field entry (str "key") in
      let? key := borrowed_string key in
      let? value := field entry (str "value") in
      match find key out with
      | Some _ => Err Invalid
      | None => attributes_loop pairs (put key value out)
      end
  end.

Definition attributes (raw : bytes) : Answer Owner :=
  let? pairs := array raw in attributes_loop pairs [].

Definition attribute_matches (raw : bytes) (string_type : bool) (op wanted : bytes) (regex : option Regex) : Answer bool :=
  let? value := object raw in
  if string_type then
    match field value (str "stringValue") with
    | Ok text =>
        let? text := string text in
        let positive := match regex with Some r => is_match r text | None => bytes_eqb text wanted end in
        Ok (if eqs op "!=" || eqs op "!~" then negb positive else positive)
    | Err _ => Ok false
    | Fuel => Fuel
    end
  else
    match field value (str "intValue") with
    | Ok n =>
        let? n := string n in
        let? stored := ok_or (parse_i64 n) Invalid in
        let? value := ok_or (parse_i64 wanted) Invalid in
        Ok (compare stored value op)
    | Err _ => Ok false
    | Fuel => Fuel
    end.

(** [["unset", "ok", "error"].get(code as usize)]. *)
Definition status_name (code : Z) : Answer bytes :=
  ok_or (get [str "unset"; str "ok"; str "error"] (wrap_u64 code)) Invalid.
Definition kind_name (kind : Z) : Answer bytes :=
  ok_or (get [str "unspecified"; str "internal"; str "server"; str "client"; str "producer"; str "consumer"] (wrap_u64 kind)) Invalid.

Definition status_code (fields : RawFields) : Answer Z :=
  let? status := field fields (str "status") in
  let? status := object status in
  let? code := field status (str "code") in
  integer code.

Definition string_value (s : bytes) : bytes := push (write_str ([123; 34] ++ str "stringValue" ++ [34; 58]) s) 125.

Fixpoint first_event (key : bytes) (events : list Owner) : option bytes :=
  match events with
  | [] => None
  | event :: events => match find key event with Some raw => Some raw | None => first_event key events end
  end.

Definition owner_value (name : String.string) (raw : option bytes) : option (bytes * bytes) :=
  match raw with Some raw => Some (str name, raw) | None => None end.
Arguments owner_value name%_string_scope raw.

Definition owners_select (o : Owners) (fields : RawFields) (scope key : bytes) : Answer (option (bytes * bytes)) :=
  if eqs scope "resource" then Ok (owner_value "resource" (find key o.(o_resource)))
  else if eqs scope "span" then Ok (owner_value "span" (find key o.(o_span)))
  else if eqs scope "none" then
    match find key o.(o_span) with
    | Some raw => Ok (owner_value "span" (Some raw))
    | None => Ok (owner_value "resource" (find key o.(o_resource)))
    end
  else if eqs scope "event" then Ok (owner_value "event" (first_event key o.(o_events)))
  else
    let? value :=
      if eqs key "name" then let? name := field fields (str "name") in string name
      else if eqs key "status" then let? code := status_code fields in status_name code
      else
        let? kind := field fields (str "kind") in
        let? kind := integer kind in kind_name kind in
    Ok (Some (str "intrinsic", string_value value)).

(** [for event in owners.events { ...; break }]. *)
Fixpoint event_matches (key op wanted : bytes) (regex : option Regex) (string_type : bool) (events : list Owner) : Answer (option bytes) :=
  match events with
  | [] => Ok None
  | event :: events =>
      match find key event with
      | Some raw =>
          let? matched := attribute_matches raw string_type op wanted regex in
          if matched then Ok (Some raw) else event_matches key op wanted regex string_type events
      | None => event_matches key op wanted regex string_type events
      end
  end.

(** The samples of an unscoped leaf: both owners. *)
Definition sample_owner (key op wanted : bytes) (regex : option Regex) (string_type : bool) (name : bytes) (owner : Owner) (attrs : Attributes)
    : Answer Attributes :=
  match find key owner with
  | Some raw =>
      let? matched := attribute_matches raw string_type op wanted regex in
      Ok (if matched then put (key, name) raw attrs else attrs)
  | None => Ok attrs
  end.

Definition or_else {A} (a b : option A) : option A := match a with Some x => Some x | None => b end.
Definition is_some {A} (a : option A) : bool := match a with Some _ => true | None => false end.

(** [let (matched, value) = ...], with the samples taken on the way. *)
Definition leaf_value (fields : RawFields) (o : Owners) (attrs : option Attributes) (scope key op wanted : bytes) (regex : option Regex)
    : Answer (bool * option bytes * option Attributes) :=
  let collect := is_some attrs in
  let string_type := ends_with scope (str ".string") in
  if eqs scope "intrinsic" then
    let? n :=
      if eqs key "status" then status_code fields
      else
        let? end_ := field fields (str "end_timestamp_ns") in
        let? end_ := integer end_ in
        let? start := field fields (str "timestamp_ns") in
        let? start := integer start in
        Ok (as_i64 (end_ - start)) in
    let? value :=
      if collect && eqs key "status" then let? status := status_name n in Ok (Some ([123; 34] ++ str "stringValue" ++ [34; 58; 34] ++ status ++ [34; 125]))
      else Ok None in
    let? value_ := ok_or (parse_i64 wanted) Invalid in
    Ok (compare n value_ op, value, attrs)
  else if starts_with scope (str "event.") then
    let? found := event_matches key op wanted regex string_type o.(o_events) in
    Ok (is_some found, if collect then found else None, attrs)
  else if starts_with scope (str "none.") then
    let? attrs :=
      match attrs with
      | Some attrs =>
          let? attrs := sample_owner key op wanted regex string_type (str "resource") o.(o_resource) attrs in
          let? attrs := sample_owner key op wanted regex string_type (str "span") o.(o_span) attrs in
          Ok (Some attrs)
      | None => Ok None
      end in
    let? matched :=
      match or_else (find key o.(o_span)) (find key o.(o_resource)) with
      | Some raw => attribute_matches raw string_type op wanted regex
      | None => Ok false
      end in
    Ok (matched, None, attrs)
  else
    let owner := if starts_with scope (str "resource.") then o.(o_resource) else o.(o_span) in
    match find key owner with
    | None => Ok (false, None, attrs)
    | Some raw =>
        let? matched := attribute_matches raw string_type op wanted regex in
        Ok (matched, if collect && matched then Some raw else None, attrs)
    end.

(** One leaf of [run]: its truth and the samples after it. *)
Definition leaf (fields : RawFields) (o : Owners) (attrs : option Attributes) (scope key op wanted : bytes) (regex : option Regex)
    : Answer (bool * option Attributes) :=
  let? (matched, value, attrs) := leaf_value fields o attrs scope key op wanted regex in
  let attrs :=
    if matched then
      match value, attrs with
      | Some value, Some attrs => Some (put (key, before_dot scope) value attrs)
      | _, _ => attrs
      end
    else attrs in
  Ok (matched, attrs).

(** The stack machine; the head of [stack] is its top. *)
Fixpoint run_loop (program : list Instruction) (fields : RawFields) (o : Owners) (attrs : option Attributes) (stack : list bool)
    : Answer (list bool * option Attributes) :=
  match program with
  | [] => Ok (stack, attrs)
  | Leaf scope key op wanted regex :: program =>
      let? (matched, attrs) := leaf fields o attrs scope key op wanted regex in
      run_loop program fields o attrs (matched :: stack)
  | instruction :: program =>
      match stack with
      | rhs :: lhs :: stack =>
          run_loop program fields o attrs ((match instruction with And => lhs && rhs | _ => lhs || rhs end) :: stack)
      | _ => Err Invalid
      end
  end.

Definition run (program : list Instruction) (fields : RawFields) (o : Owners) (attrs : option Attributes) : Answer (bool * option Attributes) :=
  let? (stack, attrs) := run_loop program fields o attrs [] in
  match stack with
  | matched :: _ => Ok (matched, attrs)
  | [] => Err Invalid
  end.

Record Evaluation : Type := mkEvaluation { matched : bool; mask_ : Z; sampled : Attributes }.

(** [for (i, program) in self.spansets.iter().enumerate()]. *)
Fixpoint run_spansets (programs : list (list Instruction)) (i last : Z) (collect : bool) (fields : RawFields) (o : Owners) (attrs : Attributes) (mask : Z)
    : Answer (Attributes * Z) :=
  match programs with
  | [] => Ok (attrs, mask)
  | program :: programs =>
      let sink := if collect && (i =? last) then Some attrs else None in
      let? (matched, sink) := run program fields o sink in
      let attrs := default attrs sink in
      let mask := if matched then Z.lor mask (Z.shiftl 1 i mod 256) else mask in
      run_spansets programs (i + 1) last collect fields o attrs mask
  end.

Fixpoint run_selects (selects : list (bytes * bytes)) (fields : RawFields) (o : Owners) (attrs : Attributes) : Answer Attributes :=
  match selects with
  | [] => Ok attrs
  | (scope, key) :: selects =>
      let? found := owners_select o fields scope key in
      let attrs :=
        match found with
        | Some (owner, value) => match find (key, owner) attrs with Some _ => attrs | None => put (key, owner) value attrs end
        | None => attrs
        end in
      run_selects selects fields o attrs
  end.

Fixpoint event_owners (raws : list bytes) (units : Z) (out : list Owner) : Answer (list Owner * Z) :=
  match raws with
  | [] => Ok (out, units)
  | raw :: raws =>
      let? owner := attributes raw in
      event_owners raws (units + 1 + len owner) (out ++ [owner])
  end.

(** The owners a program reads and the work they cost. *)
Definition load (e : Expression) (fields : RawFields) (envelope : option Envelope) : Answer (Owners * Z) :=
  let? meta :=
    match envelope with
    | Some envelope => Ok envelope.(members)
    | None => let? otlp := field fields (str "otlp") in object otlp
    end in
  let build :=
    let? resource := field meta (str "resource") in
    let? resource := attributes resource in
    let? span := field meta (str "attributes") in
    let? span := attributes span in
    Ok (resource, span, len resource + len span) in
  let? (resource, span, owned) :=
    match envelope with
    | Some envelope => if negb e.(attributes_) then Ok ([], [], envelope.(resource_) + envelope.(span_)) else build
    | None => build
    end in
  let units := 2 + owned + e.(size_) in
  let? (events, units) :=
    if e.(events) then
      let? raw := field meta (str "events") in
      let? raws := array raw in
      event_owners raws units []
    else Ok ([], units) in
  Ok (mkOwners resource span events, units).

Definition evaluate_with (e : Expression) (fields : RawFields) (envelope : option Envelope) (work : Z) (collect : bool) : Answer (Evaluation * Z) :=
  let? (owners, units) := load e fields envelope in
  let? work := ok_or (checked_u64 (work + units)) Budget in
  if WORK_MAX <? work then Err Budget
  else
    let last := len e.(spansets) - 1 in
    let? (attrs, mask) := run_spansets e.(spansets) 0 last collect fields owners [] 0 in
    let? attrs := if collect then run_selects e.(select) fields owners attrs else Ok attrs in
    Ok (mkEvaluation (negb (Z.land mask (Z.shiftl 1 last mod 256) =? 0)) mask attrs, work).

Definition evaluate (e : Expression) (fields : RawFields) (work : Z) (collect : bool) : Answer (Evaluation * Z) :=
  evaluate_with e fields None work collect.

(** * The notation *)

(** A spanset: leaves under conjunctions and disjunctions. *)
Inductive Tree : Type :=
| TLeaf (scope key op wanted : bytes) (regex : option Regex)
| TBoth (l r : Tree)
| TEither (l r : Tree).

Fixpoint postfix (t : Tree) : list Instruction :=
  match t with
  | TLeaf scope key op wanted regex => [Leaf scope key op wanted regex]
  | TBoth l r => postfix l ++ postfix r ++ [And]
  | TEither l r => postfix l ++ postfix r ++ [Or]
  end.

Definition boolean_word (op : bytes) : Word := (str "boolean", [], op, []).
Definition relation_text (r : Relation) : bytes :=
  match r with
  | Descendant => str ">>" | Child => str ">" | Ancestor => str "<<" | Parent => str "<" | Sibling => str "~"
  end.
Definition spanset_word (r : Relation) : Word := (str "spanset", [], relation_text r, []).
Definition select_word (s : bytes * bytes) : Word := (str "select", fst s, snd s, []).

Fixpoint spelled (t : Tree) : list Word :=
  match t with
  | TLeaf scope key op wanted _ => [(scope, key, op, wanted)]
  | TBoth l r => spelled l ++ spelled r ++ [boolean_word (str "&&")]
  | TEither l r => spelled l ++ spelled r ++ [boolean_word (str "||")]
  end.

(** A property of the leaves, counted or tested. *)
Fixpoint leaf_count (t : Tree) : Z :=
  match t with TLeaf _ _ _ _ _ => 1 | TBoth l r | TEither l r => leaf_count l + leaf_count r end.
Definition regex_count (r : option Regex) : Z := if is_some r then 1 else 0.
Fixpoint tree_regexes (t : Tree) : Z :=
  match t with TLeaf _ _ _ _ r => regex_count r | TBoth l r | TEither l r => tree_regexes l + tree_regexes r end.
Fixpoint some_leaf (f : bytes -> bool) (t : Tree) : bool :=
  match t with TLeaf scope _ _ _ _ => f scope | TBoth l r | TEither l r => some_leaf f l || some_leaf f r end.

(** A leaf by itself: its sizes, and its operator and value fit its scope. *)
Definition leaf_ok (scope key op wanted : bytes) (regex : option Regex) : Prop :=
  leaf_guard key wanted 0 = false /\ leaf_regex scope key op wanted 0 = Some (regex, regex_count regex).
Fixpoint tree_ok (t : Tree) : Prop :=
  match t with TLeaf scope key op wanted regex => leaf_ok scope key op wanted regex | TBoth l r | TEither l r => tree_ok l /\ tree_ok r end.

(** Spansets joined so far with the operator after each, the trees of the open
    spanset, and the selections. *)
Record Draft : Type := mkDraft { joined : list (Tree * Relation); open_ : list Tree; selects : list (bytes * bytes) }.

Definition trees (d : Draft) : list Tree := map fst d.(joined) ++ d.(open_).
Definition total {A} (f : A -> Z) (l : list A) : Z := foldr (fun x n => f x + n) 0 l.

Definition spell (d : Draft) : list Word :=
  concat (map (fun e => spelled (fst e) ++ [spanset_word (snd e)]) d.(joined)) ++ concat (map spelled d.(open_)) ++ map select_word d.(selects).

Definition reads_event (scope : bytes) : bool := starts_with scope (str "event.").
Definition reads_attribute (scope : bytes) : bool := existsb (starts_with scope) [str "resource."; str "span."; str "none."].
Definition selects_event (s : bytes * bytes) : bool := eqs (fst s) "event".
Definition selects_attribute (s : bytes * bytes) : bool := among (fst s) [str "resource"; str "span"; str "none"].

(** The limits of a program. *)
Record bounded (d : Draft) : Prop := mkBounded {
  b_trees : Forall tree_ok (trees d);
  b_leaves : total leaf_count (trees d) <= 16;
  b_regexes : total tree_regexes (trees d) <= 8;
  b_joined : len d.(joined) < SPANSETS_MAX;
  b_selects : len d.(selects) <= SELECT_MAX;
  b_select : Forall (fun s => select_valid (fst s) (snd s) [] 0 = true) d.(selects)
}.

(** What the compiler's variables hold after the spelling of a draft. *)
Definition built (d : Draft) : Compiling :=
  mkCompiling (total leaf_count (trees d)) (total tree_regexes (trees d)) (len d.(open_))
    (existsb (some_leaf reads_event) (trees d) || existsb selects_event d.(selects))
    (existsb (some_leaf reads_attribute) (trees d) || existsb selects_attribute d.(selects))
    (map (fun e => postfix (fst e)) d.(joined)) (concat (map postfix d.(open_))) (map snd d.(joined)) d.(selects).

Definition expression_of (d : Draft) : Expression :=
  mkExpression (map postfix (trees d)) (map snd d.(joined)) d.(selects)
    (existsb (some_leaf reads_event) (trees d) || existsb selects_event d.(selects))
    (existsb (some_leaf reads_attribute) (trees d) || existsb selects_attribute d.(selects)) (len (spell d)).

Lemma total_of_app {A} (f : A -> Z) l k : total f (l ++ k) = total f l + total f k.
Proof. unfold total. induction l as [|x l IH]; cbn [app foldr]; lia. Qed.

Lemma total_of_one {A} (f : A -> Z) x : total f [x] = f x.
Proof. unfold total. cbn. lia. Qed.

Lemma eqs_true s w : eqs s w = true <-> s = str w.
Proof. apply bytes_eqb_eq. Qed.

Lemma among_in s l : among s l = true <-> s ∈ l.
Proof.
  unfold among. rewrite existsb_exists. split.
  - intros (x & Hx & E). apply bytes_eqb_eq in E as ->. by apply list_elem_of_In.
  - intros Hs. exists s. split; [by apply list_elem_of_In|by apply bytes_eqb_eq].
Qed.

Lemma relation_iff op r : relation_of op = Some r <-> op = relation_text r.
Proof.
  split; [|intros ->; by destruct r]. unfold relation_of.
  repeat match goal with |- context[eqs op ?w] => destruct (eqs op w) eqn:?E; [apply eqs_true in E; intros [= <-]; exact E|clear E] end. done.
Qed.

Lemma boolean_iff op i : boolean_of op = Some i <-> (op = str "&&" /\ i = And) \/ (op = str "||" /\ i = Or).
Proof.
  unfold boolean_of. split.
  - destruct (eqs op "&&") eqn:E1; [apply eqs_true in E1; intros [= <-]; by left|]. destruct (eqs op "||") eqn:E2; [apply eqs_true in E2; intros [= <-]; by right|done].
  - by intros [[-> ->]|[-> ->]].
Qed.

Definition scopes : list bytes :=
  [str "resource.string"; str "span.string"; str "none.string"; str "event.string"; str "resource.int"; str "span.int"; str "none.int"; str "event.int"; str "intrinsic"].

Lemma leaf_scopes scope key op wanted n re m : leaf_regex scope key op wanted n = Some (re, m) -> scope ∈ scopes.
Proof.
  unfold leaf_regex. intros E. change scopes with ([str "resource.string"; str "span.string"; str "none.string"; str "event.string"] ++
    [str "resource.int"; str "span.int"; str "none.int"; str "event.int"; str "intrinsic"]). apply elem_of_app.
  destruct (among scope _) eqn:E1 in E; [apply among_in in E1; by left|]. destruct (among scope _) eqn:E2 in E; [apply among_in in E2; by right|done].
Qed.

(** A fact of each scope, by evaluation. *)
Ltac each_scope Hs := unfold scopes in Hs; repeat (apply elem_of_cons in Hs as [->|Hs]; [vm_compute; tauto|]); by apply not_elem_of_nil in Hs.

(** The scope of a leaf is none of the other instructions'. *)
Lemma leaf_scope scope key op wanted n re m : leaf_regex scope key op wanted n = Some (re, m) ->
  eqs scope "select" = false /\ eqs scope "spanset" = false /\ eqs scope "boolean" = false.
Proof. intros Hs%leaf_scopes. each_scope Hs. Qed.

(** The count of regexes only limits. *)
Lemma leaf_regex_iff scope key op wanted n re m : 0 <= n <= 8 -> leaf_regex scope key op wanted n = Some (re, m) <->
  leaf_regex scope key op wanted 0 = Some (re, regex_count re) /\ m = n + regex_count re /\ m <= 8.
Proof.
  intros Hn. unfold leaf_regex. destruct (among scope _).
  - destruct (among op _); [|destruct (among op _); [|split; [done|by intros [? _]]]].
    + split; [intros [= <- <-]; cbn; split_and!; [done|lia|lia]|intros (E & -> & _)]. injection E as <-. cbn. by rewrite Z.add_0_r.
    + change (8 <? 0 + 1) with false. cbn [orb]. destruct (1024 <? len wanted); [rewrite orb_true_r; split; [done|by intros [? _]]|]. rewrite orb_false_r.
      destruct (anchored wanted) as [r|]; [|destruct (8 <? n + 1); split; try done; by intros [? _]].
      destruct (8 <? n + 1) eqn:E8; bools.
      * split; [done|]. intros (E & -> & Hm). injection E as <-. cbn in Hm. lia.
      * split; [intros [= <- <-]; cbn; split_and!; [done|lia|lia]|intros (E & -> & _)]. injection E as <-. done.
  - destruct (among scope _); [|split; [done|by intros [? _]]]. destruct (negb _); [split; [done|by intros [? _]]|]. destruct (parse_i64 wanted) as [z|]; [|split; [done|by intros [? _]]].
    destruct (_ && _); [split; [done|by intros [? _]]|].
    split; [intros [= <- <-]; cbn; split_and!; [done|lia|lia]|intros (E & -> & _)]. injection E as <-. cbn. by rewrite Z.add_0_r.
Qed.

Lemma leaf_guard_iff key wanted n : leaf_guard key wanted n = false <-> n <= 16 /\ leaf_guard key wanted 0 = false.
Proof. unfold leaf_guard. change (16 <? 0) with false. rewrite !orb_false_iff, Z.ltb_ge. tauto. Qed.

Lemma select_valid_iff key op wanted n : 0 <= n <= SELECT_MAX -> select_valid key op wanted n = true <-> wanted = [] /\ n < SELECT_MAX /\ select_valid key op [] 0 = true.
Proof.
  intros Hn. unfold select_valid. change (len (@nil Z) =? 0) with true. change (negb (0 =? SELECT_MAX)) with true. rewrite !andb_true_r, !andb_true_iff, negb_true_iff, Z.eqb_eq, Z.eqb_neq.
  assert (Hw : len wanted = 0 <-> wanted = []) by (unfold len; destruct wanted; cbn; split; [done|done|lia|done]). rewrite Hw. split; [intros [[? ?] ?]; split_and!; [done|lia|done]|intros (? & ? & ?); split_and!; [done|done|lia]].
Qed.

(** * The compiler parses the notation *)

Lemma leaf_count_pos t : 1 <= leaf_count t.
Proof. induction t; cbn; lia. Qed.
Lemma tree_regexes_nonneg t : 0 <= tree_regexes t.
Proof. induction t; cbn; [unfold regex_count; by destruct (is_some _)|lia..]. Qed.
Lemma total_of_nonneg {A} (f : A -> Z) l : (forall x, 0 <= f x) -> 0 <= total f l.
Proof. intros Hf. unfold total. induction l as [|x l IH]; cbn; [lia|]. specialize (Hf x). lia. Qed.

Lemma len_zero {A} (l : list A) : (len l =? 0) = true <-> l = [].
Proof. rewrite Z.eqb_eq. unfold len. destruct l; cbn; split; (done || lia). Qed.
Lemma len_one {A} (l : list A) : (len l =? 1) = true -> exists x, l = [x].
Proof. rewrite Z.eqb_eq. unfold len. destruct l as [|x [|]]; cbn; intros E; [lia|by exists x|lia]. Qed.
Lemma len_two {A} (l : list A) : 2 <= len l -> exists k x y, l = k ++ [x; y].
Proof.
  intros Hl. destruct (rev l) as [|y [|x k]] eqn:E; apply (f_equal (@rev _)) in E; rewrite rev_involutive in E; subst l; [unfold len in Hl; cbn in Hl; lia..|].
  exists (rev k), x, y. cbn. by rewrite <- app_assoc.
Qed.

Definition with_open (d : Draft) (o : list Tree) : Draft := mkDraft d.(joined) o d.(selects).

Lemma trees_open j o s t : trees (mkDraft j (o ++ [t]) s) = trees (mkDraft j o s) ++ [t].
Proof. unfold trees. cbn. by rewrite app_assoc. Qed.

Lemma spell_open j o t : spell (mkDraft j (o ++ [t]) []) = spell (mkDraft j o []) ++ spelled t.
Proof. unfold spell. cbn. by rewrite map_app, concat_app, !app_nil_r, <- app_assoc; cbn; rewrite app_nil_r. Qed.

(** What each instruction does to the variables of a draft. *)
Lemma built_leaf j o scope key op wanted regex : built (mkDraft j (o ++ [TLeaf scope key op wanted regex]) []) =
  let c := built (mkDraft j o []) in
  mkCompiling (c.(c_leaves) + 1) (c.(c_regexes) + regex_count regex) (c.(c_stack) + 1) (c.(c_events) || reads_event scope)
    (c.(c_attributes) || reads_attribute scope) c.(c_finished) (c.(c_out) ++ [Leaf scope key op wanted regex]) c.(c_relations) [].
Proof.
  unfold built. cbn zeta. rewrite !trees_open, !total_of_app, !total_of_one, !existsb_app. cbn. rewrite map_app, concat_app, !orb_false_r. cbn. f_equal. len_lia.
Qed.

Lemma built_boolean j o l r (t : Tree) i : postfix t = postfix l ++ postfix r ++ [i] -> leaf_count t = leaf_count l + leaf_count r ->
  tree_regexes t = tree_regexes l + tree_regexes r -> (forall f, some_leaf f t = some_leaf f l || some_leaf f r) ->
  built (mkDraft j (o ++ [t]) []) =
  let c := built (mkDraft j (o ++ [l; r]) []) in
  mkCompiling c.(c_leaves) c.(c_regexes) (c.(c_stack) - 1) c.(c_events) c.(c_attributes) c.(c_finished) (c.(c_out) ++ [i]) c.(c_relations) [].
Proof.
  intros Hp Hl Hr Hs. unfold built, trees. cbn zeta. cbn [joined open_ selects c_leaves c_regexes c_stack c_events c_attributes c_finished c_out c_relations].
  rewrite !total_of_app, !existsb_app, !map_app, !concat_app. cbn [map concat total foldr existsb]. rewrite Hp, Hl, Hr, !Hs, !app_nil_r, !app_assoc, !orb_false_r. f_equal; len_lia.
Qed.

Lemma bounded_tail j o s t : bounded (mkDraft j (o ++ [t]) s) -> bounded (mkDraft j o s) /\ tree_ok t.
Proof.
  intros [H1 H2 H3 H4 H5 H6]. rewrite trees_open in *. apply Forall_app in H1 as [H1 Ht]. apply list.Forall_cons in Ht as [Ht _].
  rewrite total_of_app, total_of_one in *. pose proof (leaf_count_pos t). pose proof (tree_regexes_nonneg t).
  split; [|done]. constructor; [done|lia|lia|done..].
Qed.

Lemma bounded_pair j o l r (t : Tree) : leaf_count t = leaf_count l + leaf_count r -> tree_regexes t = tree_regexes l + tree_regexes r -> (tree_ok t <-> tree_ok l /\ tree_ok r) ->
  bounded (mkDraft j (o ++ [t]) []) <-> bounded (mkDraft j (o ++ [l; r]) []).
Proof.
  intros Hl Hr Ht. assert (Htr : trees (mkDraft j (o ++ [l; r]) []) = trees (mkDraft j o []) ++ [l; r]) by (unfold trees; cbn; by rewrite app_assoc).
  split; intros [H1 H2 H3 H4 H5 H6]; constructor; try done.
  all: rewrite ?trees_open, ?Htr, ?total_of_app, ?list.Forall_app, ?list.Forall_cons, ?list.Forall_nil in *; unfold total in *; cbn [foldr] in *; try lia; tauto.
Qed.

Lemma counts_start (d : Draft) : bounded d -> 0 <= total tree_regexes (trees d) <= 8.
Proof. intros Hb. split; [apply total_of_nonneg, tree_regexes_nonneg|apply (b_regexes d Hb)]. Qed.

(** The step on a leaf, on an operator, on a join and on a selection. *)
Lemma step_leaf j o scope key op wanted regex : bounded (mkDraft j (o ++ [TLeaf scope key op wanted regex]) []) ->
  compile_step (built (mkDraft j o [])) (scope, key, op, wanted) = Some (built (mkDraft j (o ++ [TLeaf scope key op wanted regex]) [])).
Proof.
  intros Hb. destruct (bounded_tail _ _ _ _ Hb) as [Hb0 [Hg Hre]]. pose proof Hb as [_ H2 H3 _ _ _]. rewrite trees_open, total_of_app, total_of_one in H2, H3. cbn [leaf_count tree_regexes] in H2, H3.
  destruct (leaf_scope _ _ _ _ _ _ _ Hre) as (E1 & E2 & E3). rewrite built_leaf. unfold compile_step, built at 1. cbn [selects]. rewrite E1, E2, E3.
  change (negb (len (@nil (bytes * bytes)) =? 0)) with false. cbn iota. rewrite (proj2 (leaf_guard_iff key wanted _)) by (split; [exact H2|done]).
  rewrite (proj2 (leaf_regex_iff scope key op wanted _ regex _ (counts_start _ Hb0))) by (split_and!; [done|reflexivity|lia]). done.
Qed.

Lemma step_boolean j o l r (t : Tree) op i : postfix t = postfix l ++ postfix r ++ [i] -> leaf_count t = leaf_count l + leaf_count r ->
  tree_regexes t = tree_regexes l + tree_regexes r -> (forall f, some_leaf f t = some_leaf f l || some_leaf f r) -> boolean_of op = Some i ->
  compile_step (built (mkDraft j (o ++ [l; r]) [])) (boolean_word op) = Some (built (mkDraft j (o ++ [t]) [])).
Proof.
  intros Hp Hl Hr Hs Ho. rewrite (built_boolean j o l r t i) by done. unfold compile_step, boolean_word, built at 1. cbn [selects open_].
  change (eqs (str "boolean") "select") with false. change (eqs (str "boolean") "spanset") with false. change (eqs (str "boolean") "boolean") with true.
  change (negb (len (@nil (bytes * bytes)) =? 0)) with false. cbn iota. rewrite Ho. destruct (len (o ++ [l; r]) <? 2) eqn:E; [bools; exfalso; revert E; len_lia|]. done.
Qed.

Lemma built_join j t r : built (mkDraft (j ++ [(t, r)]) [] []) =
  let c := built (mkDraft j [t] []) in
  mkCompiling c.(c_leaves) c.(c_regexes) 0 c.(c_events) c.(c_attributes) (c.(c_finished) ++ [c.(c_out)]) [] (c.(c_relations) ++ [r]) [].
Proof. unfold built, trees. cbn. by rewrite !map_app, !app_nil_r. Qed.

Lemma step_join j t r : len j + 1 < SPANSETS_MAX -> compile_step (built (mkDraft j [t] [])) (spanset_word r) = Some (built (mkDraft (j ++ [(t, r)]) [] [])).
Proof.
  intros Hj. rewrite built_join. unfold compile_step, spanset_word, built at 1. cbn [selects open_ joined]. change (eqs (str "spanset") "select") with false. change (eqs (str "spanset") "spanset") with true.
  change (negb (len (@nil (bytes * bytes)) =? 0)) with false. cbn iota. rewrite (proj2 (relation_iff _ r)) by done. cbn [len length Z.of_nat negb orb]. change (negb (len [t] =? 1)) with false. change (len (@nil Z) =? 0) with true. cbn [negb orb].
  destruct (len (_ ++ _) =? SPANSETS_MAX) eqn:E; [|done]. bools. exfalso. revert E. rewrite len_app, len_map. change (len [concat (map postfix [t])]) with 1. lia.
Qed.

Lemma built_select d s : built (mkDraft d.(joined) d.(open_) (d.(selects) ++ [s])) =
  let c := built d in
  mkCompiling c.(c_leaves) c.(c_regexes) c.(c_stack) (c.(c_events) || selects_event s) (c.(c_attributes) || selects_attribute s) c.(c_finished) c.(c_out) c.(c_relations) (c.(c_select) ++ [s]).
Proof. unfold built. destruct d. cbn. rewrite !existsb_app. cbn. by rewrite !orb_false_r, !orb_assoc. Qed.

Lemma step_select d s : select_valid (fst s) (snd s) [] 0 = true -> len d.(selects) < SELECT_MAX ->
  compile_step (built d) (select_word s) = Some (built (mkDraft d.(joined) d.(open_) (d.(selects) ++ [s]))).
Proof.
  intros Hs Hl. rewrite built_select. unfold compile_step, select_word, built at 1. change (eqs (str "select") "select") with true. cbn iota.
  rewrite (proj2 (select_valid_iff (fst s) (snd s) [] (len d.(selects)) ltac:(len_lia))) by done. cbn [negb]. by destruct s.
Qed.

Lemma compile_loop_app p q c : compile_loop (p ++ q) c = let* c := compile_loop p c in compile_loop q c.
Proof. revert c. induction p as [|i p IH]; intros c; cbn [app compile_loop]; [done|]. by destruct (compile_step c i). Qed.

(** A well-formed tree is compiled in one piece. *)
Lemma compile_tree t : forall j o, bounded (mkDraft j (o ++ [t]) []) ->
  compile_loop (spelled t) (built (mkDraft j o [])) = Some (built (mkDraft j (o ++ [t]) [])).
Proof.
  induction t as [scope key op wanted regex|l IHl r IHr|l IHl r IHr]; intros j o Hb; cbn [spelled]; [cbn [compile_loop]; by rewrite (step_leaf j o scope key op wanted regex Hb)|..].
  - assert (Hb2 : bounded (mkDraft j ((o ++ [l]) ++ [r]) [])) by (rewrite <- app_assoc; by apply (bounded_pair j o l r (TBoth l r) eq_refl eq_refl (iff_refl _))).
    destruct (bounded_tail _ _ _ _ Hb2) as [Hb1 _]. rewrite compile_loop_app, (IHl j o Hb1), compile_loop_app, (IHr j (o ++ [l]) Hb2), <- app_assoc. cbn [app compile_loop].
    by rewrite (step_boolean j o l r (TBoth l r) _ And).
  - assert (Hb2 : bounded (mkDraft j ((o ++ [l]) ++ [r]) [])) by (rewrite <- app_assoc; by apply (bounded_pair j o l r (TEither l r) eq_refl eq_refl (iff_refl _))).
    destruct (bounded_tail _ _ _ _ Hb2) as [Hb1 _]. rewrite compile_loop_app, (IHl j o Hb1), compile_loop_app, (IHr j (o ++ [l]) Hb2), <- app_assoc. cbn [app compile_loop].
    by rewrite (step_boolean j o l r (TEither l r) _ Or).
Qed.

Lemma compile_joined j1 j2 : bounded (mkDraft (j1 ++ j2) [] []) ->
  compile_loop (concat (map (fun e => spelled (fst e) ++ [spanset_word (snd e)]) j2)) (built (mkDraft j1 [] [])) = Some (built (mkDraft (j1 ++ j2) [] [])).
Proof.
  revert j1. induction j2 as [|[t r] j2 IH]; intros j1 Hb; cbn [map concat compile_loop]; [by rewrite app_nil_r|].
  assert (Hj : len j1 + 1 < SPANSETS_MAX \/ len j1 + 1 = SPANSETS_MAX /\ False) by (pose proof (b_joined _ Hb) as Hl; cbn in Hl; left; revert Hl; len_lia).
  destruct Hj as [Hj|[_ []]]. assert (Hb1 : bounded (mkDraft j1 ([] ++ [t]) [])).
  { destruct Hb as [H1 H2 H3 H4 H5 H6]. unfold trees in *. cbn [joined open_] in *. rewrite map_app, !app_nil_r in *. cbn [map fst] in *.
    rewrite list.Forall_app, list.Forall_cons in H1. rewrite total_of_app in H2, H3. cbn [total foldr] in H2, H3. unfold total in H2, H3. cbn [foldr] in H2, H3.
    pose proof (total_of_nonneg leaf_count (map fst j2) ltac:(intros x; pose proof (leaf_count_pos x); lia)). pose proof (total_of_nonneg tree_regexes (map fst j2) tree_regexes_nonneg).
    constructor; unfold trees; cbn [joined open_ selects app]; rewrite ?list.Forall_app, ?list.Forall_cons, ?total_of_app, ?total_of_one; unfold total in *; [|lia|lia| |done|done].
    - split; [tauto|split; [tauto|constructor]].
    - unfold SPANSETS_MAX in *. lia. }
  cbn [fst snd]. rewrite <- app_assoc, compile_loop_app, (compile_tree t j1 [] Hb1). cbn [compile_loop app]. rewrite step_join by done. replace (j1 ++ (t, r) :: j2) with ((j1 ++ [(t, r)]) ++ j2) in * by by rewrite <- app_assoc.
  by apply IH.
Qed.

Lemma compile_selects j o s1 s2 : bounded (mkDraft j o (s1 ++ s2)) -> compile_loop (map select_word s2) (built (mkDraft j o s1)) = Some (built (mkDraft j o (s1 ++ s2))).
Proof.
  revert s1. induction s2 as [|s s2 IH]; intros s1 Hb; cbn [map compile_loop]; [by rewrite app_nil_r|].
  pose proof (b_select _ Hb) as Hs. cbn [selects] in Hs. apply list.Forall_app in Hs as [_ Hs]. apply list.Forall_cons in Hs as [Hs _]. pose proof (b_selects _ Hb) as Hl. cbn [selects] in Hl.
  rewrite step_select; [|done|cbn; revert Hl; len_lia]. cbn [joined open_ selects]. replace (s1 ++ s :: s2) with ((s1 ++ [s]) ++ s2) in * by by rewrite <- app_assoc. by apply IH.
Qed.

Lemma bounded_less j o s : bounded (mkDraft j o s) -> bounded (mkDraft j o []) /\ bounded (mkDraft j [] []).
Proof.
  intros [H1 H2 H3 H4 H5 H6]. split; constructor; unfold trees in *; cbn [joined open_ selects] in *; rewrite ?app_nil_r; try done.
  - by apply list.Forall_app in H1 as [H1 _].
  - rewrite total_of_app in H2. pose proof (total_of_nonneg leaf_count o ltac:(intros x; pose proof (leaf_count_pos x); lia)). lia.
  - rewrite total_of_app in H3. pose proof (total_of_nonneg tree_regexes o tree_regexes_nonneg). lia.
Qed.

Lemma compile_spell j t s : bounded (mkDraft j [t] s) -> compile_loop (spell (mkDraft j [t] s)) compile_start = Some (built (mkDraft j [t] s)).
Proof.
  intros Hb. destruct (bounded_less _ _ _ Hb) as [Hb1 Hb2]. unfold spell. cbn [joined open_ selects map concat]. rewrite app_nil_r, compile_loop_app.
  change compile_start with (built (mkDraft [] [] [])). rewrite (compile_joined [] j Hb2). cbn [app]. rewrite compile_loop_app, (compile_tree t j [] Hb1). cbn [app]. by apply compile_selects.
Qed.

(** Every step of the compiler extends the draft by the instruction. *)
Lemma step_back d i c : bounded d -> compile_step (built d) i = Some c -> exists d', c = built d' /\ spell d' = spell d ++ [i] /\ bounded d'.
Proof.
  destruct i as [[[scope key] op] wanted]. intros Hb E. pose proof E as E0. unfold compile_step, built in E.
  destruct (eqs scope "select") eqn:Esel.
  { apply eqs_true in Esel as ->. destruct (select_valid key op wanted (len (selects d))) eqn:Ev; [|done]. clear E. pose proof (b_selects _ Hb) as Hsl.
    apply select_valid_iff in Ev as (-> & Hl & Hv); [|len_lia]. change (str "select", key, op, @nil Z) with (select_word (key, op)) in *. rewrite step_select in E0 by done. injection E0 as <-.
    eexists. split; [done|]. split; [unfold spell; cbn [joined open_ selects]; by rewrite map_app, !app_assoc|]. destruct Hb as [H1 H2 H3 H4 H5 H6]. constructor; cbn [joined open_ selects]; try done; [len_lia|].
    apply list.Forall_app. split; [done|]. by constructor. }
  destruct (len (selects d) =? 0) eqn:Es; [|done]. apply len_zero in Es. destruct d as [j o s]. cbn [joined open_ selects] in *. subst s.
  destruct (eqs scope "spanset") eqn:Esp.
  { apply eqs_true in Esp as ->. destruct (relation_of op) as [r|] eqn:Er; [|done]. apply relation_iff in Er as ->. destruct (negb (len o =? 1)) eqn:Eo; [done|]. apply negb_false_iff, len_one in Eo as [t ->].
    destruct (len key =? 0) eqn:Ek; [|done]. apply len_zero in Ek as ->. destruct (len wanted =? 0) eqn:Ew; [|done]. apply len_zero in Ew as ->. cbn [orb negb] in E.
    destruct (len (_ ++ _) =? SPANSETS_MAX) eqn:El; [done|]. clear E. assert (Hj : len j + 1 < SPANSETS_MAX).
    { apply Z.eqb_neq in El. pose proof (b_joined _ Hb) as Hl. cbn [joined] in Hl. rewrite len_app, len_map in El. change (len [concat (map postfix [t])]) with 1 in El. lia. }
    change (str "spanset", @nil Z, relation_text r, @nil Z) with (spanset_word r) in *. rewrite step_join in E0 by done. injection E0 as <-. eexists. split; [done|].
    split; [unfold spell; cbn [joined open_ selects map concat]; by rewrite map_app, concat_app; cbn; rewrite !app_nil_r, <- !app_assoc|].
    destruct Hb as [H1 H2 H3 H4 H5 H6]. unfold trees in *. cbn [joined open_ selects] in *. constructor; unfold trees; cbn [joined open_ selects]; rewrite ?map_app, ?app_nil_r; try done. len_lia. }
  destruct (eqs scope "boolean") eqn:Ebo.
  { apply eqs_true in Ebo as ->. destruct (len o <? 2) eqn:Eo; [done|]. bools. destruct (len_two o Eo) as (o' & l & r & ->).
    destruct (len key =? 0) eqn:Ek; [|done]. apply len_zero in Ek as ->. destruct (len wanted =? 0) eqn:Ew; [|done]. apply len_zero in Ew as ->. cbn [orb negb] in E.
    destruct (boolean_of op) as [i|] eqn:Ei; [|done]. clear E. change (str "boolean", @nil Z, op, @nil Z) with (boolean_word op) in *.
    pose proof Ei as Ei'. apply boolean_iff in Ei' as [[-> ->]|[-> ->]].
    - rewrite (step_boolean j o' l r (TBoth l r) _ And) in E0 by done. injection E0 as <-. eexists. split; [done|]. split; [|by apply (bounded_pair j o' l r (TBoth l r) eq_refl eq_refl (iff_refl _))].
      unfold spell. cbn [joined open_ selects map]. rewrite !map_app, !concat_app. cbn [map concat spelled]. by rewrite !app_nil_r, <- !app_assoc.
    - rewrite (step_boolean j o' l r (TEither l r) _ Or) in E0 by done. injection E0 as <-. eexists. split; [done|]. split; [|by apply (bounded_pair j o' l r (TEither l r) eq_refl eq_refl (iff_refl _))].
      unfold spell. cbn [joined open_ selects map]. rewrite !map_app, !concat_app. cbn [map concat spelled]. by rewrite !app_nil_r, <- !app_assoc. }
  destruct (leaf_guard _ _ _) eqn:Eg in E; [done|]. destruct (leaf_regex _ _ _ _ _) as [[re m]|] eqn:Ere in E; [|done]. clear E.
  apply leaf_guard_iff in Eg as [Hl Hg]. apply (leaf_regex_iff _ _ _ _ _ _ _ (counts_start _ Hb)) in Ere as (Hre & -> & Hm).
  assert (Hb' : bounded (mkDraft j (o ++ [TLeaf scope key op wanted re]) [])).
  { destruct Hb as [H1 H2 H3 H4 H5 H6]. constructor; rewrite ?trees_open, ?total_of_app, ?total_of_one; try done. apply list.Forall_app. split; [done|]. by repeat constructor. }
  rewrite (step_leaf _ _ _ _ _ _ _ Hb') in E0. injection E0 as <-. eexists. split; [done|]. split; [apply spell_open|done].
Qed.

Lemma loop_back program d c : bounded d -> compile_loop program (built d) = Some c -> exists d', c = built d' /\ spell d' = spell d ++ program /\ bounded d'.
Proof.
  revert d. induction program as [|i program IH]; intros d Hb E; cbn [compile_loop] in E.
  { injection E as <-. exists d. by rewrite app_nil_r. }
  destruct (compile_step (built d) i) as [c1|] eqn:E1; [|done]. apply step_back in E1 as (d1 & -> & Hs1 & Hb1); [|done].
  apply IH in E as (d' & -> & Hs & Hb'); [|done]. exists d'. split; [done|]. by rewrite Hs, Hs1, <- app_assoc.
Qed.

Lemma bounded_nil : bounded (mkDraft [] [] []).
Proof. constructor; cbn; try constructor; unfold SPANSETS_MAX, SELECT_MAX; len_lia. Qed.

(** The expression of a complete program. *)
Lemma compile_iff program e : compile program = Some e <->
  exists j t s, program = spell (mkDraft j [t] s) /\ bounded (mkDraft j [t] s) /\ len program <= PROGRAM_MAX /\ e = expression_of (mkDraft j [t] s).
Proof.
  unfold compile. split.
  - destruct (len program =? 0); [done|]. destruct (PROGRAM_MAX <? len program) eqn:El; [done|]. cbn [orb]. bools. intros E.
    destruct (compile_loop program compile_start) as [c|] eqn:Ec; [|done]. change compile_start with (built (mkDraft [] [] [])) in Ec.
    apply loop_back in Ec as ([j o s] & -> & Hs & Hb); [|exact bounded_nil]. cbn [app] in Hs. change (spell (mkDraft [] [] [])) with (@nil Word) in Hs. cbn [app] in Hs.
    cbn [built c_stack open_] in E. destruct (len o =? 1) eqn:Eo; [|done]. apply len_one in Eo as [t ->]. injection E as <-. exists j, t, s. split_and!; [done|done|done|].
    unfold expression_of, built, trees. rewrite <- Hs. cbn. by rewrite !map_app, !app_nil_r, map_map.
  - intros (j & t & s & -> & Hb & Hl & ->). assert (Hne : (len (spell (mkDraft j [t] s)) =? 0) = false).
    { apply not_true_iff_false. rewrite len_zero. unfold spell. cbn. intros E0. apply app_eq_nil in E0 as [_ E0]. apply app_eq_nil in E0 as [E0 _]. rewrite app_nil_r in E0. clear -E0. destruct t; [done|..]; cbn in E0;
        apply app_eq_nil in E0 as [_ E0]; by apply app_eq_nil in E0 as [_ E0]. }
    rewrite Hne. destruct (PROGRAM_MAX <? _) eqn:E; [bools; lia|]. cbn [orb]. rewrite compile_spell by done. cbn. change (len [t] =? 1) with true. cbn iota. unfold expression_of, trees. cbn. by rewrite !map_app, !app_nil_r, map_map.
Qed.

(** * What an expression means *)

(** The truth of a spanset on a span: every leaf is decided, in order. *)
Fixpoint truth (fields : RawFields) (o : Owners) (t : Tree) : Answer bool :=
  match t with
  | TLeaf scope key op wanted regex => let? (b, _) := leaf fields o None scope key op wanted regex in Ok b
  | TBoth l r => let? a := truth fields o l in let? b := truth fields o r in Ok (a && b)
  | TEither l r => let? a := truth fields o l in let? b := truth fields o r in Ok (a || b)
  end.

(** The same with the samples taken on the way. *)
Fixpoint holds (fields : RawFields) (o : Owners) (attrs : option Attributes) (t : Tree) : Answer (bool * option Attributes) :=
  match t with
  | TLeaf scope key op wanted regex => leaf fields o attrs scope key op wanted regex
  | TBoth l r =>
      let? (a, attrs) := holds fields o attrs l in
      let? (b, attrs) := holds fields o attrs r in Ok (a && b, attrs)
  | TEither l r =>
      let? (a, attrs) := holds fields o attrs l in
      let? (b, attrs) := holds fields o attrs r in Ok (a || b, attrs)
  end.

Lemma run_tree t fields o : forall rest attrs stack, run_loop (postfix t ++ rest) fields o attrs stack =
  let? (b, attrs) := holds fields o attrs t in run_loop rest fields o attrs (b :: stack).
Proof.
  induction t as [scope key op wanted regex|l IHl r IHr|l IHl r IHr]; intros rest attrs stack; cbn [postfix app run_loop holds]; [done|..].
  all: rewrite <- !app_assoc, IHl; destruct (holds fields o attrs l) as [[a attrs1]| |]; [|done..]; rewrite IHr; by destruct (holds fields o attrs1 r) as [[b attrs2]| |].
Qed.

(** The stack machine never runs out of operands. *)
Lemma run_postfix t fields o attrs : run (postfix t) fields o attrs = holds fields o attrs t.
Proof. unfold run. rewrite <- (app_nil_r (postfix t)), run_tree. by destruct (holds fields o attrs t) as [[b a]| |]. Qed.

(** Sampling does not change the truth of a leaf. *)
Lemma leaf_truth fields o attrs scope key op wanted regex b attrs' : leaf fields o attrs scope key op wanted regex = Ok (b, attrs') ->
  leaf fields o None scope key op wanted regex = Ok (b, None) /\ is_some attrs' = is_some attrs.
Proof.
  destruct attrs as [attrs|]; [|intros E; split; [|]; revert E; unfold leaf; destruct (leaf_value _ _ _ _ _ _ _ _) as [[[m v] a]| |] eqn:Ev; try done].
  2: { assert (Ha : a = None); [|subst a; destruct m, v; intros [= <- <-]; done]. revert Ev. unfold leaf_value. cbn [is_some andb].
       repeat match goal with |- context[match ?e with _ => _ end] => lazymatch e with context[match _ with _ => _ end] => fail | _ => destruct e end end; try done; by intros [= <- <- <-]. }
  2: { assert (Ha : a = None); [|subst a; destruct m, v; intros [= <- <-]; done]. revert Ev. unfold leaf_value. cbn [is_some andb].
       repeat match goal with |- context[match ?e with _ => _ end] => lazymatch e with context[match _ with _ => _ end] => fail | _ => destruct e end end; try done; by intros [= <- <- <-]. }
  unfold leaf, leaf_value. cbn [is_some andb]. destruct (eqs scope "intrinsic").
  - destruct (if eqs key "status" then _ else _) as [n| |]; [|done..]. destruct (if eqs key "status" then let? status := status_name n in _ else _) as [v| |]; [|done..].
    destruct (ok_or (parse_i64 wanted) Invalid) as [z| |]; [|done..]. destruct (compare n z op); [destruct v|]; intros [= <- <-]; done.
  - destruct (starts_with scope (str "event.")).
    { destruct (event_matches _ _ _ _ _ _) as [found| |]; [|done..]. destruct found; intros [= <- <-]; done. }
    destruct (starts_with scope (str "none.")).
    { destruct (sample_owner _ _ _ _ _ _ _ _) as [a1| |]; [|done..]. destruct (sample_owner _ _ _ _ _ _ _ a1) as [a2| |]; [|done..].
      destruct (match or_else _ _ with Some _ => _ | None => _ end) as [m| |]; [|done..]. destruct m; intros [= <- <-]; done. }
    destruct (find key _) as [raw|]; [|by intros [= <- <-]]. destruct (attribute_matches _ _ _ _ _) as [m| |]; [|done..]. destruct m; intros [= <- <-]; done.
Qed.

Lemma holds_truth fields o t : forall attrs b attrs', holds fields o attrs t = Ok (b, attrs') -> truth fields o t = Ok b /\ is_some attrs' = is_some attrs.
Proof.
  induction t as [scope key op wanted regex|l IHl r IHr|l IHl r IHr]; intros attrs b attrs' E; cbn [holds truth] in *.
  - apply leaf_truth in E as [-> Hs]. done.
  - destruct (holds fields o attrs l) as [[x a1]| |] eqn:El; [|done..]. destruct (holds fields o a1 r) as [[y a2]| |] eqn:Er; [|done..]. injection E as <- <-.
    apply IHl in El as [-> H1']. apply IHr in Er as [-> H2']. split; [done|congruence].
  - destruct (holds fields o attrs l) as [[x a1]| |] eqn:El; [|done..]. destruct (holds fields o a1 r) as [[y a2]| |] eqn:Er; [|done..]. injection E as <- <-.
    apply IHl in El as [-> H1']. apply IHr in Er as [-> H2']. split; [done|congruence].
Qed.

Lemma holds_none fields o t : holds fields o None t = let? b := truth fields o t in Ok (b, None).
Proof.
  induction t as [scope key op wanted regex|l IHl r IHr|l IHl r IHr]; cbn [holds truth].
  - destruct (leaf fields o None scope key op wanted regex) as [[b a]| |] eqn:E; [|done..]. apply leaf_truth in E as [_ Hs]. by destruct a.
  - rewrite IHl. destruct (truth fields o l); [|done..]. rewrite IHr. by destruct (truth fields o r).
  - rewrite IHl. destruct (truth fields o l); [|done..]. rewrite IHr. by destruct (truth fields o r).
Qed.

(** ** Every evaluation answers *)

Lemma ok_or_answers {A} (x : option A) (e : Error) : ok_or x e <> Fuel.
Proof. by destruct x. Qed.
Hint Resolve ok_or_answers : pulso.

Ltac answers :=
  lazymatch goal with
  | |- (match ?e with _ => _ end) <> Fuel =>
      lazymatch type of e with
      | res _ _ => let Hf := fresh in assert (Hf : e <> Fuel) by answers; destruct e; [|discriminate|by destruct Hf]; clear Hf; answers
      | _ => destruct e; answers
      end
  | |- _ => first [discriminate | eauto with pulso]
  end.

Lemma attribute_matches_answers raw st op wanted regex : attribute_matches raw st op wanted regex <> Fuel.
Proof. unfold attribute_matches. answers. Qed.
Lemma status_name_answers n : status_name n <> Fuel.
Proof. unfold status_name. answers. Qed.
Lemma kind_name_answers n : kind_name n <> Fuel.
Proof. unfold kind_name. answers. Qed.
Lemma status_code_answers fields : status_code fields <> Fuel.
Proof. unfold status_code. answers. Qed.
Hint Resolve attribute_matches_answers status_name_answers kind_name_answers status_code_answers : pulso.
Lemma event_matches_answers key op wanted regex st evs : event_matches key op wanted regex st evs <> Fuel.
Proof. induction evs as [|e evs IH]; cbn [event_matches]; [done|]. answers. Qed.
Lemma sample_owner_answers key op wanted regex st name o attrs : sample_owner key op wanted regex st name o attrs <> Fuel.
Proof. unfold sample_owner. answers. Qed.
Hint Resolve event_matches_answers sample_owner_answers : pulso.
Lemma leaf_answers fields o attrs scope key op wanted regex : leaf fields o attrs scope key op wanted regex <> Fuel.
Proof.
  unfold leaf. assert (Hl : leaf_value fields o attrs scope key op wanted regex <> Fuel) by (unfold leaf_value; cbv zeta; answers).
  by destruct (leaf_value _ _ _ _ _ _ _ _) as [[[m v] a]| |].
Qed.

Lemma holds_answers fields o t : forall attrs, holds fields o attrs t <> Fuel.
Proof.
  induction t as [scope key op wanted regex|l IHl r IHr|l IHl r IHr]; intros attrs; cbn [holds]; [apply leaf_answers|..].
  all: specialize (IHl attrs); destruct (holds fields o attrs l) as [[x a]| |]; [|done..]; specialize (IHr a); by destruct (holds fields o a r) as [[y a']| |].
Qed.

Lemma owners_select_answers o fields scope key : owners_select o fields scope key <> Fuel.
Proof. unfold owners_select. answers. Qed.

Lemma run_selects_answers ss fields o : forall attrs, run_selects ss fields o attrs <> Fuel.
Proof.
  induction ss as [|[scope key] ss IH]; intros attrs; cbn [run_selects]; [done|]. pose proof (owners_select_answers o fields scope key). destruct (owners_select _ _ _ _); [apply IH|done..].
Qed.

Lemma attributes_answers raw : attributes raw <> Fuel.
Proof.
  unfold attributes. pose proof (array_not_fuel raw). destruct (array raw) as [pairs| |]; [|done..]. generalize (@nil (bytes * bytes)). induction pairs as [|p pairs IH]; intros out; cbn [attributes_loop]; [done|].
  unfold borrowed_string. answers.
Qed.
Hint Resolve attributes_answers : pulso.

Lemma event_owners_answers raws : forall units out, event_owners raws units out <> Fuel.
Proof. induction raws as [|raw raws IH]; intros units out; cbn [event_owners]; [done|]. answers. Qed.
Hint Resolve event_owners_answers : pulso.

Lemma load_answers e fields envelope : load e fields envelope <> Fuel.
Proof. unfold load. cbv zeta. answers. Qed.

(** ** Masks *)

Definition set_bit (b : bool) (i m : Z) : Z := if b then Z.lor m (Z.shiftl 1 i mod 256) else m.

Lemma set_bit_ok b i m : 0 <= i < 8 -> 0 <= m < 2 ^ i ->
  0 <= set_bit b i m < 2 ^ (i + 1) /\ forall k, 0 <= k -> Z.testbit (set_bit b i m) k = if k =? i then b else Z.testbit m k.
Proof.
  intros Hi Hm. assert (Hs : Z.shiftl 1 i mod 256 = 2 ^ i).
  { rewrite Z.shiftl_1_l. apply Z.mod_small. split; [lia|]. change 256 with (2 ^ 8). apply Z.pow_lt_mono_r; lia. }
  assert (Hp : 2 ^ (i + 1) = 2 * 2 ^ i) by (rewrite Z.pow_add_r by lia; lia).
  assert (Hhigh : forall k, i <= k -> Z.testbit m k = false).
  { intros k Hk. destruct (Z.eq_dec m 0) as [->|Hne]; [apply Z.bits_0|]. apply Z.bits_above_log2; [lia|]. apply Z.log2_lt_pow2; [lia|]. eapply Z.lt_le_trans; [apply Hm|]. apply Z.pow_le_mono_r; lia. }
  assert (Hbits : forall k, 0 <= k -> Z.testbit (set_bit b i m) k = if k =? i then b else Z.testbit m k).
  { intros k Hk. unfold set_bit. destruct b.
    - rewrite Hs, Z.lor_spec, Z.pow2_bits_eqb by lia. rewrite (Z.eqb_sym i k). destruct (k =? i); [apply orb_true_r|apply orb_false_r].
    - destruct (Z.eqb_spec k i) as [->|]; [|done]. by apply Hhigh. }
  split; [|done]. unfold set_bit. destruct b; [|lia]. rewrite Hs. replace (Z.lor m (2 ^ i)) with (m + 2 ^ i); [lia|].
  rewrite <- Z.add_lor_land. enough (Z.land m (2 ^ i) = 0) by lia. apply Z.bits_inj'. intros k Hk. rewrite Z.land_spec, Z.bits_0, Z.pow2_bits_eqb by lia.
  destruct (Z.eqb_spec i k) as [<-|]; [by rewrite Hhigh by lia|apply andb_false_r].
Qed.

(** The bits of the mask are the truths of the spansets. *)
Lemma run_spansets_ok fields o last collect ts : forall i attrs mask, 0 <= i -> i + len ts <= 8 -> 0 <= mask < 2 ^ i ->
  match run_spansets (map postfix ts) i last collect fields o attrs mask with
  | Fuel => False
  | Err _ => collect = false -> exists t, t ∈ ts /\ forall b, truth fields o t <> Ok b
  | Ok (attrs', mask') => 0 <= mask' < 2 ^ (i + len ts) /\ (forall k, 0 <= k < i -> Z.testbit mask' k = Z.testbit mask k) /\
      (forall (k : nat) t, ts !! k = Some t -> truth fields o t = Ok (Z.testbit mask' (i + Z.of_nat k))) /\ (collect = false -> attrs' = attrs)
  end.
Proof.
  induction ts as [|t ts IH]; intros i attrs mask Hi Hl Hm; cbn [map run_spansets].
  { change (len (@nil Tree)) with 0. rewrite Z.add_0_r. by split_and!; try lia. }
  rewrite len_cons in *. rewrite run_postfix. pose proof (holds_answers fields o t (if collect && (i =? last) then Some attrs else None)) as Ha.
  destruct (holds fields o _ t) as [[b sink]|er|] eqn:Eh; [| |done].
  - pose proof (len_nonneg ts) as Hts. pose proof Eh as Eh'. apply holds_truth in Eh' as [Ht _]. destruct (set_bit_ok b i mask ltac:(lia) Hm) as [Hr Hb]. fold (set_bit b i mask).
    specialize (IH (i + 1) (default attrs sink) (set_bit b i mask) ltac:(lia) ltac:(lia) Hr). destruct (run_spansets _ _ _ _ _ _ _ _) as [[attrs' mask']|er|]; [| |done].
    + destruct IH as (I1 & I2 & I3 & I4). split_and!; [lia|eapply Z.lt_le_trans; [apply I1|apply Z.pow_le_mono_r; lia]| | |].
      * intros k Hk. rewrite I2, Hb by lia. by destruct (Z.eqb_spec k i); [lia|].
      * intros [|k] t' Hk; cbn in Hk; [injection Hk as <-; rewrite Z.add_0_r, I2, Hb, Z.eqb_refl by lia; done|]. rewrite (I3 k t' Hk). do 2 f_equal. lia.
      * intros ->. rewrite I4 by done. cbn [andb] in Eh. rewrite holds_none in Eh. destruct (truth fields o t); [|done..]. by injection Eh as <- <-.
    + intros Hc. destruct (IH Hc) as (t' & Ht' & Hf). exists t'. split; [by apply list_elem_of_further|done].
  - intros ->. cbn [andb] in Eh. rewrite holds_none in Eh. exists t. split; [apply list_elem_of_here|]. intros b Hb. by rewrite Hb in Eh.
Qed.

(** ** Samples *)

(** A sampled value is the value its owner stores, or an intrinsic. *)
Definition genuine (o : Owners) (e : (bytes * bytes) * bytes) : Prop :=
  let '((key, owner), v) := e in
  (owner = str "resource" /\ find key o.(o_resource) = Some v) \/ (owner = str "span" /\ find key o.(o_span) = Some v) \/
  (owner = str "event" /\ exists event, event ∈ o.(o_events) /\ find key event = Some v) \/ owner = str "intrinsic".

Lemma put_genuine o k v (attrs : Attributes) : genuine o (k, v) -> Forall (genuine o) attrs -> Forall (genuine o) (put k v attrs).
Proof. intros Hk Ha. apply list.Forall_forall. intros e He. apply put_in in He as [->|He]; [done|]. by apply (proj1 (list.Forall_forall _ _) Ha). Qed.

Definition scope_kind (scope : bytes) : Prop :=
  (eqs scope "intrinsic" = true /\ before_dot scope = str "intrinsic") \/
  (eqs scope "intrinsic" = false /\
    ((starts_with scope (str "event.") = true /\ before_dot scope = str "event") \/
     (starts_with scope (str "event.") = false /\
       (starts_with scope (str "none.") = true \/
        (starts_with scope (str "none.") = false /\ before_dot scope = if starts_with scope (str "resource.") then str "resource" else str "span"))))).

Lemma leaf_kind scope key op wanted n re m : leaf_regex scope key op wanted n = Some (re, m) -> scope_kind scope.
Proof. intros Hs%leaf_scopes. unfold scope_kind. each_scope Hs. Qed.

Lemma event_matches_in key op wanted regex st evs raw : event_matches key op wanted regex st evs = Ok (Some raw) -> exists event, event ∈ evs /\ find key event = Some raw.
Proof.
  induction evs as [|e evs IH]; cbn [event_matches]; [done|]. intros E. destruct (find key e) as [r|] eqn:Ef.
  - destruct (attribute_matches _ _ _ _ _) as [[]| |]; [|  |done..].
    + injection E as <-. exists e. split; [apply list_elem_of_here|done].
    + destruct (IH E) as (ev & Hev & Hf). exists ev. split; [by apply list_elem_of_further|done].
  - destruct (IH E) as (ev & Hev & Hf). exists ev. split; [by apply list_elem_of_further|done].
Qed.

Lemma sample_owner_genuine o key op wanted regex st name owner attrs attrs' :
  (name = str "resource" /\ owner = o.(o_resource)) \/ (name = str "span" /\ owner = o.(o_span)) ->
  sample_owner key op wanted regex st name owner attrs = Ok attrs' -> Forall (genuine o) attrs -> Forall (genuine o) attrs'.
Proof.
  intros Hn E Ha. unfold sample_owner in E. destruct (find key owner) as [raw|] eqn:Ef; [|by injection E as <-].
  destruct (attribute_matches _ _ _ _ _) as [[]| |]; [|by injection E as <-|done..]. injection E as <-. apply put_genuine; [|done].
  destruct Hn as [[-> ->]|[-> ->]]; [by left|right; by left].
Qed.

Lemma leaf_genuine fields o attrs scope key op wanted regex b attrs' : scope_kind scope ->
  leaf fields o (Some attrs) scope key op wanted regex = Ok (b, Some attrs') -> Forall (genuine o) attrs -> Forall (genuine o) attrs'.
Proof.
  intros Hk E Ha. unfold leaf, leaf_value in E. cbn [is_some andb] in E. destruct Hk as [[E1 Ed]|[E1 [[E2 Ed]|[E2 [E3|[E3 Ed]]]]]]; rewrite E1 in E; rewrite ?E2 in E; rewrite ?E3 in E.
  - destruct (if eqs key "status" then _ else _) as [n| |] in E; [|done..]. destruct (if eqs key "status" then let? status := status_name n in _ else _) as [v| |] in E; [|done..].
    destruct (ok_or (parse_i64 wanted) Invalid) as [z| |] in E; [|done..]. destruct (compare n z op); [|by injection E as <- <-]. destruct v as [v|]; injection E as <- <-; [|done].
    apply put_genuine; [|done]. right. right. right. done.
  - destruct (event_matches _ _ _ _ _ _) as [found| |] eqn:Ef in E; [|done..]. destruct found as [raw|]; injection E as <- <-; [|done].
    apply put_genuine; [|done]. right. right. left. split; [done|]. by eapply event_matches_in.
  - destruct (sample_owner _ _ _ _ _ _ _ attrs) as [a1| |] eqn:Es1 in E; [|done..]. destruct (sample_owner _ _ _ _ _ _ _ a1) as [a2| |] eqn:Es2 in E; [|done..].
    destruct (match or_else _ _ with Some _ => _ | None => _ end) as [m| |] in E; [|done..]. eapply sample_owner_genuine in Es1; [|by left|done]. eapply sample_owner_genuine in Es2; [|by right|done].
    destruct m; by injection E as <- <-.
  - destruct (find key _) as [raw|] eqn:Ef in E; [|by injection E as <- <-]. destruct (attribute_matches _ _ _ _ _) as [m| |] in E; [|done..].
    destruct m; injection E as <- <-; [|done]. apply put_genuine; [|done]. rewrite Ed. destruct (starts_with scope (str "resource.")); [by left|right; by left].
Qed.

Lemma holds_genuine fields o t : tree_ok t -> forall attrs b attrs', holds fields o (Some attrs) t = Ok (b, Some attrs') -> Forall (genuine o) attrs -> Forall (genuine o) attrs'.
Proof.
  induction t as [scope key op wanted regex|l IHl r IHr|l IHl r IHr]; intros Ht attrs b attrs' E Ha; cbn [holds tree_ok] in *.
  { destruct Ht as [_ Ht]. eapply leaf_genuine; [by eapply leaf_kind|exact E|done]. }
  all: destruct Ht as [Hl Hr]; destruct (holds fields o (Some attrs) l) as [[x [a1|]]| |] eqn:El; [| |done..]; [|by apply holds_truth in El as [_ ?]].
  all: destruct (holds fields o (Some a1) r) as [[y a2]| |] eqn:Er; [|done..]; injection E as <- ->; eapply IHr; [done|exact Er|]; by eapply IHl.
Qed.

Lemma run_spansets_genuine fields o last collect ts : Forall tree_ok ts -> forall i attrs mask attrs' mask',
  run_spansets (map postfix ts) i last collect fields o attrs mask = Ok (attrs', mask') -> Forall (genuine o) attrs -> Forall (genuine o) attrs'.
Proof.
  induction 1 as [|t ts Ht Hts IH]; intros i attrs mask attrs' mask' E Ha; cbn [map run_spansets] in E; [by injection E as <- <-|].
  rewrite run_postfix in E. destruct (holds fields o _ t) as [[b sink]| |] eqn:Eh; [|done..]. eapply IH; [exact E|]. destruct (collect && (i =? last)).
  - destruct sink as [a|]; [|by apply holds_truth in Eh as [_ ?]]. by eapply holds_genuine.
  - apply holds_truth in Eh as [_ Hs]. by destruct sink.
Qed.

Lemma first_event_in key evs v : first_event key evs = Some v -> exists event, event ∈ evs /\ find key event = Some v.
Proof.
  induction evs as [|e evs IH]; cbn [first_event]; [done|]. destruct (find key e) as [r|] eqn:Ef.
  - intros [= ->]. exists e. split; [apply list_elem_of_here|done].
  - intros E. destruct (IH E) as (ev & Hev & Hf). exists ev. split; [by apply list_elem_of_further|done].
Qed.

Lemma owners_select_genuine o fields scope key owner v : owners_select o fields scope key = Ok (Some (owner, v)) -> genuine o ((key, owner), v).
Proof.
  unfold owners_select. intros E. destruct (eqs scope "resource").
  { destruct (find key (o_resource o)) as [r|] eqn:Ef; [|done]. injection E as <- <-. by left. }
  destruct (eqs scope "span"). { destruct (find key (o_span o)) as [r|] eqn:Ef; [|done]. injection E as <- <-. right. by left. }
  destruct (eqs scope "none").
  { destruct (find key (o_span o)) as [r|] eqn:Ef; [injection E as <- <-; right; by left|]. destruct (find key (o_resource o)) as [r|] eqn:Ef'; [|done]. injection E as <- <-. by left. }
  destruct (eqs scope "event"). { destruct (first_event key (o_events o)) as [r|] eqn:Ef; [|done]. injection E as <- <-. right. right. left. split; [done|]. by apply first_event_in. }
  destruct (if eqs key "name" then _ else _); [|done..]. injection E as <- <-. right. right. by right.
Qed.

Lemma run_selects_genuine ss fields o : forall attrs attrs', run_selects ss fields o attrs = Ok attrs' -> Forall (genuine o) attrs -> Forall (genuine o) attrs'.
Proof.
  induction ss as [|[scope key] ss IH]; intros attrs attrs' E Ha; cbn [run_selects] in E; [by injection E as <-|].
  destruct (owners_select o fields scope key) as [found| |] eqn:Ef; [|done..]. apply IH in E; [done|]. destruct found as [[owner v]|]; [|done].
  destruct (find (key, owner) attrs); [done|]. apply put_genuine; [|done]. by eapply owners_select_genuine.
Qed.

(** ** Loading the owners *)

Definition envelope_ok (envelope : option Envelope) : Prop :=
  match envelope with Some e => 0 <= e.(resource_) /\ 0 <= e.(span_) | None => True end.

Lemma event_owners_units raws : forall units out out' units', event_owners raws units out = Ok (out', units') -> units <= units'.
Proof.
  induction raws as [|raw raws IH]; intros units out out' units' E; cbn [event_owners] in E; [by injection E as <- <-|].
  destruct (attributes raw) as [owner| |]; [|done..]. apply IH in E. pose proof (len_nonneg owner). lia.
Qed.

Lemma load_units e fields envelope o units : envelope_ok envelope -> load e fields envelope = Ok (o, units) -> 2 + e.(size_) <= units.
Proof.
  intros He E. unfold load in E. cbv zeta in E. destruct (match envelope with Some _ => _ | None => _ end) as [meta| |] in E; [|done..].
  destruct (match envelope with Some _ => _ | None => _ end) as [[[rs sp] owned]| |] eqn:Ew in E; [|done..].
  assert (Hw : 0 <= owned).
  { assert (Hb : forall r, (let? resource := field meta (str "resource") in let? resource := attributes resource in let? span := field meta (str "attributes") in
      let? span := attributes span in Ok (resource, span, len resource + len span)) = Ok r -> 0 <= snd r).
    { intros r Er. destruct (field meta (str "resource")); [|done..]. destruct (attributes _) as [rr| |]; [|done..]. destruct (field meta (str "attributes")); [|done..]. destruct (attributes _) as [ss| |]; [|done..].
      injection Er as <-. cbn. pose proof (len_nonneg rr). pose proof (len_nonneg ss). lia. }
    destruct envelope as [env|]; [|by apply Hb in Ew]. destruct (negb (attributes_ e)); [|by apply Hb in Ew]. injection Ew as <- <- <-. cbn in He. lia. }
  destruct (events e); [|injection E as <- <-; lia]. destruct (field meta (str "events")); [|done..]. destruct (array _); [|done..].
  destruct (event_owners _ _ _) as [[evs u]| |] eqn:Eu; [|done..]. injection E as <- <-. apply event_owners_units in Eu. lia.
Qed.

(** * The theorems *)

(** C35. The compiler is the exact parser of the front end's notation: it
    accepts a program precisely when the program spells one to four boolean
    trees in postfix order, joined by structural operators and followed by at
    most eight selections, within the limits on instructions, leaves and
    regexes and with every leaf well typed; and the expression it returns is
    the one of those trees. There is one relation less than there are spansets,
    so the spanset bits fit a byte. *)
Theorem compile_exact (program : list Word) :
  (forall e, compile program = Some e <->
    exists j t s, program = spell (mkDraft j [t] s) /\ bounded (mkDraft j [t] s) /\ len program <= PROGRAM_MAX /\ e = expression_of (mkDraft j [t] s)) /\
  (forall e, compile program = Some e -> len e.(spansets) = len e.(relations) + 1 /\ len e.(relations) < SPANSETS_MAX /\ len e.(select) <= SELECT_MAX).
Proof.
  split; [apply compile_iff|]. intros e (j & t & s & _ & Hb & _ & ->)%compile_iff. unfold expression_of, trees. cbn [spansets relations select joined open_ selects].
  pose proof (b_joined _ Hb) as Hj. pose proof (b_selects _ Hb) as Hs. cbn [joined selects] in Hj, Hs. rewrite !len_map, len_app, len_map. change (len [t]) with 1. done.
Qed.

(** C36. Evaluating a compiled program on a span always answers, and means what
    the program spells. When it succeeds, bit [k] of the mask is the truth of
    the [k]th spanset, decided leaf by leaf without samples, and the span is
    matched when the last one holds; the work charged is the owners, their
    attributes and the instructions, within the limit; every sampled value is
    the one its owner stores, or an intrinsic. Without samples it fails only
    for unreadable owners, for the work limit, or for a spanset that cannot be
    decided. The stack machine itself never fails. *)
Theorem evaluate_exact (program : list Word) (e : Expression) (fields : RawFields) (envelope : option Envelope) (work : Z) (collect : bool) :
  compile program = Some e -> envelope_ok envelope -> 0 <= work ->
  exists j t s, program = spell (mkDraft j [t] s) /\
    let ts := map fst j ++ [t] in
    match evaluate_with e fields envelope work collect with
    | Fuel => False
    | Ok (ev, work') => exists o units, load e fields envelope = Ok (o, units) /\ work' = work + units /\ work' <= WORK_MAX /\
        0 <= ev.(mask_) < 2 ^ len ts /\ len ts <= SPANSETS_MAX /\
        (forall (k : nat) t', ts !! k = Some t' -> truth fields o t' = Ok (Z.testbit ev.(mask_) (Z.of_nat k))) /\
        truth fields o t = Ok ev.(matched) /\ Forall (genuine o) ev.(sampled) /\ (collect = false -> ev.(sampled) = [])
    | Err er => collect = false ->
        (exists er', load e fields envelope = Err er') \/
        (exists o units, load e fields envelope = Ok (o, units) /\
          ((er = Budget /\ WORK_MAX < work + units) \/ exists t', t' ∈ ts /\ forall b, truth fields o t' <> Ok b))
    end.
Proof.
  intros (j & t & s & -> & Hb & Hl & ->)%compile_iff Henv Hw. exists j, t, s. split; [done|]. cbv zeta. set (e := expression_of (mkDraft j [t] s)). unfold evaluate_with.
  pose proof (load_answers e fields envelope) as Ha. destruct (load e fields envelope) as [[o units]|er|] eqn:El; [|intros _; left; by exists er|done]. clear Ha.
  apply load_units in El as Hu; [|done]. change (size_ e) with (len (spell (mkDraft j [t] s))) in Hu. unfold checked_u64. pose proof (len_nonneg (spell (mkDraft j [t] s))).
  destruct (_ && _) eqn:Ec; cbn [ok_or].
  2: { intros _. right. exists o, units. split; [done|]. left. split; [done|]. apply andb_false_iff in Ec as [Ec|Ec]; bools; [lia|]. unfold WORK_MAX, U64_MAX in *. lia. }
  destruct (WORK_MAX <? work + units) eqn:Em; [bools; intros _; right; exists o, units; split; [done|]; by left|]. bools.
  change (spansets e) with (map postfix (map fst j ++ [t])). rewrite len_map. set (ts := map fst j ++ [t]). assert (Hts : len ts = len j + 1) by (unfold ts; rewrite len_app, len_map; done).
  pose proof (b_joined _ Hb) as Hj. cbn [joined] in Hj. unfold SPANSETS_MAX in Hj. pose proof (run_spansets_ok fields o (len ts - 1) collect ts 0 [] 0 ltac:(lia) ltac:(lia) ltac:(lia)) as Hr.
  destruct (run_spansets _ _ _ _ _ _ _ _) as [[attrs mask]|er|] eqn:Er; [| |done].
  2: { intros Hc. right. exists o, units. split; [done|]. right. by apply Hr. }
  destruct Hr as (R1 & _ & R3 & R4). rewrite Z.add_0_l in R1. apply run_spansets_genuine in Er as Hg; [|apply (b_trees _ Hb)|constructor].
  assert (Hbit : truth fields o t = Ok (negb (Z.land mask (Z.shiftl 1 (len ts - 1) mod 256) =? 0))).
  { rewrite (R3 (length j) t), Z.add_0_l by (unfold ts; rewrite lookup_app_r, length_map, Nat.sub_diag; [done|rewrite length_map; lia]).
    pose proof (len_nonneg j) as Hj0. rewrite Z.mod_small; [|rewrite Z.shiftl_1_l; change 256 with (2 ^ 8); split; [apply Z.pow_nonneg; lia|apply Z.pow_lt_mono_r; lia]].
    rewrite bit_test by lia. do 2 f_equal. unfold len in *. lia. }
  assert (Hsel : match (if collect then run_selects (select e) fields o attrs else Ok attrs) with Ok a => Forall (genuine o) a /\ (collect = false -> a = []) | Err _ => collect = true | Fuel => False end).
  { destruct collect; [|split; [done|intros _; by apply R4]]. pose proof (run_selects_answers (select e) fields o attrs). destruct (run_selects _ _ _ _) as [a|er|] eqn:Es; [|done..].
    split; [by eapply run_selects_genuine|done]. }
  destruct (if collect then _ else _) as [a|er|]; [|by intros ->|done]. destruct Hsel as [Hs1 Hs2]. cbn [matched mask_ sampled]. exists o, units.
  split_and!; [done|done|done|lia|lia|unfold SPANSETS_MAX; lia| |done|done|done]. intros k t' Hk. apply (R3 k t' Hk).
Qed.
End Programs.

(** * A chain of two spansets *)
Module Sample.
Import External.Concrete.

Definition word (scope key op wanted : bytes) : Word := (scope, key, op, wanted).
(** [{ status = error || span.code > 499 } >> { resource.name = "db" } | select(span.code)] *)
Definition program : list Word :=
  [word (str "intrinsic") (str "status") (str "=") (str "2"); word (str "span.int") (str "code") (str ">") (str "499"); boolean_word (str "||");
   spanset_word Descendant; word (str "resource.string") (str "name") (str "=") (str "db"); select_word (str "span", str "code")].

Fixpoint unquote (s : bytes) : bytes := match s with [] => [] | c :: s => (if c =? 39 then 34 else c) :: unquote s end.
Definition payload : bytes :=
  unquote (str "{'status':{'code':0},'otlp':{'resource':[{'key':'name','value':{'stringValue':'db'}}],'attributes':[{'key':'code','value':{'intValue':'503'}}]}}").
Definition fields : RawFields := match object payload with Ok f => f | _ => [] end.

Definition anchored_sample (b : bytes) : option bytes := Some b.
Definition expression : Expression := match compile anchored_sample program with Some e => e | None => mkExpression [] [] [] false false 0 end.
Definition result : Answer (Evaluation * Z) := evaluate_with bytes_eqb expression fields None 0 true.
End Sample.

Import External.Concrete.
Lemma evaluate_exact_witness : compile Sample.anchored_sample Sample.program = Some Sample.expression /\
  match Sample.result with Ok (ev, work) => mask_ ev = 3 /\ matched ev = true /\ work = 10 /\ len (sampled ev) = 2 | _ => False end /\
  exists j t s, Sample.program = spell (mkDraft j [t] s) /\
    exists o, truth bytes_eqb Sample.fields o t = Ok true.
Proof.
  assert (Hc : compile Sample.anchored_sample Sample.program = Some Sample.expression) by (vm_compute; reflexivity).
  assert (Hr : match Sample.result with Ok (ev, work) => mask_ ev = 3 /\ matched ev = true /\ work = 10 /\ len (sampled ev) = 2 | _ => False end) by (vm_compute; tauto).
  split; [exact Hc|]. split; [exact Hr|].
  destruct (evaluate_exact Sample.anchored_sample bytes_eqb Sample.program Sample.expression Sample.fields None 0 true Hc I ltac:(lia)) as (j & t & s & Hp & Hm).
  exists j, t, s. split; [exact Hp|]. fold Sample.result in Hm. destruct Sample.result as [[ev work]|er|]; [|destruct Hr..].
  destruct Hm as (o & units & _ & _ & _ & _ & _ & _ & Ht & _). exists o. destruct Hr as (_ & <- & _). exact Ht.
Defined.
