(* ===== verification/JsonSim.v ===== *)
(** Two builders in lockstep.

    The JSON parser is generic in its builder and decides where a value ends
    without looking at what the builder makes. So when every method of a second
    builder follows the first one, parsing with the second follows parsing with
    the first: it succeeds on the same input, stops at the same place and makes
    a related value. *)

From S2P Require Import Prelude Utf8 External Float64 JsonRead.

(** Success on the left gives a related success on the right. *)
Definition follows {A B} (R : A -> B -> Prop) (r : Res A) (s : Res B) : Prop :=
  forall x, r = Ok x -> exists y, s = Ok y /\ R x y.

Definition both {A B C D} (R : A -> B -> Prop) (Q : C -> D -> Prop) (x : A * C) (y : B * D) : Prop := R (fst x) (fst y) /\ Q (snd x) (snd y).

(** The numbers the parser hands over fit their types. *)
Definition number_ok (n : Number) : Prop :=
  match n with
  | Int v => I64_MIN <= v <= I64_MAX
  | UInt v => I64_MAX < v <= U64_MAX
  | Float bits => 0 <= bits < U64
  end.

Lemma magnitude_range ds m : magnitude ds = Ok m -> 0 <= m <= U64_MAX.
Proof.
  unfold magnitude. intros E. refine (foldM_inv (fun m => 0 <= m <= U64_MAX) _ 0 ds m _ _ E); [unfold U64_MAX; lia|].
  intros m1 d m2 _ _ E2. destruct (ok_or (checked_u64 (m1 * 10)) tt) as [m3| |]; [|done..]. unfold checked_u64 in E2. destruct (_ && _) eqn:Ec; [|done]. injection E2 as <-. bools. lia.
Qed.

Lemma number_range p n q : number p = Ok (n, q) -> number_ok n.
Proof.
  unfold number. cbv zeta. intros E. destruct (int_part _) as [p1| |]; [|done..]. destruct (frac_part p1) as [[f1 p2]| |]; [|done..]. destruct (exp_part p2) as [[f2 p3]| |]; [|done..].
  destruct (f1 || f2).
  - destruct (negb _ || _); [done|]. injection E as <- <-. cbn [number_ok]. unfold parse_f64. repeat match goal with |- context[let '(_, _) := ?e in _] => destruct e end. apply bits_of_spec_range.
  - destruct (magnitude _) as [m| |] eqn:Em; [|done..]. apply magnitude_range in Em. unfold I64_MAX, I64_MIN, U64_MAX in *. destruct (bool_decide _) in E.
    + destruct (m <=? _) eqn:E1 in E; [injection E as <- <-; bools; cbn; unfold I64_MAX, I64_MIN; lia|]. destruct (_ =? _) in E; [|done]. injection E as <- <-. cbn. unfold I64_MAX, I64_MIN. lia.
    + destruct (m <=? _) eqn:E1 in E; injection E as <- <-; bools; cbn; unfold I64_MAX, I64_MIN, U64_MAX; lia.
Qed.

(** Builders whose methods follow each other: values are related by [R], keys
    by [K] and builders by [Q]. *)
Class Follows {B1 V1 B2 V2} `{Builder B1 V1} `{Builder B2 V2} (R K : V1 -> V2 -> Prop) (Q : B1 -> B2 -> Prop) : Prop := {
  f_null b c : Q b c -> follows (both R Q) (b_null b) (b_null c);
  f_boolean b c v : Q b c -> follows (both R Q) (b_boolean b v) (b_boolean c v);
  f_number b c n : Q b c -> number_ok n -> follows (both R Q) (b_number b n) (b_number c n);
  f_integer_literal b c raw : Q b c -> follows (both R Q) (b_integer_literal b raw) (b_integer_literal c raw);
  f_string b c s : Q b c -> follows (both R Q) (b_string b s) (b_string c s);
  f_key b c s : Q b c -> follows (both K Q) (b_key b s) (b_key c s);
  f_array b c l m : Q b c -> Forall2 R l m -> follows (both R Q) (b_array b l) (b_array c m);
  f_object b c ks js l m : Q b c -> Forall2 K ks js -> Forall2 R l m -> follows (both R Q) (b_object b ks l) (b_object c js m)
}.

Section Lockstep.
Context `{SimdUtf8} `{Memchr2}.
Context {B1 V1 B2 V2 C : Type} `{Builder B1 V1} `{Builder B2 V2} `{Context C}.
Context (R K : V1 -> V2 -> Prop) (Q : B1 -> B2 -> Prop) `{!Follows R K Q}.

Definition stacked (s : Stacks V1) (t : Stacks V2) : Prop := Forall2 K s.(st_keys) t.(st_keys) /\ Forall2 R s.(st_values) t.(st_values).

Definition value_follows (fuel : nat) : Prop := forall p b1 b2 st1 st2 (ctx : C) v q b1' st1', Q b1 b2 -> stacked st1 st2 ->
  value_in fuel p b1 st1 ctx = Ok (v, q, b1', st1') -> exists w b2' st2', value_in fuel p b2 st2 ctx = Ok (w, q, b2', st2') /\ R v w /\ Q b1' b2' /\ stacked st1' st2'.
Definition object_follows (fuel : nat) : Prop := forall p b1 b2 st1 st2 (ctx : C) seen q b1' st1', Q b1 b2 -> stacked st1 st2 ->
  object_loop fuel p b1 st1 ctx seen = Ok (q, b1', st1') -> exists b2' st2', object_loop fuel p b2 st2 ctx seen = Ok (q, b2', st2') /\ Q b1' b2' /\ stacked st1' st2'.
Definition array_follows (fuel : nat) : Prop := forall p b1 b2 st1 st2 (ctx : C) q b1' st1', Q b1 b2 -> stacked st1 st2 ->
  array_loop fuel p b1 st1 ctx = Ok (q, b1', st1') -> exists b2' st2', array_loop fuel p b2 st2 ctx = Ok (q, b2', st2') /\ Q b1' b2' /\ stacked st1' st2'.

Lemma stacked_lengths s t : stacked s t -> length s.(st_keys) = length t.(st_keys) /\ length s.(st_values) = length t.(st_values).
Proof. intros [Hk Hv]. split; by eapply Forall2_length. Qed.

Lemma stacked_key s t k j : stacked s t -> K k j -> stacked (mkStacks (s.(st_keys) ++ [k]) s.(st_values)) (mkStacks (t.(st_keys) ++ [j]) t.(st_values)).
Proof. intros [Hk Hv] Hkj. split; [|done]. apply Forall2_app; [done|]. by repeat constructor. Qed.

Lemma stacked_value s t v w : stacked s t -> R v w -> stacked (mkStacks s.(st_keys) (s.(st_values) ++ [v])) (mkStacks t.(st_keys) (t.(st_values) ++ [w])).
Proof. intros [Hk Hv] Hvw. split; [done|]. apply Forall2_app; [done|]. by repeat constructor. Qed.

(** The last step of a scalar. *)
Lemma scalar_follows (r : Res (V1 * B1)) (s : Res (V2 * B2)) (p q : Parser) st1 st2 v b1' st1' : follows (both R Q) r s -> stacked st1 st2 ->
  (let? (v, b) := r in Ok (v, p, b, st1)) = Ok (v, q, b1', st1') ->
  exists w b2' st2', (let? (v, b) := s in Ok (v, p, b, st2)) = Ok (w, q, b2', st2') /\ R v w /\ Q b1' b2' /\ stacked st1' st2'.
Proof.
  intros Hf Hs E. destruct r as [[v1 c1]| |]; [|done..]. injection E as -> -> -> ->. destruct (Hf _ eq_refl) as ([w c2] & -> & [Hv Hc]). by exists w, c2, st2.
Qed.

Lemma value_follows_S fuel : object_follows fuel -> array_follows fuel -> value_follows (S fuel).
Proof.
  intros HO HA p b1 b2 st1 st2 ctx v q b1' st1' Hq Hs E. simpl in E |- *. destruct (peek p) as [c| |]; [|done..].
  destruct (stacked_lengths _ _ Hs) as [Lk Lv]. destruct (c =? 123); [|destruct (c =? 91); [|destruct (c =? 34)]].
  - destruct (enter p) as [p1| |]; [|done..]. destruct (object_open _) as [[more p2]| |]; [|done..].
    destruct (if more then object_loop fuel p2 b1 st1 ctx 0 else Ok (p2, b1, st1)) as [[[p3 c1] t1]| |] eqn:El; [|done..].
    assert (exists c2 t2, (if more then object_loop fuel p2 b2 st2 ctx 0 else Ok (p2, b2, st2)) = Ok (p3, c2, t2) /\ Q c1 c2 /\ stacked t1 t2) as (c2 & t2 & -> & Hc & Ht).
    { destruct more; [by eapply HO|]. injection El as <- <- <-. by exists b2, st2. }
    rewrite <- Lk, <- Lv. destruct Ht as [Tk Tv]. destruct (b_object c1 _ _) as [[v1 d1]| |] eqn:Eo; [|done..]. injection E as <- <- <- <-.
    destruct (f_object c1 c2 _ (drop (length (st_keys st1)) (st_keys t2)) _ (drop (length (st_values st1)) (st_values t2)) Hc (Forall2_drop _ _ _ _ Tk) (Forall2_drop _ _ _ _ Tv) _ Eo) as ([w d2] & -> & [Hw Hd]).
    exists w, d2, (mkStacks (take (length (st_keys st1)) (st_keys t2)) (take (length (st_values st1)) (st_values t2))). split_and!; [done|done|done|]. split; by apply Forall2_take.
  - destruct (enter p) as [p1| |]; [|done..]. destruct (peek (ws (adv p1 1))) as [d| |]; [|done..].
    destruct (if d =? 93 then Ok (adv (ws (adv p1 1)) 1, b1, st1) else array_loop fuel (ws (adv p1 1)) b1 st1 ctx) as [[[p3 c1] t1]| |] eqn:El; [|done..].
    assert (exists c2 t2, (if d =? 93 then Ok (adv (ws (adv p1 1)) 1, b2, st2) else array_loop fuel (ws (adv p1 1)) b2 st2 ctx) = Ok (p3, c2, t2) /\ Q c1 c2 /\ stacked t1 t2) as (c2 & t2 & -> & Hc & Ht).
    { destruct (d =? 93); [injection El as <- <- <-; by exists b2, st2|by eapply HA]. }
    rewrite <- Lv. destruct Ht as [Tk Tv]. destruct (b_array c1 _) as [[v1 d1]| |] eqn:Eo; [|done..]. injection E as <- <- <- <-.
    destruct (f_array c1 c2 _ (drop (length (st_values st1)) (st_values t2)) Hc (Forall2_drop _ _ _ _ Tv) _ Eo) as ([w d2] & -> & [Hw Hd]).
    exists w, d2, (mkStacks (st_keys t2) (take (length (st_values st1)) (st_values t2))). split_and!; [done|done|done|]. split; [done|by apply Forall2_take].
  - destruct (string p) as [[s p1]| |]; [|done..]. by eapply scalar_follows; [apply f_string| |exact E].
  - destruct (c =? 116); [destruct (literal p _); [|done..]; by eapply scalar_follows; [apply f_boolean| |exact E]|].
    destruct (c =? 102); [destruct (literal p _); [|done..]; by eapply scalar_follows; [apply f_boolean| |exact E]|].
    destruct (c =? 110); [destruct (literal p _); [|done..]; by eapply scalar_follows; [apply f_null| |exact E]|].
    destruct (_ || _); [|done]. destruct (ctx_integer ctx).
    + destruct (number_literal p) as [[raw p1]| |]; [|done..]. by eapply scalar_follows; [apply f_integer_literal| |exact E].
    + destruct (number p) as [[n p1]| |] eqn:En; [|done..]. apply number_range in En. by eapply scalar_follows; [apply f_number| |exact E].
Qed.

Lemma object_follows_S fuel : value_follows fuel -> object_follows fuel -> object_follows (S fuel).
Proof.
  intros HV HO p b1 b2 st1 st2 ctx seen q b1' st1' Hq Hs E. simpl in E |- *. destruct (string p) as [[key p1]| |]; [|done..].
  destruct (negb _); [done|]. destruct (b_key b1 key) as [[k c1]| |] eqn:Ek; [|done..]. destruct (f_key b1 b2 key Hq _ Ek) as ([j c2] & -> & [Hk Hc]). cbn [fst snd] in Hk, Hc.
  destruct (colon p1) as [p2| |]; [|done..]. destruct (value_in fuel p2 c1 _ _) as [[[[v p3] d1] t1]| |] eqn:Ev; [|done..].
  destruct (HV _ _ c2 _ _ _ _ _ _ _ Hc (stacked_key _ _ _ _ Hs Hk) Ev) as (w & d2 & t2 & -> & Hw & Hd & Ht).
  destruct (object_next p3) as [[more p4]| |]; [|done..]. pose proof (stacked_value _ _ _ _ Ht Hw) as Ht'.
  destruct more; [by eapply HO|]. injection E as <- <- <-. by exists d2, (mkStacks t2.(st_keys) (t2.(st_values) ++ [w])).
Qed.

Lemma array_follows_S fuel : value_follows fuel -> array_follows fuel -> array_follows (S fuel).
Proof.
  intros HV HA p b1 b2 st1 st2 ctx q b1' st1' Hq Hs E. simpl in E |- *.
  destruct (value_in fuel (ws p) b1 st1 ctx) as [[[[v p3] d1] t1]| |] eqn:Ev; [|done..].
  destruct (HV _ _ b2 _ _ _ _ _ _ _ Hq Hs Ev) as (w & d2 & t2 & -> & Hw & Hd & Ht). pose proof (stacked_value _ _ _ _ Ht Hw) as Ht'.
  destruct (peek (ws p3)) as [c| |]; [|done..]. destruct (c =? 44); [by eapply HA|]. destruct (c =? 93); [|done].
  injection E as <- <- <-. by exists d2, (mkStacks t2.(st_keys) (t2.(st_values) ++ [w])).
Qed.

Lemma parser_follows fuel : value_follows fuel /\ object_follows fuel /\ array_follows fuel.
Proof.
  induction fuel as [|fuel (HV & HO & HA)]; [split_and!; intros p; intros; done|].
  split_and!; [by apply value_follows_S|by apply object_follows_S|by apply array_follows_S].
Qed.

Lemma value_top_follows p b1 b2 st1 st2 (ctx : C) v q b1' st1' : Q b1 b2 -> stacked st1 st2 ->
  value_top p b1 st1 ctx = Ok (v, q, b1', st1') -> exists w b2' st2', value_top p b2 st2 ctx = Ok (w, q, b2', st2') /\ R v w /\ Q b1' b2' /\ stacked st1' st2'.
Proof. apply (parser_follows (value_fuel p)). Qed.

Lemma stacked_new : stacked Stacks_new Stacks_new.
Proof. split; constructor. Qed.
End Lockstep.

Section Documents.
Context `{SimdUtf8} `{Memchr2}.
Context {B1 V1 B2 V2 : Type} `{Builder B1 V1} `{Builder B2 V2}.
Context (R K : V1 -> V2 -> Prop) (Q : B1 -> B2 -> Prop) `{!Follows R K Q}.

Lemma document_follows p b1 b2 v q b1' : Q b1 b2 -> document p b1 = Ok (v, q, b1') -> exists w b2', document p b2 = Ok (w, q, b2') /\ R v w /\ Q b1' b2'.
Proof.
  intros Hq E. unfold document, document_with, document_in in *. destruct (value_top (ws p) b1 Stacks_new ordinary) as [[[[v1 p1] c1] t1]| |] eqn:Ev; [|done..].
  eapply (value_top_follows R K Q) in Ev as (w & c2 & t2 & -> & Hw & Hc & _); [|done|apply stacked_new]. destruct (jend (ws p1)); [|done..]. injection E as <- <- <-. by exists w, c2.
Qed.
End Documents.

(** The validating builder follows every other one. *)
Lemma Skip_follows {B V} `{Builder B V} : (forall b raw, b_integer_literal b raw = Fallback) ->
  Follows (fun (_ : V) (_ : unit) => True) (fun _ _ => True) (fun (_ : B) (_ : Skip) => True).
Proof.
  intros Hi. constructor; intros b c; destruct c; intros; intros x E; first [by rewrite Hi in E | exists (tt, skip_builder); by repeat split].
Qed.

(** * Sizes *)

Section Sizes.
Context `{SimdUtf8} `{Memchr2}.

Lemma encode_utf8_len c : len (encode_utf8 c) <= 4.
Proof. unfold encode_utf8. repeat case_match; cbv; discriminate. Qed.

Lemma string_escape_len o p o' q : in_bounds p -> string_escape o p = Ok (o', q) -> len o' <= len o + (q.(jpos) - p.(jpos)) + 1.
Proof.
  unfold string_escape. intros Hp E. destruct (peek p) as [c| |] eqn:Ec; [|done..]. pose proof (peek_moved _ _ Hp Ec) as Hm. into_bounds.
  repeat match type of E with (if ?c then _ else _) = _ => destruct c; [injection E as <- <-; rewrite len_app; cbn; unfold len at 2; cbn; lia|] end.
  destruct (c =? 117); [|done]. destruct (unicode_escape (adv p 1)) as [[ch r]| |] eqn:Eu; [|done..]. apply unicode_escape_moved in Eu; [|done]. injection E as <- <-.
  rewrite len_app. pose proof (encode_utf8_len ch). destruct Eu as (_ & _ & _ & P). cbn in *. lia.
Qed.

Lemma string_chunk_len p c e : in_bounds p -> string_chunk p = Ok (c, e) -> len c <= e.
Proof.
  intros Hp E. pose proof (string_chunk_moved _ _ _ Hp E) as (_ & _ & He). unfold string_chunk in E. destruct (ok_or _ _) as [i| |]; [|done..]. destruct (check_chunk _ _); [|done..]. injection E as <- <-.
  unfold len. rewrite length_take. lia.
Qed.

Lemma string_loop_len fuel o p c q : in_bounds p -> p.(jpos) < len p.(jbuf) -> string_loop fuel o p = Ok (c, q) -> len (cow_bytes c) + 2 <= len o + (q.(jpos) - p.(jpos)).
Proof.
  revert o p. induction fuel as [|fuel IH]; intros o p Hp Hl E; cbn [string_loop] in E; [done|].
  destruct (string_escape o (adv p 1)) as [[o1 p1]| |] eqn:E1; [|done..]. destruct (string_chunk (adv p1 1)) as [[ch e]| |] eqn:E2; [|done..].
  destruct (string_turn_moved _ _ _ _ _ _ Hp Hl E1 E2) as (Hm & Hl2 & Hb2). pose proof (adv1_moved p Hp Hl). into_bounds.
  pose proof (string_escape_moved _ _ _ _ ltac:(eassumption) E1) as (Hm1 & _). into_bounds. apply string_chunk_len in E2; [|done]. apply string_escape_len in E1; [|done].
  cbn [jpos adv seek] in *. case_bool_decide.
  - injection E as <- <-. cbn [cow_bytes jpos adv seek]. rewrite len_app. lia.
  - apply IH in E; [|done|by destruct Hm as (-> & _)]. rewrite len_app in E. cbn [jpos adv seek] in E. lia.
Qed.

(** A string is shorter than its text by the quotes at least. *)
Lemma string_len p c q : in_bounds p -> JsonRead.string p = Ok (c, q) -> len (cow_bytes c) + 2 <= q.(jpos) - p.(jpos).
Proof.
  unfold JsonRead.string. intros Hp E. destruct (expect p 34) as [p1| |] eqn:E1; [|done..]. pose proof (expect_moved _ _ _ Hp E1) as Hm. into_bounds.
  destruct (string_chunk p1) as [[ch e]| |] eqn:E2; [|done..]. pose proof (string_chunk_moved _ _ _ ltac:(eassumption) E2) as (Hm2 & Hl2 & _). into_bounds. apply string_chunk_len in E2; [|done].
  destruct Hm as (B & _ & _ & P). destruct Hm2 as (B2 & _). case_bool_decide.
  - injection E as <- <-. cbn [cow_bytes jpos adv seek] in *. lia.
  - apply string_loop_len in E; [|done|done]. cbn [jpos adv seek] in *. lia.
Qed.
End Sizes.
