(* ===== verification/TraceSortKey.v ===== *)
(** Span sort keys (trace_sort_key.rs): a byte string per JSON document, built
    by the parser itself, by which stored spans are ordered and compared.

    The key is shown to be the encoding of the document's value with its types,
    up to the order of members, and two keys are equal exactly when the values
    are. *)

From S2P Require Import Prelude Utf8 External Float64 JsonRead JsonSim TraceFields.

(** [v.to_be_bytes()], [n] bytes wide. *)
Definition to_be_bytes (n : nat) (v : Z) : bytes := rev (to_le_bytes n v).
Definition U32 : Z := 4294967296.
(** [(n as u32).to_be_bytes()]. *)
Definition be32 (n : Z) : bytes := to_be_bytes 4 (n mod U32).

Definition sized (tag : Z) (b : bytes) : bytes := tag :: be32 (len b) ++ b.

(** [bytes.iter().position(|v| *v != 0).unwrap_or(7)]. *)
Fixpoint position_nonzero (l : bytes) : option Z :=
  match l with
  | [] => None
  | x :: l => if negb (x =? 0) then Some 0 else match position_nonzero l with Some i => Some (i + 1) | None => None end
  end.

Definition integer (negative : bool) (n : Z) : bytes :=
  let b := to_be_bytes 8 n in
  let start := default 7 (position_nonzero b) in
  [3; if negative then 1 else 0] ++ be32 (8 - start) ++ drop (Z.to_nat start) b.

Inductive KeyBuilder : Type := key_builder.

Definition key_number (n : Number) : bytes :=
  match n with
  | Int v => integer (v <? 0) (Z.abs v)
  | UInt v => integer false v
  | Float v => 4 :: to_be_bytes 8 v
  end.

(** [entries.sort_by(|a, b| a.0[5..].cmp(&b.0[5..]))], refusing equal
    neighbours. *)
Definition key_object (keys values : list bytes) : Res bytes :=
  let entries := sort_by (fun a b => bytes_leb (drop 5 (fst a)) (drop 5 (fst b))) (zip keys values) in
  if existsb (fun p => bytes_eqb (fst (fst p)) (fst (snd p))) (windows2 entries) then Fallback
  else Ok (7 :: be32 (len entries) ++ concat (map (fun e => fst e ++ snd e) entries)).

#[export] Instance Builder_Key : Builder KeyBuilder bytes := {|
  b_null b := Ok ([0], b);
  b_boolean b v := Ok ([if v then 2 else 1], b);
  b_number b n := Ok (key_number n, b);
  b_integer_literal b _ := Fallback;
  b_string b s := Ok (sized 5 (cow_bytes s), b);
  b_key b s := Ok (sized 5 (cow_bytes s), b);
  b_array b items := Ok (6 :: be32 (len items) ++ concat items, b);
  b_object b keys values := let? v := key_object keys values in Ok (v, b)
|}.

Section Keys.
Context `{SimdUtf8} `{Memchr2}.

Definition key (json : bytes) : Res bytes :=
  let? (v, _, _) := document (Parser_new json) key_builder in Ok v.

Fixpoint span_entries (entries : list (Cow * bytes)) (out : bytes) : Res bytes :=
  match entries with
  | [] => Ok out
  | (name, value) :: entries =>
      let? k := key value in
      span_entries entries (out ++ sized 5 (cow_bytes name) ++ k)
  end.

(** [otlp] is left out when projected, and when it is null. *)
Definition span_member (projected : bool) (e : Cow * bytes) : bool :=
  negb (bytes_eqb (cow_bytes (fst e)) (str "otlp")) || (negb projected && negb (bytes_eqb (snd e) (str "null"))).

Definition span_key (json : bytes) (projected : bool) : Res bytes :=
  let? (fields, _) := raw_object (Parser_new json) in
  let entries := sort_by (fun a b => bytes_leb (cow_bytes (fst a)) (cow_bytes (fst b))) (List.filter (span_member projected) fields) in
  if existsb (fun p => bytes_eqb (cow_bytes (fst (fst p))) (cow_bytes (fst (snd p)))) (windows2 entries) then Fallback
  else span_entries entries (7 :: be32 (len entries)).
End Keys.

(** * Values with their types *)

(** A JSON value; integers and floats are different, and the members of an
    object are in the order of their names. *)
Inductive Json : Type :=
| JNull
| JBool (v : bool)
| JInt (z : Z)
| JFloat (bits : Z)
| JStr (s : bytes)
| JArr (l : list Json)
| JObj (l : list (bytes * Json)).

Fixpoint encode (t : Json) : bytes :=
  match t with
  | JNull => [0]
  | JBool v => [if v then 2 else 1]
  | JInt z => integer (z <? 0) (Z.abs z)
  | JFloat bits => 4 :: to_be_bytes 8 bits
  | JStr s => sized 5 s
  | JArr l => 6 :: be32 (len l) ++ concat (map encode l)
  | JObj l => 7 :: be32 (len l) ++ concat (map (fun e => sized 5 (fst e) ++ encode (snd e)) l)
  end.

Inductive TreeBuilder : Type := tree_builder.

Definition name_of (t : Json) : bytes := match t with JStr s => s | _ => [] end.
Definition by_name {A} (a b : bytes * A) : bool := bytes_leb (fst a) (fst b).
(** Names in order, refusing equal ones. *)
Definition ordered_members {A} (l : list (bytes * A)) : Res (list (bytes * A)) :=
  let entries := sort_by by_name l in
  if existsb (fun p => bytes_eqb (fst (fst p)) (fst (snd p))) (windows2 entries) then Fallback else Ok entries.

#[export] Instance Builder_Tree : Builder TreeBuilder Json := {|
  b_null b := Ok (JNull, b);
  b_boolean b v := Ok (JBool v, b);
  b_number b n := Ok (match n with Int v | UInt v => JInt v | Float v => JFloat v end, b);
  b_integer_literal b _ := Fallback;
  b_string b s := Ok (JStr (cow_bytes s), b);
  b_key b s := Ok (JStr (cow_bytes s), b);
  b_array b items := Ok (JArr items, b);
  b_object b keys values := let? l := ordered_members (zip (map name_of keys) values) in Ok (JObj l, b)
|}.

Section Trees.
Context `{SimdUtf8} `{Memchr2}.

(** The value of a document. *)
Definition tree (json : bytes) : Res Json :=
  let? (v, _, _) := document (Parser_new json) tree_builder in Ok v.

Fixpoint span_values (entries : list (Cow * bytes)) : Res (list (bytes * Json)) :=
  match entries with
  | [] => Ok []
  | (name, value) :: entries =>
      let? t := tree value in
      let? l := span_values entries in Ok ((cow_bytes name, t) :: l)
  end.

(** The members a span key is made of. *)
Definition span_tree (json : bytes) (projected : bool) : Res Json :=
  let? (fields, _) := raw_object (Parser_new json) in
  let? l := span_values (List.filter (span_member projected) fields) in
  let? l := ordered_members l in Ok (JObj l).
End Trees.

(** * The key is the encoding of the value *)

Lemma sized_drop tag b : drop 5 (sized tag b) = b.
Proof. unfold sized, be32, to_be_bytes. cbn [to_le_bytes rev app drop]. done. Qed.

Lemma sort_insert_map {A B} (f : A -> B) leb1 leb2 x l : (forall a b, leb1 (f a) (f b) = leb2 a b) -> sort_insert leb1 (f x) (map f l) = map f (sort_insert leb2 x l).
Proof. intros Hl. induction l as [|y l IH]; cbn [map sort_insert]; [done|]. rewrite Hl. destruct (leb2 x y); [done|]. cbn [map]. by rewrite IH. Qed.

Lemma sort_by_map {A B} (f : A -> B) leb1 leb2 l : (forall a b, leb1 (f a) (f b) = leb2 a b) -> sort_by leb1 (map f l) = map f (sort_by leb2 l).
Proof. intros Hl. induction l as [|x l IH]; cbn [map sort_by]; [done|]. rewrite IH. by apply sort_insert_map. Qed.

Lemma windows2_map {A B} (f : A -> B) l : windows2 (map f l) = map (fun p => (f (fst p), f (snd p))) (windows2 l).
Proof. induction l as [|x [|y l] IH]; cbn [map windows2] in *; [done..|]. by rewrite IH. Qed.

Definition spelled_member (e : bytes * Json) : bytes * bytes := (sized 5 (fst e), encode (snd e)).

Lemma sized_eqb a b : bytes_eqb (sized 5 a) (sized 5 b) = bytes_eqb a b.
Proof. unfold bytes_eqb. apply bool_decide_ext. split; [intros E; apply (f_equal (drop 5)) in E; by rewrite !sized_drop in E|by intros ->]. Qed.

Lemma existsb_map {A B} (f : A -> B) p l : existsb p (map f l) = existsb (fun x => p (f x)) l.
Proof. induction l as [|x l IH]; cbn; [done|]. by rewrite IH. Qed.

Lemma key_object_members (l : list (bytes * Json)) :
  key_object (map (fun e => sized 5 (fst e)) l) (map (fun e => encode (snd e)) l) = let? m := ordered_members l in Ok (encode (JObj m)).
Proof.
  unfold key_object, ordered_members. assert (Hz : zip (map (fun e => sized 5 (fst e)) l) (map (fun e => encode (snd e)) l) = map spelled_member l) by (induction l as [|e l IH]; cbn; [done|by rewrite IH]).
  rewrite Hz, (sort_by_map spelled_member _ by_name) by (intros a b; unfold by_name, spelled_member; cbn [fst]; by rewrite !sized_drop).
  rewrite windows2_map, existsb_map. cbn [fst snd]. assert (He : forall w : list ((bytes * Json) * (bytes * Json)), existsb (fun x => bytes_eqb (fst (spelled_member (fst x))) (fst (spelled_member (snd x)))) w =
    existsb (fun p => bytes_eqb (fst (fst p)) (fst (snd p))) w) by (induction w as [|[a b] w IH]; cbn [existsb]; [done|]; rewrite IH; unfold spelled_member; cbn [fst snd]; by rewrite sized_eqb).
  rewrite He. destruct (existsb _ _); [done|]. cbn [encode]. rewrite len_map, map_map. done.
Qed.

Definition key_of (t : Json) (k : bytes) : Prop := k = encode t.
Definition name_key (t : Json) (k : bytes) : Prop := exists s, t = JStr s /\ k = sized 5 s.

Lemma keys_of l k : Forall2 key_of l k -> k = map encode l.
Proof. induction 1 as [|t x l k Ht Hl IH]; [done|]. cbn. by rewrite IH, Ht. Qed.

Lemma names_of l k : Forall2 name_key l k -> k = map (sized 5) (map name_of l).
Proof. induction 1 as [|t x l k (s & -> & ->) Hl IH]; [done|]. cbn. by rewrite IH. Qed.

(** Members zipped from a list of names and one of values. *)
Lemma zip_members {A B C} (f : A -> C) (g : B -> C) (l : list A) (m : list B) :
  zip (map f l) (map g m) = zip (map (fun e => f (fst e)) (zip l m)) (map (fun e => g (snd e)) (zip l m)).
Proof. revert m. induction l as [|x l IH]; intros [|y m]; cbn; [done..|]. by rewrite IH. Qed.

Lemma key_object_zip ns l : key_object (map (sized 5) ns) (map encode l) = let? m := ordered_members (zip ns l) in Ok (encode (JObj m)).
Proof. rewrite <- key_object_members. unfold key_object at 1. by rewrite zip_members. Qed.

#[export] Instance Tree_Key : Follows key_of name_key (fun (_ : TreeBuilder) (_ : KeyBuilder) => True).
Proof.
  constructor; intros b c; destruct c; cbn [b_null b_boolean b_number b_integer_literal b_string b_key b_array b_object Builder_Tree Builder_Key].
  1, 2, 5: intros; intros x [= <-]; (eexists; split; [reflexivity|]); split; done.
  - intros n _ Hn x [= <-]. eexists. split; [reflexivity|]. split; [|done]. destruct n as [v|v|v]; cbn in *; [done| |done]. unfold key_of. cbn [encode].
    unfold I64_MAX in Hn. destruct (Z.ltb_spec v 0); [lia|]. by rewrite Z.abs_eq by lia.
  - done.
  - intros s _ x [= <-]. eexists. split; [reflexivity|]. split; [|done]. by exists (cow_bytes s).
  - intros l k _ Hl x [= <-]. eexists. split; [reflexivity|]. split; [|done]. apply keys_of in Hl as ->. cbn. unfold key_of. cbn [encode]. by rewrite len_map.
  - intros ks js l m _ Hk Hl x E. apply keys_of in Hl as ->. apply names_of in Hk as ->. rewrite key_object_zip. destruct (ordered_members _) as [e| |]; [|done..]. injection E as <-.
    eexists. split; [reflexivity|]. done.
Qed.

Definition of_key (k : bytes) (t : Json) : Prop := key_of t k.
Definition key_name (k : bytes) (t : Json) : Prop := name_key t k.

Lemma Forall2_swap {A B} (R : A -> B -> Prop) l m : Forall2 (fun b a => R a b) m l -> Forall2 R l m.
Proof. induction 1; by constructor. Qed.

#[export] Instance Key_Tree : Follows of_key key_name (fun (_ : KeyBuilder) (_ : TreeBuilder) => True).
Proof.
  constructor; intros b c; destruct c; cbn [b_null b_boolean b_number b_integer_literal b_string b_key b_array b_object Builder_Tree Builder_Key].
  1, 2, 5: intros; intros x [= <-]; (eexists; split; [reflexivity|]); split; done.
  - intros n _ Hn x [= <-]. eexists. split; [reflexivity|]. split; [|done]. destruct n as [v|v|v]; cbn in *; [done| |done]. unfold of_key, key_of. cbn [encode].
    unfold I64_MAX in Hn. destruct (Z.ltb_spec v 0); [lia|]. by rewrite Z.abs_eq by lia.
  - done.
  - intros s _ x [= <-]. eexists. split; [reflexivity|]. split; [|done]. by exists (cow_bytes s).
  - intros l k _ Hl x [= <-]. eexists. split; [reflexivity|]. split; [|done]. apply Forall2_swap, keys_of in Hl as ->. cbn. unfold of_key, key_of. cbn [encode]. by rewrite len_map.
  - intros ks js l m _ Hk Hl x E. apply Forall2_swap, keys_of in Hl as ->. apply Forall2_swap, names_of in Hk as ->. rewrite key_object_zip in E. destruct (ordered_members _) as [e| |]; [|done..]. injection E as <-.
    eexists. split; [reflexivity|]. done.
Qed.

Section Facts.
Context `{SimdUtf8} `{Memchr2}.

(** A document has a key exactly when it has a value. *)
Lemma key_tree json k : key json = Ok k <-> exists t, tree json = Ok t /\ k = encode t.
Proof.
  unfold key, tree. split.
  - intros E. destruct (document _ key_builder) as [[[v q] b]| |] eqn:Ed; [|done..]. injection E as <-.
    apply (document_follows of_key key_name (fun _ _ => True) _ _ tree_builder) in Ed as (t & b' & -> & Hv & _); [|done]. by exists t.
  - intros (t & E & ->). destruct (document _ tree_builder) as [[[v q] b]| |] eqn:Ed; [|done..]. injection E as <-.
    apply (document_follows key_of name_key (fun _ _ => True) _ _ key_builder) in Ed as (k & b' & -> & Hv & _); [|done]. by rewrite Hv.
Qed.
End Facts.

(** * The encoding is a prefix code *)

Lemma app_prefix {A} (a b r s : list A) : length a = length b -> a ++ r = b ++ s -> a = b /\ r = s.
Proof. apply app_inj_1. Qed.

Lemma cons_eq {A} (x y : A) l m : x :: l = y :: m -> x = y /\ l = m.
Proof. by intros [= -> ->]. Qed.

Lemma be_length n v : length (to_be_bytes n v) = n.
Proof. unfold to_be_bytes. rewrite length_rev. pose proof (to_le_bytes_len n v) as E. unfold len in E. lia. Qed.

Lemma be_inj n a b r s : 0 <= a < 256 ^ Z.of_nat n -> 0 <= b < 256 ^ Z.of_nat n -> to_be_bytes n a ++ r = to_be_bytes n b ++ s -> a = b /\ r = s.
Proof.
  intros Ha Hb E. apply app_prefix in E as [E ->]; [|by rewrite !be_length]. split; [|done]. unfold to_be_bytes in E. apply (f_equal (@rev Z)) in E. rewrite !rev_involutive in E.
  by rewrite <- (from_to_le_bytes n a Ha), <- (from_to_le_bytes n b Hb), E.
Qed.

Lemma be32_inj a b r s : 0 <= a < U32 -> 0 <= b < U32 -> be32 a ++ r = be32 b ++ s -> a = b /\ r = s.
Proof. intros Ha Hb. unfold be32. rewrite !Z.mod_small by done. by apply be_inj. Qed.

Lemma sized_inj a b r s : len a < U32 -> len b < U32 -> sized 5 a ++ r = sized 5 b ++ s -> a = b /\ r = s.
Proof.
  intros Ha Hb. unfold sized. cbn [app]. rewrite <- !app_assoc. intros [_ E]%cons_eq. apply be32_inj in E as [El E]; [|len_lia..].
  apply app_prefix in E; [done|]. unfold len in El. lia.
Qed.

(** The value of big-endian bytes. *)
Definition from_be_bytes (l : bytes) : Z := from_le_bytes (rev l).

Lemma from_le_app l m : from_le_bytes (l ++ m) = from_le_bytes l + 256 ^ len l * from_le_bytes m.
Proof.
  induction l as [|x l IH]; cbn [app from_le_bytes]; [change (len (@nil Z)) with 0; lia|]. rewrite IH, len_cons, Z.pow_add_r by len_lia. lia.
Qed.

Lemma from_be_trim l : from_be_bytes (drop (Z.to_nat (default 7 (position_nonzero l))) l) = from_be_bytes l \/ (position_nonzero l = None).
Proof.
  induction l as [|x l IH]; cbn [position_nonzero]; [by right|]. destruct (Z.eqb_spec x 0) as [->|Hx]; cbn [negb]; [|by left].
  destruct (position_nonzero l) as [i|] eqn:E; [|by right]. left. destruct IH as [IH|]; [|done]. cbn [default] in IH |- *.
  assert (Hi : 0 <= i) by (clear IH; revert i E; induction l as [|y l IHl]; intros i E; cbn [position_nonzero] in E; [done|]; destruct (negb _); [injection E as <-; lia|];
    destruct (position_nonzero l) as [j|]; [|done]; injection E as <-; specialize (IHl j eq_refl); lia).
  unfold id in *. replace (Z.to_nat (i + 1)) with (S (Z.to_nat i)) by lia. cbn [drop]. rewrite IH. unfold from_be_bytes. cbn [rev]. rewrite from_le_app. cbn [from_le_bytes]. lia.
Qed.

Lemma position_none l : position_nonzero l = None -> from_be_bytes l = 0.
Proof.
  induction l as [|x l IH]; [done|]. cbn [position_nonzero]. destruct (Z.eqb_spec x 0) as [->|]; cbn [negb]; [|done]. destruct (position_nonzero l); [done|]. intros _.
  unfold from_be_bytes in *. cbn [rev]. rewrite from_le_app, IH by done. cbn. lia.
Qed.

Lemma from_be_to n v : 0 <= v < 256 ^ Z.of_nat n -> from_be_bytes (to_be_bytes n v) = v.
Proof. intros Hv. unfold from_be_bytes, to_be_bytes. rewrite rev_involutive. by apply from_to_le_bytes. Qed.

Lemma position_bound l i : position_nonzero l = Some i -> 0 <= i < len l.
Proof.
  revert i. induction l as [|x l IH]; intros i E; cbn [position_nonzero] in E; [done|]. rewrite len_cons. pose proof (len_nonneg l). destruct (negb _); [injection E as <-; lia|].
  destruct (position_nonzero l) as [j|]; [|done]. injection E as <-. specialize (IH j eq_refl). lia.
Qed.

Lemma drop_trim_value n : 0 <= n < U64 -> exists start, 0 <= start < 8 /\ default 7 (position_nonzero (to_be_bytes 8 n)) = start /\
  from_be_bytes (drop (Z.to_nat start) (to_be_bytes 8 n)) = n.
Proof.
  intros Hn. assert (Hv : from_be_bytes (to_be_bytes 8 n) = n) by (apply from_be_to; exact Hn). assert (Hl : len (to_be_bytes 8 n) = 8) by (unfold len; by rewrite be_length).
  eexists. split; [|split; [reflexivity|]].
  - destruct (position_nonzero _) as [i|] eqn:E; cbn; [apply position_bound in E; unfold id; lia|lia].
  - destruct (from_be_trim (to_be_bytes 8 n)) as [->|E]; [done|]. pose proof (position_none _ E) as H0. rewrite Hv in H0. subst n. vm_compute. reflexivity.
Qed.

Lemma integer_inj g h a b r s : 0 <= a < U64 -> 0 <= b < U64 -> integer g a ++ r = integer h b ++ s -> g = h /\ a = b /\ r = s.
Proof.
  intros Ha Hb E. destruct (drop_trim_value a Ha) as (i & Hi & Ei & Va). destruct (drop_trim_value b Hb) as (j & Hj & Ej & Vb). unfold integer in E. rewrite Ei, Ej in E.
  cbn [app] in E. apply cons_eq in E as [_ E]. apply cons_eq in E as [Eg E]. rewrite <- !app_assoc in E. apply be32_inj in E as [El E]; [|unfold U32; lia..]. assert (i = j) as -> by lia.
  apply app_prefix in E as [E ->]; [|rewrite !length_drop, !be_length; done]. rewrite <- Va, <- Vb, E. split; [by destruct g, h|done].
Qed.

(** Sizes fit 32 bits and numbers 64. *)
Fixpoint plain (t : Json) : Prop :=
  match t with
  | JNull | JBool _ => True
  | JInt z => Z.abs z < U64
  | JFloat bits => 0 <= bits < U64
  | JStr s => len s < U32
  | JArr l => len l < U32 /\ foldr (fun t P => plain t /\ P) True l
  | JObj l => len l < U32 /\ foldr (fun e P => (len (fst e) < U32 /\ plain (snd e)) /\ P) True l
  end.

Section Induction.
Context (P : Json -> Prop) (Hnull : P JNull) (Hbool : forall v, P (JBool v)) (Hint : forall z, P (JInt z)) (Hfloat : forall b, P (JFloat b)) (Hstr : forall s, P (JStr s))
  (Harr : forall l, Forall P l -> P (JArr l)) (Hobj : forall l, Forall (fun e => P (snd e)) l -> P (JObj l)).
Fixpoint Json_induction (t : Json) : P t :=
  match t with
  | JNull => Hnull | JBool v => Hbool v | JInt z => Hint z | JFloat b => Hfloat b | JStr s => Hstr s
  | JArr l => Harr l ((fix go l := match l return Forall P l with [] => Forall_nil_2 P | t :: l => Forall_cons_2 P t l (Json_induction t) (go l) end) l)
  | JObj l => Hobj l ((fix go l := match l return Forall (fun e => P (snd e)) l with [] => Forall_nil_2 _ | e :: l => Forall_cons_2 _ e l (Json_induction (snd e)) (go l) end) l)
  end.
End Induction.

Lemma encode_prefix t : forall u r s, plain t -> plain u -> encode t ++ r = encode u ++ s -> t = u /\ r = s.
Proof.
  induction t as [|v|z|bits|x|l IH|l IH] using Json_induction; intros u r s Ht Hu E.
  - destruct u as [|v'|z'|bits'|y|m|m]; cbn in E; try discriminate; [by injection E as ->|by destruct v'].
  - destruct u as [|v'|z'|bits'|y|m|m]; try (cbn in E; by destruct v). destruct v, v'; cbn in E; (discriminate || by injection E as ->).
  - destruct u as [|v'|z'|bits'|y|m|m]; try (cbn in E; discriminate); [cbn in E; by destruct v'|]. cbn [plain] in *. apply integer_inj in E as (Eg & Ea & ->); [|lia..]. split; [f_equal|done]. lia.
  - destruct u as [|v'|z'|bits'|y|m|m]; try (cbn in E; discriminate); [cbn in E; by destruct v'|]. cbn [plain encode app] in *. apply cons_eq in E as [_ E]. apply be_inj in E as [-> ->]; done.
  - destruct u as [|v'|z'|bits'|y|m|m]; try (cbn in E; discriminate); [cbn in E; by destruct v'|]. cbn [plain encode] in *. apply sized_inj in E as [-> ->]; done.
  - destruct u as [|v'|z'|bits'|y|m|m]; try (cbn in E; discriminate); [cbn in E; by destruct v'|]. cbn [encode] in E. destruct Ht as [Hl Ht]. destruct Hu as [Hm Hu].
    cbn [app] in E. apply cons_eq in E as [_ E]. rewrite <- !app_assoc in E. apply be32_inj in E as [El E]; [|len_lia..]. enough (l = m /\ r = s) as [-> ->] by done.
    clear Hl Hm. revert m r s IH Ht Hu El E. induction l as [|t l IHl]; intros [|u m] r s IH Ht Hu El E; rewrite ?len_cons in El; [done|exfalso; revert El; len_lia..|].
    cbn [map concat] in E. rewrite <- !app_assoc in E. apply list.Forall_cons in IH as [IHt IH]. destruct Ht as [Ht Htl]. destruct Hu as [Hu Hul]. apply IHt in E as [-> E]; [|done..].
    apply IHl in E as [-> ->]; [done|done|done|done|lia].
  - destruct u as [|v'|z'|bits'|y|m|m]; try (cbn in E; discriminate); [cbn in E; by destruct v'|]. cbn [encode] in E. destruct Ht as [Hl Ht]. destruct Hu as [Hm Hu].
    cbn [app] in E. apply cons_eq in E as [_ E]. rewrite <- !app_assoc in E. apply be32_inj in E as [El E]; [|len_lia..]. enough (l = m /\ r = s) as [-> ->] by done.
    clear Hl Hm. revert m r s IH Ht Hu El E. induction l as [|[n t] l IHl]; intros [|[n' u] m] r s IH Ht Hu El E; rewrite ?len_cons in El; [done|exfalso; revert El; len_lia..|].
    cbn [map concat fst snd] in E. rewrite <- !app_assoc in E. apply list.Forall_cons in IH as [IHt IH]. destruct Ht as [[Hn Ht] Htl]. destruct Hu as [[Hn' Hu] Hul]. cbn [fst snd] in *.
    apply sized_inj in E as [-> E]; [|done..]. apply IHt in E as [-> E]; [|done..]. apply IHl in E as [-> ->]; [done|done|done|done|lia].
Qed.

(** * Values are no larger than their text *)

Fixpoint weight (t : Json) : Z :=
  match t with
  | JNull | JBool _ | JInt _ | JFloat _ => 1
  | JStr s => len s + 1
  | JArr l => 1 + foldr (fun t n => weight t + n) 0 l
  | JObj l => 1 + foldr (fun e n => (len (fst e) + 1 + weight (snd e)) + n) 0 l
  end.

Fixpoint ranged (t : Json) : Prop :=
  match t with
  | JInt z => Z.abs z < U64
  | JFloat bits => 0 <= bits < U64
  | JArr l => foldr (fun t P => ranged t /\ P) True l
  | JObj l => foldr (fun e P => ranged (snd e) /\ P) True l
  | _ => True
  end.

Definition weights (l : list Json) : Z := foldr (fun t n => weight t + n) 0 l.
Definition members_weight (l : list (bytes * Json)) : Z := foldr (fun e n => (len (fst e) + 1 + weight (snd e)) + n) 0 l.

Lemma weight_pos t : 1 <= weight t.
Proof.
  induction t as [|v|z|bits|x|l IH|l IH] using Json_induction; cbn [weight]; [lia..|len_lia| |].
  - enough (0 <= foldr (fun t n => weight t + n) 0 l) by lia. induction IH as [|t l Ht Hl IHl]; cbn; lia.
  - enough (0 <= foldr (fun e n => (len (fst e) + 1 + weight (snd e)) + n) 0 l) by lia. induction IH as [|t l Ht Hl IHl]; cbn; [lia|]. pose proof (len_nonneg (fst t)). lia.
Qed.

Lemma weights_len l : len l <= weights l.
Proof. induction l as [|t l IH]; [done|]. rewrite len_cons. cbn. pose proof (weight_pos t). unfold weights in *. lia. Qed.

Lemma members_len l : len l <= members_weight l.
Proof. induction l as [|t l IH]; [done|]. rewrite len_cons. cbn. pose proof (weight_pos (snd t)). pose proof (len_nonneg (fst t)). unfold members_weight in *. lia. Qed.

Lemma light_plain t : weight t < U32 -> ranged t -> plain t.
Proof.
  induction t as [|v|z|bits|x|l IH|l IH] using Json_induction; cbn [weight ranged plain]; intros Hw Hr; [done..|len_lia| |].
  - fold (weights l) in Hw. pose proof (weights_len l). split; [lia|]. clear H. induction IH as [|t l Ht Hl IHl]; cbn in *; [done|]. destruct Hr as [Hr Hrl]. fold (weights l) in Hw.
    pose proof (weight_pos t). pose proof (weights_len l). pose proof (len_nonneg l). split; [apply Ht; [lia|done]|apply IHl; [lia|done]].
  - fold (members_weight l) in Hw. pose proof (members_len l). split; [lia|]. clear H. induction IH as [|[n t] l Ht Hl IHl]; cbn in *; [done|]. destruct Hr as [Hr Hrl]. fold (members_weight l) in Hw.
    pose proof (weight_pos t). pose proof (members_len l). pose proof (len_nonneg l). pose proof (len_nonneg n). split; [split; [lia|apply Ht; [lia|done]]|apply IHl; [lia|done]].
Qed.

Lemma weights_app l m : weights (l ++ m) = weights l + weights m.
Proof. unfold weights. induction l as [|t l IH]; cbn; lia. Qed.
Lemma weights_nonneg l : 0 <= weights l.
Proof. pose proof (weights_len l). pose proof (len_nonneg l). lia. Qed.

(** What the members on the stacks weigh. *)
Lemma zip_weight ks vs : members_weight (zip (map name_of ks) vs) <= weights ks + weights vs.
Proof.
  revert vs. induction ks as [|k ks IH]; intros [|v vs]; cbn [map zip zip_with].
  - done.
  - pose proof (weights_nonneg (v :: vs)). cbn. unfold weights in *. cbn in *. lia.
  - pose proof (weights_nonneg (k :: ks)). cbn. unfold weights in *. cbn in *. lia.
  - specialize (IH vs). cbn. unfold members_weight, weights in *. cbn. assert (len (name_of k) + 1 <= weight k) by (pose proof (weight_pos k); destruct k; cbn [name_of]; try (change (len (@nil Z)) with 0; lia); cbn [weight]; lia). lia.
Qed.

Lemma members_perm l m : l ≡ₚ m -> members_weight l = members_weight m.
Proof. unfold members_weight. induction 1; cbn; lia. Qed.

Lemma ordered_members_perm {A} (l m : list (bytes * A)) : ordered_members l = Ok m -> m ≡ₚ l.
Proof. unfold ordered_members. destruct (existsb _ _); [done|]. intros [= <-]. apply sort_by_perm. Qed.

Definition all_ranged (l : list Json) : Prop := Forall ranged l.
Lemma ranged_arr l : ranged (JArr l) <-> all_ranged l.
Proof. unfold all_ranged. cbn. induction l as [|t l IH]; cbn; [split; [constructor|done]|]. rewrite list.Forall_cons, IH. done. Qed.
Lemma ranged_obj l : ranged (JObj l) <-> Forall (fun e => ranged (snd e)) l.
Proof. cbn. induction l as [|t l IH]; cbn; [split; [constructor|done]|]. rewrite list.Forall_cons, IH. done. Qed.

Section Weigh.
Context `{SimdUtf8} `{Memchr2}.

Definition value_weighs (fuel : nat) : Prop := forall p b st t q b' st', in_bounds p ->
  value_in fuel p b st ordinary = Ok (t, q, b', st') -> weight t <= q.(jpos) - p.(jpos) /\ ranged t.
Definition object_weighs (fuel : nat) : Prop := forall p b st seen q b' st', in_bounds p ->
  object_loop fuel p b st ordinary seen = Ok (q, b', st') -> exists ks vs, st' = mkStacks (st.(st_keys) ++ ks) (st.(st_values) ++ vs) /\
    weights ks + weights vs <= q.(jpos) - p.(jpos) /\ all_ranged vs.
Definition array_weighs (fuel : nat) : Prop := forall p b (st : Stacks Json) q b' st', in_bounds p ->
  array_loop fuel p b st ordinary = Ok (q, b', st') -> exists vs, st' = mkStacks st.(st_keys) (st.(st_values) ++ vs) /\
    weights vs <= q.(jpos) - p.(jpos) /\ all_ranged vs.

Lemma object_weighs_S fuel : value_weighs fuel -> object_weighs fuel -> object_weighs (S fuel).
Proof.
  intros HV HO p b st seen q b' st' Hp E. simpl in E. destruct (JsonRead.string p) as [[key p1]| |] eqn:E1; [|done..]. pose proof (string_len _ _ _ Hp E1) as Hk. apply string_moved in E1; [|done]. into_bounds.
  rewrite Z.land_0_r in E. cbn [Z.eqb negb] in E. destruct (colon p1) as [p2| |] eqn:E2; [|done..]. apply colon_moved in E2; [|done]. into_bounds.
  destruct (value_in fuel p2 b _ _) as [[[[v p3] b2] st1]| |] eqn:E3; [|done..]. pose proof (value_in_post _ _ _ _ _ _ _ _ _ ltac:(eassumption) E3) as [Hm3 ->]. into_bounds. apply HV in E3 as [Hw Hr]; [|done].
  destruct (object_next p3) as [[more p4]| |] eqn:E4; [|done..]. apply object_next_moved in E4; [|done]. into_bounds. cbn [st_keys st_values] in E.
  destruct E2 as (_ & _ & _ & P2). destruct E4 as (_ & _ & _ & P4). destruct more.
  - apply HO in E as (ks & vs & -> & Hws & Hrs); [|done]. exists (JStr (cow_bytes key) :: ks), (v :: vs). cbn [st_keys st_values]. rewrite <- !app_assoc. split; [done|]. split; [|by constructor].
    unfold weights in *. cbn [foldr weight]. lia.
  - injection E as <- <- <-. exists [JStr (cow_bytes key)], [v]. split; [done|]. split; [|by repeat constructor]. unfold weights. cbn [foldr weight]. lia.
Qed.

Lemma array_weighs_S fuel : value_weighs fuel -> array_weighs fuel -> array_weighs (S fuel).
Proof.
  intros HV HA p b st q b' st' Hp E. simpl in E. pose proof (ws_moved p Hp) as (_ & _ & _ & P0). pose proof (moved_in_bounds 0 _ _ ltac:(lia) Hp (ws_moved p Hp)).
  destruct (value_in fuel (ws p) b st _) as [[[[v p3] b2] st1]| |] eqn:E3; [|done..]. pose proof (value_in_post _ _ _ _ _ _ _ _ _ ltac:(eassumption) E3) as [Hm3 ->]. into_bounds. apply HV in E3 as [Hw Hr]; [|done].
  pose proof (ws_moved p3 ltac:(done)) as Hm4. into_bounds. destruct (peek (ws p3)) as [c| |] eqn:Ec; [|done..]. apply peek_moved in Ec; [|done]. into_bounds. cbn [st_keys st_values] in E.
  destruct Hm4 as (_ & _ & _ & P4). destruct Ec as (_ & _ & _ & P5). destruct (c =? 44).
  - apply HA in E as (vs & -> & Hws & Hrs); [|done]. exists (v :: vs). cbn [st_keys st_values]. rewrite <- !app_assoc. split; [done|]. split; [|by constructor]. unfold weights in *. cbn [foldr]. lia.
  - destruct (c =? 93); [|done]. injection E as <- <- <-. exists [v]. split; [done|]. split; [|by repeat constructor]. unfold weights. cbn [foldr]. lia.
Qed.

Lemma number_ranged n : number_ok n -> ranged (match n with Int v | UInt v => JInt v | Float v => JFloat v end).
Proof. destruct n; cbn; unfold I64_MIN, I64_MAX, U64_MAX, U64; lia. Qed.

Lemma value_weighs_S fuel : object_weighs fuel -> array_weighs fuel -> value_weighs (S fuel).
Proof.
  intros HO HA p b st t q b' st' Hp E. pose proof (value_in_post _ _ _ _ _ _ _ _ _ Hp E) as [(_ & _ & _ & Pq) _]. simpl in E. destruct (peek p) as [c| |] eqn:Ec; [|done..].
  pose proof (peek_bound _ _ Ec) as Hl. destruct (c =? 123); [|destruct (c =? 91); [|destruct (c =? 34)]].
  - destruct (enter p) as [p1| |] eqn:E1; [|done..]. pose proof (enter_in_bounds _ _ Hp E1). apply enter_spec in E1 as [E1 _]. assert (Hl1 : jpos p1 < len (jbuf p1)) by (by rewrite E1).
    pose proof (adv1_moved p1 ltac:(done) Hl1) as (_ & _ & _ & P1). pose proof (moved_in_bounds 1 _ _ ltac:(lia) ltac:(eassumption) (adv1_moved p1 ltac:(done) Hl1)).
    destruct (object_open (adv p1 1)) as [[more p2]| |] eqn:E2; [|done..]. apply object_open_moved in E2; [|done]. into_bounds. destruct E2 as (_ & _ & _ & P2).
    destruct (if more then object_loop fuel p2 b st ordinary 0 else Ok (p2, b, st)) as [[[p3 b1] st1]| |] eqn:E3; [|done..].
    assert (exists ks vs, st1 = mkStacks (st.(st_keys) ++ ks) (st.(st_values) ++ vs) /\ weights ks + weights vs <= p3.(jpos) - p2.(jpos) /\ all_ranged vs) as (ks & vs & -> & Hw & Hr).
    { destruct more; [by eapply HO|]. injection E3 as <- <- <-. exists [], []. rewrite !app_nil_r. split; [by destruct st|]. split; [cbn; lia|constructor]. }
    cbn [st_keys st_values] in E. rewrite !drop_app_length in E. destruct (ordered_members _) as [l| |] eqn:Eo; [|done..]. injection E as <- <- <- <-. apply ordered_members_perm in Eo.
    cbn [jpos set_depth]. assert (Hp1 : jpos p1 = jpos p) by by rewrite E1. split.
    + change (weight (JObj l)) with (1 + members_weight l). rewrite (members_perm _ _ Eo). pose proof (zip_weight ks vs). lia.
    + apply ranged_obj. rewrite Eo. clear -Hr. revert ks. induction Hr as [|v vs Hv Hvs IH]; intros [|k ks]; cbn; [constructor..|]. constructor; [done|apply IH].
  - destruct (enter p) as [p1| |] eqn:E1; [|done..]. pose proof (enter_in_bounds _ _ Hp E1). apply enter_spec in E1 as [E1 _]. assert (Hl1 : jpos p1 < len (jbuf p1)) by (by rewrite E1).
    pose proof (adv1_moved p1 ltac:(done) Hl1) as (_ & _ & _ & P1). pose proof (moved_in_bounds 1 _ _ ltac:(lia) ltac:(eassumption) (adv1_moved p1 ltac:(done) Hl1)).
    pose proof (ws_moved (adv p1 1) ltac:(done)) as Hm2. into_bounds. destruct Hm2 as (_ & _ & _ & P2). destruct (peek (ws (adv p1 1))) as [d| |] eqn:Ed; [|done..]. apply peek_moved in Ed; [|done].
    destruct Ed as (_ & _ & _ & P3). destruct (if d =? 93 then _ else _) as [[[p3 b1] st1]| |] eqn:E3; [|done..].
    assert (exists vs, st1 = mkStacks st.(st_keys) (st.(st_values) ++ vs) /\ weights vs <= p3.(jpos) - (ws (adv p1 1)).(jpos) /\ all_ranged vs) as (vs & -> & Hw & Hr).
    { destruct (d =? 93); [|by eapply HA]. injection E3 as <- <- <-. exists []. rewrite !app_nil_r. split; [by destruct st|]. split; [cbn in *; lia|constructor]. }
    cbn [st_keys st_values] in E. rewrite !drop_app_length in E. injection E as <- <- <- <-. cbn [jpos set_depth]. assert (Hp1 : jpos p1 = jpos p) by by rewrite E1.
    split; [change (weight (JArr vs)) with (1 + weights vs); lia|by apply ranged_arr].
  - destruct (JsonRead.string p) as [[s p1]| |] eqn:E1; [|done..]. apply string_len in E1; [|done]. injection E as <- <- <- <-. cbn [weight ranged]. split; [lia|done].
  - assert (Hone : forall v : Json, weight v = 1 -> weight v <= q.(jpos) - p.(jpos)) by lia.
    destruct (c =? 116); [destruct (literal p _); [|done..]; injection E as <- <- <- <-; by split; [apply Hone|]|].
    destruct (c =? 102); [destruct (literal p _); [|done..]; injection E as <- <- <- <-; by split; [apply Hone|]|].
    destruct (c =? 110); [destruct (literal p _); [|done..]; injection E as <- <- <- <-; by split; [apply Hone|]|].
    destruct (_ || _); [|done]. destruct (number p) as [[n p1]| |] eqn:En; [|done..]. apply number_range in En. injection E as <- <- <- <-. split; [apply Hone; by destruct n|by apply number_ranged].
Qed.

Lemma parser_weighs fuel : value_weighs fuel /\ object_weighs fuel /\ array_weighs fuel.
Proof.
  induction fuel as [|fuel (HV & HO & HA)]; [split_and!; intros p; intros; done|].
  split_and!; [by apply value_weighs_S|by apply object_weighs_S|by apply array_weighs_S].
Qed.

Lemma tree_plain json t : len json < U32 -> tree json = Ok t -> plain t.
Proof.
  intros Hl E. unfold tree, document, document_with, document_in in E. pose proof (ws_moved _ (new_in_bounds json)) as Hm. pose proof (moved_in_bounds 0 _ _ ltac:(lia) (new_in_bounds json) Hm) as Hb.
  destruct (value_top _ _ _ _) as [[[[v p] b] st]| |] eqn:Ev; [|done..]. unfold value_top in Ev. pose proof (value_in_post _ _ _ _ _ _ _ _ _ Hb Ev) as [(_ & _ & _ & P) _].
  apply (parser_weighs (value_fuel (ws (Parser_new json)))) in Ev as [Hw Hr]; [|done]. destruct (jend _); [|done..]. injection E as <-. apply light_plain; [|done].
  destruct Hm as (_ & _ & _ & P0). change (jbuf (ws (Parser_new json))) with json in P. change (jpos (Parser_new json)) with 0 in P0. lia.
Qed.

(** ** Spans *)

Definition member_of (e : Cow * bytes) (m : bytes * Json) : Prop := cow_bytes (fst e) = fst m /\ tree (snd e) = Ok (snd m).

Lemma span_values_iff entries l : span_values entries = Ok l <-> Forall2 member_of entries l.
Proof.
  revert l. induction entries as [|[name value] entries IH]; intros l; cbn [span_values].
  { split; [intros [= <-]; constructor|inversion 1; done]. }
  split.
  - destruct (tree value) as [t| |] eqn:Et; [|done..]. destruct (span_values entries) as [m| |]; [|done..]. intros [= <-]. constructor; [done|by apply IH].
  - inversion 1 as [|? m ? l' [Hn Ht] Hl]; subst. cbn in Ht. rewrite Ht, (proj2 (IH l') Hl). cbn in Hn. rewrite Hn. by destruct m.
Qed.

Lemma span_entries_iff entries out k : span_entries entries out = Ok k <->
  exists l, Forall2 member_of entries l /\ k = out ++ concat (map (fun e => sized 5 (fst e) ++ encode (snd e)) l).
Proof.
  revert out. induction entries as [|[name value] entries IH]; intros out; cbn [span_entries].
  { split; [intros [= <-]; exists []; split; [constructor|by rewrite app_nil_r]|]. intros (l & Hl & ->). inversion Hl. by rewrite app_nil_r. }
  split.
  - destruct (key value) as [v| |] eqn:Ek; [|done..]. apply key_tree in Ek as (t & Et & ->). intros (l & Hl & ->)%IH. exists ((cow_bytes name, t) :: l). split; [by constructor|].
    cbn [map concat fst snd]. by rewrite <- !app_assoc.
  - intros (l & Hl & ->). inversion Hl as [|? m ? l' [Hn Ht] Hl']; subst. cbn in Ht, Hn. rewrite (proj2 (key_tree value _)) by by exists (snd m). apply IH. exists l'. split; [done|].
    cbn [map concat]. by rewrite <- !app_assoc, Hn.
Qed.

Lemma sort_insert_related {A B} (R : A -> B -> Prop) leb1 leb2 x y l m : (forall a b c d, R a b -> R c d -> leb1 a c = leb2 b d) -> R x y -> Forall2 R l m -> Forall2 R (sort_insert leb1 x l) (sort_insert leb2 y m).
Proof.
  intros Hl Hx. induction 1 as [|a b l m Hab Hlm IH]; cbn [sort_insert]; [by repeat constructor|]. rewrite (Hl x y a b) by done. destruct (leb2 y b); [by repeat constructor|by constructor].
Qed.

Lemma sort_related {A B} (R : A -> B -> Prop) leb1 leb2 l m : (forall a b c d, R a b -> R c d -> leb1 a c = leb2 b d) -> Forall2 R l m -> Forall2 R (sort_by leb1 l) (sort_by leb2 m).
Proof. intros Hl. induction 1 as [|a b l m Hab Hlm IH]; cbn [sort_by]; [constructor|]. by apply sort_insert_related. Qed.

Lemma windows_related {A B} (R : A -> B -> Prop) eq1 eq2 l m : (forall a b c d, R a b -> R c d -> eq1 a c = eq2 b d) -> Forall2 R l m ->
  existsb (fun p : A * A => eq1 (fst p) (snd p)) (windows2 l) = existsb (fun p : B * B => eq2 (fst p) (snd p)) (windows2 m).
Proof.
  intros He. induction 1 as [|a b l m Hab Hlm IH]; [done|]. destruct Hlm as [|a' b' l m Hab' Hlm]; [done|]. cbn [windows2 existsb fst snd] in *. by rewrite IH, (He a b a' b').
Qed.

Lemma related_perm {A B} (R : A -> B -> Prop) l l' m : l ≡ₚ l' -> Forall2 R l m -> exists m', m ≡ₚ m' /\ Forall2 R l' m'.
Proof.
  intros Hp. revert m. induction Hp as [|x l l' Hp IH|x y l|l1 l2 l3 H1 IH1 H2 IH2]; intros m Hm.
  - by exists m.
  - inversion Hm as [|? b ? m0 Hb Hm0]; subst. destruct (IH m0 Hm0) as (m' & ? & ?). exists (b :: m'). split; [by constructor|by constructor].
  - inversion Hm as [|? b ? m0 Hb Hm0]; subst. inversion Hm0 as [|? c ? m1 Hc Hm1]; subst. exists (c :: b :: m1). split; [constructor|by repeat constructor].
  - destruct (IH1 m Hm) as (m' & P1 & F1). destruct (IH2 m' F1) as (m'' & P2 & F2). exists m''. split; [by etransitivity|done].
Qed.

(** A payload has a span key exactly when its members have values. *)
Lemma span_key_tree json projected k : span_key json projected = Ok k <-> exists t, span_tree json projected = Ok t /\ k = encode t.
Proof.
  unfold span_key, span_tree. destruct (raw_object _) as [[fields p]| |]; [|split; [done|by intros (t & ? & _)]..]. set (E := List.filter (span_member projected) fields).
  set (leb := fun a b : Cow * bytes => bytes_leb (cow_bytes (fst a)) (cow_bytes (fst b))).
  assert (Hleb : forall a b c d, member_of a b -> member_of c d -> leb a c = by_name b d) by (intros a b c d [E1 _] [E2 _]; unfold leb, by_name; by rewrite E1, E2).
  assert (Hdup : forall l m, Forall2 member_of l m -> existsb (fun p => bytes_eqb (cow_bytes (fst (fst p))) (cow_bytes (fst (snd p)))) (windows2 l) = existsb (fun p => bytes_eqb (fst (fst p)) (fst (snd p))) (windows2 m)).
  { intros l m Hlm. apply (windows_related member_of (fun a b => bytes_eqb (cow_bytes (fst a)) (cow_bytes (fst b))) (fun a b => bytes_eqb (fst a) (fst b))); [|done]. intros a b c d [E1 _] [E2 _]. by rewrite E1, E2. }
  split.
  - destruct (existsb _ _) eqn:Ed; [done|]. intros (l & Hl & ->)%span_entries_iff.
    destruct (related_perm member_of _ E l (sort_by_perm leb E) Hl) as (m & Hm & HEm). pose proof (sort_related member_of leb by_name E m Hleb HEm) as Hs.
    assert (l = sort_by by_name m) as ->.
    { clear -Hl Hs. revert Hs. generalize (sort_by by_name m). induction Hl as [|a b l1 l2 [H1 H2] Hl IH]; intros m' Hs; inversion Hs as [|? b' ? m'' [H3 H4] Hs']; subst; [done|]. f_equal; [|by apply IH].
      destruct b, b'. cbn in *. congruence. }
    exists (JObj (sort_by by_name m)). rewrite (proj2 (span_values_iff E m) HEm). unfold ordered_members. rewrite <- (Hdup _ _ Hs), Ed. split; [done|]. cbn [encode].
    assert (Hlen : len (sort_by leb E) = len (sort_by by_name m)) by (unfold len; by rewrite (Forall2_length Hs)). by rewrite Hlen.
  - intros (t & Et & ->). destruct (span_values E) as [m| |] eqn:Em; [|done..]. apply span_values_iff in Em. pose proof (sort_related member_of leb by_name E m Hleb Em) as Hs.
    unfold ordered_members in Et. destruct (existsb _ _) eqn:Ed in Et; [done|]. injection Et as <-. rewrite (Hdup _ _ Hs), Ed. apply span_entries_iff. exists (sort_by by_name m). split; [done|]. cbn [encode].
    assert (Hlen : len (sort_by leb E) = len (sort_by by_name m)) by (unfold len; by rewrite (Forall2_length Hs)). by rewrite Hlen.
Qed.

Definition raw_weight (l : list (Cow * bytes)) : Z := foldr (fun e n => (len (cow_bytes (fst e)) + 1 + len (snd e)) + n) 0 l.

Lemma raw_weight_app l m : raw_weight (l ++ m) = raw_weight l + raw_weight m.
Proof. unfold raw_weight. induction l as [|e l IH]; cbn; lia. Qed.

Lemma raw_object_loop_weight fuel p fields fields' q : in_bounds p -> raw_object_loop fuel p fields = Ok (fields', q) -> raw_weight fields' <= raw_weight fields + (q.(jpos) - p.(jpos)) /\ q.(jpos) <= len p.(jbuf).
Proof.
  revert p fields. induction fuel as [|fuel IH]; intros p fields Hp E; cbn [raw_object_loop] in E; [done|].
  destruct (JsonRead.string p) as [[name p1]| |] eqn:E1; [|done..]. pose proof (string_len _ _ _ Hp E1) as Hn. apply string_moved in E1; [|done]. into_bounds.
  destruct (colon p1) as [p2| |] eqn:E2; [|done..]. apply colon_moved in E2; [|done]. into_bounds. destruct (skip_value p2) as [[raw p3]| |] eqn:E3; [|done..]. apply skip_value_moved in E3 as [E3 Hraw]; [|done]. into_bounds.
  destruct (object_next p3) as [[more p4]| |] eqn:E4; [|done..]. apply object_next_moved in E4; [|done]. into_bounds.
  destruct E1 as (B1 & _ & _ & P1). destruct E2 as (B2 & _ & _ & P2). destruct E3 as (B3 & _ & _ & P3). destruct E4 as (B4 & _ & _ & P4). rewrite B2 in *. rewrite B1 in *.
  assert (Hw : raw_weight (fields ++ [(name, raw)]) <= raw_weight fields + (p4.(jpos) - p.(jpos))).
  { rewrite raw_weight_app. cbn. assert (len raw <= p3.(jpos) - p2.(jpos)) by (rewrite Hraw; unfold len, slice; rewrite length_take; lia). lia. }
  destruct more; [|injection E as <- <-; split; [lia|rewrite B3 in P4; lia]]. apply IH in E as [Hi Hq]; [|done]. split; [lia|]. rewrite B4, B3 in Hq. done.
Qed.

Lemma raw_object_weight json fields p : raw_object (Parser_new json) = Ok (fields, p) -> raw_weight fields <= len json.
Proof.
  unfold raw_object. pose proof (ws_moved _ (new_in_bounds json)) as Hm0. pose proof (moved_in_bounds 0 _ _ ltac:(lia) (new_in_bounds json) Hm0). intros E.
  destruct (expect _ _) as [p1| |] eqn:E1; [|done..]. apply expect_moved in E1; [|done]. into_bounds. destruct (object_open p1) as [[more p2]| |] eqn:E2; [|done..]. apply object_open_moved in E2; [|done]. into_bounds.
  destruct Hm0 as (_ & _ & _ & P0). destruct E1 as (B1 & _ & _ & P1). destruct E2 as (B2 & _ & _ & P2). change (jpos (Parser_new json)) with 0 in P0. change (jbuf (ws (Parser_new json))) with json in *.
  destruct more; [|injection E as <- <-; cbn; len_lia]. apply raw_object_loop_weight in E as [Hw Hq]; [|done]. rewrite B2, B1 in Hq. cbn in Hw. lia.
Qed.

Lemma raw_weight_in l e : e ∈ l -> len (cow_bytes (fst e)) + len (snd e) < raw_weight l + 1 /\ 0 <= raw_weight l.
Proof.
  induction l as [|f l IH]; [by intros ?%not_elem_of_nil|]. assert (Hn : forall l, 0 <= raw_weight l).
  { unfold raw_weight. induction l0 as [|g l0 IHl]; cbn; [lia|]. pose proof (len_nonneg (cow_bytes (fst g))). pose proof (len_nonneg (snd g)). lia. }
  intros Hin. split; [|apply Hn]. pose proof (Hn l) as H0'. pose proof (len_nonneg (cow_bytes (fst f))). pose proof (len_nonneg (snd f)). unfold raw_weight in *. cbn.
  apply elem_of_cons in Hin as [->|Hin]; [lia|]. destruct (IH Hin) as [Hi _]. lia.
Qed.

Lemma raw_weight_len l : len l <= raw_weight l.
Proof. unfold raw_weight. induction l as [|e l IH]; [done|]. rewrite len_cons. cbn. pose proof (len_nonneg (cow_bytes (fst e))). pose proof (len_nonneg (snd e)). lia. Qed.

Lemma span_tree_plain json projected t : len json < U32 -> span_tree json projected = Ok t -> plain t.
Proof.
  intros Hl E. unfold span_tree in E. destruct (raw_object _) as [[fields p]| |] eqn:Er; [|done..]. apply raw_object_weight in Er. destruct (span_values _) as [l| |] eqn:Es; [|done..].
  destruct (ordered_members l) as [m| |] eqn:Eo; [|done..]. injection E as <-. apply ordered_members_perm in Eo. apply span_values_iff in Es.
  assert (Hlen : len m < U32).
  { assert (len m = len l) by (unfold len; by rewrite Eo). assert (len l = len (List.filter (span_member projected) fields)) by (unfold len; by rewrite (Forall2_length Es)).
    assert (len (List.filter (span_member projected) fields) <= len fields) by (unfold len; pose proof (filter_length_le (span_member projected) fields); lia). pose proof (raw_weight_len fields). lia. }
  split; [done|]. assert (Hall : Forall (fun e => len (fst e) < U32 /\ plain (snd e)) m).
  { rewrite Eo. apply list.Forall_forall. intros e He. apply list_elem_of_lookup in He as [i Hi]. apply (Forall2_lookup_r _ _ _ _ _ Es) in Hi as (f & Hf & [Hn Ht]).
    assert (Hin : f ∈ fields) by (apply list_elem_of_In; eapply (proj1 (filter_In (span_member projected) f fields)); apply list_elem_of_In; by eapply list_elem_of_lookup_2).
    apply raw_weight_in in Hin as [Hw _]. pose proof (len_nonneg (snd f)). pose proof (len_nonneg (cow_bytes (fst f))). rewrite <- Hn. split; [lia|]. eapply tree_plain; [|exact Ht]. lia. }
  clear -Hall. induction Hall as [|e m He Hm IH]; cbn; done.
Qed.

Lemma same_key (f : bytes -> Res bytes) (g : bytes -> Res Json) a b s t : (forall j k, f j = Ok k <-> exists t, g j = Ok t /\ k = encode t) ->
  (plain s /\ plain t) -> g a = Ok s -> g b = Ok t -> f a = f b <-> s = t.
Proof.
  intros Hf [Hs Ht] Ea Eb. rewrite (proj2 (Hf a (encode s))) by by exists s. rewrite (proj2 (Hf b (encode t))) by by exists t.
  split; [|by intros ->]. intros [= E]. apply (encode_prefix s t [] []); [done|done|by rewrite !app_nil_r].
Qed.

(** C25. A document has a sort key exactly when it parses to a value without
    repeated names, and a payload has a span key exactly when its members do,
    the metadata left out as asked; and two keys are equal exactly when the
    values are, integers and floats distinguished and members compared by name
    whatever their order, for all inputs below four gigabytes. *)
Theorem span_key_exact (a b : bytes) (projected : bool) : len a < U32 -> len b < U32 ->
  (forall k, key a = Ok k <-> exists t, tree a = Ok t /\ k = encode t) /\
  (forall s t, tree a = Ok s -> tree b = Ok t -> key a = key b <-> s = t) /\
  (forall k, span_key a projected = Ok k <-> exists t, span_tree a projected = Ok t /\ k = encode t) /\
  (forall s t, span_tree a projected = Ok s -> span_tree b projected = Ok t -> span_key a projected = span_key b projected <-> s = t).
Proof.
  intros Ha Hb. split_and!.
  - apply key_tree.
  - intros s t Es Et. apply (same_key key tree); [apply key_tree|split; [by apply (tree_plain a)|by apply (tree_plain b)]|done..].
  - apply span_key_tree.
  - intros s t Es Et. apply (same_key (fun j => span_key j projected) (fun j => span_tree j projected)); [intros j; apply span_key_tree|split; [by apply (span_tree_plain a projected)|by apply (span_tree_plain b projected)]|done..].
Qed.
End Weigh.

Section Samples.
Import External.Concrete.

(** [{"b":[1,true],"a":2}] and the same with its members exchanged; then
    with a float. *)
Definition sample_one : bytes := [123; 34; 98; 34; 58; 91; 49; 44; 116; 114; 117; 101; 93; 44; 34; 97; 34; 58; 50; 125].
Definition sample_two : bytes := [123; 34; 97; 34; 58; 50; 44; 34; 98; 34; 58; 91; 49; 44; 116; 114; 117; 101; 93; 125].

Lemma span_key_exact_witness : len sample_one < U32 /\ len sample_two < U32 /\ span_key sample_one false = span_key sample_two false /\ key [49] <> key [49; 46; 48].
Proof.
  assert (H1 : len sample_one < U32) by (vm_compute; reflexivity). assert (H2 : len sample_two < U32) by (vm_compute; reflexivity).
  split; [exact H1|]. split; [exact H2|]. split.
  - destruct (span_key_exact sample_one sample_two false H1 H2) as (_ & _ & _ & H4).
    apply (H4 (JObj [([97], JInt 2); ([98], JArr [JInt 1; JBool true])]) (JObj [([97], JInt 2); ([98], JArr [JInt 1; JBool true])])); [vm_compute; reflexivity..|reflexivity].
  - destruct (span_key_exact [49] [49; 46; 48] false ltac:(vm_compute; reflexivity) ltac:(vm_compute; reflexivity)) as (_ & H5 & _).
    rewrite (H5 (JInt 1) (JFloat 0x3FF0000000000000)); [discriminate|vm_compute; reflexivity..].
Defined.
End Samples.
