(* ===== verification/JsonSlice.v ===== *)
(** Parsing a slice again.

    Code that keeps the raw text of a value reads it later with a parser of its
    own. Here: what a scanner reads successfully in the middle of a document it
    reads again, with the same result, from the slice of exactly those bytes;
    and more fuel does not change what the parser answers. *)

From S2P Require Import Prelude Utf8 External Float64 JsonRead JsonSim TraceFields.

(** [s] reads the bytes [k, e) of the input of [p], at the same place. *)
Record within (k e : Z) (p s : Parser) : Prop := mkWithin {
  w_buf : s.(jbuf) = slice p.(jbuf) k e;
  w_pos : s.(jpos) = p.(jpos) - k;
  w_utf8 : s.(jutf8) = p.(jutf8);
  w_range : 0 <= k /\ k <= p.(jpos) /\ p.(jpos) <= e /\ e <= len p.(jbuf)
}.

Lemma lookup_slice (l : bytes) k e i : 0 <= k <= i -> i < e -> e <= len l -> slice l k e !! Z.to_nat (i - k) = l !! Z.to_nat i.
Proof.
  intros Hk Hi He. unfold slice. rewrite lookup_take_lt by lia. rewrite lookup_drop. f_equal. lia.
Qed.

Lemma get_slice (l : bytes) k e i : 0 <= k <= i -> i < e -> e <= len l -> get (slice l k e) (i - k) = get l i.
Proof.
  intros Hk Hi He. unfold get. rewrite len_slice by lia. rewrite lookup_slice by lia.
  replace ((0 <=? i - k) && (i - k <? e - k)) with true by (symmetry; apply andb_true_iff; lia).
  replace ((0 <=? i) && (i <? len l)) with true by (symmetry; apply andb_true_iff; lia). done.
Qed.

Lemma get_slice_end (l : bytes) k e : 0 <= k <= e -> e <= len l -> get (slice l k e) (e - k) = None.
Proof.
  intros Hk He. unfold get. rewrite len_slice by lia. replace (e - k <? e - k) with false by (symmetry; apply Z.ltb_ge; lia). by rewrite andb_false_r.
Qed.

Lemma slice_lookup (l : bytes) a b i : 0 <= a <= b -> slice l a b !! i = if decide (i < Z.to_nat (b - a))%nat then l !! (Z.to_nat a + i)%nat else None.
Proof.
  intros Ha. unfold slice. case_decide as Hi; [rewrite lookup_take_lt by done; apply lookup_drop|apply lookup_take_ge; lia].
Qed.

Lemma slice_slice (l : bytes) k e a b : 0 <= k <= a -> a <= b -> b <= e -> e <= len l -> slice (slice l k e) (a - k) (b - k) = slice l a b.
Proof.
  intros Hk Ha Hb He. apply list_eq. intros i. rewrite !slice_lookup by lia. case_decide as H1; case_decide as H2; [|lia|lia|done]. rewrite decide_True by lia. f_equal. lia.
Qed.

Lemma rest_slice p s k e : within k e p s -> rest_of s = take (Z.to_nat (e - p.(jpos))) (rest_of p).
Proof.
  intros [Hb Hp _ Hr]. unfold rest_of. rewrite Hb, Hp. apply list_eq. intros i. rewrite lookup_drop, slice_lookup by lia.
  destruct (decide (i < Z.to_nat (e - jpos p))%nat) as [Hi|Hi].
  - rewrite decide_True by lia. rewrite lookup_take_lt by lia. rewrite lookup_drop. f_equal. lia.
  - rewrite decide_False by lia. by rewrite lookup_take_ge by lia.
Qed.

Lemma prefix_len_take f l n : prefix_len f l <= Z.of_nat n -> prefix_len f (take n l) = prefix_len f l.
Proof.
  revert n. induction l as [|x l IH]; intros n Hn; [by rewrite take_nil|]. cbn [prefix_len] in *. destruct n as [|n]; cbn [take prefix_len].
  - destruct (f x); [|done]. pose proof (prefix_len_bound f l). lia.
  - destruct (f x); [|done]. rewrite IH; lia.
Qed.

Lemma within_adv k e p s n : within k e p s -> k <= p.(jpos) + n -> p.(jpos) + n <= e -> within k e (adv p n) (adv s n).
Proof. intros [Hb Hp Hu Hr] H1 H2. constructor; cbn; [done|lia|done|lia]. Qed.

Lemma within_pos k e p s : within k e p s -> k <= p.(jpos) <= e.
Proof. intros [_ _ _ Hr]. lia. Qed.

Lemma get_within k e p s : within k e p s -> p.(jpos) < e -> get s.(jbuf) s.(jpos) = get p.(jbuf) p.(jpos).
Proof. intros [-> -> _ Hr] Hl. apply get_slice; lia. Qed.

Lemma peek_within k e p s c : within k e p s -> p.(jpos) < e -> peek p = Ok c -> peek s = Ok c.
Proof. intros Hw Hl. unfold peek. by rewrite (get_within k e p s). Qed.

Lemma expect_within k e p s c q : within k e p s -> expect p c = Ok q -> q.(jpos) <= e -> exists r, expect s c = Ok r /\ within k e q r.
Proof.
  intros Hw E Hq. unfold expect in *. destruct (peek p) as [b| |] eqn:Ep; [|done..]. destruct (b =? c) eqn:Eb; [|done]. injection E as <-. cbn in Hq.
  rewrite (peek_within k e p s b Hw) by (done || lia). rewrite Eb. eexists. split; [done|]. pose proof (within_pos _ _ _ _ Hw). apply within_adv; [done|lia|lia].
Qed.

Lemma skip_while_within f k e p s : within k e p s -> (skip_while f p).(jpos) <= e -> within k e (skip_while f p) (skip_while f s).
Proof.
  intros Hw Hq. unfold skip_while in *. cbn in Hq. rewrite (rest_slice p s k e Hw). pose proof (within_pos _ _ _ _ Hw). pose proof (prefix_len_bound f (rest_of p)).
  rewrite prefix_len_take by lia. apply within_adv; [done|lia|lia].
Qed.

Lemma ws_within k e p s : within k e p s -> (ws p).(jpos) <= e -> within k e (ws p) (ws s).
Proof. apply skip_while_within. Qed.

Lemma starts_within k e p s w : within k e p s -> starts_at p.(jbuf) w p.(jpos) = true -> p.(jpos) + len w <= e -> starts_at s.(jbuf) w s.(jpos) = true.
Proof.
  intros [-> -> _ Hr] E Hl. unfold starts_at in *. apply bool_decide_eq_true in E. apply bool_decide_eq_true. rewrite <- E at 2. replace (jpos p - k + len w) with (jpos p + len w - k) by lia.
  pose proof (len_nonneg w). apply slice_slice; lia.
Qed.

Lemma literal_within k e p s w q : within k e p s -> literal p w = Ok q -> q.(jpos) <= e -> exists r, literal s w = Ok r /\ within k e q r.
Proof.
  intros Hw E Hq. unfold literal in *. destruct (starts_at _ _ _) eqn:Es; [|done]. injection E as <-. cbn in Hq. rewrite (starts_within k e p s w Hw Es Hq). eexists. split; [done|].
  pose proof (within_pos _ _ _ _ Hw). pose proof (len_nonneg w). apply within_adv; [done|lia|lia].
Qed.

(** Each scanner reads the slice as it read the document. *)
Lemma object_open_within k e p s b q : in_bounds p -> within k e p s -> object_open p = Ok (b, q) -> q.(jpos) <= e -> (if b then q.(jpos) < e else True) ->
  exists r, object_open s = Ok (b, r) /\ within k e q r.
Proof.
  intros Hp Hw E Hq Hb. unfold object_open in *. destruct (peek (ws p)) as [c| |] eqn:Ep; [|done..]. 
  assert (Hws : (ws p).(jpos) < e) by (destruct (c =? 125); [injection E as <- <-; cbn in Hq; cbn; lia|destruct (c =? 34); [|done]; by injection E as <- <-]).
  pose proof (ws_within k e p s Hw ltac:(lia)) as Hw'. rewrite (peek_within k e _ _ c Hw') by (done || lia). destruct (c =? 125); [|destruct (c =? 34); [|done]]; injection E as <- <-; eexists; (split; [done|]).
  - pose proof (within_pos _ _ _ _ Hw'). apply within_adv; [done|lia|cbn in *; lia].
  - done.
Qed.

Lemma colon_within k e p s q : in_bounds p -> within k e p s -> colon p = Ok q -> q.(jpos) <= e -> exists r, colon s = Ok r /\ within k e q r.
Proof.
  intros Hp Hw E Hq. unfold colon in *. pose proof (ws_moved p Hp) as Hm. into_bounds. destruct (expect (ws p) 58) as [p1| |] eqn:Ee; [|done..]. injection E as <-.
  pose proof (expect_moved _ _ _ ltac:(eassumption) Ee) as Hm1. into_bounds. pose proof (ws_moved p1 ltac:(done)) as (_ & _ & _ & P2). destruct Hm1 as (_ & _ & _ & P1).
  destruct (expect_within k e _ _ _ _ (ws_within k e p s Hw ltac:(lia)) Ee ltac:(lia)) as (r & -> & Hr). eexists. split; [done|]. by apply ws_within.
Qed.

Lemma object_next_within k e p s b q : in_bounds p -> within k e p s -> object_next p = Ok (b, q) -> q.(jpos) <= e -> (if b then q.(jpos) < e else True) ->
  exists r, object_next s = Ok (b, r) /\ within k e q r.
Proof.
  intros Hp Hw E Hq Hb. unfold object_next in *. pose proof (ws_moved p Hp) as Hm. into_bounds. destruct (peek (ws p)) as [c| |] eqn:Ep; [|done..]. pose proof (peek_moved _ _ ltac:(eassumption) Ep) as Hm1. into_bounds.
  pose proof (ws_moved (adv (ws p) 1) ltac:(done)) as (_ & _ & _ & P2). pose proof Hm1 as (_ & _ & _ & P1). destruct (c =? 44) eqn:E44.
  - destruct (peek (ws (adv (ws p) 1))) as [d| |] eqn:Ed; [|done..]. destruct (d =? 34) eqn:E34; [|done]. injection E as <- <-.
    pose proof (ws_within k e p s Hw ltac:(lia)) as Hw1. rewrite (peek_within k e _ _ c Hw1) by (done || lia). pose proof (within_pos _ _ _ _ Hw1).
    pose proof (within_adv k e _ _ 1 Hw1 ltac:(lia) ltac:(cbn in *; lia)) as Hw2. pose proof (ws_within k e _ _ Hw2 ltac:(lia)) as Hw3.
    rewrite E44, (peek_within k e _ _ d Hw3) by (done || lia). rewrite E34. by eexists.
  - destruct (c =? 125) eqn:E125; [|done]. injection E as <- <-. pose proof (ws_within k e p s Hw ltac:(lia)) as Hw1. rewrite (peek_within k e _ _ c Hw1) by (done || lia). rewrite E44, E125.
    eexists. split; [done|]. pose proof (within_pos _ _ _ _ Hw1). apply within_adv; [done|lia|cbn in *; lia].
Qed.

Lemma hex4_within k e p s v q : within k e p s -> hex4 p = Ok (v, q) -> q.(jpos) <= e -> exists r, hex4 s = Ok (v, r) /\ within k e q r.
Proof.
  intros Hw E Hq. unfold hex4 in *. destruct (get_range _ _ _) as [ds|] eqn:Eg; [|done]. cbn [ok_or] in E. destruct (foldM _ _ _) as [x| |] eqn:Ef; [|done..]. injection E as <- <-. cbn in Hq.
  apply get_range_Some in Eg as (-> & Hr1 & Hr2). pose proof (within_pos _ _ _ _ Hw) as Hwp. destruct Hw as [Hb Hp Hu Hr]. rewrite (proj2 (get_range_Some s.(jbuf) s.(jpos) (s.(jpos) + 4) (slice p.(jbuf) p.(jpos) (p.(jpos) + 4)))).
  - cbn [ok_or]. rewrite Ef. eexists. split; [done|]. apply within_adv; [by constructor|lia|lia].
  - rewrite Hb, Hp. split; [replace (jpos p - k + 4) with (jpos p + 4 - k) by lia; symmetry; apply slice_slice; lia|]. rewrite len_slice by lia. lia.
Qed.

Lemma hex4_adv p v q : hex4 p = Ok (v, q) -> q = adv p 4.
Proof. unfold hex4. destruct (ok_or _ _); [|done..]. destruct (foldM _ _ _); [|done..]. by intros [= _ <-]. Qed.

Lemma unicode_escape_within k e p s v q : in_bounds p -> within k e p s -> unicode_escape p = Ok (v, q) -> q.(jpos) <= e -> exists r, unicode_escape s = Ok (v, r) /\ within k e q r.
Proof.
  intros Hp Hw E Hq. pose proof (unicode_escape_moved _ _ _ Hp E) as (_ & _ & _ & Pq). unfold unicode_escape in *. destruct (hex4 p) as [[hi p1]| |] eqn:E1; [|done..].
  pose proof (hex4_moved _ _ _ Hp E1) as Hm1. into_bounds. pose proof (hex4_adv _ _ _ E1) as E1a. assert (Hp1 : p1.(jpos) = p.(jpos) + 4) by by rewrite E1a.
  destruct (hex4_within k e p s hi p1 Hw E1 ltac:(lia)) as (r1 & -> & Hw1). destruct (_ && _); [done|]. destruct (negb (_ && _)).
  - destruct (ok_or _ _) as [c| |]; [|done..]. injection E as <- <-. by eexists.
  - destruct (starts_at (jbuf p1) [92; 117] (jpos p1)) eqn:Es; cbn [negb] in E; [|done]. destruct (hex4 (adv p1 2)) as [[lo p2]| |] eqn:E2; [|done..]. pose proof (hex4_adv _ _ _ E2) as E2a.
    destruct (negb _) eqn:El in E; [done|]. destruct (ok_or _ _) as [c| |] eqn:Ec in E; [|done..]. injection E as <- <-. assert (Hp2 : p2.(jpos) = p1.(jpos) + 2 + 4) by by rewrite E2a.
    pose proof (within_pos _ _ _ _ Hw1). rewrite (starts_within k e p1 r1 [92; 117] Hw1 Es) by (change (len [92; 117]) with 2; lia). cbn [negb].
    destruct (hex4_within k e _ (adv r1 2) lo p2 (within_adv k e p1 r1 2 Hw1 ltac:(lia) ltac:(lia)) E2 Hq) as (r2 & -> & Hw2). rewrite El, Ec. by eexists.
Qed.

Section Strings.
Context `{SimdUtf8} `{Memchr2}.

Lemma string_escape_within k e o p s o' q : in_bounds p -> within k e p s -> string_escape o p = Ok (o', q) -> q.(jpos) < e -> exists r, string_escape o s = Ok (o', r) /\ within k e q r.
Proof.
  intros Hp Hw E Hq. pose proof (string_escape_moved _ _ _ _ Hp E) as (_ & _ & _ & Ppos). unfold string_escape in *. destruct (peek p) as [c| |] eqn:Ec; [|done..].
  pose proof (peek_moved _ _ Hp Ec) as Hm. into_bounds. rewrite (peek_within k e p s c Hw) by (done || lia).
  repeat match type of E with (if ?c then _ else _) = _ => destruct c; [injection E as <- <-; by eexists|] end.
  destruct (c =? 117); [|done]. destruct (unicode_escape (adv p 1)) as [[ch p1]| |] eqn:Eu; [|done..]. injection E as <- <-. cbn in Hq. pose proof (within_pos _ _ _ _ Hw) as Hwp.
  pose proof (unicode_escape_moved _ _ _ ltac:(eassumption) Eu) as (_ & _ & _ & Pu). cbn in Pu.
  destruct (unicode_escape_within k e (adv p 1) (adv s 1) ch p1 ltac:(done) (within_adv k e p s 1 Hw ltac:(lia) ltac:(lia)) Eu ltac:(lia)) as (r & -> & Hw1). eexists. split; [done|].
  pose proof (within_pos _ _ _ _ Hw1). apply within_adv; [done|lia|lia].
Qed.

Lemma memchr2_take a b l n i : memchr2 a b l = Some i -> i < Z.of_nat n -> memchr2 a b (take n l) = Some i.
Proof.
  intros E Hi. destruct (decide (Exists (fun y => y = a \/ y = b) l)) as [He|He].
  - assert (Hs : exists pre x suf, l = pre ++ x :: suf /\ Forall (fun y => y <> a /\ y <> b) pre /\ (x = a \/ x = b)).
    { clear -He. induction l as [|y l IH]; [by apply Exists_nil in He|]. destruct (decide (y = a \/ y = b)) as [Hy|Hy]; [exists [], y, l; split; [done|]; split; [constructor|done]|].
      apply Exists_cons in He as [?|He]; [done|]. destruct (IH He) as (pre & x & suf & -> & Hp & Hx). exists (y :: pre), x, suf. split; [done|]. split; [|done]. constructor; [|done]. split; intros ->; apply Hy; auto. }
    destruct Hs as (pre & x & suf & -> & Hp & Hx). rewrite memchr2_first in E by done. injection E as <-. unfold len in Hi. rewrite take_app_ge by lia.
    destruct (n - length pre)%nat as [|m] eqn:En; [lia|]. cbn [take]. by apply memchr2_first.
  - rewrite memchr2_none in E; [done|]. apply Forall_Exists_neg in He. eapply Forall_impl; [|exact He]. simpl. intros y Hy. split; intros ->; apply Hy; auto.
Qed.

Lemma string_chunk_within k e p s c n : in_bounds p -> within k e p s -> string_chunk p = Ok (c, n) -> p.(jpos) + n < e -> string_chunk s = Ok (c, n) /\ within k e (adv p n) (adv s n).
Proof.
  intros Hp Hw E Hq. pose proof (string_chunk_moved _ _ _ Hp E) as (_ & _ & Hn). unfold string_chunk in *. rewrite (rest_slice p s k e Hw), (w_utf8 _ _ _ _ Hw).
  destruct (memchr2 34 92 (rest_of p)) as [i|] eqn:Em; [|done]. cbn [ok_or] in E. destruct (check_chunk _ _) eqn:Ec; [|done..]. injection E as <- <-. pose proof (within_pos _ _ _ _ Hw).
  rewrite (memchr2_take _ _ _ _ _ Em) by lia. cbn [ok_or]. rewrite take_take, Nat.min_l by lia. rewrite Ec. split; [done|]. apply within_adv; [done|lia|lia].
Qed.

Lemma string_loop_within k e fuel o p s c q : in_bounds p -> p.(jpos) < len p.(jbuf) -> within k e p s -> string_loop fuel o p = Ok (c, q) -> q.(jpos) <= e ->
  exists r, string_loop fuel o s = Ok (c, r) /\ within k e q r.
Proof.
  revert o p s. induction fuel as [|fuel IH]; intros o p s Hp Hl Hw E Hq; cbn [string_loop] in *; [done|].
  destruct (string_escape o (adv p 1)) as [[o1 p1]| |] eqn:E1; [|done..]. destruct (string_chunk (adv p1 1)) as [[ch n]| |] eqn:E2; [|done..].
  destruct (string_turn_moved _ _ _ _ _ _ Hp Hl E1 E2) as (Hm & Hl2 & Hb2). pose proof (adv1_moved p Hp Hl). into_bounds. pose proof (string_escape_moved _ _ _ _ ltac:(eassumption) E1) as (Hm1 & _). into_bounds.
  pose proof (string_chunk_moved _ _ _ ltac:(eassumption) E2) as (_ & _ & Hn). set (p2 := adv (adv p1 1) n) in *. assert (Hl3 : jpos p2 < len (jbuf p2)) by (destruct Hm as (-> & _); done).
  assert (Hp2 : p2.(jpos) < e) by (case_bool_decide; [injection E as <- <-; cbn in Hq; cbn; lia|apply string_loop_moved in E as (_ & _ & _ & P); [lia|done|done]]).
  assert (Hp2e : p2.(jpos) = p1.(jpos) + 1 + n) by done. pose proof (within_pos _ _ _ _ Hw) as Hwp. destruct Hm1 as (_ & _ & _ & P1). cbn in P1.
  destruct (string_escape_within k e o (adv p 1) (adv s 1) o1 p1 ltac:(done) (within_adv k e p s 1 Hw ltac:(lia) ltac:(lia)) E1 ltac:(lia)) as (r1 & -> & Hw1). pose proof (within_pos _ _ _ _ Hw1).
  destruct (string_chunk_within k e (adv p1 1) (adv r1 1) ch n ltac:(done) (within_adv k e p1 r1 1 Hw1 ltac:(lia) ltac:(lia)) E2 ltac:(cbn; lia)) as [-> Hw2]. fold p2 in Hw2.
  rewrite (get_within k e _ _ Hw2 Hp2). case_bool_decide; [|by apply (IH _ p2)]. injection E as <- <-. eexists. split; [done|]. apply within_adv; [done|lia|cbn in Hq; lia].
Qed.

Lemma string_loop_more fuel fuel' o p : string_loop fuel o p <> Fuel -> (fuel <= fuel')%nat -> string_loop fuel' o p = string_loop fuel o p.
Proof.
  revert fuel' o p. induction fuel as [|fuel IH]; intros fuel' o p Hf Hle; [done|]. destruct fuel' as [|fuel']; [lia|]. cbn [string_loop] in *.
  destruct (string_escape o (adv p 1)) as [[o1 p1]| |]; [|done..]. destruct (string_chunk (adv p1 1)) as [[ch n]| |]; [|done..]. case_bool_decide; [done|]. apply IH; [done|lia].
Qed.

Lemma within_in_bounds k e p s : within k e p s -> in_bounds s.
Proof. intros [Hb Hp _ Hr]. unfold in_bounds. rewrite Hb, Hp, len_slice by lia. lia. Qed.

Lemma string_within k e p s c q : in_bounds p -> within k e p s -> JsonRead.string p = Ok (c, q) -> q.(jpos) <= e -> exists r, JsonRead.string s = Ok (c, r) /\ within k e q r.
Proof.
  intros Hp Hw E Hq. pose proof (within_in_bounds _ _ _ _ Hw) as Hs. pose proof (string_not_fuel s Hs) as Hnf. unfold JsonRead.string in *. destruct (expect p 34) as [p1| |] eqn:E1; [|done..].
  pose proof (expect_moved _ _ _ Hp E1) as Hm. into_bounds. destruct (string_chunk p1) as [[ch n]| |] eqn:E2; [|done..]. pose proof (string_chunk_moved _ _ _ ltac:(eassumption) E2) as (Hm2 & Hl2 & Hn). into_bounds.
  assert (Hn2 : (adv p1 n).(jpos) < e) by (case_bool_decide; [injection E as <- <-; cbn in Hq; cbn; lia|apply string_loop_moved in E as (_ & _ & _ & P); [lia|done|done]]). cbn in Hn2.
  pose proof (within_pos _ _ _ _ Hw) as Hwp. destruct Hm as (_ & _ & _ & P1). destruct (expect_within k e p s 34 p1 Hw E1 ltac:(lia)) as (r1 & Er1 & Hw1). rewrite Er1 in *. 
  destruct (string_chunk_within k e p1 r1 ch n ltac:(done) Hw1 E2 ltac:(lia)) as [Ec Hw2]. rewrite Ec in *. rewrite (get_within k e _ _ Hw2 Hn2) in *. case_bool_decide.
  - injection E as <- <-. eexists. split; [done|]. pose proof (within_pos _ _ _ _ Hw2). apply within_adv; [done|lia|cbn in *; lia].
  - destruct (string_loop_within k e _ ch (adv p1 n) (adv r1 n) c q ltac:(done) ltac:(done) Hw2 E Hq) as (r & Er & Hwr). exists r. split; [|done]. rewrite <- Er. symmetry. apply string_loop_more; [done|].
    apply le_n_S. rewrite (w_buf _ _ _ _ Hw2). unfold slice. rewrite length_take, length_drop. lia.
Qed.
End Strings.

(** * Numbers *)

(** A test of the next byte at the end of the slice: whatever follows in the
    document is not read, since the result ends here. *)
Lemma get_end k e p s : within k e p s -> p.(jpos) = e -> get s.(jbuf) s.(jpos) = None.
Proof. intros [-> -> _ Hr] <-. apply get_slice_end; lia. Qed.

Lemma digits_within k e p s n q : within k e p s -> digits p = (n, q) -> q.(jpos) <= e -> exists r, digits s = (n, r) /\ within k e q r.
Proof.
  intros Hw E Hq. unfold digits in *. injection E as <- <-. cbn in Hq. pose proof (within_pos _ _ _ _ Hw). pose proof (prefix_len_bound is_digit (rest_of p)).
  rewrite (rest_slice p s k e Hw), prefix_len_take by lia. eexists. split; [done|]. apply within_adv; [done|lia|lia].
Qed.

Lemma int_part_within k e p s q : in_bounds p -> within k e p s -> int_part p = Ok q -> q.(jpos) <= e -> exists r, int_part s = Ok r /\ within k e q r.
Proof.
  intros Hp Hw E Hq. pose proof (int_part_moved _ _ Hp E) as (_ & _ & _ & Pq). unfold int_part in *. destruct (peek p) as [b| |] eqn:Eb; [|done..]. pose proof (within_pos _ _ _ _ Hw).
  rewrite (peek_within k e p s b Hw) by (done || lia). destruct (b =? 48); [injection E as <-; eexists; split; [done|]; apply within_adv; [done|lia|cbn in Hq; lia]|].
  destruct (_ && _); [|done]. injection E as <-. destruct (digits_within k e p s _ _ Hw eq_refl Hq) as (r & Ed & Hr). rewrite Ed. by eexists.
Qed.

Lemma frac_part_within k e p s b q : in_bounds p -> within k e p s -> frac_part p = Ok (b, q) -> q.(jpos) <= e -> exists r, frac_part s = Ok (b, r) /\ within k e q r.
Proof.
  intros Hp Hw E Hq. pose proof (within_pos _ _ _ _ Hw) as Hwp. unfold frac_part in *. destruct (Z_lt_dec p.(jpos) e) as [Hl|Hl].
  - rewrite (get_within k e p s Hw Hl). case_bool_decide; [|injection E as <- <-; by eexists]. destruct (digits (adv p 1)) as [n p1] eqn:Ed. destruct (n =? 0) eqn:En; [done|]. injection E as <- <-.
    destruct (digits_within k e (adv p 1) (adv s 1) n p1 (within_adv k e p s 1 Hw ltac:(lia) ltac:(lia)) Ed Hq) as (r & -> & Hr). rewrite En. by eexists.
  - rewrite (get_end k e p s Hw) by lia. rewrite bool_decide_eq_false_2 by done. case_bool_decide as Hg; [|injection E as <- <-; by eexists].
    exfalso. destruct (digits (adv p 1)) as [n p1] eqn:Ed. destruct (n =? 0); [done|]. injection E as <- <-. unfold digits in Ed. injection Ed as <- <-. cbn in Hq. pose proof (prefix_len_bound is_digit (rest_of (adv p 1))). lia.
Qed.

Lemma exp_part_within k e p s b q : in_bounds p -> within k e p s -> exp_part p = Ok (b, q) -> q.(jpos) <= e -> exists r, exp_part s = Ok (b, r) /\ within k e q r.
Proof.
  intros Hp Hw E Hq. pose proof (within_pos _ _ _ _ Hw) as Hwp. unfold exp_part in *. destruct (get (jbuf p) (jpos p)) as [c|] eqn:Eg.
  2: { injection E as <- <-. assert (p.(jpos) = e) by (destruct Hw as [_ _ _ Hr]; apply get_None_bound in Eg; lia). rewrite (get_end k e p s Hw) by done. by eexists. }
  destruct (Z_lt_dec p.(jpos) e) as [Hl|Hl].
  - rewrite (get_within k e p s Hw Hl), Eg. destruct (_ || _); [|injection E as <- <-; by eexists]. pose proof (within_adv k e p s 1 Hw ltac:(lia) ltac:(lia)) as Hw1.
    set (p1 := match get (jbuf (adv p 1)) (jpos (adv p 1)) with Some d => if (d =? 43) || (d =? 45) then adv (adv p 1) 1 else adv p 1 | None => adv p 1 end) in *. destruct (digits p1) as [n p2] eqn:Ed. destruct (n =? 0) eqn:En; [done|]. injection E as <- <-.
    assert (Hp2 : p2.(jpos) = p1.(jpos) + n /\ 0 <= n) by (unfold digits in Ed; injection Ed as <- <-; cbn; split; [done|apply prefix_len_bound]). apply Z.eqb_neq in En as En'.
    assert (exists r1, match get (jbuf (adv s 1)) (jpos (adv s 1)) with Some d => if (d =? 43) || (d =? 45) then adv (adv s 1) 1 else adv s 1 | None => adv s 1 end = r1 /\ within k e p1 r1) as (r1 & -> & Hr1).
    { destruct (Z_lt_dec (adv p 1).(jpos) e) as [Hl1|Hl1].
      - rewrite (get_within k e _ _ Hw1 Hl1). eexists. split; [reflexivity|]. unfold p1. destruct (get (jbuf (adv p 1)) (jpos (adv p 1))) as [d|]; [|done]. destruct (_ || _); [|done]. apply within_adv; [done|cbn; lia|lia].
      - exfalso. assert ((adv p 1).(jpos) <= p1.(jpos)) by (unfold p1; destruct (get (jbuf (adv p 1)) (jpos (adv p 1))) as [d|]; [destruct ((d =? 43) || (d =? 45)); cbn; lia|lia]). lia. }
    destruct (digits_within k e p1 r1 n p2 Hr1 Ed Hq) as (r & -> & Hr). rewrite En. by eexists.
  - rewrite (get_end k e p s Hw) by lia. destruct (_ || _) in E; [|injection E as <- <-; by eexists]. exfalso.
    set (p1 := match get (jbuf (adv p 1)) (jpos (adv p 1)) with Some d => if (d =? 43) || (d =? 45) then adv (adv p 1) 1 else adv p 1 | None => adv p 1 end) in *. destruct (digits p1) as [n p2] eqn:Ed. destruct (n =? 0) eqn:En; [done|]. injection E as <- <-.
    assert (Hp2 : p2.(jpos) = p1.(jpos) + n /\ 0 <= n) by (unfold digits in Ed; injection Ed as <- <-; cbn; split; [done|apply prefix_len_bound]).
    assert ((adv p 1).(jpos) <= p1.(jpos)) by (unfold p1; destruct (get (jbuf (adv p 1)) (jpos (adv p 1))) as [d|]; [destruct ((d =? 43) || (d =? 45)); cbn; lia|lia]). cbn in *. lia.
Qed.

Lemma number_within k e p s n q : in_bounds p -> within k e p s -> number p = Ok (n, q) -> q.(jpos) <= e -> exists r, number s = Ok (n, r) /\ within k e q r.
Proof.
  intros Hp Hw E Hq. pose proof (number_moved _ _ _ Hp E) as (_ & _ & _ & Pq). pose proof (within_pos _ _ _ _ Hw) as Hwp. unfold number in *. cbv zeta in *. rewrite (get_within k e p s Hw) by lia.
  set (neg := bool_decide (get (jbuf p) (jpos p) = Some 45)) in *. 
  assert (Hp0 : in_bounds (if neg then adv p 1 else p)) by (unfold neg; case_bool_decide as Hg; [|done]; apply get_Some_bound in Hg; unfold in_bounds in *; cbn; lia).
  set (p0 := if neg then adv p 1 else p) in *.
  destruct (int_part p0) as [p1| |] eqn:E1; [|done..]. pose proof (int_part_moved _ _ Hp0 E1) as Hm1. into_bounds. destruct (frac_part p1) as [[f1 p2]| |] eqn:E2; [|done..].
  pose proof (frac_part_moved _ _ _ ltac:(eassumption) E2) as Hm2. into_bounds. destruct (exp_part p2) as [[f2 p3]| |] eqn:E3; [|done..]. pose proof (exp_part_moved _ _ _ ltac:(eassumption) E3) as Hm3. into_bounds.
  assert (q = p3) as ->. { clear -E. destruct (f1 || f2); [destruct (negb _ || _); [done|by injection E]|]. destruct (magnitude _); [|done..]. destruct neg; repeat (destruct (_ <=? _) in E || destruct (_ =? _) in E); try done; by injection E. }
  destruct Hm1 as (B1 & _ & _ & P1). destruct Hm2 as (B2 & _ & _ & P2). destruct Hm3 as (B3 & _ & _ & P3).
  assert (Hpp0 : p.(jpos) <= p0.(jpos) <= p.(jpos) + 1) by (unfold p0; destruct neg; cbn; lia). assert (Hb0 : p0.(jbuf) = p.(jbuf)) by (unfold p0; by destruct neg).
  assert (Hw0 : within k e p0 (if neg then adv s 1 else s)) by (unfold p0 in *; destruct neg; [apply within_adv; [done|lia|cbn in P1; lia]|done]).
  destruct (int_part_within k e p0 _ p1 Hp0 Hw0 E1 ltac:(lia)) as (r1 & -> & Hw1). destruct (frac_part_within k e p1 r1 f1 p2 ltac:(done) Hw1 E2 ltac:(lia)) as (r2 & -> & Hw2).
  destruct (exp_part_within k e p2 r2 f2 p3 ltac:(done) Hw2 E3 ltac:(lia)) as (r3 & -> & Hw3).
  assert (Hs1 : slice (jbuf r3) (jpos s) (jpos r3) = slice (jbuf p3) (jpos p) (jpos p3)).
  { destruct Hw3 as [-> -> _ Hr]. destruct Hw as [_ -> _ Hr']. apply slice_slice; lia. }
  assert (Hs2 : slice (jbuf r3) (if neg then jpos s + 1 else jpos s) (jpos r1) = slice (jbuf p3) (if neg then jpos p + 1 else jpos p) (jpos p1)).
  { destruct Hw3 as [-> _ _ Hr]. destruct Hw as [_ -> _ Hr']. destruct Hw1 as [_ -> _ Hr1]. replace (if neg then jpos p - k + 1 else jpos p - k) with ((if neg then jpos p + 1 else jpos p) - k) by (destruct neg; lia).
    apply slice_slice; unfold p0 in *; destruct neg; cbn in *; lia. }
  rewrite Hs1, Hs2. destruct (f1 || f2).
  - destruct (negb _ || _); [done|]. injection E as <-. by eexists.
  - destruct (magnitude _) as [m| |]; [|done..]. destruct neg; repeat (destruct (_ <=? _) || destruct (_ =? _)); try done; injection E as <-; by eexists.
Qed.

(** * Fuel *)

Section Fuel.
Context `{SimdUtf8} `{Memchr2}.
Context {B V C : Type} `{Builder B V} `{Context C}.

Definition value_more (fuel : nat) : Prop := forall more p (b : B) (st : Stacks V) (ctx : C), value_in fuel p b st ctx <> Fuel -> value_in (fuel + more) p b st ctx = value_in fuel p b st ctx.
Definition object_more (fuel : nat) : Prop := forall more p (b : B) (st : Stacks V) (ctx : C) seen, object_loop fuel p b st ctx seen <> Fuel -> object_loop (fuel + more) p b st ctx seen = object_loop fuel p b st ctx seen.
Definition array_more (fuel : nat) : Prop := forall more p (b : B) (st : Stacks V) (ctx : C), array_loop fuel p b st ctx <> Fuel -> array_loop (fuel + more) p b st ctx = array_loop fuel p b st ctx.

Lemma parser_more fuel : value_more fuel /\ object_more fuel /\ array_more fuel.
Proof.
  induction fuel as [|fuel (HV & HO & HA)]; [split_and!; intros more p; intros; done|]. split_and!.
  - intros more p b st ctx Hf. simpl in Hf |- *. destruct (peek p) as [c| |]; [|done..]. destruct (c =? 123).
    + destruct (enter p) as [p1| |]; [|done..]. destruct (object_open _) as [[m p2]| |]; [|done..]. destruct m; [|done]. rewrite HO; [done|]. intros E. by rewrite E in Hf.
    + destruct (c =? 91); [|done]. destruct (enter p) as [p1| |]; [|done..]. destruct (peek _) as [d| |]; [|done..]. destruct (d =? 93); [done|]. rewrite HA; [done|]. intros E. by rewrite E in Hf.
  - intros more p b st ctx seen Hf. simpl in Hf |- *. destruct (JsonRead.string p) as [[key p1]| |]; [|done..]. destruct (negb _); [done|]. destruct (b_key b key) as [[k b1]| |]; [|done..]. destruct (colon p1) as [p2| |]; [|done..].
    rewrite HV by (intros E; by rewrite E in Hf). destruct (value_in fuel p2 _ _ _) as [[[[v p3] b2] st1]| |]; [|done..]. destruct (object_next p3) as [[m p4]| |]; [|done..]. destruct m; [|done]. by apply HO.
  - intros more p b st ctx Hf. simpl in Hf |- *. rewrite HV by (intros E; by rewrite E in Hf). destruct (value_in fuel _ _ _ _) as [[[[v p3] b2] st1]| |]; [|done..]. destruct (peek _) as [c| |]; [|done..].
    destruct (c =? 44); [by apply HA|done].
Qed.
End Fuel.

(** White space at the end of the input. *)
Lemma ws_end_id r : r.(jpos) = len r.(jbuf) -> ws r = r.
Proof.
  intros E. unfold ws, skip_while, rest_of. rewrite drop_ge by (unfold len in E; lia). cbn. destruct r. unfold adv, seek. cbn. by rewrite Z.add_0_r.
Qed.
