(* ===== verification/JsonRegion.v ===== *)
(** Values in place.

    The parser decides where a value ends; [region d p q] says declaratively
    that it reads a value at [p], below [d] open containers, and stops at [q],
    and [members] and [items] name the places of the members and items of a
    container. The relation is exactly what the skipping parser does, and it is
    stable under cutting a slice out of the input: so what is true of a value in
    the middle of a document is true of its raw text. *)

From S2P Require Import Prelude Utf8 External Float64 JsonRead JsonSim TraceFields JsonSlice.

(** The words a value can be. *)
Definition words : list bytes := [[116; 114; 117; 101]; [102; 97; 108; 115; 101]; [110; 117; 108; 108]].

Lemma literal_word p w q : in_bounds p -> In w words -> literal p w = Ok q -> moved 1 p q.
Proof.
  intros Hp Hw E. apply literal_moved in E; [|done]. apply (moved_weaken (len w)); [|done]. by destruct Hw as [<-|[<-|[<-|[]]]].
Qed.

(** The movements of the scanners among the hypotheses. *)
Ltac note p q lem := lazymatch goal with _ : moved _ p q |- _ => fail | _ => pose proof lem end.
Ltac scan := into_bounds; repeat (match goal with
  | E : expect ?p ?c = Ok ?q, Hp : in_bounds ?p |- _ => note p q (expect_moved p c q Hp E)
  | E : object_open ?p = Ok (?b, ?q), Hp : in_bounds ?p |- _ => note p q (object_open_moved p b q Hp E)
  | E : object_next ?p = Ok (?b, ?q), Hp : in_bounds ?p |- _ => note p q (object_next_moved p b q Hp E)
  | E : array_rest ?p = Ok (?b, ?q), Hp : in_bounds ?p |- _ => note p q (array_rest_moved p b q Hp E)
  | E : array_next ?p = Ok (?b, ?q), Hp : in_bounds ?p |- _ => note p q (array_next_moved p b q Hp E)
  | E : colon ?p = Ok ?q, Hp : in_bounds ?p |- _ => note p q (colon_moved p q Hp E)
  | E : JsonRead.string ?p = Ok (?s, ?q), Hp : in_bounds ?p |- _ => note p q (string_moved p s q Hp E)
  | E : number ?p = Ok (?n, ?q), Hp : in_bounds ?p |- _ => note p q (number_moved p n q Hp E)
  | E : literal ?p ?w = Ok ?q, Hw : In ?w words, Hp : in_bounds ?p |- _ => note p q (literal_word p w q Hp Hw E)
  | IH : in_bounds ?p -> moved 1 ?p ?q, Hp : in_bounds ?p |- _ => note p q (IH Hp)
  end; into_bounds).
Ltac far := first [eapply moved_weaken; [|eassumption]; lia
  | match goal with H1 : moved ?n ?p ?q, H2 : moved ?m ?q ?r |- moved _ ?p _ => pose proof (moved_trans n m p q r H1 H2); clear H1; far end].

(** Positions along the movements noted so far. *)
Ltac ahead := repeat match goal with Hm : moved _ _ _ |- _ => destruct Hm as (_ & _ & _ & ?) end; lia.

(** The flag of the parser along them. *)
Ltac plain := repeat match goal with Hm : moved _ _ _ |- _ => destruct Hm as (_ & _ & ? & _) end; congruence.

(** Where a member or an item starts and ends. *)
Abbreviation Place := ((Parser * Parser)%type).

Section Regions.
Context `{SimdUtf8} `{Memchr2}.

Inductive region : Z -> Parser -> Parser -> Prop :=
| R_empty d p p1 q : d + 1 <= MAX_DEPTH -> expect p 123 = Ok p1 -> object_open p1 = Ok (false, q) -> region d p q
| R_object d p p1 p2 ms q : d + 1 <= MAX_DEPTH -> expect p 123 = Ok p1 -> object_open p1 = Ok (true, p2) -> members (d + 1) p2 ms q -> region d p q
| R_nil d p p1 q : d + 1 <= MAX_DEPTH -> expect p 91 = Ok p1 -> array_rest p1 = Ok (false, q) -> region d p q
| R_array d p p1 p2 l q : d + 1 <= MAX_DEPTH -> expect p 91 = Ok p1 -> array_rest p1 = Ok (true, p2) -> items (d + 1) p2 l q -> region d p q
| R_string d p s q : peek p = Ok 34 -> JsonRead.string p = Ok (s, q) -> region d p q
| R_word d p w q : In w words -> literal p w = Ok q -> region d p q
| R_number d p c n q : peek p = Ok c -> (c =? 45) || is_digit c = true -> number p = Ok (n, q) -> region d p q
with members : Z -> Parser -> list (Cow * Place) -> Parser -> Prop :=
| M_last d p k p1 p2 p3 q : JsonRead.string p = Ok (k, p1) -> colon p1 = Ok p2 -> region d p2 p3 -> object_next p3 = Ok (false, q) -> members d p [(k, (p2, p3))] q
| M_more d p k p1 p2 p3 p4 ms q : JsonRead.string p = Ok (k, p1) -> colon p1 = Ok p2 -> region d p2 p3 -> object_next p3 = Ok (true, p4) -> members d p4 ms q ->
    members d p ((k, (p2, p3)) :: ms) q
with items : Z -> Parser -> list Place -> Parser -> Prop :=
| I_last d p p1 q : region d p p1 -> array_next p1 = Ok (false, q) -> items d p [(p, p1)] q
| I_more d p p1 p2 l q : region d p p1 -> array_next p1 = Ok (true, p2) -> items d p2 l q -> items d p ((p, p1) :: l) q.

Scheme region_rule := Minimality for region Sort Prop
  with members_rule := Minimality for members Sort Prop
  with items_rule := Minimality for items Sort Prop.
Combined Scheme grammar_rule from region_rule, members_rule, items_rule.

#[local] Hint Constructors region members items : core.

(** ** Movement *)

Lemma grammar_moved :
  (forall d p q, region d p q -> in_bounds p -> moved 1 p q) /\ (forall d p ms q, members d p ms q -> in_bounds p -> moved 1 p q) /\ (forall d p l q, items d p l q -> in_bounds p -> moved 1 p q).
Proof. apply grammar_rule; intros; scan; far. Qed.

Lemma region_moved d p q : region d p q -> in_bounds p -> moved 1 p q.
Proof. apply grammar_moved. Qed.
Lemma members_moved d p ms q : members d p ms q -> in_bounds p -> moved 1 p q.
Proof. apply grammar_moved. Qed.
Lemma items_moved d p l q : items d p l q -> in_bounds p -> moved 1 p q.
Proof. apply grammar_moved. Qed.

(** ** Changing the depth *)

Lemma within_all p x : in_bounds p -> within 0 (len p.(jbuf)) p (set_depth p x).
Proof.
  intros Hp. unfold in_bounds in Hp. constructor; cbn; [|lia|done|lia]. unfold slice. rewrite drop_0, take_ge; [done|]. unfold len. lia.
Qed.

Lemma within_same e p q r x : e = len q.(jbuf) -> within 0 e q r -> moved 0 (set_depth p x) r -> r = set_depth q x.
Proof.
  intros -> [Hb Hp Hu Hr] (_ & Hd & _ & _). destruct r, q. cbn in *. unfold slice in Hb. rewrite drop_0, take_ge in Hb by (unfold len; lia). subst. unfold set_depth. cbn. f_equal. lia.
Qed.

Lemma expect_at p c q x : expect p c = Ok q -> expect (set_depth p x) c = Ok (set_depth q x).
Proof. unfold expect. change (peek (set_depth p x)) with (peek p). destruct (peek p); [|done..]. destruct (_ =? _); [|done]. by intros [= <-]. Qed.
Lemma object_open_at p b q x : object_open p = Ok (b, q) -> object_open (set_depth p x) = Ok (b, set_depth q x).
Proof. unfold object_open. change (peek (ws (set_depth p x))) with (peek (ws p)). destruct (peek (ws p)); [|done..]. by repeat (destruct (_ =? _); [by intros [= <- <-]|]). Qed.
Lemma colon_at p q x : colon p = Ok q -> colon (set_depth p x) = Ok (set_depth q x).
Proof. unfold colon. destruct (expect (ws p) 58) as [r| |] eqn:E; [|done..]. intros [= <-]. apply (expect_at _ _ _ x) in E. change (ws (set_depth p x)) with (set_depth (ws p) x). by rewrite E. Qed.
Lemma object_next_at p b q x : object_next p = Ok (b, q) -> object_next (set_depth p x) = Ok (b, set_depth q x).
Proof.
  unfold object_next. change (peek (ws (set_depth p x))) with (peek (ws p)). change (peek (ws (adv (ws (set_depth p x)) 1))) with (peek (ws (adv (ws p) 1))). destruct (peek (ws p)) as [c| |]; [|done..].
  destruct (c =? 44); [destruct (peek _) as [y| |]; [|done..]; destruct (y =? 34); [|done]; by intros [= <- <-]|]. destruct (c =? 125); [|done]. by intros [= <- <-].
Qed.
Lemma array_rest_at p b q x : array_rest p = Ok (b, q) -> array_rest (set_depth p x) = Ok (b, set_depth q x).
Proof. unfold array_rest. change (peek (ws (set_depth p x))) with (peek (ws p)). destruct (peek (ws p)); [|done..]. destruct (_ =? _); by intros [= <- <-]. Qed.
Lemma array_next_at p b q x : array_next p = Ok (b, q) -> array_next (set_depth p x) = Ok (b, set_depth q x).
Proof. unfold array_next. change (peek (ws (set_depth p x))) with (peek (ws p)). destruct (peek (ws p)) as [c| |]; [|done..]. destruct (c =? 44); [by intros [= <- <-]|]. destruct (c =? 93); [|done]. by intros [= <- <-]. Qed.
Lemma literal_at p w q x : literal p w = Ok q -> literal (set_depth p x) w = Ok (set_depth q x).
Proof. unfold literal. change (jbuf (set_depth p x)) with (jbuf p). change (jpos (set_depth p x)) with (jpos p). destruct (starts_at _ _ _); [|done]. by intros [= <-]. Qed.

Lemma string_at p s q x : in_bounds p -> JsonRead.string p = Ok (s, q) -> JsonRead.string (set_depth p x) = Ok (s, set_depth q x).
Proof.
  intros Hp E. pose proof (string_moved _ _ _ Hp E) as (Hb & _ & _ & Hl). destruct (string_within _ _ _ _ _ _ Hp (within_all p x Hp) E ltac:(lia)) as (r & Er & Hr). rewrite Er.
  apply string_moved in Er; [|done]. do 2 f_equal. apply (within_same (len p.(jbuf)) p); [by rewrite Hb|done|]. by apply (moved_weaken 2).
Qed.
Lemma number_at p n q x : in_bounds p -> number p = Ok (n, q) -> number (set_depth p x) = Ok (n, set_depth q x).
Proof.
  intros Hp E. pose proof (number_moved _ _ _ Hp E) as (Hb & _ & _ & Hl). destruct (number_within _ _ _ _ _ _ Hp (within_all p x Hp) E ltac:(lia)) as (r & Er & Hr). rewrite Er.
  apply number_moved in Er; [|done]. do 2 f_equal. apply (within_same (len p.(jbuf)) p); [by rewrite Hb|done|]. by apply (moved_weaken 1).
Qed.

(** ** White space is skipped once *)

Lemma prefix_len_rest f l : prefix_len f (drop (Z.to_nat (prefix_len f l)) l) = 0.
Proof.
  induction l as [|c l IH]; [done|]. cbn [prefix_len]. destruct (f c) eqn:E; [|change (Z.to_nat 0) with O; rewrite drop_0; cbn [prefix_len]; by rewrite E]. pose proof (prefix_len_bound f l). replace (Z.to_nat (1 + prefix_len f l)) with (S (Z.to_nat (prefix_len f l))) by lia. done.
Qed.

Lemma ws_ws p : in_bounds p -> ws (ws p) = ws p.
Proof.
  intros [Hp _]. unfold ws at 1. unfold skip_while. assert (E : prefix_len is_ws (rest_of (ws p)) = 0).
  { unfold ws, skip_while, rest_of, adv, seek. cbn [jbuf jpos]. pose proof (prefix_len_bound is_ws (drop (Z.to_nat (jpos p)) (jbuf p))).
    rewrite Z2Nat.inj_add, <- drop_drop by lia. apply prefix_len_rest. }
  rewrite E. destruct (ws p). unfold adv, seek. cbn. by rewrite Z.add_0_r.
Qed.

Lemma colon_fixed p q : in_bounds p -> colon p = Ok q -> ws q = q.
Proof.
  unfold colon. intros Hp E. pose proof (ws_moved p Hp). into_bounds. destruct (expect (ws p) 58) as [r| |] eqn:Er; [|done..]. apply expect_moved in Er; [|done]. into_bounds. injection E as <-. by apply ws_ws.
Qed.
Lemma array_rest_fixed p q : in_bounds p -> array_rest p = Ok (true, q) -> ws q = q.
Proof. unfold array_rest. intros Hp E. destruct (peek (ws p)); [|done..]. destruct (_ =? _); [done|]. injection E as <-. by apply ws_ws. Qed.
Lemma array_next_fixed p q : in_bounds p -> array_next p = Ok (true, q) -> ws q = q.
Proof.
  unfold array_next. intros Hp E. pose proof (ws_moved p Hp). into_bounds. destruct (peek (ws p)) as [c| |] eqn:Ec; [|done..]. apply peek_moved in Ec; [|done]. into_bounds.
  destruct (c =? 44); [injection E as <-; by apply ws_ws|]. by destruct (c =? 93).
Qed.

(** ** What the skipping parser reads is a region *)

Definition reads_region (fuel : nat) : Prop := forall p st q b st' x, in_bounds p -> value_in fuel p skip_builder st ordinary = Ok (tt, q, b, st') -> region p.(jdepth) (set_depth p x) (set_depth q x).
Definition reads_members (fuel : nat) : Prop := forall p st seen q b st' x, in_bounds p -> object_loop fuel p skip_builder st ordinary seen = Ok (q, b, st') -> exists ms, members p.(jdepth) (set_depth p x) ms (set_depth q x).
Definition reads_items (fuel : nat) : Prop := forall p st q b st' x, in_bounds p -> array_loop fuel p skip_builder st ordinary = Ok (q, b, st') -> exists l, items p.(jdepth) (set_depth (ws p) x) l (set_depth q x).

Lemma expect_peek p c : peek p = Ok c -> expect p c = Ok (adv p 1).
Proof. unfold expect. intros ->. by rewrite Z.eqb_refl. Qed.

Lemma reads_grammar fuel : reads_region fuel /\ reads_members fuel /\ reads_items fuel.
Proof.
  induction fuel as [|fuel (HV & HO & HA)]; [split_and!; intros p; intros; done|]. split_and!.
  - intros p st q b st' x Hp E. simpl in E. destruct (peek p) as [c| |] eqn:Ec; [|done..]. destruct (Z.eqb_spec c 123) as [->|_].
    { destruct (enter p) as [p1| |] eqn:E1; [|done..]. unfold enter in E1. destruct (_ <? _) eqn:Em in E1; [done|]. injection E1 as <-. bools. cbn in Em. pose proof (peek_moved _ _ Hp Ec) as Hm. into_bounds.
      assert (Hb1 : in_bounds (adv (set_depth p (jdepth p + 1)) 1)) by done. destruct (object_open _) as [[more p2]| |] eqn:E2; [|done..]. pose proof (object_open_moved _ _ _ Hb1 E2) as Hm2. into_bounds.
      pose proof (expect_at _ _ _ x (expect_peek _ _ Ec)) as Ee. apply (object_open_at _ _ _ x) in E2. destruct more.
      - destruct (object_loop _ _ _ _ _ _) as [[[p3 b3] st3]| |] eqn:E3; [|done..]. injection E as <- _ _. apply (HO _ _ _ _ _ _ x) in E3 as [ms Hms]; [|done].
        destruct Hm2 as (_ & D2 & _). rewrite D2 in Hms. by apply (R_object _ _ (set_depth (adv p 1) x) (set_depth p2 x) ms).
      - injection E as <- _ _. by apply (R_empty _ _ (set_depth (adv p 1) x)). }
    destruct (Z.eqb_spec c 91) as [->|_].
    { destruct (enter p) as [p1| |] eqn:E1; [|done..]. unfold enter in E1. destruct (_ <? _) eqn:Em in E1; [done|]. injection E1 as <-. bools. cbn in Em. pose proof (peek_moved _ _ Hp Ec) as Hm. into_bounds.
      assert (Hb1 : in_bounds (adv (set_depth p (jdepth p + 1)) 1)) by done. pose proof (ws_moved _ Hb1) as Hm1. into_bounds. set (p1 := adv _ 1) in *.
      pose proof (expect_at _ _ _ x (expect_peek _ _ Ec)) as Ee. destruct (peek (ws p1)) as [c2| |] eqn:E2; [|done..]. destruct (c2 =? 93) eqn:E93.
      - injection E as <- _ _. apply (R_nil _ _ (set_depth (adv p 1) x)); [lia|done|]. unfold array_rest. change (peek (ws (set_depth (adv p 1) x))) with (peek (ws p1)). by rewrite E2, E93.
      - destruct (array_loop _ _ _ _ _) as [[[p3 b3] st3]| |] eqn:E3; [|done..]. injection E as <- _ _. apply (HA _ _ _ _ _ x) in E3 as [l Hl]; [|done].
        apply (R_array _ _ (set_depth (adv p 1) x) (set_depth (ws (ws p1)) x) l); [lia|done| |done]. unfold array_rest. change (peek (ws (set_depth (adv p 1) x))) with (peek (ws p1)). rewrite E2, E93. by rewrite ws_ws. }
    destruct (Z.eqb_spec c 34) as [->|_]; [destruct (JsonRead.string p) as [[s p1]| |] eqn:E1; [|done..]; injection E as <- _ _; apply (R_string _ _ s); [done|by apply string_at]|].
    destruct (c =? 116); [destruct (literal p _) as [p1| |] eqn:E1; [|done..]; injection E as <- _ _; eapply R_word; [|by apply literal_at]; cbn; auto|].
    destruct (c =? 102); [destruct (literal p _) as [p1| |] eqn:E1; [|done..]; injection E as <- _ _; eapply R_word; [|by apply literal_at]; cbn; auto|].
    destruct (c =? 110); [destruct (literal p _) as [p1| |] eqn:E1; [|done..]; injection E as <- _ _; eapply R_word; [|by apply literal_at]; cbn; auto|].
    destruct (_ || _) eqn:En; [|done]. destruct (number p) as [[n p1]| |] eqn:E1; [|done..]. injection E as <- _ _. apply (R_number _ _ c n); [done|done|by apply number_at].
  - intros p st seen q b st' x Hp E. simpl in E. destruct (JsonRead.string p) as [[key p1]| |] eqn:E1; [|done..]. rewrite Z.land_0_r in E. cbn [negb Z.eqb] in E.
    destruct (colon p1) as [p2| |] eqn:E2; [|done..]. pose proof (string_moved _ _ _ Hp E1) as Hm1. into_bounds. pose proof (colon_moved _ _ ltac:(eassumption) E2) as Hm2. into_bounds.
    destruct (value_in fuel p2 _ _ _) as [[[[[] p3] b3] st3]| |] eqn:E3; [|done..]. pose proof (value_in_post _ _ _ _ _ _ _ _ _ ltac:(eassumption) E3) as [Hm3 _]. into_bounds. apply (HV _ _ _ _ _ x) in E3; [|done].
    destruct (object_next p3) as [[more p4]| |] eqn:E4; [|done..]. pose proof (object_next_moved _ _ _ ltac:(eassumption) E4) as Hm4. into_bounds.
    assert (Hd : jdepth p2 = jdepth p /\ jdepth p4 = jdepth p) by (destruct Hm1 as (_ & ? & _), Hm2 as (_ & ? & _), Hm3 as (_ & ? & _), Hm4 as (_ & ? & _); split; congruence). destruct Hd as [Hd2 Hd4]. rewrite Hd2 in E3.
    apply (string_at _ _ _ x) in E1; [|done]. apply (colon_at _ _ x) in E2. apply (object_next_at _ _ _ x) in E4. destruct more.
    + destruct b3. apply (HO _ _ _ _ _ _ x) in E as [ms Hms]; [|done]. rewrite Hd4 in Hms. eauto.
    + injection E as <- _ _. eauto.
  - intros p st q b st' x Hp E. simpl in E. pose proof (ws_moved p Hp) as Hm0. into_bounds. destruct (value_in fuel (ws p) _ _ _) as [[[[[] p3] b3] st3]| |] eqn:E3; [|done..].
    pose proof (value_in_post _ _ _ _ _ _ _ _ _ ltac:(eassumption) E3) as [Hm3 _]. into_bounds. apply (HV _ _ _ _ _ x) in E3; [|done]. pose proof (ws_moved p3 ltac:(done)) as Hm4. into_bounds.
    destruct (peek (ws p3)) as [c| |] eqn:Ec; [|done..]. pose proof (peek_moved _ _ ltac:(eassumption) Ec) as Hm5. into_bounds. change (jdepth (ws p)) with (jdepth p) in E3.
    assert (Ha : array_next (set_depth p3 x) = Ok (c =? 44, set_depth (if c =? 44 then ws (adv (ws p3) 1) else adv (ws p3) 1) x)).
    { unfold array_next. change (peek (ws (set_depth p3 x))) with (peek (ws p3)). rewrite Ec. destruct (c =? 44); [done|]. by destruct (c =? 93). }
    destruct (c =? 44).
    + destruct b3. apply (HA _ _ _ _ _ x) in E as [l Hl]; [|done]. destruct Hm3 as (_ & Hd3 & _). change (jdepth (adv (ws p3) 1)) with (jdepth p3) in Hl. rewrite Hd3 in Hl. eauto.
    + destruct (c =? 93); [|done]. injection E as <- _ _. eauto.
Qed.

(** ** A region is skipped *)

Definition skipped (d : Z) (p q : Parser) : Prop := exists fuel, forall st, value_in fuel (set_depth p d) skip_builder st ordinary = Ok (tt, set_depth q d, skip_builder, st).

Lemma value_more_ok {B V C} `{Builder B V} `{Context C} fuel more p (b : B) (st : Stacks V) (ctx : C) r : value_in fuel p b st ctx = Ok r -> value_in (fuel + more) p b st ctx = Ok r.
Proof. intros E. rewrite (proj1 (parser_more fuel)); [done|by rewrite E]. Qed.
Lemma object_more_ok {B V C} `{Builder B V} `{Context C} fuel more p (b : B) (st : Stacks V) (ctx : C) seen r : object_loop fuel p b st ctx seen = Ok r -> object_loop (fuel + more) p b st ctx seen = Ok r.
Proof. intros E. rewrite (proj1 (proj2 (parser_more fuel))); [done|by rewrite E]. Qed.
Lemma array_more_ok {B V C} `{Builder B V} `{Context C} fuel more p (b : B) (st : Stacks V) (ctx : C) r : array_loop fuel p b st ctx = Ok r -> array_loop (fuel + more) p b st ctx = Ok r.
Proof. intros E. rewrite (proj2 (proj2 (parser_more fuel))); [done|by rewrite E]. Qed.

Lemma expect_inv p c q : expect p c = Ok q -> peek p = Ok c /\ q = adv p 1.
Proof. unfold expect. destruct (peek p) as [b| |]; [|done..]. destruct (Z.eqb_spec b c) as [->|_]; [|done]. by intros [= <-]. Qed.

Lemma enter_at p d : d + 1 <= MAX_DEPTH -> enter (set_depth p d) = Ok (set_depth p (d + 1)).
Proof. intros Hd. unfold enter. cbn. replace (MAX_DEPTH <? d + 1) with false by (symmetry; apply Z.ltb_ge; lia). done. Qed.

Lemma set_depth_back p d : set_depth (set_depth p (d + 1)) (jdepth (set_depth p (d + 1)) - 1) = set_depth p d.
Proof. cbn. unfold set_depth. cbn. f_equal. lia. Qed.

Lemma literal_peek p w q : in_bounds p -> literal p w = Ok q -> peek p = match w with c :: _ => Ok c | [] => peek p end.
Proof.
  unfold literal. intros Hp E. destruct (starts_at _ _ _) eqn:Es; [|done]. destruct w as [|c w]; [done|]. unfold starts_at in Es. apply bool_decide_eq_true in Es. apply (f_equal head) in Es. cbn in Es.
  unfold slice in Es. rewrite head_lookup, lookup_take_lt, lookup_drop, Nat.add_0_r in Es by (rewrite len_cons; pose proof (len_nonneg w); lia). unfold peek, get, in_bounds in *.
  assert (jpos p < len (jbuf p)) by (apply lookup_lt_Some in Es; unfold len; lia). replace (_ && _) with true by (symmetry; apply andb_true_iff; lia). by rewrite Es.
Qed.

(** A region starts at a byte that is not white space. *)
Lemma peek_fixed p c : peek p = Ok c -> is_ws c = false -> ws p = p.
Proof.
  unfold peek, get, ws, skip_while, rest_of. intros Ec Hc. destruct (_ && _); [|done]. destruct (jbuf p !! _) as [x|] eqn:El; [|done]. injection Ec as ->. rewrite (drop_S _ _ _ El). cbn [prefix_len]. rewrite Hc.
  destruct p. unfold adv, seek. cbn. by rewrite Z.add_0_r.
Qed.

Lemma region_peek d p q : in_bounds p -> region d p q -> exists c, peek p = Ok c /\ is_ws c = false.
Proof.
  intros Hp Hr. destruct Hr; try match goal with E : expect _ _ = Ok _ |- _ => apply expect_inv in E as [E _]; by eexists end.
  - by eexists.
  - match goal with E : literal _ _ = Ok _ |- _ => apply literal_peek in E; [|done] end. match goal with Hw : In _ words |- _ => destruct Hw as [<-|[<-|[<-|[]]]]; by eexists end.
  - exists c. split; [done|]. unfold is_ws. assert (Hc : c = 45 \/ 48 <= c <= 57) by (unfold is_digit in *; bools; lia). repeat match goal with |- context[c =? ?k] => replace (c =? k) with false by (symmetry; apply Z.eqb_neq; lia) end. done.
Qed.

Lemma region_fixed d p q : in_bounds p -> region d p q -> ws p = p.
Proof. intros Hp Hr. destruct (region_peek d p q Hp Hr) as (c & Ec & Hc). by apply (peek_fixed p c). Qed.

Lemma array_loop_ws {B V C} `{Builder B V} `{Context C} fuel p p' (b : B) (st : Stacks V) (ctx : C) : ws p = ws p' -> array_loop fuel p b st ctx = array_loop fuel p' b st ctx.
Proof. intros E. destruct fuel as [|fuel]; [done|]. simpl. by rewrite E. Qed.

(** The loops push one unit per member or item. *)
Definition pushed (st st' : Stacks unit) : Prop := (exists ks, st'.(st_keys) = st.(st_keys) ++ ks) /\ exists vs, st'.(st_values) = st.(st_values) ++ vs.

Lemma pushed_trans a b c : pushed a b -> pushed b c -> pushed a c.
Proof. intros [[k1 K1] [v1 V1]] [[k2 K2] [v2 V2]]. split; [exists (k1 ++ k2)|exists (v1 ++ v2)]; rewrite ?K2, ?V2, ?K1, ?V1; by rewrite app_assoc. Qed.

Lemma pushed_take st st' : pushed st st' -> mkStacks (take (length st.(st_keys)) st'.(st_keys)) (take (length st.(st_values)) st'.(st_values)) = st.
Proof. intros [[ks ->] [vs ->]]. rewrite !take_app_length. by destruct st. Qed.

Lemma grammar_skipped :
  (forall d p q, region d p q -> in_bounds p -> skipped d p q) /\
  (forall d p ms q, members d p ms q -> in_bounds p -> exists fuel, forall st, exists st', object_loop fuel (set_depth p d) skip_builder st ordinary 0 = Ok (set_depth q d, skip_builder, st') /\ pushed st st') /\
  (forall d p l q, items d p l q -> in_bounds p -> exists fuel, forall st, exists st', array_loop fuel (set_depth p d) skip_builder st ordinary = Ok (set_depth q d, skip_builder, st') /\ pushed st st' /\ st'.(st_keys) = st.(st_keys)).
Proof.
  apply grammar_rule.
  - intros d p p1 q Hd Ee Eo Hp. exists 1%nat. intros st. pose proof (expect_inv _ _ _ Ee) as [Ec ->]. simpl. change (peek (set_depth p d)) with (peek p). rewrite Ec, enter_at by done. cbn [Z.eqb Pos.eqb].
    change (adv (set_depth p (d + 1)) 1) with (set_depth (adv p 1) (d + 1)). rewrite (object_open_at _ _ _ _ Eo). rewrite take_ge, take_ge by done. rewrite set_depth_back. by destruct st.
  - intros d p p1 p2 ms q Hd Ee Eo Hms IH Hp. pose proof (expect_inv _ _ _ Ee) as [Ec ->]. scan. destruct (IH ltac:(done)) as [fuel Hf]. exists (S fuel). intros st. simpl. change (peek (set_depth p d)) with (peek p). rewrite Ec, enter_at by done.
    cbn [Z.eqb Pos.eqb]. change (adv (set_depth p (d + 1)) 1) with (set_depth (adv p 1) (d + 1)). rewrite (object_open_at _ _ _ _ Eo). destruct (Hf st) as (st' & -> & Hst). by rewrite pushed_take, set_depth_back.
  - intros d p p1 q Hd Ee Eo Hp. exists 1%nat. intros st. pose proof (expect_inv _ _ _ Ee) as [Ec ->]. simpl. change (peek (set_depth p d)) with (peek p). rewrite Ec, enter_at by done. cbn [Z.eqb Pos.eqb].
    change (ws (adv (set_depth p (d + 1)) 1)) with (set_depth (ws (adv p 1)) (d + 1)). change (peek (set_depth (ws (adv p 1)) (d + 1))) with (peek (ws (adv p 1))). unfold array_rest in Eo. destruct (peek (ws (adv p 1))) as [c| |]; [|done..].
    destruct (c =? 93); [|done]. injection Eo as <-. rewrite take_ge by done. change (adv (set_depth (ws (adv p 1)) (d + 1)) 1) with (set_depth (adv (ws (adv p 1)) 1) (d + 1)). rewrite set_depth_back. by destruct st.
  - intros d p p1 p2 l q Hd Ee Eo Hl IH Hp. pose proof (expect_inv _ _ _ Ee) as [Ec ->]. scan. destruct (IH ltac:(done)) as [fuel Hf]. exists (S fuel). intros st. simpl. change (peek (set_depth p d)) with (peek p). rewrite Ec, enter_at by done.
    cbn [Z.eqb Pos.eqb]. change (ws (adv (set_depth p (d + 1)) 1)) with (set_depth (ws (adv p 1)) (d + 1)). change (peek (set_depth (ws (adv p 1)) (d + 1))) with (peek (ws (adv p 1))). unfold array_rest in Eo. destruct (peek (ws (adv p 1))) as [c| |]; [|done..].
    destruct (c =? 93); [done|]. injection Eo as <-. destruct (Hf st) as (st' & -> & Hst & Hk). pose proof (pushed_take _ _ Hst) as Ht. rewrite Hk, take_ge in Ht by done. by rewrite Hk, Ht, set_depth_back.
  - intros d p s q Ec Es Hp. exists 1%nat. intros st. simpl. change (peek (set_depth p d)) with (peek p). rewrite Ec. cbn [Z.eqb Pos.eqb]. by rewrite (string_at _ _ _ _ Hp Es).
  - intros d p w q Hw El Hp. exists 1%nat. intros st. pose proof (literal_peek p w q Hp El) as Ec. apply (literal_at _ _ _ d) in El. destruct Hw as [<-|[<-|[<-|[]]]]; simpl; change (peek (set_depth p d)) with (peek p); rewrite Ec; cbn [Z.eqb Pos.eqb]; by rewrite El.
  - intros d p c n q Ec Ed En Hp. exists 1%nat. intros st. simpl. change (peek (set_depth p d)) with (peek p). rewrite Ec. rewrite (number_at _ _ _ _ Hp En), Ed.
    assert (Hc : c = 45 \/ 48 <= c <= 57) by (unfold is_digit in Ed; bools; lia).
    repeat match goal with |- context[c =? ?k] => replace (c =? k) with false by (symmetry; apply Z.eqb_neq; lia) end. done.
  - intros d p k p1 p2 p3 q Es Ek Hr IH En Hp. scan. destruct (IH ltac:(done)) as [fuel Hf]. exists (S fuel). intros st. eexists. simpl. rewrite (string_at _ _ _ _ Hp Es), (colon_at _ _ _ Ek). cbn [Z.land Z.eqb negb]. rewrite Hf, (object_next_at _ _ _ _ En).
    split; [done|]. split; cbn; [by exists [tt]|by exists [tt]].
  - intros d p k p1 p2 p3 p4 ms q Es Ek Hr IH En Hms IHms Hp. scan. destruct (IH ltac:(done)) as [f1 Hf1]. pose proof (region_moved _ _ _ Hr ltac:(done)). scan. destruct (IHms ltac:(done)) as [f2 Hf2]. exists (S (f1 + f2)). intros st. simpl.
    rewrite (string_at _ _ _ _ Hp Es), (colon_at _ _ _ Ek). cbn [Z.land Z.eqb negb]. rewrite (value_more_ok _ _ _ _ _ _ _ (Hf1 _)), (object_next_at _ _ _ _ En). cbn [Z.lor].
    match goal with |- context[object_loop _ _ _ ?st _ _] => destruct (Hf2 st) as (st' & E' & Hst) end. rewrite Nat.add_comm, (object_more_ok _ _ _ _ _ _ _ _ E'). eexists. split; [done|]. eapply pushed_trans; [|exact Hst]. split; cbn; by exists [tt].
  - intros d p p1 q Hr IH En Hp. destruct (IH Hp) as [fuel Hf]. exists (S fuel). intros st. simpl. change (ws (set_depth p d)) with (set_depth (ws p) d). rewrite (region_fixed _ _ _ Hp Hr), Hf. eexists. unfold array_next in En.
    change (peek (ws (set_depth p1 d))) with (peek (ws p1)). destruct (peek (ws p1)) as [c| |]; [|done..]. destruct (c =? 44); [done|]. destruct (c =? 93); [|done]. injection En as <-. split; [done|]. split; [split; cbn; [by exists []; rewrite app_nil_r|by exists [tt]]|done].
  - intros d p p1 p2 l q Hr IH En Hl IHl Hp. destruct (IH Hp) as [f1 Hf1]. pose proof (region_moved _ _ _ Hr Hp). scan. destruct (IHl ltac:(done)) as [f2 Hf2]. exists (S (f1 + f2)). intros st. simpl. change (ws (set_depth p d)) with (set_depth (ws p) d).
    rewrite (region_fixed _ _ _ Hp Hr), (value_more_ok _ _ _ _ _ _ _ (Hf1 _)). change (peek (ws (set_depth p1 d))) with (peek (ws p1)). unfold array_next in En. destruct (peek (ws p1)) as [c| |] eqn:Ec; [|done..].
    destruct (c =? 44); [|by destruct (c =? 93)]. injection En as <-. match goal with |- context[array_loop _ _ _ ?st _] => destruct (Hf2 st) as (st' & E' & Hst & Hk) end. apply (array_more_ok _ f1) in E'. rewrite Nat.add_comm in E'.
    exists st'. split; [|split; [eapply pushed_trans; [|exact Hst]; split; cbn; [by exists []; rewrite app_nil_r|by exists [tt]]|done]]. rewrite <- E'. apply array_loop_ws. pose proof (ws_moved p1 ltac:(done)). into_bounds. apply peek_moved in Ec; [|done]. into_bounds.
    change (ws (set_depth (ws (adv (ws p1) 1)) d)) with (set_depth (ws (ws (adv (ws p1) 1))) d). by rewrite ws_ws.
Qed.

Lemma region_skips d p q : in_bounds p -> region d p q -> skipped d p q.
Proof. intros Hp Hr. by apply grammar_skipped. Qed.

(** The skipping parser at its own depth. *)
Lemma region_skip_value p q : in_bounds p -> region p.(jdepth) p q -> skip_value p = Ok (slice p.(jbuf) p.(jpos) q.(jpos), q).
Proof.
  intros Hp Hr. pose proof (region_moved _ _ _ Hr Hp) as (Hb & Hd & _). destruct (region_skips _ _ _ Hp Hr) as [fuel Hf]. specialize (Hf Stacks_new).
  assert (Ep : set_depth p p.(jdepth) = p) by by destruct p. assert (Eq : set_depth q p.(jdepth) = q) by (rewrite <- Hd; by destruct q). rewrite Ep, Eq in Hf.
  unfold skip_value, value, value_top. pose proof (value_top_not_fuel p skip_builder Stacks_new ordinary Hp) as Hn. unfold value_top in Hn. apply (value_more_ok _ (value_fuel p)) in Hf.
  rewrite Nat.add_comm, (proj1 (parser_more (value_fuel p))) in Hf by done. by rewrite Hf, Hb.
Qed.

Lemma skip_value_region p raw q : in_bounds p -> skip_value p = Ok (raw, q) -> region p.(jdepth) p q.
Proof.
  intros Hp E. unfold skip_value, value, value_top in E. destruct (value_in _ _ _ _ _) as [[[[[] r] b] st]| |] eqn:Ev; [|done..]. injection E as <- <-. pose proof (value_in_post _ _ _ _ _ _ _ _ _ Hp Ev) as [(_ & Hd & _) _].
  apply (proj1 (reads_grammar _) _ _ _ _ _ p.(jdepth)) in Ev; [|done]. assert (Ep : set_depth p p.(jdepth) = p) by by destruct p. assert (Eq : set_depth r p.(jdepth) = r) by (rewrite <- Hd; by destruct r). by rewrite Ep, Eq in Ev.
Qed.


(** ** Cutting a slice *)

Lemma array_rest_within k e p s b q : in_bounds p -> within k e p s -> array_rest p = Ok (b, q) -> q.(jpos) <= e -> (if b then q.(jpos) < e else True) -> exists r, array_rest s = Ok (b, r) /\ within k e q r.
Proof.
  intros Hp Hw E Hq Hb. unfold array_rest in *. destruct (peek (ws p)) as [c| |] eqn:Ec; [|done..]. assert (Hl : (ws p).(jpos) < e) by (destruct (c =? 93); injection E as <- <-; cbn in *; lia).
  pose proof (ws_within k e p s Hw ltac:(lia)) as Hw1. rewrite (peek_within k e _ _ c Hw1) by done. destruct (c =? 93); injection E as <- <-; eexists; (split; [done|]); [|done]. pose proof (within_pos _ _ _ _ Hw1). apply within_adv; [done|lia|cbn in *; lia].
Qed.

Lemma array_next_within k e p s b q : in_bounds p -> within k e p s -> array_next p = Ok (b, q) -> q.(jpos) <= e -> exists r, array_next s = Ok (b, r) /\ within k e q r.
Proof.
  intros Hp Hw E Hq. unfold array_next in *. pose proof (ws_moved p Hp). into_bounds. destruct (peek (ws p)) as [c| |] eqn:Ec; [|done..]. pose proof (peek_moved _ _ ltac:(eassumption) Ec) as Hm. into_bounds.
  pose proof (ws_moved (adv (ws p) 1) ltac:(done)) as (_ & _ & _ & P2). assert (Hl : (ws p).(jpos) < e) by (destruct (c =? 44); [|destruct (c =? 93); [|done]]; injection E as <- <-; cbn [adv seek jpos] in *; lia).
  pose proof (ws_within k e p s Hw ltac:(lia)) as Hw1. rewrite (peek_within k e _ _ c Hw1) by done. pose proof (within_pos _ _ _ _ Hw1). pose proof (within_adv k e _ _ 1 Hw1 ltac:(lia) ltac:(lia)) as Hw2.
  destruct (c =? 44); [|destruct (c =? 93); [|done]]; injection E as <- <-; eexists; (split; [done|]); [by apply ws_within|done].
Qed.

(** The same place in the slice. *)
Definition cut (k e : Z) (a b : Place) : Prop := within k e a.1 b.1 /\ within k e a.2 b.2.
Definition cut_member (k e : Z) (a b : Cow * Place) : Prop := a.1 = b.1 /\ cut k e a.2 b.2.

Definition region_cut d p q : Prop := forall k e s x, in_bounds p -> within k e p s -> q.(jpos) <= e -> x <= d -> exists r, region x s r /\ within k e q r.
Definition members_cut d p ms q : Prop := forall k e s x, in_bounds p -> within k e p s -> q.(jpos) <= e -> x <= d -> exists ns r, members x s ns r /\ within k e q r /\ Forall2 (cut_member k e) ms ns.
Definition items_cut d p l q : Prop := forall k e s x, in_bounds p -> within k e p s -> q.(jpos) <= e -> x <= d -> exists m r, items x s m r /\ within k e q r /\ Forall2 (cut k e) l m.

Lemma grammar_cut : (forall d p q, region d p q -> region_cut d p q) /\ (forall d p ms q, members d p ms q -> members_cut d p ms q) /\ (forall d p l q, items d p l q -> items_cut d p l q).
Proof.
  apply grammar_rule.
  - intros d p p1 q Hd Ee Eo k e s x Hp Hw Hq Hx. scan. destruct (expect_within k e p s _ p1 Hw Ee ltac:(ahead)) as (r1 & E1 & Hw1). destruct (object_open_within k e p1 r1 _ q ltac:(done) Hw1 Eo Hq I) as (r & E2 & Hw2).
    exists r. split; [|done]. apply (R_empty x s r1); [lia|done|done].
  - intros d p p1 p2 ms q Hd Ee Eo Hms IH k e s x Hp Hw Hq Hx. scan. pose proof (members_moved _ _ _ _ Hms ltac:(done)). destruct (expect_within k e p s _ p1 Hw Ee ltac:(ahead)) as (r1 & E1 & Hw1).
    destruct (object_open_within k e p1 r1 _ p2 ltac:(done) Hw1 Eo ltac:(ahead) ltac:(cbn; ahead)) as (r2 & E2 & Hw2). destruct (IH k e r2 (x + 1) ltac:(done) Hw2 Hq ltac:(lia)) as (ns & r & Hns & Hwr & _).
    exists r. split; [|done]. apply (R_object x s r1 r2 ns); [lia|done|done|done].
  - intros d p p1 q Hd Ee Eo k e s x Hp Hw Hq Hx. scan. destruct (expect_within k e p s _ p1 Hw Ee ltac:(ahead)) as (r1 & E1 & Hw1). destruct (array_rest_within k e p1 r1 _ q ltac:(done) Hw1 Eo Hq I) as (r & E2 & Hw2).
    exists r. split; [|done]. apply (R_nil x s r1); [lia|done|done].
  - intros d p p1 p2 l q Hd Ee Eo Hl IH k e s x Hp Hw Hq Hx. scan. pose proof (items_moved _ _ _ _ Hl ltac:(done)). destruct (expect_within k e p s _ p1 Hw Ee ltac:(ahead)) as (r1 & E1 & Hw1).
    destruct (array_rest_within k e p1 r1 _ p2 ltac:(done) Hw1 Eo ltac:(ahead) ltac:(cbn; ahead)) as (r2 & E2 & Hw2). destruct (IH k e r2 (x + 1) ltac:(done) Hw2 Hq ltac:(lia)) as (m & r & Hm & Hwr & _).
    exists r. split; [|done]. apply (R_array x s r1 r2 m); [lia|done|done|done].
  - intros d p s q Ec Es k e s' x Hp Hw Hq Hx. scan. destruct (string_within k e p s' _ q Hp Hw Es Hq) as (r & E & Hr). exists r. split; [|done]. apply (R_string x s' s); [|done]. apply (peek_within k e p s'); [done|ahead|done].
  - intros d p w q Hw El k e s x Hp Hws Hq Hx. destruct (literal_within k e p s w q Hws El Hq) as (r & E & Hr). exists r. split; [|done]. by apply (R_word x s w).
  - intros d p c n q Ec Ed En k e s x Hp Hw Hq Hx. scan. destruct (number_within k e p s n q Hp Hw En Hq) as (r & E & Hr). exists r. split; [|done]. apply (R_number x s c n); [|done|done]. apply (peek_within k e p s); [done|ahead|done].
  - intros d p key p1 p2 p3 q Es Ek Hr IH En k e s x Hp Hw Hq Hx. scan. pose proof (region_moved _ _ _ Hr ltac:(done)). scan. destruct (string_within k e p s _ p1 Hp Hw Es ltac:(ahead)) as (r1 & E1 & Hw1).
    destruct (colon_within k e p1 r1 p2 ltac:(done) Hw1 Ek ltac:(ahead)) as (r2 & E2 & Hw2). destruct (IH k e r2 x ltac:(done) Hw2 ltac:(ahead) Hx) as (r3 & Hr3 & Hw3).
    destruct (object_next_within k e p3 r3 _ q ltac:(done) Hw3 En Hq I) as (r4 & E4 & Hw4). exists [(key, (r2, r3))], r4. split; [by apply (M_last x s key r1)|]. split; [done|]. apply Forall2_cons; [done|]. first [done | apply Forall2_nil_2].
  - intros d p key p1 p2 p3 p4 ms q Es Ek Hr IH En Hms IHms k e s x Hp Hw Hq Hx. scan. pose proof (region_moved _ _ _ Hr ltac:(done)). scan. pose proof (members_moved _ _ _ _ Hms ltac:(done)).
    destruct (string_within k e p s _ p1 Hp Hw Es ltac:(ahead)) as (r1 & E1 & Hw1). destruct (colon_within k e p1 r1 p2 ltac:(done) Hw1 Ek ltac:(ahead)) as (r2 & E2 & Hw2). destruct (IH k e r2 x ltac:(done) Hw2 ltac:(ahead) Hx) as (r3 & Hr3 & Hw3).
    destruct (object_next_within k e p3 r3 _ p4 ltac:(done) Hw3 En ltac:(ahead) ltac:(cbn; ahead)) as (r4 & E4 & Hw4). destruct (IHms k e r4 x ltac:(done) Hw4 Hq Hx) as (ns & r & Hns & Hwr & Hf).
    exists ((key, (r2, r3)) :: ns), r. split; [by apply (M_more x s key r1 r2 r3 r4)|]. split; [done|]. apply Forall2_cons; [done|]. first [done | apply Forall2_nil_2].
  - intros d p p1 q Hr IH En k e s x Hp Hw Hq Hx. pose proof (region_moved _ _ _ Hr ltac:(done)). scan. destruct (IH k e s x Hp Hw ltac:(ahead) Hx) as (r1 & Hr1 & Hw1). destruct (array_next_within k e p1 r1 _ q ltac:(done) Hw1 En Hq) as (r & E & Hwr).
    exists [(s, r1)], r. split; [by apply I_last|]. split; [done|]. apply Forall2_cons; [done|]. first [done | apply Forall2_nil_2].
  - intros d p p1 p2 l q Hr IH En Hl IHl k e s x Hp Hw Hq Hx. pose proof (region_moved _ _ _ Hr ltac:(done)). scan. pose proof (items_moved _ _ _ _ Hl ltac:(done)). destruct (IH k e s x Hp Hw ltac:(ahead) Hx) as (r1 & Hr1 & Hw1).
    destruct (array_next_within k e p1 r1 _ p2 ltac:(done) Hw1 En ltac:(ahead)) as (r2 & E & Hw2). destruct (IHl k e r2 x ltac:(done) Hw2 Hq Hx) as (m & r & Hm & Hwr & Hf). exists ((s, r1) :: m), r. split; [by apply (I_more x s r1 r2)|]. split; [done|]. apply Forall2_cons; [done|]. first [done | apply Forall2_nil_2].
Qed.

(** ** Objects and arrays *)

Definition text (a : Place) : bytes := slice a.1.(jbuf) a.1.(jpos) a.2.(jpos).
Definition texts (ms : list (Cow * Place)) : RawFields := map (fun m => (m.1, text m.2)) ms.

Definition object_at (d : Z) (p : Parser) (ms : list (Cow * Place)) (q : Parser) : Prop :=
  d + 1 <= MAX_DEPTH /\ exists p1, expect p 123 = Ok p1 /\ ((ms = [] /\ object_open p1 = Ok (false, q)) \/ exists p2, object_open p1 = Ok (true, p2) /\ members (d + 1) p2 ms q).
Definition array_at (d : Z) (p : Parser) (l : list Place) (q : Parser) : Prop :=
  d + 1 <= MAX_DEPTH /\ exists p1, expect p 91 = Ok p1 /\ ((l = [] /\ array_rest p1 = Ok (false, q)) \/ exists p2, array_rest p1 = Ok (true, p2) /\ items (d + 1) p2 l q).

Lemma object_region d p ms q : object_at d p ms q -> region d p q.
Proof. intros (Hd & p1 & E1 & [[-> E2]|(p2 & E2 & Hms)]); eauto. Qed.
Lemma array_region d p l q : array_at d p l q -> region d p q.
Proof. intros (Hd & p1 & E1 & [[-> E2]|(p2 & E2 & Hms)]); eauto. Qed.

(** What the first byte of a region says of it. *)
Lemma region_first d p q c : in_bounds p -> region d p q -> peek p = Ok c ->
  (c = 123 /\ exists ms, object_at d p ms q) \/ (c = 91 /\ exists l, array_at d p l q) \/ (c = 34 /\ exists s, JsonRead.string p = Ok (s, q)) \/ (c <> 123 /\ c <> 91 /\ c <> 34 /\ forall x, region x p q).
Proof.
  intros Hp Hr Ec. destruct Hr as [d p p1 q Hd Ee Eo|d p p1 p2 ms q Hd Ee Eo Hms|d p p1 q Hd Ee Eo|d p p1 p2 l q Hd Ee Eo Hl|d p s q E34 Es|d p w q Hw El|d p c' n q Ec' Hc En].
  - apply expect_inv in Ee as Ei. destruct Ei as [E _]. rewrite E in Ec. injection Ec as <-. left. split; [done|]. exists []. split; [done|]. exists p1. eauto.
  - apply expect_inv in Ee as Ei. destruct Ei as [E _]. rewrite E in Ec. injection Ec as <-. left. split; [done|]. exists ms. split; [done|]. exists p1. eauto.
  - apply expect_inv in Ee as Ei. destruct Ei as [E _]. rewrite E in Ec. injection Ec as <-. right. left. split; [done|]. exists []. split; [done|]. exists p1. eauto.
  - apply expect_inv in Ee as Ei. destruct Ei as [E _]. rewrite E in Ec. injection Ec as <-. right. left. split; [done|]. exists l. split; [done|]. exists p1. eauto.
  - rewrite E34 in Ec. injection Ec as <-. right. right. left. eauto.
  - right. right. right. pose proof (literal_peek _ _ _ Hp El) as Ew. rewrite Ew in Ec. destruct Hw as [<-|[<-|[<-|[]]]]; injection Ec as <-; (split_and!; [lia..|]); intros x; eapply R_word; [|done| |done| |done]; cbn; auto.
  - right. right. right. rewrite Ec' in Ec. injection Ec as <-. unfold is_digit in Hc. split_and!; [bools; lia..|]. intros x. eapply R_number; [done| |done]. done.
Qed.

Lemma text_cut k e a b : a.1.(jpos) <= a.2.(jpos) -> a.2.(jbuf) = a.1.(jbuf) -> cut k e a b -> text b = text a.
Proof.
  intros Ha Hb [H1 H2]. unfold text. rewrite (w_buf _ _ _ _ H1), (w_pos _ _ _ _ H1), (w_pos _ _ _ _ H2). destruct H1 as [_ _ _ Hr1], H2 as [_ _ _ Hr2]. rewrite Hb in Hr2. apply slice_slice; lia.
Qed.

(** The places of members and items are ordered and in bounds. *)
Definition sound_place (d : Z) (p q : Parser) (a : Place) : Prop := in_bounds a.1 /\ moved 1 p a.1 /\ region d a.1 a.2 /\ moved 1 a.1 a.2 /\ moved 1 a.2 q.
Definition sound_item (d : Z) (p q : Parser) (a : Place) : Prop := in_bounds a.1 /\ moved 0 p a.1 /\ region d a.1 a.2 /\ moved 1 a.1 a.2 /\ moved 1 a.2 q.

Lemma members_sound d p ms q : members d p ms q -> in_bounds p -> Forall (fun m => sound_place d p q m.2) ms.
Proof.
  induction 1 as [d p k p1 p2 p3 q Es Ek Hr En|d p k p1 p2 p3 p4 ms q Es Ek Hr En Hms IH]; intros Hp; scan; pose proof (region_moved _ _ _ Hr ltac:(done)); scan.
  - constructor; [|constructor]. unfold sound_place, sound_item; cbn [fst snd]; split_and!; [done|far|done|done|done].
  - pose proof (members_moved _ _ _ _ Hms ltac:(done)). constructor; [unfold sound_place, sound_item; cbn [fst snd]; split_and!; [done|far|done|done|far]|]. eapply Forall_impl; [|by apply IH]. intros m (Hb & Hm & Hrm). unfold sound_place, sound_item; cbn [fst snd]; split_and!; [done|far|apply Hrm..].
Qed.

Lemma items_sound d p l q : items d p l q -> in_bounds p -> Forall (sound_item d p q) l.
Proof.
  induction 1 as [d p p1 q Hr En|d p p1 p2 l q Hr En Hl IH]; intros Hp; pose proof (region_moved _ _ _ Hr ltac:(done)); scan.
  - constructor; [|constructor]. unfold sound_item; cbn [fst snd]; split_and!; [done|split_and!; cbn; try done; unfold in_bounds in Hp; lia|done|done|done].
  - pose proof (items_moved _ _ _ _ Hl ltac:(done)). constructor; [unfold sound_item; cbn [fst snd]; split_and!; [done|split_and!; cbn; try done; unfold in_bounds in Hp; lia|done|done|far]|]. eapply Forall_impl; [|by apply IH]. intros m (Hb & Hm & Hrm). unfold sound_place, sound_item; cbn [fst snd]; split_and!; [done|far|apply Hrm..].
Qed.

Lemma texts_cut k e ms ns : Forall (fun m : Cow * Place => moved 1 m.2.1 m.2.2) ms -> Forall2 (cut_member k e) ms ns -> texts ns = texts ms.
Proof.
  intros Hm Hf. induction Hf as [|m n ms ns [Hk Hc] Hf IH]; [done|]. inversion Hm as [|? ? (Hb & _ & _ & Hp) Hm']; subst. cbn [texts map]. f_equal; [|by apply IH]. f_equal; [done|]. apply (text_cut k e); [lia|done|done].
Qed.

Lemma items_text_cut k e l m : Forall (fun a : Place => moved 1 a.1 a.2) l -> Forall2 (cut k e) l m -> map text m = map text l.
Proof.
  intros Hm Hf. induction Hf as [|a b l m Hc Hf IH]; [done|]. inversion Hm as [|? ? (Hb & _ & _ & Hp) Hm']; subst. cbn [map]. f_equal; [|by apply IH]. apply (text_cut k e); [lia|done|done].
Qed.

(** The raw readers return the texts. *)
Lemma members_raw d p ms q : members d p ms q -> in_bounds p -> p.(jdepth) = d -> forall fuel fields, remaining p < Z.of_nat fuel -> raw_object_loop fuel p fields = Ok (fields ++ texts ms, q).
Proof.
  induction 1 as [d p k p1 p2 p3 q Es Ek Hr En|d p k p1 p2 p3 p4 ms q Es Ek Hr En Hms IH]; intros Hp Hd fuel fields Hf; scan; pose proof (region_moved _ _ _ Hr ltac:(done)) as Hm3; scan;
    (destruct fuel as [|fuel]; [unfold remaining, in_bounds in *; lia|]); cbn [raw_object_loop]; rewrite Es, Ek; assert (Hd2 : jdepth p2 = d) by (repeat match goal with Hm : moved _ _ _ |- _ => destruct Hm as (_ & ? & _) end; congruence);
    rewrite (region_skip_value p2 p3 ltac:(done) ltac:(by rewrite Hd2)), En.
  - done.
  - rewrite IH; [by rewrite <- app_assoc|done| |].
    + repeat match goal with Hm : moved _ _ _ |- _ => destruct Hm as (_ & ? & _) end. congruence.
    + repeat match goal with Hm : moved _ _ _ |- _ => apply moved_remaining in Hm end. unfold remaining in *. lia.
Qed.

Lemma items_raw d p l q : items d p l q -> in_bounds p -> p.(jdepth) = d -> forall fuel values, remaining p < Z.of_nat fuel -> raw_array_loop fuel p values = Ok (values ++ map text l, q).
Proof.
  induction 1 as [d p p1 q Hr En|d p p1 p2 l q Hr En Hl IH]; intros Hp Hd fuel fields Hf; pose proof (region_moved _ _ _ Hr ltac:(done)) as Hm3; scan;
    (destruct fuel as [|fuel]; [unfold remaining, in_bounds in *; lia|]); cbn [raw_array_loop]; rewrite (region_skip_value p p1 Hp ltac:(by rewrite Hd)); pose proof En as En'; unfold array_next in En; destruct (peek (ws p1)) as [c| |]; try done.
  - destruct (c =? 44); [done|]. destruct (c =? 93); [|done]. by injection En as <-.
  - destruct (c =? 44) eqn:E44; [|by destruct (c =? 93)]. injection En as <-. replace (c =? 93) with false by (symmetry; apply Z.eqb_neq; bools; lia). rewrite IH; [by rewrite <- app_assoc|done| |].
    + repeat match goal with Hm : moved _ _ _ |- _ => destruct Hm as (_ & ? & _) end. congruence.
    + repeat match goal with Hm : moved _ _ _ |- _ => apply moved_remaining in Hm end. unfold remaining in *. lia.
Qed.

(** ** The text of a value, read by itself *)

(** The whole text is one object, one array or one string. *)
Definition whole_object (raw : bytes) : Res RawFields :=
  let? (fields, p) := raw_object (Parser_new raw) in
  let p := ws p in
  let? _ := jend p in
  Ok fields.
Definition whole_array (raw : bytes) : Res (list bytes) :=
  let? (values, p) := raw_array (Parser_new raw) in
  let p := ws p in
  let? _ := jend p in
  Ok values.
Definition whole_string (raw : bytes) : Res Cow :=
  let? (value, p) := JsonRead.string (Parser_new raw) in
  let p := ws p in
  let? _ := jend p in
  Ok value.

Lemma new_within p q : in_bounds p -> p.(jutf8) = false -> moved 1 p q -> within p.(jpos) q.(jpos) p (Parser_new (text (p, q))).
Proof. intros [Hp _] Hu (_ & _ & _ & Hq). constructor; cbn; [done|lia|done|lia]. Qed.

Lemma within_ends k q r : within k q.(jpos) q r -> jend (ws r) = Ok tt.
Proof.
  intros [Hb Hp _ Hr]. assert (E : r.(jpos) = len r.(jbuf)) by (rewrite Hb, Hp, len_slice by lia; done). rewrite (ws_end_id r E). unfold jend. by rewrite E, Z.eqb_refl.
Qed.

Lemma object_text d p ms q : 0 <= d -> in_bounds p -> p.(jutf8) = false -> object_at d p ms q -> whole_object (text (p, q)) = Ok (texts ms).
Proof.
  intros Hd Hp Hu Ho. pose proof (region_moved _ _ _ (object_region _ _ _ _ Ho) Hp) as Hm. pose proof (region_fixed _ _ _ Hp (object_region _ _ _ _ Ho)) as Hf. pose proof (new_within p q Hp Hu Hm) as Hw. set (s := Parser_new _) in *.
  pose proof (within_in_bounds _ _ _ _ Hw) as Hs. pose proof (ws_within _ _ _ _ Hw ltac:(rewrite Hf; ahead)) as Hws. rewrite Hf in Hws. pose proof (ws_moved s Hs) as Hms'. into_bounds. unfold whole_object, raw_object. fold s.
  destruct Ho as (Hd1 & p1 & E1 & Ho). pose proof (expect_moved _ _ _ Hp E1). into_bounds.
  destruct Ho as [[-> E2]|(p2 & E2 & Hms)].
  - scan. destruct (expect_within _ _ _ _ _ _ Hws E1 ltac:(ahead)) as (r1 & -> & Hw1). destruct (object_open_within _ _ p1 r1 _ _ ltac:(done) Hw1 E2 ltac:(lia) I) as (r2 & -> & Hw2). by rewrite (within_ends _ _ _ Hw2).
  - scan. pose proof (members_moved _ _ _ _ Hms ltac:(done)). destruct (expect_within _ _ _ _ _ _ Hws E1 ltac:(ahead)) as (r1 & F1 & Hw1). rewrite F1. destruct (object_open_within _ _ p1 r1 _ _ ltac:(done) Hw1 E2 ltac:(ahead) ltac:(cbn; ahead)) as (r2 & F2 & Hw2). rewrite F2.
    destruct (proj1 (proj2 grammar_cut) _ _ _ _ Hms p.(jpos) q.(jpos) r2 0 ltac:(done) Hw2 ltac:(lia) ltac:(lia)) as (ns & r & Hns & Hwr & Hcut). scan.
    rewrite (members_raw _ _ _ _ Hns (within_in_bounds _ _ _ _ Hw2)).
    + rewrite (within_ends _ _ _ Hwr). rewrite (texts_cut p.(jpos) q.(jpos) ms ns); [done| |exact Hcut]. eapply Forall_impl; [|by apply (members_sound _ _ _ _ Hms)]. intros m Hm'. apply Hm'.
    + repeat match goal with Hm : moved _ _ _ |- _ => destruct Hm as (_ & ? & _) end. cbn in *. congruence.
    + pose proof (within_in_bounds _ _ _ _ Hw2). unfold remaining, in_bounds, len in *. lia.
Qed.

Lemma array_text d p l q : 0 <= d -> in_bounds p -> p.(jutf8) = false -> array_at d p l q -> whole_array (text (p, q)) = Ok (map text l).
Proof.
  intros Hd Hp Hu Ho. pose proof (region_moved _ _ _ (array_region _ _ _ _ Ho) Hp) as Hm. pose proof (region_fixed _ _ _ Hp (array_region _ _ _ _ Ho)) as Hf. pose proof (new_within p q Hp Hu Hm) as Hw. set (s := Parser_new _) in *.
  pose proof (within_in_bounds _ _ _ _ Hw) as Hs. pose proof (ws_within _ _ _ _ Hw ltac:(rewrite Hf; ahead)) as Hws. rewrite Hf in Hws. pose proof (ws_moved s Hs) as Hms'. into_bounds. unfold whole_array, raw_array. fold s.
  destruct Ho as (Hd1 & p1 & E1 & Ho). pose proof (expect_moved _ _ _ Hp E1). into_bounds.
  destruct Ho as [[-> E2]|(p2 & E2 & Hl)].
  - scan. destruct (expect_within _ _ _ _ _ _ Hws E1 ltac:(ahead)) as (r1 & -> & Hw1). destruct (array_rest_within _ _ p1 r1 _ _ ltac:(done) Hw1 E2 ltac:(lia) I) as (r2 & F2 & Hw2). unfold array_rest in F2. destruct (peek (ws r1)) as [c| |]; [|done..].
    destruct (c =? 93); [|done]. injection F2 as <-. by rewrite (within_ends _ _ _ Hw2).
  - scan. pose proof (items_moved _ _ _ _ Hl ltac:(done)). destruct (expect_within _ _ _ _ _ _ Hws E1 ltac:(ahead)) as (r1 & F1 & Hw1). rewrite F1. destruct (array_rest_within _ _ p1 r1 _ _ ltac:(done) Hw1 E2 ltac:(ahead) ltac:(cbn; ahead)) as (r2 & F2 & Hw2).
    destruct (proj2 (proj2 grammar_cut) _ _ _ _ Hl p.(jpos) q.(jpos) r2 0 ltac:(done) Hw2 ltac:(lia) ltac:(lia)) as (m & r & Hm2 & Hwr & Hcut). scan. unfold array_rest in F2. destruct (peek (ws r1)) as [c| |]; [|done..].
    destruct (c =? 93); [done|]. injection F2 as <-. rewrite (items_raw _ _ _ _ Hm2 (within_in_bounds _ _ _ _ Hw2)).
    + rewrite (within_ends _ _ _ Hwr). rewrite (items_text_cut p.(jpos) q.(jpos) l m); [done| |exact Hcut]. eapply Forall_impl; [|by apply (items_sound _ _ _ _ Hl)]. intros x Hx. apply Hx.
    + repeat match goal with Hm : moved _ _ _ |- _ => destruct Hm as (_ & ? & _) end. cbn in *. congruence.
    + pose proof (within_in_bounds _ _ _ _ Hw2). unfold remaining, in_bounds, len in *. lia.
Qed.

Lemma string_text p s q : in_bounds p -> p.(jutf8) = false -> JsonRead.string p = Ok (s, q) -> whole_string (text (p, q)) = Ok s.
Proof.
  intros Hp Hu E. scan. destruct (string_within _ _ _ _ _ _ Hp (new_within p q Hp Hu ltac:(far)) E ltac:(lia)) as (r & F & Hw). unfold whole_string. rewrite F. by rewrite (within_ends _ _ _ Hw).
Qed.

(** The first byte of a text is the byte at its place. *)
Lemma text_first p q : in_bounds p -> moved 1 p q -> peek p = ok_or (head (text (p, q))) tt.
Proof.
  intros Hp (_ & _ & _ & Hq). unfold text, peek. cbn [fst snd]. f_equal. unfold get, in_bounds in *. replace ((0 <=? jpos p) && (jpos p <? len (jbuf p))) with true by (symmetry; apply andb_true_iff; lia).
  rewrite head_lookup. unfold slice. rewrite lookup_take_lt by lia. by rewrite lookup_drop, Nat.add_0_r.
Qed.

Lemma text_new p q : in_bounds p -> moved 1 p q -> peek (Parser_new (text (p, q))) = peek p.
Proof.
  intros Hp Hm. rewrite (text_first p q Hp Hm). unfold peek, Parser_new. cbn [jbuf jpos]. unfold get. rewrite head_lookup. destruct (text (p, q)) as [|c l] eqn:E; [done|]. rewrite len_cons. pose proof (len_nonneg l).
  by replace ((0 <=? 0) && (0 <? 1 + len l)) with true by (symmetry; apply andb_true_iff; lia).
Qed.

(** Conversely, what a text reads as, its region was. *)
Lemma text_fixed d p q : in_bounds p -> region d p q -> ws (Parser_new (text (p, q))) = Parser_new (text (p, q)).
Proof.
  intros Hp Hr. destruct (region_peek d p q Hp Hr) as (c & Ec & Hc). apply (peek_fixed _ c); [|done]. by rewrite (text_new p q Hp (region_moved _ _ _ Hr Hp)).
Qed.

Lemma text_object d p q fields : 0 <= d -> in_bounds p -> p.(jutf8) = false -> region d p q -> whole_object (text (p, q)) = Ok fields -> exists ms, object_at d p ms q /\ fields = texts ms.
Proof.
  intros Hd Hp Hu Hr E. pose proof (region_moved _ _ _ Hr Hp) as Hm. pose proof E as E0. unfold whole_object, raw_object in E. rewrite (text_fixed d p q Hp Hr) in E.
  destruct (expect _ 123) as [p1| |] eqn:E1 in E; [|done..]. apply expect_inv in E1 as [Ec _]. rewrite (text_new p q Hp Hm) in Ec.
  destruct (region_first _ _ _ _ Hp Hr Ec) as [[_ [ms Ho]]|[[? _]|[[? _]|[? _]]]]; [|done..]. exists ms. split; [done|]. rewrite (object_text d p ms q Hd Hp Hu Ho) in E0. by injection E0.
Qed.

Lemma text_array d p q l : 0 <= d -> in_bounds p -> p.(jutf8) = false -> region d p q -> whole_array (text (p, q)) = Ok l -> exists places, array_at d p places q /\ l = map text places.
Proof.
  intros Hd Hp Hu Hr E. pose proof (region_moved _ _ _ Hr Hp) as Hm. pose proof E as E0. unfold whole_array, raw_array in E. rewrite (text_fixed d p q Hp Hr) in E.
  destruct (expect _ 91) as [p1| |] eqn:E1 in E; [|done..]. apply expect_inv in E1 as [Ec _]. rewrite (text_new p q Hp Hm) in Ec.
  destruct (region_first _ _ _ _ Hp Hr Ec) as [[? _]|[[_ [places Ho]]|[[? _]|(_ & ? & _)]]]; [done| |done..]. exists places. split; [done|]. rewrite (array_text d p places q Hd Hp Hu Ho) in E0. by injection E0.
Qed.

Lemma string_peek p s q : JsonRead.string p = Ok (s, q) -> peek p = Ok 34.
Proof. unfold JsonRead.string. intros E. destruct (expect p 34) as [p1| |] eqn:E1 in E; [|done..]. by apply expect_inv in E1 as [? _]. Qed.

Lemma text_string d p q s : in_bounds p -> p.(jutf8) = false -> region d p q -> whole_string (text (p, q)) = Ok s -> JsonRead.string p = Ok (s, q).
Proof.
  intros Hp Hu Hr E. pose proof (region_moved _ _ _ Hr Hp) as Hm. pose proof E as E0. unfold whole_string in E. destruct (JsonRead.string _) as [[s' r]| |] eqn:E1 in E; [|done..]. apply string_peek in E1. rewrite (text_new p q Hp Hm) in E1.
  destruct (region_first _ _ _ _ Hp Hr E1) as [[? _]|[[? _]|[[_ [s1 Es]]|(_ & _ & ? & _)]]]; [done|done| |done]. rewrite (string_text p s1 q Hp Hu Es) in E0. by injection E0 as <-.
Qed.
End Regions.
