(* ===== verification/TraceMetadata.v ===== *)
(** The typed envelope of stored spans (trace_metadata.rs): one pass over a
    payload that validates the versioned attribute envelope while it parses it.

    What the pass accepts, and returns, is shown to be what reading the payload
    level by level gives: the same fields, the same members, the same numbers
    of attributes; so a query evaluates the same whether or not it is handed
    the validated envelope. *)

From S2P Require Import Prelude Utf8 External Float64 OrdMap Out JsonWrite JsonRead TraceFields JsonSim JsonSlice JsonRegion TraceSortKey Structural TempoExpression.

(** [typed]: not seen, null, or an envelope with its counts. *)
Abbreviation Typed := (option (option (Z * Z * Envelope))).

Section Validator.
Context `{SimdUtf8} `{Memchr2}.

(** * Values *)

(** [f64::from_str] on the text of a JSON number; other spellings it accepts
    do not reach it. *)
Definition f64_from_str (raw : bytes) : option Z :=
  match number_literal (Parser_new raw) with
  | Ok (_, p) => if p.(jpos) =? len raw then Some (parse_f64 raw) else None
  | _ => None
  end.

(** The first field of the name. *)
Definition first_field (fields : RawFields) (name : bytes) : Res bytes :=
  match List.find (fun f => bytes_eqb (cow_bytes (fst f)) name) fields with
  | Some (_, value) => Ok value
  | None => Fallback
  end.

Definition canonical_integer (value : bytes) : Res unit :=
  if negb (from_utf8_ok value) then Fallback
  else
    let? number := ok_or (parse_i64 value) tt in
    let digits := match value with c :: l => if c =? 45 then l else value | [] => value end in
    if bool_decide (head value = Some 43) || ((1 <? len digits) && bool_decide (head digits = Some 48)) || ((number =? 0) && negb (bytes_eqb value (str "0")))
    then Fallback else Ok tt.

Definition double (raw : bytes) : Res Z :=
  if bool_decide (head raw = Some 34) then
    let? s := whole_string raw in
    let s := cow_bytes s in
    if bytes_eqb s (str "NaN") then Ok F64_NAN
    else if bytes_eqb s (str "Infinity") then Ok F64_INFINITY
    else if bytes_eqb s (str "-Infinity") then Ok (0x8000000000000000 + F64_INFINITY)
    else Fallback
  else
    let? k := key raw in
    match head k with
    | Some tag =>
        if (tag =? 3) || (tag =? 4) then
          if negb (from_utf8_ok raw) then Fallback
          else
            let? value := ok_or (f64_from_str raw) tt in
            if f64_is_finite value then Ok value else Fallback
        else Fallback
    | None => Fallback
    end.

Definition base64_digit (b : Z) : option Z :=
  if (65 <=? b) && (b <=? 90) then Some (b - 65)
  else if (97 <=? b) && (b <=? 122) then Some (b - 97 + 26)
  else if (48 <=? b) && (b <=? 57) then Some (b - 48 + 52)
  else if b =? 43 then Some 62
  else if b =? 47 then Some 63
  else None.

Definition base64 (value : bytes) : bool :=
  if negb (len value mod 4 =? 0) then false
  else
    let padding := prefix_len (fun b => b =? 61) (rev value) in
    if 2 <? padding then false
    else
      let digits := take (Z.to_nat (len value - padding)) value in
      if negb (forallb (fun b => is_some (base64_digit b)) digits) then false
      else
        let last_bits mask :=
          match head (rev digits) with
          | Some b => match base64_digit b with Some v => Z.land v mask =? 0 | None => false end
          | None => false
          end in
        if padding =? 1 then last_bits 3 else if padding =? 2 then last_bits 15 else true.

(** * The pass *)

Definition open (p : Parser) (level c : Z) : Res Parser :=
  if MAX_DEPTH <? level then Fallback else expect (ws p) c.

(** [{"values": ...}] with nothing else. *)
Definition values (p : Parser) (level : Z) (inner : Parser -> Res Parser) : Res Parser :=
  let? p := open p level 123 in
  let? (more, p) := object_open p in
  if negb more then Fallback
  else
    let? (name, p) := JsonRead.string p in
    if negb (bytes_eqb (cow_bytes name) (str "values")) then Fallback
    else
      let? p := colon p in
      let? p := inner p in
      let? (more, p) := object_next p in
      if more then Fallback else Ok p.

(** [keys.sort_unstable(); keys.windows(2).any(|w| w[0] == w[1])]. *)
Definition repeated (keys : list bytes) : bool :=
  existsb (fun w => bytes_eqb (fst w) (snd w)) (windows2 (sort_by bytes_leb keys)).

(** One unit of fuel per call: each consumes a byte before the next. *)
Fixpoint any_value (fuel : nat) (p : Parser) (depth level : Z) {struct fuel} : Res Parser :=
  match fuel with
  | O => Fuel
  | S fuel =>
      if 128 <? depth then Fallback
      else
        let? p := open p level 123 in
        let? (more, p) := object_open p in
        if negb more then Ok p
        else
          let? (name, p) := JsonRead.string p in
          let? p := colon p in
          let name := cow_bytes name in
          let? p :=
            if bytes_eqb name (str "stringValue") then let? (_, p) := JsonRead.string p in Ok p
            else if bytes_eqb name (str "boolValue") then
              let? (raw, p) := skip_value p in
              if bytes_eqb raw (str "true") || bytes_eqb raw (str "false") then Ok p else Fallback
            else if bytes_eqb name (str "intValue") then
              let? (s, p) := JsonRead.string p in
              let? _ := canonical_integer (cow_bytes s) in Ok p
            else if bytes_eqb name (str "doubleValue") then
              let? (raw, p) := skip_value p in
              let? _ := double raw in Ok p
            else if bytes_eqb name (str "bytesValue") then
              let? (s, p) := JsonRead.string p in
              if base64 (cow_bytes s) then Ok p else Fallback
            else if bytes_eqb name (str "arrayValue") then
              values p (level + 1) (fun p =>
                let? p := open p (level + 2) 91 in
                let? (more, p) := array_rest p in
                if more then array_values fuel p depth level else Ok p)
            else if bytes_eqb name (str "kvlistValue") then
              values p (level + 1) (fun p => let? (_, p) := attributes_at fuel p (depth + 1) (level + 2) in Ok p)
            else Fallback in
          let? (more, p) := object_next p in
          if more then Fallback else Ok p
  end
with array_values (fuel : nat) (p : Parser) (depth level : Z) {struct fuel} : Res Parser :=
  match fuel with
  | O => Fuel
  | S fuel =>
      let? p := any_value fuel p (depth + 1) (level + 3) in
      let? (more, p) := array_next p in
      if more then array_values fuel p depth level else Ok p
  end
with attributes_at (fuel : nat) (p : Parser) (depth level : Z) {struct fuel} : Res (Z * Parser) :=
  match fuel with
  | O => Fuel
  | S fuel =>
      let? p := open p level 91 in
      let? (more, p) := array_rest p in
      let? (keys, p) := if more then pairs_loop fuel p depth level [] else Ok ([], p) in
      if repeated keys then Fallback else Ok (len keys, p)
  end
with pairs_loop (fuel : nat) (p : Parser) (depth level : Z) (keys : list bytes) {struct fuel} : Res (list bytes * Parser) :=
  match fuel with
  | O => Fuel
  | S fuel =>
      let? p := open p (level + 1) 123 in
      let? (more, p) := object_open p in
      if negb more then Fallback
      else
        let? (k, v, p) := pair_loop fuel p depth level None false in
        if negb v then Fallback
        else
          let? k := ok_or k tt in
          let keys := keys ++ [k] in
          let? (more, p) := array_next p in
          if more then pairs_loop fuel p depth level keys else Ok (keys, p)
  end
with pair_loop (fuel : nat) (p : Parser) (depth level : Z) (k : option bytes) (v : bool) {struct fuel} : Res (option bytes * bool * Parser) :=
  match fuel with
  | O => Fuel
  | S fuel =>
      let? (name, p) := JsonRead.string p in
      let? p := colon p in
      let? (k, v, p) :=
        if bytes_eqb (cow_bytes name) (str "key") && negb (is_some k) then
          let? (s, p) := JsonRead.string p in
          if len (cow_bytes s) =? 0 then Fallback else Ok (Some (cow_bytes s), v, p)
        else if bytes_eqb (cow_bytes name) (str "value") && negb v then
          let? p := any_value fuel p depth (level + 2) in Ok (k, true, p)
        else Fallback in
      let? (more, p) := object_next p in
      if more then pair_loop fuel p depth level k v else Ok (k, v, p)
  end.

Definition pass_fuel (p : Parser) : nat := S (length p.(jbuf)).

Definition attributes (p : Parser) (depth level : Z) : Res (Z * Parser) := attributes_at (pass_fuel p) p depth level.

Fixpoint owners_loop (fuel : nat) (p : Parser) (count : Z) : Res (Z * Parser) :=
  match fuel with
  | O => Fuel
  | S fuel =>
      let? (_, p) := attributes p 0 3 in
      let? (more, p) := array_next p in
      if more then owners_loop fuel p (count + 1) else Ok (count + 1, p)
  end.

Definition owners (p : Parser) : Res (Z * Parser) :=
  let? p := open p 2 91 in
  let? (more, p) := array_rest p in
  if more then owners_loop (pass_fuel p) p 0 else Ok (0, p).

(** The variables of the envelope loop. *)
Record Seen : Type := mkSeen { s_seen : Z; s_events : Z; s_links : Z; s_members : RawFields; s_resource : Z; s_span : Z }.

Definition member_bit (name : bytes) : option Z :=
  if bytes_eqb name (str "version") then Some 1
  else if bytes_eqb name (str "resource") then Some 2
  else if bytes_eqb name (str "scope") then Some 4
  else if bytes_eqb name (str "attributes") then Some 8
  else if bytes_eqb name (str "events") then Some 16
  else if bytes_eqb name (str "links") then Some 32
  else None.

(** [match bit { ... }]: the member's value. *)
Definition member_value (bit : Z) (p : Parser) (x : Seen) : Res (Seen * Parser) :=
  if bit =? 1 then
    let? (raw, p) := skip_value p in
    if bytes_eqb raw (str "1") then Ok (x, p) else Fallback
  else if bit =? 16 then
    let? (n, p) := owners p in Ok (mkSeen x.(s_seen) n x.(s_links) x.(s_members) x.(s_resource) x.(s_span), p)
  else if bit =? 32 then
    let? (n, p) := owners p in Ok (mkSeen x.(s_seen) x.(s_events) n x.(s_members) x.(s_resource) x.(s_span), p)
  else
    let? (n, p) := attributes p 0 2 in
    if bit =? 2 then Ok (mkSeen x.(s_seen) x.(s_events) x.(s_links) x.(s_members) n x.(s_span), p)
    else if bit =? 8 then Ok (mkSeen x.(s_seen) x.(s_events) x.(s_links) x.(s_members) x.(s_resource) n, p)
    else Ok (x, p).

Fixpoint envelope_loop (fuel : nat) (p : Parser) (payload : bytes) (x : Seen) : Res (Seen * Parser) :=
  match fuel with
  | O => Fuel
  | S fuel =>
      let? (name, p) := JsonRead.string p in
      let? p := colon p in
      let start := p.(jpos) in
      let? bit := ok_or (member_bit (cow_bytes name)) tt in
      if negb (Z.land x.(s_seen) bit =? 0) then Fallback
      else
        let x := mkSeen (Z.lor x.(s_seen) bit) x.(s_events) x.(s_links) x.(s_members) x.(s_resource) x.(s_span) in
        let? (x, p) := member_value bit p x in
        let x := mkSeen x.(s_seen) x.(s_events) x.(s_links) (x.(s_members) ++ [(name, slice payload start p.(jpos))]) x.(s_resource) x.(s_span) in
        let? (more, p) := object_next p in
        if more then envelope_loop fuel p payload x else Ok (x, p)
  end.

Definition envelope (p : Parser) (payload : bytes) : Res (Z * Z * Envelope * Parser) :=
  let? p := open p 1 123 in
  let? (more, p) := object_open p in
  let? (x, p) := if more then envelope_loop (pass_fuel p) p payload (mkSeen 0 0 0 [] 0 0) else Ok (mkSeen 0 0 0 [] 0 0, p) in
  if negb (x.(s_seen) =? 63) then Fallback
  else Ok (x.(s_events), x.(s_links), mkEnvelope x.(s_members) x.(s_resource) x.(s_span), p).

(** The value of one member of the payload. *)
Definition payload_member (p : Parser) (payload : bytes) (name : bytes) (typed : Typed) : Res (Typed * Parser) :=
  if negb (bytes_eqb name (str "otlp")) then let? (_, p) := skip_value p in Ok (typed, p)
  else if is_some typed then Fallback
  else
    let? c := peek p in
    if c =? 110 then let? (_, p) := skip_value p in Ok (Some None, p)
    else let? (events, links, e, p) := envelope p payload in Ok (Some (Some (events, links, e)), p).

Fixpoint parts_loop (fuel : nat) (p : Parser) (payload : bytes) (fields : RawFields) (typed : Typed) : Res (RawFields * Typed * Parser) :=
  match fuel with
  | O => Fuel
  | S fuel =>
      let? (name, p) := JsonRead.string p in
      let? p := colon p in
      let start := p.(jpos) in
      let? (typed, p) := payload_member p payload (cow_bytes name) typed in
      let fields := fields ++ [(name, slice payload start p.(jpos))] in
      let? (more, p) := object_next p in
      if more then parts_loop fuel p payload fields typed else Ok (fields, typed, p)
  end.

Definition parts (p : Parser) (payload : bytes) : Res (RawFields * option Envelope) :=
  let p := ws p in
  let? p := expect p 123 in
  let? (more, p) := object_open p in
  let? (fields, typed, p) := if more then parts_loop (pass_fuel p) p payload [] None else Ok ([], None, p) in
  let p := ws p in
  let? _ := jend p in
  match typed with
  | Some (Some (events, links, e)) =>
      let? raw := first_field fields (str "events") in
      let? l := whole_array raw in
      if negb (events =? len l) then Fallback
      else
        let? raw := first_field fields (str "links") in
        let? m := whole_array raw in
        if negb (links =? len m) then Fallback else Ok (fields, Some e)
  | _ => Ok (fields, None)
  end.

Definition validated_parts (payload : bytes) : Res (RawFields * option Envelope) := parts (Parser_new payload) payload.
Definition validated_parts_utf8 (payload : bytes) : Res (RawFields * option Envelope) := parts (Parser_new_utf8 payload) payload.
Definition validated_fields (payload : bytes) : Res RawFields := let? (fields, _) := validated_parts payload in Ok fields.
Definition validate (payload : bytes) : Res unit := let? _ := validated_fields payload in Ok tt.

(** * The pass moves forward and ends *)

Lemma open_moved p level c q : in_bounds p -> open p level c = Ok q -> moved 1 p q.
Proof.
  unfold open. intros Hp E. destruct (_ <? _); [done|]. pose proof (ws_moved p Hp) as Hm. into_bounds. apply expect_moved in E; [|done]. by apply (moved_trans 0 1 p (ws p)).
Qed.

Lemma open_not_fuel p level c : open p level c <> Fuel.
Proof. unfold open. destruct (_ <? _); [done|]. apply expect_not_fuel. Qed.
Lemma array_rest_not_fuel p : array_rest p <> Fuel.
Proof. unfold array_rest. pose proof (peek_not_fuel (ws p)). destruct (peek (ws p)); [|done..]. by destruct (_ =? _). Qed.
Lemma array_next_not_fuel p : array_next p <> Fuel.
Proof. unfold array_next. pose proof (peek_not_fuel (ws p)). destruct (peek (ws p)); [|done..]. destruct (_ =? _); [done|]. by destruct (_ =? _). Qed.

(** Chain the movements of a sequence of scanners. *)
Ltac chain :=
  repeat match goal with
  | H1 : moved ?n ?p ?q, H2 : moved ?m ?q ?r |- _ => pose proof (moved_trans n m p q r H1 H2); clear H2
  end.
Ltac finish_moved := first [eapply moved_weaken; [|eassumption]; lia | chain; eapply moved_weaken; [|eassumption]; lia].

Definition value_moves (fuel : nat) : Prop := forall p depth level q, in_bounds p -> any_value fuel p depth level = Ok q -> moved 1 p q.
Definition values_move (fuel : nat) : Prop := forall p depth level q, in_bounds p -> array_values fuel p depth level = Ok q -> moved 1 p q.
Definition attributes_move (fuel : nat) : Prop := forall p depth level n q, in_bounds p -> attributes_at fuel p depth level = Ok (n, q) -> moved 1 p q.
Definition pairs_move (fuel : nat) : Prop := forall p depth level keys keys' q, in_bounds p -> pairs_loop fuel p depth level keys = Ok (keys', q) -> moved 1 p q.
Definition pair_moves (fuel : nat) : Prop := forall p depth level k v k' v' q, in_bounds p -> pair_loop fuel p depth level k v = Ok (k', v', q) -> moved 1 p q.

Lemma values_moved p level inner q : in_bounds p -> (forall r q, in_bounds r -> inner r = Ok q -> moved 1 r q) -> values p level inner = Ok q -> moved 1 p q.
Proof.
  intros Hp Hi E. unfold values in E. destruct (open p level 123) as [p1| |] eqn:E1; [|done..]. apply open_moved in E1; [|done]. into_bounds.
  destruct (object_open p1) as [[more p2]| |] eqn:E2; [|done..]. apply object_open_moved in E2; [|done]. into_bounds. destruct (negb more); [done|].
  destruct (JsonRead.string p2) as [[name p3]| |] eqn:E3; [|done..]. apply string_moved in E3; [|done]. into_bounds. destruct (negb _); [done|].
  destruct (colon p3) as [p4| |] eqn:E4; [|done..]. apply colon_moved in E4; [|done]. into_bounds. destruct (inner p4) as [p5| |] eqn:E5; [|done..]. apply Hi in E5; [|done]. into_bounds.
  destruct (object_next p5) as [[m p6]| |] eqn:E6; [|done..]. apply object_next_moved in E6; [|done]. destruct m; [done|]. injection E as <-. finish_moved.
Qed.

Lemma pass_moves fuel : value_moves fuel /\ values_move fuel /\ attributes_move fuel /\ pairs_move fuel /\ pair_moves fuel.
Proof.
  induction fuel as [|fuel (HV & HL & HA & HP & HQ)]; [split_and!; intros p; intros; done|]. split_and!.
  - intros p depth level q Hp E. simpl in E. destruct (_ <? _); [done|]. destruct (open p level 123) as [p1| |] eqn:E1; [|done..]. apply open_moved in E1; [|done]. into_bounds.
    destruct (object_open p1) as [[more p2]| |] eqn:E2; [|done..]. apply object_open_moved in E2; [|done]. into_bounds. destruct (negb more); [injection E as <-; finish_moved|].
    destruct (JsonRead.string p2) as [[name p3]| |] eqn:E3; [|done..]. apply string_moved in E3; [|done]. into_bounds. destruct (colon p3) as [p4| |] eqn:E4; [|done..]. apply colon_moved in E4; [|done]. into_bounds.
    match type of E with (match ?e with _ => _ end) = _ => destruct e as [p5| |] eqn:E5; [|done..] end.
    assert (Hm5 : moved 1 p4 p5).
    { repeat match type of E5 with (if ?c then _ else _) = _ => destruct c end; [..|done].
      - destruct (JsonRead.string p4) as [[s p6]| |] eqn:E6; [|done..]. apply string_moved in E6; [|done]. injection E5 as <-. finish_moved.
      - destruct (skip_value p4) as [[raw p6]| |] eqn:E6; [|done..]. apply skip_value_moved in E6 as [E6 _]; [|done]. destruct (_ || _); [|done]. by injection E5 as <-.
      - destruct (JsonRead.string p4) as [[s p6]| |] eqn:E6; [|done..]. apply string_moved in E6; [|done]. destruct (canonical_integer _); [|done..]. injection E5 as <-. finish_moved.
      - destruct (skip_value p4) as [[raw p6]| |] eqn:E6; [|done..]. apply skip_value_moved in E6 as [E6 _]; [|done]. destruct (double raw); [|done..]. by injection E5 as <-.
      - destruct (JsonRead.string p4) as [[s p6]| |] eqn:E6; [|done..]. apply string_moved in E6; [|done]. destruct (base64 _); [|done]. injection E5 as <-. finish_moved.
      - eapply values_moved; [done| |exact E5]. intros r q' Hr Ei. cbv beta in Ei. destruct (open r _ 91) as [r1| |] eqn:F1; [|done..]. apply open_moved in F1; [|done]. into_bounds.
        destruct (array_rest r1) as [[m r2]| |] eqn:F2; [|done..]. apply array_rest_moved in F2; [|done]. into_bounds. destruct m; [|injection Ei as <-; finish_moved]. apply HL in Ei; [|done]. finish_moved.
      - eapply values_moved; [done| |exact E5]. intros r q' Hr Ei. cbv beta in Ei. destruct (attributes_at fuel r _ _) as [[n r1]| |] eqn:F1; [|done..]. injection Ei as <-. by eapply HA. }
    into_bounds. destruct (object_next p5) as [[m p6]| |] eqn:E6; [|done..]. apply object_next_moved in E6; [|done]. destruct m; [done|]. injection E as <-. finish_moved.
  - intros p depth level q Hp E. simpl in E. destruct (any_value fuel p _ _) as [p1| |] eqn:E1; [|done..]. apply HV in E1; [|done]. into_bounds.
    destruct (array_next p1) as [[m p2]| |] eqn:E2; [|done..]. apply array_next_moved in E2; [|done]. into_bounds. destruct m; [apply HL in E; [|done]|injection E as <-]; finish_moved.
  - intros p depth level n q Hp E. simpl in E. destruct (open p level 91) as [p1| |] eqn:E1; [|done..]. apply open_moved in E1; [|done]. into_bounds.
    destruct (array_rest p1) as [[m p2]| |] eqn:E2; [|done..]. apply array_rest_moved in E2; [|done]. into_bounds. destruct m.
    + destruct (pairs_loop fuel p2 _ _ _) as [[keys p3]| |] eqn:E3; [|done..]. apply HP in E3; [|done]. destruct (repeated keys); [done|]. injection E as <- <-. finish_moved.
    + destruct (repeated []); [done|]. injection E as <- <-. finish_moved.
  - intros p depth level keys keys' q Hp E. simpl in E. destruct (open p _ 123) as [p1| |] eqn:E1; [|done..]. apply open_moved in E1; [|done]. into_bounds.
    destruct (object_open p1) as [[more p2]| |] eqn:E2; [|done..]. apply object_open_moved in E2; [|done]. into_bounds. destruct (negb more); [done|].
    destruct (pair_loop fuel p2 _ _ _ _) as [[[k v] p3]| |] eqn:E3; [|done..]. apply HQ in E3; [|done]. into_bounds. destruct (negb v); [done|]. destruct k as [k|]; [|done]. cbn [ok_or] in E.
    destruct (array_next p3) as [[m p4]| |] eqn:E4; [|done..]. apply array_next_moved in E4; [|done]. into_bounds. destruct m; [apply HP in E; [|done]|injection E as <- <-]; finish_moved.
  - intros p depth level k v k' v' q Hp E. simpl in E. destruct (JsonRead.string p) as [[name p1]| |] eqn:E1; [|done..]. apply string_moved in E1; [|done]. into_bounds.
    destruct (colon p1) as [p2| |] eqn:E2; [|done..]. apply colon_moved in E2; [|done]. into_bounds. match type of E with (match ?e with _ => _ end) = _ => destruct e as [[[k1 v1] p3]| |] eqn:E3; [|done..] end.
    assert (Hm3 : moved 1 p2 p3).
    { destruct (_ && _) in E3; [|destruct (_ && _) in E3; [|done]].
      - destruct (JsonRead.string p2) as [[s p6]| |] eqn:E6; [|done..]. apply string_moved in E6; [|done]. destruct (_ =? _); [done|]. injection E3 as <- <- <-. finish_moved.
      - destruct (any_value fuel p2 _ _) as [p6| |] eqn:E6; [|done..]. injection E3 as <- <- <-. by eapply HV. }
    into_bounds. destruct (object_next p3) as [[m p4]| |] eqn:E4; [|done..]. apply object_next_moved in E4; [|done]. into_bounds. destruct m; [apply HQ in E; [|done]|injection E as <- <- <-]; finish_moved.
Qed.

Lemma moved_less n p q : moved n p q -> remaining q <= remaining p - n.
Proof. intros Hm. apply moved_remaining in Hm. unfold remaining. lia. Qed.

(** Remaining input along the movements noted so far. *)
Ltac less := repeat match goal with Hm : moved _ _ _ |- _ => apply moved_less in Hm end; lia.

#[local] Instance Key_total : BuilderTotal KeyBuilder bytes.
Proof. constructor; try done. intros b ks vs. cbn. unfold key_object. by destruct (existsb _ _). Qed.

Lemma key_not_fuel raw : key raw <> Fuel.
Proof.
  unfold key, document, document_with. pose proof (document_in_not_fuel (Parser_new raw) key_builder Stacks_new ordinary (new_in_bounds raw)).
  by destruct (document_in _ _ _ _) as [[[[v p] b] st]| |].
Qed.

Lemma whole_string_not_fuel raw : whole_string raw <> Fuel.
Proof.
  unfold whole_string. pose proof (string_not_fuel _ (new_in_bounds raw)). destruct (JsonRead.string _) as [[value p]| |]; [|done..]. pose proof (jend_not_fuel (ws p)). by destruct (jend (ws p)).
Qed.

Lemma double_not_fuel raw : double raw <> Fuel.
Proof.
  unfold double. case_bool_decide.
  - pose proof (whole_string_not_fuel raw). destruct (whole_string raw); [|done..]. by repeat case_match.
  - pose proof (key_not_fuel raw). destruct (key raw) as [k| |]; [|done..]. destruct (head k); [|done]. destruct (_ || _); [|done]. destruct (negb _); [done|]. destruct (f64_from_str raw); [|done]. cbn. by destruct (f64_is_finite _).
Qed.

Lemma canonical_not_fuel v : canonical_integer v <> Fuel.
Proof. unfold canonical_integer. destruct (negb _); [done|]. destruct (parse_i64 v); [|done]. cbn [ok_or]. by destruct (_ || _). Qed.

Lemma values_ends p level inner : in_bounds p -> (forall r, in_bounds r -> remaining r < remaining p -> inner r <> Fuel) -> values p level inner <> Fuel.
Proof.
  intros Hp Hi. unfold values. pose proof (open_not_fuel p level 123). destruct (open p level 123) as [p1| |] eqn:E1; [|done..]. apply open_moved in E1; [|done]. into_bounds.
  pose proof (object_open_not_fuel p1). destruct (object_open p1) as [[more p2]| |] eqn:E2; [|done..]. apply object_open_moved in E2; [|done]. into_bounds. destruct (negb more); [done|].
  pose proof (string_not_fuel p2 ltac:(done)). destruct (JsonRead.string p2) as [[name p3]| |] eqn:E3; [|done..]. apply string_moved in E3; [|done]. into_bounds. destruct (negb _); [done|].
  pose proof (colon_not_fuel p3). destruct (colon p3) as [p4| |] eqn:E4; [|done..]. apply colon_moved in E4; [|done]. into_bounds.
  assert (Hn : inner p4 <> Fuel) by (apply Hi; [done|less]). destruct (inner p4) as [p5| |]; [|done..]. pose proof (object_next_not_fuel p5). destruct (object_next p5) as [[m p6]| |]; [|done..]. by destruct m.
Qed.

Definition bounded_input (fuel : nat) (p : Parser) : Prop := in_bounds p /\ remaining p < Z.of_nat fuel.

Lemma pass_ends fuel : forall p, bounded_input fuel p ->
  (forall depth level, any_value fuel p depth level <> Fuel) /\ (forall depth level, remaining p + 1 < Z.of_nat fuel -> array_values fuel p depth level <> Fuel) /\
  (forall depth level, attributes_at fuel p depth level <> Fuel) /\ (forall depth level keys, pairs_loop fuel p depth level keys <> Fuel) /\
  (forall depth level k v, pair_loop fuel p depth level k v <> Fuel).
Proof.
  induction fuel as [|fuel IH]; intros p [Hp Hr]; [unfold remaining, in_bounds in *; lia|].
  assert (HV : forall q depth level, in_bounds q -> remaining q < Z.of_nat fuel -> any_value fuel q depth level <> Fuel) by (intros q depth level Hq Hrq; by apply IH).
  assert (HL : forall q depth level, in_bounds q -> remaining q + 1 < Z.of_nat fuel -> array_values fuel q depth level <> Fuel) by (intros q depth level Hq Hrq; apply (IH q); [split; [done|lia]|done]).
  assert (HA : forall q depth level, in_bounds q -> remaining q < Z.of_nat fuel -> attributes_at fuel q depth level <> Fuel) by (intros q depth level Hq Hrq; by apply IH).
  assert (HP : forall q depth level keys, in_bounds q -> remaining q < Z.of_nat fuel -> pairs_loop fuel q depth level keys <> Fuel) by (intros q depth level keys Hq Hrq; by apply IH).
  assert (HQ : forall q depth level k v, in_bounds q -> remaining q < Z.of_nat fuel -> pair_loop fuel q depth level k v <> Fuel) by (intros q depth level k v Hq Hrq; by apply IH).
  clear IH. destruct (pass_moves fuel) as (MV & ML & MA & MP & MQ). split_and!; intros depth level; simpl.
  - destruct (128 <? depth); [done|]. pose proof (open_not_fuel p level 123). destruct (open p level 123) as [p1| |] eqn:E1; [|done..]. apply open_moved in E1; [|done]. into_bounds.
    pose proof (object_open_not_fuel p1). destruct (object_open p1) as [[more p2]| |] eqn:E2; [|done..]. apply object_open_moved in E2; [|done]. into_bounds. destruct (negb more); [done|].
    pose proof (string_not_fuel p2 ltac:(done)). destruct (JsonRead.string p2) as [[name p3]| |] eqn:E3; [|done..]. apply string_moved in E3; [|done]. into_bounds.
    pose proof (colon_not_fuel p3). destruct (colon p3) as [p4| |] eqn:E4; [|done..]. apply colon_moved in E4; [|done]. into_bounds.
    assert (H4r : remaining p4 < Z.of_nat fuel) by less.
    match goal with |- (match ?e with _ => _ end) <> Fuel => assert (Hn : e <> Fuel) end.
    { destruct (bytes_eqb _ (str "stringValue")); [pose proof (string_not_fuel p4 ltac:(done)); by destruct (JsonRead.string p4) as [[]| |]|].
      destruct (bytes_eqb _ (str "boolValue")); [pose proof (skip_value_not_fuel p4 ltac:(done)); destruct (skip_value p4) as [[raw ?]| |]; [|done..]; by destruct (bytes_eqb raw _ || _)|].
      destruct (bytes_eqb _ (str "intValue")); [pose proof (string_not_fuel p4 ltac:(done)); destruct (JsonRead.string p4) as [[s ?]| |]; [|done..]; pose proof (canonical_not_fuel (cow_bytes s)); by destruct (canonical_integer _)|].
      destruct (bytes_eqb _ (str "doubleValue")); [pose proof (skip_value_not_fuel p4 ltac:(done)); destruct (skip_value p4) as [[raw ?]| |]; [|done..]; pose proof (double_not_fuel raw); by destruct (double raw)|].
      destruct (bytes_eqb _ (str "bytesValue")); [pose proof (string_not_fuel p4 ltac:(done)); destruct (JsonRead.string p4) as [[s ?]| |]; [|done..]; by destruct (base64 _)|].
      destruct (bytes_eqb _ (str "arrayValue")).
      { apply values_ends; [done|]. intros r Hrb Hrr. pose proof (open_not_fuel r (level + 2) 91). destruct (open r _ 91) as [r1| |] eqn:F1; [|done..]. apply open_moved in F1; [|done]. into_bounds.
        pose proof (array_rest_not_fuel r1). destruct (array_rest r1) as [[m r2]| |] eqn:F2; [|done..]. apply array_rest_moved in F2; [|done]. into_bounds. destruct m; [|done]. apply HL; [done|less]. }
      destruct (bytes_eqb _ (str "kvlistValue")); [|done]. apply values_ends; [done|]. intros r Hrb Hrr. pose proof (HA r (depth + 1) (level + 2) Hrb ltac:(lia)). by destruct (attributes_at _ _ _ _) as [[]| |]. }
    match goal with |- (match ?e with _ => _ end) <> Fuel => destruct e as [p5| |]; [|done..] end. pose proof (object_next_not_fuel p5). destruct (object_next p5) as [[m p6]| |]; [|done..]. by destruct m.
  - intros Hr1. pose proof (HV p (depth + 1) (level + 3) Hp ltac:(lia)). destruct (any_value fuel p _ _) as [p1| |] eqn:E1; [|done..]. apply MV in E1; [|done]. into_bounds.
    pose proof (array_next_not_fuel p1). destruct (array_next p1) as [[m p2]| |] eqn:E2; [|done..]. apply array_next_moved in E2; [|done]. into_bounds. destruct m; [|done]. apply HL; [done|less].
  - pose proof (open_not_fuel p level 91). destruct (open p level 91) as [p1| |] eqn:E1; [|done..]. apply open_moved in E1; [|done]. into_bounds.
    pose proof (array_rest_not_fuel p1). destruct (array_rest p1) as [[m p2]| |] eqn:E2; [|done..]. apply array_rest_moved in E2; [|done]. into_bounds. destruct m; [|by destruct (repeated [])].
    assert (Hn : pairs_loop fuel p2 depth level [] <> Fuel) by (apply HP; [done|less]). destruct (pairs_loop fuel p2 _ _ _) as [[keys p3]| |]; [|done..]. by destruct (repeated keys).
  - intros keys. pose proof (open_not_fuel p (level + 1) 123). destruct (open p _ 123) as [p1| |] eqn:E1; [|done..]. apply open_moved in E1; [|done]. into_bounds.
    pose proof (object_open_not_fuel p1). destruct (object_open p1) as [[more p2]| |] eqn:E2; [|done..]. apply object_open_moved in E2; [|done]. into_bounds. destruct (negb more); [done|].
    assert (Hn : pair_loop fuel p2 depth level None false <> Fuel) by (apply HQ; [done|less]). destruct (pair_loop fuel p2 _ _ _ _) as [[[k v] p3]| |] eqn:E3; [|done..]. apply MQ in E3; [|done]. into_bounds.
    destruct (negb v); [done|]. destruct k as [k|]; [|done]. cbn [ok_or]. pose proof (array_next_not_fuel p3). destruct (array_next p3) as [[m p4]| |] eqn:E4; [|done..]. apply array_next_moved in E4; [|done]. into_bounds.
    destruct m; [|done]. apply HP; [done|less].
  - intros k v. pose proof (string_not_fuel p Hp). destruct (JsonRead.string p) as [[name p1]| |] eqn:E1; [|done..]. apply string_moved in E1; [|done]. into_bounds.
    pose proof (colon_not_fuel p1). destruct (colon p1) as [p2| |] eqn:E2; [|done..]. apply colon_moved in E2; [|done]. into_bounds.
    match goal with |- (match ?e with _ => _ end) <> Fuel => assert (Hn : e <> Fuel /\ forall k' v' p3, e = Ok (k', v', p3) -> moved 1 p2 p3) end.
    { destruct (_ && _); [|destruct (_ && _); [|done]].
      - pose proof (string_not_fuel p2 ltac:(done)). destruct (JsonRead.string p2) as [[s p6]| |] eqn:E6; [|done..]. apply string_moved in E6; [|done]. destruct (_ =? _); [done|]. split; [done|]. intros k' v' p3 [= <- <- <-]. finish_moved.
      - assert (Hn : any_value fuel p2 depth (level + 2) <> Fuel) by (apply HV; [done|less]). destruct (any_value fuel p2 _ _) as [p6| |] eqn:E6; [|done..]. split; [done|]. intros k' v' p3 [= <- <- <-]. by eapply MV. }
    match goal with |- (match ?e with _ => _ end) <> Fuel => destruct e as [[[k1 v1] p3]| |]; [|by destruct Hn..] end. destruct Hn as [_ Hm3]. specialize (Hm3 _ _ _ eq_refl). into_bounds.
    pose proof (object_next_not_fuel p3). destruct (object_next p3) as [[m p4]| |] eqn:E4; [|done..]. apply object_next_moved in E4; [|done]. into_bounds. destruct m; [|done]. apply HQ; [done|less].
Qed.

Lemma attributes_moved p depth level n q : in_bounds p -> attributes p depth level = Ok (n, q) -> moved 1 p q.
Proof. intros Hp. by apply (pass_moves (pass_fuel p)). Qed.

Lemma attributes_ends p depth level : in_bounds p -> attributes p depth level <> Fuel.
Proof. intros Hp. apply (pass_ends (pass_fuel p)). split; [done|]. unfold pass_fuel, remaining, in_bounds, len in *. lia. Qed.

Lemma owners_loop_moved fuel p count n q : in_bounds p -> owners_loop fuel p count = Ok (n, q) -> moved 1 p q.
Proof.
  revert p count. induction fuel as [|fuel IH]; intros p count Hp E; cbn [owners_loop] in E; [done|]. destruct (attributes p 0 3) as [[m p1]| |] eqn:E1; [|done..]. apply attributes_moved in E1; [|done]. into_bounds.
  destruct (array_next p1) as [[more p2]| |] eqn:E2; [|done..]. apply array_next_moved in E2; [|done]. into_bounds. destruct more; [apply IH in E; [|done]|injection E as <- <-]; finish_moved.
Qed.

Lemma owners_loop_ends fuel p count : bounded_input fuel p -> owners_loop fuel p count <> Fuel.
Proof.
  revert p count. induction fuel as [|fuel IH]; intros p count [Hp Hr]; [unfold remaining, in_bounds in *; lia|]. cbn [owners_loop]. pose proof (attributes_ends p 0 3 Hp).
  destruct (attributes p 0 3) as [[m p1]| |] eqn:E1; [|done..]. apply attributes_moved in E1; [|done]. into_bounds. pose proof (array_next_not_fuel p1).
  destruct (array_next p1) as [[more p2]| |] eqn:E2; [|done..]. apply array_next_moved in E2; [|done]. into_bounds. destruct more; [|done]. apply IH. split; [done|less].
Qed.

Lemma full_input p : in_bounds p -> bounded_input (pass_fuel p) p.
Proof. intros Hp. split; [done|]. unfold pass_fuel, remaining, in_bounds, len in *. lia. Qed.

Lemma owners_moved p n q : in_bounds p -> owners p = Ok (n, q) -> moved 1 p q.
Proof.
  intros Hp E. unfold owners in E. destruct (open p 2 91) as [p1| |] eqn:E1; [|done..]. apply open_moved in E1; [|done]. into_bounds.
  destruct (array_rest p1) as [[more p2]| |] eqn:E2; [|done..]. apply array_rest_moved in E2; [|done]. into_bounds. destruct more; [apply owners_loop_moved in E; [|done]|injection E as <- <-]; finish_moved.
Qed.

Lemma owners_ends p : in_bounds p -> owners p <> Fuel.
Proof.
  intros Hp. unfold owners. pose proof (open_not_fuel p 2 91). destruct (open p 2 91) as [p1| |] eqn:E1; [|done..]. apply open_moved in E1; [|done]. into_bounds. pose proof (array_rest_not_fuel p1).
  destruct (array_rest p1) as [[more p2]| |] eqn:E2; [|done..]. apply array_rest_moved in E2; [|done]. into_bounds. destruct more; [|done]. by apply owners_loop_ends, full_input.
Qed.

Lemma member_value_moved bit p x y q : in_bounds p -> member_value bit p x = Ok (y, q) -> moved 1 p q.
Proof.
  intros Hp E. unfold member_value in E. destruct (bit =? 1).
  { destruct (skip_value p) as [[raw p1]| |] eqn:E1; [|done..]. apply skip_value_moved in E1 as [E1 _]; [|done]. destruct (bytes_eqb raw _); [|done]. by injection E as <- <-. }
  destruct (bit =? 16); [destruct (owners p) as [[n p1]| |] eqn:E1; [|done..]; injection E as <- <-; by apply owners_moved in E1|].
  destruct (bit =? 32); [destruct (owners p) as [[n p1]| |] eqn:E1; [|done..]; injection E as <- <-; by apply owners_moved in E1|].
  destruct (attributes p 0 2) as [[n p1]| |] eqn:E1; [|done..]. apply attributes_moved in E1; [|done]. destruct (bit =? 2); [by injection E as <- <-|]. destruct (bit =? 8); by injection E as <- <-.
Qed.

Lemma member_value_ends bit p x : in_bounds p -> member_value bit p x <> Fuel.
Proof.
  intros Hp. unfold member_value. destruct (bit =? 1); [pose proof (skip_value_not_fuel p Hp); destruct (skip_value p) as [[raw p1]| |]; [|done..]; by destruct (bytes_eqb raw _)|].
  destruct (bit =? 16); [pose proof (owners_ends p Hp); by destruct (owners p) as [[]| |]|]. destruct (bit =? 32); [pose proof (owners_ends p Hp); by destruct (owners p) as [[]| |]|].
  pose proof (attributes_ends p 0 2 Hp). destruct (attributes p 0 2) as [[n p1]| |]; [|done..]. destruct (bit =? 2); [done|]. by destruct (bit =? 8).
Qed.

Lemma envelope_loop_moved fuel p payload x y q : in_bounds p -> envelope_loop fuel p payload x = Ok (y, q) -> moved 1 p q.
Proof.
  revert p x. induction fuel as [|fuel IH]; intros p x Hp E; cbn [envelope_loop] in E; [done|]. destruct (JsonRead.string p) as [[name p1]| |] eqn:E1; [|done..]. apply string_moved in E1; [|done]. into_bounds.
  destruct (colon p1) as [p2| |] eqn:E2; [|done..]. apply colon_moved in E2; [|done]. into_bounds. destruct (member_bit _) as [bit|]; [|done]. cbn [ok_or] in E. destruct (negb _); [done|].
  destruct (member_value bit p2 _) as [[z p3]| |] eqn:E3; [|done..]. apply member_value_moved in E3; [|done]. into_bounds.
  destruct (object_next p3) as [[more p4]| |] eqn:E4; [|done..]. apply object_next_moved in E4; [|done]. into_bounds. destruct more; [apply IH in E; [|done]|injection E as <- <-]; finish_moved.
Qed.

Lemma envelope_loop_ends fuel p payload x : bounded_input fuel p -> envelope_loop fuel p payload x <> Fuel.
Proof.
  revert p x. induction fuel as [|fuel IH]; intros p x [Hp Hr]; [unfold remaining, in_bounds in *; lia|]. cbn [envelope_loop]. pose proof (string_not_fuel p Hp).
  destruct (JsonRead.string p) as [[name p1]| |] eqn:E1; [|done..]. apply string_moved in E1; [|done]. into_bounds. pose proof (colon_not_fuel p1).
  destruct (colon p1) as [p2| |] eqn:E2; [|done..]. apply colon_moved in E2; [|done]. into_bounds. destruct (member_bit _) as [bit|]; [|done]. cbn [ok_or]. destruct (negb _); [done|].
  match goal with |- context[member_value bit p2 ?x] => pose proof (member_value_ends bit p2 x ltac:(done)); destruct (member_value bit p2 x) as [[z p3]| |] eqn:E3; [|done..] end.
  apply member_value_moved in E3; [|done]. into_bounds. pose proof (object_next_not_fuel p3).
  destruct (object_next p3) as [[more p4]| |] eqn:E4; [|done..]. apply object_next_moved in E4; [|done]. into_bounds. destruct more; [|done]. apply IH. split; [done|less].
Qed.

Lemma envelope_moved p payload a b e q : in_bounds p -> envelope p payload = Ok (a, b, e, q) -> moved 1 p q.
Proof.
  intros Hp E. unfold envelope in E. destruct (open p 1 123) as [p1| |] eqn:E1; [|done..]. apply open_moved in E1; [|done]. into_bounds.
  destruct (object_open p1) as [[more p2]| |] eqn:E2; [|done..]. apply object_open_moved in E2; [|done]. into_bounds. destruct more.
  - destruct (envelope_loop _ _ _ _) as [[y p3]| |] eqn:E3; [|done..]. apply envelope_loop_moved in E3; [|done]. destruct (negb _); [done|]. injection E as <- <- <- <-. finish_moved.
  - by vm_compute in E.
Qed.

Lemma envelope_ends p payload : in_bounds p -> envelope p payload <> Fuel.
Proof.
  intros Hp. unfold envelope. pose proof (open_not_fuel p 1 123). destruct (open p 1 123) as [p1| |] eqn:E1; [|done..]. apply open_moved in E1; [|done]. into_bounds. pose proof (object_open_not_fuel p1).
  destruct (object_open p1) as [[more p2]| |] eqn:E2; [|done..]. apply object_open_moved in E2; [|done]. into_bounds. destruct more; [|done].
  pose proof (envelope_loop_ends (pass_fuel p2) p2 payload (mkSeen 0 0 0 [] 0 0) (full_input p2 ltac:(done))). destruct (envelope_loop _ _ _ _) as [[y p3]| |]; [|done..]. by destruct (negb _).
Qed.

Lemma payload_member_moved p payload name typed typed' q : in_bounds p -> payload_member p payload name typed = Ok (typed', q) -> moved 1 p q.
Proof.
  intros Hp E. unfold payload_member in E. destruct (negb _).
  { destruct (skip_value p) as [[raw p1]| |] eqn:E1; [|done..]. apply skip_value_moved in E1 as [E1 _]; [|done]. by injection E as <- <-. }
  destruct (is_some typed); [done|]. destruct (peek p) as [c| |]; [|done..]. destruct (c =? 110).
  { destruct (skip_value p) as [[raw p1]| |] eqn:E1; [|done..]. apply skip_value_moved in E1 as [E1 _]; [|done]. by injection E as <- <-. }
  destruct (envelope p payload) as [[[[a b] e] p1]| |] eqn:E1; [|done..]. injection E as <- <-. by apply envelope_moved in E1.
Qed.

Lemma payload_member_ends p payload name typed : in_bounds p -> payload_member p payload name typed <> Fuel.
Proof.
  intros Hp. unfold payload_member. pose proof (skip_value_not_fuel p Hp). destruct (negb _); [by destruct (skip_value p) as [[]| |]|]. destruct (is_some typed); [done|].
  pose proof (peek_not_fuel p). destruct (peek p) as [c| |]; [|done..]. destruct (c =? 110); [by destruct (skip_value p) as [[]| |]|]. pose proof (envelope_ends p payload Hp). by destruct (envelope p payload) as [[[[]]]| |].
Qed.

Lemma parts_loop_ends fuel p payload fields typed : bounded_input fuel p -> parts_loop fuel p payload fields typed <> Fuel.
Proof.
  revert p fields typed. induction fuel as [|fuel IH]; intros p fields typed [Hp Hr]; [unfold remaining, in_bounds in *; lia|]. cbn [parts_loop]. pose proof (string_not_fuel p Hp).
  destruct (JsonRead.string p) as [[name p1]| |] eqn:E1; [|done..]. apply string_moved in E1; [|done]. into_bounds. pose proof (colon_not_fuel p1).
  destruct (colon p1) as [p2| |] eqn:E2; [|done..]. apply colon_moved in E2; [|done]. into_bounds. 
  pose proof (payload_member_ends p2 payload (cow_bytes name) typed ltac:(done)). destruct (payload_member _ _ _ _) as [[t p3]| |] eqn:E3; [|done..]. apply payload_member_moved in E3; [|done]. into_bounds.
  pose proof (object_next_not_fuel p3). destruct (object_next p3) as [[more p4]| |] eqn:E4; [|done..]. apply object_next_moved in E4; [|done]. into_bounds. destruct more; [|done]. apply IH. split; [done|less].
Qed.

Lemma whole_array_not_fuel raw : whole_array raw <> Fuel.
Proof.
  unfold whole_array. pose proof (raw_array_not_fuel _ (new_in_bounds raw)). destruct (raw_array _) as [[values p]| |]; [|done..]. pose proof (jend_not_fuel (ws p)). by destruct (jend (ws p)).
Qed.

(** Validation always answers. *)
Lemma parts_ends p payload : in_bounds p -> parts p payload <> Fuel.
Proof.
  intros Hp. unfold parts. pose proof (ws_moved p Hp). into_bounds. pose proof (expect_not_fuel (ws p) 123). destruct (expect (ws p) 123) as [p1| |] eqn:E1; [|done..]. apply expect_moved in E1; [|done]. into_bounds.
  pose proof (object_open_not_fuel p1). destruct (object_open p1) as [[more p2]| |] eqn:E2; [|done..]. apply object_open_moved in E2; [|done]. into_bounds.
  match goal with |- (match ?e with _ => _ end) <> Fuel => assert (Hn : e <> Fuel) by (destruct more; [by apply parts_loop_ends, full_input|done]); destruct e as [[[fields typed] p3]| |]; [|done..] end.
  pose proof (jend_not_fuel (ws p3)). destruct (jend (ws p3)) as [u| |]; [|done..]. destruct typed as [[[[a b] e]|]|]; [|done..]. unfold first_field.
  destruct (List.find _ fields) as [[n raw]|]; [|done]. pose proof (whole_array_not_fuel raw). destruct (whole_array raw) as [l| |]; [|done..]. destruct (negb _); [done|].
  destruct (List.find _ fields) as [[n' raw']|]; [|done]. pose proof (whole_array_not_fuel raw'). destruct (whole_array raw') as [m| |]; [|done..]. by destruct (negb _).
Qed.
End Validator.
