(* ===== verification/TraceReparse.v ===== *)
(** Streaming validation against re-parsing.

    The validator of trace_metadata.rs reads the typed envelope in one pass; the
    version it replaced, kept beside it as the oracle of a differential test
    over generated payloads, parses every level again from its raw text. Here
    both are proved equal on every payload. *)

From S2P Require Import Prelude Utf8 External Float64 OtlpInteger OrdMap Out JsonWrite JsonRead TraceFields JsonSim JsonSlice TraceSortKey Structural TempoExpression TraceMetadata JsonRegion.

(** * The oracle *)

Section Reference.
Context `{SimdUtf8} `{Memchr2}.

(** [for value in l { f(value)?; }]. *)
Fixpoint each (f : bytes -> Res unit) (l : list bytes) : Res unit :=
  match l with
  | [] => Ok tt
  | v :: l => let? _ := f v in each f l
  end.

(** The loop over the pairs of an attribute list, [f] reading a value. *)
Fixpoint reparse_pairs (f : bytes -> Res unit) (pairs : list bytes) (keys : list bytes) : Res unit :=
  match pairs with
  | [] => Ok tt
  | raw :: pairs =>
      let? entry := whole_object raw in
      if negb (len entry =? 2) then Fallback
      else
        let? raw := first_field entry (str "key") in
        let? k := whole_string raw in
        let k := cow_bytes k in
        if (len k =? 0) || existsb (bytes_eqb k) keys then Fallback
        else
          let? raw := first_field entry (str "value") in
          let? _ := f raw in
          reparse_pairs f pairs (k :: keys)
  end.

Definition reparse_integer (raw : bytes) : Res unit :=
  let? s := whole_string raw in
  let s := cow_bytes s in
  if negb (from_utf8_ok s) then Fallback
  else
    let? number := ok_or (parse_i64 s) tt in
    if bytes_eqb (decimal_Z number) s then Ok tt else Fallback.

(** The one member of [{"values": ...}]. *)
Definition reparse_values (raw : bytes) : Res bytes :=
  let? owner := whole_object raw in
  if negb (len owner =? 1) then Fallback else first_field owner (str "values").

(** The text gets shorter from call to call. *)
Fixpoint reparse_value (fuel : nat) (raw : bytes) (depth : Z) {struct fuel} : Res unit :=
  match fuel with
  | O => Fuel
  | S fuel =>
      if 128 <? depth then Fallback
      else
        let? fields := whole_object raw in
        match fields with
        | [] => Ok tt
        | [(name, raw)] =>
            let name := cow_bytes name in
            if bytes_eqb name (str "stringValue") then let? _ := whole_string raw in Ok tt
            else if bytes_eqb name (str "boolValue") && (bytes_eqb raw (str "true") || bytes_eqb raw (str "false")) then Ok tt
            else if bytes_eqb name (str "intValue") then reparse_integer raw
            else if bytes_eqb name (str "doubleValue") then let? _ := double raw in Ok tt
            else if bytes_eqb name (str "bytesValue") then
              let? s := whole_string raw in
              if base64 (cow_bytes s) then Ok tt else Fallback
            else if bytes_eqb name (str "arrayValue") then
              let? raw := reparse_values raw in
              let? l := whole_array raw in
              each (fun raw => reparse_value fuel raw (depth + 1)) l
            else if bytes_eqb name (str "kvlistValue") then
              let? raw := reparse_values raw in
              reparse_attributes fuel raw (depth + 1)
            else Fallback
        | _ :: _ :: _ => Fallback
        end
  end
with reparse_attributes (fuel : nat) (raw : bytes) (depth : Z) {struct fuel} : Res unit :=
  match fuel with
  | O => Fuel
  | S fuel =>
      let? pairs := whole_array raw in
      reparse_pairs (fun raw => reparse_value fuel raw depth) pairs []
  end.

Definition text_fuel (raw : bytes) : nat := S (length raw).

Definition reparse_list (raw : bytes) : Res unit := reparse_attributes (text_fuel raw) raw 0.

(** The three attribute lists of the envelope. *)
Fixpoint reparse_lists (meta : RawFields) (names : list bytes) : Res unit :=
  match names with
  | [] => Ok tt
  | name :: names => let? raw := first_field meta name in let? _ := reparse_list raw in reparse_lists meta names
  end.

(** Its two lists of owners, each as long as the payload's. *)
Fixpoint reparse_owners (meta fields : RawFields) (names : list bytes) : Res unit :=
  match names with
  | [] => Ok tt
  | name :: names =>
      let? raw := first_field meta name in
      let? owners := whole_array raw in
      let? raw := first_field fields name in
      let? l := whole_array raw in
      if negb (len owners =? len l) then Fallback
      else let? _ := each reparse_list owners in reparse_owners meta fields names
  end.

Definition reparse_fields (payload : bytes) : Res RawFields :=
  let? fields := whole_object payload in
  let otlp := List.filter (fun f => bytes_eqb (cow_bytes (fst f)) (str "otlp")) fields in
  if 1 <? len otlp then Fallback
  else
    match List.find (fun f => bytes_eqb (cow_bytes (fst f)) (str "otlp")) fields with
    | None => Ok fields
    | Some (_, metadata) =>
        if bytes_eqb metadata (str "null") then Ok fields
        else
          let? meta := whole_object metadata in
          if negb (len meta =? 6) then Fallback
          else
            let? version := first_field meta (str "version") in
            if negb (bytes_eqb version (str "1")) then Fallback
            else
              let? _ := reparse_lists meta [str "resource"; str "scope"; str "attributes"] in
              let? _ := reparse_owners meta fields [str "events"; str "links"] in
              Ok fields
    end.

(** * Keys and integers *)

Lemma repeated_NoDup keys : repeated keys = false <-> NoDup keys.
Proof.
  unfold repeated. set (l := sort_by bytes_leb keys). assert (Hp : l ≡ₚ keys) by apply sort_by_perm. assert (Hs : sorted bytes_leb l) by exact (sort_by_sorted bytes_leb bytes_leb_total keys).
  rewrite <- Hp. clearbody l. clear Hp keys. split; intros Hn.
  - assert (Hc : Forall (fun '(a, b) => bytes_ltb a b = true) (windows2 l)).
    { unfold sorted in Hs. rewrite Forall_forall in *. intros [a b] Hin. specialize (Hs _ Hin). cbn in Hs. rewrite bytes_ltb_leb. destruct (bytes_leb b a) eqn:Eb; [|done]. exfalso.
      assert (existsb (fun w => bytes_eqb (fst w) (snd w)) (windows2 l) = true) as E; [|by rewrite E in Hn]. apply existsb_exists. exists (a, b). split; [done|]. cbn. by rewrite (bytes_leb_antisym _ _ Hs Eb), (proj2 (bytes_eqb_eq _ _)). }
    rewrite <- (map_id l). by apply (chain_nodup (fun x => x)).
  - induction l as [|x [|y l] IH]; [done..|]. change (windows2 (x :: y :: l)) with ((x, y) :: windows2 (y :: l)) in *. inversion Hn as [|? ? Hx Hn']; subst. inversion Hs as [|? ? Hxy Hs']; subst. cbn [existsb fst snd]. rewrite IH by done.
    destruct (bytes_eqb x y) eqn:E; [|done]. apply bytes_eqb_eq in E as ->. exfalso. apply Hx. by constructor.
Qed.

Lemma decimal_digits_unique ds : Forall digit ds -> ds <> [] -> (1 < len ds -> head ds <> Some 48) -> forall fuel, digits_value ds < 2 ^ Z.of_nat (S fuel) -> decimal_digits (S fuel) (digits_value ds) = ds.
Proof.
  induction ds as [|d l IH] using rev_ind; [done|]. intros Hd _ Hh fuel Hf. apply Forall_app in Hd as [Hl Hd]. inversion Hd as [|? ? Hdd _]; subst. unfold digit in Hdd. rewrite digits_value_snoc in *.
  pose proof (digits_value_range l Hl) as Hr. destruct l as [|c l'].
  - cbn [decimal_digits]. change (digits_value []) with 0. replace (0 * 10 + (d - 48) <? 10) with true by (symmetry; apply Z.ltb_lt; lia). cbn. f_equal. lia.
  - assert (Hc : 1 <= digits_value (c :: l')).
    { assert (c <> 48) by (intros ->; apply Hh; [unfold len; cbn; rewrite length_app; cbn; lia|done]). inversion Hl as [|? ? Hc Hl']; subst. unfold digit in Hc. change (c :: l') with ([c] ++ l') in *. rewrite digits_value_app in *.
      pose proof (digits_value_range l' Hl'). change (digits_value [c]) with (0 * 10 + (c - 48)). pose proof (Z.pow_pos_nonneg 10 (len l') ltac:(lia) (len_nonneg _)). nia. }
    set (v := digits_value (c :: l')) in *. cbn [decimal_digits]. replace (v * 10 + (d - 48) <? 10) with false by (symmetry; apply Z.ltb_ge; lia).
    replace ((v * 10 + (d - 48)) / 10) with v by (apply (Z.div_unique_pos _ _ _ (d - 48)); lia). replace ((v * 10 + (d - 48)) mod 10) with (d - 48) by (apply (Z.mod_unique_pos _ _ v); lia).
    destruct fuel as [|fuel]; [change (2 ^ Z.of_nat 1) with 2 in Hf; lia|]. rewrite Nat2Z.inj_succ, Z.pow_succ_r in Hf by lia.
    rewrite IH; [do 2 f_equal; lia|done|done| |lia]. intros _ E. apply Hh; [unfold len; cbn; rewrite length_app; cbn; lia|done].
Qed.

Lemma decimal_unique ds : Forall digit ds -> ds <> [] -> (1 < len ds -> head ds <> Some 48) -> decimal (digits_value ds) = ds.
Proof. intros Hd Hn Hh. apply decimal_digits_unique; [done..|]. pose proof (digits_value_range ds Hd). apply decimal_fuel. lia. Qed.

Lemma digits_forall ds : forallb is_digit ds = true -> Forall digit ds.
Proof. rewrite forallb_forall. intros Hd. apply Forall_forall. intros x Hx. specialize (Hd x Hx). unfold is_digit in Hd. unfold digit. bools. lia. Qed.

(** The shape of a canonical spelling. *)
Lemma canonical_digits ds : (0 <? len ds) && forallb is_digit ds = true -> (1 <? len ds) && bool_decide (head ds = Some 48) = false -> decimal (digits_value ds) = ds /\ 0 <= digits_value ds.
Proof.
  intros Ha Hb. apply andb_true_iff in Ha as [Hl Hd]. apply digits_forall in Hd. split; [|by apply digits_value_range]. apply decimal_unique; [done|by intros ->|].
  intros Hl1 Hh. rewrite bool_decide_true, andb_true_r in Hb by done. bools. lia.
Qed.

Lemma decimal_canonical n : 0 <= n -> (0 <? len (decimal n)) && forallb is_digit (decimal n) = true /\ (1 <? len (decimal n)) && bool_decide (head (decimal n) = Some 48) = false /\
  exists c l, decimal n = c :: l /\ 48 <= c <= 57.
Proof.
  intros Hn. pose proof (decimal_range n Hn) as Hr. destruct (Z.eq_dec n 0) as [->|]; [split_and!; [done..|by exists 48, []]|]. destruct (decimal_head n ltac:(lia)) as (c & l & E & Hc). rewrite E in *.
  assert (Hd : forallb is_digit (c :: l) = true) by (apply forallb_forall; intros x Hx; rewrite Forall_forall in Hr; specialize (Hr x Hx); unfold is_digit; bools; cbn in Hr; lia).
  rewrite Hd, len_cons. pose proof (len_nonneg l). split_and!; [rewrite andb_true_r; apply Z.ltb_lt; lia| |exists c, l; split; [done|lia]].
  rewrite bool_decide_false; [by rewrite andb_false_r|]. cbn. intros [= ->]. lia.
Qed.

Lemma integer_canonical v : canonical_integer v = Ok tt <-> from_utf8_ok v = true /\ exists n, parse_i64 v = Some n /\ decimal_Z n = v.
Proof.
  unfold canonical_integer. destruct (from_utf8_ok v); cbn [negb]; [|by split; [|intros [? _]]]. split.
  - intros E. split; [done|]. destruct (parse_i64 v) as [n|] eqn:Ep; [|done]. exists n. split; [done|]. cbn [ok_or] in E. destruct (_ || _) eqn:Ec in E; [done|]. clear E.
    apply orb_false_iff in Ec as [Ec E3]. apply orb_false_iff in Ec as [E1 E2]. unfold parse_i64 in Ep. destruct v as [|c l]; [done|]. destruct (c =? 45) eqn:E45.
    + destruct (_ && _) eqn:Ed in Ep; [|done]. unfold checked_i64 in Ep. destruct (_ && _) in Ep; [|done]. injection Ep as <-. apply Z.eqb_eq in E45 as ->. destruct (canonical_digits l Ed E2) as [Hu Hp].
      assert (digits_value l <> 0) by (intros E0; rewrite E0 in E3; done). unfold decimal_Z. replace (-1 * digits_value l <? 0) with true by (symmetry; apply Z.ltb_lt; lia). rewrite <- Hu at 2. do 2 f_equal. lia.
    + destruct (c =? 43) eqn:E43; [apply Z.eqb_eq in E43 as ->; done|]. destruct (_ && _) eqn:Ed in Ep; [|done]. unfold checked_i64 in Ep. destruct (_ && _) in Ep; [|done]. injection Ep as <-.
      destruct (canonical_digits (c :: l) Ed E2) as [Hu Hp]. unfold decimal_Z. rewrite Z.mul_1_l. replace (digits_value (c :: l) <? 0) with false by (symmetry; apply Z.ltb_ge; lia). done.
  - intros (_ & n & Ep & Hv). rewrite Ep. cbn [ok_or]. unfold decimal_Z in Hv. destruct (n <? 0) eqn:En.
    + bools. destruct (decimal_canonical (- n) ltac:(lia)) as (_ & Hc & _). subst v. change (45 =? 45) with true. cbv iota. rewrite Hc. rewrite bool_decide_false by done. replace (n =? 0) with false by (symmetry; apply Z.eqb_neq; lia). done.
    + bools. destruct (decimal_canonical n ltac:(lia)) as (_ & Hc & c & l & E & Hr). rewrite E in Hc, Hv. subst v. replace (c =? 45) with false by (symmetry; apply Z.eqb_neq; lia). rewrite Hc. rewrite bool_decide_false by (cbn; intros [= ->]; lia).
      destruct (Z.eqb_spec n 0) as [->|]; [|done]. cbn [orb andb]. assert (Ez : c :: l = str "0") by (rewrite <- E; done). by rewrite Ez.
Qed.

(** * Scalars *)

Lemma key_open_tag raw k c : peek (Parser_new raw) = Ok c -> c = 123 \/ c = 91 -> key raw = Ok k -> head k = Some 7 \/ head k = Some 6.
Proof.
  intros Ec Hc E. unfold key, document, document_with, document_in, value_top in E. rewrite (peek_fixed _ c Ec) in E by (destruct Hc; by subst). destruct (value_fuel _) as [|fuel] in E; [done|]. simpl in E. rewrite Ec in E.
  destruct Hc; subst; cbn [Z.eqb Pos.eqb] in E.
  - destruct (object_open _) as [[m p2]| |] in E; [|done..]. destruct (if m then _ else _) as [[[p3 b] st]| |] in E; [|done..]. unfold key_object in E. destruct (existsb _ _) in E; [done|]. cbv beta iota zeta in E.
    destruct (jend _) in E; [|done..]. injection E as <-. by left.
  - destruct (peek (ws _)) as [c| |] in E; [|done..]. destruct (if c =? 93 then _ else _) as [[[p3 b] st]| |] in E; [|done..]. cbv beta iota zeta in E. destruct (jend _) in E; [|done..]. injection E as <-. by right.
Qed.

(** The texts the scalar members take do not depend on the depth. *)
Lemma bool_region d p q : in_bounds p -> region d p q -> text (p, q) = str "true" \/ text (p, q) = str "false" -> forall x, region x p q.
Proof.
  intros Hp Hr Ht. pose proof (text_first p q Hp (region_moved _ _ _ Hr Hp)) as Ec.
  assert (Hc : peek p = Ok 116 \/ peek p = Ok 102) by (rewrite Ec; destruct Ht as [-> | ->]; [by left|by right]).
  destruct Hc as [Hc|Hc]; destruct (region_first _ _ _ _ Hp Hr Hc) as [[? _]|[[? _]|[[? _]|(_ & _ & _ & Hx)]]]; done.
Qed.

Lemma double_region d p q v : in_bounds p -> region d p q -> double (text (p, q)) = Ok v -> forall x, region x p q.
Proof.
  intros Hp Hr E x. pose proof (region_moved _ _ _ Hr Hp) as Hm. destruct (region_peek _ _ _ Hp Hr) as (c & Ec & _). pose proof (text_new p q Hp Hm) as En. pose proof (text_first p q Hp Hm) as Ef. rewrite Ec in *.
  destruct (region_first _ _ _ _ Hp Hr Ec) as [[-> _]|[[-> _]|[[-> [s Es]]|(_ & _ & _ & Hx)]]]; [| |by apply (R_string x p s)|done]; exfalso; unfold double in E; rewrite bool_decide_false in E by (intros E2; by rewrite E2 in Ef).
  - destruct (key _) as [k| |] eqn:Ek; [|done..]. destruct (key_open_tag _ _ _ En (or_introl eq_refl) Ek) as [E7|E7]; rewrite E7 in E; done.
  - destruct (key _) as [k| |] eqn:Ek; [|done..]. destruct (key_open_tag _ _ _ En (or_intror eq_refl) Ek) as [E7|E7]; rewrite E7 in E; done.
Qed.

Lemma skip_reads p q : in_bounds p -> region p.(jdepth) p q -> skip_value p = Ok (text (p, q), q).
Proof. apply region_skip_value. Qed.
Lemma text_skip p raw q : in_bounds p -> skip_value p = Ok (raw, q) -> region p.(jdepth) p q /\ raw = text (p, q).
Proof. intros Hp E. split; [by apply (skip_value_region p raw)|]. by apply skip_value_moved in E as [_ ->]. Qed.

(** * What the pass accepts, re-parsing accepts *)

Definition ready (p : Parser) : Prop := in_bounds p /\ p.(jutf8) = false.

Lemma moved_ready n p q : 0 <= n -> moved n p q -> ready p -> ready q.
Proof. intros Hn Hm [Hp Hu]. split; [by apply (moved_in_bounds n p)|]. destruct Hm as (_ & _ & -> & _). done. Qed.

Lemma open_inv p level c q : ws p = p -> open p level c = Ok q -> level <= MAX_DEPTH /\ expect p c = Ok q.
Proof. unfold open. intros -> E. destruct (_ <? _) eqn:El; [done|]. bools. split; [lia|done]. Qed.

Lemma open_eq p level c q : ws p = p -> level <= MAX_DEPTH -> expect p c = Ok q -> open p level c = Ok q.
Proof. unfold open. intros -> Hl E. replace (_ <? _) with false by (symmetry; apply Z.ltb_ge; lia). done. Qed.

Lemma text_len a : in_bounds a.1 -> moved 1 a.1 a.2 -> len (text a) = a.2.(jpos) - a.1.(jpos).
Proof. intros [Hp _] (_ & _ & _ & Hq). unfold text. apply len_slice; lia. Qed.

Definition value_ok (depth : Z) (raw : bytes) : Prop := forall F, len raw < Z.of_nat F -> reparse_value F raw depth = Ok tt.
Definition list_ok (depth : Z) (raw : bytes) : Prop := forall F, len raw < Z.of_nat F -> reparse_attributes F raw depth = Ok tt.

(** One pair of an attribute list. *)
Definition pair_ok (depth : Z) (raw k : bytes) : Prop := exists fields rk c rv,
  whole_object raw = Ok fields /\ len fields = 2 /\ first_field fields (str "key") = Ok rk /\ whole_string rk = Ok c /\ cow_bytes c = k /\ len k <> 0 /\
  first_field fields (str "value") = Ok rv /\ len rv < len raw /\ value_ok depth rv.

(** How the members of a pair fill its two slots. *)
Inductive fills (depth : Z) : option bytes -> bool -> list (Cow * Place) -> option bytes -> bool -> Prop :=
| F_nil k v : fills depth k v [] k v
| F_key name a s ms v k' v' : cow_bytes name = str "key" -> JsonRead.string a.1 = Ok (s, a.2) -> len (cow_bytes s) <> 0 -> fills depth (Some (cow_bytes s)) v ms k' v' -> fills depth None v ((name, a) :: ms) k' v'
| F_value name a ms k k' v' : cow_bytes name = str "value" -> value_ok depth (text a) -> fills depth k true ms k' v' -> fills depth k false ((name, a) :: ms) k' v'.

Lemma fills_done depth k v ms k' v' : fills depth k v ms k' v' -> (is_some k = true -> v = true -> ms = []) /\ (is_some k = true -> is_some k' = true) /\ (v = true -> v' = true).
Proof. induction 1 as [|name a s ms v k' v' Hn Hs Hl Hf IH|name a ms k k' v' Hn Hv Hf IH]; [done|..]; destruct IH as (I1 & I2 & I3); split_and!; try done; intros; auto. Qed.

(** Both slots end up filled: a key and a value, in either order. *)
Lemma fills_pair depth ms k : fills depth None false ms (Some k) true ->
  exists nk nv a b s, cow_bytes nk = str "key" /\ cow_bytes nv = str "value" /\ JsonRead.string a.1 = Ok (s, a.2) /\ cow_bytes s = k /\ len k <> 0 /\ value_ok depth (text b) /\
    (ms = [(nk, a); (nv, b)] \/ ms = [(nv, b); (nk, a)]).
Proof.
  intros Hf. inversion Hf as [|name a s ms' v k' v' Hn Hs Hl Hf'|name b ms' k1 k' v' Hn Hv Hf']; subst; inversion Hf' as [|name2 a2 s2 ms2 v2 k2 v2' Hn2 Hs2 Hl2 Hf2|name2 b2 ms2 k2 k2' v2' Hn2 Hv2 Hf2]; subst;
    pose proof (fills_done _ _ _ _ _ _ Hf2) as (Hd & _); rewrite (Hd eq_refl eq_refl) in *; inversion Hf2; subst.
  - exists name, name2, a, b2, s. split_and!; auto.
  - exists name2, name, a2, b, s2. split_and!; auto.
Qed.

Lemma first_field_eq fields name raw : first_field fields name = Ok raw <-> exists pre n post, fields = pre ++ (n, raw) :: post /\ cow_bytes n = name /\ Forall (fun f => cow_bytes (fst f) <> name) pre.
Proof.
  unfold first_field. split.
  - intros E. destruct (List.find _ fields) as [[n v]|] eqn:Ef; [|done]. injection E as <-. induction fields as [|[m w] fields IH]; [done|]. cbn [List.find fst] in Ef. destruct (bytes_eqb (cow_bytes m) name) eqn:Em.
    + injection Ef as <- <-. exists [], m, fields. split_and!; [done|by apply bytes_eqb_eq|done].
    + destruct (IH Ef) as (pre & n' & post & -> & Hn & Hp). exists ((m, w) :: pre), n', post. split_and!; [done|done|]. constructor; [|done]. cbn. intros Ee. apply bytes_eqb_eq in Ee. by rewrite Ee in Em.
  - intros (pre & n & post & -> & Hn & Hp). assert (Hf : List.find (fun f => bytes_eqb (cow_bytes (fst f)) name) (pre ++ (n, raw) :: post) = Some (n, raw)); [|by rewrite Hf].
    induction Hp as [|[m w] pre Hm Hp IH]; cbn [app List.find fst].
    + by rewrite (proj2 (bytes_eqb_eq _ _) Hn).
    + destruct (bytes_eqb (cow_bytes m) name) eqn:Em; [apply bytes_eqb_eq in Em; by destruct Hm|done].
Qed.

Lemma object_pair d p ms q depth k : 0 <= d -> ready p -> object_at d p ms q -> fills depth None false ms (Some k) true -> pair_ok depth (text (p, q)) k.
Proof.
  intros Hd [Hp Hu] Ho Hf. pose proof (object_text d p ms q Hd Hp Hu Ho) as Et. apply fills_pair in Hf as (nk & nv & a & b & s & Hnk & Hnv & Es & Hs & Hl & Hv & Hms).
  assert (Hin : Forall (fun m => in_bounds m.2.1 /\ m.2.1.(jutf8) = false /\ moved 1 m.2.1 m.2.2 /\ len (text m.2) < len (text (p, q))) ms).
  { destruct Ho as (_ & p1 & E1 & [[-> _]|(p2 & E2 & Hmem)]); [constructor|]. scan. pose proof (members_moved _ _ _ _ Hmem ltac:(done)). assert (Hpq : moved 1 p q) by far. eapply Forall_impl; [|by apply (members_sound _ _ _ _ Hmem)].
    intros m (Hb & Hm1 & _ & Hm2 & Hm3). split_and!; [done| |done|].
    - repeat match goal with Hm : moved _ _ _ |- _ => destruct Hm as (_ & _ & ? & _) end. congruence.
    - rewrite !text_len by done. cbn [fst snd]. ahead. }
  assert (Ha : in_bounds a.1 /\ a.1.(jutf8) = false /\ len (text b) < len (text (p, q))).
  { rewrite Forall_forall in Hin. assert (In (nk, a) ms /\ In (nv, b) ms) as [I1 I2] by (destruct Hms as [-> | ->]; cbn; auto). pose proof (Hin _ I1) as (? & ? & _). pose proof (Hin _ I2) as (_ & _ & _ & ?). done. }
  destruct Ha as (Hb & Hua & Hlen). exists (texts ms), (text a), s, (text b). rewrite (surjective_pairing a) at 2. split_and!; [done| | |by apply string_text|done|done| |done|done].
  - by destruct Hms as [-> | ->].
  - apply first_field_eq. destruct Hms as [-> | ->]; [exists [], nk, [(nv, text b)]|exists [(nv, text b)], nk, []]; (split_and!; [done|done|]); [constructor|constructor; [cbn; by rewrite Hnv|constructor]].
  - apply first_field_eq. destruct Hms as [-> | ->]; [exists [(nk, text a)], nv, []|exists [], nv, [(nk, text a)]]; (split_and!; [done|done|]); [constructor; [cbn; by rewrite Hnk|constructor]|constructor].
Qed.

Lemma pairs_reparse F depth raws ks seen : Forall2 (pair_ok depth) raws ks -> (forall raw, raw ∈ raws -> len raw <= Z.of_nat F) -> NoDup (ks ++ seen) -> reparse_pairs (fun raw => reparse_value F raw depth) raws seen = Ok tt.
Proof.
  intros Hf. revert seen. induction Hf as [|raw k raws ks Hk Hf IH]; intros seen HF Hn; [done|]. cbn [reparse_pairs]. destruct Hk as (fields & rk & c & rv & -> & Hl & Ek & Es & Hc & Hz & Ev & Hlt & Hv). rewrite Hl, Ek, Es, Hc.
  cbn [negb Z.eqb Pos.eqb]. change (NoDup (k :: (ks ++ seen))) in Hn. inversion Hn as [|? ? Hx Hn']; subst. replace (len (cow_bytes c) =? 0) with false by (symmetry; by apply Z.eqb_neq).
  assert (existsb (bytes_eqb (cow_bytes c)) seen = false) as ->.
  { destruct (existsb _ _) eqn:E; [|done]. apply existsb_exists in E as (y & Hy & E). apply bytes_eqb_eq in E as <-. exfalso. apply Hx. apply elem_of_app. right. by apply list_elem_of_In. }
  cbn [orb]. rewrite Ev, Hv; [|specialize (HF raw ltac:(by constructor)); lia]. apply IH; [intros r Hr; apply HF; by constructor|].
  by rewrite <- (Permutation_middle ks seen (cow_bytes c)).
Qed.

Definition values_sound (fuel : nat) : Prop := forall p depth level q, ready p -> ws p = p -> 1 <= level -> any_value fuel p depth level = Ok q -> region (level - 1) p q /\ value_ok depth (text (p, q)).
Definition array_values_sound (fuel : nat) : Prop := forall p depth level q, ready p -> ws p = p -> 1 <= level -> array_values fuel p depth level = Ok q ->
  exists l, items (level + 2) p l q /\ Forall (fun a => value_ok (depth + 1) (text a)) l.
Definition attributes_sound (fuel : nat) : Prop := forall p depth level n q, ready p -> ws p = p -> 1 <= level -> attributes_at fuel p depth level = Ok (n, q) ->
  exists l, array_at (level - 1) p l q /\ len l = n /\ list_ok depth (text (p, q)).
Definition pairs_sound (fuel : nat) : Prop := forall p depth level keys keys' q, ready p -> ws p = p -> 1 <= level -> pairs_loop fuel p depth level keys = Ok (keys', q) ->
  exists l ks, items level p l q /\ keys' = keys ++ ks /\ Forall2 (fun a k => pair_ok depth (text a) k) l ks.
Definition pair_sound (fuel : nat) : Prop := forall p depth level k v k' v' q, ready p -> 1 <= level -> pair_loop fuel p depth level k v = Ok (k', v', q) ->
  exists ms, members (level + 1) p ms q /\ fills depth k v ms k' v'.

(** The parser state [q] is ready because it is reached from a ready one. *)
Ltac get_ready := split; [assumption|plain].

Lemma pair_sound_S fuel : values_sound fuel -> pair_sound fuel -> pair_sound (S fuel).
Proof.
  intros HV HP p depth level k v k' v' q [Hp Hu] Hl E. simpl in E. destruct (JsonRead.string p) as [[name p1]| |] eqn:E1; [|done..]. scan. destruct (colon p1) as [p2| |] eqn:E2; [|done..]. scan.
  match type of E with (match ?e with _ => _ end) = _ => destruct e as [[[k1 v1] p3]| |] eqn:E3; [|done..] end. pose proof (colon_fixed p1 p2 ltac:(done) E2) as Hf2.
  assert (Hstep : region (level + 1) p2 p3 /\ forall ms, fills depth k1 v1 ms k' v' -> fills depth k v ((name, (p2, p3)) :: ms) k' v').
  { destruct (bytes_eqb (cow_bytes name) (str "key") && negb (is_some k)) eqn:Ek; [|destruct (bytes_eqb (cow_bytes name) (str "value") && negb v) eqn:Ev; [|done]].
    - apply andb_true_iff in Ek as [Hn Hk]. apply bytes_eqb_eq in Hn. destruct k; [done|]. destruct (JsonRead.string p2) as [[s p6]| |] eqn:E6; [|done..]. destruct (len (cow_bytes s) =? 0) eqn:El; [done|]. injection E3 as <- <- <-.
      split; [apply (R_string _ _ s); [by apply string_peek in E6|done]|]. intros ms Hms. apply (F_key _ _ (p2, p6) s); [done|done|by apply Z.eqb_neq|done].
    - apply andb_true_iff in Ev as [Hn Hv]. apply bytes_eqb_eq in Hn. destruct v; [done|]. destruct (any_value fuel p2 _ _) as [p6| |] eqn:E6; [|done..]. injection E3 as <- <- <-.
      apply HV in E6 as [Hr Hok]; [|get_ready|done|lia]. replace (level + 2 - 1) with (level + 1) in Hr by lia. split; [done|]. intros ms Hms. by apply F_value. }
  destruct Hstep as [Hr Hfill]. pose proof (region_moved _ _ _ Hr ltac:(done)). scan. destruct (object_next p3) as [[m p4]| |] eqn:E4; [|done..]. scan. destruct m.
  - apply HP in E as (ms & Hms & Hfl); [|get_ready|done]. exists ((name, (p2, p3)) :: ms). split; [by apply (M_more _ _ _ p1 p2 p3 p4)|by apply Hfill].
  - injection E as <- <- <-. exists [(name, (p2, p3))]. split; [by apply (M_last _ _ _ p1)|]. apply Hfill. constructor.
Qed.

Lemma pairs_sound_S fuel : pairs_sound fuel -> pair_sound fuel -> pairs_sound (S fuel).
Proof.
  intros HP HQ p depth level keys keys' q [Hp Hu] Hf Hl E. simpl in E. destruct (open p (level + 1) 123) as [p1| |] eqn:E1; [|done..]. apply open_inv in E1 as [Hd E1]; [|done]. scan.
  destruct (object_open p1) as [[more p2]| |] eqn:E2; [|done..]. destruct more; [|done]. cbn [negb] in E. scan. destruct (pair_loop fuel p2 _ _ _ _) as [[[k v] p3]| |] eqn:E3; [|done..].
  apply HQ in E3 as (ms & Hms & Hfl); [|get_ready|done]. destruct v; [|done]. destruct k as [k|]; [|done]. cbn [negb ok_or] in E. pose proof (members_moved _ _ _ _ Hms ltac:(done)). scan.
  assert (Ho : object_at level p ms p3) by (split; [done|]; exists p1; split; [done|]; right; by exists p2). pose proof (object_pair level p ms p3 depth k ltac:(lia) ltac:(done) Ho Hfl) as Hpair. pose proof (object_region _ _ _ _ Ho) as Hr.
  destruct (array_next p3) as [[m p4]| |] eqn:E4; [|done..]. scan. destruct m.
  - apply HP in E as (l & ks & Hi & -> & Hall); [|get_ready|by apply array_next_fixed in E4|done]. exists ((p, p3) :: l), (k :: ks). split_and!; [by apply (I_more _ _ p3 p4)|by rewrite <- app_assoc|by constructor].
  - injection E as <- <-. exists [(p, p3)], [k]. split_and!; [by apply I_last|done|by repeat constructor].
Qed.

Lemma attributes_sound_S fuel : pairs_sound fuel -> attributes_sound (S fuel).
Proof.
  intros HP p depth level n q [Hp Hu] Hf Hl E. simpl in E. destruct (open p level 91) as [p1| |] eqn:E1; [|done..]. apply open_inv in E1 as [Hd E1]; [|done]. scan. destruct (array_rest p1) as [[more p2]| |] eqn:E2; [|done..]. scan.
  assert (Hpairs : exists l keys, array_at (level - 1) p l q /\ n = len keys /\ Forall2 (fun a k => pair_ok depth (text a) k) l keys /\ NoDup keys).
  { destruct more.
    - destruct (pairs_loop fuel p2 _ _ _) as [[keys p3]| |] eqn:E3; [|done..]. destruct (repeated keys) eqn:Er; [done|]. injection E as <- <-. apply repeated_NoDup in Er.
      apply HP in E3 as (l & ks & Hi & -> & Hall); [|get_ready|by apply array_rest_fixed in E2|done]. exists l, ks. split_and!; [|done|done|done]. split; [lia|]. exists p1. split; [done|]. right. exists p2. replace (level - 1 + 1) with level by lia. done.
    - injection E as <- <-. exists [], []. split_and!; [|done|constructor|constructor]. split; [lia|]. exists p1. split; [done|]. by left. }
  destruct Hpairs as (l & keys & Ha & -> & Hall & Hn). exists l. split; [done|]. split; [unfold len; by rewrite (Forall2_length Hall)|]. intros F HF. destruct F as [|F]; [pose proof (len_nonneg (text (p, q))); lia|]. cbn [reparse_attributes].
  rewrite (array_text (level - 1) p l q ltac:(lia) Hp Hu Ha). apply (pairs_reparse F depth _ keys []); [|..|by rewrite app_nil_r].
  - clear -Hall. induction Hall; cbn [map]; by constructor.
  - intros raw Hin. apply list_elem_of_In, in_map_iff in Hin as (a & <- & Hin). destruct Ha as (_ & p1' & E1' & [[-> _]|(p2' & E2' & Hi)]); [done|]. scan. pose proof (items_sound _ _ _ _ Hi ltac:(done)) as Hs. rewrite Forall_forall in Hs.
    destruct (Hs a Hin) as (Hb & Hm1 & _ & Hm2 & Hm3). pose proof (items_moved _ _ _ _ Hi ltac:(done)). rewrite text_len in HF by (cbn [fst snd]; first [done|far]). cbn [fst snd] in HF. rewrite text_len by done. ahead.
Qed.

Lemma array_values_sound_S fuel : values_sound fuel -> array_values_sound fuel -> array_values_sound (S fuel).
Proof.
  intros HV HL p depth level q [Hp Hu] Hf Hl E. simpl in E. destruct (any_value fuel p _ _) as [p1| |] eqn:E1; [|done..]. apply HV in E1 as [Hr Hok]; [|done|done|lia]. replace (level + 3 - 1) with (level + 2) in Hr by lia.
  pose proof (region_moved _ _ _ Hr ltac:(done)). scan. destruct (array_next p1) as [[m p2]| |] eqn:E2; [|done..]. scan. destruct m.
  - apply HL in E as (l & Hi & Ha); [|get_ready|by apply array_next_fixed in E2|done]. exists ((p, p1) :: l). split; [by apply (I_more _ _ p1 p2)|by constructor].
  - injection E as <-. exists [(p, p1)]. split; [by apply I_last|by repeat constructor].
Qed.

(** An object with the one member [values]. *)
Lemma values_inv p level inner q : ready p -> ws p = p -> 1 <= level -> values p level inner = Ok q ->
  exists name p4 p5, inner p4 = Ok p5 /\ ready p4 /\ ws p4 = p4 /\ moved 1 p p4 /\ cow_bytes name = str "values" /\ (region level p4 p5 -> object_at (level - 1) p [(name, (p4, p5))] q).
Proof.
  intros [Hp Hu] Hf Hl E. unfold values in E. destruct (open p level 123) as [p1| |] eqn:E1; [|done..]. apply open_inv in E1 as [Hd E1]; [|done]. scan.
  destruct (object_open p1) as [[more p2]| |] eqn:E2; [|done..]. destruct more; [|done]. cbn [negb] in E. scan. destruct (JsonRead.string p2) as [[name p3]| |] eqn:E3; [|done..]. scan.
  destruct (bytes_eqb _ _) eqn:En in E; [|done]. apply bytes_eqb_eq in En. cbn [negb] in E. destruct (colon p3) as [p4| |] eqn:E4; [|done..]. scan. destruct (inner p4) as [p5| |] eqn:E5; [|done..].
  destruct (object_next p5) as [[m p6]| |] eqn:E6; [|done..]. destruct m; [done|]. injection E as <-. exists name, p4, p5. split; [done|]. split; [get_ready|]. split; [by apply (colon_fixed p3)|]. split; [far|]. split; [done|].
  intros Hr. split; [lia|]. exists p1. split; [done|]. right. exists p2. split; [done|]. replace (level - 1 + 1) with level by lia. by apply (M_last _ _ _ p3).
Qed.

(** The text of the one member is shorter. *)
Lemma one_member d p name a q : 0 <= d -> ready p -> object_at d p [(name, a)] q -> whole_object (text (p, q)) = Ok [(name, text a)] /\ ready a.1 /\ region (d + 1) a.1 a.2 /\ len (text a) < len (text (p, q)).
Proof.
  intros Hd [Hp Hu] Ho. split; [exact (object_text d p [(name, a)] q Hd Hp Hu Ho)|]. destruct Ho as (_ & p1 & E1 & [[? _]|(p2 & E2 & Hms)]); [done|]. scan. pose proof (members_moved _ _ _ _ Hms ltac:(done)).
  pose proof (members_sound _ _ _ _ Hms ltac:(done)) as Hs. inversion Hs as [|? ? (Hb & Hm1 & Hr & Hm2 & Hm3) _]; subst. cbn [snd] in *. split; [get_ready|]. split; [done|]. rewrite !text_len by (cbn [fst snd]; first [done|far]). cbn [fst snd]. ahead.
Qed.

Lemma each_ok F depth l : Forall (fun a => value_ok depth (text a)) l -> (forall a, In a l -> len (text a) < Z.of_nat F) -> each (fun raw => reparse_value F raw depth) (map text l) = Ok tt.
Proof. induction 1 as [|a l Ha Hl IH]; intros HF; [done|]. cbn [map each]. rewrite Ha by (apply HF; by left). apply IH. intros b Hb. apply HF. by right. Qed.

Lemma array_lengths d p l q : ready p -> array_at d p l q -> forall a, In a l -> len (text a) < len (text (p, q)).
Proof.
  intros [Hp Hu] Ha a Hin. destruct Ha as (_ & p1 & E1 & [[-> _]|(p2 & E2 & Hi)]); [done|]. scan. pose proof (items_moved _ _ _ _ Hi ltac:(done)). pose proof (items_sound _ _ _ _ Hi ltac:(done)) as Hs. rewrite Forall_forall in Hs.
  destruct (Hs a Hin) as (Hb & Hm1 & _ & Hm2 & Hm3). rewrite !text_len by (cbn [fst snd]; first [done|far]). cbn [fst snd]. ahead.
Qed.

Lemma reparse_one d p name a q : 0 <= d -> ready p -> cow_bytes name = str "values" -> object_at d p [(name, a)] q -> reparse_values (text (p, q)) = Ok (text a).
Proof.
  intros Hd Hp Hn Ho. destruct (one_member d p name a q Hd Hp Ho) as (E & _). unfold reparse_values. rewrite E. cbn [negb Z.eqb Pos.eqb]. apply first_field_eq. exists [], name, []. done.
Qed.

(** What the value of the one member of a typed value must be. *)
Definition typed_ok (name : bytes) (depth : Z) (raw : bytes) : Prop := forall F, len raw < Z.of_nat F ->
  (if bytes_eqb name (str "stringValue") then let? _ := whole_string raw in Ok tt
   else if bytes_eqb name (str "boolValue") && (bytes_eqb raw (str "true") || bytes_eqb raw (str "false")) then Ok tt
   else if bytes_eqb name (str "intValue") then reparse_integer raw
   else if bytes_eqb name (str "doubleValue") then let? _ := double raw in Ok tt
   else if bytes_eqb name (str "bytesValue") then let? s := whole_string raw in if base64 (cow_bytes s) then Ok tt else Fallback
   else if bytes_eqb name (str "arrayValue") then
     let? raw := reparse_values raw in let? l := whole_array raw in each (fun raw => reparse_value F raw (depth + 1)) l
   else if bytes_eqb name (str "kvlistValue") then let? raw := reparse_values raw in reparse_attributes F raw (depth + 1)
   else Fallback) = Ok tt.

Lemma typed_value depth d p name a q : 0 <= d -> ready p -> (128 <? depth) = false -> object_at d p [(name, a)] q -> typed_ok (cow_bytes name) depth (text a) -> value_ok depth (text (p, q)).
Proof.
  intros Hd Hp H128 Ho Ht F HF. destruct (one_member d p name a q Hd Hp Ho) as (E & _ & _ & Hlen). destruct F as [|F]; [pose proof (len_nonneg (text (p, q))); lia|]. cbn [reparse_value]. rewrite H128, E. apply (Ht F). lia.
Qed.

Lemma int_ok p s q : ready p -> JsonRead.string p = Ok (s, q) -> canonical_integer (cow_bytes s) = Ok tt -> reparse_integer (text (p, q)) = Ok tt.
Proof.
  intros [Hp Hu] Es E. apply integer_canonical in E as (Hutf & n & Hn & Hd). unfold reparse_integer. rewrite (string_text p s q Hp Hu Es), Hutf, Hn. cbn [negb ok_or]. by rewrite Hd, (proj2 (bytes_eqb_eq _ _)).
Qed.

Lemma array_member_ok fuel p4 p5 depth level : array_values_sound fuel -> ready p4 -> ws p4 = p4 -> 1 <= level ->
  values p4 (level + 1) (fun p => let? p := open p (level + 2) 91 in let? (more, p) := array_rest p in if more then array_values fuel p depth level else Ok p) = Ok p5 ->
  region level p4 p5 /\ typed_ok (str "arrayValue") depth (text (p4, p5)).
Proof.
  intros HL Hrd4 Hf4 Hl E5. apply values_inv in E5 as (nm & r1 & r2 & Ei & Hrd & Hfr & Hmr & Hnm & Hob); [|done|done|lia]. cbv beta in Ei. replace (level + 1 - 1) with level in Hob by lia. pose proof Hrd as [Hbr Hur].
  destruct (open r1 (level + 2) 91) as [r3| |] eqn:F1; [|done..]. apply open_inv in F1 as [Hd1 F1]; [|done]. scan. destruct (array_rest r3) as [[m r4]| |] eqn:F2; [|done..]. scan.
  assert (Harr : exists l, array_at (level + 1) r1 l r2 /\ Forall (fun a => value_ok (depth + 1) (text a)) l).
  { destruct m.
    - apply HL in Ei as (l & Hi & Ha); [|get_ready|by apply array_rest_fixed in F2|done]. exists l. split; [|done]. split; [lia|]. exists r3. split; [done|]. right. exists r4. replace (level + 1 + 1) with (level + 2) by lia. done.
    - injection Ei as <-. exists []. split; [|constructor]. split; [lia|]. exists r3. split; [done|]. by left. }
  destruct Harr as (l & Harr & Ha). pose proof (Hob (array_region _ _ _ _ Harr)) as Hob'. split; [by apply (object_region _ _ [(nm, (r1, r2))])|].
  pose proof (one_member level p4 nm (r1, r2) p5 ltac:(lia) Hrd4 Hob') as (_ & _ & _ & Hlen2). intros F HF. cbn [bytes_eqb].
  rewrite (reparse_one level p4 nm (r1, r2) p5 ltac:(lia) Hrd4 Hnm Hob'), (array_text (level + 1) r1 l r2 ltac:(lia) Hbr Hur Harr). apply each_ok; [done|]. intros a Hin. pose proof (array_lengths _ _ _ _ Hrd Harr a Hin). lia.
Qed.

Lemma kvlist_member_ok fuel p4 p5 depth level : attributes_sound fuel -> ready p4 -> ws p4 = p4 -> 1 <= level ->
  values p4 (level + 1) (fun p => let? (_, p) := attributes_at fuel p (depth + 1) (level + 2) in Ok p) = Ok p5 -> region level p4 p5 /\ typed_ok (str "kvlistValue") depth (text (p4, p5)).
Proof.
  intros HA Hrd4 Hf4 Hl E5. apply values_inv in E5 as (nm & r1 & r2 & Ei & Hrd & Hfr & Hmr & Hnm & Hob); [|done|done|lia]. cbv beta in Ei. replace (level + 1 - 1) with level in Hob by lia. destruct (attributes_at _ _ _ _) as [[n r3]| |] eqn:Ea; [|done..]. injection Ei as ->.
  apply HA in Ea as (l & Harr & _ & Hok); [|done|done|lia]. replace (level + 2 - 1) with (level + 1) in Harr by lia. pose proof (Hob (array_region _ _ _ _ Harr)) as Hob'. split; [by apply (object_region _ _ [(nm, (r1, r2))])|].
  pose proof (one_member level p4 nm (r1, r2) p5 ltac:(lia) Hrd4 Hob') as (_ & _ & _ & Hlen2). intros F HF. cbn [bytes_eqb]. rewrite (reparse_one level p4 nm (r1, r2) p5 ltac:(lia) Hrd4 Hnm Hob'). apply Hok. lia.
Qed.

Lemma values_sound_S fuel : array_values_sound fuel -> attributes_sound fuel -> values_sound (S fuel).
Proof.
  intros HL HA p depth level q [Hp Hu] Hf Hl E. simpl in E. destruct (128 <? depth) eqn:E128; [done|]. destruct (open p level 123) as [p1| |] eqn:E1; [|done..]. apply open_inv in E1 as [Hd E1]; [|done]. scan.
  destruct (object_open p1) as [[more p2]| |] eqn:E2; [|done..]. scan. destruct more; cbn [negb] in E.
  2:{ injection E as <-. assert (Ho : object_at (level - 1) p [] p2) by (split; [lia|]; exists p1; split; [done|]; by left). split; [by apply (object_region _ _ [])|]. intros F HF. destruct F as [|F]; [pose proof (len_nonneg (text (p, p2))); lia|].
      cbn [reparse_value]. by rewrite E128, (object_text (level - 1) p [] p2 ltac:(lia) Hp Hu Ho). }
  destruct (JsonRead.string p2) as [[name p3]| |] eqn:E3; [|done..]. scan. destruct (colon p3) as [p4| |] eqn:E4; [|done..]. scan. pose proof (colon_fixed p3 p4 ltac:(done) E4) as Hf4.
  match type of E with (match ?e with _ => _ end) = _ => destruct e as [p5| |] eqn:E5; [|done..] end. destruct (object_next p5) as [[m p6]| |] eqn:E6; [|done..]. destruct m; [done|]. injection E as <-.
  assert (Hrd4 : ready p4) by get_ready.
  enough (Hm : region level p4 p5 /\ typed_ok (cow_bytes name) depth (text (p4, p5))).
  { destruct Hm as [Hr Ht]. assert (Ho : object_at (level - 1) p [(name, (p4, p5))] p6).
    { split; [lia|]. exists p1. split; [done|]. right. exists p2. split; [done|]. replace (level - 1 + 1) with level by lia. by apply (M_last _ _ _ p3). }
    split; [by apply (object_region _ _ [(name, (p4, p5))])|]. by apply (typed_value depth (level - 1) p name (p4, p5)); [lia|..]. }
  destruct (bytes_eqb (cow_bytes name) (str "stringValue")) eqn:N1.
  { destruct (JsonRead.string p4) as [[s p7]| |] eqn:Es; [|done..]. injection E5 as <-. split; [apply (R_string _ _ s); [by apply string_peek in Es|done]|]. intros F HF. rewrite N1. by rewrite (string_text p4 s p7 ltac:(done) (proj2 Hrd4) Es). }
  destruct (bytes_eqb (cow_bytes name) (str "boolValue")) eqn:N2.
  { destruct (skip_value p4) as [[raw p7]| |] eqn:Es; [|done..]. destruct (bytes_eqb raw (str "true") || bytes_eqb raw (str "false")) eqn:Eb; [|done]. injection E5 as <-. apply text_skip in Es as [Hr ->]; [|done].
    split; [|intros F HF; by rewrite N1, N2, Eb]. apply (bool_region _ _ _ ltac:(done) Hr). apply orb_true_iff in Eb as [Eb|Eb]; apply bytes_eqb_eq in Eb; auto. }
  destruct (bytes_eqb (cow_bytes name) (str "intValue")) eqn:N3.
  { destruct (JsonRead.string p4) as [[s p7]| |] eqn:Es; [|done..]. destruct (canonical_integer _) as [[]| |] eqn:Ei; [|done..]. injection E5 as <-. split; [apply (R_string _ _ s); [by apply string_peek in Es|done]|].
    intros F HF. rewrite N1, N2, N3. by apply (int_ok p4 s). }
  destruct (bytes_eqb (cow_bytes name) (str "doubleValue")) eqn:N4.
  { destruct (skip_value p4) as [[raw p7]| |] eqn:Es; [|done..]. destruct (double raw) as [v| |] eqn:Ed; [|done..]. injection E5 as <-. apply text_skip in Es as [Hr ->]; [|done]. split; [by apply (double_region _ _ _ v ltac:(done) Hr)|]. intros F HF. by rewrite N1, N2, N3, N4, Ed. }
  destruct (bytes_eqb (cow_bytes name) (str "bytesValue")) eqn:N5.
  { destruct (JsonRead.string p4) as [[s p7]| |] eqn:Es; [|done..]. destruct (base64 _) eqn:Eb; [|done..]. injection E5 as <-. split; [apply (R_string _ _ s); [by apply string_peek in Es|done]|]. intros F HF. rewrite N1, N2, N3, N4, N5. cbn [andb].
    by rewrite (string_text p4 s p7 ltac:(done) (proj2 Hrd4) Es), Eb. }
  destruct (bytes_eqb (cow_bytes name) (str "arrayValue")) eqn:N6; [apply bytes_eqb_eq in N6 as ->; by apply (array_member_ok fuel)|].
  destruct (bytes_eqb (cow_bytes name) (str "kvlistValue")) eqn:N7; [apply bytes_eqb_eq in N7 as ->; by apply (kvlist_member_ok fuel)|done].
Qed.

Lemma pass_sound fuel : values_sound fuel /\ array_values_sound fuel /\ attributes_sound fuel /\ pairs_sound fuel /\ pair_sound fuel.
Proof.
  induction fuel as [|fuel (HV & HL & HA & HP & HQ)]; [split_and!; intros p; intros; done|].
  split_and!; [by apply values_sound_S|by apply array_values_sound_S|by apply attributes_sound_S|by apply pairs_sound_S|by apply pair_sound_S].
Qed.

(** * What re-parsing accepts, the pass accepts *)

Lemma no_members d p q : ~ members d p [] q.
Proof. inversion 1. Qed.

Lemma object_none d p q : object_at d p [] q -> d + 1 <= MAX_DEPTH /\ exists p1, expect p 123 = Ok p1 /\ object_open p1 = Ok (false, q).
Proof. intros (Hd & p1 & E1 & [[_ E2]|(p2 & _ & Hms)]); [eauto|by apply no_members in Hms]. Qed.

Lemma object_one d p name a q : object_at d p [(name, a)] q -> d + 1 <= MAX_DEPTH /\ exists p1 p2 p3, expect p 123 = Ok p1 /\ object_open p1 = Ok (true, p2) /\
  JsonRead.string p2 = Ok (name, p3) /\ colon p3 = Ok a.1 /\ region (d + 1) a.1 a.2 /\ object_next a.2 = Ok (false, q).
Proof.
  intros (Hd & p1 & E1 & [[? _]|(p2 & E2 & Hms)]); [done|]. split; [done|]. inversion Hms as [? ? ? p3 p4 p5 ? Es Ek Hr En|? ? ? p3 p4 p5 p6 ? ? Es Ek Hr En Hms']; subst; [|by apply no_members in Hms']. exists p1, p2, p3. by split_and!.
Qed.

Lemma object_two d p n1 a n2 b q : object_at d p [(n1, a); (n2, b)] q -> d + 1 <= MAX_DEPTH /\ exists p1 p2 p3 p4 p5, expect p 123 = Ok p1 /\ object_open p1 = Ok (true, p2) /\
  JsonRead.string p2 = Ok (n1, p3) /\ colon p3 = Ok a.1 /\ region (d + 1) a.1 a.2 /\ object_next a.2 = Ok (true, p4) /\
  JsonRead.string p4 = Ok (n2, p5) /\ colon p5 = Ok b.1 /\ region (d + 1) b.1 b.2 /\ object_next b.2 = Ok (false, q).
Proof.
  intros (Hd & p1 & E1 & [[? _]|(p2 & E2 & Hms)]); [done|]. split; [done|]. inversion Hms as [|? ? ? p3 x1 x2 p4 ? ? Es Ek Hr En Hms']; subst. inversion Hms' as [? ? ? p5 y1 y2 ? Es' Ek' Hr' En'|? ? ? ? ? ? ? ? ? ? ? ? ? Hms'']; subst; [|by apply no_members in Hms''].
  exists p1, p2, p3, p4, p5. by split_and!.
Qed.

Lemma reparse_values_inv d p q raw : 0 <= d -> ready p -> region d p q -> reparse_values (text (p, q)) = Ok raw -> exists name a, object_at d p [(name, a)] q /\ cow_bytes name = str "values" /\ raw = text a.
Proof.
  intros Hd [Hp Hu] Hr E. unfold reparse_values in E. destruct (whole_object _) as [owner| |] eqn:Eo; [|done..]. apply (text_object d) in Eo as (ms & Ho & ->); [|done..]. destruct (len (texts ms) =? 1) eqn:El; [|done]. cbn [negb] in E.
  destruct ms as [|[name a] [|m ms]]; [done| |]; [|unfold len in El; cbn in El; apply Z.eqb_eq in El; lia]. apply first_field_eq in E as (pre & n & post & Ef & Hn & _). cbn [texts map fst snd] in Ef.
  destruct pre as [|x pre]; [|by destruct pre]. injection Ef as <- <- _. by exists name, a.
Qed.

Lemma values_eq d p name a q inner : ready p -> ws p = p -> object_at d p [(name, a)] q -> cow_bytes name = str "values" -> inner a.1 = Ok a.2 -> values p (d + 1) inner = Ok q.
Proof.
  intros Hp Hf Ho Hn Hi. apply object_one in Ho as (Hd & p1 & p2 & p3 & E1 & E2 & E3 & E4 & Hr & E5). unfold values. rewrite (open_eq p _ _ p1) by done. rewrite E2. cbn [negb]. rewrite E3, Hn. cbn [negb]. rewrite (proj2 (bytes_eqb_eq _ _)) by done.
  cbn [negb]. by rewrite E4, Hi, E5.
Qed.

Definition values_complete (F : nat) : Prop := forall p q depth level fuel, ready p -> 1 <= level -> region (level - 1) p q -> reparse_value F (text (p, q)) depth = Ok tt -> bounded_input fuel p -> any_value fuel p depth level = Ok q.
Definition attributes_complete (F : nat) : Prop := forall p q depth level fuel, ready p -> 1 <= level -> region (level - 1) p q -> reparse_attributes F (text (p, q)) depth = Ok tt -> bounded_input fuel p -> exists n, attributes_at fuel p depth level = Ok (n, q).

Ltac shorter := repeat match goal with Hm : moved _ _ _ |- _ => apply moved_less in Hm end; lia.

Lemma items_complete F d p l q : values_complete F -> items d p l q -> forall depth level, d = level + 2 -> 1 <= level -> ready p -> each (fun raw => reparse_value F raw (depth + 1)) (map text l) = Ok tt ->
  forall fuel, remaining p + 1 < Z.of_nat fuel -> array_values fuel p depth level = Ok q.
Proof.
  intros HV. induction 1 as [d p p1 q Hr En|d p p1 p2 l q Hr En Hl IH]; intros depth level -> Hlv [Hp Hu] E fuel Hf; pose proof (region_moved _ _ _ Hr Hp); scan; cbn [map each] in E; (destruct (reparse_value F _ _) as [[]| |] eqn:E1; [|done..]);
    (destruct fuel as [|fuel]; [unfold remaining, in_bounds in *; lia|]); simpl; (rewrite (HV p p1) by (first [done|lia|replace (level + 3 - 1) with (level + 2) by lia; done|split; [done|lia]])); rewrite En; [done|].
  apply (IH depth level); [done|done|get_ready|done|]. shorter.
Qed.

Lemma key_step fuel p depth level v name p1 p2 c p3 m p4 : JsonRead.string p = Ok (name, p1) -> colon p1 = Ok p2 -> cow_bytes name = str "key" -> JsonRead.string p2 = Ok (c, p3) -> len (cow_bytes c) <> 0 -> object_next p3 = Ok (m, p4) ->
  pair_loop (S fuel) p depth level None v = if m then pair_loop fuel p4 depth level (Some (cow_bytes c)) v else Ok (Some (cow_bytes c), v, p4).
Proof.
  intros E1 E2 En E3 El E4. simpl. rewrite E1, E2, En, E3. rewrite (proj2 (Z.eqb_neq _ _) El). cbn [bytes_eqb negb andb is_some]. rewrite (proj2 (bytes_eqb_eq _ _)) by done. cbn [andb]. by rewrite E4.
Qed.

Lemma value_step fuel p depth level k name p1 p2 p3 m p4 : JsonRead.string p = Ok (name, p1) -> colon p1 = Ok p2 -> cow_bytes name = str "value" -> any_value fuel p2 depth (level + 2) = Ok p3 -> object_next p3 = Ok (m, p4) ->
  pair_loop (S fuel) p depth level k false = if m then pair_loop fuel p4 depth level k true else Ok (k, true, p4).
Proof. intros E1 E2 En E3 E4. simpl. rewrite E1, E2, En, E3. change (bytes_eqb (str "value") (str "key")) with false. change (bytes_eqb (str "value") (str "value")) with true. cbn [andb negb]. by rewrite E4. Qed.

(** The two members of a pair are its key and its value. *)
Lemma pair_fields fields rk rv : len fields = 2 -> first_field fields (str "key") = Ok rk -> first_field fields (str "value") = Ok rv ->
  exists nk nv, cow_bytes nk = str "key" /\ cow_bytes nv = str "value" /\ (fields = [(nk, rk); (nv, rv)] \/ fields = [(nv, rv); (nk, rk)]).
Proof.
  intros Hl Ek Ev. apply first_field_eq in Ek as (pre & nk & post & -> & Hk & _). apply first_field_eq in Ev as (pre' & nv & post' & E & Hv & _). unfold len in Hl. rewrite length_app in Hl. cbn in Hl. exists nk, nv. split; [done|]. split; [done|].
  assert (Hne : forall (x : bytes), (nk, rk) <> (nv, rv)) by (intros _ [= -> _]; rewrite Hk in Hv; done).
  destruct pre as [|x pre].
  - destruct post as [|z [|]]; [cbn in Hl; lia| |cbn in Hl; lia]. cbn [app] in *. destruct pre' as [|a [|b pre']]; cbn [app] in E; [simplify_eq; by destruct (Hne [])|injection E as <- -> _; auto|by destruct pre'].
  - destruct pre as [|]; [|cbn in Hl; lia]. destruct post as [|]; [|cbn in Hl; lia]. cbn [app] in *. destruct pre' as [|a [|b pre']]; cbn [app] in E; [injection E as -> _; auto|simplify_eq; by destruct (Hne [])|by destruct pre'].
Qed.

Lemma pair_complete F d p q fields depth level k fuel : values_complete F -> d = level -> 1 <= level -> ready p -> region d p q -> whole_object (text (p, q)) = Ok fields -> len fields = 2 ->
  (exists rk c rv, first_field fields (str "key") = Ok rk /\ whole_string rk = Ok c /\ cow_bytes c = k /\ len k <> 0 /\ first_field fields (str "value") = Ok rv /\ reparse_value F rv depth = Ok tt) -> remaining p <= Z.of_nat fuel ->
  exists p1 p2, open p (level + 1) 123 = Ok p1 /\ object_open p1 = Ok (true, p2) /\ pair_loop fuel p2 depth level None false = Ok (Some k, true, q).
Proof.
  intros HV -> Hl [Hp Hu] Hr E H2l (rk & c & rv & Ek & Es & Hc & Hk0 & Ev & Hv) Hf. apply (text_object level) in E as (ms & Ho & ->); [|lia|done..]. destruct (pair_fields _ _ _ H2l Ek Ev) as (nk & nv & Hnk & Hnv & Hms). subst k.
  pose proof (region_fixed _ _ _ Hp Hr) as Hfix. destruct Hms as [Hms|Hms]; (destruct ms as [|[n1 a] [|[n2 b] [|]]]; try done); cbn [texts map fst snd] in Hms; injection Hms as -> Ha -> Hb; subst rk rv;
    apply object_two in Ho as (Hd & p1 & p2 & p3 & p4 & p5 & E1 & E2 & E3 & E4 & Hr1 & E5 & E6 & E7 & Hr2 & E8); exists p1, p2; (split; [by apply open_eq|]); (split; [done|]); scan; pose proof (region_moved _ _ _ Hr1 ltac:(done)); scan;
    pose proof (region_moved _ _ _ Hr2 ltac:(done)); scan; (destruct fuel as [|[|fuel]]; [exfalso; assert (0 <= remaining q) by (unfold remaining, in_bounds in *; lia); shorter..|]).
  - rewrite (surjective_pairing a) in Es. apply (text_string (level + 1)) in Es; [|done|plain|done].
    assert (Ea : any_value fuel b.1 depth (level + 2) = Ok b.2) by (apply (HV b.1 b.2); [get_ready|lia|by replace (level + 2 - 1) with (level + 1) by lia|by rewrite <- surjective_pairing|split; [done|shorter]]).
    rewrite (key_step _ p2 depth level false nk p3 a.1 c a.2 true p4) by done. by rewrite (value_step _ p4 depth level _ nv p5 b.1 b.2 false q).
  - rewrite (surjective_pairing b) in Es. apply (text_string (level + 1)) in Es; [|done|plain|done].
    assert (Ea : any_value (S fuel) a.1 depth (level + 2) = Ok a.2) by (apply (HV a.1 a.2); [get_ready|lia|by replace (level + 2 - 1) with (level + 1) by lia|by rewrite <- surjective_pairing|split; [done|shorter]]).
    rewrite (value_step _ p2 depth level _ nv p3 a.1 a.2 true p4) by done. by rewrite (key_step _ p4 depth level true nk p5 b.1 c b.2 false q).
Qed.

Lemma pairs_complete F d p l q : values_complete F -> items d p l q -> forall depth level seen, d = level -> 1 <= level -> ready p -> reparse_pairs (fun raw => reparse_value F raw depth) (map text l) seen = Ok tt ->
  forall fuel keys, remaining p < Z.of_nat fuel -> exists ks, pairs_loop fuel p depth level keys = Ok (keys ++ ks, q) /\ NoDup ks /\ forall k, k ∈ ks -> k ∉ seen.
Proof.
  intros HV. induction 1 as [d p p1 q Hr En|d p p1 p2 l q Hr En Hl IH]; intros depth level seen -> Hlv Hrd E fuel keys Hf; pose proof Hrd as [Hp Hu]; pose proof (region_moved _ _ _ Hr Hp); scan; cbn [map reparse_pairs] in E;
    (destruct (whole_object _) as [entry| |] eqn:E1; [|done..]); (destruct (len entry =? 2) eqn:E2; [|done]); apply Z.eqb_eq in E2; cbn [negb] in E; (destruct (first_field entry (str "key")) as [rk| |] eqn:E3; [|done..]);
    (destruct (whole_string rk) as [c| |] eqn:E4; [|done..]); (destruct ((len (cow_bytes c) =? 0) || _) eqn:E5; [done|]); apply orb_false_iff in E5 as [E5 E6]; apply Z.eqb_neq in E5;
    (destruct (first_field entry (str "value")) as [rv| |] eqn:E7; [|done..]); (destruct (reparse_value F rv depth) as [[]| |] eqn:E8; [|done..]);
    (destruct fuel as [|fuel]; [unfold remaining, in_bounds in *; lia|]);
    destruct (pair_complete F level p p1 entry depth level (cow_bytes c) fuel HV eq_refl Hlv Hrd Hr E1 E2 ltac:(exists rk, c, rv; by split_and!) ltac:(lia)) as (r1 & r2 & F1 & F2 & F3); simpl; rewrite F1, F2; cbn [negb]; rewrite F3; cbn [negb ok_or]; rewrite En;
    assert (Hc : cow_bytes c ∉ seen) by (intros Hin; apply list_elem_of_In in Hin; assert (existsb (bytes_eqb (cow_bytes c)) seen = true) as Et by (apply existsb_exists; exists (cow_bytes c); split; [done|by apply bytes_eqb_eq]); congruence).
  - exists [cow_bytes c]. split_and!; [done|constructor; [intros Hx; by inversion Hx|constructor]|]. intros k Hk. apply list_elem_of_In in Hk as [<-|[]]. done.
  - destruct (IH depth level (cow_bytes c :: seen) eq_refl Hlv ltac:(get_ready) E fuel (keys ++ [cow_bytes c]) ltac:(shorter)) as (ks & Ek & Hn & Hd). exists (cow_bytes c :: ks). rewrite Ek, <- app_assoc. split_and!; [done| |].
    + constructor; [|done]. intros Hin. apply (Hd _ Hin). by constructor.
    + intros k Hk. apply elem_of_cons in Hk as [->|Hk]; [done|]. intros Hs. apply (Hd _ Hk). by constructor.
Qed.

Lemma attributes_complete_S F : values_complete F -> attributes_complete (S F).
Proof.
  intros HV p q depth level fuel Hrd Hl Hr E [_ Hf]. pose proof Hrd as [Hp Hu]. cbn [reparse_attributes] in E. destruct (whole_array _) as [raws| |] eqn:Ea; [|done..]. apply (text_array (level - 1)) in Ea as (l & Ha & ->); [|lia|done..].
  pose proof (region_fixed _ _ _ Hp Hr) as Hfix. destruct Ha as (Hd & p1 & E1 & Ha). destruct fuel as [|fuel]; [unfold remaining, in_bounds in *; lia|]. simpl. rewrite (open_eq p level 91 p1) by (done || lia). scan. destruct Ha as [[-> E2]|(p2 & E2 & Hi)].
  - rewrite E2. by exists 0.
  - rewrite E2. scan. replace (level - 1 + 1) with level in Hi by lia. destruct (pairs_complete F level p2 l q HV Hi depth level [] eq_refl Hl ltac:(get_ready) E fuel [] ltac:(shorter)) as (ks & -> & Hn & _). cbn [app].
    rewrite (proj2 (repeated_NoDup ks) Hn). by exists (len ks).
Qed.

(** The value of the one member of a typed value. *)
Lemma typed_complete F fuel p4 p5 depth level name : values_complete F -> attributes_complete F -> 1 <= level -> ready p4 -> region level p4 p5 -> remaining p4 + 2 < Z.of_nat fuel ->
  (if bytes_eqb name (str "stringValue") then let? _ := whole_string (text (p4, p5)) in Ok tt
   else if bytes_eqb name (str "boolValue") && (bytes_eqb (text (p4, p5)) (str "true") || bytes_eqb (text (p4, p5)) (str "false")) then Ok tt
   else if bytes_eqb name (str "intValue") then reparse_integer (text (p4, p5))
   else if bytes_eqb name (str "doubleValue") then let? _ := double (text (p4, p5)) in Ok tt
   else if bytes_eqb name (str "bytesValue") then let? s := whole_string (text (p4, p5)) in if base64 (cow_bytes s) then Ok tt else Fallback
   else if bytes_eqb name (str "arrayValue") then let? raw := reparse_values (text (p4, p5)) in let? l := whole_array raw in each (fun raw => reparse_value F raw (depth + 1)) l
   else if bytes_eqb name (str "kvlistValue") then let? raw := reparse_values (text (p4, p5)) in reparse_attributes F raw (depth + 1)
   else Fallback) = Ok tt ->
  (if bytes_eqb name (str "stringValue") then let? (_, p) := JsonRead.string p4 in Ok p
   else if bytes_eqb name (str "boolValue") then let? (raw, p) := skip_value p4 in if bytes_eqb raw (str "true") || bytes_eqb raw (str "false") then Ok p else Fallback
   else if bytes_eqb name (str "intValue") then let? (s, p) := JsonRead.string p4 in let? _ := canonical_integer (cow_bytes s) in Ok p
   else if bytes_eqb name (str "doubleValue") then let? (raw, p) := skip_value p4 in let? _ := double raw in Ok p
   else if bytes_eqb name (str "bytesValue") then let? (s, p) := JsonRead.string p4 in if base64 (cow_bytes s) then Ok p else Fallback
   else if bytes_eqb name (str "arrayValue") then values p4 (level + 1) (fun p => let? p := open p (level + 2) 91 in let? (more, p) := array_rest p in if more then array_values fuel p depth level else Ok p)
   else if bytes_eqb name (str "kvlistValue") then values p4 (level + 1) (fun p => let? (_, p) := attributes_at fuel p (depth + 1) (level + 2) in Ok p)
   else Fallback) = Ok p5.
Proof.
  intros HV HA Hl [Hp Hu] Hr Hf E. pose proof (region_fixed _ _ _ Hp Hr) as Hfix.
  destruct (bytes_eqb name (str "stringValue")); [destruct (whole_string _) as [s| |] eqn:Es; [|done..]; by rewrite (text_string level p4 p5 s Hp Hu Hr Es)|].
  destruct (bytes_eqb name (str "boolValue")) eqn:N2.
  { destruct (bytes_eqb (text (p4, p5)) (str "true") || bytes_eqb (text (p4, p5)) (str "false")) eqn:Eb.
    - rewrite (skip_reads p4 p5 Hp); [by rewrite Eb|]. apply (bool_region _ _ _ Hp Hr). apply orb_true_iff in Eb as [Eb|Eb]; apply bytes_eqb_eq in Eb; auto.
    - apply bytes_eqb_eq in N2 as ->. done. }
  cbn [andb] in E. destruct (bytes_eqb name (str "intValue")).
  { unfold reparse_integer in E. destruct (whole_string _) as [s| |] eqn:Es; [|done..]. rewrite (text_string level p4 p5 s Hp Hu Hr Es). destruct (from_utf8_ok _) eqn:E8; [|done]. cbn [negb] in E. destruct (parse_i64 _) as [n|] eqn:Ep; [|done]. cbn [ok_or] in E.
    destruct (bytes_eqb _ _) eqn:Eq in E; [|done]. apply bytes_eqb_eq in Eq. rewrite (proj2 (integer_canonical (cow_bytes s))); [done|]. split; [done|]. by exists n. }
  destruct (bytes_eqb name (str "doubleValue")); [destruct (double _) as [v| |] eqn:Ed; [|done..]; rewrite (skip_reads p4 p5 Hp (double_region _ _ _ v Hp Hr Ed _)); by rewrite Ed|].
  destruct (bytes_eqb name (str "bytesValue")); [destruct (whole_string _) as [s| |] eqn:Es; [|done..]; rewrite (text_string level p4 p5 s Hp Hu Hr Es); by destruct (base64 _)|].
  destruct (bytes_eqb name (str "arrayValue")).
  { destruct (reparse_values _) as [raw| |] eqn:Ev; [|done..]. apply (reparse_values_inv level) in Ev as (nm & a & Ho & Hn & ->); [|lia|done|done]. pose proof (one_member level p4 nm a p5 ltac:(lia) ltac:(done) Ho) as (_ & [Hpa Hua] & Hra & Hlen).
    apply (values_eq level p4 nm a p5); [done..|]. cbv beta. destruct (whole_array _) as [raws| |] eqn:Ea; [|done..]. destruct a as [r1 r2]. cbn [fst snd] in *. apply (text_array (level + 1)) in Ea as (l & Ha & ->); [|lia|done..]. pose proof (region_fixed _ _ _ Hpa Hra) as Hfa.
    pose proof (object_one _ _ _ _ _ Ho) as (_ & q1 & q2 & q3 & G1 & G2 & G3 & G4 & _). cbn [fst] in G4. scan. destruct Ha as (Hd & p1 & E1 & Ha). rewrite (open_eq r1 _ 91 p1) by (done || lia). scan. destruct Ha as [[-> E2]|(p2 & E2 & Hi)]; [by rewrite E2|]. rewrite E2. scan.
    apply (items_complete F (level + 2) p2 l r2 HV); [by replace (level + 2) with (level + 1 + 1) by lia|done|done|get_ready|done|shorter]. }
  destruct (bytes_eqb name (str "kvlistValue")); [|done].
  destruct (reparse_values _) as [raw| |] eqn:Ev; [|done..]. apply (reparse_values_inv level) in Ev as (nm & a & Ho & Hn & ->); [|lia|done|done]. pose proof (one_member level p4 nm a p5 ltac:(lia) ltac:(done) Ho) as (_ & [Hpa Hua] & Hra & Hlen).
  apply (values_eq level p4 nm a p5); [done..|]. cbv beta. pose proof (object_one _ _ _ _ _ Ho) as (_ & q1 & q2 & q3 & G1 & G2 & G3 & G4 & _). scan.
  destruct (HA a.1 a.2 (depth + 1) (level + 2) fuel) as [n ->]; [done|lia|by replace (level + 2 - 1) with (level + 1) by lia|by rewrite <- surjective_pairing|split; [done|shorter]|done].
Qed.

Lemma values_complete_S F : values_complete F -> attributes_complete F -> values_complete (S F).
Proof.
  intros HV HA p q depth level fuel Hrd Hl Hr E [_ Hf]. pose proof Hrd as [Hp Hu]. cbn [reparse_value] in E. destruct (128 <? depth) eqn:E128; [done|]. destruct (whole_object _) as [fields| |] eqn:Eo; [|done..]. apply (text_object (level - 1)) in Eo as (ms & Ho & ->); [|lia|done..].
  pose proof (region_fixed _ _ _ Hp Hr) as Hfix. destruct fuel as [|fuel]; [unfold remaining, in_bounds in *; lia|]. simpl. rewrite E128. destruct ms as [|[name a] [|m ms]]; [| |done].
  - apply object_none in Ho as (Hd & p1 & E1 & E2). rewrite (open_eq p level 123 p1) by (done || lia). by rewrite E2.
  - apply object_one in Ho as (Hd & p1 & p2 & p3 & E1 & E2 & E3 & E4 & Hra & E5). rewrite (open_eq p level 123 p1) by (done || lia). rewrite E2. cbn [negb]. rewrite E3, E4. scan. cbn [texts map fst snd] in E. destruct a as [p4 p5]. cbn [fst snd] in *.
    replace (level - 1 + 1) with level in Hra by lia.
    rewrite (typed_complete F fuel p4 p5 depth level (cow_bytes name) HV HA Hl ltac:(get_ready) Hra ltac:(shorter) E). by rewrite E5.
Qed.

Lemma pass_complete F : values_complete F /\ attributes_complete F.
Proof. induction F as [|F [HV HA]]; [split; intros p q depth level fuel; intros; done|]. split; [by apply values_complete_S|by apply attributes_complete_S]. Qed.

(** * The envelope *)

Lemma list_reparsed raw : list_ok 0 raw -> reparse_list raw = Ok tt.
Proof. intros Hok. apply Hok. unfold text_fuel, len. lia. Qed.

Lemma attributes_sound_at p level n q : ready p -> ws p = p -> 1 <= level -> attributes p 0 level = Ok (n, q) -> exists l, array_at (level - 1) p l q /\ len l = n /\ reparse_list (text (p, q)) = Ok tt.
Proof.
  intros Hp Hf Hl E. destruct (pass_sound (pass_fuel p)) as (_ & _ & HA & _). destruct (HA _ _ _ _ _ Hp Hf Hl E) as (l & Ha & Hn & Hok). exists l. split; [done|]. split; [done|]. by apply list_reparsed.
Qed.

Lemma attributes_complete_at p level q : ready p -> 1 <= level -> region (level - 1) p q -> reparse_list (text (p, q)) = Ok tt -> exists n, attributes p 0 level = Ok (n, q).
Proof. intros Hp Hl Hr E. destruct (pass_complete (text_fuel (text (p, q)))) as [_ HA]. apply (HA _ _ _ _ _ Hp Hl Hr E). apply full_input, Hp. Qed.

Lemma owners_loop_sound fuel p count n q : ready p -> ws p = p -> owners_loop fuel p count = Ok (n, q) -> exists l, items 2 p l q /\ n = count + len l /\ each reparse_list (map text l) = Ok tt.
Proof.
  revert p count. induction fuel as [|fuel IH]; intros p count Hrd Hf E; cbn [owners_loop] in E; [done|]. destruct (attributes p 0 3) as [[m p1]| |] eqn:E1; [|done..]. apply attributes_sound_at in E1 as (l1 & Ha & _ & Hok); [|done|done|lia].
  apply array_region in Ha. pose proof Hrd as [Hp Hu]. pose proof (region_moved _ _ _ Ha Hp). scan. destruct (array_next p1) as [[more p2]| |] eqn:E2; [|done..]. scan. destruct more.
  - apply IH in E as (l & Hi & -> & He); [|get_ready|by apply array_next_fixed in E2]. exists ((p, p1) :: l). split; [by apply (I_more _ _ p1 p2)|]. split; [rewrite len_cons; lia|]. cbn [map each]. by rewrite Hok.
  - injection E as <- <-. exists [(p, p1)]. split; [by apply I_last|]. split; [done|]. cbn [map each]. by rewrite Hok.
Qed.

Lemma owners_sound p n q : ready p -> ws p = p -> owners p = Ok (n, q) -> exists l, array_at 1 p l q /\ n = len l /\ each reparse_list (map text l) = Ok tt.
Proof.
  intros [Hp Hu] Hf E. unfold owners in E. destruct (open p 2 91) as [p1| |] eqn:E1; [|done..]. apply open_inv in E1 as [Hd E1]; [|done]. scan. destruct (array_rest p1) as [[more p2]| |] eqn:E2; [|done..]. scan. destruct more.
  - apply owners_loop_sound in E as (l & Hi & -> & He); [|get_ready|by apply array_rest_fixed in E2]. exists l. split; [|split; [lia|done]]. split; [done|]. exists p1. split; [done|]. right. by exists p2.
  - injection E as <- <-. exists []. split; [|done]. split; [done|]. exists p1. split; [done|]. by left.
Qed.

Lemma owners_loop_complete d p l q : items d p l q -> d = 2 -> ready p -> each reparse_list (map text l) = Ok tt -> forall fuel count, remaining p < Z.of_nat fuel -> exists n, owners_loop fuel p count = Ok (n, q).
Proof.
  induction 1 as [d p p1 q Hr En|d p p1 p2 l q Hr En Hl IH]; intros -> Hrd E fuel count Hf; pose proof Hrd as [Hp Hu]; pose proof (region_moved _ _ _ Hr Hp); scan; cbn [map each] in E; (destruct (reparse_list (text (p, p1))) as [[]| |] eqn:E1; [|done..]);
    (destruct fuel as [|fuel]; [unfold remaining, in_bounds in *; lia|]); cbn [owners_loop]; destruct (attributes_complete_at p 3 p1 Hrd ltac:(lia) Hr E1) as [m ->]; rewrite En; [by eexists|]. apply IH; [done|get_ready|done|shorter].
Qed.

Lemma owners_complete p q l : ready p -> region 1 p q -> whole_array (text (p, q)) = Ok l -> each reparse_list l = Ok tt -> exists n, owners p = Ok (n, q).
Proof.
  intros Hrd Hr Ea He. pose proof Hrd as [Hp Hu]. pose proof (region_fixed _ _ _ Hp Hr) as Hf. apply (text_array 1) in Ea as (places & Ha & ->); [|lia|done..]. destruct Ha as (Hd & p1 & E1 & Ha). unfold owners. rewrite (open_eq p 2 91 p1) by (done || lia). scan.
  destruct Ha as [[-> E2]|(p2 & E2 & Hi)]; rewrite E2; [by eexists|]. scan. apply (owners_loop_complete _ _ _ _ Hi eq_refl); [get_ready|done|]. unfold pass_fuel, remaining, in_bounds, len in *. lia.
Qed.

(** What the value of an envelope member must be. *)
Definition member_good (bit : Z) (raw : bytes) : Prop :=
  if bit =? 1 then raw = str "1"
  else if (bit =? 16) || (bit =? 32) then exists l, whole_array raw = Ok l /\ each reparse_list l = Ok tt
  else reparse_list raw = Ok tt.

(** The counter a member sets. *)
Definition slot (bit : Z) (x : Seen) : option Z :=
  if bit =? 16 then Some x.(s_events) else if bit =? 32 then Some x.(s_links) else if bit =? 2 then Some x.(s_resource) else if bit =? 8 then Some x.(s_span) else None.
Definition counted (raw : bytes) (n : Z) : Prop := exists l, whole_array raw = Ok l /\ len l = n.

Definition BITS : list Z := [1; 2; 4; 8; 16; 32].

Lemma member_bit_in name bit : member_bit name = Some bit -> In bit BITS.
Proof. unfold member_bit. repeat (case_match; [intros [= <-]; cbn; auto 8|]). done. Qed.

Lemma slot_good p level l n q : 0 <= level - 1 -> ready p -> array_at (level - 1) p l q -> len l = n -> counted (text (p, q)) n.
Proof. intros Hl [Hp Hu] Ha Hn. exists (map text l). split; [by apply (array_text (level - 1))|]. unfold len in *. by rewrite length_map. Qed.

Lemma version_region d p q : in_bounds p -> region d p q -> text (p, q) = str "1" -> forall x, region x p q.
Proof.
  intros Hp Hr Ht. pose proof (text_first p q Hp (region_moved _ _ _ Hr Hp)) as Ec. rewrite Ht in Ec. destruct (region_first _ _ _ _ Hp Hr Ec) as [[? _]|[[? _]|[[? _]|(_ & _ & _ & Hx)]]]; done.
Qed.

Lemma member_value_sound bit p x y q : In bit BITS -> ready p -> ws p = p -> member_value bit p x = Ok (y, q) ->
  region 1 p q /\ member_good bit (text (p, q)) /\ y.(s_seen) = x.(s_seen) /\ y.(s_members) = x.(s_members) /\ (forall n, slot bit y = Some n -> counted (text (p, q)) n) /\ forall b, In b BITS -> b <> bit -> slot b y = slot b x.
Proof.
  intros Hb Hrd Hf E. pose proof Hrd as [Hp Hu]. unfold member_value in E.
  destruct Hb as [<-|[<-|[<-|[<-|[<-|[<-|[]]]]]]]; cbn [Z.eqb Pos.eqb] in E.
  - destruct (skip_value p) as [[raw p1]| |] eqn:E1; [|done..]. destruct (bytes_eqb raw _) eqn:Eb; [|done]. injection E as <- <-. apply text_skip in E1 as [Hr ->]; [|done]. apply bytes_eqb_eq in Eb. split; [by apply (version_region _ _ _ Hp Hr)|]. split_and!; try done.
  - destruct (attributes p 0 2) as [[n p1]| |] eqn:E1; [|done..]. injection E as <- <-. apply attributes_sound_at in E1 as (l & Ha & Hn & Hok); [|done|done|lia]. split; [by apply (array_region _ _ l)|]. split_and!; try done.
    + intros m [= <-]. by apply (slot_good p 2 l).
    + intros b [<-|[<-|[<-|[<-|[<-|[<-|[]]]]]]] Hne; done.
  - destruct (attributes p 0 2) as [[n p1]| |] eqn:E1; [|done..]. injection E as <- <-. apply attributes_sound_at in E1 as (l & Ha & Hn & Hok); [|done|done|lia]. split; [by apply (array_region _ _ l)|]. by split_and!.
  - destruct (attributes p 0 2) as [[n p1]| |] eqn:E1; [|done..]. injection E as <- <-. apply attributes_sound_at in E1 as (l & Ha & Hn & Hok); [|done|done|lia]. split; [by apply (array_region _ _ l)|]. split_and!; try done.
    + intros m [= <-]. by apply (slot_good p 2 l).
    + intros b [<-|[<-|[<-|[<-|[<-|[<-|[]]]]]]] Hne; done.
  - destruct (owners p) as [[n p1]| |] eqn:E1; [|done..]. injection E as <- <-. apply owners_sound in E1 as (l & Ha & -> & He); [|done|done]. split; [by apply (array_region _ _ l)|]. split; [exists (map text l); split; [by apply (array_text 1)|done]|]. split_and!; try done.
    + intros m [= <-]. by apply (slot_good p 2 l).
    + intros b [<-|[<-|[<-|[<-|[<-|[<-|[]]]]]]] Hne; done.
  - destruct (owners p) as [[n p1]| |] eqn:E1; [|done..]. injection E as <- <-. apply owners_sound in E1 as (l & Ha & -> & He); [|done|done]. split; [by apply (array_region _ _ l)|]. split; [exists (map text l); split; [by apply (array_text 1)|done]|]. split_and!; try done.
    + intros m [= <-]. by apply (slot_good p 2 l).
    + intros b [<-|[<-|[<-|[<-|[<-|[<-|[]]]]]]] Hne; done.
Qed.

Lemma member_value_complete bit p x q : In bit BITS -> ready p -> region 1 p q -> member_good bit (text (p, q)) -> exists y, member_value bit p x = Ok (y, q).
Proof.
  intros Hb Hrd Hr Hg. pose proof Hrd as [Hp Hu]. unfold member_value. destruct Hb as [<-|[<-|[<-|[<-|[<-|[<-|[]]]]]]]; cbn [Z.eqb Pos.eqb member_good orb] in Hg |- *.
  - rewrite (skip_reads p q Hp (version_region _ _ _ Hp Hr Hg _)), Hg. by eexists.
  - destruct (attributes_complete_at p 2 q Hrd ltac:(lia) Hr Hg) as [n ->]. by eexists.
  - destruct (attributes_complete_at p 2 q Hrd ltac:(lia) Hr Hg) as [n ->]. by eexists.
  - destruct (attributes_complete_at p 2 q Hrd ltac:(lia) Hr Hg) as [n ->]. by eexists.
  - destruct Hg as (l & Ea & He). destruct (owners_complete p q l Hrd Hr Ea He) as [n ->]. by eexists.
  - destruct Hg as (l & Ea & He). destruct (owners_complete p q l Hrd Hr Ea He) as [n ->]. by eexists.
Qed.

(** ** The six bits *)

Definition has (seen b : Z) : bool := negb (Z.land seen b =? 0).
Definition bit_of (m : Cow * Place) : Z := default 0 (member_bit (cow_bytes m.1)).

Lemma six_bits : forallb (fun s => forallb (fun b => (0 <=? Z.lor s b) && (Z.lor s b <=? 63) && forallb (fun c => Bool.eqb (has (Z.lor s b) c) (has s c || (b =? c))) BITS) BITS) (map Z.of_nat (seq 0 64)) = true.
Proof. by vm_compute. Qed.

Lemma has_lor s b c : 0 <= s <= 63 -> In b BITS -> In c BITS -> has (Z.lor s b) c = has s c || (b =? c) /\ 0 <= Z.lor s b <= 63.
Proof.
  intros Hs Hb Hc. pose proof six_bits as E. rewrite forallb_forall in E. specialize (E s ltac:(apply in_map_iff; exists (Z.to_nat s); split; [lia|apply in_seq; lia])). rewrite forallb_forall in E.
  specialize (E b Hb). apply andb_true_iff in E as [E1 E2]. rewrite forallb_forall in E2. specialize (E2 c Hc). apply Bool.eqb_prop in E2. split; [done|]. bools. lia.
Qed.

Lemma full_bits : forallb (fun s => Bool.eqb (s =? 63) (forallb (has s) BITS)) (map Z.of_nat (seq 0 64)) = true.
Proof. by vm_compute. Qed.

Lemma seen_all s : 0 <= s <= 63 -> s = 63 <-> (forall b, In b BITS -> has s b = true).
Proof.
  intros Hs. pose proof full_bits as E. rewrite forallb_forall in E. specialize (E s ltac:(apply in_map_iff; exists (Z.to_nat s); split; [lia|apply in_seq; lia])). apply Bool.eqb_prop in E. rewrite <- forallb_forall, <- E. symmetry. apply Z.eqb_eq.
Qed.

(** ** The loop over the members *)

Record loop_ok (x y : Seen) (ms : list (Cow * Place)) : Prop := mkLoopOk {
  l_members : y.(s_members) = x.(s_members) ++ texts ms;
  l_range : 0 <= y.(s_seen) <= 63;
  l_bits : Forall (fun m => member_bit (cow_bytes m.1) = Some (bit_of m) /\ has x.(s_seen) (bit_of m) = false /\ member_good (bit_of m) (text m.2)) ms;
  l_distinct : NoDup (map bit_of ms);
  l_seen : forall b, In b BITS -> has y.(s_seen) b = true <-> has x.(s_seen) b = true \/ In b (map bit_of ms);
  l_slots : Forall (fun m => forall n, slot (bit_of m) y = Some n -> counted (text m.2) n) ms;
  l_others : forall b, In b BITS -> ~ In b (map bit_of ms) -> slot b y = slot b x
}.

Lemma loop_none x : 0 <= x.(s_seen) <= 63 -> loop_ok x x [].
Proof. intros Hx. constructor; [by rewrite app_nil_r|done|constructor|constructor| |constructor|done]. cbn. tauto. Qed.

Lemma loop_cons x bit name a x1 ms y : 0 <= x.(s_seen) <= 63 -> member_bit (cow_bytes name) = Some bit -> has x.(s_seen) bit = false -> member_good bit (text a) ->
  x1.(s_seen) = Z.lor x.(s_seen) bit -> x1.(s_members) = x.(s_members) ++ [(name, text a)] -> (forall n, slot bit x1 = Some n -> counted (text a) n) -> (forall b, In b BITS -> b <> bit -> slot b x1 = slot b x) ->
  loop_ok x1 y ms -> loop_ok x y ((name, a) :: ms).
Proof.
  intros Hx Hb Hn Hg Hs Hm Hc Ho [Lm Lr Lb Ld Ls Lc Lo]. pose proof (member_bit_in _ _ Hb) as Hin. assert (Eb : bit_of (name, a) = bit) by (unfold bit_of; cbn; by rewrite Hb).
  assert (Hlor : forall c, In c BITS -> has x1.(s_seen) c = has x.(s_seen) c || (bit =? c)) by (intros c Hcin; rewrite Hs; by apply has_lor). assert (Hin1 : has x1.(s_seen) bit = true) by (rewrite Hlor by done; by rewrite Z.eqb_refl, orb_true_r).
  assert (Hnew : ~ In bit (map bit_of ms)) by (intros Hi; apply in_map_iff in Hi as (m & Em & Hi); rewrite Forall_forall in Lb; destruct (Lb m Hi) as (_ & Hf & _); rewrite Em in Hf; congruence).
  constructor; cbn [map]; rewrite ?Eb.
  - rewrite Lm, Hm, <- app_assoc. done.
  - done.
  - constructor; [rewrite Eb; done|]. eapply Forall_impl; [|exact Lb]. intros m (H1m & H2m & H3m). split_and!; [done| |done]. rewrite Hlor in H2m by (by apply member_bit_in in H1m). by apply orb_false_iff in H2m as [? _].
  - constructor; [|done]. intros Hi. apply Hnew. by apply list_elem_of_In.
  - intros b Hbin. rewrite (Ls b Hbin), Hlor by done. rewrite orb_true_iff, Z.eqb_eq. cbn. tauto.
  - constructor; [|done]. cbn [snd]. rewrite Eb. intros n Hsl. apply Hc. by rewrite <- (Lo bit Hin Hnew).
  - intros b Hbin Hni. rewrite Lo; [|done|intros Hi; apply Hni; by right]. apply Ho; [done|]. intros ->. apply Hni. by left.
Qed.

Lemma envelope_loop_sound fuel p payload x y q : ready p -> p.(jbuf) = payload -> 0 <= x.(s_seen) <= 63 -> envelope_loop fuel p payload x = Ok (y, q) -> exists ms, members 1 p ms q /\ loop_ok x y ms.
Proof.
  revert p x. induction fuel as [|fuel IH]; intros p x [Hp Hu] Hbuf Hx E; cbn [envelope_loop] in E; [done|]. destruct (JsonRead.string p) as [[name p1]| |] eqn:E1; [|done..]. scan. destruct (colon p1) as [p2| |] eqn:E2; [|done..]. scan.
  destruct (member_bit (cow_bytes name)) as [bit|] eqn:Eb; [|done]. cbn [ok_or] in E. destruct (negb _) eqn:En; [done|]. destruct (member_value bit p2 _) as [[x1 p3]| |] eqn:E3; [|done..].
  apply member_value_sound in E3 as (Hr & Hg & Hs & Hm & Hc & Ho); [|by apply (member_bit_in (cow_bytes name))|get_ready|by apply (colon_fixed p1)]. cbn in Hs, Hm. pose proof (region_moved _ _ _ Hr ltac:(done)). scan.
  destruct (object_next p3) as [[more p4]| |] eqn:E4; [|done..]. scan. pose proof (member_bit_in _ _ Eb) as Hin.
  assert (Hb2 : jbuf p2 = payload) by (repeat match goal with Hmv : moved _ _ _ |- _ => destruct Hmv as (? & _) end; congruence). assert (Hrange : 0 <= s_seen x1 <= 63) by (rewrite Hs; by apply (has_lor _ _ bit)).
  assert (Hstep : forall ms, loop_ok (mkSeen (s_seen x1) (s_events x1) (s_links x1) (s_members x1 ++ [(name, slice payload (jpos p2) (jpos p3))]) (s_resource x1) (s_span x1)) y ms -> loop_ok x y ((name, (p2, p3)) :: ms)).
  { intros ms Hms. match type of Hms with loop_ok ?z _ _ => refine (loop_cons x bit name (p2, p3) z ms y Hx Eb En Hg Hs _ Hc Ho Hms) end. cbn. rewrite Hm. unfold text. cbn. by rewrite Hb2. }
  destruct more.
  - apply IH in E as (ms & Hms & Hok); [|get_ready| |done]; [|repeat match goal with Hmv : moved _ _ _ |- _ => destruct Hmv as (? & _) end; congruence]. exists ((name, (p2, p3)) :: ms). split; [by apply (M_more _ _ _ p1 p2 p3 p4)|]. by apply Hstep.
  - injection E as <- <-. exists [(name, (p2, p3))]. split; [by apply (M_last _ _ _ p1)|]. apply Hstep. by apply loop_none.
Qed.

Lemma envelope_loop_complete d p ms q payload : members d p ms q -> d = 1 -> ready p -> forall x fuel, 0 <= x.(s_seen) <= 63 ->
  Forall (fun m => member_bit (cow_bytes m.1) = Some (bit_of m) /\ has x.(s_seen) (bit_of m) = false /\ member_good (bit_of m) (text m.2)) ms -> NoDup (map bit_of ms) -> remaining p < Z.of_nat fuel -> exists y, envelope_loop fuel p payload x = Ok (y, q).
Proof.
  induction 1 as [d p k p1 p2 p3 q Es Ek Hr En|d p k p1 p2 p3 p4 ms q Es Ek Hr En Hms IH]; intros -> Hrd x fuel Hx Hb Hn Hf; pose proof Hrd as [Hp Hu]; scan; pose proof (region_moved _ _ _ Hr ltac:(done)); scan;
    inversion Hb as [|? ? (Hb1 & Hb2 & Hb3) Hb']; subst; cbn [fst snd] in Hb1, Hb3; pose proof (member_bit_in _ _ Hb1) as Hin; (destruct fuel as [|fuel]; [unfold remaining, in_bounds in *; lia|]); cbn [envelope_loop]; rewrite Es, Ek, Hb1; cbn [ok_or];
    unfold has in Hb2; rewrite Hb2; match goal with |- context[member_value ?b p2 ?z] => destruct (member_value_complete b p2 z p3 Hin ltac:(get_ready) Hr Hb3) as [x1 Ex]; rewrite Ex end; rewrite En; [by eexists|].
  apply member_value_sound in Ex as (_ & _ & Hs & _); [|done|get_ready|by apply (colon_fixed p1)]. cbn in Hs. apply IH; [done|get_ready|cbn; rewrite Hs; by apply (has_lor _ _ (bit_of (k, (p2, p3))))| |by inversion Hn|shorter].
  cbn [s_seen]. rewrite Hs. inversion Hn as [|? ? Hnew _]; subst. rewrite Forall_forall in Hb' |- *. intros m Hm. destruct (Hb' m Hm) as (B1 & B2 & B3). split_and!; [done| |done]. pose proof (member_bit_in _ _ B1).
  destruct (has_lor (s_seen x) (bit_of (k, (p2, p3))) (bit_of m) Hx Hin ltac:(done)) as [-> _]. rewrite B2. cbn [orb]. apply Z.eqb_neq. intros Ee. apply Hnew. rewrite Ee. apply list_elem_of_In. by apply in_map.
Qed.

(** ** The six members *)

Lemma nodup_map_inj {A B} (f : A -> B) l a b : NoDup (map f l) -> In a l -> In b l -> f a = f b -> a = b.
Proof.
  induction l as [|x l IH]; intros Hn Ha Hb E; [done|]. cbn [map] in Hn. inversion Hn as [|? ? Hx Hn']; subst. destruct Ha as [->|Ha], Hb as [->|Hb]; [done| | |by apply IH].
  - exfalso. apply Hx. rewrite E. by apply list_elem_of_In, in_map.
  - exfalso. apply Hx. rewrite <- E. by apply list_elem_of_In, in_map.
Qed.

Lemma member_bit_name n m b : member_bit n = Some b -> member_bit m = Some b -> n = m.
Proof.
  unfold member_bit. intros Hn Hm. repeat (match type of Hn with (if ?c then _ else _) = _ => destruct c eqn:?; [injection Hn as <-|] end); try done;
    repeat (match type of Hm with (if ?c then _ else _) = _ => destruct c eqn:?; [try done|] end); try done; repeat match goal with E : bytes_eqb _ _ = true |- _ => apply bytes_eqb_eq in E; subst end; done.
Qed.

Lemma first_field_member ms name bit m : member_bit name = Some bit -> NoDup (map bit_of ms) -> In m ms -> bit_of m = bit -> first_field (texts ms) name = Ok (text m.2).
Proof.
  intros Hb Hn Hin Hm. unfold first_field. assert (Hname : cow_bytes m.1 = name).
  { apply (member_bit_name _ _ bit); [|done]. unfold bit_of in Hm. destruct (member_bit (cow_bytes m.1)); [by subst|]. cbn in Hm. subst bit. by apply member_bit_in in Hb as [?|[?|[?|[?|[?|[?|[]]]]]]]. }
  destruct (List.find _ (texts ms)) as [[n raw]|] eqn:Ef.
  - apply find_some in Ef as [Hi Hq]. apply bytes_eqb_eq in Hq. cbn in Hq. apply in_map_iff in Hi as (m' & Em & Hi). injection Em as En Er. rewrite <- (nodup_map_inj bit_of ms m' m Hn Hi Hin); [by rewrite Er|]. unfold bit_of. by rewrite En, Hq, Hname.
  - pose proof (find_none _ _ Ef (m.1, text m.2) ltac:(apply in_map_iff; by exists m)) as Hx. cbn in Hx. by rewrite (proj2 (bytes_eqb_eq _ _) Hname) in Hx.
Qed.

Definition NONE : Seen := mkSeen 0 0 0 [] 0 0.

Lemma six_members y ms : loop_ok NONE y ms -> y.(s_seen) = 63 -> len ms = 6 /\ forall name bit, member_bit name = Some bit -> exists m, In m ms /\ bit_of m = bit /\ first_field (texts ms) name = Ok (text m.2).
Proof.
  intros Hok H63. pose proof (proj1 (seen_all _ (l_range _ _ _ Hok)) H63) as Hall. assert (Hin : forall b, In b BITS <-> In b (map bit_of ms)).
  { intros b. split.
    - intros Hb. apply (l_seen _ _ _ Hok b Hb) in Hall; [|done]. destruct Hall as [Hz|Hi]; [|done]. unfold has, NONE in Hz. cbn [s_seen] in Hz. by rewrite Z.land_0_l in Hz.
    - intros Hb. apply in_map_iff in Hb as (m & <- & Hm). pose proof (l_bits _ _ _ Hok) as Hbits. rewrite Forall_forall in Hbits. destruct (Hbits m Hm) as (E & _). by apply member_bit_in in E. }
  split.
  - assert (Hp : map bit_of ms ≡ₚ BITS).
    { apply NoDup_Permutation; [apply (l_distinct _ _ _ Hok)|by apply (bool_decide_unpack _); vm_compute|]. intros b. rewrite !list_elem_of_In. symmetry. apply Hin. }
    apply Permutation_length in Hp. rewrite length_map in Hp. unfold len. rewrite Hp. done.
  - intros name bit Hb. pose proof (proj1 (Hin bit) (member_bit_in _ _ Hb)) as Hi. apply in_map_iff in Hi as (m & Em & Hm). exists m. split; [done|]. split; [done|]. by apply (first_field_member ms name bit); [|apply (l_distinct _ _ _ Hok)|..].
Qed.

(** What the oracle asks of the members. *)
Definition six_good (meta : RawFields) : Prop := len meta = 6 /\ forall name bit, member_bit name = Some bit -> exists raw, first_field meta name = Ok raw /\ member_good bit raw.

Lemma envelope_sound p payload ev ln e q : ready p -> ws p = p -> p.(jbuf) = payload -> envelope p payload = Ok (ev, ln, e, q) ->
  exists ms y, object_at 0 p ms q /\ loop_ok NONE y ms /\ six_good (texts ms) /\ e = mkEnvelope (texts ms) y.(s_resource) y.(s_span) /\ ev = y.(s_events) /\ ln = y.(s_links) /\ y.(s_seen) = 63.
Proof.
  intros [Hp Hu] Hf Hb E. unfold envelope in E. destruct (open p 1 123) as [p1| |] eqn:E1; [|done..]. apply open_inv in E1 as [Hd E1]; [|done]. scan. destruct (object_open p1) as [[more p2]| |] eqn:E2; [|done..]. scan. destruct more; [|done]. fold NONE in E.
  destruct (envelope_loop _ _ _ _) as [[y p3]| |] eqn:E3; [|done..]. destruct (s_seen y =? 63) eqn:E63; [|done]. apply Z.eqb_eq in E63. cbn [negb] in E. injection E as <- <- <- <-.
  apply envelope_loop_sound in E3 as (ms & Hms & Hok); [|get_ready| |done]; [|repeat match goal with Hmv : moved _ _ _ |- _ => destruct Hmv as (? & _) end; congruence].
  exists ms, y. split; [split; [done|]; exists p1; split; [done|]; right; by exists p2|]. split; [done|]. destruct (six_members y ms Hok E63) as [Hl Hsix]. split; [|by rewrite (l_members _ _ _ Hok)]. split; [unfold len, texts in *; by rewrite length_map|].
  intros name bit Hbit. destruct (Hsix name bit Hbit) as (m & Hm & Em & Ef). exists (text m.2). split; [done|]. pose proof (l_bits _ _ _ Hok) as Hbits. rewrite Forall_forall in Hbits. destruct (Hbits m Hm) as (_ & _ & Hg). by rewrite Em in Hg.
Qed.

Lemma envelope_complete p payload q ms : ready p -> ws p = p -> p.(jbuf) = payload -> object_at 0 p ms q -> six_good (texts ms) -> exists ev ln e, envelope p payload = Ok (ev, ln, e, q).
Proof.
  intros Hrd Hf Hb Ho [Hl Hg]. pose proof Hrd as [Hp Hu]. assert (Hlen : length ms = 6%nat) by (unfold len, texts in Hl; rewrite length_map in Hl; lia).
  assert (Hfound : forall bit, In bit BITS -> exists m, In m ms /\ member_bit (cow_bytes m.1) = Some bit /\ bit_of m = bit /\ member_good bit (text m.2)).
  { intros bit Hbit. assert (exists name, member_bit name = Some bit) as [name Hname] by (destruct Hbit as [<-|[<-|[<-|[<-|[<-|[<-|[]]]]]]]; [exists (str "version")|exists (str "resource")|exists (str "scope")|exists (str "attributes")|exists (str "events")|exists (str "links")]; done).
    destruct (Hg name bit Hname) as (raw & Ef & Hgood). apply first_field_eq in Ef as (pre & n & post & Et & Hn & _). assert (Hi : In (n, raw) (texts ms)) by (rewrite Et; apply in_app_iff; right; by left). apply in_map_iff in Hi as (m & Em & Hi). injection Em as En Er.
    exists m. rewrite En, Hn. split_and!; [done|done|unfold bit_of; by rewrite En, Hn, Hname|by rewrite Er]. }
  assert (Hperm : BITS ≡ₚ map bit_of ms).
  { apply NoDup_Permutation_bis; [apply NoDup_ListNoDup; by apply (bool_decide_unpack _); vm_compute|rewrite length_map, Hlen; done|]. intros b Hbit. destruct (Hfound b Hbit) as (m & Hm & _ & <- & _). by apply in_map. }
  assert (Hnd : NoDup (map bit_of ms)) by (rewrite <- Hperm; by apply (bool_decide_unpack _); vm_compute).
  assert (Hall : Forall (fun m => member_bit (cow_bytes m.1) = Some (bit_of m) /\ has (s_seen NONE) (bit_of m) = false /\ member_good (bit_of m) (text m.2)) ms).
  { apply Forall_forall. intros m Hm. assert (Hbit : In (bit_of m) BITS) by (apply (Permutation_in _ (Permutation_sym Hperm)); by apply in_map). destruct (Hfound _ Hbit) as (m' & Hm' & E1 & E2 & E3).
    rewrite (nodup_map_inj bit_of ms m m' Hnd Hm Hm') by done. split_and!; [by rewrite E2|unfold has; cbn; by rewrite Z.land_0_l|by rewrite E2]. }
  destruct Ho as (Hd & p1 & E1 & [[-> _]|(p2 & E2 & Hms)]); [done|]. scan. pose proof (full_input p2 ltac:(done)) as [_ Hfuel].
  destruct (envelope_loop_complete _ _ _ _ payload Hms eq_refl ltac:(get_ready) NONE (pass_fuel p2) ltac:(done) Hall Hnd Hfuel) as [y Ey]. unfold envelope. rewrite (open_eq p 1 123 p1) by (done || lia). rewrite E2. fold NONE. rewrite Ey.
  assert (H63 : s_seen y = 63).
  { pose proof Ey as Ey'. apply envelope_loop_sound in Ey' as (ms' & Hms' & Hok); [|get_ready| |done]; [|repeat match goal with Hmv : moved _ _ _ |- _ => destruct Hmv as (? & _) end; congruence]. apply (seen_all _ (l_range _ _ _ Hok)). intros b Hbit. apply (l_seen _ _ _ Hok b Hbit). right.
    destruct (Hfound b Hbit) as (m & Hm & E3 & E4 & _).
    assert (Ht : texts ms' = texts ms).
    { assert (Ho1 : object_at 0 p ms q) by (split; [done|]; exists p1; split; [done|]; right; by exists p2). assert (Ho2 : object_at 0 p ms' q) by (split; [done|]; exists p1; split; [done|]; right; by exists p2).
      pose proof (object_text 0 p ms q ltac:(lia) Hp Hu Ho1) as T1. rewrite (object_text 0 p ms' q ltac:(lia) Hp Hu Ho2) in T1. by injection T1. }
    assert (Hi : In (m.1, text m.2) (texts ms')) by (rewrite Ht; apply in_map_iff; by exists m). apply in_map_iff in Hi as (m' & Em & Hm'). injection Em as En _. apply in_map_iff. exists m'. split; [|done]. unfold bit_of. by rewrite En, E3. }
  rewrite H63. cbn [negb Z.eqb Pos.eqb]. by do 3 eexists.
Qed.

(** * The payload *)

(** The members of the payload, read without counting its own level. *)
Lemma raw_members fuel p fields out q : in_bounds p -> raw_object_loop fuel p fields = Ok (out, q) -> exists ms, members p.(jdepth) p ms q /\ out = fields ++ texts ms.
Proof.
  revert p fields. induction fuel as [|fuel IH]; intros p fields Hp E; cbn [raw_object_loop] in E; [done|]. destruct (JsonRead.string p) as [[k p1]| |] eqn:E1; [|done..]. scan. destruct (colon p1) as [p2| |] eqn:E2; [|done..]. scan.
  destruct (skip_value p2) as [[raw p3]| |] eqn:E3; [|done..]. apply text_skip in E3 as [Hr ->]; [|done]. pose proof (region_moved _ _ _ Hr ltac:(done)). scan. destruct (object_next p3) as [[more p4]| |] eqn:E4; [|done..]. scan.
  assert (Hd : jdepth p2 = jdepth p /\ jdepth p4 = jdepth p) by (repeat match goal with Hm : moved _ _ _ |- _ => destruct Hm as (_ & ? & _) end; split; congruence). destruct Hd as [Hd2 Hd4]. rewrite Hd2 in Hr. destruct more.
  - apply IH in E as (ms & Hms & ->); [|done]. rewrite Hd4 in Hms. exists ((k, (p2, p3)) :: ms). split; [by apply (M_more _ _ _ p1 p2 p3 p4)|]. by rewrite <- app_assoc.
  - injection E as <- <-. exists [(k, (p2, p3))]. split; [by apply (M_last _ _ _ p1)|done].
Qed.

Definition is_otlp (m : Cow * Place) : bool := bytes_eqb (cow_bytes m.1) (str "otlp").

(** What the pass made of the envelope at a place. *)
Definition otlp_read (payload : bytes) (a : Place) (t : Typed) : Prop :=
  (t = Some None /\ text a = str "null") \/ exists ev ln e, t = Some (Some (ev, ln, e)) /\ envelope a.1 payload = Ok (ev, ln, e, a.2) /\ text a <> str "null".

Definition tracked (payload : bytes) (t : Typed) (ms : list (Cow * Place)) (t' : Typed) : Prop :=
  (List.filter is_otlp ms = [] /\ t' = t) \/ (t = None /\ exists m, List.filter is_otlp ms = [m] /\ otlp_read payload m.2 t').

Lemma null_text d p q : in_bounds p -> region d p q -> peek p = Ok 110 <-> text (p, q) = str "null".
Proof.
  intros Hp Hr. pose proof (region_moved _ _ _ Hr Hp) as Hm. pose proof (text_first p q Hp Hm) as Ef. split; [|intros Et; by rewrite Ef, Et]. intros Ec.
  destruct Hr as [? ? ? ? ? Ee|? ? ? ? ? ? ? Ee|? ? ? ? ? Ee|? ? ? ? ? ? ? Ee|? ? ? ? E34|d p w q Hw El|d p c' n q Ec' Hc En]; [apply expect_inv in Ee as [Ee _]; by rewrite Ee in Ec..|by rewrite E34 in Ec| |].
  - pose proof (literal_peek _ _ _ Hp El) as Ew. rewrite Ew in Ec. destruct Hw as [<-|[<-|[<-|[]]]]; [done..|]. unfold literal in El. destruct (starts_at _ _ _) eqn:Es; [|done]. injection El as <-. unfold starts_at in Es. apply bool_decide_eq_true in Es. exact Es.
  - rewrite Ec' in Ec. injection Ec as ->. done.
Qed.

Lemma payload_member_sound p payload name typed t q : ready p -> ws p = p -> p.(jdepth) = 0 -> p.(jbuf) = payload -> payload_member p payload (cow_bytes name) typed = Ok (t, q) ->
  region 0 p q /\ tracked payload typed [(name, (p, q))] t.
Proof.
  intros Hrd Hf Hd Hb E. pose proof Hrd as [Hp Hu]. unfold payload_member in E. unfold tracked, is_otlp. cbn [List.filter fst]. destruct (bytes_eqb (cow_bytes name) (str "otlp")) eqn:En; cbn [negb] in E.
  - destruct typed as [t0|]; [done|]. cbn [is_some] in E. destruct (peek p) as [c| |] eqn:Ec; [|done..]. destruct (Z.eqb_spec c 110) as [->|Hne].
    + destruct (skip_value p) as [[raw p1]| |] eqn:Es; [|done..]. injection E as <- <-. apply text_skip in Es as [Hr ->]; [|done]. rewrite Hd in Hr. split; [done|]. right. split; [done|]. exists (name, (p, p1)). split; [done|]. left. split; [done|]. by apply (null_text 0).
    + destruct (envelope p payload) as [[[[ev ln] e] p1]| |] eqn:Ee; [|done..]. injection E as <- <-. pose proof Ee as Ee'. apply envelope_sound in Ee' as (ms & y & Ho & _); [|done..]. apply object_region in Ho as Hr. split; [done|]. right. split; [done|]. exists (name, (p, p1)). split; [done|].
      right. exists ev, ln, e. split_and!; [done|done|]. intros Et. apply (null_text 0 p p1 Hp Hr) in Et. rewrite Et in Ec. by injection Ec as <-.
  - destruct (skip_value p) as [[raw p1]| |] eqn:Es; [|done..]. injection E as <- <-. apply text_skip in Es as [Hr ->]; [|done]. rewrite Hd in Hr. split; [done|]. by left.
Qed.

Lemma tracked_cons payload t m ms t1 t2 : tracked payload t [m] t1 -> tracked payload t1 ms t2 -> tracked payload t (m :: ms) t2.
Proof.
  unfold tracked. intros [[H1 ->]|(-> & m1 & H1 & Hr)] H2; cbn [List.filter] in *; destruct (is_otlp m) eqn:Em; try done.
  injection H1 as <-. destruct H2 as [[H2 ->]|[H2 _]]; [|destruct Hr as [[-> _]|(? & ? & ? & -> & _)]; done]. right. split; [done|]. exists m. split; [by rewrite H2|done].
Qed.

Lemma parts_loop_sound fuel p payload fields typed out t q : ready p -> p.(jdepth) = 0 -> p.(jbuf) = payload -> parts_loop fuel p payload fields typed = Ok (out, t, q) ->
  exists ms, members 0 p ms q /\ out = fields ++ texts ms /\ tracked payload typed ms t.
Proof.
  revert p fields typed. induction fuel as [|fuel IH]; intros p fields typed [Hp Hu] Hd Hb E; cbn [parts_loop] in E; [done|]. destruct (JsonRead.string p) as [[k p1]| |] eqn:E1; [|done..]. scan. destruct (colon p1) as [p2| |] eqn:E2; [|done..]. scan.
  assert (Hs : jdepth p2 = 0 /\ jbuf p2 = payload) by (repeat match goal with Hm : moved _ _ _ |- _ => destruct Hm as (? & ? & _) end; split; congruence). destruct Hs as [Hd2 Hb2].
  destruct (payload_member p2 payload _ typed) as [[t1 p3]| |] eqn:E3; [|done..]. apply payload_member_sound in E3 as [Hr Ht]; [|get_ready|by apply (colon_fixed p1)|done|done]. pose proof (region_moved _ _ _ Hr ltac:(done)). scan.
  destruct (object_next p3) as [[more p4]| |] eqn:E4; [|done..]. scan. assert (Et : slice payload (jpos p2) (jpos p3) = text (p2, p3)) by (unfold text; cbn; by rewrite Hb2). rewrite Et in E. destruct more.
  - apply IH in E as (ms & Hms & -> & Htr); [|get_ready|..]; [|repeat match goal with Hm : moved _ _ _ |- _ => destruct Hm as (? & ? & _) end; congruence..]. exists ((k, (p2, p3)) :: ms). split; [by apply (M_more _ _ _ p1 p2 p3 p4)|].
    split; [by rewrite <- app_assoc|]. by apply (tracked_cons _ _ _ _ t1).
  - injection E as <- <- <-. exists [(k, (p2, p3))]. split; [by apply (M_last _ _ _ p1)|]. by split.
Qed.

(** What the oracle asks of the member [otlp], where there is one. *)
Definition otlp_good (a : Place) : Prop := text a = str "null" \/ exists ms, object_at 0 a.1 ms a.2 /\ six_good (texts ms).
Definition trackable (t : Typed) (ms : list (Cow * Place)) : Prop := (List.filter is_otlp ms = [] \/ (t = None /\ len (List.filter is_otlp ms) = 1)) /\ Forall (fun m => is_otlp m = true -> otlp_good m.2) ms.

Lemma payload_member_complete p payload name typed q : ready p -> p.(jdepth) = 0 -> p.(jbuf) = payload -> region 0 p q -> trackable typed [(name, (p, q))] -> exists t, payload_member p payload (cow_bytes name) typed = Ok (t, q).
Proof.
  intros Hrd Hd Hb Hr [Ht Hg]. pose proof Hrd as [Hp Hu]. unfold payload_member. inversion Hg as [|? ? Hgood _]; subst. unfold is_otlp in *. cbn [List.filter fst snd] in *. pose proof (skip_reads p q Hp ltac:(by rewrite Hd)) as Es.
  destruct (bytes_eqb (cow_bytes name) (str "otlp")); cbn [negb]; [|rewrite Es; by eexists]. destruct Ht as [?|[-> _]]; [done|]. cbn [is_some]. destruct (region_peek _ _ _ Hp Hr) as (c & Ec & _). rewrite Ec. destruct (Z.eqb_spec c 110) as [->|Hne]; [rewrite Es; by eexists|].
  destruct (Hgood eq_refl) as [Hn|(ms & Ho & Hsix)]; [apply (null_text 0 p q Hp Hr) in Hn; rewrite Hn in Ec; by injection Ec as <-|]. cbn [fst snd] in Ho. destruct (envelope_complete p p.(jbuf) q ms Hrd (region_fixed _ _ _ Hp Hr) eq_refl Ho Hsix) as (ev & ln & e & ->). by eexists.
Qed.

Lemma parts_loop_complete d p ms q payload : members d p ms q -> d = 0 -> ready p -> p.(jdepth) = 0 -> p.(jbuf) = payload -> forall fuel fields typed, trackable typed ms -> remaining p < Z.of_nat fuel ->
  exists out t, parts_loop fuel p payload fields typed = Ok (out, t, q).
Proof.
  induction 1 as [d p k p1 p2 p3 q Es Ek Hr En|d p k p1 p2 p3 p4 ms q Es Ek Hr En Hms IH]; intros -> Hrd Hd Hb fuel fields typed Ht Hf; pose proof Hrd as [Hp Hu]; scan; pose proof (region_moved _ _ _ Hr ltac:(done)); scan;
    (assert (Hs : jdepth p2 = 0 /\ jbuf p2 = payload) by (repeat match goal with Hm : moved _ _ _ |- _ => destruct Hm as (? & ? & _) end; split; congruence)); destruct Hs as [Hd2 Hb2]; (destruct fuel as [|fuel]; [unfold remaining, in_bounds in *; lia|]);
    cbn [parts_loop]; rewrite Es, Ek.
  - destruct (payload_member_complete p2 payload k typed p3 ltac:(get_ready) Hd2 Hb2 Hr Ht) as [t ->]. rewrite En. by do 2 eexists.
  - destruct Ht as [Ht Hg]. inversion Hg as [|? ? Hg1 Hg2]; subst. assert (Ht1 : trackable typed [(k, (p2, p3))]).
    { split; [|by constructor]. cbn [List.filter] in *. destruct (is_otlp _); [|by left]. right. destruct Ht as [?|[-> _]]; done. }
    destruct (payload_member_complete p2 (jbuf p) k typed p3 ltac:(get_ready) Hd2 Hb2 Hr Ht1) as [t Et]. rewrite Et, En. apply IH; [done|get_ready|repeat match goal with Hm : moved _ _ _ |- _ => destruct Hm as (? & ? & _) end; congruence..| |shorter].
    apply payload_member_sound in Et as [_ Htr]; [|get_ready|by apply (colon_fixed p1)|done|done]. split; [|done]. destruct Htr as [[Hn ->]|(-> & m & Hm & _)]; cbn [List.filter] in *; destruct (is_otlp (k, (p2, p3))) eqn:Eo; try done.
    destruct Ht as [?|[_ Hl]]; [done|]. left. rewrite len_cons in Hl. destruct (List.filter is_otlp ms) as [|y l]; [done|]. rewrite len_cons in Hl. pose proof (len_nonneg l). lia.
Qed.

(** ** The oracle answers *)

Lemma raw_items fuel p values out q : in_bounds p -> raw_array_loop fuel p values = Ok (out, q) -> exists l, items p.(jdepth) p l q /\ out = values ++ map text l.
Proof.
  revert p values. induction fuel as [|fuel IH]; intros p values Hp E; cbn [raw_array_loop] in E; [done|]. destruct (skip_value p) as [[raw p1]| |] eqn:E1; [|done..]. apply text_skip in E1 as [Hr ->]; [|done]. pose proof (region_moved _ _ _ Hr Hp). into_bounds.
  pose proof (ws_moved p1 ltac:(done)). into_bounds. destruct (peek (ws p1)) as [c| |] eqn:Ec; [|done..]. pose proof (peek_moved _ _ ltac:(eassumption) Ec). into_bounds. pose proof (ws_moved (adv (ws p1) 1) ltac:(done)). into_bounds. destruct (c =? 93) eqn:E93.
  - injection E as <- <-. exists [(p, p1)]. split; [|done]. apply I_last; [done|]. unfold array_next. rewrite Ec, E93. by replace (c =? 44) with false by (symmetry; apply Z.eqb_neq; bools; lia).
  - destruct (c =? 44) eqn:E44; [|done]. apply IH in E as (l & Hi & ->); [|done]. exists ((p, p1) :: l). split; [|by rewrite <- app_assoc]. apply (I_more _ _ p1 (ws (adv (ws p1) 1))); [done|unfold array_next; by rewrite Ec, E44|].
    assert (Hd : jdepth (ws (adv (ws p1) 1)) = jdepth p) by (repeat match goal with Hm : moved _ _ _ |- _ => destruct Hm as (_ & ? & _) end; congruence). by rewrite Hd in Hi.
Qed.

Lemma whole_object_shorter raw fields : whole_object raw = Ok fields -> Forall (fun f => len (snd f) < len raw) fields.
Proof.
  unfold whole_object, raw_object. intros E. pose proof (new_in_bounds raw) as Hn. pose proof (ws_moved _ Hn) as Hw. into_bounds. destruct (expect (ws _) 123) as [p1| |] eqn:E1; [|done..]. scan. destruct (object_open p1) as [[more p2]| |] eqn:E2; [|done..]. scan.
  destruct more; [|destruct (jend _); [|done..]; injection E as <-; constructor]. destruct (raw_object_loop _ _ _) as [[out p3]| |] eqn:E3; [|done..]. destruct (jend _); [|done..]. injection E as <-. apply raw_members in E3 as (ms & Hms & ->); [|done].
  pose proof (members_moved _ _ _ _ Hms ltac:(done)). scan. cbn [app]. apply Forall_map. eapply Forall_impl; [|by apply (members_sound _ _ _ _ Hms)]. intros m (Hb & Hm1 & _ & Hm2 & Hm3). cbn. rewrite text_len by done.
  repeat match goal with Hm : moved _ _ _ |- _ => destruct Hm as (? & _ & _ & ?) end. cbn in *. assert (len (jbuf m.2.1) = len raw) by congruence. lia.
Qed.

Lemma whole_array_shorter raw l : whole_array raw = Ok l -> Forall (fun v => len v < len raw) l.
Proof.
  unfold whole_array, raw_array. intros E. pose proof (new_in_bounds raw) as Hn. pose proof (ws_moved _ Hn) as Hw. into_bounds. destruct (expect (ws _) 91) as [p1| |] eqn:E1; [|done..]. scan. pose proof (ws_moved p1 ltac:(done)). into_bounds.
  destruct (peek (ws p1)) as [c| |]; [|done..]. destruct (c =? 93); [destruct (jend _); [|done..]; injection E as <-; constructor|]. destruct (raw_array_loop _ _ _) as [[out p3]| |] eqn:E3; [|done..]. destruct (jend _); [|done..]. injection E as <-.
  apply raw_items in E3 as (places & Hi & ->); [|done]. pose proof (items_moved _ _ _ _ Hi ltac:(done)). scan. cbn [app]. apply Forall_map. eapply Forall_impl; [|by apply (items_sound _ _ _ _ Hi)]. intros place (Hb & Hm1 & _ & Hm2 & Hm3). cbn. rewrite text_len by done.
  repeat match goal with Hm : moved _ _ _ |- _ => destruct Hm as (? & _ & _ & ?) end. cbn in *. assert (len (jbuf place.1) = len raw) by congruence. lia.
Qed.

Lemma whole_object_not_fuel raw : whole_object raw <> Fuel.
Proof.
  unfold whole_object. pose proof (raw_object_not_fuel _ (new_in_bounds raw)). destruct (raw_object _) as [[fields p]| |]; [|done..]. pose proof (jend_not_fuel (ws p)). by destruct (jend (ws p)).
Qed.

Lemma first_field_not_fuel fields name : first_field fields name <> Fuel.
Proof. unfold first_field. by destruct (List.find _ _) as [[n raw]|]. Qed.

Lemma first_field_in fields name raw : first_field fields name = Ok raw -> exists n, In (n, raw) fields.
Proof. intros E. apply first_field_eq in E as (pre & n & post & -> & _). exists n. apply in_app_iff. right. by left. Qed.

Lemma each_ends f l : Forall (fun v => f v <> Fuel) l -> each f l <> Fuel.
Proof. induction 1 as [|v l Hv Hl IH]; [done|]. cbn [each]. by destruct (f v). Qed.

Lemma reparse_pairs_ends f pairs keys n : Forall (fun v => len v <= n) pairs -> (forall v, len v < n -> f v <> Fuel) -> reparse_pairs f pairs keys <> Fuel.
Proof.
  intros Hp Hf. revert keys. induction Hp as [|raw pairs Hr Hp IH]; intros keys; [done|]. cbn [reparse_pairs]. pose proof (whole_object_not_fuel raw). destruct (whole_object raw) as [entry| |] eqn:E; [|done..]. apply whole_object_shorter in E. destruct (negb _); [done|].
  pose proof (first_field_not_fuel entry (str "key")). destruct (first_field entry (str "key")) as [rk| |]; [|done..]. pose proof (whole_string_not_fuel rk). destruct (whole_string rk) as [c| |]; [|done..]. destruct (_ || _); [done|].
  pose proof (first_field_not_fuel entry (str "value")). destruct (first_field entry (str "value")) as [rv| |] eqn:Ev; [|done..]. apply first_field_in in Ev as [m Hm]. rewrite Forall_forall in E. specialize (E _ Hm). cbn in E.
  assert (Hv : f rv <> Fuel) by (apply Hf; lia). by destruct (f rv).
Qed.

Lemma reparse_ends F raw depth : len raw < Z.of_nat F -> reparse_value F raw depth <> Fuel /\ reparse_attributes F raw depth <> Fuel.
Proof.
  revert raw depth. induction F as [|F IH]; intros raw depth HF; [pose proof (len_nonneg raw); lia|]. split; simpl.
  - destruct (128 <? depth); [done|]. pose proof (whole_object_not_fuel raw). destruct (whole_object raw) as [fields| |] eqn:E; [|done..]. apply whole_object_shorter in E. destruct fields as [|[name v] [|]]; [done| |done]. inversion E as [|? ? Hv _]; subst. cbn in Hv.
    assert (Hvals : reparse_values v <> Fuel /\ forall r, reparse_values v = Ok r -> len r < len v).
    { unfold reparse_values. pose proof (whole_object_not_fuel v). destruct (whole_object v) as [owner| |] eqn:Eo; [|done..]. apply whole_object_shorter in Eo. destruct (negb _); [done|]. split; [apply first_field_not_fuel|].
      intros r Er. apply first_field_in in Er as [m Hm]. rewrite Forall_forall in Eo. by apply (Eo _ Hm). }
    destruct Hvals as [Hvn Hvs]. pose proof (whole_string_not_fuel v) as Hs. pose proof (double_not_fuel v) as Hd.
    repeat match goal with |- (if ?c then _ else _) <> Fuel => destruct c end; [by destruct (whole_string v)|done| |by destruct (double v)|destruct (whole_string v) as [s| |]; [by destruct (base64 _)|done..]| | |done].
    + unfold reparse_integer. destruct (whole_string v) as [s| |]; [|done..]. destruct (negb _); [done|]. destruct (parse_i64 _); [|done]. cbn [ok_or]. by destruct (bytes_eqb _ _).
    + destruct (reparse_values v) as [r| |] eqn:Er; [|done..]. specialize (Hvs r eq_refl). pose proof (whole_array_not_fuel r). destruct (whole_array r) as [l| |] eqn:El; [|done..]. apply whole_array_shorter in El. apply each_ends. eapply Forall_impl; [|exact El].
      intros x Hx. apply IH. cbn in Hx. lia.
    + destruct (reparse_values v) as [r| |] eqn:Er; [|done..]. specialize (Hvs r eq_refl). apply IH. lia.
  - pose proof (whole_array_not_fuel raw). destruct (whole_array raw) as [l| |] eqn:El; [|done..]. apply whole_array_shorter in El. apply (reparse_pairs_ends _ _ _ (len raw)).
    + eapply Forall_impl; [|exact El]. intros x Hx. cbn in Hx. lia.
    + intros v Hv. apply IH. lia.
Qed.

Lemma reparse_list_ends raw : reparse_list raw <> Fuel.
Proof. apply reparse_ends. unfold text_fuel, len. lia. Qed.

Lemma reparse_lists_ends meta names : reparse_lists meta names <> Fuel.
Proof.
  induction names as [|name names IH]; [done|]. cbn [reparse_lists]. pose proof (first_field_not_fuel meta name). destruct (first_field meta name) as [raw| |]; [|done..]. pose proof (reparse_list_ends raw). by destruct (reparse_list raw).
Qed.

Lemma reparse_owners_ends meta fields names : reparse_owners meta fields names <> Fuel.
Proof.
  induction names as [|name names IH]; [done|]. cbn [reparse_owners]. pose proof (first_field_not_fuel meta name). destruct (first_field meta name) as [raw| |]; [|done..]. pose proof (whole_array_not_fuel raw). destruct (whole_array raw) as [owners| |]; [|done..].
  pose proof (first_field_not_fuel fields name). destruct (first_field fields name) as [raw'| |]; [|done..]. pose proof (whole_array_not_fuel raw'). destruct (whole_array raw') as [l| |]; [|done..]. destruct (negb _); [done|].
  assert (each reparse_list owners <> Fuel) by (apply each_ends, Forall_true; apply reparse_list_ends). by destruct (each _ _).
Qed.

Lemma reparse_fields_ends payload : reparse_fields payload <> Fuel.
Proof.
  unfold reparse_fields. pose proof (whole_object_not_fuel payload). destruct (whole_object payload) as [fields| |]; [|done..]. destruct (1 <? _); [done|]. destruct (List.find _ _) as [[n metadata]|]; [|done]. destruct (bytes_eqb _ _); [done|].
  pose proof (whole_object_not_fuel metadata). destruct (whole_object metadata) as [meta| |]; [|done..]. destruct (negb _); [done|]. pose proof (first_field_not_fuel meta (str "version")). destruct (first_field meta _) as [v| |]; [|done..]. destruct (negb _); [done|].
  pose proof (reparse_lists_ends meta [str "resource"; str "scope"; str "attributes"]). destruct (reparse_lists _ _); [|done..]. pose proof (reparse_owners_ends meta fields [str "events"; str "links"]). by destruct (reparse_owners _ _ _).
Qed.

(** ** The payload as both read it *)

(** The members of the payload. *)
Definition payload_read (payload : bytes) (ms : list (Cow * Place)) : Prop := exists p1 b p2 q, expect (ws (Parser_new payload)) 123 = Ok p1 /\ object_open p1 = Ok (b, p2) /\
  (if b then members 0 p2 ms q else ms = [] /\ q = p2) /\ jend (ws q) = Ok tt.

Lemma payload_whole payload ms : payload_read payload ms -> whole_object payload = Ok (texts ms).
Proof.
  intros (p1 & b & p2 & q & E1 & E2 & Hms & He). pose proof (new_in_bounds payload) as Hn. pose proof (ws_moved _ Hn). into_bounds. scan. unfold whole_object, raw_object. rewrite E1, E2. destruct b; [|destruct Hms as [-> ->]; by rewrite He].
  rewrite (members_raw _ _ _ _ Hms); [by rewrite He|done| |unfold remaining, in_bounds, len in *; lia]. repeat match goal with Hm : moved _ _ _ |- _ => destruct Hm as (_ & ? & _) end. cbn in *. congruence.
Qed.

Lemma whole_payload payload fields : whole_object payload = Ok fields -> exists ms, payload_read payload ms /\ fields = texts ms.
Proof.
  unfold whole_object, raw_object. intros E. pose proof (new_in_bounds payload) as Hn. pose proof (ws_moved _ Hn). into_bounds. destruct (expect (ws _) 123) as [p1| |] eqn:E1; [|done..]. scan. destruct (object_open p1) as [[b p2]| |] eqn:E2; [|done..]. scan. destruct b.
  - destruct (raw_object_loop _ _ _) as [[out p3]| |] eqn:E3; [|done..]. destruct (jend _) as [[]| |] eqn:Ej; [|done..]. injection E as <-. apply raw_members in E3 as (ms & Hms & ->); [|done]. exists ms. split; [|done]. exists p1, true, p2, p3. split_and!; [done|done| |done].
    assert (Hd : jdepth p2 = 0) by (repeat match goal with Hm : moved _ _ _ |- _ => destruct Hm as (_ & ? & _) end; cbn in *; congruence). by rewrite Hd in Hms.
  - destruct (jend _) as [[]| |] eqn:Ej; [|done..]. injection E as <-. exists []. split; [|done]. exists p1, false, p2, p2. by split_and!.
Qed.

(** Every member starts in the payload itself. *)
Lemma payload_places payload ms : payload_read payload ms -> Forall (fun m => ready m.2.1 /\ m.2.1.(jbuf) = payload /\ region 0 m.2.1 m.2.2) ms.
Proof.
  intros (p1 & b & p2 & q & E1 & E2 & Hms & _). pose proof (new_in_bounds payload) as Hn. pose proof (ws_moved _ Hn). into_bounds. scan. destruct b; [|destruct Hms as [-> _]; constructor]. eapply Forall_impl; [|by apply (members_sound _ _ _ _ Hms)].
  intros m (Hb & Hm1 & Hr & _). repeat match goal with Hm : moved _ _ _ |- _ => destruct Hm as (? & _ & ? & _) end. cbn in *. split; [split; [done|congruence]|]. split; [congruence|done].
Qed.

Lemma texts_filter ms : List.filter (fun f => bytes_eqb (cow_bytes (fst f)) (str "otlp")) (texts ms) = texts (List.filter is_otlp ms).
Proof. induction ms as [|m ms IH]; [done|]. cbn [texts map List.filter fst]. fold (texts ms). unfold is_otlp at 1. destruct (bytes_eqb _ _); cbn [map]; by rewrite IH. Qed.

Lemma find_filter {A} (f : A -> bool) l : List.find f l = head (List.filter f l).
Proof. induction l as [|x l IH]; [done|]. cbn. by destruct (f x). Qed.

(** The counts the pass compares are the lengths of the lists of owners. *)
Lemma slot_counted y ms name bit n : loop_ok NONE y ms -> y.(s_seen) = 63 -> member_bit name = Some bit -> slot bit y = Some n -> exists raw, first_field (texts ms) name = Ok raw /\ counted raw n.
Proof.
  intros Hok H63 Hb Hs. destruct (six_members y ms Hok H63) as [_ Hsix]. destruct (Hsix name bit Hb) as (m & Hm & Em & Ef). exists (text m.2). split; [done|]. pose proof (l_slots _ _ _ Hok) as Hsl. rewrite Forall_forall in Hsl. apply (Hsl m Hm). by rewrite Em.
Qed.

Lemma six_lists meta : six_good meta -> reparse_lists meta [str "resource"; str "scope"; str "attributes"] = Ok tt.
Proof.
  intros [_ Hg]. cbn [reparse_lists]. destruct (Hg (str "resource") 2 eq_refl) as (r1 & -> & G1). destruct (Hg (str "scope") 4 eq_refl) as (r2 & -> & G2). destruct (Hg (str "attributes") 8 eq_refl) as (r3 & -> & G3).
  change (reparse_list r1 = Ok tt) in G1. change (reparse_list r2 = Ok tt) in G2. change (reparse_list r3 = Ok tt) in G3. by rewrite G1, G2, G3.
Qed.

(** One step of the loop over the owners. *)
Lemma owners_step meta fields name names raw raw' l n : first_field meta name = Ok raw -> counted raw n -> (exists o, whole_array raw = Ok o /\ each reparse_list o = Ok tt) -> first_field fields name = Ok raw' -> whole_array raw' = Ok l -> len l = n ->
  reparse_owners meta fields (name :: names) = reparse_owners meta fields names.
Proof.
  intros E1 (o & Eo & Hn) (o' & Eo' & He) E2 E3 Hl. cbn [reparse_owners]. rewrite E1, Eo, E2, E3, Hn, Hl, Z.eqb_refl. cbn [negb]. rewrite Eo in Eo'. injection Eo' as <-. by rewrite He.
Qed.

Lemma parts_sound payload fields env : validated_parts payload = Ok (fields, env) -> exists ms, payload_read payload ms /\ fields = texts ms /\
  ((env = None /\ (List.filter is_otlp ms = [] \/ exists m, List.filter is_otlp ms = [m] /\ text m.2 = str "null")) \/
   exists m ns y, List.filter is_otlp ms = [m] /\ text m.2 <> str "null" /\ object_at 0 m.2.1 ns m.2.2 /\ loop_ok NONE y ns /\ six_good (texts ns) /\ y.(s_seen) = 63 /\ env = Some (mkEnvelope (texts ns) y.(s_resource) y.(s_span)) /\
     (exists r l, first_field fields (str "events") = Ok r /\ whole_array r = Ok l /\ len l = y.(s_events)) /\ exists r l, first_field fields (str "links") = Ok r /\ whole_array r = Ok l /\ len l = y.(s_links)).
Proof.
  unfold validated_parts, parts. intros E. pose proof (new_in_bounds payload) as Hn. pose proof (ws_moved _ Hn). into_bounds. destruct (expect (ws _) 123) as [p1| |] eqn:E1; [|done..]. scan. destruct (object_open p1) as [[b p2]| |] eqn:E2; [|done..]. scan.
  match type of E with (match ?e with _ => _ end) = _ => destruct e as [[[out t] p3]| |] eqn:E3; [|done..] end. destruct (jend (ws p3)) as [[]| |] eqn:Ej; [|done..].
  assert (Hp2 : jdepth p2 = 0 /\ jbuf p2 = payload /\ jutf8 p2 = false) by (repeat match goal with Hm : moved _ _ _ |- _ => destruct Hm as (? & ? & ? & _) end; cbn in *; split_and!; congruence). destruct Hp2 as (Hd2 & Hb2 & Hu2).
  assert (Hread : exists ms, payload_read payload ms /\ out = texts ms /\ tracked payload None ms t).
  { destruct b.
    - apply parts_loop_sound in E3 as (ms & Hms & -> & Ht); [|done..]. exists ms. split; [exists p1, true, p2, p3; by split_and!|done].
    - injection E3 as <- <- <-. exists []. split; [exists p1, false, p2, p2; by split_and!|]. split; [done|]. by left. }
  destruct Hread as (ms & Hread & -> & Ht). exists ms. split; [done|]. destruct Ht as [[Hf ->]|(_ & m & Hf & [[-> Hnull]|(ev & ln & e & -> & Ee & Hnn)])].
  - injection E as <- <-. split; [done|]. left. split; [done|]. by left.
  - injection E as <- <-. split; [done|]. left. split; [done|]. right. by exists m.
  - assert (Hm : In m ms) by (assert (Hi : In m (List.filter is_otlp ms)) by (rewrite Hf; by left); by apply filter_In in Hi as [? _]). pose proof (payload_places payload ms Hread) as Hpl. rewrite Forall_forall in Hpl. destruct (Hpl m Hm) as (Hrd & Hb & Hr).
    apply envelope_sound in Ee as (ns & y & Ho & Hok & Hg & -> & -> & -> & H63); [|done|by apply (region_fixed 0 _ m.2.2); [apply Hrd|]|done].
    destruct (first_field (texts ms) (str "events")) as [r1| |] eqn:F1; [|done..]. destruct (whole_array r1) as [l1| |] eqn:A1; [|done..]. destruct (s_events y =? len l1) eqn:C1; [|done]. cbn [negb] in E.
    destruct (first_field (texts ms) (str "links")) as [r2| |] eqn:F2; [|done..]. destruct (whole_array r2) as [l2| |] eqn:A2; [|done..]. destruct (s_links y =? len l2) eqn:C2; [|done]. cbn [negb] in E. injection E as <- <-. bools.
    split; [done|]. right. exists m, ns, y. split_and!; try done; [exists r1, l1; by split_and!|exists r2, l2; by split_and!].
Qed.

Lemma parts_reparsed payload fields env : validated_parts payload = Ok (fields, env) -> reparse_fields payload = Ok fields.
Proof.
  intros E. apply parts_sound in E as (ms & Hread & -> & Hcase). unfold reparse_fields. rewrite (payload_whole _ _ Hread), texts_filter, find_filter, texts_filter.
  destruct Hcase as [[-> [Hf|(m & Hf & Hnull)]]|(m & ns & y & Hf & Hnn & Ho & Hok & Hg & H63 & _ & (r1 & l1 & F1 & A1 & C1) & (r2 & l2 & F2 & A2 & C2))]; rewrite Hf; cbn [texts map head].
  - done.
  - by rewrite Hnull.
  - change (1 <? len [(m.1, text m.2)]) with false. cbv iota. destruct (bytes_eqb (text m.2) (str "null")) eqn:En; [by apply bytes_eqb_eq in En|].
    assert (Hm : In m ms) by (assert (Hi : In m (List.filter is_otlp ms)) by (rewrite Hf; by left); by apply filter_In in Hi as [? _]). pose proof (payload_places payload ms Hread) as Hpl. rewrite Forall_forall in Hpl. destruct (Hpl m Hm) as ([Hp Hu] & Hb & Hr).
    rewrite (surjective_pairing m.2), (object_text 0 _ ns _ ltac:(lia) Hp Hu Ho). destruct Hg as [Hl Hg]. rewrite Hl. cbn [negb Z.eqb Pos.eqb]. destruct (Hg (str "version") 1 eq_refl) as (rv & -> & Gv). change (rv = str "1") in Gv. rewrite Gv.
    change (bytes_eqb (str "1") (str "1")) with true. cbn [negb]. rewrite (six_lists _ (conj Hl Hg)).
    destruct (slot_counted y ns (str "events") 16 _ Hok H63 eq_refl eq_refl) as (o1 & O1 & K1). destruct (slot_counted y ns (str "links") 32 _ Hok H63 eq_refl eq_refl) as (o2 & O2 & K2).
    destruct (Hg (str "events") 16 eq_refl) as (o1' & O1' & G1). rewrite O1 in O1'. injection O1' as <-. destruct (Hg (str "links") 32 eq_refl) as (o2' & O2' & G2). rewrite O2 in O2'. injection O2' as <-.
    rewrite (owners_step _ _ (str "events") _ o1 r1 l1 (s_events y)) by done. by rewrite (owners_step _ _ (str "links") _ o2 r2 l2 (s_links y)) by done.
Qed.

(** What the oracle's checks of the envelope say. *)
Lemma six_checked meta fields : len meta = 6 -> first_field meta (str "version") = Ok (str "1") -> reparse_lists meta [str "resource"; str "scope"; str "attributes"] = Ok tt -> reparse_owners meta fields [str "events"; str "links"] = Ok tt ->
  six_good meta /\ forall name, name = str "events" \/ name = str "links" -> exists raw o raw' l, first_field meta name = Ok raw /\ whole_array raw = Ok o /\ first_field fields name = Ok raw' /\ whole_array raw' = Ok l /\ len o = len l.
Proof.
  intros Hl Hv Hls Hos. cbn [reparse_lists] in Hls. destruct (first_field meta (str "resource")) as [r1| |] eqn:F1; [|done..]. destruct (reparse_list r1) as [[]| |] eqn:G1; [|done..]. destruct (first_field meta (str "scope")) as [r2| |] eqn:F2; [|done..].
  destruct (reparse_list r2) as [[]| |] eqn:G2; [|done..]. destruct (first_field meta (str "attributes")) as [r3| |] eqn:F3; [|done..]. destruct (reparse_list r3) as [[]| |] eqn:G3; [|done..]. cbn [reparse_owners] in Hos.
  destruct (first_field meta (str "events")) as [r4| |] eqn:F4; [|done..]. destruct (whole_array r4) as [o4| |] eqn:A4; [|done..]. destruct (first_field fields (str "events")) as [r5| |] eqn:F5; [|done..]. destruct (whole_array r5) as [l5| |] eqn:A5; [|done..].
  destruct (len o4 =? len l5) eqn:C4; [|done]. cbn [negb] in Hos. destruct (each reparse_list o4) as [[]| |] eqn:E4; [|done..].
  destruct (first_field meta (str "links")) as [r6| |] eqn:F6; [|done..]. destruct (whole_array r6) as [o6| |] eqn:A6; [|done..]. destruct (first_field fields (str "links")) as [r7| |] eqn:F7; [|done..]. destruct (whole_array r7) as [l7| |] eqn:A7; [|done..].
  destruct (len o6 =? len l7) eqn:C6; [|done]. cbn [negb] in Hos. destruct (each reparse_list o6) as [[]| |] eqn:E6; [|done..]. bools. split.
  - split; [done|]. intros name bit Hb. unfold member_bit in Hb. repeat (match type of Hb with (if bytes_eqb name ?w then _ else _) = _ => destruct (bytes_eqb name w) eqn:Heq; [apply bytes_eqb_eq in Heq; subst name; injection Hb as <-|clear Heq] end); [..|done].
    + exists (str "1"). done.
    + exists r1. done.
    + exists r2. done.
    + exists r3. done.
    + exists r4. split; [done|]. by exists o4.
    + exists r6. split; [done|]. by exists o6.
  - intros name [-> | ->]; [exists r4, o4, r5, l5|exists r6, o6, r7, l7]; by split_and!.
Qed.

Lemma reparsed_parts payload fields : reparse_fields payload = Ok fields -> exists env, validated_parts payload = Ok (fields, env).
Proof.
  unfold reparse_fields. intros E. destruct (whole_object payload) as [fs| |] eqn:Ew; [|done..]. pose proof Ew as Ew0. apply whole_payload in Ew as (ms & Hread & ->). rewrite texts_filter, find_filter, texts_filter in E.
  destruct (1 <? len (texts (List.filter is_otlp ms))) eqn:E1; [done|]. pose proof (payload_places payload ms Hread) as Hpl. rewrite Forall_forall in Hpl.
  assert (Hgood : (List.filter is_otlp ms = [] \/ exists m, List.filter is_otlp ms = [m] /\ (text m.2 = str "null" \/ exists ns, object_at 0 m.2.1 ns m.2.2 /\ six_good (texts ns) /\
    forall name, name = str "events" \/ name = str "links" -> exists raw o raw' l, first_field (texts ns) name = Ok raw /\ whole_array raw = Ok o /\ first_field (texts ms) name = Ok raw' /\ whole_array raw' = Ok l /\ len o = len l)) /\ fields = texts ms).
  { destruct (List.filter is_otlp ms) as [|m [|m' l]] eqn:Ef; cbn [texts map head] in E.
    - injection E as <-. split; [by left|done].
    - destruct (bytes_eqb (text m.2) (str "null")) eqn:En; [injection E as <-; apply bytes_eqb_eq in En; split; [|done]; right; exists m; auto|].
      assert (Hm : In m ms) by (assert (Hi : In m (List.filter is_otlp ms)) by (rewrite Ef; by left); by apply filter_In in Hi as [? _]). destruct (Hpl m Hm) as ([Hp Hu] & Hb & Hr).
      destruct (whole_object (text m.2)) as [meta| |] eqn:Eo; [|done..]. rewrite (surjective_pairing m.2) in Eo. apply (text_object 0) in Eo as (ns & Ho & ->); [|lia|done..]. destruct (len (texts ns) =? 6) eqn:E6; [|done]. cbn [negb] in E.
      destruct (first_field (texts ns) (str "version")) as [v| |] eqn:Ev; [|done..]. destruct (bytes_eqb v (str "1")) eqn:E7; [|done]. cbn [negb] in E. apply bytes_eqb_eq in E7 as ->. destruct (reparse_lists _ _) as [[]| |] eqn:E8; [|done..].
      destruct (reparse_owners _ _ _) as [[]| |] eqn:E9; [|done..]. injection E as <-. split; [|done]. right. exists m. split; [done|]. right. exists ns. split; [done|]. apply six_checked; [by apply Z.eqb_eq|done..].
    - cbn in E1. unfold len in E1. cbn in E1. bools. lia. }
  destruct Hgood as [Hgood ->]. assert (Htr : trackable None ms).
  { split; [destruct Hgood as [?|(m & -> & _)]; [by left|by right]|]. apply Forall_forall. intros m Hm Hot. destruct Hgood as [Hn|(m' & Hn & Hg)]; (assert (Hi : In m (List.filter is_otlp ms)) by (apply filter_In; done)); rewrite Hn in Hi; [done|]. destruct Hi as [<-|[]].
    destruct Hg as [?|(ns & Ho & Hs & _)]; [by left|right; by exists ns]. }
  destruct Hread as (p1 & b & p2 & q & E2 & E3 & Hms & Hj). pose proof (new_in_bounds payload) as Hn. pose proof (ws_moved _ Hn). into_bounds. scan.
  assert (Hp2 : jdepth p2 = 0 /\ jbuf p2 = payload /\ jutf8 p2 = false) by (repeat match goal with Hm : moved _ _ _ |- _ => destruct Hm as (? & ? & ? & _) end; cbn in *; split_and!; congruence). destruct Hp2 as (Hd2 & Hb2 & Hu2).
  assert (Hloop : exists out t, (if b then parts_loop (pass_fuel p2) p2 payload [] None else Ok ([], None, p2)) = Ok (out, t, q)).
  { destruct b; [|destruct Hms as [_ ->]; by do 2 eexists]. apply (parts_loop_complete 0 p2 ms q payload Hms); [done|done|done|done|done|by apply full_input]. }
  destruct Hloop as (out & t & El). assert (Hread : payload_read payload ms) by (exists p1, b, p2, q; by split_and!).
  assert (Hsnd : out = texts ms /\ exists ns', texts ns' = texts ms /\ tracked payload None ns' t /\ Forall (fun m => ready m.2.1 /\ m.2.1.(jbuf) = payload /\ region 0 m.2.1 m.2.2) ns').
  { destruct b.
    - apply parts_loop_sound in El as (ns' & Hns & -> & Ht); [|done..]. assert (Hread' : payload_read payload ns') by (exists p1, true, p2, q; by split_and!). apply payload_whole in Hread' as Hw. rewrite Hw in Ew0. injection Ew0 as Et. split; [done|]. exists ns'. split_and!; [done|done|by apply payload_places].
    - injection El as <- <- _. destruct Hms as [-> _]. split; [done|]. exists []. split_and!; [done|by left|constructor]. }
  unfold validated_parts, parts. rewrite E2, E3, El, Hj. destruct Hsnd as (-> & ns' & Et & Ht & Hpl'). destruct t as [[[[ev ln] e]|]|]; [|by eexists..]. destruct Ht as [[_ ?]|(_ & m' & Hf' & [[? _]|(ev' & ln' & e' & Ee & Env & Hnn)])]; [done..|]. injection Ee as <- <- <-.
  assert (Hi' : In m' ns') by (assert (Hi : In m' (List.filter is_otlp ns')) by (rewrite Hf'; by left); by apply filter_In in Hi as [? _]). rewrite Forall_forall in Hpl'. destruct (Hpl' m' Hi') as ([Hp' Hu'] & Hb' & Hr').
  apply envelope_sound in Env as (ns2 & y & Ho2 & Hok & Hg2 & -> & -> & -> & H63); [|done|by apply (region_fixed 0 _ m'.2.2)|done].
  assert (Hsame : map (fun f => snd f) (texts (List.filter is_otlp ns')) = map (fun f => snd f) (texts (List.filter is_otlp ms))) by by rewrite <- !texts_filter, Et.
  rewrite Hf' in Hsame. destruct Hgood as [Hn0|(m & Hn0 & Hg)]; rewrite Hn0 in Hsame; [done|]. cbn in Hsame. injection Hsame as Htext. destruct Hg as [Hnull|(ns & Ho & Hs & Hcnt)]; [by rewrite Hnull in Htext|].
  assert (Hmeta : texts ns2 = texts ns).
  { assert (Hm : In m ms) by (assert (Hi : In m (List.filter is_otlp ms)) by (rewrite Hn0; by left); by apply filter_In in Hi as [? _]). destruct (Hpl m Hm) as ([Hp Hu] & Hb & Hr). pose proof (object_text 0 _ _ _ ltac:(lia) Hp' Hu' Ho2) as T1. pose proof (object_text 0 _ _ _ ltac:(lia) Hp Hu Ho) as T2.
    rewrite <- !surjective_pairing in T1, T2. rewrite Htext, T2 in T1. by injection T1. }
  destruct (slot_counted y ns2 (str "events") 16 _ Hok H63 eq_refl eq_refl) as (o1 & O1 & (k1 & K1 & L1)). destruct (slot_counted y ns2 (str "links") 32 _ Hok H63 eq_refl eq_refl) as (o2 & O2 & (k2 & K2 & L2)). rewrite Hmeta in O1, O2.
  destruct (Hcnt (str "events") ltac:(by left)) as (raw1 & w1 & raw1' & l1 & X1 & X2 & X3 & X4 & X5). destruct (Hcnt (str "links") ltac:(by right)) as (raw2 & w2 & raw2' & l2 & Y1 & Y2 & Y3 & Y4 & Y5).
  rewrite X1 in O1. injection O1 as <-. rewrite X2 in K1. injection K1 as <-. rewrite Y1 in O2. injection O2 as <-. rewrite Y2 in K2. injection K2 as <-. rewrite X3, X4, <- L1, X5, Z.eqb_refl. cbn [negb]. rewrite Y3, Y4, <- L2, Y5, Z.eqb_refl. by eexists.
Qed.

(** C26. One streaming pass validates a stored span exactly as the version it
    replaced, which parsed every level again from its raw text: on every payload
    both answer, both accept or both refuse, and the fields they return are the
    same. The differential test of the repository checks this on generated
    payloads; here it holds for all of them. *)
Theorem streaming_matches_reparsing (payload : bytes) :
  validated_fields payload = reparse_fields payload /\ validated_fields payload <> Fuel.
Proof.
  assert (Hn : validated_fields payload <> Fuel) by (unfold validated_fields, validated_parts; pose proof (parts_ends (Parser_new payload) payload (new_in_bounds payload)); by destruct (parts _ _) as [[]| |]).
  split; [|done]. unfold validated_fields in *. destruct (validated_parts payload) as [[fields env]| |] eqn:E; [by rewrite (parts_reparsed _ _ _ E)| |done].
  pose proof (reparse_fields_ends payload). destruct (reparse_fields payload) as [fields| |] eqn:Er; [|by destruct e, e0|done]. apply reparsed_parts in Er as [env Er]. by rewrite E in Er.
Qed.
End Reference.
