(* ===== verification/TraceEnvelope.v ===== *)
(** Queries on validated spans (trace_metadata.rs with tempo_expression.rs).

    The pass hands the query the members of the envelope and the number of its
    attributes, so that a program that reads no attribute need not parse them.
    Here: what the validator accepts, the query's own readers accept with the
    same counts, and a compiled program evaluates the same with the validated
    envelope as without it. *)

From S2P Require Import Prelude Utf8 External Float64 OrdMap Out JsonWrite JsonRead TraceFields JsonSim JsonSlice TraceSortKey Structural TempoExpression TraceMetadata JsonRegion TraceReparse.

Section Validated.
Context `{SimdUtf8} `{Memchr2}.

(** * Strings the parser returns are UTF-8 *)

Lemma chunk_valid p c n : p.(jutf8) = false -> string_chunk p = Ok (c, n) -> from_utf8_ok c = true.
Proof.
  unfold string_chunk. intros Hu E. destruct (ok_or _ _) as [i| |]; [|done..]. destruct (check_chunk _ _) eqn:Ec; [|done..]. injection E as <- <-. unfold check_chunk in Ec. rewrite Hu in Ec. cbn [negb andb] in Ec.
  destruct (_ || _) eqn:Eo; [done|]. apply orb_false_iff in Eo as [_ Eo]. apply negb_false_iff in Eo. by rewrite simd_from_utf8_std in Eo.
Qed.

Lemma unicode_scalar p c q : unicode_escape p = Ok (c, q) -> is_scalar c = true.
Proof.
  assert (Hc : forall v u, ok_or (char_from_u32 v) tt = @Ok unit Z u -> is_scalar u = true) by (intros v u; unfold char_from_u32; destruct (is_scalar v) eqn:Es; [|done]; by intros [= <-]).
  unfold unicode_escape. intros E. destruct (hex4 p) as [[hi p1]| |]; [|done..]. destruct (_ && _); [done|]. destruct (negb _).
  - destruct (ok_or _ _) as [u| |] eqn:Eu; [|done..]. injection E as <- _. by apply Hc in Eu.
  - destruct (negb _); [done|]. destruct (hex4 _) as [[lo p2]| |]; [|done..]. destruct (negb _); [done|]. destruct (ok_or _ _) as [u| |] eqn:Eu; [|done..]. injection E as <- _. by apply Hc in Eu.
Qed.

Lemma escape_valid o p o' q : from_utf8_ok o = true -> string_escape o p = Ok (o', q) -> from_utf8_ok o' = true.
Proof.
  intros Ho E. unfold string_escape in E. destruct (peek p) as [c| |]; [|done..].
  repeat match type of E with (if ?b then Ok (_ ++ [_], _) else _) = _ => destruct b; [injection E as <- _; by rewrite from_utf8_ok_app|] end.
  destruct (c =? 117); [|done]. destruct (unicode_escape _) as [[ch p1]| |] eqn:Eu; [|done..]. injection E as <- _. rewrite from_utf8_ok_app by done. apply from_utf8_ok_encode. by apply unicode_scalar in Eu.
Qed.

Lemma string_loop_valid fuel o p s q : in_bounds p -> p.(jpos) < len p.(jbuf) -> p.(jutf8) = false -> from_utf8_ok o = true -> string_loop fuel o p = Ok (s, q) -> from_utf8_ok (cow_bytes s) = true.
Proof.
  revert o p. induction fuel as [|fuel IH]; intros o p Hp Hl Hu Ho E; cbn [string_loop] in E; [done|]. destruct (string_escape o _) as [[o1 p1]| |] eqn:E1; [|done..]. destruct (string_chunk _) as [[c n]| |] eqn:E2; [|done..].
  destruct (string_turn_moved _ _ _ _ _ _ Hp Hl E1 E2) as (Hm & Hl2 & Hb2). assert (Hu1 : jutf8 (adv p1 1) = false) by (destruct Hm as (_ & _ & Hx & _); cbn in *; congruence).
  apply chunk_valid in E2; [|done]. apply escape_valid in E1; [|done]. assert (Hv : from_utf8_ok (o1 ++ c) = true) by by rewrite from_utf8_ok_app. case_bool_decide; [by injection E as <- _|]. apply IH in E; [done|done| |done|done]. destruct Hm as (-> & _). done.
Qed.

Lemma string_valid p s q : in_bounds p -> p.(jutf8) = false -> JsonRead.string p = Ok (s, q) -> from_utf8_ok (cow_bytes s) = true.
Proof.
  intros Hp Hu E. unfold JsonRead.string in E. destruct (expect p 34) as [p1| |] eqn:E1; [|done..]. scan. assert (Hu1 : jutf8 p1 = false) by plain. destruct (string_chunk p1) as [[c n]| |] eqn:E2; [|done..].
  pose proof (string_chunk_moved _ _ _ ltac:(done) E2) as (Hm & Hl & Hn). apply chunk_valid in E2; [|done]. case_bool_decide; [by injection E as <- _|]. apply string_loop_valid in E; [done|..|done|done].
  - by apply (moved_in_bounds 0 p1).
  - done.
Qed.

Lemma whole_string_valid raw s : whole_string raw = Ok s -> TraceFields.string raw = Ok (cow_bytes s).
Proof.
  unfold whole_string, TraceFields.string. intros E. destruct (JsonRead.string _) as [[v p]| |] eqn:Es; [|done..]. apply string_valid in Es; [|apply new_in_bounds|done]. cbn [map_err]. destruct (jend _); [|done..]. injection E as ->. cbn [map_err]. by rewrite Es.
Qed.

Lemma whole_object_fields raw fields : whole_object raw = Ok fields -> object raw = Ok fields.
Proof. unfold whole_object, object. intros E. destruct (raw_object _) as [[fs p]| |]; [|done..]. cbn [map_err]. destruct (jend _); [|done..]. by injection E as ->. Qed.

Lemma whole_array_array raw l : whole_array raw = Ok l -> array raw = Ok l.
Proof. unfold whole_array, array. intros E. destruct (raw_array _) as [[vs p]| |]; [|done..]. cbn [map_err]. destruct (jend _); [|done..]. by injection E as ->. Qed.

(** * The attribute lists *)

Lemma field_pair fields rk rv : len fields = 2 -> first_field fields (str "key") = Ok rk -> first_field fields (str "value") = Ok rv -> field fields (str "key") = Ok rk /\ field fields (str "value") = Ok rv.
Proof.
  intros Hl Ek Ev. destruct (pair_fields fields rk rv Hl Ek Ev) as (nk & nv & Hk & Hv & [-> | ->]); unfold field; cbn [List.filter fst]; rewrite Hk, Hv; done.
Qed.

(** The lists the validator accepts the query loads, one entry per pair. *)
Lemma pairs_loaded f pairs seen out : reparse_pairs f pairs seen = Ok tt -> (forall k, is_some (find k out) = existsb (bytes_eqb k) seen) -> exists owner, attributes_loop pairs out = Ok owner /\ len owner = len out + len pairs.
Proof.
  revert seen out. induction pairs as [|raw pairs IH]; intros seen out E Hs; cbn [reparse_pairs attributes_loop] in *; [exists out; split; [done|change (len (@nil bytes)) with 0; lia]|].
  destruct (whole_object raw) as [entry| |] eqn:E1; [|done..]. rewrite (whole_object_fields _ _ E1). destruct (len entry =? 2) eqn:E2; [|done]. apply Z.eqb_eq in E2. cbn [negb] in E. destruct (first_field entry (str "key")) as [rk| |] eqn:E3; [|done..].
  destruct (whole_string rk) as [c| |] eqn:E4; [|done..]. destruct ((len (cow_bytes c) =? 0) || _) eqn:E5; [done|]. apply orb_false_iff in E5 as [_ E6]. destruct (first_field entry (str "value")) as [rv| |] eqn:E7; [|done..].
  destruct (f rv) as [[]| |]; [|done..]. destruct (field_pair entry rk rv E2 E3 E7) as [-> ->]. unfold borrowed_string. rewrite (whole_string_valid _ _ E4). pose proof (Hs (cow_bytes c)) as Hc. rewrite E6 in Hc. destruct (find (cow_bytes c) out) eqn:Ef; [done|].
  destruct (IH (cow_bytes c :: seen) (put (cow_bytes c) rv out) E) as (owner & -> & Hl).
  - intros k. rewrite find_put. cbn [existsb]. rewrite <- Hs. destruct (cmp (cow_bytes c) k) eqn:Ec.
    + apply cmp_eq in Ec as ->. by rewrite (proj2 (bytes_eqb_eq _ _)).
    + destruct (bytes_eqb k (cow_bytes c)) eqn:Eb; [|done]. apply bytes_eqb_eq in Eb as ->. by rewrite cmp_refl in Ec.
    + destruct (bytes_eqb k (cow_bytes c)) eqn:Eb; [|done]. apply bytes_eqb_eq in Eb as ->. by rewrite cmp_refl in Ec.
  - exists owner. split; [done|]. rewrite Hl, len_cons. pose proof (Permutation_length (put_new_perm (cow_bytes c) rv out Ef)) as Hp. unfold len in *. rewrite Hp. cbn [length]. lia.
Qed.

Lemma list_loaded raw l : reparse_list raw = Ok tt -> whole_array raw = Ok l -> exists owner, TempoExpression.attributes raw = Ok owner /\ len owner = len l.
Proof.
  intros E El. unfold reparse_list, text_fuel in E. cbn [reparse_attributes] in E. rewrite El in E. unfold TempoExpression.attributes. rewrite (whole_array_array _ _ El). destruct (pairs_loaded _ _ [] [] E) as (owner & -> & Hl); [done|]. exists owner. by split.
Qed.

(** * The validated envelope *)

Lemma six_field meta name bit raw : six_good meta -> member_bit name = Some bit -> first_field meta name = Ok raw -> field meta name = Ok raw.
Proof.
  intros [Hl Hg] Hb Ef. unfold field.
  assert (Hperm : [str "version"; str "resource"; str "scope"; str "attributes"; str "events"; str "links"] ≡ₚ map (fun f => cow_bytes (fst f)) meta).
  { apply NoDup_Permutation_bis; [apply NoDup_ListNoDup; by apply (bool_decide_unpack _); vm_compute|rewrite length_map; unfold len in Hl; cbn; lia|]. intros n Hn.
    assert (Hbn : exists b, member_bit n = Some b) by (destruct Hn as [<-|[<-|[<-|[<-|[<-|[<-|[]]]]]]]; by eexists). destruct Hbn as [b Hbn]. destruct (Hg n b Hbn) as (r & Er & _). apply first_field_eq in Er as (pre & m & post & -> & <- & _). rewrite map_app. apply in_app_iff. right. by left. }
  assert (Hnd : NoDup (map (fun f : Cow * bytes => cow_bytes (fst f)) meta)) by (rewrite <- Hperm; by apply (bool_decide_unpack _); vm_compute).
  apply first_field_eq in Ef as (pre & n & post & -> & Hn & Hpre). rewrite List.filter_app. cbn [List.filter fst]. rewrite (proj2 (bytes_eqb_eq _ _) Hn). rewrite map_app in Hnd. cbn [map] in Hnd.
  assert (Hnone : forall l : RawFields, Forall (fun f => cow_bytes (fst f) <> name) l -> List.filter (fun f => bytes_eqb (cow_bytes (fst f)) name) l = []).
  { induction 1 as [|f l Hf Hl' IH]; [done|]. cbn [List.filter]. destruct (bytes_eqb _ _) eqn:Eb; [by apply bytes_eqb_eq in Eb|done]. }
  rewrite (Hnone pre Hpre), (Hnone post); [done|]. apply Forall_forall. intros f Hf Ef. apply list.NoDup_app in Hnd as (_ & _ & Hnd). inversion Hnd as [|? ? Hx _]; subst. apply Hx. apply list_elem_of_In. apply in_map_iff. by exists f.
Qed.

(** What the query finds when it parses the envelope itself. *)
Lemma envelope_reparsed payload fields env : validated_parts payload = Ok (fields, Some env) -> exists otlp resource span ro so,
  field fields (str "otlp") = Ok otlp /\ object otlp = Ok env.(TempoExpression.members) /\
  field env.(TempoExpression.members) (str "resource") = Ok resource /\ TempoExpression.attributes resource = Ok ro /\ len ro = env.(resource_) /\
  field env.(TempoExpression.members) (str "attributes") = Ok span /\ TempoExpression.attributes span = Ok so /\ len so = env.(span_).
Proof.
  intros E. apply parts_sound in E as (ms & Hread & -> & [[? _]|(m & ns & y & Hf & Hnn & Ho & Hok & Hg & H63 & He & _)]); [done|]. injection He as ->. cbn [TempoExpression.members resource_ span_].
  assert (Hm : In m ms) by (assert (Hi : In m (List.filter is_otlp ms)) by (rewrite Hf; by left); by apply filter_In in Hi as [? _]). pose proof (payload_places payload ms Hread) as Hpl. rewrite Forall_forall in Hpl. destruct (Hpl m Hm) as ([Hp Hu] & Hb & Hr).
  destruct (slot_counted y ns (str "resource") 2 _ Hok H63 eq_refl eq_refl) as (r1 & F1 & (l1 & A1 & L1)). destruct (slot_counted y ns (str "attributes") 8 _ Hok H63 eq_refl eq_refl) as (r2 & F2 & (l2 & A2 & L2)).
  destruct (proj2 Hg (str "resource") 2 eq_refl) as (r1' & F1' & G1). rewrite F1 in F1'. injection F1' as <-. destruct (proj2 Hg (str "attributes") 8 eq_refl) as (r2' & F2' & G2). rewrite F2 in F2'. injection F2' as <-.
  destruct (list_loaded r1 l1 G1 A1) as (ro & Ro & Lo). destruct (list_loaded r2 l2 G2 A2) as (so & So & Ls). exists (text m.2), r1, r2, ro, so. split_and!.
  - unfold field. rewrite texts_filter, Hf. done.
  - rewrite (surjective_pairing m.2). apply whole_object_fields. by apply (object_text 0).
  - by apply (six_field _ _ 2).
  - done.
  - lia.
  - by apply (six_field _ _ 8).
  - done.
  - lia.
Qed.

(** * Programs that read no attribute *)

Context {Regex : Type} (anchored : bytes -> option Regex) (is_match : Regex -> bytes -> bool).

(** Owners that agree on what such a program reads. *)
Definition same_events (o o' : Owners) : Prop := o.(o_events) = o'.(o_events).

Lemma leaf_same fields o o' attrs scope key op wanted regex : same_events o o' -> scope ∈ scopes -> reads_attribute scope = false ->
  leaf is_match fields o attrs scope key op wanted regex = leaf is_match fields o' attrs scope key op wanted regex.
Proof.
  intros He Hs Hr. unfold leaf. f_equal. assert (Hk : eqs scope "intrinsic" = true \/ starts_with scope (str "event.") = true).
  { revert Hr. unfold scopes in Hs. repeat (apply elem_of_cons in Hs as [->|Hs]; [vm_compute; intros; first [done|by left|by right]|]). by apply not_elem_of_nil in Hs. }
  assert (Hv : leaf_value is_match fields o attrs scope key op wanted regex = leaf_value is_match fields o' attrs scope key op wanted regex); [|by rewrite Hv].
  unfold leaf_value. destruct (eqs scope "intrinsic"); [done|]. destruct Hk as [?|Hk]; [done|]. rewrite Hk. unfold same_events in He. by rewrite He.
Qed.

Lemma holds_same fields o o' t : same_events o o' -> tree_ok anchored t -> some_leaf reads_attribute t = false -> forall attrs, holds is_match fields o attrs t = holds is_match fields o' attrs t.
Proof.
  intros He. induction t as [scope key op wanted regex|l IHl r IHr|l IHl r IHr]; intros Hok Hn attrs; cbn [holds some_leaf tree_ok] in *.
  - apply leaf_same; [done| |done]. destruct Hok as [_ Hre]. by apply leaf_scopes in Hre.
  - apply orb_false_iff in Hn as [Hn1 Hn2]. destruct Hok as [H1 H2]. rewrite IHl by done. destruct (holds _ _ _ _ l) as [[a attrs1]| |]; [|done..]. by rewrite IHr.
  - apply orb_false_iff in Hn as [Hn1 Hn2]. destruct Hok as [H1 H2]. rewrite IHl by done. destruct (holds _ _ _ _ l) as [[a attrs1]| |]; [|done..]. by rewrite IHr.
Qed.

Lemma spansets_same fields o o' ts last collect : same_events o o' -> Forall (tree_ok anchored) ts -> existsb (some_leaf reads_attribute) ts = false -> forall i attrs mask,
  run_spansets is_match (map postfix ts) i last collect fields o attrs mask = run_spansets is_match (map postfix ts) i last collect fields o' attrs mask.
Proof.
  intros He Hok Hn. induction ts as [|t ts IH]; intros i attrs mask; [done|]. cbn [existsb] in Hn. apply orb_false_iff in Hn as [Hn1 Hn2]. inversion Hok as [|? ? Ht Hts]; subst. cbn [map run_spansets]. rewrite !run_postfix, (holds_same fields o o' t He Ht Hn1).
  destruct (holds _ _ _ _ t) as [[b s]| |]; [|done..]. by apply IH.
Qed.

Lemma selects_same fields o o' ss : same_events o o' -> existsb selects_attribute ss = false -> forall attrs, run_selects ss fields o attrs = run_selects ss fields o' attrs.
Proof.
  intros He Hn. induction ss as [|[scope key] ss IH]; intros attrs; [done|]. cbn [existsb] in Hn. apply orb_false_iff in Hn as [Hn1 Hn2]. cbn [run_selects].
  assert (Hs : owners_select o fields scope key = owners_select o' fields scope key).
  { unfold selects_attribute, among in Hn1. cbn [existsb fst] in Hn1. revert Hn1. unfold owners_select, eqs. destruct (bytes_eqb scope (str "resource")); [done|]. destruct (bytes_eqb scope (str "span")); [done|]. destruct (bytes_eqb scope (str "none")); [done|]. intros _. unfold same_events in He. by rewrite He. }
  rewrite Hs. destruct (owners_select o' fields scope key) as [found| |]; [|done..]. by rewrite IH.
Qed.

(** C27. A compiled program evaluates a validated span the same whether it is
    handed the validated envelope or parses the envelope itself: the same
    answer, samples and work, the same error. With the envelope a program that
    reads no resource or span attribute is charged for them without loading
    them. *)
Theorem envelope_evaluates_same (program : list Word) (e : Expression) (payload : bytes) (fields : RawFields) (env : Envelope) (work : Z) (collect : bool) :
  compile anchored program = Some e -> validated_parts payload = Ok (fields, Some env) ->
  evaluate_with is_match e fields (Some env) work collect = evaluate_with is_match e fields None work collect.
Proof.
  intros (j & t & s & -> & Hb & _ & ->)%compile_iff Hv. apply envelope_reparsed in Hv as (otlp & resource & span & ro & so & F1 & O1 & F2 & A2 & L2 & F3 & A3 & L3). set (e := expression_of _). unfold evaluate_with, load. rewrite F1, O1, F2, A2, F3, A3.
  destruct (attributes_ e) eqn:Ea; cbn [negb]; [done|]. rewrite L2, L3.
  match goal with |- context[if TempoExpression.events e then ?x else ?y] => destruct (if TempoExpression.events e then x else y) as [[evs units]| |]; [|done..] end.
  destruct (ok_or _ _) as [w| |]; [|done..]. destruct (WORK_MAX <? w); [done|]. cbn [attributes_ expression_of e] in Ea. apply orb_false_iff in Ea as [Ea1 Ea2]. cbn [trees joined open_ selects] in Ea1, Ea2.
  change (spansets e) with (map postfix (trees (mkDraft j [t] s))). change (select e) with s.
  rewrite (spansets_same fields (mkOwners [] [] evs) (mkOwners ro so evs)); [|done|apply (b_trees _ _ Hb)|done]. destruct (run_spansets _ _ _ _ _ _ _ _ _) as [[attrs mask]| |]; [|done..]. destruct collect; [|done].
  by rewrite (selects_same fields (mkOwners [] [] evs) (mkOwners ro so evs)).
Qed.
End Validated.

(** * A validated span *)
Module ValidatedSample.
Import External.Concrete.

(** [{ status = error }] *)
Definition program : list Word := [(str "intrinsic", str "status", str "=", str "2")].
Definition payload : bytes :=
  Sample.unquote (str "{'status':{'code':2},'events':[],'links':[],'otlp':{'version':1,'resource':[{'key':'name','value':{'stringValue':'db'}}],'scope':[],'attributes':[{'key':'code','value':{'intValue':'503'}},{'key':'tags','value':{'arrayValue':{'values':[{'boolValue':true}]}}}],'events':[],'links':[]}}").
Definition expression : Expression := match compile Sample.anchored_sample program with Some e => e | None => mkExpression [] [] [] false false 0 end.
Definition parts : RawFields * Envelope := match validated_parts payload with Ok (f, Some e) => (f, e) | _ => ([], mkEnvelope [] 0 0) end.
End ValidatedSample.

Import External.Concrete.
Lemma envelope_evaluates_same_witness :
  compile Sample.anchored_sample ValidatedSample.program = Some ValidatedSample.expression /\ validated_parts ValidatedSample.payload = Ok (fst ValidatedSample.parts, Some (snd ValidatedSample.parts)) /\
  resource_ (snd ValidatedSample.parts) = 1 /\ span_ (snd ValidatedSample.parts) = 2 /\
  match evaluate_with bytes_eqb ValidatedSample.expression (fst ValidatedSample.parts) (Some (snd ValidatedSample.parts)) 0 true with Ok (ev, work) => matched ev = true /\ work = 6 | _ => False end /\
  evaluate_with bytes_eqb ValidatedSample.expression (fst ValidatedSample.parts) (Some (snd ValidatedSample.parts)) 0 true =
  evaluate_with bytes_eqb ValidatedSample.expression (fst ValidatedSample.parts) None 0 true.
Proof.
  assert (Hc : compile Sample.anchored_sample ValidatedSample.program = Some ValidatedSample.expression) by (vm_compute; reflexivity).
  assert (Hv : validated_parts ValidatedSample.payload = Ok (fst ValidatedSample.parts, Some (snd ValidatedSample.parts))) by (vm_compute; reflexivity).
  split; [exact Hc|]. split; [exact Hv|]. split; [vm_compute; reflexivity|]. split; [vm_compute; reflexivity|]. split; [vm_compute; tauto|].
  exact (envelope_evaluates_same Sample.anchored_sample bytes_eqb _ _ _ _ _ 0 true Hc Hv).
Defined.
