(* ===== verification/TraceSearch.v ===== *)
(** Trace search (trace_search.rs): the state that groups the spans of a window
    into traces, over validated payloads, and the answer it writes.

    Parquet is a parameter: a blob is read into batches of rows whose columns may
    be null. *)

From S2P Require Import Prelude Utf8 External Float64 OrdMap Out JsonWrite JsonRead TraceFields JsonSim JsonSlice TraceSortKey Structural TempoExpression TraceMetadata JsonRegion TraceReparse TraceEnvelope.

Section Search.
Context `{SimdUtf8} `{Memchr2}.
Context {Regex : Type} (anchored : bytes -> option Regex) (is_match : Regex -> bytes -> bool).

Record Predicate : Type := mkPredicate { p_scope : bytes; p_key : bytes; p_value : bytes; p_regex : option Regex }.
Record Summary : Type := mkSummary { t_start : Z; t_end : Z; t_stored : Z; t_matched : Z }.
Record State : Type := mkState { w_start : Z; w_end : Z; limit : Z; max_groups : Z; scanned : Z; predicates : list Predicate; traces : list (bytes * Summary) }.

(** * Starting a search *)

(** The regex of a predicate and the number of regexes so far. *)
Definition new_regex (op value : bytes) (regexes : Z) : Answer (option Regex * Z) :=
  if eqs op "=" then Ok (None, regexes)
  else if eqs op "=~" && (len value <=? 1024) then
    if 8 <? regexes + 1 then Err Invalid
    else let? r := ok_or (anchored value) Invalid in Ok (Some r, regexes + 1)
  else Err Invalid.

Fixpoint new_predicates (specs : list Word) (regexes : Z) : Answer (list Predicate) :=
  match specs with
  | [] => Ok []
  | (scope, key, op, value) :: specs =>
      if negb (eqs scope "resource" || eqs scope "span") || (len key =? 0) || (256 <? len key) || (4096 <? len value) || contains value (str "${") then Err Invalid
      else
        let? (regex, regexes) := new_regex op value regexes in
        let? rest := new_predicates specs regexes in
        Ok (mkPredicate scope key value regex :: rest)
  end.

Definition in_range (lo hi n : Z) : bool := (lo <=? n) && (n <=? hi).

Definition trace_search_new (start end_ : Z) (specs : list Word) (limit max_groups : Z) : Answer State :=
  if (start <? 0) || (end_ <? 0) || negb (in_range 1 1000 limit) || negb (in_range 1 65536 max_groups) || negb (in_range 1 16 (len specs)) then Err Invalid
  else
    let? predicates := new_predicates specs 0 in
    Ok (mkState start end_ limit max_groups 0 predicates []).

(** * Observing a span *)

(** Only string values enter the dictionary. *)
Fixpoint typed_loop (pairs : list bytes) (values : list (bytes * bytes)) : Answer (list (bytes * bytes)) :=
  match pairs with
  | [] => Ok values
  | raw :: pairs =>
      let? entry := object raw in
      let? k := field entry (str "key") in
      let? k := TraceFields.string k in
      let? v := field entry (str "value") in
      let? v := object v in
      match field v (str "stringValue") with
      | Ok raw => let? s := TraceFields.string raw in typed_loop pairs (put k s values)
      | _ => typed_loop pairs values
      end
  end.

Definition typed_attributes (raw : bytes) : Answer (list (bytes * bytes)) :=
  let? pairs := array raw in typed_loop pairs [].

Definition PAYLOAD_MAX : Z := 16777216.
Definition is_id_digit (b : Z) : bool := is_digit b || ((97 <=? b) && (b <=? 102)).

Definition span_shape (id : bytes) (start end_ : Z) : bool :=
  (len id =? 32) && forallb is_id_digit id && negb (forallb (fun b => b =? 48) id) && (0 <=? start) && (start <=? end_).

(** [std::str::from_utf8(raw)?.parse()?] compared with the column. *)
Definition same_integer (fields : RawFields) (name : bytes) (expected : Z) : Answer unit :=
  let? raw := field fields name in
  let? actual := TraceFields.integer raw in
  if actual =? expected then Ok tt else Err Invalid.

Definition holds_predicate (resource span : list (bytes * bytes)) (p : Predicate) : bool :=
  let attrs := if eqs p.(p_scope) "resource" then resource else span in
  match find p.(p_key) attrs with
  | Some v => match p.(p_regex) with Some r => is_match r v | None => bytes_eqb v p.(p_value) end
  | None => false
  end.

(** The part of [observe] that reads the payload: does the span match? *)
Definition span_matches (ps : list Predicate) (id : bytes) (start end_ : Z) (payload : bytes) : Answer bool :=
  if PAYLOAD_MAX <? len payload then Err Budget
  else if negb (span_shape id start end_) then Err Invalid
  else
    let? _ := map_err Invalid (validate payload) in
    let? fields := object payload in
    let? raw := field fields (str "trace_id") in
    let? s := TraceFields.string raw in
    if negb (bytes_eqb s id) then Err Invalid
    else
      let? _ := same_integer fields (str "timestamp_ns") start in
      let? _ := same_integer fields (str "end_timestamp_ns") end_ in
      let? metadata :=
        match field fields (str "otlp") with
        | Ok raw => if negb (bytes_eqb raw (str "null")) then object raw else Err Unknown
        | _ => Err Unknown
        end in
      let? raw := field metadata (str "resource") in
      let? resource := typed_attributes raw in
      let? raw := field metadata (str "attributes") in
      let? span := typed_attributes raw in
      Ok (forallb (holds_predicate resource span) ps).

Definition set_traces (st : State) (m : list (bytes * Summary)) : State :=
  mkState st.(w_start) st.(w_end) st.(limit) st.(max_groups) st.(scanned) st.(predicates) m.
Definition set_scanned (st : State) (n : Z) : State :=
  mkState st.(w_start) st.(w_end) st.(limit) st.(max_groups) n st.(predicates) st.(traces).

Definition observe (st : State) (id : bytes) (start end_ : Z) (payload : bytes) : Answer State :=
  let? matched := span_matches st.(predicates) id start end_ payload in
  if negb (is_some (find id st.(traces))) && (len st.(traces) =? st.(max_groups)) then Err Groups
  else
    let s := default (mkSummary start end_ 0 0) (find id st.(traces)) in
    let? stored := ok_or (checked_u64 (s.(t_stored) + 1)) Budget in
    let? matched := ok_or (checked_u64 (s.(t_matched) + (if matched then 1 else 0))) Budget in
    Ok (set_traces st (put id (mkSummary (Z.min s.(t_start) start) (Z.max s.(t_end) end_) stored matched) st.(traces))).

(** * Scanning a segment *)

(** A row of the four columns, [None] where the column is null. *)
Record Row : Type := mkRow { r_start : option Z; r_end : option Z; r_id : option bytes; r_payload : option bytes }.

(** [ParquetRecordBatchReaderBuilder] with the columns by name: the file may be
    unreadable, and so may a batch or one of its columns. *)
Context (read : bytes -> option (list (option (list Row)))).

Definition SCANNED_MAX : Z := 1000000.

Definition scan_row (st : State) (r : Row) : Answer State :=
  match r.(r_start), r.(r_end), r.(r_id), r.(r_payload) with
  | Some start, Some end_, Some id, Some payload =>
      let? n := ok_or (checked_u64 (st.(scanned) + 1)) Budget in
      let st := set_scanned st n in
      if SCANNED_MAX <? n then Err Rows
      else if (st.(w_start) <=? start) && (start <=? st.(w_end)) then observe st id start end_ payload
      else Ok st
  | _, _, _, _ => Err Invalid
  end.

Fixpoint scan_rows (st : State) (rows : list Row) (n : Z) : Answer (State * Z) :=
  match rows with
  | [] => Ok (st, n)
  | r :: rows => let? st := scan_row st r in scan_rows st rows (n + 1)
  end.

Fixpoint scan_batches (st : State) (batches : list (option (list Row))) (n : Z) : Answer (State * Z) :=
  match batches with
  | [] => Ok (st, n)
  | batch :: batches =>
      let? rows := ok_or batch Invalid in
      let? (st, n) := scan_rows st rows n in
      scan_batches st batches n
  end.

Definition scan (st : State) (blob : bytes) : Answer (State * Z) :=
  let? batches := ok_or (read blob) Invalid in scan_batches st batches 0.

(** * The resource *)

(** [Mutex<Option<State>>]: a search that failed or was finished is gone; a
    lock that is taken elsewhere leaves it alone. *)
Abbreviation Search := (option State).

Definition trace_search_add (locked : bool) (search : Search) (blob : bytes) : Answer Z * Search :=
  if locked then (Err Budget, search)
  else
    match search with
    | None => (Err Invalid, search)
    | Some st =>
        match scan st blob with
        | Ok (st, n) => (Ok n, Some st)
        | Err e => (Err e, None)
        | Fuel => (Fuel, None)
        end
    end.

(** * The answer *)

(** [b.start.cmp(&a.start).then_with(|| id_a.cmp(id_b))]. *)
Definition newer_leb (a b : bytes * Summary) : bool :=
  if (snd a).(t_start) =? (snd b).(t_start) then bytes_leb (fst a) (fst b) else (snd b).(t_start) <? (snd a).(t_start).

Definition quoted (s : bytes) : bytes := [34] ++ s ++ [34].

Definition trace_text (t : bytes * Summary) : bytes :=
  let s := snd t in
  [123] ++ quoted (str "trace_id") ++ [58] ++ quoted (fst t) ++ [44] ++ quoted (str "start_timestamp_ns") ++ [58] ++ decimal_Z s.(t_start) ++
  [44] ++ quoted (str "end_timestamp_ns") ++ [58] ++ decimal_Z s.(t_end) ++ [44] ++ quoted (str "duration_ns") ++ [58] ++ decimal_Z (s.(t_end) - s.(t_start)) ++
  [44] ++ quoted (str "stored_span_count") ++ [58] ++ decimal_Z s.(t_stored) ++ [44] ++ quoted (str "matching_span_count") ++ [58] ++ decimal_Z s.(t_matched) ++ [125].

Section Write.
Context {S : Type} `{Sink S}.

(** A comma before every row but the first. *)
Fixpoint write_rows (out : S) (rows : list (bytes * Summary)) (first : bool) : S :=
  match rows with
  | [] => out
  | t :: rows => write_rows (extend (if first then out else push out 44) (trace_text t)) rows false
  end.

Definition matching (st : State) : list (bytes * Summary) :=
  sort_by newer_leb (List.filter (fun t => 0 <? (snd t).(t_matched)) st.(traces)).

Definition write (st : State) (out : S) : S :=
  let rows := matching st in
  let out := extend out ([123] ++ quoted (str "coverage") ++ [58] ++ quoted (str "window_stored_spans") ++ [44] ++ quoted (str "effective_start_ts_ns") ++ [58] ++ decimal_Z st.(w_start) ++
    [44] ++ quoted (str "end_ts_ns") ++ [58] ++ decimal_Z st.(w_end) ++ [44] ++ quoted (str "matched_trace_count") ++ [58] ++ decimal_Z (len rows) ++ [44] ++ quoted (str "traces") ++ [58; 91]) in
  let out := write_rows out (take (Z.to_nat st.(limit)) rows) true in
  extend out [93; 125].

Definition trace_search_finish (locked : bool) (search : Search) (empty : S) : Answer S * Search :=
  if locked then (Err Budget, search)
  else match search with None => (Err Invalid, None) | Some st => (Ok (write st empty), None) end.
End Write.

(** * The dictionaries of a validated span *)

(** The text of a string attribute; other types have none. *)
Definition string_of (raw : bytes) : option bytes :=
  match whole_object raw with
  | Ok [(name, v)] => if bytes_eqb (cow_bytes name) (str "stringValue") then match whole_string v with Ok s => Some (cow_bytes s) | _ => None end else None
  | _ => None
  end.
Definition string_attribute (owner : Owner) (k : bytes) : option bytes := match find k owner with Some raw => string_of raw | None => None end.

(** A typed value is an object of at most one member, whose string reads. *)
Definition readable (raw : bytes) : Prop :=
  whole_object raw = Ok [] \/ exists name v, whole_object raw = Ok [(name, v)] /\ (cow_bytes name = str "stringValue" -> exists s, whole_string v = Ok s).

Lemma value_readable F raw depth : reparse_value F raw depth = Ok tt -> readable raw.
Proof.
  destruct F as [|F]; [done|]. cbn [reparse_value]. intros E. destruct (128 <? depth); [done|]. destruct (whole_object raw) as [fields| |] eqn:Eo; [|done..]. destruct fields as [|[name v] [|]]; [by left| |done]. right. exists name, v. split; [done|]. intros Hn.
  rewrite Hn in E. change (bytes_eqb (str "stringValue") (str "stringValue")) with true in E. cbv iota in E. destruct (whole_string v) as [s| |]; [|done..]. by exists s.
Qed.

Lemma typed_loaded f pairs seen out owner values : (forall raw, f raw = Ok tt -> readable raw) -> reparse_pairs f pairs seen = Ok tt -> attributes_loop pairs out = Ok owner ->
  (forall k, find k values = string_attribute out k) -> exists m, typed_loop pairs values = Ok m /\ forall k, find k m = string_attribute owner k.
Proof.
  intros Hf. revert seen out values. induction pairs as [|raw pairs IH]; intros seen out values E Ea Hv; cbn [reparse_pairs attributes_loop typed_loop] in *; [injection Ea as <-; by exists values|].
  destruct (whole_object raw) as [entry| |] eqn:E1; [|done..]. rewrite (whole_object_fields _ _ E1) in *. destruct (len entry =? 2) eqn:E2; [|done]. apply Z.eqb_eq in E2. cbn [negb] in E. destruct (first_field entry (str "key")) as [rk| |] eqn:E3; [|done..].
  destruct (whole_string rk) as [c| |] eqn:E4; [|done..]. destruct ((len (cow_bytes c) =? 0) || _); [done|]. destruct (first_field entry (str "value")) as [rv| |] eqn:E7; [|done..]. destruct (f rv) as [[]| |] eqn:Efv; [|done..].
  destruct (field_pair entry rk rv E2 E3 E7) as [Fk Fv]. rewrite Fk, Fv in *. unfold borrowed_string in Ea. rewrite (whole_string_valid _ _ E4) in *. destruct (find (cow_bytes c) out) eqn:Efind; [done|].
  assert (Hstep : forall k, string_attribute (put (cow_bytes c) rv out) k = match cmp (cow_bytes c) k with Eq => string_of rv | _ => string_attribute out k end) by (intros k; unfold string_attribute; rewrite find_put; by destruct (cmp _ _)).
  assert (Hnone : string_attribute out (cow_bytes c) = None) by (unfold string_attribute; by rewrite Efind).
  assert (Hskip : string_of rv = None -> forall k, find k values = string_attribute (put (cow_bytes c) rv out) k).
  { intros Hs k. rewrite Hstep, Hv. destruct (cmp (cow_bytes c) k) eqn:Ec; [|done..]. apply cmp_eq in Ec as <-. by rewrite Hnone, Hs. }
  destruct (Hf rv Efv) as [Er|(name & v & Er & Hs)]; rewrite (whole_object_fields _ _ Er); unfold string_of in Hskip, Hstep; rewrite Er in Hskip, Hstep; [by apply (IH _ _ _ E Ea), Hskip|].
  unfold field. cbn [List.filter fst]. destruct (bytes_eqb (cow_bytes name) (str "stringValue")) eqn:En; [|by apply (IH _ _ _ E Ea), Hskip]. destruct (Hs (proj1 (bytes_eqb_eq _ _) En)) as [s Es]. rewrite (whole_string_valid _ _ Es). rewrite Es in Hstep.
  apply (IH _ _ _ E Ea). intros k. rewrite find_put, Hstep, Hv. done.
Qed.

(** The attribute lists of a validated span, as a query loads them. *)
Definition owners_of (env : Envelope) (ro so : Owner) : Prop := exists resource span,
  field env.(TempoExpression.members) (str "resource") = Ok resource /\ TempoExpression.attributes resource = Ok ro /\ field env.(TempoExpression.members) (str "attributes") = Ok span /\ TempoExpression.attributes span = Ok so.

Lemma typed_list raw ro : reparse_list raw = Ok tt -> TempoExpression.attributes raw = Ok ro -> exists m, typed_attributes raw = Ok m /\ forall k, find k m = string_attribute ro k.
Proof.
  unfold reparse_list, text_fuel. cbn [reparse_attributes]. intros E Ea. destruct (whole_array raw) as [l| |] eqn:El; [|done..]. unfold TempoExpression.attributes in Ea. unfold typed_attributes. rewrite (whole_array_array _ _ El) in *.
  apply (typed_loaded _ _ [] [] ro [] (fun r => value_readable _ r 0) E Ea). done.
Qed.

Lemma envelope_typed payload fields env : validated_parts payload = Ok (fields, Some env) -> exists otlp resource span ro so rm sm, field fields (str "otlp") = Ok otlp /\ bytes_eqb otlp (str "null") = false /\ object otlp = Ok env.(TempoExpression.members) /\
  field env.(TempoExpression.members) (str "resource") = Ok resource /\ typed_attributes resource = Ok rm /\ (forall k, find k rm = string_attribute ro k) /\
  field env.(TempoExpression.members) (str "attributes") = Ok span /\ typed_attributes span = Ok sm /\ (forall k, find k sm = string_attribute so k) /\ owners_of env ro so.
Proof.
  intros E. destruct (envelope_reparsed _ _ _ E) as (otlp & resource & span & ro & so & F1 & O1 & F2 & A2 & _ & F3 & A3 & _). pose proof E as E'. apply parts_sound in E' as (ms & Hread & -> & [[? _]|(m & ns & y & Hf & Hnn & Ho & Hok & Hg & H63 & He & _)]); [done|]. injection He as ->. cbn [TempoExpression.members] in *.
  destruct (proj2 Hg (str "resource") 2 eq_refl) as (r1 & X1 & G1). destruct (proj2 Hg (str "attributes") 8 eq_refl) as (r2 & X2 & G2). rewrite (six_field _ (str "resource") 2 r1 Hg eq_refl X1) in F2. injection F2 as <-. rewrite (six_field _ (str "attributes") 8 r2 Hg eq_refl X2) in F3. injection F3 as <-.
  destruct (typed_list r1 ro G1 A2) as (rm & T1 & R1). destruct (typed_list r2 so G2 A3) as (sm & T2 & R2). exists otlp, r1, r2, ro, so, rm, sm.
  assert (Hotlp : otlp = text m.2) by (unfold field in F1; rewrite texts_filter, Hf in F1; cbn in F1; by injection F1). pose proof (six_field _ (str "resource") 2 r1 Hg eq_refl X1) as Y1. pose proof (six_field _ (str "attributes") 8 r2 Hg eq_refl X2) as Y2.
  split_and!; try done; [subst otlp; destruct (bytes_eqb (text m.2) (str "null")) eqn:En; [by apply bytes_eqb_eq in En|done]|by exists r1, r2].
Qed.

Lemma parts_object payload fields env : validated_parts payload = Ok (fields, env) -> object payload = Ok fields.
Proof. intros E. apply parts_sound in E as (ms & Hread & -> & _). by apply whole_object_fields, payload_whole. Qed.

(** A span without an envelope. *)
Lemma legacy_field payload fields : validated_parts payload = Ok (fields, None) -> field fields (str "otlp") = Ok (str "null") \/ field fields (str "otlp") = Err Invalid.
Proof.
  intros E. apply parts_sound in E as (ms & _ & -> & [[_ [Hf|(m & Hf & Hn)]]|(m & ns & y & _ & _ & _ & _ & _ & _ & ? & _)]); [..|done]; unfold field; rewrite texts_filter, Hf; cbn; [by right|left; by rewrite Hn].
Qed.

(** * Observing a span, exactly *)

(** The row and its payload agree. *)
Definition agrees (fields : RawFields) (id : bytes) (start end_ : Z) : Prop :=
  (exists raw, field fields (str "trace_id") = Ok raw /\ TraceFields.string raw = Ok id) /\
  (exists raw, field fields (str "timestamp_ns") = Ok raw /\ TraceFields.integer raw = Ok start) /\ exists raw, field fields (str "end_timestamp_ns") = Ok raw /\ TraceFields.integer raw = Ok end_.

(** What a predicate says of the attributes of a span. *)
Definition predicate_true (ro so : Owner) (p : Predicate) : bool :=
  match string_attribute (if eqs p.(p_scope) "resource" then ro else so) p.(p_key) with
  | Some v => match p.(p_regex) with Some r => is_match r v | None => bytes_eqb v p.(p_value) end
  | None => false
  end.

Lemma same_integer_iff fields name n : same_integer fields name n = Ok tt <-> exists raw, field fields name = Ok raw /\ TraceFields.integer raw = Ok n.
Proof.
  unfold same_integer. split.
  - destruct (field fields name) as [raw| |]; [|done..]. intros E. exists raw. split; [done|]. destruct (TraceFields.integer raw) as [m| |]; [|done..]. destruct (m =? n) eqn:Em; [|done]. apply Z.eqb_eq in Em. by rewrite Em.
  - intros (raw & -> & ->). by rewrite Z.eqb_refl.
Qed.

Lemma same_integer_err fields name n e : same_integer fields name n = Err e -> e = Invalid.
Proof.
  unfold same_integer, field. destruct (List.filter _ _) as [|[k v] [|]]; [by intros [= <-]| |by intros [= <-]]. unfold TraceFields.integer. destruct (from_utf8_ok v); [|by intros [= <-]]. destruct (parse_i64 v); [|by intros [= <-]]. cbn [ok_or]. destruct (_ =? _); [done|by intros [= <-]].
Qed.

Lemma same_integer_not_fuel fields name n : same_integer fields name n <> Fuel.
Proof.
  unfold same_integer, field. destruct (List.filter _ _) as [|[k v] [|]]; [done| |done]. unfold TraceFields.integer. destruct (from_utf8_ok v); [|done]. destruct (parse_i64 v); [|done]. cbn [ok_or]. by destruct (_ =? _).
Qed.

Lemma trace_id_step fields : match field fields (str "trace_id") with Ok raw => TraceFields.string raw | Err e => Err e | Fuel => Fuel end = Err Invalid \/
  exists raw s, field fields (str "trace_id") = Ok raw /\ TraceFields.string raw = Ok s.
Proof.
  unfold field. destruct (List.filter _ _) as [|[k v] [|]]; [by left| |by left]. pose proof (string_answers v) as Hn. unfold TraceFields.string in *. destruct (JsonRead.string _) as [[c p]| |] eqn:E1; cbn [map_err] in *; [|by left|done].
  destruct (jend (ws p)) as [[]| |] eqn:E2; cbn [map_err] in *; [|by left|done]. destruct (from_utf8_ok _) eqn:E3; [|by left]. right. exists v, (cow_bytes c). split; [done|]. rewrite E1. cbn [map_err]. cbv zeta. rewrite E2. cbn [map_err]. by rewrite E3.
Qed.

Lemma validate_parts payload : match validate payload with Ok _ => exists fields env, validated_parts payload = Ok (fields, env) | Err _ => forall r, validated_parts payload <> Ok r | Fuel => False end.
Proof.
  unfold validate, validated_fields. pose proof (parts_ends (Parser_new payload) payload (new_in_bounds payload)) as Hn. unfold validated_parts. destruct (parts _ _) as [[fields env]| |]; [by exists fields, env|done|done].
Qed.

Lemma matches_exact ps id start end_ payload :
  match span_matches ps id start end_ payload with
  | Ok b => len payload <= PAYLOAD_MAX /\ span_shape id start end_ = true /\ exists fields env ro so, validated_parts payload = Ok (fields, Some env) /\ agrees fields id start end_ /\ owners_of env ro so /\ b = forallb (predicate_true ro so) ps
  | Err Budget => PAYLOAD_MAX < len payload
  | Err Unknown => len payload <= PAYLOAD_MAX /\ span_shape id start end_ = true /\ exists fields, validated_parts payload = Ok (fields, None) /\ agrees fields id start end_
  | Err Invalid => len payload <= PAYLOAD_MAX /\ (span_shape id start end_ = true -> forall fields env, validated_parts payload = Ok (fields, env) -> ~ agrees fields id start end_)
  | _ => False
  end.
Proof.
  unfold span_matches. destruct (PAYLOAD_MAX <? len payload) eqn:El; [by apply Z.ltb_lt in El|]. apply Z.ltb_ge in El. destruct (span_shape id start end_); cbn [negb]; [|done]. pose proof (validate_parts payload) as Hv. destruct (validate payload) as [[]| |]; cbn [map_err]; [|split; [done|]; intros _ fields env E; by apply Hv in E|done].
  destruct Hv as (fields & env & Ev). rewrite (parts_object _ _ _ Ev). assert (Hinv : (forall f e, validated_parts payload = Ok (f, e) -> ~ agrees f id start end_) <-> ~ agrees fields id start end_).
  { split; [intros Hx; by apply (Hx fields env)|]. intros Hx f e E. rewrite Ev in E. by injection E as <- <-. }
  destruct (trace_id_step fields) as [Ht|(raw & s & Fi & Fs)].
  { assert (Hna : ~ agrees fields id start end_) by (intros ((raw & Fi & Fs) & _); rewrite Fi, Fs in Ht; done). destruct (field fields (str "trace_id")) as [raw| |]; [|injection Ht as ->; split; [done|intros _; by apply Hinv]|done]. destruct (TraceFields.string raw) as [s| |]; [done| |done]. injection Ht as ->. split; [done|intros _; by apply Hinv]. }
  rewrite Fi, Fs. destruct (bytes_eqb s id) eqn:Es; cbn [negb]; [|split; [done|]; intros _; apply Hinv; intros ((raw' & Fi' & Fs') & _); rewrite Fi in Fi'; injection Fi' as <-; rewrite Fs in Fs'; injection Fs' as ->; by rewrite (proj2 (bytes_eqb_eq _ _)) in Es].
  apply bytes_eqb_eq in Es as ->. pose proof (same_integer_iff fields (str "timestamp_ns") start) as I1. pose proof (same_integer_err fields (str "timestamp_ns") start) as X1. pose proof (same_integer_not_fuel fields (str "timestamp_ns") start) as N1.
  destruct (same_integer fields (str "timestamp_ns") start) as [[]|e1|]; [|rewrite (X1 e1 eq_refl); split; [done|]; intros _; apply Hinv; intros (_ & A2 & _); by apply I1 in A2|done].
  pose proof (same_integer_iff fields (str "end_timestamp_ns") end_) as I2. pose proof (same_integer_err fields (str "end_timestamp_ns") end_) as X2. pose proof (same_integer_not_fuel fields (str "end_timestamp_ns") end_) as N2.
  destruct (same_integer fields (str "end_timestamp_ns") end_) as [[]|e2|]; [|rewrite (X2 e2 eq_refl); split; [done|]; intros _; apply Hinv; intros (_ & _ & A3); by apply I2 in A3|done].
  assert (Ha : agrees fields id start end_) by (split; [by exists raw|]; split; [by apply I1|by apply I2]). destruct env as [env|].
  - destruct (envelope_typed _ _ _ Ev) as (otlp & resource & span & ro & so & rm & sm & -> & -> & Ho & F2 & T2 & R2 & F3 & T3 & R3 & Hown). cbn [negb]. rewrite Ho, F2, T2, F3, T3. split; [done|]. split; [done|]. exists fields, env, ro, so. split; [done|]. split; [done|]. split; [done|].
    assert (Hp : forall p, holds_predicate rm sm p = predicate_true ro so p) by (intros p; unfold holds_predicate, predicate_true; destruct (eqs (p_scope p) "resource"); rewrite ?R2, ?R3; done). clear -Hp. induction ps as [|p ps IH]; [done|]. cbn [forallb]. by rewrite Hp, IH.
  - destruct (legacy_field _ _ Ev) as [-> | ->]; [|split; [done|]; split; [done|]; by exists fields]. change (bytes_eqb (str "null") (str "null")) with true. cbn [negb]. split; [done|]. split; [done|]. by exists fields.
Qed.

(** * Grouping *)

(** A row of the window: its identifier, its times and whether it matches. *)
Record Entry : Type := mkEntry { e_id : bytes; e_start : Z; e_end : Z; e_matched : bool }.

(** The rows a search has observed. *)
Definition entry_of (st : State) (r : Row) : list Entry :=
  match r.(r_start), r.(r_end), r.(r_id), r.(r_payload) with
  | Some start, Some end_, Some id, Some payload =>
      if (st.(w_start) <=? start) && (start <=? st.(w_end)) then
        match span_matches st.(predicates) id start end_ payload with Ok b => [mkEntry id start end_ b] | _ => [] end
      else []
  | _, _, _, _ => []
  end.
Definition entries (st : State) (rows : list Row) : list Entry := concat (map (entry_of st) rows).

Definition of_trace (id : bytes) (es : list Entry) : list Entry := List.filter (fun e => bytes_eqb e.(e_id) id) es.

(** A summary describes the entries of its trace. *)
Record describes (es : list Entry) (s : Summary) : Prop := mkDescribes {
  s_first : Exists (fun e => e.(e_start) = s.(t_start)) es;
  s_earliest : Forall (fun e => s.(t_start) <= e.(e_start)) es;
  s_last : Exists (fun e => e.(e_end) = s.(t_end)) es;
  s_latest : Forall (fun e => e.(e_end) <= s.(t_end)) es;
  s_count : s.(t_stored) = len es;
  s_hits : s.(t_matched) = len (List.filter e_matched es)
}.

Definition grouped (es : list Entry) (m : list (bytes * Summary)) : Prop :=
  ordered m /\ forall id, match find id m with Some s => describes (of_trace id es) s | None => of_trace id es = [] end.

Lemma of_trace_snoc id es e : of_trace id (es ++ [e]) = of_trace id es ++ (if bytes_eqb e.(e_id) id then [e] else []).
Proof. unfold of_trace. rewrite List.filter_app. cbn [List.filter]. by destruct (bytes_eqb _ _). Qed.

Lemma describes_snoc es s e : describes es s -> describes (es ++ [e]) (mkSummary (Z.min s.(t_start) e.(e_start)) (Z.max s.(t_end) e.(e_end)) (s.(t_stored) + 1) (s.(t_matched) + (if e.(e_matched) then 1 else 0))).
Proof.
  intros [H1 H2 H3 H4 H5 H6]. constructor; cbn.
  - apply Exists_app. destruct (Z.min_spec (t_start s) (e_start e)) as [[_ ->]|[_ ->]]; [by left|right; by constructor].
  - apply Forall_app. split; [eapply Forall_impl; [|exact H2]; cbn; intros; lia|constructor; [lia|constructor]].
  - apply Exists_app. destruct (Z.max_spec (t_end s) (e_end e)) as [[_ ->]|[_ ->]]; [right; by constructor|by left].
  - apply Forall_app. split; [eapply Forall_impl; [|exact H4]; cbn; intros; lia|constructor; [lia|constructor]].
  - rewrite len_app, H5. done.
  - rewrite List.filter_app, len_app, H6. cbn [List.filter]. by destruct (e_matched e).
Qed.

Lemma describes_one e : describes [e] (mkSummary (Z.min e.(e_start) e.(e_start)) (Z.max e.(e_end) e.(e_end)) (0 + 1) (0 + (if e.(e_matched) then 1 else 0))).
Proof.
  rewrite Z.min_id, Z.max_id. constructor; cbn; [by constructor|constructor; [lia|constructor]|by constructor|constructor; [lia|constructor]|done|by destruct (e_matched e)].
Qed.

(** * The invariant *)

(** The state of a search started as [st0] after the rows. *)
Record searched (st0 : State) (rows : list Row) (st : State) : Prop := mkSearched {
  i_query : set_scanned (set_traces st st0.(traces)) st0.(scanned) = st0;
  i_scanned : st.(scanned) = len rows /\ len rows <= SCANNED_MAX;
  i_grouped : grouped (entries st0 rows) st.(traces);
  i_groups : len st.(traces) <= st.(max_groups)
}.

Lemma entry_same st0 st r n m : set_scanned (set_traces st m) n = st0 -> entry_of st0 r = entry_of st r.
Proof. by intros <-. Qed.

Lemma grouped_put es m e : grouped es m -> let s := default (mkSummary e.(e_start) e.(e_end) 0 0) (find e.(e_id) m) in
  grouped (es ++ [e]) (put e.(e_id) (mkSummary (Z.min s.(t_start) e.(e_start)) (Z.max s.(t_end) e.(e_end)) (s.(t_stored) + 1) (s.(t_matched) + (if e.(e_matched) then 1 else 0))) m).
Proof.
  intros [Ho Hg] s. split; [by apply put_ordered|]. intros id. rewrite find_put, of_trace_snoc. pose proof (Hg id) as Hid. destruct (cmp (e_id e) id) eqn:Ec.
  - apply cmp_eq in Ec as <-. rewrite (proj2 (bytes_eqb_eq _ _)) by done. subst s. destruct (find (e_id e) m) as [s|]; cbn [default].
    + by apply describes_snoc.
    + rewrite Hid. apply describes_one.
  - replace (bytes_eqb (e_id e) id) with false by (symmetry; destruct (bytes_eqb _ _) eqn:Eb; [apply bytes_eqb_eq in Eb as <-; by rewrite cmp_refl in Ec|done]). by rewrite app_nil_r.
  - replace (bytes_eqb (e_id e) id) with false by (symmetry; destruct (bytes_eqb _ _) eqn:Eb; [apply bytes_eqb_eq in Eb as <-; by rewrite cmp_refl in Ec|done]). by rewrite app_nil_r.
Qed.

Lemma entries_snoc st rows r : entries st (rows ++ [r]) = entries st rows ++ entry_of st r.
Proof. unfold entries. rewrite map_app, concat_app. cbn. by rewrite app_nil_r. Qed.

Lemma scan_row_ok st0 rows st r st' : searched st0 rows st -> scan_row st r = Ok st' -> searched st0 (rows ++ [r]) st'.
Proof.
  intros [Hq [Hs Hmax] Hg Hl] E. unfold scan_row in E. pose proof (entry_same st0 st r _ _ Hq) as Hent. unfold entry_of in Hent at 2. destruct (r_start r) as [start|]; [|done]. destruct (r_end r) as [end_|]; [|done]. destruct (r_id r) as [id|]; [|done]. destruct (r_payload r) as [payload|]; [|done].
  unfold checked_u64 in E. destruct ((0 <=? scanned st + 1) && _); [|done]. cbn [ok_or] in E. destruct (SCANNED_MAX <? scanned st + 1) eqn:Em; [done|]. apply Z.ltb_ge in Em. cbn [w_start w_end set_scanned] in E.
  assert (Hlen : len (rows ++ [r]) = scanned st + 1) by (rewrite len_app, Hs; done). destruct ((w_start st <=? start) && (start <=? w_end st)).
  - unfold observe in E. cbn [predicates set_scanned traces max_groups] in E. destruct (span_matches _ _ _ _ _) as [b| |]; [|done..]. destruct (negb (is_some (find id (traces st))) && _) eqn:Egr; [done|].
    pose proof (grouped_put _ _ (mkEntry id start end_ b) Hg) as Hput. cbn [e_id e_start e_end e_matched] in Hput. set (s := default _ _) in *. unfold checked_u64 in E. destruct ((0 <=? t_stored s + 1) && _); [|done]. cbn [ok_or] in E.
    destruct ((0 <=? t_matched s + _) && _); [|done]. cbn [ok_or] in E. injection E as <-. constructor; cbn [scanned traces max_groups set_traces set_scanned].
    + exact Hq.
    + lia.
    + rewrite entries_snoc, Hent. exact Hput.
    + destruct (find id (traces st)) as [w|] eqn:Ef; [by rewrite (put_len_old id _ _ w (proj1 Hg) Ef)|]. rewrite put_len_new by done. cbn [is_some negb andb] in Egr. apply Z.eqb_neq in Egr. lia.
  - injection E as <-. constructor; cbn [scanned traces max_groups set_traces set_scanned]; [exact Hq|lia| |done]. rewrite entries_snoc, Hent, app_nil_r. exact Hg.
Qed.

Lemma scan_rows_ok st0 more : forall rows st n st' n', searched st0 rows st -> scan_rows st more n = Ok (st', n') -> searched st0 (rows ++ more) st' /\ n' = n + len more.
Proof.
  induction more as [|r more IH]; intros rows st n st' n' Hs E; cbn [scan_rows] in E; [injection E as <- <-; rewrite app_nil_r; split; [done|change (len (@nil Row)) with 0; lia]|].
  destruct (scan_row st r) as [st1| |] eqn:E1; [|done..]. apply (scan_row_ok st0 rows) in E1; [|done]. destruct (IH _ _ _ _ _ E1 E) as [Hs' ->]. rewrite <- app_assoc in Hs'. split; [done|rewrite len_cons; lia].
Qed.

(** The rows of the batches of a blob. *)
Definition batch_rows (bs : list (option (list Row))) : list Row := concat (map (default []) bs).
Definition blob_rows (blob : bytes) : list Row := batch_rows (default [] (read blob)).

Lemma scan_batches_ok st0 bs : forall rows st n st' n', searched st0 rows st -> scan_batches st bs n = Ok (st', n') -> searched st0 (rows ++ batch_rows bs) st' /\ n' = n + len (batch_rows bs).
Proof.
  induction bs as [|b bs IH]; intros rows st n st' n' Hs E; cbn [scan_batches] in E; [injection E as <- <-; unfold batch_rows; cbn; rewrite app_nil_r; split; [done|change (len (@nil Row)) with 0; lia]|].
  destruct b as [l|]; [|done]. cbn [ok_or] in E. destruct (scan_rows st l n) as [[st1 n1]| |] eqn:E1; [|done..]. destruct (scan_rows_ok _ _ _ _ _ _ _ Hs E1) as [Hs1 ->]. destruct (IH _ _ _ _ _ Hs1 E) as [Hs' ->]. change (batch_rows (Some l :: bs)) with (l ++ batch_rows bs).
  rewrite <- app_assoc in Hs'. split; [done|rewrite len_app; lia].
Qed.

Lemma scan_ok st0 rows st blob st' n : searched st0 rows st -> scan st blob = Ok (st', n) -> searched st0 (rows ++ blob_rows blob) st' /\ n = len (blob_rows blob).
Proof.
  intros Hs E. unfold scan in E. unfold blob_rows. destruct (read blob) as [bs|]; [|done]. change (default [] (Some bs)) with bs. cbn [ok_or] in E. destruct (scan_batches_ok _ _ _ _ _ _ _ Hs E) as [Hs' ->]. split; [done|lia].
Qed.

Lemma new_searched start end_ specs limit max_groups st : trace_search_new start end_ specs limit max_groups = Ok st -> searched st [] st.
Proof.
  unfold trace_search_new. intros E. destruct (_ || _) eqn:Eg in E; [done|]. destruct (new_predicates specs 0) as [ps| |]; [|done..]. injection E as <-. unfold in_range in Eg. constructor; cbn; [done|unfold len, SCANNED_MAX; cbn; lia|split; [constructor|done]|].
  change (len (@nil (bytes * Summary))) with 0. repeat (apply orb_false_iff in Eg as [Eg ?]). repeat match goal with Hb : negb _ = false |- _ => apply negb_false_iff in Hb end. bools. lia.
Qed.

(** * The answer *)

Lemma newer_total a b : newer_leb a b = false -> newer_leb b a = true.
Proof.
  unfold newer_leb. destruct (Z.eqb_spec (t_start a.2) (t_start b.2)) as [E|E].
  - rewrite E, Z.eqb_refl. apply bytes_leb_total.
  - replace (t_start b.2 =? t_start a.2) with false by (symmetry; apply Z.eqb_neq; lia). rewrite Z.ltb_lt, Z.ltb_ge. lia.
Qed.

(** [a] comes before [b]: it starts later, or at the same time with the smaller
    identifier. *)
Definition before (a b : bytes * Summary) : Prop := (snd b).(t_start) < (snd a).(t_start) \/ ((snd a).(t_start) = (snd b).(t_start) /\ bytes_ltb (fst a) (fst b) = true).

Lemma matching_sorted st : ordered st.(traces) -> Forall (fun '(a, b) => before a b) (windows2 (matching st)).
Proof.
  intros Ho. pose proof (sort_by_sorted newer_leb newer_total (List.filter (fun t => 0 <? t_matched t.2) (traces st))) as Hs. fold (matching st) in Hs.
  assert (Hn : NoDup (map fst (matching st))).
  { unfold matching. rewrite (sort_by_perm newer_leb). by apply ordered_nodup, filter_ordered. }
  apply (windows_distinct fst) in Hn. unfold sorted in Hs. rewrite Forall_forall in *. intros [a b] Hin. specialize (Hs _ Hin). specialize (Hn _ Hin). cbn in Hs, Hn. unfold newer_leb in Hs. unfold before. destruct (Z.eqb_spec (t_start a.2) (t_start b.2)) as [E|E].
  - right. split; [done|]. rewrite bytes_ltb_leb. destruct (bytes_leb b.1 a.1) eqn:Eb; [|done]. by destruct Hn; apply bytes_leb_antisym.
  - left. by apply Z.ltb_lt in Hs.
Qed.

Lemma matching_in st t : t ∈ matching st <-> t ∈ st.(traces) /\ 0 < (snd t).(t_matched).
Proof.
  unfold matching. rewrite (sort_by_perm newer_leb), !list_elem_of_In, filter_In, Z.ltb_lt. done.
Qed.

(** The rows with commas between them. *)
Fixpoint commas (rows : list bytes) : bytes :=
  match rows with
  | [] => []
  | [r] => r
  | r :: rows => r ++ [44] ++ commas rows
  end.

Definition header_text (st : State) : bytes :=
  [123] ++ quoted (str "coverage") ++ [58] ++ quoted (str "window_stored_spans") ++ [44] ++ quoted (str "effective_start_ts_ns") ++ [58] ++ decimal_Z st.(w_start) ++
    [44] ++ quoted (str "end_ts_ns") ++ [58] ++ decimal_Z st.(w_end) ++ [44] ++ quoted (str "matched_trace_count") ++ [58] ++ decimal_Z (len (matching st)) ++ [44] ++ quoted (str "traces") ++ [58; 91].

Lemma write_rows_text rows out : write_rows out rows false = out ++ concat (map (fun t => [44] ++ trace_text t) rows).
Proof. revert out. induction rows as [|t rows IH]; intros out; cbn [write_rows map concat]; [by rewrite app_nil_r|]. rewrite IH. cbn [extend push Sink_Vec]. by rewrite <- !app_assoc. Qed.

Lemma commas_text t rows : commas (map trace_text (t :: rows)) = trace_text t ++ concat (map (fun t => [44] ++ trace_text t) rows).
Proof. revert t. induction rows as [|u rows IH]; intros t; cbn [map concat]; [cbn; by rewrite app_nil_r|]. change (commas (trace_text t :: trace_text u :: map trace_text rows)) with (trace_text t ++ [44] ++ commas (map trace_text (u :: rows))). by rewrite IH, <- app_assoc. Qed.

Lemma write_text st : write st [] = header_text st ++ commas (map trace_text (take (Z.to_nat st.(limit)) (matching st))) ++ [93; 125].
Proof.
  unfold write. cbv zeta. fold (header_text st). cbn [extend Sink_Vec app]. destruct (take _ (matching st)) as [|t rows]; [done|]. rewrite commas_text. cbn [write_rows]. rewrite write_rows_text. cbn [extend Sink_Vec]. by rewrite <- !app_assoc.
Qed.

(** ** Its size *)

Lemma decimal_digits_len fuel : forall k n, 0 <= n < 10 ^ Z.of_nat k -> (1 <= k)%nat -> len (decimal_digits fuel n) <= Z.of_nat k.
Proof.
  induction fuel as [|fuel IH]; intros k n Hn Hk; cbn [decimal_digits]; [change (len (@nil Z)) with 0; lia|]. destruct (n <? 10) eqn:E; [change (len [48 + n]) with 1; lia|]. apply Z.ltb_ge in E. destruct k as [|[|k]]; [lia|cbn in Hn; lia|].
  rewrite len_app. change (len [48 + n mod 10]) with 1. specialize (IH (S k) (n / 10)). rewrite Nat2Z.inj_succ, Z.pow_succ_r in Hn by lia. assert (0 <= n / 10 < 10 ^ Z.of_nat (S k)) by (split; [apply Z.div_pos; lia|apply Z.div_lt_upper_bound; lia]). lia.
Qed.

Lemma decimal_len n : 0 <= n <= I64_MAX -> len (decimal_Z n) <= 19.
Proof.
  intros Hn. unfold decimal_Z, decimal. replace (n <? 0) with false by (symmetry; apply Z.ltb_ge; lia). apply (decimal_digits_len _ 19); [|lia]. unfold I64_MAX in Hn. change (10 ^ Z.of_nat 19) with 10000000000000000000. lia.
Qed.

Lemma trace_text_len id s : len id = 32 -> 0 <= s.(t_start) <= s.(t_end) -> s.(t_end) <= I64_MAX -> 0 <= s.(t_matched) <= s.(t_stored) -> s.(t_stored) <= SCANNED_MAX -> len (trace_text (id, s)) <= 300.
Proof.
  intros Hid Hs He Hm Hc. unfold SCANNED_MAX in Hc. unfold trace_text, quoted. cbn [fst snd]. rewrite !len_app, Hid. repeat match goal with |- context[len (str ?w)] => let n := eval vm_compute in (len (str w)) in change (len (str w)) with n end.
  pose proof (decimal_len (t_start s) ltac:(lia)). pose proof (decimal_len (t_end s) ltac:(lia)). pose proof (decimal_len (t_end s - t_start s) ltac:(lia)). pose proof (decimal_len (t_stored s) ltac:(unfold I64_MAX; lia)). pose proof (decimal_len (t_matched s) ltac:(unfold I64_MAX; lia)).
  unfold len in *. cbn [length] in *. lia.
Qed.

Lemma commas_len rows n : Forall (fun r => len r <= n) rows -> 0 <= n -> len (commas rows) <= len rows * (n + 1).
Proof.
  intros Hr Hn. induction Hr as [|r rows Hx Hr IH]; [done|]. rewrite len_cons. destruct rows as [|r2 rows]; [cbn [commas]; change (len (@nil bytes)) with 0; lia|]. change (commas (r :: r2 :: rows)) with (r ++ [44] ++ commas (r2 :: rows)). rewrite !len_app. change (len [44]) with 1. lia.
Qed.

Definition entry_ok (e : Entry) : Prop := len e.(e_id) = 32 /\ 0 <= e.(e_start) <= e.(e_end) /\ e.(e_end) <= I64_MAX.

Lemma entries_ok st rows : Forall entry_ok (entries st rows).
Proof.
  unfold entries. induction rows as [|r rows IH]; [constructor|]. cbn [map concat]. apply Forall_app. split; [|exact IH]. unfold entry_of. destruct (r_start r) as [start|]; [|constructor]. destruct (r_end r) as [end_|]; [|constructor]. destruct (r_id r) as [id|]; [|constructor]. destruct (r_payload r) as [payload|]; [|constructor].
  destruct (_ && _); [|constructor]. pose proof (matches_exact (predicates st) id start end_ payload) as Hm. destruct (span_matches _ _ _ _ _) as [b| |]; [|constructor..]. constructor; [|constructor]. destruct Hm as (_ & Hs & fields & env & ro & so & _ & (_ & _ & raw & _ & Hi) & _).
  unfold span_shape in Hs. repeat (apply andb_true_iff in Hs as [Hs ?]). unfold TraceFields.integer in Hi. destruct (from_utf8_ok raw); [|done]. destruct (parse_i64 raw) as [n|] eqn:Ep; [|done]. cbn in Hi. injection Hi as ->. apply parse_i64_range in Ep. split_and!; cbn; bools; lia.
Qed.

Lemma entries_len st rows : len (entries st rows) <= len rows.
Proof.
  unfold entries. induction rows as [|r rows IH]; [done|]. cbn [map concat]. rewrite len_app, len_cons. assert (len (entry_of st r) <= 1); [|lia]. unfold entry_of. repeat case_match; unfold len; cbn; lia.
Qed.

Lemma filter_len {A} (f : A -> bool) l : 0 <= len (List.filter f l) <= len l.
Proof. induction l as [|x l IH]; [done|]. cbn [List.filter]. rewrite len_cons. destruct (f x); rewrite ?len_cons; lia. Qed.

Lemma describes_ok st rows id s : describes (of_trace id (entries st rows)) s -> len id = 32 /\ 0 <= s.(t_start) <= s.(t_end) /\ s.(t_end) <= I64_MAX /\ 0 <= s.(t_matched) <= s.(t_stored) /\ s.(t_stored) <= len rows.
Proof.
  intros [H1 H2 H3 H4 H5 H6]. pose proof (entries_ok st rows) as Hok. pose proof (entries_len st rows). rewrite Forall_forall in *. apply Exists_exists in H1 as (e & Hin & He). apply Exists_exists in H3 as (e' & Hin' & He').
  pose proof (proj1 (filter_In _ _ _) Hin) as [Hin1 Hid]. apply bytes_eqb_eq in Hid. destruct (Hok e Hin1) as (O1 & O2 & O3). pose proof (proj1 (filter_In _ _ _) Hin') as [Hin1' _]. destruct (Hok e' Hin1') as (P1 & P2 & P3). pose proof (H4 e Hin). subst id.
  pose proof (filter_len e_matched (of_trace (e_id e) (entries st rows))). pose proof (filter_len (fun x => bytes_eqb (e_id x) (e_id e)) (entries st rows)) as Hf. fold (of_trace (e_id e) (entries st rows)) in Hf. lia.
Qed.

(** * Whole searches *)

(** The adds of a search, one after the other. *)
Fixpoint adds (search : Search) (blobs : list bytes) : list (Answer Z) * Search :=
  match blobs with
  | [] => ([], search)
  | blob :: blobs =>
      let '(a, search) := trace_search_add false search blob in
      let '(l, search) := adds search blobs in (a :: l, search)
  end.

Definition all_rows (blobs : list bytes) : list Row := concat (map blob_rows blobs).

Lemma adds_none blobs : adds None blobs = (map (fun _ => Err Invalid) blobs, None).
Proof. induction blobs as [|b blobs IH]; [done|]. cbn [adds trace_search_add map]. by rewrite IH. Qed.

Lemma scan_row_answers st r : scan_row st r <> Fuel.
Proof.
  unfold scan_row. destruct (r_start r) as [start|]; [|done]. destruct (r_end r) as [end_|]; [|done]. destruct (r_id r) as [id|]; [|done]. destruct (r_payload r) as [payload|]; [|done]. unfold checked_u64 at 1. destruct (_ && _); [|done]. cbn [ok_or]. destruct (_ <? _); [done|]. destruct (_ && _); [|done]. unfold observe. cbn [predicates set_scanned].
  match goal with |- context[span_matches ?a ?b ?c ?d ?e] => pose proof (matches_exact a b c d e) as Hm; destruct (span_matches a b c d e) as [m| |]; [|done..] end. destruct (_ && _); [done|]. unfold checked_u64. destruct (_ && _); [|done]. cbn [ok_or]. by destruct (_ && _).
Qed.

Lemma scan_rows_answers rows : forall st n, scan_rows st rows n <> Fuel.
Proof. induction rows as [|r rows IH]; intros st n; [done|]. cbn [scan_rows]. pose proof (scan_row_answers st r). destruct (scan_row st r); [apply IH|done..]. Qed.

Lemma scan_answers st blob : scan st blob <> Fuel.
Proof.
  unfold scan. destruct (read blob) as [bs|]; [|done]. cbn [ok_or]. generalize 0. revert st. induction bs as [|b bs IH]; intros st n; [done|]. cbn [scan_batches]. destruct b as [l|]; [|done]. cbn [ok_or]. pose proof (scan_rows_answers l st n). destruct (scan_rows st l n) as [[st1 n1]| |]; [apply IH|done..].
Qed.

Lemma adds_ok st0 blobs : forall rows st, searched st0 rows st ->
  match adds (Some st) blobs with
  | (answers, Some st') => answers = map (fun b => Ok (len (blob_rows b))) blobs /\ searched st0 (rows ++ all_rows blobs) st'
  | (answers, None) => exists done e rest, answers = map (fun b => Ok (len (blob_rows b))) done ++ Err e :: map (fun _ => Err Invalid) rest /\ exists b, blobs = done ++ b :: rest
  end.
Proof.
  induction blobs as [|b blobs IH]; intros rows st Hs; [cbn; unfold all_rows; cbn; by rewrite app_nil_r|]. cbn [adds trace_search_add]. pose proof (scan_answers st b) as Hn. destruct (scan st b) as [[st1 n]|e|] eqn:E; [| |done].
  - destruct (scan_ok st0 rows st b st1 n Hs E) as [Hs1 ->]. specialize (IH _ _ Hs1). destruct (adds (Some st1) blobs) as [l [st'|]]; [destruct IH as [-> IH]|destruct IH as (dn & e & rest & -> & b' & ->)].
    + split; [done|]. unfold all_rows in *. cbn [map concat]. by rewrite app_assoc.
    + exists (b :: dn), e, rest. split; [done|]. by exists b'.
  - rewrite adds_none. exists [], e, blobs. split; [done|]. by exists b.
Qed.

Definition ANSWER_MAX : Z := 1048576.

Lemma header_len st : 0 <= st.(w_start) <= I64_MAX -> 0 <= st.(w_end) <= I64_MAX -> len (matching st) <= I64_MAX -> len (header_text st) <= 300.
Proof.
  intros H1 H2 H3. unfold header_text, quoted. rewrite !len_app. repeat match goal with |- context[len (str ?w)] => let n := eval vm_compute in (len (str w)) in change (len (str w)) with n end.
  pose proof (decimal_len _ H1). pose proof (decimal_len _ H2). pose proof (decimal_len (len (matching st)) ltac:(pose proof (len_nonneg (matching st)); lia)). change (len [123]) with 1. change (len [34]) with 1. change (len [58]) with 1. change (len [44]) with 1. change (len [58; 91]) with 2. lia.
Qed.

(** C28. A trace search groups every span of its window before it limits. After
    any sequence of segments that were all added, the answer lists exactly the
    traces with a matching span, newest start first and then by identifier, up
    to the limit; each with the earliest start, the latest end and the numbers
    of stored and of matching spans over all rows of the window; the count of
    matching traces is not cut by the limit. The answer is below one mebibyte,
    a million rows are scanned at most and the groups stay within their limit.
    When an add fails, those before it succeeded and every later one finds the
    search gone. *)
Theorem search_exact (start end_ : Z) (specs : list Word) (lim groups : Z) (st0 : State) (blobs : list bytes) :
  start <= I64_MAX -> end_ <= I64_MAX -> trace_search_new start end_ specs lim groups = Ok st0 ->
  match adds (Some st0) blobs with
  | (answers, Some st) => answers = map (fun b => Ok (len (blob_rows b))) blobs /\ len (all_rows blobs) <= SCANNED_MAX /\ len st.(traces) <= groups /\
      let es := entries st0 (all_rows blobs) in
      (forall id s, (id, s) ∈ matching st -> describes (of_trace id es) s) /\ (forall id, id ∈ map fst (matching st) <-> Exists (fun e => e.(e_matched) = true) (of_trace id es)) /\
      Forall (fun '(a, b) => before a b) (windows2 (matching st)) /\
      trace_search_finish false (Some st) [] = (Ok (header_text st ++ commas (map trace_text (take (Z.to_nat lim) (matching st))) ++ [93; 125]), None) /\
      len (header_text st ++ commas (map trace_text (take (Z.to_nat lim) (matching st))) ++ [93; 125]) <= ANSWER_MAX
  | (answers, None) => exists added e rest, answers = map (fun b => Ok (len (blob_rows b))) added ++ Err e :: map (fun _ => Err Invalid) rest /\ exists b, blobs = added ++ b :: rest
  end.
Proof.
  intros Hs1 Hs2 Hnew. pose proof (new_searched _ _ _ _ _ _ Hnew) as H0s. pose proof (adds_ok st0 blobs [] st0 H0s) as Ha. destruct (adds (Some st0) blobs) as [answers [st|]]; [|exact Ha]. destruct Ha as [-> [Hq [Hsc Hmax] [Ho Hg] Hgr]]. cbn [app] in *.
  assert (Hcfg : 0 <= st.(w_start) <= I64_MAX /\ 0 <= st.(w_end) <= I64_MAX /\ st.(limit) = lim /\ st.(max_groups) = groups /\ 1 <= lim <= 1000 /\ groups <= 65536).
  { unfold trace_search_new in Hnew. destruct (_ || _) eqn:Eg in Hnew; [done|]. destruct (new_predicates specs 0) as [ps| |]; [|done..]. injection Hnew as <-. injection Hq as Q1 Q2 Q3 Q4 Q5. unfold in_range in Eg. repeat (apply orb_false_iff in Eg as [Eg ?]).
    repeat match goal with Hb : negb _ = false |- _ => apply negb_false_iff in Hb end. bools. lia. }
  destruct Hcfg as (C1 & C2 & C3 & C4 & C5 & C6). assert (Hin : forall id s, (id, s) ∈ traces st -> describes (of_trace id (entries st0 (all_rows blobs))) s).
  { intros id s Hi. apply (find_iff id s) in Hi; [|done]. specialize (Hg id). by rewrite Hi in Hg. }
  split; [done|]. split; [done|]. split; [lia|]. cbv zeta. split; [intros id s Hi; apply matching_in in Hi as [Hi _]; by apply Hin|]. split.
  { intros id. rewrite list_elem_of_In, in_map_iff. split.
    - intros ([i s] & <- & Hi). apply list_elem_of_In, matching_in in Hi as [Hi Hm]. cbn in Hm |- *. apply Hin in Hi. rewrite (s_hits _ _ Hi) in Hm. apply Exists_exists. destruct (List.filter e_matched _) as [|e l] eqn:Ef; [done|]. assert (Hie : In e (List.filter e_matched (of_trace i (entries st0 (all_rows blobs))))) by (rewrite Ef; by left).
      apply filter_In in Hie as [? ?]. by exists e.
    - intros Hex. specialize (Hg id). destruct (find id (traces st)) as [s|] eqn:Ef; [|rewrite Hg in Hex; by apply Exists_nil in Hex]. exists (id, s). split; [done|]. apply list_elem_of_In, matching_in. split; [by apply find_in|]. cbn. rewrite (s_hits _ _ Hg).
      apply Exists_exists in Hex as (e & He & Hm). assert (Hie : In e (List.filter e_matched (of_trace id (entries st0 (all_rows blobs))))) by (by apply filter_In). destruct (List.filter e_matched _) as [|x l]; [done|]. rewrite len_cons. pose proof (len_nonneg l). lia. }
  split; [by apply matching_sorted|]. split; [cbn [trace_search_finish]; by rewrite write_text, C3|].
  assert (Hml : len (matching st) <= 65536).
  { unfold matching. unfold len. rewrite (Permutation_length (sort_by_perm newer_leb _)). pose proof (filter_len (fun t => 0 <? t_matched t.2) (traces st)). unfold len in *. lia. }
  pose proof (header_len st C1 C2 ltac:(unfold I64_MAX; lia)) as Hh. rewrite !len_app. change (len [93; 125]) with 2.
  pose proof (commas_len (map trace_text (take (Z.to_nat lim) (matching st))) 300) as Hc. unfold ANSWER_MAX. assert (Hrows : len (map trace_text (take (Z.to_nat lim) (matching st))) <= 1000) by (rewrite len_map; unfold len; rewrite length_take; lia).
  specialize (Hc ltac:(apply Forall_forall; intros r Hr; apply in_map_iff in Hr as ([id s] & <- & Hr); apply list_elem_of_In in Hr; pose proof (subseteq_take (Z.to_nat lim) (matching st) _ Hr) as Hr'; apply matching_in in Hr' as [Hr' _]; destruct (describes_ok _ _ _ _ (Hin _ _ Hr')) as (D1 & D2 & D3 & D4 & D5); apply trace_text_len; [done..|lia]) ltac:(lia)). lia.
Qed.

Lemma checked_u64_case n : match checked_u64 n with Some m => m = n | None => n < 0 \/ U64_MAX < n end.
Proof. unfold checked_u64. destruct (_ && _) eqn:E; [done|]. apply andb_false_iff in E as [E|E]; apply Z.leb_gt in E; lia. Qed.

(** * One span *)

(** A span the search accepts, and whether all predicates hold of it. *)
Definition accepted (ps : list Predicate) (id : bytes) (start end_ : Z) (payload : bytes) (b : bool) : Prop :=
  len payload <= PAYLOAD_MAX /\ span_shape id start end_ = true /\ exists fields env ro so, validated_parts payload = Ok (fields, Some env) /\ agrees fields id start end_ /\ owners_of env ro so /\ b = forallb (predicate_true ro so) ps.

(** Observing a span answers exactly by the state of the span. It is counted
    iff the payload is within its bound, validates, agrees with the row and has
    an OTLP envelope, and then it matches iff every predicate holds of the string
    attribute of its owner; a validated span without envelope is unknown, never
    guessed from its projection; a new trace beyond the limit of groups is
    refused; and no other error is possible. *)
Theorem observe_exact (st : State) (id : bytes) (start end_ : Z) (payload : bytes) :
  match observe st id start end_ payload with
  | Ok st' => exists b, accepted st.(predicates) id start end_ payload b /\ (find id st.(traces) = None -> len st.(traces) <> st.(max_groups)) /\
      let s := default (mkSummary start end_ 0 0) (find id st.(traces)) in
      st' = set_traces st (put id (mkSummary (Z.min s.(t_start) start) (Z.max s.(t_end) end_) (s.(t_stored) + 1) (s.(t_matched) + Z.b2z b)) st.(traces))
  | Err Groups => (exists b, accepted st.(predicates) id start end_ payload b) /\ find id st.(traces) = None /\ len st.(traces) = st.(max_groups)
  | Err Budget => PAYLOAD_MAX < len payload \/ exists s, find id st.(traces) = Some s /\ ~ (0 <= s.(t_stored) < U64_MAX /\ 0 <= s.(t_matched) < U64_MAX)
  | Err Unknown => span_shape id start end_ = true /\ exists fields, validated_parts payload = Ok (fields, None) /\ agrees fields id start end_
  | Err Invalid => span_shape id start end_ = true -> forall fields env, validated_parts payload = Ok (fields, env) -> ~ agrees fields id start end_
  | _ => False
  end.
Proof.
  unfold observe. pose proof (matches_exact (predicates st) id start end_ payload) as Hm. destruct (span_matches _ _ _ _ _) as [b|e|]; [|destruct e; tauto|done]. change (accepted (predicates st) id start end_ payload b) in Hm.
  destruct (negb (is_some (find id (traces st))) && _) eqn:Eg; [destruct (find id (traces st)); [done|]; cbn in Eg; apply Z.eqb_eq in Eg; split; [by exists b|done]|].
  set (s := default _ _). pose proof (checked_u64_case (t_stored s + 1)) as C1. destruct (checked_u64 (t_stored s + 1)) as [n1|] eqn:E1; cbn [ok_or].
  - pose proof (checked_u64_case (t_matched s + (if b then 1 else 0))) as C2. destruct (checked_u64 (t_matched s + _)) as [n2|] eqn:E2; cbn [ok_or].
    + exists b. split; [done|]. split; [intros Hf; rewrite Hf in Eg; cbn in Eg; by apply Z.eqb_neq in Eg|]. subst n1 n2. by destruct b.
    + right. subst s. destruct (find id (traces st)) as [s|]; [|by destruct b]. exists s. split; [done|]. change (default _ (Some s)) with s in C2. destruct b; lia.
  - right. subst s. destruct (find id (traces st)) as [s|]; [|done]. exists s. split; [done|]. change (default _ (Some s)) with s in C1. lia.
Qed.
End Search.

(** * Three spans of two traces *)
Module SearchSample.
Import External.Concrete.

Definition span (id start end_ value : bytes) : bytes :=
  Sample.unquote (str "{'trace_id':'" ++ id ++ str "','timestamp_ns':" ++ start ++ str ",'end_timestamp_ns':" ++ end_ ++
    str ",'events':[],'links':[],'otlp':{'version':1,'resource':[{'key':'env','value':{'stringValue':'" ++ value ++ str "'}}],'scope':[],'attributes':[],'events':[],'links':[]}}").
Definition a : bytes := str "00000000000000000000000000000001".
Definition b : bytes := str "00000000000000000000000000000002".
Definition rows : list Row := [
  mkRow (Some 900) (Some 950) (Some a) (Some (span a (str "900") (str "950") (str "prod")));
  mkRow (Some 500) (Some 700) (Some b) (Some (span b (str "500") (str "700") (str "prod")));
  mkRow (Some 100) (Some 200) (Some a) (Some (span a (str "100") (str "200") (str "other")));
  mkRow (Some 2000) (Some 2001) (Some a) (Some [])].
(** One readable blob, in two batches. *)
Definition read (blob : bytes) : option (list (option (list Row))) := if bytes_eqb blob [1] then Some [Some (take 2 rows); Some (drop 2 rows)] else None.
Definition specs : list Word := [(str "resource", str "env", str "=", str "prod")].
Definition started : State := match trace_search_new Sample.anchored_sample 0 1000 specs 1 10 with Ok st => st | _ => mkState 0 0 0 0 0 [] [] end.
Definition answered : list (Answer Z) * State :=
  match adds bytes_eqb read (Some started) [[1]] with (answers, Some st) => (answers, st) | (answers, None) => (answers, started) end.
End SearchSample.

Import External.Concrete.
Lemma search_exact_witness :
  trace_search_new Sample.anchored_sample 0 1000 SearchSample.specs 1 10 = Ok SearchSample.started /\
  adds bytes_eqb SearchSample.read (Some SearchSample.started) [[1]] = (fst SearchSample.answered, Some (snd SearchSample.answered)) /\
  map (fun t => (fst t, t_start (snd t), t_end (snd t), t_stored (snd t), t_matched (snd t))) (matching (snd SearchSample.answered)) = [(SearchSample.b, 500, 700, 1, 1); (SearchSample.a, 100, 950, 2, 1)] /\
  len (traces (snd SearchSample.answered)) <= 10 /\ fst SearchSample.answered = [Ok 4] /\
  fst (adds bytes_eqb SearchSample.read (Some SearchSample.started) [[1]; [2]; [1]]) = [Ok 4; Err Invalid; Err Invalid].
Proof.
  assert (Hn : trace_search_new Sample.anchored_sample 0 1000 SearchSample.specs 1 10 = Ok SearchSample.started) by (vm_compute; reflexivity).
  assert (Ha : adds bytes_eqb SearchSample.read (Some SearchSample.started) [[1]] = (fst SearchSample.answered, Some (snd SearchSample.answered))) by (vm_compute; reflexivity).
  pose proof (search_exact Sample.anchored_sample bytes_eqb SearchSample.read 0 1000 SearchSample.specs 1 10 SearchSample.started [[1]] ltac:(vm_compute; discriminate) ltac:(vm_compute; discriminate) Hn) as Hs.
  rewrite Ha in Hs. destruct Hs as (_ & _ & Hg & _). split; [exact Hn|]. split; [exact Ha|]. split; [vm_compute; reflexivity|]. split; [exact Hg|]. split; vm_compute; reflexivity.
Defined.
