(* ===== verification/LogLabels.v ===== *)
(** The labels of a log line and its pipeline (log_metric.rs): the labels an
    entry has from its columns, the logfmt and regexp parsers, label filters
    with their numbers, and the pipeline over them.

    Compiled regexes and their captures are parameters, functions carried by the
    stages. *)

From stdpp Require Import gmap.
From S2P Require Import Prelude Utf8 External Float64 OrdMap QueryFilter.

(** [Panic] stands for an index out of range, which is no value in the source. *)
Inductive Error : Type := Fallback | Pipeline | Limit | Panic.
Abbreviation Res A := (res Error A).

(** * Labels *)

Abbreviation Labels := (list (bytes * bytes)).

Record EntryLabels : Type := mkEntryLabels { labels : Labels; stream_keys : gset bytes; metadata_keys : gset bytes }.

(** [strict_string_pairs(...).ok_or(Error::Fallback)?]. *)
Definition stored_pairs (text : bytes) : Res (list (Cow * Cow)) :=
  match strict_string_pairs text with
  | Ok l => Ok l
  | Err _ => Err Fallback
  | Fuel => Fuel
  end.

(** One turn over the stored pairs; both strings must be UTF-8. *)
Definition text_pair {A} (f : A -> bytes -> bytes -> A) (acc : A) (p : Cow * Cow) : Res A :=
  let k := cow_bytes (fst p) in
  let v := cow_bytes (snd p) in
  if negb (from_utf8_ok k) then Err Fallback
  else if negb (from_utf8_ok v) then Err Fallback
  else Ok (f acc k v).

Definition each_pair {A} (f : A -> bytes -> bytes -> A) (acc : A) (text : bytes) : Res A :=
  if bool_decide (text = []) then Ok acc
  else let? pairs := stored_pairs text in foldM (text_pair f) acc pairs.

(** [entry(name).or_insert_with(value)]. *)
Definition or_insert (m : Labels) (name value : bytes) : Labels :=
  match find name m with Some _ => m | None => put name value m end.

Definition stream_pair (acc : Labels * gset bytes) (k v : bytes) : Labels * gset bytes :=
  (put k v (fst acc), {[k]} ∪ snd acc).

Definition mirror (acc : Labels * gset bytes) (e : bytes * option bytes) : Labels * gset bytes :=
  match snd e with
  | Some v => (or_insert (fst acc) (fst e) v, {[fst e]} ∪ snd acc)
  | None => acc
  end.
Definition mirrors (service level : option bytes) : list (bytes * option bytes) :=
  [(str "service", service); (str "service_name", service); (str "level", level); (str "detected_level", level)].

(** A column that holds a nonempty string. *)
Definition has_value (v : option bytes) : bool := match v with Some (_ :: _) => true | _ => false end.

Definition identifier (m : Labels) (e : bytes * option bytes) : Labels :=
  match snd e with
  | Some ((_ :: _) as v) => or_insert m (fst e) v
  | _ => m
  end.

Definition EXTRACTED : bytes := str "_extracted".

(** A metadata entry: a stream label keeps its name, the metadata gets a
    suffix, and a suffixed name that is taken is preserved. *)
Definition place (stream : gset bytes) (acc : Labels * gset bytes) (e : bytes * bytes) : Labels * gset bytes :=
  let '(name, value) := e in
  if bool_decide (name ∈ stream) then
    let name := name ++ EXTRACTED in
    match find name (fst acc) with
    | Some _ => acc
    | None => (put name value (fst acc), {[name]} ∪ snd acc)
    end
  else (put name value (fst acc), {[name]} ∪ snd acc).

Definition entry_labels (resource attributes : bytes) (service level trace_id span_id : option bytes) : Res EntryLabels :=
  let? stream := each_pair stream_pair ([], ∅) resource in
  let '(labels, stream_keys) := fold_left mirror (mirrors service level) stream in
  let? metadata := each_pair (fun m k v => put k v m) [] attributes in
  let metadata := fold_left identifier [(str "trace_id", trace_id); (str "span_id", span_id)] metadata in
  let '(labels, metadata_keys) := fold_left (place stream_keys) metadata (labels, ∅) in
  Ok (mkEntryLabels labels stream_keys metadata_keys).

Definition validate_labels (resource attributes : bytes) (service level : option bytes) : res unit unit :=
  match entry_labels resource attributes service level None None with
  | Ok _ => Ok tt
  | Err _ => Err tt
  | Fuel => Fuel
  end.

(** * logfmt *)

Definition bare (c : Z) : bool := (32 <? c) && negb ((c =? 61) || (c =? 34)).
Definition skip_token (l : bytes) : bytes := skip_while (fun c => 32 <? c) l.

(** The text before the closing quote, escapes skipped, and what follows it. *)
Fixpoint quoted_end (l : bytes) : option (bytes * bytes) :=
  match l with
  | [] => None
  | c :: l' =>
      if c =? 34 then Some ([], l')
      else if c =? 92 then
        match l' with
        | [] => None
        | d :: l' => let* (body, rest) := quoted_end l' in Some (c :: d :: body, rest)
        end
      else let* (body, rest) := quoted_end l' in Some (c :: body, rest)
  end.

(** What a backslash and its byte stand for; [\u] is left to the reference. *)
Definition logfmt_escape (c : Z) : Res (option Z) :=
  if (c =? 34) || (c =? 92) || (c =? 47) || (c =? 39) then Ok (Some c)
  else if c =? 98 then Ok (Some 8)
  else if c =? 102 then Ok (Some 12)
  else if c =? 110 then Ok (Some 10)
  else if c =? 114 then Ok (Some 13)
  else if c =? 116 then Ok (Some 9)
  else if c =? 117 then Err Fallback
  else Ok None.

(** The decoding loop: [body[cursor]] panics past the end, [None] is malformed. *)
Fixpoint decode_quoted (body value : bytes) : Res (option bytes) :=
  match body with
  | [] => Ok (Some value)
  | c :: body =>
      if c =? 92 then
        match body with
        | [] => Err Panic
        | d :: body =>
            let? decoded := logfmt_escape d in
            match decoded with
            | Some b => decode_quoted body (value ++ [b])
            | None => Ok None
            end
        end
      else decode_quoted body (value ++ [c])
  end.

(** [logfmt_quoted] from behind the opening quote, with the rest of the line. *)
Definition logfmt_quoted (l : bytes) : Res (option bytes * bytes) :=
  match quoted_end l with
  | None => Ok (None, [])
  | Some (body, rest) => let? d := decode_quoted body [] in Ok (d, rest)
  end.

Definition is_ascii_alphanumeric (c : Z) : bool := is_digit c || is_ascii_alphabetic c.
Definition name_char (c : Z) : Z := if is_ascii_alphanumeric c || (c =? 95) then c else 95.
Definition normalized (key : bytes) : bytes :=
  (match key with c :: _ => if is_digit c then [95] else [] | [] => [] end) ++ map name_char key.

(** A bare value, up to blank; one with a stray quote or equals sign is skipped
    as a token. *)
Definition bare_value (l : bytes) : option bytes * bytes :=
  let (v, l) := span bare l in
  match l with
  | c :: _ => if (c =? 61) || (c =? 34) then (None, skip_token l) else (Some v, l)
  | [] => (Some v, l)
  end.

(** A key and its value: the value and where the next turn starts. *)
Definition logfmt_pair (l : bytes) : Res (option (bytes * bytes) * bytes) :=
  let (key, l) := span bare l in
  if bool_decide (key = []) || bool_decide (head l = Some 34) then Ok (None, skip_token l)
  else
    match l with
    | 61 :: l =>
        match l with
        | [] => Ok (None, l)
        | c :: l' =>
            if c <=? 32 then Ok (None, l)
            else
              let? (d, l) := (if c =? 34 then logfmt_quoted l' else Ok (bare_value l)) in
              match d with
              | Some ((_ :: _) as v) => Ok (Some (normalized key, v), l)
              | _ => Ok (None, l)
              end
        end
    | _ => Ok (None, l)
    end.

Fixpoint logfmt_loop (fuel : nat) (l : bytes) (pairs : Labels) (seen : gset bytes) : Res Labels :=
  match fuel with
  | O => Fuel
  | S fuel =>
      match skip_while (fun c => c <=? 32) l with
      | [] => Ok pairs
      | l =>
          let? (found, l) := logfmt_pair l in
          match found with
          | Some (k, v) =>
              if bool_decide (k ∈ seen) then logfmt_loop fuel l pairs seen
              else if from_utf8_ok v then logfmt_loop fuel l (pairs ++ [(k, v)]) ({[k]} ∪ seen)
              else Err Fallback
          | None => logfmt_loop fuel l pairs seen
          end
      end
  end.

Definition logfmt (line : bytes) : Res Labels :=
  if negb (forallb (fun c => c <? 128) line) then Err Fallback
  else logfmt_loop (S (length line)) line [] ∅.

(** * Numbers *)

Inductive CmpOp : Type := CEq | CNeq | CLt | CLte | CGt | CGte.

(** A float is its bits. *)
Inductive Number : Type := Int (i : Z) | Float (bits : Z).

Definition float (n : Number) : Z := match n with Int i => f64_of_Z i | Float f => f end.

(** [partial_cmp] of floats. *)
Definition partial_cmp (a b : Z) : option comparison :=
  if f64_lt a b then Some Lt else if f64_eq a b then Some Eq else if f64_lt b a then Some Gt else None.

Definition compare (op : CmpOp) (actual expected : Number) : Res bool :=
  let? ordering := ok_or (partial_cmp (float actual) (float expected)) Fallback in
  Ok (match op, ordering with
      | CEq, Eq => true | CEq, _ => false
      | CNeq, Eq => false | CNeq, _ => true
      | CLt, Lt => true | CLt, _ => false
      | CLte, Gt => false | CLte, _ => true
      | CGt, Gt => true | CGt, _ => false
      | CGte, Lt => false | CGte, _ => true
      end).

Definition digits (s : bytes) : bool := negb (bool_decide (s = [])) && forallb is_digit s.

Definition strip_sign (b : bytes) : bytes :=
  match b with c :: l => if (c =? 45) || (c =? 43) then l else b | [] => b end.

(** The text before the first byte that satisfies [f], and what follows it. *)
Definition split_at (f : Z -> bool) (l : bytes) : bytes * option bytes :=
  let (a, rest) := span (fun c => negb (f c)) l in
  match rest with [] => (a, None) | _ :: rest => (a, Some rest) end.

Definition is_exponent (c : Z) : bool := (c =? 101) || (c =? 69).
Definition exponent_ok (e : option bytes) : bool := match e with None => true | Some e => digits (strip_sign e) end.

(** [text.parse::<i64>()] on a sign and digits, [text.parse::<f64>()] on a sign
    and a decimal. *)
Definition decimal_i64 (text : bytes) : option Z :=
  let v := digits_value (strip_sign text) in
  checked_i64 (if bool_decide (head text = Some 45) then - v else v).
Definition decimal_f64 (text : bytes) : Z :=
  parse_f64 (if bool_decide (head text = Some 43) then tail text else text).

Definition label_number (text : bytes) : Res Number :=
  let unsigned := strip_sign text in
  if digits unsigned then let? i := ok_or (decimal_i64 text) Fallback in Ok (Int i)
  else
    let (mantissa, exponent) := split_at is_exponent unsigned in
    let (whole, fraction) := split_at (Z.eqb 46) mantissa in
    if negb (digits whole) || negb (match fraction with None => true | Some f => digits f end) || negb (exponent_ok exponent) then Err Fallback
    else
      let value := decimal_f64 text in
      if f64_is_finite value then Ok (Float value) else Err Fallback.

(** A sample of a series. *)
Inductive Sample : Type := SFloat (bits : Z) | SInt (i : Z) | SError.

(** [text.replace(".e", ".0e")], for either case of the exponent. *)
Fixpoint zero_fraction (e : Z) (l : bytes) : bytes :=
  match l with
  | [] => []
  | c :: l' =>
      match l' with
      | d :: l'' => if (c =? 46) && (d =? e) then 46 :: 48 :: e :: zero_fraction e l'' else c :: zero_fraction e l'
      | [] => [c]
      end
  end.

Definition ascii_lowercase (c : Z) : Z := if (65 <=? c) && (c <=? 90) then c + 32 else c.
Definition SPECIAL : list bytes := [str "nan"; str "inf"; str "+inf"; str "-inf"; str "infinity"; str "+infinity"; str "-infinity"].

Definition unwrap_value (value : option bytes) : Res Sample :=
  match value with
  | None => Ok SError
  | Some text =>
      let unsigned := strip_sign text in
      let (mantissa, exponent) := split_at is_exponent unsigned in
      let (whole, fraction) := split_at (Z.eqb 46) mantissa in
      let mantissa_ok :=
        match fraction with
        | None => digits whole
        | Some f => (digits whole && (bool_decide (f = []) || digits f)) || (bool_decide (whole = []) && digits f)
        end in
      if mantissa_ok && exponent_ok exponent then
        let normalized := zero_fraction 69 (zero_fraction 101 text) in
        let normalized := if bool_decide (head (rev normalized) = Some 46) then normalized ++ [48] else normalized in
        let value := decimal_f64 normalized in
        if f64_is_finite value then Ok (SFloat value) else Err Fallback
      else if negb (bool_decide (map ascii_lowercase text ∈ SPECIAL)) && negb (existsb is_digit text) then Ok SError
      else Err Fallback
  end.

(** * Pipelines *)

Inductive Filter : Type :=
| And (l r : Filter)
| Or (l r : Filter)
| Str (name : bytes) (negate : bool) (value : bytes)
| FRe (name : bytes) (negate : bool) (regex : Regex)
| Num (name : bytes) (op : CmpOp) (value : Number).

(** A regexp stage has its expression as a function to the captured groups. *)
Inductive Stage : Type :=
| Line (negate : bool) (needle : bytes)
| LineRe (negate : bool) (regex : Regex)
| Logfmt
| Regexp (captures : bytes -> option (list (option bytes))) (names : list (bytes * Z))
| FLabels (filter : Filter)
| Keep (names : list bytes).

Definition label_bytes (m : Labels) (name : bytes) : bytes := default [] (find name m).

Fixpoint evaluate (f : Filter) (m : Labels) : Res bool :=
  match f with
  | And l r => let? a := evaluate l m in let? b := evaluate r m in Ok (a && b)
  | Or l r => let? a := evaluate l m in if a then Ok true else evaluate r m
  | Str name negate value => Ok (xorb (bytes_eqb (label_bytes m name) value) negate)
  | FRe name negate regex => Ok (xorb (regex (label_bytes m name)) negate)
  | Num name op value =>
      match find name m with
      | None => Ok false
      | Some text => let? n := label_number text in compare op n value
      end
  end.

(** [finder.find(line).is_some()]. *)
Fixpoint has_needle (line needle : bytes) : bool :=
  bool_decide (take (length needle) line = needle) || match line with [] => false | _ :: line => has_needle line needle end.

(** A parsed label never takes the name of a stream label, nor that of a
    metadata label that was not parsed before. *)
Definition parsed_name (base : EntryLabels) (extracted : gset bytes) (name : bytes) : bytes :=
  if bool_decide (name ∈ base.(stream_keys)) || (bool_decide (name ∈ base.(metadata_keys)) && negb (bool_decide (name ∈ extracted)))
  then name ++ EXTRACTED else name.

Definition extract (base : EntryLabels) (acc : Labels * gset bytes) (e : bytes * bytes) : Labels * gset bytes :=
  let target := parsed_name base (snd acc) (fst e) in
  if bool_decide (target ∈ snd acc) then acc else (put target (snd e) (fst acc), {[target]} ∪ snd acc).

(** The captured text is checked only where it is kept. *)
Definition capture (base : EntryLabels) (groups : list (option bytes)) (acc : Labels * gset bytes) (e : bytes * Z) : Res (Labels * gset bytes) :=
  let target := parsed_name base (snd acc) (fst e) in
  if bool_decide (target ∈ snd acc) then Ok acc
  else
    let value := match get groups (snd e) with Some (Some v) => v | _ => [] end in
    if from_utf8_ok value then Ok (put target value (fst acc), {[target]} ∪ snd acc) else Err Fallback.

Definition ERROR : bytes := str "__error__".
Definition keeps (names : list bytes) (e : bytes * bytes) : bool :=
  bytes_eqb (fst e) ERROR || bytes_eqb (fst e) (str "__error_details__") || existsb (bytes_eqb (fst e)) names.

(** One stage: the labels and the parsed names after it, or dropped. *)
Definition stage_step (line : bytes) (base : EntryLabels) (stage : Stage) (acc : Labels * gset bytes) : Res (option (Labels * gset bytes)) :=
  match stage with
  | Line negate needle => Ok (if Bool.eqb (has_needle line needle) negate then None else Some acc)
  | LineRe negate regex => Ok (if Bool.eqb (regex line) negate then None else Some acc)
  | Logfmt => let? pairs := logfmt line in Ok (Some (fold_left (extract base) pairs acc))
  | Regexp captures names =>
      match captures line with
      | Some groups => let? acc := foldM (capture base groups) acc names in Ok (Some acc)
      | None => Ok (Some acc)
      end
  | FLabels filter => let? kept := evaluate filter (fst acc) in Ok (if kept then Some acc else None)
  | Keep names => Ok (Some (List.filter (keeps names) (fst acc), snd acc))
  end.

Fixpoint pipeline_loop (stages : list Stage) (line : bytes) (base : EntryLabels) (acc : Labels * gset bytes) : Res (option Labels) :=
  match stages with
  | [] => Ok (Some (fst acc))
  | stage :: stages =>
      let? next := stage_step line base stage acc in
      match next with
      | None => Ok None
      | Some acc => pipeline_loop stages line base acc
      end
  end.

Definition pipeline (stages : list Stage) (line : bytes) (base : EntryLabels) : Res (option Labels) :=
  pipeline_loop stages line base (base.(labels), ∅).

(** * The walker answers *)

Lemma skip_while_length f l : (length (QueryFilter.skip_while f l) <= length l)%nat.
Proof. induction l as [|c l IH]; cbn; [lia|]. destruct (f c); cbn; lia. Qed.

Lemma string_end_length l a r : string_end l = Some (a, r) -> (length r <= length l)%nat.
Proof.
  revert a r. induction l as [l IH] using (induction_ltof1 _ (@length Z)); unfold ltof in IH. intros a r E. destruct l as [|c l]; [done|]. cbn in E.
  destruct (c =? 34); [injection E as <- <-; done|]. destruct (c =? 92).
  - destruct l as [|d l]; [done|]. destruct (string_end l) as [[a' r']|] eqn:E'; [|done]. injection E as <- <-. apply IH in E'; cbn in *; lia.
  - destruct (string_end l) as [[a' r']|] eqn:E'; [|done]. injection E as <- <-. apply IH in E'; cbn in *; lia.
Qed.

Lemma skip_nested_length o c l : forall depth quoted r, skip_nested o c l depth quoted = Some r -> (length r <= length l)%nat.
Proof.
  induction l as [l IH] using (induction_ltof1 _ (@length Z)); unfold ltof in IH. intros depth quoted r E. destruct l as [|x l]; [done|]. cbn in E.
  repeat (case_match; try done); try (injection E as <-; cbn; lia); eapply IH in E; cbn in *; lia.
Qed.

Lemma skip_value_length l r : QueryFilter.skip_value l = Some r -> (length r <= length l)%nat.
Proof.
  destruct l as [|c l]; [done|]. cbn [QueryFilter.skip_value]. repeat case_match; try done; intros E.
  - apply skip_nested_length in E. cbn. lia.
  - apply skip_nested_length in E. cbn. lia.
  - injection E as <-. apply (skip_while_length _ (c :: l)).
  - injection E as <-. apply (skip_while_length _ (c :: l)).
Qed.

Lemma skip_shorter f l c r : QueryFilter.skip_while f l = c :: r -> (length r < length l)%nat.
Proof. intros E. pose proof (skip_while_length f l) as Hl. rewrite E in Hl. cbn in Hl. lia. Qed.

Lemma drop_length_le {A} n (l : list A) : (length (drop n l) <= length l)%nat.
Proof. rewrite length_drop. lia. Qed.

Lemma walk_loop_answers {A} fuel strict (visit : A -> bytes -> bytes -> A * bool) : forall acc l, (length l < fuel)%nat -> walk_loop fuel strict visit acc l <> Fuel.
Proof.
  induction fuel as [|fuel IH]; intros acc l Hl; [lia|]. cbn [walk_loop]. destruct (QueryFilter.skip_while _ l) as [|c l1] eqn:E1; [done|]. apply skip_shorter in E1. destruct (c =? 125); [done|]. destruct (negb (c =? 34)); [done|].
  destruct (string_end l1) as [[key l2]|] eqn:E2; [|done]. cbn [ok_or]. apply string_end_length in E2. pose proof (drop_length_le 1 l2). destruct (QueryFilter.skip_while _ (drop 1 l2)) as [|c2 l3] eqn:E3; [done|]. apply skip_shorter in E3. destruct (negb (c2 =? 58)); [done|].
  destruct (QueryFilter.skip_while _ l3) as [|c3 l4] eqn:E4; [done|]. apply skip_shorter in E4. destruct (c3 =? 34).
  - destruct (string_end l4) as [[v l5]|] eqn:E5; [|done]. cbn [ok_or]. apply string_end_length in E5. destruct (visit acc key v) as [acc' more]. destruct more; [|done]. apply IH. pose proof (drop_length_le 1 l5). lia.
  - destruct strict; [done|]. destruct (QueryFilter.skip_value _) as [l5|] eqn:E5; [|done]. cbn [ok_or]. apply skip_value_length in E5. cbn in E5. apply IH. lia.
Qed.

Lemma walk_answers {A} input strict (visit : A -> bytes -> bytes -> A * bool) acc : walk_string_pairs input strict visit acc <> Fuel.
Proof.
  unfold walk_string_pairs. destruct (QueryFilter.skip_while _ input) as [|c l] eqn:E; [done|]. apply skip_shorter in E. destruct (c =? 123); [|done]. apply walk_loop_answers. lia.
Qed.

Lemma each_pair_answers {A} (f : A -> bytes -> bytes -> A) acc text : each_pair f acc text <> Fuel.
Proof.
  unfold each_pair, stored_pairs, strict_string_pairs. case_bool_decide; [done|]. pose proof (walk_answers text true push_pair []) as Hw. destruct (walk_string_pairs _ _ _ _) as [l| |]; [|done..].
  apply foldM_not_fuel. intros a p _. unfold text_pair. by repeat case_match.
Qed.

Lemma entry_labels_answers res attrs svc lvl tr sp : entry_labels res attrs svc lvl tr sp <> Fuel.
Proof.
  unfold entry_labels. pose proof (each_pair_answers stream_pair ([], ∅) res). destruct (each_pair _ _ res) as [a| |]; [|done..]. destruct (fold_left mirror _ a) as [ls ks]. pose proof (each_pair_answers (fun m k v => put k v m) [] attrs). destruct (each_pair _ _ attrs) as [m| |]; [|done..].
  by destruct (fold_left (place ks) _ _).
Qed.

Lemma lookup_eval_answers found m : found <> Fuel -> lookup_eval found m <> Fuel.
Proof. by destruct found. Qed.

Lemma find_label_answers input key : find_label input key <> Fuel.
Proof. unfold find_label. match goal with |- context[walk_string_pairs ?a ?b ?c ?d] => pose proof (walk_answers a b c d); destruct (walk_string_pairs a b c d) as [[x|]| |] end; done. Qed.

Lemma all_selected_answers ms res svc lvl : exists b, all_selected ms res svc lvl = Ok b.
Proof.
  induction ms as [|m ms [b IH]]; [by exists true|]. cbn [all_selected]. cbv zeta. set (pr := if is_service _ then _ else _).
  assert (Hk : exists k, match pr with Some v => Ok (evaluate_present m v) | None => if bool_decide (res = []) then Ok (evaluate_absent m) else lookup_eval (find_label res (name m)) m end = Ok k).
  { destruct pr; [by eexists|]. case_bool_decide; [by eexists|]. pose proof (find_label_answers res (name m)). destruct (find_label res (name m)); [by eexists..|done]. }
  destruct Hk as [k ->]. destruct k; [|by exists false]. by exists b.
Qed.

Lemma selected_answers sel res svc lvl : exists b, selected sel res svc lvl = Ok b.
Proof. unfold selected. destruct (match _ with Some w => _ | None => _ end); [by exists false|apply all_selected_answers]. Qed.

(** * Labels in order *)

Lemma fold_inv {A B} (P : A -> Prop) (f : A -> B -> A) l acc : P acc -> (forall a x, P a -> P (f a x)) -> P (fold_left f l acc).
Proof. revert acc. induction l as [|x l IH]; intros acc Ha Hf; [done|]. by apply IH; [apply Hf|]. Qed.

Lemma or_insert_ordered m k v : ordered m -> ordered (or_insert m k v).
Proof. intros Ho. unfold or_insert. case_match; [done|by apply put_ordered]. Qed.

Lemma each_pair_inv {A} (P : A -> Prop) (f : A -> bytes -> bytes -> A) acc text r : P acc -> (forall a k v, P a -> P (f a k v)) -> each_pair f acc text = Ok r -> P r.
Proof.
  intros Ha Hf. unfold each_pair. case_bool_decide; [by intros [= <-]|]. destruct (stored_pairs text) as [l| |]; [|done..]. apply foldM_inv; [done|]. intros a p a' _ Hp. unfold text_pair. repeat case_match; intros E; try done. injection E as <-. by apply Hf.
Qed.

Lemma place_ordered s acc e : ordered (fst acc) -> ordered (fst (place s acc e)).
Proof. intros Ho. unfold place. destruct e as [k v]. repeat case_match; cbn; try done; by apply put_ordered. Qed.

Lemma entry_labels_ordered res attrs svc lvl tr sp e : entry_labels res attrs svc lvl tr sp = Ok e -> ordered e.(labels).
Proof.
  unfold entry_labels. intros E. destruct (each_pair stream_pair _ res) as [a| |] eqn:Ea; [|done..]. apply (each_pair_inv (fun a => ordered (fst a))) in Ea; [|constructor|intros; by apply put_ordered].
  destruct (fold_left mirror _ a) as [ls ks] eqn:Em. assert (Hl : ordered ls).
  { change ls with (fst (ls, ks)). rewrite <- Em. apply (fold_inv (fun a => ordered (fst a))); [done|]. intros x [n [v|]] Hx; [by apply or_insert_ordered|done]. }
  destruct (each_pair _ _ attrs) as [m| |]; [|done..]. destruct (fold_left (place ks) _ _) as [ls' ks'] eqn:Ep. injection E as <-. cbn. change ls' with (fst (ls', ks')). rewrite <- Ep. apply (fold_inv (fun a => ordered (fst a))); [done|]. intros x e Hx. by apply place_ordered.
Qed.

(** * The identifiers of a line *)

Definition ID_NAMES : list bytes := [str "trace_id"; str "span_id"; str "trace_id_extracted"; str "span_id_extracted"].

(** The labels that are not identifiers. *)
Definition agree (a b : Labels * gset bytes) : Prop := forall k, k ∉ ID_NAMES -> find k (fst a) = find k (fst b).

Lemma extracted_ids name : name ++ EXTRACTED ∈ ID_NAMES -> name = str "trace_id" \/ name = str "span_id".
Proof.
  intros Hin.
  unfold ID_NAMES in Hin. repeat (apply elem_of_cons in Hin as [Hin|Hin]; [pose proof (f_equal length Hin) as He; rewrite length_app in He; cbn in He; try lia|]); [| |by apply not_elem_of_nil in Hin].
  - left. change (str "trace_id_extracted") with (str "trace_id" ++ EXTRACTED) in Hin. by apply app_inv_tail in Hin.
  - right. change (str "span_id_extracted") with (str "span_id" ++ EXTRACTED) in Hin. by apply app_inv_tail in Hin.
Qed.

Lemma agree_put a b name v : agree a b -> agree (put name v (fst a), {[name]} ∪ snd a) (put name v (fst b), {[name]} ∪ snd b).
Proof. intros Hab k Hk. cbn. rewrite !find_put. destruct (cmp name k); [done|by apply Hab..]. Qed.

Lemma agree_id a b name v ks : agree a b -> name ∈ ID_NAMES -> agree (put name v (fst a), ks) b.
Proof. intros Hab Hn k Hk. cbn. rewrite find_put. destruct (cmp name k) eqn:E; [apply cmp_eq in E as ->; done|by apply Hab..]. Qed.

Lemma agree_sym a b : agree a b -> agree b a.
Proof. intros Hab k Hk. symmetry. by apply Hab. Qed.

Definition is_id (name : bytes) : Prop := name = str "trace_id" \/ name = str "span_id".

Lemma place_id s a b e : agree a b -> is_id (fst e) -> agree (place s a e) b.
Proof.
  intros Hab Hid. destruct e as [name v]. cbn in Hid. assert (Hn : name ∈ ID_NAMES) by (destruct Hid as [-> | ->]; [by left|by right; left]). assert (Hx : name ++ EXTRACTED ∈ ID_NAMES) by (destruct Hid as [-> | ->]; [by right; right; left|by right; right; right; left]).
  unfold place. case_bool_decide; [|by apply agree_id]. case_match; [done|by apply agree_id].
Qed.

Lemma place_agree s a b e : agree a b -> agree (place s a e) (place s b e).
Proof.
  intros Hab. destruct e as [name v]. destruct (decide (name = str "trace_id")) as [->|H1]; [apply place_id; [|by left]; apply agree_sym, place_id; [by apply agree_sym|by left]|].
  destruct (decide (name = str "span_id")) as [->|H2]; [apply place_id; [|by right]; apply agree_sym, place_id; [by apply agree_sym|by right]|].
  unfold place. case_bool_decide; [|by apply agree_put]. rewrite (Hab (name ++ EXTRACTED)) by (intros Hx; apply extracted_ids in Hx as [?|?]; done). case_match; [done|by apply agree_put].
Qed.

(** The entries of [l] with identifiers added. *)
Inductive widened : Labels -> Labels -> Prop :=
| wide_nil : widened [] []
| wide_same e l l' : widened l l' -> widened (e :: l) (e :: l')
| wide_more e l l' : is_id (fst e) -> widened l l' -> widened l (e :: l').

Lemma widened_refl l : widened l l.
Proof. induction l; by constructor. Qed.

Lemma widened_put k v l l' : is_id k -> find k l' = None -> widened l l' -> widened l (put k v l').
Proof.
  intros Hid Hf Hw. induction Hw as [|[j w] l l' Hw IH|[j w] l l' He Hw IH]; cbn [find put] in *.
  - by constructor; [|constructor].
  - destruct (cmp j k) eqn:E; [done|constructor; by apply IH|]. apply wide_more; [done|]. by constructor.
  - destruct (cmp j k) eqn:E; [done|apply wide_more; [done|]; by apply IH|]. apply wide_more; [done|]. by apply wide_more.
Qed.

Lemma widened_trans a b c : widened a b -> widened b c -> widened a c.
Proof.
  intros Hab Hbc. revert a Hab. induction Hbc as [|e l l' Hw IH|e l l' He Hw IH]; intros a Hab.
  - done.
  - inversion Hab; subst; [constructor; by apply IH|apply wide_more; [done|by apply IH]].
  - apply wide_more; [done|by apply IH].
Qed.

Lemma identifier_widened m k v : is_id k -> widened m (identifier m (k, v)).
Proof. intros Hid. unfold identifier, or_insert. cbn. repeat case_match; try apply widened_refl. apply widened_put; [done..|apply widened_refl]. Qed.

Lemma place_widened s l l' : widened l l' -> forall a b, agree a b -> agree (fold_left (place s) l a) (fold_left (place s) l' b).
Proof.
  induction 1 as [|e l l' Hw IH|e l l' He Hw IH]; intros a b Hab; cbn [fold_left]; [done|apply IH; by apply place_agree|]. apply IH. apply agree_sym, place_id; [by apply agree_sym|done].
Qed.

(** Two readings of the labels of a line, with the same outcome and the same
    labels up to the identifiers. *)
Definition same_labels (a b : Res EntryLabels) : Prop :=
  match a, b with
  | Ok e, Ok e' => forall k, k ∉ ID_NAMES -> find k e.(labels) = find k e'.(labels)
  | Err x, Err y => x = y
  | _, _ => False
  end.

Lemma entry_labels_ids res attrs svc lvl tr sp : same_labels (entry_labels res attrs svc lvl None None) (entry_labels res attrs svc lvl tr sp).
Proof.
  unfold entry_labels. pose proof (each_pair_answers stream_pair ([], ∅) res). destruct (each_pair stream_pair _ res) as [a| |]; [|done..]. destruct (fold_left mirror _ a) as [ls ks]. pose proof (each_pair_answers (fun m k v => put k v m) [] attrs). destruct (each_pair _ _ attrs) as [m| |]; [|done..].
  cbn [fold_left]. assert (Hw : widened m (identifier (identifier m (str "trace_id", tr)) (str "span_id", sp))) by (eapply widened_trans; [apply identifier_widened; by left|apply identifier_widened; by right]).
  pose proof (place_widened ks _ _ Hw (ls, ∅) (ls, ∅) (fun _ _ => eq_refl)) as Ha. change (identifier (identifier m (str "trace_id", None)) (str "span_id", None)) with m. destruct (fold_left (place ks) m _) as [l1 k1], (fold_left (place ks) _ _) as [l2 k2]. exact Ha.
Qed.

Lemma identifier_none m k v : has_value v = false -> identifier m (k, v) = m.
Proof. by destruct v as [[|]|]. Qed.

(** A line without identifiers has the labels of its stream. *)
Lemma entry_labels_none res attrs svc lvl tr sp : has_value tr = false -> has_value sp = false -> entry_labels res attrs svc lvl tr sp = entry_labels res attrs svc lvl None None.
Proof. intros Ht Hs. unfold entry_labels. cbn [fold_left]. destruct (each_pair stream_pair _ _); [|done..]. destruct (fold_left mirror _ _). destruct (each_pair _ _ attrs); [|done..]. by rewrite !identifier_none. Qed.

(** * Groups of labels *)

Lemma find_filter_key {V} (g : bytes -> bool) (m : list (bytes * V)) k : ordered m -> find k (List.filter (fun e => g (fst e)) m) = if g k then find k m else None.
Proof.
  intros Ho. apply option_eq. intros v. rewrite (find_iff k v (List.filter _ m)) by by apply filter_ordered. rewrite list_elem_of_In, filter_In. cbn. destruct (g k); [|split; [by intros [_ ?]|done]]. rewrite <- list_elem_of_In, <- find_iff by done. tauto.
Qed.

Lemma filter_same_labels (g : bytes -> bool) (m n : Labels) : ordered m -> ordered n -> (forall k, g k = true -> find k m = find k n) -> List.filter (fun e => g (fst e)) m = List.filter (fun e => g (fst e)) n.
Proof.
  intros Hm Hn Hg. apply find_ext; [by apply filter_ordered..|]. intros k. rewrite !find_filter_key by done. destruct (g k) eqn:E; [by apply Hg|done].
Qed.

(** * logfmt answers *)

Lemma logfmt_escape_err d : match logfmt_escape d with Ok _ => True | Err e => e = Fallback | Fuel => False end.
Proof. unfold logfmt_escape. by repeat (destruct (_ =? _); try done). Qed.

(** The text of a string ends before a quote that no backslash precedes. *)
Lemma quoted_end_ok l : forall body rest, quoted_end l = Some (body, rest) -> (length rest < length l)%nat /\ forall acc, decode_quoted body acc <> Err Panic /\ decode_quoted body acc <> Fuel.
Proof.
  induction l as [l IH] using (induction_ltof1 _ (@length Z)); unfold ltof in IH. intros body rest E. destruct l as [|c l]; [done|]. cbn [quoted_end] in E. destruct (c =? 34); [injection E as <- <-; split; [cbn; lia|done]|]. destruct (c =? 92) eqn:Ec.
  - destruct l as [|d l]; [done|]. destruct (quoted_end l) as [[b r]|] eqn:Eq; [|done]. injection E as <- <-. destruct (IH l ltac:(cbn; lia) _ _ Eq) as [Hl Hd]. split; [cbn; lia|]. intros acc. cbn [decode_quoted]. rewrite Ec. pose proof (logfmt_escape_err d) as He. destruct (logfmt_escape d) as [[x|]|e|]; [apply Hd|done|subst e; done|done].
  - destruct (quoted_end l) as [[b r]|] eqn:Eq; [|done]. injection E as <- <-. destruct (IH l ltac:(cbn; lia) _ _ Eq) as [Hl Hd]. split; [cbn; lia|]. intros acc. cbn [decode_quoted]. rewrite Ec. apply Hd.
Qed.

Lemma decode_quoted_err body acc e : decode_quoted body acc = Err e -> e = Fallback \/ e = Panic.
Proof.
  revert acc. induction body as [body IH] using (induction_ltof1 _ (@length Z)); unfold ltof in IH. intros acc E. destruct body as [|c body]; [done|]. cbn [decode_quoted] in E. destruct (c =? 92); [|by apply (IH body ltac:(cbn; lia)) in E]. destruct body as [|d body]; [injection E as <-; by right|].
  destruct (logfmt_escape d) as [[b|]|x|] eqn:El; try done; [by apply (IH body ltac:(cbn; lia)) in E|]. injection E as <-. left. pose proof (logfmt_escape_err d) as He. by rewrite El in He.
Qed.

Lemma skip_token_shorter c l : (32 <? c) = true -> (length (skip_token (c :: l)) <= length l)%nat.
Proof. intros Hc. unfold skip_token. cbn [QueryFilter.skip_while]. rewrite Hc. apply skip_while_length. Qed.

(** A label name of the parsers. *)
Definition label_name (k : bytes) : Prop := k <> [] /\ Forall (fun c => is_ascii_alphanumeric c || (c =? 95) = true) k /\ match k with c :: _ => is_digit c = false | [] => True end.

Lemma name_char_ok c : is_ascii_alphanumeric (name_char c) || (name_char c =? 95) = true.
Proof. unfold name_char. destruct (is_ascii_alphanumeric c || (c =? 95)) eqn:E; [done|reflexivity]. Qed.

Lemma normalized_name k : k <> [] -> label_name (normalized k).
Proof.
  intros Hk. destruct k as [|c k]; [done|]. unfold normalized. assert (Hall : Forall (fun c => is_ascii_alphanumeric c || (c =? 95) = true) (map name_char (c :: k))) by (clear; induction (c :: k) as [|x l IH]; constructor; [apply name_char_ok|done]).
  destruct (is_digit c) eqn:Ed; cbn [app map] in *; split; try done; (split; [|]); try done; [by constructor|]. unfold name_char. destruct (is_ascii_alphanumeric c || (c =? 95)); [done|reflexivity].
Qed.

(** A turn of the loop: it moves on, and what it finds is a label. *)
Definition turn_ok (l : bytes) (x : Res (option (bytes * bytes) * bytes)) : Prop :=
  match x with
  | Ok (found, rest) => (length rest < length l)%nat /\ match found with Some (k, v) => label_name k /\ v <> [] | None => True end
  | Err e => e = Fallback
  | Fuel => False
  end.

Lemma logfmt_value_ok c l d rest : (32 <? c) = true -> (if c =? 34 then logfmt_quoted l else Ok (bare_value (c :: l))) = Ok (d, rest) -> (length rest <= length l)%nat.
Proof.
  intros Hc. destruct (c =? 34) eqn:Eq.
  - unfold logfmt_quoted. destruct (quoted_end l) as [[body r]|] eqn:El; [|intros [= <- <-]; cbn; lia]. apply quoted_end_ok in El as [Hl _]. destruct (decode_quoted body []) as [o| |]; [|done..]. intros [= <- <-]. lia.
  - unfold bare_value. destruct (span bare (c :: l)) as [v r] eqn:Es. apply span_spec in Es as (Heq & _ & Hr). destruct r as [|x r]; [intros [= <- <-]; cbn; lia|]. assert (Hlen : (length v + S (length r) = S (length l))%nat) by (apply (f_equal length) in Heq; rewrite length_app in Heq; cbn in Heq; lia).
    destruct ((x =? 61) || (x =? 34)) eqn:Ex.
    + intros [= <- <-]. pose proof (skip_token_shorter x r ltac:(apply orb_true_iff in Ex as [Ex|Ex]; apply Z.eqb_eq in Ex; by subst x)). lia.
    + intros [= <- <-]. cbn. assert (v <> []); [|destruct v; [done|cbn in Hlen; lia]]. intros ->. cbn in Heq. injection Heq as <- <-. unfold bare in Hr. rewrite Hc, Ex in Hr. done.
Qed.

Lemma logfmt_quoted_err l e : logfmt_quoted l = Err e -> e = Fallback.
Proof.
  unfold logfmt_quoted. destruct (quoted_end l) as [[body r]|] eqn:El; [|done]. apply quoted_end_ok in El as [_ Hd]. destruct (Hd []) as [Hp _]. destruct (decode_quoted body []) as [o|x|] eqn:Ed; [done| |done]. intros [= <-]. apply decode_quoted_err in Ed as [->| ->]; [done|done].
Qed.

Lemma logfmt_quoted_answers l : logfmt_quoted l <> Fuel.
Proof.
  unfold logfmt_quoted. destruct (quoted_end l) as [[body r]|] eqn:El; [|done]. apply quoted_end_ok in El as [_ Hd]. destruct (Hd []) as [_ Hf]. by destruct (decode_quoted body []).
Qed.

Lemma logfmt_pair_ok c l : (c <=? 32) = false -> turn_ok (c :: l) (logfmt_pair (c :: l)).
Proof.
  intros Hc. assert (Hc' : (32 <? c) = true) by (apply Z.leb_gt in Hc; by apply Z.ltb_lt). unfold logfmt_pair. destruct (span bare (c :: l)) as [k r] eqn:Es. apply span_spec in Es as (Heq & Hk & Hr). assert (Hlen : (length k + length r = S (length l))%nat) by (apply (f_equal length) in Heq; rewrite length_app in Heq; cbn in Heq; lia).
  destruct (bool_decide (k = []) || bool_decide (head r = Some 34)) eqn:Eg.
  - cbn. split; [|done]. destruct r as [|x r]; [cbn; lia|]. assert (Hx : (32 <? x) = true). { apply orb_true_iff in Eg as [E|E]; apply bool_decide_eq_true in E; [subst k; cbn in Heq; by injection Heq as <- <-|by injection E as ->]. } pose proof (skip_token_shorter x r Hx). cbn in Hlen. lia.
  - apply orb_false_iff in Eg as [E1 E2]. apply bool_decide_eq_false in E1. assert (Hk1 : (1 <= length k)%nat) by (destruct k; [done|cbn; lia]). assert (Hskip : turn_ok (c :: l) (Ok (None, r))) by (cbn; split; [lia|done]).
    destruct r as [|x r]; [exact Hskip|]. destruct (decide (x = 61)) as [->|Hx].
    2: { replace (match x with 61 => match r with [] => Ok (None, r) | c0 :: l' => if c0 <=? 32 then Ok (None, r) else let? (d, l0) := (if c0 =? 34 then logfmt_quoted l' else Ok (bare_value r)) in match d with Some ((_ :: _) as v) => Ok (Some (normalized k, v), l0) | _ => Ok (None, l0) end end | _ => Ok (None, x :: r) end) with (Ok (None, x :: r) : Res (option (bytes * bytes) * bytes)); [exact Hskip|]. destruct x as [|p|p]; try done. by repeat (destruct p as [p|p|]; try done). }
    destruct r as [|y r]; [cbn; split; [cbn in Hlen; lia|done]|]. destruct (y <=? 32) eqn:Ey; [cbn in Hlen |- *; split; [lia|done]|]. assert (Hy : (32 <? y) = true) by (apply Z.leb_gt in Ey; by apply Z.ltb_lt).
    destruct (if y =? 34 then logfmt_quoted r else Ok (bare_value (y :: r))) as [[d rest]|e|] eqn:Ev.
    + apply (logfmt_value_ok y r d rest Hy) in Ev. cbn in Hlen. destruct d as [[|b v]|]; cbn; (split; [lia|]); try done. split; [by apply normalized_name|done].
    + cbn. destruct (y =? 34); [by apply logfmt_quoted_err in Ev|done].
    + destruct (y =? 34); [by apply logfmt_quoted_answers in Ev|done].
Qed.

Lemma logfmt_loop_ok fuel : forall l pairs seen, (length l < fuel)%nat -> (forall k, k ∈ seen <-> k ∈ map fst pairs) -> NoDup (map fst pairs) -> Forall (fun e => label_name (fst e) /\ snd e <> []) pairs ->
  match logfmt_loop fuel l pairs seen with
  | Ok pairs => NoDup (map fst pairs) /\ Forall (fun e => label_name (fst e) /\ snd e <> []) pairs
  | Err e => e = Fallback
  | Fuel => False
  end.
Proof.
  induction fuel as [|fuel IH]; intros l pairs seen Hl Hseen Hn Hf; [lia|]. cbn [logfmt_loop]. pose proof (skip_while_length (fun c => c <=? 32) l) as Hsk. destruct (QueryFilter.skip_while _ l) as [|c r] eqn:Es; [done|]. assert (Hc : (c <=? 32) = false).
  { clear -Es. induction l as [|x l IH]; [done|]. cbn in Es. destruct (x <=? 32) eqn:E; [by apply IH|by injection Es as <- _]. }
  pose proof (logfmt_pair_ok c r Hc) as Ht. destruct (logfmt_pair (c :: r)) as [[found rest]|e|]; [|done|done]. destruct Ht as [Hr Hfound]. destruct found as [[k v]|]; [|apply IH; [lia|done..]]. case_bool_decide as Hk; [apply IH; [lia|done..]|]. destruct (from_utf8_ok v); [|done]. apply IH.
  - lia.
  - intros k'. rewrite map_app, elem_of_union, elem_of_singleton, elem_of_app, Hseen. cbn. rewrite list_elem_of_singleton. tauto.
  - rewrite map_app. apply list.NoDup_app. split; [done|]. split; [|apply NoDup_singleton]. intros x Hx Hin. apply list_elem_of_singleton in Hin as ->. by apply Hk, Hseen.
  - apply Forall_app. split; [done|]. by constructor; [|constructor].
Qed.

(** * What is written reads back *)

Definition write_value (v : bytes) : bytes := flat_map (fun c => if (c =? 34) || (c =? 92) then [92; c] else [c]) v.
Definition write_pair (e : bytes * bytes) : bytes := fst e ++ [61; 34] ++ write_value (snd e) ++ [34].
Fixpoint write_line (l : Labels) : bytes :=
  match l with
  | [] => []
  | [e] => write_pair e
  | e :: l => write_pair e ++ [32] ++ write_line l
  end.

Lemma quoted_end_written v rest : quoted_end (write_value v ++ 34 :: rest) = Some (write_value v, rest).
Proof.
  induction v as [|c v IH]; [done|]. cbn [write_value flat_map]. fold (write_value v). destruct (c =? 34) eqn:E1; cbn [orb app quoted_end]; [by rewrite IH|]. destruct (c =? 92) eqn:E2; cbn [app quoted_end]; [by rewrite IH|]. by rewrite E1, E2, IH.
Qed.

Lemma decode_written v : forall acc, decode_quoted (write_value v) acc = Ok (Some (acc ++ v)).
Proof.
  induction v as [|c v IH]; intros acc; [by rewrite app_nil_r|]. cbn [write_value flat_map]. fold (write_value v). assert (Hacc : (acc ++ [c]) ++ v = acc ++ c :: v) by by rewrite <- app_assoc. destruct (c =? 34) eqn:E1; cbn [orb app decode_quoted].
  - unfold logfmt_escape. rewrite E1. cbn [orb]. change (92 =? 92) with true. cbn. by rewrite IH, Hacc.
  - destruct (c =? 92) eqn:E2; cbn [app decode_quoted]; [unfold logfmt_escape; rewrite E1, E2; change (92 =? 92) with true; cbn; by rewrite IH, Hacc|]. by rewrite E2, IH, Hacc.
Qed.

Lemma name_bare c : is_ascii_alphanumeric c || (c =? 95) = true -> bare c = true /\ name_char c = c.
Proof.
  intros Hc. split; [|unfold name_char; by rewrite Hc]. unfold is_ascii_alphanumeric, is_digit, is_ascii_alphabetic in Hc. unfold bare. rewrite !orb_true_iff, !andb_true_iff, !Z.leb_le, Z.eqb_eq in Hc. apply andb_true_iff. split; [apply Z.ltb_lt; lia|]. apply negb_true_iff, orb_false_iff. split; apply Z.eqb_neq; lia.
Qed.

Lemma name_normalized k : label_name k -> normalized k = k.
Proof.
  intros (Hk & Hall & Hd). unfold normalized. replace (map name_char k) with k by (clear -Hall; induction Hall as [|c k Hc Hk IH]; [done|]; cbn; by rewrite (proj2 (name_bare c Hc)), <- IH). destruct k as [|c k]; [done|]. by rewrite Hd.
Qed.

Lemma logfmt_pair_written k v rest : label_name k -> v <> [] -> logfmt_pair (write_pair (k, v) ++ rest) = Ok (Some (k, v), rest).
Proof.
  intros Hk Hv. unfold write_pair. cbn [fst snd]. rewrite <- !app_assoc. unfold logfmt_pair. rewrite span_app; [|destruct Hk as (_ & Hall & _); eapply Forall_impl; [|exact Hall]; intros c Hc; by apply name_bare|done].
  rewrite bool_decide_false by apply Hk. cbn [orb app head]. rewrite bool_decide_false by done. change (34 <=? 32) with false. change (34 =? 34) with true. cbv iota. unfold logfmt_quoted. rewrite quoted_end_written, decode_written. cbn [app]. rewrite (name_normalized k Hk). destruct v; [done|done].
Qed.

(** A label that survives the trip. *)
Definition writable_label (e : bytes * bytes) : Prop := label_name (fst e) /\ snd e <> [] /\ Forall (fun c => 0 <= c < 128) (snd e).

Lemma write_line_cons e l : write_line (e :: l) = write_pair e ++ match l with [] => [] | _ => 32 :: write_line l end.
Proof. destruct l; cbn; [by rewrite app_nil_r|done]. Qed.

Lemma write_pair_first e rest : label_name (fst e) -> exists c r, write_pair e ++ rest = c :: r /\ (c <=? 32) = false.
Proof.
  intros (Hk & Hall & _). destruct (fst e) as [|c k] eqn:E; [done|]. unfold write_pair. rewrite E. exists c. eexists. split; [reflexivity|]. inversion Hall as [|? ? Hc _]; subst. apply name_bare in Hc as [Hc _]. unfold bare in Hc. apply andb_true_iff in Hc as [Hc _]. apply Z.ltb_lt in Hc. apply Z.leb_gt. lia.
Qed.

Lemma logfmt_loop_written l : Forall writable_label l -> forall fuel pairs seen, (length l < fuel)%nat -> NoDup (map fst l) -> (forall k, k ∈ map fst l -> k ∉ seen) ->
  logfmt_loop fuel (write_line l) pairs seen = Ok (pairs ++ l) /\ logfmt_loop fuel (32 :: write_line l) pairs seen = Ok (pairs ++ l).
Proof.
  induction 1 as [|e l He Hl IH]; intros fuel pairs seen Hf Hn Hseen; (destruct fuel as [|fuel]; [cbn in Hf; lia|]); [cbn; by rewrite app_nil_r|].
  assert (Hgo : logfmt_loop (S fuel) (write_line (e :: l)) pairs seen = Ok (pairs ++ e :: l)).
  { rewrite write_line_cons. destruct He as (Hk & Hv & Hascii). set (rest := match l with [] => [] | _ => _ end). cbn [logfmt_loop]. destruct (write_pair_first e rest Hk) as (c & r & E & Hc). rewrite E. cbn [QueryFilter.skip_while]. rewrite Hc, <- E. destruct e as [k v]. cbn [fst snd] in *. rewrite (logfmt_pair_written k v rest Hk Hv).
    rewrite bool_decide_false by (apply Hseen; by left). rewrite from_utf8_ok_ascii by done. cbn [map] in Hn. inversion Hn as [|? ? Hk' Hn']; subst. destruct (IH fuel (pairs ++ [(k, v)]) ({[k]} ∪ seen) ltac:(cbn in Hf; lia) Hn') as [I1 I2].
    - intros k' Hk2. rewrite elem_of_union, elem_of_singleton. intros [->|Hx]; [done|]. revert Hx. apply Hseen. by right.
    - unfold rest. rewrite <- app_assoc in I1, I2. cbn [app] in I1, I2. by destruct l. }
  split; [exact Hgo|]. rewrite <- Hgo. cbn [logfmt_loop QueryFilter.skip_while]. done.
Qed.

Lemma name_ascii k : Forall (fun c => is_ascii_alphanumeric c || (c =? 95) = true) k -> forallb (fun c => c <? 128) k = true.
Proof.
  induction 1 as [|c k Hc _ IH]; [done|]. cbn [forallb]. rewrite IH, andb_true_r. unfold is_ascii_alphanumeric, is_digit, is_ascii_alphabetic in Hc. rewrite !orb_true_iff, !andb_true_iff, !Z.leb_le, Z.eqb_eq in Hc. apply Z.ltb_lt. lia.
Qed.

Lemma value_ascii v : Forall (fun c => 0 <= c < 128) v -> forallb (fun c => c <? 128) (write_value v) = true.
Proof.
  induction 1 as [|c v Hc _ IH]; [done|]. cbn [write_value flat_map]. fold (write_value v). assert ((c <? 128) = true) by (apply Z.ltb_lt; lia). destruct (_ || _); cbn [app forallb]; rewrite IH, ?H; done.
Qed.

Lemma pair_ascii e : writable_label e -> forallb (fun c => c <? 128) (write_pair e) = true /\ (1 <= length (write_pair e))%nat.
Proof.
  destruct e as [k v]. intros ((Hk & Hall & _) & _ & Hv). cbn [fst snd] in *. unfold write_pair. cbn [fst snd]. split; [|rewrite length_app; cbn; lia]. rewrite forallb_app, (name_ascii k Hall). cbn [app forallb andb]. change (61 <? 128) with true. change (34 <? 128) with true. cbn [andb]. rewrite forallb_app, (value_ascii v Hv). done.
Qed.

Lemma write_line_ascii l : Forall writable_label l -> forallb (fun c => c <? 128) (write_line l) = true /\ (length l <= length (write_line l))%nat.
Proof.
  induction 1 as [|e l He Hl [I1 I2]]; [done|]. destruct (pair_ascii e He) as [P1 P2]. rewrite write_line_cons, forallb_app, P1, length_app. destruct l as [|e' l]; [cbn; split; [done|lia]|]. cbn [forallb length andb] in *. rewrite I1. split; [done|lia].
Qed.

(** C23. The logfmt parser is exact on what it promises. It answers on every line
    and never indexes out of range; its labels have distinct valid names and
    nonempty values, and it gives up only on lines left to the reference. Labels
    with distinct names and nonempty ASCII values, written quoted, read back. *)
Theorem logfmt_exact (line : bytes) (l : Labels) :
  match logfmt line with
  | Ok pairs => NoDup (map fst pairs) /\ Forall (fun e => label_name (fst e) /\ snd e <> []) pairs
  | Err e => e = Fallback
  | Fuel => False
  end /\ (Forall writable_label l -> NoDup (map fst l) -> logfmt (write_line l) = Ok l).
Proof.
  split.
  - unfold logfmt. destruct (forallb _ line); [|done]. cbn [negb]. apply logfmt_loop_ok; [lia| |constructor|constructor]. intros k. split; intros Hk; [by apply not_elem_of_empty in Hk|by apply not_elem_of_nil in Hk].
  - intros Hl Hn. unfold logfmt. destruct (write_line_ascii l Hl) as [-> Hlen]. cbn [negb]. apply (logfmt_loop_written l Hl); [lia|done|]. intros k _. apply not_elem_of_empty.
Qed.

Lemma logfmt_exact_witness : let l := [(str "level", str "warn"); (str "msg", str "disk " ++ [34] ++ str "sda" ++ [34] ++ str " = full")] in
  Forall writable_label l /\ logfmt (write_line l) = Ok l.
Proof.
  intros l. assert (Hl : Forall writable_label l) by (unfold l, writable_label, label_name; repeat constructor; vm_compute; done). split; [exact Hl|]. apply (logfmt_exact [] l); [exact Hl|]. apply (bool_decide_eq_true_1 (NoDup (map fst l))). vm_compute. reflexivity.
Defined.
