(* ===== verification/LogRollup.v ===== *)
(** Log rollups (log_rollup.rs): the builder that counts the lines of segments
    and of other rollups per minute and stream, and the rows it writes and reads.

    Parquet is a parameter with the law that a written file reads back. *)

From stdpp Require Import gmap.
From S2P Require Import Prelude Utf8 External Float64 OrdMap QueryFilter LogLabels.

Definition BUCKET_NS : Z := 60000000000.
Definition ROLLUP_KEY : bytes := str "pulso.log.rollup".
Definition ROLLUP_VERSION : bytes := str "1".
Definition SOURCES_KEY : bytes := str "pulso.log.rollup.sources".
Definition MAX_ROWS : Z := 4000000.

(** Arithmetic that wraps at the width of [i64]. *)
Definition wrap_i64 (z : Z) : Z := as_i64 z.

Definition bucket_end (ts : Z) : Z := wrap_i64 (wrap_i64 (sat_i64 (ts - 1) / BUCKET_NS * BUCKET_NS) + BUCKET_NS).

Inductive RollupError : Type := RFallback | TooLarge.

Record Stream : Type := mkStream { s_resource : bytes; s_attributes : bytes; s_service : option bytes; s_level : option bytes }.
Record Cell : Type := mkCell { c_count : Z; c_bytes : Z; c_traced : Z }.
Record RollupRow : Type := mkRollupRow { row_bucket : Z; row_stream : Z; row_cell : Cell }.

#[export] Instance Stream_eq_dec : EqDecision Stream.
Proof. solve_decision. Defined.
#[export] Instance Stream_countable : Countable Stream.
Proof.
  refine (inj_countable' (fun s => (s.(s_resource), s.(s_attributes), s.(s_service), s.(s_level)))
            (fun '(r, a, s, l) => mkStream r a s l) _). by intros [].
Defined.
#[export] Instance Cell_eq_dec : EqDecision Cell.
Proof. solve_decision. Defined.

(** * Files *)

(** The columns of a line that the scans read; a null is [None]. *)
Record LogLine : Type := mkLogLine {
  l_time : option Z; l_service : option bytes; l_level : option bytes; l_body : option bytes;
  l_attributes : option bytes; l_resource : option bytes; l_trace : option bytes; l_span : option bytes
}.

(** A row of a rollup as it is stored. *)
Record Stored : Type := mkStored {
  t_bucket : Z; t_resource : option bytes; t_attributes : option bytes; t_service : option bytes; t_level : option bytes;
  t_count : Z; t_bytes : Z; t_traced : Z
}.

Inductive DataType : Type := Int64 | Utf8.
#[export] Instance DataType_eq_dec : EqDecision DataType.
Proof. solve_decision. Defined.

Record Field : Type := mkField { field_name : bytes; data_type : DataType; nullable : bool }.
Record Schema : Type := mkSchema { fields : list Field; metadata : list (bytes * bytes) }.

(** An open rollup: schema, key-value metadata and batches, any of which may be
    unreadable. *)
Record Opened : Type := mkOpened { o_schema : Schema; o_metadata : list (bytes * option bytes); o_batches : list (option (list Stored)) }.

(** The parquet and arrow crates. A written file opens with its schema and rows
    and its metadata before entries of the writer's own; a segment reads the same
    in batches of any size. *)
Class Parquet (File : Type) : Type := {
  write_rows : Schema -> list Stored -> list (bytes * option bytes) -> option File;
  open_rollup : Z -> File -> option Opened;
  read_segment : Z -> File -> option (list (option (list LogLine)));
  ARROW_KEY : bytes;
  arrow_key_own : ARROW_KEY <> SOURCES_KEY;
  open_written : forall schema rows kv file size, 0 < size -> write_rows schema rows kv = Some file ->
    exists own batches, open_rollup size file = Some (mkOpened schema (kv ++ own) (map Some batches)) /\ concat batches = rows /\ Forall (fun e => fst e = ARROW_KEY) own;
  read_sizes : forall file m n batches, 0 < m -> 0 < n -> read_segment m file = Some (map Some batches) ->
    exists batches', read_segment n file = Some (map Some batches') /\ concat batches' = concat batches
}.

(** The order of the rows of a rollup. *)
Abbreviation RowKey := (Z * (option bytes * (bytes * (bytes * option bytes))))%type.
Abbreviation Tally := (list (RowKey * Cell)).
Abbreviation Counted := (Z * Stream * Cell)%type.

Section Rollup.
Context {File : Type} `{Parquet File}.

(** * The builder *)

Record Builder : Type := mkBuilder {
  b_start : Z; b_end : Z; streams : list Stream; index : gmap Stream Z; cells : gmap (Z * Z) Cell; allowed : option (gset Z)
}.

Definition Builder_new (start end_ : Z) : Builder := mkBuilder start end_ [] ∅ ∅ None.

Definition wanted (b : Builder) (bucket : Z) : bool :=
  match b.(allowed) with None => true | Some s => bool_decide (bucket ∈ s) end.

(** [as u32]. *)
Definition as_u32 (z : Z) : Z := z mod 4294967296.

Definition intern (b : Builder) (s : Stream) : res RollupError (Builder * Z) :=
  match b.(index) !! s with
  | Some i => Ok (b, i)
  | None =>
      match validate_labels s.(s_resource) s.(s_attributes) s.(s_service) s.(s_level) with
      | Ok _ =>
          let i := as_u32 (len b.(streams)) in
          Ok (mkBuilder b.(b_start) b.(b_end) (b.(streams) ++ [s]) (<[s := i]> b.(index)) b.(cells) b.(allowed), i)
      | Err _ => Err RFallback
      | Fuel => Fuel
      end
  end.

Definition add_cells (a c : Cell) : Cell :=
  mkCell (wrap_i64 (a.(c_count) + c.(c_count))) (wrap_i64 (a.(c_bytes) + c.(c_bytes))) (wrap_i64 (a.(c_traced) + c.(c_traced))).
Definition Cell_default : Cell := mkCell 0 0 0.

Definition size_of {K V} `{Countable K} (m : gmap K V) : Z := Z.of_nat (size m).

Definition add_cell (b : Builder) (bucket stream : Z) (c : Cell) : res RollupError Builder :=
  if (MAX_ROWS <=? size_of b.(cells)) && negb (bool_decide (is_Some (b.(cells) !! (bucket, stream)))) then Err TooLarge
  else Ok (mkBuilder b.(b_start) b.(b_end) b.(streams) b.(index)
             (<[(bucket, stream) := add_cells (default Cell_default (b.(cells) !! (bucket, stream))) c]> b.(cells)) b.(allowed)).

(** ** Lines *)

(** [(!body.is_null(row) && !body.value(row).is_empty()).then(...)]. *)
Definition raw_body (r : LogLine) : option bytes := match r.(l_body) with Some ((_ :: _) as raw) => Some raw | _ => None end.
(** Only a stored string counts. *)
Definition string_body (raw : bytes) : bool := (2 <=? len raw) && bool_decide (head raw = Some 34) && bool_decide (get raw (len raw - 1) = Some 34).
Definition line_of (r : LogLine) : bytes := match raw_body r with Some raw => cow_bytes (line_bytes_for_match raw) | None => [] end.
Definition bad_body (r : LogLine) : bool := match raw_body r with Some raw => negb (string_body raw) | None => false end.

Definition stream_of (r : LogLine) : Stream := mkStream (default [] r.(l_resource)) (default [] r.(l_attributes)) r.(l_service) r.(l_level).
Definition same_stream (p r : LogLine) : bool :=
  bool_decide (p.(l_resource) = r.(l_resource)) && bool_decide (p.(l_attributes) = r.(l_attributes)) &&
  bool_decide (p.(l_service) = r.(l_service)) && bool_decide (p.(l_level) = r.(l_level)).
Definition line_cell (r : LogLine) : Cell := mkCell 1 (wrap_i64 (len (line_of r))) (Z.b2z (has_value r.(l_trace) || has_value r.(l_span))).

(** The lines of one batch: the builder, the previous row with its stream and
    the number of lines added. *)
Definition add_line (acc : Builder * option (LogLine * Z) * Z) (r : LogLine) : res RollupError (Builder * option (LogLine * Z) * Z) :=
  let '(b, previous, added) := acc in
  match r.(l_time) with
  | None => Ok acc
  | Some ts =>
      if (ts <? b.(b_start)) || (b.(b_end) <? ts) || negb (wanted b (bucket_end ts)) then Ok acc
      else if bad_body r then Err RFallback
      else
        let? (b, stream) :=
          match previous with
          | Some (p, i) => if same_stream p r then Ok (b, i) else intern b (stream_of r)
          | None => intern b (stream_of r)
          end in
        let? b := add_cell b (bucket_end ts) stream (line_cell r) in
        Ok (b, Some (r, stream), added + 1)
  end.

Definition add_batch (acc : Builder * Z) (batch : option (list LogLine)) : res RollupError (Builder * Z) :=
  let '(b, added) := acc in
  let? rows := ok_or batch RFallback in
  let? (b, _, added) := foldM add_line (b, None, added) rows in
  Ok (b, added).

Definition add_segment (b : Builder) (file : File) : res RollupError (Builder * Z) :=
  let? batches := ok_or (read_segment 8192 file) RFallback in
  foldM add_batch (b, 0) batches.

(** ** Rollups *)

Definition schema : Schema := mkSchema
  [mkField (str "bucket_end") Int64 false; mkField (str "resource") Utf8 false; mkField (str "attributes") Utf8 false; mkField (str "service") Utf8 true;
   mkField (str "severity_text") Utf8 true; mkField (str "count") Int64 false; mkField (str "bytes") Int64 false; mkField (str "traced") Int64 false]
  [(ROLLUP_KEY, ROLLUP_VERSION)].

Definition assoc {V} (k : bytes) (l : list (bytes * V)) : option V := option_map snd (List.find (fun e => bytes_eqb (fst e) k) l).

(** A rollup by its version and its columns, whether nullable or not. *)
Definition schema_ok (s : Schema) : bool :=
  bool_decide (assoc ROLLUP_KEY s.(metadata) = Some ROLLUP_VERSION) &&
  bool_decide (map (fun f => (f.(field_name), f.(data_type))) s.(fields) = map (fun f => (f.(field_name), f.(data_type))) schema.(fields)).

Definition reader (size : Z) (file : File) : res RollupError Opened :=
  let? o := ok_or (open_rollup size file) RFallback in
  if schema_ok o.(o_schema) then Ok o else Err RFallback.

(** Split at every newline. *)
Fixpoint lines (l : bytes) : list bytes :=
  match l with
  | [] => [[]]
  | c :: l => if c =? 10 then [] :: lines l else match lines l with w :: ws => (c :: w) :: ws | [] => [[c]] end
  end.

Definition sources (file : File) : res RollupError (list bytes) :=
  let? o := reader 8192 file in
  Ok match assoc SOURCES_KEY o.(o_metadata) with
     | Some (Some value) => List.filter (fun k => negb (bool_decide (k = []))) (lines value)
     | _ => []
     end.

Definition stored_stream (r : Stored) : Stream := mkStream (default [] r.(t_resource)) (default [] r.(t_attributes)) r.(t_service) r.(t_level).
Definition same_stored (p r : Stored) : bool :=
  bool_decide (p.(t_resource) = r.(t_resource)) && bool_decide (p.(t_attributes) = r.(t_attributes)) &&
  bool_decide (p.(t_service) = r.(t_service)) && bool_decide (p.(t_level) = r.(t_level)).
Definition cell_ok (bucket : Z) (c : Cell) : bool :=
  (1 <=? c.(c_count)) && (0 <=? c.(c_bytes)) && (0 <=? c.(c_traced)) && (c.(c_traced) <=? c.(c_count)) && (bucket mod BUCKET_NS =? 0).

Section Read.
(** The visitor threads its state; its error may carry what it captured. *)
Context {S E : Type} (raise : RollupError -> E) (visit : S -> Z -> Stream -> Cell -> res E S).

Definition read_row (acc : S * option (Stored * Stream)) (r : Stored) : res E (S * option (Stored * Stream)) :=
  let '(s, previous) := acc in
  let stream :=
    match previous with
    | Some (p, stream) => if same_stored p r then stream else stored_stream r
    | None => stored_stream r
    end in
  let cell := mkCell r.(t_count) r.(t_bytes) r.(t_traced) in
  if negb (cell_ok r.(t_bucket) cell) then Err (raise RFallback)
  else let? s := visit s r.(t_bucket) stream cell in Ok (s, Some (r, stream)).

Definition read_batch (s : S) (batch : option (list Stored)) : res E S :=
  let? rows := ok_or batch (raise RFallback) in
  let? (s, _) := foldM read_row (s, None) rows in
  Ok s.

Definition read (s : S) (file : File) : res E S :=
  match reader 8192 file with
  | Ok o => foldM read_batch s o.(o_batches)
  | Err e => Err (raise e)
  | Fuel => Fuel
  end.
End Read.

Definition add_rollup (b : Builder) (file : File) (only : gset Z) : res RollupError (Builder * Z) :=
  read (fun e => e) (fun '(b, added) bucket stream cell =>
    if (wrap_i64 (wrap_i64 (bucket - BUCKET_NS) + 1) <? b.(b_start)) || (b.(b_end) <? bucket) || negb (wanted b bucket) ||
       (negb (bool_decide (only = ∅)) && negb (bool_decide (bucket ∈ only))) then Ok (b, added)
    else
      let? (b, i) := intern b stream in
      let? b := add_cell b bucket i cell in
      Ok (b, added + 1)) (b, 0) file.

(** ** The finished rollup *)

(** [&streams[row.stream as usize]], in range for every cell. *)
Definition stream_at (streams : list Stream) (i : Z) : Stream := default (mkStream [] [] None None) (get streams i).

Definition stream_key (bucket : Z) (s : Stream) : RowKey := (bucket, (s.(s_service), (s.(s_resource), (s.(s_attributes), s.(s_level))))).
Definition key_leb (a b : RowKey) : bool := match cmp a b with Gt => false | _ => true end.
Definition row_leb (streams : list Stream) (a b : RollupRow) : bool :=
  key_leb (stream_key a.(row_bucket) (stream_at streams a.(row_stream))) (stream_key b.(row_bucket) (stream_at streams b.(row_stream))).

(** The lines of every bucket. *)
Fixpoint add_totals (rows : list RollupRow) (totals : list (Z * Z)) : list (Z * Z) :=
  match rows with
  | [] => totals
  | r :: rows =>
      add_totals rows
        match rev totals with
        | (bucket, count) :: before =>
            if bucket =? r.(row_bucket) then rev before ++ [(bucket, wrap_i64 (count + r.(row_cell).(c_count)))]
            else totals ++ [(r.(row_bucket), r.(row_cell).(c_count))]
        | [] => totals ++ [(r.(row_bucket), r.(row_cell).(c_count))]
        end
  end.

Definition stored_row (streams : list Stream) (r : RollupRow) : Stored :=
  let s := stream_at streams r.(row_stream) in
  mkStored r.(row_bucket) (Some s.(s_resource)) (Some s.(s_attributes)) s.(s_service) s.(s_level)
    r.(row_cell).(c_count) r.(row_cell).(c_bytes) r.(row_cell).(c_traced).

Fixpoint join (l : list bytes) : bytes :=
  match l with
  | [] => []
  | [w] => w
  | w :: l => w ++ [10] ++ join l
  end.

Definition encode (rows : list RollupRow) (streams : list Stream) (sources : list bytes) : res RollupError File :=
  ok_or (write_rows schema (map (stored_row streams) rows) (if bool_decide (sources = []) then [] else [(SOURCES_KEY, Some (join sources))])) RFallback.

Record Finished : Type := mkFinished { payload : File; n_rows : Z; totals : list (Z * Z) }.

Definition finish (b : Builder) (sources : list bytes) : res RollupError Finished :=
  let rows := sort_by (row_leb b.(streams)) (map (fun '((bucket, stream), c) => mkRollupRow bucket stream c) (map_to_list b.(cells))) in
  let totals := add_totals rows [] in
  let? payload := encode rows b.(streams) sources in
  Ok (mkFinished payload (len rows) totals).

(** ** The resource *)

(** [Mutex<Option<Builder>>]: a builder that failed or was finished is gone. *)
Definition log_rollup_new (start end_ : Z) (buckets : list Z) : option Builder :=
  let b := Builder_new start end_ in
  Some (if bool_decide (buckets = []) then b else mkBuilder start end_ [] ∅ ∅ (Some (list_to_set buckets))).

Definition log_rollup_add (rollup : option Builder) (blob : File) (segment : bool) (buckets : list Z) : res RollupError Z * option Builder :=
  match rollup with
  | None => (Err RFallback, None)
  | Some b =>
      match (if segment then add_segment b blob else add_rollup b blob (list_to_set buckets)) with
      | Ok (b, rows) => (Ok rows, Some b)
      | Err e => (Err e, None)
      | Fuel => (Fuel, None)
      end
  end.

Definition log_rollup_finish (rollup : option Builder) (sources : list bytes) : res RollupError Finished * option Builder :=
  match rollup with
  | None => (Err RFallback, None)
  | Some b => (finish b sources, None)
  end.

(** * Arithmetic *)

Lemma wrap_i64_mod a : wrap_i64 a mod U64 = a mod U64.
Proof. unfold wrap_i64, as_i64, wrap_u64, U64. destruct (_ <=? _); dlia. Qed.

Lemma wrap_i64_eq a b : a mod U64 = b mod U64 -> wrap_i64 a = wrap_i64 b.
Proof. unfold wrap_i64, as_i64, wrap_u64. by intros ->. Qed.

Lemma wrap_i64_l a b : wrap_i64 (wrap_i64 a + b) = wrap_i64 (a + b).
Proof. apply wrap_i64_eq. rewrite Z.add_mod, wrap_i64_mod, <- Z.add_mod by done. done. Qed.

Lemma wrap_i64_r a b : wrap_i64 (a + wrap_i64 b) = wrap_i64 (a + b).
Proof. rewrite Z.add_comm, wrap_i64_l. f_equal. lia. Qed.

Lemma wrap_i64_id a : I64_MIN <= a <= I64_MAX -> wrap_i64 a = a.
Proof.
  unfold I64_MIN, I64_MAX. intros Ha. unfold wrap_i64, as_i64, wrap_u64, U64, I64_MAX. destruct (Z.leb_spec (a mod 18446744073709551616) 9223372036854775807); dlia.
Qed.

Lemma add_cells_assoc a b c : add_cells (add_cells a b) c = add_cells a (add_cells b c).
Proof. unfold add_cells. cbn. rewrite !wrap_i64_l, !wrap_i64_r. f_equal; f_equal; lia. Qed.

Lemma add_cells_comm a b : add_cells a b = add_cells b a.
Proof. unfold add_cells. f_equal; f_equal; lia. Qed.

(** The lines of a bucket that ends at a minute. *)
Lemma bucket_end_exact ts b : I64_MIN + 2 * BUCKET_NS <= ts <= I64_MAX - 2 * BUCKET_NS -> b mod BUCKET_NS = 0 -> bucket_end ts = b <-> b - BUCKET_NS < ts <= b.
Proof.
  unfold I64_MIN, I64_MAX, BUCKET_NS. intros Ht Hb. unfold bucket_end, sat_i64, BUCKET_NS, I64_MIN, I64_MAX.
  replace (Z.max _ _) with (ts - 1) by lia. rewrite wrap_i64_l, wrap_i64_id by (unfold I64_MIN, I64_MAX; dlia). dlia.
Qed.

(** * The abstract rollup

    A rollup is the map from a minute and a stream to a cell, in the order in
    which it is written. *)

Definition count (t : Tally) (e : Counted) : Tally :=
  let '(bucket, s, c) := e in
  let k := stream_key bucket s in put k (add_cells (default Cell_default (find k t)) c) t.

Lemma stream_key_inj b b' s s' : stream_key b s = stream_key b' s' -> b = b' /\ s = s'.
Proof. destruct s, s'. unfold stream_key. cbn. by intros [= -> -> -> -> ->]. Qed.

(** The stream of a row key. *)
Definition key_stream (k : RowKey) : Stream := let '(_, (service, (resource, (attributes, level)))) := k in mkStream resource attributes service level.

Lemma key_stream_key k : stream_key (fst k) (key_stream k) = k.
Proof. by destruct k as [b [s [r [a l]]]]. Qed.

Definition valid (s : Stream) : Prop := validate_labels s.(s_resource) s.(s_attributes) s.(s_service) s.(s_level) = Ok tt.

(** [k] is the number of streams that have no cell yet. *)
Record refines_ (k : Z) (b : Builder) (t : Tally) : Prop := mkRefines {
  r_ordered : ordered t;
  r_index : forall s i, b.(index) !! s = Some i <-> get b.(streams) i = Some s;
  r_cells : forall bucket i, b.(cells) !! (bucket, i) = match get b.(streams) i with Some s => find (stream_key bucket s) t | None => None end;
  r_known : forall rk c, find rk t = Some c -> key_stream rk ∈ b.(streams);
  r_size : size_of b.(cells) = len t;
  r_few : len b.(streams) <= len t + k;
  r_max : len t <= MAX_ROWS;
  r_valid : Forall valid b.(streams)
}.

Definition refines : Builder -> Tally -> Prop := refines_ 0.

(** What a builder was made for. *)
Definition same_config (b b' : Builder) : Prop := b'.(b_start) = b.(b_start) /\ b'.(b_end) = b.(b_end) /\ b'.(allowed) = b.(allowed).

Lemma new_refines start end_ a : refines (mkBuilder start end_ [] ∅ ∅ a) [].
Proof.
  constructor; cbn; [constructor| | |done| |done|done|constructor].
  - intros s i. rewrite lookup_empty. unfold get. split; [done|]. by destruct (_ && _).
  - intros bucket i. rewrite lookup_empty. unfold get. by destruct (_ && _).
  - done.
Qed.

(** * Counting *)

Lemma refines_fresh k b t s bucket : refines_ k b t -> b.(index) !! s = None -> find (stream_key bucket s) t = None.
Proof.
  intros Hr Hi. destruct (find _ t) as [c|] eqn:E; [|done]. apply (r_known _ _ _ Hr) in E. destruct (get_elem _ _ E) as [i Hg]. replace (key_stream (stream_key bucket s)) with s in Hg by by destruct s. apply (r_index _ _ _ Hr) in Hg. by rewrite Hi in Hg.
Qed.

Lemma intern_refines b t s : refines b t ->
  match intern b s with
  | Ok (b', i) => valid s /\ same_config b b' /\ get b'.(streams) i = Some s /\ (refines b' t \/ refines_ 1 b' t /\ forall bucket, find (stream_key bucket s) t = None)
  | Err RFallback => ~ valid s
  | _ => False
  end.
Proof.
  intros Hr. unfold intern. destruct (index b !! s) as [i|] eqn:Ei.
  - apply (r_index _ _ _ Hr) in Ei as Hg. split; [|split; [done|split; [done|by left]]]. apply get_Some_elem in Hg. pose proof (r_valid _ _ _ Hr) as Hv. rewrite Forall_forall in Hv. apply Hv. by apply list_elem_of_In.
  - assert (Hn : validate_labels (s_resource s) (s_attributes s) (s_service s) (s_level s) <> Fuel).
    { unfold validate_labels. pose proof (entry_labels_answers (s_resource s) (s_attributes s) (s_service s) (s_level s) None None). by destruct (entry_labels _ _ _ _ _ _). }
    unfold valid. destruct (validate_labels _ _ _ _) as [[]|[]|] eqn:Ev; [|done|done]. split; [done|]. split; [done|]. cbn [streams].
    assert (Hl : as_u32 (len (streams b)) = len (streams b)). { unfold as_u32. pose proof (r_few _ _ _ Hr). pose proof (r_max _ _ _ Hr). pose proof (len_nonneg (streams b)). unfold MAX_ROWS in *. apply Z.mod_small. lia. }
    rewrite Hl. split; [by rewrite get_snoc, Z.eqb_refl|]. right. split; [|intros bucket; by apply (refines_fresh _ _ _ s bucket Hr)].
    assert (Hout : get (streams b) (len (streams b)) = None) by (unfold get; by rewrite Z.ltb_irrefl, andb_false_r).
    destruct Hr as [R1 R2 R3 R4 R5 R6 R7 R8]. constructor; cbn; [done| | | |done| |done|].
    + intros s' i. rewrite get_snoc. destruct (Z.eqb_spec i (len (streams b))) as [->|Hne].
      * destruct (decide (s = s')) as [<-|Hs]; [by rewrite lookup_insert_eq|]. rewrite lookup_insert_ne, R2, Hout by done. split; [done|by intros [= ->]].
      * destruct (decide (s = s')) as [<-|Hs]; [|by rewrite lookup_insert_ne]. rewrite lookup_insert_eq, <- R2, Ei. split; [intros [= ?]; lia|done].
    + intros bucket i. rewrite R3, get_snoc. destruct (Z.eqb_spec i (len (streams b))) as [->|Hne]; [|done]. rewrite Hout. symmetry. apply (refines_fresh 0 b t s bucket); [by constructor|done].
    + intros rk c Hf. apply elem_of_app. left. by eapply R4.
    + rewrite len_app. change (len [s]) with 1. lia.
    + apply Forall_app. split; [done|]. by constructor; [|constructor].
Qed.

Lemma count_find t bucket s c rk : find rk (count t (bucket, s, c)) = if bool_decide (stream_key bucket s = rk) then Some (add_cells (default Cell_default (find rk t)) c) else find rk t.
Proof. unfold count. rewrite find_put. destruct (cmp (stream_key bucket s) rk) eqn:E; [apply cmp_eq in E as ->; by rewrite bool_decide_true|rewrite bool_decide_false; [done|intros Hx; apply cmp_eq in Hx; by rewrite Hx in E]..]. Qed.

Lemma add_cell_refines k b t bucket i s c : refines_ k b t -> get b.(streams) i = Some s -> k = 0 \/ k = 1 /\ find (stream_key bucket s) t = None ->
  match add_cell b bucket i c with
  | Ok b' => same_config b b' /\ b'.(streams) = b.(streams) /\ refines b' (count t (bucket, s, c))
  | Err TooLarge => MAX_ROWS <= len t /\ find (stream_key bucket s) t = None
  | _ => False
  end.
Proof.
  intros Hr Hg Hk. unfold add_cell. pose proof (r_cells _ _ _ Hr bucket i) as Hc. rewrite Hg in Hc. rewrite (r_size _ _ _ Hr), Hc. destruct ((MAX_ROWS <=? len t) && negb (bool_decide (is_Some (find (stream_key bucket s) t)))) eqn:Eg.
  - apply andb_true_iff in Eg as [E1 E2]. split; [by apply Z.leb_le|]. apply negb_true_iff, bool_decide_eq_false in E2. by apply eq_None_not_Some.
  - split; [done|]. split; [done|]. destruct Hr as [R1 R2 R3 R4 R5 R6 R7 R8]. constructor; cbn [index streams cells]; [by apply put_ordered|done| | | | | |done].
    + intros bucket' j. rewrite lookup_insert. case_decide as E; [injection E as <- <-; by rewrite Hg, count_find, bool_decide_true|]. rewrite R3. destruct (get (streams b) j) as [s'|] eqn:Ej; [|done]. rewrite count_find, bool_decide_false; [done|]. intros Hx. apply stream_key_inj in Hx as [<- <-]. apply E. f_equal. apply R2 in Hg, Ej. congruence.
    + intros rk c' Hf. rewrite count_find in Hf. case_bool_decide as E; [subst rk; replace (key_stream (stream_key bucket s)) with s by (by destruct s); by eapply get_Some_elem|by eapply R4].
    + unfold size_of. rewrite map_size_insert, Hc. unfold count. destruct (find (stream_key bucket s) t) as [w|] eqn:Ef; [rewrite (put_len_old _ _ _ w) by done; by apply R5|]. rewrite put_len_new by done. unfold size_of in R5. lia.
    + unfold count. destruct Hk as [->|[-> Hf]]; [pose proof (put_length (stream_key bucket s) (add_cells (default Cell_default (find (stream_key bucket s) t)) c) t); lia|rewrite put_len_new by done; lia].
    + unfold count. destruct (find (stream_key bucket s) t) as [w|] eqn:Ef; [by rewrite (put_len_old _ _ _ w)|]. rewrite put_len_new by done. rewrite bool_decide_false in Eg by (intros [? ?]; done). cbn in Eg. bools. lia.
Qed.

(** * The builder refines the abstract rollup *)

(** Two computations with the same outcome and related states. *)
Definition sim {E A B} (R : A -> B -> Prop) (x : res E A) (y : res E B) : Prop :=
  match x, y with
  | Ok a, Ok b => R a b
  | Err e, Err e' => e = e'
  | _, _ => False
  end.

Lemma foldM_sim {E A B C} (R : A -> B -> Prop) (f : A -> C -> res E A) (g : B -> C -> res E B) l :
  (forall a b x, x ∈ l -> R a b -> sim R (f a x) (g b x)) -> forall a b, R a b -> sim R (foldM f a l) (foldM g b l).
Proof.
  intros Hf. induction l as [|x l IH]; intros a b Hab; [done|]. cbn [foldM]. specialize (Hf a b x) as Hx. specialize (Hx ltac:(by left) Hab). destruct (f a x), (g b x); try done. apply IH; [|done]. intros a' b' x' Hin. apply Hf. by right.
Qed.

Record Config : Type := mkConfig { k_start : Z; k_end : Z; k_allowed : option (gset Z) }.
Definition config (b : Builder) : Config := mkConfig b.(b_start) b.(b_end) b.(allowed).
Definition admits (k : Config) (bucket : Z) : bool := match k.(k_allowed) with None => true | Some s => bool_decide (bucket ∈ s) end.

(** One more cell, if the labels read and the rollup has room. *)
Definition charge (t : Tally) (e : Counted) : res RollupError Tally :=
  let '(bucket, s, _) := e in
  match validate_labels s.(s_resource) s.(s_attributes) s.(s_service) s.(s_level) with
  | Ok _ => if (MAX_ROWS <=? len t) && negb (bool_decide (is_Some (find (stream_key bucket s) t))) then Err TooLarge else Ok (count t e)
  | _ => Err RFallback
  end.

(** The cell of a line inside the range. *)
Definition line_entry (k : Config) (r : LogLine) : option Counted :=
  match r.(l_time) with
  | Some ts => if (k.(k_start) <=? ts) && (ts <=? k.(k_end)) && admits k (bucket_end ts) then Some (bucket_end ts, stream_of r, line_cell r) else None
  | None => None
  end.

Definition charge_line (k : Config) (acc : Tally * Z) (r : LogLine) : res RollupError (Tally * Z) :=
  match line_entry k r with
  | None => Ok acc
  | Some e => if bad_body r then Err RFallback else let? t := charge (fst acc) e in Ok (t, snd acc + 1)
  end.

Definition charge_segment (k : Config) (t : Tally) (file : File) : res RollupError (Tally * Z) :=
  let? batches := ok_or (read_segment 8192 file) RFallback in
  foldM (fun acc batch => let? rows := ok_or batch RFallback in foldM (charge_line k) acc rows) (t, 0) batches.

(** The builder at the abstract rollup [t], for the configuration. *)
Definition at_tally (k : Config) (b : Builder) (t : Tally) : Prop := config b = k /\ refines b t.

Lemma config_same b b' : same_config b b' -> config b' = config b.
Proof. unfold same_config, config. by intros (-> & -> & ->). Qed.

Lemma tick_sim k b t bucket s c : at_tally k b t ->
  sim (fun x t => at_tally k (fst x) t /\ get (fst x).(streams) (snd x) = Some s) (let? (b, i) := intern b s in let? b := add_cell b bucket i c in Ok (b, i)) (charge t (bucket, s, c)).
Proof.
  intros [Hk Hr]. pose proof (intern_refines b t s Hr) as Hi. unfold charge. unfold valid in Hi. destruct (intern b s) as [[b1 i]|e|] eqn:Ei; [|destruct e; [|done]; unfold validate_labels in *; by destruct (entry_labels _ _ _ _ _ _)|done].
  destruct Hi as (-> & Hc & Hg & Hr1). assert (Ha : exists k', refines_ k' b1 t /\ (k' = 0 \/ k' = 1 /\ find (stream_key bucket s) t = None)) by (destruct Hr1 as [?|[? Hf]]; [exists 0; by split; [|left]|exists 1; split; [done|right; by split]]).
  destruct Ha as (k' & Hr' & Hk'). pose proof (add_cell_refines k' b1 t bucket i s c Hr' Hg Hk') as Hx. destruct (add_cell b1 bucket i c) as [b2|e|] eqn:Ec.
  - destruct Hx as (Hc2 & Hs & Hr2). assert (Hroom : (MAX_ROWS <=? len t) && negb (bool_decide (is_Some (find (stream_key bucket s) t))) = false).
    { unfold add_cell in Ec. rewrite (r_size _ _ _ Hr'), (r_cells _ _ _ Hr'), Hg in Ec. by destruct (_ && _). }
    rewrite Hroom. cbn. split; [|by rewrite Hs]. split; [|done]. rewrite (config_same _ _ Hc2), (config_same _ _ Hc). done.
  - destruct e; [done|]. destruct Hx as [H1 H2]. rewrite (proj2 (Z.leb_le _ _) H1), H2, bool_decide_false by (intros [? ?]; done). done.
  - done.
Qed.

(** The previous row of a batch has the stream it was counted under. *)
Definition recalls (b : Builder) (previous : option (LogLine * Z)) : Prop :=
  match previous with Some (p, i) => get b.(streams) i = Some (stream_of p) | None => True end.

Lemma recalled b t previous r : refines b t -> recalls b previous ->
  match previous with Some (p, i) => if same_stream p r then Ok (b, i) else intern b (stream_of r) | None => intern b (stream_of r) end = intern b (stream_of r).
Proof.
  intros Hr Hp. destruct previous as [[p i]|]; [|done]. destruct (same_stream p r) eqn:E; [|done]. unfold same_stream in E. apply andb_true_iff in E as [E E4]. apply andb_true_iff in E as [E E3]. apply andb_true_iff in E as [E1 E2]. apply bool_decide_eq_true in E1, E2, E3, E4.
  cbn in Hp. unfold stream_of in *. rewrite E1, E2, E3, E4 in Hp. unfold intern. apply (r_index _ _ _ Hr) in Hp. by rewrite Hp.
Qed.

Lemma add_line_sim k x y r : at_tally k (fst (fst x)) (fst y) /\ recalls (fst (fst x)) (snd (fst x)) /\ snd x = snd y ->
  sim (fun x y => at_tally k (fst (fst x)) (fst y) /\ recalls (fst (fst x)) (snd (fst x)) /\ snd x = snd y) (add_line x r) (charge_line k y r).
Proof.
  destruct x as [[b previous] n], y as [t m]. cbn. intros ([Hk Hr] & Hp & ->). unfold charge_line, line_entry. destruct (l_time r) as [ts|]; [|done]. rewrite <- Hk. change (wanted b) with (admits (config b)). cbn [k_start k_end config].
  replace ((ts <? b_start b) || (b_end b <? ts) || negb (admits (config b) (bucket_end ts))) with (negb ((b_start b <=? ts) && (ts <=? b_end b) && admits (config b) (bucket_end ts))) by (rewrite !negb_andb, <- !Z.ltb_antisym; done).
  destruct ((b_start b <=? ts) && _ && _); [|done]. cbn [negb fst snd]. destruct (bad_body r); [done|]. rewrite (recalled b t previous r Hr Hp). pose proof (tick_sim k b t (bucket_end ts) (stream_of r) (line_cell r) (conj Hk Hr)) as Hs.
  destruct (intern b (stream_of r)) as [[b1 i]| |]; [|destruct (charge t _); done..]. destruct (add_cell b1 _ i _) as [b2| |]; destruct (charge t _); try done. cbn in Hs |- *. destruct Hs as [Hs1 Hs2]. by rewrite Hk.
Qed.

Lemma add_segment_sim k b t file : at_tally k b t -> sim (fun x y => at_tally k (fst x) (fst y) /\ snd x = snd y) (add_segment b file) (charge_segment k t file).
Proof.
  intros Hb. unfold add_segment, charge_segment. destruct (read_segment 8192 file) as [batches|]; [|done]. cbn [ok_or]. apply foldM_sim; [|done]. intros [b1 n] [t1 m] batch _ [Hb1 Hn]. cbn in Hb1, Hn. subst m. unfold add_batch. destruct batch as [rows|]; [|done]. cbn [ok_or].
  pose proof (foldM_sim (fun x y => at_tally k (fst (fst x)) (fst y) /\ recalls (fst (fst x)) (snd (fst x)) /\ snd x = snd y) add_line (charge_line k) rows (fun a b x _ => add_line_sim k a b x) (b1, None, n) (t1, n) ltac:(done)) as Hs.
  destruct (foldM add_line _ rows) as [[[b2 p2] n2]| |], (foldM (charge_line k) _ rows) as [[t2 m2]| |]; try done. cbn in *. tauto.
Qed.

(** * The written rows *)

Lemma key_leb_total a b : key_leb a b = false -> key_leb b a = true.
Proof. unfold key_leb. rewrite (cmp_antisym a b). by destruct (cmp a b). Qed.

Definition row_entry (streams : list Stream) (r : RollupRow) : RowKey * Cell := (stream_key r.(row_bucket) (stream_at streams r.(row_stream)), r.(row_cell)).
Definition cell_rows (b : Builder) : list RollupRow := map (fun '((bucket, stream), c) => mkRollupRow bucket stream c) (map_to_list b.(cells)).

Lemma cell_rows_in b t r : refines b t -> r ∈ cell_rows b <-> exists s, get b.(streams) r.(row_stream) = Some s /\ find (stream_key r.(row_bucket) s) t = Some r.(row_cell).
Proof.
  intros Hr. unfold cell_rows. rewrite list_elem_of_In, in_map_iff. split.
  - intros ([[bucket i] c] & <- & Hin). apply list_elem_of_In, elem_of_map_to_list in Hin. cbn. rewrite (r_cells _ _ _ Hr) in Hin. destruct (get _ i) as [s|]; [by exists s|done].
  - intros (s & Hg & Hf). exists (row_bucket r, row_stream r, row_cell r). split; [by destruct r|]. apply list_elem_of_In, elem_of_map_to_list. by rewrite (r_cells _ _ _ Hr), Hg.
Qed.

Lemma row_entries_in b t e : refines b t -> e ∈ map (row_entry b.(streams)) (cell_rows b) <-> find (fst e) t = Some (snd e).
Proof.
  intros Hr. rewrite list_elem_of_In, in_map_iff. split.
  - intros (r & <- & Hin). apply list_elem_of_In, (cell_rows_in b t r Hr) in Hin as (s & Hg & Hf). unfold row_entry, stream_at. by rewrite Hg.
  - intros Hf. destruct e as [rk c]. cbn in Hf. apply (r_known _ _ _ Hr) in Hf as Hin. apply get_elem in Hin as [i Hg]. exists (mkRollupRow (fst rk) i c). split; [unfold row_entry, stream_at; cbn; by rewrite Hg; cbn; rewrite key_stream_key|].
    apply list_elem_of_In, (cell_rows_in b t _ Hr). exists (key_stream rk). cbn. by rewrite key_stream_key.
Qed.

Lemma row_keys_distinct b t : refines b t -> NoDup (map (fun r => fst (row_entry b.(streams) r)) (cell_rows b)).
Proof.
  intros Hr. apply (NoDup_fmap_2_strong (fun r => fst (row_entry (streams b) r))).
  - intros x y Hx Hy. apply (cell_rows_in b t _ Hr) in Hx as (s & Hg & Hf), Hy as (s' & Hg' & Hf'). unfold row_entry, stream_at. rewrite Hg, Hg'. cbn. intros E. apply stream_key_inj in E as [E1 <-]. rewrite E1 in Hf. rewrite Hf in Hf'. injection Hf' as E2. apply (r_index _ _ _ Hr) in Hg, Hg'. destruct x, y; cbn in *; congruence.
  - unfold cell_rows. apply (NoDup_fmap_2_strong (fun '((bucket, stream), c) => mkRollupRow bucket stream c)); [by intros [[? ?] ?] [[? ?] ?] _ _ [= -> -> ->]|apply NoDup_map_to_list].
Qed.

Lemma finish_entries b t : refines b t -> map (row_entry b.(streams)) (sort_by (row_leb b.(streams)) (cell_rows b)) = t.
Proof.
  intros Hr. set (rows := sort_by _ _). assert (Hp : rows ≡ₚ cell_rows b) by apply sort_by_perm.
  assert (Ho : ordered (map (row_entry (streams b)) rows)).
  { assert (Hn : NoDup (map (fun r => fst (row_entry (streams b) r)) rows)) by (rewrite Hp; by eapply row_keys_distinct). apply windows_distinct in Hn.
    pose proof (sort_by_sorted (row_leb (streams b)) (fun x y => key_leb_total _ _) (cell_rows b)) as Hs. fold rows in Hs. unfold sorted in Hs. unfold ordered. clear Hp. induction rows as [|x [|y l] IH]; [constructor..|]. cbn [windows2 map] in *. inversion Hs as [|? ? Hs1 Hs2]; subst. inversion Hn as [|? ? Hn1 Hn2]; subst.
    constructor; [|by apply IH]. unfold less, row_entry in *. cbn in Hn1 |- *. unfold row_leb, key_leb in Hs1. destruct (cmp _ _) eqn:E in Hs1 |- *; [apply cmp_eq in E; done|done|done]. }
  apply find_ext; [done|apply (r_ordered _ _ _ Hr)|]. intros rk. apply option_eq. intros c. rewrite (find_iff rk c _ Ho). rewrite Hp. apply (row_entries_in b t (rk, c) Hr).
Qed.

(** A row as it is stored. *)
Definition stored_of (e : RowKey * Cell) : Stored :=
  let s := key_stream (fst e) in
  mkStored (fst (fst e)) (Some s.(s_resource)) (Some s.(s_attributes)) s.(s_service) s.(s_level) (snd e).(c_count) (snd e).(c_bytes) (snd e).(c_traced).

Lemma stored_entry streams r : stored_row streams r = stored_of (row_entry streams r).
Proof. unfold stored_row, stored_of, row_entry. cbn. by destruct (stream_at streams (row_stream r)). Qed.

(** The metadata of the sources. *)
Definition source_entry (sources : list bytes) : list (bytes * option bytes) := if bool_decide (sources = []) then [] else [(SOURCES_KEY, Some (join sources))].

(** ** The totals *)

Definition minute_step (m : list (Z * Z)) (e : RowKey * Cell) : list (Z * Z) :=
  let bucket := fst (fst e) in
  put bucket match find bucket m with Some n => wrap_i64 (n + (snd e).(c_count)) | None => (snd e).(c_count) end m.
(** The lines of every minute. *)
Definition minute_totals (t : Tally) : list (Z * Z) := fold_left minute_step t [].

Lemma below_put {V} (l : list (Z * V)) k v w : Forall (fun e => fst e < k) l -> find k l = None /\ find k (l ++ [(k, w)]) = Some w /\ put k v l = l ++ [(k, v)] /\ put k v (l ++ [(k, w)]) = l ++ [(k, v)].
Proof.
  induction 1 as [|[j x] l Hj Hl (I1 & I2 & I3 & I4)]; cbn [find put app].
  - split_and!; try done; [by rewrite (proj2 (cmp_eq k k) eq_refl)|by rewrite (proj2 (cmp_eq k k) eq_refl)].
  - cbn in Hj. assert (E : cmp j k = Lt) by (by apply Z.compare_lt_iff). rewrite E. split_and!; [done..|by rewrite I3|by rewrite I4].
Qed.

Lemma ordered_snoc_below {V} (l : list (Z * V)) j w : ordered (l ++ [(j, w)]) -> Forall (fun e => fst e < j) l.
Proof.
  induction l as [|e l IH]; intros Ho; [constructor|]. constructor; [|apply IH; by apply ordered_tail in Ho]. apply Z.compare_lt_iff. apply (ordered_head _ _ (j, w) Ho). apply elem_of_app. right. by left.
Qed.

Lemma totals_step streams r acc : ordered acc -> Forall (fun e => fst e <= r.(row_bucket)) acc ->
  match rev acc with
  | (bucket, n) :: before =>
      if bucket =? r.(row_bucket) then rev before ++ [(bucket, wrap_i64 (n + r.(row_cell).(c_count)))] else acc ++ [(r.(row_bucket), r.(row_cell).(c_count))]
  | [] => acc ++ [(r.(row_bucket), r.(row_cell).(c_count))]
  end = minute_step acc (row_entry streams r).
Proof.
  intros Ho Hb. unfold minute_step, row_entry. cbn. destruct acc as [|[j w] l _] using rev_ind; [done|]. rewrite rev_app_distr. cbn [rev app]. apply ordered_snoc_below in Ho. apply Forall_app in Hb as [_ Hb]. inversion Hb as [|? ? Hj _]; subst. cbn in Hj. destruct (Z.eqb_spec j (row_bucket r)) as [->|Hne].
  - destruct (below_put l (row_bucket r) (wrap_i64 (w + c_count (row_cell r))) w Ho) as (_ & -> & _ & ->). by rewrite rev_involutive.
  - assert (Hall : Forall (fun e => fst e < row_bucket r) (l ++ [(j, w)])) by (apply Forall_app; split; [eapply Forall_impl; [|exact Ho]; cbn; intros; lia|constructor; [cbn; lia|constructor]]).
    destruct (below_put _ (row_bucket r) (c_count (row_cell r)) 0 Hall) as (-> & _ & -> & _). done.
Qed.

Lemma minute_step_bounded acc e n : ordered acc -> Forall (fun x => fst x <= n) acc -> fst (fst e) <= n -> ordered (minute_step acc e) /\ Forall (fun x => fst x <= n) (minute_step acc e).
Proof.
  intros Ho Hb He. unfold minute_step. split; [by apply put_ordered|]. apply Forall_forall. intros x Hx. apply list_elem_of_In, put_in in Hx as [->|Hx]; [done|]. rewrite Forall_forall in Hb. apply Hb. by apply list_elem_of_In.
Qed.

Lemma add_totals_minutes streams rows : forall acc, ordered acc -> (forall r, r ∈ rows -> Forall (fun e => fst e <= r.(row_bucket)) acc) -> Forall (fun '(a, b) => a.(row_bucket) <= b.(row_bucket)) (windows2 rows) ->
  add_totals rows acc = fold_left minute_step (map (row_entry streams) rows) acc.
Proof.
  induction rows as [|r rows IH]; intros acc Ho Hb Hs; [done|]. cbn [add_totals map fold_left]. rewrite (totals_step streams r acc Ho) by (apply Hb; by left). assert (Hle : forall x, x ∈ rows -> row_bucket r <= row_bucket x).
  { clear -Hs. revert r Hs. induction rows as [|y rows IH]; intros r Hs x Hx; [by apply not_elem_of_nil in Hx|]. cbn [windows2] in Hs. inversion Hs as [|? ? H1 H2]; subst. apply elem_of_cons in Hx as [->|Hx]; [done|]. specialize (IH y H2 x Hx). lia. }
  apply IH.
  - apply (minute_step_bounded acc (row_entry streams r) (row_bucket r)); [done|apply Hb; by left|cbn; lia].
  - intros x Hx. specialize (Hle x Hx). apply minute_step_bounded; [done| |cbn; lia]. apply Hb. by right.
  - destruct rows as [|y rows]; [constructor|]. cbn [windows2] in Hs. by inversion Hs.
Qed.

Lemma windows_impl {A} (P Q : A -> A -> Prop) l : (forall a b, P a b -> Q a b) -> Forall (fun '(a, b) => P a b) (windows2 l) -> Forall (fun '(a, b) => Q a b) (windows2 l).
Proof. intros HPQ. apply Forall_impl. intros [a b]. apply HPQ. Qed.

(** A finished rollup holds the abstract rollup. *)
Lemma finish_exact b t sources : refines b t ->
  finish b sources = let? file := ok_or (write_rows schema (map stored_of t) (source_entry sources)) RFallback in Ok (mkFinished file (len t) (minute_totals t)).
Proof.
  intros Hr. unfold finish, encode. fold (cell_rows b). set (rows := sort_by _ _). pose proof (finish_entries b t Hr) as Hf. fold rows in Hf.
  rewrite (map_ext _ _ (stored_entry (streams b))), <- map_map, Hf. fold (source_entry sources). destruct (write_rows _ _ _) as [file|]; [|done]. cbn [ok_or]. f_equal. f_equal; [by rewrite <- Hf, len_map|]. unfold minute_totals. rewrite <- Hf. apply add_totals_minutes; [constructor|constructor|].
  pose proof (sort_by_sorted (row_leb (streams b)) (fun x y => key_leb_total _ _) (cell_rows b)) as Hs. fold rows in Hs. revert Hs. apply windows_impl. intros x y. unfold row_leb, key_leb, stream_key. cbn. destruct (Z.compare_spec (row_bucket x) (row_bucket y)); intros E; try done; lia.
Qed.

(** * Reading a rollup *)

Lemma foldM_concat {E A B} (f : A -> B -> res E A) ls : forall acc, foldM (fun acc l => foldM f acc l) acc ls = foldM f acc (concat ls).
Proof. induction ls as [|l ls IH]; intros acc; [done|]. cbn [foldM concat]. rewrite foldM_app. destruct (foldM f acc l); [apply IH|done..]. Qed.

Lemma foldM_map {E A B C} (f : A -> C -> res E A) (g : B -> C) l : forall acc, foldM f acc (map g l) = foldM (fun acc x => f acc (g x)) acc l.
Proof. induction l as [|x l IH]; intros acc; [done|]. cbn [foldM map]. destruct (f acc (g x)); [apply IH|done..]. Qed.

Lemma foldM_same {E A B} (f g : A -> B -> res E A) l : (forall a x, x ∈ l -> f a x = g a x) -> forall acc, foldM f acc l = foldM g acc l.
Proof. intros Hf. induction l as [|x l IH]; intros acc; [done|]. cbn [foldM]. rewrite Hf by by left. destruct (g acc x); [|done..]. apply IH. intros b y Hy. apply Hf. by right. Qed.

Section Reading.
Context {S E : Type} (raise : RollupError -> E) (visit : S -> Z -> Stream -> Cell -> res E S).

Definition visit_row (s : S) (r : Stored) : res E S :=
  let c := mkCell r.(t_count) r.(t_bytes) r.(t_traced) in
  if cell_ok r.(t_bucket) c then visit s r.(t_bucket) (stored_stream r) c else Err (raise RFallback).

(** The previous row only saves work. *)
Lemma read_row_visit s previous r : match previous with Some (p, stream) => stream = stored_stream p | None => True end ->
  read_row raise visit (s, previous) r = match visit_row s r with Ok s => Ok (s, Some (r, stored_stream r)) | Err e => Err e | Fuel => Fuel end.
Proof.
  intros Hp. unfold read_row, visit_row. replace (match previous with Some (p, stream) => if same_stored p r then stream else stored_stream r | None => stored_stream r end) with (stored_stream r).
  - cbv zeta. destruct (cell_ok _ _); [|done]. cbn [negb]. by destruct (visit _ _ _ _).
  - destruct previous as [[p stream]|]; [|done]. destruct (same_stored p r) eqn:Es; [|done]. subst stream. unfold same_stored in Es. apply andb_true_iff in Es as [Es E4]. apply andb_true_iff in Es as [Es E3]. apply andb_true_iff in Es as [E1 E2]. apply bool_decide_eq_true in E1, E2, E3, E4. unfold stored_stream. by rewrite E1, E2, E3, E4.
Qed.

Lemma read_rows_visit rows : forall s previous, match previous with Some (p, stream) => stream = stored_stream p | None => True end ->
  match foldM (read_row raise visit) (s, previous) rows with Ok (s, _) => Ok s | Err e => Err e | Fuel => Fuel end = foldM visit_row s rows.
Proof.
  induction rows as [|r rows IH]; intros s previous Hp; [done|]. cbn [foldM]. rewrite (read_row_visit s previous r Hp). destruct (visit_row s r); [by apply IH|done..].
Qed.

(** A rollup of the abstract rollup [t], visited. *)
Definition visit_entry (s : S) (e : RowKey * Cell) : res E S :=
  if cell_ok (fst (fst e)) (snd e) then visit s (fst (fst e)) (key_stream (fst e)) (snd e) else Err (raise RFallback).

Lemma schema_reads : schema_ok schema = true.
Proof. vm_compute. reflexivity. Qed.

Lemma read_written s t sources file : write_rows schema (map stored_of t) (source_entry sources) = Some file -> read raise visit s file = foldM visit_entry s t.
Proof.
  intros Hw. destruct (open_written _ _ _ _ 8192 ltac:(done) Hw) as (own & batches & Ho & Hc & _). unfold read, reader. rewrite Ho. cbn [ok_or o_schema]. rewrite schema_reads. cbn [o_batches]. rewrite foldM_map. transitivity (foldM (fun s l => foldM visit_row s l) s batches).
  - apply foldM_same. intros a rows _. unfold read_batch. cbn [ok_or]. rewrite <- (read_rows_visit rows a None) by done. by destruct (foldM _ _ rows) as [[? ?]| |].
  - rewrite foldM_concat, Hc, foldM_map. apply foldM_same. intros s0 e _. unfold visit_row, visit_entry, stored_of. cbn [t_bucket t_count t_bytes t_traced]. destruct e as [rk []]. cbn. by destruct rk as [bucket [svc [r [at_ lvl]]]].
Qed.
End Reading.

(** ** Rollups of rollups *)

(** The rows of a rollup that lie in range and in the wanted buckets. *)
Definition in_rollup (k : Config) (only : gset Z) (bucket : Z) : bool :=
  negb (wrap_i64 (wrap_i64 (bucket - BUCKET_NS) + 1) <? k.(k_start)) && (bucket <=? k.(k_end)) && admits k bucket && (bool_decide (only = ∅) || bool_decide (bucket ∈ only)).

Definition charge_entry (k : Config) (only : gset Z) (acc : Tally * Z) (e : RowKey * Cell) : res RollupError (Tally * Z) :=
  if negb (cell_ok (fst (fst e)) (snd e)) then Err RFallback
  else if in_rollup k only (fst (fst e)) then let? t := charge (fst acc) (fst (fst e), key_stream (fst e), snd e) in Ok (t, snd acc + 1)
  else Ok acc.

Lemma add_rollup_sim k b t only u sources file : at_tally k b t -> write_rows schema (map stored_of u) (source_entry sources) = Some file ->
  sim (fun x y => at_tally k (fst x) (fst y) /\ snd x = snd y) (add_rollup b file only) (foldM (charge_entry k only) (t, 0) u).
Proof.
  intros Hb Hw. unfold add_rollup. rewrite (read_written _ _ _ u sources file Hw). apply foldM_sim; [|done]. intros [b1 n] [t1 m] e _ [Hb1 Hn]. cbn in Hb1, Hn. subst m. unfold visit_entry, charge_entry. destruct (cell_ok _ _); [|done]. cbn [negb fst snd].
  replace ((wrap_i64 (wrap_i64 (fst (fst e) - BUCKET_NS) + 1) <? b_start b1) || (b_end b1 <? fst (fst e)) || negb (wanted b1 (fst (fst e))) || (negb (bool_decide (only = ∅)) && negb (bool_decide (fst (fst e) ∈ only)))) with (negb (in_rollup k only (fst (fst e)))).
  - destruct (in_rollup _ _ _); [|done]. cbn [negb]. pose proof (tick_sim k b1 t1 (fst (fst e)) (key_stream (fst e)) (snd e) Hb1) as Hs. destruct (intern b1 _) as [[b2 i]| |]; [|destruct (charge t1 _); done..]. destruct (add_cell b2 _ i _); destruct (charge t1 _); try done. cbn in Hs |- *. tauto.
  - destruct Hb1 as [Hk _]. rewrite <- Hk. unfold in_rollup. cbn [k_start k_end config]. change (admits (config b1)) with (wanted b1). rewrite !negb_andb, negb_orb, negb_involutive, <- Z.ltb_antisym. done.
Qed.

(** * Summing cells

    Folding a rollup is folding its lines, for every action on an accumulator
    that commutes and adds cells of the same row. *)

Definition cell_range (c : Cell) : Prop := wrap_i64 c.(c_count) = c.(c_count) /\ wrap_i64 c.(c_bytes) = c.(c_bytes) /\ wrap_i64 c.(c_traced) = c.(c_traced).

Lemma wrap_i64_twice a : wrap_i64 (wrap_i64 a) = wrap_i64 a.
Proof. pose proof (wrap_i64_l a 0) as E. by rewrite !Z.add_0_r in E. Qed.

Lemma add_cells_range a b : cell_range (add_cells a b).
Proof. unfold cell_range, add_cells. cbn [c_count c_bytes c_traced]. by rewrite !wrap_i64_twice. Qed.

Lemma add_cells_default c : cell_range c -> add_cells Cell_default c = c.
Proof. destruct c. unfold cell_range, add_cells. cbn [c_count c_bytes c_traced Cell_default]. rewrite !Z.add_0_l. by intros (-> & -> & ->). Qed.

Lemma line_cell_range r : cell_range (line_cell r).
Proof. unfold cell_range, line_cell. cbn [c_count c_bytes c_traced]. rewrite wrap_i64_twice. by destruct (_ || _). Qed.

Definition counted (e : RowKey * Cell) : Counted := (fst (fst e), key_stream (fst e), snd e).

Lemma put_old_perm (k : RowKey) (v w : Cell) (m : Tally) : ordered m -> find k m = Some w -> exists m', m ≡ₚ (k, w) :: m' /\ put k v m ≡ₚ (k, v) :: m'.
Proof.
  induction m as [|[j x] m IH]; [done|]. intros Ho. cbn [find put]. destruct (cmp j k) eqn:E.
  - intros [= ->]. apply cmp_eq in E as ->. by exists m.
  - intros Hf. destruct (IH (ordered_tail _ _ Ho) Hf) as (m' & H1 & H2). exists ((j, x) :: m'). split; [rewrite H1|rewrite H2]; apply Permutation_swap.
  - intros Hf. rewrite (find_below j x m k Ho) in Hf; [done|]. by rewrite cmp_antisym, E.
Qed.

Section Summing.
Context {A : Type} (P : A -> Prop) (act : A -> Counted -> A).
Context (act_keeps : forall a e, P a -> P (act a e)) (act_comm : forall a x y, P a -> act (act a x) y = act (act a y) x)
        (act_adds : forall a bucket s c d, P a -> act (act a (bucket, s, c)) (bucket, s, d) = act a (bucket, s, add_cells c d)).

Lemma act_fold_keeps es : forall a, P a -> P (fold_left act es a).
Proof. induction es as [|e es IH]; intros a Ha; [done|]. by apply IH, act_keeps. Qed.

Lemma act_perm es fs : es ≡ₚ fs -> forall a, P a -> fold_left act es a = fold_left act fs a.
Proof.
  induction 1 as [|e es fs Hp IH|x y es|es fs gs H1 IH1 H2 IH2]; intros a Ha; cbn [fold_left]; [done|by apply IH, act_keeps|by rewrite act_comm|by rewrite IH1, IH2].
Qed.

Lemma count_fold t e a : ordered t -> cell_range (snd e) -> P a -> fold_left act (map counted (count t e)) a = fold_left act (map counted t ++ [e]) a.
Proof.
  intros Ho Hc Ha. destruct e as [[bucket s] c]. cbn in Hc. unfold count. set (k := stream_key bucket s). assert (Hk : forall v, counted (k, v) = (bucket, s, v)) by (intros v; unfold counted, k; by destruct s). destruct (find k t) as [w|] eqn:Ef; cbn [default].
  - destruct (put_old_perm k (add_cells w c) w t Ho Ef) as (t' & H1 & H2). change (from_option id Cell_default (Some w)) with w. rewrite (act_perm (map counted (put _ _ _)) (counted (k, add_cells w c) :: map counted t')); [|by apply (Permutation_map counted) in H2|done].
    rewrite (act_perm (map counted t ++ _) (counted (k, w) :: (bucket, s, c) :: map counted t')); [|apply (Permutation_map counted) in H1; rewrite H1; cbn [map app]; rewrite Permutation_app_comm; by cbn|done]. cbn [fold_left]. by rewrite !Hk, act_adds.
  - change (from_option id Cell_default None) with Cell_default. rewrite add_cells_default by done. apply act_perm; [|done]. rewrite (Permutation_map counted (put_new_perm k c t Ef)). cbn [map]. rewrite Hk. apply Permutation_cons_append.
Qed.

Lemma counts_fold es : Forall (fun e => cell_range (snd e)) es -> forall t a, ordered t -> P a -> fold_left act (map counted (fold_left count es t)) a = fold_left act es (fold_left act (map counted t) a).
Proof.
  induction 1 as [|e es He Hes IH]; intros t a Ho Ha; [done|]. cbn [fold_left]. rewrite IH by (destruct e as [[? ?] ?]; by try apply put_ordered). rewrite count_fold, fold_left_app by done. done.
Qed.
End Summing.

Lemma count_ordered t e : ordered t -> ordered (count t e).
Proof. destruct e as [[bucket s] c]. apply put_ordered. Qed.

Lemma count_comm t x y : ordered t -> count (count t x) y = count (count t y) x.
Proof.
  intros Ho. destruct x as [[b1 s1] c1], y as [[b2 s2] c2]. apply find_ext; [by repeat apply count_ordered..|]. intros rk. rewrite !count_find. repeat case_bool_decide; try done. cbn. f_equal. rewrite !add_cells_assoc. f_equal. apply add_cells_comm.
Qed.

Lemma count_adds t bucket s c d : ordered t -> count (count t (bucket, s, c)) (bucket, s, d) = count t (bucket, s, add_cells c d).
Proof.
  intros Ho. apply find_ext; [by repeat apply count_ordered..|]. intros rk. rewrite !count_find. case_bool_decide; [|done]. cbn. f_equal. apply add_cells_assoc.
Qed.

(** * What a source adds *)

Definition line_entries (k : Config) (rows : list LogLine) : list Counted := flat_map (fun r => option_list (line_entry k r)) rows.
(** A line of the range that counts: a string with labels that read. *)
Definition countable (k : Config) (r : LogLine) : Prop := line_entry k r <> None -> bad_body r = false /\ valid (stream_of r).

Lemma count_len t e : len t <= len (count t e).
Proof. destruct e as [[b s] c]. pose proof (put_length (stream_key b s) (add_cells (default Cell_default (find (stream_key b s) t)) c) t). unfold count. lia. Qed.

Lemma counts_len es : forall t, len t <= len (fold_left count es t).
Proof. induction es as [|e es IH]; intros t; [done|]. cbn [fold_left]. pose proof (count_len t e). specialize (IH (count t e)). lia. Qed.

Lemma counts_ordered es : forall t, ordered t -> ordered (fold_left count es t).
Proof. induction es as [|e es IH]; intros t Ho; [done|]. by apply IH, count_ordered. Qed.

Definition room (t : Tally) : Prop := ordered t /\ len t <= MAX_ROWS.

Lemma charge_cases t e : room t ->
  match charge t e with
  | Ok t' => t' = count t e /\ valid (snd (fst e)) /\ room t'
  | Err RFallback => ~ valid (snd (fst e))
  | Err TooLarge => MAX_ROWS < len (count t e)
  | Fuel => False
  end.
Proof.
  intros [Ho Hl]. destruct e as [[bucket s] c]. unfold charge, valid, validate_labels. cbn [fst snd]. destruct (entry_labels _ _ _ _ _ _); [|done..]. destruct ((MAX_ROWS <=? len t) && _) eqn:Eg.
  - apply andb_true_iff in Eg as [E1 E2]. apply Z.leb_le in E1. apply negb_true_iff, bool_decide_eq_false, eq_None_not_Some in E2. unfold count. rewrite put_len_new by done. lia.
  - split; [done|]. split; [done|]. split; [by apply count_ordered|]. unfold count. destruct (find (stream_key bucket s) t) as [w|] eqn:Ef; [by rewrite (put_len_old _ _ _ w)|]. rewrite put_len_new by done. rewrite bool_decide_false, andb_true_r in Eg by (by intros [? ?]). apply Z.leb_gt in Eg. lia.
Qed.

(** A loop of charges, with the entries of each element and a test on it. *)
Lemma charges {X} (entry : X -> option Counted) (good : X -> Prop) (step : Tally * Z -> X -> res RollupError (Tally * Z)) :
  (forall t n x, room t -> match step (t, n) x with
    | Ok (t', n') => good x /\ room t' /\ (t', n') = match entry x with Some e => (count t e, n + 1) | None => (t, n) end
    | Err RFallback => ~ good x
    | Err TooLarge => MAX_ROWS < len (fold_left count (option_list (entry x)) t)
    | Fuel => False end) ->
  forall l t n, room t -> match foldM step (t, n) l with
    | Ok (t', n') => t' = fold_left count (flat_map (fun x => option_list (entry x)) l) t /\ n' = n + len (flat_map (fun x => option_list (entry x)) l) /\ Forall good l /\ room t'
    | Err RFallback => ~ Forall good l
    | Err TooLarge => MAX_ROWS < len (fold_left count (flat_map (fun x => option_list (entry x)) l) t)
    | Fuel => False end.
Proof.
  intros Hstep. induction l as [|x l IH]; intros t n Hl; cbn [foldM flat_map fold_left]; [split; [done|]; split; [change (len (@nil Counted)) with 0; lia|]; by split|]. specialize (Hstep t n x Hl). rewrite fold_left_app, len_app. destruct (step (t, n) x) as [[t1 n1]|e|]; [| |done].
  - destruct Hstep as (Hg & Hl1 & Heq). specialize (IH t1 n1 Hl1). assert (Ht : t1 = fold_left count (option_list (entry x)) t /\ n1 = n + len (option_list (entry x))) by (destruct (entry x); injection Heq as -> ->; cbn; split; try done; unfold len; cbn; lia). destruct Ht as [<- Hn].
    destruct (foldM step (t1, n1) l) as [[t2 n2]|e|]; [|destruct e; [intros Hf; by inversion Hf|done]|done]. destruct IH as (-> & -> & Hf & Hl2). split; [done|]. split; [lia|]. split; [by constructor|done].
  - destruct e; [intros Hf; by inversion Hf|]. pose proof (counts_len (flat_map (fun x => option_list (entry x)) l) (fold_left count (option_list (entry x)) t)). lia.
Qed.

Lemma charge_lines k rows t n : room t ->
  match foldM (charge_line k) (t, n) rows with
  | Ok (t', n') => t' = fold_left count (line_entries k rows) t /\ n' = n + len (line_entries k rows) /\ Forall (countable k) rows /\ room t'
  | Err RFallback => ~ Forall (countable k) rows
  | Err TooLarge => MAX_ROWS < len (fold_left count (line_entries k rows) t)
  | Fuel => False
  end.
Proof.
  apply charges. clear. intros t n r Hl. unfold charge_line, countable. destruct (line_entry k r) as [e|] eqn:Ee; [|done]. destruct (bad_body r); [intros Hc; by destruct (Hc ltac:(done))|]. cbn [fst snd]. pose proof (charge_cases t e Hl) as Hc.
  assert (Hs : snd (fst e) = stream_of r) by (unfold line_entry in Ee; destruct (l_time r); [|done]; destruct (_ && _); [|done]; by injection Ee as <-). rewrite Hs in Hc. destruct (charge t e) as [t'|x|]; [destruct Hc as (-> & Hv & Hm); by split|destruct x; [intros Hf; by destruct (Hf ltac:(done))|done]|done].
Qed.

(** The rows of a rollup that are added. *)
Definition rolled_entry (k : Config) (only : gset Z) (e : RowKey * Cell) : option Counted := if in_rollup k only (fst (fst e)) then Some (counted e) else None.
Definition rolled_entries (k : Config) (only : gset Z) (u : Tally) : list Counted := flat_map (fun e => option_list (rolled_entry k only e)) u.
Definition rollable (k : Config) (only : gset Z) (e : RowKey * Cell) : Prop := cell_ok (fst (fst e)) (snd e) = true /\ (in_rollup k only (fst (fst e)) = true -> valid (key_stream (fst e))).

Lemma charge_rows k only u t n : room t ->
  match foldM (charge_entry k only) (t, n) u with
  | Ok (t', n') => t' = fold_left count (rolled_entries k only u) t /\ n' = n + len (rolled_entries k only u) /\ Forall (rollable k only) u /\ room t'
  | Err RFallback => ~ Forall (rollable k only) u
  | Err TooLarge => MAX_ROWS < len (fold_left count (rolled_entries k only u) t)
  | Fuel => False
  end.
Proof.
  apply charges. clear. intros t n e Hl. unfold charge_entry, rollable, rolled_entry. destruct (cell_ok _ _); [|by intros [? _]]. cbn [negb fst snd]. destruct (in_rollup k only (fst (fst e))); [|done]. pose proof (charge_cases t (counted e) Hl) as Hc. unfold counted in *. cbn [fst snd] in Hc.
  destruct (charge t _) as [t'|x|]; [destruct Hc as (-> & Hv & Hm); split; [done|by split]|destruct x; [intros [_ Hf]; by apply Hc, Hf|done]|done].
Qed.

(** * Whole rollups *)

(** A source of a rollup with what it holds: a segment with its lines, or
    another rollup with its rows and the buckets asked of it. *)
Inductive Source : Type :=
| Lines (file : File) (rows : list LogLine)
| Rolled (file : File) (buckets : list Z) (u : Tally).

Definition reads (s : Source) : Prop :=
  match s with
  | Lines file rows => exists batches, read_segment 8192 file = Some (map Some batches) /\ concat batches = rows
  | Rolled file _ u => (exists sources, write_rows schema (map stored_of u) (source_entry sources) = Some file) /\ Forall (fun e => cell_range (snd e)) u
  end.

Definition entries_of (k : Config) (s : Source) : list Counted :=
  match s with Lines _ rows => line_entries k rows | Rolled _ buckets u => rolled_entries k (list_to_set buckets) u end.
Definition fits (k : Config) (s : Source) : Prop :=
  match s with Lines _ rows => Forall (countable k) rows | Rolled _ buckets u => Forall (rollable k (list_to_set buckets)) u end.

Definition add_source (rollup : option Builder) (s : Source) : res RollupError Z * option Builder :=
  match s with Lines file _ => log_rollup_add rollup file true [] | Rolled file buckets _ => log_rollup_add rollup file false buckets end.

Fixpoint add_sources (rollup : option Builder) (l : list Source) : list (res RollupError Z) * option Builder :=
  match l with
  | [] => ([], rollup)
  | s :: l =>
      let '(a, rollup) := add_source rollup s in
      let '(rest, rollup) := add_sources rollup l in (a :: rest, rollup)
  end.

Lemma charge_segment_rows k t file batches : read_segment 8192 file = Some (map Some batches) -> charge_segment k t file = foldM (charge_line k) (t, 0) (concat batches).
Proof. intros E. unfold charge_segment. rewrite E. cbn [ok_or]. rewrite foldM_map. cbn [ok_or]. apply foldM_concat. Qed.

Lemma refines_room k b t : at_tally k b t -> room t.
Proof. intros [_ Hr]. split; [apply (r_ordered _ _ _ Hr)|apply (r_max _ _ _ Hr)]. Qed.

Lemma add_source_exact k b t s : at_tally k b t -> reads s ->
  match add_source (Some b) s with
  | (Ok n, Some b') => n = len (entries_of k s) /\ fits k s /\ at_tally k b' (fold_left count (entries_of k s) t)
  | (Err RFallback, None) => ~ fits k s
  | (Err TooLarge, None) => MAX_ROWS < len (fold_left count (entries_of k s) t)
  | _ => False
  end.
Proof.
  intros Hb Hs. pose proof (refines_room k b t Hb) as Hm. unfold add_source, log_rollup_add. destruct s as [file rows|file buckets u]; cbn [entries_of fits].
  - destruct Hs as (batches & Hread & <-). pose proof (add_segment_sim k b t file Hb) as Hsim. rewrite (charge_segment_rows k t file batches Hread) in Hsim. pose proof (charge_lines k (concat batches) t 0 Hm) as Hc.
    destruct (add_segment b file) as [[b' n]|e|], (foldM _ _ _) as [[t' n']|e'|]; try done; [|cbn in Hsim; by subst e']. cbn in Hsim. destruct Hsim as [Ha ->]. destruct Hc as (-> & -> & Hf & _). by split.
  - destruct Hs as [[sources Hw] _]. pose proof (add_rollup_sim k b t (list_to_set buckets) u sources file Hb Hw) as Hsim. pose proof (charge_rows k (list_to_set buckets) u t 0 Hm) as Hc.
    destruct (add_rollup b file _) as [[b' n]|e|], (foldM _ _ _) as [[t' n']|e'|]; try done; [|cbn in Hsim; by subst e']. cbn in Hsim. destruct Hsim as [Ha ->]. destruct Hc as (-> & -> & Hf & _). by split.
Qed.

Lemma add_none l : add_sources None l = (map (fun _ => Err RFallback) l, None).
Proof. induction l as [|s l IH]; [done|]. cbn [add_sources]. destruct s; cbn; by rewrite IH. Qed.

(** The outcome of adding sources to the rollup [t]. *)
Definition added (k : Config) (t : Tally) (l : list Source) (outcome : list (res RollupError Z) * option Builder) : Prop :=
  let ok := map (fun s => Ok (len (entries_of k s))) in
  match outcome with
  | (answers, Some b) => answers = ok l /\ Forall (fits k) l /\ at_tally k b (fold_left count (flat_map (entries_of k) l) t)
  | (answers, None) => exists good s bad e, l = good ++ s :: bad /\ answers = ok good ++ Err e :: map (fun _ => Err RFallback) bad /\
      match e with RFallback => ~ fits k s | TooLarge => MAX_ROWS < len (fold_left count (flat_map (entries_of k) (good ++ [s])) t) end
  end.

Lemma add_sources_exact k l : forall b t, at_tally k b t -> Forall reads l -> added k t l (add_sources (Some b) l).
Proof.
  induction l as [|s l IH]; intros b t Hb Hl; [cbn; by split|]. inversion Hl as [|? ? Hs Hl']; subst. cbn [add_sources]. pose proof (add_source_exact k b t s Hb Hs) as Ha. destruct (add_source (Some b) s) as [[n|e|] [b'|]]; try done; [|by destruct e|].
  - destruct Ha as (-> & Hf & Hb'). specialize (IH b' _ Hb' Hl'). destruct (add_sources (Some b') l) as [answers [b2|]]; cbn in IH |- *.
    + destruct IH as (-> & Hfs & Hb2). split; [done|]. split; [by constructor|]. by rewrite fold_left_app.
    + destruct IH as (good & s' & bad & e & -> & -> & He). exists (s :: good), s', bad, e. split; [done|]. split; [done|]. cbn. by rewrite fold_left_app.
  - rewrite add_none. cbn. exists [], s, l, e. split; [done|]. split; [done|]. cbn. rewrite app_nil_r. by destruct e.
Qed.

(** ** What the cells hold *)

Definition total (f : Cell -> Z) (es : list Counted) : Z := wrap_i64 (fold_right (fun e n => f (snd e) + n) 0 es).
Definition at_row (bucket : Z) (s : Stream) (e : Counted) : bool := bool_decide (fst e = (bucket, s)).

(** The sums over the entries, none for no entry. *)
Definition sum_cell (es : list Counted) : option Cell :=
  match es with [] => None | _ => Some (mkCell (total c_count es) (total c_bytes es) (total c_traced es)) end.

Lemma total_snoc f es e : total f (es ++ [e]) = wrap_i64 (total f es + f (snd e)).
Proof. unfold total. rewrite wrap_i64_l. f_equal. induction es as [|x es IH]; cbn; [lia|]. rewrite IH. lia. Qed.

Lemma sum_cell_snoc es e : Forall (fun e => cell_range (snd e)) (es ++ [e]) -> sum_cell (es ++ [e]) = Some (add_cells (default Cell_default (sum_cell es)) (snd e)).
Proof.
  intros Hr. apply Forall_app in Hr as [_ Hr]. inversion Hr as [|? ? He _]; subst. unfold sum_cell at 1. destruct (es ++ [e]) as [|x l] eqn:E; [by apply app_eq_nil in E as [_ ?]|]. rewrite <- E. clear E x l. f_equal.
  destruct He as (H1 & H2 & H3). rewrite !total_snoc. unfold add_cells. destruct es as [|x es]; [unfold total; cbn [fold_right sum_cell default]; change (from_option id Cell_default None) with Cell_default; cbn [c_count c_bytes c_traced Cell_default]; by rewrite !wrap_i64_l|done].
Qed.

Lemma counts_find es bucket s : Forall (fun e => cell_range (snd e)) es -> find (stream_key bucket s) (fold_left count es []) = sum_cell (List.filter (at_row bucket s) es).
Proof.
  intros Hr. induction es as [|[[b' s'] c] es IH] using rev_ind; [done|]. rewrite fold_left_app, List.filter_app. cbn [fold_left List.filter]. rewrite count_find. pose proof (proj1 (Forall_app _ _ _) Hr) as [Hr1 Hr2]. rewrite IH by done. change (at_row bucket s (b', s', c)) with (bool_decide ((b', s') = (bucket, s))). destruct (decide ((b', s') = (bucket, s))) as [E|E].
  - injection E as -> ->. rewrite !bool_decide_true by done. rewrite sum_cell_snoc; [done|]. apply Forall_app. split; [|done]. rewrite Forall_forall in *. intros x Hx. apply Hr1. by apply filter_In in Hx as [? _].
  - rewrite !bool_decide_false; [by rewrite app_nil_r|done|]. intros Hx. by apply stream_key_inj in Hx as [-> ->].
Qed.

(** ** The lines of a minute *)

Lemma minute_fold t b : forall m, find b (fold_left minute_step t m) = fold_left (fun a (e : Counted) => if fst (fst e) =? b then Some match a with Some n => wrap_i64 (n + (snd e).(c_count)) | None => (snd e).(c_count) end else a) (map counted t) (find b m).
Proof.
  induction t as [|e t IH]; intros m; [done|]. cbn [fold_left map]. rewrite IH. f_equal. unfold minute_step. rewrite find_put. cbn [counted fst snd]. destruct (Z.eqb_spec (fst (fst e)) b) as [->|Hn]; [by rewrite (proj2 (cmp_eq b b) eq_refl)|]. destruct (cmp (fst (fst e)) b) eqn:E; [by apply cmp_eq in E|done..].
Qed.

Definition in_minute (b : Z) (e : Counted) : bool := fst (fst e) =? b.
(** The lines of the entries, none for no entry. *)
Definition sum_lines (es : list Counted) : option Z := match es with [] => None | _ => Some (total c_count es) end.

Lemma sum_lines_snoc es e : cell_range (snd e) -> sum_lines (es ++ [e]) = Some match sum_lines es with Some n => wrap_i64 (n + (snd e).(c_count)) | None => (snd e).(c_count) end.
Proof.
  intros (He & _). unfold sum_lines at 1. destruct (es ++ [e]) as [|x l] eqn:E; [by apply app_eq_nil in E as [_ ?]|]. rewrite <- E, total_snoc. f_equal. destruct es; [|done]. unfold total. cbn [fold_right sum_lines]. by rewrite wrap_i64_l, Z.add_0_l, He.
Qed.

Lemma minute_totals_find es b : Forall (fun e => cell_range (snd e)) es -> find b (minute_totals (fold_left count es [])) = sum_lines (List.filter (in_minute b) es).
Proof.
  intros Hr. unfold minute_totals. rewrite minute_fold. set (act := fun (a : option Z) (e : Counted) => _). rewrite (counts_fold (fun _ => True) act); try done.
  - cbn [map fold_left find]. induction es as [|e es IH] using rev_ind; [done|]. apply Forall_app in Hr as [Hr1 Hr2]. rewrite fold_left_app, List.filter_app, IH by done. inversion Hr2 as [|? ? He _]; subst. cbn [fold_left List.filter]. change (in_minute b e) with (fst (fst e) =? b).
    unfold act. destruct (fst (fst e) =? b); [by rewrite sum_lines_snoc|by rewrite app_nil_r].
  - intros a x y _. unfold act. destruct (fst (fst x) =? b), (fst (fst y) =? b), a; try done; f_equal; [rewrite !wrap_i64_l; f_equal; lia|f_equal; lia].
  - intros a bucket s c d _. unfold act. cbn [fst snd c_count add_cells]. destruct (bucket =? b), a; try done. by rewrite wrap_i64_l, wrap_i64_r, Z.add_assoc.
  - constructor.
Qed.

Lemma line_entries_range k rows : Forall (fun e => cell_range (snd e)) (line_entries k rows).
Proof.
  induction rows as [|r rows IH]; [constructor|]. unfold line_entries. cbn [flat_map]. apply Forall_app. split; [|done]. unfold line_entry. destruct (l_time r); [|constructor]. destruct (_ && _); [|constructor]. constructor; [apply line_cell_range|constructor].
Qed.

Lemma rolled_entries_range k only u : Forall (fun e => cell_range (snd e)) u -> Forall (fun e => cell_range (snd e)) (rolled_entries k only u).
Proof.
  induction 1 as [|e u He Hu IH]; [constructor|]. unfold rolled_entries. cbn [flat_map]. apply Forall_app. split; [|done]. unfold rolled_entry. destruct (in_rollup _ _ _); [|constructor]. by constructor; [|constructor].
Qed.

Lemma entries_range k l : Forall reads l -> Forall (fun e => cell_range (snd e)) (flat_map (entries_of k) l).
Proof.
  induction 1 as [|s l Hs Hl IH]; [constructor|]. cbn [flat_map]. apply Forall_app. split; [|done]. destruct s; [apply line_entries_range|]. destruct Hs as [_ Hs]. by apply rolled_entries_range.
Qed.

(** The configuration of a new rollup. *)
Definition new_config (start end_ : Z) (buckets : list Z) : Config := mkConfig start end_ (if bool_decide (buckets = []) then None else Some (list_to_set buckets)).

Lemma new_at start end_ buckets : exists b, log_rollup_new start end_ buckets = Some b /\ at_tally (new_config start end_ buckets) b [].
Proof.
  unfold log_rollup_new, new_config, Builder_new. case_bool_decide; (eexists; split; [reflexivity|]; split; [done|apply new_refines]).
Qed.

(** C16. A log rollup is exact. Whatever segments and rollups are added to it, the
    answers count the rows that were added, and the file that is written has one
    row per minute and stream in order, holding the exact sums over those rows,
    with the exact number of lines of every minute; an error comes exactly from a
    source whose rows do not count natively, or from more rows than allowed, and
    ends the rollup. *)
Theorem rollup_exact (start end_ : Z) (buckets : list Z) (l : list Source) (names : list bytes) : Forall reads l ->
  let k := new_config start end_ buckets in
  let es := flat_map (entries_of k) l in
  let t := fold_left count es [] in
  added k [] l (add_sources (log_rollup_new start end_ buckets) l) /\
  (forall answers b, add_sources (log_rollup_new start end_ buckets) l = (answers, Some b) ->
     log_rollup_finish (Some b) names = (let? file := ok_or (write_rows schema (map stored_of t) (source_entry names)) RFallback in Ok (mkFinished file (len t) (minute_totals t)), None)) /\
  ordered t /\ (forall bucket s, find (stream_key bucket s) t = sum_cell (List.filter (at_row bucket s) es)) /\
  ordered (minute_totals t) /\ forall bucket, find bucket (minute_totals t) = sum_lines (List.filter (in_minute bucket) es).
Proof.
  intros Hl k es t. destruct (new_at start end_ buckets) as (b0 & -> & Hb0). pose proof (add_sources_exact k l b0 [] Hb0 Hl) as Ha. pose proof (entries_range k l Hl) as Hr. split; [done|]. split.
  - intros answers b E. rewrite E in Ha. destruct Ha as (_ & _ & _ & Hb). cbn [log_rollup_finish]. by rewrite (finish_exact b t names Hb).
  - split; [apply counts_ordered; constructor|]. split; [intros; by apply counts_find|]. split; [apply (fold_inv ordered); [constructor|intros; by apply put_ordered]|]. intros bucket. by apply minute_totals_find.
Qed.

(** * Rollups of rollups *)

(** A time far enough from the ends of the range of integers. *)
Definition safe_time (r : LogLine) : Prop := match r.(l_time) with Some ts => I64_MIN + 2 * BUCKET_NS <= ts <= I64_MAX - 2 * BUCKET_NS | None => True end.
(** A range of whole minutes. *)
Definition whole_minutes (k : Config) : Prop := k.(k_start) mod BUCKET_NS = 1 /\ k.(k_end) mod BUCKET_NS = 0.
(** Everything [k] counts, [k'] counts. *)
Definition covers (k k' : Config) : Prop := k'.(k_start) <= k.(k_start) /\ k.(k_end) <= k'.(k_end) /\ forall bucket, admits k bucket = true -> admits k' bucket = true.

Lemma bucket_end_spec ts : I64_MIN + 2 * BUCKET_NS <= ts <= I64_MAX - 2 * BUCKET_NS -> bucket_end ts mod BUCKET_NS = 0 /\ bucket_end ts - BUCKET_NS < ts <= bucket_end ts.
Proof.
  intros Ht. assert (Hm : bucket_end ts mod BUCKET_NS = 0); [|split; [done|by apply (bucket_end_exact ts _ Ht Hm)]].
  unfold I64_MIN, I64_MAX, BUCKET_NS in Ht. unfold bucket_end, sat_i64, BUCKET_NS, I64_MIN, I64_MAX. replace (Z.max _ _) with (ts - 1) by lia. rewrite wrap_i64_l, wrap_i64_id by (unfold I64_MIN, I64_MAX; dlia). dlia.
Qed.

Lemma in_rollup_line k ts : whole_minutes k -> I64_MIN + 2 * BUCKET_NS <= ts <= I64_MAX - 2 * BUCKET_NS -> in_rollup k ∅ (bucket_end ts) = (k.(k_start) <=? ts) && (ts <=? k.(k_end)) && admits k (bucket_end ts).
Proof.
  intros [Hs He] Ht. destruct (bucket_end_spec ts Ht) as [Hm Hb]. unfold in_rollup. rewrite bool_decide_true by done. cbn [orb]. rewrite andb_true_r. rewrite wrap_i64_l. unfold BUCKET_NS, I64_MIN, I64_MAX in *. rewrite wrap_i64_id by (unfold I64_MIN, I64_MAX; lia). f_equal. apply eq_true_iff_eq. rewrite !andb_true_iff, negb_true_iff, Z.ltb_ge, !Z.leb_le. dlia.
Qed.

(** Counting what lies in range. *)
Definition count_in (k : Config) (t : Tally) (e : Counted) : Tally := if in_rollup k ∅ (fst (fst e)) then count t e else t.

Lemma count_in_line k k' r t : whole_minutes k -> covers k k' -> safe_time r -> fold_left (count_in k) (option_list (line_entry k' r)) t = fold_left count (option_list (line_entry k r)) t.
Proof.
  intros Hm (C1 & C2 & C3) Ht. unfold safe_time in Ht. unfold line_entry. destruct (l_time r) as [ts|]; [|done]. pose proof (in_rollup_line k ts Hm Ht) as Hin. destruct ((k_start k <=? ts) && (ts <=? k_end k) && admits k (bucket_end ts)) eqn:E.
  - apply andb_true_iff in E as [E E3]. apply andb_true_iff in E as [E1 E2]. replace ((k_start k' <=? ts) && (ts <=? k_end k') && admits k' (bucket_end ts)) with true by (symmetry; rewrite (C3 _ E3), andb_true_r; bools; lia). cbn. unfold count_in. cbn. by rewrite Hin.
  - clear E. destruct (_ && _ && _); cbn; [|reflexivity]. unfold count_in. cbn. by rewrite Hin.
Qed.

Lemma count_in_lines k k' rows : whole_minutes k -> covers k k' -> Forall safe_time rows -> forall t, fold_left (count_in k) (line_entries k' rows) t = fold_left count (line_entries k rows) t.
Proof.
  intros Hm Hc. induction 1 as [|r rows Hr Hrs IH]; intros t; [done|]. unfold line_entries in *. cbn [flat_map]. rewrite !fold_left_app, IH. f_equal. by apply count_in_line.
Qed.

Lemma rolled_count_in k u t : fold_left count (rolled_entries k ∅ u) t = fold_left (count_in k) (map counted u) t.
Proof.
  revert t. induction u as [|e u IH]; intros t; [done|]. unfold rolled_entries in *. cbn [flat_map map fold_left]. rewrite fold_left_app, IH. f_equal. unfold rolled_entry, count_in. cbn [counted fst]. by destruct (in_rollup _ _ _).
Qed.

(** Adding the rollup of lines is adding the lines. *)
Lemma rolled_lines k k' rows t : whole_minutes k -> covers k k' -> Forall safe_time rows -> ordered t ->
  fold_left count (rolled_entries k ∅ (fold_left count (line_entries k' rows) [])) t = fold_left count (line_entries k rows) t.
Proof.
  intros Hm Hc Hs Ho. rewrite rolled_count_in. rewrite (counts_fold ordered (count_in k)).
  - cbn [map fold_left]. by apply count_in_lines.
  - intros a e Ha. unfold count_in. case_match; [by apply count_ordered|done].
  - intros a x y Ha. unfold count_in. destruct (in_rollup k ∅ (fst (fst x))), (in_rollup k ∅ (fst (fst y))); try done. by apply count_comm.
  - intros a bucket s c d Ha. unfold count_in. cbn [fst]. case_match; [by apply count_adds|done].
  - apply line_entries_range.
  - constructor.
  - done.
Qed.

(** ** The cells of lines *)

Definition weigh (rows : list LogLine) : Z := fold_right (fun r n => len (line_of r) + n) 0 rows.
(** As many bytes as an integer holds. *)
Definition small (rows : list LogLine) : Prop := len rows <= I64_MAX /\ weigh rows <= I64_MAX.

Lemma line_weight_nonneg rows : 0 <= weigh rows.
Proof. induction rows as [|r rows IH]; [done|]. change (weigh (r :: rows)) with (len (line_of r) + weigh rows). pose proof (len_nonneg (line_of r)). lia. Qed.

Lemma line_entry_case k r : option_list (line_entry k r) = [] \/ exists ts, r.(l_time) = Some ts /\ option_list (line_entry k r) = [(bucket_end ts, stream_of r, line_cell r)].
Proof. unfold line_entry. destruct (l_time r) as [ts|]; [|by left]. destruct (_ && _ && _); [right; by exists ts|by left]. Qed.

(** The sums of some of the entries of lines. *)
Lemma line_sums k (f : Counted -> bool) rows : small rows -> let l := List.filter f (line_entries k rows) in
  let sum g := fold_right (fun (e : Counted) n => g (snd e) + n) 0 l in
  sum c_count = len l /\ len l <= len rows /\ 0 <= sum c_bytes <= weigh rows /\ 0 <= sum c_traced <= len l.
Proof.
  intros Hs. induction rows as [|r rows IH]; [cbn; split_and!; done|]. assert (Hs' : small rows) by (destruct Hs as [H1 H2]; change (weigh (r :: rows)) with (len (line_of r) + weigh rows) in H2; rewrite len_cons in H1; pose proof (len_nonneg (line_of r)); split; lia). specialize (IH Hs'). cbv zeta in *. unfold line_entries in *. cbn [flat_map]. rewrite List.filter_app, len_cons.
  change (weigh (r :: rows)) with (len (line_of r) + weigh rows). pose proof (len_nonneg (line_of r)). destruct (line_entry_case k r) as [->|(ts & _ & ->)]; cbn [List.filter app]; [lia|]. destruct (f _); cbn [app fold_right snd]; [|lia]. rewrite len_cons. cbn [line_cell c_count c_bytes c_traced].
  assert (Hl : wrap_i64 (len (line_of r)) = len (line_of r)) by (apply wrap_i64_id; destruct Hs as [_ Hs]; change (weigh (r :: rows)) with (len (line_of r) + weigh rows) in Hs; pose proof (line_weight_nonneg rows); unfold I64_MIN; lia). rewrite Hl. assert (0 <= Z.b2z (has_value (l_trace r) || has_value (l_span r)) <= 1) by (destruct (_ || _); cbn; lia). lia.
Qed.

Lemma line_entries_in k rows e : e ∈ line_entries k rows -> exists r ts, r ∈ rows /\ r.(l_time) = Some ts /\ line_entry k r = Some e /\ e = (bucket_end ts, stream_of r, line_cell r).
Proof.
  unfold line_entries. rewrite list_elem_of_In, in_flat_map. intros (r & Hr & He). exists r. unfold line_entry in *. destruct (l_time r) as [ts|]; [|done]. exists ts. destruct (_ && _ && _); [|done]. cbn in He. destruct He as [<-|[]]. by split; [apply list_elem_of_In|].
Qed.

Lemma lines_rollable k k' rows : Forall safe_time rows -> small rows -> Forall (countable k') rows -> Forall (rollable k ∅) (fold_left count (line_entries k' rows) []).
Proof.
  intros Ht Hs Hc. set (u := fold_left _ _ _). assert (Ho : ordered u) by (apply counts_ordered; constructor). apply Forall_forall. intros [rk c] Hin. apply list_elem_of_In, (find_iff _ _ _ Ho) in Hin. rewrite <- (key_stream_key rk) in Hin. rewrite (counts_find _ _ _ (line_entries_range k' rows)) in Hin.
  pose proof (line_sums k' (at_row (fst rk) (key_stream rk)) rows Hs) as Hl. cbv zeta in Hl. destruct (List.filter _ _) as [|e l] eqn:El; [done|]. unfold sum_cell in Hin. injection Hin as <-. assert (He : In e (List.filter (at_row (fst rk) (key_stream rk)) (line_entries k' rows))) by (rewrite El; by left).
  apply filter_In in He as [He Hrow]. apply bool_decide_eq_true in Hrow. apply list_elem_of_In, line_entries_in in He as (r & ts & Hr & Hts & Hent & ->). cbn in Hrow. injection Hrow as Hb Hst. rewrite Forall_forall in Ht, Hc. split; cbn [fst snd].
  - unfold cell_ok, total. cbn [c_count c_bytes c_traced]. destruct Hs as [Hs1 Hs2]. rewrite len_cons in Hl. pose proof (len_nonneg l). rewrite !wrap_i64_id by (unfold I64_MIN in *; lia). specialize (Ht r ltac:(by apply list_elem_of_In)). unfold safe_time in Ht. rewrite Hts in Ht. destruct (bucket_end_spec ts Ht) as [Hm _]. rewrite <- Hb, Hm. bools; lia.
  - intros _. rewrite <- Hst. apply (Hc r); [by apply list_elem_of_In|by rewrite Hent].
Qed.

(** Segments that were rolled up on their own. *)
Record Part : Type := mkPart { p_start : Z; p_end : Z; p_segments : list (File * list LogLine); p_rollup : File }.
Definition part_sources (p : Part) : list Source := map (fun '(file, rows) => Lines file rows) p.(p_segments).
Definition part_rows (p : Part) : list LogLine := flat_map snd p.(p_segments).
Definition part_tally (p : Part) : Tally := fold_left count (line_entries (new_config p.(p_start) p.(p_end) []) (part_rows p)) [].

Definition rolled_up (p : Part) : Prop := exists answers b fin,
  add_sources (log_rollup_new p.(p_start) p.(p_end) []) (part_sources p) = (answers, Some b) /\ log_rollup_finish (Some b) [] = (Ok fin, None) /\ fin.(payload) = p.(p_rollup).

(** A part that covers the range, of lines that fit an integer. *)
Record part_ok (start end_ : Z) (p : Part) : Prop := mkPartOk {
  p_reads : Forall reads (part_sources p);
  p_rolled : rolled_up p;
  p_covers : p.(p_start) <= start /\ end_ <= p.(p_end);
  p_times : Forall safe_time (part_rows p);
  p_small : small (part_rows p)
}.

Definition rolled_source (p : Part) : Source := Rolled p.(p_rollup) [] (part_tally p).

Lemma segments_entries k (l : list (File * list LogLine)) : flat_map (entries_of k) (map (fun '(file, rows) => Lines file rows) l) = line_entries k (flat_map snd l).
Proof. unfold line_entries. induction l as [|[file rows] l IH]; [done|]. cbn [map flat_map entries_of snd]. by rewrite IH, flat_map_app. Qed.

Lemma part_entries k p : flat_map (entries_of k) (part_sources p) = line_entries k (part_rows p).
Proof. apply segments_entries. Qed.

Lemma fits_rows k (l : list (File * list LogLine)) : Forall (fits k) (map (fun '(file, rows) => Lines file rows) l) -> Forall (countable k) (flat_map snd l).
Proof. induction l as [|[file rows] l IH]; intros Hf; [constructor|]. inversion Hf; subst. cbn [flat_map snd]. apply Forall_app. split; [done|by apply IH]. Qed.

Lemma part_written start end_ p : part_ok start end_ p -> reads (rolled_source p) /\ Forall (countable (new_config p.(p_start) p.(p_end) [])) (part_rows p).
Proof.
  intros [Hr (answers & b & fin & Ea & Ef & Hp) _ _ _]. destruct (new_at (p_start p) (p_end p) []) as (b0 & Hn & Hb0). rewrite Hn in Ea. pose proof (add_sources_exact _ _ b0 [] Hb0 Hr) as Ha. rewrite Ea in Ha. destruct Ha as (_ & Hfit & Hb). rewrite part_entries in Hb. split; [|by apply fits_rows].
  cbn [log_rollup_finish] in Ef. rewrite (finish_exact b _ [] (proj2 Hb)) in Ef. split.
  - exists []. fold (part_tally p) in Ef. destruct (write_rows _ _ _) as [file|]; [|done]. cbn in Ef. injection Ef as <-. cbn in Hp. by rewrite Hp.
  - unfold part_tally. assert (Ho : ordered (fold_left count (line_entries (new_config (p_start p) (p_end p) []) (part_rows p)) [])) by (apply counts_ordered; constructor). apply Forall_forall. intros [rk c] Hin. apply list_elem_of_In, (find_iff _ _ _ Ho) in Hin. rewrite <- (key_stream_key rk), (counts_find _ _ _ (line_entries_range _ _)) in Hin. unfold sum_cell in Hin. destruct (List.filter _ _); [done|]. injection Hin as <-. unfold cell_range, total. cbn. by rewrite !wrap_i64_twice.
Qed.

Lemma part_fits start end_ buckets p : part_ok start end_ p -> fits (new_config start end_ buckets) (rolled_source p).
Proof.
  intros Hp. destruct (part_written _ _ _ Hp) as [_ Hc]. destruct Hp as [_ _ _ Ht Hs]. apply lines_rollable; done.
Qed.

Lemma parts_tally start end_ buckets parts : whole_minutes (new_config start end_ buckets) -> Forall (part_ok start end_) parts -> forall t, ordered t ->
  fold_left count (flat_map (entries_of (new_config start end_ buckets)) (map rolled_source parts)) t = fold_left count (flat_map (entries_of (new_config start end_ buckets)) (flat_map part_sources parts)) t.
Proof.
  intros Hm. induction 1 as [|p parts Hp Hps IH]; intros t Ho; [done|]. cbn [map flat_map]. rewrite flat_map_app, !fold_left_app. rewrite part_entries. destruct Hp as [_ _ [C1 C2] Ht _]. rewrite IH by by apply counts_ordered. f_equal. apply rolled_lines; try done.
Qed.

(** C17. Rollups compose: rolling up the rollups of the parts writes the same file
    as rolling up all their lines, for a range of whole minutes that every part
    covers. *)
Theorem rollup_of_rollups (start end_ : Z) (buckets : list Z) (parts : list Part) (names : list bytes) (answers : list (res RollupError Z)) (b : Builder) :
  whole_minutes (new_config start end_ buckets) -> Forall (part_ok start end_) parts ->
  add_sources (log_rollup_new start end_ buckets) (flat_map part_sources parts) = (answers, Some b) ->
  exists answers' b', add_sources (log_rollup_new start end_ buckets) (map rolled_source parts) = (answers', Some b') /\ log_rollup_finish (Some b') names = log_rollup_finish (Some b) names.
Proof.
  intros Hm Hp E. set (k := new_config start end_ buckets) in *. destruct (new_at start end_ buckets) as (b0 & Hn & Hb0). rewrite Hn in *. assert (Hr : Forall reads (flat_map part_sources parts)) by (clear -Hp; induction Hp as [|p parts [Hr _ _ _ _] _ IH]; [constructor|]; cbn; by apply Forall_app).
  pose proof (add_sources_exact k _ b0 [] Hb0 Hr) as Ha. rewrite E in Ha. destruct Ha as (_ & _ & Hb). assert (Hr' : Forall reads (map rolled_source parts)) by (clear -Hp; induction Hp as [|p parts Hp _ IH]; [constructor|]; constructor; [by eapply part_written|done]).
  assert (Hf : Forall (fits k) (map rolled_source parts)) by (clear -Hp; induction Hp as [|p parts Hp _ IH]; [constructor|]; constructor; [by apply part_fits|done]). pose proof (parts_tally start end_ buckets parts Hm Hp [] ltac:(constructor)) as Ht. fold k in Ht.
  pose proof (add_sources_exact k _ b0 [] Hb0 Hr') as Ha. destruct (add_sources (Some b0) (map rolled_source parts)) as [answers' [b'|]].
  - destruct Ha as (_ & _ & Hb'). exists answers', b'. split; [done|]. cbn [log_rollup_finish]. rewrite Ht in Hb'. by rewrite (finish_exact b' _ names (proj2 Hb')), (finish_exact b _ names (proj2 Hb)).
  - destruct Ha as (good & s & bad & e & Hl & _ & He). rewrite Hl in Hf, Ht. destruct e; [apply Forall_app in Hf as [_ Hf]; by inversion Hf|]. pose proof (refines_room _ _ _ Hb) as [_ Hroom]. rewrite <- Ht in Hroom. change (s :: bad) with ([s] ++ bad) in Hroom. rewrite app_assoc, flat_map_app, fold_left_app in Hroom.
    pose proof (counts_len (flat_map (entries_of k) bad) (fold_left count (flat_map (entries_of k) (good ++ [s])) [])). lia.
Qed.
End Rollup.

(** * Lines of two minutes *)
Module RollupSample.

(** A file is what it holds. *)
Inductive File : Type := Segment (rows : list LogLine) | Rollup (o : Opened).

#[global] Program Instance parquet : Parquet File := {|
  write_rows s rows kv := Some (Rollup (mkOpened s (kv ++ [(str "ARROW:schema", Some [])]) [Some rows]));
  open_rollup _ file := match file with Rollup o => Some o | Segment _ => None end;
  read_segment _ file := match file with Segment rows => Some [Some rows] | Rollup _ => None end;
  ARROW_KEY := str "ARROW:schema"
|}.
Next Obligation. done. Qed.
Next Obligation.
  intros s rows kv file size _ [= <-]. exists [(str "ARROW:schema", Some [])], [rows]. split; [done|]. split; [apply app_nil_r|by constructor; [|constructor]].
Qed.
Next Obligation.
  intros [rows|o] m n batches _ _ E; [|done]. exists [rows]. split; [done|]. destruct batches as [|b [|]]; try done. by injection E as <-.
Qed.

Definition resource : bytes := [123; 34] ++ str "app" ++ [34; 58; 34] ++ str "web" ++ [34; 125].
Definition body : bytes := [34] ++ str "hello" ++ [34].
Definition line (ts : Z) (trace : option bytes) : LogLine := mkLogLine (Some ts) (Some (str "api")) None (Some body) None (Some resource) trace None.
Definition rows : list LogLine := [line 30000000000 None; line 60000000000 None].
Definition more : list LogLine := [line 60000000001 (Some (str "abc")); mkLogLine None None None None None None None None].
Definition stream : Stream := mkStream resource [] (Some (str "api")) None.

Definition built (start end_ : Z) (l : list Source) : list (res RollupError Z) * Builder :=
  match add_sources (log_rollup_new start end_ []) l with (a, Some b) => (a, b) | (a, None) => (a, Builder_new start end_) end.
Definition finished (start end_ : Z) (l : list Source) : Finished :=
  match finish (snd (built start end_ l)) [] with Ok fin => fin | _ => mkFinished (Segment []) 0 [] end.
Definition part (l : list LogLine) : Part := mkPart 1 180000000000 [(Segment l, l)] (payload (finished 1 180000000000 [Lines (Segment l) l])).
End RollupSample.

Import RollupSample.

Lemma rollup_exact_witness : let l := [Lines (Segment rows) rows; Lines (Segment more) more] in
  Forall reads l /\ fst (add_sources (log_rollup_new 1 120000000000 []) l) = [Ok 2; Ok 1] /\ minute_totals (fold_left count (flat_map (entries_of (new_config 1 120000000000 [])) l) []) = [(60000000000, 2); (120000000000, 1)] /\
  find (stream_key 120000000000 stream) (fold_left count (flat_map (entries_of (new_config 1 120000000000 [])) l) []) = Some (mkCell 1 5 1).
Proof.
  intros l. assert (Hl : Forall reads l) by (repeat constructor; [exists [rows]|exists [more]]; split; done). pose proof (rollup_exact 1 120000000000 [] l [] Hl) as (_ & _ & _ & Hcell & _). split; [exact Hl|]. split; [vm_compute; reflexivity|]. split; [vm_compute; reflexivity|]. rewrite Hcell. vm_compute. reflexivity.
Defined.

(** The sample rollups are built and finished. *)
Definition works (start end_ : Z) (l : list Source) : bool :=
  match add_sources (log_rollup_new start end_ []) l with (_, Some b) => match finish b [] with Ok _ => true | _ => false end | _ => false end.

Lemma works_built start end_ l : works start end_ l = true -> add_sources (log_rollup_new start end_ []) l = (fst (built start end_ l), Some (snd (built start end_ l))) /\ finish (snd (built start end_ l)) [] = Ok (finished start end_ l).
Proof. unfold works, finished, built. destruct (add_sources _ l) as [a [b|]]; [|done]. cbn [fst snd]. by destruct (finish b []). Qed.

Lemma sample_part l : works 1 180000000000 [Lines (Segment l) l] = true -> Forall safe_time l -> small l -> part_ok 1 120000000000 (part l).
Proof.
  intros Hw Ht Hs. destruct (works_built _ _ _ Hw) as [Ha Hf]. constructor; cbn; [constructor; [exists [l]; split; [done|apply app_nil_r]|constructor]| |lia|by rewrite app_nil_r|by rewrite app_nil_r].
  eexists _, _, _. split; [exact Ha|]. split; [cbn [log_rollup_finish]; by rewrite Hf|done].
Qed.

Lemma part_rows_ok : part_ok 1 120000000000 (part rows) /\ part_ok 1 120000000000 (part more).
Proof.
  split; (apply sample_part; [vm_compute; reflexivity|repeat constructor; vm_compute; done|split; vm_compute; done]).
Qed.

Lemma rollup_of_rollups_witness : Forall (part_ok 1 120000000000) [part rows; part more] /\
  exists answers' b', add_sources (log_rollup_new 1 120000000000 []) (map rolled_source [part rows; part more]) = (answers', Some b') /\
    log_rollup_finish (Some b') [] = (Ok (finished 1 120000000000 [Lines (Segment rows) rows; Lines (Segment more) more]), None).
Proof.
  assert (Hp : Forall (part_ok 1 120000000000) [part rows; part more]) by (destruct part_rows_ok; constructor; [assumption|constructor; [assumption|constructor]]). split; [exact Hp|].
  destruct (works_built 1 120000000000 [Lines (Segment rows) rows; Lines (Segment more) more] ltac:(vm_compute; reflexivity)) as [Hb Hd].
  destruct (rollup_of_rollups 1 120000000000 [] [part rows; part more] [] (fst (built 1 120000000000 [Lines (Segment rows) rows; Lines (Segment more) more])) (snd (built 1 120000000000 [Lines (Segment rows) rows; Lines (Segment more) more])) ltac:(split; vm_compute; reflexivity) Hp Hb) as (answers' & b' & Ha & Hf).
  exists answers', b'. split; [exact Ha|]. rewrite Hf. cbn [log_rollup_finish]. by rewrite Hd.
Defined.
