(* ===== verification/LogMetric.v ===== *)
(** Log metric scans (log_metric.rs): the state that reduces log lines to samples
    of series, fed by segments and by rollups, and the answer it packs. *)

From stdpp Require Import gmap.
From S2P Require Import Patterns.
From S2P Require Import Prelude Utf8 External Float64 OrdMap QueryFilter LogLabels LogRollup.

Inductive Value : Type := VCount | VBytes | VUnwrap (label : bytes).
Inductive Grouping : Type := All | By (names : list bytes) | Without (names : list bytes).

Abbreviation SeriesKey := (list (bytes * bytes)).
Abbreviation Bins := (gmap SeriesKey (gmap Z Z)).

Record State : Type := mkState {
  stages : list Stage; value : Value; drop_label : option bytes; drop_errors : bool; grouping : Grouping;
  series : gmap SeriesKey (list (Z * Sample)); samples : Z; max_samples : Z; patterns : option Miner; bins : option Bins
}.

Record Window : Type := mkWindow { w_start : Z; w_end : Z; w_select : Selection; line_filters : list LineFilter }.

(** [log_metric_scan_new], [log_metric_binned_new] and [log_pattern_scan_new]
    from decoded arguments. *)
Definition scan_new (stages : list Stage) (value : Value) (drop_errors : bool) (drop_label : option bytes) (grouping : Grouping) (max_samples : Z) : State :=
  mkState stages value drop_label drop_errors grouping ∅ 0 max_samples None None.
Definition binned_new (value : Value) (grouping : Grouping) (max_samples : Z) : State :=
  mkState [] value None false grouping ∅ 0 max_samples None (Some ∅).
Definition pattern_new (start step : Z) : State :=
  mkState [] VCount None false All ∅ 0 U64_MAX (Some (Miner_new start step)) None.

Definition set_bins (st : State) (m : Bins) (n : Z) : State :=
  mkState st.(stages) st.(value) st.(drop_label) st.(drop_errors) st.(grouping) st.(series) n st.(max_samples) st.(patterns) (Some m).
Definition set_series (st : State) (m : gmap SeriesKey (list (Z * Sample))) (n : Z) : State :=
  mkState st.(stages) st.(value) st.(drop_label) st.(drop_errors) st.(grouping) m n st.(max_samples) st.(patterns) st.(bins).
Definition set_patterns (st : State) (m : Miner) : State :=
  mkState st.(stages) st.(value) st.(drop_label) st.(drop_errors) st.(grouping) st.(series) st.(samples) st.(max_samples) (Some m) st.(bins).

(** * Observing a line *)

Definition in_group (g : Grouping) (k : bytes) : bool :=
  match g with
  | All => true
  | By names => existsb (fun n => bytes_eqb n k) names
  | Without names => negb (existsb (fun n => bytes_eqb n k) names)
  end.

Definition in_key (st : State) (k : bytes) : bool := negb (bool_decide (st.(drop_label) = Some k)) && in_group st.(grouping) k.
Definition key (st : State) (m : Labels) : SeriesKey := List.filter (fun e => in_key st (fst e)) m.

(** Each distinct series and bucket counts once against the budget. *)
Definition add_bin (st : State) (k : SeriesKey) (bucket amount : Z) : Res State :=
  let? bins := ok_or st.(bins) Fallback in
  let s := default ∅ (bins !! k) in
  match s !! bucket with
  | Some v => Ok (set_bins st (<[k := <[bucket := wrap_i64 (v + amount)]> s]> bins) st.(samples))
  | None =>
      let n := wrap_u64 (st.(samples) + 1) in
      if st.(max_samples) <? n then Err Limit else Ok (set_bins st (<[k := <[bucket := amount]> s]> bins) n)
  end.

Definition nonempty (v : option bytes) : option bytes := match v with Some (_ :: _) => v | _ => None end.
Definition line_size (line : bytes) : Res Z := ok_or (checked_i64 (len line)) Fallback.

(** The sample of a line outside binned scans. *)
Definition push_sample (st : State) (ts : Z) (sample : Sample) (m : Labels) : Res (State * bool) :=
  let k := key st m in
  let n := wrap_u64 (st.(samples) + 1) in
  if st.(max_samples) <? n then Err Limit
  else Ok (set_series st (<[k := default [] (st.(series) !! k) ++ [(ts, sample)]]> st.(series)) n, true).

Definition F64_ONE : Z := 0x3FF0000000000000.

Definition observe (st : State) (ts : Z) (line : bytes) (m : Labels) : Res (State * bool) :=
  let unwrapped := match st.(value) with VUnwrap name => nonempty (find name m) | _ => None end in
  if match st.(value) with VUnwrap _ => bool_decide (unwrapped = None) | _ => false end then Ok (st, false)
  else if has_value (find ERROR m) then if st.(drop_errors) then Ok (st, false) else Err Pipeline
  else if bool_decide (is_Some st.(bins)) then
    let? amount := match st.(value) with VBytes => line_size line | _ => Ok 1 end in
    let? st := add_bin st (key st m) (bucket_end ts) amount in
    Ok (st, true)
  else
    let? sample :=
      match st.(value) with
      | VCount => Ok (SFloat F64_ONE)
      | VBytes => let? n := line_size line in Ok (SInt n)
      | VUnwrap _ => unwrap_value unwrapped
      end in
    match sample with
    | SError => if st.(drop_errors) then Ok (st, false) else push_sample st ts sample m
    | _ => push_sample st ts sample m
    end.

(** * Segments *)

Abbreviation StreamKey := (bytes * bytes * option bytes * option bytes * option bytes * option bytes)%type.
Abbreviation Bases := (gmap StreamKey EntryLabels).

(** The labels of a line, built once per batch. *)
Definition base_of (bases : Bases) (r : LogLine) : Res (Bases * EntryLabels) :=
  let res := default [] r.(l_resource) in
  let attrs := default [] r.(l_attributes) in
  let k := (res, attrs, r.(l_service), r.(l_level), r.(l_trace), r.(l_span)) in
  match bases !! k with
  | Some base => Ok (bases, base)
  | None =>
      let? base := entry_labels res attrs r.(l_service) r.(l_level) r.(l_trace) r.(l_span) in
      Ok (<[k := base]> bases, base)
  end.

(** [Option<bool>] as its answer: the walker of the selection has fuel. *)
Definition is_selected (w : Window) (r : LogLine) : Res bool :=
  match selected w.(w_select) (default [] r.(l_resource)) r.(l_service) r.(l_level) with
  | Ok b => Ok b
  | Err _ => Ok false
  | Fuel => Fuel
  end.

Abbreviation Scanning := (State * Bases * Z * Z)%type.

Definition scan_row (w : Window) (acc : Scanning) (r : LogLine) : Res Scanning :=
  let '(st, bases, chosen, kept) := acc in
  match r.(l_time) with
  | None => Ok acc
  | Some ts =>
      if (ts <? w.(w_start)) || (w.(w_end) <? ts) then Ok acc
      else
        let? wanted := is_selected w r in
        if negb wanted then Ok acc
        else if negb (forallb (fun f => matches f (line_of r)) w.(line_filters)) then Ok acc
        else
          match st.(patterns) with
          | Some miner =>
              match train miner ts (line_of r) with
              | Ok miner => Ok (set_patterns st miner, bases, chosen + 1, kept + 1)
              | Err _ => Err Panic
              | Fuel => Fuel
              end
          | None =>
              if bad_body r then Err Fallback
              else
                let? (bases, base) := base_of bases r in
                let? labels := pipeline st.(stages) (line_of r) base in
                match labels with
                | Some m => let? (st, kept_one) := observe st ts (line_of r) m in Ok (st, bases, chosen + 1, kept + Z.b2z kept_one)
                | None => Ok (st, bases, chosen + 1, kept)
                end
          end
  end.

(** What the visitor of a rollup captures: the scan, the keys of the streams it
    has seen and the rows; an error comes with the failure that was recorded. *)
Abbreviation Visiting := (State * gmap Stream (option SeriesKey) * Z)%type.

Section Scan.
Context {File : Type} `{Parquet File}.

Definition scan_batch (w : Window) (acc : State * Z * Z) (batch : option (list LogLine)) : Res (State * Z * Z) :=
  let '(st, chosen, kept) := acc in
  let? rows := ok_or batch Fallback in
  let? (st, _, chosen, kept) := foldM (scan_row w) (st, ∅, chosen, kept) rows in
  Ok (st, chosen, kept).

Definition scan (st : State) (file : File) (w : Window) : Res (State * Z * Z) :=
  let? batches := ok_or (read_segment 4096 file) Fallback in
  foldM (scan_batch w) (st, 0, 0) batches.

(** * Rollups *)

(** Whether series keys can never hold the identifiers of a line. *)
Definition drops_ids (st : State) : bool :=
  match st.(grouping) with
  | By names => negb (existsb (fun n => bool_decide (n ∈ ID_NAMES)) names)
  | _ => false
  end.

Definition rollup_key (st : State) (s : Stream) (w : Window) : Res (option SeriesKey) :=
  match selected w.(w_select) s.(s_resource) s.(s_service) s.(s_level) with
  | Ok false | Err _ => Ok None
  | Ok true =>
      let? base := entry_labels s.(s_resource) s.(s_attributes) s.(s_service) s.(s_level) None None in
      if has_value (find ERROR base.(labels)) then Err Pipeline else Ok (Some (key st base.(labels)))
  | Fuel => Fuel
  end.

Definition visit_row (buckets : gset Z) (w : Window) (acc : Visiting) (bucket : Z) (s : Stream) (c : Cell) : res (RollupError * option Error) Visiting :=
  let '(st, keys, rows) := acc in
  if negb (bool_decide (bucket ∈ buckets)) then Ok acc
  else
    let rows := rows + 1 in
    if (0 <? c.(c_traced)) && negb (drops_ids st) then Err (RFallback, None)
    else
      let? (keys, k) :=
        match keys !! s with
        | Some k => Ok (keys, k)
        | None =>
            match rollup_key st s w with
            | Ok k => Ok (<[s := k]> keys, k)
            | Err e => Err (RFallback, Some e)
            | Fuel => Fuel
            end
        end in
      match k with
      | None => Ok (st, keys, rows)
      | Some k =>
          match add_bin st k bucket (match st.(value) with VBytes => c.(c_bytes) | _ => c.(c_count) end) with
          | Ok st => Ok (st, keys, rows)
          | Err Limit => Err (TooLarge, None)
          | Err _ => Err (RFallback, None)
          | Fuel => Fuel
          end
      end.

Definition add_rollup (st : State) (file : File) (buckets : gset Z) (w : Window) : Res (State * Z) :=
  if bool_decide (st.(bins) = None) then Err Fallback
  else
    match read (fun e => (e, None)) (visit_row buckets w) (st, ∅, 0) file with
    | Ok (st, _, rows) => Ok (st, rows)
    | Err (_, Some e) => Err e
    | Err (TooLarge, None) => Err Limit
    | Err (RFallback, None) => Err Fallback
    | Fuel => Fuel
    end.
(** [Mutex<Option<State>>]: a scan that failed is gone. *)
Definition log_metric_scan_add (scan_ : option State) (file : File) (w : Window) : Res (Z * Z) * option State :=
  match scan_ with
  | None => (Err Fallback, None)
  | Some st =>
      match scan st file w with
      | Ok (st, chosen, kept) => (Ok (chosen, kept), Some st)
      | Err e => (Err e, None)
      | Fuel => (Fuel, None)
      end
  end.

Definition log_metric_scan_rollup (scan_ : option State) (file : File) (buckets : list Z) (select : Selection) : Res Z * option State :=
  match scan_ with
  | None => (Err Fallback, None)
  | Some st =>
      match add_rollup st file (list_to_set buckets) (mkWindow I64_MIN I64_MAX select []) with
      | Ok (st, rows) => (Ok rows, Some st)
      | Err e => (Err e, None)
      | Fuel => (Fuel, None)
      end
  end.
End Scan.

(** * The answer *)

Definition sample_float (s : Sample) : Z := match s with SFloat f => f | SInt i => f64_of_Z i | SError => F64_NAN end.

(** Time first, then errors above numbers, then the number, all descending. *)
Definition descending (a b : Z * Sample) : comparison :=
  match fst b ?= fst a with
  | Eq =>
      match snd a, snd b with
      | SError, SError => Eq
      | SError, _ => Lt
      | _, SError => Gt
      | SInt x, SInt y => y ?= x
      | x, y => default Eq (partial_cmp (sample_float y) (sample_float x))
      end
  | c => c
  end.
Definition descending_leb (a b : Z * Sample) : bool := match descending a b with Gt => false | _ => true end.

Definition to_be_bytes (v : Z) : bytes := rev (to_le_bytes 8 (wrap_u64 v)).
Definition packed_sample (s : Z * Sample) : bytes :=
  to_be_bytes (fst s) ++
  match snd s with
  | SFloat f => 0 :: to_be_bytes f
  | SError => 1 :: to_be_bytes 0
  | SInt n => 2 :: to_be_bytes n
  end.

(** The series in the order of the hash map, whatever it is. *)
Definition finish_series (st : State) : list (SeriesKey * list (Z * Sample)) :=
  match st.(bins) with
  | Some bins => map (fun e => (fst e, map (fun b => (fst b, SInt (snd b))) (map_to_list (snd e)))) (map_to_list bins)
  | None => map_to_list st.(series)
  end.

Definition scan_finish (st : State) : list (SeriesKey * bytes) :=
  map (fun e => (fst e, concat (map packed_sample (sort_by descending_leb (snd e))))) (finish_series st).

Definition log_metric_scan_finish (scan_ : option State) : Res (list (SeriesKey * bytes)) * option State :=
  match scan_ with None => (Err Fallback, None) | Some st => (Ok (scan_finish st), None) end.
Definition log_metric_scan_abort (scan_ : option State) : option State := None.

(** * Pattern scans *)

Definition log_pattern_observe (scan_ : option State) (lines : list (Z * bytes)) : Res unit * option State :=
  match scan_ with
  | None => (Err Fallback, None)
  | Some st =>
      match st.(patterns) with
      | None => (Err Fallback, Some st)
      | Some miner =>
          match run miner lines with
          | Ok miner => (Ok tt, Some (set_patterns st miner))
          | Err _ => (Err Panic, None)
          | Fuel => (Fuel, None)
          end
      end
  end.

Definition log_pattern_finish (scan_ : option State) : Res (list Pattern) * option State :=
  match scan_ with
  | None => (Err Fallback, None)
  | Some st =>
      (match st.(patterns) with
       | None => Err Fallback
       | Some miner => match Patterns.finish miner with Ok l => Ok l | Err _ => Err Panic | Fuel => Fuel end
       end, None)
  end.

(** * Bins *)

(** The bins as one map, and the budget they take. *)
Abbreviation Flat := (gmap (SeriesKey * Z) Z).

Record flattens (m : Bins) (f : Flat) : Prop := mkFlattens {
  f_lookup : forall k b, f !! (k, b) = m !! k ≫= (fun s => s !! b);
  f_full : forall k s, m !! k = Some s -> s <> ∅
}.

Record binned (st : State) (f : Flat) : Prop := mkBinned {
  n_bins : exists m, st.(bins) = Some m /\ flattens m f;
  n_samples : st.(samples) = size_of f;
  n_budget : size_of f <= st.(max_samples) < U64_MAX
}.

Definition bump (f : Flat) (k : SeriesKey) (b v : Z) : Flat := <[(k, b) := match f !! (k, b) with Some x => wrap_i64 (x + v) | None => v end]> f.

Lemma flattens_unique m m' f : flattens m f -> flattens m' f -> m = m'.
Proof.
  intros [L1 F1] [L2 F2]. apply map_eq. intros k. assert (Hb : forall b, m !! k ≫= (fun s => s !! b) = m' !! k ≫= (fun s => s !! b)) by (intros b; by rewrite <- L1, <- L2).
  destruct (m !! k) as [s|] eqn:E1, (m' !! k) as [s'|] eqn:E2; cbn in Hb; [f_equal; by apply map_eq| | |done].
  - exfalso. apply (F1 k s E1). apply map_empty. done.
  - exfalso. apply (F2 k s' E2). apply map_empty. intros b. by rewrite <- Hb.
Qed.

Lemma binned_same st f m n m' n' : binned (set_bins st m n) f -> binned (set_bins st m' n') f -> set_bins st m n = set_bins st m' n'.
Proof.
  intros [(x & E & Hx) H1 _] [(y & E' & Hy) H2 _]. cbn in *. injection E as ->. injection E' as ->. rewrite (flattens_unique _ _ _ Hx Hy). by subst.
Qed.

Lemma flattens_insert m f k b v : flattens m f -> flattens (<[k := <[b := v]> (default ∅ (m !! k))]> m) (<[(k, b) := v]> f).
Proof.
  intros [L F]. constructor.
  - intros k' b'. destruct (decide (k = k')) as [<-|Hk].
    + rewrite lookup_insert_eq. cbn. destruct (decide (b = b')) as [<-|Hb]; [by rewrite !lookup_insert_eq|]. rewrite lookup_insert_ne by congruence. rewrite lookup_insert_ne by done. rewrite L. by destruct (m !! k).
    + rewrite lookup_insert_ne by congruence. rewrite lookup_insert_ne by done. apply L.
  - intros k' s. destruct (decide (k = k')) as [<-|Hk]; [|rewrite lookup_insert_ne by done; apply F]. rewrite lookup_insert_eq. intros [= <-]. apply insert_non_empty.
Qed.

Lemma add_bin_exact st f k b v : binned st f ->
  match add_bin st k b v with
  | Ok st' => binned st' (bump f k b v) /\ exists m n, st' = set_bins st m n
  | Err Limit => st.(max_samples) < size_of (bump f k b v)
  | _ => False
  end.
Proof.
  intros [(m & E & Hm) Hs [Hb Hu]]. unfold add_bin. rewrite E. cbn [ok_or]. pose proof (f_lookup _ _ Hm k b) as Hl. replace (default ∅ (m !! k) !! b) with (f !! (k, b)) by (rewrite Hl; by destruct (m !! k)). unfold bump. unfold size_of in *. destruct (f !! (k, b)) as [x|] eqn:Ef.
  - split; [|by eexists _, _]. constructor; cbn.
    + eexists. split; [done|]. by apply flattens_insert.
    + unfold size_of. rewrite map_size_insert, Ef. done.
    + unfold size_of. rewrite map_size_insert, Ef. done.
  - assert (Hn : wrap_u64 (samples st + 1) = samples st + 1) by (unfold wrap_u64; apply Z.mod_small; unfold U64, U64_MAX in *; lia). rewrite Hn. destruct (Z.ltb_spec (max_samples st) (samples st + 1)).
    + rewrite map_size_insert, Ef. lia.
    + split; [|by eexists _, _]. constructor; cbn.
      * eexists. split; [done|]. by apply flattens_insert.
      * unfold size_of. rewrite map_size_insert, Ef. lia.
      * unfold size_of. rewrite map_size_insert, Ef. lia.
Qed.

Lemma bump_size f k b v : size_of f <= size_of (bump f k b v).
Proof. unfold bump, size_of. rewrite map_size_insert. destruct (f !! (k, b)); cbn; lia. Qed.

(** What an element adds. *)
Abbreviation Added := (option (SeriesKey * Z * Z)).
Definition bump_added (f : Flat) (a : Added) : Flat := match a with Some (k, b, v) => bump f k b v | None => f end.
Definition add_added (st : State) (a : Added) : Res State := match a with Some (k, b, v) => add_bin st k b v | None => Ok st end.

Lemma bumps_size l : forall f, size_of f <= size_of (fold_left bump_added l f).
Proof. induction l as [|a l IH]; intros f; [done|]. cbn [fold_left]. specialize (IH (bump_added f a)). destruct a as [[[k b] v]|]; cbn in *; [pose proof (bump_size f k b v); lia|done]. Qed.

(** A run of additions succeeds exactly within the budget. *)
Lemma add_all_exact l : forall st f, binned st f ->
  match foldM add_added st l with
  | Ok st' => binned st' (fold_left bump_added l f) /\ (exists m n, st' = set_bins st m n) /\ size_of (fold_left bump_added l f) <= st.(max_samples)
  | Err Limit => st.(max_samples) < size_of (fold_left bump_added l f)
  | _ => False
  end.
Proof.
  induction l as [|a l IH]; intros st f Hb; cbn [foldM fold_left].
  - split; [done|]. split; [|by destruct Hb as [_ _ [? _]]]. destruct Hb as [(m & E & _) _ _]. exists m, (samples st). destruct st; cbn in *. by rewrite E.
  - destruct a as [[[k b] v]|]; cbn [add_added bump_added]; [|by apply IH]. pose proof (add_bin_exact st f k b v Hb) as Ha. destruct (add_bin st k b v) as [st1|e|]; [|destruct e; try done; pose proof (bumps_size l (bump f k b v)); lia|done]. destruct Ha as [Hb1 (m & n & ->)].
    specialize (IH _ _ Hb1). destruct (foldM add_added _ l) as [st2|e|]; [|done|done]. destruct IH as (Hb2 & (m2 & n2 & ->) & Hs). split; [done|]. split; [by exists m2, n2|done].
Qed.

(** * Binned scans *)

(** The state of a binned scan: no pipeline, counts or bytes. *)
Definition plain (st : State) : Prop :=
  st.(stages) = [] /\ st.(drop_label) = None /\ st.(drop_errors) = false /\ st.(patterns) = None /\ match st.(value) with VUnwrap _ => False | _ => True end.

Lemma binned_new_binned v g n : 0 <= n < U64_MAX -> binned (binned_new v g n) ∅.
Proof. intros Hn. constructor; cbn; [|done|unfold size_of; rewrite map_size_empty; lia]. exists ∅. split; [done|]. by constructor. Qed.

Definition amount (st : State) (line : bytes) : Res Z := match st.(value) with VBytes => line_size line | _ => Ok 1 end.

(** What a line adds to a binned scan. *)
Definition line_added (st : State) (w : Window) (r : LogLine) : Res Added :=
  match r.(l_time) with
  | None => Ok None
  | Some ts =>
      if (ts <? w.(w_start)) || (w.(w_end) <? ts) then Ok None
      else
        let? wanted := is_selected w r in
        if negb wanted then Ok None
        else if negb (forallb (fun f => matches f (line_of r)) w.(line_filters)) then Ok None
        else if bad_body r then Err Fallback
        else
          let? base := entry_labels (default [] r.(l_resource)) (default [] r.(l_attributes)) r.(l_service) r.(l_level) r.(l_trace) r.(l_span) in
          if has_value (find ERROR base.(labels)) then Err Pipeline
          else let? n := amount st (line_of r) in Ok (Some (key st base.(labels), bucket_end ts, n))
  end.

Definition bases_ok (bases : Bases) : Prop := forall res attrs svc lvl tr sp base, bases !! (res, attrs, svc, lvl, tr, sp) = Some base -> entry_labels res attrs svc lvl tr sp = Ok base.

Lemma base_of_exact bases r : bases_ok bases ->
  match base_of bases r with
  | Ok (bases', base) => bases_ok bases' /\ entry_labels (default [] r.(l_resource)) (default [] r.(l_attributes)) r.(l_service) r.(l_level) r.(l_trace) r.(l_span) = Ok base
  | Err e => entry_labels (default [] r.(l_resource)) (default [] r.(l_attributes)) r.(l_service) r.(l_level) r.(l_trace) r.(l_span) = Err e
  | Fuel => False
  end.
Proof.
  intros Hb. unfold base_of. cbv zeta. destruct (bases !! _) as [base|] eqn:E; [by apply Hb in E|]. pose proof (entry_labels_answers (default [] (l_resource r)) (default [] (l_attributes r)) (l_service r) (l_level r) (l_trace r) (l_span r)).
  destruct (entry_labels _ _ _ _ _ _) as [base| |] eqn:El; [|done|done]. split; [|done]. intros res attrs svc lvl tr sp base' Hl. apply lookup_insert_Some in Hl as [[Hk <-]|[_ Hl]]; [|by apply Hb]. by injection Hk as <- <- <- <- <- <-.
Qed.

Definition line_step (st0 : State) (w : Window) (st : State) (r : LogLine) : Res State := let? a := line_added st0 w r in add_added st a.

(** A state of the scan that started as [st0]. *)
Definition since (st0 st : State) : Prop := plain st0 /\ st0.(bins) <> None /\ (st = st0 \/ exists m n, st = set_bins st0 m n).

Lemma add_bin_since st0 st k b v st' : since st0 st -> add_bin st k b v = Ok st' -> since st0 st'.
Proof.
  intros (Hp & Hn & Hs) E. split; [done|]. split; [done|]. right. unfold add_bin in E. destruct (bins st) as [m|] eqn:Eb; [|done]. cbn [ok_or] in E. cbv zeta in E. repeat case_match; try done; injection E as <-; destruct Hs as [->|(m' & n' & ->)]; by eexists _, _.
Qed.

Lemma since_bins st0 st : since st0 st -> is_Some st.(bins).
Proof. intros (_ & Hn & [->|(m & n & ->)]); [by destruct (bins st0); [eexists|]|by eexists]. Qed.

Lemma observe_binned st0 st ts line m : since st0 st ->
  observe st ts line m = if has_value (find ERROR m) then Err Pipeline else let? n := amount st0 line in let? st' := add_bin st (key st0 m) (bucket_end ts) n in Ok (st', true).
Proof.
  intros Hs. pose proof (since_bins _ _ Hs) as Hbins. unfold observe. rewrite (bool_decide_true (is_Some (bins st))) by done. destruct Hs as ((P1 & P2 & P3 & P4 & P5) & _ & Hst).
  assert (Heq : value st = value st0 /\ drop_errors st = drop_errors st0 /\ key st m = key st0 m) by (destruct Hst as [->|(m' & n' & ->)]; done). destruct Heq as (-> & -> & ->). rewrite P3. unfold amount. destruct (value st0); [done|done|done].
Qed.

Lemma amount_answers st line : amount st line <> Fuel.
Proof. unfold amount, line_size, checked_i64. destruct (value st); [done| |done]. by destruct (_ && _). Qed.

Lemma add_bin_answers st k b v : add_bin st k b v <> Fuel.
Proof. unfold add_bin. destruct (bins st) as [m|]; [|done]. cbn [ok_or]. destruct (default ∅ (m !! k) !! b); [done|]. by destruct (_ <? _). Qed.

Lemma scan_row_line st0 w x st r : fst (fst (fst x)) = st /\ bases_ok (snd (fst (fst x))) /\ since st0 st ->
  sim (fun x st => fst (fst (fst x)) = st /\ bases_ok (snd (fst (fst x))) /\ since st0 st) (scan_row w x r) (line_step st0 w st r).
Proof.
  destruct x as [[[st1 bases] chosen] kept]. cbn. intros (-> & Hb & Hs). unfold line_step, line_added. destruct (l_time r) as [ts|]; [|done]. destruct (_ || _); [done|]. unfold is_selected. destruct (selected_answers (w_select w) (default [] (l_resource r)) (l_service r) (l_level r)) as [b ->]. destruct b; [|done]. cbn [negb]. destruct (forallb _ _); [|done]. cbn [negb].
  assert (Hpat : patterns st = None /\ stages st = []) by (destruct Hs as ((P1 & P2 & P3 & P4 & P5) & _ & [->|(m' & n' & ->)]); done). destruct Hpat as [-> ->]. destruct (bad_body r); [done|]. pose proof (base_of_exact bases r Hb) as Hbase. destruct (base_of bases r) as [[bases' base]|e|]; [|by rewrite Hbase|done].
  destruct Hbase as [Hb' ->]. unfold pipeline. cbn [pipeline_loop fst]. rewrite (observe_binned st0 st ts (line_of r) (labels base) Hs). destruct (has_value _); [done|]. pose proof (amount_answers st0 (line_of r)). destruct (amount st0 (line_of r)) as [n|e|]; [|done|done]. cbn [add_added].
  pose proof (add_bin_answers st (key st0 (labels base)) (bucket_end ts) n). destruct (add_bin st (key st0 (labels base)) (bucket_end ts) n) as [st'|e|] eqn:Eb; [|done|done]. cbn. split; [done|]. split; [done|]. by apply (add_bin_since st0 st _ _ _ st' Hs) in Eb.
Qed.

Section Binned.
Context {File : Type} `{Parquet File}.

Lemma bases_empty : bases_ok ∅.
Proof. intros res attrs svc lvl tr sp base E. by rewrite lookup_empty in E. Qed.

Lemma scan_lines st0 st w file rows : since st0 st -> reads (Lines file rows) -> sim (fun x st => fst (fst x) = st /\ since st0 st) (scan st file w) (foldM (line_step st0 w) st rows).
Proof.
  intros Hs (batches & Hread & <-). destruct (read_sizes file 8192 4096 batches ltac:(done) ltac:(done) Hread) as (bs & Hread' & <-). unfold scan. rewrite Hread'. cbn [ok_or]. rewrite foldM_map, <- foldM_concat. apply foldM_sim; [|done].
  intros [[st1 chosen] kept] st2 batch _ [E Hs1]. cbn in E. subst st2. unfold scan_batch. cbn [ok_or].
  pose proof (foldM_sim (fun (x : Scanning) st => fst (fst (fst x)) = st /\ bases_ok (snd (fst (fst x))) /\ since st0 st) (scan_row w) (line_step st0 w) batch (fun a b x _ Hab => scan_row_line st0 w a b x Hab) (st1, ∅, chosen, kept) st1 (conj eq_refl (conj bases_empty Hs1))) as Hf.
  destruct (foldM (scan_row w) _ batch) as [[[[st' bases'] c'] k']| |], (foldM (line_step st0 w) st1 batch); try done. cbn in *. tauto.
Qed.

(** ** Rollups *)

Definition cell_amount (st : State) (c : Cell) : Z := match st.(value) with VBytes => c.(c_bytes) | _ => c.(c_count) end.

(** What a row of a rollup adds. *)
Definition row_added (st : State) (buckets : gset Z) (w : Window) (e : RowKey * Cell) : Res Added :=
  if negb (cell_ok (fst (fst e)) (snd e)) then Err Fallback
  else if negb (bool_decide (fst (fst e) ∈ buckets)) then Ok None
  else if (0 <? (snd e).(c_traced)) && negb (drops_ids st) then Err Fallback
  else
    let? k := rollup_key st (key_stream (fst e)) w in
    Ok (option_map (fun k => (k, fst (fst e), cell_amount st (snd e))) k).

Definition row_step (st0 : State) (buckets : gset Z) (w : Window) (st : State) (e : RowKey * Cell) : Res State := let? a := row_added st0 buckets w e in add_added st a.

(** The two computations succeed together, with related states. *)
Definition both_ok {E E' A B} (R : A -> B -> Prop) (x : res E A) (y : res E' B) : Prop :=
  match x, y with
  | Ok a, Ok b => R a b
  | Ok _, _ | _, Ok _ => False
  | _, _ => True
  end.

Lemma foldM_both {E E' A B C} (R : A -> B -> Prop) (f : A -> C -> res E A) (g : B -> C -> res E' B) l :
  (forall a b x, R a b -> both_ok R (f a x) (g b x)) -> forall a b, R a b -> both_ok R (foldM f a l) (foldM g b l).
Proof.
  intros Hf. induction l as [|x l IH]; intros a b Hab; [done|]. cbn [foldM]. specialize (Hf a b x Hab). destruct (f a x), (g b x); try done. by apply IH.
Qed.

Lemma since_key st0 st s w : since st0 st -> rollup_key st s w = rollup_key st0 s w /\ drops_ids st = drops_ids st0 /\ value st = value st0.
Proof. intros (_ & _ & [->|(m & n & ->)]); done. Qed.

Lemma rollup_key_answers st s w : rollup_key st s w <> Fuel.
Proof.
  unfold rollup_key. destruct (selected_answers (w_select w) (s_resource s) (s_service s) (s_level s)) as [b ->]. destruct b; [|done]. pose proof (entry_labels_answers (s_resource s) (s_attributes s) (s_service s) (s_level s) None None). destruct (entry_labels _ _ _ _ _ _); [|done..]. by destruct (has_value _).
Qed.

Definition keys_ok (st0 : State) (w : Window) (keys : gmap Stream (option SeriesKey)) : Prop := forall s k, keys !! s = Some k -> rollup_key st0 s w = Ok k.

Lemma keys_empty st0 w : keys_ok st0 w ∅.
Proof. intros s k E. by rewrite lookup_empty in E. Qed.

Lemma visit_row_step st0 buckets w (x : Visiting) st e : fst (fst x) = st /\ keys_ok st0 w (snd (fst x)) /\ since st0 st ->
  both_ok (fun (x : Visiting) st => fst (fst x) = st /\ keys_ok st0 w (snd (fst x)) /\ since st0 st) (visit_entry (fun e => (e, None)) (visit_row buckets w) x e) (row_step st0 buckets w st e).
Proof.
  destruct x as [[st1 keys] rows]. cbn. intros (-> & Hk & Hs). unfold visit_entry, row_step, row_added. destruct (cell_ok _ _); [|done]. cbn [negb]. unfold visit_row. destruct (bool_decide (fst (fst e) ∈ buckets)); [|done]. cbn [negb].
  destruct (since_key st0 st (key_stream (fst e)) w Hs) as (Ekey & -> & Ev). destruct (_ && _); [done|]. rewrite Ekey, Ev.
  assert (Hkeys : match match keys !! key_stream (fst e) with Some k => Ok (keys, k) | None => match rollup_key st0 (key_stream (fst e)) w with Ok k => Ok (<[key_stream (fst e) := k]> keys, k) | Err e => Err (RFallback, Some e) | Fuel => Fuel end end with
    | Ok (keys', k) => keys_ok st0 w keys' /\ rollup_key st0 (key_stream (fst e)) w = Ok k | Err _ => exists e', rollup_key st0 (key_stream (fst e)) w = Err e' | Fuel => False end).
  { destruct (keys !! key_stream (fst e)) as [k|] eqn:El; [split; [done|by apply Hk]|]. pose proof (rollup_key_answers st0 (key_stream (fst e)) w). destruct (rollup_key st0 _ w) as [k|e'|] eqn:Er; [|by exists e'|done]. split; [|done]. intros s k' Hl. apply lookup_insert_Some in Hl as [[<- <-]|[_ Hl]]; [done|by apply Hk]. }
  destruct (match keys !! _ with Some _ => _ | None => _ end) as [[keys' k]|e'|]; [|destruct Hkeys as [x ->]; done|done]. destruct Hkeys as [Hk' ->]. destruct k as [k|]; [|done]. cbn [option_map add_added]. fold (cell_amount st0 (snd e)).
  pose proof (add_bin_answers st k (fst (fst e)) (cell_amount st0 (snd e))). destruct (add_bin st k (fst (fst e)) (cell_amount st0 (snd e))) as [st'|x|] eqn:Eb; [|by destruct x|done]. cbn. split; [done|]. split; [done|]. by apply (add_bin_since st0 st _ _ _ st' Hs) in Eb.
Qed.

Lemma add_rollup_rows st0 buckets w t sources file : since st0 st0 -> write_rows schema (map stored_of t) (source_entry sources) = Some file ->
  both_ok (fun x st => fst x = st) (add_rollup st0 file buckets w) (foldM (row_step st0 buckets w) st0 t).
Proof.
  intros Hs Hw. unfold add_rollup. rewrite bool_decide_false by (by destruct (since_bins _ _ Hs) as [? ->]). rewrite (read_written _ _ _ t sources file Hw).
  pose proof (foldM_both _ _ _ t (visit_row_step st0 buckets w) (st0, ∅, 0) st0 (conj eq_refl (conj (keys_empty st0 w) Hs))) as Hf.
  destruct (foldM (visit_entry _ _) _ t) as [[[st' keys] rows]|[[|] [x|]]|], (foldM (row_step st0 buckets w) st0 t); try done. cbn in *. tauto.
Qed.

(** ** Runs of additions *)

Definition added_or_none (x : Res Added) : Added := match x with Ok a => a | _ => None end.
Definition is_ok {A} (x : Res A) : Prop := match x with Ok _ => True | _ => False end.

Lemma run_split {X} (o : X -> Res Added) l : forall st st', foldM (fun st x => let? a := o x in add_added st a) st l = Ok st' <-> Forall (fun x => is_ok (o x)) l /\ foldM add_added st (map (fun x => added_or_none (o x)) l) = Ok st'.
Proof.
  induction l as [|x l IH]; intros st st'; cbn [foldM map]; [split; [by intros ->|by intros [_ ?]]|]. destruct (o x) as [a| |] eqn:E; cbn [added_or_none].
  - destruct (add_added st a) as [st1| |]; [|split; [done|by intros [_ ?]]..]. rewrite IH. split; [intros [Hf E']; split; [|done]; constructor; [by rewrite E|done]|intros [Hf E']; split; [by inversion Hf|done]].
  - split; [done|]. intros [Hf _]. inversion Hf as [|? ? Hx _]; subst. by rewrite E in Hx.
  - split; [done|]. intros [Hf _]. inversion Hf as [|? ? Hx _]; subst. by rewrite E in Hx.
Qed.

(** The bins after a run. *)
Definition run_bins {X} (o : X -> Res Added) (l : list X) (f : Flat) : Flat := fold_left bump_added (map (fun x => added_or_none (o x)) l) f.

Lemma run_exact {X} (o : X -> Res Added) l st f st' : binned st f ->
  foldM (fun st x => let? a := o x in add_added st a) st l = Ok st' <->
  Forall (fun x => is_ok (o x)) l /\ size_of (run_bins o l f) <= st.(max_samples) /\ binned st' (run_bins o l f) /\ exists m n, st' = set_bins st m n.
Proof.
  intros Hb. rewrite run_split. unfold run_bins. pose proof (add_all_exact (map (fun x => added_or_none (o x)) l) st f Hb) as Ha. destruct (foldM add_added st _) as [st1|e|]; [|destruct e; try done; split; [by intros [_ ?]|intros (_ & Hs & _); lia]|done].
  destruct Ha as (Hb1 & (m & n & ->) & Hs). split.
  - intros [Hf [= <-]]. split; [done|]. split; [done|]. split; [done|by exists m, n].
  - intros (Hf & _ & Hb' & m' & n' & ->). split; [done|]. f_equal. by apply (binned_same st (fold_left bump_added (map (fun x => added_or_none (o x)) l) f)).
Qed.
End Binned.
