(* ===== verification/RollupLines.v ===== *)
(** Rollups answer as lines: a binned log metric scan (log_metric.rs) reaches the
    same state through a rollup (log_rollup.rs) as through the lines the rollup
    was built from. *)

From stdpp Require Import gmap.
From S2P Require Import Prelude Utf8 External Float64 OrdMap QueryFilter LogLabels LogRollup LogMetric.

(** * Bins commute *)

Lemma bump_lookup f k b v i : bump f k b v !! i = if decide ((k, b) = i) then Some match f !! i with Some x => wrap_i64 (x + v) | None => v end else f !! i.
Proof. unfold bump. rewrite lookup_insert. by case_decide as E; [subst i|]. Qed.

Lemma bump_comm f k b v k' b' v' : bump (bump f k b v) k' b' v' = bump (bump f k' b' v') k b v.
Proof.
  apply map_eq. intros i. rewrite !bump_lookup. repeat case_decide; try done. destruct (f !! i); f_equal; [rewrite !wrap_i64_l; f_equal; lia|f_equal; lia].
Qed.

Lemma bump_adds f k b v v' : bump (bump f k b v) k b v' = bump f k b (wrap_i64 (v + v')).
Proof. apply map_eq. intros i. rewrite !bump_lookup. case_decide; [|done]. destruct (f !! i); f_equal. rewrite wrap_i64_l, wrap_i64_r. f_equal. lia. Qed.

(** * One line *)

Definition no_ids (r : LogLine) : Prop := has_value r.(l_trace) = false /\ has_value r.(l_span) = false.
(** The series of the scan do not show the identifiers of the line. *)
Definition hides_ids (st : State) (r : LogLine) : Prop := drops_ids st = true \/ no_ids r.

Lemma key_hides st m m' : drops_ids st = true -> ordered m -> ordered m' -> (forall k, k ∉ ID_NAMES -> find k m = find k m') -> key st m = key st m'.
Proof.
  intros Hd Hm Hm' Hf. unfold key. apply (filter_same_labels (in_key st)); [done..|]. intros k Hk. apply Hf. apply andb_true_iff in Hk as [_ Hk]. unfold drops_ids in Hd. destruct (grouping st) as [|names|]; [done| |done].
  cbn [in_group] in Hk. apply existsb_exists in Hk as (n & Hn & Hk). apply bytes_eqb_eq in Hk as ->. apply negb_true_iff in Hd. intros Hin. rewrite <- not_true_iff_false in Hd. apply Hd. apply existsb_exists. exists k. split; [done|by apply bool_decide_eq_true].
Qed.

Lemma error_not_id : ERROR ∉ ID_NAMES.
Proof. intros Hin. by apply (bool_decide_eq_true_2 _) in Hin; vm_compute in Hin. Qed.

(** A line of the window adds what the cell of its stream adds. *)
Lemma line_as_row st w r ts : line_filters w = [] -> l_time r = Some ts -> w_start w <= ts <= w_end w -> bad_body r = false -> len (line_of r) <= I64_MAX -> hides_ids st r ->
  line_added st w r = let? k := rollup_key st (stream_of r) w in Ok (option_map (fun k => (k, bucket_end ts, cell_amount st (line_cell r))) k).
Proof.
  intros Hw Ht Hin Hbad Hlen Hids. unfold line_added, rollup_key. rewrite Ht, Hw, Hbad. replace ((ts <? w_start w) || (w_end w <? ts)) with false by (symmetry; apply orb_false_iff; split; apply Z.ltb_ge; lia). unfold is_selected. cbn [stream_of s_resource s_attributes s_service s_level].
  destruct (selected_answers (w_select w) (default [] (l_resource r)) (l_service r) (l_level r)) as [b ->]. destruct b; [|done]. cbn [negb forallb].
  assert (Ha : amount st (line_of r) = Ok (cell_amount st (line_cell r))).
  { unfold amount, cell_amount. destruct (value st); [done| |done]. unfold line_size, checked_i64. cbn [line_cell c_bytes]. pose proof (len_nonneg (line_of r)). assert (Hr : I64_MIN <= len (line_of r) <= I64_MAX) by (unfold I64_MIN in *; lia). rewrite wrap_i64_id by done. by rewrite (proj2 (Z.leb_le _ _) (proj1 Hr)), (proj2 (Z.leb_le _ _) (proj2 Hr)). }
  rewrite Ha. destruct Hids as [Hd|[H1 H2]].
  - pose proof (entry_labels_ids (default [] (l_resource r)) (default [] (l_attributes r)) (l_service r) (l_level r) (l_trace r) (l_span r)) as Hs. destruct (entry_labels _ _ _ _ None None) as [e|x|] eqn:E1, (entry_labels _ _ _ _ (l_trace r) (l_span r)) as [e'|y|] eqn:E2; try done; [|cbn in Hs; by subst y].
    cbn in Hs. rewrite <- (Hs ERROR error_not_id). destruct (has_value _); [done|]. cbn [option_map]. rewrite (key_hides st (labels e') (labels e) Hd); [done|by eapply entry_labels_ordered..|]. intros k Hk. symmetry. by apply Hs.
  - rewrite (entry_labels_none _ _ _ _ (l_trace r) (l_span r) H1 H2). destruct (entry_labels _ _ _ _ None None) as [e| |]; [|done..]. by destruct (has_value (find _ _)).
Qed.

(** * All the lines *)

Section Lines.
Context (st : State) (w : Window) (buckets : gset Z) (k : Config) (rows : list LogLine).
Context (no_filters : line_filters w = []).
Context (window : forall r ts, r ∈ rows -> l_time r = Some ts -> w_start w <= ts <= w_end w <-> bucket_end ts ∈ buckets).
Context (covered : forall r ts, r ∈ rows -> l_time r = Some ts -> w_start w <= ts <= w_end w -> line_entry k r = Some (bucket_end ts, stream_of r, line_cell r)).
Context (counts : Forall (countable k) rows) (times : Forall safe_time rows) (fit : small rows).

Let t := fold_left count (line_entries k rows) [].

(** A line of the window. *)
Definition inside (r : LogLine) : Prop := exists ts, l_time r = Some ts /\ w_start w <= ts <= w_end w.

Lemma outside_added r : ~ inside r -> line_added st w r = Ok None.
Proof.
  intros Ho. unfold line_added. destruct (l_time r) as [ts|] eqn:E; [|done]. destruct (_ || _) eqn:Eo; [done|]. exfalso. apply Ho. exists ts. split; [done|]. apply orb_false_iff in Eo as [E1 E2]. apply Z.ltb_ge in E1, E2. lia.
Qed.

Lemma line_small r : r ∈ rows -> len (line_of r) <= I64_MAX.
Proof.
  intros Hr. destruct fit as [_ Hs]. clear -Hr Hs. induction rows as [|x l IH]; [by apply not_elem_of_nil in Hr|]. change (weigh (x :: l)) with (len (line_of x) + weigh l) in Hs. pose proof (line_weight_nonneg l). pose proof (len_nonneg (line_of x)). apply elem_of_cons in Hr as [->|Hr]; [lia|]. apply IH; [done|lia].
Qed.

Lemma inside_added r ts : r ∈ rows -> l_time r = Some ts -> w_start w <= ts <= w_end w -> hides_ids st r ->
  line_added st w r = let? key := rollup_key st (stream_of r) w in Ok (option_map (fun key => (key, bucket_end ts, cell_amount st (line_cell r))) key).
Proof.
  intros Hr Ht Hin Hids. apply line_as_row; try done; [|by apply line_small]. rewrite Forall_forall in counts. pose proof (counts r ltac:(by apply list_elem_of_In)) as Hc. unfold countable in Hc. rewrite (covered r ts Hr Ht Hin) in Hc. by destruct (Hc ltac:(done)).
Qed.

(** The cell of a line of the window. *)
Lemma line_cell_found r ts : r ∈ rows -> l_time r = Some ts -> w_start w <= ts <= w_end w ->
  exists c, find (stream_key (bucket_end ts) (stream_of r)) t = Some c /\ (c.(c_traced) <= 0 -> no_ids r).
Proof.
  intros Hr Ht Hin. unfold t. rewrite (counts_find _ _ _ (line_entries_range k rows)). set (f := at_row (bucket_end ts) (stream_of r)). pose proof (line_sums k f rows fit) as Hl. cbv zeta in Hl. set (l := List.filter f (line_entries k rows)) in *.
  assert (He : In (bucket_end ts, stream_of r, line_cell r) l).
  { apply filter_In. split; [|by apply bool_decide_eq_true]. unfold line_entries. apply in_flat_map. exists r. split; [by apply list_elem_of_In|]. rewrite (covered r ts Hr Ht Hin). by left. }
  unfold sum_cell. destruct l as [|e l'] eqn:El; [done|]. eexists. split; [reflexivity|]. cbn [c_traced]. unfold total. destruct fit as [Hf1 Hf2]. rewrite wrap_i64_id by (unfold I64_MIN, I64_MAX in *; lia). intros Hz.
  assert (Hge : forall x, In x (e :: l') -> c_traced (snd x) <= 0).
  { assert (Hnn : forall x, In x (e :: l') -> 0 <= c_traced (snd x)). { intros x Hx. rewrite <- El in Hx. apply filter_In in Hx as [Hx _]. apply list_elem_of_In, line_entries_in in Hx as (r' & ts' & _ & _ & _ & ->). cbn. destruct (_ || _); cbn; lia. }
    clear -Hz Hnn. revert Hz Hnn. generalize (e :: l'). intros xs. induction xs as [|y xs IH]; intros Hz Hnn x Hx; [done|]. cbn in Hz. assert (Hy : 0 <= c_traced (snd y)) by (apply Hnn; by left). assert (Hs : 0 <= fold_right (fun (e : Counted) n => c_traced (snd e) + n) 0 xs). { clear -Hnn. induction xs as [|z xs IH]; [done|]. cbn. assert (0 <= c_traced (snd z)) by (apply Hnn; by right; left). specialize (IH ltac:(intros x [->|Hx]; apply Hnn; [by left|by right; right])). lia. }
    destruct Hx as [<-|Hx]; [lia|]. apply IH; [lia|intros; apply Hnn; by right|done]. }
  specialize (Hge _ He). cbn in Hge. unfold no_ids. destruct (has_value (l_trace r)), (has_value (l_span r)); cbn in Hge; first [lia|done].
Qed.

(** A row comes from a line. *)
Lemma row_line rk c : find rk t = Some c -> exists r ts, r ∈ rows /\ l_time r = Some ts /\ fst rk = bucket_end ts /\ key_stream rk = stream_of r /\
  c.(c_traced) = total c_traced (List.filter (at_row (fst rk) (key_stream rk)) (line_entries k rows)).
Proof.
  unfold t. rewrite <- (key_stream_key rk) at 1. rewrite (counts_find _ _ _ (line_entries_range k rows)). destruct (List.filter _ _) as [|e l] eqn:El; [done|]. intros [= <-]. assert (He : In e (List.filter (at_row (fst rk) (key_stream rk)) (line_entries k rows))) by (rewrite El; by left).
  apply filter_In in He as [He Hrow]. apply bool_decide_eq_true in Hrow. apply list_elem_of_In, line_entries_in in He as (r & ts & Hr & Hts & _ & ->). cbn in Hrow. injection Hrow as Hb Hs. exists r, ts. rewrite <- Hb, <- Hs. by split_and!.
Qed.

Lemma inside_dec r : inside r \/ ~ inside r.
Proof.
  unfold inside. destruct (l_time r) as [ts|]; [|right; by intros (? & ? & _)]. destruct (decide (w_start w <= ts <= w_end w)); [left; by exists ts|right; by intros (? & [= <-] & ?)].
Qed.

Lemma tally_ordered : ordered t.
Proof. apply counts_ordered. constructor. Qed.

Lemma rows_ok_lines : Forall (fun e => is_ok (row_added st buckets w e)) t -> Forall (fun r => is_ok (line_added st w r) /\ (inside r -> hides_ids st r)) rows.
Proof.
  intros Hrows. apply Forall_forall. intros r Hr. apply list_elem_of_In in Hr. destruct (inside_dec r) as [(ts & Ht & Hin)|Ho]; [|split; [by rewrite outside_added|done]]. destruct (line_cell_found r ts Hr Ht Hin) as (c & Hf & Hids). apply (find_iff _ _ _ tally_ordered) in Hf. rewrite Forall_forall in Hrows. specialize (Hrows _ ltac:(by apply list_elem_of_In)).
  unfold row_added in Hrows. cbn [fst snd stream_key] in Hrows. destruct (negb (cell_ok _ _)); [done|]. rewrite bool_decide_true in Hrows by by apply (window r ts). cbn [negb] in Hrows. change (key_stream _) with (mkStream (s_resource (stream_of r)) (s_attributes (stream_of r)) (s_service (stream_of r)) (s_level (stream_of r))) in Hrows.
  assert (Hh : hides_ids st r). { destruct (drops_ids st) eqn:Ed; [by left|]. right. apply Hids. destruct (Z.ltb_spec 0 (c_traced c)); [done|lia]. }
  split; [|done]. rewrite (inside_added r ts Hr Ht Hin Hh). destruct (_ && _); [done|]. replace (mkStream _ _ _ _) with (stream_of r) in Hrows by by destruct r. by destruct (rollup_key st (stream_of r) w).
Qed.

Lemma lines_ok_rows : Forall (fun r => is_ok (line_added st w r)) rows -> Forall (fun r => inside r -> hides_ids st r) rows -> Forall (fun e => is_ok (row_added st buckets w e)) t.
Proof.
  intros Hok Hids. pose proof (lines_rollable k k rows times fit counts) as Hroll. rewrite Forall_forall in Hok, Hids, Hroll |- *. intros [rk c] Hin. destruct (Hroll _ Hin) as [Hcell _]. unfold row_added. cbn [fst snd] in *. rewrite Hcell. cbn [negb]. case_bool_decide as Hb; [|done]. cbn [negb].
  apply list_elem_of_In, (find_iff _ _ _ tally_ordered) in Hin. destruct (row_line rk c Hin) as (r & ts & Hr & Ht & Hbk & Hst & Htr). rewrite Hbk in Hb. assert (Hwin : w_start w <= ts <= w_end w) by (by apply (window r ts)). assert (Hr' : In r rows) by by apply list_elem_of_In.
  assert (Hh : forall r', In r' rows -> inside r' -> hides_ids st r') by done. assert (Hz : drops_ids st = false -> c_traced c = 0).
  { intros Hd. rewrite Htr. unfold total. assert (Hall : forall x, In x (List.filter (at_row (fst rk) (key_stream rk)) (line_entries k rows)) -> c_traced (snd x) = 0).
    { intros x Hx. apply filter_In in Hx as [Hx Hrow]. apply bool_decide_eq_true in Hrow. apply list_elem_of_In, line_entries_in in Hx as (r2 & ts2 & Hr2 & Ht2 & _ & ->). cbn in Hrow. injection Hrow as Hb2 _. assert (Hin2 : inside r2) by (exists ts2; split; [done|]; apply (window r2 ts2); [done..|]; by rewrite Hb2, Hbk).
      destruct (Hh r2 ltac:(by apply list_elem_of_In) Hin2) as [?|[H1 H2]]; [congruence|]. cbn. by rewrite H1, H2. }
    clear -Hall. induction (List.filter _ _) as [|x l IH]; [done|]. cbn [fold_right]. rewrite (Hall x) by by left. apply IH. intros y Hy. apply Hall. by right. }
  replace ((0 <? c_traced c) && negb (drops_ids st)) with false by (symmetry; destruct (drops_ids st); [by rewrite andb_false_r|rewrite (Hz eq_refl); done]). rewrite Hst. specialize (Hok r Hr'). rewrite (inside_added r ts Hr Ht Hwin (Hh r Hr' ltac:(by exists ts))) in Hok. by destruct (rollup_key st (stream_of r) w).
Qed.

(** What a cell adds to the bins. *)
Definition cell_bins (f : Flat) (e : Counted) : Flat :=
  if bool_decide (fst (fst e) ∈ buckets) then match rollup_key st (snd (fst e)) w with Ok (Some key) => bump f key (fst (fst e)) (cell_amount st (snd e)) | _ => f end else f.

Lemma cell_bins_comm f x y : cell_bins (cell_bins f x) y = cell_bins (cell_bins f y) x.
Proof. unfold cell_bins. repeat case_match; try done. apply bump_comm. Qed.

Lemma cell_bins_adds f bucket s c d : cell_bins (cell_bins f (bucket, s, c)) (bucket, s, d) = cell_bins f (bucket, s, add_cells c d).
Proof. unfold cell_bins. cbn [fst snd]. case_bool_decide; [|done]. destruct (rollup_key st s w) as [[key|]| |]; try done. rewrite bump_adds. f_equal. unfold cell_amount, add_cells. by destruct (value st). Qed.

Lemma row_bins f : Forall (fun e => is_ok (row_added st buckets w e)) t -> run_bins (row_added st buckets w) t f = fold_left cell_bins (map counted t) f.
Proof.
  unfold run_bins. generalize t. intros u Hu. revert f. induction Hu as [|e u He Hu IH]; intros f; [done|]. cbn [map fold_left]. rewrite IH. f_equal. unfold row_added in *. unfold cell_bins, counted. cbn [fst snd]. destruct (negb (cell_ok _ _)); [done|]. case_bool_decide; [|done]. cbn [negb] in *. destruct (_ && _); [done|]. by destruct (rollup_key st _ w) as [[key|]| |].
Qed.

Lemma line_bins f : Forall (fun r => inside r -> hides_ids st r) rows -> run_bins (line_added st w) rows f = fold_left cell_bins (line_entries k rows) f.
Proof.
  intros Hids. assert (Hstep : forall r g, r ∈ rows -> bump_added g (added_or_none (line_added st w r)) = fold_left cell_bins (option_list (line_entry k r)) g).
  { intros r g Hr. destruct (inside_dec r) as [(ts & Ht & Hin)|Ho].
    - rewrite (covered r ts Hr Ht Hin). rewrite Forall_forall in Hids. rewrite (inside_added r ts Hr Ht Hin (Hids r ltac:(by apply list_elem_of_In) ltac:(by exists ts))). cbn. unfold cell_bins. cbn [fst snd]. rewrite bool_decide_true by by apply (window r ts). by destruct (rollup_key st (stream_of r) w) as [[key|]| |].
    - rewrite outside_added by done. cbn. destruct (line_entry_case k r) as [->|(ts & Ht & ->)]; [done|]. cbn. unfold cell_bins. cbn [fst]. rewrite bool_decide_false; [done|]. intros Hb. apply Ho. exists ts. split; [done|]. by apply (window r ts). }
  unfold run_bins, line_entries. clear -Hstep. revert f. induction rows as [|r l IH]; intros f; [done|]. cbn [map flat_map fold_left]. rewrite fold_left_app, <- Hstep by by left. apply IH. intros r' g Hr. apply Hstep. by right.
Qed.

Lemma same_bins f : Forall (fun e => is_ok (row_added st buckets w e)) t -> Forall (fun r => inside r -> hides_ids st r) rows -> run_bins (row_added st buckets w) t f = run_bins (line_added st w) rows f.
Proof.
  intros Hr Hl. rewrite row_bins, line_bins by done. unfold t. rewrite (counts_fold (fun _ => True) cell_bins); try done; [by intros; apply cell_bins_comm|by intros; apply cell_bins_adds|apply line_entries_range|constructor].
Qed.
End Lines.

(** * Whole scans *)

Section Answers.
Context {File : Type} `{Parquet File}.

(** The segments of a scan, one after the other. *)
Definition scan_files (scan_ : option State) (files : list File) (w : Window) : option State := fold_left (fun s file => snd (log_metric_scan_add s file w)) files scan_.

Lemma scan_files_none files w : scan_files None files w = None.
Proof. induction files as [|file files IH]; [done|]. exact IH. Qed.

Lemma scan_files_lines st0 w (segs : list (File * list LogLine)) : Forall reads (map (fun '(file, rows) => Lines file rows) segs) -> forall st st', since st0 st ->
  scan_files (Some st) (map fst segs) w = Some st' <-> foldM (line_step st0 w) st (flat_map snd segs) = Ok st'.
Proof.
  induction segs as [|[file rows] segs IH]; intros Hr st st' Hs; [cbn; split; by intros [= ->]|]. inversion Hr as [|? ? Hf Hrs]; subst. cbn [map flat_map fst snd]. rewrite foldM_app. unfold scan_files. cbn [fold_left log_metric_scan_add]. pose proof (scan_lines st0 st w file rows Hs Hf) as Hl.
  destruct (scan st file w) as [[[st1 chosen] kept]| |], (foldM (line_step st0 w) st rows) as [st2| |]; try done.
  - destruct Hl as [E Hs2]. cbn in E. subst st2. by apply IH.
  - cbn [snd]. fold (scan_files None (map fst segs) w). rewrite scan_files_none. done.
Qed.

Lemma window_buckets w buckets ts : whole_minutes (mkConfig (w_start w) (w_end w) None) -> (forall b, b ∈ buckets <-> b mod BUCKET_NS = 0 /\ w_start w <= b <= w_end w) -> I64_MIN + 2 * BUCKET_NS <= ts <= I64_MAX - 2 * BUCKET_NS ->
  w_start w <= ts <= w_end w <-> bucket_end ts ∈ (list_to_set buckets : gset Z).
Proof.
  intros [Hs He] Hb Ht. rewrite elem_of_list_to_set, Hb. destruct (bucket_end_spec ts Ht) as [Hm Hbk]. cbn in Hs, He. unfold BUCKET_NS in *. split; [intros Hin; split; [done|]|intros [_ Hin]]; dlia.
Qed.

Lemma option_below {A} (a b : option A) : (forall x, a = Some x -> b = Some x) -> a = None \/ a = b.
Proof. intros Hab. destruct a as [x|]; [right; symmetry; by apply Hab|by left]. Qed.

(** C15. A rollup answers as its lines. For a window of whole minutes, a binned
    scan that reads the rollup of some segments ends in the same state as the
    scan that reads the lines of those segments, or the rollup is refused; and it
    is refused only with the lines, when the grouping drops the trace and span
    identifiers or no line of the window has any. *)
Theorem rollup_answers_lines (st : State) (w : Window) (buckets : list Z) (p : Part) :
  plain st -> (exists f, binned st f) -> line_filters w = [] -> whole_minutes (mkConfig (w_start w) (w_end w) None) ->
  (forall b, b ∈ buckets <-> b mod BUCKET_NS = 0 /\ w_start w <= b <= w_end w) -> part_ok (w_start w) (w_end w) p ->
  let through := snd (log_metric_scan_rollup (Some st) p.(p_rollup) buckets (w_select w)) in
  let lines := scan_files (Some st) (map fst p.(p_segments)) w in
  (through = None \/ through = lines) /\ (drops_ids st = true \/ Forall (fun r => inside w r -> no_ids r) (part_rows p) -> through = lines) /\
  forall st', lines = Some st' -> plain st' /\ exists f, binned st' f.
Proof.
  intros Hp [f Hf] Hw Hm Hb Hpart through lines. destruct (part_written _ _ _ Hpart) as [[[sources Hwr] _] Hcnt]. destruct Hpart as [Hreads _ [C1 C2] Htimes Hsmall]. set (k := new_config (p_start p) (p_end p) []) in *. set (rows := part_rows p) in *.
  assert (Hs : since st st). { split; [done|]. split; [|by left]. destruct Hf as [(m & -> & _) _ _]. done. }
  assert (Hwin : forall r ts, r ∈ rows -> l_time r = Some ts -> w_start w <= ts <= w_end w <-> bucket_end ts ∈ (list_to_set buckets : gset Z)).
  { intros r ts Hr Ht. apply window_buckets; [done..|]. rewrite Forall_forall in Htimes. specialize (Htimes r ltac:(by apply list_elem_of_In)). unfold safe_time in Htimes. by rewrite Ht in Htimes. }
  assert (Hcov : forall r ts, r ∈ rows -> l_time r = Some ts -> w_start w <= ts <= w_end w -> line_entry k r = Some (bucket_end ts, stream_of r, line_cell r)).
  { intros r ts _ Ht Hin. unfold line_entry. rewrite Ht. replace ((k_start k <=? ts) && (ts <=? k_end k) && admits k (bucket_end ts)) with true; [done|]. symmetry. cbn. rewrite andb_true_r. apply andb_true_iff. split; apply Z.leb_le; lia. }
  set (w' := mkWindow I64_MIN I64_MAX (w_select w) []). assert (Hrow : row_added st (list_to_set buckets) w' = row_added st (list_to_set buckets) w) by done.
  pose proof (add_rollup_rows st (list_to_set buckets) w' (part_tally p) sources (p_rollup p) Hs Hwr) as Hroll.
  assert (Hlines : forall st', lines = Some st' <-> Forall (fun r => is_ok (line_added st w r)) rows /\ size_of (run_bins (line_added st w) rows f) <= max_samples st /\ binned st' (run_bins (line_added st w) rows f) /\ exists m n, st' = set_bins st m n).
  { intros st'. unfold lines. rewrite (scan_files_lines st w (p_segments p) Hreads st st' Hs). apply run_exact. done. }
  assert (Hthrough : forall st', through = Some st' <-> Forall (fun e => is_ok (row_added st (list_to_set buckets) w e)) (part_tally p) /\ size_of (run_bins (row_added st (list_to_set buckets) w) (part_tally p) f) <= max_samples st /\ binned st' (run_bins (row_added st (list_to_set buckets) w) (part_tally p) f) /\ exists m n, st' = set_bins st m n).
  { intros st'. rewrite <- (run_exact (row_added st (list_to_set buckets) w) (part_tally p) st f st' Hf). unfold through, log_metric_scan_rollup. fold w'. unfold row_step in Hroll. rewrite Hrow in Hroll. destruct (add_rollup st (p_rollup p) _ w') as [[st1 n]| |], (foldM _ st (part_tally p)) as [st2| |]; cbn in Hroll |- *; try done. subst st2. split; by intros [= ->]. }
  assert (Hto : forall st', through = Some st' -> lines = Some st').
  { intros st' E. apply Hthrough in E as (Hok & Hsz & Hbn & Hset). pose proof (rows_ok_lines st w (list_to_set buckets) k rows Hw Hwin Hcov Hcnt Hsmall Hok) as Hl. apply Hlines. assert (Hh : Forall (fun r => inside w r -> hides_ids st r) rows) by (eapply Forall_impl; [|exact Hl]; by intros r [_ ?]).
    pose proof (same_bins st w (list_to_set buckets) k rows Hw Hwin Hcov Hcnt Hsmall f Hok Hh) as Hsame. unfold part_tally in Hsz, Hbn. fold rows in Hsz, Hbn. fold k in Hsz, Hbn. rewrite Hsame in Hsz, Hbn. split; [eapply Forall_impl; [|exact Hl]; by intros r [? _]|done]. }
  split; [by apply option_below|]. split.
  - intros Hids. assert (Hh : Forall (fun r => inside w r -> hides_ids st r) rows) by (destruct Hids as [Hd|Hn]; [apply Forall_forall; intros r _ _; by left|eapply Forall_impl; [|exact Hn]; intros r Hr Hin; right; by apply Hr]). apply option_eq. intros st'. split; [apply Hto|]. intros E.
    apply Hlines in E as (Hok & Hsz & Hbn & Hset). apply Hthrough. pose proof (lines_ok_rows st w (list_to_set buckets) k rows Hw Hwin Hcov Hcnt Htimes Hsmall Hok Hh) as Hok'. pose proof (same_bins st w (list_to_set buckets) k rows Hw Hwin Hcov Hcnt Hsmall f Hok' Hh) as Hsame. unfold part_tally. fold rows. fold k. rewrite Hsame. done.
  - intros st' E. apply Hlines in E as (_ & _ & Hbn & m & n & ->). split; [done|by eexists].
Qed.
End Answers.

(** * The sample rollup, scanned *)

Import RollupSample.

Lemma rollup_answers_lines_witness : let st := binned_new VBytes (By [str "app"]) 100 in let w := mkWindow 1 120000000000 (mkSelection (Some (str "api")) []) [] in
  snd (log_metric_scan_rollup (Some st) (p_rollup (part rows)) [60000000000; 120000000000] (w_select w)) = scan_files (Some st) [Segment rows] w /\
  option_map finish_series (scan_files (Some st) [Segment rows] w) = Some [([(str "app", str "web")], [(60000000000, SInt 10)])] /\
  (forall st', scan_files (Some st) [Segment rows] w = Some st' -> plain st').
Proof.
  intros st w. assert (Hb : forall b, b ∈ [60000000000; 120000000000] <-> b mod BUCKET_NS = 0 /\ w_start w <= b <= w_end w).
  { intros b. rewrite !elem_of_cons. unfold BUCKET_NS. cbn [w w_start w_end]. split; [intros [->|[->|Hx]]; [split; [reflexivity|lia]|split; [reflexivity|lia]|by apply not_elem_of_nil in Hx]|]. intros [Hm Hr]. assert (b = 60000000000 \/ b = 120000000000) as [->| ->] by dlia; [by left|by right; left]. }
  destruct (rollup_answers_lines st w [60000000000; 120000000000] (part rows) ltac:(done) ltac:(exists ∅; by apply binned_new_binned) eq_refl ltac:(split; vm_compute; reflexivity) Hb (proj1 part_rows_ok)) as (_ & Heq & Hst). split; [|split; [vm_compute; reflexivity|]].
  - apply Heq. by left.
  - intros st' E. by apply Hst.
Defined.
