(* ===== verification/LogScan.v ===== *)
(** Log metric scans, exactly (log_metric.rs): the samples a scan keeps are those
    of the lines its selection and pipeline keep, in order, and the answer packs
    them so that they read back. *)

From stdpp Require Import gmap.
From S2P Require Import Prelude Utf8 External Float64 OrdMap QueryFilter LogLabels LogRollup LogMetric.

(** * What a line is to a scan *)

Inductive Outcome : Type := Skipped | Dropped | Kept (k : SeriesKey) (ts : Z) (s : Sample).

Definition line_sample (st : State) (ts : Z) (line : bytes) (m : Labels) : Res Outcome :=
  let unwrapped := match st.(value) with VUnwrap name => nonempty (find name m) | _ => None end in
  if match st.(value) with VUnwrap _ => bool_decide (unwrapped = None) | _ => false end then Ok Dropped
  else if has_value (find ERROR m) then if st.(drop_errors) then Ok Dropped else Err Pipeline
  else
    let? sample :=
      match st.(value) with
      | VCount => Ok (SFloat F64_ONE)
      | VBytes => let? n := line_size line in Ok (SInt n)
      | VUnwrap _ => unwrap_value unwrapped
      end in
    Ok match sample with
       | SError => if st.(drop_errors) then Dropped else Kept (key st m) ts sample
       | _ => Kept (key st m) ts sample
       end.

(** The labels of the line, freshly built. *)
Definition line_base (r : LogLine) : Res EntryLabels :=
  entry_labels (default [] r.(l_resource)) (default [] r.(l_attributes)) r.(l_service) r.(l_level) r.(l_trace) r.(l_span).

(** Selected by time, stream and text. *)
Definition chosen_line (w : Window) (r : LogLine) (ts : Z) : bool :=
  (w.(w_start) <=? ts) && (ts <=? w.(w_end)) && match is_selected w r with Ok b => b | _ => false end && forallb (fun f => matches f (line_of r)) w.(line_filters).

Definition outcome (st : State) (w : Window) (r : LogLine) : Res Outcome :=
  match r.(l_time) with
  | None => Ok Skipped
  | Some ts =>
      if negb (chosen_line w r ts) then Ok Skipped
      else if bad_body r then Err Fallback
      else
        let? base := line_base r in
        let? labels := pipeline st.(stages) (line_of r) base in
        match labels with Some m => line_sample st ts (line_of r) m | None => Ok Dropped end
  end.

Definition is_chosen (o : Outcome) : Z := match o with Skipped => 0 | _ => 1 end.
Definition is_kept (o : Outcome) : Z := match o with Kept _ _ _ => 1 | _ => 0 end.

(** The scan with its counts after an outcome. *)
Abbreviation Counts := (State * Z * Z)%type.
Definition take_outcome (x : Counts) (o : Outcome) : Res Counts :=
  let '(st, chosen, kept) := x in
  match o with
  | Kept k ts s =>
      let n := wrap_u64 (st.(samples) + 1) in
      if st.(max_samples) <? n then Err Limit
      else Ok (set_series st (<[k := default [] (st.(series) !! k) ++ [(ts, s)]]> st.(series)) n, chosen + 1, kept + 1)
  | _ => Ok (st, chosen + is_chosen o, kept)
  end.

(** A scan with a pipeline that started as [st0]. *)
Definition sampling (st0 st : State) : Prop := st0.(patterns) = None /\ st0.(bins) = None /\ exists m n, st = set_series st0 m n.

Definition take_line (st0 : State) (w : Window) (x : Counts) (r : LogLine) : Res Counts := let? o := outcome st0 w r in take_outcome x o.

Lemma unwrap_answers v : unwrap_value v <> Fuel.
Proof. unfold unwrap_value. destruct v as [text|]; [|done]. destruct (split_at is_exponent _) as [m e]. destruct (split_at _ m) as [wh fr]. cbv zeta. destruct (_ && exponent_ok e); [by destruct (f64_is_finite _)|]. by destruct (_ && _). Qed.

Lemma line_size_answers line : line_size line <> Fuel.
Proof. unfold line_size, checked_i64. by destruct (_ && _). Qed.

Lemma line_sample_answers st ts line m : line_sample st ts line m <> Fuel.
Proof.
  unfold line_sample. cbv zeta. destruct (match value st with VUnwrap _ => bool_decide _ | _ => _ end); [done|]. destruct (has_value _); [by destruct (drop_errors st)|]. destruct (value st) as [| |name].
  - done.
  - pose proof (line_size_answers line). by destruct (line_size line).
  - pose proof (unwrap_answers (nonempty (find name m))). by destruct (unwrap_value _).
Qed.

Lemma observe_sampled st0 st ts line m chosen kept : sampling st0 st ->
  match observe st ts line m with Ok (st', one) => Ok (st', chosen + 1, kept + Z.b2z one) | Err e => Err e | Fuel => Fuel end = let? o := line_sample st0 ts line m in take_outcome (st, chosen, kept) o.
Proof.
  intros (Hp & Hb & mm & n & ->). unfold observe, line_sample. cbn [value drop_errors bins set_series]. rewrite Hb. rewrite (bool_decide_false (is_Some None)) by (by intros [? ?]). cbv zeta. cbn [fst snd].
  assert (Hd : forall s, Ok (s, chosen + 1, kept + Z.b2z false) = (Ok (s, chosen + 1, kept) : Res Counts)) by (intros s; cbn; by rewrite Z.add_0_r).
  destruct (match value st0 with VUnwrap _ => bool_decide _ | _ => _ end); [by rewrite Hd|]. destruct (has_value _); [destruct (drop_errors st0); [by rewrite Hd|done]|].
  assert (Hpush : forall s, match push_sample (set_series st0 mm n) ts s m with Ok (st', one) => Ok (st', chosen + 1, kept + Z.b2z one) | Err e => Err e | Fuel => Fuel end = take_outcome (set_series st0 mm n, chosen, kept) (Kept (key st0 m) ts s)).
  { intros s. unfold push_sample, take_outcome. change (key (set_series st0 mm n) m) with (key st0 m). cbv zeta. by destruct (_ <? _). }
  destruct (match value st0 with VCount => _ | VBytes => _ | VUnwrap _ => _ end) as [[f|i|]| |]; [apply Hpush|apply Hpush| |done..]. destruct (drop_errors st0); [by rewrite Hd|apply Hpush].
Qed.

Lemma take_outcome_sampling st0 st chosen kept o st' c' k' : sampling st0 st -> take_outcome (st, chosen, kept) o = Ok (st', c', k') -> sampling st0 st'.
Proof.
  intros (Hp & Hb & m & n & ->). unfold take_outcome. destruct o as [| |k ts s]; [intros [= <- _ _]; split; [done|]; split; [done|]; by exists m, n..|]. cbv zeta. destruct (_ <? _); [done|]. intros [= <- _ _]. split; [done|]. split; [done|]. by eexists _, _.
Qed.

(** * Pipelines answer *)

Lemma logfmt_answers line : logfmt line <> Fuel.
Proof.
  unfold logfmt. destruct (forallb _ line); [|done]. cbn [negb]. pose proof (logfmt_loop_ok (S (length line)) line [] ∅ ltac:(lia)) as Hl. destruct (logfmt_loop _ _ _ _); [done|done|]. intros _. apply Hl; [|constructor|constructor]. intros k. split; intros Hk; [by apply not_elem_of_empty in Hk|by apply not_elem_of_nil in Hk].
Qed.

Lemma label_number_answers text : label_number text <> Fuel.
Proof.
  unfold label_number. cbv zeta. destruct (digits _); [by destruct (decimal_i64 text)|]. destruct (split_at is_exponent _) as [m e]. destruct (split_at _ m) as [wh fr]. destruct (_ || negb (exponent_ok e)); [done|]. by destruct (f64_is_finite _).
Qed.

Lemma evaluate_answers f m : evaluate f m <> Fuel.
Proof.
  induction f as [l IHl r IHr|l IHl r IHr|name neg v|name neg re|name op v]; cbn [evaluate].
  - destruct (evaluate l m); [|done..]. by destruct (evaluate r m).
  - destruct (evaluate l m) as [a| |]; [|done..]. by destruct a.
  - done.
  - done.
  - destruct (find name m) as [text|]; [|done]. pose proof (label_number_answers text). destruct (label_number text) as [n| |]; [|done..]. unfold compare. by destruct (partial_cmp _ _).
Qed.

Lemma pipeline_answers stages line base : pipeline stages line base <> Fuel.
Proof.
  unfold pipeline. generalize (labels base, (∅ : gset bytes)). induction stages as [|s stages IH]; intros acc; [done|]. cbn [pipeline_loop]. assert (Hs : stage_step line base s acc <> Fuel).
  { destruct s as [neg needle|neg re| |caps names|f|names]; cbn [stage_step]; try done.
    - pose proof (logfmt_answers line). by destruct (logfmt line).
    - destruct (caps line) as [groups|]; [|done]. pose proof (foldM_not_fuel (capture base groups) acc names ltac:(intros a x _; unfold capture; cbv zeta; by repeat case_match)). by destruct (foldM _ _ _).
    - pose proof (evaluate_answers f (fst acc)). by destruct (evaluate f (fst acc)). }
  destruct (stage_step line base s acc) as [[acc'|]| |]; [apply IH|done..].
Qed.

Lemma take_outcome_answers x o : take_outcome x o <> Fuel.
Proof. destruct x as [[st chosen] kept], o; cbn; try done. by destruct (_ <? _). Qed.

Lemma outcome_answers st0 w r : outcome st0 w r <> Fuel.
Proof.
  unfold outcome. destruct (l_time r) as [ts|]; [|done]. destruct (negb _); [done|]. destruct (bad_body r); [done|]. pose proof (entry_labels_answers (default [] (l_resource r)) (default [] (l_attributes r)) (l_service r) (l_level r) (l_trace r) (l_span r)). unfold line_base. destruct (entry_labels _ _ _ _ _ _) as [base| |]; [|done..].
  pose proof (pipeline_answers (stages st0) (line_of r) base). destruct (pipeline _ _ _) as [[m|]| |]; [apply line_sample_answers|done..].
Qed.

(** * A scan takes the outcomes of its lines *)

Definition follows (st0 : State) (x : Scanning) (y : Counts) : Prop :=
  let '(st, bases, chosen, kept) := x in y = (st, chosen, kept) /\ bases_ok bases /\ sampling st0 st.

Lemma scan_row_outcome st0 w x y r : follows st0 x y -> sim (follows st0) (scan_row w x r) (take_line st0 w y r).
Proof.
  destruct x as [[[st bases] chosen] kept]. intros (-> & Hb & Hs). unfold take_line, outcome, scan_row, chosen_line. assert (Hskip : sim (E := Error) (follows st0) (Ok (st, bases, chosen, kept)) (Ok (st, chosen + 0, kept))) by (cbn; split; [by rewrite Z.add_0_r|done]).
  destruct (l_time r) as [ts|]; [|exact Hskip]. replace ((ts <? w_start w) || (w_end w <? ts)) with (negb ((w_start w <=? ts) && (ts <=? w_end w))) by (by rewrite negb_andb, <- !Z.ltb_antisym). destruct (_ && _); [|exact Hskip]. cbn [negb andb]. unfold is_selected. destruct (selected_answers (w_select w) (default [] (l_resource r)) (l_service r) (l_level r)) as [b ->]. destruct b; [|exact Hskip]. cbn [negb andb]. destruct (forallb _ _); [|exact Hskip]. cbn [negb].
  destruct Hs as (Hp & Hbn & m & n & ->). cbn [patterns set_series stages]. rewrite Hp. destruct (bad_body r); [done|]. pose proof (base_of_exact bases r Hb) as Hbase. unfold line_base. destruct (base_of bases r) as [[bases' base]|e|]; [|by rewrite Hbase|done]. destruct Hbase as [Hb' ->].
  pose proof (pipeline_answers (stages st0) (line_of r) base). destruct (pipeline _ _ _) as [[lbl|]| |]; [| |done|done]; [|cbn; split; [done|]; split; [done|]; split; [done|]; split; [done|]; by exists m, n].
  assert (Hs : sampling st0 (set_series st0 m n)) by (split; [done|]; split; [done|]; by exists m, n). pose proof (observe_sampled st0 _ ts (line_of r) lbl chosen kept Hs) as Ho. pose proof (line_sample_answers st0 ts (line_of r) lbl). destruct (line_sample st0 ts (line_of r) lbl) as [o|e|]; [|destruct (observe _ _ _ _) as [[? ?]| |]; try done; cbn; by injection Ho as ->|done].
  pose proof (take_outcome_sampling st0 (set_series st0 m n) chosen kept o) as Hts. pose proof (take_outcome_answers (set_series st0 m n, chosen, kept) o). destruct (take_outcome _ o) as [[[st' c'] k']|e|]; destruct (observe _ _ _ _) as [[st2 one]| |]; try done; [|cbn; by injection Ho as ->]. injection Ho as -> -> ->. cbn. split; [done|]. split; [done|]. by apply (Hts st' c' k' Hs).
Qed.

Section Files.
Context {File : Type} `{Parquet File}.

Lemma scan_outcomes st0 st w file rows : sampling st0 st -> reads (Lines file rows) -> sim (fun x y => x = y /\ sampling st0 (fst (fst x))) (scan st file w) (foldM (take_line st0 w) (st, 0, 0) rows).
Proof.
  intros Hs (batches & Hread & <-). destruct (read_sizes file 8192 4096 batches ltac:(done) ltac:(done) Hread) as (bs & Hread' & <-). unfold scan. rewrite Hread'. cbn [ok_or]. rewrite foldM_map, <- foldM_concat. apply foldM_sim; [|done].
  intros [[st1 chosen] kept] y batch _ [<- Hs1]. cbn in Hs1. unfold scan_batch. cbn [ok_or]. pose proof (foldM_sim (follows st0) (scan_row w) (take_line st0 w) batch (fun a b x _ Hab => scan_row_outcome st0 w a b x Hab) (st1, ∅, chosen, kept) (st1, chosen, kept) (conj eq_refl (conj bases_empty Hs1))) as Hf.
  destruct (foldM (scan_row w) _ batch) as [[[[st' bases'] c'] k']| |], (foldM (take_line st0 w) _ batch) as [[[st2 c2] k2]| |]; try done. cbn in Hf. destruct Hf as (Heq & _ & Hs'). injection Heq as -> -> ->. done.
Qed.
End Files.

(** * The series *)

Definition outcome_of (st : State) (w : Window) (r : LogLine) : Outcome := match outcome st w r with Ok o => o | _ => Skipped end.
Definition kept_sample (o : Outcome) : list (SeriesKey * (Z * Sample)) := match o with Kept k ts s => [(k, (ts, s))] | _ => [] end.
(** The samples the lines keep, in order. *)
Definition kept_of (st : State) (w : Window) (rows : list LogLine) : list (SeriesKey * (Z * Sample)) := flat_map (fun r => kept_sample (outcome_of st w r)) rows.
Definition samples_at (k : SeriesKey) (l : list (SeriesKey * (Z * Sample))) : list (Z * Sample) := map snd (List.filter (fun e => bool_decide (fst e = k)) l).
Definition total_of (f : Outcome -> Z) (st : State) (w : Window) (rows : list LogLine) : Z := fold_right (fun r n => f (outcome_of st w r) + n) 0 rows.

(** A list of samples as an entry of the map: none when it is empty. *)
Definition some_samples (l : list (Z * Sample)) : option (list (Z * Sample)) := match l with [] => None | _ => Some l end.

(** The scan has kept [l]. *)
Record holds (st0 : State) (l : list (SeriesKey * (Z * Sample))) (st : State) : Prop := mkHolds {
  h_state : sampling st0 st;
  h_samples : st.(samples) = len l;
  h_budget : len l <= st.(max_samples) < U64_MAX;
  h_series : forall k, st.(series) !! k = some_samples (samples_at k l)
}.

Lemma samples_at_snoc k l k' x : samples_at k (l ++ [(k', x)]) = samples_at k l ++ (if bool_decide (k' = k) then [x] else []).
Proof. unfold samples_at. rewrite List.filter_app, map_app. cbn [List.filter fst]. by case_bool_decide. Qed.

Lemma some_samples_snoc l x : some_samples (l ++ [x]) = Some (l ++ [x]).
Proof. by destruct l. Qed.

Lemma default_some l : default [] (some_samples l) = l.
Proof. by destruct l. Qed.

Lemma take_outcome_holds st0 l st chosen kept o : holds st0 l st ->
  match take_outcome (st, chosen, kept) o with
  | Ok (st', c', k') => holds st0 (l ++ kept_sample o) st' /\ c' = chosen + is_chosen o /\ k' = kept + is_kept o
  | Err e => e = Limit /\ st.(max_samples) < len (l ++ kept_sample o)
  | Fuel => False
  end.
Proof.
  intros [Hst Hs [Hb Hu] Hser]. destruct o as [| |k ts s]; cbn [take_outcome kept_sample is_chosen is_kept]; [rewrite app_nil_r; split; [by constructor|lia]..|]. assert (Hw : wrap_u64 (samples st + 1) = len l + 1) by (rewrite Hs; pose proof (len_nonneg l); apply Z.mod_small; unfold U64, U64_MAX in *; lia). rewrite Hw. cbv zeta.
  rewrite len_app. change (len [(k, (ts, s))]) with 1. destruct (Z.ltb_spec (max_samples st) (len l + 1)); [by split|]. split; [|lia]. constructor; cbn [samples max_samples series set_series].
  - destruct Hst as (Hp & Hbn & m & n & ->). split; [done|]. split; [done|]. by eexists _, _.
  - by rewrite len_app.
  - rewrite len_app. change (len [(k, (ts, s))]) with 1. lia.
  - intros k'. rewrite samples_at_snoc. destruct (decide (k = k')) as [<-|Hk].
    + rewrite lookup_insert_eq, Hser, default_some, bool_decide_true, some_samples_snoc by done. done.
    + rewrite lookup_insert_ne, bool_decide_false, app_nil_r by done. apply Hser.
Qed.

Lemma take_lines_holds st0 w rows : forall l st chosen kept, holds st0 l st ->
  match foldM (take_line st0 w) (st, chosen, kept) rows with
  | Ok (st', c', k') => Forall (fun r => is_ok (outcome st0 w r)) rows /\ holds st0 (l ++ kept_of st0 w rows) st' /\ c' = chosen + total_of is_chosen st0 w rows /\ k' = kept + total_of is_kept st0 w rows
  | Err e => (exists r, r ∈ rows /\ outcome st0 w r = Err e) \/ e = Limit /\ st0.(max_samples) < len (l ++ kept_of st0 w rows)
  | Fuel => False
  end.
Proof.
  induction rows as [|r rows IH]; intros l st chosen kept Hh; cbn [foldM kept_of flat_map total_of fold_right]; [rewrite app_nil_r; split; [constructor|]; split; [done|lia]|]. change (take_line st0 w (st, chosen, kept) r) with (let? o := outcome st0 w r in take_outcome (st, chosen, kept) o). pose proof (outcome_answers st0 w r) as Hn. destruct (outcome st0 w r) as [o|e|] eqn:Eo; [|left; exists r; by split; [left|]|done].
  assert (Ho : outcome_of st0 w r = o) by (unfold outcome_of; by rewrite Eo). rewrite Ho. pose proof (take_outcome_holds st0 l st chosen kept o Hh) as Ht. fold (kept_of st0 w rows). destruct (take_outcome (st, chosen, kept) o) as [[[st1 c1] k1]|e|]; [| |done].
  - destruct Ht as (Hh1 & -> & ->). specialize (IH _ _ (chosen + is_chosen o) (kept + is_kept o) Hh1). rewrite <- app_assoc in IH. destruct (foldM (take_line st0 w) _ rows) as [[[st2 c2] k2]|e|]; [|destruct IH as [(r' & Hr & He)|He]; [left; exists r'; by split; [right|]|by right]|done].
    destruct IH as (Hok & Hh2 & -> & ->). split; [constructor; [by rewrite Eo|done]|]. split; [done|]. fold (total_of is_chosen st0 w rows). fold (total_of is_kept st0 w rows). lia.
  - destruct Ht as [-> Hm]. right. split; [done|]. assert (Hms : max_samples st = max_samples st0) by (destruct Hh as [(_ & _ & m & n & ->) _ _ _]; done). rewrite Hms in Hm. rewrite !len_app in *. pose proof (len_nonneg (kept_of st0 w rows)). lia.
Qed.

(** * The packed answer *)

Definition from_be (b : bytes) : Z := from_le_bytes (rev b).
(** A packed sample, read back. *)
Definition unpack_sample (b : bytes) : Z * Sample :=
  (as_i64 (from_be (take 8 b)),
   let bits := from_be (drop 9 b) in
   match get b 8 with Some 0 => SFloat bits | Some 2 => SInt (as_i64 bits) | _ => SError end).
Fixpoint unpack (n : nat) (b : bytes) : list (Z * Sample) := match n with O => [] | S n => unpack_sample (take 17 b) :: unpack n (drop 17 b) end.

Definition in_i64 (z : Z) : Prop := I64_MIN <= z <= I64_MAX.
Definition sample_ok (x : Z * Sample) : Prop := in_i64 (fst x) /\ match snd x with SFloat f => 0 <= f < U64 | SInt n => in_i64 n | SError => True end.

Lemma be8_length v : length (to_be_bytes v) = 8%nat.
Proof. unfold to_be_bytes. rewrite length_rev. pose proof (to_le_bytes_len 8 (wrap_u64 v)) as Hl. unfold len in Hl. lia. Qed.

Lemma from_be_to_be v : from_be (to_be_bytes v) = wrap_u64 v.
Proof. unfold from_be, to_be_bytes. rewrite rev_involutive. apply from_to_le_bytes. unfold wrap_u64, U64. change (256 ^ Z.of_nat 8) with 18446744073709551616. apply Z.mod_pos_bound. lia. Qed.

Lemma as_i64_wrap_u64 v : in_i64 v -> as_i64 (wrap_u64 v) = v.
Proof. intros Hv. transitivity (wrap_i64 v); [|by apply wrap_i64_id]. unfold wrap_i64, as_i64, wrap_u64. by rewrite Z.mod_mod. Qed.

Lemma packed_length x : length (packed_sample x) = 17%nat.
Proof. unfold packed_sample. rewrite length_app, be8_length. destruct (snd x); cbn [length]; by rewrite be8_length. Qed.

Lemma unpack_packed x : sample_ok x -> unpack_sample (packed_sample x) = x.
Proof.
  intros [Ht Hs]. destruct x as [ts s]. cbn [fst snd] in *. unfold unpack_sample, packed_sample. cbn [fst snd]. set (tail_ := match s with SFloat f => _ | SInt n => _ | SError => _ end). pose proof (be8_length ts) as Hl.
  rewrite take_app_length', from_be_to_be, as_i64_wrap_u64 by done. f_equal. assert (Hg : get (to_be_bytes ts ++ tail_) 8 = head tail_). { unfold tail_. destruct s; cbn [head]; replace 8 with (len (to_be_bytes ts)) by (unfold len; by rewrite Hl); apply get_app_mid. }
  rewrite Hg. assert (Hd : drop 9 (to_be_bytes ts ++ tail_) = tail tail_). { rewrite drop_app, Hl, drop_ge by lia. cbn. by destruct tail_. }
  rewrite Hd. unfold tail_. destruct s as [f|n|]; cbn [head tail].
  - rewrite from_be_to_be. f_equal. apply Z.mod_small. done.
  - by rewrite from_be_to_be, as_i64_wrap_u64.
  - done.
Qed.

Lemma unpack_all l : Forall sample_ok l -> unpack (length l) (concat (map packed_sample l)) = l.
Proof.
  induction 1 as [|x l Hx Hl IH]; [done|]. cbn [map concat length unpack]. rewrite take_app_length' by (symmetry; apply packed_length). rewrite unpack_packed by done. rewrite drop_app_length' by (symmetry; apply packed_length). by rewrite IH.
Qed.

Lemma decimal_bits text : 0 <= decimal_f64 text < U64.
Proof. unfold decimal_f64, parse_f64. destruct (span is_digit _) as [ints t]. destruct (match t with [] => _ | _ => _ end) as [fracs t']. apply bits_of_spec_range. Qed.

Lemma unwrap_ok v s : unwrap_value v = Ok s -> sample_ok (0, s).
Proof.
  unfold unwrap_value. intros E. split; [split; done|]. destruct v as [text|]; [|by injection E as <-]. destruct (split_at is_exponent _) as [m e]. destruct (split_at _ m) as [wh fr]. cbv zeta in E. destruct (_ && exponent_ok e) in E; [|destruct (_ && _) in E; [by injection E as <-|done]].
  destruct (f64_is_finite _); [|done]. injection E as <-. apply decimal_bits.
Qed.

Lemma kept_ok st w r k ts s : outcome st w r = Ok (Kept k ts s) -> match r.(l_time) with Some t => in_i64 t | None => True end -> sample_ok (ts, s).
Proof.
  unfold outcome. intros E Ht. destruct (l_time r) as [t|]; [|done]. destruct (negb _); [done|]. destruct (bad_body r); [done|]. destruct (line_base r) as [base| |]; [|done..]. destruct (pipeline _ _ _) as [[m|]| |]; [|done..]. unfold line_sample in E. cbv zeta in E. destruct (match value st with VUnwrap _ => bool_decide _ | _ => _ end); [done|]. destruct (has_value _); [by destruct (drop_errors st)|].
  destruct (match value st with VCount => _ | VBytes => _ | VUnwrap _ => _ end) as [x| |] eqn:Ex; [|done..]. assert (Hx : sample_ok (0, x)).
  { destruct (value st); [injection Ex as <-; split; [split; done|unfold F64_ONE, U64; cbn; lia]| |by apply unwrap_ok in Ex]. unfold line_size, checked_i64 in Ex. destruct (_ && _) eqn:Eb in Ex; [|done]. injection Ex as <-. split; [split; done|]. cbn. apply andb_true_iff in Eb as [E1 E2]. apply Z.leb_le in E1, E2. split; lia. }
  destruct Hx as [_ Hx]. assert (Hk : ts = t /\ s = x) by (destruct x; [by injection E as _ <- <-..|destruct (drop_errors st); [done|by injection E as _ <- <-]]). destruct Hk as [-> ->]. by split.
Qed.

(** * Whole scans *)

Section Scans.
Context {File : Type} `{Parquet File}.

(** The segments of a scan, one after the other. *)
Fixpoint scan_adds (scan_ : option State) (files : list File) (w : Window) : list (Res (Z * Z)) * option State :=
  match files with
  | [] => ([], scan_)
  | file :: files =>
      let '(a, scan_) := log_metric_scan_add scan_ file w in
      let '(rest, scan_) := scan_adds scan_ files w in (a :: rest, scan_)
  end.

Abbreviation Segments := (list (File * list LogLine)).
Definition seg_counts (st : State) (w : Window) (seg : File * list LogLine) : Res (Z * Z) := Ok (total_of is_chosen st w (snd seg), total_of is_kept st w (snd seg)).

Lemma scan_adds_none files w : scan_adds None files w = (map (fun _ => Err Fallback) files, None).
Proof. induction files as [|file files IH]; [done|]. cbn [scan_adds log_metric_scan_add map]. by rewrite IH. Qed.

Lemma kept_of_app st w a b : kept_of st w (a ++ b) = kept_of st w a ++ kept_of st w b.
Proof. apply flat_map_app. Qed.

Lemma scan_adds_holds st0 w (segs : Segments) : Forall reads (map (fun '(file, rows) => Lines file rows) segs) -> forall l st, holds st0 l st ->
  match scan_adds (Some st) (map fst segs) w with
  | (answers, Some st') => Forall (fun r => is_ok (outcome st0 w r)) (flat_map snd segs) /\ answers = map (seg_counts st0 w) segs /\ holds st0 (l ++ kept_of st0 w (flat_map snd segs)) st'
  | (answers, None) => exists good seg bad e, segs = good ++ seg :: bad /\ answers = map (seg_counts st0 w) good ++ Err e :: map (fun _ => Err Fallback) bad /\
      ((exists r, r ∈ snd seg /\ outcome st0 w r = Err e) \/ e = Limit /\ st0.(max_samples) < len (l ++ kept_of st0 w (flat_map snd (good ++ [seg]))))
  end.
Proof.
  induction segs as [|[file rows] segs IH]; intros Hr l st Hh; [cbn; rewrite app_nil_r; by split; [constructor|]|]. inversion Hr as [|? ? Hf Hrs]; subst. cbn [map scan_adds fst]. unfold log_metric_scan_add. pose proof (scan_outcomes st0 st w file rows (h_state _ _ _ Hh) Hf) as Hs. pose proof (take_lines_holds st0 w rows l st 0 0 Hh) as Ht.
  destruct (scan st file w) as [[[st1 c1] k1]|e|], (foldM (take_line st0 w) (st, 0, 0) rows) as [[[st2 c2] k2]|e'|]; try done.
  - destruct Hs as [Heq _]. injection Heq as -> -> ->. destruct Ht as (Hok & Hh1 & -> & ->). specialize (IH Hrs _ _ Hh1). destruct (scan_adds (Some st2) (map fst segs) w) as [answers [st3|]].
    + destruct IH as (Hok' & -> & Hh'). rewrite <- app_assoc, <- kept_of_app in Hh'. split; [cbn; by apply Forall_app|]. by split.
    + destruct IH as (good & seg & bad & e & -> & -> & He). exists ((file, rows) :: good), seg, bad, e. split; [done|]. split; [done|]. cbn [app flat_map snd]. by rewrite kept_of_app, app_assoc.
  - cbn in Hs. subst e'. rewrite scan_adds_none, map_map. exists [], (file, rows), segs, e. split; [done|]. split; [done|]. cbn [app flat_map snd]. by rewrite app_nil_r.
Qed.

Lemma series_nodup st : NoDup (map fst (scan_finish st)).
Proof.
  unfold scan_finish. rewrite map_map. cbn [fst]. unfold finish_series. destruct (bins st); [rewrite map_map; cbn [fst]|]; apply NoDup_fst_map_to_list.
Qed.

Lemma finish_holds st0 l st k packed : holds st0 l st -> (k, packed) ∈ scan_finish st <-> samples_at k l <> [] /\ packed = concat (map packed_sample (sort_by descending_leb (samples_at k l))).
Proof.
  intros Hh. destruct Hh as [(Hp & Hb & m & n & ->) _ _ Hs]. unfold scan_finish, finish_series. cbn [bins set_series series] in *. rewrite Hb, list_elem_of_In, in_map_iff. split.
  - intros ([k' x] & E & Hin). injection E as <- <-. apply list_elem_of_In, elem_of_map_to_list in Hin. rewrite Hs in Hin. cbn [snd]. by destruct (samples_at k' l); [|injection Hin as <-].
  - intros [Hne ->]. exists (k, samples_at k l). split; [done|]. apply list_elem_of_In, elem_of_map_to_list. rewrite Hs. by destruct (samples_at k l).
Qed.

Lemma kept_samples_ok st w rows k : Forall (fun r => match r.(l_time) with Some t => in_i64 t | None => True end) rows -> Forall sample_ok (samples_at k (kept_of st w rows)).
Proof.
  intros Ht. apply Forall_forall. intros x Hx. unfold samples_at in Hx. apply in_map_iff in Hx as ([k' y] & <- & Hx). apply filter_In in Hx as [Hx _]. unfold kept_of in Hx. apply in_flat_map in Hx as (r & Hr & Hx). rewrite Forall_forall in Ht. specialize (Ht r Hr). unfold outcome_of in Hx.
  destruct (outcome st w r) as [[| |k2 ts s]| |] eqn:E; try done. cbn in Hx. destruct Hx as [[= <- <-]|[]]. by apply (kept_ok st w r k2).
Qed.

(** C18. A log metric scan is exact. Over any segments, it ends with exactly the
    samples of the lines that its selection and pipeline keep, per series in the
    order of the lines, within the budget, and its answers count the lines chosen
    and kept; the packed answer has every series once and unpacks to its samples
    in descending order. Otherwise the error is that of a line of the segment
    that failed, or the budget is exceeded, and the scan is gone. *)
Theorem scan_exact (stages : list Stage) (value : Value) (drop_errors : bool) (drop_label : option bytes) (grouping : Grouping) (max : Z) (w : Window) (segs : Segments) :
  0 <= max < U64_MAX -> Forall reads (map (fun '(file, rows) => Lines file rows) segs) -> Forall (fun r => match r.(l_time) with Some t => in_i64 t | None => True end) (flat_map snd segs) ->
  let st0 := scan_new stages value drop_errors drop_label grouping max in
  let kept := kept_of st0 w (flat_map snd segs) in
  match scan_adds (Some st0) (map fst segs) w with
  | (answers, Some st) => Forall (fun r => is_ok (outcome st0 w r)) (flat_map snd segs) /\ answers = map (seg_counts st0 w) segs /\ len kept <= max /\
      NoDup (map fst (scan_finish st)) /\ (forall k, k ∈ map fst (scan_finish st) <-> samples_at k kept <> []) /\
      forall k packed, (k, packed) ∈ scan_finish st -> unpack (length (samples_at k kept)) packed = sort_by descending_leb (samples_at k kept)
  | (answers, None) => exists good seg bad e, segs = good ++ seg :: bad /\ answers = map (seg_counts st0 w) good ++ Err e :: map (fun _ => Err Fallback) bad /\
      ((exists r, r ∈ snd seg /\ outcome st0 w r = Err e) \/ e = Limit /\ max < len (kept_of st0 w (flat_map snd (good ++ [seg]))))
  end.
Proof.
  intros Hm Hr Ht st0 kept. assert (Hh : holds st0 [] st0). { constructor; cbn; [split; [done|]; split; [done|]; by exists ∅, 0|done|change (len (@nil (SeriesKey * (Z * Sample)))) with 0; lia|]. intros k. apply lookup_empty. }
  pose proof (scan_adds_holds st0 w segs Hr [] st0 Hh) as Ha. destruct (scan_adds _ _ _) as [answers [st|]]; [|exact Ha]. destruct Ha as (Hok & -> & Hst). cbn [app] in Hst. fold kept in Hst. split; [done|]. split; [done|]. split; [destruct Hst as [(_ & _ & m & n & ->) _ Hb _]; cbn in Hb; lia|]. split; [apply series_nodup|]. split.
  - intros k. rewrite list_elem_of_In, in_map_iff. split; [intros ([k' x] & <- & Hin); by apply list_elem_of_In, (finish_holds st0 kept st _ _ Hst) in Hin as [? _]|]. intros Hk. eexists (k, _). split; [done|]. apply list_elem_of_In, (finish_holds st0 kept st _ _ Hst). by split.
  - intros k packed Hin. apply (finish_holds st0 kept st _ _ Hst) in Hin as [_ ->]. set (l := samples_at k kept). pose proof (sort_by_perm descending_leb l) as Hp. rewrite <- (Permutation_length Hp). apply unpack_all. rewrite Hp. by apply kept_samples_ok.
Qed.
End Scans.

(** * A pipeline over two lines *)

Import RollupSample.
Lemma scan_exact_witness : let st0 := scan_new [Logfmt; FLabels (Num (str "n") CGt (Int 1))] (VUnwrap (str "n")) false None All 10 in let w := mkWindow 0 120000000000 (mkSelection None []) [] in
  let l := [mkLogLine (Some 5) None None (Some ([34] ++ str "n=2" ++ [34])) None None None None; mkLogLine (Some 6) None None (Some ([34] ++ str "n=1" ++ [34])) None None None None; mkLogLine (Some 7) None None (Some ([34] ++ str "n=2.5" ++ [34])) None None None None] in
  fst (scan_adds (Some st0) [Segment l] w) = [Ok (3, 2)] /\ map snd (kept_of st0 w l) = [(5, SFloat 0x4000000000000000); (7, SFloat 0x4004000000000000)] /\
  match scan_adds (Some st0) [Segment l] w with (_, Some st) => NoDup (map fst (scan_finish st)) /\ len (scan_finish st) = 2 | _ => False end.
Proof.
  intros st0 w l. split; [vm_compute; reflexivity|]. split; [vm_compute; reflexivity|].
  assert (Hread : Forall reads (map (fun '(file, rows) => Lines file rows) [(Segment l, l)])) by (constructor; [exists [l]; split; [reflexivity|apply app_nil_r]|constructor]).
  assert (Htime : Forall (fun r => match r.(l_time) with Some t => in_i64 t | None => True end) (flat_map snd [(Segment l, l)])) by (repeat (constructor; [split; vm_compute; discriminate|]); constructor).
  pose proof (scan_exact [Logfmt; FLabels (Num (str "n") CGt (Int 1))] (VUnwrap (str "n")) false None All 10 w [(Segment l, l)] ltac:(split; vm_compute; done) Hread Htime) as Hs. cbv zeta in Hs. fold st0 in Hs. cbn [map fst] in Hs.
  assert (Hlen : match scan_adds (Some st0) [Segment l] w with (_, Some st) => len (scan_finish st) = 2 | _ => False end) by (vm_compute; reflexivity).
  destruct (scan_adds (Some st0) [Segment l] w) as [answers [st|]]; [|exact Hlen]. split; [apply Hs|exact Hlen].
Defined.
