(* ===== verification/MetricSegment.v ===== *)
(** Rows of metric segments (metric_segment_parquet.rs): the label encodings of
    a series, the columns a segment stores for its rows, and what the writer
    asks of Parquet.

    The canonical bytes of a label set are shown to determine everything else
    that is stored for it. *)

From S2P Require Import Prelude OrdMap Utf8 External Float64 TermJson StableHash MetricPostings PostingsBuild.

Inductive EncodeError : Type := BadInput | Writer | PayloadTooLarge.

(** ** Labels as JSON *)

Definition hex_nibble (n : Z) : Z := if n <=? 9 then 48 + n else 97 + (n - 10).

Definition encode_json_byte (b : Z) : bytes :=
  if b =? 34 then [92; 34]
  else if b =? 92 then [92; 92]
  else if b =? 8 then [92; 98]
  else if b =? 9 then [92; 116]
  else if b =? 10 then [92; 110]
  else if b =? 12 then [92; 102]
  else if b =? 13 then [92; 114]
  else if b <? 0x20 then str "\u00" ++ [hex_nibble (Z.shiftr b 4); hex_nibble (Z.land b 0xf)]
  else [b].

Definition encode_json_string (s : bytes) : bytes := [34] ++ flat_map encode_json_byte s ++ [34].

(** The pairs behind the first are preceded by a comma. *)
Definition json_pair (e : bytes * bytes) : bytes := encode_json_string (fst e) ++ [58] ++ encode_json_string (snd e).
Definition json_pairs (l : list (bytes * bytes)) : bytes :=
  match l with [] => [] | e :: l => json_pair e ++ flat_map (fun e => 44 :: json_pair e) l end.
Definition labels_as_json (pairs : list (bytes * bytes)) : bytes := [123] ++ json_pairs pairs ++ [125].

Definition canonical_bytes (pairs : list (bytes * bytes)) : bytes :=
  fold_left (fun out '(n, v) => out ++ n ++ [SEP] ++ v ++ [SEP]) pairs [].

(** ** Encoded labels *)

Record EncodedLabels : Type := mkEncodedLabels { series_hash : Z; label_name : bytes; label_canonical : bytes; label_json : bytes }.

Definition split_pairs (c : bytes) : res unit (list (bytes * bytes)) := parse_canonical_pairs (length c) c.

(** Names in strictly increasing order, everything UTF-8. *)
Definition well_labelled `{SimdUtf8} (pairs : list (bytes * bytes)) : bool :=
  negb (existsb (fun '(a, b) => bytes_leb (fst b) (fst a)) (windows2 pairs)) &&
  negb (existsb (fun '(n, v) => negb (simd_from_utf8 n) || negb (simd_from_utf8 v)) pairs).

Definition name_of (pairs : list (bytes * bytes)) : bytes := default [] (label_value metric_name pairs).

Section Labels.
Context `{SimdUtf8} `{Xxh64}.
(** The capacity of the scratch buffer of the hash. *)
Variable capacity : Z.

Definition encoded (pairs : list (bytes * bytes)) (canonical : bytes) : EncodedLabels :=
  mkEncodedLabels (as_i64 (stable_hash capacity pairs)) (name_of pairs) canonical (labels_as_json pairs).

Definition from_canonical (canonical : bytes) : option EncodedLabels :=
  match split_pairs canonical with
  | Ok pairs => if well_labelled pairs then Some (encoded pairs canonical) else None
  | _ => None
  end.

(** The pairs of a label map, in the order of the iterator. *)
Definition label_pair (e : Term * Term) : option (bytes * bytes) :=
  match e with
  | (Binary k, Binary v) => if simd_from_utf8 k && simd_from_utf8 v then Some (k, v) else None
  | _ => None
  end.

Definition encode_labels (labels_term : Term) : res EncodeError EncodedLabels :=
  match labels_term with
  | Map entries =>
      let? pairs := ok_or (mapO label_pair entries) BadInput in
      let pairs := sort_by (fun a b => bytes_leb (fst a) (fst b)) pairs in
      Ok (encoded pairs (canonical_bytes pairs))
  | _ => Err BadInput
  end.
End Labels.

(** ** Stored rows *)

Record Row : Type := mkRow {
  series_id : Z;
  timestamp_ns : Z;
  start_timestamp_ms : option Z;
  value : Z;
  labels : EncodedLabels;
  otlp : option bytes;
  histogram : option bytes;
  exemplars : option bytes
}.

Inductive DataType : Type := DInt64 | DInt32 | DFloat64 | DUtf8 | DBinary.
#[export] Instance DataType_eq_dec : EqDecision DataType.
Proof. solve_decision. Defined.
Record Field : Type := mkField { field_name : bytes; data_type : DataType; nullable : bool }.

Definition base_fields : list Field :=
  [mkField (str "series_id") DInt64 false; mkField (str "timestamp_ns") DInt64 false; mkField (str "value") DFloat64 false;
   mkField (str "metric_name") DUtf8 false; mkField (str "labels_canonical") DBinary false; mkField (str "labels_json") DUtf8 false;
   mkField (str "otlp") DUtf8 true].
Definition schema (histograms exemplars starts : bool) : list Field :=
  base_fields ++ (if histograms then [mkField (str "histogram") DBinary true] else []) ++
  (if exemplars then [mkField (str "exemplars") DBinary true] else []) ++
  (if starts then [mkField (str "start_timestamp_ms") DInt64 true] else []).

(** [String::from_utf8_lossy]: every maximal malformed part becomes one U+FFFD. *)
Definition REPLACEMENT : bytes := [0xEF; 0xBF; 0xBD].
Fixpoint from_utf8_lossy (l : bytes) : bytes :=
  match l with
  | [] => []
  | b0 :: l1 =>
      if between 0 b0 0x7F then b0 :: from_utf8_lossy l1
      else if between 0xC2 b0 0xDF then
        match l1 with
        | b1 :: l2 => if is_cont b1 then b0 :: b1 :: from_utf8_lossy l2 else REPLACEMENT ++ from_utf8_lossy l1
        | [] => REPLACEMENT
        end
      else if between 0xE0 b0 0xEF then
        match l1 with
        | b1 :: l2 =>
            if second3 b0 b1 then
              match l2 with
              | b2 :: l3 => if is_cont b2 then b0 :: b1 :: b2 :: from_utf8_lossy l3 else REPLACEMENT ++ from_utf8_lossy l2
              | [] => REPLACEMENT
              end
            else REPLACEMENT ++ from_utf8_lossy l1
        | [] => REPLACEMENT
        end
      else if between 0xF0 b0 0xF4 then
        match l1 with
        | b1 :: l2 =>
            if second4 b0 b1 then
              match l2 with
              | b2 :: l3 =>
                  if is_cont b2 then
                    match l3 with
                    | b3 :: l4 => if is_cont b3 then b0 :: b1 :: b2 :: b3 :: from_utf8_lossy l4 else REPLACEMENT ++ from_utf8_lossy l3
                    | [] => REPLACEMENT
                    end
                  else REPLACEMENT ++ from_utf8_lossy l2
              | [] => REPLACEMENT
              end
            else REPLACEMENT ++ from_utf8_lossy l1
        | [] => REPLACEMENT
        end
      else REPLACEMENT ++ from_utf8_lossy l1
  end.

Definition append_string (b : bytes) : bytes := if from_utf8_ok b then b else from_utf8_lossy b.

(** One row of the columns; the optional ones are only written when some row
    has a value. *)
Record StoredRow : Type := mkStoredRow {
  c_series_id : Z; c_timestamp_ns : Z; c_value : Z; c_metric_name : bytes; c_labels_canonical : bytes; c_labels_json : bytes;
  c_otlp : option bytes; c_histogram : option bytes; c_exemplars : option bytes; c_start : option Z
}.
Definition has {A} (o : option A) : bool := match o with Some _ => true | None => false end.
Definition build_row (r : Row) : StoredRow :=
  mkStoredRow r.(series_id) r.(timestamp_ns) r.(value) (append_string r.(labels).(label_name)) r.(labels).(label_canonical)
    (append_string r.(labels).(label_json)) (option_map append_string r.(otlp)) r.(histogram) r.(exemplars) r.(start_timestamp_ms).
Definition build_batch (rows : list Row) : list Field * list StoredRow :=
  (schema (existsb (fun r => has r.(histogram)) rows) (existsb (fun r => has r.(exemplars)) rows)
     (existsb (fun r => has r.(start_timestamp_ms)) rows), map build_row rows).

(** The longest run of rows of one series decides the size of row groups. *)
Fixpoint long_run (previous : option Z) (run : Z) (rows : list Row) : bool :=
  match rows with
  | [] => false
  | r :: rows =>
      let run := if bool_decide (previous = Some r.(series_id)) then run + 1 else 1 in
      if 8192 <=? run then true else long_run (Some r.(series_id)) run rows
  end.
Definition row_group_size (rows : list Row) : Z :=
  if len rows <=? 8192 then 8192 else if long_run None 0 rows then 8192 else 65536.

(** Writing a batch with Parquet: the schema, the rows, the bound on row groups
    and the footer index. *)
Class SegmentWriter (File : Type) : Type := {
  write_batch : list Field -> list StoredRow -> Z -> option bytes -> option File
}.

Section Write.
Context `{Xxh64} {File : Type} `{SegmentWriter File}.

(** The rows with the allocation that holds their labels, as the index builder
    tells consecutive rows of one series by the address of the bytes. *)
Definition write_rows (rows : list (Z * Row)) (indexed : bool) : res EncodeError File :=
  let group_size := row_group_size (map snd rows) in
  let postings := if indexed then build (map (fun '(p, r) => (p, r.(labels).(label_canonical))) rows) group_size else None in
  let '(fields, columns) := build_batch (map snd rows) in
  ok_or (write_batch fields columns group_size postings) Writer.
End Write.

(** ** Reading the schema of a segment *)

Inductive DecodeError : Type := Reader | InvalidRegex | TooManySamples.

(** Position, name and type of the columns every segment has. *)
Definition required_columns : list (Z * DataType) := [(0, DInt64); (1, DInt64); (2, DFloat64); (4, DBinary)].
Definition optional_names : list (bytes * DataType) :=
  [(str "otlp", DUtf8); (str "histogram", DBinary); (str "exemplars", DBinary); (str "start_timestamp_ms", DInt64)].

(** The column of one optional name: present at most once and of its type. *)
Definition take_column (name : bytes) (kind : DataType) (acc : option Z) (e : Z * Field) : res DecodeError (option Z) :=
  let '(i, f) := e in
  if bytes_eqb f.(field_name) name then
    if has acc || negb (bool_decide (f.(data_type) = kind)) then Err Reader else Ok (Some i)
  else Ok acc.
Definition enumerate {A} (l : list A) : list (Z * A) := zip (numbers (len l)) l.
Definition optional_columns (fields : list Field) : res DecodeError (list (option Z)) :=
  if existsb (fun '(i, kind) => negb (bool_decide (option_map data_type (get fields i) = Some kind))) required_columns then Err Reader
  else foldM (fun columns '(name, kind) => let? c := foldM (take_column name kind) None (enumerate fields) in Ok (columns ++ [c])) [] optional_names.

(** * The canonical bytes determine the labels *)

Lemma canonical_bytes_text pairs : canonical_bytes pairs = canonical pairs.
Proof.
  induction pairs as [|[n v] pairs IH] using rev_ind; [done|]. unfold canonical_bytes in *. rewrite fold_left_app, IH. cbn [fold_left]. by rewrite canonical_snoc.
Qed.

Lemma split_canonical l : Forall utf8_pair l -> split_pairs (canonical l) = Ok l.
Proof. intros Hl. apply parse_canonical_ok; [done|]. apply canonical_length. Qed.

Lemma existsb_all_false {A} (f : A -> bool) l : existsb f l = false <-> Forall (fun x => f x = false) l.
Proof.
  induction l as [|x l IH]; [done|]. cbn. rewrite orb_false_iff, IH. split; [intros [? ?]; by constructor|intros Hf; by inversion_clear Hf].
Qed.

Lemma well_labelled_iff `{SimdUtf8} pairs : well_labelled pairs = true <->
  Forall utf8_pair pairs /\ Forall (fun '(a, b) => bytes_ltb (fst a) (fst b) = true) (windows2 pairs).
Proof.
  unfold well_labelled. rewrite andb_true_iff, !negb_true_iff, !existsb_all_false.
  assert (Hs : forall l : list ((bytes * bytes) * (bytes * bytes)), Forall (fun x => (let '(a, b) := x in bytes_leb (fst b) (fst a)) = false) l <-> Forall (fun '(a, b) => bytes_ltb (fst a) (fst b) = true) l).
  { intros l. split; (intros Hl; eapply Forall_impl; [|exact Hl]); intros [a b]; cbn; rewrite bytes_ltb_leb; intros E; [by rewrite E|by apply negb_true_iff in E]. }
  assert (Hu : forall l : list (bytes * bytes), Forall (fun x => (let '(n, v) := x in negb (simd_from_utf8 n) || negb (simd_from_utf8 v)) = false) l <-> Forall utf8_pair l).
  { intros l. split; (intros Hl; eapply Forall_impl; [|exact Hl]); intros [n v]; unfold utf8_pair; cbn [fst snd]; rewrite !simd_from_utf8_std; [by destruct (from_utf8_ok n), (from_utf8_ok v)|by intros [-> ->]]. }
  rewrite Hs, Hu. tauto.
Qed.

(** Splitting inverts the canonical text, whatever the bytes. *)
Lemma find_ff_split b i : find_ff b = Some i -> 0 <= i /\ b = take (Z.to_nat i) b ++ SEP :: drop (Z.to_nat (i + 1)) b.
Proof.
  revert i. induction b as [|x b IH]; [done|]. intros i. cbn [find_ff]. destruct (Z.eqb_spec x 0xff) as [->|]; [intros [= <-]; split; [lia|done]|].
  destruct (find_ff b) as [j|]; [|done]. intros [= <-]. destruct (IH j eq_refl) as [Hj Hb]. split; [lia|].
  replace (Z.to_nat (j + 1 + 1)) with (S (Z.to_nat (j + 1))) by lia. replace (Z.to_nat (j + 1)) with (S (Z.to_nat j)) at 1 by lia. cbn. by f_equal.
Qed.

Lemma split_text fuel b l : parse_canonical_pairs fuel b = Ok l -> b = canonical l.
Proof.
  revert b l. induction fuel as [|fuel IH]; intros b l; destruct b as [|x b]; [by intros [= <-]|done|by intros [= <-]|].
  cbn [parse_canonical_pairs]. destruct (find_ff (x :: b)) as [i|] eqn:Ei; [|done]. cbn [ok_or]. cbv iota. apply find_ff_split in Ei as [Hi Hx].
  set (rest := drop (Z.to_nat (i + 1)) (x :: b)) in *. destruct (find_ff rest) as [j|] eqn:Ej; [|done]. cbn. apply find_ff_split in Ej as [Hj Hr].
  destruct (parse_canonical_pairs fuel _) as [out| |] eqn:Ep; [|done|done]. intros [= <-]. apply IH in Ep. etrans; [exact Hx|]. unfold canonical. cbn [map concat]. rewrite <- !app_assoc. f_equal. cbn [app]. f_equal. etrans; [exact Hr|]. f_equal. f_equal. exact Ep.
Qed.

Section Exact.
Context `{SimdUtf8} `{Xxh64}.
Variable capacity : Z.

Lemma from_canonical_iff c e : from_canonical capacity c = Some e <->
  exists pairs, well_labelled pairs = true /\ c = canonical pairs /\ e = encoded capacity pairs c.
Proof.
  unfold from_canonical. split.
  - destruct (split_pairs c) as [pairs| |] eqn:Es; [|done|done]. destruct (well_labelled pairs) eqn:Ew; [|done]. intros [= <-].
    apply split_text in Es. by exists pairs.
  - intros (pairs & Hw & -> & ->). rewrite split_canonical by (by apply well_labelled_iff in Hw as [? _]). by rewrite Hw.
Qed.

(** Labels are stored under their canonical bytes. *)
Lemma from_canonical_name c e : from_canonical capacity c = Some e -> label_canonical e = c.
Proof. intros (pairs & _ & _ & ->)%from_canonical_iff. done. Qed.

Lemma label_pairs_in entries pairs : mapO label_pair entries = Some pairs ->
  Forall utf8_pair pairs /\ map (fun e => Binary (fst e)) pairs = map fst entries.
Proof.
  revert pairs. induction entries as [|[k v] entries IH]; intros pairs; [by intros [= <-]|]. cbn [mapO].
  destruct (label_pair (k, v)) as [[n x]|] eqn:E; [|done]. destruct (mapO label_pair entries) as [l|]; [|done]. intros [= <-].
  destruct (IH l eq_refl) as [Hu Hk]. destruct k as [b| | | | | | | |], v as [b'| | | | | | | |]; try done. cbn in E. rewrite !simd_from_utf8_std in E.
  destruct (from_utf8_ok b && from_utf8_ok b') eqn:Eb; [|done]. injection E as <- <-. apply andb_true_iff in Eb. split; [by constructor|]. cbn [map fst]. by rewrite Hk.
Qed.

(** What a label map is stored as, its canonical bytes give back. *)
Lemma encode_labels_canonical t e : (match t with Map entries => NoDup (map fst entries) | _ => True end) ->
  encode_labels capacity t = Ok e -> from_canonical capacity (label_canonical e) = Some e.
Proof.
  intros Hd. destruct t as [| | | | | |entries| |]; try done. cbn [encode_labels]. destruct (mapO label_pair entries) as [pairs|] eqn:Em; [|done]. cbn [ok_or].
  intros [= <-]. apply label_pairs_in in Em as [Hu Hk]. rewrite <- Hk in Hd. set (l := sort_by _ pairs). cbn [encoded label_canonical]. rewrite canonical_bytes_text.
  apply from_canonical_iff. exists l. split; [|done]. apply well_labelled_iff. split.
  - unfold l. by rewrite sort_by_perm.
  - apply sort_distinct_chain. assert (Hn : NoDup (map fst l)).
    { unfold l. rewrite sort_by_perm. apply (NoDup_fmap_1 Binary). rewrite map_map. exact Hd. }
    apply windows_distinct in Hn. eapply Forall_impl; [|exact Hn]. intros [a b] Hab. unfold bytes_eqb. by apply bool_decide_eq_false.
Qed.
End Exact.
