(* ===== verification/MetricTiers.v ===== *)
(** Hour finalization of metric segments (metric_tiers.rs): the builder that
    gathers the rows of an hour from segments, orders them by metric, plans and
    writes the outputs, and summarizes every series of the hour.

    A file is opened by Parquet: a parameter that gives the schema and batches
    of columns. *)

From stdpp Require Import gmap.
From S2P Require Import Prelude OrdMap Utf8 External Float64 MetricValue StableHash MetricPostings MetricSegment.

Definition FLAG_HISTOGRAM : Z := 1.
Definition FLAG_CONFLICT : Z := 2.
Definition FLAG_NEGATIVE_ZERO_RESET : Z := 4.
Definition U32_MAX : Z := 4294967295.
Definition NO_EXTRA : Z := U32_MAX.
Definition SKIPPED : Z := U32_MAX - 1.
Definition MAX_SERIES : Z := 4000000.
Definition NEGATIVE_ZERO : Z := 0x8000000000000000.

Inductive TierError : Type := Invalid | TooLarge | Encode.
Abbreviation Res A := (res TierError A).

(** A value is its bits. *)
Record CompactRow : Type := mkCompactRow { r_series_id : Z; r_ts : Z; r_value : Z; r_series : Z; r_extra : Z }.
Record Extra : Type := mkExtra { e_start : option Z; e_otlp : option bytes; e_histogram : option bytes; e_exemplars : option bytes }.

(** ** Interned label sets *)

Record Series : Type := mkSeries { canonicals : list bytes; names : list (Z * Z); index : gmap bytes Z }.
Definition Series_default : Series := mkSeries [] [] ∅.

(** Where the value of every pair lies in the canonical bytes, as the code reads
    it off the addresses of the slices. *)
Fixpoint value_ranges (base : Z) (pairs : list (bytes * bytes)) : list (Z * Z) :=
  match pairs with
  | [] => []
  | (n, v) :: pairs => let start := base + len n + 1 in (start, start + len v) :: value_ranges (start + len v + 1) pairs
  end.

Definition as_u32 (z : Z) : Z := z mod 4294967296.

Section Names.
Context `{SimdUtf8}.

Definition validated_name (canonical : bytes) : Res (Z * Z) :=
  match split_pairs canonical with
  | Ok pairs =>
      if well_labelled pairs then
        match List.find (fun e => bytes_eqb (fst (fst e)) metric_name) (zip pairs (value_ranges 0 pairs)) with
        | Some (_, (start, end_)) => Ok (as_u32 start, as_u32 (as_u32 start + as_u32 (end_ - start)))
        | None => Ok (0, 0)
        end
      else Err Invalid
  | Err _ => Err Invalid
  | Fuel => Fuel
  end.

Definition intern (s : Series) (canonical : bytes) : Res (Series * Z) :=
  match s.(index) !! canonical with
  | Some i => Ok (s, i)
  | None =>
      if MAX_SERIES <=? len s.(canonicals) then Err TooLarge
      else
        let? name := validated_name canonical in
        let i := as_u32 (len s.(canonicals)) in
        Ok (mkSeries (s.(canonicals) ++ [canonical]) (s.(names) ++ [name]) (<[canonical := i]> s.(index)), i)
  end.

Definition canonical_name (canonical : bytes) : Res bytes :=
  let? (start, end_) := validated_name canonical in
  Ok (slice canonical start end_).
End Names.

(** Both are only asked of series that were interned. *)
Definition canonical_of (s : Series) (i : Z) : bytes := default [] (get s.(canonicals) i).
Definition series_name (s : Series) (i : Z) : bytes :=
  let '(start, end_) := default (0, 0) (get s.(names) i) in slice (canonical_of s i) start end_.

(** FNV-1a of the name, finished with the mixer of MurmurHash3. *)
Definition name_hash (name : bytes) : Z :=
  let hash := fold_left (fun h b => wrap_u64 (Z.lxor h b * 0x100000001b3)) name 0xcbf29ce484222325 in
  let hash := Z.lxor hash (Z.shiftr hash 33) in
  let hash := wrap_u64 (hash * 0xff51afd7ed558ccd) in
  let hash := Z.lxor hash (Z.shiftr hash 33) in
  let hash := wrap_u64 (hash * 0xc4ceb9fe1a85ec53) in
  Z.lxor hash (Z.shiftr hash 33).

Definition name_partition (name : bytes) (count : Z) : Z := as_u32 (Z.shiftr (name_hash name * count) 64).

(** The order of series: by the hash of the name, the name, the labels. *)
Definition series_key (s : Series) (i : Z) : Z * (bytes * bytes) := (name_hash (series_name s i), (series_name s i, canonical_of s i)).
Definition series_leb (s : Series) (a b : Z) : bool := match cmp (series_key s a) (series_key s b) with Gt => false | _ => true end.
Definition series_order (s : Series) : list Z := sort_by (series_leb s) (numbers (len s.(canonicals))).
Definition set_rank (ranks : list Z) (e : Z * Z) : list Z := let '(rank, i) := e in <[Z.to_nat i := as_u32 rank]> ranks.
Definition ranks (s : Series) : list Z :=
  let order := series_order s in
  fold_left set_rank (enumerate order) (replicate (length order) 0).

(** ** Reading a segment *)

(** An array holds a value and whether it is null in every row. *)
Inductive Column : Type :=
| Int64Array (l : list (Z * bool))
| Int32Array (l : list (Z * bool))
| Float64Array (l : list (Z * bool))
| StringArray (l : list (bytes * bool))
| BinaryArray (l : list (bytes * bool))
| DictionaryArray (keys : list (option Z)) (values : list bytes).

(** [load] reads the schema and its metadata; [read_columns] reads the projected
    columns, in the order of the file, with one column as a dictionary. *)
Class Parquet (File : Type) : Type := {
  load : File -> option (list Field * list (bytes * bytes));
  read_columns : File -> Z -> option (list Z) -> option (list (option (list Column)))
}.

Definition column {A} (downcast : Column -> option A) (batch : list Column) (i : Z) : Res A :=
  let? c := ok_or (get batch i) Invalid in ok_or (downcast c) Invalid.
Definition int64 (c : Column) : option (list (Z * bool)) := match c with Int64Array l => Some l | _ => None end.
Definition int32 (c : Column) : option (list (Z * bool)) := match c with Int32Array l => Some l | _ => None end.
Definition float64 (c : Column) : option (list (Z * bool)) := match c with Float64Array l => Some l | _ => None end.
Definition utf8 (c : Column) : option (list (bytes * bool)) := match c with StringArray l => Some l | _ => None end.
Definition binary (c : Column) : option (list (bytes * bool)) := match c with BinaryArray l => Some l | _ => None end.
Definition dict (c : Column) : option (list (option Z) * list bytes) := match c with DictionaryArray k v => Some (k, v) | _ => None end.

(** [array.value(row)], in range as the columns of a batch have one length. *)
Definition value_at {A} (d : A) (l : list (A * bool)) (row : Z) : A := from_option fst d (get l row).
Definition present_at {A} (l : option (list (A * bool))) (row : Z) : option A :=
  match l with Some l => match get l row with Some (v, false) => Some v | _ => None end | None => None end.

Record SegRow : Type := mkSegRow { g_series_id : Z; g_ts : Z; g_value : Z; g_key : option Z; g_extra : Extra }.

Definition transposed {A} (downcast : Column -> option A) (batch : list Column) (i : option Z) : Res (option A) :=
  match i with Some i => let? c := column downcast batch i in Ok (Some c) | None => Ok None end.

(** Where the optional columns lie in a batch. *)
Record Places : Type := mkPlaces { otlp_index : option Z; histogram_index : option Z; exemplars_index : option Z; start_index : option Z }.

Definition place (projected : list Z) (c : option Z) : list Z * option Z :=
  match c with Some c => (projected ++ [c], Some (len projected)) | None => (projected, None) end.

(** The dictionary and the rows of a batch. *)
Definition open_batch (p : Places) (batch : list Column) : Res (list bytes * list SegRow) :=
  let? series_ids := column int64 batch 0 in
  let? timestamps := column int64 batch 1 in
  let? values := column float64 batch 2 in
  let? (keys, dictionary) := column dict batch 3 in
  let? otlp := transposed utf8 batch p.(otlp_index) in
  let? histograms := transposed binary batch p.(histogram_index) in
  let? exemplars := transposed binary batch p.(exemplars_index) in
  let? starts := transposed int64 batch p.(start_index) in
  Ok (dictionary,
      map (fun row => mkSegRow (value_at 0 series_ids row) (value_at 0 timestamps row) (value_at 0 values row) (default None (get keys row))
             (mkExtra (present_at starts row) (present_at otlp row) (present_at histograms row) (present_at exemplars row)))
        (numbers (len series_ids))).

Definition LABELS_COLUMN : Z := 4.

(** The batches of a segment. *)
Definition open_segment {File} `{Parquet File} (file : File) : Res (Places * list (option (list Column))) :=
  let? (fields, _) := ok_or (load file) Invalid in
  match optional_columns fields with
  | Ok [otlp_column; histogram_column; exemplars_column; start_column] =>
      let? f := ok_or (get fields LABELS_COLUMN) Invalid in
      if negb (bool_decide (f.(data_type) = DBinary)) then Err Invalid
      else
        let '(projected, otlp_index) := place [0; 1; 2; 4] otlp_column in
        let '(projected, histogram_index) := place projected histogram_column in
        let '(projected, exemplars_index) := place projected exemplars_column in
        let '(projected, start_index) := place projected start_column in
        let? batches := ok_or (read_columns file LABELS_COLUMN (Some projected)) Invalid in
        Ok (mkPlaces otlp_index histogram_index exemplars_index start_index, batches)
  | _ => Err Invalid
  end.

(** ** The builder *)

Inductive Kind : Type := Final | Before | After | Rollup.
Inductive Pending : Type := PRows (k : Kind) (start end_ : Z) | PRollups (start end_ : Z).

(** The summary of one series' float samples in one bucket. *)
Record Aggregate : Type := mkAggregate {
  a_series : Z; a_series_id : Z; a_bucket : Z; a_count : Z; a_first_ts : Z; a_first : Z; a_last_ts : Z; a_last : Z;
  a_min : Z; a_max : Z; a_changes : Z; a_resets : Z; a_reset_values : list Z; a_flags : Z; a_last_bits : Z
}.

Record Plan : Type := mkPlan { pending : list Pending; inside : Z; rollup_target_rows : Z; max_names : Z; aggregates : option (list Aggregate) }.

Record Builder : Type := mkBuilder {
  b_start : Z; b_end : Z; max_rows : Z; partition : option (Z * Z);
  series : Series; rows : list CompactRow; extras : list Extra; plan : option Plan
}.
Definition Builder_new (start end_ max_rows : Z) (partition : option (Z * Z)) : Builder :=
  mkBuilder start end_ max_rows partition Series_default [] [] None.

Section Adding.
Context `{SimdUtf8}.

(** What a builder gathers, with the series of every dictionary entry that was
    looked up and the number of rows added. *)
Definition Gathered : Type := Series * list CompactRow * list Extra * list Z * Z.

Definition series_of_key (part : option (Z * Z)) (s : Series) (canonical : bytes) : Res (Series * Z) :=
  match part with
  | Some (i, count) =>
      let? name := canonical_name canonical in
      if negb (name_partition name count =? i) then Ok (s, SKIPPED) else intern s canonical
  | None => intern s canonical
  end.

Definition no_extra (e : Extra) : bool := negb (has e.(e_start)) && negb (has e.(e_otlp)) && negb (has e.(e_histogram)) && negb (has e.(e_exemplars)).

Definition push_extra (extras : list Extra) (e : Extra) : Res (list Extra * Z) :=
  if no_extra e then Ok (extras, NO_EXTRA)
  else if U32_MAX - 1 <=? len extras then Err TooLarge
  else Ok (extras ++ [e], as_u32 (len extras)).

Definition add_row (part : option (Z * Z)) (max : Z) (dictionary : list bytes) (acc : Gathered) (r : SegRow) : Res Gathered :=
  let '(s, rows, extras, interned, added) := acc in
  let? key := ok_or r.(g_key) Invalid in
  let? known := ok_or (get interned key) Invalid in
  let? (s, interned, i) :=
    if known =? U32_MAX then
      let? (s, i) := series_of_key part s (default [] (get dictionary key)) in
      Ok (s, <[Z.to_nat key := i]> interned, i)
    else Ok (s, interned, known) in
  if i =? SKIPPED then Ok (s, rows, extras, interned, added)
  else if max <=? len rows then Err TooLarge
  else if bool_decide (r.(g_extra).(e_start) = Some 0) then Err Invalid
  else
    let? (extras, extra) := push_extra extras r.(g_extra) in
    Ok (s, rows ++ [mkCompactRow r.(g_series_id) r.(g_ts) r.(g_value) i extra], extras, interned, added + 1).

Definition add_batch (part : option (Z * Z)) (max : Z) (p : Places) (acc : Series * list CompactRow * list Extra * Z) (batch : option (list Column))
    : Res (Series * list CompactRow * list Extra * Z) :=
  let '(s, rows, extras, added) := acc in
  let? batch := ok_or batch Invalid in
  let? (dictionary, segment) := open_batch p batch in
  let? (s, rows, extras, _, added) := foldM (add_row part max dictionary) (s, rows, extras, replicate (length dictionary) U32_MAX, added) segment in
  Ok (s, rows, extras, added).

Definition add {File} `{Parquet File} (b : Builder) (file : File) : Res (Builder * Z) :=
  if has b.(plan) then Err Invalid
  else
    let? (p, batches) := open_segment file in
    let? (s, rows, extras, added) := foldM (add_batch b.(partition) b.(max_rows) p) (b.(series), b.(rows), b.(extras), 0) batches in
    Ok (mkBuilder b.(b_start) b.(b_end) b.(max_rows) b.(partition) s rows extras b.(plan), added).
End Adding.

(** ** Planning the outputs *)

(** The length of the longest prefix on which [f] holds; on items that [f]
    partitions this is [partition_point]. *)
Fixpoint run {A} (f : A -> bool) (l : list A) : Z :=
  match l with [] => 0 | x :: l => if f x then 1 + run f l else 0 end.

Section Groups.
Context {A : Type}.
Variables (name : A -> bytes) (id : A -> Z) (target max_names : Z).

(** The ranges so far, and the start, rows and names of the open group. *)
Record Grouping : Type := mkGrouping { out : list (Z * Z); group_start : Z; group_rows : Z; group_names : Z }.

(** The series of one metric, from position [j]. *)
Fixpoint series_loop (fuel : nat) (j : Z) (metric : list A) (g : Grouping) : Grouping :=
  match fuel, metric with
  | S fuel, x :: _ =>
      let n := run (fun y => id y =? id x) metric in
      let g :=
        if (0 <? g.(group_rows)) && (target <? g.(group_rows) + n) && (g.(group_start) <? j)
        then mkGrouping (g.(out) ++ [(g.(group_start), j)]) j 0 1 else g in
      series_loop fuel (j + n) (drop (Z.to_nat n) metric) (mkGrouping g.(out) g.(group_start) (g.(group_rows) + n) g.(group_names))
  | _, _ => g
  end.

Fixpoint metric_loop (fuel : nat) (i : Z) (items : list A) (g : Grouping) : Grouping :=
  match fuel, items with
  | S fuel, x :: _ =>
      let n := run (fun y => bytes_eqb (name y) (name x)) items in
      let g :=
        if (0 <? g.(group_rows)) && ((target <? g.(group_rows) + n) || (max_names <? g.(group_names) + 1))
        then mkGrouping (g.(out) ++ [(g.(group_start), i)]) i 0 0 else g in
      let g := mkGrouping g.(out) g.(group_start) g.(group_rows) (g.(group_names) + 1) in
      let g := series_loop (Z.to_nat n) i (take (Z.to_nat n) items) g in
      metric_loop fuel (i + n) (drop (Z.to_nat n) items) g
  | _, _ => g
  end.
End Groups.

(** Both loops advance by at least one item: the number of items is enough. *)
Definition groups {A} (items : list A) (name : A -> bytes) (id : A -> Z) (target_rows max_names : Z) : list (Z * Z) :=
  let g := metric_loop name id (Z.max target_rows 1) max_names (length items) 0 items (mkGrouping [] 0 0 0) in
  if g.(group_start) <? len items then g.(out) ++ [(g.(group_start), len items)] else g.(out).

(** Rows of the hour first, then those before it, then those after it. *)
Definition class (start end_ ts : Z) : Z := if ts <? start then 1 else if end_ <=? ts then 2 else 0.

Abbreviation RowKey := (Z * (Z * (Z * (Z * (Z * Z)))))%type.
Definition row_key (start end_ : Z) (ranks : list Z) (r : CompactRow) : RowKey :=
  (class start end_ r.(r_ts), (default 0 (get ranks r.(r_series)), (r.(r_ts), (r.(r_series_id), (r.(r_value), r.(r_extra)))))).
Definition row_leb (start end_ : Z) (ranks : list Z) (a b : CompactRow) : bool :=
  match cmp (row_key start end_ ranks a) (row_key start end_ ranks b) with Gt => false | _ => true end.

Definition prepare (b : Builder) (target_rows rollup_target_rows max_names : Z) : Builder :=
  let ranks := ranks b.(series) in
  let rows := sort_by (row_leb b.(b_start) b.(b_end) ranks) b.(rows) in
  let inside := run (fun r => class b.(b_start) b.(b_end) r.(r_ts) =? 0) rows in
  let before := inside + run (fun r => class b.(b_start) b.(b_end) r.(r_ts) =? 1) (drop (Z.to_nat inside) rows) in
  let pending := map (fun '(a, z) => PRows Final a z)
    (groups (take (Z.to_nat inside) rows) (fun r => series_name b.(series) r.(r_series)) r_series target_rows max_names) in
  let pending := if inside <? before then pending ++ [PRows Before inside before] else pending in
  let pending := if before <? len rows then pending ++ [PRows After before (len rows)] else pending in
  mkBuilder b.(b_start) b.(b_end) b.(max_rows) b.(partition) b.(series) rows b.(extras)
    (Some (mkPlan pending inside rollup_target_rows max_names None)).

(** ** Summaries *)

Definition Aggregate_new (series series_id bucket : Z) : Aggregate :=
  mkAggregate series series_id bucket 0 0 0 0 0 F64_NAN F64_NAN 0 0 [] 0 0.

Definition with_flag (a : Aggregate) (flag : Z) : Aggregate :=
  mkAggregate a.(a_series) a.(a_series_id) a.(a_bucket) a.(a_count) a.(a_first_ts) a.(a_first) a.(a_last_ts) a.(a_last)
    a.(a_min) a.(a_max) a.(a_changes) a.(a_resets) a.(a_reset_values) (Z.lor a.(a_flags) flag) a.(a_last_bits).

(** A sample behind the first one changes or resets the series. *)
Definition push_next (a : Aggregate) (value : Z) : Z * Z * list Z * Z :=
  let previous := a.(a_last) in
  let changes := if f64_eq previous value || (f64_is_nan previous && f64_is_nan value) then a.(a_changes) else a.(a_changes) + 1 in
  if f64_lt value previous then
    (changes, a.(a_resets) + 1, a.(a_reset_values) ++ [previous],
     if a.(a_last_bits) =? NEGATIVE_ZERO then Z.lor a.(a_flags) FLAG_NEGATIVE_ZERO_RESET else a.(a_flags))
  else (changes, a.(a_resets), a.(a_reset_values), a.(a_flags)).

Definition push_min (m value : Z) : Z := if negb (f64_is_nan value) && (f64_is_nan m || f64_lt value m) then value else m.
Definition push_max (m value : Z) : Z := if negb (f64_is_nan value) && (f64_is_nan m || f64_le m value) then value else m.

(** The value and its bits are the same integer here. *)
Definition push (a : Aggregate) (ts bits : Z) : Aggregate :=
  let '(first_ts, first) := if a.(a_count) =? 0 then (ts, bits) else (a.(a_first_ts), a.(a_first)) in
  let '(changes, resets, reset_values, flags) :=
    if a.(a_count) =? 0 then (a.(a_changes), a.(a_resets), a.(a_reset_values), a.(a_flags)) else push_next a bits in
  mkAggregate a.(a_series) a.(a_series_id) a.(a_bucket) (a.(a_count) + 1) first_ts first ts bits
    (push_min a.(a_min) bits) (push_max a.(a_max) bits) changes resets reset_values flags bits.

(** NaNs other than the stale marker are the same sample value. *)
Definition value_class (bits : Z) : Z := if negb (bits =? STALE_BITS) && f64_is_nan bits then F64_NAN else bits.

Definition extra_of (extras : list Extra) (i : Z) : option Extra := if i =? NO_EXTRA then None else get extras i.

(** The rows of one series at one time: the value chosen, its class and the
    number of classes. *)
Record Chosen : Type := mkChosen { chosen : option Z; classes : Z; first_class : option Z }.

Definition choose (extras : list Extra) (acc : Aggregate * Chosen) (r : CompactRow) : Aggregate * Chosen :=
  let '(a, c) := acc in
  let e := extra_of extras r.(r_extra) in
  if match e with Some e => has e.(e_histogram) | None => false end then (with_flag a FLAG_HISTOGRAM, c)
  else if match e with Some e => has e.(e_exemplars) | None => false end && (r.(r_value) =? EXEMPLAR_ONLY_BITS) then (a, c)
  else
    let cl := value_class r.(r_value) in
    match c.(first_class) with
    | None => (a, mkChosen (Some r.(r_value)) 1 (Some cl))
    | Some f => if f =? cl then (a, c) else (a, mkChosen c.(chosen) (c.(classes) + 1) c.(first_class))
    end.

Definition at_time (extras : list Extra) (ts : Z) (rows : list CompactRow) (a : Aggregate) : Aggregate :=
  let '(a, c) := fold_left (choose extras) rows (a, mkChosen None 0 None) in
  let a := if 1 <? c.(classes) then with_flag a FLAG_CONFLICT else a in
  match c.(chosen) with
  | Some bits => if bits =? STALE_BITS then a else push a ts bits
  | None => a
  end.

(** The times of one series, and the series of the hour; every step takes at
    least one row. *)
Fixpoint times_loop (fuel : nat) (extras : list Extra) (rows : list CompactRow) (a : Aggregate) : Aggregate :=
  match fuel, rows with
  | S fuel, r :: _ =>
      let n := run (fun x => x.(r_ts) =? r.(r_ts)) rows in
      times_loop fuel extras (drop (Z.to_nat n) rows) (at_time extras r.(r_ts) (take (Z.to_nat n) rows) a)
  | _, _ => a
  end.

Definition summarize (start : Z) (extras : list Extra) (r : CompactRow) (rows : list CompactRow) : Aggregate :=
  times_loop (length rows) extras rows (Aggregate_new r.(r_series) r.(r_series_id) start).

Fixpoint rollup_loop (fuel : nat) (start : Z) (extras : list Extra) (rows : list CompactRow) : list Aggregate :=
  match fuel, rows with
  | S fuel, r :: _ =>
      let n := run (fun x => x.(r_series) =? r.(r_series)) rows in
      let a := summarize start extras r (take (Z.to_nat n) rows) in
      (if (0 <? a.(a_count)) || negb (a.(a_flags) =? 0) then [a] else []) ++ rollup_loop fuel start extras (drop (Z.to_nat n) rows)
  | _, _ => []
  end.
Definition rollup_rows (start : Z) (extras : list Extra) (rows : list CompactRow) : list Aggregate := rollup_loop (length rows) start extras rows.

(** ** Outputs *)

Record StoredAggregate : Type := mkStoredAggregate {
  s_metric_name : bytes; s_canonical : bytes; s_series_id : Z; s_bucket : Z; s_count : Z; s_first_ts : Z; s_first : Z; s_last_ts : Z;
  s_last : Z; s_min : Z; s_max : Z; s_changes : Z; s_resets : Z; s_reset_values : option bytes; s_flags : Z
}.

Definition ROLLUP_KEY : bytes := str "pulso.metric.rollup".
Definition ROLLUP_VERSION : bytes := str "1".
Definition rollup_schema : list Field * list (bytes * bytes) :=
  ([mkField (str "metric_name") DUtf8 false; mkField (str "labels_canonical") DBinary false; mkField (str "series_id") DInt64 false;
    mkField (str "bucket_start") DInt64 false; mkField (str "count") DInt64 false; mkField (str "first_ts") DInt64 false;
    mkField (str "first_value") DFloat64 false; mkField (str "last_ts") DInt64 false; mkField (str "last_value") DFloat64 false;
    mkField (str "min_value") DFloat64 false; mkField (str "max_value") DFloat64 false; mkField (str "changes") DInt64 false;
    mkField (str "resets") DInt64 false; mkField (str "reset_values") DBinary true; mkField (str "flags") DInt32 false],
   [(ROLLUP_KEY, ROLLUP_VERSION)]).

Class RollupWriter (File : Type) : Type := {
  write_rollups : list Field * list (bytes * bytes) -> list StoredAggregate -> option File
}.

Record Output (File : Type) : Type := mkOutput { payload : File; min_ts : Z; max_ts : Z; n_rows : Z; out_series : list Z }.
Arguments mkOutput {File}.
Arguments payload {File}.
Arguments min_ts {File}.
Arguments max_ts {File}.
Arguments n_rows {File}.
Arguments out_series {File}.

(** Consecutive repetitions are skipped, then the list is sorted and deduplicated. *)
Definition push_series (l : list Z) (i : Z) : list Z := if bool_decide (list.last l = Some i) then l else l ++ [i].
Fixpoint dedup (l : list Z) : list Z :=
  match l with
  | [] => []
  | x :: l' => match l' with y :: _ => if x =? y then dedup l' else x :: dedup l' | [] => [x] end
  end.
Definition distinct_series (l : list Z) : list Z := dedup (sort_by Z.leb (fold_left push_series l [])).

Definition min_of (l : list Z) : Z := match l with [] => 0 | x :: l => fold_left Z.min l x end.
Definition max_of (l : list Z) : Z := match l with [] => 0 | x :: l => fold_left Z.max l x end.

Section Outputs.
Context `{SimdUtf8} `{Xxh64} {File : Type} `{SegmentWriter File} `{RollupWriter File}.
(** The capacity of the scratch buffer of the label hash. *)
Variable capacity : Z.

Definition encoded_labels (s : Series) (i : Z) : Res EncodedLabels := ok_or (from_canonical capacity (canonical_of s i)) Invalid.

Definition labelled_row (extras : list Extra) (labels : EncodedLabels) (r : CompactRow) : Row :=
  let e := extra_of extras r.(r_extra) in
  mkRow r.(r_series_id) r.(r_ts) (let* e := e in e.(e_start)) r.(r_value) labels (let* e := e in e.(e_otlp))
    (let* e := e in e.(e_histogram)) (let* e := e in e.(e_exemplars)).

(** The rows encoded so far and the labels of the current series; the series
    stands for the allocation of its labels. *)
Definition encode_row (s : Series) (extras : list Extra) (acc : list (Z * Row) * option (Z * EncodedLabels)) (r : CompactRow)
    : Res (list (Z * Row) * option (Z * EncodedLabels)) :=
  let '(encoded, current) := acc in
  let? labels :=
    match current with
    | Some (i, labels) => if i =? r.(r_series) then Ok labels else encoded_labels s r.(r_series)
    | None => encoded_labels s r.(r_series)
    end in
  Ok (encoded ++ [(r.(r_series), labelled_row extras labels r)], Some (r.(r_series), labels)).

Definition from_encode_error {A} (x : res EncodeError A) : Res A := match x with Ok a => Ok a | Err _ => Err Encode | Fuel => Fuel end.

Definition encode_range (b : Builder) (start end_ : Z) : Res (Output File) :=
  let rows := slice b.(rows) start end_ in
  let? (encoded, _) := foldM (encode_row b.(series) b.(extras)) ([], None) rows in
  let? payload := from_encode_error (write_rows encoded true) in
  Ok (mkOutput payload (min_of (map r_ts rows)) (max_of (map r_ts rows)) (len encoded) (distinct_series (map r_series rows))).

Definition float_bytes (l : list Z) : bytes := flat_map (to_le_bytes 8) l.
Definition store_aggregate (s : Series) (a : Aggregate) : StoredAggregate :=
  mkStoredAggregate (from_utf8_lossy (series_name s a.(a_series))) (canonical_of s a.(a_series)) a.(a_series_id) a.(a_bucket) a.(a_count)
    a.(a_first_ts) a.(a_first) a.(a_last_ts) a.(a_last) a.(a_min) a.(a_max) a.(a_changes) a.(a_resets)
    (match a.(a_reset_values) with [] => None | l => Some (float_bytes l) end) a.(a_flags).

Definition encode_rollups (aggregates : list Aggregate) (s : Series) : Res (Output File) :=
  let? payload := ok_or (write_rollups rollup_schema (map (store_aggregate s) aggregates)) Encode in
  Ok (mkOutput payload (min_of (map a_bucket aggregates)) (max_of (map a_bucket aggregates)) (len aggregates)
        (distinct_series (map a_series aggregates))).

Definition with_plan (b : Builder) (rows : list CompactRow) (extras : list Extra) (p : Plan) : Builder :=
  mkBuilder b.(b_start) b.(b_end) b.(max_rows) b.(partition) b.(series) rows extras (Some p).

(** Once every row output is written, the rows are summarized and freed. *)
Definition plan_rollups (b : Builder) (p : Plan) : Builder :=
  let aggs := if p.(rollup_target_rows) =? 0 then [] else rollup_rows b.(b_start) b.(extras) (take (Z.to_nat p.(inside)) b.(rows)) in
  let ranges := groups aggs (fun a => series_name b.(series) a.(a_series)) a_series p.(rollup_target_rows) p.(max_names) in
  with_plan b [] []
    (mkPlan (p.(pending) ++ map (fun '(a, z) => PRollups a z) ranges) p.(inside) p.(rollup_target_rows) p.(max_names) (Some aggs)).

(** The loop of [next] comes around once, after the summary. *)
Fixpoint next_loop (fuel : nat) (b : Builder) : Res (option (Kind * Output File) * Builder) :=
  match fuel with
  | O => Fuel
  | S fuel =>
      let? p := ok_or b.(plan) Invalid in
      match p.(pending) with
      | PRows kind start end_ :: rest =>
          let b := with_plan b b.(rows) b.(extras) (mkPlan rest p.(inside) p.(rollup_target_rows) p.(max_names) p.(aggregates)) in
          let? o := encode_range b start end_ in Ok (Some (kind, o), b)
      | PRollups start end_ :: rest =>
          let b := with_plan b b.(rows) b.(extras) (mkPlan rest p.(inside) p.(rollup_target_rows) p.(max_names) p.(aggregates)) in
          let? aggs := ok_or p.(aggregates) Invalid in
          let? o := encode_rollups (slice aggs start end_) b.(series) in Ok (Some (Rollup, o), b)
      | [] =>
          match p.(aggregates) with
          | None => next_loop fuel (plan_rollups b p)
          | Some _ => Ok (None, b)
          end
      end
  end.
Definition next (b : Builder) : Res (option (Kind * Output File) * Builder) := next_loop 2 b.

(** ** The entry points (lib.rs) *)

(** The mutex with the builder is an option; the answer [None] is the fallback of
    a builder that is gone. *)
Definition metric_finalize_new (start end_ max_rows : Z) (partition : option (Z * Z)) : option Builder :=
  if match partition with Some (i, count) => negb ((0 <? count) && (i <? count)) | None => false end then None
  else if (end_ <=? start) || (max_rows =? 0) then None
  else Some (Builder_new start end_ max_rows partition).

Definition metric_finalize_add `{Parquet File} (finalizer : option Builder) (blob : File) : option (Res Z) * option Builder :=
  match finalizer with
  | None => (None, None)
  | Some b =>
      match add b blob with
      | Ok (b, n) => (Some (Ok n), Some b)
      | Err e => (Some (Err e), None)
      | Fuel => (Some Fuel, None)
      end
  end.

Definition metric_finalize_finish (finalizer : option Builder) (target_rows rollup_target_rows max_names : Z) : option Builder :=
  match finalizer with
  | None => None
  | Some b => Some (prepare b target_rows rollup_target_rows (Z.max 1 (Z.min max_names 128)))
  end.

(** The labels of a series in an answer; those of an interned series split. *)
Definition series_labels (s : Series) (i : Z) : list (bytes * bytes) := match split_pairs (canonical_of s i) with Ok l => l | _ => [] end.

(** What one call answers: an output with the labels of its series, or [:done]. *)
Abbreviation Called := (option (Res (option (Kind * Output File * list (list (bytes * bytes)))))).
Definition metric_finalize_next (finalizer : option Builder) : Called * option Builder :=
  match finalizer with
  | None => (None, None)
  | Some b =>
      match next b with
      | Ok (Some (kind, o), b) => (Some (Ok (Some (kind, o, map (series_labels b.(series)) o.(out_series)))), Some b)
      | Ok (None, _) => (Some (Ok None), None)
      | Err e => (Some (Err e), None)
      | Fuel => (Some Fuel, None)
      end
  end.
End Outputs.

(** ** Reading rollups *)

Definition assoc {V} (k : bytes) (l : list (bytes * V)) : option V := option_map snd (List.find (fun e => bytes_eqb (fst e) k) l).
Definition same_field (e : Field * Field) : bool := bytes_eqb (fst e).(field_name) (snd e).(field_name) && bool_decide ((fst e).(data_type) = (snd e).(data_type)).
Definition is_rollup (s : list Field * list (bytes * bytes)) : bool :=
  bool_decide (assoc ROLLUP_KEY (snd s) = Some ROLLUP_VERSION) && (len (fst s) =? len (fst rollup_schema)) && forallb same_field (zip (fst s) (fst rollup_schema)).

Fixpoint chunks8 (fuel : nat) (b : bytes) : list bytes :=
  match fuel, b with S fuel, _ :: _ => take 8 b :: chunks8 fuel (drop 8 b) | _, _ => [] end.
Definition read_floats (b : bytes) : list Z := map from_le_bytes (chunks8 (length b) b).

(** One row of a batch as the code reads it. *)
Record AggRow : Type := mkAggRow { q_key : option Z; q_row : Aggregate; q_resets : option bytes }.

Definition open_rollups (batch : list Column) : Res (list bytes * list AggRow) :=
  let? (keys, dictionary) := column dict batch 1 in
  let? series_id := column int64 batch 2 in
  let? bucket := column int64 batch 3 in
  let? count := column int64 batch 4 in
  let? first_ts := column int64 batch 5 in
  let? first := column float64 batch 6 in
  let? last_ts := column int64 batch 7 in
  let? last := column float64 batch 8 in
  let? min := column float64 batch 9 in
  let? max := column float64 batch 10 in
  let? changes := column int64 batch 11 in
  let? resets := column int64 batch 12 in
  let? reset_values := column binary batch 13 in
  let? flags := column int32 batch 14 in
  Ok (dictionary,
      map (fun row => mkAggRow (default None (get keys row))
             (mkAggregate 0 (value_at 0 series_id row) (value_at 0 bucket row) (value_at 0 count row) (value_at 0 first_ts row) (value_at 0 first row)
                (value_at 0 last_ts row) (value_at 0 last row) (value_at 0 min row) (value_at 0 max row) (value_at 0 changes row)
                (value_at 0 resets row) [] (value_at 0 flags row) 0)
             (present_at (Some reset_values) row))
        (numbers (len keys))).

Section ReadRollups.
Context `{SimdUtf8} {File : Type} `{Parquet File}.
(** The filter [keep] with its own state. *)
Context {K : Type}.
Variable keep : K -> bytes -> Z -> bool * K.

Definition read_aggregate (dictionary : list bytes) (acc : Series * list Z * K * list Aggregate) (r : AggRow) : Res (Series * list Z * K * list Aggregate) :=
  let '(s, interned, k, out) := acc in
  let? key := ok_or r.(q_key) Invalid in
  let canonical := default [] (get dictionary key) in
  let '(kept, k) := keep k canonical r.(q_row).(a_bucket) in
  if negb kept then Ok (s, interned, k, out)
  else
    let known := default U32_MAX (get interned key) in
    let? (s, interned, i) :=
      if known =? U32_MAX then let? (s, i) := intern s canonical in Ok (s, <[Z.to_nat key := i]> interned, i) else Ok (s, interned, known) in
    let? values :=
      match r.(q_resets) with
      | None => Ok []
      | Some b => if negb (len b mod 8 =? 0) then Err Invalid else Ok (read_floats b)
      end in
    let a := r.(q_row) in
    if (a.(a_count) <? 0) || negb (as_i64 (len values) =? a.(a_resets)) then Err Invalid
    else
      Ok (s, interned, k, out ++ [mkAggregate i a.(a_series_id) a.(a_bucket) a.(a_count) a.(a_first_ts) a.(a_first) a.(a_last_ts) a.(a_last)
                                    a.(a_min) a.(a_max) a.(a_changes) a.(a_resets) values a.(a_flags) 0]).

Definition read_batch (acc : Series * K * list Aggregate) (batch : option (list Column)) : Res (Series * K * list Aggregate) :=
  let '(s, k, out) := acc in
  let? batch := ok_or batch Invalid in
  let? (dictionary, rows) := open_rollups batch in
  let? (s, _, k, out) := foldM (read_aggregate dictionary) (s, replicate (length dictionary) U32_MAX, k, out) rows in
  Ok (s, k, out).

Definition read_rollups (file : File) (s : Series) (k : K) : Res (Series * K * list Aggregate) :=
  let? schema := ok_or (load file) Invalid in
  if negb (is_rollup schema) then Err Invalid
  else
    let? f := ok_or (get (fst schema) 1) Invalid in
    if negb (bool_decide (f.(data_type) = DBinary)) then Err Invalid
    else
      let? batches := ok_or (read_columns file 1 None) Invalid in
      foldM read_batch (s, k, []) batches.
End ReadRollups.

(** The previous labels and whether they matched. *)
Abbreviation Memo := (option (bytes * bool)).

Definition keep_rollup (start end_ : option Z) (matches : bytes -> bool) (previous : Memo) (canonical : bytes) (bucket : Z) : bool * Memo :=
  if from_option (fun s => bucket <? s) false start || from_option (fun e => e <? bucket) false end_ then (false, previous)
  else
    match previous with
    | Some (labels, matched) => if bytes_eqb labels canonical then (matched, previous) else let m := matches canonical in (m, Some (canonical, m))
    | None => let m := matches canonical in (m, Some (canonical, m))
    end.

(** [compile_regexes]; the compiler of the regex policy is a parameter. *)
Definition compile_regexes (compile : bytes -> option Regex) (matchers : list Matcher) : res DecodeError (list (option Regex)) :=
  foldM (fun out m =>
    match m.(op) with
    | MRe | MNre =>
        if negb (from_utf8_ok m.(MetricPostings.value)) then Err InvalidRegex
        else let? re := ok_or (compile m.(MetricPostings.value)) InvalidRegex in Ok (out ++ [Some re])
    | _ => Ok (out ++ [None])
    end) [] matchers.

Definition series_matches (matchers : list Matcher) (regexes : list (option Regex)) (canonical : bytes) : bool :=
  match split_pairs canonical with Ok pairs => labels_match pairs matchers regexes | _ => false end.

Definition decode_rollups `{SimdUtf8} {File} `{Parquet File} (compile : bytes -> option Regex) (file : File) (start end_ : option Z) (matchers : list Matcher)
    : res DecodeError (Series * list Aggregate) :=
  let? regexes := compile_regexes compile matchers in
  match read_rollups (keep_rollup start end_ (series_matches matchers regexes)) file Series_default None with
  | Ok (s, _, rows) => Ok (s, rows)
  | Err _ => Err Reader
  | Fuel => Fuel
  end.
