(* ===== verification/TierSeries.v ===== *)
(** The series of a finalization (metric_tiers.rs): interning gives every label
    set one index and the range of its name; the ranks order the series by the
    hash of the name, the name and the labels. *)

From stdpp Require Import gmap sorting.
From S2P Require Import Prelude OrdMap Utf8 External Float64 StableHash MetricPostings MetricSegment MetricTiers.

(** ** Valid labels *)

(** The name of canonical labels, and whether they can be stored. *)
Definition row_name (c : bytes) : bytes := match split_pairs c with Ok pairs => name_of pairs | _ => [] end.

(** Splitting always answers: every pair takes at least two bytes. *)
Lemma split_answers fuel b : (length b <= fuel)%nat -> parse_canonical_pairs fuel b <> Fuel.
Proof.
  revert b. induction fuel as [|fuel IH]; intros b Hb; destruct b as [|x b]; try done; [cbn in Hb; lia|]. cbn [parse_canonical_pairs].
  destruct (find_ff (x :: b)) as [i|] eqn:Ei; [|done]. cbn [ok_or]. cbv iota. apply find_ff_split in Ei as [Hi _]. set (rest := drop (Z.to_nat (i + 1)) (x :: b)).
  destruct (find_ff rest) as [j|] eqn:Ej; [|done]. cbn [ok_or]. cbv iota. specialize (IH (drop (Z.to_nat (j + 1)) rest)). destruct (parse_canonical_pairs _ _); [done|done|]. intros _. apply IH; [|done].
  rewrite length_drop. unfold rest. rewrite length_drop. cbn in *. lia.
Qed.

Section Valid.
Context `{SimdUtf8}.
Definition labels_valid (c : bytes) : bool := match split_pairs c with Ok pairs => well_labelled pairs | _ => false end.

Lemma canonical_cons n v l : canonical ((n, v) :: l) = n ++ SEP :: v ++ SEP :: canonical l.
Proof. unfold canonical. cbn [map concat]. by rewrite <- !app_assoc. Qed.

Lemma len_canonical_cons n v l : len (canonical ((n, v) :: l)) = len n + len v + 2 + len (canonical l).
Proof. rewrite canonical_cons. rewrite !len_app, !len_cons, !len_app, !len_cons. lia. Qed.

Lemma slice_range (pre n v : bytes) l : slice (pre ++ canonical ((n, v) :: l)) (len pre + len n + 1) (len pre + len n + 1 + len v) = v.
Proof.
  pose proof (slice_app_mid (pre ++ n ++ [SEP]) v (SEP :: canonical l)) as Hs. rewrite !len_app, len_cons, len_nil in Hs.
  replace (len pre + (len n + (1 + 0))) with (len pre + len n + 1) in Hs by lia.
  replace (pre ++ canonical ((n, v) :: l)) with ((pre ++ n ++ [SEP]) ++ v ++ SEP :: canonical l); [done|]. rewrite canonical_cons. by rewrite <- !app_assoc.
Qed.

(** The range found among the addresses is that of the name. *)
Lemma name_range pairs : forall pre,
  match List.find (fun e => bytes_eqb (fst (fst e)) metric_name) (zip pairs (value_ranges (len pre) pairs)) with
  | Some (_, (a, b)) => label_value metric_name pairs = Some (slice (pre ++ canonical pairs) a b) /\ 0 <= a <= b /\ b <= len pre + len (canonical pairs)
  | None => label_value metric_name pairs = None
  end.
Proof.
  induction pairs as [|[n v] pairs IH]; intros pre; [done|]. cbn [value_ranges zip zip_with List.find fst label_value]. destruct (bytes_eqb n metric_name).
  - rewrite slice_range, len_canonical_cons. pose proof (len_nonneg pre). pose proof (len_nonneg n). pose proof (len_nonneg v). pose proof (len_nonneg (canonical pairs)). split; [done|lia].
  - specialize (IH (pre ++ n ++ [SEP] ++ v ++ [SEP])). replace (len (pre ++ n ++ [SEP] ++ v ++ [SEP])) with (len pre + len n + 1 + len v + 1) in IH by (len_lia).
    replace ((pre ++ n ++ [SEP] ++ v ++ [SEP]) ++ canonical pairs) with (pre ++ canonical ((n, v) :: pairs)) in IH by (rewrite canonical_cons; by rewrite <- !app_assoc).
    destruct (List.find _ _) as [[e [x y]]|]; [|done]. rewrite len_canonical_cons. destruct IH as (? & ? & ?). split_and!; [done|lia..].
Qed.

Lemma validated_name_ok c : len c < 4294967296 ->
  if labels_valid c then exists a b, validated_name c = Ok (a, b) /\ slice c a b = row_name c else validated_name c = Err Invalid.
Proof.
  intros Hc. unfold labels_valid, validated_name, row_name. destruct (split_pairs c) as [pairs|u|] eqn:E; [|done|].
  2: { exfalso. clear Hc. unfold split_pairs in E. revert E. apply split_answers. lia. }
  destruct (well_labelled pairs); [|done]. apply split_text in E. pose proof (name_range pairs []) as Hn. rewrite len_nil in Hn. cbn [app] in Hn. rewrite <- E in Hn.
  destruct (List.find _ _) as [[e [x y]]|].
  - destruct Hn as (Hv & Hx & Hy). eexists _, _. split; [done|]. unfold as_u32. rewrite !(Z.mod_small) by (rewrite ?Z.mod_small; lia).
    replace (x + (y - x)) with y by lia. unfold name_of. by rewrite Hv.
  - exists 0, 0. split; [done|]. unfold name_of. by rewrite Hn.
Qed.

Lemma canonical_name_ok c : len c < 4294967296 -> canonical_name c = if labels_valid c then Ok (row_name c) else Err Invalid.
Proof.
  intros Hc. pose proof (validated_name_ok c Hc) as Hv. unfold canonical_name. destruct (labels_valid c).
  - destruct Hv as (a & b & -> & <-). done.
  - by rewrite Hv.
Qed.

(** ** Interning *)

Record series_ok (s : Series) : Prop := mkSeriesOk {
  so_names : len s.(names) = len s.(canonicals);
  so_max : len s.(canonicals) <= MAX_SERIES;
  so_index : forall c i, s.(index) !! c = Some i <-> get s.(canonicals) i = Some c;
  so_valid : forall i c, get s.(canonicals) i = Some c -> labels_valid c = true /\ series_name s i = row_name c
}.

Lemma series_default_ok : series_ok Series_default.
Proof.
  assert (Hg : forall i c, get ([] : list bytes) i <> Some c) by (intros i c E; apply get_Some_bound in E; unfold len in E; cbn in E; lia).
  split; [done|done| |by intros i c E%Hg]. intros c i. cbn. rewrite lookup_empty. split; [done|by intros E%Hg].
Qed.

(** The series known before keep their indices. *)
Definition extends (s s' : Series) : Prop := forall i c, get s.(canonicals) i = Some c -> get s'.(canonicals) i = Some c.

Lemma extends_refl s : extends s s.
Proof. by intros i c. Qed.

Lemma extends_trans s1 s2 s3 : extends s1 s2 -> extends s2 s3 -> extends s1 s3.
Proof. intros H1 H2 i c Hi. by apply H2, H1. Qed.

(** What interning answers, and what it adds. *)
Lemma intern_exact s c : series_ok s -> len c < 4294967296 -> labels_valid c = true ->
  match intern s c with
  | Ok (s', i) =>
      series_ok s' /\ extends s s' /\ get s'.(canonicals) i = Some c /\
      (forall d, d ∈ s'.(canonicals) <-> d ∈ s.(canonicals) \/ d = c)
  | Err _ => (c ∉ s.(canonicals)) /\ MAX_SERIES <= len s.(canonicals)
  | Fuel => False
  end /\ (c ∈ s.(canonicals) \/ len s.(canonicals) < MAX_SERIES -> exists s' i, intern s c = Ok (s', i)).
Proof.
  intros Hs Hc Hv. unfold intern. destruct (index s !! c) as [i|] eqn:Ei.
  - apply (so_index _ Hs) in Ei. split; [|by eauto]. split_and!; [done|apply extends_refl|done|]. intros d. apply get_Some_elem in Ei. split; [by left|by intros [| ->]].
  - assert (Hn : c ∉ canonicals s). { intros Hin. apply get_elem in Hin as [i Hi]. apply (so_index _ Hs) in Hi. by rewrite Ei in Hi. }
    destruct (Z.leb_spec MAX_SERIES (len (canonicals s))) as [Hf|Hf]; [split; [done|]; intros [Hx|Hx]; [done|lia]|].
    pose proof (validated_name_ok c Hc) as Hr. rewrite Hv in Hr. destruct Hr as (a & b & -> & Hr). cbn beta iota. unfold as_u32. rewrite Z.mod_small by (pose proof (len_nonneg (canonicals s)); unfold MAX_SERIES in Hf; lia).
    split; [|by eauto]. destruct Hs as [H1 H2 H3 H4]. split_and!.
    + split; cbn [names canonicals index].
      * rewrite !len_app, H1. reflexivity.
      * rewrite len_app, len_cons, len_nil. lia.
      * intros d j. rewrite get_snoc. destruct (decide (d = c)) as [->|Hd].
        -- rewrite lookup_insert. case_decide; [|done]. destruct (Z.eqb_spec j (len (canonicals s))) as [->|Hj]; [done|].
           split; [intros [= <-]; done|]. intros Hg. apply get_Some_elem in Hg. done.
        -- rewrite lookup_insert_ne by done. rewrite H3. destruct (Z.eqb_spec j (len (canonicals s))) as [->|Hj]; [|done].
           split; [intros Hg; apply get_Some_bound in Hg; lia|]. intros [= <-]. done.
      * intros j d. rewrite get_snoc. unfold series_name, canonical_of. cbn [names canonicals]. rewrite !get_snoc, H1.
        destruct (Z.eqb_spec j (len (canonicals s))) as [->|Hj]; [intros [= <-]; done|]. intros Hg. apply H4 in Hg as [? ?]. done.
    + intros j d Hg. cbn [canonicals]. rewrite get_snoc. destruct (Z.eqb_spec j (len (canonicals s))) as [->|]; [|done]. apply get_Some_bound in Hg. lia.
    + cbn [canonicals]. by rewrite get_snoc, Z.eqb_refl.
    + intros d. cbn [canonicals]. rewrite elem_of_app, list_elem_of_singleton. done.
Qed.

Lemma series_unique s i j c : series_ok s -> get s.(canonicals) i = Some c -> get s.(canonicals) j = Some c -> i = j.
Proof. intros Hs Hi Hj. apply (so_index _ Hs) in Hi, Hj. congruence. Qed.

Lemma series_distinct s : series_ok s -> NoDup s.(canonicals).
Proof.
  intros Hs. apply NoDup_alt. intros i j c Hi Hj. rewrite <- get_lookup in Hi, Hj. apply Nat2Z.inj. by eapply series_unique.
Qed.
End Valid.

(** ** Ranks *)

Lemma numbers_succ (n : nat) : numbers (Z.of_nat (S n)) = numbers (Z.of_nat n) ++ [Z.of_nat n].
Proof. unfold numbers. rewrite !Nat2Z.id, seq_S, map_app. done. Qed.

Lemma enumerate_snoc {A} (l : list A) x : enumerate (l ++ [x]) = enumerate l ++ [(len l, x)].
Proof.
  unfold enumerate. replace (len (l ++ [x])) with (Z.of_nat (S (length l))) by (unfold len; rewrite length_app; cbn; lia). rewrite numbers_succ. change (Z.of_nat (length l)) with (len l).
  rewrite zip_with_app; [done|]. pose proof (len_numbers (len l) (len_nonneg l)) as E. unfold len in *. lia.
Qed.

Lemma set_ranks l : forall (r : list Z), NoDup l -> Forall (fun j => 0 <= j < len r) l -> len l <= 4294967296 ->
  len (fold_left set_rank (enumerate l) r) = len r /\ forall n j, l !! n = Some j -> get (fold_left set_rank (enumerate l) r) j = Some (Z.of_nat n).
Proof.
  induction l as [|x l IH] using rev_ind; intros r Hd Hr Hl; [done|]. apply list.NoDup_app in Hd as (Hd & Hx & _). apply Forall_app in Hr as [Hr Hx']. apply Forall_cons_1 in Hx' as [Hx' _].
  rewrite len_app in Hl. change (len [x]) with 1 in Hl. destruct (IH r Hd Hr ltac:(lia)) as [L G]. rewrite enumerate_snoc, fold_left_app. cbn [fold_left set_rank]. set (f := fold_left set_rank (enumerate l) r) in *.
  assert (Lf : len (<[Z.to_nat x:=as_u32 (len l)]> f) = len r) by (unfold len in *; rewrite length_insert; lia). split; [done|]. intros n j Hj.
  assert (Hg : forall k (v : list Z), 0 <= k < len v -> get v k = v !! Z.to_nat k) by (intros k v Hk; unfold get; by rewrite (proj2 (Z.leb_le _ _)), (proj2 (Z.ltb_lt _ _)) by lia).
  apply lookup_app_Some in Hj as [Hj|[Hn Hj]].
  - assert (Hin : j ∈ l) by (by eapply list_elem_of_lookup_2). rewrite list.Forall_forall in Hr. specialize (Hr j Hin). rewrite Hg by lia.
    rewrite list_lookup_insert_ne; [rewrite <- Hg by lia; by apply G|]. intros E. apply (Hx j Hin). apply list_elem_of_singleton. lia.
  - destruct (n - length l)%nat as [|k] eqn:En; [|done]. injection Hj as <-. rewrite Hg by lia. rewrite list_lookup_insert_eq by (unfold len in *; lia).
    unfold as_u32. rewrite Z.mod_small by (pose proof (len_nonneg l); lia). unfold len. f_equal. lia.
Qed.

Definition rank (s : Series) (i : Z) : Z := default 0 (get (ranks s) i).
Definition known (s : Series) (i : Z) : Prop := 0 <= i < len s.(canonicals).

Lemma known_canonical s i : known s i -> get s.(canonicals) i = Some (canonical_of s i).
Proof. intros Hi. unfold canonical_of. destruct (get_is_Some (canonicals s) i Hi) as [c ->]. done. Qed.

Lemma series_key_inj `{SimdUtf8} s i j : series_ok s -> known s i -> known s j -> series_key s i = series_key s j -> i = j.
Proof.
  intros Hs Hi Hj E. injection E as _ _ E. apply (series_unique s i j (canonical_of s i)); [done|by apply known_canonical|]. rewrite E. by apply known_canonical.
Qed.

Lemma order_perm s : series_order s ≡ₚ numbers (len s.(canonicals)).
Proof. apply sort_by_perm. Qed.

Lemma order_known s i : i ∈ series_order s <-> known s i.
Proof. rewrite order_perm. apply numbers_in. Qed.

Lemma numbers_nodup n : NoDup (numbers n).
Proof. unfold numbers. apply (NoDup_fmap_2 Z.of_nat). apply NoDup_ListNoDup, seq_NoDup. Qed.

(** Ranks compare as the keys they stand for. *)
Lemma rank_compare `{SimdUtf8} s i j : series_ok s -> known s i -> known s j -> (rank s i ?= rank s j) = cmp (series_key s i) (series_key s j).
Proof.
  intros Hs. assert (Hd : NoDup (series_order s)) by (rewrite order_perm; apply numbers_nodup).
  pose proof (so_max _ Hs) as Hm. pose proof (len_nonneg (canonicals s)) as H0. assert (Hl : len (series_order s) = len (canonicals s)).
  { unfold len. rewrite order_perm. pose proof (len_numbers (len (canonicals s)) H0) as E. unfold len in *. lia. }
  destruct (set_ranks (series_order s) (replicate (length (series_order s)) 0) Hd) as [_ G].
  { apply list.Forall_forall. intros k Hk. apply order_known in Hk. unfold known in Hk. unfold len in *. rewrite length_replicate. lia. }
  { rewrite Hl. unfold MAX_SERIES in Hm. lia. }
  assert (Hlt : forall n m a b, series_order s !! n = Some a -> series_order s !! m = Some b -> (n < m)%nat -> cmp (series_key s a) (series_key s b) = Lt).
  { intros n m a b Ha Hb Hnm. assert (key_leP (series_key s) a b) as [E|E]%key_le_cases; [|done|].
    - pose proof (sort_strongly (series_key s) (numbers (len (canonicals s)))) as Hss. change (sort_by _ _) with (series_order s) in Hss.
      rewrite <- (take_drop (S n) (series_order s)) in Hss. eapply StronglySorted_app_1_elem_of; [exact Hss| |].
      + apply list_elem_of_lookup. exists n. by rewrite lookup_take_lt by lia.
      + apply list_elem_of_lookup. exists (m - S n)%nat. rewrite lookup_drop. by replace (S n + (m - S n))%nat with m by lia.
    - apply series_key_inj in E as ->; [|done|apply order_known; by eapply list_elem_of_lookup_2..]. exfalso. assert (n = m); [|lia]. by eapply NoDup_lookup. }
  intros Hi Hj. apply order_known in Hi, Hj. apply list_elem_of_lookup_1 in Hi as [n Hn], Hj as [m Hmm]. unfold rank, ranks. cbv zeta. rewrite (G n i Hn), (G m j Hmm). unfold default, id, from_option.
  destruct (lt_eq_lt_dec n m) as [[Hlt'| ->]|Hlt'].
  - rewrite (Hlt n m i j) by done. apply Z.compare_lt_iff. lia.
  - replace j with i by congruence. rewrite Z.compare_refl. symmetry. apply (proj2 (cmp_eq _ _)). done.
  - rewrite cmp_antisym, (Hlt m n j i) by done. apply Z.compare_gt_iff. lia.
Qed.
