(* ===== verification/TierGroups.v ===== *)
(** The grouping of a finalization (metric_tiers.rs, [groups]): the ranges cover
    the items in order, stay within the row target unless a single series is
    larger, hold a bounded number of names, and keep a metric that fits whole. *)

From stdpp Require Import gmap sorting.
From S2P Require Import Prelude OrdMap MetricTiers.

Section Runs.
Context {A : Type}.

Lemma run_spec (f : A -> bool) l : 0 <= run f l <= len l /\
  Forall (fun x => f x = true) (take (Z.to_nat (run f l)) l) /\ (forall y, head (drop (Z.to_nat (run f l)) l) = Some y -> f y = false).
Proof.
  induction l as [|x l (H1 & H2 & H3)]; [done|]. cbn [run]. rewrite len_cons. destruct (f x) eqn:E.
  - replace (Z.to_nat (1 + run f l)) with (S (Z.to_nat (run f l))) by lia. cbn [take drop]. split_and!; [lia|lia|by constructor|done].
  - change (Z.to_nat 0) with 0%nat. cbn [take drop]. pose proof (len_nonneg l). split_and!; [lia|lia|constructor|]. by intros y [= <-].
Qed.

Lemma run_pos (f : A -> bool) x l : f x = true -> 0 < run f (x :: l).
Proof. intros E. cbn. rewrite E. pose proof (run_spec f l). lia. Qed.

(** A loop that takes the longest run splits its input. *)
Lemma run_parts (f : A -> bool) x l : f x = true -> exists r l', x :: l = r ++ l' /\ take (Z.to_nat (run f (x :: l))) (x :: l) = r /\ drop (Z.to_nat (run f (x :: l))) (x :: l) = l' /\
  run f (x :: l) = len r /\ Forall (fun y => f y = true) r /\ (forall y, head l' = Some y -> f y = false) /\ (0 < length r)%nat.
Proof.
  intros E. destruct (run_spec f (x :: l)) as (H1 & H2 & H3). pose proof (run_pos f x l E) as Hp. set (n := run f (x :: l)) in *.
  exists (take (Z.to_nat n) (x :: l)), (drop (Z.to_nat n) (x :: l)). assert (Hl : len (take (Z.to_nat n) (x :: l)) = n) by (unfold len in *; rewrite length_take; lia).
  split_and!; [by rewrite take_drop|done|done|done|done|done|unfold len in Hl; lia].
Qed.

(** The ranges of consecutive parts. *)
Fixpoint cuts (k : Z) (parts : list (list A)) : list (Z * Z) :=
  match parts with [] => [] | p :: parts => (k, k + len p) :: cuts (k + len p) parts end.

Lemma cuts_snoc parts p : forall k, cuts k (parts ++ [p]) = cuts k parts ++ [(k + len (concat parts), k + len (concat parts) + len p)].
Proof.
  induction parts as [|q parts IH]; intros k; cbn [cuts concat app]; [by rewrite len_nil, !Z.add_0_r|]. rewrite IH, len_app. cbn [app]. by rewrite !Z.add_assoc.
Qed.

Lemma cuts_slices parts : forall pre, map (fun '(a, z) => slice (pre ++ concat parts) a z) (cuts (len pre) parts) = parts.
Proof.
  induction parts as [|p parts IH]; intros pre; [done|]. cbn [cuts map concat]. rewrite slice_app_mid. f_equal.
  rewrite app_assoc, <- len_app. apply IH.
Qed.
End Runs.

Section Groups.
Context {A : Type} (name : A -> bytes) (id : A -> Z) (target max_names : Z).
Hypothesis target_pos : 1 <= target.
Hypothesis names_pos : 1 <= max_names.

Definition name_set (l : list A) : gset bytes := list_to_set (map name l).
Definition one_series (l : list A) : Prop := forall x y, x ∈ l -> y ∈ l -> id x = id y.
(** A group holds at most the target, or a single series. *)
Definition fits (l : list A) : Prop := len l <= target \/ one_series l.
Definition group_ok (l : list A) : Prop := l <> [] /\ fits l /\ Z.of_nat (size (name_set l)) <= max_names.

Definition state_of (done_ : list (list A)) (cur : list A) (names : Z) : Grouping := mkGrouping (cuts 0 done_) (len (concat done_)) (len cur) names.

Lemma state_flush done_ cur names : mkGrouping (cuts 0 done_ ++ [(len (concat done_), len (concat done_) + len cur)]) (len (concat done_) + len cur) 0 names = state_of (done_ ++ [cur]) [] names.
Proof. unfold state_of. rewrite cuts_snoc, concat_app, len_app. cbn [concat]. rewrite app_nil_r. by rewrite !Z.add_0_l. Qed.

(** What the inner loop does with a run of one series. *)
Definition series_step (g : Grouping) (j n : Z) : Grouping :=
  let g := if (0 <? g.(group_rows)) && (target <? g.(group_rows) + n) && (g.(group_start) <? j)
    then mkGrouping (g.(out) ++ [(g.(group_start), j)]) j 0 1 else g in
  mkGrouping g.(out) g.(group_start) (g.(group_rows) + n) g.(group_names).

Lemma series_step_state done_ cur names (r : list A) :
  series_step (state_of done_ cur names) (len (concat done_) + len cur) (len r) =
  if (0 <? len cur) && (target <? len cur + len r) then state_of (done_ ++ [cur]) r 1 else state_of done_ (cur ++ r) names.
Proof.
  unfold series_step, state_of. cbn [out group_start group_rows group_names]. pose proof (len_nonneg cur).
  destruct (Z.ltb_spec 0 (len cur)) as [Hc|Hc]; cbn [andb].
  - rewrite (proj2 (Z.ltb_lt (len (concat done_)) (len (concat done_) + len cur))) by lia. rewrite andb_true_r. destruct (target <? _); cbn [out group_start group_rows group_names]; [|by rewrite len_app].
    rewrite cuts_snoc, concat_app, len_app. cbn [concat]. by rewrite app_nil_r, !Z.add_0_l.
  - by rewrite len_app.
Qed.

(** The open group in the middle of a metric named [n]. *)
Definition open_ok (n : bytes) (cur : list A) (names : Z) : Prop := fits cur /\ Z.of_nat (size (name_set cur ∪ {[n]})) <= names <= max_names.

Lemma name_set_app a b : name_set (a ++ b) = name_set a ∪ name_set b.
Proof. unfold name_set. by rewrite map_app, list_to_set_app_L. Qed.

Lemma name_set_one n l : Forall (fun x => name x = n) l -> name_set l ⊆ {[n]}.
Proof. intros Hl m Hm. unfold name_set in Hm. apply elem_of_list_to_set, list_elem_of_fmap in Hm as (x & -> & Hx). rewrite list.Forall_forall in Hl. rewrite (Hl x Hx). set_solver. Qed.

Lemma open_group n cur names : cur <> [] -> open_ok n cur names -> group_ok cur.
Proof.
  intros Hc [Hf [Hs Hm]]. split_and!; [done|done|]. assert (size (name_set cur) <= size (name_set cur ∪ {[n]}))%nat; [|lia]. apply subseteq_size. set_solver.
Qed.

Lemma len_nothing {B} (l : list B) : len l = 0 -> l = [].
Proof. destruct l; [done|]. rewrite len_cons. pose proof (len_nonneg l). lia. Qed.

(** The inner loop: what fits stays together, and a group only grows by items
    of the metric. *)
Lemma series_loop_ok n fuel : forall metric done_ cur names, (length metric <= fuel)%nat -> Forall (fun x => name x = n) metric ->
  Forall group_ok done_ -> open_ok n cur names ->
  exists done' cur' names', series_loop id target fuel (len (concat done_) + len cur) metric (state_of done_ cur names) = state_of done' cur' names' /\
    concat done' ++ cur' = concat done_ ++ cur ++ metric /\ Forall group_ok done' /\ open_ok n cur' names' /\
    (len cur + len metric <= target -> done' = done_ /\ cur' = cur ++ metric) /\
    (forall g, g ∈ done_ -> g ∈ done') /\ (exists e, cur ++ e ∈ done' ++ [cur'] /\ e ⊆ metric) /\ (metric <> [] \/ cur <> [] -> cur' <> []).
Proof.
  induction fuel as [|fuel IH]; intros metric done_ cur names Hl Hn Hd Ho.
  { destruct metric; [|cbn in Hl; lia]. exists done_, cur, names. cbn [series_loop]. rewrite !app_nil_r. split_and!; try done; [exists []; rewrite app_nil_r; set_solver|intros [?|?]; done]. }
  destruct metric as [|x metric]; [exists done_, cur, names; cbn [series_loop]; rewrite !app_nil_r; split_and!; try done; [exists []; rewrite app_nil_r; set_solver|intros [?|?]; done]|].
  cbn [series_loop]. destruct (run_parts (fun y => id y =? id x) x metric (Z.eqb_refl _)) as (r & rest & Es & _ & Ed & Er & Hr & _ & Hp). cbv zeta. rewrite Ed, Er. change (mkGrouping _ _ _ _) with (series_step (state_of done_ cur names) (len (concat done_) + len cur) (len r)). rewrite series_step_state. rewrite Es in Hn |- *. apply Forall_app in Hn as [Hnr Hn].
  assert (Hl' : (length rest <= fuel)%nat) by (assert (length (x :: metric) = length r + length rest)%nat by (by rewrite Es, length_app); cbn in *; lia).
  assert (Hone : one_series r). { rewrite list.Forall_forall in Hr. intros a b Ha Hb. apply Hr, Z.eqb_eq in Ha. apply Hr, Z.eqb_eq in Hb. congruence. }
  assert (Hlr : 0 < len r) by (unfold len; lia).
  destruct ((0 <? len cur) && (target <? len cur + len r)) eqn:Ef.
  - apply andb_true_iff in Ef as [E1 E2]. apply Z.ltb_lt in E1, E2. assert (Hc : cur <> []) by (intros E; rewrite E in E1; by vm_compute in E1).
    destruct (IH rest (done_ ++ [cur]) r 1) as (done' & cur' & names' & Eq & Hcat & Hd' & Ho' & _ & Hin & (e & He & Hsub) & Hne); [done|done| | |].
    + apply Forall_app. split; [done|]. constructor; [by eapply open_group|constructor].
    + split; [by right|]. split; [|done]. apply name_set_one in Hnr. replace (name_set r ∪ {[n]}) with ({[n]} : gset bytes) by set_solver. rewrite size_singleton. lia.
    + exists done', cur', names'. rewrite concat_app, len_app in Eq. cbn [concat] in Eq. rewrite app_nil_r in Eq. rewrite <- Z.add_assoc in Eq. split_and!; [rewrite <- Z.add_assoc; exact Eq| |done|done| | | |].
      * rewrite Hcat, concat_app. cbn [concat]. rewrite app_nil_r. by rewrite <- !app_assoc.
      * rewrite len_app. pose proof (len_nonneg rest). lia.
      * intros g Hg. apply Hin. set_solver.
      * exists []. rewrite app_nil_r. split; [|set_solver]. apply elem_of_app. left. apply Hin. set_solver.
      * intros _. apply Hne. right. intros E. by rewrite E in Hlr.
  - assert (Hfit : fits (cur ++ r)).
    { apply andb_false_iff in Ef as [Ef|Ef].
      - apply Z.ltb_ge in Ef. pose proof (len_nonneg cur). rewrite (len_nothing cur) by lia. by right.
      - apply Z.ltb_ge in Ef. left. rewrite len_app. lia. }
    destruct (IH rest done_ (cur ++ r) names) as (done' & cur' & names' & Eq & Hcat & Hd' & Ho' & Hkeep & Hin & (e & He & Hsub) & Hne); [done|done|done| |].
    + destruct Ho as [_ Hs]. split; [done|]. rewrite name_set_app. apply name_set_one in Hnr. by replace (name_set cur ∪ name_set r ∪ {[n]}) with (name_set cur ∪ {[n]}) by set_solver.
    + exists done', cur', names'. rewrite len_app, Z.add_assoc in Eq. split_and!; [exact Eq| |done|done| |done| |].
      * rewrite Hcat. by rewrite <- !app_assoc.
      * rewrite len_app. intros Ht. rewrite len_app in Hkeep. destruct Hkeep as [-> ->]; [lia|]. by rewrite <- app_assoc.
      * exists (r ++ e). rewrite app_assoc. split; [done|]. set_solver.
      * intros _. apply Hne. right. destruct cur; [|done]. intros E. cbn in E. by rewrite E in Hlr.
Qed.

(** ** The metrics *)

Definition named (n : bytes) (l : list A) : list A := List.filter (fun x => bytes_eqb (name x) n) l.

(** The items of one name lie together. *)
Definition clustered (l : list A) : Prop := forall a x b y c, l = a ++ x :: b ++ y :: c -> name x = name y -> Forall (fun z => name z = name x) b.

(** A metric that fits lies in one of the groups. *)
Definition kept_whole (gs : list (list A)) (l : list A) : Prop :=
  forall n, named n l <> [] -> len (named n l) <= target -> exists g, g ∈ gs /\ named n g = named n l.

Lemma named_app n a b : named n (a ++ b) = named n a ++ named n b.
Proof. apply List.filter_app. Qed.

Lemma named_all n l : Forall (fun x => name x = n) l -> named n l = l.
Proof. induction 1 as [|x l Hx _ IH]; [done|]. unfold named in *. cbn. by rewrite (proj2 (bytes_eqb_eq _ _) Hx), IH. Qed.

Lemma named_none n l : Forall (fun x => name x <> n) l -> named n l = [].
Proof. induction 1 as [|x l Hx _ IH]; [done|]. unfold named in *. cbn. destruct (bytes_eqb (name x) n) eqn:E; [by apply bytes_eqb_eq in E|done]. Qed.

Definition apart (a b : list A) : Prop := forall x y, x ∈ a -> y ∈ b -> name x <> name y.

(** Behind a run of one name the name does not come back. *)
Lemma run_apart x r l : clustered (x :: r ++ l) -> Forall (fun y => name y = name x) r -> (forall y, head l = Some y -> name y <> name x) -> apart (x :: r) l.
Proof.
  intros Hc Hr Hl y z Hy Hz E. assert (Hy' : name y = name x) by (apply elem_of_cons in Hy as [->|Hy]; [done|]; rewrite list.Forall_forall in Hr; by apply Hr).
  apply list_elem_of_split in Hz as (b & c & ->). destruct b as [|w b]; [apply (Hl z eq_refl); congruence|].
  specialize (Hc [] x (r ++ w :: b) z c). cbn [app] in Hc. rewrite <- app_assoc in Hc. specialize (Hc eq_refl ltac:(congruence)). apply Forall_app in Hc as [_ Hc]. apply Forall_cons_1 in Hc as [Hw _].
  by apply (Hl w eq_refl).
Qed.

Lemma clustered_tail r l : clustered (r ++ l) -> clustered l.
Proof. intros Hc a x b y c ->. apply (Hc (r ++ a) x b y c). by rewrite <- app_assoc. Qed.

Record boundary (done_ : list (list A)) (cur : list A) (names : Z) : Prop := mkBoundary {
  bd_done : Forall group_ok done_;
  bd_fits : fits cur;
  bd_names : Z.of_nat (size (name_set cur)) <= names <= max_names;
  bd_empty : cur = [] -> names = 0;
  bd_kept : kept_whole (done_ ++ [cur]) (concat done_ ++ cur)
}.

Lemma boundary_group done_ cur names : boundary done_ cur names -> cur <> [] -> group_ok cur.
Proof. intros [_ Hf Hn _ _] Hc. split_and!; [done|done|lia]. Qed.

(** What the outer loop does before the series of a metric. *)
Lemma metric_open n done_ cur names (m : Z) : boundary done_ cur names ->
  let g := state_of done_ cur names in
  let g := if (0 <? g.(group_rows)) && ((target <? g.(group_rows) + m) || (max_names <? g.(group_names) + 1)) then mkGrouping (g.(out) ++ [(g.(group_start), len (concat done_) + len cur)]) (len (concat done_) + len cur) 0 0 else g in
  exists done' cur' names', mkGrouping g.(out) g.(group_start) g.(group_rows) (g.(group_names) + 1) = state_of done' cur' names' /\
    concat done' ++ cur' = concat done_ ++ cur /\ Forall group_ok done' /\ open_ok n cur' names' /\ (cur' = [] \/ len cur' + m <= target) /\
    forall g, g ∈ done_ ++ [cur] -> g = [] \/ g ∈ done' ++ [cur'].
Proof.
  intros Hb g0. unfold g0, state_of at 1 2 3 4 5 6. cbn [out group_start group_rows group_names]. cbv zeta. pose proof (len_nonneg cur) as Hl.
  assert (Hs : forall c : list A, (size (name_set c ∪ {[n]}) <= size (name_set c) + 1)%nat) by (intros c; rewrite size_union_alt; apply Nat.add_le_mono_l; etrans; [apply subseteq_size, subseteq_difference_l; done|by rewrite size_singleton]).
  destruct (_ && _) eqn:Ef; unfold state_of; cbn [out group_start group_rows group_names].
  - apply andb_true_iff in Ef as [E1%Z.ltb_lt _]. assert (Hc : cur <> []) by (intros E; by rewrite E in E1).
    exists (done_ ++ [cur]), [], 1. rewrite cuts_snoc, concat_app, len_app. cbn [concat]. rewrite !app_nil_r, !Z.add_0_l. split_and!; try done.
    + apply Forall_app. split; [apply Hb|]. constructor; [by eapply boundary_group|constructor].
    + split; [left; rewrite len_nil; lia|]. specialize (Hs []). unfold name_set in *. cbn in *. rewrite size_empty in Hs. lia.
    + by left.
    + intros g Hg. right. rewrite elem_of_app. by left.
  - exists done_, cur, (names + 1). split_and!; try done.
    + apply Hb.
    + split; [apply Hb|]. specialize (Hs cur). pose proof (bd_names _ _ _ Hb). apply andb_false_iff in Ef as [Ef|Ef].
      * apply Z.ltb_ge in Ef. assert (cur = []) as Hc by (apply len_nothing; lia). rewrite (bd_empty _ _ _ Hb Hc) in *. lia.
      * apply orb_false_iff in Ef as [_ Ef]. apply Z.ltb_ge in Ef. lia.
    + apply andb_false_iff in Ef as [Ef|Ef].
      * apply Z.ltb_ge in Ef. left. apply len_nothing. lia.
      * apply orb_false_iff in Ef as [Ef _]. apply Z.ltb_ge in Ef. by right.
    + intros g Hg. by right.
Qed.

Lemma kept_step x r P done_ cur done1 cur1 done' cur' e : Forall (fun y => name y = x) r -> apart P r -> (0 < length r)%nat ->
  kept_whole (done_ ++ [cur]) P -> concat done1 ++ cur1 = P -> (cur1 = [] \/ len cur1 + len r <= target) ->
  (forall g, g ∈ done_ ++ [cur] -> g = [] \/ g ∈ done1 ++ [cur1]) ->
  (len cur1 + len r <= target -> done' = done1 /\ cur' = cur1 ++ r) -> (forall g, g ∈ done1 -> g ∈ done') -> cur1 ++ e ∈ done' ++ [cur'] -> e ⊆ r ->
  kept_whole (done' ++ [cur']) (P ++ r).
Proof.
  intros Hr Ha Hp Hk Hcat Hroom Hopen Hfit Hin He Hsub n Hn Ht. rewrite named_app in *. destruct (decide (n = x)) as [->|Hnx].
  - assert (Hnone : forall l, l ⊆ P -> named x l = []).
    { intros l Hl. apply named_none, list.Forall_forall. intros y Hy E. destruct r as [|z r]; [cbn in Hp; lia|]. apply Forall_cons_1 in Hr as [Hz _]. apply (Ha y z); [by apply Hl|by left|congruence]. }
    rewrite (Hnone P), (named_all x r Hr) in * by done. cbn [app] in *. destruct Hfit as [-> ->].
    { destruct Hroom as [Hc|Hc]; [|done]. rewrite Hc, len_nil. lia. }
    exists (cur1 ++ r). split; [set_solver|]. rewrite named_app, (named_all x r Hr), Hnone; [done|]. intros y Hy. rewrite <- Hcat. apply elem_of_app. by right.
  - assert (Hr' : forall l, l ⊆ r -> named n l = []).
    { intros l Hl. apply named_none, list.Forall_forall. intros y Hy E. apply Hl in Hy. rewrite list.Forall_forall in Hr. apply Hnx. rewrite <- E. by apply Hr. }
    rewrite (Hr' r), app_nil_r in * by done. destruct (Hk n Hn Ht) as (g & Hg & E). destruct (Hopen g Hg) as [->|Hg1]; [by rewrite <- E in Hn|].
    apply elem_of_app in Hg1 as [Hg1|Hg1%list_elem_of_singleton].
    + exists g. split; [|done]. apply elem_of_app. left. by apply Hin.
    + subst g. exists (cur1 ++ e). split; [done|]. by rewrite named_app, (Hr' e), app_nil_r.
Qed.

Lemma metric_loop_ok fuel : forall items done_ cur names, (length items <= fuel)%nat -> boundary done_ cur names ->
  clustered items -> apart (concat done_ ++ cur) items ->
  exists done' cur' names', metric_loop name id target max_names fuel (len (concat done_) + len cur) items (state_of done_ cur names) = state_of done' cur' names' /\
    concat done' ++ cur' = concat done_ ++ cur ++ items /\ boundary done' cur' names'.
Proof.
  induction fuel as [|fuel IH]; intros items done_ cur names Hl Hb Hc Ha.
  { destruct items; [|cbn in Hl; lia]. exists done_, cur, names. by rewrite app_nil_r. }
  destruct items as [|x items]; [exists done_, cur, names; by rewrite app_nil_r|]. cbn [metric_loop].
  destruct (run_parts (fun y => bytes_eqb (name y) (name x)) x items (proj2 (bytes_eqb_eq _ _) eq_refl)) as (r & rest & Es & Et & Ed & Er & Hr & Hh & Hp).
  cbv zeta. rewrite Et, Ed, Er. rewrite Es in Hl, Hc, Ha |- *. assert (Hrn : Forall (fun y => name y = name x) r) by (eapply Forall_impl; [|exact Hr]; intros y; apply bytes_eqb_eq).
  assert (Hx : exists r', r = x :: r') by (destruct r; [cbn in Hp; lia|]; injection Es as <- _; eauto). destruct Hx as [r' Hx].
  assert (Har : apart r rest). { rewrite Hx in *. inversion_clear Hrn. apply run_apart; [done|done|]. intros y Hy E. specialize (Hh y Hy). by rewrite E, (proj2 (bytes_eqb_eq _ _) eq_refl) in Hh. }
  destruct (metric_open (name x) done_ cur names (len r) Hb) as (done1 & cur1 & names1 & Eg & Hcat1 & Hd1 & Ho1 & Hroom & Hpers). cbv zeta in Eg. rewrite Eg.
  assert (Hlen : len (concat done1) + len cur1 = len (concat done_) + len cur) by (rewrite <- !len_app; by rewrite Hcat1). rewrite <- Hlen.
  destruct (series_loop_ok (name x) (Z.to_nat (len r)) r done1 cur1 names1) as (done2 & cur2 & names2 & E2 & Hcat2 & Hd2 & Ho2 & Hfit & Hin & (e & He & Hsub) & Hne); [unfold len; lia|done..|].
  rewrite E2. assert (Hcat : concat done2 ++ cur2 = (concat done_ ++ cur) ++ r) by (rewrite Hcat2, app_assoc, Hcat1; by rewrite <- app_assoc).
  replace (len (concat done1) + len cur1 + len r) with (len (concat done2) + len cur2) by (rewrite <- !len_app; rewrite Hcat2; by rewrite app_assoc).
  destruct (IH rest done2 cur2 names2) as (done3 & cur3 & names3 & E3 & Hcat3 & Hb3).
  - rewrite length_app in Hl. lia.
  - split; [done|apply Ho2| | |].
    + destruct Ho2 as [_ Ho2]. assert (size (name_set cur2) <= size (name_set cur2 ∪ {[name x]}))%nat by (apply subseteq_size, union_subseteq_l). lia.
    + intros E. exfalso. apply Hne; [|done]. left. by rewrite Hx.
    + rewrite Hcat. eapply kept_step with (1 := Hrn); [|done|apply Hb|exact Hcat1|exact Hroom|exact Hpers|exact Hfit|exact Hin|exact He|exact Hsub].
      intros y z Hy Hz. apply Ha; [done|]. apply elem_of_app. by left.
  - by eapply clustered_tail.
  - rewrite Hcat. intros y z [Hy|Hy]%elem_of_app Hz; [|by apply Har]. apply Ha; [done|]. apply elem_of_app. by right.
  - exists done3, cur3, names3. split_and!; [done| |done]. rewrite Hcat3, app_assoc, Hcat. by rewrite <- !app_assoc.
Qed.

(** The groups of the code are the ranges of parts that make up the items. *)
Lemma groups_exact items : clustered items -> exists gs, groups items name id target max_names = cuts 0 gs /\ concat gs = items /\
  Forall group_ok gs /\ kept_whole gs items.
Proof.
  intros Hc. unfold groups. rewrite Z.max_l by lia.
  destruct (metric_loop_ok (length items) items [] [] 0) as (gs & cur & names & E & Hcat & Hb); [done| |done|intros x y Hx; by apply elem_of_nil in Hx|].
  { split; [constructor|left; rewrite len_nil; lia|cbn; rewrite size_empty; lia|done|]. intros n Hn. done. }
  change (len (concat []) + len []) with 0 in E. change (state_of [] [] 0) with (mkGrouping [] 0 0 0) in E. rewrite E. cbn [out group_start state_of]. cbn [concat app] in Hcat.
  destruct (Z.ltb_spec (len (concat gs)) (len items)) as [Hlt|Hge].
  - assert (Hne : cur <> []) by (intros ->; rewrite app_nil_r in Hcat; rewrite Hcat in Hlt; lia).
    exists (gs ++ [cur]). rewrite cuts_snoc, concat_app. cbn [concat]. rewrite app_nil_r, Z.add_0_l, <- len_app, Hcat. split_and!; [done|done| |].
    + apply Forall_app. split; [apply Hb|]. constructor; [by eapply boundary_group|constructor].
    + rewrite <- Hcat. apply Hb.
  - assert (Hnil : cur = []) by (apply len_nothing; rewrite <- Hcat, len_app in Hge; pose proof (len_nonneg cur); lia). subst cur. rewrite app_nil_r in Hcat.
    exists gs. split_and!; [done|done|apply Hb|]. intros n Hn Ht. destruct (bd_kept _ _ _ Hb n) as (g & Hg & E'); [by rewrite app_nil_r, Hcat|by rewrite app_nil_r, Hcat|].
    rewrite app_nil_r, Hcat in E'. exists g. split; [|done]. apply elem_of_app in Hg as [Hg|Hg%list_elem_of_singleton]; [done|]. subst g. by rewrite <- E' in Hn.
Qed.
End Groups.
