(* ===== verification/TierRows.v ===== *)
(** The rows a finalization gathers (metric_tiers.rs, [Builder::add]): a segment
    is read as its rows with their labels, and the builder holds, compactly,
    exactly the rows of its partition, or the addition fails. *)

From stdpp Require Import gmap sorting.
From S2P Require Import Prelude OrdMap Utf8 External Float64 StableHash MetricPostings MetricSegment MetricTiers TierSeries.

(** ** Rows of a segment *)

Record SourceRow : Type := mkSourceRow { sr_canonical : bytes; sr_series_id : Z; sr_ts : Z; sr_value : Z; sr_extra : Extra }.
Definition no_extras : Extra := mkExtra None None None None.

Definition source_row (dictionary : list bytes) (r : SegRow) : option SourceRow :=
  let* key := r.(g_key) in
  let* c := get dictionary key in
  Some (mkSourceRow c r.(g_series_id) r.(g_ts) r.(g_value) r.(g_extra)).

Definition batch_rows (p : Places) (batch : option (list Column)) : option (list SourceRow) :=
  let* batch := batch in
  match open_batch p batch with Ok (dictionary, rows) => mapO (source_row dictionary) rows | _ => None end.

Definition source_rows {File} `{Parquet File} (file : File) : option (list SourceRow) :=
  match open_segment file with
  | Ok (p, batches) => let* ls := mapO (batch_rows p) batches in Some (concat ls)
  | _ => None
  end.

(** A readable segment; Arrow addresses its bytes with 32-bit offsets. *)
Definition segment_of {File} `{Parquet File} (file : File) (rows : list SourceRow) : Prop :=
  source_rows file = Some rows /\ Forall (fun r => len r.(sr_canonical) < 2147483648) rows.

(** ** What a builder may hold *)

Definition label_part (part : option (Z * Z)) (c : bytes) : bool :=
  match part with Some (i, count) => name_partition (row_name c) count =? i | None => true end.
Definition in_part (part : option (Z * Z)) (r : SourceRow) : bool := label_part part r.(sr_canonical).

Definition label_sets (l : list SourceRow) : gset bytes := list_to_set (map sr_canonical l).
Definition extra_rows (l : list SourceRow) : Z := len (List.filter (fun r => negb (no_extra r.(sr_extra))) l).
Definition starts_ok (l : list SourceRow) : bool := forallb (fun r => negb (bool_decide (r.(sr_extra).(e_start) = Some 0))) l.
Definition allowed (max : Z) (l : list SourceRow) : bool :=
  starts_ok l && (len l <=? max) && (Z.of_nat (size (label_sets l)) <=? MAX_SERIES) && (extra_rows l <=? U32_MAX - 1).

Section Gather.
Context `{SimdUtf8}.
Variables (part : option (Z * Z)) (max : Z).

Definition kept (rows : list SourceRow) : list SourceRow := List.filter (in_part part) rows.
Definition valid_rows (rows : list SourceRow) : bool := forallb (fun r => labels_valid r.(sr_canonical)) rows.

(** The rows after an addition, when it succeeds. *)
Definition gather (acc rows : list SourceRow) : option (list SourceRow) :=
  let all := acc ++ kept rows in if valid_rows rows && allowed max all then Some all else None.

Definition take_row (acc : list SourceRow) (r : SourceRow) : option (list SourceRow) :=
  if negb (labels_valid r.(sr_canonical)) then None
  else if negb (in_part part r) then Some acc
  else if allowed max (acc ++ [r]) then Some (acc ++ [r]) else None.

Lemma allowed_iff l : allowed max l = true <->
  Forall (fun r => r.(sr_extra).(e_start) <> Some 0) l /\ len l <= max /\ Z.of_nat (size (label_sets l)) <= MAX_SERIES /\ extra_rows l <= U32_MAX - 1.
Proof.
  unfold allowed, starts_ok. rewrite !andb_true_iff, !Z.leb_le, forallb_forall, Forall_forall. split.
  - intros (((Hs & ?) & ?) & ?). split_and!; try done. intros r Hr. by apply Hs, negb_true_iff, bool_decide_eq_false in Hr.
  - intros (Hs & ? & ? & ?). split_and!; try done. intros r Hr. apply negb_true_iff, bool_decide_eq_false. by apply Hs.
Qed.

Lemma allowed_prefix a b : allowed max (a ++ b) = true -> allowed max a = true.
Proof.
  rewrite !allowed_iff. intros (Hs & Hl & Hd & He). apply Forall_app in Hs as [Hs _]. rewrite len_app in Hl. pose proof (len_nonneg b). unfold extra_rows in *. rewrite List.filter_app, len_app in He.
  pose proof (len_nonneg (List.filter (fun r => negb (no_extra (sr_extra r))) b)). split_and!; [done|lia| |lia].
  assert (size (label_sets a) <= size (label_sets (a ++ b)))%nat; [|lia]. apply subseteq_size. unfold label_sets. rewrite map_app, list_to_set_app_L. set_solver.
Qed.

Fixpoint takes (acc rows : list SourceRow) : option (list SourceRow) :=
  match rows with [] => Some acc | r :: rows => let* acc := take_row acc r in takes acc rows end.

Lemma gather_takes rows : forall acc, allowed max acc = true -> gather acc rows = takes acc rows.
Proof.
  induction rows as [|r rows IH]; intros acc Ha; unfold gather, kept in *; cbn [valid_rows forallb List.filter takes]; [by rewrite app_nil_r, Ha|].
  unfold take_row. destruct (labels_valid (sr_canonical r)); [|done]. cbn [negb andb]. destruct (in_part part r); cbn [negb]; [|by apply IH].
  destruct (allowed max (acc ++ [r])) eqn:E.
  - rewrite <- IH by done. unfold valid_rows. by rewrite <- app_assoc.
  - replace (allowed max (acc ++ r :: _)) with false; [by destruct (forallb _ rows)|]. symmetry. apply not_true_iff_false. intros E'.
    rewrite cons_middle, app_assoc in E'. apply allowed_prefix in E'. congruence.
Qed.

Lemma gather_app acc a b all : gather acc a = Some all -> gather all b = gather acc (a ++ b).
Proof.
  unfold gather, kept, valid_rows. rewrite forallb_app, List.filter_app, app_assoc. destruct (forallb _ a); [|done]. cbn [andb].
  destruct (allowed max (acc ++ List.filter (in_part part) a)); [|done]. by intros [= <-].
Qed.
End Gather.

(** ** What the builder holds *)

Definition view (s : Series) (ex : list Extra) (r : CompactRow) : SourceRow :=
  mkSourceRow (canonical_of s r.(r_series)) r.(r_series_id) r.(r_ts) r.(r_value) (default no_extras (extra_of ex r.(r_extra))).

Definition row_wf (s : Series) (ex : list Extra) (r : CompactRow) : Prop := known s r.(r_series) /\ (r.(r_extra) = NO_EXTRA \/ 0 <= r.(r_extra) < len ex).

Record gathered `{SimdUtf8} (max : Z) (s : Series) (rows : list CompactRow) (ex : list Extra) (acc : list SourceRow) : Prop := mkGathered {
  ga_series : series_ok s;
  ga_rows : map (view s ex) rows = acc;
  ga_wf : Forall (row_wf s ex) rows;
  ga_labels : forall c, c ∈ s.(canonicals) <-> c ∈ map sr_canonical acc;
  ga_extras : len ex = extra_rows acc;
  ga_allowed : allowed max acc = true
}.

Lemma known_extends s s' i : extends s s' -> known s i -> known s' i /\ canonical_of s' i = canonical_of s i.
Proof.
  intros He Hi. apply known_canonical in Hi. apply He in Hi. split; [by apply get_Some_bound in Hi|]. unfold canonical_of at 1. by rewrite Hi.
Qed.

Lemma view_extends s s' ex e r : extends s s' -> len (ex ++ e) <= U32_MAX - 1 -> row_wf s ex r -> view s' (ex ++ e) r = view s ex r /\ row_wf s' (ex ++ e) r.
Proof.
  intros He Hl [Hk Hx]. destruct (known_extends s s' _ He Hk) as [Hk' Hc]. rewrite len_app in Hl. pose proof (len_nonneg e). unfold view, row_wf, extra_of. rewrite Hc, len_app.
  destruct (Z.eqb_spec (r_extra r) NO_EXTRA) as [->|Hn]; [split; [done|]; split; [done|by left]|]. destruct Hx as [Hx|Hx]; [done|]. split; [|split; [done|right; lia]].
  f_equal. f_equal. destruct (get_is_Some ex (r_extra r) Hx) as [y Hy]. rewrite Hy. unfold get in *. rewrite len_app.
  rewrite (proj2 (Z.leb_le _ _)) in * by lia. rewrite (proj2 (Z.ltb_lt _ _)) in Hy by lia. rewrite (proj2 (Z.ltb_lt _ _)) by lia. cbn [andb] in *. by apply lookup_app_l_Some.
Qed.

Lemma views_extends s s' ex e rows : extends s s' -> len (ex ++ e) <= U32_MAX - 1 -> Forall (row_wf s ex) rows ->
  map (view s' (ex ++ e)) rows = map (view s ex) rows /\ Forall (row_wf s' (ex ++ e)) rows.
Proof.
  intros He Hl. induction 1 as [|r rows Hr _ [IH1 IH2]]; [done|]. destruct (view_extends s s' ex e r He Hl Hr) as [Hv Hw]. cbn [map]. rewrite Hv, IH1. split; [done|by constructor].
Qed.

(** ** One row *)

Section Step.
Context `{SimdUtf8}.
Variables (part : option (Z * Z)) (max : Z).

Lemma gathered_labels s rows ex acc : gathered max s rows ex acc -> Z.of_nat (size (label_sets acc)) = len s.(canonicals).
Proof.
  intros Hg. unfold len. f_equal. rewrite <- (size_list_to_set (C:=gset bytes)) by (eapply series_distinct, Hg). f_equal. apply set_eq. intros c. unfold label_sets. rewrite !elem_of_list_to_set. symmetry. apply (ga_labels _ _ _ _ _ Hg).
Qed.

Lemma extra_rows_snoc acc r : extra_rows (acc ++ [r]) = extra_rows acc + (if no_extra r.(sr_extra) then 0 else 1).
Proof. unfold extra_rows. rewrite List.filter_app, len_app. cbn. by destruct (no_extra _). Qed.

Lemma label_sets_snoc acc r : label_sets (acc ++ [r]) = label_sets acc ∪ {[r.(sr_canonical)]}.
Proof. unfold label_sets. rewrite map_app, list_to_set_app_L. cbn. set_solver. Qed.

Definition push_compact (s : Series) (rows : list CompactRow) (ex : list Extra) (interned : list Z) (added i : Z) (r : SegRow) : Res Gathered :=
  if max <=? len rows then Err TooLarge
  else if bool_decide (r.(g_extra).(e_start) = Some 0) then Err Invalid
  else
    let? (ex, extra) := push_extra ex r.(g_extra) in
    Ok (s, rows ++ [mkCompactRow r.(g_series_id) r.(g_ts) r.(g_value) i extra], ex, interned, added + 1).

Lemma no_extra_none e : no_extra e = true -> e = no_extras.
Proof. destruct e as [[?|] [?|] [?|] [?|]]; done. Qed.

Lemma push_compact_step s s' rows ex acc interned added i c r : gathered max s rows ex acc -> series_ok s' -> extends s s' -> get s'.(canonicals) i = Some c ->
  (forall d, d ∈ s'.(canonicals) <-> d ∈ s.(canonicals) \/ d = c) ->
  let sr := mkSourceRow c r.(g_series_id) r.(g_ts) r.(g_value) r.(g_extra) in
  match push_compact s' rows ex interned added i r with
  | Ok (s2, rows2, ex2, interned2, added2) => allowed max (acc ++ [sr]) = true /\ s2 = s' /\ interned2 = interned /\ added2 = added + 1 /\ gathered max s' rows2 ex2 (acc ++ [sr])
  | Err _ => allowed max (acc ++ [sr]) = false
  | Fuel => False
  end.
Proof.
  intros Hg Hs' He Hi Hd sr. pose proof (proj1 (allowed_iff _ _) (ga_allowed _ _ _ _ _ Hg)) as (A1 & A2 & A3 & A4). pose proof (ga_extras _ _ _ _ _ Hg) as Hx.
  assert (Hlen : len rows = len acc) by (rewrite <- (ga_rows _ _ _ _ _ Hg); by rewrite len_map).
  assert (Hsets : label_sets (acc ++ [sr]) = list_to_set s'.(canonicals)).
  { rewrite label_sets_snoc. apply set_eq. intros d. rewrite elem_of_union, elem_of_list_to_set, elem_of_singleton, Hd, (ga_labels _ _ _ _ _ Hg). unfold label_sets. by rewrite elem_of_list_to_set. }
  assert (Hsize : Z.of_nat (size (label_sets (acc ++ [sr]))) <= MAX_SERIES).
  { rewrite Hsets, size_list_to_set by (by apply series_distinct). apply (so_max _ Hs'). }
  unfold push_compact. destruct (Z.leb_spec max (len rows)) as [Hm|Hm].
  { apply not_true_iff_false. intros (_ & E2 & _)%allowed_iff. rewrite len_app in E2. change (len [sr]) with 1 in E2. lia. }
  destruct (bool_decide (e_start (g_extra r) = Some 0)) eqn:Est.
  { apply bool_decide_eq_true in Est. apply not_true_iff_false. intros [Hf _]%allowed_iff. apply Forall_app in Hf as [_ Hf]. by apply Forall_cons_1 in Hf as [Hf _]. }
  apply bool_decide_eq_false in Est. unfold push_extra. pose proof (extra_rows_snoc acc sr) as Hsn. cbn [sr_extra sr] in Hsn.
  assert (Hall : extra_rows (acc ++ [sr]) <= U32_MAX - 1 -> allowed max (acc ++ [sr]) = true).
  { intros Hle. apply allowed_iff. split_and!; [|rewrite len_app; change (len [sr]) with 1; lia|done|done]. apply Forall_app. split; [done|]. by repeat constructor. }
  assert (Hin : forall d, d ∈ canonicals s' <-> d ∈ map sr_canonical (acc ++ [sr])).
  { intros d. rewrite Hd, map_app, elem_of_app, (ga_labels _ _ _ _ _ Hg). cbn. by rewrite list_elem_of_singleton. }
  assert (Hrow : forall ex2 e2 x, ex2 = ex ++ e2 -> len ex2 <= U32_MAX - 1 -> len ex2 = extra_rows (acc ++ [sr]) ->
    default no_extras (extra_of ex2 x) = r.(g_extra) -> (x = NO_EXTRA \/ 0 <= x < len ex2) ->
    gathered max s' (rows ++ [mkCompactRow r.(g_series_id) r.(g_ts) r.(g_value) i x]) ex2 (acc ++ [sr])).
  { intros ex2 e2 x -> Hle Hcnt Hex Hxr. destruct (views_extends s s' ex e2 rows He Hle (ga_wf _ _ _ _ _ Hg)) as [Hv Hw]. split; [done| | |done|done|apply Hall; lia].
    - rewrite map_app, Hv, (ga_rows _ _ _ _ _ Hg). cbn. f_equal. f_equal. unfold view, sr. cbn [r_series r_series_id r_ts r_value r_extra]. rewrite Hex. unfold canonical_of. by rewrite Hi.
    - apply Forall_app. split; [done|]. constructor; [|constructor]. split; [by apply get_Some_bound in Hi|done]. }
  destruct (no_extra (g_extra r)) eqn:En.
  - split_and!; [apply Hall; lia|done|done|done|]. apply (Hrow ex []); [by rewrite app_nil_r|lia|lia|by rewrite (no_extra_none _ En)|by left].
  - destruct (Z.leb_spec (U32_MAX - 1) (len ex)) as [Hf|Hf].
    + apply not_true_iff_false. intros (_ & _ & _ & E4)%allowed_iff. lia.
    + assert (Hu : as_u32 (len ex) = len ex) by (unfold as_u32; apply Z.mod_small; pose proof (len_nonneg ex); unfold U32_MAX in Hf; lia). rewrite Hu.
      assert (Hl1 : len (ex ++ [g_extra r]) = len ex + 1) by (by rewrite len_app).
      split_and!; [apply Hall; lia|done|done|done|]. apply (Hrow _ [g_extra r]); [done|lia|lia| |right; pose proof (len_nonneg ex); lia].
      unfold extra_of. rewrite get_snoc, Z.eqb_refl. destruct (Z.eqb_spec (len ex) NO_EXTRA); [unfold NO_EXTRA in *; lia|done].
Qed.

(** The dictionary entries looked up so far. *)
Definition interned_ok (dictionary : list bytes) (s : Series) (interned : list Z) : Prop :=
  length interned = length dictionary /\
  forall key v, get interned key = Some v -> v = U32_MAX \/
    exists c, get dictionary key = Some c /\ labels_valid c = true /\ (v = SKIPPED /\ label_part part c = false \/ get s.(canonicals) v = Some c /\ label_part part c = true).

Lemma interned_extends dictionary s s' interned : extends s s' -> interned_ok dictionary s interned -> interned_ok dictionary s' interned.
Proof.
  intros He [Hl Hi]. split; [done|]. intros key v Hv. destruct (Hi key v Hv) as [?|(c & Hc & Hv' & Hs)]; [by left|]. right. exists c. split_and!; [done|done|].
  destruct Hs as [?|[Hs ?]]; [by left|right]. split; [by apply He|done].
Qed.

Lemma get_insert (l : list Z) k v j : 0 <= k < len l -> get (<[Z.to_nat k:=v]> l) j = if j =? k then Some v else get l j.
Proof.
  intros Hk. unfold get. replace (len (<[Z.to_nat k:=v]> l)) with (len l) by (unfold len; by rewrite length_insert). destruct (Z.eqb_spec j k) as [->|Hn].
  - rewrite (proj2 (Z.leb_le _ _)), (proj2 (Z.ltb_lt _ _)) by lia. apply list_lookup_insert_eq. unfold len in Hk. lia.
  - destruct (_ && _) eqn:E; [|done]. apply andb_true_iff in E as [E1%Z.leb_le _]. apply list_lookup_insert_ne. lia.
Qed.

Lemma interned_insert dictionary s interned key c v : interned_ok dictionary s interned -> get dictionary key = Some c -> labels_valid c = true ->
  (v = SKIPPED /\ label_part part c = false \/ get s.(canonicals) v = Some c /\ label_part part c = true) -> interned_ok dictionary s (<[Z.to_nat key:=v]> interned).
Proof.
  intros [Hl Hi] Hc Hv Hs. split; [by rewrite length_insert|]. intros j w. rewrite get_insert by (apply get_Some_bound in Hc; unfold len in *; lia).
  destruct (Z.eqb_spec j key) as [->|]; [|by apply Hi]. intros [= <-]. right. by exists c.
Qed.

(** Looking up the series of a row. *)
Lemma series_of_key_step s rows ex acc c : gathered max s rows ex acc -> len c < 4294967296 ->
  match series_of_key part s c with
  | Ok (s', i) => labels_valid c = true /\ (i = SKIPPED /\ s' = s /\ label_part part c = false \/
      series_ok s' /\ extends s s' /\ get s'.(canonicals) i = Some c /\ (forall d, d ∈ s'.(canonicals) <-> d ∈ s.(canonicals) \/ d = c) /\ label_part part c = true)
  | Err _ => labels_valid c = false \/ label_part part c = true /\ forall r, r.(sr_canonical) = c -> allowed max (acc ++ [r]) = false
  | Fuel => False
  end.
Proof.
  intros Hg Hc. assert (Hin : label_part part c = true -> match intern s c with
    | Ok (s', i) => labels_valid c = true /\ series_ok s' /\ extends s s' /\ get s'.(canonicals) i = Some c /\ (forall d, d ∈ s'.(canonicals) <-> d ∈ s.(canonicals) \/ d = c)
    | Err _ => labels_valid c = false \/ forall r, r.(sr_canonical) = c -> allowed max (acc ++ [r]) = false
    | Fuel => False end).
  { intros _. pose proof (ga_series _ _ _ _ _ Hg) as Hs. destruct (labels_valid c) eqn:Ev.
    - pose proof (proj1 (intern_exact s c Hs Hc Ev)) as Hi. destruct (intern s c) as [[s' i]|e|]; [done| |done]. destruct Hi as [Hn Hm]. right. intros r Hr. apply not_true_iff_false. intros (_ & _ & Hd & _)%allowed_iff.
      rewrite label_sets_snoc, size_union in Hd; [rewrite size_singleton in Hd; pose proof (gathered_labels _ _ _ _ Hg); lia|]. rewrite Hr. intros d Hd1 Hd2. apply elem_of_singleton in Hd2 as ->. apply Hn, (ga_labels _ _ _ _ _ Hg). unfold label_sets in Hd1. by apply elem_of_list_to_set in Hd1.
    - unfold intern. destruct (index s !! c) as [i|] eqn:Ei; [apply (so_index _ Hs), (so_valid _ Hs) in Ei as [Ei _]; congruence|]. destruct (_ <=? _); [by left|].
      pose proof (validated_name_ok c Hc) as Hv. rewrite Ev in Hv. rewrite Hv. by left. }
  unfold series_of_key. destruct part as [[i count]|] eqn:Ep.
  - rewrite canonical_name_ok by done. destruct (labels_valid c) eqn:Ev; [|by left]. unfold label_part in *. destruct (name_partition (row_name c) count =? i) eqn:En; cbn [negb].
    + specialize (Hin eq_refl). destruct (intern s c) as [[s' j]|e|]; [|right; split; [done|]; by destruct Hin|done]. destruct Hin as (_ & ? & ? & ? & ?). split; [done|]. right. by split_and!.
    + split; [done|]. by left.
  - specialize (Hin eq_refl). destruct (intern s c) as [[s' j]|e|]; [|destruct Hin as [?|?]; [by left|by right]|done]. destruct Hin as (? & ? & ? & ? & ?). split; [done|]. right. by split_and!.
Qed.

Definition row_outcome (dictionary : list bytes) (acc : list SourceRow) (added : Z) (x : Res Gathered) (y : option (list SourceRow)) : Prop :=
  match x, y with
  | Ok (s, rows, ex, interned, added'), Some acc' => gathered max s rows ex acc' /\ interned_ok dictionary s interned /\ added' - len acc' = added - len acc
  | Err _, None => True
  | _, _ => False
  end.

Lemma add_row_step dictionary s rows ex interned added acc r sr : gathered max s rows ex acc -> interned_ok dictionary s interned ->
  source_row dictionary r = Some sr -> len sr.(sr_canonical) < 2147483648 ->
  row_outcome dictionary acc added (add_row part max dictionary (s, rows, ex, interned, added) r) (take_row part max acc sr).
Proof.
  intros Hg Hi Hr Hlen. unfold source_row in Hr. destruct (g_key r) as [key|] eqn:Ek; [|done]. destruct (get dictionary key) as [c|] eqn:Ec; [|done]. injection Hr as <-. cbn [sr_canonical] in Hlen.
  set (sr := mkSourceRow c _ _ _ _). unfold add_row. rewrite Ek. cbn [ok_or]. cbv iota. destruct (get_is_Some interned key) as [v Hv]; [apply get_Some_bound in Ec; destruct Hi as [Hi _]; unfold len in *; lia|]. rewrite Hv. cbn [ok_or]. cbv iota.
  assert (Hbig : forall s' i, series_ok s' -> get s'.(canonicals) i = Some c -> (i =? SKIPPED) = false).
  { intros s' i Hs' Hgi. apply get_Some_bound in Hgi. pose proof (so_max _ Hs'). apply Z.eqb_neq. unfold MAX_SERIES, SKIPPED, U32_MAX in *. lia. }
  assert (Hpush : forall s' i interned', series_ok s' -> extends s s' -> get s'.(canonicals) i = Some c -> (forall d, d ∈ s'.(canonicals) <-> d ∈ s.(canonicals) \/ d = c) -> interned_ok dictionary s' interned' ->
    row_outcome dictionary acc added (push_compact s' rows ex interned' added i r) (if allowed max (acc ++ [sr]) then Some (acc ++ [sr]) else None)).
  { intros s' i interned' H1 H2 H3 H4 H5. pose proof (push_compact_step s s' rows ex acc interned' added i c r Hg H1 H2 H3 H4) as Hp. cbv zeta in Hp. fold sr in Hp. unfold row_outcome.
    destruct (push_compact _ _ _ _ _ _ _) as [[[[[s2 rows2] ex2] interned2] added2]|e|]; [|by rewrite Hp|done]. destruct Hp as (-> & -> & -> & -> & Hp). split_and!; [done|done|]. rewrite len_app. change (len [sr]) with 1. lia. }
  unfold take_row. fold sr. unfold in_part. cbn [sr_canonical sr]. destruct (proj2 Hi key v Hv) as [->|(c' & Hc' & Hval & Hs)].
  - rewrite Z.eqb_refl, Ec. cbv [default from_option id]. pose proof (series_of_key_step s rows ex acc c Hg ltac:(lia)) as Hk. destruct (series_of_key part s c) as [[s' i]|e|]; [| |done].
    + destruct Hk as (Hval & Hk). rewrite Hval. cbn [negb]. destruct Hk as [(-> & -> & Hp)|(H1 & H2 & H3 & H4 & Hp)].
      * rewrite Z.eqb_refl, Hp. cbn [negb]. split_and!; [done| |done]. apply interned_insert with c; [done|done|done|by left].
      * rewrite (Hbig s' i), Hp by done. cbn [negb]. apply Hpush; [done..|]. apply interned_insert with c; [by eapply interned_extends|done|done|by right].
    + destruct Hk as [->|[-> Hk]]; [done|]. destruct (labels_valid c); [|done]. cbn [negb]. rewrite Hk; [done|done].
  - rewrite Ec in Hc'. injection Hc' as <-. rewrite Hval. cbn [negb]. replace (v =? U32_MAX) with false.
    2: { symmetry. apply Z.eqb_neq. destruct Hs as [[-> _]|[Hs _]]; [done|]. apply get_Some_bound in Hs. pose proof (so_max _ (ga_series _ _ _ _ _ Hg)). unfold MAX_SERIES, U32_MAX in *. lia. }
    destruct Hs as [[-> Hp]|[Hs Hp]]; rewrite Hp; cbn [negb].
    + by rewrite Z.eqb_refl.
    + rewrite (Hbig s v) by (done || apply Hg). apply Hpush; [apply Hg|apply extends_refl|done| |done]. intros d. split; [by left|]. intros [Hd| ->]; [done|by apply get_Some_elem in Hs].
Qed.

(** ** A segment *)

Lemma add_rows_step dictionary rs srs : mapO (source_row dictionary) rs = Some srs -> Forall (fun r => len r.(sr_canonical) < 2147483648) srs ->
  forall s rows ex interned added acc, gathered max s rows ex acc -> interned_ok dictionary s interned ->
  row_outcome dictionary acc added (foldM (add_row part max dictionary) (s, rows, ex, interned, added) rs) (takes part max acc srs).
Proof.
  revert srs. induction rs as [|r rs IH]; intros srs E Hl s rows ex interned added acc Hg Hi; [injection E as <-; by cbn|]. cbn [mapO] in E.
  destruct (source_row dictionary r) as [sr|] eqn:Er; [|done]. destruct (mapO (source_row dictionary) rs) as [l|]; [|done]. injection E as <-. apply Forall_cons_1 in Hl as [Hlr Hl].
  cbn [foldM takes]. pose proof (add_row_step dictionary s rows ex interned added acc r sr Hg Hi Er Hlr) as Hs. unfold row_outcome in Hs.
  destruct (add_row _ _ _ _ _) as [[[[[s1 rows1] ex1] in1] ad1]|e|], (take_row part max acc sr) as [acc1|]; try done. destruct Hs as (Hg1 & Hi1 & Ha). specialize (IH l eq_refl Hl s1 rows1 ex1 in1 ad1 acc1 Hg1 Hi1).
  unfold row_outcome in *. destruct (foldM _ _ _) as [[[[[s2 rows2] ex2] in2] ad2]|e|], (takes part max acc1 l); try done. destruct IH as (? & ? & ?). split_and!; [done|done|lia].
Qed.

Definition batch_outcome (acc : list SourceRow) (added : Z) (x : Res (Series * list CompactRow * list Extra * Z)) (y : option (list SourceRow)) : Prop :=
  match x, y with
  | Ok (s, rows, ex, added'), Some acc' => gathered max s rows ex acc' /\ added' - len acc' = added - len acc
  | Err _, None => True
  | _, _ => False
  end.

Lemma add_batch_step p batch srs s rows ex added acc : batch_rows p batch = Some srs -> Forall (fun r => len r.(sr_canonical) < 2147483648) srs -> gathered max s rows ex acc ->
  batch_outcome acc added (add_batch part max p (s, rows, ex, added) batch) (takes part max acc srs).
Proof.
  intros E Hl Hg. unfold batch_rows in E. unfold add_batch. destruct batch as [batch|]; [|done]. cbn [ok_or]. cbv iota. destruct (open_batch p batch) as [[dictionary rs]|e|]; [|done|done].
  assert (Hi : interned_ok dictionary s (replicate (length dictionary) U32_MAX)).
  { split; [by rewrite length_replicate|]. intros key v Hv. left. unfold get in Hv. destruct (_ && _); [|done]. by apply lookup_replicate in Hv as [-> _]. }
  pose proof (add_rows_step dictionary rs srs E Hl s rows ex _ added acc Hg Hi) as Hs. unfold row_outcome in Hs. unfold batch_outcome.
  destruct (foldM _ _ _) as [[[[[s2 rows2] ex2] in2] ad2]|e|], (takes part max acc srs); try done. destruct Hs as (? & ? & ?). by split.
Qed.

Lemma takes_app a b : forall acc, takes part max acc (a ++ b) = let* acc := takes part max acc a in takes part max acc b.
Proof. induction a as [|r a IH]; intros acc; [done|]. cbn [takes app]. destruct (take_row part max acc r); [apply IH|done]. Qed.

Lemma add_batches_step p batches ls : mapO (batch_rows p) batches = Some ls -> Forall (fun r => len r.(sr_canonical) < 2147483648) (concat ls) ->
  forall s rows ex added acc, gathered max s rows ex acc -> batch_outcome acc added (foldM (add_batch part max p) (s, rows, ex, added) batches) (takes part max acc (concat ls)).
Proof.
  revert ls. induction batches as [|b batches IH]; intros ls E Hl s rows ex added acc Hg; [injection E as <-; by cbn|]. cbn [mapO] in E.
  destruct (batch_rows p b) as [srs|] eqn:Eb; [|done]. destruct (mapO (batch_rows p) batches) as [l|]; [|done]. injection E as <-. cbn [concat] in *. apply Forall_app in Hl as [Hlb Hl].
  cbn [foldM]. rewrite takes_app. pose proof (add_batch_step p b srs s rows ex added acc Eb Hlb Hg) as Hs. unfold batch_outcome in Hs.
  destruct (add_batch _ _ _ _ _) as [[[[s1 rows1] ex1] ad1]|e|], (takes part max acc srs) as [acc1|]; try done. destruct Hs as (Hg1 & Ha). specialize (IH l eq_refl Hl s1 rows1 ex1 ad1 acc1 Hg1).
  unfold batch_outcome in *. destruct (foldM _ _ _) as [[[[s2 rows2] ex2] ad2]|e|], (takes part max acc1 (concat l)); try done. destruct IH as (? & ?). split; [done|lia].
Qed.
End Step.

(** ** Additions *)

(** A builder that still gathers. *)
Record gathering `{SimdUtf8} (start end_ max : Z) (part : option (Z * Z)) (b : Builder) (acc : list SourceRow) : Prop := mkGathering {
  gb_start : b.(b_start) = start;
  gb_end : b.(b_end) = end_;
  gb_max : b.(max_rows) = max;
  gb_part : b.(partition) = part;
  gb_plan : b.(plan) = None;
  gb_rows : gathered max b.(series) b.(rows) b.(extras) acc
}.

(** An addition succeeds exactly when [gather] does, counts the rows it kept and
    holds them; a failed one ends the builder. *)
Lemma add_exact `{SimdUtf8} {File} `{Parquet File} start end_ max part b acc (file : File) srs : gathering start end_ max part b acc -> segment_of file srs ->
  match metric_finalize_add (Some b) file with
  | (Some (Ok n), Some b') => exists acc', gather part max acc srs = Some acc' /\ n = len (kept part srs) /\ gathering start end_ max part b' acc'
  | (Some (Err _), None) => gather part max acc srs = None
  | _ => False
  end.
Proof.
  intros [G1 G2 G3 G4 G5 Hg] [Hs Hl]. unfold metric_finalize_add, add. rewrite G5. cbn [has]. unfold source_rows in Hs. destruct (open_segment file) as [[p batches]|e|]; [|done|done].
  destruct (mapO (batch_rows p) batches) as [ls|] eqn:El; [|done]. injection Hs as <-. rewrite (gather_takes part max _ _ (ga_allowed _ _ _ _ _ Hg)).
  pose proof (gather_takes part max (concat ls) acc (ga_allowed _ _ _ _ _ Hg)) as Hgt.
  pose proof (add_batches_step part max p batches ls El Hl (series b) (rows b) (extras b) 0 acc Hg) as Hb. rewrite <- G3, <- G4 in *. unfold batch_outcome in Hb.
  destruct (foldM _ _ _) as [[[[s2 rows2] ex2] ad2]|e|]; [|by destruct (takes _ _ _ _)|done]. destruct (takes _ _ _ _) as [acc'|] eqn:Et; [|done]. destruct Hb as [Hg2 Ha]. exists acc'. split_and!; [done| |].
  - unfold gather in Hgt. cbv zeta in Hgt. destruct (_ && _); [|done]. injection Hgt as <-. rewrite len_app in Ha. lia.
  - split; try done; by cbn.
Qed.

Lemma new_gathering `{SimdUtf8} start end_ max part b : metric_finalize_new start end_ max part = Some b -> 0 <= max -> gathering start end_ max part b [] /\ start < end_.
Proof.
  intros E Hm. unfold metric_finalize_new in E. destruct (match part with Some _ => _ | None => _ end); [done|]. destruct ((end_ <=? start) || (max =? 0)) eqn:Eo; [done|]. injection E as <-.
  apply orb_false_iff in Eo as [Eo _]. apply Z.leb_gt in Eo. split; [|done]. split; try done. split; [apply series_default_ok|done|constructor| |done|].
  - intros c. cbn. split; intros Hc; by apply elem_of_nil in Hc.
  - apply allowed_iff. split_and!; [constructor|rewrite len_nil; lia|done|done].
Qed.
