(* ===== verification/TierSummary.v ===== *)
(** The summary of a series in a finalization (metric_tiers.rs, [rollup_rows] and
    [Aggregate]): which samples of the rows count, and that every field is exact
    over those samples. *)

From Stdlib Require Import SpecFloat.
From stdpp Require Import gmap sorting.
From S2P Require Import Prelude OrdMap Utf8 External Float64 MetricValue StableHash MetricPostings MetricSegment MetricTiers TierSeries TierGroups TierRows.

(** ** The summary of a list of samples *)

(** A sample changes the value before it, or resets it. *)
Definition changed (e : Z * Z) : bool := negb (f64_eq (fst e) (snd e) || (f64_is_nan (fst e) && f64_is_nan (snd e))).
Definition reset (e : Z * Z) : bool := f64_lt (snd e) (fst e).
Definition values (samples : list (Z * Z)) : list Z := map snd samples.
Definition steps (samples : list (Z * Z)) : list (Z * Z) := windows2 (values samples).

Definition flag_bits (h c z : bool) : Z := Z.lor (if h then FLAG_HISTOGRAM else 0) (Z.lor (if c then FLAG_CONFLICT else 0) (if z then FLAG_NEGATIVE_ZERO_RESET else 0)).
Definition negative_zero_reset (samples : list (Z * Z)) : bool := existsb (fun e => reset e && (fst e =? NEGATIVE_ZERO)) (steps samples).

Definition least (l : list Z) : Z := fold_left push_min l F64_NAN.
Definition greatest (l : list Z) : Z := fold_left push_max l F64_NAN.

(** Every field of the summary of [samples], with the two flags that depend on
    the rows. *)
Definition aggregate_of (series series_id bucket : Z) (samples : list (Z * Z)) (h c : bool) : Aggregate :=
  mkAggregate series series_id bucket (len samples)
    (from_option fst 0 (head samples)) (from_option snd 0 (head samples)) (from_option fst 0 (list.last samples)) (from_option snd 0 (list.last samples))
    (least (values samples)) (greatest (values samples))
    (len (List.filter changed (steps samples))) (len (List.filter reset (steps samples))) (map fst (List.filter reset (steps samples)))
    (flag_bits h c (negative_zero_reset samples)) (from_option snd 0 (list.last samples)).

Lemma windows2_snoc2 {A} (l : list A) x y : windows2 (l ++ [x; y]) = windows2 (l ++ [x]) ++ [(x, y)].
Proof.
  induction l as [|z l IH]; [done|]. destruct l as [|w l]; [done|]. cbn [app windows2] in *. by rewrite IH.
Qed.

Lemma snoc_cases {A} (l : list A) : l = [] \/ exists k x, l = k ++ [x].
Proof. destruct l as [|x l] using rev_ind; [by left|right; eauto]. Qed.

Lemma steps_snoc samples t v t' v' : steps ((samples ++ [(t, v)]) ++ [(t', v')]) = steps (samples ++ [(t, v)]) ++ [(v, v')].
Proof. unfold steps, values. rewrite !map_app. cbn [map snd]. rewrite <- app_assoc. apply windows2_snoc2. Qed.

Lemma flag_bits_zero h c z : Z.lor (flag_bits h c z) FLAG_NEGATIVE_ZERO_RESET = flag_bits h c true.
Proof. by destruct h, c, z. Qed.

Lemma push_aggregate series id bucket samples h c ts v : push (aggregate_of series id bucket samples h c) ts v = aggregate_of series id bucket (samples ++ [(ts, v)]) h c.
Proof.
  destruct (snoc_cases samples) as [->|(l & [t p] & ->)]; [done|]. unfold aggregate_of at 2. rewrite last_snoc, steps_snoc, !List.filter_app. cbn [List.filter].
  unfold push. cbn [a_count aggregate_of a_series a_series_id a_bucket a_first_ts a_first a_last_ts a_last a_min a_max a_changes a_resets a_reset_values a_flags a_last_bits].
  replace (len (l ++ [(t, p)]) =? 0) with false by (symmetry; apply Z.eqb_neq; rewrite len_app; change (len [(t, p)]) with 1; pose proof (len_nonneg l); lia).
  unfold push_next. cbn [a_count aggregate_of a_last a_changes a_resets a_reset_values a_flags a_last_bits]. rewrite last_snoc. cbn [from_option snd].
  assert (Hh : forall (f : Z * Z -> Z), from_option f 0 (head ((l ++ [(t, p)]) ++ [(ts, v)])) = from_option f 0 (head (l ++ [(t, p)]))) by (intros f; by destruct l). rewrite !Hh.
  unfold values at 3 4. rewrite map_app. cbn [map snd]. unfold least, greatest. rewrite !fold_left_app. cbn [fold_left]. fold (values (l ++ [(t, p)])).
  unfold negative_zero_reset. rewrite steps_snoc, existsb_app. cbn [existsb fst]. rewrite orb_false_r.
  assert (Ec : changed (p, v) = negb (f64_eq p v || f64_is_nan p && f64_is_nan v)) by done. assert (Er : reset (p, v) = f64_lt v p) by done. rewrite Ec, Er.
  rewrite (len_app (l ++ [(t, p)])). change (len [(ts, v)]) with 1.
  destruct (f64_eq p v || f64_is_nan p && f64_is_nan v), (f64_lt v p); cbn [negb andb fst snd]; rewrite ?app_nil_r, ?orb_false_r, ?len_app, ?map_app; try done;
    f_equal; destruct (p =? NEGATIVE_ZERO); rewrite ?orb_true_r, ?orb_false_r; try done; apply flag_bits_zero.
Qed.

Lemma flag_histogram series id bucket samples h c : with_flag (aggregate_of series id bucket samples h c) FLAG_HISTOGRAM = aggregate_of series id bucket samples true c.
Proof. unfold with_flag, aggregate_of. cbn. f_equal. by destruct h, c, (negative_zero_reset samples). Qed.

Lemma flag_conflict series id bucket samples h c : with_flag (aggregate_of series id bucket samples h c) FLAG_CONFLICT = aggregate_of series id bucket samples h true.
Proof. unfold with_flag, aggregate_of. cbn. f_equal. by destruct h, c, (negative_zero_reset samples). Qed.

(** ** Least and greatest values *)

(** Floats compare by a key, NaN aside. *)
Definition float_key (f : spec_float) : Z * (Z * Z) :=
  match f with
  | S754_nan => (3, (0, 0))
  | S754_infinity true => (-2, (0, 0))
  | S754_infinity false => (2, (0, 0))
  | S754_zero _ => (0, (0, 0))
  | S754_finite true m e => (-1, (- e, - Z.pos m))
  | S754_finite false m e => (1, (e, Z.pos m))
  end.
Definition value_key (v : Z) : Z * (Z * Z) := float_key (spec_of_bits v).

Lemma float_compare f g : f <> S754_nan -> g <> S754_nan -> SFcompare f g = Some (cmp (float_key f) (float_key g)).
Proof.
  intros Hf Hg. destruct f as [[]|[]| |[] m e], g as [[]|[]| |[] m' e']; try done; cbn; f_equal.
  - rewrite Z.compare_opp, (Z.compare_antisym e e'). destruct (e ?= e'); done.
Qed.

Lemma nan_spec v : f64_is_nan v = false -> spec_of_bits v <> S754_nan.
Proof. unfold f64_is_nan. by destruct (spec_of_bits v). Qed.

Lemma value_lt_key a b : f64_is_nan a = false -> f64_is_nan b = false -> f64_lt a b = true <-> cmp (value_key a) (value_key b) = Lt.
Proof. intros Ha%nan_spec Hb%nan_spec. unfold f64_lt, SFltb, value_key. rewrite float_compare by done. by destruct (cmp _ _). Qed.

Lemma value_le_key a b : f64_is_nan a = false -> f64_is_nan b = false -> f64_le a b = true <-> key_leP value_key a b.
Proof. intros Ha%nan_spec Hb%nan_spec. unfold f64_le, SFleb, key_leP, key_le, value_key. rewrite float_compare by done. by destruct (cmp _ _). Qed.

Lemma value_lt_le a b : f64_is_nan a = false -> f64_is_nan b = false -> f64_lt a b = negb (f64_le b a).
Proof.
  intros Ha Hb. pose proof (value_lt_key a b Ha Hb) as H1. pose proof (value_le_key b a Hb Ha) as H2. unfold key_leP, key_le in H2. rewrite (cmp_antisym (value_key a) (value_key b)) in H2.
  destruct (cmp (value_key a) (value_key b)), (f64_lt a b), (f64_le b a); cbn in *; try done; exfalso; intuition congruence.
Qed.

Lemma value_le_trans a b c : f64_is_nan a = false -> f64_is_nan b = false -> f64_is_nan c = false -> f64_le a b = true -> f64_le b c = true -> f64_le a c = true.
Proof. intros Ha Hb Hc. rewrite !value_le_key by done. apply key_le_trans. Qed.

(** A value stands out of a list with NaNs: those before it and behind it. *)
Definition stands_out (before behind : Z -> bool) (l : list Z) (m : Z) : Prop :=
  (Forall (fun v => f64_is_nan v = true) l /\ m = F64_NAN) \/
  exists a b, l = a ++ m :: b /\ f64_is_nan m = false /\ Forall (fun v => f64_is_nan v = true \/ before v = true) a /\ Forall (fun v => f64_is_nan v = true \/ behind v = true) b.
(** The earliest of the least values, and the latest of the greatest. *)
Definition is_least (l : list Z) (m : Z) : Prop := stands_out (fun v => f64_lt m v) (fun v => f64_le m v) l m.
Definition is_greatest (l : list Z) (m : Z) : Prop := stands_out (fun v => f64_le v m) (fun v => f64_lt v m) l m.

Lemma nan_is_nan : f64_is_nan F64_NAN = true.
Proof. by vm_compute. Qed.

Lemma all_nan_or (P : Z -> bool) l : Forall (fun v => f64_is_nan v = true) l -> Forall (fun v => f64_is_nan v = true \/ P v = true) l.
Proof. intros Hl. eapply Forall_impl; [|exact Hl]. by left. Qed.

Lemma least_exact l : is_least l (least l).
Proof.
  induction l as [|v l IH] using rev_ind; [by left|]. unfold least in *. rewrite fold_left_app. cbn [fold_left]. set (m := fold_left push_min l F64_NAN) in *. unfold push_min. destruct (f64_is_nan v) eqn:Ev; cbn [negb andb].
  - destruct IH as [[Hl Hm]|(a & b & El & Hm & Ha & Hb)]; [left|right].
    + split; [|done]. apply Forall_app. split; [done|by constructor].
    + exists a, (b ++ [v]). rewrite El, <- app_assoc. split_and!; [done|done|done|]. apply Forall_app. split; [done|]. constructor; [by left|constructor].
  - right. destruct IH as [[Hl Hm]|(a & b & El & Hm & Ha & Hb)].
    + rewrite Hm, nan_is_nan. cbn [orb]. exists l, []. split_and!; [done|done|by apply all_nan_or|constructor].
    + rewrite Hm. cbn [orb]. destruct (f64_lt v m) eqn:El'.
      * exists l, []. split_and!; [done|done| |constructor]. assert (Hall : forall x, f64_is_nan x = true \/ f64_le m x = true -> f64_is_nan x = true \/ f64_lt v x = true).
        { intros x [Hx|Hx]; [by left|]. destruct (f64_is_nan x) eqn:Ex; [by left|right]. rewrite value_lt_le in * by done. destruct (f64_le x v) eqn:Exv; [|done]. by rewrite (value_le_trans m x v) in El'. }
        rewrite El. apply Forall_app. split.
        -- eapply Forall_impl; [|exact Ha]. intros x [Hx|Hx]; [by left|]. apply Hall. destruct (f64_is_nan x) eqn:Ex; [by left|right]. rewrite value_le_key by done. apply key_le_cases. left. by apply value_lt_key.
        -- constructor; [apply Hall; right; rewrite value_le_key by done; apply key_le_cases; by right|]. eapply Forall_impl; [|exact Hb]. exact Hall.
      * exists a, (b ++ [v]). rewrite El, <- app_assoc. split_and!; [done|done|done|]. apply Forall_app. split; [done|]. constructor; [right|constructor]. rewrite value_lt_le in El' by done. by apply negb_false_iff in El'.
Qed.

Lemma greatest_exact l : is_greatest l (greatest l).
Proof.
  induction l as [|v l IH] using rev_ind; [by left|]. unfold greatest in *. rewrite fold_left_app. cbn [fold_left]. set (m := fold_left push_max l F64_NAN) in *. unfold push_max. destruct (f64_is_nan v) eqn:Ev; cbn [negb andb].
  - destruct IH as [[Hl Hm]|(a & b & El & Hm & Ha & Hb)]; [left|right].
    + split; [|done]. apply Forall_app. split; [done|by constructor].
    + exists a, (b ++ [v]). rewrite El, <- app_assoc. split_and!; [done|done|done|]. apply Forall_app. split; [done|]. constructor; [by left|constructor].
  - right. destruct IH as [[Hl Hm]|(a & b & El & Hm & Ha & Hb)].
    + rewrite Hm, nan_is_nan. cbn [orb]. exists l, []. split_and!; [done|done|by apply all_nan_or|constructor].
    + rewrite Hm. cbn [orb]. destruct (f64_le m v) eqn:El'.
      * exists l, []. split_and!; [done|done| |constructor]. assert (Hall : forall x, f64_is_nan x = true \/ f64_le x m = true -> f64_is_nan x = true \/ f64_le x v = true).
        { intros x [Hx|Hx]; [by left|]. destruct (f64_is_nan x) eqn:Ex; [by left|right]. by apply (value_le_trans x m v). }
        rewrite El. apply Forall_app. split; [eapply Forall_impl; [|exact Ha]; exact Hall|]. constructor; [apply Hall; right; rewrite value_le_key by done; apply key_le_cases; by right|].
        eapply Forall_impl; [|exact Hb]. intros x [Hx|Hx]; [by left|]. apply Hall. destruct (f64_is_nan x) eqn:Ex; [by left|right]. rewrite value_le_key by done. apply key_le_cases. left. by apply value_lt_key.
      * exists a, (b ++ [v]). rewrite El, <- app_assoc. split_and!; [done|done|done|]. apply Forall_app. split; [done|]. constructor; [right|constructor]. by rewrite value_lt_le, El'.
Qed.

(** ** The rows of one time *)

Definition is_histogram (r : SourceRow) : bool := has r.(sr_extra).(e_histogram).
(** Histograms and rows that only carry exemplars hold no sample. *)
Definition is_sample (r : SourceRow) : bool := negb (is_histogram r) && negb (has r.(sr_extra).(e_exemplars) && (r.(sr_value) =? EXEMPLAR_ONLY_BITS)).
Definition same_class (r x : SourceRow) : bool := value_class r.(sr_value) =? value_class x.(sr_value).

Definition block_sample (ts : Z) (vs : list SourceRow) : list (Z * Z) :=
  match List.filter is_sample vs with [] => [] | r :: _ => if r.(sr_value) =? STALE_BITS then [] else [(ts, r.(sr_value))] end.
Definition block_conflict (vs : list SourceRow) : bool :=
  match List.filter is_sample vs with [] => false | r :: l => existsb (fun x => negb (same_class r x)) l end.

Section Block.
Variables (s : Series) (ex : list Extra).

Definition others (cl : Z) (l : list SourceRow) : Z := len (List.filter (fun x => negb (cl =? value_class x.(sr_value))) l).

Definition chosen_from (ch : Chosen) (l : list SourceRow) : Chosen :=
  match ch.(first_class), l with
  | Some f, _ => mkChosen ch.(chosen) (ch.(classes) + others f l) ch.(first_class)
  | None, [] => ch
  | None, r :: l => mkChosen (Some r.(sr_value)) (1 + others (value_class r.(sr_value)) l) (Some (value_class r.(sr_value)))
  end.

Lemma choose_fold series id bucket samples c blk : forall h ch,
  fold_left (choose ex) blk (aggregate_of series id bucket samples h c, ch) =
  (aggregate_of series id bucket samples (h || existsb is_histogram (map (view s ex) blk)) c, chosen_from ch (List.filter is_sample (map (view s ex) blk))).
Proof.
  induction blk as [|r blk IH]; intros h ch; cbn [fold_left map existsb List.filter].
  { rewrite orb_false_r. destruct ch as [v k [f|]]; [|done]. unfold chosen_from, others. cbn. by rewrite Z.add_0_r. }
  assert (Hh : is_histogram (view s ex r) = match extra_of ex (r_extra r) with Some e => has e.(e_histogram) | None => false end) by (unfold is_histogram, view; cbn; by destruct (extra_of ex (r_extra r))).
  assert (He : has (e_exemplars (sr_extra (view s ex r))) = match extra_of ex (r_extra r) with Some e => has e.(e_exemplars) | None => false end) by (unfold view; cbn; by destruct (extra_of ex (r_extra r))).
  unfold choose at 2. unfold is_sample at 1. rewrite Hh, He. cbn [sr_value view]. destruct (match extra_of ex (r_extra r) with Some e => has (e_histogram e) | None => false end).
  { rewrite flag_histogram, IH. cbn [negb andb orb]. by rewrite orb_true_r. }
  cbn [negb andb orb]. destruct (_ && (r_value r =? EXEMPLAR_ONLY_BITS)); [by rewrite IH|]. cbn [negb]. destruct ch as [v k [f|]]; cbn [first_class chosen classes].
  - destruct (Z.eqb_spec f (value_class (r_value r))) as [E|E]; rewrite IH; f_equal; unfold chosen_from, others; cbn [first_class chosen classes List.filter sr_value view].
    + by rewrite E, Z.eqb_refl.
    + rewrite (proj2 (Z.eqb_neq _ _) E). cbn [negb]. rewrite len_cons. f_equal. lia.
  - rewrite IH. done.
Qed.

Lemma others_pos f l : (0 <? others f l) = existsb (fun x => negb (f =? value_class x.(sr_value))) l.
Proof.
  unfold others. induction l as [|x l IH]; [done|]. cbn [List.filter existsb]. destruct (negb (f =? value_class (sr_value x))); [|done]. cbn [orb]. rewrite len_cons. apply Z.ltb_lt. pose proof (len_nonneg (List.filter (fun x => negb (f =? value_class x.(sr_value))) l)). lia.
Qed.

Lemma at_time_exact series id bucket samples h c ts blk :
  at_time ex ts blk (aggregate_of series id bucket samples h c) =
  aggregate_of series id bucket (samples ++ block_sample ts (map (view s ex) blk)) (h || existsb is_histogram (map (view s ex) blk)) (c || block_conflict (map (view s ex) blk)).
Proof.
  unfold at_time. rewrite choose_fold. unfold chosen_from, block_sample, block_conflict. cbn [first_class]. destruct (List.filter is_sample (map (view s ex) blk)) as [|r l].
  { cbn. by rewrite app_nil_r, orb_false_r. }
  cbn [chosen classes]. replace (1 <? 1 + others (value_class (sr_value r)) l) with (existsb (fun x => negb (same_class r x)) l).
  2: { unfold same_class. rewrite <- others_pos. destruct (Z.ltb_spec 0 (others (value_class (sr_value r)) l)); symmetry; [apply Z.ltb_lt|apply Z.ltb_ge]; lia. }
  destruct (existsb _ l); rewrite ?flag_conflict, ?orb_true_r, ?orb_false_r; destruct (sr_value r =? STALE_BITS); rewrite ?app_nil_r, ?push_aggregate; done.
Qed.
End Block.

(** ** The rows of a series *)

(** The order of the rows of one series. *)
Definition sample_key (r : SourceRow) : Z * (Z * Z) := (r.(sr_ts), (r.(sr_series_id), r.(sr_value))).

(** The value of a time: the first of its samples. *)
Definition chosen_at (vs : list SourceRow) (ts v : Z) : Prop :=
  exists r, r ∈ vs /\ r.(sr_ts) = ts /\ is_sample r = true /\ r.(sr_value) = v /\ forall x, x ∈ vs -> x.(sr_ts) = ts -> is_sample x = true -> key_leP sample_key r x.
(** Samples of one time with different values. *)
Definition conflicting (vs : list SourceRow) : Prop :=
  exists r x, r ∈ vs /\ x ∈ vs /\ r.(sr_ts) = x.(sr_ts) /\ is_sample r = true /\ is_sample x = true /\ same_class r x = false.

(** The samples of the rows: one per time, in order, stale markers left out. *)
Definition samples_exact (vs : list SourceRow) (samples : list (Z * Z)) : Prop :=
  StronglySorted (fun a b => fst a < fst b) samples /\ forall ts v, (ts, v) ∈ samples <-> chosen_at vs ts v /\ v <> STALE_BITS.

Lemma filter_head {A} (f : A -> bool) l r k : List.filter f l = r :: k -> exists a b, l = a ++ r :: b /\ Forall (fun x => f x = false) a /\ f r = true /\ k = List.filter f b.
Proof.
  induction l as [|x l IH]; [done|]. cbn. destruct (f x) eqn:E; [intros [= <- <-]; by exists [], l|]. intros Ek. destruct (IH Ek) as (a & b & -> & Ha & Hr & ->). exists (x :: a), b. split_and!; [done|by constructor|done|done].
Qed.

Lemma in_filter {A} (f : A -> bool) l x : x ∈ List.filter f l <-> x ∈ l /\ f x = true.
Proof. rewrite !list_elem_of_In. apply filter_In. Qed.

Lemma block_sample_exact ts vs : StronglySorted (key_leP sample_key) vs -> Forall (fun r => r.(sr_ts) = ts) vs ->
  forall t v, (t, v) ∈ block_sample ts vs <-> chosen_at vs t v /\ v <> STALE_BITS.
Proof.
  intros Hs Ht t v. rewrite list.Forall_forall in Ht. unfold block_sample. destruct (List.filter is_sample vs) as [|r k] eqn:E.
  { split; [intros Hx; by apply elem_of_nil in Hx|]. intros [(x & Hx & _ & Hsx & _) _]. assert (Hin : x ∈ List.filter is_sample vs) by (by apply in_filter). rewrite E in Hin. by apply elem_of_nil in Hin. }
  assert (Hr : r ∈ List.filter is_sample vs) by (rewrite E; by left). apply in_filter in Hr as [Hr Hrs].
  assert (Hmin : forall x, x ∈ vs -> is_sample x = true -> key_leP sample_key r x).
  { apply filter_head in E as (a & b & -> & Ha & _ & _). intros x Hx Hsx. apply elem_of_app in Hx as [Hx|Hx]; [rewrite list.Forall_forall in Ha; apply Ha in Hx; congruence|].
    apply elem_of_cons in Hx as [->|Hx]; [by apply key_le_cases; right|]. apply StronglySorted_app_1_r in Hs. apply StronglySorted_inv in Hs as [_ Hs]. rewrite list.Forall_forall in Hs. by apply Hs. }
  assert (Hch : forall t v, chosen_at vs t v <-> t = ts /\ v = sr_value r).
  { intros t' v'. split.
    - intros (x & Hx & Hxt & Hxs & <- & Hle). split; [by rewrite <- Hxt, Ht|]. assert (sample_key x = sample_key r) as Ek; [|by injection Ek].
      apply key_le_antisym; [apply Hle; [done|by rewrite <- Hxt, !Ht|done]|by apply Hmin].
    - intros [-> ->]. exists r. split_and!; [done|by apply Ht|done|done|]. intros x Hx _ Hxs. by apply Hmin. }
  rewrite Hch. destruct (Z.eqb_spec (sr_value r) STALE_BITS) as [Es|Es].
  - split; [intros Hx; by apply elem_of_nil in Hx|]. intros [[_ ->] Hn]. congruence.
  - rewrite list_elem_of_singleton. split; [intros [= -> ->]; done|]. by intros [[-> ->] _].
Qed.

Lemma same_class_trans r x y : same_class r x = true -> same_class r y = true -> same_class x y = true.
Proof. unfold same_class. rewrite !Z.eqb_eq. congruence. Qed.

Lemma block_conflict_exact ts vs : Forall (fun r => r.(sr_ts) = ts) vs -> block_conflict vs = true <-> conflicting vs.
Proof.
  intros Ht. rewrite list.Forall_forall in Ht. unfold block_conflict. destruct (List.filter is_sample vs) as [|r k] eqn:E.
  { split; [done|]. intros (x & y & Hx & _ & _ & Hsx & _). assert (Hin : x ∈ List.filter is_sample vs) by (by apply in_filter). rewrite E in Hin. by apply elem_of_nil in Hin. }
  assert (Hk : forall x, x ∈ vs -> is_sample x = true -> x = r \/ x ∈ k) by (intros x Hx Hs; apply elem_of_cons; rewrite <- E; by apply in_filter).
  rewrite existsb_exists. split.
  - intros (x & Hx & Hc). apply list_elem_of_In in Hx. assert (Hrx : r ∈ List.filter is_sample vs /\ x ∈ List.filter is_sample vs) by (rewrite E; split; [by left|by right]). destruct Hrx as [[Hr Hrs]%in_filter [Hx' Hxs]%in_filter].
    exists r, x. split_and!; [done|done|by rewrite !Ht|done|done|by apply negb_true_iff].
  - intros (x & y & Hx & Hy & _ & Hxs & Hys & Hc). destruct (existsb (fun x => negb (same_class r x)) k) eqn:Eb; [apply existsb_exists in Eb as (z & Hz & Hc'); eauto|]. exfalso.
    apply existsb_all_false in Eb. rewrite list.Forall_forall in Eb. assert (Hall : forall z, z ∈ vs -> is_sample z = true -> same_class r z = true).
    { intros z Hz Hzs. destruct (Hk z Hz Hzs) as [->|Hin]; [by apply Z.eqb_eq|]. apply Eb in Hin. by apply negb_false_iff in Hin. }
    rewrite (same_class_trans r x y) in Hc; [done|by apply Hall..].
Qed.

Lemma chosen_app a b ts v : (forall x y, x ∈ a -> y ∈ b -> x.(sr_ts) <> y.(sr_ts)) -> chosen_at (a ++ b) ts v <-> chosen_at a ts v \/ chosen_at b ts v.
Proof.
  intros Hd. split.
  - intros (r & Hr & Ht & Hs & Hv & Hmin). apply elem_of_app in Hr as [Hr|Hr]; [left|right]; exists r; split_and!; try done; intros x Hx; apply Hmin, elem_of_app; tauto.
  - intros [(r & Hr & Ht & Hs & Hv & Hmin)|(r & Hr & Ht & Hs & Hv & Hmin)]; exists r; (split_and!; [apply elem_of_app; tauto|done|done|done|]); intros x [Hx|Hx]%elem_of_app Hxt Hxs; try (by apply Hmin); exfalso.
    + apply (Hd r x Hr Hx). congruence.
    + apply (Hd x r Hx Hr). congruence.
Qed.

Lemma conflicting_app a b : (forall x y, x ∈ a -> y ∈ b -> x.(sr_ts) <> y.(sr_ts)) -> conflicting (a ++ b) <-> conflicting a \/ conflicting b.
Proof.
  intros Hd. split.
  - intros (x & y & Hx & Hy & Ht & Hr). apply elem_of_app in Hx as [Hx|Hx], Hy as [Hy|Hy]; [left; by exists x, y|by destruct (Hd x y Hx Hy)|by destruct (Hd y x Hy Hx)|right; by exists x, y].
  - intros [(x & y & Hx & Hy & Hr)|(x & y & Hx & Hy & Hr)]; exists x, y; rewrite !elem_of_app; tauto.
Qed.

Lemma sample_ts_le x y : key_leP sample_key x y -> x.(sr_ts) <= y.(sr_ts).
Proof. unfold key_leP, key_le, sample_key. cbn. destruct (Z.compare_spec (sr_ts x) (sr_ts y)); [lia|lia|done]. Qed.

(** Behind a run of one time come later times. *)
Lemma run_later t vb vr : StronglySorted (key_leP sample_key) (vb ++ vr) -> vb <> [] -> Forall (fun r => r.(sr_ts) = t) vb -> (forall y, head vr = Some y -> y.(sr_ts) <> t) ->
  forall y, y ∈ vr -> t < y.(sr_ts).
Proof.
  intros Hs Hne Hb Hh y Hy. destruct vb as [|x vb]; [done|]. apply Forall_cons_1 in Hb as [Hx _]. destruct vr as [|z vr]; [by apply elem_of_nil in Hy|]. specialize (Hh z eq_refl).
  assert (Hxz : sr_ts x <= sr_ts z) by (apply sample_ts_le; eapply StronglySorted_app_1_elem_of; [exact Hs|by left|by left]). assert (Hzy : sr_ts z <= sr_ts y).
  { apply elem_of_cons in Hy as [->|Hy]; [lia|]. apply sample_ts_le. apply StronglySorted_app_1_r in Hs. apply StronglySorted_inv in Hs as [_ Hs]. rewrite list.Forall_forall in Hs. by apply Hs. }
  lia.
Qed.

Lemma times_loop_exact s ex series id bucket fuel : forall rs samples h c, (length rs <= fuel)%nat -> StronglySorted (key_leP sample_key) (map (view s ex) rs) ->
  exists S k, times_loop fuel ex rs (aggregate_of series id bucket samples h c) =
      aggregate_of series id bucket (samples ++ S) (h || existsb is_histogram (map (view s ex) rs)) (c || k) /\
    samples_exact (map (view s ex) rs) S /\ (k = true <-> conflicting (map (view s ex) rs)).
Proof.
  assert (Hnil : samples_exact [] [] /\ (false = true <-> conflicting [])).
  { split; [split; [constructor|]|]; [intros ts v; split; [intros Hx; by apply elem_of_nil in Hx|intros [(r & Hr & _) _]; by apply elem_of_nil in Hr]|split; [done|intros (r & x & Hr & _); by apply elem_of_nil in Hr]]. }
  induction fuel as [|fuel IH]; intros rs samples h c Hl Hs.
  { destruct rs; [|cbn in Hl; lia]. exists [], false. cbn [map times_loop existsb]. rewrite app_nil_r, !orb_false_r. by split. }
  destruct rs as [|r rs]; [exists [], false; cbn [map times_loop existsb]; rewrite app_nil_r, !orb_false_r; by split|]. cbn [times_loop].
  destruct (run_parts (fun x => r_ts x =? r_ts r) r rs (Z.eqb_refl _)) as (blk & rest & Es & Et & Ed & _ & Hr & Hh & Hp). cbv zeta. rewrite Et, Ed. rewrite Es in Hl, Hs |- *. rewrite map_app in *.
  rewrite (at_time_exact s ex). assert (Hts : Forall (fun x => x.(sr_ts) = r_ts r) (map (view s ex) blk)) by (apply Forall_map; eapply Forall_impl; [|exact Hr]; intros x; apply Z.eqb_eq).
  assert (Hlater : forall y, y ∈ map (view s ex) rest -> r_ts r < y.(sr_ts)).
  { eapply run_later; [exact Hs|destruct blk; [cbn in Hp; lia|done]|exact Hts|]. intros y Hy. destruct rest as [|z rest]; [done|]. injection Hy as <-. specialize (Hh z eq_refl). by apply Z.eqb_neq in Hh. }
  destruct (IH rest (samples ++ block_sample (r_ts r) (map (view s ex) blk)) (h || existsb is_histogram (map (view s ex) blk)) (c || block_conflict (map (view s ex) blk))) as (S & k & -> & [HS1 HS2] & Hk).
  { rewrite length_app in Hl. lia. }
  { by apply StronglySorted_app_1_r in Hs. }
  exists (block_sample (r_ts r) (map (view s ex) blk) ++ S), (block_conflict (map (view s ex) blk) || k).
  assert (Hd : forall x y, x ∈ map (view s ex) blk -> y ∈ map (view s ex) rest -> x.(sr_ts) <> y.(sr_ts)) by (intros x y Hx Hy; rewrite list.Forall_forall in Hts; rewrite (Hts x Hx); pose proof (Hlater y Hy); lia).
  pose proof (block_sample_exact (r_ts r) (map (view s ex) blk) (StronglySorted_app_1_l _ _ _ Hs) Hts) as Hb. split_and!.
  - by rewrite app_assoc, existsb_app, !orb_assoc.
  - split.
    + apply StronglySorted_app. split_and!; [|unfold block_sample; destruct (List.filter _ _) as [|q l]; [constructor|]; destruct (_ =? _); repeat constructor|done].
      intros [t v] [t' v'] H1 H2. cbn. apply Hb in H1 as [(x & Hx & <- & _) _]. apply HS2 in H2 as [(y & Hy & <- & _) _]. rewrite list.Forall_forall in Hts. rewrite (Hts x Hx). by apply Hlater.
    + intros t v. rewrite elem_of_app, Hb, HS2, (chosen_app _ _ t v Hd). tauto.
  - rewrite (conflicting_app _ _ Hd), <- Hk, <- (block_conflict_exact (r_ts r)) by done. by rewrite orb_true_iff.
Qed.
