(* ===== verification/TierOrder.v ===== *)
(** The order of the rows of a prepared builder (metric_tiers.rs, [prepare]): the
    rows of the hour, those before it and those after it, each ordered by metric,
    series and time, whatever the order in which they were added. *)

From stdpp Require Import gmap sorting.
From S2P Require Import Prelude OrdMap Utf8 External Float64 MetricValue StableHash MetricPostings MetricSegment MetricTiers TierSeries TierGroups TierRows TierSummary.

(** ** Prefixes of a lexicographic order *)

Lemma key_le_fst {A K L} `{Ordered K} `{Ordered L} (f : A -> K) (g : A -> L) a b : key_leP (fun x => (f x, g x)) a b -> key_leP f a b.
Proof. unfold key_leP, key_le. cbn. by destruct (cmp (f a) (f b)). Qed.

Lemma key_le_snd {A K L} `{Ordered K} `{Ordered L} (f : A -> K) (g : A -> L) a b : key_leP (fun x => (f x, g x)) a b -> f a = f b -> key_leP g a b.
Proof. unfold key_leP, key_le. cbn. intros Hle E. by rewrite (proj2 (cmp_eq _ _) E) in Hle. Qed.

Lemma strongly_impl {A} (R Q : A -> A -> Prop) (P : A -> Prop) l : StronglySorted R l -> Forall P l -> (forall a b, P a -> P b -> R a b -> Q a b) -> StronglySorted Q l.
Proof.
  intros Hs Hp Hi. induction Hs as [|x l Hs IH Hf]; [constructor|]. inversion_clear Hp as [|? ? Hx Hl]. constructor; [by apply IH|].
  rewrite list.Forall_forall in *. intros y Hy. apply Hi; [done|by apply Hl|by apply Hf].
Qed.

Lemma strongly_map {A B} (f : A -> B) (R : B -> B -> Prop) l : StronglySorted (fun a b => R (f a) (f b)) l <-> StronglySorted R (map f l).
Proof.
  induction l as [|x l IH]; [split; constructor|]. cbn [map]. split; intros Hs; apply StronglySorted_inv in Hs as [Hs Hf]; (constructor; [by apply IH|]); by apply (Forall_map f (R (f x))).
Qed.

Lemma filter_forall {A} (f : A -> bool) l : Forall (fun x => f x = true) (List.filter f l).
Proof. apply list.Forall_forall. intros x Hx. by apply in_filter in Hx as [_ ?]. Qed.

Lemma filter_id {A} (f : A -> bool) l : Forall (fun x => f x = true) l -> List.filter f l = l.
Proof. induction 1 as [|x l Hx _ IH]; [done|]. cbn. by rewrite Hx, IH. Qed.

Lemma filter_nil {A} (f : A -> bool) l : Forall (fun x => f x = false) l -> List.filter f l = [].
Proof. induction 1 as [|x l Hx _ IH]; [done|]. cbn. by rewrite Hx, IH. Qed.

Lemma filter_perm {A} (f : A -> bool) l k : l ≡ₚ k -> List.filter f l ≡ₚ List.filter f k.
Proof.
  induction 1 as [|x l k _ IH|x y l|l k m _ IH1 _ IH2]; cbn; [done| | |by rewrite IH1].
  - destruct (f x); [by apply perm_skip|done].
  - destruct (f x), (f y); try done. apply perm_swap.
Qed.

(** On a list ordered by [f] the run of its least value is all of it. *)
Lemma sorted_run {A} (f : A -> Z) l k : StronglySorted (fun a b => f a <= f b) l -> Forall (fun x => k <= f x) l ->
  let n := Z.to_nat (run (fun x => f x =? k) l) in
  take n l = List.filter (fun x => f x =? k) l /\ drop n l = List.filter (fun x => negb (f x =? k)) l /\ run (fun x => f x =? k) l = len (List.filter (fun x => f x =? k) l).
Proof.
  induction 1 as [|x l Hs IH Hf]; intros Hk; [done|]. inversion_clear Hk as [|? ? Hx Hl]. cbn [run List.filter]. destruct (Z.eqb_spec (f x) k) as [E|E]; cbn [negb].
  - destruct (IH Hl) as (E1 & E2 & E3). pose proof (proj1 (run_spec (fun x => f x =? k) l)) as Hn. cbn beta in Hn. rewrite Z.add_1_l, Z2Nat.inj_succ by lia. cbn [take drop]. rewrite E1, E2, len_cons, <- E3. split_and!; [done|done|lia].
  - assert (Hn : Forall (fun y => (f y =? k) = false) l). { rewrite list.Forall_forall in *. intros y Hy. apply Z.eqb_neq. specialize (Hf y Hy). specialize (Hl y Hy). lia. }
    rewrite (filter_nil _ l Hn), filter_id; [done|]. eapply Forall_impl; [|exact Hn]. cbn. intros y ->. done.
Qed.

(** ** The keys of rows *)

Definition c_name (r : SourceRow) : bytes := row_name r.(sr_canonical).
(** By metric, which the hash of its name spreads, then by series and sample. *)
Definition metric_key (r : SourceRow) : Z * bytes := (name_hash (c_name r), c_name r).
Definition final_key (r : SourceRow) : Z * (bytes * bytes) * (Z * (Z * Z)) := ((name_hash (c_name r), (c_name r, r.(sr_canonical))), sample_key r).

Lemma metric_key_le a b : key_leP final_key a b -> key_leP metric_key a b.
Proof.
  intros Hle. apply (key_le_fst (fun r => (name_hash (c_name r), (c_name r, r.(sr_canonical)))) sample_key) in Hle. unfold key_leP, key_le, metric_key in *. cbn in *. destruct (name_hash (c_name a) ?= name_hash (c_name b)); [|done|done].
  by destruct (bytes_compare (c_name a) (c_name b)).
Qed.

Lemma sample_key_le a b : key_leP final_key a b -> sr_canonical a = sr_canonical b -> key_leP sample_key a b.
Proof. intros Hle E. apply (key_le_snd (fun r => (name_hash (c_name r), (c_name r, r.(sr_canonical)))) sample_key); [exact Hle|]. unfold c_name. by rewrite E. Qed.

(** Items in this order have those of a name together. *)
Lemma hashed_clustered {A} (name : A -> bytes) l : StronglySorted (key_leP (fun x => (name_hash (name x), name x))) l -> clustered name l.
Proof.
  intros Hs a x b y c -> Exy. apply StronglySorted_app_1_r, StronglySorted_inv in Hs as [Hs Hx]. apply Forall_app in Hx as [Hxb _].
  rewrite list.Forall_forall in *. intros z Hz. pose proof (StronglySorted_app_1_elem_of _ b (y :: c) z y Hs Hz ltac:(by left)) as Hzy.
  assert (E : (name_hash (name x), name x) = (name_hash (name z), name z)); [|congruence]. apply (key_le_antisym (fun x => (name_hash (name x), name x))); [by apply Hxb|].
  unfold key_leP, key_le in *. by rewrite <- Exy in Hzy.
Qed.

Lemma final_clustered {A} (v : A -> SourceRow) l : StronglySorted (key_leP final_key) (map v l) -> clustered (fun x => c_name (v x)) l.
Proof.
  intros Hs. apply hashed_clustered. eapply strongly_impl with (P := fun _ => True); [exact (proj2 (strongly_map v (key_leP final_key) l) Hs)|by apply Forall_true|].
  intros a b _ _ Hle. by apply metric_key_le in Hle.
Qed.

(** ** Prepared rows *)

Section Prepared.
Context `{SimdUtf8}.
Variables (start end_ : Z) (s : Series) (ex : list Extra).

Definition r_class (r : CompactRow) : Z := class start end_ r.(r_ts).
Definition of_class (k : Z) (rows : list CompactRow) : list CompactRow := List.filter (fun r => r_class r =? k) rows.

Lemma row_key_le a b : series_ok s -> known s a.(r_series) -> known s b.(r_series) -> key_leP (row_key start end_ (ranks s)) a b -> r_class a = r_class b -> key_leP final_key (view s ex a) (view s ex b).
Proof.
  intros Hs Ha Hb Hle E. eapply key_le_snd in Hle; [|exact E]. unfold key_leP, key_le in *. cbn in Hle. fold (rank s (r_series a)) (rank s (r_series b)) in Hle. change (Z.compare ?x ?y) with (x ?= y) in Hle.
  assert (Hk : forall r, known s (r_series r) -> series_key s (r_series r) = (name_hash (c_name (view s ex r)), (c_name (view s ex r), sr_canonical (view s ex r)))).
  { intros r Hr. apply known_canonical in Hr. unfold series_key, c_name. cbn [view sr_canonical]. by rewrite (proj2 (so_valid _ Hs _ _ Hr)). }
  rewrite (rank_compare s _ _ Hs Ha Hb), (Hk a Ha), (Hk b Hb) in Hle. unfold final_key. cbn in *. destruct (name_hash _ ?= _); [|done|done]. destruct (bytes_compare (c_name _) _); [|done|done].
  destruct (bytes_compare _ _); [|done|done]. unfold sample_key. cbn. destruct (r_ts a ?= r_ts b); [|done|done]. destruct (r_series_id a ?= r_series_id b); [|done|done]. by destruct (r_value a ?= r_value b).
Qed.

Definition prepared (rows : list CompactRow) : list CompactRow := sort_by (row_leb start end_ (ranks s)) rows.

Lemma prepared_sorted rows : StronglySorted (key_leP (row_key start end_ (ranks s))) (prepared rows).
Proof. apply (sort_strongly (row_key start end_ (ranks s))). Qed.

Lemma class_cases ts : class start end_ ts = 0 \/ class start end_ ts = 1 \/ class start end_ ts = 2.
Proof. unfold class. destruct (ts <? start), (end_ <=? ts); tauto. Qed.

(** The three parts of the prepared rows. *)
Lemma prepared_parts rows : let p := prepared rows in
  let inside := run (fun r => r_class r =? 0) p in
  let after := drop (Z.to_nat inside) p in
  p = of_class 0 p ++ of_class 1 p ++ of_class 2 p /\ inside = len (of_class 0 p) /\ run (fun r => r_class r =? 1) after = len (of_class 1 p).
Proof.
  intros p inside after. assert (Hs : StronglySorted (fun a b => r_class a <= r_class b) p).
  { eapply strongly_impl with (P := fun _ => True); [apply prepared_sorted|by apply Forall_true|]. intros a b _ _ Hle%key_le_fst. apply key_le_cases in Hle as [Hle|Hle]; cbn beta in Hle; unfold r_class; [apply (proj1 (Z.compare_lt_iff _ _)) in Hle|]; lia. }
  destruct (sorted_run r_class p 0 Hs) as (E1 & E2 & E3). { apply list.Forall_forall. intros r _. unfold r_class. destruct (class_cases (r_ts r)) as [->|[-> | ->]]; lia. }
  fold inside in E1, E2, E3. assert (Hs2 : StronglySorted (fun a b => r_class a <= r_class b) after) by (rewrite <- (take_drop (Z.to_nat inside) p) in Hs; by apply StronglySorted_app_1_r in Hs).
  assert (Ha : Forall (fun r => 1 <= r_class r) after).
  { unfold after. rewrite E2. apply list.Forall_forall. intros r [_ Hr]%in_filter. apply negb_true_iff, Z.eqb_neq in Hr. unfold r_class in *. destruct (class_cases (r_ts r)) as [?|[? | ?]]; lia. }
  destruct (sorted_run r_class after 1 Hs2 Ha) as (F1 & F2 & F3). assert (Hf : forall k, k <> 0 -> List.filter (fun r => r_class r =? k) after = of_class k p).
  { intros k Hk. unfold after. rewrite E2. unfold of_class. clear -Hk. induction p as [|r p IH]; [done|]. cbn. destruct (Z.eqb_spec (r_class r) 0) as [E|E]; cbn; [|by rewrite IH].
    destruct (Z.eqb_spec (r_class r) k); [lia|done]. }
  split_and!; [|done|by rewrite F3, Hf]. rewrite <- (take_drop (Z.to_nat inside) p) at 1. rewrite E1. f_equal. fold after. rewrite <- (take_drop (Z.to_nat (run (fun r => r_class r =? 1) after)) after), F1, F2, Hf by done. f_equal.
  rewrite <- (Hf 2) by done. clear -Ha. induction Ha as [|r l Hr _ IH]; [done|]. cbn. unfold r_class in *. destruct (class_cases (r_ts r)) as [E|[E|E]]; rewrite E in *; cbn; [lia|done|by rewrite IH].
Qed.

(** Every part is in the order of its rows. *)
Lemma part_sorted rows k : series_ok s -> Forall (row_wf s ex) rows -> StronglySorted (key_leP final_key) (map (view s ex) (of_class k (prepared rows))).
Proof.
  intros Hs Hw. apply (proj1 (strongly_map (view s ex) (key_leP final_key) _)). assert (Hp : Forall (row_wf s ex) (prepared rows)) by (unfold prepared; by rewrite sort_by_perm).
  eapply strongly_impl with (R := key_leP (row_key start end_ (ranks s))) (P := fun r => known s r.(r_series) /\ r_class r = k).
  - pose proof (prepared_sorted rows) as H1. unfold of_class. induction H1 as [|x l H1 IH Hf]; [constructor|]. inversion_clear Hp as [|? ? _ Hl]. cbn. destruct (r_class x =? k); [|by apply IH].
    constructor; [by apply IH|]. rewrite list.Forall_forall in *. intros y [Hy _]%in_filter. by apply Hf.
  - apply list.Forall_forall. intros r [Hr E]%in_filter. rewrite list.Forall_forall in Hp. split; [apply (Hp r Hr)|by apply Z.eqb_eq].
  - intros a b [Ha Ea] [Hb Eb] Hle. apply row_key_le; [done..|congruence].
Qed.

(** It holds the views of its class. *)
Lemma part_views rows k : map (view s ex) (of_class k (prepared rows)) ≡ₚ List.filter (fun r => class start end_ r.(sr_ts) =? k) (map (view s ex) rows).
Proof.
  assert (E : forall l, map (view s ex) (of_class k l) = List.filter (fun r => class start end_ r.(sr_ts) =? k) (map (view s ex) l)).
  { intros l. unfold of_class, r_class. induction l as [|r l IH]; [done|]. cbn. destruct (_ =? k); cbn; by rewrite IH. }
  rewrite E. apply filter_perm. unfold prepared. apply Permutation_map. apply sort_by_perm.
Qed.
End Prepared.
