(* ===== verification/TierRollups.v ===== *)
(** The rollups of an hour (metric_tiers.rs, [rollup_rows]): one aggregate per
    series that has something to summarize, in the order of the series, each
    exact over the rows of its series. *)

From stdpp Require Import gmap sorting.
From S2P Require Import Prelude OrdMap Utf8 External Float64 MetricValue StableHash MetricPostings MetricSegment MetricTiers TierSeries TierGroups TierRows TierSummary TierOrder.

(** ** The summary of the rows of a series *)

(** A series has a summary when a sample counts or a flag is set. *)
Definition has_summary (vs : list SourceRow) : Prop :=
  existsb is_histogram vs = true \/ conflicting vs \/ exists ts v, chosen_at vs ts v /\ v <> STALE_BITS.

(** The summary of rows: the samples of [samples_exact] with every count, the
    first and last, the earliest least and the latest greatest value, the values
    before resets and the flags; the series number is that of the first row. *)
Definition summary (start : Z) (vs : list SourceRow) (a : Aggregate) : Prop :=
  exists samples k first,
    a = aggregate_of a.(a_series) first.(sr_series_id) start samples (existsb is_histogram vs) k /\
    samples_exact vs samples /\ (k = true <-> conflicting vs) /\
    is_least (values samples) a.(a_min) /\ is_greatest (values samples) a.(a_max) /\
    first ∈ vs /\ forall x, x ∈ vs -> key_leP sample_key first x.

Lemma flag_bits_none h c z : flag_bits h c z = 0 <-> h = false /\ c = false /\ z = false.
Proof. destruct h, c, z; cbn; split; intros E; try done; by destruct E as (? & ? & ?). Qed.

Lemma flags_zero samples h c : flag_bits h c (negative_zero_reset samples) <> 0 -> h = true \/ c = true \/ samples <> [].
Proof. destruct h, c; try tauto. intros Hf. right. right. by intros ->. Qed.

Lemma counted_iff series id start vs samples k : samples_exact vs samples -> (k = true <-> conflicting vs) ->
  let a := aggregate_of series id start samples (existsb is_histogram vs) k in
  (0 <? a.(a_count)) || negb (a.(a_flags) =? 0) = true <-> has_summary vs.
Proof.
  intros [_ Hs] Hk a. cbn [a a_count a_flags aggregate_of]. rewrite orb_true_iff, negb_true_iff, Z.eqb_neq, Z.ltb_lt. unfold has_summary. rewrite <- Hk. split.
  - intros Hc. assert (Hc' : existsb is_histogram vs = true \/ k = true \/ samples <> []).
    { destruct Hc as [Hc|Hc]; [right; right; intros ->; by destruct (Z.lt_irrefl 0)|by apply flags_zero in Hc]. }
    destruct Hc' as [Hc'|[Hc'|Hc']]; [by left|by right; left|]. right. right. destruct samples as [|[ts v] samples]; [done|]. exists ts, v. apply Hs. by left.
  - intros [Hc|[Hc|(ts & v & Hc)]].
    + right. rewrite Hc. intros E. by apply flag_bits_none in E as [? _].
    + right. rewrite Hc. intros E. by apply flag_bits_none in E as (_ & ? & _).
    + left. apply Hs in Hc. destruct samples; [by apply elem_of_nil in Hc|]. rewrite len_cons. pose proof (len_nonneg samples). lia.
Qed.

(** ** The series of a list of rows *)

Section Rollups.
Context `{SimdUtf8}.
Variables (start : Z) (s : Series) (ex : list Extra).
Hypothesis Hs : series_ok s.

Definition of_series (i : Z) (l : list CompactRow) : list SourceRow := map (view s ex) (List.filter (fun r => r.(r_series) =? i) l).
Definition series_lt (i j : Z) : Prop := cmp (series_key s i) (series_key s j) = Lt.

Lemma view_key r : known s r.(r_series) -> series_key s r.(r_series) = (name_hash (c_name (view s ex r)), (c_name (view s ex r), (view s ex r).(sr_canonical))).
Proof. intros Hr. apply known_canonical in Hr. unfold series_key, c_name. cbn [view sr_canonical]. by rewrite (proj2 (so_valid _ Hs _ _ Hr)). Qed.

Lemma series_le x y : known s x.(r_series) -> known s y.(r_series) -> key_leP final_key (view s ex x) (view s ex y) -> x.(r_series) = y.(r_series) \/ series_lt x.(r_series) y.(r_series).
Proof.
  intros Hx Hy Hle. apply (key_le_fst (fun r => (name_hash (c_name r), (c_name r, r.(sr_canonical)))) sample_key), key_le_cases in Hle.
  unfold series_lt. rewrite !view_key by done. destruct Hle as [Hle|Hle]; [by right|]. left. apply (series_key_inj s); [done..|]. by rewrite !view_key.
Qed.

Lemma series_lt_irrefl i : ~ series_lt i i.
Proof. unfold series_lt. by rewrite (proj2 (cmp_eq _ _) eq_refl). Qed.

(** Behind the run of a series come greater series only. *)
Lemma run_series x r l : Forall (row_wf s ex) (x :: r ++ l) -> StronglySorted (key_leP final_key) (map (view s ex) (x :: r ++ l)) ->
  (forall y, head l = Some y -> y.(r_series) <> x.(r_series)) -> forall y, y ∈ l -> series_lt x.(r_series) y.(r_series).
Proof.
  intros Hw Ho Hh y Hy. apply (proj2 (strongly_map (view s ex) (key_leP final_key) _)) in Ho. apply StronglySorted_inv in Ho as [Ho Hx].
  assert (Hk : forall z, z ∈ x :: r ++ l -> known s z.(r_series)) by (rewrite list.Forall_forall in Hw; intros z Hz; by apply Hw).
  rewrite list.Forall_forall in Hx. assert (Hin : forall z, z ∈ l -> z ∈ x :: r ++ l) by (intros z Hz; right; apply elem_of_app; by right).
  destruct (series_le x y) as [E|Hlt]; [apply Hk; by left|by apply Hk, Hin|apply Hx, elem_of_app; by right| |done].
  destruct l as [|z l]; [by apply elem_of_nil in Hy|]. specialize (Hh z eq_refl). exfalso. apply elem_of_cons in Hy as [->|Hy]; [congruence|].
  assert (Hz : z ∈ z :: l) by by left. destruct (series_le x z) as [Exz|Hxz]; [apply Hk; by left|by apply Hk, Hin|apply Hx, elem_of_app; by right|congruence|].
  assert (Hzy : key_leP final_key (view s ex z) (view s ex y)). { apply StronglySorted_app_1_r, StronglySorted_inv in Ho as [_ Ho]. rewrite list.Forall_forall in Ho. by apply Ho. }
  destruct (series_le z y) as [Ezy|Hzy']; [by apply Hk, Hin|apply Hk, Hin; by right|done|congruence|]. rewrite E in Hxz. unfold series_lt in *. rewrite cmp_antisym, Hxz in Hzy'. done.
Qed.

Lemma of_series_run i r l : Forall (fun x => x.(r_series) = i) r -> (forall y, y ∈ l -> y.(r_series) <> i) ->
  of_series i (r ++ l) = map (view s ex) r /\ forall j, j <> i -> of_series j (r ++ l) = of_series j l.
Proof.
  intros Hr Hl. unfold of_series. split.
  - rewrite List.filter_app, (filter_id _ r), (filter_nil _ l), app_nil_r; [done| |].
    + apply list.Forall_forall. intros y Hy. by apply Z.eqb_neq, Hl.
    + eapply Forall_impl; [|exact Hr]. intros x E. by apply Z.eqb_eq.
  - intros j Hj. rewrite List.filter_app, (filter_nil _ r); [done|]. eapply Forall_impl; [|exact Hr]. intros x E. apply Z.eqb_neq. cbn in E. congruence.
Qed.

(** The aggregates of rows in order. *)
Definition rollups_exact (l : list CompactRow) (aggs : list Aggregate) : Prop :=
  StronglySorted (fun a b => series_lt a.(a_series) b.(a_series)) aggs /\
  (forall a, a ∈ aggs -> (exists r, r ∈ l /\ r.(r_series) = a.(a_series)) /\ has_summary (of_series a.(a_series) l) /\ summary start (of_series a.(a_series) l) a) /\
  (forall i, has_summary (of_series i l) -> exists a, a ∈ aggs /\ a.(a_series) = i).

Lemma no_summary : ~ has_summary [].
Proof. intros [Hx|[(r & x & Hr & _)|(ts & v & (r & Hr & _) & _)]]; [done|by apply elem_of_nil in Hr..]. Qed.

(** One series. *)
Lemma summarize_exact x r : Forall (fun y => y.(r_series) = x.(r_series)) (x :: r) -> StronglySorted (key_leP final_key) (map (view s ex) (x :: r)) ->
  let a := summarize start ex x (x :: r) in
  a.(a_series) = x.(r_series) /\ summary start (map (view s ex) (x :: r)) a /\
  ((0 <? a.(a_count)) || negb (a.(a_flags) =? 0) = true <-> has_summary (map (view s ex) (x :: r))).
Proof.
  intros Hr Ho a. assert (Hsk : StronglySorted (key_leP sample_key) (map (view s ex) (x :: r))).
  { eapply strongly_impl with (P := fun v => v.(sr_canonical) = canonical_of s x.(r_series)); [exact Ho| |].
    - apply Forall_map. eapply Forall_impl; [|exact Hr]. intros y E. cbn in *. by rewrite E.
    - intros p q Ep Eq Hle. apply sample_key_le; [done|congruence]. }
  destruct (times_loop_exact s ex x.(r_series) x.(r_series_id) start (length (x :: r)) (x :: r) [] false false) as (samples & k & E & Hx & Hk); [done|done|].
  assert (Ea : a = aggregate_of x.(r_series) x.(r_series_id) start samples (existsb is_histogram (map (view s ex) (x :: r))) k) by exact E. rewrite Ea. split_and!; [done| |by apply counted_iff].
  exists samples, k, (view s ex x). split_and!; [done|done|done|apply least_exact|apply greatest_exact|by left|]. cbn [map] in Hsk |- *. apply StronglySorted_inv in Hsk as [_ Hf]. rewrite list.Forall_forall in Hf. intros y [->|Hy]%elem_of_cons; [|by apply Hf].
  apply key_le_cases. by right.
Qed.

Lemma rollup_loop_exact fuel : forall l, (length l <= fuel)%nat -> Forall (row_wf s ex) l -> StronglySorted (key_leP final_key) (map (view s ex) l) ->
  rollups_exact l (rollup_loop fuel start ex l).
Proof.
  assert (Hnil : rollups_exact [] []). { split_and!; [constructor|intros a Ha; by apply elem_of_nil in Ha|]. intros i Hi. by apply no_summary in Hi. }
  induction fuel as [|fuel IH]; intros l Hl Hw Ho; [destruct l; [done|cbn in Hl; lia]|]. destruct l as [|x l]; [done|]. cbn [rollup_loop].
  destruct (run_parts (fun y => r_series y =? r_series x) x l (Z.eqb_refl _)) as (blk & rest & Es & Et & Ed & _ & Hr & Hh & Hp). cbv zeta. rewrite Et, Ed. rewrite Es in Hl, Hw, Ho |- *.
  destruct blk as [|x' r]; [cbn in Hp; lia|]. assert (x' = x) as -> by (cbn in Es; congruence). assert (Hrs : Forall (fun y => y.(r_series) = x.(r_series)) (x :: r)) by (eapply Forall_impl; [|exact Hr]; intros y; apply Z.eqb_eq).
  assert (Hlt : forall y, y ∈ rest -> series_lt x.(r_series) y.(r_series)) by (apply (run_series x r rest Hw Ho); intros y Hy E; specialize (Hh y Hy); by apply Z.eqb_neq in Hh).
  destruct (of_series_run x.(r_series) (x :: r) rest Hrs) as [Ei Ej]; [intros y Hy E; specialize (Hlt y Hy); rewrite E in Hlt; by apply series_lt_irrefl in Hlt|].
  rewrite map_app in Ho. destruct (summarize_exact x r Hrs (StronglySorted_app_1_l _ _ _ Ho)) as (Ea & Hsum & Hcnt). rewrite length_app in Hl.
  destruct (IH rest) as (H1 & H2 & H3); [cbn in *; lia|by apply Forall_app in Hw as [_ ?]|by apply StronglySorted_app_1_r in Ho|]. set (a := summarize start ex x (x :: r)) in *.
  assert (Hgt : forall b, b ∈ rollup_loop fuel start ex rest -> series_lt x.(r_series) b.(a_series)) by (intros b Hb; destruct (H2 b Hb) as ((y & Hy & <-) & _); by apply Hlt).
  assert (Hold : forall b, b ∈ rollup_loop fuel start ex rest -> (exists y, y ∈ (x :: r) ++ rest /\ y.(r_series) = b.(a_series)) /\ has_summary (of_series b.(a_series) ((x :: r) ++ rest)) /\ summary start (of_series b.(a_series) ((x :: r) ++ rest)) b).
  { intros b Hb. rewrite Ej. 2: { intros E. specialize (Hgt b Hb). rewrite E in Hgt. by apply series_lt_irrefl in Hgt. } destruct (H2 b Hb) as ((y & Hy & E) & ?). split; [|done]. exists y. split; [apply elem_of_app; by right|done]. }
  destruct (_ || _).
  - pose proof (proj1 Hcnt eq_refl) as Hc. change ([a] ++ ?k) with (a :: k). split_and!.
    + constructor; [done|]. apply list.Forall_forall. intros b Hb. rewrite Ea. by apply Hgt.
    + intros b [->|Hb]%elem_of_cons; [|by apply Hold]. rewrite Ea, Ei. split_and!; [exists x; split; [by left|done]|done|done].
    + intros i Hi. destruct (Z.eq_dec i x.(r_series)) as [->|Hn]; [exists a; split; [by left|done]|]. rewrite Ej in Hi by done. destruct (H3 i Hi) as (b & Hb & E). exists b. split; [by right|done].
  - rewrite app_nil_l. split_and!; [done|exact Hold|]. intros i Hi. destruct (Z.eq_dec i x.(r_series)) as [->|Hn]; [|rewrite Ej in Hi by done; by apply H3].
    rewrite Ei in Hi. by apply Hcnt in Hi.
Qed.
End Rollups.
