(* ===== verification/TierFinalize.v ===== *)
(** What a finalization answers (metric_tiers.rs and the entry points of lib.rs):
    every call after [finish] writes one output of a plan over the rows that were
    added, until the plan is done or a writer fails. *)

From stdpp Require Import gmap sorting.
From S2P Require Import Prelude OrdMap Utf8 External Float64 MetricValue StableHash MetricPostings MetricSegment MetricTiers TierSeries TierGroups TierRows TierSummary TierOrder TierRollups.

(** ** Lists of indices and times *)

Lemma dedup_head x l : head (dedup (x :: l)) = Some x.
Proof.
  revert x. induction l as [|y l IH]; intros x; [done|]. change (dedup (x :: y :: l)) with (if x =? y then dedup (y :: l) else x :: dedup (y :: l)).
  destruct (Z.eqb_spec x y) as [->|]; [apply IH|done].
Qed.

Lemma dedup_exact l : StronglySorted Z.le l -> StronglySorted Z.lt (dedup l) /\ forall x, x ∈ dedup l <-> x ∈ l.
Proof.
  induction 1 as [|x l Hs [IH1 IH2] Hf]; [split; [constructor|done]|]. destruct l as [|y l]; [split; [repeat constructor|done]|].
  change (dedup (x :: y :: l)) with (if x =? y then dedup (y :: l) else x :: dedup (y :: l)). destruct (Z.eqb_spec x y) as [->|Hn].
  - split; [done|]. intros z. rewrite IH2, !elem_of_cons. tauto.
  - split; [|intros z; by rewrite !elem_of_cons, IH2, elem_of_cons]. constructor; [done|]. apply list.Forall_forall. intros z Hz. apply IH2 in Hz. inversion_clear Hf as [|? ? Hxy _].
    apply StronglySorted_inv in Hs as [_ Hs]. rewrite list.Forall_forall in Hs. apply elem_of_cons in Hz as [->|Hz]; [lia|]. specialize (Hs z Hz). lia.
Qed.

Lemma pushed_series l : forall acc x, x ∈ fold_left push_series l acc <-> x ∈ acc \/ x ∈ l.
Proof.
  induction l as [|y l IH]; intros acc x; cbn [fold_left]; [split; [by left|intros [?|Hx]; [done|by apply elem_of_nil in Hx]]|]. rewrite IH. unfold push_series. case_bool_decide as E.
  - rewrite elem_of_cons. split; [intros [?|?]; tauto|]. intros [?|[->|?]]; [tauto| |tauto]. left. apply last_Some in E as [k ->]. apply elem_of_app. right. by left.
  - rewrite elem_of_app, elem_of_cons, elem_of_cons, elem_of_nil. tauto.
Qed.

Lemma distinct_series_exact l : NoDup (distinct_series l) /\ forall x, x ∈ distinct_series l <-> x ∈ l.
Proof.
  unfold distinct_series. set (k := fold_left push_series l []). assert (Hs : StronglySorted Z.le (sort_by Z.leb k)).
  { pose proof (sort_by_sorted Z.leb (fun a b E => proj2 (Z.leb_le _ _) (Z.lt_le_incl _ _ (proj1 (Z.leb_gt _ _) E))) k) as H1. unfold sorted in H1.
    induction (sort_by Z.leb k) as [|x m IH]; [constructor|]. destruct m as [|y m]; [by repeat constructor|]. cbn [windows2] in H1. inversion_clear H1 as [|? ? H2 H3]. specialize (IH H3). constructor; [done|].
    apply Z.leb_le in H2. pose proof IH as IH'. apply StronglySorted_inv in IH' as [_ Hf]. constructor; [done|]. eapply Forall_impl; [|exact Hf]. intros z. cbn. lia. }
  destruct (dedup_exact _ Hs) as [H1 H2]. split.
  - clear -H1. induction H1 as [|x m H1 IH Hf]; [constructor|]. constructor; [|done]. intros Hx. rewrite list.Forall_forall in Hf. specialize (Hf x Hx). lia.
  - intros x. rewrite H2, sort_by_perm. unfold k. rewrite pushed_series. split; [intros [Hx|?]; [by apply elem_of_nil in Hx|done]|by right].
Qed.

(** The least and greatest time of an output. *)
Definition range_of (lo hi : Z) (ts : list Z) : Prop := lo ∈ ts /\ hi ∈ ts /\ forall t, t ∈ ts -> lo <= t <= hi.

Lemma fold_min l : forall x, let m := fold_left Z.min l x in (m = x \/ m ∈ l) /\ m <= x /\ forall t, t ∈ l -> m <= t.
Proof.
  induction l as [|y l IH]; intros x; cbn; [split_and!; [by left|lia|intros t Ht; by apply elem_of_nil in Ht]|]. destruct (IH (Z.min x y)) as (H1 & H2 & H3). split_and!; [|lia|].
  - destruct H1 as [->|H1]; [|right; by right]. destruct (Z.min_spec x y) as [[_ ->]|[_ ->]]; [by left|right; by left].
  - intros t [->|Ht]%elem_of_cons; [lia|by apply H3].
Qed.

Lemma fold_max l : forall x, let m := fold_left Z.max l x in (m = x \/ m ∈ l) /\ x <= m /\ forall t, t ∈ l -> t <= m.
Proof.
  induction l as [|y l IH]; intros x; cbn; [split_and!; [by left|lia|intros t Ht; by apply elem_of_nil in Ht]|]. destruct (IH (Z.max x y)) as (H1 & H2 & H3). split_and!; [|lia|].
  - destruct H1 as [->|H1]; [|right; by right]. destruct (Z.max_spec x y) as [[_ ->]|[_ ->]]; [right; by left|by left].
  - intros t [->|Ht]%elem_of_cons; [lia|by apply H3].
Qed.

Lemma range_exact l : l <> [] -> range_of (min_of l) (max_of l) l.
Proof.
  destruct l as [|x l]; [done|]. intros _. cbn [min_of max_of]. destruct (fold_min l x) as (H1 & H2 & H3), (fold_max l x) as (G1 & G2 & G3). cbv zeta in *. split_and!.
  - destruct H1 as [->|H1]; [by left|by right].
  - destruct G1 as [->|G1]; [by left|by right].
  - intros t [->|Ht]%elem_of_cons; [lia|]. specialize (H3 t Ht). specialize (G3 t Ht). lia.
Qed.

(** ** What is stored *)

Definition pairs_of (c : bytes) : list (bytes * bytes) := match split_pairs c with Ok l => l | _ => [] end.

Section Stored.
Context `{SimdUtf8} `{Xxh64}.
Variable capacity : Z.

Definition stored_row (r : SourceRow) : Row :=
  mkRow r.(sr_series_id) r.(sr_ts) r.(sr_extra).(e_start) r.(sr_value) (encoded capacity (pairs_of r.(sr_canonical)) r.(sr_canonical))
    r.(sr_extra).(e_otlp) r.(sr_extra).(e_histogram) r.(sr_extra).(e_exemplars).

Lemma valid_encoded c : labels_valid c = true -> from_canonical capacity c = Some (encoded capacity (pairs_of c) c).
Proof. unfold labels_valid, from_canonical, pairs_of. destruct (split_pairs c) as [pairs| |]; [|done|done]. by intros ->. Qed.

(** The rows of an output carry the labels of their series. *)
Lemma encode_rows_exact s ex rows : series_ok s -> Forall (row_wf s ex) rows -> forall out cur,
  match cur with Some (i, l) => known s i /\ l = encoded capacity (pairs_of (canonical_of s i)) (canonical_of s i) | None => True end ->
  exists cur', foldM (encode_row capacity s ex) (out, cur) rows = Ok (out ++ map (fun r => (r.(r_series), stored_row (view s ex r))) rows, cur').
Proof.
  intros Hs. induction 1 as [|r rows [Hr Hx] _ IH]; intros out cur Hc; [exists cur; by rewrite app_nil_r|]. cbn [foldM map].
  set (l := encoded capacity (pairs_of (canonical_of s r.(r_series))) (canonical_of s r.(r_series))).
  assert (El : encoded_labels capacity s r.(r_series) = Ok l). { unfold encoded_labels. rewrite valid_encoded; [done|]. by apply (so_valid _ Hs _ _ (known_canonical _ _ Hr)). }
  assert (E : encode_row capacity s ex (out, cur) r = Ok (out ++ [(r.(r_series), stored_row (view s ex r))], Some (r.(r_series), l))).
  { unfold encode_row. assert (Hrow : labelled_row ex l r = stored_row (view s ex r)) by (unfold labelled_row, stored_row, view; cbn; by destruct (extra_of ex (r_extra r))).
    destruct cur as [[i k]|]; [|by rewrite El, Hrow]. destruct Hc as [_ ->]. destruct (Z.eqb_spec i r.(r_series)) as [->|]; [by fold l; rewrite Hrow|by rewrite El, Hrow]. }
  rewrite E. destruct (IH (out ++ [(r.(r_series), stored_row (view s ex r))]) (Some (r.(r_series), l))) as [cur' ->]; [done|]. exists cur'. by rewrite <- app_assoc.
Qed.

(** The labels of different series differ. *)
Lemma labels_inj c d : labels_valid c = true -> labels_valid d = true -> pairs_of c = pairs_of d -> c = d.
Proof.
  unfold labels_valid, pairs_of. destruct (split_pairs c) as [p| |] eqn:Ec, (split_pairs d) as [q| |] eqn:Ed; try done. intros _ _ ->. apply split_text in Ec, Ed. congruence.
Qed.
End Stored.

(** The summary of a series as it is stored. *)
Definition stored (c : bytes) (a : Aggregate) : StoredAggregate :=
  mkStoredAggregate (from_utf8_lossy (row_name c)) c a.(a_series_id) a.(a_bucket) a.(a_count) a.(a_first_ts) a.(a_first) a.(a_last_ts) a.(a_last)
    a.(a_min) a.(a_max) a.(a_changes) a.(a_resets) (match a.(a_reset_values) with [] => None | l => Some (float_bytes l) end) a.(a_flags).

Definition with_labels (c : bytes) (l : list SourceRow) : list SourceRow := List.filter (fun r => bytes_eqb r.(sr_canonical) c) l.
Definition label_key (c : bytes) : Z * (bytes * bytes) := (name_hash (row_name c), (row_name c, c)).

(** The aggregates of the rows of an hour: one for every label set with something
    to summarize, in order. *)
Definition summaries (start : Z) (hour : list SourceRow) (aggs : list StoredAggregate) : Prop :=
  StronglySorted (fun a b => cmp (label_key a.(s_canonical)) (label_key b.(s_canonical)) = Lt) aggs /\
  (forall a, a ∈ aggs -> exists x, a = stored a.(s_canonical) x /\ summary start (with_labels a.(s_canonical) hour) x) /\
  (forall c, c ∈ map s_canonical aggs <-> has_summary (with_labels c hour)).

(** ** Groups of images *)

Lemma name_set_map {A B} (v : A -> B) name name' l : Forall (fun x => name x = name' (v x)) l -> name_set name' (map v l) = name_set name l.
Proof. unfold name_set. rewrite map_map. induction 1 as [|x l Hx _ IH]; [done|]. cbn. by rewrite IH, Hx. Qed.

Lemma group_ok_map {A B} (v : A -> B) name id name' id' target names l : Forall (fun x => name x = name' (v x)) l -> Forall (fun x => id x = id' (v x)) l ->
  group_ok name id target names l -> group_ok name' id' target names (map v l).
Proof.
  intros Hn Hi (H1 & H2 & H3). split_and!; [by destruct l| |by rewrite (name_set_map v name name' l Hn)].
  destruct H2 as [H2|H2]; [left; by rewrite len_map|]. right. intros x y (a & -> & Ha)%list_elem_of_fmap (b & -> & Hb)%list_elem_of_fmap. rewrite list.Forall_forall in Hi. rewrite <- !Hi by done. by apply H2.
Qed.

Lemma named_map {A B} (v : A -> B) name name' n l : Forall (fun x => name x = name' (v x)) l -> named name' n (map v l) = map v (named name n l).
Proof. unfold named. induction 1 as [|x l Hx _ IH]; [done|]. cbn. rewrite <- Hx, IH. by destruct (bytes_eqb _ _). Qed.

Lemma kept_whole_map {A B} (v : A -> B) name name' target gs : Forall (fun x => name x = name' (v x)) (concat gs) ->
  kept_whole name target gs (concat gs) -> kept_whole name' target (map (map v) gs) (map v (concat gs)).
Proof.
  intros Hn Hk n. rewrite (named_map v name name') by done. rewrite len_map. intros H1 H2. destruct (Hk n) as (g & Hg & E); [by intros E; rewrite E in H1|done|].
  exists (map v g). split; [by apply list_elem_of_fmap_2|]. rewrite (named_map v name name'), E; [done|]. rewrite list.Forall_forall in *. intros x Hx. apply Hn.
  apply list_elem_of_In, in_concat. exists g. split; by apply list_elem_of_In.
Qed.

Lemma clustered_ext {A} (name name' : A -> bytes) l : Forall (fun x => name x = name' x) l -> clustered name' l -> clustered name l.
Proof.
  rewrite list.Forall_forall. intros Hn Hc a x b y c -> E. assert (Hin : forall z, z ∈ x :: b ++ [y] -> name z = name' z) by (intros z Hz; apply Hn; set_solver).
  rewrite (Hin x), (Hin y) in E by set_solver. specialize (Hc a x b y c eq_refl E). rewrite list.Forall_forall in *. intros z Hz. rewrite (Hin z), (Hin x) by set_solver. by apply Hc.
Qed.

(** ** Outputs of a finalization *)

Inductive Job : Type := RowsJob (k : Kind) (rows : list SourceRow) | RollupsJob (aggs : list StoredAggregate).
Inductive Ending : Type := Finished | Broken (e : TierError).
Abbreviation Answer File := (Kind * Output File * list (list (bytes * bytes)))%type.

(** The plan of an hour: the rows of the hour in groups, those before and after
    it, and the summaries in groups. [number] stands for the allocation of the
    labels of a series. *)
Record hour_plan (start end_ target rollup_target names : Z) (acc : list SourceRow) (number : bytes -> Z)
    (finals : list (list SourceRow)) (before after : list SourceRow) (rollups : list (list StoredAggregate)) : Prop := mkHourPlan {
  hp_number : forall c d, c ∈ map sr_canonical acc -> d ∈ map sr_canonical acc -> number c = number d -> c = d;
  hp_rows : concat finals ++ before ++ after ≡ₚ acc;
  hp_inside : Forall (fun r => start <= r.(sr_ts) < end_) (concat finals);
  hp_before : Forall (fun r => r.(sr_ts) < start) before;
  hp_after : Forall (fun r => end_ <= r.(sr_ts)) after;
  hp_order : StronglySorted (key_leP final_key) (concat finals) /\ StronglySorted (key_leP final_key) before /\ StronglySorted (key_leP final_key) after;
  hp_groups : Forall (group_ok c_name (fun r => number r.(sr_canonical)) (Z.max target 1) names) finals;
  hp_kept : kept_whole c_name (Z.max target 1) finals (concat finals);
  hp_off : rollup_target = 0 -> rollups = [];
  hp_rollups : rollup_target <> 0 -> summaries start (concat finals) (concat rollups);
  hp_rollup_groups : Forall (group_ok (fun a => row_name a.(s_canonical)) (fun a => number a.(s_canonical)) (Z.max rollup_target 1) names) rollups;
  hp_rollup_kept : kept_whole (fun a => row_name a.(s_canonical)) (Z.max rollup_target 1) rollups (concat rollups)
}.

Definition some_rows (k : Kind) (rows : list SourceRow) : list Job := match rows with [] => [] | _ => [RowsJob k rows] end.
Definition jobs (finals : list (list SourceRow)) (before after : list SourceRow) (rollups : list (list StoredAggregate)) : list Job :=
  map (RowsJob Final) finals ++ some_rows Before before ++ some_rows After after ++ map RollupsJob rollups.

Section Drain.
Context `{SimdUtf8} `{Xxh64} {File : Type} `{SegmentWriter File} `{RollupWriter File}.
Variable capacity : Z.

(** The labels an answer lists: those of every series of the output, once. *)
Definition lists_labels (ls : list (list (bytes * bytes))) (cs : list bytes) : Prop :=
  NoDup ls /\ forall l, l ∈ ls <-> exists c, c ∈ cs /\ l = pairs_of c.

Inductive answers (number : bytes -> Z) : Job -> Answer File -> Prop :=
| answers_rows k rows o ls : write_rows (map (fun r => (number r.(sr_canonical), stored_row capacity r)) rows) true = Ok o.(payload) ->
    range_of o.(min_ts) o.(max_ts) (map sr_ts rows) -> o.(n_rows) = len rows -> lists_labels ls (map sr_canonical rows) ->
    answers number (RowsJob k rows) (k, o, ls)
| answers_rollups aggs o ls : write_rollups rollup_schema aggs = Some o.(payload) ->
    range_of o.(min_ts) o.(max_ts) (map s_bucket aggs) -> o.(n_rows) = len aggs -> lists_labels ls (map s_canonical aggs) ->
    answers number (RollupsJob aggs) (Rollup, o, ls).

Definition fails (number : bytes -> Z) (j : Job) : Prop :=
  match j with
  | RowsJob _ rows => exists e : EncodeError, write_rows (File := File) (map (fun r => (number r.(sr_canonical), stored_row capacity r)) rows) true = Err e
  | RollupsJob aggs => write_rollups (File := File) rollup_schema aggs = None
  end.

(** The answers to the jobs, up to the first writer that fails. *)
Inductive written (number : bytes -> Z) : list Job -> list (Answer File) -> Ending -> Prop :=
| written_all : written number [] [] Finished
| written_next j js a os e : answers number j a -> written number js os e -> written number (j :: js) (a :: os) e
| written_broken j js : fails number j -> written number (j :: js) [] (Broken Encode).

(** The answers of a builder, called until it is gone. *)
Inductive drained : option Builder -> list (Answer File) -> Ending -> Prop :=
| drained_done b b' : metric_finalize_next (File := File) capacity b = (Some (Ok None), b') -> b' = None -> drained b [] Finished
| drained_broken b e : metric_finalize_next (File := File) capacity b = (Some (Err e), None) -> drained b [] (Broken e)
| drained_next b b' a os e : metric_finalize_next capacity b = (Some (Ok (Some a)), b') -> drained b' os e -> drained b (a :: os) e.

Definition number_of (s : Series) (c : bytes) : Z := default 0 (s.(index) !! c).

Lemma number_known s i : series_ok s -> known s i -> number_of s (canonical_of s i) = i.
Proof. intros Hs Hi%known_canonical. unfold number_of. by rewrite (proj2 (so_index _ Hs _ _) Hi). Qed.

Lemma series_listed s (l : list Z) : series_ok s -> Forall (known s) l -> lists_labels (map (series_labels s) (distinct_series l)) (map (canonical_of s) l).
Proof.
  intros Hs Hk. destruct (distinct_series_exact l) as [Hd He]. split.
  - rewrite list.Forall_forall in Hk. apply NoDup_fmap_2_strong; [|done]. intros i j Hi%He Hj%He E. assert (Hv : forall n, known s n -> labels_valid (canonical_of s n) = true) by (intros n Hn; by apply (so_valid _ Hs _ _ (known_canonical _ _ Hn))).
    apply (labels_inj (canonical_of s i) (canonical_of s j)) in E; [|by apply Hv, Hk..]. apply (series_unique s i j (canonical_of s i)); [done|by apply known_canonical, Hk|]. rewrite E. by apply known_canonical, Hk.
  - intros x. rewrite list_elem_of_fmap. split.
    + intros (i & -> & Hi%He). exists (canonical_of s i). split; [by apply list_elem_of_fmap_2|done].
    + intros (c & (i & -> & Hi)%list_elem_of_fmap & ->). exists i. split; [done|by apply He].
Qed.

(** One output of rows. *)
Lemma encode_range_exact b k start end_ : series_ok b.(series) -> let rows := slice b.(rows) start end_ in Forall (row_wf b.(series) b.(extras)) rows -> rows <> [] ->
  let j := RowsJob k (map (view b.(series) b.(extras)) rows) in
  match encode_range (File := File) capacity b start end_ with
  | Ok o => answers (number_of b.(series)) j (k, o, map (series_labels b.(series)) o.(out_series))
  | Err e => e = Encode /\ fails (number_of b.(series)) j
  | Fuel => False
  end.
Proof.
  intros Hs rows Hw Hne j. unfold encode_range. fold rows. destruct (encode_rows_exact capacity _ _ rows Hs Hw [] None) as [cur ->]; [done|]. cbn [app].
  assert (E : map (fun r => (r_series r, stored_row capacity (view b.(series) b.(extras) r))) rows =
    map (fun r => (number_of b.(series) r.(sr_canonical), stored_row capacity r)) (map (view b.(series) b.(extras)) rows)).
  { rewrite map_map. apply map_ext_in. intros r Hr%list_elem_of_In. rewrite list.Forall_forall in Hw. destruct (Hw r Hr) as [Hk _]. cbn [view sr_canonical]. by rewrite number_known. }
  rewrite E. destruct (write_rows _ true) as [p|e|] eqn:Ep; cbn [from_encode_error]; [|split; [done|by exists e]|].
  2: { unfold write_rows in Ep. destruct (build_batch _). by destruct (write_batch _ _ _ _). }
  constructor; cbn [payload min_ts max_ts n_rows out_series].
  - exact Ep.
  - rewrite map_map. cbn [view sr_ts]. apply range_exact. by destruct rows.
  - by rewrite !len_map.
  - rewrite map_map. cbn [view sr_canonical]. rewrite <- (map_map r_series (canonical_of b.(series))). apply series_listed; [done|]. apply Forall_map. eapply Forall_impl; [|exact Hw]. by intros r [? _].
Qed.

(** One output of rollups. *)
Lemma encode_rollups_exact s aggs : series_ok s -> Forall (fun a => known s a.(a_series)) aggs -> aggs <> [] ->
  let j := RollupsJob (map (fun a => stored (canonical_of s a.(a_series)) a) aggs) in
  match encode_rollups (File := File) aggs s with
  | Ok o => answers (number_of s) j (Rollup, o, map (series_labels s) o.(out_series))
  | Err e => e = Encode /\ fails (number_of s) j
  | Fuel => False
  end.
Proof.
  intros Hs Hk Hne j. unfold encode_rollups. assert (E : map (store_aggregate s) aggs = map (fun a => stored (canonical_of s a.(a_series)) a) aggs).
  { apply map_ext_in. intros a Ha%list_elem_of_In. rewrite list.Forall_forall in Hk. unfold store_aggregate, stored. by rewrite (proj2 (so_valid _ Hs _ _ (known_canonical _ _ (Hk a Ha)))). }
  rewrite E. destruct (write_rollups _ _) as [p|] eqn:Ep; cbn [ok_or]; [|by split]. constructor; cbn [payload min_ts max_ts n_rows out_series].
  - exact Ep.
  - rewrite map_map. cbn [stored s_bucket]. apply range_exact. by destruct aggs.
  - by rewrite len_map.
  - rewrite map_map. cbn [stored s_canonical]. rewrite <- (map_map a_series (canonical_of s)). apply series_listed; [done|]. by apply Forall_map.
Qed.
End Drain.

(** ** Draining a builder *)

Section Draining.
Context `{SimdUtf8} `{Xxh64} {File : Type} `{SegmentWriter File} `{RollupWriter File}.
Variable capacity : Z.
Abbreviation drained := (drained (File := File) capacity).
Abbreviation written := (written (File := File) capacity).

Definition row_job (b : Builder) (p : Kind * Z * Z) : Job := let '(k, a, z) := p in RowsJob k (map (view b.(series) b.(extras)) (slice b.(rows) a z)).
Definition row_pending (p : Kind * Z * Z) : Pending := let '(k, a, z) := p in PRows k a z.
Definition row_ready (b : Builder) (p : Kind * Z * Z) : Prop :=
  let '(k, a, z) := p in Forall (row_wf b.(series) b.(extras)) (slice b.(rows) a z) /\ slice b.(rows) a z <> [].
Definition row_state (b : Builder) (ps : list (Kind * Z * Z)) (inside rollup_target names : Z) : Builder :=
  with_plan b b.(rows) b.(extras) (mkPlan (map row_pending ps) inside rollup_target names None).

Lemma drain_rows b inside rollup_target names ps : series_ok b.(series) -> Forall (row_ready b) ps ->
  forall js os e, drained (Some (row_state b [] inside rollup_target names)) os e -> written (number_of b.(series)) js os e ->
  exists os' e', drained (Some (row_state b ps inside rollup_target names)) os' e' /\ written (number_of b.(series)) (map (row_job b) ps ++ js) os' e'.
Proof.
  intros Hs Hp js os e Hd Hw. induction Hp as [|[[k a] z] ps [Hr Hn] _ (os' & e' & Hd' & Hw')]; [by exists os, e|].
  pose proof (encode_range_exact (File := File) capacity (row_state b ps inside rollup_target names) k a z Hs Hr Hn) as Hx.
  set (st := Some (row_state b ((k, a, z) :: ps) inside rollup_target names)). cbn [map app row_job].
  assert (En : metric_finalize_next (File := File) capacity st = match encode_range (File := File) capacity (row_state b ps inside rollup_target names) a z with
    | Ok o => (Some (Ok (Some (k, o, map (series_labels b.(series)) o.(out_series)))), Some (row_state b ps inside rollup_target names))
    | Err e => (Some (Err e), None) | Fuel => (Some Fuel, None) end).
  { unfold metric_finalize_next, st, next. cbn. change (with_plan _ _ _ _) with (row_state b ps inside rollup_target names). by destruct (encode_range _ _ _ _). }
  destruct (encode_range _ _ _ _) as [o|x|]; [| |done].
  - exists ((k, o, map (series_labels b.(series)) o.(out_series)) :: os'), e'. split; [by eapply drained_next|by constructor].
  - destruct Hx as [-> Hf]. exists [], (Broken Encode). split; [by eapply drained_broken|by constructor].
Qed.

Definition rollup_job (b : Builder) (aggs : list Aggregate) (p : Z * Z) : Job :=
  let '(a, z) := p in RollupsJob (map (fun a => stored (canonical_of b.(series) a.(a_series)) a) (slice aggs a z)).
Definition rollup_state (b : Builder) (aggs : list Aggregate) (ps : list (Z * Z)) (inside rollup_target names : Z) : Builder :=
  with_plan b [] [] (mkPlan (map (fun '(a, z) => PRollups a z) ps) inside rollup_target names (Some aggs)).

Lemma drain_rollups b aggs inside rollup_target names ps : series_ok b.(series) -> Forall (fun a => known b.(series) a.(a_series)) aggs -> Forall (fun '(a, z) => slice aggs a z <> []) ps ->
  exists os e, drained (Some (rollup_state b aggs ps inside rollup_target names)) os e /\ written (number_of b.(series)) (map (rollup_job b aggs) ps) os e.
Proof.
  intros Hs Hk Hp. induction Hp as [|[a z] ps Hn _ (os & e & Hd & Hw)]; [exists [], Finished; split; [by eapply drained_done|constructor]|].
  pose proof (encode_rollups_exact (File := File) capacity b.(series) (slice aggs a z) Hs) as Hx. destruct (encode_rollups _ _) as [o|x|] eqn:Ex.
  - exists ((Rollup, o, map (series_labels b.(series)) o.(out_series)) :: os), e. split; [|constructor; [apply Hx; [|done]|done]].
    + eapply drained_next; [|exact Hd]. unfold metric_finalize_next, next. cbn. by rewrite Ex.
    + rewrite list.Forall_forall in *. intros y Hy. apply Hk. by eapply slice_sublist_elem.
  - destruct Hx as [-> Hf]; [rewrite list.Forall_forall in *; intros y Hy; apply Hk; by eapply slice_sublist_elem|done|]. exists [], (Broken Encode). split; [|by constructor]. eapply drained_broken.
    unfold metric_finalize_next, next. cbn. by rewrite Ex.
  - destruct Hx; [rewrite list.Forall_forall in *; intros y Hy; apply Hk; by eapply slice_sublist_elem|done].
Qed.

(** The summary comes between the rows and the rollups, in one call with what
    follows it. *)
Definition rollups_of (b : Builder) (inside rollup_target : Z) : list Aggregate :=
  if rollup_target =? 0 then [] else rollup_rows b.(b_start) b.(extras) (take (Z.to_nat inside) b.(rows)).

Lemma drain_summary b inside rollup_target names os e : let aggs := rollups_of b inside rollup_target in
  drained (Some (rollup_state b aggs (groups aggs (fun a => series_name b.(series) a.(a_series)) a_series rollup_target names) inside rollup_target names)) os e ->
  drained (Some (row_state b [] inside rollup_target names)) os e.
Proof.
  intros aggs Hd. set (st := rollup_state b aggs _ inside rollup_target names) in Hd.
  assert (E : next (File := File) capacity (row_state b [] inside rollup_target names) = next capacity st).
  { unfold next. change (next_loop capacity 2 (row_state b [] inside rollup_target names)) with (next_loop (File := File) capacity 1 st). unfold st. cbn. by destruct (map _ (groups _ _ _ _ _)) as [|[|]]. }
  assert (E' : metric_finalize_next (File := File) capacity (Some (row_state b [] inside rollup_target names)) = metric_finalize_next capacity (Some st)) by (unfold metric_finalize_next; by rewrite E).
  inversion Hd; subst; [eapply drained_done|eapply drained_broken|eapply drained_next]; try (rewrite E'; done); done.
Qed.
End Draining.

(** ** The plan of a prepared builder *)

Section Plan.
Context `{SimdUtf8}.

(** The builder with its rows in order. *)
Definition ordered (b : Builder) : Builder :=
  mkBuilder b.(b_start) b.(b_end) b.(max_rows) b.(partition) b.(series) (prepared b.(b_start) b.(b_end) b.(series) b.(rows)) b.(extras) None.
Definition class_rows (b : Builder) (k : Z) : list CompactRow := of_class b.(b_start) b.(b_end) k (ordered b).(rows).
Definition class_views (b : Builder) (k : Z) : list SourceRow := map (view b.(series) b.(extras)) (class_rows b k).

Definition pending_rows (b : Builder) (target names : Z) : list (Kind * Z * Z) :=
  let '(i, j) := (len (class_rows b 0), len (class_rows b 0) + len (class_rows b 1)) in
  map (fun '(a, z) => (Final, a, z)) (groups (class_rows b 0) (fun r => series_name b.(series) r.(r_series)) r_series target names) ++
  (if i <? j then [(Before, i, j)] else []) ++ (if j <? len (ordered b).(rows) then [(After, j, len (ordered b).(rows))] else []).

Lemma ordered_parts b : (ordered b).(rows) = class_rows b 0 ++ class_rows b 1 ++ class_rows b 2.
Proof. apply prepared_parts. Qed.

Lemma prepare_state b target rollup_target names : prepare b target rollup_target names = row_state (ordered b) (pending_rows b target names) (len (class_rows b 0)) rollup_target names.
Proof.
  destruct (prepared_parts b.(b_start) b.(b_end) b.(series) b.(rows)) as (Ep & E0 & E1). unfold prepare, row_state, with_plan. cbv zeta. cbn [b_start b_end max_rows partition series rows extras ordered].
  change (sort_by (row_leb b.(b_start) b.(b_end) (ranks b.(series))) b.(rows)) with (ordered b).(rows) in *. change (prepared _ _ _ _) with (ordered b).(rows) in *.
  change (run (fun r => class (b_start b) (b_end b) (r_ts r) =? 0) (rows (ordered b))) with (run (fun r => r_class b.(b_start) b.(b_end) r =? 0) (rows (ordered b))).
  change (run (fun r => class (b_start b) (b_end b) (r_ts r) =? 1)) with (run (fun r => r_class b.(b_start) b.(b_end) r =? 1)).
  fold (class_rows b 0) (class_rows b 1) (class_rows b 2) in Ep, E0, E1. rewrite E1, E0. cbv zeta. do 3 f_equal.
  replace (take (Z.to_nat (len (class_rows b 0))) (rows (ordered b))) with (class_rows b 0) by (rewrite Ep; unfold len; by rewrite Nat2Z.id, take_app_length).
  unfold pending_rows. rewrite !map_app, map_map.
  assert (Em : forall l : list (Z * Z), map (fun x => row_pending (let '(a, z) := x in (Final, a, z))) l = map (fun '(a, z) => PRows Final a z) l) by (intros l; apply map_ext; by intros [a z]).
  rewrite Em. destruct (_ <? _), (_ <? _); cbn [map app row_pending]; by rewrite ?app_nil_r, <- ?app_assoc.
Qed.

(** The ranges of the parts of the ordered rows. *)
Lemma ordered_slices b gs : concat gs = class_rows b 0 -> let '(i, j) := (len (class_rows b 0), len (class_rows b 0) + len (class_rows b 1)) in
  map (fun '(a, z) => slice (ordered b).(rows) a z) (cuts 0 gs) = gs /\ slice (ordered b).(rows) i j = class_rows b 1 /\ slice (ordered b).(rows) j (len (ordered b).(rows)) = class_rows b 2.
Proof.
  intros E. pose proof (cuts_slices ((gs ++ [class_rows b 1]) ++ [class_rows b 2]) []) as Hc. rewrite len_nil in Hc. cbn [app] in Hc. rewrite !cuts_snoc, !concat_app, E in Hc. cbn [concat] in Hc. rewrite !app_nil_r, <- app_assoc, <- ordered_parts, !map_app, !Z.add_0_l in Hc. cbn [map] in Hc.
  rewrite len_app in Hc. apply app_inj_2 in Hc as [Hc H2]; [|done]. apply app_inj_2 in Hc as [Hc H1]; [|done]. split_and!; [done|congruence|].
  rewrite ordered_parts at 2. rewrite !len_app, Z.add_assoc. congruence.
Qed.

Section Rows.
Variable b : Builder.
Hypotheses (Hs : series_ok b.(series)) (Hw : Forall (row_wf b.(series) b.(extras)) b.(rows)).

Lemma class_wf k : Forall (row_wf b.(series) b.(extras)) (class_rows b k).
Proof.
  rewrite list.Forall_forall in *. intros r [Hr _]%in_filter. apply Hw. cbn [ordered rows] in Hr. unfold prepared in Hr. by rewrite sort_by_perm in Hr.
Qed.

Lemma class_sorted k : StronglySorted (key_leP final_key) (class_views b k).
Proof. by apply part_sorted. Qed.

Lemma known_name i : known b.(series) i -> series_name b.(series) i = row_name (canonical_of b.(series) i).
Proof. intros Hi%known_canonical. by apply (so_valid _ Hs). Qed.

Lemma named_rows l : Forall (row_wf b.(series) b.(extras)) l -> Forall (fun r => series_name b.(series) r.(r_series) = c_name (view b.(series) b.(extras) r)) l.
Proof. intros Hl. eapply Forall_impl; [|exact Hl]. intros r [Hr _]. by apply known_name. Qed.

Lemma numbered_rows l : Forall (row_wf b.(series) b.(extras)) l -> Forall (fun r => r.(r_series) = number_of b.(series) (view b.(series) b.(extras) r).(sr_canonical)) l.
Proof. intros Hl. eapply Forall_impl; [|exact Hl]. intros r [Hr _]. cbn. by rewrite number_known. Qed.

Lemma part_some {A} i (l : list A) : (i <? i + len l) = match l with [] => false | _ => true end.
Proof. destruct l; [apply Z.ltb_ge; rewrite len_nil; lia|apply Z.ltb_lt; len_lia]. Qed.

Lemma pending_exact target names (gs : list (list CompactRow)) : groups (class_rows b 0) (fun r => series_name b.(series) r.(r_series)) r_series target names = cuts 0 gs ->
  let '(i, j) := (len (class_rows b 0), len (class_rows b 0) + len (class_rows b 1)) in
  pending_rows b target names = map (fun '(a, z) => (Final, a, z)) (cuts 0 gs) ++
    match class_rows b 1 with [] => [] | _ => [(Before, i, j)] end ++ match class_rows b 2 with [] => [] | _ => [(After, j, len (ordered b).(rows))] end.
Proof.
  intros Eg. unfold pending_rows. rewrite Eg. do 2 f_equal.
  - rewrite part_some. by destruct (class_rows b 1).
  - rewrite ordered_parts, !len_app, Z.add_assoc, part_some. by destruct (class_rows b 2).
Qed.

(** The pending outputs are those parts. *)
Lemma pending_jobs target names (gs : list (list CompactRow)) : groups (class_rows b 0) (fun r => series_name b.(series) r.(r_series)) r_series target names = cuts 0 gs -> concat gs = class_rows b 0 ->
  Forall (fun g => g <> []) gs ->
  Forall (row_ready (ordered b)) (pending_rows b target names) /\
  map (row_job (ordered b)) (pending_rows b target names) =
    map (RowsJob Final) (map (map (view b.(series) b.(extras))) gs) ++ some_rows Before (class_views b 1) ++ some_rows After (class_views b 2).
Proof.
  intros Eg Ec Hne. rewrite (pending_exact _ _ _ Eg). destruct (ordered_slices b gs Ec) as (S0 & S1 & S2). pose proof (class_wf 0) as Hw0. rewrite <- Ec in Hw0.
  assert (Hall : Forall (fun g => Forall (row_wf b.(series) b.(extras)) g) gs) by (by apply Forall_concat). split.
  - rewrite !Forall_app. split_and!.
    + apply Forall_map.
      assert (Hb : Forall (fun g => Forall (row_wf b.(series) b.(extras)) g /\ g <> []) gs) by (rewrite list.Forall_forall in *; intros g Hg; split; [by apply Hall|by apply Hne]).
      rewrite <- S0 in Hb. apply Forall_map in Hb. eapply Forall_impl; [|exact Hb]. by intros [a z].
    + destruct (class_rows b 1) eqn:E1; [constructor|]. constructor; [|constructor]. cbn [row_ready ordered series extras]. rewrite S1, <- E1. split; [apply class_wf|by rewrite E1].
    + destruct (class_rows b 2) eqn:E2; [constructor|]. constructor; [|constructor]. cbn [row_ready ordered series extras]. rewrite S2, <- E2. split; [apply class_wf|by rewrite E2].
  - rewrite !map_app. f_equal; [|f_equal].
    + rewrite <- S0 at 2. rewrite !map_map. apply map_ext. by intros [a z].
    + unfold class_views. destruct (class_rows b 1) eqn:E1; [done|]. cbn [map row_job ordered series extras some_rows]. by rewrite S1.
    + unfold class_views. destruct (class_rows b 2) eqn:E2; [done|]. cbn [map row_job ordered series extras some_rows]. by rewrite S2.
Qed.

(** The row outputs. *)
Lemma plan_rows target names : 1 <= names -> exists gs, concat gs = class_rows b 0 /\
  let finals := map (map (view b.(series) b.(extras))) gs in
  Forall (group_ok c_name (fun r => number_of b.(series) r.(sr_canonical)) (Z.max target 1) names) finals /\ kept_whole c_name (Z.max target 1) finals (concat finals) /\
  Forall (row_ready (ordered b)) (pending_rows b target names) /\
  map (row_job (ordered b)) (pending_rows b target names) = map (RowsJob Final) finals ++ some_rows Before (class_views b 1) ++ some_rows After (class_views b 2).
Proof.
  intros Hn. destruct (groups_exact (fun r => series_name b.(series) r.(r_series)) r_series (Z.max target 1) names ltac:(lia) ltac:(lia) (class_rows b 0)) as (gs & Eg & Ec & Hg & Hk).
  { eapply clustered_ext; [apply named_rows, class_wf|]. apply (final_clustered (view b.(series) b.(extras))), class_sorted. }
  exists gs. split; [done|]. cbv zeta. pose proof (class_wf 0) as Hw0. rewrite <- Ec in Hw0. assert (Hall : Forall (fun g => Forall (row_wf b.(series) b.(extras)) g) gs) by (by apply Forall_concat).
  replace (groups _ _ _ _ _) with (groups (class_rows b 0) (fun r => series_name b.(series) r.(r_series)) r_series target names) in Eg by (unfold groups; by rewrite (Z.max_l (Z.max target 1)) by lia).
  destruct (pending_jobs target names gs Eg Ec) as [Hr Hj]; [eapply Forall_impl; [|exact Hg]; by intros g (? & _)|]. split_and!; [| |done|done].
  - apply Forall_map. rewrite list.Forall_forall in *. intros g Hgi. eapply group_ok_map; [apply named_rows, (Hall g Hgi)|apply numbered_rows, (Hall g Hgi)|by apply Hg].
  - rewrite <- concat_map. apply kept_whole_map with (name := fun r => series_name b.(series) r.(r_series)); [by apply named_rows|by rewrite Ec].
Qed.

(** The rollup outputs. *)
Definition stored_of (a : Aggregate) : StoredAggregate := stored (canonical_of b.(series) a.(a_series)) a.

Lemma of_series_labels i l : known b.(series) i -> Forall (row_wf b.(series) b.(extras)) l ->
  of_series b.(series) b.(extras) i l = with_labels (canonical_of b.(series) i) (map (view b.(series) b.(extras)) l).
Proof.
  intros Hi. unfold of_series, with_labels. induction 1 as [|r l [Hr _] _ IH]; [done|]. cbn [List.filter map view sr_canonical].
  assert (E : (r.(r_series) =? i) = bytes_eqb (canonical_of b.(series) r.(r_series)) (canonical_of b.(series) i)).
  { apply eq_true_iff_eq. rewrite Z.eqb_eq, bytes_eqb_eq. split; [by intros ->|]. intros E. apply (series_unique b.(series) _ _ (canonical_of b.(series) i)); [done| |by apply known_canonical]. rewrite <- E. by apply known_canonical. }
  rewrite E. destruct (bytes_eqb _ _); cbn [map]; by rewrite IH.
Qed.

Lemma summaries_stored start l aggs : Forall (row_wf b.(series) b.(extras)) l -> rollups_exact start b.(series) b.(extras) l aggs ->
  Forall (fun a => known b.(series) a.(a_series)) aggs /\ summaries start (map (view b.(series) b.(extras)) l) (map stored_of aggs).
Proof.
  intros Hl (H1 & H2 & H3). assert (Hk : forall a, a ∈ aggs -> known b.(series) a.(a_series)).
  { intros a Ha. destruct (H2 a Ha) as ((r & Hr & <-) & _). rewrite list.Forall_forall in Hl. by apply Hl. }
  assert (Hkey : forall i, known b.(series) i -> series_key b.(series) i = label_key (canonical_of b.(series) i)) by (intros i Hi; unfold series_key, label_key; by rewrite known_name).
  split; [by apply list.Forall_forall|]. split_and!.
  - apply (proj1 (strongly_map stored_of (fun x y => cmp (label_key x.(s_canonical)) (label_key y.(s_canonical)) = Lt) aggs)).
    eapply strongly_impl with (P := fun a => known b.(series) a.(a_series)); [exact H1|by apply list.Forall_forall|]. intros x y Hx Hy Hlt. unfold series_lt in Hlt. rewrite (Hkey _ Hx), (Hkey _ Hy) in Hlt. exact Hlt.
  - intros a (x & -> & Hx)%list_elem_of_fmap. exists x. split; [done|]. cbn [stored_of stored s_canonical]. rewrite <- of_series_labels by auto. by apply H2.
  - intros c. rewrite map_map, list_elem_of_fmap. split.
    + intros (x & -> & Hx). cbn [stored_of stored s_canonical]. rewrite <- of_series_labels by auto. by apply H2.
    + intros Hc. assert (Hin : exists i, known b.(series) i /\ c = canonical_of b.(series) i).
      { destruct (with_labels c (map (view b.(series) b.(extras)) l)) as [|v k] eqn:Ev; [by apply no_summary in Hc|]. assert (Hv : v ∈ with_labels c (map (view b.(series) b.(extras)) l)) by (rewrite Ev; by left).
        apply in_filter in Hv as [(r & -> & Hr)%list_elem_of_fmap E%bytes_eqb_eq]. exists r.(r_series). rewrite list.Forall_forall in Hl. split; [by apply (Hl r Hr)|done]. }
      destruct Hin as (i & Hi & ->). rewrite <- of_series_labels in Hc by done. destruct (H3 i Hc) as (a & Ha & <-). by exists a.
Qed.

Lemma take_hour : take (Z.to_nat (len (class_rows b 0))) (ordered b).(rows) = class_rows b 0.
Proof. rewrite ordered_parts. unfold len. by rewrite Nat2Z.id, take_app_length. Qed.

Lemma hour_summaries rollup_target : let aggs := rollups_of (ordered b) (len (class_rows b 0)) rollup_target in
  StronglySorted (fun x y => series_lt b.(series) x.(a_series) y.(a_series)) aggs /\ Forall (fun a => known b.(series) a.(a_series)) aggs /\
  (rollup_target = 0 -> aggs = []) /\ (rollup_target <> 0 -> summaries b.(b_start) (class_views b 0) (map stored_of aggs)).
Proof.
  cbv zeta. unfold rollups_of. destruct (Z.eqb_spec rollup_target 0) as [Hz|Hz]; [split_and!; [constructor|constructor|done|done]|]. cbn [ordered b_start extras]. change (rows (mkBuilder _ _ _ _ _ ?r _ _)) with r. change (prepared _ _ _ _) with (ordered b).(rows). rewrite take_hour.
  unfold rollup_rows. pose proof (rollup_loop_exact b.(b_start) b.(series) b.(extras) Hs (length (class_rows b 0)) (class_rows b 0) (Nat.le_refl _) (class_wf 0) (class_sorted 0)) as Hr.
  destruct (summaries_stored b.(b_start) (class_rows b 0) _ (class_wf 0) Hr) as [Hk Hsum]. destruct Hr as [Ho _]. split_and!; [done|done|done|]. by intros _.
Qed.

Lemma plan_summaries aggs rollup_target names : 1 <= names -> StronglySorted (fun x y => series_lt b.(series) x.(a_series) y.(a_series)) aggs -> Forall (fun a => known b.(series) a.(a_series)) aggs ->
  exists gs, concat gs = aggs /\ let ranges := groups aggs (fun a => series_name b.(series) a.(a_series)) a_series rollup_target names in
  let rollups := map (map stored_of) gs in
  Forall (group_ok (fun a => row_name a.(s_canonical)) (fun a => number_of b.(series) a.(s_canonical)) (Z.max rollup_target 1) names) rollups /\
  kept_whole (fun a => row_name a.(s_canonical)) (Z.max rollup_target 1) rollups (concat rollups) /\
  Forall (fun '(a, z) => slice aggs a z <> []) ranges /\ map (rollup_job (ordered b) aggs) ranges = map RollupsJob rollups.
Proof.
  intros Hn Ho Hk. destruct (groups_exact (fun a => series_name b.(series) a.(a_series)) a_series (Z.max rollup_target 1) names ltac:(lia) ltac:(lia) aggs) as (gs & Eg & Ec & Hg & Hkept).
  { apply hashed_clustered. eapply strongly_impl with (P := fun _ => True); [exact Ho|by apply Forall_true|]. intros x y _ _. unfold series_lt, key_leP, key_le, series_key. cbn.
    destruct (_ ?= _); [|done|done]. by destruct (bytes_compare (series_name _ _) _). }
  exists gs. split; [done|]. cbv zeta. replace (groups _ _ _ _ _) with (groups aggs (fun a => series_name b.(series) a.(a_series)) a_series rollup_target names) in Eg by (unfold groups; by rewrite (Z.max_l (Z.max rollup_target 1)) by lia).
  assert (Hn' : forall l, Forall (fun a => known b.(series) a.(a_series)) l -> Forall (fun a => series_name b.(series) a.(a_series) = row_name (stored_of a).(s_canonical)) l) by (intros l Hl; eapply Forall_impl; [|exact Hl]; intros a Ha; by apply known_name).
  assert (Hi' : forall l, Forall (fun a => known b.(series) a.(a_series)) l -> Forall (fun a => a.(a_series) = number_of b.(series) (stored_of a).(s_canonical)) l) by (intros l Hl; eapply Forall_impl; [|exact Hl]; intros a Ha; cbn; by rewrite number_known).
  pose proof Hk as Hk0. rewrite <- Ec in Hk0. assert (Hall : Forall (fun g => Forall (fun a => known b.(series) a.(a_series)) g) gs) by (by apply Forall_concat).
  pose proof (cuts_slices gs []) as Hc. rewrite len_nil in Hc. cbn [app] in Hc. rewrite Ec in Hc. rewrite Eg. split_and!.
  - apply Forall_map. rewrite list.Forall_forall in *. intros g Hgi. eapply group_ok_map; [by apply Hn', Hall|by apply Hi', Hall|by apply Hg].
  - rewrite <- concat_map. apply kept_whole_map with (name := fun a => series_name b.(series) a.(a_series)); [by apply Hn'|by rewrite Ec].
  - rewrite <- Hc in Hg. apply (proj1 (Forall_map _ _ _)) in Hg. eapply Forall_impl; [|exact Hg]. by intros [a z] (? & _).
  - rewrite <- Hc at 2. rewrite !map_map. apply map_ext. by intros [a z].
Qed.
End Rows.
End Plan.

(** ** A whole finalization *)

Section Finalization.
Context `{SimdUtf8} `{Xxh64} {File : Type} `{SegmentWriter File} `{RollupWriter File}.
Variable capacity : Z.

Lemma gathered_number max s rows ex acc c d : gathered max s rows ex acc -> c ∈ map sr_canonical acc -> d ∈ map sr_canonical acc -> number_of s c = number_of s d -> c = d.
Proof.
  intros Hg Hc%(ga_labels _ _ _ _ _ Hg) Hd%(ga_labels _ _ _ _ _ Hg). apply get_elem in Hc as [i Hi], Hd as [j Hj]. pose proof (ga_series _ _ _ _ _ Hg) as Hs. unfold number_of.
  rewrite (proj2 (so_index _ Hs _ _) Hi), (proj2 (so_index _ Hs _ _) Hj). cbn. intros ->. congruence.
Qed.

Lemma class_views_class b acc k : map (view b.(series) b.(extras)) b.(rows) = acc -> class_views b k ≡ₚ List.filter (fun r => class b.(b_start) b.(b_end) r.(sr_ts) =? k) acc.
Proof. intros <-. apply part_views. Qed.

Lemma class_views_all b acc : map (view b.(series) b.(extras)) b.(rows) = acc -> class_views b 0 ++ class_views b 1 ++ class_views b 2 ≡ₚ acc.
Proof.
  intros <-. unfold class_views. rewrite <- !map_app, <- ordered_parts. cbn [ordered rows]. apply Permutation_map. apply sort_by_perm.
Qed.

Lemma class_inside start end_ ts : start < end_ -> (class start end_ ts = 0 <-> start <= ts < end_) /\ (class start end_ ts = 1 <-> ts < start) /\ (class start end_ ts = 2 <-> end_ <= ts).
Proof. intros Hse. unfold class. destruct (Z.ltb_spec ts start), (Z.leb_spec end_ ts); lia. Qed.

Lemma finish_drains start end_ max part b acc target rollup_target max_names : gathering start end_ max part b acc -> start < end_ ->
  exists number finals before after rollups os e,
    hour_plan start end_ target rollup_target (Z.max 1 (Z.min max_names 128)) acc number finals before after rollups /\
    drained (File := File) capacity (metric_finalize_finish (Some b) target rollup_target max_names) os e /\
    written capacity number (jobs finals before after rollups) os e.
Proof.
  intros [<- <- _ _ _ Hg] Hse. set (names := Z.max 1 (Z.min max_names 128)). assert (Hn : 1 <= names) by lia. pose proof (ga_series _ _ _ _ _ Hg) as Hs. pose proof (ga_wf _ _ _ _ _ Hg) as Hw. pose proof (ga_rows _ _ _ _ _ Hg) as Hv.
  destruct (plan_rows b Hs Hw target names Hn) as (gs & Ec & Hgo & Hgk & Hready & Hjobs). destruct (hour_summaries b Hs Hw rollup_target) as (Ho & Hk & Hz & Hsum). set (aggs := rollups_of _ _ _) in *.
  destruct (plan_summaries b Hs aggs rollup_target names Hn Ho Hk) as (rs & Er & Hro & Hrk & Hne & Hrj). cbv zeta in *. set (finals := map (map (view b.(series) b.(extras))) gs) in *. set (rollups := map (map (stored_of b)) rs) in *.
  assert (Ef : concat finals = class_views b 0) by (unfold finals; rewrite <- concat_map; by rewrite Ec). assert (Err : concat rollups = map (stored_of b) aggs) by (unfold rollups; rewrite <- concat_map; by rewrite Er).
  destruct (drain_rollups (File := File) capacity (ordered b) aggs (len (class_rows b 0)) rollup_target names _ Hs Hk Hne) as (os & e & Hd & Hwr). rewrite Hrj in Hwr. pose proof (drain_summary capacity (ordered b) (len (class_rows b 0)) rollup_target names os e Hd) as Hd0.
  destruct (drain_rows (File := File) capacity (ordered b) (len (class_rows b 0)) rollup_target names _ Hs Hready _ os e Hd0 Hwr) as (os' & e' & Hd' & Hwr'). rewrite Hjobs, <- !app_assoc in Hwr'.
  exists (number_of b.(series)), finals, (class_views b 1), (class_views b 2), rollups, os', e'. split_and!; [|by rewrite <- prepare_state in Hd'|done].
  assert (Hcl : forall k, Forall (fun r => class b.(b_start) b.(b_end) r.(sr_ts) = k) (class_views b k)).
  { intros k. rewrite (class_views_class b acc k Hv). eapply Forall_impl; [|apply filter_forall]. intros r. cbn. apply Z.eqb_eq. }
  pose proof (class_inside b.(b_start) b.(b_end)) as Hci. constructor; rewrite ?Ef; try done.
  - intros c d. by eapply gathered_number.
  - by apply class_views_all.
  - eapply Forall_impl; [|apply (Hcl 0)]. intros r. by apply Hci.
  - eapply Forall_impl; [|apply (Hcl 1)]. intros r. by apply Hci.
  - eapply Forall_impl; [|apply (Hcl 2)]. intros r. by apply Hci.
  - split_and!; by apply class_sorted.
  - by rewrite <- Ef.
  - intros E0. unfold rollups. assert (Hrs : rs = []); [|by rewrite Hrs]. specialize (Hz E0). rewrite Hz in Er. destruct rs as [|g rs]; [done|]. inversion_clear Hro as [|? ? (Hgn & _) _]. destruct g; [done|]. by cbn in Er.
  - intros E0. rewrite Err. by apply Hsum.
Qed.
End Finalization.
