(* ===== verification/TierHour.v ===== *)
(** The finalization of an hour as its caller sees it (metric_tiers.rs and the
    entry points of lib.rs): additions, partitions of the metrics, and the
    outputs that one call after the other answers. *)

From stdpp Require Import gmap sorting.
From S2P Require Import Prelude OrdMap Utf8 External Float64 MetricValue StableHash MetricPostings MetricSegment MetricTiers TierSeries TierGroups TierRows TierSummary TierOrder TierRollups TierFinalize.

(** ** Additions *)

Section Additions.
Context `{SimdUtf8} {File : Type} `{Parquet File}.
Variable part : option (Z * Z).

(** One addition after the other, with their answers. *)
Fixpoint add_all (finalizer : option Builder) (files : list File) : list (option (Res Z)) * option Builder :=
  match files with
  | [] => ([], finalizer)
  | file :: files =>
      let '(answer, finalizer) := metric_finalize_add finalizer file in
      let '(answers, finalizer) := add_all finalizer files in (answer :: answers, finalizer)
  end.

Abbreviation Seg := (File * list SourceRow)%type.
Definition counts (seg : Seg) : option (Res Z) := Some (Ok (len (kept part (snd seg)))).
Definition readable (segs : list Seg) : Prop := Forall (fun seg => segment_of (fst seg) (snd seg)) segs.

Lemma add_all_gone files : add_all None files = (map (fun _ => None) files, None).
Proof. induction files as [|file files IH]; [done|]. cbn. by rewrite IH. Qed.

Definition failed_at (max : Z) (before : list SourceRow) (segs : list Seg) (answers : list (option (Res Z))) : Prop :=
  exists good seg bad e, segs = good ++ seg :: bad /\ answers = map counts good ++ Some (Err e) :: map (fun _ => None) bad /\
    gather part max (before ++ kept part (flat_map snd good)) (snd seg) = None.

Lemma kept_app a b : kept part (a ++ b) = kept part a ++ kept part b.
Proof. apply List.filter_app. Qed.

Lemma gather_some max acc rows all : gather part max acc rows = Some all -> valid_rows rows = true /\ all = acc ++ kept part rows.
Proof. unfold gather. destruct (valid_rows rows); [|done]. cbn [andb]. destruct (allowed _ _); [|done]. by intros [= <-]. Qed.

Lemma add_files_exact start end_ max segs : readable segs -> forall b acc, gathering start end_ max part b acc ->
  match add_all (Some b) (map fst segs) with
  | (answers, Some b') => answers = map counts segs /\ valid_rows (flat_map snd segs) = true /\ gathering start end_ max part b' (acc ++ kept part (flat_map snd segs))
  | (answers, None) => failed_at max acc segs answers
  end.
Proof.
  induction 1 as [|[file rows] segs Hr _ IH]; intros b acc Hg; [cbn; by rewrite app_nil_r|]. cbn [map fst snd flat_map add_all].
  pose proof (add_exact start end_ max part b acc file rows Hg Hr) as Ha. destruct (metric_finalize_add (Some b) file) as [[[n|e|]|] [b'|]]; try done.
  - destruct Ha as (acc' & Ea & -> & Hg'). specialize (IH b' acc' Hg'). apply gather_some in Ea as [Hv ->]. rewrite kept_app. destruct (add_all _ _) as [answers [b2|]].
    + destruct IH as (-> & Hv2 & Hg2). unfold valid_rows in *. rewrite forallb_app, Hv, app_assoc. done.
    + destruct IH as (good & seg & bad & e & -> & -> & Hf). exists ((file, rows) :: good), seg, bad, e. cbn [map flat_map snd app]. rewrite kept_app, app_assoc. done.
  - rewrite add_all_gone. exists [], (file, rows), segs, e. cbn [map flat_map snd app]. rewrite map_map, app_nil_r. done.
Qed.

(** C20. Additions gather exactly the rows of the partition. Over any readable
    segments a new builder either takes every segment, answers for each the number
    of its rows whose metric lies in the partition, and holds exactly those rows in
    their order, all with valid labels and within the limits on rows, label sets,
    extras and starts; or the first segment that cannot be taken within those
    limits is answered by an error, and the builder is gone. *)
Theorem additions_exact start end_ max b (segs : list Seg) : metric_finalize_new start end_ max part = Some b -> 0 <= max -> readable segs ->
  match add_all (Some b) (map fst segs) with
  | (answers, Some b') =>
      let gathered := kept part (flat_map snd segs) in
      answers = map counts segs /\ valid_rows (flat_map snd segs) = true /\ allowed max gathered = true /\ map (view b'.(series) b'.(extras)) b'.(rows) = gathered
  | (answers, None) => failed_at max [] segs answers
  end.
Proof.
  intros Hb Hm Hr. apply new_gathering in Hb as [Hg _]; [|done]. pose proof (add_files_exact start end_ max segs Hr b [] Hg) as Ha. destruct (add_all _ _) as [answers [b'|]]; [|done].
  destruct Ha as (-> & Hv & [_ _ _ _ _ Hg']). split_and!; [done|done|apply Hg'|apply Hg'].
Qed.
End Additions.

(** ** Partitions *)

Lemma lxor_bound n a b : 0 <= n -> 0 <= a < 2 ^ n -> 0 <= b < 2 ^ n -> 0 <= Z.lxor a b < 2 ^ n.
Proof.
  intros Hn Ha Hb. split; [apply Z.lxor_nonneg; lia|]. destruct (Z.eq_dec (Z.lxor a b) 0) as [->|Hz]; [lia|]. assert (0 <= Z.lxor a b) by (apply Z.lxor_nonneg; lia). apply Z.log2_lt_pow2; [lia|].
  pose proof (Z.log2_lxor a b ltac:(lia) ltac:(lia)) as Hl. assert (Hlog : forall c, 0 <= c < 2 ^ n -> Z.log2 c < n \/ c = 0).
  { intros c Hc. destruct (Z.eq_dec c 0); [by right|left]. apply Z.log2_lt_pow2; lia. }
  destruct (Hlog a Ha) as [Hla| ->], (Hlog b Hb) as [Hlb| ->]; [lia| |rewrite Z.lxor_0_l in *; lia|done]. rewrite Z.lxor_0_r in *. lia.
Qed.

Lemma name_hash_range name : 0 <= name_hash name < U64.
Proof.
  unfold name_hash. cbv zeta. set (h := wrap_u64 (_ * 0xc4ceb9fe1a85ec53)). assert (Hh : 0 <= h < 2 ^ 64) by (apply Z.mod_pos_bound; done). change U64 with (2 ^ 64). apply lxor_bound; [done|done|].
  rewrite Z.shiftr_div_pow2 by done. split; [apply Z.div_pos; lia|]. apply Z.le_lt_trans with h; [apply Z.div_le_upper_bound; lia|apply Hh].
Qed.

Lemma name_partition_range name count : 0 < count < 4294967296 -> 0 <= name_partition name count < count.
Proof.
  intros Hc. unfold name_partition, as_u32. pose proof (name_hash_range name) as Hh. rewrite Z.shiftr_div_pow2 by done. change (2 ^ 64) with U64.
  assert (Hq : 0 <= name_hash name * count / U64 < count) by (split; [apply Z.div_pos; [nia|done]|apply Z.div_lt_upper_bound; [done|nia]]). rewrite Z.mod_small; lia.
Qed.

(** Filtering by every value of a function splits a list. *)
Lemma buckets_cons {A} (f : A -> Z) x l ks : NoDup ks ->
  concat (map (fun i => List.filter (fun x => f x =? i) (x :: l)) ks) ≡ₚ (if bool_decide (f x ∈ ks) then [x] else []) ++ concat (map (fun i => List.filter (fun x => f x =? i) l) ks).
Proof.
  induction 1 as [|k ks Hk Hd IH]; [done|]. cbn [map concat]. rewrite IH. cbn [List.filter]. destruct (Z.eqb_spec (f x) k) as [E|E].
  - rewrite (bool_decide_eq_true_2 (f x ∈ k :: ks)) by (rewrite E; by left). rewrite (bool_decide_eq_false_2 (f x ∈ ks)) by (by rewrite E). done.
  - replace (bool_decide (f x ∈ k :: ks)) with (bool_decide (f x ∈ ks)) by (apply bool_decide_ext; rewrite elem_of_cons; tauto). rewrite app_assoc, (Permutation_app_comm (List.filter _ l)), <- app_assoc. done.
Qed.

Lemma buckets_perm {A} (f : A -> Z) l ks : NoDup ks -> Forall (fun x => f x ∈ ks) l -> concat (map (fun i => List.filter (fun x => f x =? i) l) ks) ≡ₚ l.
Proof.
  intros Hd. induction 1 as [|x l Hx _ IH]; [by induction ks as [|k ks IHk]; [|inversion_clear Hd; apply IHk]|]. rewrite buckets_cons by done. rewrite bool_decide_eq_true_2 by done. by rewrite IH.
Qed.

(** C21. The partitions of the metrics cover the rows: for every number of
    partitions each row is kept by exactly one, that of its name, whose index is
    below the number; so finalizing the partitions finalizes every row once and
    never spreads a metric over two of them. *)
Theorem partitions_cover (count : Z) (rows : list SourceRow) : 0 < count < 4294967296 ->
  (forall r i, in_part (Some (i, count)) r = true <-> i = name_partition (c_name r) count) /\
  (forall r, 0 <= name_partition (c_name r) count < count) /\
  concat (map (fun i => kept (Some (i, count)) rows) (numbers count)) ≡ₚ rows.
Proof.
  intros Hc. split_and!.
  - intros r i. unfold in_part, label_part, c_name. rewrite Z.eqb_eq. split; by intros ->.
  - intros r. by apply name_partition_range.
  - apply (buckets_perm (fun r => name_partition (c_name r) count)); [apply numbers_nodup|]. apply list.Forall_forall. intros r _. apply numbers_in. by apply name_partition_range.
Qed.

(** ** Outputs *)

Section Outputs.
Context `{SimdUtf8} `{Xxh64} {File : Type} `{Parquet File} `{SegmentWriter File} `{RollupWriter File}.
Variable capacity : Z.

(** C19. A finalization writes its plan. Whatever segments were added, calling
    [metric_finalize_next] until the builder is gone answers, one by one, the
    outputs of a plan over exactly the added rows of the partition, and ends when
    all are written or with the first writer that fails. The rows of the hour, in
    the order of metric, series and time, are cut into groups of at most the
    target rows or of one series, and at most the clamped number of names, such
    that a metric that fits lies in one of them; the rows before and after the
    hour follow. Then come the summaries of the hour, one for every label set
    that has a sample, a histogram or a conflict, exact over its rows. Every
    output stores exactly its rows with their labels, its least and greatest time,
    and lists the labels of every series of it once. *)
Theorem finalization_exact start end_ max part b0 b answers (segs : list (File * list SourceRow)) target rollup_target max_names :
  metric_finalize_new start end_ max part = Some b0 -> 0 <= max -> readable segs -> add_all (Some b0) (map fst segs) = (answers, Some b) ->
  exists number finals before after rollups os e,
    hour_plan start end_ target rollup_target (Z.max 1 (Z.min max_names 128)) (kept part (flat_map snd segs)) number finals before after rollups /\
    drained (File := File) capacity (metric_finalize_finish (Some b) target rollup_target max_names) os e /\
    written capacity number (jobs finals before after rollups) os e.
Proof.
  intros Hb Hm Hr Ha. apply new_gathering in Hb as [Hg Hse]; [|done]. pose proof (add_files_exact part start end_ max segs Hr b0 [] Hg) as Hx. rewrite Ha in Hx. destruct Hx as (_ & _ & Hg').
  by eapply finish_drains.
Qed.

End Outputs.

(** ** An hour of three rows *)

Module TierSample.
Import Concrete.

(** A file is what it holds. *)
Inductive File : Type :=
| Segment (fields : list Field) (batches : list (option (list Column)))
| Written (fields : list Field) (rows : list StoredRow)
| Rollups (aggs : list StoredAggregate).

#[global] Instance parquet : Parquet File :=
  {| load f := match f with Segment fields _ => Some (fields, []) | _ => None end;
     read_columns f _ _ := match f with Segment _ batches => Some batches | _ => None end |}.
#[global] Instance segment_writer : SegmentWriter File := {| write_batch fields rows _ _ := Some (Written fields rows) |}.
#[global] Instance rollup_writer : RollupWriter File := {| write_rollups _ aggs := Some (Rollups aggs) |}.

Definition labels_of (name : bytes) : bytes := canonical [(metric_name, name)].
Definition up : bytes := labels_of (str "up").
Definition load1 : bytes := labels_of (str "load1").
Definition sample : File :=
  Segment (schema false false false)
    [Some [Int64Array [(1, false); (2, false); (1, false)]; Int64Array [(5, false); (7, false); (12, false)]; Float64Array [(0x3ff0000000000000, false); (0, false); (0x4000000000000000, false)];
           DictionaryArray [Some 0; Some 1; Some 0] [up; load1]; StringArray [([], true); ([], true); ([], true)]]].
Definition rows : list SourceRow :=
  [mkSourceRow up 1 5 0x3ff0000000000000 no_extras; mkSourceRow load1 2 7 0 no_extras; mkSourceRow up 1 12 0x4000000000000000 no_extras].
Definition hour (part : option (Z * Z)) : Builder := Builder_new 0 10 100 part.
Definition added (part : option (Z * Z)) : Builder := default (hour part) (snd (add_all (Some (hour part)) [sample])).

Lemma sample_readable : readable [(sample, rows)].
Proof. constructor; [|constructor]. split; [vm_compute; reflexivity|]. repeat (constructor; [vm_compute; reflexivity|]). constructor. Qed.
End TierSample.
Import Concrete TierSample.

Lemma additions_exact_witness : exists b', add_all (Some (hour None)) [sample] = ([Some (Ok 3)], Some b') /\ map (view b'.(series) b'.(extras)) b'.(MetricTiers.rows) = rows.
Proof.
  exists (added None). split; [vm_compute; reflexivity|].
  pose proof (additions_exact None 0 10 100 (hour None) [(sample, rows)] eq_refl ltac:(lia) sample_readable) as Ha. cbn [map fst] in Ha.
  assert (E : add_all (Some (hour None)) [sample] = ([Some (Ok 3)], Some (added None))) by (vm_compute; reflexivity). rewrite E in Ha. apply Ha.
Defined.

Lemma partitions_cover_witness : concat (map (fun i => kept (Some (i, 3)) rows) (numbers 3)) ≡ₚ rows /\ map (fun i => len (kept (Some (i, 3)) rows)) (numbers 3) = [1; 2; 0].
Proof. split; [apply (partitions_cover 3 rows); lia|vm_compute; reflexivity]. Defined.

Lemma finalization_exact_witness : exists number finals before after rollups os e,
  hour_plan 0 10 1000 1000 8 rows number finals before after rollups /\ drained (File := File) 64 (metric_finalize_finish (Some (added None)) 1000 1000 8) os e /\
  written 64 number (jobs finals before after rollups) os e.
Proof.
  apply (finalization_exact 64 0 10 100 None (hour None) (added None) [Some (Ok 3)] [(sample, rows)] 1000 1000 8 eq_refl ltac:(lia) sample_readable). vm_compute. reflexivity.
Defined.

(** The sample as it runs: the rows of the hour, the row after it, the rollups. *)
Example sample_outputs : let answer b := metric_finalize_next (File := File) 64 b in
  let '(a1, b1) := answer (metric_finalize_finish (Some (added None)) 1000 1000 8) in
  let '(a2, b2) := answer b1 in let '(a3, b3) := answer b2 in let '(a4, b4) := answer b3 in
  (match a1 with Some (Ok (Some (Final, o, ls))) => (o.(min_ts), o.(max_ts), o.(n_rows), len ls) | _ => (0, 0, 0, 0) end,
   match a2 with Some (Ok (Some (After, o, ls))) => (o.(min_ts), o.(max_ts), o.(n_rows), len ls) | _ => (0, 0, 0, 0) end,
   match a3 with Some (Ok (Some (Rollup, o, ls))) => (o.(min_ts), o.(max_ts), o.(n_rows), len ls) | _ => (0, 0, 0, 0) end, a4, b4)
  = ((5, 7, 2, 2), (12, 12, 1, 1), (0, 0, 2, 2), Some (Ok None), None).
Proof. vm_compute. reflexivity. Qed.
