(* ===== verification/TierRead.v ===== *)
(** Reading rollups back (metric_tiers.rs, [decode_rollups]): what is read of a
    file of rollups is what was stored in it, for the buckets and labels that are
    asked for. *)

From stdpp Require Import gmap sorting.
From S2P Require Import Prelude OrdMap Utf8 External Float64 MetricValue StableHash MetricPostings MetricSegment MetricTiers TierSeries TierGroups TierRows TierSummary TierOrder TierRollups TierFinalize.

(** ** Floats as bytes *)

Lemma read_float_bytes l : Forall (fun v => 0 <= v < U64) l -> read_floats (float_bytes l) = l /\ len (float_bytes l) = 8 * len l.
Proof.
  intros Hl. assert (Hlen : forall l, length (float_bytes l) = (8 * length l)%nat).
  { clear. induction l as [|v l IH]; [done|]. unfold float_bytes in *. cbn [flat_map length]. rewrite length_app, IH. pose proof (to_le_bytes_len 8 v) as Hv. unfold len in Hv. lia. }
  split; [|unfold len; rewrite Hlen; lia]. unfold read_floats. assert (Hc : forall fuel, (length (float_bytes l) <= fuel)%nat -> map from_le_bytes (chunks8 fuel (float_bytes l)) = l); [|by apply Hc].
  induction Hl as [|v l Hv _ IH]; intros fuel Hf; [by destruct fuel|]. rewrite Hlen in Hf. cbn [length] in Hf. destruct fuel as [|fuel]; [lia|]. unfold float_bytes in *. cbn [flat_map].
  pose proof (to_le_bytes_len 8 v) as H8. assert (El : length (to_le_bytes 8 v) = 8%nat) by (unfold len in H8; lia). destruct (to_le_bytes 8 v ++ flat_map (to_le_bytes 8) l) as [|x t] eqn:E; [by destruct (to_le_bytes 8 v)|].
  cbn [chunks8 map]. rewrite <- E. rewrite take_app_length', drop_app_length', from_to_le_bytes by done. f_equal. apply IH. rewrite Hlen. lia.
Qed.

(** ** What a file of rollups holds *)

(** The columns of a batch. *)
Definition filled {A} (f : StoredAggregate -> A) (l : list StoredAggregate) : list (A * bool) := map (fun a => (f a, false)) l.
Definition reset_cell (a : StoredAggregate) : bytes * bool := match a.(s_reset_values) with Some b => (b, false) | None => ([], true) end.
Definition rollup_columns (keys : list Z) (dictionary : list bytes) (l : list StoredAggregate) : list Column :=
  [StringArray (filled s_metric_name l); DictionaryArray (map Some keys) dictionary; Int64Array (filled s_series_id l); Int64Array (filled s_bucket l); Int64Array (filled s_count l);
   Int64Array (filled s_first_ts l); Float64Array (filled s_first l); Int64Array (filled s_last_ts l); Float64Array (filled s_last l); Float64Array (filled s_min l); Float64Array (filled s_max l);
   Int64Array (filled s_changes l); Int64Array (filled s_resets l); BinaryArray (map reset_cell l); Int32Array (filled s_flags l)].

(** A batch of [l]: its keys point into the dictionary at the labels. *)
Definition batch_of (l : list StoredAggregate) (batch : option (list Column)) : Prop :=
  exists keys dictionary, batch = Some (rollup_columns keys dictionary l) /\ Forall2 (fun k a => get dictionary k = Some a.(s_canonical)) keys l.

(** The file reads as the batches of [l], under the schema of rollups with
    whatever else the writer adds to its metadata. *)
Definition reads_back {File} `{Parquet File} (file : File) (l : list StoredAggregate) : Prop :=
  exists kv batches parts, load file = Some (fst rollup_schema, kv) /\ assoc ROLLUP_KEY kv = Some ROLLUP_VERSION /\
    read_columns file 1 None = Some batches /\ Forall2 batch_of parts batches /\ concat parts = l.

(** What a finalization stores: aggregates of well-labelled series. *)
Definition storable `{SimdUtf8} (a : StoredAggregate) : Prop :=
  labels_valid a.(s_canonical) = true /\ len a.(s_canonical) < 2147483648 /\
  exists x, a = stored a.(s_canonical) x /\ 0 <= x.(a_count) /\ x.(a_resets) = len x.(a_reset_values) /\ x.(a_resets) <= I64_MAX /\ Forall (fun v => 0 <= v < U64) x.(a_reset_values).

Definition agg_row (key : Z) (a : StoredAggregate) : AggRow :=
  mkAggRow (Some key) (mkAggregate 0 a.(s_series_id) a.(s_bucket) a.(s_count) a.(s_first_ts) a.(s_first) a.(s_last_ts) a.(s_last) a.(s_min) a.(s_max) a.(s_changes) a.(s_resets) [] a.(s_flags) 0) a.(s_reset_values).

Lemma numbers_seq n : numbers (Z.of_nat n) = map Z.of_nat (seq 0 n).
Proof. unfold numbers. by rewrite Nat2Z.id. Qed.

Lemma open_columns keys dictionary l : length keys = length l -> open_rollups (rollup_columns keys dictionary l) = Ok (dictionary, zip_with agg_row keys l).
Proof.
  intros Hl. remember (zip_with agg_row keys l) as z eqn:Ez. unfold open_rollups, column, rollup_columns. cbn [get len length]. cbv beta iota zeta delta [get]. cbn. do 2 f_equal. unfold len. rewrite length_map, numbers_seq, map_map. subst z. apply list_eq. intros i.
  rewrite list_lookup_fmap, lookup_zip_with. destruct (decide (i < length keys)%nat) as [Hi|Hi].
  2: { assert (Ek : keys !! i = None) by (apply lookup_ge_None_2; lia). assert (Es : seq 0 (length keys) !! i = None) by (apply lookup_ge_None_2; rewrite length_seq; lia). rewrite Es, Ek. done. }
  rewrite lookup_seq_lt by done. cbn [fmap option_fmap option_map Nat.add]. destruct (lookup_lt_is_Some_2 keys i Hi) as [k Hk], (lookup_lt_is_Some_2 l i ltac:(lia)) as [a Ha]. rewrite Hk, Ha. cbn [mbind option_bind].
  rewrite (proj2 (Z.leb_le 0 (Z.of_nat i))), (proj2 (Z.ltb_lt (Z.of_nat i) _)), Nat2Z.id by lia. cbn [andb].
  assert (Hv : forall {A} (d : A) f, value_at d (filled f l) (Z.of_nat i) = f a) by (intros A d f; unfold value_at, filled; rewrite get_lookup, list_lookup_fmap, Ha; done).
  unfold agg_row, present_at. rewrite !Hv, !get_lookup, !list_lookup_fmap, Hk, Ha. cbn. unfold reset_cell. by destruct (s_reset_values a).
Qed.

(** ** Reading the rows *)

Definition in_buckets (start end_ : option Z) (bucket : Z) : bool :=
  match start with Some s => s <=? bucket | None => true end && match end_ with Some e => bucket <=? e | None => true end.

Section Reading.
Context `{SimdUtf8}.
Variables (start end_ : option Z) (matches : bytes -> bool).

Definition selected (a : StoredAggregate) : bool := in_buckets start end_ a.(s_bucket) && matches a.(s_canonical).

(** The memo remembers what the labels answered. *)
Definition memo_ok (m : Memo) : Prop := match m with Some (c, b) => b = matches c | None => True end.

Lemma keep_exact m c bucket : memo_ok m -> exists m', keep_rollup start end_ matches m c bucket = (in_buckets start end_ bucket && matches c, m') /\ memo_ok m'.
Proof.
  intros Hm. unfold keep_rollup, in_buckets.
  replace (from_option (fun s => bucket <? s) false start || from_option (fun e => e <? bucket) false end_)
    with (negb (match start with Some s => s <=? bucket | None => true end && match end_ with Some e => bucket <=? e | None => true end)).
  2: { destruct start as [s|], end_ as [e|]; cbn; rewrite ?negb_andb, ?Z.leb_antisym, ?negb_involutive; cbn; rewrite ?orb_false_r; done. }
  destruct (_ && _); cbn [negb andb]; [|by exists m]. destruct m as [[d b]|]; [|by eexists]. destruct (bytes_eqb d c) eqn:E; [|by eexists]. apply bytes_eqb_eq in E as ->. cbn in Hm. exists (Some (c, b)). by rewrite Hm.
Qed.

(** What was read of [l]; [D] has its labels. *)
Record reading (D : gset bytes) (s : Series) (out : list Aggregate) (l : list StoredAggregate) : Prop := mkReading {
  rd_series : series_ok s;
  rd_in : forall c, c ∈ s.(canonicals) -> c ∈ D;
  rd_known : Forall (fun a => known s a.(a_series)) out;
  rd_out : map (fun a => stored (canonical_of s a.(a_series)) a) out = List.filter selected l
}.

Lemma reading_room D s out l c : reading D s out l -> Z.of_nat (size D) <= MAX_SERIES -> c ∈ D -> c ∈ s.(canonicals) \/ len s.(canonicals) < MAX_SERIES.
Proof.
  intros [Hs Hin _ _] HD Hc. destruct (decide (c ∈ s.(canonicals))) as [|Hn]; [by left|right].
  assert (Hsub : list_to_set (c :: s.(canonicals)) ⊆ D) by (intros d Hd; apply elem_of_list_to_set, elem_of_cons in Hd as [->|Hd]; [done|by apply Hin]).
  apply subseteq_size in Hsub. rewrite size_list_to_set in Hsub by (constructor; [done|by apply series_distinct]). cbn in Hsub. unfold len. lia.
Qed.

Lemma reading_extends D s s' out l : extends s s' -> series_ok s' -> (forall c, c ∈ s'.(canonicals) -> c ∈ D) -> reading D s out l -> reading D s' out l.
Proof.
  intros He Hs Hin [_ _ Hk Ho]. rewrite list.Forall_forall in Hk. split; [done|done| |].
  - apply list.Forall_forall. intros a Ha. by eapply known_extends, Hk.
  - rewrite <- Ho. apply map_ext_in. intros a Ha%list_elem_of_In. by rewrite (proj2 (known_extends s s' _ He (Hk a Ha))).
Qed.

(** A stored aggregate as it is read. *)
Definition as_read (i : Z) (a : StoredAggregate) (values : list Z) : Aggregate :=
  mkAggregate i a.(s_series_id) a.(s_bucket) a.(s_count) a.(s_first_ts) a.(s_first) a.(s_last_ts) a.(s_last) a.(s_min) a.(s_max) a.(s_changes) a.(s_resets) values a.(s_flags) 0.

Lemma values_exact a : storable a -> exists values,
  match a.(s_reset_values) with None => Ok [] | Some b => if negb (len b mod 8 =? 0) then Err Invalid else Ok (read_floats b) end = (Ok values : Res (list Z)) /\
  ((a.(s_count) <? 0) || negb (as_i64 (len values) =? a.(s_resets))) = false /\ forall i, stored a.(s_canonical) (as_read i a values) = a.
Proof.
  intros (_ & _ & x & E & Hc & Hr & Hm & Hv). exists x.(a_reset_values). destruct (read_float_bytes _ Hv) as [Hread Hlen]. split_and!.
  - rewrite E. cbn [stored s_reset_values]. destruct (a_reset_values x) as [|v l] eqn:Ex; [done|]. rewrite Hread, Hlen. by rewrite Z.mul_comm, Z.mod_mul.
  - rewrite E. cbn [stored s_count s_resets]. apply orb_false_iff. split; [apply Z.ltb_ge; lia|]. apply negb_false_iff, Z.eqb_eq. rewrite Hr in *. pose proof (len_nonneg (a_reset_values x)). unfold as_i64, I64_MAX, wrap_u64, U64 in *. cbv zeta. rewrite Z.mod_small by lia. by rewrite (proj2 (Z.leb_le _ _)).
  - intros i. rewrite E. unfold as_read, stored. cbn. done.
Qed.

Lemma read_step D dictionary s interned m out l key a : reading D s out l -> interned_ok None dictionary s interned -> memo_ok m -> Z.of_nat (size D) <= MAX_SERIES ->
  storable a -> get dictionary key = Some a.(s_canonical) -> a.(s_canonical) ∈ D ->
  exists s' interned' m' out', read_aggregate (keep_rollup start end_ matches) dictionary (s, interned, m, out) (agg_row key a) = Ok (s', interned', m', out') /\
    reading D s' out' (l ++ [a]) /\ interned_ok None dictionary s' interned' /\ memo_ok m'.
Proof.
  intros Hrd Hi Hm HD Ha Hkey Hin. unfold read_aggregate. cbn [agg_row q_key ok_or q_row a_bucket q_resets a_count a_resets]. rewrite Hkey. unfold default at 1, from_option, id.
  destruct (keep_exact m a.(s_canonical) a.(s_bucket) Hm) as (m' & -> & Hm'). destruct (_ && _) eqn:Esel; cbn [negb].
  2: { exists s, interned, m', out. split_and!; try done. destruct Hrd as [? ? ? Ho]. split; try done. rewrite List.filter_app, Ho. cbn. unfold selected. by rewrite Esel, app_nil_r. }
  assert (Hpush : forall s' i, reading D s' out l -> get s'.(canonicals) i = Some a.(s_canonical) -> forall values, (forall j, stored a.(s_canonical) (as_read j a values) = a) -> reading D s' (out ++ [as_read i a values]) (l ++ [a])).
  { intros s' i [H1 H2 H3 H4] Hg values Hst. split; [done|done|apply Forall_app; split; [done|]; constructor; [by apply get_Some_bound in Hg|constructor]|].
    rewrite map_app, H4, List.filter_app. f_equal. cbn [map List.filter]. unfold selected. rewrite Esel. f_equal. unfold canonical_of. cbn [as_read a_series]. rewrite Hg. apply Hst. }
  destruct (values_exact a Ha) as (values & Ev & Ec & Hst). destruct Ha as (Hval & Hlen & _). destruct Hi as [Hl Hi]. destruct (get_is_Some interned key) as [v Hv]; [apply get_Some_bound in Hkey; unfold len in *; lia|]. rewrite Hv.
  unfold default, from_option, id. destruct (Z.eqb_spec v U32_MAX) as [->|Hne].
  - pose proof (rd_series _ _ _ _ Hrd) as Hs. destruct (intern_exact s a.(s_canonical) Hs ltac:(lia) Hval) as [Hx Hroom]. destruct (Hroom (reading_room D s out l _ Hrd HD Hin)) as (s' & i & Ei). rewrite Ei in Hx |- *. destruct Hx as (Hs' & He & Hg & Hel).
    rewrite Ev, Ec. assert (Hrd' : reading D s' out l). { eapply reading_extends; [exact He|done| |done]. intros d [Hd| ->]%Hel; [by apply (rd_in _ _ _ _ Hrd)|done]. }
    eexists s', _, m', _. split; [reflexivity|]. split_and!; [by apply Hpush| |done]. eapply interned_insert; [eapply interned_extends; [exact He|by split]|exact Hkey|done|]. right. by split.
  - destruct (Hi key v Hv) as [?|(c & Hc & _ & [[_ Hf]|[Hg _]])]; [done|done|]. rewrite Ev, Ec. assert (c = a.(s_canonical)) as -> by congruence. eexists s, interned, m', _. split; [reflexivity|]. split_and!; [by apply Hpush|by split|done].
Qed.

Abbreviation keep := (keep_rollup start end_ matches).

Lemma read_rows_exact D dictionary : Z.of_nat (size D) <= MAX_SERIES -> forall keys l, Forall2 (fun k a => get dictionary k = Some a.(s_canonical)) keys l ->
  Forall storable l -> Forall (fun a => a.(s_canonical) ∈ D) l -> forall s interned m out done_, reading D s out done_ -> interned_ok None dictionary s interned -> memo_ok m ->
  exists s' interned' m' out', foldM (read_aggregate keep dictionary) (s, interned, m, out) (zip_with agg_row keys l) = Ok (s', interned', m', out') /\ reading D s' out' (done_ ++ l) /\ memo_ok m'.
Proof.
  intros HD keys l. induction 1 as [|k a keys l Hk _ IH]; intros Hst Hin s interned m out done_ Hrd Hi Hm; [exists s, interned, m, out; by rewrite app_nil_r|].
  inversion_clear Hst as [|? ? Ha Hst']. inversion_clear Hin as [|? ? Hain Hin']. cbn [zip_with foldM].
  destruct (read_step D dictionary s interned m out done_ k a Hrd Hi Hm HD Ha Hk Hain) as (s1 & i1 & m1 & o1 & -> & Hrd1 & Hi1 & Hm1).
  destruct (IH Hst' Hin' s1 i1 m1 o1 _ Hrd1 Hi1 Hm1) as (s2 & i2 & m2 & o2 & E & Hrd2 & Hm2). exists s2, i2, m2, o2. rewrite <- app_assoc in Hrd2. done.
Qed.

Lemma interned_fresh dictionary s : interned_ok None dictionary s (replicate (length dictionary) U32_MAX).
Proof.
  split; [by rewrite length_replicate|]. intros key v Hv. left. apply get_Some_elem in Hv. by apply elem_of_replicate_inv in Hv.
Qed.

Lemma read_batches_exact D parts batches : Z.of_nat (size D) <= MAX_SERIES -> Forall2 batch_of parts batches -> Forall storable (concat parts) -> Forall (fun a => a.(s_canonical) ∈ D) (concat parts) ->
  forall s m out done_, reading D s out done_ -> memo_ok m ->
  exists s' m' out', foldM (read_batch keep) (s, m, out) batches = Ok (s', m', out') /\ reading D s' out' (done_ ++ concat parts).
Proof.
  intros HD. induction 1 as [|l batch parts batches (keys & dictionary & -> & Hk) _ IH]; intros Hst Hin s m out done_ Hrd Hm; [exists s, m, out; by rewrite app_nil_r|].
  cbn [concat] in *. apply Forall_app in Hst as [Hst1 Hst2], Hin as [Hin1 Hin2]. cbn [foldM]. unfold read_batch at 1. cbn [ok_or]. cbv iota. rewrite open_columns by (by eapply Forall2_length).
  destruct (read_rows_exact D dictionary HD keys l Hk Hst1 Hin1 s _ m out done_ Hrd (interned_fresh _ _) Hm) as (s1 & i1 & m1 & o1 & -> & Hrd1 & Hm1).
  destruct (IH Hst2 Hin2 s1 m1 o1 _ Hrd1 Hm1) as (s2 & m2 & o2 & E & Hrd2). exists s2, m2, o2. by rewrite app_assoc.
Qed.
End Reading.

(** ** What a finalization stores can be read *)

Lemma samples_bound vs samples : samples_exact vs samples -> len samples <= len vs /\ forall ts v, (ts, v) ∈ samples -> exists r, r ∈ vs /\ r.(sr_ts) = ts /\ r.(sr_value) = v.
Proof.
  intros [Ho He]. assert (Hin : forall ts v, (ts, v) ∈ samples -> exists r, r ∈ vs /\ r.(sr_ts) = ts /\ r.(sr_value) = v) by (intros ts v [(r & Hr & Hts & _ & Hv & _) _]%He; by exists r).
  split; [|done]. assert (Hd : NoDup (map fst samples)).
  { clear -Ho. induction Ho as [|x l _ IH Hf]; [constructor|]. cbn. constructor; [|done]. intros (y & E & Hy)%list_elem_of_fmap. rewrite list.Forall_forall in Hf. specialize (Hf y Hy). lia. }
  assert (Hsub : map fst samples ⊆ map sr_ts vs) by (intros t ([t' v] & -> & Hx)%list_elem_of_fmap; destruct (Hin t' v Hx) as (r & Hr & E & _); apply list_elem_of_fmap; by exists r).
  pose proof (submseteq_length _ _ (NoDup_submseteq _ _ Hd Hsub)) as Hl. rewrite !length_map in Hl. unfold len. lia.
Qed.

Lemma windows2_in {A} (l : list A) e : e ∈ windows2 l -> fst e ∈ l.
Proof.
  induction l as [|x [|y l] IH]; [intros He; by apply elem_of_nil in He..|]. cbn [windows2]. intros [->|He]%elem_of_cons; [by left|right; by apply IH].
Qed.

Lemma len_windows2 {A} (l : list A) : len (windows2 l) <= len l.
Proof. induction l as [|x [|y l] IH]; [done|done|]. cbn [windows2] in *. rewrite !(len_cons x), (len_cons (x, y)). lia. Qed.

Lemma len_filter {A} (f : A -> bool) l : len (List.filter f l) <= len l.
Proof. induction l as [|x l IH]; [done|]. cbn. destruct (f x); rewrite ?len_cons; lia. Qed.

Lemma summary_storable `{SimdUtf8} start vs c x : summary start vs x -> labels_valid c = true -> len c < 2147483648 -> len vs <= I64_MAX -> Forall (fun r => 0 <= r.(sr_value) < U64) vs -> storable (stored c x).
Proof.
  intros (samples & k & r & -> & Hs & _) Hv Hc Hl Hu. destruct (samples_bound vs samples Hs) as [Hb Hin]. split_and!; [done|done|]. eexists. split; [reflexivity|]. cbn [aggregate_of a_count a_resets a_reset_values]. split_and!.
  - apply len_nonneg.
  - by rewrite len_map.
  - pose proof (len_filter reset (steps samples)). pose proof (len_windows2 (values samples)). unfold steps, values in *. rewrite len_map in *. lia.
  - apply list.Forall_forall. intros v (e & -> & [He _]%in_filter)%list_elem_of_fmap. apply windows2_in in He. apply list_elem_of_fmap in He as ([ts v] & -> & Hx). destruct (Hin ts v Hx) as (q & Hq & _ & <-). rewrite list.Forall_forall in Hu. by apply Hu.
Qed.

(** C22. Rollups are read back as they were stored. Of a file that holds the
    aggregates a finalization stored, in whatever batches and dictionaries the
    writer chose, [decode_rollups] answers exactly those whose bucket lies in the
    range and whose labels match, in their order and with every field, the values
    before resets included, and gives each the series of its labels. *)
Theorem rollups_roundtrip `{SimdUtf8} {File} `{Parquet File} (compile : bytes -> option Regex) (file : File) (l : list StoredAggregate) start end_ matchers regexes :
  reads_back file l -> Forall storable l -> Z.of_nat (size (list_to_set (map s_canonical l) : gset bytes)) <= MAX_SERIES -> compile_regexes compile matchers = Ok regexes ->
  exists s rows, decode_rollups compile file start end_ matchers = Ok (s, rows) /\ series_ok s /\
    map (fun a => stored (canonical_of s a.(a_series)) a) rows = List.filter (selected start end_ (series_matches matchers regexes)) l.
Proof.
  intros (kv & batches & parts & Eload & Ekv & Eread & Hp & <-) Hst HD Hre. unfold decode_rollups. rewrite Hre. unfold read_rollups. rewrite Eload. cbn [ok_or]. cbv iota.
  replace (is_rollup (fst rollup_schema, kv)) with true by (unfold is_rollup; cbn [fst snd]; by rewrite Ekv). cbn [negb]. change (get (fst (fst rollup_schema, kv)) 1) with (Some (mkField (str "labels_canonical") DBinary false)). cbn [ok_or data_type]. cbv iota. rewrite bool_decide_eq_true_2 by done. cbn [negb]. rewrite Eread. cbn [ok_or]. cbv iota.
  set (D := list_to_set (map s_canonical (concat parts)) : gset bytes) in *.
  destruct (read_batches_exact start end_ (series_matches matchers regexes) D parts batches HD Hp Hst) with (s := Series_default) (m := @None (bytes * bool)) (out := @nil Aggregate) (done_ := @nil StoredAggregate) as (s & m & out & -> & Hrd); [| |done|].
  - apply list.Forall_forall. intros a Ha. apply elem_of_list_to_set. by apply list_elem_of_fmap_2.
  - split; [apply series_default_ok|intros c Hc; by apply elem_of_nil in Hc|constructor|done].
  - exists s, out. split_and!; [done|apply Hrd|apply Hrd].
Qed.

(** ** Two rollups *)

Module RollupFile.
Import Concrete.

(** A file of one batch, every row with its own dictionary entry. *)
Definition File : Type := list StoredAggregate.
#[global] Instance parquet : Parquet File :=
  {| load _ := Some (fst rollup_schema, [(ROLLUP_KEY, ROLLUP_VERSION)]);
     read_columns l _ _ := Some [Some (rollup_columns (numbers (len l)) (map s_canonical l) l)] |}.

Definition labels_of (name : bytes) : bytes := canonical [(metric_name, name)].
(** 5.0 and then 3.0, a reset; and one sample of another series an hour later. *)
Definition file : File :=
  [stored (labels_of (str "up")) (aggregate_of 0 7 0 [(1, 0x4014000000000000); (2, 0x4008000000000000)] false false);
   stored (labels_of (str "load1")) (aggregate_of 1 8 3600 [(3601, 0x4014000000000000)] false true)].
End RollupFile.

Lemma rollups_roundtrip_witness : exists s rows,
  decode_rollups (fun _ => None) RollupFile.file None (Some 10) [] = Ok (s, rows) /\
  map (fun a => stored (canonical_of s a.(a_series)) a) rows = take 1 RollupFile.file /\ map a_reset_values rows = [[0x4014000000000000]].
Proof.
  destruct (rollups_roundtrip (fun _ => None) RollupFile.file RollupFile.file None (Some 10) [] []) as (s & rows & E & _ & Hr).
  - exists [(ROLLUP_KEY, ROLLUP_VERSION)], [Some (rollup_columns [0; 1] (map s_canonical RollupFile.file) RollupFile.file)], [RollupFile.file].
    split_and!; [reflexivity|vm_compute; reflexivity|reflexivity| |reflexivity]. constructor; [|constructor]. exists [0; 1], (map s_canonical RollupFile.file). split; [reflexivity|]. repeat constructor.
  - assert (Hst : forall c x, labels_valid c = true -> (len c <? 2147483648) = true -> (0 <=? a_count x) && (a_resets x =? len (a_reset_values x)) && (a_resets x <=? I64_MAX) && forallb (fun v => (0 <=? v) && (v <? U64)) (a_reset_values x) = true -> storable (stored c x)).
    { intros c x Hv Hl Hb. apply andb_true_iff in Hb as [Hb Hf], Hb as [Hb H3], Hb as [H1 H2]. split_and!; [done|by apply Z.ltb_lt|]. exists x. split_and!; [done|by apply Z.leb_le|by apply Z.eqb_eq|by apply Z.leb_le|].
      apply Forall_forall. intros v Hin. rewrite forallb_forall in Hf. specialize (Hf v Hin). lia. }
    constructor; [apply Hst; vm_compute; reflexivity|]. constructor; [apply Hst; vm_compute; reflexivity|]. constructor.
  - vm_compute. discriminate.
  - reflexivity.
  - exists s, rows. split; [exact E|]. rewrite Hr. split; [vm_compute; reflexivity|]. assert (Ed : exists s, decode_rollups (fun _ => None) RollupFile.file None (Some 10) [] = Ok (s, rows) /\ map a_reset_values rows = [[0x4014000000000000]]); [|by destruct Ed as (? & _ & ?)].
    exists s. split; [exact E|]. revert E. vm_compute. intros E. by injection E as _ <-.
Defined.
