(* ===== verification/TraceMetrics.v ===== *)
(** TraceQL metrics (trace_metrics.rs): spans of stored segments are selected,
    measured and reduced per series and interval, a second stage ranks the
    series, and the answer is written as JSON or as packed arrays.

    Floats are their bits. The functions of the platform's mathematical library
    are a parameter, and so are the rows of a segment. *)

From Stdlib Require Import SpecFloat.
From stdpp Require Import gmap.
From S2P Require Import Prelude Utf8 External Float64 OrdMap Out JsonWrite JsonRead TraceFields Structural TempoExpression TraceMetadata.

(** ** Floats *)

Definition F64_ONE : Z := 0x3FF0000000000000.
Definition F64_TWO : Z := 0x4000000000000000.
(** 1e9. *)
Definition F64_BILLION : Z := 0x41CDCD6500000000.
Definition f64_mul (a b : Z) : Z := bits_of_spec (SFmul 53 1024 (spec_of_bits a) (spec_of_bits b)).
Definition f64_sub (a b : Z) : Z := bits_of_spec (SFsub 53 1024 (spec_of_bits a) (spec_of_bits b)).
Definition f64_div (a b : Z) : Z := bits_of_spec (SFdiv 53 1024 (spec_of_bits a) (spec_of_bits b)).

(** The least integer that is not below, a zero with the sign of the value. *)
Definition f64_ceil (b : Z) : Z :=
  match spec_of_bits b with
  | S754_finite s m e =>
      if 0 <=? e then b
      else
        let q := 2 ^ (- e) in
        let n := if s then - (Z.pos m / q) else (Z.pos m + q - 1) / q in
        if n =? 0 then 0x8000000000000000 else f64_of_Z n
  | _ => b
  end.

(** [as u64]: toward zero, saturating, zero for NaN. *)
Definition f64_as_u64 (b : Z) : Z :=
  match spec_of_bits b with
  | S754_finite s m e => let n := if 0 <=? e then Z.pos m * 2 ^ e else Z.pos m / 2 ^ (- e) in if s then 0 else sat_u64 n
  | S754_infinity s => if s then 0 else U64_MAX
  | _ => 0
  end.

(** [total_cmp] compares these integers. *)
Definition total_key (b : Z) : Z := if 0x8000000000000000 <=? b then 0x8000000000000000 - b - 1 else b.

(** [text.parse::<f64>()]. *)
Definition lower (c : Z) : Z := if (65 <=? c) && (c <=? 90) then c + 32 else c.
Definition strip_sign (text : bytes) : bool * bytes :=
  match text with c :: l => if c =? 45 then (true, l) else if c =? 43 then (false, l) else (false, text) | [] => (false, text) end.
Definition exponent_ok (t : bytes) : bool :=
  match t with
  | [] => true
  | e :: t => ((e =? 101) || (e =? 69)) && (let '(_, d) := strip_sign t in negb (bool_decide (d = [])) && forallb is_digit d)
  end.
Definition f64_parse (text : bytes) : option Z :=
  let '(neg, t) := strip_sign text in
  let word := map lower t in
  let sign := if neg then 0x8000000000000000 else 0 in
  if bytes_eqb word (str "nan") then Some (sign + F64_NAN)
  else if bytes_eqb word (str "inf") || bytes_eqb word (str "infinity") then Some (sign + F64_INFINITY)
  else
    let (ints, r) := span is_digit t in
    let '(fracs, r) := match r with 46 :: r => span is_digit r | _ => ([], r) end in
    if (bool_decide (ints = []) && bool_decide (fracs = [])) || negb (exponent_ok r) then None
    else Some (parse_f64 (if neg then text else t)).

(** Which zero the least or greatest of two zeros is, and how logarithms and
    powers round, is left to the platform. *)
Class Libm : Type := {
  f64_min : Z -> Z -> Z;
  f64_max : Z -> Z -> Z;
  f64_log2 : Z -> Z;
  f64_powf : Z -> Z -> Z;
  f64_min_spec : forall a b, f64_is_nan a = false -> f64_is_nan b = false -> (f64_min a b = a \/ f64_min a b = b) /\ f64_le (f64_min a b) a = true /\ f64_le (f64_min a b) b = true;
  f64_max_spec : forall a b, f64_is_nan a = false -> f64_is_nan b = false -> (f64_max a b = a \/ f64_max a b = b) /\ f64_le a (f64_max a b) = true /\ f64_le b (f64_max a b) = true
}.

(** ** Data *)

Definition MAX_SERIES : Z := 10000.
Definition MAX_POINTS : Z := 2000000.
Definition MAX_OUTPUT : Z := 64 * 1024 * 1024.
Definition MAX_WORK : Z := 20000000.
Definition KINDS : list bytes := [str "unspecified"; str "internal"; str "server"; str "client"; str "producer"; str "consumer"].
Definition STATUSES : list bytes := [str "unset"; str "ok"; str "error"].

Inductive Lookup : Type := LSpan (key : bytes) | LResource (key : bytes) | LUnscoped (key : bytes) | LName | LStatus | LKind | LDuration | LSpanId.
Definition original (l : Lookup) : bool := match l with LSpan _ | LResource _ | LUnscoped _ => true | _ => false end.

Inductive Op : Type := Count | Rate | Min | Max | Sum | Avg | Histogram | Quantile (qs : list Z).
Definition op_name (o : Op) : bytes :=
  match o with
  | Count => str "count_over_time" | Rate => str "rate" | Min => str "min_over_time" | Max => str "max_over_time" | Sum => str "sum_over_time"
  | Avg => str "avg_over_time" | Histogram => str "histogram_over_time" | Quantile _ => str "quantile_over_time"
  end.
Definition bucketed (o : Op) : bool := match o with Histogram | Quantile _ => true | _ => false end.
Definition zero_filled (o : Op) : bool := match o with Count | Rate | Histogram | Quantile _ => true | _ => false end.

Record Mapper : Type := mkMapper { m_start : Z; m_end : Z; m_step : Z; m_instant : bool; m_count : Z }.

(** Intervals are open on the left and closed on the right. *)
Definition interval (m : Mapper) (ts : Z) : option Z :=
  if m.(m_instant) then
    if (m.(m_start) <=? ts) && (ts <=? m.(m_end)) && negb (m.(m_end) =? m.(m_start)) then Some 0 else None
  else if (ts <=? m.(m_start)) || (m.(m_end) <? ts) || (m.(m_step) =? 0) then None
  else
    let offset := ts - m.(m_start) in
    let i := offset / m.(m_step) in
    let i := if i * m.(m_step) =? offset then i - 1 else i in
    if i <? m.(m_count) then Some i else None.

Definition timestamp_ms (m : Mapper) (i : Z) : Z :=
  let ns := if m.(m_instant) then m.(m_end) else wrap_u64 (m.(m_start) + wrap_u64 ((i + 1) * m.(m_step))) in as_i64 (ns / 1000000).

Abbreviation Labels := (list (option bytes)).
Abbreviation Key := (Labels * option Z)%type.
Record Observation : Type := mkObservation { o_interval : Z; o_key : Key; o_value : Z }.
(** The labels of a finished series and its values. *)
Abbreviation Final := (list (bytes * bytes) * list Z)%type.
Record Series : Type := mkSeries { s_values : list Z; s_counts : list Z }.
Record Budgets : Type := mkBudgets { b_series : Z; b_points : Z; b_work : Z; b_labels : Z }.
Definition Budget_default : Budgets := mkBudgets 0 0 0 0.

(** ** The second stage *)

Record Ranking : Type := mkRanking { r_top : bool; r_k : Z; prefilter : option (bytes * Z) }.

Definition comparisons : list bytes := [str "="; str "!="; str "<"; str "<="; str ">"; str ">="].
Definition Ranking_new (op : bytes) (k : Z) (filter : option (bytes * Z)) : Answer Ranking :=
  if (k =? 0) || negb (eqs op "topk" || eqs op "bottomk")
     || match filter with Some (c, v) => negb (among c comparisons) || negb (f64_is_finite v) | None => false end then Err Invalid
  else Ok (mkRanking (eqs op "topk") k filter).

Definition holds (op : bytes) (v threshold : Z) : bool :=
  if eqs op "=" then f64_eq v threshold
  else if eqs op "!=" then negb (f64_eq v threshold)
  else if eqs op "<" then f64_lt v threshold
  else if eqs op "<=" then f64_le v threshold
  else if eqs op ">" then f64_lt threshold v
  else f64_le threshold v.

Definition any_value (values : list Z) : bool := existsb (fun v => negb (f64_is_nan v)) values.

(** The candidates of an interval, the best first; ties favour earlier series
    for the largest values and later ones for the smallest. *)
Definition candidates (finals : list Final) (i : Z) : list (Z * Z) :=
  flat_map (fun '(s, f) => match get (snd f) i with Some v => if f64_is_nan v then [] else [(s, v)] | None => [] end)
    (zip (map Z.of_nat (seq 0 (length finals))) finals).
Definition best_leb (top : bool) (a b : Z * Z) : bool :=
  if top then (total_key (snd b) <? total_key (snd a)) || ((total_key (snd a) =? total_key (snd b)) && (fst a <=? fst b))
  else (total_key (snd a) <? total_key (snd b)) || ((total_key (snd a) =? total_key (snd b)) && (fst b <=? fst a)).
Definition winners (finals : list Final) (top : bool) (k i : Z) : list (Z * Z) := take (Z.to_nat k) (sort_by (best_leb top) (candidates finals i)).

Definition keep_winner (kept : list (list Z)) (w : Z * Z * Z) : list (list Z) :=
  let '(s, i, v) := w in alter (fun l => <[Z.to_nat i := v]> l) (Z.to_nat s) kept.
Definition indices (n : Z) : list Z := map Z.of_nat (seq 0 (Z.to_nat n)).
Definition select_k (finals : list Final) (top : bool) (k intervals : Z) : list Final :=
  if len finals <=? k then finals
  else
    let won := flat_map (fun i => map (fun '(s, v) => (s, i, v)) (winners finals top k i)) (indices intervals) in
    let kept := fold_left keep_winner won (replicate (length finals) (replicate (Z.to_nat intervals) F64_NAN)) in
    List.filter (fun f => any_value (snd f)) (zip_with (fun f values => (fst f, values)) finals kept).

Definition set_work (b : Budgets) (n : Z) : Budgets := mkBudgets b.(b_series) b.(b_points) n b.(b_labels).

(** Every slot is charged before it is filtered. *)
Definition apply (r : Ranking) (finals : list Final) (intervals : Z) (b : Budgets) : Answer (list Final * Budgets) :=
  let? (finals, b) :=
    match r.(prefilter) with
    | None => Ok (finals, b)
    | Some (op, threshold) =>
        let points := fold_right Z.add 0 (map (fun f => len (snd f)) finals) in
        let? work := ok_or (checked_u64 (b.(b_work) + points)) Budget in
        if MAX_WORK <? work then Err Budget
        else
          let kept := map (fun f => (fst f, map (fun v => if negb (f64_is_nan v) && holds op v threshold then v else F64_NAN) (snd f))) finals in
          Ok (List.filter (fun f => any_value (snd f)) kept, set_work b work)
    end in
  Ok (select_k finals r.(r_top) r.(r_k) intervals, b).

(** ** The state *)

Section Metrics.
Context {Regex : Type} (anchored : bytes -> option Regex) (is_match : Regex -> bytes -> bool).
Context `{SimdUtf8} `{Memchr2} `{Libm}.

Record State : Type := mkState {
  program : option (Expression (Regex := Regex)); root_only : bool; needs_attributes : bool; requires_originals : bool;
  s_op : Op; s_value : option Lookup; s_by : list (Lookup * bytes); s_mapper : Mapper; second : option Ranking;
  series : gmap Key Series
}.
Record Batch : Type := mkBatch { states : list State; b_budget : Budgets }.

Definition lookup_of (scope key : bytes) : Answer Lookup :=
  if eqs scope "span" && negb (bool_decide (key = [])) then Ok (LSpan key)
  else if eqs scope "resource" && negb (bool_decide (key = [])) then Ok (LResource key)
  else if eqs scope "unscoped" && negb (bool_decide (key = [])) then Ok (LUnscoped key)
  else if eqs scope "intrinsic" then
    if eqs key "name" then Ok LName
    else if eqs key "status" then Ok LStatus
    else if eqs key "kind" then Ok LKind
    else if eqs key "duration" then Ok LDuration
    else if eqs key "id" then Ok LSpanId
    else Err Invalid
  else Err Invalid.

Definition op_of (op : bytes) (quantiles : list Z) : Answer Op :=
  if eqs op "count_over_time" then Ok Count
  else if eqs op "rate" then Ok Rate
  else if eqs op "min_over_time" then Ok Min
  else if eqs op "max_over_time" then Ok Max
  else if eqs op "sum_over_time" then Ok Sum
  else if eqs op "avg_over_time" then Ok Avg
  else if eqs op "histogram_over_time" then Ok Histogram
  else if eqs op "quantile_over_time" && negb (bool_decide (quantiles = [])) && forallb (fun q => f64_le 0 q && f64_le q F64_ONE) quantiles then Ok (Quantile quantiles)
  else Err Invalid.

Definition is_span_id (l : option Lookup) : bool := match l with Some LSpanId => true | _ => false end.
Definition counts_spans (o : Op) : bool := match o with Count | Rate => true | _ => false end.

(** The window of the arguments. *)
Definition Mapper_new (start end_ step : Z) (instant : bool) : Answer Mapper :=
  if (end_ <=? start) || (step =? 0) || (instant && negb (step =? end_ - start)) then Err Invalid
  else
    let count := if instant then 1 else (end_ - start) / step in
    if (count =? 0) || (11000 <? count) then Err Invalid else Ok (mkMapper start end_ step instant count).

Definition trace_metrics_new (words : option (list Word)) (root_only : bool) (op : bytes) (quantiles : list Z) (value : option (bytes * bytes))
    (by_ : list (bytes * bytes * bytes)) (window : Z * Z * Z * bool) (second : option (bytes * Z * option (bytes * Z))) : Answer Batch :=
  let? program :=
    match words with
    | None => Ok None
    | Some words =>
        match compile anchored words with
        | Some e => if span_local e then Ok (Some e) else Err Invalid
        | None => Err Invalid
        end
    end in
  let? op := op_of op quantiles in
  let? value := match value with Some (scope, key) => let? l := lookup_of scope key in Ok (Some l) | None => Ok None end in
  if negb (Bool.eqb (counts_spans op) (negb (is_some value))) || (5 <? len by_) || is_span_id value then Err Invalid
  else
    let? by_ := foldM (fun out '(scope, key, label) => let? l := lookup_of scope key in Ok (out ++ [(l, label)])) [] by_ in
    let? second := match second with Some (op, k, filter) => let? r := Ranking_new op k filter in Ok (Some r) | None => Ok None end in
    let '(start, end_, step, instant) := window in
    let? mapper := Mapper_new start end_ step instant in
    let needs := match value with Some l => original l | None => false end || existsb (fun e => original (fst e)) by_ in
    Ok (mkBatch [mkState program root_only needs (needs || is_some program) op value by_ mapper second ∅] Budget_default).

(** ** The values of a span *)

(** The owners of the attributes, of which a query may read none. *)
Record SpanOwners : Type := mkSpanOwners { w_resource : Owner; w_span : Owner }.
Definition no_owners : SpanOwners := mkSpanOwners [] [].

Definition read_owners (fields : RawFields) (envelope : option Envelope) : Answer SpanOwners :=
  let? meta :=
    match envelope with
    | Some envelope => Ok (Some envelope.(members))
    | None =>
        match field fields (str "otlp") with
        | Ok raw => if negb (bytes_eqb raw (str "null")) then let? m := object raw in Ok (Some m) else Ok None
        | Err _ => Ok None
        | Fuel => Fuel
        end
    end in
  match meta with
  | None => Ok no_owners
  | Some meta =>
      let? raw := field meta (str "resource") in
      let? resource := TempoExpression.attributes raw in
      let? raw := field meta (str "attributes") in
      let? span := TempoExpression.attributes raw in
      Ok (mkSpanOwners resource span)
  end.

(** Arrays, maps and bytes are not grouped by. *)
Definition scalar_names : list bytes := [str "stringValue"; str "intValue"; str "boolValue"; str "doubleValue"].
Definition scalar (raw : bytes) : Answer (option bytes) :=
  let? value := object raw in
  Ok (if existsb (fun name => match field value name with Ok _ => true | _ => false end) scalar_names then Some raw else None).
Definition attribute (raw : option bytes) : Answer (option bytes) := match raw with None => Ok None | Some raw => scalar raw end.

Definition string_value (text : bytes) : bytes := push (write_str ([123; 34] ++ str "stringValue" ++ [34; 58]) text) 125.
Definition named (names : list bytes) (code : Z) : Answer (option bytes) :=
  let? name := ok_or (get names (wrap_u64 code)) Invalid in Ok (Some (string_value name)).

Definition owners_value (o : SpanOwners) (fields : RawFields) (l : Lookup) (duration : Z) : Answer (option bytes) :=
  match l with
  | LSpan key => attribute (find key o.(w_span))
  | LResource key => attribute (find key o.(w_resource))
  | LUnscoped key =>
      let? v := attribute (find key o.(w_span)) in
      match v with Some v => Ok (Some v) | None => attribute (find key o.(w_resource)) end
  | LName => let? raw := field fields (str "name") in let? s := string raw in Ok (Some (string_value s))
  | LSpanId => let? raw := field fields (str "span_id") in let? s := string raw in Ok (Some (string_value s))
  | LStatus => let? code := status_code fields in named STATUSES code
  | LKind => let? raw := field fields (str "kind") in let? kind := integer raw in named KINDS kind
  | LDuration => Ok (Some ([123; 34] ++ str "intValue" ++ [34; 58; 34] ++ decimal_Z duration ++ [34; 125]))
  end.

(** The text of a member: a string, or the token itself. *)
Definition text_of (raw : bytes) : option bytes := match string raw with Ok s => Some s | _ => if from_utf8_ok raw then Some raw else None end.
Definition double_of (raw : bytes) : option Z :=
  match string raw with
  | Ok text =>
      if bytes_eqb text (str "NaN") then Some F64_NAN
      else if bytes_eqb text (str "Infinity") then Some F64_INFINITY
      else if bytes_eqb text (str "-Infinity") then Some F64_NEG_INFINITY
      else f64_parse text
  | _ => if from_utf8_ok raw then f64_parse raw else None
  end.
Definition number (raw : bytes) : option Z :=
  match object raw with
  | Ok value =>
      match field value (str "intValue") with
      | Ok n => let* text := text_of n in let* n := parse_i64 text in Some (f64_of_Z n)
      | _ => match field value (str "doubleValue") with Ok n => double_of n | _ => None end
      end
  | _ => None
  end.

(** Powers of two, of seconds for durations. *)
Definition bucket (value : option Lookup) (v : Z) : option Z :=
  if f64_is_nan v || f64_lt v F64_TWO then None
  else
    let b := f64_powf F64_TWO (f64_ceil (f64_log2 (f64_of_Z (f64_as_u64 v)))) in
    Some (match value with Some LDuration => f64_div b F64_BILLION | _ => b end).

(** ** Measuring a row *)

Definition is_null (raw : bytes) : bool := bytes_eqb raw (str "null").

(** The work charged is that of the evaluation, even when it fails later. *)
Definition work_after (e : Expression (Regex := Regex)) (fields : RawFields) (envelope : option Envelope) (work : Z) : Z :=
  match load e fields envelope with Ok (_, units) => default work (checked_u64 (work + units)) | _ => work end.

Definition selects (st : State) (fields : RawFields) (envelope : option Envelope) (work : Z) : Answer bool * Z :=
  if st.(requires_originals) && is_null (match field fields (str "otlp") with Ok raw => raw | _ => str "null" end) then (Err Unknown, work)
  else
    let root := if st.(root_only) then let? raw := field fields (str "parent_span_id") in Ok (is_null raw) else Ok true in
    match root, st.(program) with
    | Ok true, Some e =>
        (let? (ev, _) := evaluate_with is_match e fields envelope work false in Ok ev.(matched), work_after e fields envelope work)
    | _, _ => (root, work)
    end.

(** What a selected row adds; a bucketed operation skips values without a bucket. *)
Definition observed (st : State) (fields : RawFields) (envelope : option Envelope) (i start end_ : Z) : Answer (option Observation) :=
  let? owners := if st.(needs_attributes) then read_owners fields envelope else Ok no_owners in
  let duration := wrap_u64 (end_ - start) in
  let? labels := foldM (fun out '(l, _) => let? v := owners_value owners fields l duration in Ok (out ++ [v])) [] st.(s_by) in
  let? value :=
    match st.(s_value) with
    | None => Ok F64_ONE
    | Some LDuration => Ok (f64_of_Z duration)
    | Some l => let? v := owners_value owners fields l duration in Ok (match v with Some raw => default F64_NAN (number raw) | None => F64_NAN end)
    end in
  let seconds := match st.(s_value) with Some LDuration => f64_div value F64_BILLION | _ => value end in
  if bucketed st.(s_op) then
    match bucket st.(s_value) value with
    | Some b => Ok (Some (mkObservation i (labels, Some b) seconds))
    | None => Ok None
    end
  else Ok (Some (mkObservation i (labels, None) seconds)).

Definition measure (st : State) (fields : RawFields) (envelope : option Envelope) (i start end_ work : Z) : Answer (option Observation) * Z :=
  let '(selected, work) := selects st fields envelope work in
  (match selected with
   | Ok true => observed st fields envelope i start end_
   | Ok false => Ok None
   | Err e => Err e
   | Fuel => Fuel
   end, work).

(** ** Rows *)

(** A row of the four columns, [None] where the column is null. *)
Record Row : Type := mkRow { r_start : option Z; r_end : option Z; r_id : option bytes; r_payload : option bytes }.
Record SpanRow : Type := mkSpanRow { p_start : Z; p_end : Z; p_id : bytes; p_payload : bytes }.

Definition PAYLOAD_MAX : Z := 16777216.
Definition valid_id (id : bytes) (width : Z) : bool :=
  (len id =? width) && forallb (fun b => is_digit b || ((97 <=? b) && (b <=? 102))) id && existsb (fun b => negb (b =? 48)) id.
Definition within (lo hi n : Z) : bool := (lo <=? n) && (n <=? hi).

Definition validate_fields (id : bytes) (start end_ : Z) (fields : RawFields) : Answer unit :=
  if negb (valid_id id 32) || (start <? 0) || (end_ <? start) then Err Invalid
  else
    let? raw := field fields (str "trace_id") in
    let? s := string raw in
    if negb (bytes_eqb s id) then Err Invalid
    else
      let? raw := field fields (str "timestamp_ns") in
      let? n := integer raw in
      if negb (n =? start) then Err Invalid
      else
        let? raw := field fields (str "end_timestamp_ns") in
        let? n := integer raw in
        if negb (n =? end_) then Err Invalid
        else
          let? raw := field fields (str "span_id") in
          let? s := string raw in
          if negb (valid_id s 16) then Err Invalid
          else
            let? parent := field fields (str "parent_span_id") in
            let? parent_ok := if is_null parent then Ok true else let? s := string parent in Ok (valid_id s 16) in
            if negb parent_ok then Err Invalid
            else
              let? raw := field fields (str "name") in
              let? _ := string raw in
              let? raw := field fields (str "kind") in
              let? kind := integer raw in
              let? flags := if within 0 5 kind then let? raw := field fields (str "flags") in integer raw else Ok 0 in
              if negb (within 0 5 kind) || negb (within 0 4294967295 flags) then Err Invalid
              else
                let? code := status_code fields in
                if within 0 2 code then Ok tt else Err Invalid.

Definition validate_row_parts (r : SpanRow) : Answer (RawFields * option Envelope) :=
  if PAYLOAD_MAX <? len r.(p_payload) then Err Budget
  else
    let? (fields, envelope) := map_err Invalid (validated_parts_utf8 r.(p_payload)) in
    let? _ := validate_fields r.(p_id) r.(p_start) r.(p_end) fields in
    Ok (fields, envelope).

Definition measure_row (st : State) (r : SpanRow) (i work : Z) : Answer (option Observation) * Z :=
  match validate_row_parts r with
  | Ok (fields, envelope) => measure st fields envelope i r.(p_start) r.(p_end) work
  | Err e => (Err e, work)
  | Fuel => (Fuel, work)
  end.

(** A chunk stops at its first failing row. *)
Fixpoint measure_chunk (st : State) (chunk : list (SpanRow * Z)) (work : Z) : list (option Observation) * Z * Answer unit :=
  match chunk with
  | [] => ([], work, Ok tt)
  | (r, i) :: chunk =>
      match measure_row st r i work with
      | (Ok o, work) => let '(out, work, status) := measure_chunk st chunk work in (o :: out, work, status)
      | (Err e, work) => ([], work, Err e)
      | (Fuel, work) => ([], work, Fuel)
      end
  end.

(** ** Recording *)

Definition set_series (st : State) (m : gmap Key Series) : State :=
  mkState st.(program) st.(root_only) st.(needs_attributes) st.(requires_originals) st.(s_op) st.(s_value) st.(s_by) st.(s_mapper) st.(second) m.

(** The value of a slot and its count after an observation. *)
Definition update (op : Op) (slot count value : Z) : Z * Z :=
  match op with
  | Count | Rate | Histogram | Quantile _ => (f64_add slot F64_ONE, count)
  | Min => if f64_is_nan value then (slot, count) else (if f64_is_nan slot then value else f64_min slot value, count)
  | Max => if f64_is_nan value then (slot, count) else (if f64_is_nan slot then value else f64_max slot value, count)
  | Sum | Avg => if f64_is_nan value then (slot, count) else (if f64_is_nan slot then value else f64_add slot value, count + 1)
  end.
Definition update_series (op : Op) (i value : Z) (x : Series) : Series :=
  let '(slot, count) := update op (default 0 (get x.(s_values) i)) (default 0 (get x.(s_counts) i)) value in
  mkSeries (<[Z.to_nat i := slot]> x.(s_values)) (<[Z.to_nat i := count]> x.(s_counts)).
Definition fresh (op : Op) (count : Z) : Series :=
  mkSeries (replicate (Z.to_nat count) (if zero_filled op then 0 else F64_NAN)) (replicate (Z.to_nat count) 0).
Definition label_bytes (k : Key) : Z := fold_right Z.add 0 (map (fun l => from_option len 0 l) (fst k)).

Definition record (st : State) (b : Budgets) (o : Observation) : Answer (State * Budgets) :=
  let count := st.(s_mapper).(m_count) in
  let full := (MAX_SERIES <=? b.(b_series)) || (MAX_POINTS <? sat_u64 (b.(b_points) + count)) in
  let? (x, b) :=
    match st.(series) !! o.(o_key) with
    | Some x => Ok (x, b)
    | None =>
        if full then Err Groups
        else
          let labels := sat_u64 (b.(b_labels) + label_bytes o.(o_key)) in
          if MAX_OUTPUT <? labels then Err Budget
          else Ok (fresh st.(s_op) count, mkBudgets (b.(b_series) + 1) (b.(b_points) + count) b.(b_work) labels)
    end in
  Ok (set_series st (<[o.(o_key) := update_series st.(s_op) o.(o_interval) o.(o_value) x]> st.(series)), b).

(** ** Scanning *)

(** [File] is a stored segment; the machine has [threads] of parallelism. *)
Context {File : Type} (read : File -> option (list (option (list Row)))).
Variable threads : Z.

(** The rows from the floor on that fall into an interval. *)
Fixpoint select_rows (st : State) (floor : Z) (rows : list Row) : Answer (list (SpanRow * Z)) :=
  match rows with
  | [] => Ok []
  | mkRow (Some start) (Some end_) (Some id) (Some payload) :: rows =>
      let? rest := select_rows st floor rows in
      if (start <? floor) || (start <? 0) then Ok rest
      else match interval st.(s_mapper) start with Some i => Ok ((mkSpanRow start end_ id payload, i) :: rest) | None => Ok rest end
  | _ => Err Invalid
  end.

Fixpoint chunks {A} (fuel : nat) (size : Z) (l : list A) : list (list A) :=
  match fuel, l with S fuel, _ :: _ => take (Z.to_nat size) l :: chunks fuel size (drop (Z.to_nat size) l) | _, _ => [] end.
Definition div_ceil (a b : Z) : Z := (a + b - 1) / b.
Definition measure_all (st : State) (selected : list (SpanRow * Z)) (base : Z) : list (list (option Observation) * Z * Answer unit) :=
  let size := Z.max (div_ceil (len selected) (Z.max 1 (Z.min threads 4))) 256 in
  if size <? len selected then map (fun chunk => measure_chunk st chunk base) (chunks (length selected) size selected)
  else [measure_chunk st selected base].

Definition record_all (st : State) (b : Budgets) (observations : list (option Observation)) : Answer (State * Budgets) :=
  foldM (fun '(st, b) o => match o with Some o => record st b o | None => Ok (st, b) end) (st, b) observations.

Fixpoint merge_results (base : Z) (st : State) (b : Budgets) (results : list (list (option Observation) * Z * Answer unit)) : Answer (State * Budgets) :=
  match results with
  | [] => Ok (st, b)
  | (observations, work, status) :: results =>
      let b := set_work b (sat_u64 (b.(b_work) + (work - base))) in
      if MAX_WORK <? b.(b_work) then Err Budget
      else
        let? (st, b) := record_all st b observations in
        let? _ := status in
        merge_results base st b results
  end.

Definition scan_batch (floor : Z) (acc : State * Budgets * Z) (batch : option (list Row)) : Answer (State * Budgets * Z) :=
  let '(st, b, n) := acc in
  let? rows := ok_or batch Invalid in
  let? selected := select_rows st floor rows in
  let? (st, b) := merge_results b.(b_work) st b (measure_all st selected b.(b_work)) in
  Ok (st, b, n + len rows).

Definition scan (floor : Z) (file : File) (st : State) (b : Budgets) : Answer (State * Budgets * Z) :=
  let? batches := ok_or (read file) Invalid in foldM (scan_batch floor) (st, b, 0) batches.

(** Every leaf scans the file; the answer is the rows of the last one. *)
Fixpoint scan_states (floor : Z) (file : File) (sts : list State) (b : Budgets) (n : Z) : Answer (list State * Budgets * Z) :=
  match sts with
  | [] => Ok ([], b, n)
  | st :: sts =>
      let? (st, b, n) := scan floor file st b in
      let? (sts, b, n) := scan_states floor file sts b n in
      Ok (st :: sts, b, n)
  end.

(** [Mutex<Option<Batch>>]; a lock held elsewhere leaves it alone. *)
Abbreviation Metrics := (option Batch).
Definition trace_metrics_add (locked : bool) (metrics : Metrics) (file : File) (floor : Z) : Answer Z * Metrics :=
  if locked then (Err Budget, metrics)
  else
    match metrics with
    | None => (Err Invalid, None)
    | Some batch =>
        match scan_states floor file batch.(states) batch.(b_budget) 0 with
        | Ok (sts, b, n) => (Ok n, Some (mkBatch sts b))
        | Err e => (Err e, None)
        | Fuel => (Fuel, None)
        end
    end.

Definition same_window (a b : Mapper) : bool :=
  (a.(m_start) =? b.(m_start)) && (a.(m_end) =? b.(m_end)) && (a.(m_step) =? b.(m_step)) && Bool.eqb a.(m_instant) b.(m_instant).

(** The leaves are taken out of their resources one by one: a resource named
    twice is empty the second time, and those already taken stay empty when a
    later one fails. *)
Fixpoint take_leaves (resources : list Metrics) (leaves : list nat) : Answer (list State) * list Metrics :=
  match leaves with
  | [] => (Ok [], resources)
  | leaf :: leaves =>
      match resources !! leaf with
      | Some (Some batch) =>
          let resources := <[leaf := None]> resources in
          match batch.(states) with
          | [st] =>
              if negb (batch.(b_budget).(b_series) =? 0) then (Err Invalid, resources)
              else let '(rest, resources) := take_leaves resources leaves in (let? sts := rest in Ok (st :: sts), resources)
          | _ => (Err Invalid, resources)
          end
      | _ => (Err Invalid, resources)
      end
  end.
Definition trace_metrics_batch_new (resources : list Metrics) (leaves : list nat) : Answer Batch * list Metrics :=
  if bool_decide (leaves = []) || (16 <? len leaves) then (Err Budget, resources)
  else
    let '(taken, resources) := take_leaves resources leaves in
    (let? sts := taken in
     match sts with
     | [] => Err Invalid
     | st :: _ => if existsb (fun s => negb (same_window s.(s_mapper) st.(s_mapper))) sts then Err Invalid else Ok (mkBatch sts Budget_default)
     end, resources).

(** A leaf is given once: naming it twice is refused. *)
Lemma taken_once resources leaves sts rest : take_leaves resources leaves = (Ok sts, rest) -> NoDup leaves /\ Forall (fun leaf => rest !! leaf = Some None) leaves.
Proof.
  assert (Hkeep : forall leaves resources r rest k, take_leaves resources leaves = (r, rest) -> resources !! k = Some None -> rest !! k = Some None).
  { clear. induction leaves as [|leaf leaves IH]; intros resources r rest k; cbn [take_leaves]; [by intros [= _ <-]|]. destruct (resources !! leaf) as [[batch|]|] eqn:El; [|by intros [= _ <-]..].
    intros E Hk. assert (Hk' : <[leaf := None]> resources !! k = Some None) by (rewrite list_lookup_insert_ne; [done|congruence]).
    destruct (states batch) as [|st [|? ?]]; [by injection E as _ <-| |by injection E as _ <-]. destruct (negb _); [by injection E as _ <-|].
    destruct (take_leaves _ leaves) as [r' rest'] eqn:Et. injection E as _ <-. by eapply IH. }
  revert resources sts rest. induction leaves as [|leaf leaves IH]; intros resources sts rest; cbn [take_leaves]; [intros _; by repeat constructor|].
  destruct (resources !! leaf) as [[batch|]|] eqn:El; [|done..]. destruct (states batch) as [|st [|? ?]]; [done| |done]. destruct (negb _); [done|].
  destruct (take_leaves _ leaves) as [r' rest'] eqn:Et. destruct r' as [sts'| |]; [|done..]. intros [= <- <-].
  assert (Hl : <[leaf := None]> resources !! leaf = Some (None : Metrics)) by (apply list_lookup_insert_eq; by eapply lookup_lt_Some).
  destruct (IH _ _ _ Et) as [Hnd Hf]. split; [|constructor; [by eapply Hkeep|done]]. apply list.NoDup_cons. split; [|done]. intros Hin.
  apply list_elem_of_split in Hin as (l1 & l2 & ->). clear -Et Hl Hkeep. revert sts' rest' Et Hl. generalize (<[leaf := None]> resources). induction l1 as [|x l1 IH]; intros rs sts rest; cbn [app take_leaves].
  - intros E Hl. by rewrite Hl in E.
  - destruct (rs !! x) as [[b|]|] eqn:Ex; [|done..]. destruct (states b) as [|st' [|? ?]]; [done| |done]. destruct (negb _); [done|].
    destruct (take_leaves _ (l1 ++ leaf :: l2)) as [[sts'| |] rest'] eqn:Et; [|done..]. intros _ Hl. apply (IH _ _ _ Et). rewrite list_lookup_insert_ne; [done|congruence].
Qed.
End Metrics.
