(* ===== verification/TraceMetricsScan.v ===== *)
(** Scanning a segment for a TraceQL metrics query: the intervals of spans, and
    the answer of a scan however its rows are spread over batches and threads. *)

From stdpp Require Import gmap.
From S2P Require Import Prelude Utf8 External Float64 OrdMap JsonRead JsonRegion TierSummary TraceFields Structural TempoExpression TraceMetadata TraceMetrics.

(** ** Intervals *)

(** A window the arguments of a query can give. *)
Definition mapper_ok (m : Mapper) : Prop := Mapper_new m.(m_start) m.(m_end) m.(m_step) m.(m_instant) = Ok m /\ 0 < m.(m_step).
(** Where a start lies in the window. *)
Definition falls (m : Mapper) (ts i : Z) : Prop :=
  if m.(m_instant) then i = 0 /\ m.(m_start) <= ts <= m.(m_end)
  else 0 <= i < m.(m_count) /\ m.(m_start) + i * m.(m_step) < ts <= m.(m_start) + (i + 1) * m.(m_step).

(** C32. A span is placed by its start: at [start + i * step < ts <= start + (i + 1) * step]
    its interval is [i], so the intervals are closed on the right, do not meet,
    and end with the last whole step of the window. An instant query has the one
    interval closed on both sides. *)
Theorem interval_exact (m : Mapper) (ts i : Z) : mapper_ok m -> interval m ts = Some i <-> falls m ts i.
Proof.
  destruct m as [s e st ins cnt]. unfold mapper_ok, falls. cbn [m_start m_end m_step m_instant m_count]. unfold Mapper_new. intros [Hm Hst].
  destruct ((e <=? s) || _ || _) eqn:E1; [done|]. destruct (_ || _) eqn:E2 in Hm; [done|]. injection Hm as Hc. bools.
  unfold interval. cbn [m_start m_end m_step m_instant m_count]. destruct ins.
  - replace (e =? s) with false by lia. destruct ((s <=? ts) && (ts <=? e)) eqn:E; cbn [negb andb].
    + bools. split; [intros [= <-]; lia|by intros [-> _]].
    + split; [done|]. intros [-> H']. apply andb_false_iff in E as [E|E]; bools; lia.
  - assert (He : cnt * st <= e - s) by (subst cnt; rewrite Z.mul_comm; apply Z.mul_div_le; lia).
    destruct ((ts <=? s) || (e <? ts) || (st =? 0)) eqn:E.
    + split; [done|]. intros [Hi Ht]. exfalso. apply orb_true_iff in E as [[E|E]%orb_true_iff|E]; [apply Z.leb_le in E|apply Z.ltb_lt in E|apply Z.eqb_eq in E]; nia.
    + bools. cbv zeta. pose proof (Z.div_mod (ts - s) st ltac:(lia)) as Hd. pose proof (Z.mod_pos_bound (ts - s) st ltac:(lia)) as Hb.
      set (q := (ts - s) / st) in *.
      assert (Hq : forall j, (j < cnt /\ (if q * st =? ts - s then q - 1 else q) = j) <-> (0 <= j < cnt /\ s + j * st < ts <= s + (j + 1) * st)).
      { intros j. destruct (Z.eqb_spec (q * st) (ts - s)); split; intros [J1 J2]; try (subst j); split; nia. }
      specialize (Hq i). set (q' := if q * st =? ts - s then q - 1 else q) in *. rewrite <- Hq. destruct (Z.ltb_spec q' cnt); split; [intros [= <-]; lia|intros [? <-]; done|done|intros [? <-]; lia].
Qed.

Lemma interval_exact_witness : let m := mkMapper 100 130 10 false 3 in
  mapper_ok m /\ interval m 110 = Some 0 /\ interval m 111 = Some 1 /\ ~ falls m 100 0.
Proof.
  cbv zeta. set (m := mkMapper 100 130 10 false 3). assert (Hm : mapper_ok m) by (split; [reflexivity|reflexivity]). split; [exact Hm|].
  split; [apply (interval_exact m 110 0 Hm); cbn; lia|]. split; [apply (interval_exact m 111 1 Hm); cbn; lia|].
  intros H. apply (interval_exact m 100 0 Hm) in H. discriminate H.
Defined.

(** ** The counts of an envelope *)

Section Counts.
Context `{SimdUtf8} `{Memchr2}.

Lemma attributes_count p depth level n q : TraceMetadata.attributes p depth level = Ok (n, q) -> 0 <= n.
Proof.
  unfold TraceMetadata.attributes, pass_fuel. cbn [attributes_at]. destruct (open p level 91) as [p1| |]; [|done..]. destruct (array_rest p1) as [[more p2]| |]; [|done..].
  destruct (if more then _ else _) as [[keys p3]| |]; [|done..]. destruct (repeated keys); [done|]. intros [= <- _]. apply len_nonneg.
Qed.

Definition counted (x : Seen) : Prop := 0 <= x.(s_resource) /\ 0 <= x.(s_span).

Lemma member_value_counted bit p x y q : counted x -> member_value bit p x = Ok (y, q) -> counted y.
Proof.
  intros [H1 H2]. unfold member_value. destruct (bit =? 1); [destruct (skip_value p) as [[raw p1]| |]; [|done..]; destruct (bytes_eqb raw _); [by intros [= <- _]|done]|].
  destruct (bit =? 16); [destruct (owners p) as [[n p1]| |]; [|done..]; by intros [= <- _]|].
  destruct (bit =? 32); [destruct (owners p) as [[n p1]| |]; [|done..]; by intros [= <- _]|].
  destruct (TraceMetadata.attributes p 0 2) as [[n p1]| |] eqn:E; [|done..]. apply attributes_count in E.
  destruct (bit =? 2); [by intros [= <- _]|]. destruct (bit =? 8); by intros [= <- _].
Qed.

Lemma envelope_loop_counted fuel payload : forall p x y q, counted x -> envelope_loop fuel p payload x = Ok (y, q) -> counted y.
Proof.
  induction fuel as [|fuel IH]; intros p x y q Hx E; cbn [envelope_loop] in E; [done|]. destruct (JsonRead.string p) as [[name p1]| |]; [|done..].
  destruct (colon p1) as [p2| |]; [|done..]. destruct (member_bit _) as [bit|]; [|done]. cbn [ok_or] in E. destruct (negb _); [done|].
  destruct (member_value bit p2 _) as [[z p3]| |] eqn:E3; [|done..]. apply member_value_counted in E3; [|done].
  destruct (object_next p3) as [[more p4]| |]; [|done..]. destruct more; [by apply IH in E|by injection E as <- <-].
Qed.

Lemma envelope_counted p payload a b e q : envelope p payload = Ok (a, b, e, q) -> envelope_ok (Some e).
Proof.
  unfold envelope. destruct (open p 1 123) as [p1| |]; [|done..]. destruct (object_open p1) as [[more p2]| |]; [|done..].
  destruct (if more then _ else _) as [[y p3]| |] eqn:E3; [|done..]. destruct (negb _) eqn:Es; [done|]. intros [= _ _ <- _].
  destruct more; [by apply envelope_loop_counted in E3|by injection E3 as <- _].
Qed.

Definition typed_ok (t : Typed) : Prop := match t with Some (Some (_, _, e)) => envelope_ok (Some e) | _ => True end.

Lemma payload_member_counted p payload name t t' q : typed_ok t -> payload_member p payload name t = Ok (t', q) -> typed_ok t'.
Proof.
  intros Ht. unfold payload_member. destruct (negb _); [destruct (skip_value p) as [[]| |]; [|done..]; by intros [= <- _]|]. destruct (is_some t); [done|].
  destruct (peek p) as [c| |]; [|done..]. destruct (c =? 110); [destruct (skip_value p) as [[]| |]; [|done..]; by intros [= <- _]|].
  destruct (envelope p payload) as [[[[a b] e] p1]| |] eqn:E; [|done..]. apply envelope_counted in E. by intros [= <- _].
Qed.

Lemma parts_loop_counted fuel payload : forall p fields t r, typed_ok t -> parts_loop fuel p payload fields t = Ok r -> typed_ok (snd (fst r)).
Proof.
  induction fuel as [|fuel IH]; intros p fields t r Ht E; cbn [parts_loop] in E; [done|]. destruct (JsonRead.string p) as [[name p1]| |]; [|done..].
  destruct (colon p1) as [p2| |]; [|done..]. destruct (payload_member _ _ _ _) as [[t' p3]| |] eqn:E3; [|done..]. apply payload_member_counted in E3; [|done].
  destruct (object_next p3) as [[more p4]| |]; [|done..]. destruct more; [by apply IH in E|by injection E as <-].
Qed.

Lemma validated_envelope payload fields env : validated_parts_utf8 payload = Ok (fields, env) -> envelope_ok env.
Proof.
  unfold validated_parts_utf8, parts. destruct (expect _ 123) as [p1| |]; [|done..]. destruct (object_open p1) as [[more p2]| |]; [|done..].
  destruct (if more then _ else _) as [[[fs t] p3]| |] eqn:E3; [|done..]. assert (Ht : typed_ok t) by (destruct more; [by apply parts_loop_counted in E3|by injection E3 as _ <- _]).
  destruct (jend _) as [u| |]; [|done..]. destruct t as [[[[a b] e]|]|]; [|by intros [= _ <-]..].
  destruct (first_field fs (str "events")) as [r1| |]; [|done..]. destruct (whole_array r1) as [l| |]; [|done..]. destruct (negb _); [done|].
  destruct (first_field fs (str "links")) as [r2| |]; [|done..]. destruct (whole_array r2) as [m| |]; [|done..]. destruct (negb _); [done|by intros [= _ <-]].
Qed.
End Counts.

(** ** Measuring rows *)

Section Scan.
Context {Regex : Type} (is_match : Regex -> bytes -> bool).
Context `{SimdUtf8} `{Memchr2} `{Libm}.
Implicit Types (st : State (Regex := Regex)).
#[local] Abbreviation measure_row := (measure_row is_match).
#[local] Abbreviation measure_chunk := (measure_chunk is_match).

(** The length of a compiled program. *)
Definition sized st : Prop := match st.(program) with Some e => 0 <= e.(size_) | None => True end.
Definition affordable (w : Z) : Prop := 0 <= w <= MAX_WORK.

Lemma evaluate_shift (e : Expression (Regex := Regex)) fields env w ev w' : 0 <= e.(size_) -> envelope_ok env -> affordable w ->
  evaluate_with is_match e fields env w false = Ok (ev, w') <->
  w <= w' <= MAX_WORK /\ evaluate_with is_match e fields env 0 false = Ok (ev, w' - w).
Proof.
  intros He Henv [Hw Hm]. unfold evaluate_with. destruct (load e fields env) as [[o units]| |] eqn:El; [|by split; [|intros []]..].
  apply load_units in El; [|done]. unfold checked_u64, MAX_WORK in *. change WORK_MAX with 20000000.
  destruct (Z.leb_spec (w + units) 20000000) as [Hs|Hs].
  - rewrite !(proj2 (andb_true_iff _ _)) by (split; apply Z.leb_le; unfold U64_MAX; lia). cbn [ok_or]. rewrite !(proj2 (Z.ltb_ge _ _)) by lia. cbv zeta.
    destruct (run_spansets _ _ _ _ _ _ _ _ _) as [[attrs mask]| |]; [|by split; [|intros []]..]. split; [intros [= <- <-]; split; [lia|do 2 f_equal; lia]|intros [? [= <- ?]]; do 2 f_equal; lia].
  - split.
    + destruct (_ && _); cbn [ok_or]; [|done]. by rewrite (proj2 (Z.ltb_lt _ _)) by lia.
    + intros [Hw' E]. exfalso. destruct (_ && _) in E; cbn [ok_or] in E; [|done]. destruct (_ <? _) in E; [done|]. cbv zeta in E.
      destruct (run_spansets _ _ _ _ _ _ _ _ _) as [[attrs mask]| |]; [|done..]. injection E as _ E. lia.
Qed.

Lemma work_after_ok (e : Expression (Regex := Regex)) fields env w ev w' :
  evaluate_with is_match e fields env w false = Ok (ev, w') -> work_after e fields env w = w'.
Proof.
  unfold evaluate_with, work_after. destruct (load e fields env) as [[o units]| |]; [|done..]. destruct (checked_u64 (w + units)) as [n|]; [|done]. cbn [ok_or default].
  destruct (WORK_MAX <? n); [done|]. cbv zeta. destruct (run_spansets _ _ _ _ _ _ _ _ _) as [[attrs mask]| |]; [|done..]. by intros [= _ <-].
Qed.

Lemma selects_shift st fields env w b w' : sized st -> envelope_ok env -> affordable w ->
  selects is_match st fields env w = (Ok b, w') <-> w <= w' <= MAX_WORK /\ selects is_match st fields env 0 = (Ok b, w' - w).
Proof.
  intros He Henv Hw. unfold selects. destruct (requires_originals st && _); [by split; [|intros []]|]. cbv zeta.
  assert (Hplain : forall x : Answer bool, (x, w) = (Ok b, w') <-> w <= w' <= MAX_WORK /\ (x, 0) = (Ok b, w' - w)).
  { unfold affordable in Hw. intros x. split; [intros [= -> <-]; split; [lia|f_equal; lia]|intros [? [= -> ?]]; f_equal; lia]. }
  destruct (if root_only st then _ else _) as [[|]| |]; [|apply Hplain..]. unfold sized in He. destruct (program st) as [e|]; [|apply Hplain].
  split.
  - intros [= E Ew]. destruct (evaluate_with is_match e fields env w false) as [[ev w1]| |] eqn:Ee; [|done..]. rewrite (work_after_ok _ _ _ _ _ _ Ee) in Ew. subst w1.
    apply evaluate_shift in Ee as [Hm Ee]; [|done..]. split; [done|]. rewrite Ee, (work_after_ok _ _ _ _ _ _ Ee). cbn. congruence.
  - intros [Hm [= E Ew]]. destruct (evaluate_with is_match e fields env 0 false) as [[ev w1]| |] eqn:Ee; [|done..]. rewrite (work_after_ok _ _ _ _ _ _ Ee) in Ew. subst w1.
    assert (Ee' : evaluate_with is_match e fields env w false = Ok (ev, w')) by (by apply evaluate_shift). rewrite Ee', (work_after_ok _ _ _ _ _ _ Ee'). cbn. congruence.
Qed.

(** A row is measured alike at any work it can still pay for. *)
Lemma measure_row_shift st r i w o w' : sized st -> affordable w ->
  measure_row st r i w = (Ok o, w') <-> w <= w' <= MAX_WORK /\ measure_row st r i 0 = (Ok o, w' - w).
Proof.
  intros He Hw. unfold TraceMetrics.measure_row, validate_row_parts. destruct (PAYLOAD_MAX <? _); [by split; [|intros []]|].
  destruct (validated_parts_utf8 (p_payload r)) as [[fields env]| |] eqn:Ev; [|by split; [|intros []]..]. apply validated_envelope in Ev. cbn [map_err].
  destruct (validate_fields _ _ _ _) as [u| |]; [|by split; [|intros []]..]. unfold measure.
  pose proof (fun b w' => selects_shift st fields env w b w' He Ev Hw) as Hs.
  destruct (selects is_match st fields env w) as [a w1] eqn:E1, (selects is_match st fields env 0) as [a0 w0] eqn:E0. split.
  - intros [= E ->]. destruct a as [b| |]; [|done..]. destruct (proj1 (Hs b w') eq_refl) as [Hm [= -> ->]]. split; [done|]. f_equal. exact E.
  - intros [Hm [= E ->]]. destruct a0 as [b| |]; [|done..]. pose proof (proj2 (Hs b w') (conj Hm eq_refl)) as Hd. injection Hd as -> ->. f_equal. exact E.
Qed.

Lemma measure_row_config st m r i w : measure_row (set_series st m) r i w = measure_row st r i w.
Proof. done. Qed.

(** What the rows of a chunk add and cost. *)
Definition measured st (chunk : list (SpanRow * Z)) (out : list (option Observation * Z)) : Prop :=
  Forall2 (fun x y => measure_row st (fst x) (snd x) 0 = (Ok (fst y), snd y)) chunk out.
Definition cost (out : list (option Observation * Z)) : Z := fold_right Z.add 0 (map snd out).

Lemma measured_cost st chunk out : sized st -> measured st chunk out -> 0 <= cost out.
Proof.
  intros He. induction 1 as [|[r i] [o c] chunk out Hr _ IH]; [done|]. unfold cost in *. cbn [fst snd map fold_right] in *.
  apply measure_row_shift in Hr as [Hc _]; [lia|done|unfold affordable, MAX_WORK; lia].
Qed.

Lemma cost_app a b : cost (a ++ b) = cost a + cost b.
Proof. unfold cost. induction a as [|x a IH]; cbn [app map fold_right]; [done|]. rewrite IH. lia. Qed.

Lemma measure_chunk_exact st chunk : sized st -> forall w os w', affordable w ->
  measure_chunk st chunk w = (os, w', Ok tt) <-> exists out, measured st chunk out /\ os = map fst out /\ w' = w + cost out /\ w' <= MAX_WORK.
Proof.
  intros He. induction chunk as [|[r i] chunk IH]; intros w os w' Hw; cbn [TraceMetrics.measure_chunk].
  - split; [intros [= <- <-]; exists []; split_and!; [constructor|done|cbn; lia|unfold affordable in *; lia]|].
    intros (out & Hm & -> & -> & _). inversion Hm; subst. do 2 f_equal. cbn. lia.
  - destruct (measure_row st r i w) as [a w1] eqn:Er. split.
    + destruct a as [o| |]; [|done..]. pose proof (proj1 (measure_row_shift st r i w o w1 He Hw) Er) as [Hc Er0].
      destruct (measure_chunk st chunk w1) as [[os' w2] s] eqn:Ec. intros [= <- -> ->]. apply IH in Ec as (out & Hm & -> & -> & Hl); [|unfold affordable in *; lia].
      exists ((o, w1 - w) :: out). split_and!; [by constructor|done|unfold cost; cbn [map fold_right snd]; fold (cost out); lia|done].
    + intros (out & Hm & -> & -> & Hl). inversion Hm as [|? [o c] ? out' Hr Hm' E1 E2]; subst. cbn [fst snd] in Hr. change (cost ((o, c) :: out')) with (c + cost out') in *.
      pose proof (measured_cost _ _ _ He Hm'). pose proof (proj1 (measure_row_shift st r i 0 o c He ltac:(unfold affordable, MAX_WORK; lia)) Hr) as [Hc _].
      assert (Er' : measure_row st r i w = (Ok o, w + c)) by (apply measure_row_shift; [done|done|split; [lia|by replace (w + c - w) with c by lia]]). rewrite Er in Er'. injection Er' as -> ->.
      rewrite (proj2 (IH (w + c) (map fst out') (w + c + cost out') ltac:(unfold affordable in *; lia))); [by rewrite Z.add_assoc|]. exists out'. split_and!; [done..|lia].
Qed.

(** ** Recording in order *)

Lemma record_work st b w o : record st (set_work b w) o = let? (st', b') := record st b o in Ok (st', set_work b' w).
Proof.
  unfold record. cbv zeta. cbn [set_work b_series b_points b_labels b_work]. destruct (series st !! o_key o); [done|].
  destruct (_ || _); [done|]. by destruct (MAX_OUTPUT <? _).
Qed.

Lemma record_keeps st b o st' b' : record st b o = Ok (st', b') -> (exists m, st' = set_series st m) /\ b_work b' = b_work b.
Proof.
  unfold record. cbv zeta. destruct (series st !! o_key o); [intros [= <- <-]; by split; [eexists|]|].
  destruct (_ || _); [done|]. destruct (MAX_OUTPUT <? _); [done|]. intros [= <- <-]. by split; [eexists|].
Qed.

Lemma record_all_cons st b o os : record_all st b (o :: os) = let? (st, b) := match o with Some o => record st b o | None => Ok (st, b) end in record_all st b os.
Proof. unfold record_all. cbn [foldM]. by destruct (match o with Some _ => _ | None => _ end) as [[]| |]. Qed.

Lemma record_all_work os : forall st b w, record_all st (set_work b w) os = let? (st', b') := record_all st b os in Ok (st', set_work b' w).
Proof.
  induction os as [|[o|] os IH]; intros st b w; [done| |by rewrite !record_all_cons].
  rewrite !record_all_cons, record_work. destruct (record st b o) as [[st1 b1]| |]; [|done..]. apply IH.
Qed.

Lemma record_all_keeps os : forall st b st' b', record_all st b os = Ok (st', b') -> (exists m, st' = set_series st m) /\ b_work b' = b_work b.
Proof.
  induction os as [|[o|] os IH]; intros st b st' b'; [intros [= <- <-]; split; [by exists (series st); destruct st|done]| |].
  - rewrite record_all_cons. destruct (record st b o) as [[st1 b1]| |] eqn:E; [|done..]. intros Ho. apply IH in Ho as [[m ->] ->]. apply record_keeps in E as [[m' ->] ->].
    split; [by exists m|done].
  - rewrite record_all_cons. apply IH.
Qed.

Lemma record_all_app a c : forall st b, record_all st b (a ++ c) = let? (st, b) := record_all st b a in record_all st b c.
Proof. intros st b. unfold record_all. rewrite foldM_app. by destruct (foldM _ (st, b) a) as [[]| |]. Qed.

(** What a run of rows does at once: they are measured without regard to the
    work, paid for together, and recorded in order. *)
Definition observed_as st0 st b (selected : list (SpanRow * Z)) st' b' : Prop :=
  exists out, measured st0 selected out /\ b.(b_work) + cost out <= MAX_WORK /\
    record_all st (set_work b (b.(b_work) + cost out)) (map fst out) = Ok (st', b').

Lemma observed_nil st0 st b : affordable b.(b_work) -> observed_as st0 st b [] st b.
Proof. intros Hw. exists []. split_and!; [constructor|unfold affordable in Hw; cbn; lia|]. cbn. unfold set_work. rewrite Z.add_0_r. by destruct b. Qed.

Lemma observed_app st0 st b x y st' b' : sized st0 -> affordable b.(b_work) ->
  observed_as st0 st b (x ++ y) st' b' <-> exists st1 b1, observed_as st0 st b x st1 b1 /\ observed_as st0 st1 b1 y st' b' /\ affordable b1.(b_work).
Proof.
  intros He Hw. split.
  - intros (out & Hm & Hc & Hr). apply Forall2_app_inv_l in Hm as (ox & oy & Hx & Hy & ->). rewrite cost_app in *. rewrite map_app, record_all_app in Hr.
    pose proof (measured_cost _ _ _ He Hx). pose proof (measured_cost _ _ _ He Hy). rewrite record_all_work in Hr.
    destruct (record_all st b (map fst ox)) as [[st1 b1]| |] eqn:E1; [|done..]. exists st1, (set_work b1 (b_work b + cost ox)). unfold affordable in *. cbn [b_work set_work].
    split_and!; [|exists oy|lia|lia]; [exists ox; split_and!; [done|lia|by rewrite record_all_work, E1]|]. cbn [b_work set_work]. split_and!; [done|lia|]. rewrite Z.add_assoc in Hr. exact Hr.
  - intros (st1 & b1 & (ox & Hx & Hcx & Hrx) & (oy & Hy & Hcy & Hry) & Hb). apply record_all_keeps in Hrx as Hk. destruct Hk as [_ Hk]. cbn [b_work set_work] in Hk. rewrite Hk in *.
    exists (ox ++ oy). rewrite cost_app, map_app, record_all_app. split_and!; [by apply Forall2_app|lia|]. rewrite record_all_work in Hrx |- *.
    destruct (record_all st b (map fst ox)) as [[st2 b2]| |]; [|done..]. injection Hrx as <- <-. cbn [b_work set_work] in *. by rewrite Z.add_assoc.
Qed.

(** The chunks start at the same work; their sum is bounded all the same. *)
Lemma merge_exact st0 base chs : sized st0 -> affordable base -> forall st b st' b', base <= b.(b_work) <= MAX_WORK ->
  merge_results base st b (map (fun c => measure_chunk st0 c base) chs) = Ok (st', b') <-> observed_as st0 st b (concat chs) st' b'.
Proof.
  intros He Hba. induction chs as [|c chs IH]; intros st b st' b' Hb; cbn [map merge_results concat].
  - split; [intros [= <- <-]; apply observed_nil; unfold affordable in *; lia|]. intros (out & Hm & _ & Hr). inversion Hm; subst. cbn in Hr. rewrite Z.add_0_r in Hr. by destruct b.
  - rewrite observed_app by (done || unfold affordable in *; lia). destruct (measure_chunk st0 c base) as [[os w] s] eqn:Ec.
    assert (Hstep : forall out, measured st0 c out -> os = map fst out -> w = base + cost out -> s = Ok tt ->
      (let b := set_work b (sat_u64 (b.(b_work) + (w - base))) in if MAX_WORK <? b.(b_work) then Err Budget else
        let? (st, b) := record_all st b os in let? _ := s in merge_results base st b (map (fun c => measure_chunk st0 c base) chs)) = Ok (st', b') <->
      b.(b_work) + cost out <= MAX_WORK /\ exists st1 b1, record_all st (set_work b (b.(b_work) + cost out)) os = Ok (st1, b1) /\ observed_as st0 st1 b1 (concat chs) st' b').
    { intros out Hm -> -> ->. pose proof (measured_cost _ _ _ He Hm). cbv zeta. cbn [b_work set_work]. replace (b_work b + (base + cost out - base)) with (b_work b + cost out) by lia.
      unfold affordable, sat_u64, MAX_WORK, U64_MAX in *. destruct (Z.leb_spec (b_work b + cost out) 20000000) as [Hl|Hl].
      - rewrite (proj2 (Z.ltb_ge _ _)) by lia. rewrite Z.max_r, Z.min_l by lia. destruct (record_all st _ _) as [[st1 b1]| |] eqn:Er;
          [|split; [done|intros (_ & ? & ? & ? & _); done]..]. apply record_all_keeps in Er as Hk. destruct Hk as [_ Hk]. cbn [b_work set_work] in Hk. rewrite IH by lia.
        split; [intros Ho; split; [lia|by exists st1, b1]|by intros (_ & st2 & b2 & [= <- <-] & Ho)].
      - rewrite (proj2 (Z.ltb_lt _ _)) by lia. split; [done|lia]. }
    split.
    + intros E. destruct s as [[]| |]; [|destruct (_ <? _) in E; [done|]; by destruct (record_all _ _ _) as [[]| |] in E..].
      pose proof (proj1 (measure_chunk_exact st0 c He base os w Hba) Ec) as (out & Hm & Hos & Hw & Hl). pose proof (proj1 (Hstep out Hm Hos Hw eq_refl) E) as (Hc & st1 & b1 & Hr & Ho).
      apply record_all_keeps in Hr as Hk. destruct Hk as [_ Hk]. cbn [b_work set_work] in Hk. pose proof (measured_cost _ _ _ He Hm). unfold affordable in *.
      exists st1, b1. split_and!; [exists out; by subst os|done|lia|lia].
    + intros (st1 & b1 & (out & Hm & Hc & Hr) & Ho & Hb1). pose proof (measured_cost _ _ _ He Hm).
      assert (Ec' : measure_chunk st0 c base = (map fst out, base + cost out, Ok tt)) by (apply measure_chunk_exact; [done|done|exists out; split_and!; [done..|lia]]).
      rewrite Ec in Ec'. injection Ec' as -> -> ->. apply (Hstep out Hm eq_refl eq_refl eq_refl). split; [done|]. by exists st1, b1.
Qed.

(** ** Batches and threads *)

Lemma chunks_concat {A} fuel size (l : list A) : 0 < size -> (length l <= fuel)%nat -> concat (chunks fuel size l) = l.
Proof.
  intros Hs. revert l. induction fuel as [|fuel IH]; intros [|x l] Hl; cbn [chunks length] in *; try done; [lia|].
  cbn [concat]. rewrite IH; [apply take_drop|]. rewrite length_drop. cbn [length]. lia.
Qed.

Lemma measure_all_chunks threads st selected base :
  exists chs, concat chs = selected /\ measure_all is_match threads st selected base = map (fun c => measure_chunk st c base) chs.
Proof.
  unfold measure_all. cbv zeta. destruct (_ <? _); [|exists [selected]; split; [apply app_nil_r|done]].
  eexists. split; [|done]. apply chunks_concat; lia.
Qed.

Lemma select_rows_app st floor a c : select_rows st floor (a ++ c) = let? x := select_rows st floor a in let? y := select_rows st floor c in Ok (x ++ y).
Proof.
  induction a as [|[[s|] [e|] [id|] [p|]] a IH]; cbn [app select_rows]; try done; [by destruct (select_rows st floor c)|].
  rewrite IH. destruct (select_rows st floor a) as [x| |]; [|done..]. destruct (select_rows st floor c) as [y| |]; [|by destruct (_ || _); [|destruct (interval _ _)]..].
  destruct (_ || _); [done|]. by destruct (interval _ _).
Qed.

(** Measuring and selecting do not read the series. *)
Lemma select_rows_config st m floor rows : select_rows (set_series st m) floor rows = select_rows st floor rows.
Proof. induction rows as [|r rows IH]; [done|]. cbn [select_rows]. by rewrite IH. Qed.

Lemma measured_config st m chunk out : measured (set_series st m) chunk out <-> measured st chunk out.
Proof. reflexivity. Qed.

Lemma observed_config st0 m st b selected st' b' : observed_as (set_series st0 m) st b selected st' b' <-> observed_as st0 st b selected st' b'.
Proof. reflexivity. Qed.

Lemma observed_keeps st0 st b x st' b' : observed_as st0 st b x st' b' -> exists m, st' = set_series st m.
Proof. by intros (out & _ & _ & [Hk _]%record_all_keeps). Qed.

Context {File : Type} (read : File -> option (list (option (list Row)))) (threads : Z).

Lemma batches_exact floor batches : forall st b n r, sized st -> affordable b.(b_work) ->
  foldM (scan_batch is_match threads floor) (st, b, n) batches = Ok r <->
  exists rows selected st' b', batches = map Some rows /\ select_rows st floor (concat rows) = Ok selected /\ observed_as st st b selected st' b' /\ r = (st', b', n + len (concat rows)).
Proof.
  induction batches as [|batch batches IH]; intros st b n r He Hw; cbn [foldM].
  - split.
    + intros [= <-]. exists [], [], st, b. split_and!; [done|done|by apply observed_nil|]. cbn. by rewrite Z.add_0_r.
    + intros (rows & selected & st' & b' & Hr & Hs & (out & Hm & _ & Ho) & ->). destruct rows; [|done]. injection Hs as <-. inversion Hm; subst. cbn in Ho. injection Ho as <- <-.
      rewrite Z.add_0_r. destruct b. cbn. by rewrite !Z.add_0_r.
  - unfold scan_batch at 1. destruct batch as [rows1|]; cbn [ok_or]; [|split; [done|by intros ([|] & ? & ? & ? & ? & _)]].
    destruct (select_rows st floor rows1) as [sel1| |] eqn:E1;
      [|split; [done|intros ([|r1 rows] & sel & ? & ? & Hr & Hs & _); [done|]; injection Hr as <- _; cbn [concat] in Hs; by rewrite select_rows_app, E1 in Hs]..].
    destruct (measure_all_chunks threads st sel1 (b_work b)) as (chs & Hc & ->).
    pose proof (fun st' b' => merge_exact st (b_work b) chs He Hw st b st' b' ltac:(unfold affordable in *; lia)) as Hmerge. rewrite Hc in Hmerge.
    assert (Hinto : forall st1 b1, observed_as st st b sel1 st1 b1 -> affordable (b_work b1) ->
      foldM (scan_batch is_match threads floor) (st1, b1, n + len rows1) batches = Ok r <->
      exists rows selected st' b', batches = map Some rows /\ select_rows st floor (concat rows) = Ok selected /\ observed_as st st1 b1 selected st' b' /\ r = (st', b', n + len rows1 + len (concat rows))).
    { intros st1 b1 Ho Hb1. destruct (observed_keeps _ _ _ _ _ _ Ho) as [m ->]. rewrite (IH (set_series st m) b1) by done. setoid_rewrite select_rows_config. by setoid_rewrite observed_config. }
    split.
    + destruct (merge_results _ _ _ _) as [[st1 b1]| |]; [|done..]. pose proof (proj1 (Hmerge st1 b1) eq_refl) as Em. intros E.
      assert (Hb1 : affordable (b_work b1)). { destruct Em as (out & Hm & Hl & [_ Hk]%record_all_keeps). rewrite Hk. cbn. pose proof (measured_cost _ _ _ He Hm). unfold affordable in *. lia. }
      apply Hinto in E as (rows & sel & st' & b' & -> & Hs & Ho & ->); [|done..]. exists (rows1 :: rows), (sel1 ++ sel), st', b'. cbn [concat map]. rewrite select_rows_app, E1, Hs, len_app.
      split_and!; [done|done| |f_equal; lia]. apply observed_app; [done..|]. by exists st1, b1.
    + intros ([|r1 rows] & sel & st' & b' & Hr & Hs & Ho & ->); [done|]. injection Hr as <- Hr. cbn [concat] in Hs. rewrite select_rows_app, E1 in Hs.
      destruct (select_rows st floor (concat rows)) as [sel2| |] eqn:E2; [|done..]. injection Hs as <-. apply observed_app in Ho as (st1 & b1 & Ho1 & Ho2 & Hb1); [|done..].
      pose proof (proj2 (Hmerge st1 b1) Ho1) as ->. apply (Hinto st1 b1 Ho1 Hb1). exists rows, sel2, st', b'. cbn [concat]. rewrite len_app. split_and!; [done..|f_equal; lia].
Qed.

(** A scan answers as if the rows were read one after the other: whatever
    the batches of the file and the parallelism of the machine, it succeeds
    precisely when every batch is readable and no row has a null, every row
    from the floor on inside the window is valid and measured, the work of all
    of them together fits what is left of the budget, and their observations
    can be recorded in the order of the file; the series and budgets are then
    those of that order, and the count is that of all rows. *)
Lemma metrics_scan_exact (floor : Z) (file : File) st (b : Budgets) st' (b' : Budgets) (n : Z) : sized st -> affordable b.(b_work) ->
  scan is_match read threads floor file st b = Ok (st', b', n) <->
  exists rows selected, read file = Some (map Some rows) /\ n = len (concat rows) /\
    select_rows st floor (concat rows) = Ok selected /\ observed_as st st b selected st' b'.
Proof.
  intros He Hw. unfold scan. destruct (read file) as [batches|]; cbn [ok_or]; [|split; [done|by intros (? & ? & ? & _)]].
  rewrite batches_exact by done. split.
  - intros (rows & sel & st1 & b1 & -> & Hs & Ho & [= -> -> ->]). by exists rows, sel.
  - intros (rows & sel & [= ->] & -> & Hs & Ho). exists rows, sel, st', b'. by rewrite Z.add_0_l.
Qed.
End Scan.

(** ** Numbers in order *)

Lemma f64_le_refl a : f64_is_nan a = false -> f64_le a a = true.
Proof. intros Ha. apply value_le_key; [done..|]. unfold key_leP, key_le. by rewrite cmp_refl. Qed.

Lemma f64_le_total a b : f64_is_nan a = false -> f64_is_nan b = false -> f64_le a b = false -> f64_le b a = true.
Proof.
  intros Ha Hb E. apply value_le_key; [done..|]. apply key_le_total. destruct (key_le value_key a b) eqn:Ek; [|done].
  apply (value_le_key a b Ha Hb) in Ek. congruence.
Qed.

(** * A file of four rows in two batches *)
Module Sample.
Import External.Concrete.

#[global] Program Instance libm : Libm := {|
  f64_min a b := if f64_le a b then a else b; f64_max a b := if f64_le b a then a else b; f64_log2 b := b; f64_powf _ b := b
|}.
Next Obligation.
  intros a b Ha Hb. cbn. destruct (f64_le a b) eqn:E; [by split_and!; [left|apply f64_le_refl|]|]. split_and!; [by right|by apply f64_le_total|by apply f64_le_refl].
Qed.
Next Obligation.
  intros a b Ha Hb. cbn. destruct (f64_le b a) eqn:E; [by split_and!; [left|apply f64_le_refl|]|]. split_and!; [by right|by apply f64_le_total|by apply f64_le_refl].
Qed.

Definition unquote : bytes -> bytes := TempoExpression.Sample.unquote.
Definition trace_id : bytes := str "0000000000000000000000000000000a".
Definition payload (ts code : bytes) : bytes :=
  unquote (str "{'trace_id':'" ++ trace_id ++ str "','timestamp_ns':" ++ ts ++ str ",'end_timestamp_ns':140,'span_id':'000000000000000b','parent_span_id':null,'name':'get','kind':2,'flags':0,'status':{'code':0},'events':[],'links':[],"
    ++ str "'otlp':{'version':1,'resource':[],'scope':[],'attributes':[{'key':'code','value':{'intValue':'" ++ code ++ str "'}}],'events':[],'links':[]}}").
Definition row (ts : Z) (code : bytes) : Row := mkRow (Some ts) (Some 140) (Some trace_id) (Some (payload (decimal_Z ts) code)).

Definition anchored : bytes -> option bytes := TempoExpression.Sample.anchored_sample.
(** [{ span.code > 499 } | count_over_time() by (name)], at steps of ten. *)
Definition words : list Word := [TempoExpression.Sample.word (str "span.int") (str "code") (str ">") (str "499")].
Definition batch : Batch (Regex := bytes) :=
  match trace_metrics_new anchored (Some words) false (str "count_over_time") [] None [(str "intrinsic", str "name", str "name")] (100, 130, 10, false) None with
  | Ok b => b | _ => mkBatch [] Budget_default end.
Definition state : State (Regex := bytes) :=
  match batch.(states) with st :: _ => st | [] => mkState None false false false Count None [] (mkMapper 0 0 0 false 0) None ∅ end.

Definition file : list (list Row) := [[row 105 (str "503"); row 106 (str "200")]; [row 121 (str "500"); row 90 (str "500")]].
Definition read (f : list (list Row)) : option (list (option (list Row))) := Some (map Some f).
Definition result : Answer (State * Budgets * Z) := scan bytes_eqb read 4 0 file state Budget_default.
End Sample.

Import External.Concrete Sample.
Lemma metrics_scan_exact_witness : sized Sample.state /\ affordable (b_work Budget_default) /\
  exists st b, scan bytes_eqb Sample.read 4 0 Sample.file Sample.state Budget_default = Ok (st, b, 4) /\
  exists rows selected, Sample.read Sample.file = Some (map Some rows) /\ select_rows Sample.state 0 (concat rows) = Ok selected /\
    observed_as bytes_eqb Sample.state Sample.state Budget_default selected st b.
Proof.
  assert (He : sized Sample.state) by (vm_compute; congruence). assert (Hw : affordable (b_work Budget_default)) by (split; vm_compute; congruence).
  split; [exact He|]. split; [exact Hw|].
  assert (Hn : match Sample.result with Ok (_, _, n) => n = 4 | _ => False end) by (vm_compute; reflexivity).
  destruct Sample.result as [[[st b] n]|e|] eqn:Er; [subst n|destruct Hn|destruct Hn]. exists st, b. split; [exact Er|].
  destruct (proj1 (metrics_scan_exact bytes_eqb Sample.read 4 0 Sample.file Sample.state Budget_default st b 4 He Hw) Er) as (rows & selected & H1 & _ & H3 & H4).
  exists rows, selected. split; [exact H1|]. split; [exact H3|exact H4].
Defined.
