(* ===== verification/TraceMetricsRecord.v ===== *)
(** Recording the observations of a TraceQL metrics query: the series as a
    function of the observations, and the limits on their number and size. *)

From stdpp Require Import gmap.
From S2P Require Import Prelude Utf8 External Float64 TierSummary TraceFields TraceMetrics TraceMetricsScan.

Section Record.
Context {Regex : Type} `{Libm}.
Implicit Types (st : State (Regex := Regex)) (os : list Observation) (k : Key).

(** ** The series of a list of observations *)

Definition of_key k os : list Observation := List.filter (fun o => bool_decide (o.(o_key) = k)) os.
Definition values_at (i : Z) os : list Z := map o_value (List.filter (fun o => o.(o_interval) =? i) os).
(** The slot and the count of an interval, from the values in their order. *)
Definition cell (op : Op) (vs : list Z) : Z * Z := fold_left (fun x v => update op (fst x) (snd x) v) vs (if zero_filled op then 0 else F64_NAN, 0).
Definition series_at (op : Op) (count : Z) os : Series :=
  mkSeries (map (fun i => fst (cell op (values_at i os))) (indices count)) (map (fun i => snd (cell op (values_at i os))) (indices count)).

(** A state holds exactly the series of the observations. *)
Definition holds_exactly st os : Prop :=
  forall k, series st !! k = match of_key k os with [] => None | l => Some (series_at st.(s_op) st.(s_mapper).(m_count) l) end.

(** The keys that are not known yet, each once. *)
Fixpoint new_keys (known : list Key) os : list Key :=
  match os with
  | [] => []
  | o :: os => if bool_decide (o.(o_key) ∈ known) then new_keys known os else o.(o_key) :: new_keys (o.(o_key) :: known) os
  end.
Definition present (l : list (option Observation)) : list Observation := flat_map (fun o => match o with Some o => [o] | None => [] end) l.
Definition keys_bytes (ks : list Key) : Z := fold_right Z.add 0 (map label_bytes ks).

Definition within_limits (b : Budgets) : Prop := 0 <= b.(b_series) <= MAX_SERIES /\ 0 <= b.(b_points) <= MAX_POINTS /\ 0 <= b.(b_labels) <= MAX_OUTPUT.
Definition charged (b : Budgets) (count : Z) (ks : list Key) : Budgets :=
  mkBudgets (b.(b_series) + len ks) (b.(b_points) + len ks * count) b.(b_work) (b.(b_labels) + keys_bytes ks).

(** ** Slots *)

Lemma lookup_indices {A} (f : Z -> A) n (j : nat) : map f (indices n) !! j = if bool_decide (Z.of_nat j < n) then Some (f (Z.of_nat j)) else None.
Proof.
  unfold indices. rewrite map_map, list_lookup_fmap. destruct (bool_decide_reflect (Z.of_nat j < n)).
  - rewrite lookup_seq_lt by lia. done.
  - rewrite lookup_seq_ge by lia. done.
Qed.

Lemma get_indices {A} (f : Z -> A) n i : 0 <= i < n -> get (map f (indices n)) i = Some (f i).
Proof. intros Hi. unfold get. rewrite len_map. replace (len (indices n)) with n by (unfold indices, len; rewrite length_map, length_seq; lia). rewrite (proj2 (andb_true_iff _ _)) by (split; [apply Z.leb_le|apply Z.ltb_lt]; lia). rewrite lookup_indices, bool_decide_true by lia. do 2 f_equal. lia. Qed.

Lemma insert_indices {A} (f g : Z -> A) n i : 0 <= i < n -> (forall j, j <> i -> f j = g j) -> <[Z.to_nat i := g i]> (map f (indices n)) = map g (indices n).
Proof.
  intros Hi Hfg. apply list_eq. intros j. rewrite lookup_indices. destruct (decide (j = Z.to_nat i)) as [->|Hj].
  - rewrite list_lookup_insert_eq; [rewrite bool_decide_true by lia; do 2 f_equal; lia|]. unfold indices. rewrite !length_map, length_seq. lia.
  - rewrite list_lookup_insert_ne by done. rewrite lookup_indices. destruct (bool_decide _); [|done]. rewrite Hfg; [done|lia].
Qed.

Lemma map_const_seq {A} (c : A) n : forall a, map (fun _ => c) (seq a n) = replicate n c.
Proof. induction n as [|n IH]; intros a; [done|]. cbn. by rewrite IH. Qed.

Lemma fresh_cells op count : fresh op count = series_at op count [].
Proof.
  unfold fresh, series_at, values_at, cell. cbn [List.filter map fold_left fst snd]. unfold indices. by rewrite !map_map, !map_const_seq.
Qed.

Lemma cell_snoc op i os o : cell op (values_at i (os ++ [o])) =
  if o.(o_interval) =? i then update op (fst (cell op (values_at i os))) (snd (cell op (values_at i os))) o.(o_value) else cell op (values_at i os).
Proof.
  unfold values_at. rewrite List.filter_app, map_app. cbn [List.filter]. destruct (o_interval o =? i); [|cbn [map]; by rewrite app_nil_r].
  unfold cell. by rewrite fold_left_app.
Qed.

Lemma update_cells op count os o : 0 <= o.(o_interval) < count -> update_series op o.(o_interval) o.(o_value) (series_at op count os) = series_at op count (os ++ [o]).
Proof.
  intros Hi. unfold update_series, series_at. cbn [s_values s_counts]. rewrite !get_indices by done. cbn [default].
  pose proof (cell_snoc op (o_interval o) os o) as Hc. rewrite Z.eqb_refl in Hc. destruct (update _ _ _ _) as [slot c].
  f_equal.
  - rewrite <- (insert_indices (fun i => fst (cell op (values_at i os))) (fun i => fst (cell op (values_at i (os ++ [o])))) count (o_interval o)); [by rewrite Hc|done|].
    intros j Hj. rewrite cell_snoc. destruct (Z.eqb_spec (o_interval o) j); [congruence|done].
  - rewrite <- (insert_indices (fun i => snd (cell op (values_at i os))) (fun i => snd (cell op (values_at i (os ++ [o])))) count (o_interval o)); [by rewrite Hc|done|].
    intros j Hj. rewrite cell_snoc. destruct (Z.eqb_spec (o_interval o) j); [congruence|done].
Qed.

(** ** One observation *)

Lemma observations_app k a c : of_key k (a ++ c) = of_key k a ++ of_key k c.
Proof. apply List.filter_app. Qed.
Lemma of_key_same o : of_key o.(o_key) [o] = [o].
Proof. unfold of_key. cbn. by rewrite bool_decide_true. Qed.
Lemma of_key_other k o : o.(o_key) <> k -> of_key k [o] = [].
Proof. intros Hk. unfold of_key. cbn. by rewrite bool_decide_false. Qed.

Lemma of_key_in k os : k ∈ map o_key os <-> of_key k os <> [].
Proof.
  induction os as [|o os IH]; [split; [by intros ?%not_elem_of_nil|done]|]. change (o :: os) with ([o] ++ os). rewrite observations_app. cbn [app map]. rewrite elem_of_cons, IH.
  destruct (decide (o.(o_key) = k)) as [<-|Hk]; [rewrite of_key_same; split; [done|by left]|rewrite of_key_other by done; split; [intros [?|?]; [congruence|done]|by right]].
Qed.

Lemma label_bytes_nonneg k : 0 <= label_bytes k.
Proof.
  unfold label_bytes. induction (fst k) as [|l ls IH]; [done|]. cbn [map fold_right]. destruct l as [l|]; cbn [from_option]; [pose proof (len_nonneg l)|]; lia.
Qed.
Lemma keys_bytes_nonneg ks : 0 <= keys_bytes ks.
Proof. unfold keys_bytes. induction ks as [|k ks IH]; [done|]. cbn [map fold_right]. pose proof (label_bytes_nonneg k). lia. Qed.

(** The state after an observation. *)
Definition recorded st os (o : Observation) : State (Regex := Regex) :=
  set_series st (<[o.(o_key) := series_at st.(s_op) st.(s_mapper).(m_count) (of_key o.(o_key) (os ++ [o]))]> st.(series)).

Lemma recorded_holds st os o : holds_exactly st os -> holds_exactly (recorded st os o) (os ++ [o]).
Proof.
  intros Hh k. cbn [recorded set_series series s_op s_mapper]. destruct (decide (o.(o_key) = k)) as [<-|Hk].
  - rewrite lookup_insert_eq, observations_app, of_key_same. by destruct (of_key (o_key o) os).
  - rewrite lookup_insert_ne, Hh, observations_app, of_key_other, app_nil_r by done. done.
Qed.

Lemma record_step st b os o : holds_exactly st os -> within_limits b -> 0 <= o.(o_interval) < st.(s_mapper).(m_count) ->
  record st b o =
    if bool_decide (o.(o_key) ∈ map o_key os) then Ok (recorded st os o, b)
    else
      let b' := charged b st.(s_mapper).(m_count) [o.(o_key)] in
      if (MAX_SERIES <? b'.(b_series)) || (MAX_POINTS <? b'.(b_points)) then Err Groups
      else if MAX_OUTPUT <? b'.(b_labels) then Err Budget else Ok (recorded st os o, b').
Proof.
  intros Hh (H1 & H2 & H3) Hi. unfold record, recorded. cbv zeta. rewrite (Hh (o_key o)), observations_app, of_key_same.
  pose proof (of_key_in (o_key o) os) as Hin. destruct (of_key (o_key o) os) as [|x l] eqn:Ek.
  - rewrite bool_decide_false by (rewrite Hin; tauto). unfold charged. cbn [b_series b_points b_labels b_work].
    change (len [o_key o]) with 1. change (keys_bytes [o_key o]) with (label_bytes (o_key o) + 0). rewrite Z.mul_1_l, Z.add_0_r.
    pose proof (label_bytes_nonneg (o_key o)). unfold MAX_SERIES, MAX_POINTS, MAX_OUTPUT in *.
    assert (Hp : forall n lim, 0 <= n -> lim < U64_MAX -> (lim <? sat_u64 n) = (lim <? n)).
    { intros n lim Hn Hl. unfold sat_u64. destruct (Z.ltb_spec lim n); [apply Z.ltb_lt|apply Z.ltb_ge]; unfold U64_MAX in *; lia. }
    rewrite !Hp by (unfold U64_MAX; lia). replace (10000 <=? b_series b) with (10000 <? b_series b + 1) by (destruct (Z.ltb_spec 10000 (b_series b + 1)), (Z.leb_spec 10000 (b_series b)); lia).
    destruct (_ || _); [done|]. destruct (Z.ltb_spec (64 * 1024 * 1024) (b_labels b + label_bytes (o_key o))) as [Hl|Hl]; [done|].
    rewrite fresh_cells, update_cells by done. cbn [app]. do 2 f_equal. f_equal. unfold sat_u64, U64_MAX. lia.
  - rewrite bool_decide_true by (by apply Hin). rewrite update_cells by done. done.
Qed.

(** ** All of them *)

Lemma new_keys_ext os : forall known known', (forall k, k ∈ known <-> k ∈ known') -> new_keys known os = new_keys known' os.
Proof.
  induction os as [|o os IH]; intros known known' Hk; [done|]. cbn [new_keys]. rewrite (bool_decide_ext _ _ (Hk (o_key o))).
  destruct (bool_decide _); [by apply IH|]. f_equal. apply IH. intros k. by rewrite !elem_of_cons, Hk.
Qed.

Lemma charged_cons b count k ks : charged b count (k :: ks) = charged (charged b count [k]) count ks.
Proof. unfold charged, keys_bytes. cbn [b_series b_points b_work b_labels map fold_right]. rewrite !len_cons. change (len (@nil Key)) with 0. f_equal; lia. Qed.

Lemma charged_grows b count ks : 0 <= count -> within_limits (charged b count ks) -> 0 <= b.(b_series) -> 0 <= b.(b_points) -> 0 <= b.(b_labels) -> within_limits b.
Proof.
  intros Hc (H1 & H2 & H3) ? ? ?. cbn [charged b_series b_points b_labels] in *. pose proof (len_nonneg ks). pose proof (keys_bytes_nonneg ks). repeat split; nia.
Qed.

(** Recording keeps exactly the series of the observations, and fails exactly
    when the new keys exceed a limit. *)
Lemma record_all_exact st (b : Budgets) os (l : list (option Observation)) :
  let count := st.(s_mapper).(m_count) in
  let after := charged b count (new_keys (map o_key os) (present l)) in
  holds_exactly st os -> within_limits b -> 0 <= count -> Forall (fun o => 0 <= o.(o_interval) < count) (present l) ->
  match record_all st b l with
  | Ok (st', b') => within_limits after /\ b' = after /\ holds_exactly st' (os ++ present l) /\ exists m, st' = set_series st m
  | Err e => ~ within_limits after
  | Fuel => False
  end.
Proof.
  cbv zeta. revert st b os. induction l as [|[o|] l IH]; intros st b os Hh Hb Hc Hi.
  - cbn [present flat_map new_keys]. unfold record_all. cbn [foldM]. assert (E : charged b (m_count (s_mapper st)) [] = b).
    { destruct b. unfold charged, keys_bytes. cbn. by rewrite !Z.add_0_r. }
    rewrite E, app_nil_r. split_and!; [done..|]. exists (series st). by destruct st.
  - change (present (Some o :: l)) with (o :: present l) in *. apply Forall_cons_1 in Hi as [Ho Hi]. rewrite record_all_cons, (record_step st b os o) by done.
    pose proof (recorded_holds st os o Hh) as Hr. specialize (IH (recorded st os o)). cbn [recorded set_series s_mapper] in IH. cbn [new_keys].
    assert (Hks : new_keys (o_key o :: map o_key os) (present l) = new_keys (map o_key (os ++ [o])) (present l)).
    { apply new_keys_ext. intros k. rewrite map_app, elem_of_app. cbn [map]. rewrite elem_of_cons, list_elem_of_singleton. tauto. }
    destruct (bool_decide_reflect (o_key o ∈ map o_key os)) as [Hin|Hin].
    + specialize (IH b (os ++ [o]) Hr Hb Hc Hi). rewrite <- app_assoc in IH. cbn [app] in IH.
      rewrite (new_keys_ext _ (map o_key (os ++ [o])) (map o_key os)) in IH by (intros k; rewrite map_app, elem_of_app; cbn [map]; rewrite list_elem_of_singleton; split; [intros [?| ->]|]; tauto).
      destruct (record_all (recorded st os o) b l) as [[st' b']| |]; [|done..]. destruct IH as (? & ? & ? & m & ->). split_and!; [done..|by exists m].
    + cbv zeta. rewrite Hks, (charged_cons _ _ _ (new_keys (map o_key (os ++ [o])) (present l))). destruct Hb as (Hb1 & Hb2 & Hb3).
      set (b1 := charged b (m_count (s_mapper st)) [o_key o]) in *.
      assert (Hp : 0 <= b_series b1 /\ 0 <= b_points b1 /\ 0 <= b_labels b1).
      { subst b1. cbn [charged b_series b_points b_labels]. pose proof (keys_bytes_nonneg [o_key o]). change (len [o_key o]) with 1. lia. }
      destruct (_ || _) eqn:E1; [intros Hw; destruct (charged_grows _ _ _ Hc Hw ltac:(tauto) ltac:(tauto) ltac:(tauto)) as (W1 & W2 & _); apply orb_true_iff in E1 as [E1|E1]; apply Z.ltb_lt in E1; lia|].
      destruct (MAX_OUTPUT <? b_labels b1) eqn:E2; [intros Hw; destruct (charged_grows _ _ _ Hc Hw ltac:(tauto) ltac:(tauto) ltac:(tauto)) as (_ & _ & W3); apply Z.ltb_lt in E2; lia|]. bools.
      specialize (IH b1 (os ++ [o]) Hr ltac:(repeat split; tauto || lia) Hc Hi). rewrite <- app_assoc in IH. cbn [app] in IH.
      destruct (record_all (recorded st os o) b1 l) as [[st' b']| |]; [|done..]. destruct IH as (? & ? & ? & m & ->). split_and!; [done..|by exists m].
  - rewrite record_all_cons. by apply IH.
Qed.
End Record.

(** ** What a slot means *)

Section Extremes.
Context `{Libm}.

(** A number of the list that stands before all others, or none at all. *)
Definition extreme (before : Z -> Z -> bool) (vs : list Z) (m : Z) : Prop :=
  (Forall (fun v => f64_is_nan v = true) vs /\ f64_is_nan m = true) \/
  (m ∈ vs /\ f64_is_nan m = false /\ Forall (fun v => f64_is_nan v = true \/ before m v = true) vs).

Lemma extreme_snoc (choose : Z -> Z -> Z) (leq : Z -> Z -> bool) vs m v :
  (forall a b, f64_is_nan a = false -> f64_is_nan b = false -> (choose a b = a \/ choose a b = b) /\ leq (choose a b) a = true /\ leq (choose a b) b = true) ->
  (forall a, f64_is_nan a = false -> leq a a = true) ->
  (forall a b c, f64_is_nan a = false -> f64_is_nan b = false -> f64_is_nan c = false -> leq a b = true -> leq b c = true -> leq a c = true) ->
  extreme leq vs m -> extreme leq (vs ++ [v]) (if f64_is_nan v then m else if f64_is_nan m then v else choose m v).
Proof.
  intros Hch Hrefl Htr Hm. unfold extreme. destruct (f64_is_nan v) eqn:Ev.
  - destruct Hm as [[H1 H2]|(H1 & H2 & H3)]; [left|right]; rewrite ?Forall_app, ?elem_of_app; repeat split; auto.
  - right. destruct (f64_is_nan m) eqn:Em.
    + rewrite Forall_app, elem_of_app, list_elem_of_singleton. destruct Hm as [[H1 _]|(_ & ? & _)]; [|congruence].
      split_and!; [by right|done|eapply Forall_impl; [|exact H1]; by left|constructor; [right; by apply Hrefl|constructor]].
    + destruct Hm as [[_ ?]|(H1 & _ & H3)]; [congruence|]. destruct (Hch m v Em Ev) as (Hc & Hl & Hr).
      assert (Hn : f64_is_nan (choose m v) = false) by (destruct Hc as [-> | ->]; done).
      rewrite Forall_app, elem_of_app, list_elem_of_singleton. split_and!; [destruct Hc as [-> | ->]; tauto|done| |by constructor; [right|]].
      eapply Forall_impl; [|exact H3]. intros u [Hu|Hu]; [by left|]. cbn in *. destruct (f64_is_nan u) eqn:Eu; [by left|right]. by apply (Htr _ m).
Qed.

Lemma cell_app op vs v : cell op (vs ++ [v]) = update op (fst (cell op vs)) (snd (cell op vs)) v.
Proof. unfold cell. by rewrite fold_left_app. Qed.

(** C33. The slot of [min_over_time] is the least of the numbers observed in its
    interval and that of [max_over_time] the greatest, in any order of
    observation; it is no number when none was. *)
Theorem extremes_exact (vs : list Z) :
  extreme f64_le vs (fst (cell Min vs)) /\ extreme (fun a b => f64_le b a) vs (fst (cell Max vs)).
Proof.
  induction vs as [|v vs [IH1 IH2]] using rev_ind; [split; left; by split|]. rewrite !cell_app. split.
  - replace (fst (update Min _ _ v)) with (if f64_is_nan v then fst (cell Min vs) else if f64_is_nan (fst (cell Min vs)) then v else f64_min (fst (cell Min vs)) v) by (cbn [update]; by destruct (f64_is_nan v)).
    apply (extreme_snoc f64_min); [apply f64_min_spec|apply f64_le_refl|apply value_le_trans|done].
  - replace (fst (update Max _ _ v)) with (if f64_is_nan v then fst (cell Max vs) else if f64_is_nan (fst (cell Max vs)) then v else f64_max (fst (cell Max vs)) v) by (cbn [update]; by destruct (f64_is_nan v)).
    apply (extreme_snoc f64_max); [apply f64_max_spec|apply f64_le_refl| |done]. intros a b c Ha Hb Hc H1 H2. by apply (value_le_trans c b a).
Qed.
End Extremes.

(** ** A query over several files *)

Section Query.
Context {Regex : Type} (is_match : Regex -> bytes -> bool).
Context `{SimdUtf8} `{Memchr2} `{Libm}.
Context {File : Type} (read : File -> option (list (option (list Row)))) (threads : Z).
Implicit Types (st : State (Regex := Regex)).

(** The calls that add one file after the other. *)
Definition run_adds (floor : Z) (metrics : option (Batch (Regex := Regex))) (files : list File) : Answer (option (Batch (Regex := Regex))) :=
  foldM (fun metrics file => let '(answer, metrics) := trace_metrics_add is_match read threads false metrics file floor in let? _ := answer in Ok metrics) metrics files.

Lemma interval_range m ts i : mapper_ok m -> interval m ts = Some i -> 0 <= i < m.(m_count).
Proof.
  destruct m as [s e st ins cnt]. unfold mapper_ok, Mapper_new, interval. cbn [m_start m_end m_step m_instant m_count]. intros [Hm Hs].
  destruct (_ || _) in Hm; [done|]. destruct (_ || _) eqn:E in Hm; [done|]. injection Hm as Hc. bools. destruct ins.
  - destruct (_ && _); [|done]. intros [= <-]. lia.
  - destruct (_ || _) eqn:E1; [done|]. bools. cbv zeta. pose proof (Z.div_mod (ts - s) st ltac:(lia)) as Hd. pose proof (Z.mod_pos_bound (ts - s) st ltac:(lia)) as Hb.
    destruct (Z.eqb_spec ((ts - s) / st * st) (ts - s)); match goal with |- context[?a <? cnt] => destruct (Z.ltb_spec a cnt) end; intros [= <-]; nia.
Qed.

Lemma select_rows_range st floor rows selected : mapper_ok st.(s_mapper) -> select_rows st floor rows = Ok selected ->
  Forall (fun x => 0 <= snd x < st.(s_mapper).(m_count)) selected.
Proof.
  intros Hm. revert selected. induction rows as [|[[s|] [e|] [id|] [p|]] rows IH]; intros selected; cbn [select_rows]; [intros [= <-]; constructor| |done..].
  destruct (select_rows st floor rows) as [rest| |]; [|done..]. specialize (IH rest eq_refl). destruct (_ || _); [by intros [= <-]|].
  destruct (interval (s_mapper st) s) as [i|] eqn:Ei; [|by intros [= <-]]. apply interval_range in Ei; [|done]. intros [= <-]. by constructor.
Qed.

Lemma measured_range st selected out : Forall (fun x => 0 <= snd x < st.(s_mapper).(m_count)) selected -> measured is_match st selected out ->
  Forall (fun o => 0 <= o.(o_interval) < st.(s_mapper).(m_count)) (present (map fst out)).
Proof.
  intros Hs. induction 1 as [|[r i] [o c] selected out Hr _ IH]; [constructor|]. apply Forall_cons_1 in Hs as [Hi Hs]. specialize (IH Hs). cbn [fst snd map present flat_map] in *.
  destruct o as [o|]; [|done]. constructor; [|done]. assert (Ho : o_interval o = i); [|by rewrite Ho].
  unfold measure_row in Hr. destruct (validate_row_parts r) as [[fields env]| |]; [|done..]. unfold measure in Hr. destruct (selects _ _ _ _ _) as [[[|]| |] w]; try done.
  injection Hr as Hr _. unfold observed in Hr. destruct (if needs_attributes st then _ else _) as [ow| |]; [|done..]. destruct (foldM _ _ _) as [ls| |] in Hr; [|done..].
  destruct (match s_value st with Some _ => _ | None => _ end) as [v| |] in Hr; [|done..]. destruct (bucketed (s_op st)); [|by injection Hr as <-]. destruct (bucket _ _); [by injection Hr as <-|done].
Qed.

Lemma adds_exact floor files : forall st b m, sized st -> affordable b.(b_work) ->
  run_adds floor (Some (mkBatch [st] b)) files = Ok m <->
  exists rows selected st' b', Forall2 (fun file rows => read file = Some (map Some rows)) files rows /\
    select_rows st floor (concat (concat rows)) = Ok selected /\ observed_as is_match st st b selected st' b' /\ m = Some (mkBatch [st'] b').
Proof.
  unfold run_adds. induction files as [|file files IH]; intros st b m He Hw; cbn [foldM].
  - split.
    + intros [= <-]. exists [], [], st, b. split_and!; [constructor|done|by apply observed_nil|done].
    + intros (rows & sel & st' & b' & Hr & Hs & (out & Hm & _ & Ho) & ->). inversion Hr; subst. injection Hs as <-. inversion Hm; subst. cbn in Ho. injection Ho as <- <-.
      rewrite Z.add_0_r. by destruct b.
  - unfold trace_metrics_add at 1. cbn [states b_budget scan_states]. unfold scan at 1.
    destruct (read file) as [batches|] eqn:Ef; cbn [ok_or]; [|split; [done|intros (? & ? & ? & ? & Hr & _); inversion Hr; subst; congruence]].
    pose proof (fun r => batches_exact is_match threads floor batches st b 0 r He Hw) as Hb. destruct (foldM (scan_batch is_match threads floor) (st, b, 0) batches) as [[[st1 b1] n]| |] eqn:Eb.
    2-3: split; [done|]; intros (rows & sel & st' & b' & Hr & Hs & Ho & _); inversion Hr as [|? rows1 ? rows' Hf Hr' E1 E2]; subst; rewrite Ef in Hf; injection Hf as ->; cbn [concat] in Hs; rewrite concat_app, select_rows_app in Hs;
      destruct (select_rows st floor (concat rows1)) as [sel1| |] eqn:Es; [|done..]; destruct (select_rows st floor (concat (concat rows'))) as [sel2| |]; [|done..]; injection Hs as <-;
      apply observed_app in Ho as (st1 & b1 & Ho1 & _ & _); [|done..]; discriminate (proj2 (Hb (st1, b1, 0 + len (concat rows1))) ltac:(by exists rows1, sel1, st1, b1)).
    cbv iota beta. destruct (proj1 (Hb (st1, b1, n)) eq_refl) as (rows1 & sel1 & st2 & b2 & -> & Hs1 & Ho1 & [= <- <- ->]).
    assert (Hb1 : affordable (b_work b1)). { destruct Ho1 as (out & Hm & Hl & [_ Hk]%record_all_keeps). rewrite Hk. cbn. pose proof (measured_cost _ _ _ _ He Hm). unfold affordable in *. lia. }
    destruct (observed_keeps _ _ _ _ _ _ _ Ho1) as [g Hg]. assert (He1 : sized st1) by (by subst st1). rewrite (IH st1 b1 m He1 Hb1). subst st1. setoid_rewrite select_rows_config. split.
    + intros (rows & sel & st' & b' & Hr & Hs & Ho & ->). exists (rows1 :: rows), (sel1 ++ sel), st', b'. cbn [concat]. rewrite concat_app, select_rows_app, Hs1, Hs.
      split_and!; [by constructor|done| |done]. apply observed_app; [done..|]. by exists (set_series st g), b1.
    + intros (rows & sel & st' & b' & Hr & Hs & Ho & ->). inversion Hr as [|? rows1' ? rows' Hf Hr' E1 E2]; subst. rewrite Ef in Hf. injection Hf as Hf. apply (inj (fmap Some)) in Hf as <-.
      cbn [concat] in Hs. rewrite concat_app, select_rows_app, Hs1 in Hs. destruct (select_rows st floor (concat (concat rows'))) as [sel2| |] eqn:E2'; [|done..]. injection Hs as <-.
      apply observed_app in Ho as (st1 & b1' & Ho1' & Ho2 & _); [|done..]. assert (st1 = set_series st g /\ b1' = b1) as [-> ->].
      { pose proof (proj2 (Hb (st1, b1', 0 + len (concat rows1))) ltac:(by exists rows1, sel1, st1, b1')) as E. injection E as -> ->. done. }
      by exists rows', sel2, st', b'.
Qed.

(** A new query: no series yet, nothing spent. *)
Definition new_query (batch : Batch (Regex := Regex)) st : Prop :=
  batch = mkBatch [st] Budget_default /\ st.(series) = ∅ /\ sized st /\ mapper_ok st.(s_mapper).

(** C29. A query over any number of stored files is one pass over their rows.
    The adds succeed precisely when every file is readable, every row from the
    floor on inside the window is valid, the work of measuring them all stays
    below the ceiling, and the distinct keys observed, the slots they need and
    the bytes of their labels are within the limits. The state then holds
    exactly the series of the observations in the order of the rows: one for
    each key, with the slot and the count of an interval those of the values
    observed in it; and the budget is charged for exactly that. Neither the
    files, nor their batches, nor the threads that measure them show. *)
Theorem metrics_exact (floor : Z) (files : list File) (batch : Batch (Regex := Regex)) st m : new_query batch st ->
  run_adds floor (Some batch) files = Ok m <->
  exists rows selected out st',
    let os := present (map fst out) in
    let spent := charged Budget_default st.(s_mapper).(m_count) (new_keys [] os) in
    Forall2 (fun file rows => read file = Some (map Some rows)) files rows /\
    select_rows st floor (concat (concat rows)) = Ok selected /\
    measured is_match st selected out /\ cost out <= MAX_WORK /\ within_limits spent /\
    m = Some (mkBatch [st'] (set_work spent (cost out))) /\
    holds_exactly st' os /\ exists g, st' = set_series st g.
Proof.
  intros (-> & Hs0 & He & Hmap). assert (Hw : affordable (b_work Budget_default)) by (unfold affordable, MAX_WORK; cbn; lia).
  assert (Hh : holds_exactly st []) by (intros k; by rewrite Hs0, lookup_empty).
  assert (Hc : 0 <= m_count (s_mapper st)).
  { destruct Hmap as [Hmap Hpos]. unfold Mapper_new in Hmap. destruct (_ || _) eqn:E0 in Hmap; [done|]. destruct (_ || _) eqn:E in Hmap; [done|]. injection Hmap as Hc. bools. apply (f_equal m_count) in Hc. cbn [m_count] in Hc.
    rewrite <- Hc. destruct (m_instant (s_mapper st)); [lia|]. apply Z.div_pos; lia. }
  rewrite adds_exact by done. split.
  - intros (rows & selected & st' & b' & Hr & Hsel & (out & Hm & Hl & Ho) & ->). rewrite record_all_work in Ho.
    pose proof (measured_range st selected out (select_rows_range st floor _ selected Hmap Hsel) Hm) as Hi.
    pose proof (record_all_exact st Budget_default [] (map fst out) Hh ltac:(vm_compute; intuition congruence) Hc Hi) as Hx.
    destruct (record_all st Budget_default (map fst out)) as [[st1 b1]| |]; [|done..]. injection Ho as <- <-. destruct Hx as (Hx1 & -> & Hx3 & Hx4).
    exists rows, selected, out, st1. cbv zeta. split_and!; done.
  - intros (rows & selected & out & st' & Hr & Hsel & Hm & Hl & Hlim & -> & Hst & g & Hg). exists rows, selected, st', (set_work (charged Budget_default (m_count (s_mapper st)) (new_keys [] (present (map fst out)))) (cost out)).
    split_and!; [done..| |done]. exists out. split_and!; [done..|]. rewrite record_all_work.
    pose proof (measured_range st selected out (select_rows_range st floor _ selected Hmap Hsel) Hm) as Hi.
    pose proof (record_all_exact st Budget_default [] (map fst out) Hh ltac:(vm_compute; intuition congruence) Hc Hi) as Hx.
    destruct (record_all st Budget_default (map fst out)) as [[st1 b1]| |]; [|done..]. destruct Hx as (_ & -> & Hx3 & g1 & Hg1). subst st' st1.
    assert (g1 = g) as ->; [|done]. apply map_eq. intros k. specialize (Hx3 k). specialize (Hst k). cbn in Hx3, Hst. by rewrite Hx3, Hst.
Qed.
End Query.

Import External.Concrete TraceMetricsScan.Sample.

Lemma metrics_exact_witness : new_query batch state /\
  exists st b, run_adds bytes_eqb read 4 0 (Some batch) [file; file] = Ok (Some (mkBatch [st] b)) /\ b = mkBudgets 1 3 24 21 /\
    series st !! ([Some (TraceMetrics.string_value (str "get"))], None) = Some (mkSeries [F64_TWO; 0; F64_TWO] [0; 0; 0]) /\
    exists out, cost out = 24 /\ holds_exactly st (present (map fst out)).
Proof.
  assert (Hq : new_query batch state) by (vm_compute; repeat split; congruence). split; [exact Hq|].
  set (answer := run_adds bytes_eqb read 4 0 (Some batch) [file; file]).
  assert (Ha : match answer with
    | Ok (Some (mkBatch [st] b)) => b = mkBudgets 1 3 24 21 /\ series st !! ([Some (TraceMetrics.string_value (str "get"))], None) = Some (mkSeries [F64_TWO; 0; F64_TWO] [0; 0; 0])
    | _ => False end) by (vm_compute; split; reflexivity).
  destruct answer as [[[[|st [|st2 l]] b]|]|e|] eqn:E; try (exfalso; exact Ha). destruct Ha as [Hb Hs]. exists st, b. split; [reflexivity|]. split; [exact Hb|]. split; [exact Hs|].
  destruct (proj1 (metrics_exact bytes_eqb read 4 0 [file; file] batch state _ Hq) E) as (rows & selected & out & st' & _ & _ & _ & _ & _ & Hm & Hh & _).
  injection Hm as Hst Hbb. exists out. split; [|rewrite Hst; exact Hh]. rewrite Hb in Hbb. apply (f_equal b_work) in Hbb. symmetry. exact Hbb.
Defined.
