(* ===== verification/TraceMetricsRank.v ===== *)
(** The second stage of a TraceQL metrics query: which values of an interval
    the [k] best series keep. *)

From stdpp Require Import gmap sorting.
From S2P Require Import Prelude Float64 OrdMap TierOrder TraceFields TraceMetrics TraceMetricsRecord.

(** ** The first of a sorted list *)

Section Ranks.
Context {A K : Type} `{Ordered K} (key : A -> K).

Definition precedes (y x : A) : bool := match cmp (key y) (key x) with Lt => true | _ => false end.
(** How many of the list come before. *)
Definition rank (l : list A) (x : A) : Z := len (List.filter (fun y => precedes y x) l).

Lemma rank_perm l k x : l ≡ₚ k -> rank l x = rank k x.
Proof. intros Hp. unfold rank, len. by rewrite (Permutation_length (filter_perm _ _ _ Hp)). Qed.

Lemma sorted_before a x c : StronglySorted (key_leP key) (a ++ x :: c) -> NoDup (map key (a ++ x :: c)) -> rank (a ++ x :: c) x = len a.
Proof.
  intros Hs Hn. unfold rank. rewrite List.filter_app. cbn [List.filter]. unfold precedes at 2. rewrite cmp_refl.
  rewrite filter_id, filter_nil; [by rewrite app_nil_r| |].
  - apply StronglySorted_app_1_r, StronglySorted_inv in Hs as [_ Hs]. eapply Forall_impl; [|exact Hs]. intros y Hy. unfold precedes. rewrite cmp_antisym.
    unfold key_leP, key_le in Hy. by destruct (cmp (key x) (key y)).
  - apply list.Forall_forall. intros y Hy. assert (Hle : key_leP key y x) by (eapply StronglySorted_app_1_elem_of; [exact Hs|done|by left]).
    apply key_le_cases in Hle as [Hl|Hl]; [by unfold precedes; rewrite Hl|]. exfalso. rewrite map_app in Hn. apply list.NoDup_app in Hn as (_ & Hn & _).
    apply (Hn (key y)); [by apply list_elem_of_In, in_map, list_elem_of_In|]. rewrite Hl. cbn [map]. by left.
Qed.

(** The first [k] after sorting are those before which fewer than [k] come. *)
Lemma top_exact l x (k : nat) : NoDup (map key l) -> x ∈ take k (sort_by (key_le key) l) <-> x ∈ l /\ rank l x < Z.of_nat k.
Proof.
  intros Hn. pose proof (sort_by_perm (key_le key) l) as Hp. pose proof (sort_strongly key l) as Hs.
  rewrite <- (rank_perm _ _ x Hp). rewrite <- (Permutation_map key Hp) in Hn. rewrite <- Hp at 2.
  set (s := sort_by (key_le key) l) in *. clearbody s.
  assert (Hr : forall i, s !! i = Some x -> rank s x = Z.of_nat i).
  { intros i Hi. pose proof (take_drop_middle s i x Hi) as E. rewrite <- E in Hs, Hn |- *. rewrite sorted_before by done. unfold len. rewrite length_take_le; [done|].
    apply lookup_lt_Some in Hi. lia. }
  rewrite elem_of_take, list_elem_of_lookup. split.
  - intros (i & Hi & Hk). split; [by exists i|]. rewrite (Hr i Hi). lia.
  - intros [[i Hi] Hk]. rewrite (Hr i Hi) in Hk. exists i. split; [done|lia].
Qed.
End Ranks.

(** ** Tables of values *)

Definition table (n m : Z) (F : Z -> Z -> Z) : list (list Z) := map (fun s => map (F s) (indices m)) (indices n).
Definition set_cell (F : Z -> Z -> Z) (w : Z * Z * Z) : Z -> Z -> Z :=
  fun s i => if (s =? fst (fst w)) && (i =? snd (fst w)) then snd w else F s i.

Lemma alter_indices {A} (g : A -> A) (f : Z -> A) n s : 0 <= s < n ->
  alter g (Z.to_nat s) (map f (indices n)) = map (fun j => if j =? s then g (f j) else f j) (indices n).
Proof.
  intros Hs. apply list_eq. intros j. rewrite lookup_indices. destruct (decide (j = Z.to_nat s)) as [->|Hj].
  - rewrite list_lookup_alter_eq, lookup_indices, bool_decide_true by lia. cbn. rewrite (proj2 (Z.eqb_eq _ _)) by lia. done.
  - rewrite list_lookup_alter_ne, lookup_indices by done. destruct (bool_decide _); [|done]. by rewrite (proj2 (Z.eqb_neq _ _)) by lia.
Qed.

Lemma keep_winner_table n m F w : 0 <= fst (fst w) < n -> 0 <= snd (fst w) < m -> keep_winner (table n m F) w = table n m (set_cell F w).
Proof.
  destruct w as [[s i] v]. cbn [fst snd]. intros Hs Hi. unfold keep_winner, table. rewrite alter_indices by done.
  apply map_ext. intros j. unfold set_cell. cbn [fst snd]. destruct (Z.eqb_spec j s) as [->|Hj]; [|done].
  pose proof (insert_indices (F s) (fun i' => if i' =? i then v else F s i') m i Hi ltac:(intros k Hk; cbn; by rewrite (proj2 (Z.eqb_neq k i) Hk))) as E.
  cbn in E. rewrite Z.eqb_refl in E. exact E.
Qed.

Lemma fold_table n m won : forall F, Forall (fun w : Z * Z * Z => 0 <= fst (fst w) < n /\ 0 <= snd (fst w) < m) won ->
  fold_left keep_winner won (table n m F) = table n m (fold_left set_cell won F).
Proof.
  induction won as [|w won IH]; intros F Hw; [done|]. apply Forall_cons_1 in Hw as [[Hs Hi] Hw]. cbn [fold_left]. rewrite keep_winner_table by done. by apply IH.
Qed.

(** A cell set at most to one value. *)
Lemma fold_cells won s i x : (forall v, (s, i, v) ∈ won -> v = x) -> forall F,
  fold_left set_cell won F s i = if existsb (fun w => (s =? fst (fst w)) && (i =? snd (fst w))) won then x else F s i.
Proof.
  induction won as [|[[s' i'] v] won IH]; intros Hv F; [done|]. cbn [fold_left existsb fst snd]. rewrite IH by (intros u Hu; apply Hv; by right).
  unfold set_cell. cbn [fst snd]. destruct (existsb _ won); [by rewrite orb_true_r|]. rewrite orb_false_r. destruct ((s =? s') && (i =? i')) eqn:E; [|done]. bools. subst. apply Hv. by left.
Qed.

Lemma table_replicate n m c : replicate (Z.to_nat n) (replicate (Z.to_nat m) c) = table n m (fun _ _ => c).
Proof. unfold table, indices. by rewrite !map_map, !map_const_seq. Qed.

(** ** The candidates of an interval *)

Definition value_at (f : Final) (i : Z) : option Z := match get (snd f) i with Some v => if f64_is_nan v then None else Some v | None => None end.

Lemma elem_zip_seq {A} (l : list A) (x : Z) (f : A) : forall a, (x, f) ∈ zip (map Z.of_nat (seq a (length l))) l <-> exists j, l !! j = Some f /\ x = Z.of_nat (a + j).
Proof.
  induction l as [|g l IH]; intros a; cbn [length seq map zip zip_with]; [split; [by intros ?%not_elem_of_nil|by intros (j & ? & _)]|].
  rewrite elem_of_cons, IH. split.
  - intros [[= -> ->]|(j & Hj & ->)]; [exists 0%nat; split; [done|lia]|exists (S j); split; [done|lia]].
  - intros ([|j] & Hj & ->); [injection Hj as ->; left; f_equal; lia|right; exists j; split; [done|lia]].
Qed.

Lemma elem_candidates finals i s v : (s, v) ∈ candidates finals i <-> exists j f, s = Z.of_nat j /\ finals !! j = Some f /\ value_at f i = Some v.
Proof.
  unfold candidates. rewrite list_elem_of_In, in_flat_map. setoid_rewrite <- list_elem_of_In. unfold value_at. split.
  - intros ([x f] & Hx & Hv). apply elem_zip_seq in Hx as (j & Hj & ->). exists j, f. destruct (get (snd f) i) as [u|]; [|by apply not_elem_of_nil in Hv].
    destruct (f64_is_nan u); [by apply not_elem_of_nil in Hv|]. apply list_elem_of_singleton in Hv. by injection Hv as -> ->.
  - intros (j & f & -> & Hj & Hv). exists (Z.of_nat j, f). split; [apply elem_zip_seq; by exists j|]. destruct (get (snd f) i) as [u|]; [|done]. destruct (f64_is_nan u); [done|]. injection Hv as ->. by left.
Qed.

Lemma candidates_nodup finals i : NoDup (map fst (candidates finals i)).
Proof.
  unfold candidates. assert (Hn : NoDup (map Z.of_nat (seq 0 (length finals)))) by (apply (NoDup_fmap_2 Z.of_nat), NoDup_seq).
  revert Hn. generalize (map Z.of_nat (seq 0 (length finals))). intros l. revert finals. induction l as [|s l IH]; intros [|f finals] Hn; try constructor. cbn [zip zip_with flat_map].
  apply list.NoDup_cons in Hn as [Hs Hn]. rewrite map_app. apply list.NoDup_app. split_and!; [|intros x Hx Hin|by apply IH].
  - destruct (get (snd f) i) as [u|]; [destruct (f64_is_nan u)|]; cbn; try apply NoDup_nil_2; apply NoDup_singleton.
  - assert (x = s) as ->. { destruct (get (snd f) i) as [u|]; [destruct (f64_is_nan u)|]; cbn in Hx; try by apply not_elem_of_nil in Hx. by apply list_elem_of_singleton in Hx. }
    apply Hs. apply list_elem_of_In, in_map_iff in Hin as ([x v] & Ex & Hin). cbn in Ex. subst x. apply in_flat_map in Hin as ([y g] & Hy & Hv). apply in_combine_l in Hy.
    apply list_elem_of_In. destruct (get (snd g) i) as [u|]; [|done]. destruct (f64_is_nan u); [done|]. destruct Hv as [[= -> _]|[]]. done.
Qed.

(** ** The ranking *)

(** The larger value is better for [topk] and the smaller one for [bottomk];
    of equal values the earlier series, and the later one. *)
Definition better (top : bool) (a b : Z * Z) : bool :=
  if top then (total_key (snd b) <? total_key (snd a)) || ((total_key (snd a) =? total_key (snd b)) && (fst a <? fst b))
  else (total_key (snd a) <? total_key (snd b)) || ((total_key (snd a) =? total_key (snd b)) && (fst b <? fst a)).
Definition place (finals : list Final) (top : bool) (i s v : Z) : Z := len (List.filter (fun c => better top c (s, v)) (candidates finals i)).
(** What a series keeps of an interval. *)
Definition kept_value (finals : list Final) (top : bool) (k s : Z) (f : Final) (i : Z) : Z :=
  match value_at f i with Some v => if place finals top i s v <? k then v else F64_NAN | None => F64_NAN end.

Definition rank_key (top : bool) (c : Z * Z) : Z * Z := if top then (- total_key (snd c), fst c) else (total_key (snd c), - fst c).

Ltac by_cases :=
  repeat match goal with
  | |- context[?a ?= ?b] => destruct (Z.compare_spec a b)
  | |- context[?a <? ?b] => destruct (Z.ltb_spec a b)
  | |- context[?a <=? ?b] => destruct (Z.leb_spec a b)
  | |- context[?a =? ?b] => destruct (Z.eqb_spec a b)
  end; cbn; try done; try (exfalso; lia).

Lemma best_leb_key top a b : best_leb top a b = key_le (rank_key top) a b.
Proof. destruct a as [s v], b as [t u]. unfold best_leb, key_le, rank_key. destruct top; cbn; generalize (total_key v), (total_key u); intros x y; by_cases. Qed.
Lemma better_key top a b : better top a b = precedes (rank_key top) a b.
Proof. destruct a as [s v], b as [t u]. unfold better, precedes, rank_key. destruct top; cbn; generalize (total_key v), (total_key u); intros x y; by_cases. Qed.

Lemma sort_by_ext {A} (f g : A -> A -> bool) l : (forall a b, f a b = g a b) -> sort_by f l = sort_by g l.
Proof.
  intros Hfg. induction l as [|x l IH]; [done|]. cbn [sort_by]. rewrite IH. generalize (sort_by g l). intros k.
  induction k as [|y k IHk]; [done|]. cbn [sort_insert]. by rewrite Hfg, IHk.
Qed.

Lemma winners_exact finals top k i s v : (s, v) ∈ winners finals top k i <-> (s, v) ∈ candidates finals i /\ place finals top i s v < k.
Proof.
  unfold winners. rewrite (sort_by_ext _ _ _ (best_leb_key top)), top_exact.
  - assert (Hp : rank (rank_key top) (candidates finals i) (s, v) = place finals top i s v) by (unfold rank, place; f_equal; apply List.filter_ext; intros c; by rewrite better_key).
    rewrite Hp. pose proof (len_nonneg (List.filter (fun c => better top c (s, v)) (candidates finals i))) as Hl. fold (place finals top i s v) in Hl.
    split; intros [H1 H2]; (split; [done|lia]).
  - apply (NoDup_fmap_1 (fun c : Z * Z => if top then snd c else - snd c)). pose proof (candidates_nodup finals i) as Hn.
    replace (_ <$> _) with (map fst (candidates finals i)); [done|]. change (map fst (candidates finals i) = map (fun c : Z * Z => if top then snd c else - snd c) (map (rank_key top) (candidates finals i))).
    rewrite map_map. apply map_ext. intros [t u]. destruct top; cbn; lia.
Qed.

Lemma zip_rows (finals : list Final) (g : Z -> list Z) (h : Z -> Final -> list Z) : forall a,
  (forall j f, finals !! j = Some f -> g (Z.of_nat (a + j)) = h (Z.of_nat (a + j)) f) ->
  zip_with (fun f values => (fst f, values)) finals (map g (map Z.of_nat (seq a (length finals)))) =
  map (fun '(s, f) => (fst f, h s f)) (zip (map Z.of_nat (seq a (length finals))) finals).
Proof.
  induction finals as [|f finals IH]; intros a Hg; [done|]. cbn [length seq map zip_with]. f_equal.
  - f_equal. specialize (Hg 0%nat f eq_refl). by rewrite Nat.add_0_r in Hg.
  - apply IH. intros j f' Hj. specialize (Hg (S j) f' Hj). by rewrite <- Nat.add_succ_comm in Hg.
Qed.

(** C30. The ranking keeps, interval by interval, exactly the values of the [k]
    best series. With no more than [k] series nothing changes. Otherwise a
    value survives when fewer than [k] of the interval's values are better,
    where better is larger for [topk] and smaller for [bottomk], and of equal
    values the earlier series for the one and the later for the other; every
    other slot becomes empty, a series left without any value is dropped, and
    the rest keep their labels and their order. *)
Theorem select_k_exact (finals : list Final) (top : bool) (k intervals : Z) :
  select_k finals top k intervals =
    if len finals <=? k then finals
    else List.filter (fun f => any_value (snd f))
      (map (fun '(s, f) => (fst f, map (kept_value finals top k s f) (indices intervals))) (zip (indices (len finals)) finals)).
Proof.
  unfold select_k. destruct (len finals <=? k); [done|]. cbv zeta. f_equal.
  set (won := flat_map _ _). replace (length finals) with (Z.to_nat (len finals)) by (unfold len; lia). rewrite table_replicate.
  assert (Hwon : forall s i v, (s, i, v) ∈ won <-> 0 <= i < intervals /\ (s, v) ∈ candidates finals i /\ place finals top i s v < k).
  { intros s i v. unfold won. rewrite list_elem_of_In, in_flat_map. split.
    - intros (j & Hj & Hw). apply in_map_iff in Hj as (n & <- & Hn). apply in_seq in Hn. apply in_map_iff in Hw as ([t u] & [= -> <- ->] & Hw).
      apply list_elem_of_In, winners_exact in Hw. split; [lia|done].
    - intros (Hi & Hw). exists i. split; [apply in_map_iff; exists (Z.to_nat i); split; [lia|apply in_seq; lia]|].
      apply in_map_iff. exists (s, v). split; [done|]. by apply list_elem_of_In, winners_exact. }
  rewrite fold_table.
  2: { apply list.Forall_forall. intros [[s i] v] Hw. apply Hwon in Hw as (Hi & Hc & _). apply elem_candidates in Hc as (j & f & -> & Hj & _). apply lookup_lt_Some in Hj. cbn. unfold len. lia. }
  assert (Hcell : forall (j : nat) f i, finals !! j = Some f -> 0 <= i < intervals -> fold_left set_cell won (fun _ _ => F64_NAN) (Z.of_nat j) i = kept_value finals top k (Z.of_nat j) f i).
  { intros j f i Hj Hi. unfold kept_value. assert (Hval : forall v, (Z.of_nat j, i, v) ∈ won -> value_at f i = Some v).
    { intros v Hw. apply Hwon in Hw as (_ & Hc & _). apply elem_candidates in Hc as (j' & f' & Ej & Hj' & Hv). apply Nat2Z.inj in Ej as <-. rewrite Hj in Hj'. by injection Hj' as <-. }
    destruct (existsb (fun w => (Z.of_nat j =? fst (fst w)) && (i =? snd (fst w))) won) eqn:Ex.
    - apply existsb_exists in Ex as ([[s i'] v] & Hin & E). cbn in E. bools. subst s i'. apply list_elem_of_In in Hin. rewrite (Hval v Hin). pose proof Hin as Hp. apply Hwon in Hp as (_ & _ & Hp).
      rewrite (proj2 (Z.ltb_lt _ _)) by done. rewrite (fold_cells won _ _ v); [|intros u Hu; apply Hval in Hu; pose proof (Hval v Hin); congruence].
      destruct (existsb _ won) eqn:Ex; [done|]. exfalso. apply not_true_iff_false in Ex. apply Ex, existsb_exists. exists (Z.of_nat j, i, v). cbn. rewrite !Z.eqb_refl. split; [by apply list_elem_of_In|done].
    - rewrite (fold_cells won _ _ F64_NAN), Ex; [|intros u Hu; exfalso; apply not_true_iff_false in Ex; apply Ex, existsb_exists; exists (Z.of_nat j, i, u); cbn; rewrite !Z.eqb_refl; split; [by apply list_elem_of_In|done]].
      destruct (value_at f i) as [v|] eqn:Ev; [|done]. destruct (Z.ltb_spec (place finals top i (Z.of_nat j) v) k); [|done]. exfalso.
      assert (Hw : (Z.of_nat j, i, v) ∈ won) by (apply Hwon; split; [done|split; [apply elem_candidates; by exists j, f|done]]).
      apply not_true_iff_false in Ex. apply Ex, existsb_exists. exists (Z.of_nat j, i, v). cbn. rewrite !Z.eqb_refl. split; [by apply list_elem_of_In|done]. }
  unfold table. replace (indices (len finals)) with (map Z.of_nat (seq 0 (length finals))) by (unfold indices, len; by rewrite Nat2Z.id). apply zip_rows. intros j f Hj. apply map_ext_in. intros i Hi.
  apply in_map_iff in Hi as (n & <- & Hn). apply in_seq in Hn. apply Hcell; [done|lia].
Qed.
