(* ===== verification/TraceMetricsOut.v ===== *)
(** The end of a TraceQL metrics query (trace_metrics.rs): the series in the
    order of their labels, quantiles between the power-of-two buckets, the JSON
    of a query on any sink, and the packed arrays of an expression's leaves. *)

From stdpp Require Import gmap.
From S2P Require Import Prelude Utf8 External Float64 OrdMap Out JsonWrite TraceFields Structural TempoExpression TraceMetrics.

(** ** Numbers *)

(** [trim_end_matches(".0")]: every such end, here on the reversed text. *)
Fixpoint trim_rev (l : bytes) : bytes := match l with 48 :: 46 :: l => trim_rev l | _ => l end.
Definition trim_zero (text : bytes) : bytes := rev (trim_rev (rev text)).
Definition quoted (s : bytes) : bytes := [QUOTE] ++ s ++ [QUOTE].

Section Numbers.
Context `{Ryu} {S : Type} `{Sink S}.

(** Values that are not finite are written by name. *)
Definition write_number (out : S) (v : Z) : S :=
  if f64_is_nan v then extend out (quoted (str "NaN"))
  else if negb (f64_is_finite v) then extend out (if f64_lt 0 v then quoted (str "Infinity") else quoted (str "-Infinity"))
  else extend out (trim_zero (ryu_format_finite v)).
End Numbers.

Definition double_value `{Ryu} (v : Z) : bytes := push (write_number ([123] ++ quoted (str "doubleValue") ++ [58]) v) 125.

(** ** Quantiles *)

Section Quantiles.
Context `{Libm}.

(** The bucket in which the count is reached: [inr] where it ends exactly. *)
Fixpoint quantile_loop (max seen index i : Z) (buckets : list (Z * Z)) : (Z * Z) + Z :=
  match buckets with
  | [] => inl (seen, index)
  | (bound, count) :: buckets =>
      if f64_lt max (f64_add seen count) then inl (seen, i)
      else
        let seen := f64_add seen count in
        if f64_eq seen max then inr bound else quantile_loop max seen i (i + 1) buckets
  end.

Definition log2_quantile (p : Z) (buckets : list (Z * Z)) : Z :=
  let total := fold_left f64_add (map snd buckets) 0 in
  if f64_is_nan p || negb (f64_le 0 p && f64_le p F64_ONE) || bool_decide (buckets = []) || f64_is_zero total then 0
  else
    let max := f64_of_Z (Z.max 1 (f64_as_u64 (f64_ceil (f64_mul p total)))) in
    match quantile_loop max 0 0 0 buckets with
    | inr bound => bound
    | inl (seen, index) =>
        let interp := f64_div (f64_sub max seen) (from_option snd 0 (get buckets index)) in
        let hi := f64_log2 (from_option fst 0 (get buckets index)) in
        let lo := if 0 <? index then f64_log2 (from_option fst 0 (get buckets (index - 1))) else f64_sub hi F64_ONE in
        f64_powf F64_TWO (f64_add lo (f64_mul (f64_sub hi lo) interp))
    end.
End Quantiles.

(** ** Finished series *)

Section Finish.
Context {Regex : Type} `{Libm} `{Ryu} `{Itoa}.
Implicit Types (st : State (Regex := Regex)).

(** Labels in the order of the grouping without missing values; when all are
    missing the first is kept. *)
Definition label_list st (values : Labels) : list (bytes * bytes) :=
  let labels := flat_map (fun '((_, name), value) => match value with Some v => [(name, v)] | None => [] end) (zip st.(s_by) values) in
  match labels, st.(s_by) with
  | [], (_, name) :: _ => if negb (bucketed st.(s_op)) then [(name, string_value (str "nil"))] else []
  | _, _ => labels
  end.

Abbreviation Buckets := (list (omap Z Z)).

(** A bucket of a series joins those of the same labels in every interval. *)
Definition add_bucket (b : Z) (values : list Z) (group : Buckets) : Buckets :=
  fold_left (fun group '(i, count) => if f64_lt 0 count then alter (put b count) i group else group) (zip (seq 0 (length values)) values) group.
Definition group_series (intervals : Z) (groups : omap Labels Buckets) (e : Key * Series) : Answer (omap Labels Buckets) :=
  let '((labels, b), x) := e in
  let? b := ok_or b Invalid in
  Ok (OrdMap.update labels (replicate (Z.to_nat intervals) []) (add_bucket b x.(s_values)) groups).
Definition quantile_value (q : Z) (buckets : omap Z Z) : Z :=
  log2_quantile q (sort_by (fun a b => total_key (fst a) <=? total_key (fst b)) buckets).
Definition quantile_finals st (qs : list Z) (groups : omap Labels Buckets) : list Final :=
  flat_map (fun '(labels, intervals) =>
    map (fun q => (label_list st labels ++ [(str "p", double_value q)], map (quantile_value q) intervals)) qs) groups.

(** Labels first, then buckets by value, none before any. *)
Definition final_leb (a b : Key * Series) : bool :=
  match cmp (fst (fst a)) (fst (fst b)) with
  | Lt => true
  | Gt => false
  | Eq =>
      match snd (fst a), snd (fst b) with
      | Some x, Some y => negb (f64_lt y x)
      | Some _, None => false
      | None, _ => true
      end
  end.

Definition name_label (o : Op) : bytes * bytes := (str "__name__", string_value (op_name o)).
Definition final_values (o : Op) (rate : Z) (x : Series) : list Z :=
  match o with
  | Rate => map (fun v => f64_mul v rate) x.(s_values)
  | Avg => zip_with (fun sum n => if n =? 0 then F64_NAN else f64_div sum (f64_of_Z n)) x.(s_values) x.(s_counts)
  | _ => x.(s_values)
  end.
Definition final_of st (rate : Z) (e : Key * Series) : Final :=
  let '((labels, b), x) := e in
  let names := if bool_decide (st.(s_by) = []) && negb (is_some b) then [name_label st.(s_op)] else label_list st labels in
  let names := match b with Some bits => names ++ [(str "__bucket", double_value bits)] | None => names end in
  (names, final_values st.(s_op) rate x).

(** The order of a hash map is that of [map_to_list]; only entries of the same
    labels and equal buckets keep it. *)
Definition final_series st : Answer (list Final) :=
  let count := st.(s_mapper).(m_count) in
  if bool_decide (st.(series) = ∅) && bool_decide (st.(s_by) = []) && counts_spans st.(s_op) then
    Ok [([name_label st.(s_op)], replicate (Z.to_nat count) 0)]
  else
    let rate := f64_div F64_BILLION (f64_of_Z st.(s_mapper).(m_step)) in
    match st.(s_op) with
    | Quantile qs => let? groups := foldM (group_series count) [] (map_to_list st.(series)) in Ok (quantile_finals st qs groups)
    | _ => Ok (map (final_of st rate) (sort_by final_leb (map_to_list st.(series))))
    end.

(** ** The response *)

Section Write.
Context {S : Type} `{Sink S}.

Definition write_label (first : bool) (out : S) (l : bytes * bytes) : S :=
  let out := if first then out else push out 44 in
  let out := extend out ([123] ++ quoted (str "key") ++ [58]) in
  let out := write_str out (fst l) in
  let out := extend out ([44] ++ quoted (str "value") ++ [58]) in
  push (extend out (snd l)) 125.
Definition write_sample (m : Mapper) (first : bool) (out : S) (x : Z * Z) : S :=
  let out := if first then out else push out 44 in
  let out := extend out ([123] ++ quoted (str "timestampMs") ++ [58; 34]) in
  let out := extend out (itoa_format (timestamp_ms m (fst x))) in
  let out := extend out ([34; 44] ++ quoted (str "value") ++ [58]) in
  push (write_number out (snd x)) 125.

(** The first element is written without a comma before it. *)
Definition write_each {A} (f : bool -> S -> A -> S) (out : S) (l : list A) : S :=
  match l with [] => out | x :: l => fold_left (f false) l (f true out x) end.

Definition samples_of (values : list Z) : list (Z * Z) :=
  List.filter (fun x => negb (f64_is_nan (snd x))) (zip (indices (len values)) values).

Definition write_series st (out : S) (written : Z) (labels : list (bytes * bytes)) (values : list Z) : S * Z :=
  match samples_of values with
  | [] => (out, written)
  | (_, v) :: _ =>
      let out := if 0 <? written then push out 44 else out in
      let out := extend out ([123] ++ quoted (str "labels") ++ [58; 91]) in
      let out := write_each write_label out labels in
      if st.(s_mapper).(m_instant) then
        let out := extend out ([93; 44] ++ quoted (str "value") ++ [58]) in
        (push (write_number out v) 125, written + 1)
      else
        let out := extend out ([93; 44] ++ quoted (str "samples") ++ [58; 91]) in
        let out := write_each (write_sample st.(s_mapper)) out (samples_of values) in
        (extend out [93; 125], written + 1)
  end.

Definition write st (finals : list Final) (out : S) : Answer S :=
  let out := extend out ([123] ++ quoted (str "series") ++ [58; 91]) in
  let? (out, _) :=
    foldM (fun '(out, written) '(names, values) =>
      let (out, written) := write_series st out written names values in
      if MAX_OUTPUT <? sink_len out then Err Budget else Ok (out, written)) (out, 0) finals in
  let out := extend out [93; 125] in
  if MAX_OUTPUT <? sink_len out then Err Budget else Ok out.
End Write.

Context `{OwnedBinary}.

(** Counted first, then written to a binary of that size. *)
Definition finish st (b : Budgets) : Answer bytes :=
  let? finals := final_series st in
  let? (finals, _) := match st.(second) with Some r => apply r finals st.(s_mapper).(m_count) b | None => Ok (finals, b) end in
  let? counter := write st finals (Counter_new MAX_OUTPUT) in
  let? out := write st finals (BinSink_with_capacity (sink_len counter)) in
  Ok (BinSink_finish out).

(** The resource is emptied whatever the answer. *)
Definition trace_metrics_finish (metrics : option (Batch (Regex := Regex))) : Answer bytes * option (Batch (Regex := Regex)) :=
  (match metrics with
   | Some (mkBatch [st] b) => finish st b
   | _ => Err Invalid
   end, None).

(** ** Packed arrays *)

(** [to_be_bytes]. *)
Definition pack (values : list Z) : bytes := concat (map (fun v => rev (to_le_bytes 8 v)) values).
Abbreviation Packed := (list (bytes * bytes) * bytes)%type.

(** The bytes of all leaves so far are bounded together. *)
Definition pack_series (acc : list Packed * Z) (f : Final) : Answer (list Packed * Z) :=
  let '(out, size) := acc in
  let '(labels, values) := f in
  let size := sat_u64 (size + len values * 8) in
  let size := sat_u64 (size + fold_right Z.add 0 (map (fun '(k, v) => len k + len v) labels)) in
  if MAX_OUTPUT <? size then Err Budget else Ok (out ++ [(labels, pack values)], size).

Definition expansion (o : Op) : Z := match o with Quantile qs => len qs | _ => 1 end.
Definition finish_leaf (acc : list (list Packed) * Z * Z * Budgets) st : Answer (list (list Packed) * Z * Z * Budgets) :=
  let '(leaves, points, size, b) := acc in
  let count := st.(s_mapper).(m_count) in
  let points := sat_u64 (points + wrap_u64 (Z.max (Z.of_nat (base.size st.(series))) 1 * count * expansion st.(s_op))) in
  if MAX_POINTS <? points then Err Budget
  else
    let? finals := final_series st in
    let? (finals, b) := match st.(second) with Some r => apply r finals count b | None => Ok (finals, b) end in
    let? (leaf, size) := foldM pack_series ([], size) finals in
    Ok (leaves ++ [leaf], points, size, b).

Definition trace_metrics_batch_finish (locked : bool) (metrics : option (Batch (Regex := Regex))) : Answer (list (list Packed)) * option (Batch (Regex := Regex)) :=
  if locked then (Err Invalid, metrics)
  else
    (let? batch := ok_or metrics Invalid in
     let? (leaves, _, _, _) := foldM finish_leaf ([], 0, 0, batch.(b_budget)) batch.(states) in
     Ok leaves, None).
End Finish.

(** ** Two sinks write alike *)

Section Alike.
Context {Regex : Type} `{Ryu} `{Itoa} {S : Type} `{Sink S} (R : S -> bytes -> Prop).
Hypothesis step : forall o v c v', R o v -> run_op v c = Some v' -> exists o', run_op o c = Some o' /\ R o' v'.
Hypothesis over : forall o v, R o v -> (MAX_OUTPUT <? sink_len o) = (MAX_OUTPUT <? len v).
Implicit Types (st : State (Regex := Regex)).

Lemma extend_alike o v b : R o v -> R (extend o b) (extend v b).
Proof. intros HR. destruct (step o v (Extend b) _ HR eq_refl) as (o' & [= <-] & Ho). exact Ho. Qed.
Lemma push_alike o v b : R o v -> R (push o b) (push v b).
Proof. intros HR. destruct (step o v (Push b) _ HR eq_refl) as (o' & [= <-] & Ho). exact Ho. Qed.

Lemma write_str_alike o v s : R o v -> R (write_str o s) (write_str v s).
Proof.
  intros HR. destruct (simulation R (fun _ => True) (fun o v c v' HR _ E => step o v c v' HR E) o v _ _ HR ltac:(by apply Forall_true) (write_str_run v s)) as (o' & Ho & HR').
  rewrite write_str_run in Ho. by injection Ho as <-.
Qed.

Lemma write_number_alike o v n : R o v -> R (write_number o n) (write_number v n).
Proof. intros HR. unfold write_number. destruct (f64_is_nan n); [by apply extend_alike|]. destruct (negb _); by apply extend_alike. Qed.

Lemma write_label_alike first o v l : R o v -> R (write_label first o l) (write_label first v l).
Proof. intros HR. unfold write_label. apply push_alike, extend_alike, extend_alike, write_str_alike, extend_alike. destruct first; [done|by apply push_alike]. Qed.

Lemma write_sample_alike m first o v x : R o v -> R (write_sample m first o x) (write_sample m first v x).
Proof. intros HR. unfold write_sample. apply push_alike, write_number_alike, extend_alike, extend_alike, extend_alike. destruct first; [done|by apply push_alike]. Qed.

Lemma write_each_alike {A} (f : bool -> S -> A -> S) (g : bool -> bytes -> A -> bytes) o v l :
  (forall first o v x, R o v -> R (f first o x) (g first v x)) -> R o v -> R (write_each f o l) (write_each g v l).
Proof.
  intros Hf HR. destruct l as [|x l]; [done|]. cbn [write_each]. specialize (Hf true o v x HR) as Hx. revert Hx. generalize (f true o x), (g true v x).
  induction l as [|y l IH]; intros o' v' Ho; [done|]. cbn [fold_left]. by apply IH, Hf.
Qed.

Lemma write_series_alike st o v written labels values : R o v ->
  R (fst (write_series st o written labels values)) (fst (write_series st v written labels values)) /\
  snd (write_series st o written labels values) = snd (write_series st v written labels values).
Proof.
  intros HR. unfold write_series. destruct (samples_of values) as [|[i n] l]; [done|]. cbv zeta.
  assert (Hl : R (write_each write_label (extend (if 0 <? written then push o 44 else o) ([123] ++ quoted (str "labels") ++ [58; 91])) labels)
    (write_each write_label (extend (if 0 <? written then push v 44 else v) ([123] ++ quoted (str "labels") ++ [58; 91])) labels)).
  { apply write_each_alike; [intros; by apply write_label_alike|]. apply extend_alike. destruct (0 <? written); [by apply push_alike|done]. }
  destruct (m_instant (s_mapper st)); cbn [fst snd]; (split; [|done]).
  - by apply push_alike, write_number_alike, extend_alike.
  - apply extend_alike, write_each_alike; [intros; by apply write_sample_alike|]. by apply extend_alike.
Qed.

Definition answers_alike (a : Answer S) (b : Answer bytes) : Prop :=
  match a, b with Ok o, Ok v => R o v | Err e, Err e' => e = e' | Fuel, Fuel => True | _, _ => False end.

Lemma write_alike st finals o v : R o v -> answers_alike (write st finals o) (write st finals v).
Proof.
  intros HR. unfold write. cbv zeta. set (f := foldM _ (extend o _, 0) _). set (g := foldM _ (extend v _, 0) _).
  assert (Hf : match f, g with Ok (o, n), Ok (v, m) => R o v /\ n = m | Err e, Err e' => e = e' | Fuel, Fuel => True | _, _ => False end).
  { subst f g. generalize 0 as n. pose proof (extend_alike o v ([123] ++ quoted (str "series") ++ [58; 91]) HR) as Hx. revert Hx. generalize (extend o ([123] ++ quoted (str "series") ++ [58; 91])), (extend v ([123] ++ quoted (str "series") ++ [58; 91])).
    induction finals as [|[names values] finals IH]; intros o1 v1 Hx n; cbn [foldM]; [done|].
    destruct (write_series_alike st o1 v1 n names values Hx) as [Hs Hn]. destruct (write_series st o1 n names values) as [o2 n2], (write_series st v1 n names values) as [v2 m2].
    cbn [fst snd] in *. subst m2. rewrite (over o2 v2 Hs). cbn [sink_len Sink_Vec]. destruct (MAX_OUTPUT <? len v2); [done|]. by apply IH. }
  destruct f as [[o1 n]|e|], g as [[v1 m]|e'|]; try done. destruct Hf as [Hf _]. apply (extend_alike _ _ [93; 125]) in Hf. rewrite (over _ _ Hf).
  cbn [sink_len Sink_Vec]. by destruct (_ <? _).
Qed.
End Alike.

(** ** The response *)

Section Response.
Context {Regex : Type} `{Libm} `{Ryu} `{Itoa} `{OwnedBinary}.

(** C31. The two passes of the response are one. Counting the bytes first and
    writing them to a binary of that size gives exactly what writing to a plain
    buffer gives, for every state, budget and allocator: the same text when it
    fits the limit, and the same error when it does not, so a response that
    was counted is never refused while it is written and never differs from
    what was counted. *)
Theorem metrics_response_exact (st : State (Regex := Regex)) (b : Budgets) :
  finish st b =
    let? finals := final_series st in
    let? (finals, _) := match st.(second) with Some r => apply r finals st.(s_mapper).(m_count) b | None => Ok (finals, b) end in
    write st finals ([] : bytes).
Proof.
  unfold finish. destruct (final_series st) as [finals| |]; [|done..]. destruct (match second st with Some _ => _ | None => _ end) as [[kept b']| |]; [|done..].
  assert (Hlim : 0 <= MAX_OUTPUT < U64_MAX) by (unfold MAX_OUTPUT, U64_MAX; lia).
  pose proof (write_alike (Regex := Regex) (counter_rel MAX_OUTPUT) (fun o v c v' HR E => counter_step MAX_OUTPUT o v c v' Hlim HR E)) as Hc.
  specialize (Hc ltac:(intros o v [_ Ho]; cbn [sink_len Sink_Counter]; rewrite Ho; apply eq_true_iff_eq; rewrite !Z.ltb_lt; lia)).
  specialize (Hc st kept (Counter_new MAX_OUTPUT) [] ltac:(split; [done|by vm_compute])).
  destruct (write st kept (Counter_new MAX_OUTPUT)) as [c|e|], (write st kept ([] : bytes)) as [v|e'|] eqn:Ev; cbn in Hc; try done; [|by subst e'].
  pose proof (write_alike (Regex := Regex) bin_rel bin_step ltac:(intros o u (Ho & _ & _); cbn [sink_len Sink_Bin]; by rewrite Ho) st kept _ _ (bin_new_rel (sink_len c))) as Hb.
  rewrite Ev in Hb. destruct (write st kept (BinSink_with_capacity (sink_len c))) as [o|e|]; [|done..]. cbn in Hb. by rewrite (bin_finish_rel o v).
Qed.
End Response.
