(* ===== verification/TempoSpelling.v ===== *)
(** The spellings of Go in Tempo answers: durations (tempo_duration.rs) and
    floats (tempo_float.rs).

    Each spelling is shown to denote the number it was given, by a reader that
    adds up what is written. *)

From S2P Require Import Prelude External Float64.

(** ** Durations *)

Definition zeros (n : Z) : bytes := replicate (Z.to_nat n) 48.
(** [format!("{remainder:0precision$}")]. *)
Definition padded (precision n : Z) : bytes := zeros (precision - len (decimal n)) ++ decimal n.
(** [trim_start_matches('0')] and [trim_end_matches('0')]. *)
Fixpoint trim_start (l : bytes) : bytes := match l with c :: l' => if c =? 48 then trim_start l' else l | [] => [] end.
Definition trim_end (l : bytes) : bytes := rev (trim_start (rev l)).

Definition decimal_of (ns base precision : Z) : bytes :=
  let whole := ns / base in
  let remainder := ns mod base in
  if remainder =? 0 then decimal whole else decimal whole ++ [46] ++ trim_end (padded precision remainder).

Definition MICRO : bytes := [194; 181; 115].
Definition duration_format (ns : Z) : bytes :=
  if ns =? 0 then str "0s"
  else if ns <? 1000 then decimal ns ++ str "ns"
  else if ns <? 1000000 then decimal_of ns 1000 3 ++ MICRO
  else if ns <? 1000000000 then decimal_of ns 1000000 6 ++ str "ms"
  else
    let hours := ns / 3600000000000 in
    let minutes := ns / 60000000000 mod 60 in
    let seconds := ns mod 60000000000 in
    let out := if 0 <? hours then decimal hours ++ str "h" else [] in
    let out := out ++ (if (0 <? hours) || (0 <? minutes) then decimal minutes ++ str "m" else []) in
    out ++ decimal_of seconds 1000000000 9 ++ str "s".

(** ** Floats *)

(** [raw.split_once('e')]. *)
Fixpoint split_e (l : bytes) : bytes * option bytes :=
  match l with
  | [] => ([], None)
  | c :: l => if c =? 101 then ([], Some l) else let '(a, b) := split_e l in (c :: a, b)
  end.
(** [parse::<i32>()]. *)
Definition parse_i32 (s : bytes) : option Z :=
  let '(sign, digits) := match s with 45 :: l => (-1, l) | 43 :: l => (1, l) | _ => (1, s) end in
  if (0 <? len digits) && forallb is_digit digits then
    let n := sign * digits_value digits in
    if (-2147483648 <=? n) && (n <=? 2147483647) then Some n else None
  else None.
(** [mantissa.find('.').unwrap_or(len)]. *)
Fixpoint find_point (l : bytes) : Z := match l with [] => 0 | c :: l => if c =? 46 then 0 else 1 + find_point l end.

(** The digits [digits] with the point after the first, times ten to the
    exponent. *)
Definition float_text (digits : bytes) (exponent : Z) : bytes :=
  if negb ((-4 <=? exponent) && (exponent <? 6)) then
    let tail := if 1 <? len digits then [46] ++ drop 1 digits else [] in
    let e := decimal (Z.abs exponent) in
    take 1 digits ++ tail ++ [101] ++ (if exponent <? 0 then [45] else [43]) ++ zeros (2 - len e) ++ e
  else if exponent <? 0 then str "0." ++ zeros (- exponent - 1) ++ digits
  else
    let point := exponent + 1 in
    if len digits <=? point then digits ++ zeros (point - len digits) ++ str ".0"
    else take (Z.to_nat point) digits ++ [46] ++ drop (Z.to_nat point) digits.

(** The text of [ryu] for a positive number, spelled as Go does. *)
Definition respell (raw : bytes) : option bytes :=
  let '(mantissa, exponent) := split_e raw in
  let* exponent := parse_i32 (default (str "0") exponent) in
  let point := find_point mantissa + exponent in
  let all := List.filter (fun c => negb (c =? 46)) mantissa in
  let leading := len all - len (trim_start all) in
  let digits := trim_end (trim_start all) in
  Some (float_text digits (point - leading - 1)).

Definition f64_abs (v : Z) : Z := if 0x8000000000000000 <=? v then v - 0x8000000000000000 else v.
Definition float_format `{Ryu} (v : Z) : option bytes :=
  if f64_is_nan v then Some (str "NaN.0")
  else if v =? F64_INFINITY then Some (str "+Inf.0")
  else if v =? F64_NEG_INFINITY then Some (str "-Inf.0")
  else
    let sign := if 0x8000000000000000 <=? v then [45] else [] in
    if f64_is_zero v then Some (sign ++ str "0.0")
    else let* text := respell (ryu_format_finite (f64_abs v)) in Some (sign ++ text).

(** * Digits *)

Definition digits (l : bytes) : Prop := Forall (fun c => is_digit c = true) l.

Lemma decimal_all n : 0 <= n -> digits (decimal n).
Proof.
  intros Hn. unfold digits. eapply Forall_impl; [|by apply decimal_range]. cbn. intros c Hc. unfold is_digit. apply andb_true_iff. split; apply Z.leb_le; lia.
Qed.
Lemma decimal_not_nil n : 0 <= n -> decimal n <> [].
Proof. intros Hn. unfold decimal. cbn [decimal_digits]. destruct (n <? 10); [done|]. intros E. by apply app_eq_nil in E as [_ ?]. Qed.
Lemma zeros_digits n : digits (replicate n 48).
Proof. induction n; constructor; done. Qed.

Lemma trim_start_zeros l : exists n, l = replicate n 48 ++ trim_start l.
Proof.
  induction l as [|c l [n IH]]; [by exists 0%nat|]. cbn [trim_start]. destruct (Z.eqb_spec c 48) as [->|Hc]; [exists (S n); cbn; by rewrite <- IH|by exists 0%nat].
Qed.
Lemma trim_end_zeros l : exists n, l = trim_end l ++ replicate n 48.
Proof.
  destruct (trim_start_zeros (rev l)) as [n E]. exists n. unfold trim_end. apply (f_equal (@rev Z)) in E. rewrite rev_involutive, rev_app_distr in E.
  rewrite E at 1. f_equal. rewrite rev_alt. apply reverse_replicate.
Qed.
Lemma digits_app a b : digits (a ++ b) <-> digits a /\ digits b.
Proof. apply Forall_app. Qed.
Lemma trim_start_digits l : digits l -> digits (trim_start l).
Proof. intros Hl. destruct (trim_start_zeros l) as [n E]. rewrite E in Hl. by apply digits_app in Hl as [_ ?]. Qed.
Lemma trim_end_digits l : digits l -> digits (trim_end l).
Proof. intros Hl. destruct (trim_end_zeros l) as [n E]. rewrite E in Hl. by apply digits_app in Hl as [? _]. Qed.

Lemma len_replicate {A} n (x : A) : len (replicate n x) = Z.of_nat n.
Proof. unfold len. by rewrite length_replicate. Qed.

(** * Durations are read back *)

(** A unit, and what follows it. *)
Definition strip (w l : bytes) : option bytes := if bool_decide (take (length w) l = w) then Some (drop (length w) l) else None.
Fixpoint strip_first (units : list (bytes * Z)) (l : bytes) : option (Z * bytes) :=
  match units with
  | [] => None
  | (w, u) :: units => match strip w l with Some l => Some (u, l) | None => strip_first units l end
  end.
Definition units : list (bytes * Z) :=
  [(str "ns", 1); (MICRO, 1000); (str "ms", 1000000); (str "s", 1000000000); (str "m", 60000000000); (str "h", 3600000000000)].
Definition unit_of : bytes -> option (Z * bytes) := strip_first units.
(** A number with its unit, when it is a whole number of nanoseconds. *)
Definition read_part (l : bytes) : option (Z * bytes) :=
  let (ints, l) := span is_digit l in
  let '(fracs, l) := match l with c :: l' => if c =? 46 then span is_digit l' else ([], l) | [] => ([], l) end in
  let* (u, l) := unit_of l in
  let scale := 10 ^ len fracs in
  if bool_decide (ints = []) || negb ((digits_value fracs * u) mod scale =? 0) then None
  else Some (digits_value ints * u + digits_value fracs * u / scale, l).
Fixpoint read_duration (fuel : nat) (l : bytes) : option Z :=
  match l, fuel with
  | [], _ => Some 0
  | _, O => None
  | _, S fuel => let* (n, l) := read_part l in let* m := read_duration fuel l in Some (n + m)
  end.

Definition starts_unit (l : bytes) : Prop := match l with c :: _ => is_digit c = false /\ c <> 46 | [] => False end.

Lemma read_whole n l u r : 0 <= n -> starts_unit l -> unit_of l = Some (u, r) -> read_part (decimal n ++ l) = Some (n * u, r).
Proof.
  intros Hn Hl Hu. unfold read_part. rewrite span_app; [|by apply decimal_all|by destruct l as [|c l]; [|apply Hl]].
  destruct l as [|c l]; [done|]. destruct Hl as [_ Hc]. rewrite (proj2 (Z.eqb_neq c 46)) by done. rewrite Hu. cbv zeta.
  rewrite bool_decide_false by by apply decimal_not_nil. change (len (@nil Z)) with 0. cbn [orb]. rewrite decimal_value by done.
  change (digits_value []) with 0. rewrite Z.mul_0_l, Z.mod_0_l, Z.div_0_l by lia. cbn [Z.eqb negb]. by rewrite Z.add_0_r.
Qed.

Lemma go_padded_value p n : 0 <= n -> digits_value (padded p n) = n /\ digits (padded p n).
Proof.
  intros Hn. unfold padded, zeros. rewrite digits_value_app, digits_value_zeros, decimal_value by done. split; [lia|]. apply digits_app. split; [apply zeros_digits|by apply decimal_all].
Qed.
Lemma padded_len p n : len (decimal n) <= p -> len (padded p n) = p.
Proof. intros Hn. unfold padded, zeros. rewrite len_app, len_replicate. pose proof (len_nonneg (decimal n)). lia. Qed.

Lemma trimmed_value l : digits_value (trim_end l) * 10 ^ (len l - len (trim_end l)) = digits_value l /\ len (trim_end l) <= len l.
Proof.
  destruct (trim_end_zeros l) as [n E]. pose proof (f_equal digits_value E) as E1. pose proof (f_equal len E) as E2.
  rewrite digits_value_app, digits_value_zeros, len_replicate in E1. rewrite len_app, len_replicate in E2. split; [|lia].
  rewrite E1, Z.add_0_r. do 2 f_equal. lia.
Qed.

(** A number of units with its fraction. *)
Lemma read_decimal_of n p l r : 0 <= n -> 0 < p -> (forall k, 0 <= k < 10 ^ p -> len (decimal k) <= p) -> starts_unit l -> unit_of l = Some (10 ^ p, r) ->
  read_part (decimal_of n (10 ^ p) p ++ l) = Some (n, r).
Proof.
  intros Hn Hp Hlen Hl Hu. assert (Hpow : 0 < 10 ^ p) by (apply Z.pow_pos_nonneg; lia). unfold decimal_of. cbv zeta.
  pose proof (Z.div_mod n (10 ^ p) ltac:(lia)) as Hd. pose proof (Z.mod_pos_bound n (10 ^ p) Hpow) as Hm. pose proof (Z.div_pos n (10 ^ p) Hn Hpow) as Hq.
  destruct (Z.eqb_spec (n mod 10 ^ p) 0) as [E|E]; [rewrite (read_whole _ _ _ _ Hq Hl Hu); do 2 f_equal; lia|].
  set (q := n / 10 ^ p) in *. set (m := n mod 10 ^ p) in *. destruct (go_padded_value p m ltac:(lia)) as [Hv Hdig]. pose proof (padded_len p m (Hlen m Hm)) as Hpl.
  destruct (trimmed_value (padded p m)) as [Ht Hle]. rewrite Hv, Hpl in *. set (f := trim_end (padded p m)) in *. assert (Hf : digits f) by by apply trim_end_digits.
  rewrite <- !app_assoc. unfold read_part. rewrite span_app; [|by apply decimal_all|done]. cbn [app]. rewrite Z.eqb_refl, span_app; [|done|by destruct l as [|c l]; [|apply Hl]].
  rewrite Hu. cbv zeta. rewrite bool_decide_false by by apply decimal_not_nil. rewrite decimal_value by done. pose proof (len_nonneg f).
  assert (Hx : digits_value f * 10 ^ p = m * 10 ^ len f).
  { replace p with ((p - len f) + len f) at 1 by lia. rewrite Z.pow_add_r by lia. rewrite Z.mul_assoc, Ht. done. }
  assert (0 < 10 ^ len f) by (apply Z.pow_pos_nonneg; lia). rewrite Hx, Z.mod_mul, Z.div_mul by lia. cbn [orb Z.eqb negb]. do 2 f_equal. lia.
Qed.

Lemma decimal_short p k : 0 < p -> 0 <= k < 10 ^ p -> len (decimal k) <= p.
Proof.
  intros Hp Hk. unfold decimal. assert (H : forall fuel q n, 0 <= n < 10 ^ Z.of_nat q -> (1 <= q)%nat -> len (decimal_digits fuel n) <= Z.of_nat q).
  { induction fuel as [|fuel IH]; intros q n Hn Hq; [change (0 <= Z.of_nat q); lia|]. cbn [decimal_digits]. destruct (Z.ltb_spec n 10) as [Hlt|Hge]; [change (1 <= Z.of_nat q); lia|].
    destruct q as [|[|q]]; [lia|change (10 ^ Z.of_nat 1) with 10 in Hn; lia|]. rewrite len_app. change (len [48 + n mod 10]) with 1.
    assert (len (decimal_digits fuel (n / 10)) <= Z.of_nat (S q)); [|lia]. apply IH; [|lia].
    replace (Z.of_nat (S (S q))) with (Z.succ (Z.of_nat (S q))) in Hn by lia. rewrite Z.pow_succ_r in Hn by lia. split; [apply Z.div_pos; lia|apply Z.div_lt_upper_bound; lia]. }
  specialize (H (S (Z.to_nat (Z.log2 k))) (Z.to_nat p) k). rewrite Z2Nat.id in H by lia. apply H; [done|lia].
Qed.

Lemma read_more fuel l n l' : read_part l = Some (n, l') -> l <> [] -> read_duration (S fuel) l = let* m := read_duration fuel l' in Some (n + m).
Proof. intros E Hl. destruct l as [|c l]; [done|]. cbn [read_duration]. by rewrite E. Qed.

Lemma read_end fuel l n : read_part l = Some (n, []) -> l <> [] -> read_duration (S fuel) l = Some n.
Proof. intros E Hl. rewrite (read_more _ _ _ _ E Hl). destruct fuel; cbn; f_equal; lia. Qed.

Lemma app_nonempty (a b : bytes) : b <> [] -> a ++ b <> [].
Proof. intros Hb E. by apply app_eq_nil in E as [_ ?]. Qed.

Lemma decimal_of_head n b p : 0 <= n -> 0 < b -> exists c l, decimal_of n b p = c :: l /\ is_digit c = true.
Proof.
  intros Hn Hb. unfold decimal_of. cbv zeta. pose proof (Z.div_pos n b Hn Hb) as Hq. pose proof (decimal_all _ Hq) as Hd. pose proof (decimal_not_nil _ Hq) as Hnn.
  destruct (decimal (n / b)) as [|c l]; [done|]. apply Forall_cons_1 in Hd as [Hc _]. destruct (_ =? 0); eexists c, _; (split; [reflexivity|done]).
Qed.

(** A minute is not the start of a millisecond. *)
Lemma minute_unit c l : is_digit c = true -> unit_of (109 :: c :: l) = Some (60000000000, c :: l).
Proof.
  intros Hc. unfold is_digit in Hc. bools. unfold unit_of, units. cbn [strip_first]. unfold strip. cbn [length take drop str].
  repeat (rewrite bool_decide_false by (cbn; intros [=]; subst; lia)). by rewrite bool_decide_true.
Qed.

(** A duration is spelled without loss: reading the spelling of any number
    of nanoseconds back, by adding up its parts, gives that number. *)
Theorem duration_roundtrip (ns : Z) : 0 <= ns -> read_duration 3 (duration_format ns) = Some ns.
Proof.
  intros Hn. unfold duration_format. destruct (Z.eqb_spec ns 0) as [->|H0]; [done|].
  destruct (Z.ltb_spec ns 1000) as [H1|H1].
  { apply (read_end 2); [rewrite (read_whole ns (str "ns") 1 []) by (done || lia); do 2 f_equal; lia|by apply app_nonempty]. }
  destruct (Z.ltb_spec ns 1000000) as [H2|H2]; [|destruct (Z.ltb_spec ns 1000000000) as [H3|H3]].
  - apply (read_end 2); [|by apply app_nonempty]. apply (read_decimal_of ns 3); [done|lia|intros; apply decimal_short; lia|done|done].
  - apply (read_end 2); [|by apply app_nonempty]. apply (read_decimal_of ns 6); [done|lia|intros; apply decimal_short; lia|done|done].
  - cbv zeta. set (h := ns / 3600000000000). set (m := ns / 60000000000 mod 60). set (s := ns mod 60000000000).
    assert (Hs : 0 <= s) by (apply Z.mod_pos_bound; lia). assert (Hm : 0 <= m < 60) by (apply Z.mod_pos_bound; lia). assert (Hh : 0 <= h) by (apply Z.div_pos; lia).
    assert (Hsum : ns = h * 3600000000000 + m * 60000000000 + s).
    { unfold h, m, s. pose proof (Z.div_mod ns 60000000000 ltac:(lia)). pose proof (Z.div_mod (ns / 60000000000) 60 ltac:(lia)) as Hx. rewrite Z.div_div in Hx by lia. change (60000000000 * 60) with 3600000000000 in Hx. lia. }
    assert (Hsec : forall fuel, read_duration (S fuel) (decimal_of s 1000000000 9 ++ str "s") = Some s).
    { intros fuel. apply read_end; [|by apply app_nonempty]. apply (read_decimal_of s 9); [done|lia|intros; apply decimal_short; lia|done|done]. }
    destruct (decimal_of_head s 1000000000 9 Hs ltac:(lia)) as (c & l & Ed & Hc).
    assert (Hmin : forall fuel, read_duration (S (S fuel)) (decimal m ++ str "m" ++ decimal_of s 1000000000 9 ++ str "s") = Some (m * 60000000000 + s)).
    { intros fuel. rewrite (read_more _ _ (m * 60000000000) (decimal_of s 1000000000 9 ++ str "s")); [by rewrite Hsec| |by apply app_nonempty].
      apply read_whole; [lia|done|]. rewrite Ed. cbn [app]. by apply minute_unit. }
    destruct (Z.ltb_spec 0 h) as [Hh1|Hh1]; cbn [orb].
    + rewrite <- !app_assoc. rewrite (read_more _ _ (h * 3600000000000) (decimal m ++ str "m" ++ decimal_of s 1000000000 9 ++ str "s")).
      * rewrite Hmin. f_equal. lia.
      * apply read_whole; [lia|done|]. reflexivity.
      * by apply app_nonempty.
    + destruct (Z.ltb_spec 0 m) as [Hm1|Hm1]; cbn [app].
      * rewrite <- !app_assoc, Hmin. f_equal. lia.
      * rewrite Hsec. f_equal. lia.
Qed.

Lemma duration_roundtrip_witness : 0 <= 3661000500000 /\ duration_format 3661000500000 = str "1h1m1.0005s" /\ read_duration 3 (str "1h1m1.0005s") = Some 3661000500000.
Proof. split; [lia|]. split; [reflexivity|]. apply (duration_roundtrip 3661000500000). lia. Defined.

(** * Floats keep their value *)

(** The number a decimal text denotes, a mantissa and a power of ten. *)
Definition read_number (l : bytes) : option (Z * Z) :=
  let (ints, l) := span is_digit l in
  let '(fracs, l) := match l with c :: l' => if c =? 46 then span is_digit l' else ([], l) | [] => ([], l) end in
  let m := digits_value (ints ++ fracs) in
  match l with
  | [] => Some (m, - len fracs)
  | c :: l => if c =? 101 then let* x := parse_i32 l in Some (m, x - len fracs) else None
  end.
Definition same_number (a b : Z * Z) : Prop := fst a * 10 ^ Z.max 0 (snd a - snd b) = fst b * 10 ^ Z.max 0 (snd b - snd a).

(** The shape of what [ryu] writes for a positive number. *)
Definition fraction_text (fracs : option bytes) : bytes := match fracs with Some f => 46 :: f | None => [] end.
Definition exponent_text (x : option Z) : bytes := match x with Some x => 101 :: decimal_Z x | None => [] end.
Record shortest (raw : bytes) (m e : Z) : Prop := mkShortest {
  shape : exists ints fracs x, raw = ints ++ fraction_text fracs ++ exponent_text x /\ digits ints /\ ints <> [] /\ digits (default [] fracs) /\
    -1000 <= default 0 x <= 1000 /\ len raw <= 1000 /\ m = digits_value (ints ++ default [] fracs) /\ e = default 0 x - len (default [] fracs);
  positive : 0 < m
}.

Lemma same_shift m k a b : 0 <= k -> a = b + k -> same_number (m * 10 ^ k, b) (m, a).
Proof.
  intros Hk ->. unfold same_number. cbn [fst snd]. rewrite Z.max_l, Z.max_r by lia. replace (b + k - b) with k by lia. by rewrite Z.pow_0_r, Z.mul_1_r.
Qed.
Lemma same_refl a : same_number a a.
Proof. unfold same_number. by rewrite Z.sub_diag. Qed.

Lemma same_at K a b : K <= snd a -> K <= snd b -> same_number a b <-> fst a * 10 ^ (snd a - K) = fst b * 10 ^ (snd b - K).
Proof.
  destruct a as [n k], b as [m l]. unfold same_number. cbn [fst snd]. intros Hk Hl. destruct (Z.le_gt_cases k l).
  - rewrite Z.max_l, Z.max_r by lia. replace (l - K) with ((l - k) + (k - K)) by lia. rewrite Z.pow_add_r, Z.pow_0_r by lia.
    assert (0 < 10 ^ (k - K)) by (apply Z.pow_pos_nonneg; lia). split; intros E; nia.
  - rewrite Z.max_r, (Z.max_l 0) by lia. replace (k - K) with ((k - l) + (l - K)) by lia. rewrite Z.pow_add_r, Z.pow_0_r by lia.
    assert (0 < 10 ^ (l - K)) by (apply Z.pow_pos_nonneg; lia). split; intros E; nia.
Qed.

Lemma same_trans a b c : same_number a b -> same_number b c -> same_number a c.
Proof.
  set (K := Z.min (snd a) (Z.min (snd b) (snd c))). rewrite !(same_at K) by (unfold K; lia). congruence.
Qed.

Lemma split_e_digits a r : Forall (fun c => c <> 101) a -> split_e (a ++ r) = let '(b, x) := split_e r in (a ++ b, x).
Proof.
  induction 1 as [|c a Hc _ IH]; cbn [app split_e]; [by destruct (split_e r)|]. rewrite (proj2 (Z.eqb_neq c 101)) by done. rewrite IH. by destruct (split_e r).
Qed.

Lemma digits_not (k : Z) l : is_digit k = false -> digits l -> Forall (fun c => c <> k) l.
Proof. intros Hk Hl. eapply Forall_impl; [|exact Hl]. cbn. intros c Hc ->. congruence. Qed.

Lemma parse_i32_decimal x : -1000 <= x <= 1000 -> parse_i32 (decimal_Z x) = Some x.
Proof.
  intros Hx. assert (Hpos : forall n, 0 <= n <= 1000 -> (0 <? len (decimal n)) && forallb is_digit (decimal n) = true /\ digits_value (decimal n) = n).
  { intros n Hn. rewrite decimal_value by lia. split; [|done]. apply andb_true_iff. split.
    - pose proof (decimal_not_nil n ltac:(lia)). destruct (decimal n) as [|c l]; [done|]. rewrite len_cons. pose proof (len_nonneg l). apply Z.ltb_lt. lia.
    - apply forallb_forall. intros c Hc. pose proof (decimal_all n ltac:(lia)) as Hd. eapply Forall_forall in Hd; [exact Hd|done]. }
  unfold parse_i32, decimal_Z. destruct (Z.ltb_spec x 0).
  - destruct (Hpos (- x) ltac:(lia)) as [-> ->]. replace (-1 * - x) with x by lia. rewrite (proj2 (andb_true_iff _ _)); [done|split; apply Z.leb_le; lia].
  - destruct (Hpos x ltac:(lia)) as [H1 H2]. pose proof (decimal_all x ltac:(lia)) as Hd. destruct (decimal x) as [|c l] eqn:E; [done|].
    apply Forall_cons_1 in Hd as [Hc _]. apply andb_true_iff in Hc as [Hc1%Z.leb_le Hc2%Z.leb_le].
    assert (Hm : match c :: l with 45 :: l => (-1, l) | 43 :: l => (1, l) | _ => (1, c :: l) end = (1, c :: l)).
    { assert (48 <= c <= 57) as Hr by lia. clear -Hr. assert (c = 48 \/ c = 49 \/ c = 50 \/ c = 51 \/ c = 52 \/ c = 53 \/ c = 54 \/ c = 55 \/ c = 56 \/ c = 57) as Hcs by lia.
      by repeat destruct Hcs as [->|Hcs]; [..|subst c]. }
    rewrite Hm, H1, H2, Z.mul_1_l. rewrite (proj2 (andb_true_iff _ _)); [done|split; apply Z.leb_le; lia].
Qed.

(** ** The spelling of given digits *)

Lemma span_all ds : digits ds -> span is_digit ds = (ds, []).
Proof. intros Hd. rewrite <- (app_nil_r ds) at 1. by apply span_app. Qed.
Lemma span_stop ds c l : digits ds -> is_digit c = false -> span is_digit (ds ++ c :: l) = (ds, c :: l).
Proof. intros Hd Hc. by apply span_app. Qed.

Lemma len_take {A} (l : list A) n : 0 <= n <= len l -> len (take (Z.to_nat n) l) = n.
Proof. intros Hn. unfold len in *. rewrite length_take. lia. Qed.
Lemma len_drop {A} (l : list A) n : 0 <= n <= len l -> len (drop (Z.to_nat n) l) = len l - n.
Proof. intros Hn. unfold len in *. rewrite length_drop. lia. Qed.
Lemma digits_take n l : digits l -> digits (take n l).
Proof. intros Hl. rewrite <- (take_drop n l) in Hl. by apply digits_app in Hl as [? _]. Qed.
Lemma digits_drop n l : digits l -> digits (drop n l).
Proof. intros Hl. rewrite <- (take_drop n l) in Hl. by apply digits_app in Hl as [_ ?]. Qed.

(** Two digits of the exponent at least, with its sign. *)
Lemma parse_exponent x : -5000 <= x <= 5000 ->
  parse_i32 ((if x <? 0 then [45] else [43]) ++ zeros (2 - len (decimal (Z.abs x))) ++ decimal (Z.abs x)) = Some x.
Proof.
  intros Hx. set (ds := zeros (2 - len (decimal (Z.abs x))) ++ decimal (Z.abs x)).
  assert (Hd : digits ds) by (apply digits_app; split; [apply zeros_digits|apply decimal_all; lia]).
  assert (Hv : digits_value ds = Z.abs x) by (unfold ds, zeros; rewrite digits_value_app, digits_value_zeros, decimal_value by lia; lia).
  assert (Hg : (0 <? len ds) && forallb is_digit ds = true).
  { apply andb_true_iff. split; [|apply forallb_forall; intros c Hc; eapply Forall_forall in Hd; [exact Hd|done]].
    apply Z.ltb_lt. unfold ds. rewrite len_app. pose proof (decimal_not_nil (Z.abs x) ltac:(lia)). destruct (decimal (Z.abs x)) as [|c l]; [done|].
    rewrite len_cons. pose proof (len_nonneg l). pose proof (len_nonneg (zeros (2 - (1 + len l)))). lia. }
  unfold parse_i32. destruct (Z.ltb_spec x 0); cbn [app]; rewrite Hg, Hv, (proj2 (andb_true_iff _ _)) by (split; apply Z.leb_le; lia); f_equal; lia.
Qed.

Lemma float_text_value ds x : digits ds -> ds <> [] -> -5000 <= x <= 5000 ->
  exists a, read_number (float_text ds x) = Some a /\ same_number a (digits_value ds, x + 1 - len ds).
Proof.
  intros Hd Hn Hx. unfold float_text. assert (Hlen : 1 <= len ds) by (destruct ds as [|c l]; [done|]; rewrite len_cons; pose proof (len_nonneg l); lia).
  destruct ((-4 <=? x) && (x <? 6)) eqn:E; cbn [negb].
  - bools. destruct (Z.ltb_spec x 0).
    + exists (digits_value ds, x + 1 - len ds). split; [|apply same_refl]. unfold read_number. change (str "0." ++ zeros (- x - 1) ++ ds) with ([48] ++ 46 :: zeros (- x - 1) ++ ds).
      rewrite span_stop by (done || by constructor). rewrite Z.eqb_refl, span_all by (apply digits_app; split; [apply zeros_digits|done]).
      f_equal. f_equal; [|unfold zeros; rewrite len_app, len_replicate; lia].
      rewrite (digits_value_app [48]), digits_value_app. unfold zeros. rewrite digits_value_zeros. change (digits_value [48]) with 0. lia.
    + destruct (Z.leb_spec (len ds) (x + 1)).
      * set (k := x + 1 - len ds). exists (digits_value ds * 10 ^ (k + 1), -1). split.
        -- unfold read_number. change (str ".0") with [46; 48]. rewrite app_assoc. rewrite span_stop by first [done|apply digits_app; split; [done|apply zeros_digits]].
           rewrite Z.eqb_refl, (span_all [48]) by by constructor. f_equal. f_equal. rewrite <- app_assoc. rewrite digits_value_app. f_equal.
           unfold zeros. fold k. change [48] with (replicate 1 48). rewrite <- replicate_add, digits_value_zeros, len_replicate, Z.add_0_r. do 2 f_equal. lia.
        -- apply same_shift; lia.
      * exists (digits_value ds, x + 1 - len ds). split; [|apply same_refl]. unfold read_number. cbn [app].
        rewrite span_stop by (done || by apply digits_take). rewrite Z.eqb_refl, span_all by by apply digits_drop. rewrite take_drop. do 2 f_equal. rewrite len_drop by lia. lia.
  - exists (digits_value ds, x + 1 - len ds). split; [|apply same_refl]. unfold read_number. cbv zeta. set (et := (if x <? 0 then [45] else [43]) ++ zeros (2 - len (decimal (Z.abs x))) ++ decimal (Z.abs x)).
    assert (Hp : parse_i32 et = Some x) by by apply parse_exponent. destruct (Z.ltb_spec 1 (len ds)).
    + rewrite <- !app_assoc. cbn [app]. rewrite span_stop by (done || by apply digits_take). rewrite Z.eqb_refl, span_stop by (done || by apply digits_drop).
      rewrite Z.eqb_refl. fold et. rewrite Hp. f_equal. rewrite take_drop. f_equal. pose proof (len_drop ds 1 ltac:(lia)) as Hl. change (Z.to_nat 1) with 1%nat in Hl. rewrite Hl. lia.
    + cbn [app]. rewrite span_stop by (done || by apply digits_take). change (101 =? 46) with false. cbv iota. rewrite Z.eqb_refl. fold et. rewrite Hp. f_equal.
      rewrite app_nil_r, take_ge by (unfold len in *; lia). change (len (@nil Z)) with 0. f_equal. lia.
Qed.

(** ** The respelling *)

Lemma trim_end_nonempty l : trim_end l = [] -> exists n, l = replicate n 48.
Proof. intros E. destruct (trim_end_zeros l) as [n En]. rewrite E in En. by exists n. Qed.

Lemma find_point_digits a r : digits a -> find_point (a ++ r) = len a + find_point r.
Proof.
  induction 1 as [|c a Hc _ IH]; cbn [app find_point]; [change (len (@nil Z)) with 0; lia|]. destruct (Z.eqb_spec c 46) as [->|]; [done|]. rewrite IH, len_cons. lia.
Qed.

Lemma filter_digits a : digits a -> List.filter (fun c => negb (c =? 46)) a = a.
Proof. induction 1 as [|c a Hc _ IH]; [done|]. cbn [List.filter]. destruct (Z.eqb_spec c 46) as [->|]; [done|]. cbn [negb]. by rewrite IH. Qed.

(** A float is spelled without loss. Whatever shortest decimal the printer
    gives for a positive number, with or without a fraction or an exponent, the
    respelling exists and denotes the same number, to the last digit. *)
Theorem float_spelling_exact (raw : bytes) (m e : Z) : shortest raw m e ->
  exists text a, respell raw = Some text /\ read_number text = Some a /\ same_number a (m, e).
Proof.
  intros [(ints & fracs & x & Hraw & Hi & Hn & Hf & Hx & Hlr & -> & ->) Hm]. set (fs := default [] fracs) in *. set (all := ints ++ fs) in *.
  assert (Hall : digits all) by by apply digits_app.
  assert (Hsplit : split_e raw = (ints ++ fraction_text fracs, match x with Some x => Some (decimal_Z x) | None => None end)).
  { rewrite Hraw, app_assoc. assert (Hne : Forall (fun c => c <> 101) (ints ++ fraction_text fracs)).
    { apply Forall_app. split; [by apply digits_not|]. destruct fracs as [f|]; [|constructor]. constructor; [done|]. by apply digits_not. }
    rewrite split_e_digits by done. destruct x as [x|]; cbn; by rewrite app_nil_r. }
  assert (Hp : parse_i32 (default (str "0") (match x with Some x => Some (decimal_Z x) | None => None end)) = Some (default 0 x)).
  { destruct x as [x|]; [by apply parse_i32_decimal|done]. }
  assert (Hpt : find_point (ints ++ fraction_text fracs) = len ints).
  { rewrite find_point_digits by done. destruct fracs; cbn; lia. }
  assert (Hfl : List.filter (fun c => negb (c =? 46)) (ints ++ fraction_text fracs) = all).
  { rewrite List.filter_app, filter_digits by done. unfold all, fs. destruct fracs as [f|]; cbn [fraction_text default]; [|done]. cbn [List.filter]. by rewrite filter_digits. }
  destruct (trim_start_zeros all) as [L HL]. destruct (trim_end_zeros (trim_start all)) as [T HT]. set (ds := trim_end (trim_start all)) in *.
  assert (Hds : digits ds) by (by apply trim_end_digits, trim_start_digits).
  assert (Hv : digits_value all = digits_value ds * 10 ^ Z.of_nat T).
  { rewrite HL, HT, digits_value_app, digits_value_zeros, digits_value_app, digits_value_zeros, len_replicate. lia. }
  assert (Hl : len all = Z.of_nat L + len ds + Z.of_nat T) by (rewrite HL, HT, !len_app, !len_replicate; lia).
  assert (Hdn : ds <> []) by (intros E; rewrite E in Hv; change (digits_value []) with 0 in Hv; lia).
  assert (Hlead : len all - len (trim_start all) = Z.of_nat L) by (rewrite HL at 1; rewrite len_app, len_replicate; lia).
  assert (Hshort : len ints <= 1000 /\ len fs <= 1000 /\ len all = len ints + len fs).
  { rewrite Hraw, !len_app in Hlr. unfold all, fs. rewrite len_app. pose proof (len_nonneg (exponent_text x)). pose proof (len_nonneg ints). pose proof (len_nonneg (fraction_text fracs)).
    assert (len (default [] fracs) <= len (fraction_text fracs)) by (destruct fracs as [f|]; cbn [from_option fraction_text]; rewrite ?len_cons; unfold id; lia). lia. }
  pose proof (len_nonneg ds). pose proof (len_nonneg ints). pose proof (len_nonneg fs).
  destruct (float_text_value ds (len ints + default 0 x - Z.of_nat L - 1) Hds Hdn ltac:(lia)) as (a & Ha & Hs).
  exists (float_text ds (len ints + default 0 x - Z.of_nat L - 1)), a. split; [|split; [done|]].
  - unfold respell. rewrite Hsplit, Hp. cbv zeta. cbn [mbind option_bind]. rewrite Hpt, Hfl, Hlead. done.
  - eapply same_trans; [exact Hs|]. rewrite Hv. replace (len ints + default 0 x - Z.of_nat L - 1 + 1 - len ds) with (default 0 x - len fs + Z.of_nat T) by lia.
    unfold same_number. cbn [fst snd]. rewrite Z.max_r, Z.max_l by lia. rewrite Z.pow_0_r, Z.mul_1_r. do 2 f_equal. lia.
Qed.

Lemma float_spelling_exact_witness : shortest (str "1.5e-7") 15 (-8) /\ respell (str "1.5e-7") = Some (str "1.5e-07") /\
  exists text a, respell (str "1.5e-7") = Some text /\ read_number text = Some a /\ same_number a (15, -8).
Proof.
  assert (Hs : shortest (str "1.5e-7") 15 (-8)).
  { constructor; [|lia]. exists (str "1"), (Some (str "5")), (Some (-7)). split_and!; first [reflexivity|by repeat constructor|vm_compute; congruence]. }
  split; [exact Hs|]. split; [reflexivity|]. exact (float_spelling_exact (str "1.5e-7") 15 (-8) Hs).
Defined.
