(* ===== verification/TempoDiscovery.v ===== *)
(** Tag names and values of stored spans (tempo_discovery.rs), with the
    predicates and the row validation it shares with tempo_search.rs.

    A segment is the rows of its columns, and the rows of its two time columns
    alone where only those are read. *)

From S2P Require Import Prelude Utf8 External Float64 OrdMap Out JsonWrite JsonRead TraceFields Structural TempoExpression TraceMetadata TempoSpelling TraceMetrics TraceMetricsOut TraceSearch.

Section Discovery.
Context {Regex : Type} (anchored : bytes -> option Regex) (is_match : Regex -> bytes -> bool).
Context `{SimdUtf8} `{Memchr2} `{Ryu}.
#[local] Abbreviation Predicate := (Predicate (Regex := Regex)).

(** ** Shared with the search *)

Definition tempo_predicates (input : list Word) : Answer (list Predicate) :=
  if negb (in_range 1 16 (len input)) then Err Invalid else new_predicates anchored input 0.

Definition tempo_matches (ps : list Predicate) (resource span : list (bytes * bytes)) : bool := forallb (holds_predicate is_match resource span) ps.

Definition validate_row (id : bytes) (start end_ : Z) (payload : bytes) : Answer RawFields :=
  if TraceMetrics.PAYLOAD_MAX <? len payload then Err Budget
  else
    let? fields := map_err Invalid (validated_fields payload) in
    let? _ := validate_fields id start end_ fields in
    Ok fields.

(** ** The state *)

Definition DISCOVERY_MAX : Z := 1048576.
Definition DISCOVERY_WORK : Z := 2000000.
Definition INTRINSICS : list bytes :=
  [str "duration"; str "event:name"; str "event:timeSinceStart"; str "instrumentation:name"; str "instrumentation:version"; str "kind";
   str "link:spanID"; str "link:traceID"; str "name"; str "rootName"; str "rootServiceName"; str "span:duration"; str "span:id"; str "span:kind";
   str "span:name"; str "span:parentID"; str "span:status"; str "span:statusMessage"; str "status"; str "statusMessage"; str "trace:duration";
   str "trace:id"; str "trace:rootName"; str "trace:rootService"; str "traceDuration"].
Definition DYNAMIC : list bytes :=
  [str "name"; str "span:name"; str "statusMessage"; str "span:statusMessage"; str "instrumentation:name"; str "instrumentation:version"; str "event:name"; str "event:timeSinceStart"].

Record State : Type := mkState {
  floor : Z; scope : bytes; tag : bytes; names : bool; rows : Z; size : Z; work : Z;
  values : omap (bytes * bytes) unit; d_predicates : list Predicate; window : option (Z * Z)
}.
Definition set_rows (st : State) (n : Z) : State := mkState st.(floor) st.(scope) st.(tag) st.(names) n st.(size) st.(work) st.(values) st.(d_predicates) st.(window).
Definition set_work (st : State) (n : Z) : State := mkState st.(floor) st.(scope) st.(tag) st.(names) st.(rows) st.(size) n st.(values) st.(d_predicates) st.(window).
Definition set_values (st : State) (n : Z) (m : omap (bytes * bytes) unit) : State := mkState st.(floor) st.(scope) st.(tag) st.(names) st.(rows) n st.(work) m st.(d_predicates) st.(window).
Definition set_window (st : State) (w : option (Z * Z)) : State := mkState st.(floor) st.(scope) st.(tag) st.(names) st.(rows) st.(size) st.(work) st.(values) st.(d_predicates) w.

Definition scopes (scope : bytes) (names : bool) : Answer (list bytes) :=
  if eqs scope "none" then
    if names then Ok [str "resource"; str "span"; str "instrumentation"; str "event"; str "link"] else Ok [str "resource"; str "span"; str "instrumentation"]
  else if eqs scope "intrinsic" then Ok []
  else if among scope [str "resource"; str "span"; str "instrumentation"; str "event"; str "link"] then Ok [scope]
  else Err Invalid.

Definition scope_field (scope : bytes) : Answer bytes :=
  if eqs scope "resource" then Ok (str "resource")
  else if eqs scope "span" then Ok (str "attributes")
  else if eqs scope "instrumentation" then Ok (str "scope")
  else if eqs scope "event" then Ok (str "events")
  else if eqs scope "link" then Ok (str "links")
  else Err Invalid.

(** A pair is kept once, within the number and the bytes of the answer. *)
Definition keep (st : State) (kind value : bytes) : Answer State :=
  match find (kind, value) st.(values) with
  | Some _ => Ok st
  | None =>
      if 5000 <=? len st.(values) then Err Budget
      else
        let? n := ok_or (checked_u64 (st.(size) + (len kind + len value + 32))) Budget in
        if DISCOVERY_MAX <? n then Err Budget else Ok (set_values st n (put (kind, value) tt st.(values)))
  end.
Definition charge (st : State) (units : Z) : Answer State :=
  let? n := ok_or (checked_u64 (st.(work) + units)) DiscoveryWork in
  if DISCOVERY_WORK <? n then Err DiscoveryWork else Ok (set_work st n).

Definition new_state (floor : Z) (scope key : bytes) (ps : list Predicate) : Answer State :=
  if (floor <? 0) || match scopes scope (len key =? 0) with Ok _ => false | _ => true end || (256 <? len key)
     || (eqs scope "none" && (eqs key "root.name" || eqs key "root.service.name"))
     || (eqs scope "intrinsic" && negb (among key DYNAMIC)) then Err Invalid
  else
    let st := mkState floor scope key (len key =? 0) 0 0 0 [] ps None in
    if eqs scope "none" && st.(names) then foldM (fun st name => keep st (str "intrinsic") name) st INTRINSICS else Ok st.

(** An equality on the tag itself would answer the query instead of the spans. *)
Definition same_target (scope key : bytes) (ps : list Predicate) : bool :=
  existsb (fun p => (bytes_eqb p.(p_scope) scope || eqs scope "none") && bytes_eqb p.(p_key) key && negb (is_some p.(p_regex))) ps.

Definition tempo_discovery_new (floor : Z) (scope key : bytes) : Answer State := new_state floor scope key [].
Definition tempo_filtered_discovery_new (floor : Z) (scope key : bytes) (input : list Word) : Answer State :=
  let? ps := tempo_predicates input in
  if same_target scope key ps then Err Invalid else new_state floor scope key ps.
Definition tempo_windowed_discovery_new (floor : Z) (scope key : bytes) (input : list Word) (start end_ : Z) : Answer State :=
  if (start <=? 0) || (end_ <? start) then Err Invalid
  else
    let? ps := if len input =? 0 then Ok [] else tempo_predicates input in
    if negb (len key =? 0) && same_target scope key ps then Err Invalid
    else let? st := new_state floor scope key ps in Ok (set_window st (Some (start, end_))).

(** ** Observing a span *)

Definition promoted_resource : list bytes :=
  [str "cluster"; str "namespace"; str "pod"; str "container"; str "k8s.cluster.name"; str "k8s.namespace.name"; str "k8s.pod.name"; str "k8s.container.name"].
Definition promoted_name (scope key value : bytes) : Answer bool :=
  let kind :=
    if (eqs scope "resource" && among key promoted_resource) || (eqs scope "span" && (eqs key "http.method" || eqs key "http.url")) then Some (str "stringValue")
    else if eqs scope "span" && eqs key "http.status_code" then Some (str "intValue") else None in
  match kind with
  | None => Ok false
  | Some kind => let? v := object value in Ok (match field v kind with Ok _ => true | _ => false end)
  end.

Definition optional_string (fields : RawFields) (key : bytes) : Answer bytes :=
  let raw := match field fields key with Ok raw => raw | _ => str "null" end in
  if is_null raw then Ok [] else TraceFields.string raw.

Definition matches_metadata (st : State) (meta : RawFields) : Answer bool :=
  match st.(d_predicates) with
  | [] => Ok true
  | ps =>
      let? raw := field meta (str "resource") in
      let? resource := typed_attributes raw in
      let? raw := field meta (str "attributes") in
      let? attrs := typed_attributes raw in
      Ok (tempo_matches ps resource attrs)
  end.

(** The type and the text of a tag's value. *)
Definition tag_value (value : RawFields) : Answer (bytes * bytes) :=
  match field value (str "stringValue") with
  | Ok raw => let? s := TraceFields.string raw in Ok (str "string", s)
  | _ =>
      match field value (str "intValue") with
      | Ok raw => let? s := TraceFields.string raw in Ok (str "int", s)
      | _ =>
          match field value (str "doubleValue") with
          | Ok raw => let? n := map_err Invalid (double raw) in let? s := ok_or (float_format n) Invalid in Ok (str "float", s)
          | _ =>
              match field value (str "boolValue") with
              | Ok raw => if bytes_eqb raw (str "true") then Ok (str "bool", str "true") else if bytes_eqb raw (str "false") then Ok (str "bool", str "false") else Err Invalid
              | _ => Err UnsupportedTag
              end
          end
      end
  end.

Definition observe_pair (st : State) (scope raw : bytes) (matched : bool) : Answer State :=
  let? entry := object raw in
  let? k := field entry (str "key") in
  let? k := TraceFields.string k in
  if st.(names) then
    let? named :=
      if matched then Ok true
      else if negb (len st.(d_predicates) =? 0) then let? v := field entry (str "value") in promoted_name scope k v
      else Ok false in
    if named then keep st scope k else Ok st
  else if negb matched || negb (bytes_eqb k st.(tag)) then Ok st
  else
    let? v := field entry (str "value") in
    let? v := object v in
    let? (kind, text) := tag_value v in
    keep st kind text.
Definition observe_owner (st : State) (scope owner : bytes) (matched : bool) : Answer State :=
  let? pairs := array owner in foldM (fun st raw => observe_pair st scope raw matched) st pairs.

(** The attribute lists of the scopes asked for. *)
Definition owners_of_scopes (meta : RawFields) (ss : list bytes) : Answer (list (bytes * bytes)) :=
  foldM (fun out s =>
    let? name := scope_field s in
    let? raw := field meta name in
    if eqs s "event" || eqs s "link" then let? l := array raw in Ok (out ++ map (fun owner => (s, owner)) l)
    else Ok (out ++ [(s, raw)])) [] ss.
Definition charge_owners (st : State) (owners : list (bytes * bytes)) : Answer State :=
  foldM (fun st o => let? pairs := array (snd o) in charge st (1 + len pairs)) st owners.

Definition observe_scope (matched : bool) (st : State) (o : bytes * bytes) : Answer State :=
  let '(s, owner) := o in
  let? st := if st.(names) && (eqs st.(scope) "none" || negb (len st.(d_predicates) =? 0)) && eqs s "resource" then keep st s (str "service.name") else Ok st in
  if negb matched && (negb st.(names) || negb (eqs s "resource" || eqs s "span")) then Ok st
  else observe_owner st s owner matched.

Definition observe_event (st : State) (fields : RawFields) (matched : bool) (event : bytes) : Answer State :=
  if eqs st.(tag) "event:timeSinceStart" then
    let? e := object event in
    let? raw := field e (str "timestamp_ns") in
    let? time := TraceFields.integer raw in
    if time <? 0 then Err Invalid
    else
      let? raw := field fields (str "timestamp_ns") in
      let? start := TraceFields.integer raw in
      if matched then keep st (str "int") (decimal_Z (time - start)) else Ok st
  else if matched then let? e := object event in let? s := optional_string e (str "name") in keep st (str "string") s
  else Ok st.

Definition observe_intrinsic (st : State) (fields meta : RawFields) : Answer State :=
  if eqs st.(tag) "event:name" || eqs st.(tag) "event:timeSinceStart" then
    let? raw := field meta (str "events") in
    let? owners := array raw in
    let? raw := field fields (str "events") in
    let? events := array raw in
    if negb (len owners =? len events) then Err Invalid
    else
      let? st := charge st 1 in
      let? st := foldM (fun st owner => let? pairs := array owner in charge st (1 + len pairs)) st owners in
      let? matched := matches_metadata st meta in
      foldM (fun st event => observe_event st fields matched event) st events
  else
    let instrumentation := starts_with st.(tag) (str "instrumentation:") in
    let? attrs := field meta (if instrumentation then str "scope" else str "attributes") in
    let? pairs := array attrs in
    let? st := charge st (1 + len pairs) in
    let? matched := matches_metadata st meta in
    if negb matched then Ok st
    else
      let? value :=
        if instrumentation then
          let? raw := field fields (str "scope") in
          let? s := object raw in
          optional_string s (if ends_with st.(tag) (str "version") then str "version" else str "name")
        else if ends_with st.(tag) (str "statusMessage") then
          let? raw := field fields (str "status") in
          if is_null raw then Ok [] else let? s := object raw in optional_string s (str "message")
        else let? raw := field fields (str "name") in TraceFields.string raw in
      keep st (str "string") value.

Definition observe (st : State) (id : bytes) (start end_ : Z) (payload : bytes) : Answer State :=
  let? fields := validate_row id start end_ payload in
  let? raw := map_err Unknown (field fields (str "otlp")) in
  if is_null raw then Err Unknown
  else
    let? meta := object raw in
    if eqs st.(scope) "intrinsic" then observe_intrinsic st fields meta
    else
      let? ss := scopes st.(scope) st.(names) in
      let? owners := owners_of_scopes meta ss in
      let? st := charge_owners st owners in
      let? matched := matches_metadata st meta in
      foldM (observe_scope matched) st owners.

(** ** Scanning a segment *)

(** The rows of all columns, and the rows of the two time columns of a file
    with the schema of a span segment. *)
Context {File : Type} (read : File -> option (list (option (list Row)))) (read_times : File -> option (list (option (list (option Z * option Z))))).
Definition ROWS_MAX : Z := 1000000.

(** The bounds of the rows from the floor on. *)
Record Bounds : Type := mkBounds { b_low : Z; b_high : Z; b_rows : Z }.
Definition header_row (acc : State * Bounds) (r : option Z * option Z) : Answer (State * Bounds) :=
  let '(st, b) := acc in
  match r with
  | (Some start, Some end_) =>
      if (start <? 0) || (end_ <? start) then Err Invalid
      else
        let st := set_rows st (st.(rows) + 1) in
        if ROWS_MAX <? st.(rows) then Err Rows
        else if st.(floor) <=? start then Ok (st, mkBounds (Z.min b.(b_low) start) (Z.max b.(b_high) end_) (b.(b_rows) + 1))
        else Ok (st, mkBounds b.(b_low) b.(b_high) (b.(b_rows) + 1))
  | _ => Err Invalid
  end.
Definition header_batch (acc : State * Bounds) (batch : option (list (option Z * option Z))) : Answer (State * Bounds) :=
  let? l := ok_or batch Invalid in foldM header_row acc l.
Definition window_selection (st : State) (file : File) : Answer (bool * Z * State) :=
  let? (start, end_) := ok_or st.(window) Invalid in
  let? batches := ok_or (read_times file) Invalid in
  let? (st, b) := foldM header_batch (st, mkBounds I64_MAX I64_MIN 0) batches in
  Ok ((st.(floor) <=? end_) && (b.(b_low) <=? end_) && (Z.max start st.(floor) <=? b.(b_high)), b.(b_rows), st).

Definition scan_row (counted : bool) (acc : State * Z) (r : Row) : Answer (State * Z) :=
  let '(st, n) := acc in
  match r with
  | mkRow (Some start) (Some end_) (Some id) (Some payload) =>
      let st := if counted then set_rows st (st.(rows) + 1) else st in
      if counted && (ROWS_MAX <? st.(rows)) then Err Rows
      else
        let? st := if st.(floor) <=? start then observe st id start end_ payload else Ok st in
        Ok (st, n + 1)
  | _ => Err Invalid
  end.
Definition scan_batch (counted : bool) (acc : State * Z) (batch : option (list Row)) : Answer (State * Z) :=
  let? l := ok_or batch Invalid in foldM (scan_row counted) acc l.
Definition scan_rows (counted : bool) (st : State) (file : File) : Answer (State * Z) :=
  let? batches := ok_or (read file) Invalid in foldM (scan_batch counted) (st, 0) batches.

(** A source outside the window is not read; one inside was counted by its
    header. *)
Definition scan (st : State) (file : File) : Answer (State * Z) :=
  match st.(window) with
  | None => scan_rows true st file
  | Some _ =>
      let? (selected, expected, st) := window_selection st file in
      if negb selected then Ok (st, expected)
      else let? (st, n) := scan_rows false st file in if negb (expected =? n) then Err Invalid else Ok (st, n)
  end.

Abbreviation Discovery := (option State).
Definition tempo_discovery_add (handle : Discovery) (file : File) : Answer Z * Discovery :=
  match handle with
  | None => (Err Invalid, None)
  | Some st =>
      match scan st file with
      | Ok (st, n) => (Ok n, Some st)
      | Err e => (Err e, None)
      | Fuel => (Fuel, None)
      end
  end.

(** The window of a source for the search; the rows are charged there. *)
Definition source_window_selection (file : File) (floor : Z) (window : Z * Z) : Answer (bool * Z) :=
  let? st := new_state floor (str "intrinsic") (str "name") [] in
  let? (selected, n, _) := window_selection (set_window st (Some window)) file in
  Ok (selected, n).

(** ** The answer *)

Section Write.
Context {S : Type} `{Sink S}.

(** The tags of one scope after the other. *)
Fixpoint write_scopes (out : S) (previous : option bytes) (l : list (bytes * bytes)) : S * option bytes :=
  match l with
  | [] => (out, previous)
  | (s, k) :: l =>
      let same := match previous with Some p => bytes_eqb p s | None => false end in
      let out :=
        if same then push out 44
        else
          let out := if is_some previous then extend out [93; 125; 44] else out in
          let out := extend out ([123] ++ TraceMetricsOut.quoted (str "name") ++ [58]) in
          let out := write_str out s in
          extend out ([44] ++ TraceMetricsOut.quoted (str "tags") ++ [58; 91]) in
      write_scopes (write_str out k) (Some s) l
  end.
Fixpoint write_values (out : S) (first : bool) (l : list (bytes * bytes)) : S :=
  match l with
  | [] => out
  | (kind, value) :: l =>
      let out := if first then out else push out 44 in
      let out := extend out ([123] ++ TraceMetricsOut.quoted (str "type") ++ [58]) in
      let out := write_str out kind in
      let out := if len value =? 0 then out else write_str (extend out ([44] ++ TraceMetricsOut.quoted (str "value") ++ [58])) value in
      write_values (push out 125) false l
  end.
Definition write (st : State) (out : S) : S :=
  if st.(names) then
    let out := extend out ([123] ++ TraceMetricsOut.quoted (str "scopes") ++ [58; 91]) in
    let (out, previous) := write_scopes out None (keys st.(values)) in
    let out := if is_some previous then extend out [93; 125] else out in
    extend out [93; 125]
  else
    let out := extend out ([123] ++ TraceMetricsOut.quoted (str "tagValues") ++ [58; 91]) in
    let out := write_values out true (keys st.(values)) in
    extend out [93; 125].
End Write.

Context `{OwnedBinary}.
Definition tempo_discovery_finish (handle : Discovery) : Answer bytes * Discovery :=
  (let? st := ok_or handle Invalid in
   let count := write st (Counter_new DISCOVERY_MAX) in
   if DISCOVERY_MAX <? sink_len count then Err Budget
   else Ok (BinSink_finish (write st (BinSink_with_capacity (sink_len count)))), None).
End Discovery.
