(* ===== verification/TempoTags.v ===== *)
(** Tag discovery finds exactly the tags of the spans: the answer over any
    files is the union of the answers of their rows, each read alone. *)

From S2P Require Import Prelude Utf8 External Float64 OrdMap JsonRead TraceFields Structural TempoExpression TraceMetadata TraceMetrics TraceMetricsScan TraceSearch TempoDiscovery.

Section Tags.
Context {Regex : Type} (is_match : Regex -> bytes -> bool).
Context `{U : SimdUtf8} `{M : Memchr2} `{R : Ryu}.
#[local] Abbreviation State := (TempoDiscovery.State (Regex := Regex)).

(** ** What observing does to the state *)

(** Rows are counted, work is charged and pairs are kept; nothing else. *)
Inductive op : Type := RowOp | ChargeOp (units : Z) | KeepOp (kind value : bytes).
Definition step (st : State) (o : op) : Answer State :=
  match o with
  | RowOp => let st := set_rows st (st.(rows) + 1) in if ROWS_MAX <? st.(rows) then Err Rows else Ok st
  | ChargeOp n => charge st n
  | KeepOp k v => keep st k v
  end.
Definition script : Type := (list op * Answer unit)%type.
Definition exec (s : script) (st : State) : Answer State := let? st := foldM step st (fst s) in let? _ := snd s in Ok st.

Definition query (st : State) : Z * bytes * bytes * bool * list (Predicate (Regex := Regex)) * option (Z * Z) := (st.(floor), st.(scope), st.(tag), st.(names), st.(d_predicates), st.(window)).
Definition op_ok (o : op) : Prop := match o with ChargeOp n => 0 <= n | _ => True end.
Definition quiet (o : op) : Prop := match o with RowOp => False | _ => op_ok o end.
(** On the states of a query the function is one script. *)
Definition scripted (st0 : State) (f : State -> Answer State) : Prop :=
  exists s : script, Forall quiet (fst s) /\ forall st, query st = query st0 -> f st = exec s st.

Lemma keep_query st k v st' : keep st k v = Ok st' -> query st' = query st.
Proof.
  unfold keep. destruct (find (k, v) (values st)); [by intros [= <-]|]. destruct (5000 <=? _); [done|]. destruct (checked_u64 _) as [n|]; [|done]. cbn [ok_or].
  destruct (DISCOVERY_MAX <? n); [done|]. by intros [= <-].
Qed.
Lemma charge_query st n st' : charge st n = Ok st' -> query st' = query st.
Proof. unfold charge. destruct (checked_u64 _) as [m|]; [|done]. cbn [ok_or]. destruct (DISCOVERY_WORK <? m); [done|]. by intros [= <-]. Qed.
Lemma step_query st o st' : step st o = Ok st' -> query st' = query st.
Proof. destruct o; cbn [step]; [destruct (_ <? _); [done|]; by intros [= <-]|apply charge_query|apply keep_query]. Qed.
Lemma run_query ops : forall st st', foldM step st ops = Ok st' -> query st' = query st.
Proof.
  induction ops as [|o ops IH]; intros st st'; cbn [foldM]; [by intros [= <-]|]. destruct (step st o) as [st1| |] eqn:E; [|done..].
  intros Hr. apply IH in Hr. apply step_query in E. congruence.
Qed.

Lemma scripted_ext st0 f g : scripted st0 f -> (forall st, query st = query st0 -> g st = f st) -> scripted st0 g.
Proof. intros (s & Hs & Hf) Hg. exists s. split; [done|]. intros st E. by rewrite Hg, Hf. Qed.
Lemma scripted_ok st0 : scripted st0 (fun st => Ok st).
Proof. by exists ([], Ok tt). Qed.
Lemma scripted_err st0 e : scripted st0 (fun _ => Err e).
Proof. by exists ([], Err e). Qed.
Lemma scripted_fuel st0 : scripted st0 (fun _ => Fuel).
Proof. by exists ([], Fuel). Qed.
Lemma scripted_keep st0 k v : scripted st0 (fun st => keep st k v).
Proof. exists ([KeepOp k v], Ok tt). split; [by repeat constructor|]. intros st _. unfold exec. cbn. by destruct (keep st k v). Qed.
Lemma scripted_charge st0 n : 0 <= n -> scripted st0 (fun st => charge st n).
Proof. intros Hn. exists ([ChargeOp n], Ok tt). split; [by repeat constructor|]. intros st _. unfold exec. cbn. by destruct (charge st n). Qed.
Lemma scripted_bind st0 f g : scripted st0 f -> scripted st0 g -> scripted st0 (fun st => let? st := f st in g st).
Proof.
  intros ([fo fs] & Hfo & Hf) ([go gs] & Hgo & Hg). cbn [fst] in *.
  exists (match fs with Ok _ => (fo ++ go, gs) | _ => (fo, fs) end). split; [destruct fs; cbn; [by apply Forall_app|done..]|]. intros st E. rewrite Hf by done.
  unfold exec. destruct fs as [[]|e|]; cbn [fst snd].
  - rewrite foldM_app. destruct (foldM step st fo) as [st1| |] eqn:E1; [|done..]. rewrite Hg by (apply run_query in E1; congruence). done.
  - by destruct (foldM step st fo).
  - by destruct (foldM step st fo).
Qed.

Lemma scripted_fold {A} st0 (f : State -> A -> Answer State) l : (forall x, x ∈ l -> scripted st0 (fun st => f st x)) -> scripted st0 (fun st => foldM f st l).
Proof.
  induction l as [|x l IH]; intros Hf; [apply scripted_ok|]. cbn [foldM]. apply (scripted_bind _ (fun st => f st x) (fun st => foldM f st l)); [apply Hf; by left|].
  apply IH. intros y Hy. apply Hf. by right.
Qed.

(** Reading first, and deciding, on what a query fixes. *)
Lemma scripted_read {A} st0 (a : State -> Answer A) (f : State -> A -> Answer State) : (forall st, query st = query st0 -> a st = a st0) ->
  (forall x, a st0 = Ok x -> scripted st0 (fun st => f st x)) -> scripted st0 (fun st => let? x := a st in f st x).
Proof.
  intros Ha Hf. apply (scripted_ext st0 (fun st => let? x := a st0 in f st x)); [|intros st E; by rewrite Ha].
  destruct (a st0) as [x|e|]; [by apply Hf|apply scripted_err|apply scripted_fuel].
Qed.
Lemma scripted_if st0 (b : State -> bool) f g : (forall st, query st = query st0 -> b st = b st0) ->
  scripted st0 f -> scripted st0 g -> scripted st0 (fun st => if b st then f st else g st).
Proof.
  intros Hb Hf Hg. apply (scripted_ext st0 (fun st => if b st0 then f st else g st)); [by destruct (b st0)|intros st E; by rewrite Hb].
Qed.

Lemma scripted_later st0 f (g : State -> State -> Answer State) : (forall st st1, query st = query st0 -> g st st1 = g st0 st1) ->
  scripted st0 f -> scripted st0 (g st0) -> scripted st0 (fun st => let? st1 := f st in g st st1).
Proof.
  intros Hg Hf Hs. apply (scripted_ext st0 (fun st => let? st1 := f st in g st0 st1)); [by apply scripted_bind|].
  intros st E. destruct (f st) as [st1| |]; [by apply Hg|done..].
Qed.

#[local] Ltac fixed :=
  let st := fresh "st" in let E := fresh "E" in
  intros st E; unfold matches_metadata; unfold query in E;
  let E1 := fresh in let E2 := fresh in let E3 := fresh in let E4 := fresh in let E5 := fresh in let E6 := fresh in
  injection E as E1 E2 E3 E4 E5 E6; by rewrite ?E1, ?E2, ?E3, ?E4, ?E5.
#[local] Ltac scripting :=
  repeat first
    [ solve [auto 1 with scripted]
    | match goal with |- scripted _ (fun st => let (_, _) := ?x in _) => destruct x end
    | apply scripted_if; [fixed| |]
    | apply scripted_read; [fixed|intros ? ?]
    | apply scripted_bind | apply scripted_fold; intros ? ? ].
Create HintDb scripted.
#[local] Hint Resolve scripted_ok scripted_err scripted_keep : scripted.

Lemma charge_pairs_scripted {A} st0 (l : list A) : scripted st0 (fun st => charge st (1 + len l)).
Proof. apply scripted_charge. len_lia. Qed.
Lemma charge_one_scripted st0 : scripted st0 (fun st => charge st 1).
Proof. by apply scripted_charge. Qed.
#[local] Hint Resolve charge_pairs_scripted charge_one_scripted : scripted.
Lemma observe_owner_scripted st0 s owner matched : scripted st0 (fun st => observe_owner st s owner matched).
Proof. unfold observe_owner, observe_pair. scripting. Qed.
#[local] Hint Resolve observe_owner_scripted : scripted.
Lemma observe_scope_scripted st0 o matched : scripted st0 (fun st => observe_scope matched st o).
Proof. unfold observe_scope. destruct o as [s owner]. scripting. Qed.
Lemma charge_owners_scripted st0 os : scripted st0 (fun st => charge_owners st os).
Proof. unfold charge_owners. scripting. Qed.
Lemma observe_event_scripted st0 fields matched event : scripted st0 (fun st => observe_event st fields matched event).
Proof. unfold observe_event. scripting. Qed.
#[local] Hint Resolve observe_scope_scripted charge_owners_scripted observe_event_scripted : scripted.
Lemma observe_intrinsic_scripted st0 fields meta : scripted st0 (fun st => observe_intrinsic is_match st fields meta).
Proof.
  unfold observe_intrinsic. scripting. apply scripted_later; [|apply charge_pairs_scripted|scripting].
  intros st st1 E. unfold query in E. injection E as _ _ Et _ _ _. by rewrite Et.
Qed.
#[local] Hint Resolve observe_intrinsic_scripted : scripted.
Lemma observe_scripted st0 id start end_ payload : scripted st0 (fun st => observe is_match st id start end_ payload).
Proof. unfold observe. scripting. Qed.
#[local] Hint Resolve observe_scripted : scripted.





(** ** Running a script *)

Definition pair_cost (p : bytes * bytes) (_ : unit) : Z := len (fst p) + len (snd p) + 32.

(** The limits of an answer. *)
Definition within (st : State) : Prop := st.(rows) <= ROWS_MAX /\ st.(size) <= DISCOVERY_MAX /\ st.(work) <= DISCOVERY_WORK /\ len st.(values) <= 5000.
Definition consistent (st : State) : Prop := ordered st.(values) /\ st.(size) = msum pair_cost st.(values) /\ 0 <= st.(work).








(** ** The rows of several files *)















Context {File : Type} (read : File -> option (list (option (list Row)))) (read_times : File -> option (list (option (list (option Z * option Z))))).




(** A state that no file was added to. *)
Definition fresh (st : State) : Prop := consistent st /\ within st /\ st.(rows) = 0 /\ st.(work) = 0 /\ st.(window) = None.










End Tags.

Module Sample.
End Sample.

Import External.Concrete Sample.

